(* ===== verification/_CoqProject ===== *)
-Q . S2P
Prelude.v
GoStrings.v
Paths.v
KeyValue.v
Pkginfo.v
Desc.v
Srcinfo.v
SourcePackage.v
Artifact.v
Constraint.v
Toposort.v
Resolver.v
Package.v
Dbwriter.v
Repo.v
Dbtool.v
Blob.v
RepoDB.v
RepoDBSpec.v
RepoDBOps.v
RepoDBQuiet.v
RepoDBExamples.v
Catalog.v
Ports.v
Trust.v
Upload.v
UploadSpec.v
History.v
UploadHistory.v
Lifecycle.v
LifecycleHistory.v
Joblog.v
JobRequest.v
Jobs.v
JobsInv.v
Rebuild.v
Base64.v
Token.v
CIAuth.v
KV.v
KVSpec.v
AuthStore.v
AuthFlow.v
AuthFlowSpec.v
AuthFlowHistory.v
AuthFlowExamples.v
Worklist.v
SourceRepo.v
PkgbuildEdit.v
BuildPlan.v
BuildSet.v
BuildSetSpec.v
BuildSetRun.v
Aurweb.v
AurwebSpec.v
AurwebLimit.v
AurwebUpstream.v
KayoTrust.v
KayoIndex.v
KayoTrustSpec.v
KayoServe.v
KayoResolve.v
KayoExamples.v
KayoSync.v
KayoSyncSpec.v
KayoSyncExamples.v
Credentials.v
CredentialsSpec.v
HttpClient.v
HttpClientSpec.v
HttpApi.v
HttpApiSpec.v
HttpExamples.v
MikoBuild.v
MikoBuildSpec.v
BuildConfig.v
BuildConfigSpec.v
BuildBackends.v
BuildBackendsSpec.v
BuildExamples.v
