(* ===== verification/Prelude.v ===== *)
(** * Kamisato: a verification of its package repository core

    Kamisato (the Go module under src/) runs a pacman repository: [ayato] stores packages
    and serves the repository databases, [miko] builds packages as jobs, [ayaka] drives
    builds from source repositories, [kayo] is an AUR front end with a trust policy,
    [thoma] wraps makepkg and [lumine] is the web interface.  They share libraries for the
    formats of pacman (pkg/raiou), for packages, repositories and dependencies
    (internal/pacman) and for the AUR (pkg/aurweb).  This development models what these
    programs compute and decide, and proves it correct; the calls that leave the program
    (network, compression, tar, gpg, git, containers) are parameters.

    ** How Go is modelled

    A function with results [(T, error)] returns a [result E T], and an early return is
    [Err]; errors are values of a type per package, with a constructor per message.  Strings
    are byte strings ([Ascii] strings), [int] and [int64] are [Z] with the 64-bit range
    where the code parses or checks it, times are [Z].  A map is a [gmap], and a [range]
    over it follows an arbitrary order, the class [RangeOrder]: a theorem over it holds for
    every iteration order.  Records are updated with [r <| field := v |>].  File stores and
    services are explicit state, and each operation on them may fail.

    ** The parts

    - [Prelude] (this file): the error monad, record update, iteration order, lists.
      [GoStrings]: the functions of strings, strconv, path and bufio that the code uses;
      [Paths]: cleaned absolute paths.
    - Formats, pkg/raiou. [KeyValue] (parse.go, buildinfo.go) lines and key-value pairs;
      [Pkginfo] (pkginfo.go, pkginfo_write.go); [Desc] (desc.go): parsers, writers and
      conversions, with round trips for the data the formats can carry, and examples of the
      data they cannot. [Srcinfo] (srcinfo*.go): the resolution of split packages.
    - Packages, internal/pacman/pkg. [Artifact]: file names of packages and their parts;
      [Package]: metadata of an archive, sonames and their changes; [SourcePackage]: what a
      source package needs to build.
    - Dependencies, internal/pacman/depend. [Constraint]: dependency specs; [Resolver]: the
      AUR resolver, a depth-first search whose fuel is the number of bases it may visit;
      [Toposort]: the graph and Kahn's algorithm, whose fuel is the number of nodes.
    - Databases, internal/pacman/repo. [Dbwriter]: the builder of a repository database and
      its archives; [Repo]: merging, reading within limits, names, differences; [Dbtool]: the
      native repo-add and repo-remove over a file store in which every operation may fail.
    - Publication, ayato. [Blob] (blob/blob.go, blob/localfs): the object store; between any
      two calls other processes may change it as they like, any call may fail before or after
      its effect, and the changes of this process are recorded. [RepoDB]
      (repository/repodb*.go, immutable.go, repository_fetch.go): the optimistic transactions
      that run the tool of [Dbtool] in a temporary directory and publish the result by
      compare-and-swap. [RepoDBSpec]: a weakest-precondition logic for these programs and the
      guarantees of a transaction; [RepoDBOps]: each operation under interference and
      faults; [RepoDBQuiet]: the same without them; [RepoDBExamples]: runs on a concrete store.
    - Services, ayato. [Catalog] (domain/*.go): repository policies, tiers and the catalog of
      physical names. [Ports] (service/ports.go): the interfaces the services call, a service
      as a program of such calls, and the logic of its log, the list of its calls with their
      results. [Trust] (internal/pacman/sign, service/signers.go): who may sign. [Upload]
      (service/upload*.go, publication.go): the publication of a batch; [UploadSpec]: its
      validation; [History]: facts about logs that the services share; [UploadHistory]: what an
      upload changes and what it comes to. [Lifecycle] (service/tier.go, remove.go,
      reconcile.go, namefile.go): promotion, removal and collection of orphans;
      [LifecycleHistory]: what they change.
    - Logins, ayato. [Base64] (Go's RawURLEncoding), [Token] (auth/signer.go, pkce.go): signed
      tokens; [CIAuth] (auth/ci*.go): credentials of CI.  [KV] (repository/kv): the shared
      key-value store with its expiries, faults and clock, handlers as programs of its calls,
      and pools of handlers in any state of progress; [KVSpec]: the logic of such programs and
      what holds of every interleaving.  [AuthStore] (repository/*repo.go, service/auth.go,
      revoke.go): one-time consumption, deny lists, devices, log tokens, administrators.
      [AuthFlow] (handler/oauth*.go, device*.go, refresh.go, revoke.go, auth/request.go,
      middleware/auth*.go, ci.go): every route of the login flows and the gates of the
      protected ones; [AuthFlowSpec]: each handler alone, the protocol it keeps towards the
      store and what its answer means; [AuthFlowHistory]: all of them together;
      [AuthFlowExamples]: runs on a concrete server.
    - Builds, miko. [Joblog] (joblog/buffer.go, handler/build.go, client/build.go): the log
      buffer, its event stream and the reader of the client; [JobRequest] (domain/job.go and
      the validation in service/jobs.go); [Jobs]: the state of the service and every critical
      section of its goroutines (submission, queue, worker, cancellation, sweeper, restart),
      with [step] interleaving them; [JobsInv]: the invariant of the interleavings;
      [Rebuild] (service/soname.go): rebuilds after a soname bump.
    - Planning, ayaka. [SourceRepo] (source): selection and dependencies of source packages;
      [PkgbuildEdit] (service/source): bumps of pkgrel and pkgver; [Worklist]: the searches the
      plans share; [BuildPlan] (service/plan): what a run must build, in which order and on
      which worker, and the removal of packages that left the source; [BuildSet]
      (service/buildset): the closure of packages over local, AUR and repository sources;
      [BuildSetSpec]: what a plan holds; [BuildSetRun]: its builds and their publication.
    - AUR interface, pkg/aurweb. [Aurweb]: records, queries, the RPC with its fallback to an
      upstream; [AurwebSpec]: its answers; [AurwebLimit]: the dump cache as a step relation of
      concurrent requests, and the rate limiter; [AurwebUpstream]: the upstream's client.
    - Trust, kayo. [KayoTrust] (trust, federate, clonecache, service/verify.go): approvals, the
      sources by rank and the gate; [KayoIndex] (pkgindex): a source's snapshot; [KayoTrustSpec]:
      what passes the gate; [KayoServe] (gitserve, service/review.go, update.go): pinned
      repositories and reviews; [KayoResolve] (service/resolve.go): targets and provenance;
      [KayoExamples]: runs.  [KayoSync] (ayatosrc, ayato/service/aur, ayato/protocol): catalogs
      signed by ayato and accepted by kayo; [KayoSyncSpec]: the invariant of every run;
      [KayoSyncExamples]: an honest ayato, and runs that are refused.
    - Stored credentials, ayato/client/auth/store. [Credentials]: the registry, the modes and the
      keyring, with a script of faults for each operation; [CredentialsSpec]: what it leaves.
    - Clients, internal/http/client, ayato/client, miko/client. [HttpClient]: requests with their
      credentials, redirects, retries and the refresh of a session, against any server;
      [HttpClientSpec]: where a credential goes and how often a call is sent; [HttpApi]: the
      calls of both APIs, downloads, the remote signer and uploads of packages; [HttpApiSpec]:
      what an upload publishes; [HttpExamples]: runs.
    - Builds of a job, miko/service, miko/domain. [MikoBuild] (trust.go, build.go, source.go,
      aur_source.go, aur_dependencies.go, trustgate.go, upload.go): a job with its AUR
      dependencies as a program over a log of its calls; [MikoBuildSpec]: what is built before
      what, with runs.
    - Build backends, internal/pacman/builder. [BuildConfig] (config.go, internal/buildenv): what
      operators and projects configure, its resolution, and the text written for pacman and the
      shell; [BuildConfigSpec]: what a project reaches, what pacman reads, and a reader of the
      shell's words with what it reads; [BuildBackends] (docker, bwrap, devtools,
      internal/artifact, factory): every backend as a program over a log of its calls;
      [BuildBackendsSpec]: what it disposes of, what its result means and what a container
      reaches; [BuildExamples]: runs.

    ** What the theorems show

    Round trips: what is written is read back ([Pkginfo], [Desc], [Dbwriter], [Repo],
    [Artifact], [Constraint], the log stream).  Functional behaviour on every branch of the
    parsers, the builder, the validation and the comparisons.  Safety under failure: a
    repository operation leaves the old database or the new one, whatever operation fails
    ([Dbtool]).  Publication: whatever other processes write and whichever call fails, a
    transaction replaces a canonical database only by exactly the content it read with its
    own change applied, reports the commit truthfully, and never writes an object it does
    not own ([RepoDBOps]); undisturbed, it succeeds and is one atomic update ([RepoDBQuiet]).
    Services: whatever the repository answers to each call, an upload, a promotion, a removal
    and a collection make only changes that what they read and did before justifies, an
    upload that fails has undone or tried to undo what it committed, and a lease is released on
    every path ([UploadHistory], [LifecycleHistory]).
    Logins: however requests on any number of instances interleave over one store, and
    whatever it fails, a refresh token and a one-time code are spent once, an ended session
    stays ended, a device is let in only for an administrator GitHub vouched for, and no
    login request writes the list of administrators ([AuthFlowHistory]).
    Concurrency: in every interleaving a job has one owner until it is finished, is never lost,
    and keeps success and failure once it has them ([JobsInv]).  Termination with correct results of the
    graph algorithms for every iteration order ([Toposort], [Resolver], [Rebuild]), and
    bounds on what is read and stored.  Planning: a plan holds exactly the sources that are
    needed, in an order that builds dependencies first, a run gives every build what its
    dependencies produced, and publishes all of the packages or none, unless removing a
    repository that failed itself fails ([BuildPlan], [BuildSetSpec], [BuildSetRun]).  AUR: the
    upstream is asked only for names the host does not answer, and clones and snapshots of what a
    host manages are never redirected to it, a dump is built by one request at a time, and the
    limiter counts exactly ([AurwebSpec], [AurwebLimit]).  Trust: kayo serves only records its
    policy trusts, of the source that ranks first (the upstream's own bulk dump apart), a review pins the commit it audited, and in every run of kayo a catalog is accepted
    only under the pinned key, fresh and newer than the last ([KayoTrustSpec], [KayoServe],
    [KayoSyncSpec]).  Credentials: whichever write fails or is the last before a crash, a
    server's tokens are the old pair, none, or the new pair, and a refresh never undoes a login
    made meanwhile ([CredentialsSpec]).  Clients: whatever a server answers, a credential goes
    only to the origin it is for, and an upload that reports success has published every
    package ([HttpClientSpec], [HttpApiSpec]).  Builds: no AUR dependency is built, and
    nothing published, before the trust policy let all of them pass ([MikoBuildSpec]); a build disposes of all it acquired,
    its container writes only the output and the caches, success means packages and a build
    command that ended well, and no configured text is read by the shell as anything but itself
    ([BuildBackendsSpec], [BuildConfigSpec]).  Theorems and examples that refute what the code
    means to do are kept next to the definitions they are about.

    ** Bounds and fuel

    The scanner's line limit is the code's 64 KiB (1 MiB at the stream client);
    databases are read up to 512 MiB; the job store keeps 500 jobs and the queue 128; a database transaction is tried 6 times and
    an immutable object 3 times, as in the code, and the last conflict is the error; an upstream
    AUR is asked in batches of 150, at most 4 times each; a client follows nine redirects and
    refuses the tenth, and sends a call as often as its policy says.  Where a definition takes fuel (the
    graph loops and the resolver), a theorem states that the fuel the definition passes, or
    a stated bound, suffices.

    ** Not modelled

    Staged uploads, upstream synchronisation of repositories and the read-only queries of the
    services are not modelled, and the JSON records behind the ports of names and signers are not.  Of the
    key-value stores, Workers KV (which cannot add atomically, so consumption fails closed on
    it), encryption at rest and the audits of keys are left out.
    Decompression, tar, gzip, gpg, OpenPGP, ELF, vercmp, HTTP, git, containers and the key-value
    databases are third-party code or services: they are parameters where the model needs
    them, as are the tables of Unicode beyond ASCII and the texts of durations.  Kayo's static
    audit (shell syntax trees), its overlays and its advisories, the scripts that run inside a
    build container, key files and bug reports are left out.  HTTP handlers, routers,
    configuration files, command-line front ends and the web interface are glue over the
    modelled functions.  The manifest lists each part of the
    system with what is modelled of it. *)

From stdpp Require Export gmap strings list sorting.
From Stdlib Require Export ZArith Lia Ascii.

#[global] Arguments String.append : simpl nomatch.

(** ** The error monad

    A Go function with results [(T, error)] returns a [result E T]: [Err e] is
    the early return with a non-nil error. *)

Inductive result (E A : Type) : Type :=
| Ok (a : A)
| Err (e : E).
Arguments Ok {E A} a.
Arguments Err {E A} e.

#[export] Instance result_ret {E} : MRet (result E) := λ A a, Ok a.
#[export] Instance result_bind {E} : MBind (result E) := λ A B f m,
  match m with Ok a => f a | Err e => Err e end.
#[export] Instance result_fmap {E} : FMap (result E) := λ A B f m,
  match m with Ok a => Ok (f a) | Err e => Err e end.

(** [WrapErr]: rename the error of a failed call. *)
Definition map_err {E1 E2 A} (f : E1 → E2) (m : result E1 A) : result E2 A :=
  match m with Ok a => Ok a | Err e => Err (f e) end.

Definition result_of_option {E A} (e : E) (o : option A) : result E A :=
  match o with Some a => Ok a | None => Err e end.

Definition is_ok {E A} (m : result E A) : bool :=
  match m with Ok _ => true | Err _ => false end.

(** A [for] loop whose body may return early with an error. *)
Fixpoint foldM {E A S} (f : S → A → result E S) (s : S) (l : list A) : result E S :=
  match l with
  | [] => Ok s
  | a :: l => match f s a with Ok s' => foldM f s' l | Err e => Err e end
  end.

Section result_lemmas.
Context {E A B : Type}.
Implicit Types (m : result E A).

Lemma bind_Ok m (f : A → result E B) b :
  (m ≫= f) = Ok b ↔ ∃ a, m = Ok a ∧ f a = Ok b.
Proof. destruct m; naive_solver. Qed.

Lemma fmap_Ok m (f : A → B) b :
  (f <$> m) = Ok b ↔ ∃ a, m = Ok a ∧ f a = b.
Proof. destruct m; naive_solver. Qed.

Lemma foldM_app (f : B → A → result E B) s l1 l2 :
  foldM f s (l1 ++ l2) = foldM f s l1 ≫= λ s', foldM f s' l2.
Proof.
  revert s. induction l1 as [|a l1 IH]; intros s; [done|]. simpl.
  destruct (f s a); [apply IH|done].
Qed.

(** A loop whose body never fails is a fold. *)
Lemma foldM_total (f : B → A → result E B) (g : B → A → B) s l :
  (∀ s a, a ∈ l → f s a = Ok (g s a)) → foldM f s l = Ok (foldl g s l).
Proof.
  revert s. induction l as [|a l IH]; intros s Hf; [done|]. simpl.
  rewrite Hf by set_solver. apply IH. set_solver.
Qed.

(** Invariants of a loop. *)
Lemma foldM_ind (P : B → Prop) (f : B → A → result E B) s l s' :
  P s → (∀ s a s', a ∈ l → P s → f s a = Ok s' → P s') →
  foldM f s l = Ok s' → P s'.
Proof.
  revert s. induction l as [|a l IH]; intros s Hs Hstep H; simplify_eq/=; [done|].
  destruct (f s a) as [s1|] eqn:Hfa; [|done].
  eapply IH; [| |exact H].
  - eapply Hstep; [|exact Hs|exact Hfa]. set_solver.
  - intros; eapply Hstep; eauto. set_solver.
Qed.
End result_lemmas.

(** A loop that only checks its elements. *)
Lemma foldM_check {E A} (f : A → result E unit) l :
  foldM (λ _ a, f a) tt l = Ok tt ↔ Forall (λ a, f a = Ok tt) l.
Proof.
  induction l as [|a l IH]; simpl; [done|]. rewrite Forall_cons, <-IH.
  destruct (f a) as [[]|]; naive_solver.
Qed.

#[export] Instance Ok_inj {E A} : Inj (=) (=) (@Ok E A).
Proof. congruence. Qed.

(** Invert the monadic equations of the context. *)
Ltac simplify_result :=
  repeat match goal with
  | H : (_ ≫= _) = Ok _ |- _ => apply bind_Ok in H as (? & ? & ?)
  | H : (_ <$> _) = Ok _ |- _ => apply fmap_Ok in H as (? & ? & ?)
  | H : mret _ = Ok _ |- _ => injection H as H
  | H : Ok _ = Ok _ |- _ => injection H as H
  | H : Ok _ = Err _ |- _ => discriminate H
  | H : Err _ = Ok _ |- _ => discriminate H
  | H : Err _ = Err _ |- _ => injection H as H
  | _ => progress simplify_eq/=
  end.

(** Case analysis on every [match] and [if] of a hypothesis or of the goal. *)
Ltac case_all :=
  repeat (case_match; simplify_eq/=).

(** ** Record update

    [r <| f := v |>] is the record [r] after the assignment [r.f = v].  A record
    type gives its eta expansion once, as an instance of [Eta]; the setter of
    each field is computed from it. *)

Class Eta (R : Type) := eta : R → R.
Class Setter {R T : Type} (getter : R → T) := set_field : (T → T) → R → R.

Ltac solve_setter :=
  match goal with
  | |- @Setter ?R ?T ?g =>
      let f := fresh "f" in let r := fresh "r" in
      intros f r;
      let e := eval hnf in (@eta R _ r) in
      let p := eval pattern (g r) in e in
      match p with
      | ?F _ => let b := eval cbv beta in (F (f (g r))) in exact b
      end
  end.
#[export] Hint Extern 1 (Setter _) => solve_setter : typeclass_instances.

Notation "r <| f := v |>" := (set_field (getter := f) (λ _, v) r)
  (at level 1, f constr, v at level 200, left associativity,
   format "r  <| f  :=  v |>") : stdpp_scope.
Notation "r <| f ::= g |>" := (set_field (getter := f) g r)
  (at level 1, f constr, g at level 200, left associativity,
   format "r  <| f  ::=  g |>") : stdpp_scope.

(** ** Sorting and deduplication ([slices.Sort], [slices.Compact], [lo.Uniq]) *)

Definition sort_strings (l : list string) : list string := merge_sort String.le l.

Lemma sort_strings_perm l : sort_strings l ≡ₚ l.
Proof. apply merge_sort_Permutation. Qed.

Lemma sort_strings_sorted l : StronglySorted String.le (sort_strings l).
Proof. apply StronglySorted_merge_sort; apply _. Qed.

Lemma sort_strings_unique l k :
  StronglySorted String.le k → k ≡ₚ l → sort_strings l = k.
Proof.
  intros Hk Hp. apply (StronglySorted_unique String.le);
    [apply sort_strings_sorted|done|].
  by rewrite sort_strings_perm, Hp.
Qed.

#[export] Instance sort_strings_Proper : Proper ((≡ₚ) ==> (=)) sort_strings.
Proof.
  intros l k Hlk. apply sort_strings_unique; [apply sort_strings_sorted|].
  by rewrite sort_strings_perm, Hlk.
Qed.

Lemma sort_strings_id l : StronglySorted String.le l → sort_strings l = l.
Proof. intros Hl. by apply sort_strings_unique. Qed.

Lemma elem_of_sort_strings x l : x ∈ sort_strings l ↔ x ∈ l.
Proof. by rewrite sort_strings_perm. Qed.

Lemma NoDup_sort_strings l : NoDup (sort_strings l) ↔ NoDup l.
Proof. by rewrite sort_strings_perm. Qed.

(** [slices.SortFunc] by a string key. *)
Definition key_le {A} (key : A → string) (a b : A) : Prop := String.le (key a) (key b).

#[export] Instance key_le_dec {A} (key : A → string) : RelDecision (key_le key).
Proof. intros a b. unfold key_le. apply _. Defined.
#[export] Instance key_le_total {A} (key : A → string) : Total (key_le key).
Proof. intros a b. unfold key_le. apply (total String.le). Qed.
#[export] Instance key_le_trans {A} (key : A → string) : Transitive (key_le key).
Proof. intros a b c. unfold key_le. apply (transitivity (R := String.le)). Qed.

Definition sort_by {A} (key : A → string) (l : list A) : list A := merge_sort (key_le key) l.

Lemma sort_by_perm {A} (key : A → string) l : sort_by key l ≡ₚ l.
Proof. apply merge_sort_Permutation. Qed.

Lemma sort_by_sorted {A} (key : A → string) l : StronglySorted (key_le key) (sort_by key l).
Proof. apply StronglySorted_merge_sort; apply _. Qed.

Lemma NoDup_map_inj {A B} (f : A → B) l x y :
  NoDup (map f l) → x ∈ l → y ∈ l → f x = f y → x = y.
Proof.
  intros Hnd (i & Hi)%list_elem_of_lookup_1 (j & Hj)%list_elem_of_lookup_1 Hf.
  assert (i = j) as ->; [|congruence].
  eapply NoDup_lookup; [exact Hnd| |]; rewrite list_lookup_fmap; [by rewrite Hi|].
  rewrite Hj. simpl. by rewrite Hf.
Qed.

(** With distinct keys the sorted list is the only one. *)
Lemma sort_by_unique {A} (key : A → string) l k :
  NoDup (map key l) → StronglySorted (key_le key) l → StronglySorted (key_le key) k → l ≡ₚ k → l = k.
Proof.
  intros Hnd Hl. revert k. induction Hl as [|a l Hl IH Ha]; intros k Hk Hp.
  - by apply Permutation_nil_l in Hp.
  - destruct Hk as [|b k Hk Hb]; [by apply Permutation_nil_r in Hp|].
    assert (a = b) as ->.
    { eapply (NoDup_map_inj key); [exact Hnd|set_solver|rewrite Hp; set_solver|].
      apply (anti_symm String.le).
      - assert (b ∈ a :: l) as [->|Hin]%elem_of_cons by (rewrite Hp; set_solver); [done|].
        rewrite Forall_forall in Ha. by apply Ha.
      - assert (a ∈ b :: k) as [->|Hin]%elem_of_cons by (rewrite <-Hp; set_solver); [done|].
        rewrite Forall_forall in Hb. by apply Hb. }
    f_equal. apply IH; [by apply NoDup_cons in Hnd as [_ ?]|done|].
    by apply Permutation_cons_inv in Hp.
Qed.

Lemma sort_by_Proper {A} (key : A → string) l k :
  NoDup (map key l) → l ≡ₚ k → sort_by key l = sort_by key k.
Proof.
  intros Hnd Hp. apply (sort_by_unique key); try apply sort_by_sorted.
  - by rewrite sort_by_perm.
  - by rewrite !sort_by_perm.
Qed.

(** [slices.Compact] drops consecutive repetitions. *)
Fixpoint compact (l : list string) : list string :=
  match l with
  | [] => []
  | x :: l' =>
      match l' with
      | [] => [x]
      | y :: _ => if decide (x = y) then compact l' else x :: compact l'
      end
  end.

Lemma compact_cons x y l :
  compact (x :: y :: l) = if decide (x = y) then compact (y :: l) else x :: compact (y :: l).
Proof. done. Qed.

Lemma elem_of_compact x l : x ∈ compact l ↔ x ∈ l.
Proof.
  induction l as [|a [|b l] IH]; [done..|]. rewrite compact_cons.
  case_decide as Hab; rewrite !elem_of_cons in *; [subst; rewrite IH; tauto|].
  rewrite IH. done.
Qed.

Lemma Forall_compact (P : string → Prop) l : Forall P l → Forall P (compact l).
Proof. rewrite !Forall_forall. intros Hl x. rewrite elem_of_compact. auto. Qed.

Lemma compact_sorted l :
  StronglySorted String.le l → StronglySorted String.le (compact l) ∧ NoDup (compact l).
Proof.
  induction l as [|a [|b l] IH]; intros Hs.
  - split; constructor.
  - split; [done|]. apply NoDup_singleton.
  - rewrite compact_cons. apply StronglySorted_cons in Hs as [Ha Hs].
    destruct (IH Hs) as [Hsc Hnd]. case_decide as Hab; [done|]. split.
    + constructor; [done|]. by apply Forall_compact.
    + constructor; [|done]. rewrite elem_of_compact. intros Hin.
      apply Hab. apply (anti_symm String.le).
      * rewrite Forall_forall in Ha. apply Ha. set_solver.
      * apply StronglySorted_cons in Hs as [Hb _].
        apply elem_of_cons in Hin as [->|Hin]; [done|].
        rewrite Forall_forall in Hb. by apply Hb.
Qed.

(** [lo.Uniq] keeps the first occurrence of each element. *)
Fixpoint uniq_aux (seen : gset string) (l : list string) : list string :=
  match l with
  | [] => []
  | x :: l => if decide (x ∈ seen) then uniq_aux seen l
              else x :: uniq_aux ({[x]} ∪ seen) l
  end.
Definition uniq (l : list string) : list string := uniq_aux ∅ l.

Lemma elem_of_uniq_aux x seen l : x ∈ uniq_aux seen l ↔ x ∈ l ∧ x ∉ seen.
Proof.
  revert seen. induction l as [|a l IH]; intros seen; simpl; [set_solver|].
  case_decide; rewrite ?elem_of_cons, IH; [set_solver|].
  destruct (decide (x = a)); set_solver.
Qed.

Lemma elem_of_uniq x l : x ∈ uniq l ↔ x ∈ l.
Proof. unfold uniq. rewrite elem_of_uniq_aux. set_solver. Qed.

Lemma NoDup_uniq l : NoDup (uniq l).
Proof.
  unfold uniq. generalize (∅ : gset string). induction l as [|a l IH]; intros seen; simpl.
  - constructor.
  - case_decide; [done|]. constructor; [|done]. rewrite elem_of_uniq_aux. set_solver.
Qed.

(** ** Iteration order of Go maps

    [for k := range m] visits the keys in an unspecified order.  A model that
    iterates over a map takes the order from an instance of this class, so that
    a theorem proved for every instance holds for every order the runtime may
    choose. *)

Class RangeOrder := {
  range_keys : gset string → list string;
  range_keys_perm X : range_keys X ≡ₚ elements X;
}.

(** The order of the [elements] function, for concrete evaluations. *)
Definition elements_order : RangeOrder :=
  {| range_keys X := elements X; range_keys_perm X := reflexivity _ |}.

Section range.
Context {R : RangeOrder}.

Lemma elem_of_range_keys x X : x ∈ range_keys X ↔ x ∈ X.
Proof. by rewrite range_keys_perm, elem_of_elements. Qed.

Lemma NoDup_range_keys X : NoDup (range_keys X).
Proof. rewrite range_keys_perm. apply NoDup_elements. Qed.

(** [for k, v := range m]. *)
Definition range_map {A} (m : gmap string A) : list (string * A) :=
  omap (λ k, (k,.) <$> m !! k) (range_keys (dom m)).

Lemma elem_of_range_map {A} (m : gmap string A) k v :
  (k, v) ∈ range_map m ↔ m !! k = Some v.
Proof.
  unfold range_map. rewrite list_elem_of_omap. split.
  - intros (k' & _ & Hk). destruct (m !! k') eqn:E; simplify_eq/=. done.
  - intros Hk. exists k. rewrite elem_of_range_keys, elem_of_dom, Hk. eauto.
Qed.

Lemma range_map_keys {A} (m : gmap string A) : (range_map m).*1 = range_keys (dom m).
Proof.
  unfold range_map.
  assert (∀ k, k ∈ range_keys (dom m) → is_Some (m !! k)) as Hk.
  { intros k. by rewrite elem_of_range_keys, elem_of_dom. }
  induction (range_keys (dom m)) as [|k l IH]; [done|]; simpl.
  destruct (Hk k) as [v ->]; [set_solver|]. simpl. f_equal. apply IH. set_solver.
Qed.

Lemma NoDup_range_map {A} (m : gmap string A) : NoDup (range_map m).*1.
Proof. rewrite range_map_keys. apply NoDup_range_keys. Qed.

(** A loop that stores at most one value under each key it visits. *)
Definition range_insert {A B} (f : string → A → option B) (m0 : gmap string B)
    (m : gmap string A) : gmap string B :=
  foldl (λ out kv, match f kv.1 kv.2 with Some x => <[kv.1 := x]> out | None => out end)
    m0 (range_map m).

(** Its result does not depend on the order of the visits. *)
Lemma lookup_range_insert {A B} (f : string → A → option B) m0 (m : gmap string A) j :
  range_insert f m0 m !! j
  = match m !! j ≫= f j with Some x => Some x | None => m0 !! j end.
Proof.
  unfold range_insert.
  assert (∀ l (out : gmap string B), NoDup l.*1 →
    foldl (λ out kv, match f kv.1 kv.2 with Some x => <[kv.1 := x]> out | None => out end)
      out l !! j
    = match (list_to_map l : gmap string A) !! j ≫= f j with
      | Some x => Some x | None => out !! j end) as Hl.
  { induction l as [|[k v] l IH]; intros out Hnd; simpl; [by rewrite lookup_empty|].
    apply NoDup_cons in Hnd as [Hk Hnd]. rewrite IH by done.
    destruct (decide (k = j)) as [->|Hne].
    - rewrite lookup_insert_eq, not_elem_of_list_to_map_1 by done. simpl.
      destruct (f j v); [by rewrite lookup_insert_eq|done].
    - rewrite lookup_insert_ne by done. destruct (f k v); [|done].
      by rewrite lookup_insert_ne by done. }
  rewrite Hl by apply NoDup_range_map.
  assert ((list_to_map (range_map m) : gmap string A) = m) as ->; [|done].
  apply map_eq. intros i. apply option_eq. intros v.
  rewrite <-elem_of_list_to_map by apply NoDup_range_map. apply elem_of_range_map.
Qed.

(** A loop that changes, for each key it visits, at most the value under that key. *)
Definition range_alter {A B} (g : string → A → B → B) (b : gmap string B)
    (m : gmap string A) : gmap string B :=
  foldl (λ acc kv, alter (g kv.1 kv.2) kv.1 acc) b (range_map m).

Lemma list_to_map_range {A} (m : gmap string A) :
  (list_to_map (range_map m) : gmap string A) = m.
Proof.
  apply map_eq. intros i. apply option_eq. intros v.
  rewrite <-elem_of_list_to_map by apply NoDup_range_map. apply elem_of_range_map.
Qed.

Lemma lookup_range_alter {A B} (g : string → A → B → B) b (m : gmap string A) j :
  range_alter g b m !! j
  = match m !! j with Some a => g j a <$> b !! j | None => b !! j end.
Proof.
  unfold range_alter. rewrite <-(list_to_map_range m) at 2.
  pose proof (NoDup_range_map m) as Hnd. revert b.
  induction (range_map m) as [|[k v] l IH]; intros b; simpl; [by rewrite lookup_empty|].
  apply NoDup_cons in Hnd as [Hk Hnd]. rewrite IH by done.
  destruct (decide (k = j)) as [->|Hne].
  - by rewrite lookup_insert_eq, not_elem_of_list_to_map_1, lookup_alter_eq by done.
  - by rewrite lookup_insert_ne, lookup_alter_ne by done.
Qed.

(** A loop that deletes some of the keys it visits. *)
Lemma lookup_range_delete {A B} (P : string → A → bool) (b : gmap string B) (m : gmap string A) j :
  foldl (λ acc kv, if P kv.1 kv.2 then delete kv.1 acc else acc) b (range_map m) !! j
  = if match m !! j with Some a => P j a | None => false end then None else b !! j.
Proof.
  rewrite <-(list_to_map_range m) at 2.
  pose proof (NoDup_range_map m) as Hnd. revert b.
  induction (range_map m) as [|[k v] l IH]; intros b; simpl; [by rewrite lookup_empty|].
  apply NoDup_cons in Hnd as [Hk Hnd]. rewrite IH by done.
  destruct (decide (k = j)) as [->|Hne].
  - rewrite lookup_insert_eq, not_elem_of_list_to_map_1 by done.
    destruct (P j v); [by rewrite lookup_delete_eq|done].
  - rewrite lookup_insert_ne by done. destruct (P k v); [|done].
    by rewrite lookup_delete_ne by done.
Qed.

Lemma range_map_empty {A} : range_map (∅ : gmap string A) = [].
Proof.
  unfold range_map. rewrite dom_empty_L.
  assert (range_keys ∅ = []) as ->; [|done].
  apply Permutation_nil. by rewrite range_keys_perm, elements_empty.
Qed.
End range.

(** ** Lists *)

(** A loop that fills a map. *)
Lemma lookup_fill {A} (f : string → A) (l : list string) (m : gmap string A) k :
  foldl (λ m n, <[n := f n]> m) m l !! k = if decide (k ∈ l) then Some (f k) else m !! k.
Proof.
  revert m. induction l as [|a l IH]; intros m; simpl; [done|]. rewrite IH.
  destruct (decide (k ∈ l)) as [Hk|Hk]; [by rewrite decide_True by set_solver|].
  destruct (decide (k = a)) as [->|Ha].
  - by rewrite lookup_insert_eq, decide_True by set_solver.
  - by rewrite lookup_insert_ne, decide_False by set_solver.
Qed.


Lemma Forall_filter_l {A} (P Q : A → Prop) `{∀ x, Decision (Q x)} l :
  Forall P l → Forall P (filter Q l).
Proof.
  rewrite !Forall_forall. intros HP x [_ Hx]%list_elem_of_filter. by apply HP.
Qed.

Lemma forallb_Forall {A} (f : A → bool) l : forallb f l = true ↔ Forall (λ x, f x = true) l.
Proof.
  rewrite forallb_forall, Forall_forall. by setoid_rewrite list_elem_of_In.
Qed.

Lemma length_filter_zero {A} (P : A → Prop) `{∀ x, Decision (P x)} l :
  length (filter P l) = 0 ↔ ∀ x, x ∈ l → ¬ P x.
Proof.
  split.
  - intros Hl%nil_length_inv x Hx HP.
    assert (x ∈ filter P l) as Hf by by apply list_elem_of_filter.
    rewrite Hl in Hf. set_solver.
  - intros Hl. induction l as [|a l IH]; [done|]. rewrite filter_cons.
    rewrite decide_False by (apply Hl; set_solver). apply IH. set_solver.
Qed.

Lemma filter_id {A} (P : A → Prop) `{∀ x, Decision (P x)} (l : list A) :
  (∀ x, x ∈ l → P x) → filter P l = l.
Proof.
  induction l as [|a l IH]; intros Hl; [done|]. rewrite filter_cons, decide_True by set_solver.
  f_equal. apply IH. set_solver.
Qed.

(** ** A text form of countable types

    The examples use it where the model takes a codec as a parameter. *)

Fixpoint text_of_positive (p : positive) : string :=
  match p with
  | xH => "."
  | xO p => String "0" (text_of_positive p)
  | xI p => String "1" (text_of_positive p)
  end.

Fixpoint positive_of_text (s : string) : positive :=
  match s with
  | "" => 1
  | String "0" s => (positive_of_text s)~0
  | String "1" s => (positive_of_text s)~1
  | String _ _ => 1
  end%string%positive.

Definition to_text {A} `{Countable A} (a : A) : string := text_of_positive (encode a).
Definition of_text {A} `{Countable A} (s : string) : option A := decode (positive_of_text s).

Lemma of_to_text {A} `{Countable A} (a : A) : of_text (to_text a) = Some a.
Proof.
  unfold of_text, to_text. assert (∀ p, positive_of_text (text_of_positive p) = p) as ->.
  { intros p. induction p as [p IH|p IH|]; simpl; by rewrite ?IH. }
  apply decode_encode.
Qed.

Lemma to_text_not_nil {A} `{Countable A} (a : A) : to_text a ≠ "".
Proof. unfold to_text. by destruct (encode a). Qed.

Lemma elem_of_concat_map {A B} (f : A → list B) l y : y ∈ concat (map f l) ↔ ∃ a, a ∈ l ∧ y ∈ f a.
Proof.
  induction l as [|a l IH]; cbn; [split; [by intros ?%elem_of_nil | by intros (a & ?%elem_of_nil & _)] |].
  rewrite elem_of_app, IH; split.
  - intros [Hy | (a' & ? & ?)]; [exists a; split; [by left | done] | exists a'; split; [by right | done]].
  - intros (a' & [-> | ?]%elem_of_cons & ?); [by left | right; by exists a'].
Qed.

Create HintDb kamisato.
#[export] Hint Resolve sort_strings_sorted NoDup_uniq NoDup_range_keys : kamisato.
