(* ===== verification/GoStrings.v ===== *)
(** * Go's string functions

    A Go string is a sequence of bytes; it is a [string] here, one [ascii] per
    byte.  This file gives the functions of the packages [strings], [strconv]
    and [bufio] that the program calls, byte for byte, with the lemmas the
    parsers and printers share. *)

From S2P Require Import Prelude.
From Stdlib Require Import DecimalString DecimalN DecimalZ ZifyBool ZifyN.

Implicit Types (s t p q v : string) (c d : ascii).

(** ** Prefixes and suffixes *)

(** [strip_prefix p s] is the rest of [s] after the prefix [p]. *)
Fixpoint strip_prefix p s : option string :=
  match p, s with
  | EmptyString, _ => Some s
  | String c p, String d s => if decide (c = d) then strip_prefix p s else None
  | _, _ => None
  end.

(** [strip_suffix p s] is the part of [s] before the suffix [p]. *)
Fixpoint strip_suffix p s : option string :=
  if decide (s = p) then Some ""
  else match s with
       | EmptyString => None
       | String c s => String c <$> strip_suffix p s
       end.

Definition has_prefix s p : bool := bool_decide (is_Some (strip_prefix p s)).
Definition has_suffix s p : bool := bool_decide (is_Some (strip_suffix p s)).
Definition trim_prefix s p : string := default s (strip_prefix p s).
Definition trim_suffix s p : string := default s (strip_suffix p s).

(** ** Searching: [strings.Cut], [strings.Index], [strings.SplitN(s, sep, 2)]

    [cut sep s] is the text before and after the first occurrence of [sep]. *)
Fixpoint cut (sep s : string) : option (string * string) :=
  match strip_prefix sep s with
  | Some t => Some ("", t)
  | None => match s with
            | EmptyString => None
            | String c s => prod_map (String c) id <$> cut sep s
            end
  end.

(** [strings.LastIndex]: split at the last occurrence. *)
Fixpoint cut_last (sep s : string) : option (string * string) :=
  match s with
  | EmptyString => if decide (sep = "") then Some ("", "") else None
  | String c s' =>
      match cut_last sep s' with
      | Some (a, b) => Some (String c a, b)
      | None => (λ t, ("", t)) <$> strip_prefix sep s
      end
  end.

Definition contains s sep : bool := bool_decide (is_Some (cut sep s)).

(** [strings.Split(s, string(c))]. *)
Fixpoint split_char c s : list string :=
  match s with
  | EmptyString => [""]
  | String d s =>
      if decide (c = d) then "" :: split_char c s
      else match split_char c s with
           | [] => [String d ""]
           | l :: ls => String d l :: ls
           end
  end.

(** [strings.Join]. *)
Fixpoint join (sep : string) (l : list string) : string :=
  match l with
  | [] => ""
  | [s] => s
  | s :: l => s +:+ sep +:+ join sep l
  end.

(** Does a byte occur in a string? *)
Fixpoint occurs c s : bool :=
  match s with
  | EmptyString => false
  | String d s => bool_decide (c = d) || occurs c s
  end.

(** Does every byte satisfy a test? *)
Fixpoint all_bytes (f : ascii → bool) s : bool :=
  match s with
  | EmptyString => true
  | String d s => f d && all_bytes f s
  end.

(** Byte-for-byte replacement ([strings.NewReplacer], [strings.ReplaceAll] with
    one-byte arguments). *)
Fixpoint map_bytes (f : ascii → ascii) s : string :=
  match s with
  | EmptyString => ""
  | String d s => String (f d) (map_bytes f s)
  end.

(** ** [strings.TrimSpace]

    White space is Unicode's: the six ASCII bytes, U+0085 and U+00A0 (two bytes
    of UTF-8), U+1680, U+2000 to U+200A, U+2028, U+2029, U+202F, U+205F and
    U+3000 (three bytes). *)
Definition byte c : N := N_of_ascii c.

Definition is_space2 c d : bool :=
  (byte c =? 194)%N && ((byte d =? 133)%N || (byte d =? 160)%N).

Definition is_space3 c d e : bool :=
  ((byte c =? 225)%N && (byte d =? 154)%N && (byte e =? 128)%N)
  || ((byte c =? 226)%N && (byte d =? 128)%N &&
      (((128 <=? byte e)%N && (byte e <=? 138)%N)
       || (byte e =? 168)%N || (byte e =? 169)%N || (byte e =? 175)%N))
  || ((byte c =? 226)%N && (byte d =? 129)%N && (byte e =? 159)%N)
  || ((byte c =? 227)%N && (byte d =? 128)%N && (byte e =? 128)%N).

Fixpoint trim_left s : string :=
  match s with
  | EmptyString => ""
  | String a s1 =>
      if Ascii.is_space a then trim_left s1
      else match s1 with
           | EmptyString => s
           | String b s2 =>
               if is_space2 a b then trim_left s2
               else match s2 with
                    | EmptyString => s
                    | String e s3 => if is_space3 a b e then trim_left s3 else s
                    end
           end
  end.

(** A string of nothing but white space. *)
Fixpoint all_space s : bool :=
  match s with
  | EmptyString => true
  | String a s1 =>
      if Ascii.is_space a then all_space s1
      else match s1 with
           | EmptyString => false
           | String b s2 =>
               if is_space2 a b then all_space s2
               else match s2 with
                    | EmptyString => false
                    | String e s3 => is_space3 a b e && all_space s3
                    end
           end
  end.

Fixpoint trim_right s : string :=
  if all_space s then ""
  else match s with
       | EmptyString => ""
       | String c s => String c (trim_right s)
       end.

Definition trim_space s : string := trim_right (trim_left s).

(** ** [strings.Trim] with a one-byte cutset *)
Fixpoint trim_left_byte c s : string :=
  match s with
  | EmptyString => ""
  | String d s' => if decide (c = d) then trim_left_byte c s' else s
  end.

Fixpoint trim_right_byte c s : string :=
  if all_bytes (λ d, bool_decide (c = d)) s then ""
  else match s with
       | EmptyString => ""
       | String d s => String d (trim_right_byte c s)
       end.

Definition trim_byte c s : string := trim_right_byte c (trim_left_byte c s).

(** ** [strconv.FormatInt(z, 10)] and [strconv.ParseInt(s, 10, 64)] *)
Definition min_int64 : Z := - 2 ^ 63.
Definition max_int64 : Z := 2 ^ 63 - 1.
Definition int64 (z : Z) : bool := (min_int64 <=? z)%Z && (z <=? max_int64)%Z.

Definition format_int (z : Z) : string := NilZero.string_of_int (Z.to_int z).

Definition parse_digits s : option N :=
  if decide (s = "") then None else N.of_uint <$> NilEmpty.uint_of_string s.

Definition parse_int s : option Z :=
  z ← (match s with
       | String "-"%char s => (λ n, - Z.of_N n)%Z <$> parse_digits s
       | String "+"%char s => Z.of_N <$> parse_digits s
       | _ => Z.of_N <$> parse_digits s
       end);
  if int64 z then Some z else None.

(** [s[:n]] and [s[n:]]. *)
Fixpoint str_take (n : nat) s : string :=
  match n, s with S n, String c s => String c (str_take n s) | _, _ => "" end.
Fixpoint str_drop (n : nat) s : string :=
  match n, s with S n, String _ s => str_drop n s | _, _ => s end.

(** [len(s)]. *)
Definition len s : Z := Z.of_nat (String.length s).

(** ** [bufio.Scanner] with the default split function

    The lines of the input, each without its newline and one trailing carriage
    return, and whether the scan stopped at a line that does not fit the
    token buffer, 64 KiB unless the caller gives another limit. *)
Definition newline : ascii := "010".
Definition carriage_return : ascii := "013".
Definition max_scan_token_size : Z := 64 * 1024.

Definition line s : string := s +:+ String newline "".

Definition drop_cr s : string := trim_suffix s (String carriage_return "").

Fixpoint raw_lines (l : list string) : list string :=
  match l with
  | [] => []
  | [s] => if decide (s = "") then [] else [s]
  | s :: l => s :: raw_lines l
  end.

Fixpoint scan_tokens (limit : Z) (l : list string) : list string * bool :=
  match l with
  | [] => ([], false)
  | s :: l =>
      if (Z.of_nat (String.length s) <? limit)%Z
      then let '(ls, long) := scan_tokens limit l in (drop_cr s :: ls, long)
      else ([], true)
  end.

Definition scan_lines_upto limit s : list string * bool :=
  scan_tokens limit (raw_lines (split_char newline s)).

Definition scan_lines s : list string * bool := scan_lines_upto max_scan_token_size s.

(** ** Lemmas *)

Lemma str_app_cons c s t : String c s +:+ t = String c (s +:+ t).
Proof. done. Qed.

Lemma str_app_nil_r s : s +:+ "" = s.
Proof. induction s as [|c s IH]; [done|]. simpl. by rewrite IH. Qed.

Lemma str_app_assoc s t v : s +:+ (t +:+ v) = (s +:+ t) +:+ v.
Proof. induction s as [|c s IH]; [done|]. simpl. by rewrite IH. Qed.

Lemma length_str_app s t : String.length (s +:+ t) = String.length s + String.length t.
Proof. induction s as [|c s IH]; [done|]. simpl. by rewrite IH. Qed.

Lemma str_app_nil s t : s +:+ t = "" ↔ s = "" ∧ t = "".
Proof. destruct s; naive_solver. Qed.

Lemma str_app_inj_r s t v : s +:+ v = t +:+ v → s = t.
Proof.
  revert t. induction s as [|c s IH]; intros t H.
  - assert (String.length t = 0) as Ht.
    { apply (f_equal String.length) in H. rewrite !length_str_app in H. simpl in H. lia. }
    by destruct t.
  - destruct t as [|d t].
    + apply (f_equal String.length) in H. rewrite !length_str_app in H. simpl in H. lia.
    + simpl in H. simplify_eq. f_equal. by apply IH.
Qed.


Lemma strip_prefix_Some p s t : strip_prefix p s = Some t ↔ s = p +:+ t.
Proof.
  revert s. induction p as [|c p IH]; intros s; simpl; [naive_solver|].
  destruct s as [|d s]; [naive_solver|]. case_decide; subst.
  - rewrite IH. naive_solver.
  - naive_solver.
Qed.

Lemma strip_suffix_Some p s t : strip_suffix p s = Some t ↔ s = t +:+ p.
Proof.
  revert t. induction s as [|c s IH]; intros t; simpl.
  - case_decide as Hp; subst.
    + split; [naive_solver|]. intros H. symmetry in H. apply str_app_nil in H as [-> _]. done.
    + split; [done|]. intros H. symmetry in H. apply str_app_nil in H as [_ ->]. done.
  - case_decide as Hp; subst.
    + split; [naive_solver|]. intros H. f_equal.
      symmetry. apply (str_app_inj_r t "" (String c s)). by rewrite <-H.
    + split.
      * intros (t' & Ht%IH & ->)%fmap_Some. simpl. by f_equal.
      * destruct t as [|d t]; intros H; [done|]. simplify_eq/=.
        by rewrite (proj2 (IH t)).
Qed.

Lemma has_prefix_true s p : has_prefix s p = true ↔ ∃ t, s = p +:+ t.
Proof.
  unfold has_prefix. rewrite bool_decide_eq_true. unfold is_Some.
  by setoid_rewrite strip_prefix_Some.
Qed.

Lemma has_suffix_true s p : has_suffix s p = true ↔ ∃ t, s = t +:+ p.
Proof.
  unfold has_suffix. rewrite bool_decide_eq_true. unfold is_Some.
  by setoid_rewrite strip_suffix_Some.
Qed.

Lemma trim_suffix_app s p : trim_suffix (s +:+ p) p = s.
Proof.
  unfold trim_suffix. by rewrite (proj2 (strip_suffix_Some p (s +:+ p) s) eq_refl).
Qed.

Lemma trim_prefix_app s p : trim_prefix (p +:+ s) p = s.
Proof.
  unfold trim_prefix. by rewrite (proj2 (strip_prefix_Some p (p +:+ s) s) eq_refl).
Qed.

(** *** Occurrences of a byte *)

Lemma occurs_app c s t : occurs c (s +:+ t) = occurs c s || occurs c t.
Proof. induction s as [|d s IH]; [done|]. simpl. by rewrite IH, orb_assoc. Qed.

Lemma all_bytes_app f s t : all_bytes f (s +:+ t) = all_bytes f s && all_bytes f t.
Proof. induction s as [|d s IH]; [done|]. simpl. by rewrite IH, andb_assoc. Qed.

Lemma all_bytes_occurs (f : ascii → bool) c s :
  f c = false → all_bytes f s = true → occurs c s = false.
Proof.
  intros Hc. induction s as [|d s IH]; [done|]. simpl.
  intros [Hd Hs]%andb_true_iff. rewrite IH by done.
  destruct (decide (c = d)) as [->|Hne]; [congruence|].
  by rewrite bool_decide_eq_false_2.
Qed.

Lemma map_bytes_id f s : (∀ c, f c ≠ c → occurs c s = false) → map_bytes f s = s.
Proof.
  induction s as [|d s IH]; intros H; [done|]. simpl. f_equal.
  - destruct (decide (f d = d)) as [|Hd]; [done|]. apply H in Hd.
    simpl in Hd. by rewrite bool_decide_eq_true_2 in Hd.
  - apply IH. intros c Hc. apply H in Hc. simpl in Hc.
    by apply orb_false_iff in Hc as [_ ?].
Qed.

Lemma occurs_map_bytes f c s :
  (∀ d, f d ≠ c) → occurs c (map_bytes f s) = false.
Proof.
  intros Hf. induction s as [|d s IH]; [done|]. simpl.
  rewrite IH, bool_decide_eq_false_2; [done|]. intros E. by apply (Hf d).
Qed.

(** *** [cut] *)

Lemma cut_Some sep s a b : cut sep s = Some (a, b) → s = a +:+ sep +:+ b.
Proof.
  revert a. induction s as [|c s IH]; intros a; simpl.
  - destruct (strip_prefix sep "") eqn:E; [|done]. apply strip_prefix_Some in E.
    intros [= <- <-]. done.
  - destruct (strip_prefix sep (String c s)) eqn:E.
    + apply strip_prefix_Some in E. intros [= <- <-]. done.
    + intros ([a' b'] & Hc & [= -> ->])%fmap_Some. simpl. f_equal. by apply IH.
Qed.

Lemma cut_char_app c s t :
  occurs c s = false → cut (String c "") (s +:+ String c t) = Some (s, t).
Proof.
  induction s as [|d s IH]; simpl; intros Hs.
  - by rewrite decide_True.
  - apply orb_false_iff in Hs as [Hd%bool_decide_eq_false Hs].
    rewrite decide_False by done. by rewrite (IH Hs).
Qed.

Lemma cut_char_None c s : cut (String c "") s = None ↔ occurs c s = false.
Proof.
  induction s as [|d s IH]; simpl; [done|].
  case_decide; subst; [by rewrite bool_decide_eq_true_2|].
  rewrite bool_decide_eq_false_2 by done. simpl. rewrite <-IH.
  by destruct (cut _ s).
Qed.

Lemma cut_char_Some c s a b :
  cut (String c "") s = Some (a, b) ↔ s = a +:+ String c b ∧ occurs c a = false.
Proof.
  split; [|intros [-> ?]; by apply cut_char_app].
  revert a. induction s as [|d s IH]; intros a; simpl; [done|].
  case_decide as Hcd; subst.
  - intros [= <- <-]. done.
  - intros ([a' b'] & Hc & [= -> ->])%fmap_Some. simpl.
    apply IH in Hc as [-> Ha]. by rewrite bool_decide_eq_false_2.
Qed.

Lemma cut_last_Some sep s a b : cut_last sep s = Some (a, b) → s = a +:+ sep +:+ b.
Proof.
  revert a. induction s as [|c s IH]; intros a; simpl.
  - case_decide; naive_solver.
  - destruct (cut_last sep s) as [[a' b']|] eqn:E.
    + intros [= <- <-]. simpl. f_equal. by apply IH.
    + intros (t & Ht & [= -> ->])%fmap_Some. by apply strip_prefix_Some in Ht.
Qed.

(** *** Slices *)

Lemma str_take_drop n s : str_take n s +:+ str_drop n s = s.
Proof. revert s. induction n as [|n IH]; intros [|c s]; simpl; [done..|]. by rewrite IH. Qed.

Lemma str_take_app s t : str_take (String.length s) (s +:+ t) = s.
Proof. induction s as [|c s IH]; simpl; [by destruct t|]. by rewrite IH. Qed.

Lemma str_drop_app s t : str_drop (String.length s) (s +:+ t) = t.
Proof. induction s as [|c s IH]; simpl; [by destruct t|done]. Qed.

Lemma length_str_take n s : String.length (str_take n s) = n `min` String.length s.
Proof. revert s. induction n as [|n IH]; intros [|c s]; simpl; auto. Qed.

Lemma str_take_app_le n s t : n ≤ String.length s → str_take n (s +:+ t) = str_take n s.
Proof.
  revert s. induction n as [|n IH]; intros [|c s] Hn; simpl in *; [by destruct t|done|lia|].
  rewrite IH; [done|lia].
Qed.

Lemma str_take_app_ge n s t :
  String.length s ≤ n → str_take n (s +:+ t) = s +:+ str_take (n - String.length s) t.
Proof.
  revert n. induction s as [|c s IH]; intros n Hn; simpl in *; [by rewrite Nat.sub_0_r|].
  destruct n as [|n]; [lia|]. simpl. rewrite IH; [done|lia].
Qed.

Lemma str_take_ge n s : String.length s ≤ n → str_take n s = s.
Proof.
  revert n. induction s as [|c s IH]; intros [|n] Hn; simpl in *; [done..|lia|].
  rewrite IH; [done|lia].
Qed.

(** *** [split_char] and [join] *)

Lemma split_char_not_nil c s : split_char c s ≠ [].
Proof. destruct s; simpl; [done|]. case_decide; [done|]. by destruct (split_char c s). Qed.

Lemma split_char_app c s t :
  occurs c s = false → split_char c (s +:+ String c t) = s :: split_char c t.
Proof.
  induction s as [|d s IH]; simpl; intros Hs.
  - by rewrite decide_True.
  - apply orb_false_iff in Hs as [Hd%bool_decide_eq_false Hs].
    rewrite decide_False by done. by rewrite (IH Hs).
Qed.

Lemma split_char_single c s : occurs c s = false → split_char c s = [s].
Proof.
  induction s as [|d s IH]; simpl; intros Hs; [done|].
  apply orb_false_iff in Hs as [Hd%bool_decide_eq_false Hs].
  rewrite decide_False by done. by rewrite (IH Hs).
Qed.

Lemma join_split c s : join (String c "") (split_char c s) = s.
Proof.
  induction s as [|d s IH]; [done|]. simpl. case_decide; subst.
  - destruct (split_char d s) eqn:E; [by apply split_char_not_nil in E|].
    simpl in *. by rewrite IH.
  - destruct (split_char c s) as [|l ls] eqn:E; [by apply split_char_not_nil in E|].
    destruct ls; simpl in *; by rewrite IH.
Qed.

Lemma split_join c l :
  l ≠ [] → Forall (λ s, occurs c s = false) l → split_char c (join (String c "") l) = l.
Proof.
  intros Hl. induction 1 as [|s l Hs Hf IH]; [done|]. destruct l as [|s' l].
  - by apply split_char_single.
  - change (join _ (s :: s' :: l)) with (s +:+ String c (join (String c "") (s' :: l))).
    rewrite split_char_app by done. by rewrite IH.
Qed.

Lemma split_char_occurs c s : Forall (λ x, occurs c x = false) (split_char c s).
Proof.
  induction s as [|d s IH]; simpl; [by constructor|]. case_decide; subst.
  - by constructor.
  - destruct (split_char c s); inv IH; repeat constructor; simpl; try done;
      by rewrite bool_decide_eq_false_2.
Qed.

Lemma join_app sep l1 l2 :
  l1 ≠ [] → l2 ≠ [] → join sep (l1 ++ l2) = join sep l1 +:+ sep +:+ join sep l2.
Proof.
  intros H1 H2. induction l1 as [|s l1 IH]; [done|]. destruct l1 as [|s' l1].
  - by destruct l2.
  - change ((s :: s' :: l1) ++ l2) with (s :: (s' :: l1) ++ l2).
    assert (∃ x y, (s' :: l1) ++ l2 = x :: y) as (x & y & E) by (simpl; eauto).
    rewrite E. change (join sep (s :: x :: y)) with (s +:+ sep +:+ join sep (x :: y)).
    rewrite <-E, IH by done.
    change (join sep (s :: s' :: l1)) with (s +:+ sep +:+ join sep (s' :: l1)).
    by rewrite !str_app_assoc.
Qed.

(** *** White space *)

Lemma string_length_ind (P : string → Prop) :
  (∀ s, (∀ t, String.length t < String.length s → P t) → P s) → ∀ s, P s.
Proof.
  intros H s. remember (String.length s) as n eqn:Hn. revert s Hn.
  induction (lt_wf n) as [n _ IH]. intros s ->. apply H. eauto.
Qed.

(** Does a string begin with white space? *)
Definition starts_space s : bool :=
  match s with
  | EmptyString => false
  | String a s1 =>
      Ascii.is_space a
      || match s1 with
         | EmptyString => false
         | String b s2 =>
             is_space2 a b
             || match s2 with EmptyString => false | String e _ => is_space3 a b e end
         end
  end.

Ltac space_cases s :=
  let a := fresh "a" in let b := fresh "b" in let e := fresh "e" in
  destruct s as [|a s]; [|destruct s as [|b s]; [|destruct s as [|e s]]].

Lemma trim_left_starts s : starts_space (trim_left s) = false.
Proof.
  induction s as [s IH] using string_length_ind. space_cases s; simpl; [done| | |].
  - by destruct (Ascii.is_space a) eqn:E; simpl; rewrite ?E.
  - destruct (Ascii.is_space a) eqn:Ea.
    { by destruct (Ascii.is_space b) eqn:Eb; simpl; rewrite ?Eb. }
    destruct (is_space2 a b) eqn:E2; simpl; by rewrite ?Ea, ?E2.
  - destruct (Ascii.is_space a) eqn:Ea.
    { apply (IH (String b (String e s))). simpl. lia. }
    destruct (is_space2 a b) eqn:E2.
    { apply (IH (String e s)). simpl. lia. }
    destruct (is_space3 a b e) eqn:E3.
    { apply IH. simpl. lia. }
    simpl. by rewrite Ea, E2, E3.
Qed.

Lemma trim_left_id s : starts_space s = false → trim_left s = s.
Proof.
  space_cases s; simpl; [done| | |]; destruct (Ascii.is_space a); try done; simpl;
    destruct (is_space2 a b); try done; simpl. by intros ->.
Qed.

Lemma trim_left_suffix s : ∃ p, s = p +:+ trim_left s.
Proof.
  induction s as [s IH] using string_length_ind. space_cases s; simpl.
  - by exists "".
  - destruct (Ascii.is_space a); [by exists (String a "")|by exists ""].
  - destruct (Ascii.is_space a).
    { destruct (IH (String b "")) as [p Hp]; [simpl; lia|]. exists (String a p).
      simpl in *. by rewrite <-Hp. }
    destruct (is_space2 a b); [by exists (String a (String b ""))|by exists ""].
  - destruct (Ascii.is_space a).
    { destruct (IH (String b (String e s))) as [p Hp]; [simpl; lia|]. exists (String a p).
      simpl in *. by rewrite <-Hp. }
    destruct (is_space2 a b).
    { destruct (IH (String e s)) as [p Hp]; [simpl; lia|]. exists (String a (String b p)).
      simpl in *. by rewrite <-Hp. }
    destruct (is_space3 a b e); [|by exists ""].
    destruct (IH s) as [p Hp]; [simpl; lia|]. exists (String a (String b (String e p))).
    simpl. by rewrite <-Hp.
Qed.

Lemma all_space_app p q : all_space p = true → all_space q = true → all_space (p +:+ q) = true.
Proof.
  induction p as [p IH] using string_length_ind. intros Hp Hq.
  space_cases p; simpl in *; [done| | |];
    destruct (Ascii.is_space a); try done.
  - apply (IH (String b "")); simpl; [lia|done..].
  - destruct (is_space2 a b); [|done]. apply (IH ""); simpl; [lia|done..].
  - apply (IH (String b (String e p))); simpl; [lia|done..].
  - destruct (is_space2 a b).
    { apply (IH (String e p)); simpl; [lia|done..]. }
    apply andb_true_iff in Hp as [-> Hp]. apply IH; simpl; [lia|done..].
Qed.

Lemma trim_right_suffix s : ∃ q, s = trim_right s +:+ q ∧ all_space q = true.
Proof.
  induction s as [|c s [q [IH Hq]]]; [by exists ""|].
  change (trim_right (String c s)) with
    (if all_space (String c s) then "" else String c (trim_right s)).
  destruct (all_space (String c s)) eqn:E.
  - by exists (String c s).
  - exists q. simpl. by rewrite <-IH.
Qed.

Lemma trim_right_cons c s :
  trim_right (String c s) = if all_space (String c s) then "" else String c (trim_right s).
Proof. done. Qed.

Lemma trim_right_idemp s : trim_right (trim_right s) = trim_right s.
Proof.
  induction s as [|c s IH]; [done|]. rewrite trim_right_cons.
  destruct (all_space (String c s)) eqn:E; [done|]. rewrite trim_right_cons.
  destruct (all_space (String c (trim_right s))) eqn:E'; [|by rewrite IH].
  destruct (trim_right_suffix s) as (q & Hs & Hq).
  assert (all_space (String c s) = true); [|congruence].
  rewrite Hs. rewrite <-str_app_cons. by apply all_space_app.
Qed.

Lemma starts_space_app p q : starts_space (p +:+ q) = false → starts_space p = false.
Proof.
  space_cases p; simpl; [done| | |]; intros H; repeat (apply orb_false_iff in H as [-> H]);
    done.
Qed.

Lemma trim_space_idemp s : trim_space (trim_space s) = trim_space s.
Proof.
  unfold trim_space. rewrite trim_left_id.
  - apply trim_right_idemp.
  - destruct (trim_right_suffix (trim_left s)) as (q & Hs & _).
    apply (starts_space_app _ q). rewrite <-Hs. apply trim_left_starts.
Qed.

(** A string without white space at its ends. *)
Definition trimmed s : bool := bool_decide (trim_space s = s).

Lemma trimmed_trim_space s : trimmed (trim_space s) = true.
Proof. apply bool_decide_eq_true. apply trim_space_idemp. Qed.

Lemma trimmed_spec s : trimmed s = true ↔ starts_space s = false ∧ trim_right s = s.
Proof.
  unfold trimmed, trim_space. rewrite bool_decide_eq_true. split.
  - intros H. assert (trim_left s = s) as Hl.
    { destruct (trim_left_suffix s) as (p & Hp).
      destruct (trim_right_suffix (trim_left s)) as (q & Hq & _).
      assert (String.length p = 0).
      { apply (f_equal String.length) in Hp. apply (f_equal String.length) in Hq.
        rewrite length_str_app in Hp, Hq. rewrite H in Hq. lia. }
      by destruct p. }
    split; [|by rewrite Hl in H]. rewrite <-Hl. apply trim_left_starts.
  - intros [Hs Hr]. by rewrite trim_left_id.
Qed.

Lemma trimmed_starts s : trimmed s = true → starts_space s = false.
Proof. by intros [??]%trimmed_spec. Qed.

(** A seven-bit byte is never part of a longer encoding. *)
Definition is_ascii c : bool := (byte c <? 128)%N.

Lemma is_ascii_space2 a c :
  is_ascii c = true → is_space2 a c = false ∧ is_space2 c a = false.
Proof. unfold is_ascii, is_space2. intros. lia. Qed.

Lemma is_ascii_space3 a b c :
  is_ascii c = true →
  is_space3 a b c = false ∧ is_space3 a c b = false ∧ is_space3 c a b = false.
Proof. unfold is_ascii, is_space3. intros. lia. Qed.

Lemma all_space_cons_ascii c s :
  is_ascii c = true → all_space (String c s) = Ascii.is_space c && all_space s.
Proof.
  intros Hc. simpl. destruct (Ascii.is_space c); [done|]. simpl.
  destruct s as [|b s]; [done|]. destruct (is_ascii_space2 b c Hc) as [_ ->].
  destruct s as [|e s]; [done|]. by destruct (is_ascii_space3 b e c Hc) as (_&_&->).
Qed.

Lemma all_space_app_ascii p c q :
  is_ascii c = true →
  all_space (p +:+ String c q) = all_space p && all_space (String c q).
Proof.
  intros Hc. induction p as [p IH] using string_length_ind.
  space_cases p; [done| | |]; cbn [String.append all_space];
    destruct (Ascii.is_space a) eqn:Ea; try done.
  - destruct (is_ascii_space2 a c Hc) as [-> _]. destruct q as [|b q]; [done|].
    by destruct (is_ascii_space3 a b c Hc) as (_ & -> & _).
  - apply (IH (String b "")). simpl. lia.
  - destruct (is_space2 a b); [done|]. by destruct (is_ascii_space3 a b c Hc) as (-> & _).
  - apply (IH (String b (String e p))). simpl. lia.
  - destruct (is_space2 a b).
    { apply (IH (String e p)). simpl. lia. }
    rewrite IH by (simpl; lia). by rewrite andb_assoc.
Qed.

Lemma trim_right_app_ascii p c v :
  is_ascii c = true → trim_right (String c v) = String c v →
  trim_right (p +:+ String c v) = p +:+ String c v.
Proof.
  intros Hc Hv. assert (all_space (String c v) = false) as Hns.
  { destruct (all_space (String c v)) eqn:E; [|done].
    rewrite trim_right_cons, E in Hv. done. }
  induction p as [|d p IH]; [done|]. rewrite !str_app_cons, trim_right_cons.
  rewrite <-str_app_cons, all_space_app_ascii, Hns, andb_false_r by done.
  by rewrite IH.
Qed.

Lemma trim_right_cons_ascii c v :
  is_ascii c = true → Ascii.is_space c = false ∨ v ≠ "" → trim_right v = v →
  trim_right (String c v) = String c v.
Proof.
  intros Hc Hv Ht. rewrite trim_right_cons, all_space_cons_ascii, Ht by done.
  destruct Hv as [->|Hv]; [done|].
  destruct (all_space v) eqn:E; [|by rewrite andb_false_r].
  destruct v as [|d v]; [done|]. rewrite trim_right_cons, E in Ht. done.
Qed.

Lemma starts_space_app_ascii p c v :
  is_ascii c = true → Ascii.is_space c = false → starts_space p = false →
  starts_space (p +:+ String c v) = false.
Proof.
  intros Hc Hns. space_cases p; simpl; intros H.
  - rewrite Hns. simpl. destruct v as [|b v]; [done|].
    destruct (is_ascii_space2 b c Hc) as [_ ->]. destruct v as [|e v]; [done|].
    by destruct (is_ascii_space3 b e c Hc) as (_&_&->).
  - apply orb_false_iff in H as [-> _]. simpl.
    destruct (is_ascii_space2 a c Hc) as [-> _]. destruct v as [|e v]; [done|].
    by destruct (is_ascii_space3 a e c Hc) as (_&->&_).
  - repeat (apply orb_false_iff in H as [-> H]). simpl.
    by destruct (is_ascii_space3 a b c Hc) as (->&_).
  - done.
Qed.

Lemma starts_space_app_ne p c v :
  p ≠ "" → is_ascii c = true → starts_space p = false →
  starts_space (p +:+ String c v) = false.
Proof.
  intros Hp Hc. destruct p as [|a p]; [done|]. destruct p as [|b p]; [|destruct p as [|e p]];
    simpl; destruct (Ascii.is_space a); try done; simpl.
  - destruct (is_ascii_space2 a c Hc) as [-> _]. destruct v as [|e v]; [done|].
    by destruct (is_ascii_space3 a e c Hc) as (_&->&_).
  - destruct (is_space2 a b); [done|]. by destruct (is_ascii_space3 a b c Hc) as (->&_).
Qed.

Lemma trim_right_app_space s : trim_right (s +:+ " ") = trim_right s.
Proof.
  induction s as [|c s IH]; [done|]. rewrite str_app_cons, !trim_right_cons, IH.
  rewrite <-str_app_cons, all_space_app_ascii by done. by rewrite andb_true_r.
Qed.

Lemma trim_space_app_space s : trimmed s = true → s ≠ "" → trim_space (s +:+ " ") = s.
Proof.
  intros [Hs Hr]%trimmed_spec Hne. unfold trim_space. rewrite trim_left_id.
  - by rewrite trim_right_app_space.
  - by apply starts_space_app_ne.
Qed.

(** A text that ends with a byte ends, after a prefix, with that byte. *)
Lemma app_last_occurs p v t c :
  p +:+ v = t +:+ String c "" → v ≠ "" → occurs c v = true.
Proof.
  revert t. induction p as [|d p IH]; intros t E Hv; simpl in E.
  - subst v. rewrite occurs_app. simpl. rewrite bool_decide_eq_true_2 by done.
    by rewrite orb_true_r.
  - destruct t as [|d' t]; simplify_eq/=; [by destruct p|]. eauto.
Qed.

Lemma trimmed_cons_space v : trim_space (String " " v) = trim_space v.
Proof. done. Qed.

Lemma trim_space_id s : trimmed s = true → trim_space s = s.
Proof. unfold trimmed. by rewrite bool_decide_eq_true. Qed.

(** Text, one ASCII byte that is not white space, trimmed text. *)
Lemma trimmed_app_ascii p c v :
  is_ascii c = true → Ascii.is_space c = false →
  starts_space p = false → trim_right v = v →
  trimmed (p +:+ String c v) = true.
Proof.
  intros Hc Hns Hp Hv. apply trimmed_spec. split.
  - by apply starts_space_app_ascii.
  - apply trim_right_app_ascii; [done|]. apply trim_right_cons_ascii; auto.
Qed.

Lemma trimmed_trim_right v : trimmed v = true → trim_right v = v.
Proof. by intros [??]%trimmed_spec. Qed.

(** *** Integers *)

Lemma parse_digits_string_of_uint (d : Decimal.uint) :
  d ≠ Decimal.Nil → parse_digits (NilEmpty.string_of_uint d) = Some (N.of_uint d).
Proof.
  intros Hd. unfold parse_digits. rewrite decide_False by (by destruct d).
  by rewrite NilEmpty.usu.
Qed.

Lemma parse_int_digits (d : Decimal.uint) :
  d ≠ Decimal.Nil → int64 (Z.of_N (N.of_uint d)) = true →
  parse_int (NilEmpty.string_of_uint d) = Some (Z.of_N (N.of_uint d)).
Proof.
  intros Hd Hz. unfold parse_int.
  assert (∀ (A : Type) (x y z : A), match NilEmpty.string_of_uint d with
    | String "-"%char _ => x | String "+"%char _ => y | _ => z end = z) as E
    by (by destruct d).
  pose proof (parse_digits_string_of_uint d Hd) as Hp.
  destruct d; try done; simpl in *; rewrite Hp; simpl; by rewrite Hz.
Qed.

Lemma pos_to_uint_not_nil (p : positive) : Pos.to_uint p ≠ Decimal.Nil.
Proof. apply (DecimalPos.Unsigned.to_uint_nonnil p). Qed.

Lemma parse_format_int z : int64 z = true → parse_int (format_int z) = Some z.
Proof.
  intros Hz. unfold format_int. destruct z as [|p|p]; [done| |].
  - assert (Hn : Z.of_N (N.of_uint (Pos.to_uint p)) = Z.pos p).
    { change (Pos.to_uint p) with (N.to_uint (N.pos p)).
      by rewrite DecimalN.Unsigned.of_to. }
    pose proof (pos_to_uint_not_nil p) as Hnil.
    replace (NilZero.string_of_int (Z.to_int (Z.pos p)))
      with (NilEmpty.string_of_uint (Pos.to_uint p)).
    { rewrite parse_int_digits; rewrite ?Hn; done. }
    simpl. by destruct (Pos.to_uint p).
  - assert (Hn : N.of_uint (Pos.to_uint p) = N.pos p).
    { change (Pos.to_uint p) with (N.to_uint (N.pos p)).
      by rewrite DecimalN.Unsigned.of_to. }
    pose proof (pos_to_uint_not_nil p) as Hnil.
    replace (NilZero.string_of_int (Z.to_int (Z.neg p)))
      with (String "-" (NilEmpty.string_of_uint (Pos.to_uint p))).
    { unfold parse_int. rewrite parse_digits_string_of_uint, Hn by done.
      change ((if int64 (Z.neg p) then Some (Z.neg p) else None) = Some (Z.neg p)).
      by rewrite Hz. }
    simpl. by destruct (Pos.to_uint p).
Qed.

(** The bytes of a printed integer. *)
Definition int_byte c : bool :=
  (byte c =? 45)%N || ((48 <=? byte c)%N && (byte c <=? 57)%N).

Lemma string_of_uint_bytes (d : Decimal.uint) : all_bytes int_byte (NilEmpty.string_of_uint d) = true.
Proof. induction d; simpl; try done; by rewrite IHd. Qed.

Lemma format_int_bytes z : all_bytes int_byte (format_int z) = true.
Proof.
  unfold format_int. destruct z as [|p|p]; [done| |]; simpl;
    pose proof (string_of_uint_bytes (Pos.to_uint p)); by destruct (Pos.to_uint p).
Qed.

Lemma format_int_not_nil z : format_int z ≠ "".
Proof. unfold format_int. destruct z as [|p|p]; simpl; [done| |done]. by destruct (Pos.to_uint p). Qed.

Lemma int_byte_ascii c : int_byte c = true → is_ascii c = true ∧ Ascii.is_space c = false.
Proof. destruct c as [[] [] [] [] [] [] [] []]; by vm_compute. Qed.

Lemma int_bytes_starts s : all_bytes int_byte s = true → starts_space s = false.
Proof.
  space_cases s; simpl; [done| | |]; intros H;
    repeat (apply andb_true_iff in H as [?%int_byte_ascii H]); destruct_and!;
    repeat match goal with H : Ascii.is_space _ = false |- _ => rewrite H end; simpl; try done.
  - by rewrite (proj2 (is_ascii_space2 b a ltac:(done))).
  - rewrite (proj2 (is_ascii_space2 b a ltac:(done))).
    by rewrite (proj2 (proj2 (is_ascii_space3 b e a ltac:(done)))).
Qed.

Lemma int_bytes_trim_right s : all_bytes int_byte s = true → trim_right s = s.
Proof.
  induction s as [|c s IH]; simpl; [done|]. intros [[Hc Hn]%int_byte_ascii Hs]%andb_true_iff.
  apply trim_right_cons_ascii; auto.
Qed.

Lemma trimmed_format_int z : trimmed (format_int z) = true.
Proof.
  pose proof (format_int_bytes z). apply trimmed_spec.
  split; [by apply int_bytes_starts|by apply int_bytes_trim_right].
Qed.

Lemma occurs_format_int c z : int_byte c = false → occurs c (format_int z) = false.
Proof. intros Hc. by apply (all_bytes_occurs int_byte), format_int_bytes. Qed.

(** *** Lines *)

(** The text whose lines are [ls]. *)
Definition unlines (ls : list string) : string :=
  foldr (λ l s, l +:+ String newline s) "" ls.

Lemma unlines_app l1 l2 : unlines (l1 ++ l2) = unlines l1 +:+ unlines l2.
Proof.
  induction l1 as [|l l1 IH]; [done|]. simpl. unfold unlines in *. simpl. rewrite IH.
  by rewrite <-str_app_assoc.
Qed.

(** A line the scanner returns as it is. *)
Definition good_line s : bool :=
  negb (occurs newline s) && negb (has_suffix s (String carriage_return ""))
  && (Z.of_nat (String.length s) <? max_scan_token_size)%Z.

Lemma split_unlines ls :
  Forall (λ l, occurs newline l = false) ls → split_char newline (unlines ls) = ls ++ [""].
Proof.
  induction 1 as [|l ls Hl Hf IH]; [done|]. unfold unlines in *. simpl.
  by rewrite split_char_app, IH.
Qed.

Lemma raw_lines_app ls : raw_lines (ls ++ [""]) = ls.
Proof. induction ls as [|l [|l' ls] IH]; [done..|]. simpl in *. by rewrite IH. Qed.

Lemma drop_cr_id s : has_suffix s (String carriage_return "") = false → drop_cr s = s.
Proof.
  unfold has_suffix, drop_cr, trim_suffix. rewrite bool_decide_eq_false, <-eq_None_not_Some.
  by intros ->.
Qed.

Lemma scan_tokens_good ls : Forall (λ l, good_line l = true) ls → scan_tokens max_scan_token_size ls = (ls, false).
Proof.
  induction 1 as [|l ls Hl Hf IH]; [done|]. cbn [scan_tokens].
  unfold good_line in Hl. rewrite !andb_true_iff, !negb_true_iff in Hl.
  destruct Hl as [[_ Hcr] ->]. rewrite IH. by rewrite drop_cr_id.
Qed.

(** The scanner recovers the lines of a text it can hold. *)
Lemma scan_unlines ls :
  Forall (λ l, good_line l = true) ls → scan_lines (unlines ls) = (ls, false).
Proof.
  intros Hls. unfold scan_lines, scan_lines_upto. rewrite split_unlines.
  - rewrite raw_lines_app. by apply scan_tokens_good.
  - eapply Forall_impl; [exact Hls|]. intros l Hl. unfold good_line in Hl.
    rewrite !andb_true_iff, !negb_true_iff in Hl. tauto.
Qed.

(** Every line the scanner returns is free of newlines. *)
Lemma occurs_trim_suffix c s p : occurs c s = false → occurs c (trim_suffix s p) = false.
Proof.
  intros Hs. unfold trim_suffix. destruct (strip_suffix p s) as [t|] eqn:E; [|done].
  apply strip_suffix_Some in E as ->. simpl. rewrite occurs_app in Hs.
  by apply orb_false_iff in Hs as [-> _].
Qed.

Lemma scan_lines_no_newline s : Forall (λ l, occurs newline l = false) (scan_lines s).1.
Proof.
  unfold scan_lines, scan_lines_upto. pose proof (split_char_occurs newline s) as H.
  revert H. generalize (split_char newline s) as l. intros l H.
  assert (Forall (λ l, occurs newline l = false) (raw_lines l)) as Hr.
  { induction H as [|x [|y l] Hx Hl IH]; simpl in *; [by constructor| |by constructor].
    case_decide; by repeat constructor. }
  clear H. induction Hr as [|x l' Hx Hl IH]; simpl; [by constructor|].
  destruct (_ <? _)%Z; [|by constructor]. destruct (scan_tokens _ l').
  simpl in *. constructor; [|done]. by apply occurs_trim_suffix.
Qed.

(** ** [path.Base] ([filepath.Base] on Unix) *)
Definition path_base s : string :=
  if decide (s = "") then "."
  else let p := trim_right_byte "/" s in
       let p := match cut_last "/" p with Some (_, b) => b | None => p end in
       if decide (p = "") then "/" else p.

(** [path.Clean], [path.Dir] and [path.Join] on slash-separated paths, as
    [path/filepath] does on Unix. The stack holds the components in reverse. *)
Definition clean_step (rooted : bool) (stack : list string) (c : string) : list string :=
  if decide (c = "" ∨ c = ".") then stack
  else if decide (c = "..") then
    match stack with
    | top :: rest => if decide (top = "..") then c :: stack else rest
    | [] => if rooted then [] else [c]
    end
  else c :: stack.

Definition clean s : string :=
  let rooted := has_prefix s "/" in
  let out := (if rooted then "/" else "")
             +:+ join "/" (reverse (foldl (clean_step rooted) [] (split_char "/" s))) in
  if decide (out = "") then "." else out.

Definition path_dir s : string :=
  clean (match cut_last "/" s with Some (a, _) => a +:+ "/" | None => "" end).

Fixpoint path_join (l : list string) : string :=
  match l with
  | [] => ""
  | e :: l' => if decide (e = "") then path_join l' else clean (join "/" l)
  end.

#[global] Arguments path_join : simpl never.

Definition is_abs s : bool := has_prefix s "/".

Lemma cut_last_char_None c s : occurs c s = false → cut_last (String c "") s = None.
Proof.
  induction s as [|d s IH]; [done|]. simpl. intros [Hd Hs]%orb_false_iff.
  rewrite IH by done. apply bool_decide_eq_false in Hd. by rewrite decide_False.
Qed.

Lemma trim_right_byte_id c s : occurs c s = false → trim_right_byte c s = s.
Proof.
  induction s as [|d s IH]; [done|]. simpl. intros [Hd Hs]%orb_false_iff.
  rewrite Hd. simpl. by rewrite IH.
Qed.

Lemma path_base_id s : s ≠ "" → occurs "/" s = false → path_base s = s.
Proof.
  intros Hs Ho. unfold path_base. rewrite decide_False by done.
  rewrite trim_right_byte_id, cut_last_char_None by done. by rewrite decide_False.
Qed.

Lemma cut_last_char_occurs c s a b :
  cut_last (String c "") s = Some (a, b) → occurs c b = false.
Proof.
  revert a. induction s as [|d s IH]; intros a; simpl; [done|].
  destruct (cut_last (String c "") s) as [[a' b']|] eqn:E.
  - intros [= <- <-]. by eapply IH.
  - case_decide; [|done]. intros [= <- <-]. clear IH.
    induction s as [|e s IH]; [done|]. simpl in *.
    destruct (cut_last (String c "") s) as [[]|] eqn:E'; [done|].
    case_decide as He; [done|]. rewrite bool_decide_eq_false_2 by done. simpl. auto.
Qed.

(** A name that is its own base has no slash, the root apart. *)
Lemma cut_last_None_occurs c s : cut_last (String c "") s = None → occurs c s = false.
Proof.
  induction s as [|e s IH]; intros E; [done|]. simpl in *.
  destruct (cut_last (String c "") s) as [[]|] eqn:E'; [done|].
  case_decide as He; [done|]. rewrite bool_decide_eq_false_2 by done. simpl. auto.
Qed.

Lemma path_base_occurs s : path_base s = "/" ∨ occurs "/" (path_base s) = false.
Proof.
  unfold path_base. case_decide as Hs; [by right|]. case_decide as Hp; [by left|]. right.
  destruct (cut_last "/" (trim_right_byte "/" s)) as [[a b]|] eqn:E.
  - by eapply cut_last_char_occurs.
  - by apply cut_last_None_occurs.
Qed.

Lemma path_base_eq s : path_base s = s → s = "/" ∨ occurs "/" s = false ∧ s ≠ "".
Proof.
  unfold path_base. case_decide as Hs; [by intros <-|].
  case_decide as Hp; [intros <-; auto|]. intros H. right. split; [|done].
  destruct (cut_last "/" (trim_right_byte "/" s)) as [[a b]|] eqn:E.
  - subst b. by eapply cut_last_char_occurs.
  - rewrite H in E. by apply cut_last_None_occurs.
Qed.

(** Two suffixes of a string are suffixes of each other. *)
Lemma app_suffix_cases s t p q :
  s +:+ p = t +:+ q → has_suffix p q = true ∨ has_suffix q p = true.
Proof.
  revert t. induction s as [|c s IH]; intros t H; simpl in H.
  - left. apply has_suffix_true. by exists t.
  - destruct t as [|d t]; simplify_eq/=.
    + right. apply has_suffix_true. exists (String c s). done.
    + by eapply IH.
Qed.

(** *** Joined paths *)

Lemma clean_not_nil s : clean s ≠ "".
Proof. unfold clean. by case_decide. Qed.

Lemma path_dir_not_nil s : path_dir s ≠ "".
Proof. apply clean_not_nil. Qed.

Lemma split_char_snoc c s t :
  occurs c t = false → split_char c (s +:+ String c t) = split_char c s ++ [t].
Proof.
  intros Ht. rewrite <-(split_join c (split_char c s ++ [t])).
  - f_equal. rewrite join_app, join_split by (done || apply split_char_not_nil). done.
  - by destruct (split_char c s).
  - apply Forall_app. split; [apply split_char_occurs|]. by repeat constructor.
Qed.

(** A plain file name. *)
Definition plain s : bool :=
  negb (occurs "/" s) && bool_decide (s ≠ "") && bool_decide (s ≠ ".") && bool_decide (s ≠ "..").

(** Joining a plain name to a directory appends it to a text that depends only on the
    directory. *)
Lemma path_join_plain dir :
  dir ≠ "" → ∃ pre, ∀ base, plain base = true → path_join [dir; base] = pre +:+ base.
Proof.
  intros Hd. set (rooted := has_prefix dir "/").
  set (stack := foldl (clean_step rooted) [] (split_char "/" dir)).
  exists ((if rooted then "/" else "") +:+
          match stack with [] => "" | _ => join "/" (reverse stack) +:+ "/" end).
  intros base Hb. unfold plain in Hb. rewrite !andb_true_iff, negb_true_iff, !bool_decide_eq_true in Hb.
  destruct Hb as [[[Ho Hb1] Hb2] Hb3].
  unfold path_join. rewrite decide_False by done. cbn [join]. unfold clean.
  assert (has_prefix (dir +:+ "/" +:+ base) "/" = rooted) as ->.
  { unfold rooted. destruct dir as [|c dir]; [done|]. unfold has_prefix. simpl.
    destruct (decide ("/"%char = c)); [|done]. by destruct (dir +:+ String "/" base), dir. }
  cbn [String.append]. rewrite split_char_snoc, foldl_app by done. fold stack. cbn [foldl].
  unfold clean_step.
  rewrite (decide_False (P := base = "" ∨ base = ".")) by (by intros [?|?]).
  rewrite (decide_False (P := base = "..")) by done.
  rewrite reverse_cons.
  assert (Hj : join "/" (reverse stack ++ [base])
    = match stack with [] => "" | _ => join "/" (reverse stack) +:+ "/" end +:+ base).
  { clearbody stack. destruct stack as [|x l]; [done|]. rewrite join_app.
    - simpl. by rewrite <-str_app_assoc.
    - rewrite reverse_cons. by destruct (reverse l).
    - done. }
  rewrite Hj, decide_False; [by rewrite str_app_assoc|].
  intros [_ [_ ?]%str_app_nil]%str_app_nil. done.
Qed.

#[export] Instance str_app_inj s : Inj (=) (=) (String.append s).
Proof. intros t v. induction s as [|c s IH]; simpl; [done|]. intros [= H]. auto. Qed.

