(* ===== verification/Paths.v ===== *)
(** * Absolute paths (path and path/filepath of the standard library)

    A cleaned absolute path is a list of plain components; [path.Join], [path.Dir] and
    [path.Base] work on the last one. *)

From S2P Require Import Prelude GoStrings.

(** ** Cleaned absolute paths *)

(** The stack of a rooted path holds plain names only. *)
Lemma clean_stack_plain l stack :
  Forall (λ c, occurs "/" c = false) l → Forall (λ c, plain c = true) stack →
  Forall (λ c, plain c = true) (foldl (clean_step true) stack l).
Proof.
  revert stack. induction l as [|c l IH]; intros stack Hl Hs; [done|].
  apply Forall_cons in Hl as [Hc Hl]. simpl. apply IH; [done|]. unfold clean_step.
  case_decide as H1; [done|]. case_decide as H2.
  - destruct stack as [|top rest]; [done|]. apply Forall_cons in Hs as [Ht Hs].
    case_decide; [by subst|done].
  - constructor; [|done]. unfold plain. rewrite !andb_true_iff, Hc, !bool_decide_eq_true. tauto.
Qed.

Lemma clean_stack_push l stack :
  Forall (λ c, plain c = true) l → foldl (clean_step true) stack l = reverse l ++ stack.
Proof.
  revert stack. induction l as [|c l IH]; intros stack Hl; [done|].
  apply Forall_cons in Hl as [Hc Hl]. cbn [foldl]. rewrite IH by done.
  unfold plain in Hc. rewrite !andb_true_iff, !bool_decide_eq_true in Hc.
  destruct Hc as [[[_ H1] H2] H3]. unfold clean_step.
  rewrite (decide_False (P := c = "" ∨ c = ".")) by tauto.
  rewrite (decide_False (P := c = "..")) by done.
  rewrite reverse_cons. by rewrite <-app_assoc.
Qed.

Definition abs_path (cs : list string) : string := "/" +:+ join "/" cs.

Lemma is_abs_abs_path cs : is_abs (abs_path cs) = true.
Proof. apply has_prefix_true. by exists (join "/" cs). Qed.

Lemma plain_occurs c : plain c = true → occurs "/" c = false ∧ c ≠ "" ∧ c ≠ ".".
Proof. unfold plain. rewrite !andb_true_iff, negb_true_iff, !bool_decide_eq_true. tauto. Qed.

Lemma split_abs_path cs :
  Forall (λ c, plain c = true) cs →
  split_char "/" (abs_path cs) = "" :: (if decide (cs = []) then [""] else cs).
Proof.
  intros Hcs. unfold abs_path. cbn [String.append split_char].
  rewrite decide_True by done. f_equal. case_decide as Hn; [by subst|].
  apply split_join; [done|]. eapply Forall_impl; [exact Hcs|]. intros c Hc. by apply plain_occurs.
Qed.

Lemma clean_abs s :
  is_abs s = true → ∃ cs, clean s = abs_path cs ∧ Forall (λ c, plain c = true) cs.
Proof.
  intros Ha. unfold clean. unfold is_abs in Ha. rewrite Ha. cbv zeta.
  exists (reverse (foldl (clean_step true) [] (split_char "/" s))). split.
  - rewrite decide_False by (by destruct (join _ _)). done.
  - apply Forall_reverse, clean_stack_plain; [apply split_char_occurs|done].
Qed.

Lemma clean_abs_path cs : Forall (λ c, plain c = true) cs → clean (abs_path cs) = abs_path cs.
Proof.
  intros Hcs. unfold clean. pose proof (is_abs_abs_path cs) as Ha. unfold is_abs in Ha.
  rewrite Ha. cbv zeta. rewrite split_abs_path by done.
  assert (reverse (foldl (clean_step true) [] ("" :: (if decide (cs = []) then [""] else cs))) = cs)
    as ->; [|by rewrite decide_False by (by destruct (join _ _))].
  cbn [foldl]. change (clean_step true [] "") with (@nil string).
  case_decide as Hn; [by subst|]. by rewrite clean_stack_push, app_nil_r, reverse_involutive.
Qed.

Lemma abs_path_inj cs ds :
  Forall (λ c, plain c = true) cs → Forall (λ c, plain c = true) ds →
  abs_path cs = abs_path ds → cs = ds.
Proof.
  intros Hc Hd H. apply (f_equal (split_char "/")) in H. rewrite !split_abs_path in H by done.
  injection H. case_decide; case_decide; subst; try done; intros E; rewrite <-?E in *; subst;
    rewrite ?Forall_singleton in *; done.
Qed.

Lemma clean_rel s : is_abs s = false → is_abs (clean s) = false.
Proof.
  intros Ha. unfold clean. unfold is_abs in Ha. rewrite Ha. cbv zeta. case_decide as Hn; [done|].
  assert (Forall (λ c, c ≠ "" ∧ occurs "/" c = false)
            (reverse (foldl (clean_step false) [] (split_char "/" s)))) as Hs.
  { apply Forall_reverse. pose proof (split_char_occurs "/" s) as Hl.
    assert (Forall (λ c, c ≠ "" ∧ occurs "/" c = false) []) as Hs by constructor.
    clear Hn. revert Hs. generalize (@nil string) as stack.
    induction Hl as [|c l Hc Hl IH]; intros stack Hs; [done|]. cbn [foldl]. apply IH.
    unfold clean_step. case_decide; [done|]. case_decide; [|constructor; [tauto|done]].
    assert (c ≠ "" ∧ occurs "/" c = false) as Hc' by (by subst).
    destruct stack as [|top stack]; [by apply Forall_singleton|].
    pose proof (proj2 (proj1 (Forall_cons _ _ _) Hs)). case_decide; [|done]. by constructor. }
  destruct (reverse _) as [|c l] eqn:E; [done|]. apply Forall_cons in Hs as [[Hc1 Hc2] _].
  destruct c as [|a c]; [done|]. simpl in Hc2. apply orb_false_iff in Hc2 as [Hac _].
  apply bool_decide_eq_false in Hac. unfold is_abs, has_prefix.
  destruct l; simpl; by rewrite decide_False.
Qed.

Lemma is_abs_clean s : is_abs (clean s) = is_abs s.
Proof.
  destruct (is_abs s) eqn:E; [|by apply clean_rel].
  destruct (clean_abs s E) as (cs & -> & _). apply is_abs_abs_path.
Qed.

(** ** The last component *)

Lemma cut_last_at d sep a b :
  cut_last (String d sep) (sep +:+ b) = None →
  cut_last (String d sep) (a +:+ String d sep +:+ b) = Some (a, b).
Proof.
  intros H. induction a as [|c a IH]; cbn [String.append cut_last].
  - rewrite H. pose proof (proj2 (strip_prefix_Some (String d sep) (String d sep +:+ b) b) eq_refl) as E.
    cbn [String.append] in E. by rewrite E.
  - cbn [String.append] in IH. by rewrite IH.
Qed.

Lemma abs_path_snoc cs x :
  abs_path (cs ++ [x]) = (if decide (cs = []) then "" else abs_path cs) +:+ "/" +:+ x.
Proof.
  unfold abs_path. case_decide as H; [by subst|]. rewrite join_app by done. cbn [join].
  by rewrite <-!str_app_assoc.
Qed.

Lemma path_join_abs cs x :
  Forall (λ c, plain c = true) cs → plain x = true →
  path_join [abs_path cs; x] = abs_path (cs ++ [x]).
Proof.
  intros Hcs Hx. unfold path_join. rewrite decide_False by done. cbn [join].
  destruct (decide (cs = [])) as [->|Hn].
  - change (abs_path [] +:+ "/" +:+ x) with ("/" +:+ abs_path [x]).
    pose proof (clean_abs_path [x]) as H. unfold clean in *. cbn [String.append] in *.
    change (has_prefix (String "/" (abs_path [x])) "/") with true.
    change (has_prefix (abs_path [x]) "/") with true in H.
    cbn [split_char]. rewrite (decide_True (P := "/"%char = "/"%char)) by done. cbn [foldl].
    change (clean_step true [] "") with (@nil string). apply H. by constructor.
  - rewrite <-(clean_abs_path (cs ++ [x])) by (apply Forall_app; split; [done|by constructor]).
    rewrite abs_path_snoc, decide_False by done. done.
Qed.

Lemma cut_last_abs cs x :
  plain x = true →
  cut_last "/" (abs_path (cs ++ [x])) = Some (if decide (cs = []) then "" else abs_path cs, x).
Proof.
  intros Hx. rewrite abs_path_snoc. apply (cut_last_at "/" "").
  apply cut_last_char_None. by apply plain_occurs.
Qed.

Lemma path_dir_abs cs x :
  Forall (λ c, plain c = true) cs → plain x = true → path_dir (abs_path (cs ++ [x])) = abs_path cs.
Proof.
  intros Hcs Hx. unfold path_dir. rewrite cut_last_abs by done. case_decide as Hn; [by subst|].
  pose proof (clean_abs_path cs Hcs) as H. unfold clean in *.
  pose proof (is_abs_abs_path cs) as Ha. unfold is_abs in Ha. rewrite Ha in H.
  assert (has_prefix (abs_path cs +:+ "/") "/" = true) as ->.
  { apply has_prefix_true in Ha as [t ->]. apply has_prefix_true. exists (t +:+ "/").
    by rewrite str_app_assoc. }
  change (abs_path cs +:+ "/") with (abs_path cs +:+ String "/" "").
  rewrite split_char_snoc, foldl_app by done. cbn [foldl].
  assert (∀ st, clean_step true st "" = st) as Hst by done.
  by rewrite Hst.
Qed.

Lemma trim_right_byte_last c s t :
  t ≠ "" → occurs c t = false → trim_right_byte c (s +:+ t) = s +:+ t.
Proof.
  intros Ht Ho.
  assert (∀ s, all_bytes (λ d, bool_decide (c = d)) (s +:+ t) = false) as H.
  { intros u. rewrite all_bytes_app. apply andb_false_iff. right.
    destruct t as [|d t]; [done|]. simpl in *. apply orb_false_iff in Ho as [Ho _].
    by rewrite Ho. }
  induction s as [|e s IH]; [by rewrite trim_right_byte_id|].
  specialize (H (String e s)). cbn [String.append trim_right_byte] in *. by rewrite H, IH.
Qed.

Lemma path_base_abs cs x : plain x = true → path_base (abs_path (cs ++ [x])) = x.
Proof.
  intros Hx. pose proof (plain_occurs x Hx) as (Ho & Hn & _). unfold path_base.
  rewrite decide_False by done.
  assert (trim_right_byte "/" (abs_path (cs ++ [x])) = abs_path (cs ++ [x])) as ->.
  { rewrite abs_path_snoc, str_app_assoc. by apply trim_right_byte_last. }
  rewrite cut_last_abs by done. by rewrite decide_False.
Qed.

(** ** Joining in general *)

Lemma split_char_app_full c s t :
  split_char c (s +:+ String c t) = split_char c s ++ split_char c t.
Proof.
  induction s as [|d s IH]; cbn [String.append split_char].
  - by rewrite decide_True.
  - rewrite IH. case_decide; [done|]. pose proof (split_char_not_nil c s).
    by destruct (split_char c s).
Qed.

Lemma path_join_clean cs x :
  Forall (λ c, plain c = true) cs →
  path_join [abs_path cs; x] = abs_path (reverse (foldl (clean_step true) (reverse cs) (split_char "/" x))).
Proof.
  intros Hcs. unfold path_join. rewrite decide_False by done.
  change (join "/" [abs_path cs; x]) with (abs_path cs +:+ String "/" x). unfold clean.
  change (has_prefix (abs_path cs +:+ String "/" x) "/") with (has_prefix ("/" +:+ (join "/" cs +:+ String "/" x)) "/").
  assert (has_prefix ("/" +:+ (join "/" cs +:+ String "/" x)) "/" = true) as -> by (apply has_prefix_true; by eexists).
  rewrite split_char_app_full, foldl_app, split_abs_path by done. cbn [foldl].
  change (clean_step true [] "") with (@nil string).
  assert (foldl (clean_step true) [] (if decide (cs = []) then [""] else cs) = reverse cs) as ->.
  { case_decide; [by subst|]. by rewrite clean_stack_push, app_nil_r. }
  by rewrite decide_False by (by destruct (join _ _)).
Qed.
