(* ===== verification/KeyValue.v ===== *)
(** * The [key = value] grammar (pkg/raiou/parse.go, pkg/raiou/buildinfo.go)

    The line reader and the [key = value] parser shared by .PKGINFO, .BUILDINFO
    and the %XDATA% field of a desc file, the two number parsers, and the
    .BUILDINFO parser built on them. *)

From S2P Require Import Prelude GoStrings.

(** The errors of the parsers of pkg/raiou. *)
Inductive parse_error :=
| ErrTooLong
| ErrInvalidLine (line : string)
| ErrMissingValue
| ErrInvalidInt (value : string)
| ErrInvalidXData (data : string)
| ErrField (field : string) (e : parse_error).

#[export] Instance parse_error_eq_dec : EqDecision parse_error.
Proof. solve_decision. Defined.

Definition keyValue : Type := string * string.
Definition Key (kv : keyValue) : string := kv.1.
Definition Value (kv : keyValue) : string := kv.2.
Definition keyValue_String (kv : keyValue) : string := kv.1 +:+ " = " +:+ kv.2.

Fixpoint parseKeyValues (lines : list string) : result parse_error (list keyValue) :=
  match lines with
  | [] => Ok []
  | line :: lines =>
      let trimmed := trim_space line in
      if decide (trimmed = "") then parseKeyValues lines
      else if has_prefix trimmed "#" then parseKeyValues lines
      else match cut "=" trimmed with
           | None => Err (ErrInvalidLine trimmed)
           | Some (k, v) =>
               let key := trim_space k in
               let value := trim_space v in
               if decide (key = "") then Err (ErrInvalidLine trimmed)
               else if decide (value = "") then parseKeyValues lines
               else cons (key, value) <$> parseKeyValues lines
           end
  end.

Definition readLines (data : string) : result parse_error (list string) :=
  let '(lines, too_long) := scan_lines data in
  if too_long then Err ErrTooLong else Ok lines.

(** A [time.Time] with whole seconds is its Unix time. *)
Definition Time : Type := Z.
Definition zero_time : Time := (-62135596800)%Z.

Definition parseInt (lines : list string) : result parse_error Z :=
  match lines with
  | [] => Err ErrMissingValue
  | l :: _ => result_of_option (ErrInvalidInt (trim_space l)) (parse_int (trim_space l))
  end.

Definition parseUnixTimestamp (lines : list string) : result parse_error Time :=
  match lines with
  | [] => Err ErrMissingValue
  | l :: _ => result_of_option (ErrInvalidInt (trim_space l)) (parse_int (trim_space l))
  end.

(** ** .BUILDINFO *)
Record BUILDINFO := mkBUILDINFO { Format : string; BuildDir : string }.
#[export] Instance BUILDINFO_eta : Eta BUILDINFO :=
  λ b, mkBUILDINFO (Format b) (BuildDir b).

Definition buildinfo_step (b : BUILDINFO) (kv : keyValue) : BUILDINFO :=
  if decide (Key kv = "format") then b <| Format := Value kv |>
  else if decide (Key kv = "builddir") then b <| BuildDir := Value kv |>
  else b.

Definition ParseBuildinfoString (data : string) : result parse_error BUILDINFO :=
  lines ← readLines data;
  kvs ← parseKeyValues lines;
  mret (foldl buildinfo_step (mkBUILDINFO "" "") kvs).

(** ** What the printers must respect *)

(** A key: one trimmed word without [=] that does not begin a comment. *)
Definition good_key (k : string) : bool :=
  trimmed k && bool_decide (k ≠ "") && negb (occurs "=" k) && negb (has_prefix k "#").

(** A value that survives a line of its own. *)
Definition good_value (v : string) : bool :=
  trimmed v && bool_decide (v ≠ "")
  && negb (occurs newline v) && negb (occurs carriage_return v).

Definition kv_line (kv : keyValue) : string := kv.1 +:+ " = " +:+ kv.2.

Lemma kv_line_eq k v : kv_line (k, v) = (k +:+ " ") +:+ String "=" (String " " v).
Proof. unfold kv_line. simpl. by rewrite <-str_app_assoc. Qed.

Definition good_kv (kv : keyValue) : bool :=
  good_key kv.1 && good_value kv.2
  && (Z.of_nat (String.length (kv_line kv)) <? max_scan_token_size)%Z.

Lemma good_kv_line kv :
  good_kv kv = true → occurs newline kv.1 = false → good_line (kv_line kv) = true.
Proof.
  destruct kv as [k v]. unfold good_kv, good_value, good_line, kv_line; simpl.
  rewrite !andb_true_iff, !negb_true_iff, !bool_decide_eq_true.
  intros [[Hk [[[Ht Hne] Hnl] Hcr]] ->] Hk'. repeat split.
  - by rewrite occurs_app, Hk'; simpl.
  - destruct (has_suffix _ _) eqn:E; [|done]. apply has_suffix_true in E as [t E].
    change (k +:+ (" = " +:+ v) = t +:+ String carriage_return "") in E.
    rewrite str_app_assoc in E. apply app_last_occurs in E; congruence.
Qed.

(** The parser inverts the printer of a line. *)
Lemma parse_kv_lines kvs :
  Forall (λ kv, good_kv kv = true) kvs → parseKeyValues (map kv_line kvs) = Ok kvs.
Proof.
  induction 1 as [|[k v] kvs Hkv Hf IH]; [done|].
  unfold good_kv, good_key, good_value in Hkv; simpl in Hkv.
  rewrite !andb_true_iff, !negb_true_iff, !bool_decide_eq_true in Hkv.
  destruct Hkv as [[[[[Htk Hk] Heq] Hhash] [[[Htv Hv] _] _]] _].
  cbn [map parseKeyValues]. rewrite kv_line_eq.
  rewrite (trim_space_id (_ +:+ _)); [|apply trimmed_app_ascii; [done..| |]].
  2:{ apply starts_space_app_ne; [done..|]. by apply trimmed_starts. }
  2:{ apply trim_right_cons_ascii; [done|auto|]. by apply trimmed_trim_right. }
  rewrite decide_False by (destruct k; done).
  assert (has_prefix ((k +:+ " ") +:+ String "=" (String " " v)) "#" = false) as ->.
  { apply not_true_iff_false. intros [t Ht]%has_prefix_true.
    apply not_true_iff_false in Hhash. apply Hhash. apply has_prefix_true.
    destruct k as [|c k]; simplify_eq/=; eauto. }
  rewrite cut_char_app by (by rewrite occurs_app, Heq).
  rewrite trimmed_cons_space, (trim_space_id v) by done.
  rewrite trim_space_app_space by done.
  rewrite !decide_False by done. by rewrite IH.
Qed.
