(* ===== verification/Pkginfo.v ===== *)
(** * .PKGINFO (pkg/raiou/pkginfo.go, pkg/raiou/pkginfo_write.go)

    The record, its parser and its writer, and the round trip between them. *)

From S2P Require Import Prelude GoStrings KeyValue.

Module PKGINFO.
Record PKGINFO := mk {
  PkgName : string;
  PkgBase : string;
  PkgVer : string;
  PkgDesc : string;
  URL : string;
  BuildDate : Z;
  Packager : string;
  Size : Z;
  Arch : string;
  License : list string;
  Replaces : list string;
  Group : list string;
  Conflict : list string;
  Provides : list string;
  Backup : list string;
  Depend : list string;
  OptDepend : list string;
  MakeDepend : list string;
  CheckDepend : list string;
  XData : gmap string string;
  PkgType : string;
}.

#[global] Instance PKGINFO_eta : Eta PKGINFO := λ p,
  mk (PkgName p) (PkgBase p) (PkgVer p) (PkgDesc p) (URL p) (BuildDate p)
     (Packager p) (Size p) (Arch p) (License p) (Replaces p) (Group p)
     (Conflict p) (Provides p) (Backup p) (Depend p) (OptDepend p)
     (MakeDepend p) (CheckDepend p) (XData p) (PkgType p).
End PKGINFO.
Import PKGINFO.

Definition NewPKGINFO : PKGINFO :=
  mk "" "" "" "" "" 0 "" 0 "" [] [] [] [] [] [] [] [] [] [] ∅ "".

Definition append_to (v : string) (l : list string) : list string := l ++ [v].

Definition parseXData (p : PKGINFO) (data : string) : result parse_error PKGINFO :=
  match cut "=" data with
  | Some (k, v) =>
      let xKey := trim_space k in
      let xValue := trim_space v in
      let p := if decide (xKey = "pkgtype") then p <| PkgType := xValue |> else p in
      Ok (p <| XData ::= <[xKey := xValue]> |>)
  | None => Err (ErrInvalidXData data)
  end.

(** One iteration of the loop of [(p *PKGINFO) parseKeyValues]. *)
Definition pkginfo_step (p : PKGINFO) (kv : keyValue) : result parse_error PKGINFO :=
  let key := Key kv in
  let value := Value kv in
  if decide (key = "pkgname") then Ok (p <| PkgName := value |>)
  else if decide (key = "pkgbase") then Ok (p <| PkgBase := value |>)
  else if decide (key = "pkgver") then Ok (p <| PkgVer := value |>)
  else if decide (key = "pkgdesc") then Ok (p <| PkgDesc := value |>)
  else if decide (key = "url") then Ok (p <| URL := value |>)
  else if decide (key = "builddate") then
    match parse_int value with
    | Some buildDate => Ok (p <| BuildDate := buildDate |>)
    | None => Err (ErrField "builddate" (ErrInvalidInt value))
    end
  else if decide (key = "packager") then Ok (p <| Packager := value |>)
  else if decide (key = "size") then
    match parse_int value with
    | Some size => Ok (p <| Size := size |>)
    | None => Err (ErrField "size" (ErrInvalidInt value))
    end
  else if decide (key = "arch") then Ok (p <| Arch := value |>)
  else if decide (key = "license") then Ok (p <| License ::= append_to value |>)
  else if decide (key = "replaces") then Ok (p <| Replaces ::= append_to value |>)
  else if decide (key = "group") then Ok (p <| Group ::= append_to value |>)
  else if decide (key = "conflict") then Ok (p <| Conflict ::= append_to value |>)
  else if decide (key = "provides") then Ok (p <| Provides ::= append_to value |>)
  else if decide (key = "backup") then Ok (p <| Backup ::= append_to value |>)
  else if decide (key = "depend") then Ok (p <| Depend ::= append_to value |>)
  else if decide (key = "optdepend") then Ok (p <| OptDepend ::= append_to value |>)
  else if decide (key = "makedepend") then Ok (p <| MakeDepend ::= append_to value |>)
  else if decide (key = "checkdepend") then Ok (p <| CheckDepend ::= append_to value |>)
  else if decide (key = "xdata") then parseXData p value
  else Ok p.

Definition pkginfo_parseKeyValues (p : PKGINFO) (kvs : list keyValue)
    : result parse_error PKGINFO :=
  foldM pkginfo_step p kvs.

Definition ParsePkginfo (data : string) : result parse_error PKGINFO :=
  lines ← readLines data;
  keyValues ← parseKeyValues lines;
  pkginfo_parseKeyValues NewPKGINFO keyValues.

(** ** The writer *)

(** [strings.NewReplacer("\r", " ", "\n", " ")]. *)
Definition sanitize (v : string) : string :=
  map_bytes (λ c, if decide (c = carriage_return ∨ c = newline) then " "%char else c) v.

(** The closure [write]. *)
Definition write (key value : string) : string :=
  if decide (value = "") then ""
  else key +:+ " = " +:+ sanitize value +:+ String newline "".

Definition writeAll (key : string) (values : list string) : list keyValue :=
  map (pair key) values.

Section writer.
Context {R : RangeOrder}.

(** The xdata keys other than [pkgtype], sorted. *)
Definition xdata_keys (p : PKGINFO) : list string :=
  sort_strings (filter (λ k, k ≠ "pkgtype") (range_keys (dom (XData p)))).

(** The calls of [write] that [Bytes] makes, in order. *)
Definition pkginfo_writes (p : PKGINFO) : list keyValue :=
  [("pkgname", PkgName p); ("pkgbase", PkgBase p); ("pkgver", PkgVer p);
   ("pkgdesc", PkgDesc p); ("url", URL p);
   ("builddate", format_int (BuildDate p)); ("packager", Packager p);
   ("size", format_int (Size p)); ("arch", Arch p)]
  ++ writeAll "license" (License p)
  ++ writeAll "replaces" (Replaces p)
  ++ writeAll "group" (Group p)
  ++ writeAll "conflict" (Conflict p)
  ++ writeAll "provides" (Provides p)
  ++ writeAll "backup" (Backup p)
  ++ writeAll "depend" (Depend p)
  ++ writeAll "optdepend" (OptDepend p)
  ++ writeAll "makedepend" (MakeDepend p)
  ++ writeAll "checkdepend" (CheckDepend p)
  ++ (if decide (PkgType p = "") then [] else [("xdata", "pkgtype=" +:+ PkgType p)])
  ++ map (λ k, ("xdata", k +:+ "=" +:+ default "" (XData p !! k))) (xdata_keys p).

Definition pkginfo_Bytes (p : PKGINFO) : string :=
  foldr (λ kv b, write kv.1 kv.2 +:+ b) "" (pkginfo_writes p).
End writer.

(** ** Well-formed metadata

    What the textual format can carry: trimmed values without line breaks,
    64-bit numbers, xdata keys without [=], the [pkgtype] entry in step with
    [PkgType], and lines within the scanner's buffer. *)

Definition good_xdata (kv : keyValue) : bool :=
  trimmed kv.1 && negb (occurs "=" kv.1) && trimmed kv.2
  && good_kv ("xdata", kv.1 +:+ "=" +:+ kv.2).

Definition wf_pkginfo (p : PKGINFO) : bool :=
  int64 (BuildDate p) && int64 (Size p)
  && forallb (λ kv, bool_decide (kv.2 = "") || good_kv kv)
       [("pkgname", PkgName p); ("pkgbase", PkgBase p); ("pkgver", PkgVer p);
        ("pkgdesc", PkgDesc p); ("url", URL p); ("packager", Packager p); ("arch", Arch p)]
  && forallb good_kv
       (("builddate", format_int (BuildDate p)) :: ("size", format_int (Size p)) ::
        writeAll "license" (License p) ++ writeAll "replaces" (Replaces p)
        ++ writeAll "group" (Group p) ++ writeAll "conflict" (Conflict p)
        ++ writeAll "provides" (Provides p) ++ writeAll "backup" (Backup p)
        ++ writeAll "depend" (Depend p) ++ writeAll "optdepend" (OptDepend p)
        ++ writeAll "makedepend" (MakeDepend p) ++ writeAll "checkdepend" (CheckDepend p))
  && forallb good_xdata (map_to_list (XData p))
  && bool_decide (XData p !! "pkgtype"
                  = if decide (PkgType p = "") then None else Some (PkgType p)).

(** ** Lemmas: the writer as a list of lines *)

Lemma good_kv_key kv : good_kv kv = true → kv.2 ≠ "" ∧ sanitize kv.2 = kv.2.
Proof.
  destruct kv as [k v]. unfold good_kv, good_value; simpl.
  rewrite !andb_true_iff, !negb_true_iff, !bool_decide_eq_true.
  intros [[_ [[[_ Hv] Hnl] Hcr]] _]. split; [done|].
  apply map_bytes_id. intros c. case_decide as Hc; [|done]. by destruct Hc as [->| ->].
Qed.

(** The pairs that produce a line. *)
Definition nonempty (kvs : list keyValue) : list keyValue := filter (λ kv, kv.2 ≠ "") kvs.

Definition writable (kv : keyValue) : Prop := kv.2 = "" ∨ good_kv kv = true.

Lemma nonempty_good kvs : Forall writable kvs → Forall (λ kv, good_kv kv = true) (nonempty kvs).
Proof.
  intros H. apply Forall_forall. intros kv [Hne Hin]%list_elem_of_filter.
  rewrite Forall_forall in H. by destruct (H kv Hin).
Qed.

Lemma writes_unlines kvs :
  Forall writable kvs →
  foldr (λ kv b, write kv.1 kv.2 +:+ b) "" kvs = unlines (map kv_line (nonempty kvs)).
Proof.
  induction 1 as [|[k v] kvs Hkv Hf IH]; [done|]. cbn [foldr]. rewrite IH.
  unfold nonempty. rewrite filter_cons. unfold write. cbn [fst snd].
  destruct (decide (v = "")) as [->|Hv]; [done|]. rewrite decide_True by done.
  destruct Hkv as [|[_ Hs]%good_kv_key]; [done|]. simpl in Hs. rewrite Hs.
  unfold unlines. cbn [map foldr]. unfold kv_line. cbn [fst snd].
  rewrite <-!str_app_assoc. done.
Qed.

(** ** Lemmas: the parser on the lines of the writer *)

(** The parser skips what the writer skips. *)
Definition pkginfo_step' (p : PKGINFO) (kv : keyValue) : result parse_error PKGINFO :=
  if decide (kv.2 = "") then Ok p else pkginfo_step p kv.

Lemma foldM_nonempty p kvs :
  foldM pkginfo_step p (nonempty kvs) = foldM pkginfo_step' p kvs.
Proof.
  revert p. induction kvs as [|kv kvs IH]; intros p; [done|].
  unfold nonempty. rewrite filter_cons. cbn [foldM]. unfold pkginfo_step' at 1.
  destruct (decide (kv.2 = "")) as [E|E].
  - rewrite decide_False by tauto. apply IH.
  - rewrite decide_True by done. cbn [foldM]. destruct (pkginfo_step p kv); [apply IH|done].
Qed.

(** A repeated key appends its values to a list field. *)
Lemma foldM_writeAll (k : string) (upd : (list string → list string) → PKGINFO → PKGINFO) l :
  (∀ q v, pkginfo_step q (k, v) = Ok (upd (append_to v) q)) →
  (∀ f g q, upd f (upd g q) = upd (λ x, f (g x)) q) →
  (∀ f g q, (∀ x, f x = g x) → upd f q = upd g q) →
  (∀ q, upd (λ x, x) q = q) →
  Forall (λ kv, good_kv kv = true) (writeAll k l) →
  ∀ q, foldM pkginfo_step' q (writeAll k l) = Ok (upd (.++ l) q).
Proof.
  intros Hstep Hcomp Hext Hid. induction l as [|v l IH]; intros Hl q.
  - simpl. f_equal. rewrite <-(Hid q) at 1. apply Hext. intros x. by rewrite app_nil_r.
  - inv Hl as [|?? [Hv _]%good_kv_key Hl']. simpl in Hv. cbn [writeAll map foldM].
    unfold pkginfo_step' at 1. cbn [snd]. rewrite decide_False, Hstep by done.
    rewrite IH by done. f_equal. rewrite Hcomp. apply Hext.
    intros x. unfold append_to. by rewrite <-(assoc_L (++)).
Qed.

Ltac list_step k g :=
  rewrite foldM_app, (foldM_writeAll k (set_field (getter := g)));
  [cbn [mbind result_bind set_field]
  |done|done|by intros f1 g1 [] Hfg; unfold set_field; simpl; rewrite Hfg|by intros []
  |assumption].

Lemma scalar_step (k v : string) q q' :
  pkginfo_step q (k, v) = Ok q' → (v = "" → q' = q) → pkginfo_step' q (k, v) = Ok q'.
Proof.
  intros Hstep Hid. unfold pkginfo_step'. cbn [snd]. case_decide as Hv; [|done].
  by rewrite Hid.
Qed.

Lemma int_step (k : string) z q : pkginfo_step' q (k, format_int z) = pkginfo_step q (k, format_int z).
Proof. unfold pkginfo_step'. cbn [snd]. by rewrite decide_False by apply format_int_not_nil. Qed.

Lemma builddate_step z q :
  int64 z = true → pkginfo_step q ("builddate", format_int z) = Ok (q <| BuildDate := z |>).
Proof. intros Hz. unfold pkginfo_step. simpl. by rewrite parse_format_int. Qed.

Lemma size_step z q :
  int64 z = true → pkginfo_step q ("size", format_int z) = Ok (q <| Size := z |>).
Proof. intros Hz. unfold pkginfo_step. simpl. by rewrite parse_format_int. Qed.

Ltac scalar := erewrite scalar_step; [|reflexivity|by intros ->]; cbn [set_field].

(** The nine leading lines. *)
Lemma foldM_scalars p rest :
  int64 (BuildDate p) = true → int64 (Size p) = true →
  foldM pkginfo_step' NewPKGINFO
    (("pkgname", PkgName p) :: ("pkgbase", PkgBase p) :: ("pkgver", PkgVer p)
     :: ("pkgdesc", PkgDesc p) :: ("url", URL p) :: ("builddate", format_int (BuildDate p))
     :: ("packager", Packager p) :: ("size", format_int (Size p)) :: ("arch", Arch p) :: rest)
  = foldM pkginfo_step'
      (mk (PkgName p) (PkgBase p) (PkgVer p) (PkgDesc p) (URL p) (BuildDate p)
          (Packager p) (Size p) (Arch p) [] [] [] [] [] [] [] [] [] [] ∅ "") rest.
Proof.
  intros Hb Hs. unfold NewPKGINFO. cbn [foldM].
  do 5 scalar. rewrite int_step, builddate_step by done. cbn [set_field].
  scalar. rewrite int_step, size_step by done. scalar. done.
Qed.

Definition list_writes (p : PKGINFO) : list keyValue :=
  writeAll "license" (License p) ++ writeAll "replaces" (Replaces p)
  ++ writeAll "group" (Group p) ++ writeAll "conflict" (Conflict p)
  ++ writeAll "provides" (Provides p) ++ writeAll "backup" (Backup p)
  ++ writeAll "depend" (Depend p) ++ writeAll "optdepend" (OptDepend p)
  ++ writeAll "makedepend" (MakeDepend p) ++ writeAll "checkdepend" (CheckDepend p).

Lemma foldM_list_writes p a b c d e f g h i :
  Forall (λ kv, good_kv kv = true) (list_writes p) →
  foldM pkginfo_step'
    (mk a b c d e f g h i [] [] [] [] [] [] [] [] [] [] ∅ "") (list_writes p)
  = Ok (mk a b c d e f g h i (License p) (Replaces p) (Group p) (Conflict p) (Provides p)
          (Backup p) (Depend p) (OptDepend p) (MakeDepend p) (CheckDepend p) ∅ "").
Proof.
  unfold list_writes. rewrite !Forall_app. intros H. destruct_and! H.
  list_step "license" License. list_step "replaces" Replaces. list_step "group" Group.
  list_step "conflict" Conflict. list_step "provides" Provides. list_step "backup" Backup.
  list_step "depend" Depend. list_step "optdepend" OptDepend.
  list_step "makedepend" MakeDepend.
  rewrite (foldM_writeAll "checkdepend" (set_field (getter := CheckDepend)));
    [done|done|done|by intros f1 g1 [] Hfg; unfold set_field; simpl; rewrite Hfg|by intros []
    |assumption].
Qed.

(** *** The xdata lines *)

Lemma parseXData_line p k v :
  trimmed k = true → occurs "=" k = false → trimmed v = true → k ≠ "pkgtype" →
  parseXData p (k +:+ String "=" v) = Ok (p <| XData ::= <[k := v]> |>).
Proof.
  intros Hk Heq Hv Hne. unfold parseXData. rewrite cut_char_app by done.
  by rewrite !trim_space_id, decide_False.
Qed.

Lemma xdata_step p k v :
  good_xdata (k, v) = true → k ≠ "pkgtype" →
  pkginfo_step' p ("xdata", k +:+ "=" +:+ v) = Ok (p <| XData ::= <[k := v]> |>).
Proof.
  unfold good_xdata. cbn [fst snd]. rewrite !andb_true_iff, negb_true_iff.
  intros [[[Hk Heq] Hv] _] Hne. unfold pkginfo_step'. cbn [snd].
  rewrite decide_False by (destruct k; done). by apply parseXData_line.
Qed.

Lemma foldM_xdata (X : gmap string string) p ks :
  Forall (λ k, good_xdata (k, default "" (X !! k)) = true ∧ k ≠ "pkgtype") ks →
  foldM pkginfo_step' p (map (λ k, ("xdata", k +:+ "=" +:+ default "" (X !! k))) ks)
  = Ok (p <| XData := foldl (λ m k, <[k := default "" (X !! k)]> m) (XData p) ks |>).
Proof.
  intros Hks. revert p. induction Hks as [|k ks [Hk Hne] Hks IH]; intros p.
  - by destruct p.
  - cbn [map foldM]. rewrite xdata_step by done. rewrite IH. by destruct p.
Qed.

Lemma lookup_foldl_insert (X m : gmap string string) ks j :
  foldl (λ m k, <[k := default "" (X !! k)]> m) m ks !! j
  = if decide (j ∈ ks) then Some (default "" (X !! j)) else m !! j.
Proof.
  revert m. induction ks as [|k ks IH]; intros m; [done|]. simpl. rewrite IH.
  destruct (decide (j ∈ ks)) as [Hj|Hj].
  - by rewrite decide_True by set_solver.
  - destruct (decide (j = k)) as [->|Hne].
    + by rewrite lookup_insert_eq, decide_True by set_solver.
    + by rewrite lookup_insert_ne, decide_False by set_solver.
Qed.

Section roundtrip.
Context {R : RangeOrder}.

Lemma elem_of_xdata_keys p k :
  k ∈ xdata_keys p ↔ is_Some (XData p !! k) ∧ k ≠ "pkgtype".
Proof.
  unfold xdata_keys. rewrite elem_of_sort_strings, list_elem_of_filter.
  rewrite elem_of_range_keys, elem_of_dom. tauto.
Qed.

(** Sorting hides the iteration order of the map. *)
Lemma xdata_keys_elements p :
  xdata_keys p = sort_strings (filter (λ k, k ≠ "pkgtype") (elements (dom (XData p)))).
Proof. unfold xdata_keys. by rewrite range_keys_perm. Qed.

Lemma wf_xdata p k :
  forallb good_xdata (map_to_list (XData p)) = true → k ∈ xdata_keys p →
  good_xdata (k, default "" (XData p !! k)) = true ∧ k ≠ "pkgtype".
Proof.
  intros H [[v Hv] Hne]%elem_of_xdata_keys. split; [|done]. rewrite Hv. simpl.
  rewrite forallb_forall in H. apply H. apply list_elem_of_In.
  by apply elem_of_map_to_list.
Qed.

Lemma pkginfo_writes_split p :
  pkginfo_writes p
  = ("pkgname", PkgName p) :: ("pkgbase", PkgBase p) :: ("pkgver", PkgVer p)
    :: ("pkgdesc", PkgDesc p) :: ("url", URL p) :: ("builddate", format_int (BuildDate p))
    :: ("packager", Packager p) :: ("size", format_int (Size p)) :: ("arch", Arch p)
    :: list_writes p
    ++ (if decide (PkgType p = "") then [] else [("xdata", "pkgtype=" +:+ PkgType p)])
    ++ map (λ k, ("xdata", k +:+ "=" +:+ default "" (XData p !! k))) (xdata_keys p).
Proof. unfold pkginfo_writes, list_writes. cbn [app]. by rewrite <-!(assoc_L (++)). Qed.

Lemma wf_pkgtype p :
  wf_pkginfo p = true → PkgType p ≠ "" → good_xdata ("pkgtype", PkgType p) = true.
Proof.
  unfold wf_pkginfo. rewrite !andb_true_iff. intros [[_ Hx] Ht] Hne.
  rewrite bool_decide_eq_true in Ht. rewrite decide_False in Ht by done.
  rewrite forallb_forall in Hx. apply Hx, list_elem_of_In. by apply elem_of_map_to_list.
Qed.

Lemma good_xdata_kv k v : good_xdata (k, v) = true → good_kv ("xdata", k +:+ "=" +:+ v) = true.
Proof. unfold good_xdata. rewrite !andb_true_iff. tauto. Qed.

Lemma wf_pkginfo_scalars p :
  wf_pkginfo p = true →
  Forall writable [("pkgname", PkgName p); ("pkgbase", PkgBase p); ("pkgver", PkgVer p);
    ("pkgdesc", PkgDesc p); ("url", URL p); ("packager", Packager p); ("arch", Arch p)].
Proof.
  unfold wf_pkginfo. rewrite !andb_true_iff. intros [[[[_ H] _] _] _].
  apply Forall_forall. intros kv Hin. rewrite forallb_forall in H.
  apply list_elem_of_In, H, orb_true_iff in Hin as [?%bool_decide_eq_true|?]; [by left|by right].
Qed.

Lemma wf_pkginfo_good p :
  wf_pkginfo p = true →
  good_kv ("builddate", format_int (BuildDate p)) = true ∧
  good_kv ("size", format_int (Size p)) = true ∧
  Forall (λ kv, good_kv kv = true) (list_writes p).
Proof.
  unfold wf_pkginfo. rewrite !andb_true_iff. intros [[[_ H] _] _].
  change (forallb good_kv (("builddate", format_int (BuildDate p))
    :: ("size", format_int (Size p)) :: list_writes p) = true) in H.
  cbn [forallb] in H. rewrite !andb_true_iff in H. destruct H as (?&?&H).
  split_and!; [done..|]. apply Forall_forall. intros kv Hin.
  rewrite forallb_forall in H. by apply H, list_elem_of_In.
Qed.

Lemma wf_pkginfo_writable p : wf_pkginfo p = true → Forall writable (pkginfo_writes p).
Proof.
  intros Hwf. pose proof (wf_pkginfo_scalars p Hwf) as Hs.
  destruct (wf_pkginfo_good p Hwf) as (Hb & Hsz & Hl).
  rewrite pkginfo_writes_split.
  repeat (apply Forall_cons in Hs as [? Hs]).
  repeat (apply Forall_cons; split; [first [assumption|by right]|]).
  apply Forall_app; split; [|apply Forall_app; split].
  - eapply Forall_impl; [exact Hl|]. intros ??. by right.
  - case_decide; [done|]. apply Forall_singleton. right. by apply (good_xdata_kv "pkgtype"), wf_pkgtype.
  - unfold wf_pkginfo in Hwf. rewrite !andb_true_iff in Hwf. destruct Hwf as [[_ Hx] _].
    apply Forall_forall. intros kv (k & -> & Hk)%list_elem_of_fmap. right.
    by apply good_xdata_kv, wf_xdata.
Qed.

Lemma pkgtype_step q v :
  good_xdata ("pkgtype", v) = true → v ≠ "" →
  pkginfo_step' q ("xdata", "pkgtype=" +:+ v)
  = Ok (q <| PkgType := v |> <| XData ::= <["pkgtype" := v]> |>).
Proof.
  unfold good_xdata. cbn [fst snd]. rewrite !andb_true_iff. intros [[_ Hv] _] Hne.
  unfold pkginfo_step'. cbn [snd]. rewrite decide_False by done.
  change (pkginfo_step q ("xdata", "pkgtype=" +:+ v))
    with (parseXData q ("pkgtype" +:+ String "=" v)).
  unfold parseXData. rewrite cut_char_app by done. by rewrite (trim_space_id v).
Qed.

(** Inserting the printed keys rebuilds the xdata map. *)
Lemma xdata_map p (base : gmap string string) :
  base !! "pkgtype" = XData p !! "pkgtype" →
  (∀ j, j ≠ "pkgtype" → base !! j = None) →
  foldl (λ m k, <[k := default "" (XData p !! k)]> m) base (xdata_keys p) = XData p.
Proof.
  intros Ht Hb. apply map_eq. intros j. rewrite lookup_foldl_insert.
  case_decide as Hj.
  - apply elem_of_xdata_keys in Hj as [[v ->] _]. done.
  - destruct (decide (j = "pkgtype")) as [->|Hne]; [done|].
    rewrite Hb by done. destruct (XData p !! j) eqn:E; [|done].
    exfalso. apply Hj, elem_of_xdata_keys. rewrite E. eauto.
Qed.

Lemma foldM_pkginfo_writes p :
  wf_pkginfo p = true → foldM pkginfo_step' NewPKGINFO (pkginfo_writes p) = Ok p.
Proof.
  intros Hwf. pose proof (wf_pkgtype p Hwf) as Htype.
  destruct (wf_pkginfo_good p Hwf) as (_ & _ & Hl). rewrite pkginfo_writes_split.
  unfold wf_pkginfo in Hwf. rewrite !andb_true_iff in Hwf.
  destruct Hwf as [[[[[Hb Hs] _] _] Hx] Ht%bool_decide_eq_true].
  rewrite foldM_scalars by done. rewrite foldM_app, foldM_list_writes by done.
  cbn [mbind result_bind].
  assert (Forall (λ k, good_xdata (k, default "" (XData p !! k)) = true ∧ k ≠ "pkgtype")
            (xdata_keys p)) as Hks.
  { apply Forall_forall. intros k Hk. by apply wf_xdata. }
  destruct (decide (PkgType p = "")) as [E|E]; cbn [app].
  - rewrite foldM_xdata by done. f_equal.
    cbn [XData set_field]. rewrite xdata_map; [by destruct p; simpl in *; subst| |].
    + by rewrite lookup_empty.
    + intros. by rewrite lookup_empty.
  - cbn [foldM].
    rewrite pkgtype_step by auto. rewrite foldM_xdata by done. f_equal.
    cbn [XData PkgType set_field]. rewrite xdata_map; [by destruct p| |].
    + by rewrite lookup_insert_eq.
    + intros. by rewrite lookup_insert_ne.
Qed.

(** The lines the writer produces are lines the scanner returns unchanged. *)
Lemma pkginfo_good_lines p :
  Forall (λ kv, good_kv kv = true) (nonempty (pkginfo_writes p)) →
  Forall (λ l, good_line l = true) (map kv_line (nonempty (pkginfo_writes p))).
Proof.
  intros H. apply Forall_forall. intros l (kv & -> & Hkv)%list_elem_of_fmap.
  rewrite Forall_forall in H. apply good_kv_line; [by apply H|].
  apply list_elem_of_filter in Hkv as [_ Hkv]. revert kv Hkv. apply Forall_forall.
  rewrite pkginfo_writes_split. repeat (apply Forall_cons; split; [done|]).
  unfold list_writes, writeAll. rewrite !Forall_app.
  split_and!; try (apply Forall_fmap, Forall_true; done).
  by case_decide; repeat constructor.
Qed.
End roundtrip.

(** Parsing the text that [Bytes] writes gives the metadata back, for every
    well-formed [PKGINFO] and every iteration order of the xdata map. *)
Theorem ParsePkginfo_Bytes {R : RangeOrder} (p : PKGINFO) :
  wf_pkginfo p = true → ParsePkginfo (pkginfo_Bytes p) = Ok p.
Proof.
  intros Hwf. pose proof (wf_pkginfo_writable p Hwf) as Hw.
  unfold ParsePkginfo, pkginfo_Bytes. rewrite writes_unlines by done.
  unfold readLines. rewrite scan_unlines.
  2:{ apply pkginfo_good_lines. by apply nonempty_good. }
  cbn [mbind result_bind]. rewrite parse_kv_lines by by apply nonempty_good.
  cbn [mbind result_bind]. unfold pkginfo_parseKeyValues.
  rewrite foldM_nonempty. by apply foldM_pkginfo_writes.
Qed.

Definition example_pkginfo : PKGINFO :=
  mk "foo" "" "1:1.0-1" "a tool" "https://example.org" 1700000000 "" 42 "any"
     ["MIT"; "GPL"] [] [] [] ["libfoo.so=1-64"] [] ["glibc>=2.38"] [] [] []
     {["pkgtype" := "pkg"; "note" := ""]} "pkg".

Lemma ParsePkginfo_Bytes_witness :
  ParsePkginfo (@pkginfo_Bytes elements_order example_pkginfo) = Ok example_pkginfo.
Proof. apply ParsePkginfo_Bytes. vm_compute. reflexivity. Defined.
