(* ===== verification/Desc.v ===== *)
(** * Repository desc entries (pkg/raiou/desc.go)

    The record of a desc entry, its parser (a line-driven state machine), its
    writer in repo-add's order, the two conversions to and from [PKGINFO], and
    the round trips between them. *)

From S2P Require Import Prelude GoStrings KeyValue Pkginfo.

Module DESC.
Record DESC := mk {
  FileName : string;
  Name : string;
  Version : string;
  Base : string;
  Description : string;
  URL : string;
  Arch : string;
  BuildDate : Time;
  InstallDate : Time;
  Packager : string;
  Size : Z;
  ISize : Z;
  CSize : Z;
  Reason : Z;
  Groups : list string;
  License : list string;
  Validation : string;
  InstalledDB : string;
  Replaces : list string;
  Depends : list string;
  OptDepends : list string;
  MakeDepends : list string;
  CheckDepends : list string;
  SHA256SUM : string;
  MD5SUM : string;
  PGPSIG : string;
  Conflicts : list string;
  Provides : list string;
  XData : list keyValue;
  ExtraFields : gmap string (list string);
}.

#[global] Instance DESC_eta : Eta DESC := λ d,
  mk (FileName d) (Name d) (Version d) (Base d) (Description d) (URL d) (Arch d)
     (BuildDate d) (InstallDate d) (Packager d) (Size d) (ISize d) (CSize d)
     (Reason d) (Groups d) (License d) (Validation d) (InstalledDB d) (Replaces d)
     (Depends d) (OptDepends d) (MakeDepends d) (CheckDepends d) (SHA256SUM d)
     (MD5SUM d) (PGPSIG d) (Conflicts d) (Provides d) (XData d) (ExtraFields d).
End DESC.
Import DESC.

Definition NewDESC : DESC :=
  mk "" "" "" "" "" "" "" zero_time zero_time "" 0 0 0 0 [] [] "" "" [] [] [] [] []
     "" "" "" [] [] [] ∅.

Definition first (values : list string) : string :=
  match values with v :: _ => v | [] => "" end.

(** The switch of the closure [flush], for a current field [f] that is not
    empty. *)
Definition set_desc_field (d : DESC) (f : string) (buffer : list string)
    : result parse_error DESC :=
  if decide (f = "FILENAME") then Ok (d <| FileName := first buffer |>)
  else if decide (f = "NAME") then Ok (d <| Name := first buffer |>)
  else if decide (f = "VERSION") then Ok (d <| Version := first buffer |>)
  else if decide (f = "BASE") then Ok (d <| Base := first buffer |>)
  else if decide (f = "DESC") then
    Ok (d <| Description := join (String newline "") buffer |>)
  else if decide (f = "URL") then Ok (d <| URL := first buffer |>)
  else if decide (f = "ARCH") then Ok (d <| Arch := first buffer |>)
  else if decide (f = "BUILDDATE") then
    t ← map_err (ErrField f) (parseUnixTimestamp buffer); Ok (d <| BuildDate := t |>)
  else if decide (f = "INSTALLDATE") then
    t ← map_err (ErrField f) (parseUnixTimestamp buffer); Ok (d <| InstallDate := t |>)
  else if decide (f = "PACKAGER") then Ok (d <| Packager := first buffer |>)
  else if decide (f = "SIZE") then
    s ← map_err (ErrField f) (parseInt buffer); Ok (d <| Size := s |>)
  else if decide (f = "ISIZE") then
    s ← map_err (ErrField f) (parseInt buffer); Ok (d <| ISize := s |>)
  else if decide (f = "CSIZE") then
    s ← map_err (ErrField f) (parseInt buffer); Ok (d <| CSize := s |>)
  else if decide (f = "SHA256SUM") then Ok (d <| SHA256SUM := first buffer |>)
  else if decide (f = "MD5SUM") then Ok (d <| MD5SUM := first buffer |>)
  else if decide (f = "PGPSIG") then Ok (d <| PGPSIG := first buffer |>)
  else if decide (f = "REASON") then
    r ← map_err (ErrField f) (parseInt buffer); Ok (d <| Reason := r |>)
  else if decide (f = "GROUPS") then Ok (d <| Groups ::= (.++ buffer) |>)
  else if decide (f = "LICENSE") then Ok (d <| License ::= (.++ buffer) |>)
  else if decide (f = "VALIDATION") then Ok (d <| Validation := first buffer |>)
  else if decide (f = "INSTALLED_DB") then Ok (d <| InstalledDB := first buffer |>)
  else if decide (f = "REPLACES") then Ok (d <| Replaces ::= (.++ buffer) |>)
  else if decide (f = "DEPENDS") then Ok (d <| Depends ::= (.++ buffer) |>)
  else if decide (f = "OPTDEPENDS") then Ok (d <| OptDepends ::= (.++ buffer) |>)
  else if decide (f = "MAKEDEPENDS") then Ok (d <| MakeDepends ::= (.++ buffer) |>)
  else if decide (f = "CHECKDEPENDS") then Ok (d <| CheckDepends ::= (.++ buffer) |>)
  else if decide (f = "CONFLICTS") then Ok (d <| Conflicts ::= (.++ buffer) |>)
  else if decide (f = "PROVIDES") then Ok (d <| Provides ::= (.++ buffer) |>)
  else if decide (f = "XDATA") then
    kvPairs ← map_err (ErrField f) (parseKeyValues buffer); Ok (d <| XData := kvPairs |>)
  else Ok (d <| ExtraFields ::= <[f := default [] (ExtraFields d !! f) ++ buffer]> |>).

(** The variables the closure of [ParseDesc] shares with the loop. *)
Record desc_state := mkDescState {
  ds_desc : DESC;
  currentField : string;
  buffer : list string;
}.

Definition flush (st : desc_state) : result parse_error desc_state :=
  if decide (currentField st = "") then Ok st
  else d ← set_desc_field (ds_desc st) (currentField st) (buffer st);
       Ok (mkDescState d (currentField st) []).

(** One iteration of the scanner loop. *)
Definition desc_step (st : desc_state) (l : string) : result parse_error desc_state :=
  if has_prefix l "%" && has_suffix l "%" then
    st ← flush st;
    Ok (mkDescState (ds_desc st) (trim_byte "%" l) (buffer st))
  else if decide (currentField st = "") then Ok st
  else let trimmed := trim_space l in
       if decide (trimmed = "") then Ok st
       else Ok (mkDescState (ds_desc st) (currentField st) (buffer st ++ [trimmed])).

Definition ParseDesc (data : string) : result parse_error DESC :=
  let '(lines, too_long) := scan_lines data in
  st ← foldM desc_step (mkDescState NewDESC "" []) lines;
  st ← flush st;
  if too_long then Err ErrTooLong else Ok (ds_desc st).

(** ** The writer *)

(** [descWhitespace.ReplaceAllString(v, " ")]. *)
Fixpoint collapse_space (inside : bool) (v : string) : string :=
  match v with
  | EmptyString => ""
  | String c v =>
      if Ascii.is_space c
      then if inside then collapse_space true v else String " " (collapse_space true v)
      else String c (collapse_space false v)
  end.

Definition writeDescField (field : string) (values : list string) : string :=
  match values with
  | [] => ""
  | v :: _ =>
      if decide (v = "") then ""
      else "%" +:+ field +:+ "%" +:+ String newline ""
           +:+ foldr (λ v b, collapse_space false v +:+ String newline b)
                 (String newline "") values
  end.

Definition buildDateValue (t : Time) : string :=
  if (0 <? t)%Z then format_int t else "".

(** The calls of [writeDescField] that [appendTo] makes, in order. *)
Definition desc_writes (d : DESC) : list (string * list string) :=
  [("FILENAME", [FileName d]); ("NAME", [Name d]); ("BASE", [Base d]);
   ("VERSION", [Version d]); ("DESC", [Description d]); ("GROUPS", Groups d);
   ("CSIZE", [format_int (CSize d)]); ("ISIZE", [format_int (ISize d)]);
   ("SHA256SUM", [SHA256SUM d]); ("PGPSIG", [PGPSIG d]); ("URL", [URL d]);
   ("LICENSE", License d); ("ARCH", [Arch d]);
   ("BUILDDATE", [buildDateValue (BuildDate d)]); ("PACKAGER", [Packager d]);
   ("REPLACES", Replaces d); ("CONFLICTS", Conflicts d); ("PROVIDES", Provides d);
   ("DEPENDS", Depends d); ("OPTDEPENDS", OptDepends d);
   ("MAKEDEPENDS", MakeDepends d); ("CHECKDEPENDS", CheckDepends d)].

Definition desc_Bytes (d : DESC) : string :=
  foldr (λ w b, writeDescField w.1 w.2 +:+ b) "" (desc_writes d).

(** ** Conversions *)

Definition DescFromPkginfo (info : PKGINFO.PKGINFO) (filename : string) (csize : Z)
    (sha256sum : string) : DESC :=
  NewDESC
    <| FileName := filename |>
    <| Name := PKGINFO.PkgName info |>
    <| Base := PKGINFO.PkgBase info |>
    <| Version := PKGINFO.PkgVer info |>
    <| Description := PKGINFO.PkgDesc info |>
    <| Groups := PKGINFO.Group info |>
    <| CSize := csize |>
    <| ISize := PKGINFO.Size info |>
    <| SHA256SUM := sha256sum |>
    <| URL := PKGINFO.URL info |>
    <| License := PKGINFO.License info |>
    <| Arch := PKGINFO.Arch info |>
    <| BuildDate := PKGINFO.BuildDate info |>
    <| Packager := PKGINFO.Packager info |>
    <| Replaces := PKGINFO.Replaces info |>
    <| Conflicts := PKGINFO.Conflict info |>
    <| Provides := PKGINFO.Provides info |>
    <| Depends := PKGINFO.Depend info |>
    <| OptDepends := PKGINFO.OptDepend info |>
    <| MakeDepends := PKGINFO.MakeDepend info |>
    <| CheckDepends := PKGINFO.CheckDepend info |>.

Section conversion.
(** [fmt.Sprintf("%q", v)], used only for unknown fields with several values. *)
Context (quote : string → string) {R : RangeOrder}.

Definition joinQuoted (values : list string) (sep : string) : string :=
  join sep (map quote values).

Definition flattenValues (values : list string) : string :=
  match values with
  | [] => ""
  | [v] => v
  | _ => "[" +:+ joinQuoted values ", " +:+ "]"
  end.

Definition xdata_fold (p : PKGINFO.PKGINFO) (kv : keyValue) : PKGINFO.PKGINFO :=
  if decide (Key kv = "pkgtype") then p <| PKGINFO.PkgType := Value kv |>
  else p <| PKGINFO.XData ::= <[Key kv := Value kv]> |>.

Definition extra_fold (p : PKGINFO.PKGINFO) (kv : string * list string) : PKGINFO.PKGINFO :=
  match PKGINFO.XData p !! kv.1 with
  | Some _ => p
  | None => p <| PKGINFO.XData ::= <[kv.1 := flattenValues kv.2]> |>
  end.

Definition ToPKGINFO (d : DESC) : PKGINFO.PKGINFO :=
  let size := if decide (Size d = 0%Z) then ISize d else Size d in
  let p := PKGINFO.mk (Name d) (Base d) (Version d) (Description d) (URL d)
             (BuildDate d) (Packager d) size (Arch d) (License d) (Replaces d)
             (Groups d) (Conflicts d) (Provides d) [] (Depends d) (OptDepends d)
             (MakeDepends d) (CheckDepends d) ∅ "" in
  let p := foldl xdata_fold p (XData d) in
  foldl extra_fold p (range_map (ExtraFields d)).
End conversion.

(** ** Well-formed entries *)

(** A value the writer leaves alone and the parser reads back. *)
Definition good_desc_value (v : string) : bool :=
  bool_decide (v ≠ "") && bool_decide (collapse_space false v = v) && trimmed v
  && negb (has_prefix v "%" && has_suffix v "%") && good_line v.

Definition good_block (w : string * list string) : bool :=
  forallb good_desc_value w.2.

(** A block the writer emits. *)
Definition emitted (w : string * list string) : bool :=
  match w.2 with [] => false | v :: _ => bool_decide (v ≠ "") end.

Definition wf_desc (d : DESC) : bool :=
  int64 (CSize d) && int64 (ISize d) && int64 (BuildDate d)
  && forallb (λ w, negb (emitted w) || good_block w) (desc_writes d)
  && forallb (λ l, negb (bool_decide (head l = Some "")))
       [Groups d; License d; Replaces d; Conflicts d; Provides d; Depends d;
        OptDepends d; MakeDepends d; CheckDepends d].

(** ** Lemmas: the writer as blocks of lines *)

Definition header (f : string) : string := "%" +:+ f +:+ "%".

Definition block_lines (w : string * list string) : list string :=
  header w.1 :: w.2 ++ [""].

Definition desc_blocks (d : DESC) : list (string * list string) :=
  filter (λ w, emitted w = true) (desc_writes d).

(** A field name the parser reads back. *)
Definition good_field (f : string) : bool :=
  bool_decide (f ≠ "") && has_prefix (header f) "%" && has_suffix (header f) "%"
  && bool_decide (trim_byte "%" (header f) = f) && good_line (header f).

Lemma desc_writes_fields d : Forall (λ w, good_field w.1 = true) (desc_writes d).
Proof. repeat (constructor; [reflexivity|]). constructor. Qed.

Lemma good_desc_value_spec v :
  good_desc_value v = true →
  v ≠ "" ∧ collapse_space false v = v ∧ trim_space v = v ∧
  has_prefix v "%" && has_suffix v "%" = false ∧ good_line v = true.
Proof.
  unfold good_desc_value. rewrite !andb_true_iff, !bool_decide_eq_true, negb_true_iff.
  intros [[[[? ?] ?%trim_space_id] ?] ?]. done.
Qed.

Lemma writeDescField_emitted f vs :
  emitted (f, vs) = true → Forall (λ v, good_desc_value v = true) vs →
  writeDescField f vs = unlines (block_lines (f, vs)).
Proof.
  intros He Hvs. unfold block_lines, unlines, header. cbn [fst snd foldr].
  rewrite foldr_app. cbn [foldr].
  assert (foldr (λ v b, collapse_space false v +:+ String newline b) (String newline "") vs
          = foldr (λ l s, l +:+ String newline s) ("" +:+ String newline "") vs) as Hfold.
  { clear He. induction Hvs as [|v vs Hv Hvs IH]; [done|]. cbn [foldr]. rewrite IH.
    apply good_desc_value_spec in Hv as (_ & -> & _). done. }
  unfold writeDescField. destruct vs as [|v vs]; [done|].
  cbn in He. apply bool_decide_eq_true in He. rewrite decide_False by done.
  rewrite Hfold. cbn [String.append]. by rewrite <-str_app_assoc.
Qed.

Lemma writeDescField_skipped f vs : emitted (f, vs) = false → writeDescField f vs = "".
Proof.
  unfold emitted, writeDescField. cbn [snd]. destruct vs as [|v vs]; [done|].
  intros Hv%bool_decide_eq_false. by rewrite decide_True by (by apply dec_stable).
Qed.

Lemma desc_Bytes_unlines ws :
  Forall (λ w, emitted w = true → good_block w = true) ws →
  foldr (λ w b, writeDescField w.1 w.2 +:+ b) "" ws
  = unlines (concat (map block_lines (filter (λ w, emitted w = true) ws))).
Proof.
  induction 1 as [|[f vs] ws Hw Hf IH]; [done|]. cbn [foldr fst snd]. rewrite IH, filter_cons.
  destruct (decide (emitted (f, vs) = true)) as [He|He].
  - cbn [map concat]. rewrite unlines_app. rewrite writeDescField_emitted; [done..|].
    specialize (Hw He). unfold good_block in Hw. cbn [snd] in Hw.
    apply Forall_forall. intros v Hv. rewrite forallb_forall in Hw.
    by apply Hw, list_elem_of_In.
  - by rewrite writeDescField_skipped by (by apply not_true_iff_false).
Qed.

(** ** Lemmas: the parser on blocks *)

Definition set_block (d : DESC) (w : string * list string) : result parse_error DESC :=
  set_desc_field d w.1 w.2.

Lemma foldM_values d f vs buf :
  f ≠ "" → Forall (λ v, good_desc_value v = true) vs →
  foldM desc_step (mkDescState d f buf) vs = Ok (mkDescState d f (buf ++ vs)).
Proof.
  intros Hf Hvs. revert buf. induction Hvs as [|v vs Hv Hvs IH]; intros buf.
  - by rewrite app_nil_r.
  - apply good_desc_value_spec in Hv as (Hne & _ & Ht & Hp & _).
    cbn [foldM]. unfold desc_step at 1. rewrite Hp. cbn [currentField ds_desc buffer].
    rewrite decide_False, Ht, decide_False by done. rewrite IH.
    by rewrite <-(assoc_L (++)).
Qed.

Lemma foldM_block st w rest :
  good_field w.1 = true → good_block w = true → (currentField st = "" → buffer st = []) →
  foldM desc_step st (block_lines w ++ rest)
  = st ← flush st; foldM desc_step (mkDescState (ds_desc st) w.1 w.2) rest.
Proof.
  destruct w as [f vs]. unfold good_field, good_block, block_lines. cbn [fst snd].
  rewrite !andb_true_iff, !bool_decide_eq_true. intros [[[[Hf Hp] Hs] Ht] _] Hvs Hbuf.
  cbn [app foldM]. unfold desc_step at 1. rewrite Hp, Hs. cbn [andb].
  destruct (flush st) as [st'|e] eqn:Hfl; [|done]. cbn [mbind result_bind]. rewrite Ht.
  assert (buffer st' = []) as ->.
  { unfold flush in Hfl. case_decide; simplify_result; auto. }
  rewrite <-(assoc_L (++)), foldM_app, foldM_values; [|done|].
  - cbn [mbind result_bind app foldM]. unfold desc_step at 1.
    cbn [has_prefix has_suffix currentField andb]. by rewrite decide_False.
  - apply Forall_forall. intros v Hv. rewrite forallb_forall in Hvs.
    by apply Hvs, list_elem_of_In.
Qed.

Lemma flush_field d f vs :
  f ≠ "" → flush (mkDescState d f vs)
           = d' ← set_block d (f, vs); Ok (mkDescState d' f []).
Proof. intros Hf. unfold flush. cbn [currentField]. by rewrite decide_False. Qed.

Lemma parse_blocks_from ws d f vs :
  f ≠ "" → Forall (λ w, good_field w.1 = true) ws → Forall (λ w, good_block w = true) ws →
  (st ← foldM desc_step (mkDescState d f vs) (concat (map block_lines ws));
   st ← flush st; Ok (ds_desc st))
  = foldM set_block d ((f, vs) :: ws).
Proof.
  intros Hf Hfs. revert d f vs Hf. induction Hfs as [|w ws Hw Hfs IH]; intros d f vs Hf Hbs.
  - cbn [map concat foldM mbind result_bind]. rewrite flush_field by done.
    by destruct (set_block d (f, vs)).
  - inv Hbs as [|?? Hb Hbs']. cbn [map concat]. rewrite foldM_block by done.
    rewrite flush_field by done. cbn [foldM].
    destruct (set_block d (f, vs)) as [d'|e]; [|done]. cbn [mbind result_bind ds_desc].
    rewrite IH; [by destruct w| |done].
    unfold good_field in Hw. rewrite !andb_true_iff, !bool_decide_eq_true in Hw. tauto.
Qed.

(** The parser applies the assignments of the blocks in order. *)
Lemma parse_blocks ws :
  Forall (λ w, good_field w.1 = true) ws → Forall (λ w, good_block w = true) ws →
  (st ← foldM desc_step (mkDescState NewDESC "" []) (concat (map block_lines ws));
   st ← flush st; Ok (ds_desc st))
  = foldM set_block NewDESC ws.
Proof.
  intros Hfs Hbs. destruct ws as [|[f vs] ws]; [done|]. inv Hfs as [|?? Hf Hfs'].
  inv Hbs as [|?? Hb Hbs']. cbn [map concat]. rewrite foldM_block by done.
  cbn [flush currentField mbind result_bind ds_desc fst snd].
  apply parse_blocks_from; [|done..].
  unfold good_field in Hf. rewrite !andb_true_iff, !bool_decide_eq_true in Hf. tauto.
Qed.

Lemma block_lines_good ws :
  Forall (λ w, good_field w.1 = true) ws → Forall (λ w, good_block w = true) ws →
  Forall (λ l, good_line l = true) (concat (map block_lines ws)).
Proof.
  intros Hfs. induction Hfs as [|[f vs] ws Hf Hfs IH]; intros Hbs; [by constructor|].
  inv Hbs as [|?? Hb Hbs']. cbn [map concat]. apply Forall_app; split; [|by apply IH].
  unfold block_lines. cbn [fst snd]. constructor.
  - unfold good_field in Hf. rewrite !andb_true_iff in Hf. tauto.
  - apply Forall_app; split; [|by repeat constructor].
    apply Forall_forall. intros v Hv. unfold good_block in Hb. cbn [snd] in Hb.
    rewrite forallb_forall in Hb. apply list_elem_of_In, Hb in Hv.
    apply good_desc_value_spec in Hv. tauto.
Qed.

(** ** What a desc entry carries *)

(** The entry as it is after a write and a read: the fields that only a local
    database has are back at their defaults, and a build date that is not
    positive is the zero time. *)
Definition written_part (d : DESC) : DESC :=
  d <| InstallDate := zero_time |> <| Size := 0%Z |> <| Reason := 0%Z |>
    <| Validation := "" |> <| InstalledDB := "" |> <| MD5SUM := "" |>
    <| XData := [] |> <| ExtraFields := ∅ |>
    <| BuildDate ::= λ t, if (0 <? t)%Z then t else zero_time |>.

Definition set_emitted (d : DESC) (w : string * list string) : result parse_error DESC :=
  if emitted w then set_block d w else Ok d.

Lemma foldM_emitted d ws :
  foldM set_block d (filter (λ w, emitted w = true) ws) = foldM set_emitted d ws.
Proof.
  revert d. induction ws as [|w ws IH]; intros d; [done|]. rewrite filter_cons. cbn [foldM].
  unfold set_emitted at 1. destruct (emitted w) eqn:E.
  - rewrite decide_True by done. cbn [foldM]. by destruct (set_block d w).
  - by rewrite decide_False.
Qed.

Lemma emitted_step f vs d d' :
  set_block d (f, vs) = Ok d' → (emitted (f, vs) = false → d' = d) →
  set_emitted d (f, vs) = Ok d'.
Proof.
  unfold set_emitted. destruct (emitted (f, vs)); [done|]. intros _ H. by rewrite H.
Qed.

Lemma emitted_scalar f v : emitted (f, [v]) = false → v = "".
Proof. cbn. intros H%bool_decide_eq_false. by apply dec_stable. Qed.

Lemma emitted_list f vs : negb (bool_decide (head vs = Some "")) = true →
  emitted (f, vs) = false → vs = [].
Proof.
  destruct vs as [|v vs]; [done|]. cbn. rewrite negb_true_iff, !bool_decide_eq_false.
  intros H1 H2. destruct H2. congruence.
Qed.

Lemma parseInt_format z : int64 z = true → parseInt [format_int z] = Ok z.
Proof.
  intros Hz. unfold parseInt. rewrite trim_space_id by apply trimmed_format_int.
  by rewrite parse_format_int.
Qed.

Lemma set_csize d z : int64 z = true →
  set_emitted d ("CSIZE", [format_int z]) = Ok (d <| CSize := z |>).
Proof.
  intros Hz. apply emitted_step; [|by intros ?%emitted_scalar%format_int_not_nil].
  change (set_block d ("CSIZE", [format_int z])) with
    (s ← map_err (ErrField "CSIZE") (parseInt [format_int z]); Ok (d <| CSize := s |>)).
  by rewrite parseInt_format.
Qed.

Lemma set_isize d z : int64 z = true →
  set_emitted d ("ISIZE", [format_int z]) = Ok (d <| ISize := z |>).
Proof.
  intros Hz. apply emitted_step; [|by intros ?%emitted_scalar%format_int_not_nil].
  change (set_block d ("ISIZE", [format_int z])) with
    (s ← map_err (ErrField "ISIZE") (parseInt [format_int z]); Ok (d <| ISize := s |>)).
  by rewrite parseInt_format.
Qed.

Lemma set_builddate d t : int64 t = true → BuildDate d = zero_time →
  set_emitted d ("BUILDDATE", [buildDateValue t])
  = Ok (d <| BuildDate := if (0 <? t)%Z then t else zero_time |>).
Proof.
  intros Hz Hd. unfold buildDateValue. destruct (0 <? t)%Z.
  - apply emitted_step; [|by intros ?%emitted_scalar%format_int_not_nil].
    change (set_block d ("BUILDDATE", [format_int t])) with
      (s ← map_err (ErrField "BUILDDATE") (parseInt [format_int t]); Ok (d <| BuildDate := s |>)).
    by rewrite parseInt_format.
  - unfold set_emitted. cbn. f_equal. destruct d; cbn in *. by subst.
Qed.

Ltac cbn_desc :=
  cbv beta delta [set_field];
  cbn [FileName Name Version Base Description URL Arch BuildDate InstallDate
       Packager Size ISize CSize Reason Groups License Validation InstalledDB Replaces
       Depends OptDepends MakeDepends CheckDepends SHA256SUM MD5SUM PGPSIG Conflicts
       Provides XData ExtraFields].

Ltac field_step :=
  erewrite emitted_step;
    [|reflexivity|first [by intros ->%emitted_scalar | by intros ->%emitted_list]];
  cbn_desc.

Lemma foldM_desc_writes d :
  int64 (CSize d) = true → int64 (ISize d) = true → int64 (BuildDate d) = true →
  forallb (λ l, negb (bool_decide (head l = Some "")))
    [Groups d; License d; Replaces d; Conflicts d; Provides d; Depends d;
     OptDepends d; MakeDepends d; CheckDepends d] = true →
  foldM set_emitted NewDESC (desc_writes d) = Ok (written_part d).
Proof.
  intros Hc Hi Hb Hl. cbn [forallb] in Hl. rewrite !andb_true_iff in Hl. destruct_and! Hl.
  unfold NewDESC, desc_writes. cbn [foldM].
  do 6 field_step.
  rewrite set_csize by done. cbn_desc. rewrite set_isize by done. cbn_desc.
  do 5 field_step. rewrite set_builddate by done. cbn_desc.
  do 8 field_step. by destruct d.
Qed.

Lemma parse_written d : wf_desc d = true → ParseDesc (desc_Bytes d) = Ok (written_part d).
Proof.
  unfold wf_desc. rewrite !andb_true_iff. intros [[[[Hc Hi] Hb] Hw] Hl].
  assert (Forall (λ w, good_field w.1 = true) (desc_blocks d)) as Hf.
  { apply Forall_filter_l, desc_writes_fields. }
  assert (Forall (λ w, good_block w = true) (desc_blocks d)) as Hg.
  { apply Forall_forall. intros w [He Hin]%list_elem_of_filter.
    rewrite forallb_forall in Hw. apply list_elem_of_In, Hw in Hin.
    by rewrite He in Hin. }
  unfold ParseDesc, desc_Bytes. rewrite desc_Bytes_unlines.
  - rewrite scan_unlines by by apply block_lines_good.
    etransitivity; [by apply parse_blocks|]. unfold desc_blocks.
    rewrite foldM_emitted. by apply foldM_desc_writes.
  - apply Forall_forall. intros w Hin He. rewrite forallb_forall in Hw.
    apply list_elem_of_In, Hw in Hin. by rewrite He in Hin.
Qed.

(** Parsing the entry that [Bytes] writes gives back every field a
    repository database carries, for every well-formed [DESC]; the fields of a
    local database come back at their defaults, and so does a build date that
    is not positive. *)
Theorem ParseDesc_Bytes (d : DESC) :
  wf_desc d = true → ParseDesc (desc_Bytes d) = Ok (written_part d).
Proof. apply parse_written. Qed.

Definition example_desc : DESC :=
  DescFromPkginfo example_pkginfo "foo-1:1.0-1-any.pkg.tar.zst" 1234 "00ff".

Lemma ParseDesc_Bytes_witness : ParseDesc (desc_Bytes example_desc) = Ok (written_part example_desc).
Proof. apply ParseDesc_Bytes. vm_compute. reflexivity. Defined.

(** The package metadata as a repository serves it: no backup list, xdata and package
    type, and the zero time for a build date that is not positive. *)
Definition published_info (info : PKGINFO.PKGINFO) : PKGINFO.PKGINFO :=
  info <| PKGINFO.Backup := [] |> <| PKGINFO.XData := ∅ |> <| PKGINFO.PkgType := "" |>
       <| PKGINFO.BuildDate ::= λ t, if (0 <? t)%Z then t else zero_time |>.

Lemma ToPKGINFO_written quote {R : RangeOrder} info filename csize sha256sum sig :
  ToPKGINFO quote (written_part ((DescFromPkginfo info filename csize sha256sum) <| PGPSIG := sig |>))
  = published_info info.
Proof.
  unfold ToPKGINFO, published_info.
  match goal with |- context [ExtraFields ?d] => change (ExtraFields d) with (∅ : gmap string (list string)) end.
  rewrite range_map_empty. by destruct info.
Qed.

(** From package metadata to a repository entry and back: the entry built
    from a .PKGINFO, written, parsed and converted carries the same metadata,
    except that the backup list, the xdata and the package type are not part of
    an entry, and that a build date that is not positive comes back as the zero
    time. *)
Theorem desc_entry_roundtrip quote {R : RangeOrder} (info : PKGINFO.PKGINFO)
    (filename sha256sum sig : string) (csize : Z) :
  let d := (DescFromPkginfo info filename csize sha256sum) <| PGPSIG := sig |> in
  wf_desc d = true →
  ∃ d', ParseDesc (desc_Bytes d) = Ok d' ∧
    ToPKGINFO quote d' = published_info info ∧
    FileName d' = filename ∧ CSize d' = csize ∧ SHA256SUM d' = sha256sum ∧ PGPSIG d' = sig.
Proof.
  intros d Hd. exists (written_part d). split; [by apply parse_written|].
  split; [apply ToPKGINFO_written|done].
Qed.

Lemma desc_entry_roundtrip_witness :
  ∃ d', ParseDesc (desc_Bytes (example_desc <| PGPSIG := "c2ln" |>)) = Ok d' ∧
    @ToPKGINFO id elements_order d' = published_info example_pkginfo ∧
    FileName d' = "foo-1:1.0-1-any.pkg.tar.zst" ∧ CSize d' = 1234%Z ∧
    SHA256SUM d' = "00ff" ∧ PGPSIG d' = "c2ln".
Proof.
  apply (desc_entry_roundtrip id (R := elements_order) example_pkginfo
           "foo-1:1.0-1-any.pkg.tar.zst" "00ff" "c2ln" 1234).
  vm_compute. reflexivity.
Defined.

(** The writer does not escape a value that looks like a field header: here a
    license list of a well-formed .PKGINFO renames the package in the parsed
    entry. *)
Example desc_header_injection :
  ∃ info, ParsePkginfo (unlines ["pkgname = foo"; "pkgver = 1-1"; "license = %NAME%";
                                 "license = evil"]) = Ok info ∧
    PKGINFO.PkgName info = "foo" ∧
    ∃ d, ParseDesc (desc_Bytes (DescFromPkginfo info "foo-1-1-any.pkg.tar" 1 "00")) = Ok d ∧
      Name d = "evil".
Proof. eexists. split; [vm_compute; reflexivity|]. split; [done|]. eexists. by split; [vm_compute|]. Qed.
