(* ===== verification/Srcinfo.v ===== *)
(** * .SRCINFO (pkg/raiou/srcinfo.go, srcinfo_parse.go, srcinfo_split.go)

    The package model the program builds from go-srcinfo's result, the recovery
    of the cksums field, and the resolution of the pkgname sections of a split
    package against the pkgbase-level fields.  go-srcinfo itself is a parameter. *)

From S2P Require Import Prelude GoStrings.

(** A Go slice of strings: [None] is [nil], which the merge functions tell apart
    from an empty slice. *)
Definition slice : Type := option (list string).
Definition elems (s : slice) : list string := default [] s.

(** A Go map from architectures to slices; [None] is the nil map. *)
Definition ArchStrings : Type := option (gmap string (list string)).

(** [a[arch]]: a missing key, and every key of a nil map, reads as nil. *)
Definition arch_get (a : ArchStrings) (arch : string) : list string :=
  default [] (m ← a; m !! arch).

Definition appendNonEmpty (dst : slice) (values : list string) : slice :=
  foldl (λ dst v, if decide (v = "") then dst else Some (elems dst ++ [v])) dst values.

Definition ForArch (a : ArchStrings) (arch : string) : list string :=
  let out := appendNonEmpty None (arch_get a "") in
  elems (if decide (arch = "") then out else appendNonEmpty out (arch_get a arch)).

(** ** The package model *)

(** The bit set [scalarOverrides]. *)
Definition scalarOverrides : Type := Z.
Definition overridePkgDesc : scalarOverrides := 1%Z.
Definition overrideURL : scalarOverrides := 2%Z.
Definition overrideInstall : scalarOverrides := 4%Z.
Definition overrideChangelog : scalarOverrides := 8%Z.

Module SrcinfoPackage.
Record SrcinfoPackage := mk {
  PkgName : string;
  PkgDesc : string;
  PkgArch : slice;
  URL : string;
  License : slice;
  Groups : slice;
  Depends : ArchStrings;
  OptDepends : ArchStrings;
  Provides : ArchStrings;
  Conflicts : ArchStrings;
  Replaces : ArchStrings;
  Backup : slice;
  Options : slice;
  Install : string;
  Changelog : string;
  overrides : scalarOverrides;
}.

#[global] Instance SrcinfoPackage_eta : Eta SrcinfoPackage := λ p,
  mk (PkgName p) (PkgDesc p) (PkgArch p) (URL p) (License p) (Groups p) (Depends p)
     (OptDepends p) (Provides p) (Conflicts p) (Replaces p) (Backup p) (Options p)
     (Install p) (Changelog p) (overrides p).
End SrcinfoPackage.
Import SrcinfoPackage.

Record SrcinfoBase := mkBase {
  PkgBase : string;
  PkgVer : string;
  PkgRel : string;
  PkgEpoch : string;
  Source : ArchStrings;
  ValidPGPKeys : slice;
  NoExtract : slice;
  MD5Sums : ArchStrings;
  SHA1Sums : ArchStrings;
  SHA224Sums : ArchStrings;
  SHA256Sums : ArchStrings;
  SHA384Sums : ArchStrings;
  SHA512Sums : ArchStrings;
  B2Sums : ArchStrings;
  CKSums : ArchStrings;
  MakeDepends : ArchStrings;
  CheckDepends : ArchStrings;
}.

#[global] Instance SrcinfoBase_eta : Eta SrcinfoBase := λ b,
  mkBase (PkgBase b) (PkgVer b) (PkgRel b) (PkgEpoch b) (Source b) (ValidPGPKeys b)
    (NoExtract b) (MD5Sums b) (SHA1Sums b) (SHA224Sums b) (SHA256Sums b) (SHA384Sums b)
    (SHA512Sums b) (B2Sums b) (CKSums b) (MakeDepends b) (CheckDepends b).

(** The embedded structs are fields. *)
Record SRCINFO := mkSRCINFO {
  srcinfo_base : SrcinfoBase;
  srcinfo_pkg : SrcinfoPackage;
  Packages : list SrcinfoPackage;
}.

Definition Version (b : SrcinfoBase) : string :=
  let v := PkgVer b in
  let v := if decide (PkgRel b = "") then v else v +:+ "-" +:+ PkgRel b in
  if decide (PkgEpoch b = "") then v else PkgEpoch b +:+ ":" +:+ v.

(** ** Conversion from go-srcinfo *)

(** The fields of go-srcinfo's structs that the conversion reads. *)
Record go_package := mkGoPackage {
  go_Pkgname : string; go_Pkgdesc : string; go_Arch : slice; go_URL : string;
  go_License : slice; go_Groups : slice;
  go_Depends : option (list (string * string)); go_OptDepends : option (list (string * string));
  go_Provides : option (list (string * string)); go_Conflicts : option (list (string * string));
  go_Replaces : option (list (string * string));
  go_Backup : slice; go_Options : slice; go_Install : string; go_Changelog : string;
}.

Record go_base := mkGoBase {
  go_Pkgbase : string; go_Pkgver : string; go_Pkgrel : string; go_Epoch : string;
  go_ValidPGPKeys : slice; go_NoExtract : slice;
  go_Source : option (list (string * string)); go_MD5Sums : option (list (string * string));
  go_SHA1Sums : option (list (string * string)); go_SHA224Sums : option (list (string * string));
  go_SHA256Sums : option (list (string * string)); go_SHA384Sums : option (list (string * string));
  go_SHA512Sums : option (list (string * string)); go_B2Sums : option (list (string * string));
  go_MakeDepends : option (list (string * string)); go_CheckDepends : option (list (string * string));
}.

Record go_srcinfo := mkGoSrcinfo {
  go_PackageBase : go_base; go_Package : go_package; go_Packages : list go_package;
}.

Section convert.
(** go-srcinfo's marker of an explicitly empty override, and its parser. *)
Context (EmptyOverride : string) (go_error : Type) (go_Parse : string → result go_error go_srcinfo).

Definition normalizeGoValue (value : string) : string :=
  if decide (value = EmptyOverride) then "" else value.

Definition scalarFromGo (value : string) (field overrides : scalarOverrides)
    : string * scalarOverrides :=
  if decide (value = EmptyOverride) then ("", Z.lor overrides field) else (value, overrides).

Definition stringsFromGo (values : slice) : slice := map normalizeGoValue <$> values.

(** [result[value.Arch] = append(result[value.Arch], ...)]. *)
Definition arch_append (m : gmap string (list string)) (arch value : string) :=
  <[arch := default [] (m !! arch) ++ [value]]> m.

Definition archStringsFromGo (archStrings : option (list (string * string))) : ArchStrings :=
  foldl (λ m av, arch_append m av.1 (normalizeGoValue av.2)) ∅ <$> archStrings.

Definition srcinfoPackageFromGo (pkg : go_package) : SrcinfoPackage :=
  let '(desc, o) := scalarFromGo (go_Pkgdesc pkg) overridePkgDesc 0%Z in
  let '(url, o) := scalarFromGo (go_URL pkg) overrideURL o in
  let '(install, o) := scalarFromGo (go_Install pkg) overrideInstall o in
  let '(changelog, o) := scalarFromGo (go_Changelog pkg) overrideChangelog o in
  mk (go_Pkgname pkg) desc (stringsFromGo (go_Arch pkg)) url (stringsFromGo (go_License pkg))
     (stringsFromGo (go_Groups pkg)) (archStringsFromGo (go_Depends pkg))
     (archStringsFromGo (go_OptDepends pkg)) (archStringsFromGo (go_Provides pkg))
     (archStringsFromGo (go_Conflicts pkg)) (archStringsFromGo (go_Replaces pkg))
     (stringsFromGo (go_Backup pkg)) (stringsFromGo (go_Options pkg)) install changelog o.

Definition srcinfoBaseFromGo (b : go_base) : SrcinfoBase :=
  mkBase (go_Pkgbase b) (normalizeGoValue (go_Pkgver b)) (normalizeGoValue (go_Pkgrel b))
    (normalizeGoValue (go_Epoch b)) (archStringsFromGo (go_Source b))
    (stringsFromGo (go_ValidPGPKeys b)) (stringsFromGo (go_NoExtract b))
    (archStringsFromGo (go_MD5Sums b)) (archStringsFromGo (go_SHA1Sums b))
    (archStringsFromGo (go_SHA224Sums b)) (archStringsFromGo (go_SHA256Sums b))
    (archStringsFromGo (go_SHA384Sums b)) (archStringsFromGo (go_SHA512Sums b))
    (archStringsFromGo (go_B2Sums b)) None
    (archStringsFromGo (go_MakeDepends b)) (archStringsFromGo (go_CheckDepends b)).

Definition srcinfoFromGo (s : go_srcinfo) : SRCINFO :=
  mkSRCINFO (srcinfoBaseFromGo (go_PackageBase s)) (srcinfoPackageFromGo (go_Package s))
    (map srcinfoPackageFromGo (go_Packages s)).

(** *** The cksums field *)

(** The variables of the line loop: [out] and [inBase]. *)
Definition arch_field_step (field : string) (st : ArchStrings * bool) (l : string)
    : ArchStrings * bool :=
  let '(out, inBase) := st in
  let line := trim_space l in
  if decide (line = "") then st
  else if has_prefix line "#" then st
  else match cut "=" line with
       | None => st
       | Some (key, value) =>
           let key := trim_space key in
           let value := trim_space value in
           if decide (key = "pkgbase") then (out, true)
           else if decide (key = "pkgname") then (out, false)
           else if negb inBase then st
           else if decide (key = field) then (Some (arch_append (default ∅ out) "" value), inBase)
           else match strip_prefix (field +:+ "_") key with
                | Some arch => (Some (arch_append (default ∅ out) arch value), inBase)
                | None => st
                end
       end.

Definition srcinfoArchField (data field : string) : ArchStrings :=
  (foldl (arch_field_step field) (None, false) (split_char newline data)).1.

Definition ParseSrcinfoString (data : string) : result go_error SRCINFO :=
  parsed ← go_Parse data;
  let out := srcinfoFromGo parsed in
  mret (mkSRCINFO ((srcinfo_base out) <| CKSums := srcinfoArchField data "cksums" |>)
          (srcinfo_pkg out) (Packages out)).
End convert.

(** ** Split packages *)

(** The value of [*dst] after [overrideScalar(dst, value, explicitlyEmpty)]. *)
Definition overrideScalar (dst value : string) (explicitlyEmpty : bool) : string :=
  if decide (value ≠ "" ∨ explicitlyEmpty = true) then value else dst.

Definition mergeStringOverride (global override : slice) : slice :=
  match override with
  | None => global
  | Some values => appendNonEmpty None values
  end.

Definition clean_group (group : list string) : option (list string) :=
  match appendNonEmpty None group with Some (v :: vs) => Some (v :: vs) | _ => None end.

Section split.
Context {R : RangeOrder}.

Definition cleanArchStrings (values : ArchStrings) : ArchStrings :=
  match values with
  | None => None
  | Some m =>
      let out := range_insert (λ _ group, clean_group group) ∅ m in
      if decide (out = ∅) then None else Some out
  end.

Definition mergeArchOverride (global override : ArchStrings) : ArchStrings :=
  match override with
  | None => global
  | Some o =>
      let out := range_insert
        (λ arch values, match o !! arch with Some _ => None | None => clean_group values end)
        ∅ (default ∅ global) in
      let out := range_insert (λ _ values, clean_group values) out o in
      if decide (out = ∅) then None else Some out
  end.

Definition cleanSrcinfoPackage (pkg : SrcinfoPackage) : SrcinfoPackage :=
  pkg <| PkgArch := appendNonEmpty None (elems (PkgArch pkg)) |>
      <| License := appendNonEmpty None (elems (License pkg)) |>
      <| Groups := appendNonEmpty None (elems (Groups pkg)) |>
      <| Backup := appendNonEmpty None (elems (Backup pkg)) |>
      <| Options := appendNonEmpty None (elems (Options pkg)) |>
      <| Depends := cleanArchStrings (Depends pkg) |>
      <| OptDepends := cleanArchStrings (OptDepends pkg) |>
      <| Provides := cleanArchStrings (Provides pkg) |>
      <| Conflicts := cleanArchStrings (Conflicts pkg) |>
      <| Replaces := cleanArchStrings (Replaces pkg) |>
      <| overrides := 0%Z |>.

Definition overridden (p : SrcinfoPackage) (field : scalarOverrides) : bool :=
  bool_decide (Z.land (overrides p) field ≠ 0%Z).

Definition mergeSrcinfoPackage (global override : SrcinfoPackage) : SrcinfoPackage :=
  let out := (cleanSrcinfoPackage global) <| PkgName := PkgName override |> in
  out <| PkgDesc ::= λ dst, overrideScalar dst (PkgDesc override) (overridden override overridePkgDesc) |>
      <| URL ::= λ dst, overrideScalar dst (URL override) (overridden override overrideURL) |>
      <| Install ::= λ dst, overrideScalar dst (Install override) (overridden override overrideInstall) |>
      <| Changelog ::= λ dst, overrideScalar dst (Changelog override) (overridden override overrideChangelog) |>
      <| PkgArch ::= λ g, mergeStringOverride g (PkgArch override) |>
      <| License ::= λ g, mergeStringOverride g (License override) |>
      <| Groups ::= λ g, mergeStringOverride g (Groups override) |>
      <| Backup ::= λ g, mergeStringOverride g (Backup override) |>
      <| Options ::= λ g, mergeStringOverride g (Options override) |>
      <| Depends ::= λ g, mergeArchOverride g (Depends override) |>
      <| OptDepends ::= λ g, mergeArchOverride g (OptDepends override) |>
      <| Provides ::= λ g, mergeArchOverride g (Provides override) |>
      <| Conflicts ::= λ g, mergeArchOverride g (Conflicts override) |>
      <| Replaces ::= λ g, mergeArchOverride g (Replaces override) |>
      <| overrides := 0%Z |>.

Definition SplitPackages (s : SRCINFO) : list SrcinfoPackage :=
  map (mergeSrcinfoPackage (srcinfo_pkg s)) (Packages s).

(** The error is the message's [name] and pkgbase. *)
Definition SplitPackage (s : SRCINFO) (name : string) : result (string * string) SrcinfoPackage :=
  match list_find (λ p, PkgName p = name) (Packages s) with
  | Some (_, p) => Ok (mergeSrcinfoPackage (srcinfo_pkg s) p)
  | None => Err (name, PkgBase (srcinfo_base s))
  end.
End split.

(** ** Lemmas *)

(** What [appendNonEmpty] keeps. *)
Definition nonempties (l : list string) : list string := filter (λ v, v ≠ "") l.

Lemma elems_appendNonEmpty dst vs : elems (appendNonEmpty dst vs) = elems dst ++ nonempties vs.
Proof.
  unfold appendNonEmpty, nonempties. revert dst.
  induction vs as [|v vs IH]; intros dst; simpl; [by rewrite app_nil_r|].
  rewrite IH, filter_cons. destruct (decide (v = "")) as [->|Hv].
  - by rewrite decide_False by tauto.
  - rewrite decide_True by done. simpl. by rewrite <-(assoc_L (++)).
Qed.

Lemma nonempties_idemp l : nonempties (nonempties l) = nonempties l.
Proof.
  unfold nonempties. rewrite list_filter_filter. apply list_filter_iff. tauto.
Qed.

Lemma ForArch_eq a arch :
  ForArch a arch = nonempties (arch_get a "")
                   ++ (if decide (arch = "") then [] else nonempties (arch_get a arch)).
Proof.
  unfold ForArch. case_decide; rewrite !elems_appendNonEmpty; simpl; [by rewrite app_nil_r|done].
Qed.

Lemma default_clean_group l : default [] (clean_group l) = nonempties l.
Proof.
  unfold clean_group. pose proof (elems_appendNonEmpty None l) as H. simpl in H.
  destruct (appendNonEmpty None l) as [[|]|]; simpl in *; by rewrite <-H.
Qed.

Section split_lemmas.
Context {R : RangeOrder}.

Lemma arch_get_clean v a : arch_get (cleanArchStrings v) a = nonempties (arch_get v a).
Proof.
  unfold cleanArchStrings, arch_get. destruct v as [m|]; [|done]. simpl.
  set (out := range_insert _ _ m).
  assert (default [] (out !! a) = nonempties (default [] (m !! a))) as H.
  { unfold out. rewrite lookup_range_insert, lookup_empty.
    destruct (m !! a) as [l|]; simpl; [|done]. rewrite <-default_clean_group.
    by destruct (clean_group l). }
  case_decide as E; simpl; [|done]. by rewrite <-H, E, lookup_empty.
Qed.

(** The slice an override section leaves for an architecture. *)
Definition arch_choice (global override : ArchStrings) (a : string) : list string :=
  match m ← override; m !! a with Some values => values | None => arch_get global a end.

Lemma arch_get_merge g o a :
  nonempties (arch_get (mergeArchOverride g o) a) = nonempties (arch_choice g o a).
Proof.
  unfold mergeArchOverride, arch_choice. destruct o as [o|]; [|done]. simpl.
  set (out := range_insert _ _ o).
  assert (default [] (out !! a) = nonempties (match o !! a with Some v => v | None => arch_get g a end)) as H.
  { unfold out. rewrite lookup_range_insert. destruct (o !! a) as [vs|] eqn:Eo; simpl.
    - rewrite <-default_clean_group. destruct (clean_group vs); [done|].
      rewrite lookup_range_insert, lookup_empty. by destruct (default ∅ g !! a); simpl; rewrite ?Eo.
    - rewrite lookup_range_insert, lookup_empty. unfold arch_get.
      destruct g as [m|]; simpl; [|by rewrite lookup_empty].
      destruct (m !! a) as [vs|]; simpl; [|done]. rewrite Eo, <-default_clean_group.
      by destruct (clean_group vs). }
  unfold arch_get at 1. case_decide as E; simpl.
  - rewrite E, lookup_empty in H. rewrite <-H. done.
  - rewrite H. apply nonempties_idemp.
Qed.
End split_lemmas.

(** ** The resolution of a split package *)

(** The fields with a value per architecture, the list fields, and the scalar
    fields with their override bit. *)
Definition arch_fields : list (SrcinfoPackage → ArchStrings) :=
  [Depends; OptDepends; Provides; Conflicts; Replaces].
Definition slice_fields : list (SrcinfoPackage → slice) :=
  [PkgArch; License; Groups; Backup; Options].
Definition scalar_fields : list ((SrcinfoPackage → string) * scalarOverrides) :=
  [(PkgDesc, overridePkgDesc); (URL, overrideURL); (Install, overrideInstall);
   (Changelog, overrideChangelog)].

(** A pkgname section is resolved against the pkgbase-level fields field by
    field: a scalar is the section's when it is set or explicitly emptied, a list
    is the section's when it is present, an architecture's list is the section's
    when the section gives that architecture, and no empty marker is left. *)
Theorem mergeSrcinfoPackage_spec {R : RangeOrder} (global override : SrcinfoPackage) :
  let out := mergeSrcinfoPackage global override in
  PkgName out = PkgName override ∧ overrides out = 0%Z ∧
  Forall (λ fb, fb.1 out = if decide (fb.1 override ≠ "" ∨ overridden override fb.2 = true)
                           then fb.1 override else fb.1 global) scalar_fields ∧
  Forall (λ f, elems (f out) = nonempties (elems (match f override with
                                                  | Some values => Some values
                                                  | None => f global end))) slice_fields ∧
  Forall (λ f, ∀ arch, ForArch (f out) arch
            = nonempties (arch_choice (f global) (f override) "")
              ++ if decide (arch = "") then []
                 else nonempties (arch_choice (f global) (f override) arch)) arch_fields.
Proof.
  intros out. split; [done|]. split; [done|]. split; [|split].
  - repeat constructor.
  - assert (∀ g o, elems (mergeStringOverride (appendNonEmpty None (elems g)) o)
                   = nonempties (elems (match o with Some v => Some v | None => g end))) as H.
    { intros g [o|]; simpl; by rewrite elems_appendNonEmpty. }
    unfold slice_fields. repeat (apply Forall_cons; split; [apply H|]). by apply Forall_nil.
  - assert (∀ g o a, nonempties (arch_get (mergeArchOverride (cleanArchStrings g) o) a)
                     = nonempties (arch_choice g o a)) as H.
    { intros g o a. rewrite arch_get_merge. unfold arch_choice.
      destruct (m ← o; m !! a); [done|]. by rewrite arch_get_clean, nonempties_idemp. }
    assert (∀ g o arch, ForArch (mergeArchOverride (cleanArchStrings g) o) arch
              = nonempties (arch_choice g o "")
                ++ if decide (arch = "") then [] else nonempties (arch_choice g o arch)) as HF.
    { intros g o arch. by rewrite ForArch_eq, !H. }
    unfold arch_fields.
    repeat (apply Forall_cons; split; [intros arch; apply HF|]). by apply Forall_nil.
Qed.

(** The override bits record which scalars carry go-srcinfo's marker. *)
Lemma overridden_from_go EmptyOverride pkg :
  let p := srcinfoPackageFromGo EmptyOverride pkg in
  overridden p overridePkgDesc = bool_decide (go_Pkgdesc pkg = EmptyOverride) ∧
  overridden p overrideURL = bool_decide (go_URL pkg = EmptyOverride) ∧
  overridden p overrideInstall = bool_decide (go_Install pkg = EmptyOverride) ∧
  overridden p overrideChangelog = bool_decide (go_Changelog pkg = EmptyOverride).
Proof.
  unfold srcinfoPackageFromGo, scalarFromGo.
  destruct (decide (go_Pkgdesc pkg = EmptyOverride)),
    (decide (go_URL pkg = EmptyOverride)), (decide (go_Install pkg = EmptyOverride)),
    (decide (go_Changelog pkg = EmptyOverride)); split_and!;
    first [rewrite bool_decide_eq_true_2 by done | rewrite bool_decide_eq_false_2 by done];
    reflexivity.
Qed.

Definition resolved_scalar (EmptyOverride global override : string) : string :=
  if decide (override = EmptyOverride) then "" else if decide (override = "") then
    (if decide (global = EmptyOverride) then "" else global) else override.

Ltac resolve_scalar f bit Hbit Hsection H :=
  match goal with out := mergeSrcinfoPackage ?g ?s |- _ =>
    change (f out) with (overrideScalar (f g) (f s) (overridden s bit));
    rewrite Hbit, Hsection; by apply H
  end.

(** From go-srcinfo's structs to the resolved section: the description, URL,
    install script and changelog of a split package are empty when the section
    empties them, the pkgbase's when the section does not mention them, and the
    section's otherwise; go-srcinfo's marker never shows. *)
Theorem split_scalars_from_go {R : RangeOrder} (EmptyOverride : string)
    (global section : go_package) :
  let conv := srcinfoPackageFromGo EmptyOverride in
  let out := mergeSrcinfoPackage (conv global) (conv section) in
  PkgDesc out = resolved_scalar EmptyOverride (go_Pkgdesc global) (go_Pkgdesc section) ∧
  URL out = resolved_scalar EmptyOverride (go_URL global) (go_URL section) ∧
  Install out = resolved_scalar EmptyOverride (go_Install global) (go_Install section) ∧
  Changelog out = resolved_scalar EmptyOverride (go_Changelog global) (go_Changelog section).
Proof.
  intros conv out. destruct (overridden_from_go EmptyOverride section : let p := conv section in _) as (H1 & H2 & H3 & H4).
  assert (∀ (g s v : string), v = (if decide (g = EmptyOverride) then "" else g) →
    overrideScalar v (if decide (s = EmptyOverride) then "" else s) (bool_decide (s = EmptyOverride))
    = resolved_scalar EmptyOverride g s) as H.
  { intros g s v ->. unfold overrideScalar, resolved_scalar.
    destruct (decide (s = EmptyOverride)) as [Hs|Hs].
    - rewrite bool_decide_eq_true_2 by done. rewrite decide_True by auto. done.
    - rewrite bool_decide_eq_false_2 by done. destruct (decide (s = "")) as [->|Hne].
      + by rewrite decide_False by naive_solver.
      + by rewrite decide_True by auto. }
  assert (∀ pkg, PkgDesc (conv pkg) = (if decide (go_Pkgdesc pkg = EmptyOverride) then "" else go_Pkgdesc pkg)
    ∧ URL (conv pkg) = (if decide (go_URL pkg = EmptyOverride) then "" else go_URL pkg)
    ∧ Install (conv pkg) = (if decide (go_Install pkg = EmptyOverride) then "" else go_Install pkg)
    ∧ Changelog (conv pkg) = (if decide (go_Changelog pkg = EmptyOverride) then "" else go_Changelog pkg)) as Hv.
  { intros pkg. unfold conv, srcinfoPackageFromGo, scalarFromGo. by repeat case_decide. }
  destruct (Hv global) as (G1 & G2 & G3 & G4). destruct (Hv section) as (S1 & S2 & S3 & S4).
  split_and!.
  - resolve_scalar PkgDesc overridePkgDesc H1 S1 H.
  - resolve_scalar URL overrideURL H2 S2 H.
  - resolve_scalar Install overrideInstall H3 S3 H.
  - resolve_scalar Changelog overrideChangelog H4 S4 H.
Qed.
