(* ===== verification/SourcePackage.v ===== *)
(** * Source packages (internal/pacman/pkg/meta.go, package.go)

    The queries on a package read from a .SRCINFO: its names, outputs, build
    dependencies and architectures. *)

From S2P Require Import Prelude GoStrings Srcinfo.

Record SourcePackage := mkSourcePackage {
  sp_dir : string;
  sp_info : SRCINFO;
}.

Definition supportsPackageArch (arches : slice) (arch : string) : bool :=
  match elems arches with
  | [] => true
  | l => bool_decide ("any" ∈ l) || bool_decide (arch ∈ l)
  end.

Section meta.
Context {R : RangeOrder}.
Implicit Types (p : SourcePackage) (arch : string).

Definition sp_Base p : string := PkgBase (srcinfo_base (sp_info p)).
Definition sp_Version p : string := Version (srcinfo_base (sp_info p)).
Definition sp_Pkgver p : string := PkgVer (srcinfo_base (sp_info p)).

Definition Sources p arch : list string := uniq (ForArch (Source (srcinfo_base (sp_info p))) arch).

Definition Names p : list string :=
  uniq (sp_Base p :: map SrcinfoPackage.PkgName (Packages (sp_info p))).

Definition OutputNames p arch : list string :=
  let info := sp_info p in
  let names := map SrcinfoPackage.PkgName
    (filter (λ o, supportsPackageArch (SrcinfoPackage.PkgArch o) arch = true) (SplitPackages info)) in
  let names :=
    if decide (names = [] ∧ Packages info = [] ∧ SrcinfoPackage.PkgName (srcinfo_pkg info) ≠ ""
               ∧ supportsPackageArch (SrcinfoPackage.PkgArch (srcinfo_pkg info)) arch = true)
    then [SrcinfoPackage.PkgName (srcinfo_pkg info)] else names in
  compact (sort_strings names).

(** The values of one architecture-dependent field over the outputs built for
    [arch], and over the pkgbase when there is no pkgname section. *)
Definition output_field (f : SrcinfoPackage.SrcinfoPackage → ArchStrings) p arch : list string :=
  let info := sp_info p in
  concat (map (λ o, ForArch (f o) arch)
    (filter (λ o, supportsPackageArch (SrcinfoPackage.PkgArch o) arch = true) (SplitPackages info)))
  ++ (if decide (Packages info = []
                 ∧ supportsPackageArch (SrcinfoPackage.PkgArch (srcinfo_pkg info)) arch = true)
      then ForArch (f (srcinfo_pkg info)) arch else []).

Definition BuildDepends p arch : list string :=
  let base := srcinfo_base (sp_info p) in
  let deps := ForArch (MakeDepends base) arch ++ ForArch (CheckDepends base) arch
              ++ output_field SrcinfoPackage.Depends p arch in
  compact (sort_strings deps).

Definition OutputProvides p arch : list string :=
  compact (sort_strings (output_field SrcinfoPackage.Provides p arch)).

Definition Arches p : list string :=
  uniq (elems (SrcinfoPackage.PkgArch (srcinfo_pkg (sp_info p)))
        ++ concat (map (λ o, elems (SrcinfoPackage.PkgArch o)) (Packages (sp_info p)))).

Definition sp_Depends p arch : list string :=
  uniq (ForArch (SrcinfoPackage.Depends (srcinfo_pkg (sp_info p))) arch
        ++ concat (map (λ o, ForArch (SrcinfoPackage.Depends o) arch) (Packages (sp_info p)))).

Definition sp_MakeDepends p arch : list string :=
  uniq (ForArch (MakeDepends (srcinfo_base (sp_info p))) arch).

Definition sp_CheckDepends p arch : list string :=
  uniq (ForArch (CheckDepends (srcinfo_base (sp_info p))) arch).

Definition sp_Provides p arch : list string :=
  uniq (ForArch (SrcinfoPackage.Provides (srcinfo_pkg (sp_info p))) arch
        ++ concat (map (λ o, ForArch (SrcinfoPackage.Provides o) arch) (Packages (sp_info p)))).

Definition SupportsArch p arch : bool :=
  let arches := Arches p in
  bool_decide (arches = [])
  || existsb (λ a, bool_decide (a = "any") || bool_decide (a = arch)) arches.

(** ** Lemmas *)

Lemma compact_sort_spec l :
  StronglySorted String.le (compact (sort_strings l)) ∧ NoDup (compact (sort_strings l))
  ∧ ∀ x, x ∈ compact (sort_strings l) ↔ x ∈ l.
Proof.
  destruct (compact_sorted (sort_strings l) (sort_strings_sorted l)) as [Hs Hn].
  split_and!; [done..|]. intros x. by rewrite elem_of_compact, elem_of_sort_strings.
Qed.

Lemma elem_of_output_field f p arch x :
  x ∈ output_field f p arch ↔
  (∃ o, o ∈ SplitPackages (sp_info p) ∧ supportsPackageArch (SrcinfoPackage.PkgArch o) arch = true
        ∧ x ∈ ForArch (f o) arch)
  ∨ (Packages (sp_info p) = [] ∧
     supportsPackageArch (SrcinfoPackage.PkgArch (srcinfo_pkg (sp_info p))) arch = true ∧
     x ∈ ForArch (f (srcinfo_pkg (sp_info p))) arch).
Proof.
  unfold output_field. rewrite elem_of_app. f_equiv.
  - rewrite list_elem_of_In, in_concat. split.
    + intros (l & Hl & Hx). apply list_elem_of_In in Hl, Hx.
      apply list_elem_of_fmap in Hl as (o & -> & [Ho Hin]%list_elem_of_filter). eauto.
    + intros (o & Hin & Ho & Hx). exists (ForArch (f o) arch). split.
      * apply list_elem_of_In, list_elem_of_fmap. exists o. split; [done|].
        by apply list_elem_of_filter.
      * by apply list_elem_of_In.
  - case_decide; set_solver.
Qed.

(** The build dependencies for an architecture are sorted, without
    repetition, and are exactly the make and check dependencies of the pkgbase
    and the runtime dependencies of the outputs built for that architecture,
    after the resolution of the pkgname sections. *)
Theorem BuildDepends_spec p arch :
  let base := srcinfo_base (sp_info p) in
  StronglySorted String.le (BuildDepends p arch) ∧ NoDup (BuildDepends p arch) ∧
  ∀ x, x ∈ BuildDepends p arch ↔
    x ∈ ForArch (MakeDepends base) arch ∨ x ∈ ForArch (CheckDepends base) arch ∨
    (∃ o, o ∈ SplitPackages (sp_info p) ∧
      supportsPackageArch (SrcinfoPackage.PkgArch o) arch = true ∧
      x ∈ ForArch (SrcinfoPackage.Depends o) arch) ∨
    (Packages (sp_info p) = [] ∧
      supportsPackageArch (SrcinfoPackage.PkgArch (srcinfo_pkg (sp_info p))) arch = true ∧
      x ∈ ForArch (SrcinfoPackage.Depends (srcinfo_pkg (sp_info p))) arch).
Proof.
  intros base. unfold BuildDepends. cbv zeta. fold base.
  destruct (compact_sort_spec (ForArch (MakeDepends base) arch ++ ForArch (CheckDepends base) arch
    ++ output_field SrcinfoPackage.Depends p arch)) as (Hs & Hn & Hx).
  split_and!; [done..|]. intros x.
  by rewrite Hx, !elem_of_app, elem_of_output_field.
Qed.
End meta.
