(* ===== verification/Artifact.v ===== *)
(** * Package filenames (internal/pacman/pkg/artifact.go, artifact_coordinates.go)

    Which names are package archives or detached signatures, and the split of a
    published filename into name, version, release and architecture. *)

From S2P Require Import Prelude GoStrings.

Inductive Compression :=
| CompressionNone | CompressionZstd | CompressionXZ | CompressionGzip | CompressionBzip2
| CompressionLRZip | CompressionLZO | CompressionLZ4 | CompressionLzip | CompressionZ.

#[export] Instance Compression_eq_dec : EqDecision Compression.
Proof. solve_decision. Defined.

Record archiveFormat := mkFormat { suffix : string; compression : Compression }.

Definition archiveFormats : list archiveFormat :=
  [mkFormat ".pkg.tar.zst" CompressionZstd; mkFormat ".pkg.tar.bz2" CompressionBzip2;
   mkFormat ".pkg.tar.lrz" CompressionLRZip; mkFormat ".pkg.tar.lzo" CompressionLZO;
   mkFormat ".pkg.tar.lz4" CompressionLZ4; mkFormat ".pkg.tar.xz" CompressionXZ;
   mkFormat ".pkg.tar.gz" CompressionGzip; mkFormat ".pkg.tar.lz" CompressionLzip;
   mkFormat ".pkg.tar.Z" CompressionZ; mkFormat ".pkg.tar" CompressionNone].

Record Artifact := mkArtifact {
  filename : string;
  archiveFilename : string;
  stem : string;
  a_suffix : string;
  a_compression : Compression;
  signature : bool;
}.

Inductive artifact_error :=
| ErrNotBaseName (name : string)
| ErrUnsupportedSuffix (name : string)
| ErrNoFields (name : string)
| ErrInvalidCoordinates (name : string).

(** The loop over the formats. *)
Definition match_format (archiveName : string) : option archiveFormat :=
  snd <$> list_find (λ f, String.length (suffix f) < String.length archiveName
                          ∧ has_suffix archiveName (suffix f) = true) archiveFormats.

Definition ParseArtifact (name : string) : result artifact_error Artifact :=
  if decide (name = "" ∨ path_base name ≠ name ∨ occurs "\" name = true)
  then Err (ErrNotBaseName name)
  else
    let signature := has_suffix name ".sig" in
    let archiveName := if signature then trim_suffix name ".sig" else name in
    match match_format archiveName with
    | Some f =>
        Ok (mkArtifact name archiveName (trim_suffix archiveName (suffix f)) (suffix f)
              (compression f) signature)
    | None => Err (ErrUnsupportedSuffix name)
    end.

Definition SupportedArchiveSuffixes : list string := map suffix archiveFormats.

Definition IsArchive (name : string) : bool :=
  match ParseArtifact name with Ok a => negb (signature a) | Err _ => false end.

Definition IsArtifact (name : string) : bool := is_ok (ParseArtifact name).

Definition SignatureFilename (a : Artifact) : string := archiveFilename a +:+ ".sig".

(** ** Coordinates *)
Record ArtifactCoordinates := mkCoordinates {
  c_Name : string;
  c_Version : string;
  c_Release : string;
  c_Arch : string;
}.

Definition FullVersion (c : ArtifactCoordinates) : string := c_Version c +:+ "-" +:+ c_Release c.

Definition coordinates_IsAny (c : ArtifactCoordinates) : bool := bool_decide (c_Arch c = "any").

(** [strings.ReplaceAll(version, ":", "_")]. *)
Definition normalize_epoch (version : string) : string :=
  map_bytes (λ c, if decide (c = ":"%char) then "_"%char else c) version.

Definition MatchesMetadata (c : ArtifactCoordinates) (name version arch : string) : bool :=
  if decide (c_Name c ≠ name ∨ c_Arch c ≠ arch) then false
  else bool_decide (FullVersion c = version)
       || bool_decide (FullVersion c = normalize_epoch version).

Definition alphanumeric (c : ascii) : bool :=
  ((97 <=? byte c)%N && (byte c <=? 122)%N)
  || ((65 <=? byte c)%N && (byte c <=? 90)%N)
  || ((48 <=? byte c)%N && (byte c <=? 57)%N).

Definition validArch (arch : string) : bool :=
  bool_decide (arch ≠ "") && all_bytes (λ c, alphanumeric c || bool_decide (c = "_"%char)) arch.

Definition validPackageName (name : string) : bool :=
  match name with
  | EmptyString => false
  | String c _ =>
      negb (bool_decide (c = "."%char) || bool_decide (c = "-"%char))
      && all_bytes (λ c, alphanumeric c || occurs c "@._+-") name
  end.

Definition validVersionField (field : string) : bool :=
  bool_decide (field ≠ "")
  && all_bytes (λ c, negb ((byte c <=? 32)%N || (byte c =? 127)%N)) field.

(** The last three of at least four parts: [parts[last-2]], [parts[last-1]] and
    [parts[last]] with the parts before them. *)
Definition split_last3 (parts : list string) : option (list string * string * string * string) :=
  match reverse parts with
  | a :: r :: v :: n :: ns => Some (reverse (n :: ns), v, r, a)
  | _ => None
  end.

(** [a.Coordinates()]: the fields are checked in the code's order. *)
Definition Coordinates (a : Artifact) : result artifact_error ArtifactCoordinates :=
  match split_last3 (split_char "-" (stem a)) with
  | None => Err (ErrNoFields (filename a))
  | Some (names, version, release, arch) =>
      let c := mkCoordinates (join "-" names) version release arch in
      if validPackageName (c_Name c) && validVersionField (c_Version c)
         && validVersionField (c_Release c) && validArch (c_Arch c)
      then Ok c else Err (ErrInvalidCoordinates (filename a))
  end.

Definition IsAny (name : string) : bool :=
  match ParseArtifact name with
  | Ok a => match Coordinates a with Ok c => coordinates_IsAny c | Err _ => false end
  | Err _ => false
  end.

Section cache.
(** [filepath.Glob] of a directory and a name prefix: the file system. *)
Context (glob : string → string → list string).

Definition cached_match (name version arch match_ : string) : bool :=
  match ParseArtifact (path_base match_) with
  | Ok a =>
      if signature a then false
      else match Coordinates a with
           | Ok c => MatchesMetadata c name version (if decide (arch = "") then c_Arch c else arch)
           | Err _ => false
           end
  | Err _ => false
  end.

Definition FindCached (dirs : list string) (name version arch : string) : option string :=
  snd <$> list_find (λ m, cached_match name version arch m = true)
            (concat (map (λ dir, glob dir (name +:+ "-")) dirs)).
End cache.

(** ** Lemmas *)

(** No suffix of the table is a suffix of another one. *)
Lemma formats_distinct :
  Forall (λ f, Forall (λ g, has_suffix (suffix f) (suffix g) = true → f = g) archiveFormats)
    archiveFormats.
Proof.
  repeat (apply Forall_cons; split; [repeat (apply Forall_cons; split; [first [reflexivity|intros H; vm_compute in H; discriminate H]|]); by apply Forall_nil|]).
  by apply Forall_nil.
Qed.

Lemma format_unique f g s t :
  f ∈ archiveFormats → g ∈ archiveFormats → s +:+ suffix f = t +:+ suffix g → f = g ∧ s = t.
Proof.
  intros Hf Hg H. pose proof formats_distinct as Hd. rewrite Forall_forall in Hd.
  assert (f = g) as ->.
  { destruct (app_suffix_cases _ _ _ _ H) as [E|E].
    - specialize (Hd f Hf). rewrite Forall_forall in Hd. by apply Hd.
    - specialize (Hd g Hg). rewrite Forall_forall in Hd. symmetry. by apply Hd. }
  split; [done|]. by apply str_app_inj_r in H.
Qed.

Lemma match_format_Some n f :
  match_format n = Some f ↔ f ∈ archiveFormats ∧ ∃ s, s ≠ "" ∧ n = s +:+ suffix f.
Proof.
  unfold match_format. split.
  - intros ([i g] & (Hi & [Hlen [s Hs]%has_suffix_true] & _)%list_find_Some & ->)%fmap_Some. simpl in *.
    split; [by eapply list_elem_of_lookup_2|]. exists s. split; [|done].
    intros ->. subst n. simpl in Hlen. lia.
  - intros (Hf & s & Hs & ->).
    destruct (list_find _ archiveFormats) as [[i g]|] eqn:E.
    + apply list_find_Some in E as (Hi & [_ [t Ht]%has_suffix_true] & _). simpl. f_equal.
      symmetry. eapply format_unique; [done|by eapply list_elem_of_lookup_2|done].
    + rewrite list_find_None in E. rewrite Forall_forall in E. destruct (E f Hf). split.
      * rewrite length_str_app. destruct s; [done|]. simpl. lia.
      * apply has_suffix_true. by exists s.
Qed.

Lemma has_suffix_false s p : has_suffix s p = false ↔ ∀ t, s ≠ t +:+ p.
Proof.
  rewrite <-not_true_iff_false, has_suffix_true. split.
  - intros H t Ht. apply H. by exists t.
  - intros H [t Ht]. exact (H t Ht).
Qed.

Lemma suffix_length f : f ∈ archiveFormats → 8 ≤ String.length (suffix f).
Proof.
  intros Hf. assert (Forall (λ f, 8 ≤ String.length (suffix f)) archiveFormats) as H.
  2: { rewrite Forall_forall in H. by apply H. }
  repeat (apply Forall_cons; split; [simpl; lia|]). by apply Forall_nil.
Qed.

(** An archive name is not a signature name. *)
Lemma archive_not_sig f s : f ∈ archiveFormats → has_suffix (s +:+ suffix f) ".sig" = false.
Proof.
  intros Hf. apply has_suffix_false. intros t Ht.
  assert (Forall (λ f, s +:+ suffix f = t +:+ ".sig" → False) archiveFormats) as H.
  2: { rewrite Forall_forall in H. by eapply H. }
  clear. repeat (apply Forall_cons; split;
    [intros Ht; apply app_suffix_cases in Ht as [H|H]; by vm_compute in H|]).
  by apply Forall_nil.
Qed.

Lemma path_base_fixed s :
  s ≠ "" ∧ path_base s = s ↔ s = "/" ∨ occurs "/" s = false ∧ s ≠ "".
Proof.
  split.
  - intros [_ H]. by apply path_base_eq.
  - intros [->|[??]]; [done|]. split; [done|]. by apply path_base_id.
Qed.

(** The archive of a file name and whether the name is its signature. *)
Definition published (archive : string) (sig : bool) : string :=
  if sig then archive +:+ ".sig" else archive.

(** [ParseArtifact] accepts exactly the names without a slash or a backslash that
    are a non-empty stem, one suffix of the table and optionally [.sig]; the artifact
    holds those parts. *)
Theorem ParseArtifact_spec name a :
  ParseArtifact name = Ok a ↔
  occurs "/" name = false ∧ occurs "\" name = false ∧
  ∃ f, f ∈ archiveFormats ∧ stem a ≠ "" ∧
    a = mkArtifact (published (stem a +:+ suffix f) (signature a)) (stem a +:+ suffix f)
          (stem a) (suffix f) (compression f) (signature a) ∧
    filename a = name.
Proof.
  unfold ParseArtifact. split.
  - case_decide as Hn; [done|]. apply Decidable.not_or in Hn as [Hne Hn].
    apply Decidable.not_or in Hn as [Hb Hbs%not_true_is_false].
    apply dec_stable in Hb.
    destruct (match_format _) as [f|] eqn:Hf; [|done]. intros [= <-].
    apply match_format_Some in Hf as (Hf & s & Hs & E).
    destruct (proj1 (path_base_fixed name) (conj Hne Hb)) as [->|[Hsl _]].
    { exfalso. simpl in E. apply (f_equal String.length) in E. rewrite length_str_app in E.
      pose proof (suffix_length f Hf). simpl in E. lia. }
    split_and!; [done..|]. exists f. simpl. rewrite E, trim_suffix_app. split_and!; [done..| |done].
    f_equal. unfold published. destruct (has_suffix name ".sig") eqn:Hsig; [|done].
    apply has_suffix_true in Hsig as [t ->]. rewrite trim_suffix_app in E. by subst.
  - intros (Hsl & Hbs & f & Hf & Hs & Ha & Hname). destruct a as [fn ar st sx co sg]; simpl in *.
    subst fn. injection Ha as Hn -> -> ->.
    rewrite decide_False.
    2: { intros [->|[Hb|Hb]].
         - unfold published in Hn. destruct sg; symmetry in Hn;
             repeat apply str_app_nil in Hn as [Hn ?]; done.
         - apply Hb, path_base_id; [|done]. intros ->. destruct sg; symmetry in Hn;
             repeat apply str_app_nil in Hn as [Hn ?]; done.
         - congruence. }
    unfold published in Hn. destruct sg; subst name.
    + rewrite (proj2 (has_suffix_true (_ +:+ ".sig") ".sig")) by eauto.
      rewrite trim_suffix_app. rewrite (proj2 (match_format_Some _ f)) by eauto.
      by rewrite trim_suffix_app.
    + rewrite archive_not_sig by done. rewrite (proj2 (match_format_Some _ f)) by eauto.
      by rewrite trim_suffix_app.
Qed.

Lemma join_single sep s : join sep [s] = s.
Proof. done. Qed.

Lemma split_last3_Some parts ns v r a :
  split_last3 parts = Some (ns, v, r, a) ↔ parts = ns ++ [v; r; a] ∧ ns ≠ [].
Proof.
  unfold split_last3. rewrite <-(reverse_involutive parts). generalize (reverse parts) as l.
  intros l. rewrite reverse_involutive. split.
  - destruct l as [|a' [|r' [|v' [|n l]]]]; try done. intros [= <- -> -> ->].
    rewrite !reverse_cons, <-!(assoc (++)). split; [done|]. by destruct (reverse l).
  - intros [E Hns]. apply (f_equal reverse) in E. rewrite reverse_involutive in E.
    rewrite reverse_app in E. simpl in E. subst l. change (reverse [v; r; a]) with [a; r; v].
    destruct (reverse ns) as [|n l] eqn:E; simpl.
    + by apply (f_equal reverse) in E; rewrite reverse_involutive in E.
    + by rewrite <-E, reverse_involutive.
Qed.

Lemma validArch_no c s :
  negb (alphanumeric c || bool_decide (c = "_"%char)) = true → validArch s = true → occurs c s = false.
Proof.
  unfold validArch. intros Hc%negb_true_iff [_ Hs]%andb_true_iff.
  exact (all_bytes_occurs (λ c, alphanumeric c || bool_decide (c = "_"%char)) _ _ Hc Hs).
Qed.

(** [Coordinates] of an artifact succeeds with name, version, release and
    architecture exactly when its stem is the four of them joined by dashes, version and
    release hold no dash, and each field is valid: a name may contain dashes, and the
    split is the only one. *)
Theorem Coordinates_spec a c :
  Coordinates a = Ok c ↔
  stem a = c_Name c +:+ "-" +:+ FullVersion c +:+ "-" +:+ c_Arch c ∧
  occurs "-" (c_Version c) = false ∧ occurs "-" (c_Release c) = false ∧
  validPackageName (c_Name c) = true ∧ validVersionField (c_Version c) = true ∧
  validVersionField (c_Release c) = true ∧ validArch (c_Arch c) = true.
Proof.
  unfold Coordinates, FullVersion. split.
  - destruct (split_last3 _) as [[[[ns v] r] ar]|] eqn:E; [|done]. simpl.
    destruct (_ && _) eqn:Hv; [|done]. intros [= <-]. simpl. rewrite !andb_true_iff in Hv.
    apply split_last3_Some in E as [E Hns].
    pose proof (split_char_occurs "-" (stem a)) as Ho. rewrite E, Forall_app in Ho.
    destruct Ho as [_ Ho]. rewrite !Forall_cons in Ho.
    split; [|naive_solver].
    rewrite <-(join_split "-" (stem a)), E, join_app by done. simpl. by rewrite <-!str_app_assoc.
  - intros (E & Hv & Hr & Hn & Hvv & Hvr & Ha). destruct c as [n v r ar]; simpl in *.
    assert (split_char "-" (stem a) = split_char "-" n ++ [v; r; ar]) as ->.
    { rewrite <-(split_join "-" (split_char "-" n ++ [v; r; ar])).
      - f_equal. rewrite join_app by first [apply split_char_not_nil|done].
        rewrite join_split, E. simpl. by rewrite <-!str_app_assoc.
      - by destruct (split_char "-" n).
      - apply Forall_app. split; [apply split_char_occurs|].
        repeat (apply Forall_cons; split; [done|]). apply Forall_cons. split; [|by apply Forall_nil].
        by eapply (validArch_no "-"). }
    rewrite (proj2 (split_last3_Some _ (split_char "-" n) v r ar)) by
      (split; [done|apply split_char_not_nil]).
    simpl. rewrite join_split, Hn, Hvv, Hvr, Ha. done.
Qed.

(** [FindCached] returns the first file of the directories, in their order, whose
    base name is an archive (no signature) with the wanted name, architecture ("" is
    any) and version, the epoch colon replaced by an underscore or not; it returns
    nothing exactly when no candidate matches. *)
Theorem FindCached_spec glob dirs name version arch :
  let candidates := concat (map (λ dir, glob dir (name +:+ "-")) dirs) in
  let matching m :=
    ∃ a c, ParseArtifact (path_base m) = Ok a ∧ signature a = false ∧ Coordinates a = Ok c ∧
      c_Name c = name ∧ (arch = "" ∨ c_Arch c = arch) ∧
      (FullVersion c = version ∨ FullVersion c = normalize_epoch version) in
  match FindCached glob dirs name version arch with
  | Some m => ∃ l1 l2, candidates = l1 ++ m :: l2 ∧ matching m ∧ ∀ m', m' ∈ l1 → ¬ matching m'
  | None => ∀ m, m ∈ candidates → ¬ matching m
  end.
Proof.
  intros candidates matching.
  assert (Hm : ∀ m, cached_match name version arch m = true ↔ matching m).
  { intros m. unfold cached_match, matching, MatchesMetadata. split.
    - destruct (ParseArtifact _) as [a|] eqn:Ha; [|done]. destruct (signature a) eqn:Hs; [done|].
      destruct (Coordinates a) as [c|] eqn:Hc; [|done]. case_decide as Hd; [done|].
      rewrite orb_true_iff, !bool_decide_eq_true. intros Hv. exists a, c.
      apply Decidable.not_or in Hd as [Hd1%dec_stable Hd2%dec_stable]. split_and!; try done.
      case_decide; auto.
    - intros (a & c & -> & -> & -> & Hn & Har & Hv). rewrite decide_False.
      + by rewrite orb_true_iff, !bool_decide_eq_true.
      + case_decide; naive_solver. }
  unfold FindCached. fold candidates.
  destruct (list_find _ candidates) as [[i m]|] eqn:E; simpl.
  - apply list_find_Some in E as (Hi & Hmt & Hbefore).
    exists (take i candidates), (drop (S i) candidates). split_and!.
    + symmetry. by apply take_drop_middle.
    + by apply Hm.
    + intros m' (j & Hj)%list_elem_of_lookup_1 Hm'.
      apply lookup_take_Some in Hj as [Hj ?]. eapply Hbefore; [done|done|]. by apply Hm.
  - rewrite list_find_None, Forall_forall in E. intros m Hin Hmt. eapply E; [done|]. by apply Hm.
Qed.
