(* ===== verification/Constraint.v ===== *)
(** * Dependency specs (internal/pacman/depend/constraint.go)

    [name], [name>=1.0], ...: the parser of a spec and the comparison of a version with
    one.  alpm's version comparison is a library outside the repository: a parameter. *)

From S2P Require Import Prelude GoStrings.

(** [type Op string]. *)
Definition Op := string.
Definition OpAny : Op := "".
Definition OpEQ : Op := "=".
Definition OpGE : Op := ">=".
Definition OpLE : Op := "<=".
Definition OpGT : Op := ">".
Definition OpLT : Op := "<".

Record Constraint := mkConstraint { cn_Name : string; cn_Op : Op; cn_Ver : string }.

#[export] Instance Constraint_eq_dec : EqDecision Constraint.
Proof. solve_decision. Defined.

Definition ops : list Op := [OpGE; OpLE; OpGT; OpLT; OpEQ].

(** The loop over [ops]: [strings.Index(s, op) > 0]. *)
Fixpoint parse_ops (s : string) (l : list Op) : Constraint :=
  match l with
  | [] => mkConstraint s OpAny ""
  | op :: l =>
      match cut op s with
      | Some (a, b) => if decide (a = "") then parse_ops s l
                       else mkConstraint (trim_space a) op (trim_space b)
      | None => parse_ops s l
      end
  end.

Definition Parse (spec : string) : Constraint := parse_ops (trim_space spec) ops.

Inductive depend_error :=
| ErrUnknownOperator (op : Op)
| ErrDependsCycle (base : string)
| ErrUnsatisfied (pkg version spec : string)
| ErrProvides (c : Constraint) (base : string)
| ErrCall (what : string)
| ErrFuel.

Section satisfies.
(** [alpm.VerCmp]. *)
Context (vercmp : string → string → Z).

Definition Satisfies (c : Constraint) (version : string) : result depend_error bool :=
  if decide (cn_Op c = OpAny) then Ok true
  else
    let cmp := vercmp version (cn_Ver c) in
    if decide (cn_Op c = OpEQ) then Ok (cmp =? 0)%Z
    else if decide (cn_Op c = OpGE) then Ok (0 <=? cmp)%Z
    else if decide (cn_Op c = OpLE) then Ok (cmp <=? 0)%Z
    else if decide (cn_Op c = OpGT) then Ok (0 <? cmp)%Z
    else if decide (cn_Op c = OpLT) then Ok (cmp <? 0)%Z
    else Err (ErrUnknownOperator (cn_Op c)).
End satisfies.

(** ** Theorems *)

(** The spec a constraint is written as. *)
Definition print_constraint (c : Constraint) : string := cn_Name c +:+ cn_Op c +:+ cn_Ver c.

Definition op_free (s : string) : bool :=
  all_bytes (λ c, negb (occurs c "<>=")) s.

Definition wf_constraint (c : Constraint) : bool :=
  bool_decide (cn_Name c ≠ "") && op_free (cn_Name c) && op_free (cn_Ver c)
  && trimmed (cn_Name c) && trimmed (cn_Ver c)
  && (bool_decide (cn_Op c ∈ ops)
      || bool_decide (cn_Op c = OpAny) && bool_decide (cn_Ver c = "")).

Lemma op_free_spec s :
  op_free s = true → occurs "<" s = false ∧ occurs ">" s = false ∧ occurs "=" s = false.
Proof. intros Hs. split_and!; eapply all_bytes_occurs; try exact Hs; done. Qed.

(** A string the operator cannot start in. *)
Lemma cut_op_None c p s : occurs c s = false → cut (String c p) s = None.
Proof.
  induction s as [|d s IH]; simpl; intros Hs; [done|].
  apply orb_false_iff in Hs as [Hd%bool_decide_eq_false Hs].
  rewrite decide_False by done. by rewrite IH.
Qed.

Lemma cut_op_app c p s t :
  occurs c s = false →
  cut (String c p) (s +:+ t) = (λ '(a, b), (s +:+ a, b)) <$> cut (String c p) t.
Proof.
  intros Hs. induction s as [|d s IH]; simpl in *.
  - by destruct (cut (String c p) t) as [[??]|].
  - apply orb_false_iff in Hs as [Hd%bool_decide_eq_false Hs].
    rewrite decide_False, IH by done. by destruct (cut (String c p) t) as [[??]|].
Qed.

Lemma print_trimmed c : wf_constraint c = true → trimmed (print_constraint c) = true.
Proof.
  unfold wf_constraint, print_constraint. destruct c as [n op v]; simpl.
  rewrite !andb_true_iff, !orb_true_iff, !andb_true_iff, !bool_decide_eq_true.
  intros (((((Hn & _) & _) & Htn) & Hv) & Hop).
  pose proof (trimmed_starts _ Htn) as Hs. pose proof (trimmed_trim_right _ Hv) as Hr.
  destruct Hop as [Hop|[-> ->]]; [|by rewrite !str_app_nil_r].
  unfold ops in Hop. rewrite !elem_of_cons, elem_of_nil in Hop.
  destruct Hop as [->|[->|[->|[->|[->|[]]]]]]; simpl; try (by apply trimmed_app_ascii).
  - change (String ">" (String "=" v)) with (">" +:+ String "=" v). rewrite str_app_assoc.
    apply trimmed_app_ascii; try done. by apply starts_space_app_ascii.
  - change (String "<" (String "=" v)) with ("<" +:+ String "=" v). rewrite str_app_assoc.
    apply trimmed_app_ascii; try done. by apply starts_space_app_ascii.
Qed.

(** A spec written as name, operator and version, none of them holding an operator
    character and name and version trimmed, is parsed back to them, for each of the five
    operators and for no operator: the two-character operators are recognised before
    their one-character parts. *)
Theorem Parse_print c : wf_constraint c = true → Parse (print_constraint c) = c.
Proof.
  intros Hw. unfold Parse. rewrite trim_space_id by by apply print_trimmed.
  unfold wf_constraint, print_constraint in *. destruct c as [n op v]; simpl in *.
  rewrite !andb_true_iff, !orb_true_iff, !andb_true_iff, !bool_decide_eq_true in Hw.
  destruct Hw as (((((Hn & Hon%op_free_spec) & Hov%op_free_spec) & Htn) & Hv) & Hop).
  destruct Hon as (Hl & Hg & He), Hov as (Hl' & Hg' & He').
  unfold ops, OpGE, OpLE, OpGT, OpLT, OpEQ. cbn [parse_ops].
  rewrite (cut_op_app ">" "="), (cut_op_app "<" "="), (cut_op_app ">" ""),
    (cut_op_app "<" ""), (cut_op_app "=" "") by done.
  assert (Hc : ∀ c p, occurs c v = false → cut (String c p) v = None) by
    (intros; by apply cut_op_None).
  assert (Hm : match v with
               | "" => None
               | String d s => if decide ("="%char = d) then Some s else None
               end = None).
  { destruct v as [|d v']; [done|]. simpl in He'. apply orb_false_iff in He' as [Hd _].
    apply bool_decide_eq_false in Hd. by rewrite decide_False. }
  destruct Hop as [Hop|[-> ->]].
  - unfold ops in Hop. rewrite !elem_of_cons, elem_of_nil in Hop.
    destruct Hop as [->|[->|[->|[->|[->|[]]]]]]; simpl;
      rewrite ?Hc by done; simpl; rewrite ?Hm; simpl;
      rewrite ?str_app_nil_r; (case_decide; [done|]); by rewrite (trim_space_id n), (trim_space_id v).
  - simpl. by rewrite !str_app_nil_r.
Qed.

Lemma Parse_print_witness :
  wf_constraint (mkConstraint "glibc" OpGE "1:2.38-4") = true ∧
  Parse "glibc>=1:2.38-4" = mkConstraint "glibc" OpGE "1:2.38-4".
Proof.
  split; [by vm_compute|]. apply (Parse_print (mkConstraint "glibc" OpGE "1:2.38-4")).
  by vm_compute.
Defined.

Lemma parse_ops_Op s l : cn_Op (parse_ops s l) ∈ OpAny :: l.
Proof.
  induction l as [|op l IH]; simpl; [set_solver|].
  destruct (cut op s) as [[a b]|]; [case_decide|]; simpl; set_solver.
Qed.

Lemma parse_ops_any s l : OpAny ∉ l → cn_Op (parse_ops s l) = OpAny → parse_ops s l = mkConstraint s OpAny "".
Proof.
  induction l as [|op l IH]; simpl; [done|]. intros Hl.
  destruct (cut op s) as [[a b]|]; [case_decide|]; simpl; [set_solver| |set_solver]. intros ->. set_solver.
Qed.

(** [Satisfies] never fails on a parsed spec, and answers the comparison its operator
    names; a spec without operator admits every version. *)
Theorem Satisfies_parsed vercmp spec version :
  ∃ b, Satisfies vercmp (Parse spec) version = Ok b ∧
    let c := Parse spec in
    let cmp := vercmp version (cn_Ver c) in
    (b = true ↔
       c = mkConstraint (trim_space spec) OpAny "" ∨
       cn_Op c = OpEQ ∧ (cmp = 0)%Z ∨ cn_Op c = OpGE ∧ (0 ≤ cmp)%Z ∨
       cn_Op c = OpLE ∧ (cmp ≤ 0)%Z ∨ cn_Op c = OpGT ∧ (0 < cmp)%Z ∨
       cn_Op c = OpLT ∧ (cmp < 0)%Z).
Proof.
  pose proof (parse_ops_Op (trim_space spec) ops) as Hop.
  pose proof (parse_ops_any (trim_space spec) ops) as Hany. fold (Parse spec) in *.
  unfold Satisfies. unfold ops in Hop. rewrite !elem_of_cons, elem_of_nil in Hop.
  assert (∀ n o v, o ≠ OpAny → mkConstraint n OpAny v ≠ mkConstraint n o v) by naive_solver.
  destruct (Parse spec) as [n o v]; simpl in *.
  destruct Hop as [->|[->|[->|[->|[->|[->|[]]]]]]]; simpl; eexists; (split; [reflexivity|]);
    simpl; rewrite ?Z.leb_le, ?Z.ltb_lt, ?Z.eqb_eq.
  1: split; [|done]; intros _; left; apply Hany; [|done]; unfold ops; set_solver.
  all: split; [intros; clear Hany; naive_solver lia|].
  all: intros Hor; destruct_or! Hor; destruct_and?; done || lia.
Qed.
