(* ===== verification/Toposort.v ===== *)
(** * Topological order (internal/pacman/depend/toposort.go, graph.go)

    The dependency-first order of a set of packages, the report of one cycle when there
    is none, and the graph with its forward and reverse edges.  Every loop over a Go map
    takes its order from the [RangeOrder] instance. *)

From S2P Require Import Prelude GoStrings.

(** [deps[n]], nil for a missing key. *)
Definition edges (deps : gmap string (list string)) (n : string) : list string :=
  default [] (deps !! n).

Inductive topo_error :=
| ErrCycle (path : list string)
| ErrCycleAmong (nodes : list string)
| ErrTopoFuel.

(** The mutable state of the loop of [TopoSort]. *)
Record topo_state := mkTopo {
  ts_order : list string;
  ts_emitted : gset string;
  ts_remaining : gmap string Z;
}.

(** The mutable state of [walk] in [cycleError]. *)
Record walk_state := mkWalk { onPath : gmap string nat; path : list string }.

Inductive walk_result := Found (cycle : list string) | NoCycle | WalkFuel.

Section toposort.
Context {R : RangeOrder}.
Implicit Types (deps : gmap string (list string)) (set : gset string).

(** [nodeSet]. *)
Definition nodeSet (nodes : list string) deps : gset string :=
  foldl (λ s nds, foldl (λ s d, {[d]} ∪ s) ({[nds.1]} ∪ s) nds.2)
    (foldl (λ s n, {[n]} ∪ s) ∅ nodes) (range_map deps).

(** The counts of a node's distinct dependencies and, for each of them, the nodes it
    unblocks: one iteration of the outer loop, over [deps[n]]. *)
Definition count_dep (n : string)
    (acc : gset string * gmap string Z * gmap string (list string)) (d : string) :=
  let '(seen, remaining, dependents) := acc in
  if decide (d ∈ seen) then acc
  else ({[d]} ∪ seen, <[n := (default 0 (remaining !! n) + 1)%Z]> remaining,
        <[d := default [] (dependents !! d) ++ [n]]> dependents).

Definition count_node deps (acc : gmap string Z * gmap string (list string)) (n : string) :=
  let '(_, remaining, dependents) :=
    foldl (count_dep n) (∅, acc.1, acc.2) (edges deps n) in
  (remaining, dependents).

Definition count_all deps set : gmap string Z * gmap string (list string) :=
  foldl (count_node deps) (∅, ∅) (range_keys set).

(** [for n := range set]: the smallest node that is ready. *)
Definition string_lt (a b : string) : bool := String.ltb a b.

Definition consider (st : topo_state) (acc : string * bool) (n : string) : string * bool :=
  if decide (n ∈ ts_emitted st) then acc
  else if (default 0 (ts_remaining st !! n) =? 0)%Z && (negb acc.2 || string_lt n acc.1)
       then (n, true) else acc.

Definition next_ready set (st : topo_state) : string * bool :=
  foldl (consider st) ("", false) (range_keys set).

Definition emit (dependents : gmap string (list string)) (st : topo_state) (next : string) : topo_state :=
  mkTopo (ts_order st ++ [next]) ({[next]} ∪ ts_emitted st)
    (foldl (λ m dep, <[dep := (default 0 (m !! dep) - 1)%Z]> m) (ts_remaining st)
       (default [] (dependents !! next))).

(** ** [cycleError] *)

(** [for _, d := range nbrs]. *)
Fixpoint walk_nbrs (walk : string → walk_state → walk_result * walk_state) set
    (nbrs : list string) (st : walk_state) : walk_result * walk_state :=
  match nbrs with
  | [] => (NoCycle, st)
  | d :: nbrs =>
      if decide (d ∈ set) then
        match walk d st with
        | (NoCycle, st) => walk_nbrs walk set nbrs st
        | r => r
        end
      else walk_nbrs walk set nbrs st
  end.

Fixpoint walk (fuel : nat) set (emitted : gset string) deps (n : string) (st : walk_state)
    : walk_result * walk_state :=
  match onPath st !! n with
  | Some i => (Found (drop i (path st) ++ [n]), st)
  | None =>
      if decide (n ∈ emitted) then (NoCycle, st)
      else
        match fuel with
        | O => (WalkFuel, st)
        | S fuel =>
            let st := mkWalk (<[n := length (path st)]> (onPath st)) (path st ++ [n]) in
            let nbrs := sort_strings (edges deps n) in
            match walk_nbrs (walk fuel set emitted deps) set nbrs st with
            | (NoCycle, st) =>
                (NoCycle, mkWalk (delete n (onPath st)) (take (length (path st) - 1) (path st)))
            | r => r
            end
        end
  end.

(** [for _, n := range remaining]. *)
Fixpoint walk_remaining (fuel : nat) set (emitted : gset string) deps
    (l : list string) (st : walk_state) : walk_result :=
  match l with
  | [] => NoCycle
  | n :: l =>
      match walk fuel set emitted deps n st with
      | (NoCycle, st) => walk_remaining fuel set emitted deps l st
      | (r, _) => r
      end
  end.

Definition cycleError set (emitted : gset string) deps : topo_error :=
  let remaining := sort_strings (filter (λ n, n ∉ emitted) (range_keys set)) in
  match walk_remaining (size set) set emitted deps remaining (mkWalk ∅ []) with
  | Found c => ErrCycle c
  | NoCycle => ErrCycleAmong remaining
  | WalkFuel => ErrTopoFuel
  end.

(** [for len(order) < len(set)]. *)
Fixpoint topo_loop (fuel : nat) set deps (dependents : gmap string (list string)) (st : topo_state)
    : result topo_error (list string) :=
  if decide (length (ts_order st) < size set) then
    match fuel with
    | O => Err ErrTopoFuel
    | S fuel =>
        let '(next, found) := next_ready set st in
        if found then topo_loop fuel set deps dependents (emit dependents st next)
        else Err (cycleError set (ts_emitted st) deps)
    end
  else Ok (ts_order st).

Definition TopoSort (nodes : list string) deps : result topo_error (list string) :=
  let set := nodeSet nodes deps in
  let '(remaining, dependents) := count_all deps set in
  topo_loop (size set) set deps dependents (mkTopo [] ∅ remaining).

(** ** [graph.go] *)
Record Graph := mkGraph {
  g_nodes : list string;
  g_forward : gmap string (list string);
  g_reverse : gmap string (list string);
}.

Definition sortedKeys (m : gset string) : list string := sort_strings (range_keys m).

(** [forward[n][d] = struct{}{}; reverse[d][n] = struct{}{}] for each edge that is not a
    loop.  The keys are in both maps, since [nodeSet] holds them. *)
Definition add_edge (n : string) (acc : gmap string (gset string) * gmap string (gset string)) (d : string) :=
  if decide (d = n) then acc
  else (<[n := {[d]} ∪ default ∅ (acc.1 !! n)]> acc.1,
        <[d := {[n]} ∪ default ∅ (acc.2 !! d)]> acc.2).

Definition NewGraph (pkgs : list string) deps : Graph :=
  let set := nodeSet pkgs deps in
  let empty := foldl (λ m n, <[n := ∅]> m) (∅ : gmap string (gset string)) (range_keys set) in
  let '(forward, reverse) :=
    foldl (λ acc nds, foldl (add_edge nds.1) acc nds.2) (empty, empty) (range_map deps) in
  mkGraph (sort_strings (range_keys set))
    (foldl (λ m n, <[n := sortedKeys (default ∅ (forward !! n))]> m) ∅ (range_keys set))
    (foldl (λ m n, <[n := sortedKeys (default ∅ (reverse !! n))]> m) ∅ (range_keys set)).

Definition Nodes (g : Graph) : list string := g_nodes g.
Definition Deps (g : Graph) (pkg : string) : list string := edges (g_forward g) pkg.
Definition Dependents (g : Graph) (pkg : string) : list string := edges (g_reverse g) pkg.
Definition BuildOrder (g : Graph) : result topo_error (list string) :=
  TopoSort (g_nodes g) (g_forward g).
End toposort.

(** ** Lemmas: the node set and the counts *)
Section lemmas.
Context {R : RangeOrder}.
Implicit Types (deps : gmap string (list string)) (set : gset string).

Lemma elem_of_foldl_add (f : string → string) x l (s : gset string) :
  x ∈ foldl (λ s n, {[f n]} ∪ s) s l ↔ x ∈ f <$> l ∨ x ∈ s.
Proof. revert s. induction l as [|a l IH]; intros s; simpl; [set_solver|]. rewrite IH. set_solver. Qed.

Lemma edges_Some deps n ds : deps !! n = Some ds → edges deps n = ds.
Proof. unfold edges. by intros ->. Qed.

Lemma elem_of_edges deps n d : d ∈ edges deps n ↔ ∃ ds, deps !! n = Some ds ∧ d ∈ ds.
Proof. unfold edges. destruct (deps !! n); set_solver. Qed.

Lemma elem_of_nodeSet nodes deps x :
  x ∈ nodeSet nodes deps ↔ x ∈ nodes ∨ x ∈ dom deps ∨ ∃ n, x ∈ edges deps n.
Proof.
  assert (∀ l (s : gset string),
    x ∈ foldl (λ s nds, foldl (λ s d, {[d]} ∪ s) ({[nds.1]} ∪ s) nds.2) s l ↔
    (∃ n ds, (n, ds) ∈ l ∧ (x = n ∨ x ∈ ds)) ∨ x ∈ s) as Hl.
  { induction l as [|[n ds] l IH]; intros s; simpl; [set_solver|].
    rewrite IH, (elem_of_foldl_add id), list_fmap_id. simpl. set_solver. }
  unfold nodeSet. rewrite Hl, (elem_of_foldl_add id), list_fmap_id.
  setoid_rewrite elem_of_range_map. setoid_rewrite elem_of_edges.
  rewrite elem_of_dom. unfold is_Some. set_solver.
Qed.

Lemma nodeSet_closed nodes deps n d : d ∈ edges deps n → d ∈ nodeSet nodes deps.
Proof. rewrite elem_of_nodeSet. eauto. Qed.

Lemma count_dep_spec n l seen r de seen' r' de' :
  foldl (count_dep n) (seen, r, de) l = (seen', r', de') →
  (∀ m, default 0%Z (r' !! m)
        = default 0 (r !! m) + if decide (m = n) then Z.of_nat (length (uniq_aux seen l)) else 0)%Z ∧
  (∀ d, default [] (de' !! d)
        = default [] (de !! d) ++ if decide (d ∈ l ∧ d ∉ seen) then [n] else []).
Proof.
  revert seen r de. induction l as [|a l IH]; intros seen r de H.
  - simpl in H. simplify_eq. split; intros x; [case_decide; simpl; lia|].
    rewrite decide_False by set_solver. by rewrite app_nil_r.
  - simpl in H. case_decide as Ha.
    + destruct (IH _ _ _ H) as [H1 H2]. split; intros x; [rewrite H1|rewrite H2].
      * simpl. by rewrite (decide_True (P := a ∈ seen)).
      * f_equal. apply decide_ext. set_solver.
    + destruct (IH _ _ _ H) as [H1 H2]. split; intros x; [rewrite H1|rewrite H2].
      * simpl. rewrite (decide_False (P := a ∈ seen)) by done.
        destruct (decide (x = n)) as [->|Hx].
        -- rewrite lookup_insert_eq. simpl. lia.
        -- by rewrite lookup_insert_ne by done.
      * destruct (decide (x = a)) as [->|Hx].
        -- rewrite lookup_insert_eq, decide_False, decide_True by set_solver. simpl.
           by rewrite app_nil_r.
        -- rewrite lookup_insert_ne by done. f_equal. apply decide_ext. set_solver.
Qed.

Lemma count_all_spec deps l r de :
  NoDup l → foldl (count_node deps) (∅, ∅) l = (r, de) →
  (∀ m, default 0%Z (r !! m) = if decide (m ∈ l) then Z.of_nat (length (uniq (edges deps m))) else 0%Z) ∧
  (∀ d, default [] (de !! d) = filter (λ n, d ∈ edges deps n) l).
Proof.
  revert r de. induction l as [|a l IH] using rev_ind; intros r de Hnd H.
  - simpl in H. simplify_eq. split; intros x; by rewrite lookup_empty.
  - apply NoDup_app in Hnd as (Hl & Ha & _).
    rewrite foldl_app in H. destruct (foldl (count_node deps) (∅, ∅) l) as [r0 de0] eqn:E.
    destruct (IH _ _ Hl eq_refl) as [H1 H2]. simpl in H. unfold count_node in H. simpl in H.
    destruct (foldl (count_dep a) _ _) as [[seen r1] de1] eqn:F. simplify_eq.
    apply count_dep_spec in F as [F1 F2]. split; intros x.
    + rewrite F1, H1. destruct (decide (x = a)) as [->|Hx].
      * rewrite decide_False by set_solver. rewrite decide_True by set_solver. unfold uniq. lia.
      * rewrite Z.add_0_r. apply decide_ext. set_solver.
    + rewrite F2, H2, filter_app. f_equal. simpl. unfold filter; simpl.
      by destruct (decide (x ∈ edges deps a)) as [Hx|Hx];
        [rewrite decide_True by set_solver|rewrite decide_False by set_solver].
Qed.

Lemma decrement_spec l (m : gmap string Z) x :
  NoDup l →
  default 0%Z (foldl (λ m dep, <[dep := (default 0 (m !! dep) - 1)%Z]> m) m l !! x)
  = (default 0 (m !! x) - if decide (x ∈ l) then 1 else 0)%Z.
Proof.
  revert m. induction l as [|a l IH]; intros m Hnd; simpl; [lia|].
  apply NoDup_cons in Hnd as [Ha Hnd]. rewrite IH by done.
  destruct (decide (x = a)) as [->|Hx].
  - rewrite lookup_insert_eq, decide_False, decide_True by set_solver. simpl. lia.
  - rewrite lookup_insert_ne by done. f_equal. apply decide_ext. set_solver.
Qed.

Lemma length_filter_snoc o x (l : list string) :
  NoDup l → x ∉ o →
  Z.of_nat (length (filter (λ y, y ∉ o ++ [x]) l))
  = (Z.of_nat (length (filter (λ y, y ∉ o) l)) - if decide (x ∈ l) then 1 else 0)%Z.
Proof.
  intros Hl Hx. induction l as [|a l IH]; [done|].
  apply NoDup_cons in Hl as [Ha Hl]. specialize (IH Hl).
  rewrite !filter_cons. destruct (decide (x = a)) as [->|Hxa].
  - rewrite decide_False by set_solver. rewrite (decide_True (P := a ∉ o)) by done.
    rewrite (decide_False (P := a ∈ l)) in IH by done.
    rewrite decide_True by set_solver. simpl. lia.
  - rewrite (decide_ext (x ∈ a :: l) (x ∈ l)) by set_solver.
    rewrite (decide_ext (a ∉ o ++ [x]) (a ∉ o)) by set_solver.
    repeat case_decide; simpl; try done; lia.
Qed.
End lemmas.

(** ** The order *)
Section order.
Context {R : RangeOrder}.
Context (set : gset string) (deps : gmap string (list string)).

(** A node not yet emitted whose dependencies all are. *)
Definition ready (l : list string) (n : string) : Prop :=
  n ∈ set ∧ n ∉ l ∧ ∀ d, d ∈ edges deps n → d ∈ l.

Definition least_ready (l : list string) (n : string) : Prop :=
  ready l n ∧ ∀ m, ready l m → String.le n m.

(** Each node of the order is the least that is ready when it is emitted. *)
Definition greedy (l : list string) : Prop :=
  ∀ l1 n l2, l = l1 ++ n :: l2 → least_ready l1 n.

Lemma greedy_nil : greedy [].
Proof. intros l1 n l2 E. by destruct l1. Qed.

Lemma greedy_snoc l n : greedy l → least_ready l n → greedy (l ++ [n]).
Proof.
  intros Hl Hn l1 m l2 E. destruct l2 as [|m' l2 _] using rev_ind.
  - apply app_inj_tail in E as [-> ->]. done.
  - rewrite app_comm_cons, (assoc (++)) in E. apply app_inj_tail in E as [-> ->]. by eapply Hl.
Qed.

Lemma greedy_app l1 l2 : greedy (l1 ++ l2) → greedy l1.
Proof.
  intros H k1 n k2 ->. apply (H k1 n (k2 ++ l2)). by rewrite <-(assoc (++)).
Qed.

Lemma greedy_subset l : greedy l → ∀ n, n ∈ l → n ∈ set.
Proof. intros H n (l1 & l2 & ->)%list_elem_of_split. by destruct (H l1 n l2 eq_refl) as [[? _] _]. Qed.

Lemma greedy_NoDup l : greedy l → NoDup l.
Proof.
  induction l as [|n l IH] using rev_ind; intros H; [constructor|].
  apply NoDup_app. split_and!; [by eapply IH, greedy_app| |apply NoDup_singleton].
  destruct (H l n [] eq_refl) as [(_ & ? & _) _]. set_solver.
Qed.

(** Every dependency of a node comes before the node. *)
Lemma greedy_deps l l1 n l2 d : greedy l → l = l1 ++ n :: l2 → d ∈ edges deps n → d ∈ l1.
Proof. intros H E. destruct (H _ _ _ E) as [(_ & _ & ?) _]. auto. Qed.

Lemma least_ready_unique l n m : least_ready l n → least_ready l m → n = m.
Proof. intros [Hn ?] [Hm ?]. apply (anti_symm String.le); auto. Qed.

(** Two such orders agree as far as both go. *)
Lemma greedy_prefix l k : greedy l → greedy k → l `prefix_of` k ∨ k `prefix_of` l.
Proof.
  intros Hl. revert k. induction l as [|n l IH] using rev_ind; intros k Hk.
  - left. apply prefix_nil.
  - destruct (IH (greedy_app _ _ Hl) k Hk) as [[k' ->]|Hp].
    + destruct k' as [|m k']; [right; rewrite app_nil_r; by apply prefix_app_r|].
      left. rewrite (least_ready_unique l n m).
      * exists k'. by rewrite <-(assoc (++)).
      * by apply (Hl l n []).
      * by apply (Hk l m k').
    + right. by apply prefix_app_r.
Qed.

Lemma size_order l : NoDup l → (∀ n, n ∈ l → n ∈ set) → length l ≤ size set.
Proof.
  intros Hnd Hs. rewrite <-(size_list_to_set (C := gset string) l Hnd).
  apply subseteq_size. set_solver.
Qed.

Lemma full_order l :
  NoDup l → (∀ n, n ∈ l → n ∈ set) → ¬ length l < size set → l ≡ₚ elements set.
Proof.
  intros Hnd Hs Hlen. apply NoDup_Permutation; [done|apply NoDup_elements|].
  intros x. rewrite elem_of_elements. split; [by apply Hs|].
  intros Hx. destruct (decide (x ∈ l)) as [|Hn]; [done|].
  pose proof (size_order (x :: l)) as H. simpl in H. destruct Hlen. apply H.
  - by constructor.
  - set_solver.
Qed.

(** The state of the loop. *)
Record topo_inv (st : topo_state) : Prop := {
  inv_greedy : greedy (ts_order st);
  inv_emitted n : n ∈ ts_emitted st ↔ n ∈ ts_order st;
  inv_remaining n : n ∈ set →
    default 0%Z (ts_remaining st !! n)
    = Z.of_nat (length (filter (λ d, d ∉ ts_order st) (uniq (edges deps n))));
}.

Lemma remaining_zero st n :
  topo_inv st → n ∈ set →
  (default 0%Z (ts_remaining st !! n) = 0)%Z ↔ ∀ d, d ∈ edges deps n → d ∈ ts_order st.
Proof.
  intros Hi Hn. rewrite (inv_remaining st Hi) by done.
  rewrite (Nat2Z.inj_iff _ 0), length_filter_zero. setoid_rewrite elem_of_uniq.
  split; intros H d Hd; specialize (H d Hd); [by apply dec_stable|by intros []].
Qed.

#[local] Instance ready_dec l n : Decision (ready l n).
Proof.
  refine (cast_if (decide (n ∈ set ∧ n ∉ l ∧ Forall (λ d, d ∈ l) (edges deps n))));
    unfold ready; by rewrite Forall_forall in *.
Defined.

Lemma string_lt_spec a b : string_lt a b = true ↔ ¬ String.le b a.
Proof.
  unfold string_lt, String.le, String.ltb, String.leb.
  rewrite (String.compare_antisym b a). destruct (a ?= b)%string; simpl; naive_solver.
Qed.

Lemma consider_spec st n acc :
  topo_inv st → n ∈ set →
  (ready (ts_order st) n →
    consider st acc n = if acc.2 && bool_decide (String.le acc.1 n) then acc else (n, true)) ∧
  (¬ ready (ts_order st) n → consider st acc n = acc).
Proof.
  intros Hi Hn. unfold consider, ready. pose proof (inv_emitted st Hi n) as Hem.
  pose proof (remaining_zero st n Hi Hn) as Hz. split.
  - intros (_ & Hno & Hd). rewrite decide_False by tauto.
    rewrite (proj2 (Z.eqb_eq _ _)) by tauto. simpl. destruct acc as [m []]; simpl; [|done].
    destruct (string_lt n m) eqn:E; simpl.
    + apply string_lt_spec in E. by rewrite bool_decide_eq_false_2.
    + rewrite bool_decide_eq_true_2; [done|]. apply not_true_iff_false in E.
      rewrite string_lt_spec in E. by apply dec_stable.
  - intros Hr. case_decide; [done|]. destruct (_ =? 0)%Z eqn:E; [|done].
    apply Z.eqb_eq in E. destruct Hr. tauto.
Qed.

Lemma next_ready_fold st l :
  topo_inv st → (∀ n, n ∈ l → n ∈ set) →
  match foldl (consider st) ("", false) l with
  | (n, true) => n ∈ l ∧ ready (ts_order st) n ∧
      ∀ m, m ∈ l → ready (ts_order st) m → String.le n m
  | (_, false) => ∀ m, m ∈ l → ¬ ready (ts_order st) m
  end.
Proof.
  intros Hi. induction l as [|a l IH] using rev_ind; intros Hl; simpl; [set_solver|].
  rewrite foldl_app. simpl. assert (a ∈ set) as Ha by set_solver.
  specialize (IH ltac:(set_solver)).
  destruct (consider_spec st a (foldl (consider st) ("", false) l) Hi Ha) as [H1 H2].
  destruct (foldl (consider st) ("", false) l) as [n b]. simpl in *.
  destruct (decide (ready (ts_order st) a)) as [Hr|Hr].
  - rewrite H1 by done. destruct b; simpl.
    + destruct IH as (Hn & Hrn & IH). case_bool_decide as Hle.
      * split_and!; [set_solver|done|]. intros m [?| ->%list_elem_of_singleton]%elem_of_app ?; auto.
      * split_and!; [set_solver|done|]. intros m [Hm| ->%list_elem_of_singleton]%elem_of_app Hrm.
        -- trans n; [|by apply IH]. by destruct (total String.le a n).
        -- done.
    + split_and!; [set_solver|done|].
      intros m [?| ->%list_elem_of_singleton]%elem_of_app Hrm; [by destruct (IH m)|done].
  - rewrite H2 by done. destruct b.
    + destruct IH as (? & ? & IH). split_and!; [set_solver|done|].
      intros m [?| ->%list_elem_of_singleton]%elem_of_app ?; [by apply IH|done].
    + intros m [?| ->%list_elem_of_singleton]%elem_of_app; [by apply IH|done].
Qed.

Lemma next_ready_spec st :
  topo_inv st →
  match next_ready set st with
  | (n, true) => least_ready (ts_order st) n
  | (_, false) => ∀ m, ¬ ready (ts_order st) m
  end.
Proof.
  intros Hi. pose proof (next_ready_fold st (range_keys set) Hi) as H.
  specialize (H (λ n, proj1 (elem_of_range_keys n set))). unfold next_ready.
  destruct (foldl _ _ _) as [n []].
  - destruct H as (_ & Hr & H). split; [done|]. intros m Hm.
    apply H; [apply elem_of_range_keys, Hm|done].
  - intros m Hm. eapply H; [apply elem_of_range_keys, Hm|done].
Qed.

Lemma emit_inv dependents st n :
  (∀ d, default [] (dependents !! d) = filter (λ m, d ∈ edges deps m) (range_keys set)) →
  topo_inv st → least_ready (ts_order st) n → topo_inv (emit dependents st n).
Proof.
  intros Hde Hi Hn. assert (n ∉ ts_order st) as Hno by apply Hn. split; simpl.
  - apply greedy_snoc; [by apply inv_greedy|done].
  - intros m. rewrite elem_of_app, list_elem_of_singleton, elem_of_union, elem_of_singleton,
      (inv_emitted st Hi). tauto.
  - intros m Hm. rewrite Hde, decrement_spec by apply NoDup_filter, NoDup_range_keys.
    rewrite (inv_remaining st Hi) by done. rewrite length_filter_snoc by (done || apply NoDup_uniq).
    f_equal. apply decide_ext. rewrite list_elem_of_filter, elem_of_range_keys, elem_of_uniq. tauto.
Qed.
End order.

(** ** The reported cycle *)
Section cycle.
Context {R : RangeOrder}.
Context (set emitted : gset string) (deps : gmap string (list string)).

Definition chain (l : list string) : Prop :=
  ∀ i a b, l !! i = Some a → l !! S i = Some b → b ∈ edges deps a.

(** A closed path along dependency edges. *)
Definition is_cycle (c : list string) : Prop :=
  chain c ∧ ∃ n l, c = n :: l ++ [n].

Lemma chain_snoc l n :
  chain l → (∀ a, last l = Some a → n ∈ edges deps a) → chain (l ++ [n]).
Proof.
  intros Hl Hn i a b Ha Hb. destruct (decide (S i < length l)) as [Hi|Hi].
  - rewrite lookup_app_l in Ha, Hb by lia. by eapply Hl.
  - pose proof (lookup_lt_Some _ _ _ Hb) as Hlt. rewrite length_app in Hlt. simpl in Hlt.
    rewrite lookup_app_l in Ha by lia. rewrite lookup_app_r in Hb by lia.
    replace (S i - length l) with 0 in Hb by lia. simplify_eq/=. apply Hn.
    rewrite last_lookup. by replace (pred (length l)) with i by lia.
Qed.

Lemma chain_drop l i : chain l → chain (drop i l).
Proof.
  intros Hl j a b. rewrite !lookup_drop. rewrite Nat.add_succ_r. apply Hl.
Qed.

(** The nodes after the first of a chain come before it in an order that has
    dependencies first. *)
Lemma chain_before l1 a l2 c :
  (∀ k1 n k2 d, l1 ++ a :: l2 = k1 ++ n :: k2 → d ∈ edges deps n → d ∈ k1) →
  chain (a :: c) → ∀ b, b ∈ c → b ∈ l1.
Proof.
  revert l1 a l2. induction c as [|d c IH]; intros l1 a l2 H Hc b Hb; [set_solver|].
  assert (d ∈ l1) as Hd by (eapply H; [done|]; by apply (Hc 0)).
  apply elem_of_cons in Hb as [->|Hb]; [done|].
  apply list_elem_of_split in Hd as (k1 & k2 & ->).
  apply elem_of_app. left. apply (IH k1 d (k2 ++ a :: l2)); [|by intros i; apply (Hc (S i))|done].
  intros j1 n j2 e E. apply (H j1 n j2 e). by rewrite <-E, <-(assoc (++)).
Qed.

Lemma cycle_not_ordered c l :
  is_cycle c →
  (∀ k1 n k2 d, l = k1 ++ n :: k2 → d ∈ edges deps n → d ∈ k1) → NoDup l →
  ∀ n, head c = Some n → n ∉ l.
Proof.
  intros [Hc (n & c' & ->)] H Hnd m [= <-] (l1 & l2 & ->)%list_elem_of_split.
  apply NoDup_app in Hnd as (_ & Hnd & _). apply (Hnd n); [|set_solver].
  eapply chain_before; [exact H|exact Hc|set_solver].
Qed.

Definition unemitted (n : string) : Prop := n ∈ set ∧ n ∉ emitted.

Record wf_walk (st : walk_state) : Prop := {
  wf_NoDup : NoDup (path st);
  wf_path n : n ∈ path st → unemitted n;
  wf_onPath n i : onPath st !! n = Some i ↔ path st !! i = Some n;
  wf_chain : chain (path st);
}.

Lemma wf_onPath_None st n : wf_walk st → n ∉ path st → onPath st !! n = None.
Proof.
  intros Hw Hn. apply eq_None_not_Some. intros [i Hi]. apply Hn.
  apply (wf_onPath st Hw) in Hi. by eapply list_elem_of_lookup_2.
Qed.

Lemma wf_walk_empty : wf_walk (mkWalk ∅ []).
Proof.
  split; simpl; [constructor|set_solver| |done].
  intros n i. by rewrite lookup_empty.
Qed.

Lemma wf_walk_push st n :
  wf_walk st → unemitted n → n ∉ path st →
  (∀ a, last (path st) = Some a → n ∈ edges deps a) →
  wf_walk (mkWalk (<[n := length (path st)]> (onPath st)) (path st ++ [n])).
Proof.
  intros Hw Hu Hn Hl. split; simpl.
  - apply NoDup_app. split_and!; [by apply wf_NoDup| |apply NoDup_singleton]. set_solver.
  - intros m [?| ->%list_elem_of_singleton]%elem_of_app; [by apply (wf_path st)|done].
  - intros m i. destruct (decide (m = n)) as [->|Hmn].
    + rewrite lookup_insert_eq. split; [intros [= <-]; by rewrite lookup_app_r, Nat.sub_diag by lia|].
      rewrite lookup_app_Some. intros [Hi|[Hi1 Hi2]].
      * by destruct Hn; eapply list_elem_of_lookup_2.
      * apply list_lookup_singleton_Some in Hi2 as [? _]. f_equal. lia.
    + rewrite lookup_insert_ne by done. rewrite (wf_onPath st Hw), lookup_app_Some.
      split; [auto|]. intros [?|[_ [_ ?]%list_lookup_singleton_Some]]; [done|congruence].
  - apply chain_snoc; [by apply wf_chain|done].
Qed.

Lemma walk_emitted fuel n st :
  wf_walk st → n ∈ emitted → walk fuel set emitted deps n st = (NoCycle, st).
Proof.
  intros Hw Hn. assert (onPath st !! n = None) as Hp.
  { apply wf_onPath_None; [done|]. intros Hin. by destruct (wf_path st Hw n Hin). }
  destruct fuel; simpl; by rewrite Hp, decide_True.
Qed.

(** A node left over has a dependency that is left over. *)
Definition stuck : Prop :=
  ∀ n, unemitted n → ∃ d, d ∈ edges deps n ∧ unemitted d.

Lemma walk_nbrs_found w nbrs st :
  (∀ d, d ∈ emitted → w d st = (NoCycle, st)) →
  (∀ d, d ∈ nbrs → unemitted d → ∃ c st', w d st = (Found c, st') ∧ is_cycle c) →
  (∃ d, d ∈ nbrs ∧ unemitted d) →
  ∃ c st', walk_nbrs w set nbrs st = (Found c, st') ∧ is_cycle c.
Proof.
  intros Hem Hf. induction nbrs as [|a nbrs IH]; intros (d & Hd & Hu); simpl; [set_solver|].
  destruct (decide (a ∈ set)) as [Ha|Ha]; [destruct (decide (a ∈ emitted)) as [He|He]|].
  - rewrite Hem by done. apply IH; [intros; apply Hf; set_solver|].
    exists d. split; [|done]. apply elem_of_cons in Hd as [->|?]; [by destruct Hu|done].
  - destruct (Hf a) as (c & st' & -> & ?); [set_solver|done|]. eauto.
  - apply IH; [intros; apply Hf; set_solver|].
    exists d. split; [|done]. apply elem_of_cons in Hd as [->|?]; [by destruct Hu|done].
Qed.

Lemma walk_found fuel n st :
  stuck → wf_walk st → unemitted n →
  (∀ a, last (path st) = Some a → n ∈ edges deps a) →
  size set ≤ length (path st) + fuel →
  ∃ c st', walk fuel set emitted deps n st = (Found c, st') ∧ is_cycle c.
Proof.
  intros Hst. revert n st. induction fuel as [|fuel IH]; intros n st Hw Hu Hl Hf.
  all: destruct (onPath st !! n) as [i|] eqn:Hp;
    [eexists _, _; simpl; rewrite Hp; split; [reflexivity|]; apply (wf_onPath st Hw) in Hp; split;
     [|exists n, (drop (S i) (path st)); by rewrite (drop_S _ n i)]; 
     pose proof (lookup_lt_Some _ _ _ Hp);
     rewrite <-drop_app_le by lia; apply chain_drop, chain_snoc; [by apply wf_chain|done]|].
  all: assert (n ∉ path st) as Hn by
    (intros [i Hi]%list_elem_of_lookup_1; apply (wf_onPath st Hw) in Hi; congruence).
  - exfalso. pose proof (size_order set (n :: path st)) as Hs. simpl in Hs.
    assert (S (length (path st)) ≤ size set); [|lia]. apply Hs.
    + constructor; [done|by apply wf_NoDup].
    + intros m [->|Hm]%elem_of_cons; [by apply Hu|by apply (wf_path st)].
  - assert (Hw' := wf_walk_push st n Hw Hu Hn Hl). simpl. rewrite Hp.
    rewrite decide_False by apply Hu.
    edestruct (walk_nbrs_found (walk fuel set emitted deps) (sort_strings (edges deps n)))
      as (c & st' & -> & Hc).
    + intros d Hd. by apply walk_emitted.
    + intros d Hd Hud. apply IH; [done..| |].
      * simpl. rewrite last_snoc. intros a [= <-]. by apply elem_of_sort_strings.
      * simpl. rewrite length_app. simpl. lia.
    + destruct (Hst n Hu) as (d & Hd & Hud). exists d. by rewrite elem_of_sort_strings.
    + eauto.
Qed.

Lemma cycleError_cycle :
  stuck → (∃ n, unemitted n) → ∃ c, cycleError set emitted deps = ErrCycle c ∧ is_cycle c.
Proof.
  intros Hst [n0 Hn0]. unfold cycleError.
  assert (∀ n, n ∈ sort_strings (filter (λ n, n ∉ emitted) (range_keys set)) ↔ unemitted n) as Hr.
  { intros n. rewrite elem_of_sort_strings, list_elem_of_filter, elem_of_range_keys.
    unfold unemitted. tauto. }
  destruct (sort_strings _) as [|n l] eqn:E; [apply Hr in Hn0; set_solver|]. simpl.
  destruct (walk_found (size set) n (mkWalk ∅ [])) as (c & st' & -> & Hc); try done.
  - apply wf_walk_empty.
  - apply Hr. set_solver.
  - eauto.
Qed.
End cycle.

(** ** [TopoSort] *)
Section topo_theorems.
Context {R : RangeOrder}.
Implicit Types (deps : gmap string (list string)).

(** What the loop returns from a state of its invariant. *)
Lemma topo_loop_spec fuel set deps dependents st :
  (∀ n d, d ∈ edges deps n → d ∈ set) →
  (∀ d, default [] (dependents !! d) = filter (λ m, d ∈ edges deps m) (range_keys set)) →
  topo_inv set deps st → size set ≤ length (ts_order st) + fuel →
  match topo_loop fuel set deps dependents st with
  | Ok order => greedy set deps order ∧ order ≡ₚ elements set
  | Err e => (∃ l, greedy set deps l ∧ length l < size set ∧ (∀ n, ¬ ready set deps l n) ∧
                   e = cycleError set (list_to_set l) deps) ∧
             ∃ c, e = ErrCycle c ∧ is_cycle deps c
  end.
Proof.
  intros Hcl Hde. revert st. induction fuel as [|fuel IH]; intros st Hi Hf.
  all: simpl; case_decide as Hlt; [|split; [by apply inv_greedy|];
    apply full_order; [by eapply greedy_NoDup, inv_greedy|by eapply greedy_subset, inv_greedy|done]].
  - lia.
  - pose proof (next_ready_spec set deps st Hi) as Hn.
    destruct (next_ready set st) as [n []].
    + apply IH; [by apply emit_inv|]. simpl. rewrite length_app. simpl. lia.
    + assert (ts_emitted st = list_to_set (ts_order st)) as ->.
      { apply set_eq. intros x. by rewrite (inv_emitted _ _ _ Hi), elem_of_list_to_set. }
      split; [exists (ts_order st); split_and!; try done; by apply inv_greedy|].
      apply cycleError_cycle.
      * intros m [Hm Hno]. rewrite elem_of_list_to_set in Hno.
        destruct (decide (Exists (λ d, d ∉ ts_order st) (edges deps m))) as [He|He].
        -- apply Exists_exists in He as (d & Hd & Hdn). exists d. split; [done|].
           split; [by eapply Hcl|by rewrite elem_of_list_to_set].
        -- exfalso. apply (Hn m). split_and!; [done..|]. intros d Hd. apply dec_stable.
           intros Hdn. apply He, Exists_exists. eauto.
      * destruct (decide (Exists (λ n, n ∉ ts_order st) (elements set))) as [He|He].
        -- apply Exists_exists in He as (m & Hm%elem_of_elements & Hmn). exists m.
           split; [done|by rewrite elem_of_list_to_set].
        -- exfalso. apply Nat.lt_nge in Hlt. apply Hlt.
           change (size set) with (length (elements set)). apply submseteq_length, NoDup_submseteq;
             [apply NoDup_elements|].
           intros x Hx. apply dec_stable. intros Hxn. apply He, Exists_exists. eauto.
Qed.

(** The initial state. *)
Lemma TopoSort_spec nodes deps :
  let set := nodeSet nodes deps in
  match TopoSort nodes deps with
  | Ok order => greedy set deps order ∧ order ≡ₚ elements set
  | Err e => (∃ l, greedy set deps l ∧ length l < size set ∧ (∀ n, ¬ ready set deps l n) ∧
                   e = cycleError set (list_to_set l) deps) ∧
             ∃ c, e = ErrCycle c ∧ is_cycle deps c
  end.
Proof.
  intros set. unfold TopoSort. fold set.
  destruct (count_all deps set) as [r de] eqn:E.
  destruct (count_all_spec deps (range_keys set) r de) as [H1 H2];
    [apply NoDup_range_keys|done|].
  apply topo_loop_spec; [|done| |done].
  - intros n d Hd. by eapply nodeSet_closed.
  - split; simpl.
    + apply greedy_nil.
    + set_solver.
    + intros n Hn. rewrite H1, decide_True by by rewrite elem_of_range_keys.
      do 2 f_equal. symmetry. apply filter_id. set_solver.
Qed.
End topo_theorems.

(** An order that cannot be extended is the longest. *)
Lemma greedy_maximal set deps l k :
  greedy set deps l → greedy set deps k → (∀ n, ¬ ready set deps l n) → k `prefix_of` l.
Proof.
  intros Hl Hk Hr. destruct (greedy_prefix _ _ _ _ Hl Hk) as [[[|m k'] ->]|?]; [|exfalso|done].
  - by rewrite app_nil_r.
  - destruct (Hk l m k' eq_refl) as [? _]. by eapply Hr.
Qed.

Lemma greedy_total set deps l k :
  greedy set deps l → length l < size set → (∀ n, ¬ ready set deps l n) →
  greedy set deps k → k ≡ₚ elements set → False.
Proof.
  intros Hl Hlen Hr Hk Hp. apply Permutation_length in Hp.
  apply (greedy_maximal _ _ _ k), prefix_length in Hl; [|done..].
  change (size set) with (length (elements set)) in Hlen. lia.
Qed.

Lemma nodeSet_order (R1 R2 : RangeOrder) nodes deps :
  @nodeSet R1 nodes deps = @nodeSet R2 nodes deps.
Proof. apply set_eq. intros x. by rewrite !elem_of_nodeSet. Qed.

Lemma cycleError_order (R1 R2 : RangeOrder) set emitted deps :
  @cycleError R1 set emitted deps = @cycleError R2 set emitted deps.
Proof.
  unfold cycleError.
  by rewrite (sort_strings_Proper _ (filter (λ n, n ∉ emitted) (@range_keys R2 set)))
    by by rewrite !range_keys_perm.
Qed.

(** A complete order with dependencies first leaves no room for a cycle. *)
Lemma order_acyclic set deps order :
  (∀ n d, d ∈ edges deps n → n ∈ set) → greedy set deps order → order ≡ₚ elements set →
  ¬ (∃ c, is_cycle deps c).
Proof.
  intros Hset Hg Hp [c Hc]. pose proof Hc as [Hch (n & l & ->)].
  eapply (cycle_not_ordered deps _ order); [done| |by eapply greedy_NoDup|reflexivity|].
  - intros. by eapply greedy_deps.
  - rewrite Hp, elem_of_elements.
    destruct (l ++ [n]) as [|m l'] eqn:E; [by destruct l|].
    apply (Hset n m). by apply (Hch 0).
Qed.

Lemma nodeSet_keys `{R : RangeOrder} nodes deps n d : d ∈ edges deps n → n ∈ nodeSet nodes deps.
Proof.
  intros (ds & Hm & _)%elem_of_edges. apply elem_of_nodeSet. right. left. by apply elem_of_dom.
Qed.

(** C22. [TopoSort] succeeds exactly on graphs without a dependency cycle. Its order then
    holds every node of the set (the listed ones and those only named as dependencies)
    once, each after its dependencies; otherwise the error names a closed path of
    dependency edges, and the loop and the search end within their bounds. *)
Theorem TopoSort_correct `{R : RangeOrder} nodes deps :
  match TopoSort nodes deps with
  | Ok order =>
      NoDup order ∧
      (∀ n, n ∈ order ↔ n ∈ nodes ∨ n ∈ dom deps ∨ ∃ m, n ∈ edges deps m) ∧
      (∀ l1 n l2 d, order = l1 ++ n :: l2 → d ∈ edges deps n → d ∈ l1) ∧
      ¬ (∃ c, is_cycle deps c)
  | Err e => ∃ c, e = ErrCycle c ∧ is_cycle deps c
  end.
Proof.
  pose proof (TopoSort_spec nodes deps) as H. simpl in H.
  destruct (TopoSort nodes deps) as [order|e]; [|apply H]. destruct H as [Hg Hp].
  pose proof (greedy_NoDup _ _ _ Hg) as Hnd. split_and!; [done| | |].
  - intros n. by rewrite Hp, elem_of_elements, elem_of_nodeSet.
  - intros. by eapply greedy_deps.
  - eapply order_acyclic; [|done|done]. intros. by eapply nodeSet_keys.
Qed.

(** The order is deterministic: whatever the iteration order of the Go maps,
    [TopoSort] returns the same order or the same error, and every node it emits is the
    smallest name among those whose dependencies are all emitted. *)
Theorem TopoSort_deterministic (R1 R2 : RangeOrder) nodes deps :
  @TopoSort R1 nodes deps = @TopoSort R2 nodes deps ∧
  ∀ order l1 n l2, @TopoSort R1 nodes deps = Ok order → order = l1 ++ n :: l2 →
    ∀ m, m ∈ order → m ∉ l1 → (∀ d, d ∈ edges deps m → d ∈ l1) → String.le n m.
Proof.
  pose proof (@TopoSort_spec R1 nodes deps) as H1. pose proof (@TopoSort_spec R2 nodes deps) as H2.
  simpl in H1, H2. rewrite (nodeSet_order R2 R1) in H2. split.
  - destruct (@TopoSort R1 nodes deps) as [o1|e1], (@TopoSort R2 nodes deps) as [o2|e2];
      destruct H1 as [H1 H1'], H2 as [H2 H2'].
    + f_equal. assert (length o1 = length o2) by by rewrite H1', H2'.
      destruct (greedy_prefix _ _ _ _ H1 H2) as [[k ->]|[k ->]];
        rewrite length_app in *; (destruct k; [by rewrite app_nil_r|simpl in *; lia]).
    + destruct H2 as (l & ? & ? & ? & _). by destruct (greedy_total (@nodeSet R1 nodes deps) deps l o1).
    + destruct H1 as (l & ? & ? & ? & _). by destruct (greedy_total (@nodeSet R1 nodes deps) deps l o2).
    + destruct H1 as (l & Hl & _ & Hlr & ->), H2 as (k & Hk & _ & Hkr & ->).
      rewrite (cycleError_order R1 R2). do 3 f_equal.
      apply (anti_symm prefix); by apply (greedy_maximal (@nodeSet R1 nodes deps) deps).
  - intros order l1 n l2 E Eo m Hm Hml Hd. rewrite E in H1. destruct H1 as [Hg _].
    destruct (Hg l1 n l2 Eo) as [_ Hle]. apply Hle. split_and!; [by eapply greedy_subset|done|done].
Qed.

(** ** The graph *)
Section graph.
Context {R : RangeOrder}.
Implicit Types (deps : gmap string (list string)).

Lemma add_edges_spec n l acc m x :
  (x ∈ default ∅ ((foldl (add_edge n) acc l).1 !! m) ↔
     x ∈ default ∅ (acc.1 !! m) ∨ (m = n ∧ x ∈ l ∧ x ≠ n)) ∧
  (x ∈ default ∅ ((foldl (add_edge n) acc l).2 !! m) ↔
     x ∈ default ∅ (acc.2 !! m) ∨ (x = n ∧ m ∈ l ∧ m ≠ n)).
Proof.
  revert acc. induction l as [|a l IH]; intros acc; simpl; [set_solver|].
  destruct (IH (add_edge n acc a)) as [-> ->]. unfold add_edge. case_decide as Ha; simpl.
  - set_solver.
  - split.
    + destruct (decide (m = n)) as [->|Hm]; [rewrite lookup_insert_eq; simpl; set_solver|].
      rewrite lookup_insert_ne by done. set_solver.
    + destruct (decide (m = a)) as [->|Hm]; [rewrite lookup_insert_eq; simpl; set_solver|].
      rewrite lookup_insert_ne by done. set_solver.
Qed.

Lemma all_edges_spec l acc m x :
  let r := foldl (λ acc nds, foldl (add_edge nds.1) acc nds.2) acc l in
  (x ∈ default ∅ (r.1 !! m) ↔
     x ∈ default ∅ (acc.1 !! m) ∨ ∃ ds, (m, ds) ∈ l ∧ x ∈ ds ∧ x ≠ m) ∧
  (x ∈ default ∅ (r.2 !! m) ↔
     x ∈ default ∅ (acc.2 !! m) ∨ ∃ ds, (x, ds) ∈ l ∧ m ∈ ds ∧ m ≠ x).
Proof.
  revert acc. induction l as [|[n ds] l IH]; intros acc; simpl; [set_solver|].
  destruct (IH (foldl (add_edge n) acc ds)) as [-> ->].
  destruct (add_edges_spec n ds acc m x) as [-> ->].
  split; set_solver.
Qed.

Lemma sortedKeys_spec (X : gset string) :
  StronglySorted String.le (sortedKeys X) ∧ NoDup (sortedKeys X) ∧ ∀ x, x ∈ sortedKeys X ↔ x ∈ X.
Proof.
  unfold sortedKeys. split_and!; [apply sort_strings_sorted|apply NoDup_sort_strings, NoDup_range_keys|].
  intros x. by rewrite elem_of_sort_strings, elem_of_range_keys.
Qed.

Lemma NewGraph_edges pkgs deps n :
  ∃ F B : gset string,
    Deps (NewGraph pkgs deps) n = sortedKeys F ∧ Dependents (NewGraph pkgs deps) n = sortedKeys B ∧
    (∀ d, d ∈ F ↔ d ∈ edges deps n ∧ d ≠ n) ∧ (∀ d, d ∈ B ↔ n ∈ edges deps d ∧ d ≠ n).
Proof.
  unfold Deps, Dependents, NewGraph.
  set (set := nodeSet pkgs deps). set (empty := foldl _ ∅ (range_keys set)).
  assert (∀ x m, x ∉ default ∅ (empty !! m)) as He.
  { intros x m. unfold empty. rewrite (lookup_fill (λ _, ∅)), lookup_empty.
    case_decide; simpl; set_solver. }
  pose proof (λ m x, all_edges_spec (range_map deps) (empty, empty) m x) as Hs. simpl in Hs.
  destruct (foldl _ (empty, empty) (range_map deps)) as [f b]. simpl in *.
  assert (Hf : ∀ d, d ∈ default ∅ (f !! n) ↔ d ∈ edges deps n ∧ d ≠ n).
  { intros d. rewrite (proj1 (Hs n d)), elem_of_edges. setoid_rewrite elem_of_range_map.
    specialize (He d n). naive_solver. }
  assert (Hb : ∀ d, d ∈ default ∅ (b !! n) ↔ n ∈ edges deps d ∧ d ≠ n).
  { intros d. rewrite (proj2 (Hs n d)), elem_of_edges. setoid_rewrite elem_of_range_map.
    specialize (He d n). naive_solver. }
  unfold edges at 1 2. rewrite (lookup_fill (λ n, sortedKeys (default ∅ (f !! n)))).
  rewrite (lookup_fill (λ n, sortedKeys (default ∅ (b !! n)))), lookup_empty.
  case_decide as Hn; simpl; [by exists (default ∅ (f !! n)), (default ∅ (b !! n))|].
  rewrite elem_of_range_keys in Hn. exists ∅, ∅.
  assert (sortedKeys ∅ = []) as -> by
    (unfold sortedKeys; by rewrite (sort_strings_Proper _ []) by by rewrite range_keys_perm, elements_empty).
  split_and!; try done.
  - intros d. split; [set_solver|]. intros [Hd _]. destruct Hn. apply elem_of_nodeSet.
    right. left. apply elem_of_edges in Hd as (ds & Hd & _). by apply elem_of_dom.
  - intros d. split; [set_solver|]. intros [Hd _]. destruct Hn. by eapply nodeSet_closed.
Qed.

(** The graph's forward and reverse edges are each other's converse: [d] is a
    dependency of [n] exactly when [n] is a dependent of [d], and exactly when [deps]
    lists it and it is not [n] itself; both lists are sorted and free of repetitions. *)
Theorem NewGraph_spec pkgs deps n d :
  let g := NewGraph pkgs deps in
  (d ∈ Deps g n ↔ d ∈ edges deps n ∧ d ≠ n) ∧
  (n ∈ Dependents g d ↔ d ∈ Deps g n) ∧
  StronglySorted String.le (Deps g n) ∧ NoDup (Deps g n) ∧
  StronglySorted String.le (Dependents g d) ∧ NoDup (Dependents g d) ∧
  (n ∈ Nodes g ↔ n ∈ pkgs ∨ n ∈ dom deps ∨ ∃ m, n ∈ edges deps m).
Proof.
  intros g. unfold g.
  destruct (NewGraph_edges pkgs deps n) as (F & B & EF & EB & HF & HB).
  destruct (NewGraph_edges pkgs deps d) as (F' & B' & EF' & EB' & HF' & HB').
  rewrite EF, EB'.
  destruct (sortedKeys_spec F) as (? & ? & SF), (sortedKeys_spec B') as (? & ? & SB).
  rewrite SF, SB, HF, HB'. split_and!; try done; [naive_solver|].
  rewrite <-elem_of_nodeSet. unfold Nodes, NewGraph.
  destruct (foldl _ _ (range_map deps)) as [f b]. simpl.
  by rewrite elem_of_sort_strings, elem_of_range_keys.
Qed.
End graph.
