(* ===== verification/Resolver.v ===== *)
(** * AUR dependency resolution (internal/pacman/depend/resolver.go)

    The depth-first search that turns dependency specs into the AUR package bases to
    build, dependencies first.  The repository and the AUR are the interfaces
    [RepoChecker] and [AURSource] of the code, here classes of functions; alpm's version
    comparison is a parameter. *)

From S2P Require Import Prelude GoStrings Constraint.

Record Package := mkPackage {
  p_Name : string;
  p_PackageBase : string;
  p_Version : string;
  p_Provides : list string;
  p_Deps : list string;
}.

(** A failed call reports its message. *)
Class RepoChecker := { Unsatisfied : list string → result string (list string) }.
Class AURSource := {
  Info : list string → result string (list Package);
  ProvidedBy : string → result string (option Package);
}.

(** white is the absence of the key. *)
Inductive color := gray | black.

#[export] Instance color_eq_dec : EqDecision color.
Proof. solve_decision. Defined.

Record resolver := mkResolver { r_color : gmap string color; r_order : list Package }.

Section resolver.
Context (vercmp : string → string → Z) {repo : RepoChecker} {aur : AURSource}.

(** [checkProvides]. *)
Fixpoint check_provides_loop (c : Constraint) (l : list string) (base : string)
    : result depend_error unit :=
  match l with
  | [] => Err (ErrProvides c base)
  | pv :: l =>
      let pc := Parse pv in
      if decide (cn_Name pc ≠ cn_Name c ∨ cn_Op pc = OpAny) then check_provides_loop c l base
      else match Satisfies vercmp c (cn_Ver pc) with
           | Err e => Err e
           | Ok true => Ok tt
           | Ok false => check_provides_loop c l base
           end
  end.

Definition checkProvides (c : Constraint) (p : Package) : result depend_error unit :=
  if decide (cn_Op c = OpAny) then Ok tt
  else check_provides_loop c (p_Provides p) (p_PackageBase p).

(** [resolveSpec]: the packages named [c.Name] first. *)
Fixpoint resolve_named (c : Constraint) (spec : string) (pkgs : list Package)
    : result depend_error (option Package) :=
  match pkgs with
  | [] => Ok None
  | p :: pkgs =>
      if decide (p_Name p ≠ cn_Name c) then resolve_named c spec pkgs
      else match Satisfies vercmp c (p_Version p) with
           | Err e => Err e
           | Ok true => Ok (Some p)
           | Ok false => Err (ErrUnsatisfied (p_Name p) (p_Version p) spec)
           end
  end.

Definition resolveSpec (spec : string) : result depend_error (option Package) :=
  let c := Parse spec in
  pkgs ← map_err ErrCall (Info [cn_Name c]);
  named ← resolve_named c spec pkgs;
  match named with
  | Some p => Ok (Some p)
  | None =>
      p ← map_err ErrCall (ProvidedBy (cn_Name c));
      match p with
      | Some p => _ ← checkProvides c p; Ok (Some p)
      | None => Ok None
      end
  end.

(** The loops of [Resolve] and [visit] over the missing specs. *)
Definition visit_spec (visit : Package → resolver → result depend_error resolver)
    (r : resolver) (spec : string) : result depend_error resolver :=
  d ← resolveSpec spec;
  match d with Some d => visit d r | None => Ok r end.

Fixpoint visit (fuel : nat) (p : Package) (r : resolver) : result depend_error resolver :=
  match r_color r !! p_PackageBase p with
  | Some black => Ok r
  | Some gray => Err (ErrDependsCycle (p_PackageBase p))
  | None =>
      match fuel with
      | O => Err ErrFuel
      | S fuel =>
          let r := mkResolver (<[p_PackageBase p := gray]> (r_color r)) (r_order r) in
          missing ← map_err ErrCall (Unsatisfied (p_Deps p));
          r ← foldM (visit_spec (visit fuel)) r missing;
          Ok (mkResolver (<[p_PackageBase p := black]> (r_color r)) (r_order r ++ [p]))
      end
  end.

Definition Resolve (fuel : nat) (rootDeps : list string) : result depend_error (list Package) :=
  missing ← map_err ErrCall (Unsatisfied rootDeps);
  r ← foldM (visit_spec (visit fuel)) (mkResolver ∅ []) missing;
  Ok (r_order r).

(** ** Specification *)

(** [d] is what a missing spec of [deps] resolves to. *)
Definition needs (deps : list string) (d : Package) : Prop :=
  ∃ missing spec, Unsatisfied deps = Ok missing ∧ spec ∈ missing ∧
    resolveSpec spec = Ok (Some d).

(** The packages the search may visit. *)
Inductive needed (roots : list string) : Package → Prop :=
| needed_root d : needs roots d → needed roots d
| needed_dep p d : needed roots p → needs (p_Deps p) d → needed roots d.

Definition bases (l : list Package) : list string := map p_PackageBase l.

Lemma visit_spec_Ok v r spec r' :
  visit_spec v r spec = Ok r' ↔
  (resolveSpec spec = Ok None ∧ r' = r) ∨ ∃ d, resolveSpec spec = Ok (Some d) ∧ v d r = Ok r'.
Proof.
  unfold visit_spec. destruct (resolveSpec spec) as [[d|]|]; simpl; naive_solver.
Qed.

Definition step (p d : Package) : Prop := needs (p_Deps p) d.

(** [path] is the stack of the packages being visited. *)
Record dfs_inv (roots : list string) (path : list Package) (r : resolver) : Prop := {
  inv_NoDup : NoDup (bases (r_order r));
  inv_black b : r_color r !! b = Some black ↔ b ∈ bases (r_order r);
  inv_gray b : r_color r !! b = Some gray ↔ b ∈ bases path;
  inv_deps l1 p l2 d : r_order r = l1 ++ p :: l2 → step p d → p_PackageBase d ∈ bases l1;
  inv_needed p : p ∈ r_order r → needed roots p;
}.

Lemma dfs_inv_empty roots : dfs_inv roots [] (mkResolver ∅ []).
Proof.
  split; simpl.
  - constructor.
  - intros b. rewrite lookup_empty. set_solver.
  - intros b. rewrite lookup_empty. set_solver.
  - intros l1 p l2 d E. by destruct l1.
  - set_solver.
Qed.

Lemma dfs_inv_push roots path r p :
  dfs_inv roots path r → r_color r !! p_PackageBase p = None →
  dfs_inv roots (p :: path) (mkResolver (<[p_PackageBase p := gray]> (r_color r)) (r_order r)).
Proof.
  intros [Hnd Hb Hg Hd Hn] Hc. split; simpl; try done.
  - intros b. rewrite lookup_insert_Some, Hb. split; [naive_solver|].
    intros Hin. right. split; [|done]. intros <-. apply Hb in Hin. congruence.
  - intros b. rewrite lookup_insert_Some, Hg, elem_of_cons. split; [naive_solver|].
    destruct (decide (p_PackageBase p = b)); naive_solver.
Qed.

Lemma bases_app (l k : list Package) : bases (l ++ k) = bases l ++ bases k.
Proof. apply map_app. Qed.

Lemma dfs_inv_pop roots path r p :
  dfs_inv roots (p :: path) r → p_PackageBase p ∉ bases path → needed roots p →
  (∀ d, step p d → p_PackageBase d ∈ bases (r_order r)) →
  dfs_inv roots path (mkResolver (<[p_PackageBase p := black]> (r_color r)) (r_order r ++ [p])).
Proof.
  intros [Hnd Hb Hg Hd Hn] Hpath Hne Hdeps.
  assert (p_PackageBase p ∉ bases (r_order r)) as Hno.
  { intros Hin%Hb. assert (r_color r !! p_PackageBase p = Some gray) by (apply Hg; set_solver).
    congruence. }
  split; simpl.
  - rewrite bases_app. simpl. apply NoDup_app. split_and!; [done| |apply NoDup_singleton]. set_solver.
  - intros b. rewrite bases_app, elem_of_app, lookup_insert_Some, Hb. simpl.
    rewrite list_elem_of_singleton. split; [naive_solver|].
    destruct (decide (p_PackageBase p = b)); naive_solver.
  - intros b. rewrite lookup_insert_Some, Hg. simpl. rewrite elem_of_cons. split; [naive_solver|].
    intros Hin. right. split; [|auto]. intros <-. done.
  - intros l1 q l2 d E Hs. destruct l2 as [|q' l2 _] using rev_ind.
    + apply app_inj_tail in E as [<- <-]. by apply Hdeps.
    + rewrite app_comm_cons, (assoc (++)) in E. apply app_inj_tail in E as [E _]. by eapply Hd.
  - intros q [?| ->%list_elem_of_singleton]%elem_of_app; auto.
Qed.

Lemma bases_prefix b (l k : list Package) : l `prefix_of` k → b ∈ bases l → b ∈ bases k.
Proof. intros [k' ->]. rewrite bases_app. set_solver. Qed.

(** What one visit promises to its caller. *)
Definition visit_ok (roots : list string) (v : Package → resolver → result depend_error resolver)
    (path : list Package) : Prop :=
  ∀ p r r', dfs_inv roots path r → needed roots p → v p r = Ok r' →
    dfs_inv roots path r' ∧ r_order r `prefix_of` r_order r' ∧
    p_PackageBase p ∈ bases (r_order r').

Lemma visit_specs_ok roots v path missing r r' :
  visit_ok roots v path → dfs_inv roots path r →
  (∀ spec d, spec ∈ missing → resolveSpec spec = Ok (Some d) → needed roots d) →
  foldM (visit_spec v) r missing = Ok r' →
  dfs_inv roots path r' ∧ r_order r `prefix_of` r_order r' ∧
  ∀ spec d, spec ∈ missing → resolveSpec spec = Ok (Some d) →
    p_PackageBase d ∈ bases (r_order r').
Proof.
  intros Hv. revert r. induction missing as [|spec missing IH]; intros r Hi Hn H; simpl in H.
  - simplify_eq. split_and!; [done..|set_solver].
  - destruct (visit_spec v r spec) as [r1|] eqn:E; [|done].
    apply visit_spec_Ok in E as [[Hs ->]|(d & Hs & Hd)].
    + destruct (IH r Hi) as (? & ? & IH'); [set_solver|done|]. split_and!; [done..|].
      intros spec' d [->|]%elem_of_cons ?; [congruence|eauto].
    + destruct (Hv d r r1 Hi) as (Hi1 & Hp1 & Hb1); [eapply Hn; [|exact Hs]; set_solver|done|].
      destruct (IH r1 Hi1) as (? & ? & IH'); [set_solver|done|]. split_and!; [done|by transitivity (r_order r1)|].
      intros spec' d' [->|]%elem_of_cons Hs'; [|eauto]. rewrite Hs in Hs'. injection Hs' as <-.
      by eapply bases_prefix.
Qed.

Lemma visit_visit_ok roots fuel path : visit_ok roots (visit fuel) path.
Proof.
  revert path. induction fuel as [|fuel IH]; intros path p r r' Hi Hne H; simpl in H;
    destruct (r_color r !! p_PackageBase p) as [[]|] eqn:Hc; try done; simplify_eq.
  - split_and!; [done..|]. by apply (inv_black _ _ _ Hi).
  - split_and!; [done..|]. by apply (inv_black _ _ _ Hi).
  - destruct (Unsatisfied (p_Deps p)) as [missing|] eqn:Hu; [|done]. simpl in H. simplify_result.
    assert (p_PackageBase p ∉ bases path) as Hpath.
    { rewrite <-(inv_gray _ _ _ Hi). congruence. }
    edestruct (visit_specs_ok roots (visit fuel) (p :: path)) as (Hi' & Hp' & Hd');
      [apply IH|by apply dfs_inv_push| |done|].
    { intros spec d ??. eapply needed_dep; [done|]. exists missing, spec. done. }
    simpl in *. split_and!.
    + apply dfs_inv_pop; [done..|]. intros d (m & spec & Hm & ? & ?). rewrite Hu in Hm.
      injection Hm as <-. by eapply Hd'.
    + by apply prefix_app_r.
    + rewrite bases_app. set_solver.
Qed.

(** ** Errors *)

(** Errors of the search itself; the others come from a call or a constraint. *)
Definition search_error (e : depend_error) : bool :=
  match e with ErrFuel | ErrDependsCycle _ => true | _ => false end.

Lemma Satisfies_err c v e : Satisfies vercmp c v = Err e → search_error e = false.
Proof. unfold Satisfies. repeat case_decide; naive_solver. Qed.

Lemma resolveSpec_err spec e : resolveSpec spec = Err e → search_error e = false.
Proof.
  unfold resolveSpec. destruct (Info _) as [pkgs|]; simpl; [|naive_solver].
  assert (∀ e, resolve_named (Parse spec) spec pkgs = Err e → search_error e = false) as Hn.
  { intros e'. induction pkgs as [|p pkgs IH]; simpl; [done|]. case_decide; [done|].
    destruct (Satisfies _ _ _) as [[]|] eqn:E; [naive_solver..|].
    intros [= <-]. by eapply Satisfies_err. }
  destruct (resolve_named _ _ _) as [[p|]|e']; simpl; [done| |naive_solver].
  destruct (ProvidedBy _) as [[p|]|]; simpl; [|naive_solver..].
  unfold checkProvides. case_decide; [done|].
  assert (∀ l e, check_provides_loop (Parse spec) l (p_PackageBase p) = Err e → search_error e = false) as Hc.
  { intros l. induction l as [|pv l IH]; intros e'; simpl; [naive_solver|]. case_decide; [auto|].
    destruct (Satisfies _ _ _) as [[]|] eqn:E; [naive_solver..|].
    intros [= <-]. by eapply Satisfies_err. }
  destruct (check_provides_loop _ _ _) eqn:E; simpl; naive_solver.
Qed.

(** The stack leads to the package about to be visited, and its bases are distinct. *)
Record stack_ok (B : gset string) (roots : list string) (path : list Package) (p : Package) : Prop := {
  stack_reach q : q ∈ path → tc step q p;
  stack_needed q : q ∈ path → needed roots q;
  stack_NoDup : NoDup (bases path);
  stack_bound b : b ∈ bases path → b ∈ B;
}.

Definition base_cycle (roots : list string) (b : string) : Prop :=
  ∃ p d, needed roots p ∧ tc step p d ∧ p_PackageBase p = b ∧ p_PackageBase d = b.

Definition error_ok (roots : list string) (e : depend_error) : Prop :=
  match e with
  | ErrFuel => False
  | ErrDependsCycle b => base_cycle roots b
  | _ => True
  end.

Lemma error_ok_other roots e : search_error e = false → error_ok roots e.
Proof. by destruct e. Qed.

Lemma visit_specs_err roots v path missing r e :
  visit_ok roots v path → dfs_inv roots path r →
  (∀ spec d, spec ∈ missing → resolveSpec spec = Ok (Some d) → needed roots d) →
  (∀ spec d r e, spec ∈ missing → resolveSpec spec = Ok (Some d) → dfs_inv roots path r →
     v d r = Err e → error_ok roots e) →
  foldM (visit_spec v) r missing = Err e → error_ok roots e.
Proof.
  intros Hv. revert r. induction missing as [|spec missing IH]; intros r Hi Hn He H; simpl in H; [done|].
  destruct (visit_spec v r spec) as [r1|e1] eqn:E.
  - apply (IH r1); [|set_solver..|done].
    apply visit_spec_Ok in E as [[Hs ->]|(d & Hs & Hd)]; [done|].
    apply (Hv d r r1); [done|eapply Hn; [|exact Hs]; set_solver|done].
  - simplify_eq. unfold visit_spec in E. destruct (resolveSpec spec) as [[d|]|e1] eqn:Hs; simpl in E; [|done|].
    + eapply He; [|exact Hs|done|done]. set_solver.
    + simplify_eq. apply error_ok_other. by eapply resolveSpec_err.
Qed.

Lemma visit_err B roots fuel path p r e :
  (∀ d, needed roots d → p_PackageBase d ∈ B) →
  dfs_inv roots path r → stack_ok B roots path p → needed roots p →
  size B ≤ length path + fuel → visit fuel p r = Err e → error_ok roots e.
Proof.
  intros HB. revert path p r e. induction fuel as [|fuel IH]; intros path p r e Hi Hst Hne Hf H;
    simpl in H; destruct (r_color r !! p_PackageBase p) as [[]|] eqn:Hc; try done; simplify_eq.
  1, 3: apply (inv_gray _ _ _ Hi) in Hc; apply list_elem_of_fmap in Hc as (q & Hq & Hin);
    exists q, p; split_and!; [by eapply stack_needed|by eapply stack_reach|done|done].
  all: assert (p_PackageBase p ∉ bases path) as Hpath by
    (rewrite <-(inv_gray _ _ _ Hi); congruence).
  all: assert (Hnd : NoDup (bases (p :: path))) by (constructor; [done|by eapply stack_NoDup]).
  all: assert (Hb : ∀ b, b ∈ bases (p :: path) → b ∈ B) by
    (intros b [->|Hin]%elem_of_cons; [by apply HB|by eapply stack_bound]).
  - exfalso. assert (size (list_to_set (bases (p :: path)) : gset string) ≤ size B) as Hs.
    { apply subseteq_size. intros b. rewrite elem_of_list_to_set. auto. }
    rewrite size_list_to_set in Hs by done. unfold bases in Hs. simpl in Hs.
    rewrite length_map in Hs. lia.
  - destruct (Unsatisfied (p_Deps p)) as [missing|e'] eqn:Hu; simpl in H; [|by simplify_eq].
    destruct (foldM _ _ _) as [r'|e'] eqn:E; simpl in H; [done|]. simplify_eq.
    assert (Hstep : ∀ spec d, spec ∈ missing → resolveSpec spec = Ok (Some d) → step p d).
    { intros spec d ??. by exists missing, spec. }
    eapply (visit_specs_err roots (visit fuel) (p :: path)); [apply visit_visit_ok| | | |exact E].
    + by apply dfs_inv_push.
    + intros. eapply needed_dep; [done|]. by eapply Hstep.
    + intros spec d r' e' Hin Hs Hi' He. eapply (IH (p :: path)); [done| | | |done].
      * split; [|by intros q [->|Hq]%elem_of_cons; [|by eapply stack_needed]|done|done].
        intros q [->|Hq]%elem_of_cons; [by apply tc_once, (Hstep spec)|].
        eapply tc_r; [by eapply stack_reach|by eapply Hstep].
      * eapply needed_dep; [done|]. by eapply Hstep.
      * simpl. lia.
Qed.
End resolver.

(** What an order that is returned is, however deep the search was allowed to go. *)
Lemma Resolve_Ok vercmp {repo : RepoChecker} {aur : AURSource} fuel roots order :
  Resolve vercmp fuel roots = Ok order →
  NoDup (bases order) ∧
  (∀ d, needs vercmp roots d → p_PackageBase d ∈ bases order) ∧
  (∀ p, p ∈ order → needed vercmp roots p) ∧
  (∀ l1 p l2 d, order = l1 ++ p :: l2 → needs vercmp (p_Deps p) d → p_PackageBase d ∈ bases l1).
Proof.
  unfold Resolve. destruct (Unsatisfied roots) as [missing|] eqn:Hu; simpl; [|done].
  pose proof (dfs_inv_empty vercmp roots) as Hi.
  assert (Hn : ∀ spec d, spec ∈ missing → resolveSpec vercmp spec = Ok (Some d) → needed vercmp roots d).
  { intros spec d ??. apply needed_root. by exists missing, spec. }
  destruct (foldM _ _ _) as [r|e] eqn:E; simpl; [|done]. intros [= <-].
  eapply visit_specs_ok in E as (Hi' & _ & Hr); [|apply visit_visit_ok|done|done].
  split_and!; [by eapply inv_NoDup| |by eapply inv_needed|by eapply inv_deps].
  intros d (m & spec & Hm & ? & ?). rewrite Hu in Hm. injection Hm as <-. by eapply Hr.
Qed.

(** [Resolve], when the AUR packages it can reach have finitely many bases, ends
    within that many nested visits. On success every needed base is in the order exactly
    once, every package of the order is needed, and whatever a missing dependency of a
    package in the order resolves to has its base earlier; a cycle error names a base
    that a needed package depends on through its own base; every other error is a failed
    call or an unsatisfied constraint. *)
Theorem Resolve_correct vercmp {repo : RepoChecker} {aur : AURSource} (B : gset string) fuel roots :
  (∀ d, needed vercmp roots d → p_PackageBase d ∈ B) → size B ≤ fuel →
  match Resolve vercmp fuel roots with
  | Ok order =>
      NoDup (bases order) ∧
      (∀ d, needs vercmp roots d → p_PackageBase d ∈ bases order) ∧
      (∀ p, p ∈ order → needed vercmp roots p) ∧
      (∀ l1 p l2 d, order = l1 ++ p :: l2 → needs vercmp (p_Deps p) d →
         p_PackageBase d ∈ bases l1)
  | Err ErrFuel => False
  | Err (ErrDependsCycle b) =>
      ∃ p d, needed vercmp roots p ∧ tc (step vercmp) p d ∧
        p_PackageBase p = b ∧ p_PackageBase d = b
  | Err _ => True
  end.
Proof.
  intros HB Hf. destruct (Resolve vercmp fuel roots) as [order|e0] eqn:HR; [by eapply Resolve_Ok|].
  revert HR. unfold Resolve. destruct (Unsatisfied roots) as [missing|] eqn:Hu; simpl; [|by intros [= <-]].
  pose proof (dfs_inv_empty vercmp roots) as Hi.
  assert (Hn : ∀ spec d, spec ∈ missing → resolveSpec vercmp spec = Ok (Some d) → needed vercmp roots d).
  { intros spec d ??. apply needed_root. by exists missing, spec. }
  destruct (foldM _ _ _) as [r|e] eqn:E; simpl; [done|]. intros [= <-].
  eapply visit_specs_err in E; [by destruct e|apply visit_visit_ok|done|done|].
  intros spec d r' e' Hin Hs Hi' He. eapply (visit_err vercmp B roots fuel []); [done|done| |by eapply Hn|done|done].
  split; [set_solver..|constructor|set_solver].
Qed.

Lemma Satisfies_Parse vercmp spec v : ∃ b, Satisfies vercmp (Parse spec) v = Ok b.
Proof.
  destruct (Satisfies vercmp (Parse spec) v) eqn:E; [eauto|]. exfalso.
  pose proof (parse_ops_Op (trim_space spec) ops) as Hop. fold (Parse spec) in Hop.
  unfold ops in Hop. rewrite !elem_of_cons, elem_of_nil in Hop. unfold Satisfies in E.
  repeat case_decide; naive_solver.
Qed.

(** A provides entry that satisfies a versioned spec. *)
Definition provides (vercmp : string → string → Z) (c : Constraint) (pv : string) : Prop :=
  cn_Name (Parse pv) = cn_Name c ∧ cn_Op (Parse pv) ≠ OpAny ∧
  Satisfies vercmp c (cn_Ver (Parse pv)) = Ok true.

Lemma checkProvides_Ok vercmp spec p :
  let c := Parse spec in
  checkProvides vercmp c p = Ok tt ↔ cn_Op c = OpAny ∨ Exists (provides vercmp c) (p_Provides p).
Proof.
  intros c. unfold checkProvides. case_decide as Hop; [naive_solver|].
  induction (p_Provides p) as [|pv l IH]; simpl.
  - rewrite Exists_nil. naive_solver.
  - rewrite Exists_cons. unfold provides at 1. case_decide as Hd; [rewrite IH; naive_solver|].
    apply Decidable.not_or in Hd as [Hd%dec_stable ?].
    destruct (Satisfies_Parse vercmp spec (cn_Ver (Parse pv))) as [[] Hb]; fold c in Hb; rewrite Hb.
    + naive_solver.
    + rewrite IH. naive_solver.
Qed.

Lemma resolve_named_None vercmp c spec pkgs :
  resolve_named vercmp c spec pkgs = Ok None ↔ Forall (λ q, p_Name q ≠ cn_Name c) pkgs.
Proof.
  induction pkgs as [|p pkgs IH]; simpl; [done|]. rewrite Forall_cons. case_decide as Hd.
  - rewrite IH. naive_solver.
  - destruct (Satisfies _ _ _) as [[]|]; naive_solver.
Qed.

Lemma resolve_named_Some vercmp c spec pkgs p :
  resolve_named vercmp c spec pkgs = Ok (Some p) ↔
  (∃ l1 l2, pkgs = l1 ++ p :: l2 ∧ Forall (λ q, p_Name q ≠ cn_Name c) l1) ∧
  p_Name p = cn_Name c ∧ Satisfies vercmp c (p_Version p) = Ok true.
Proof.
  induction pkgs as [|a pkgs IH]; simpl.
  - split; [done|]. intros [(l1 & l2 & E & _) _]. by destruct l1.
  - case_decide as Hd.
    + rewrite IH. split.
      * intros [(l1 & l2 & -> & Hl) ?]. split; [|done]. exists (a :: l1), l2.
        by rewrite Forall_cons.
      * intros [(l1 & l2 & E & Hl) [Hp ?]]. split; [|done]. destruct l1 as [|b l1]; simplify_eq/=.
        apply Forall_cons in Hl as [_ Hl]. eauto.
    + assert (Hhd : (∃ l1 l2, a :: pkgs = l1 ++ p :: l2 ∧ Forall (λ q, p_Name q ≠ cn_Name c) l1) ↔ a = p).
      { split.
        - intros (l1 & l2 & E & Hl). destruct l1 as [|b l1]; simplify_eq/=; [done|].
          apply Forall_cons in Hl as [? _]. done.
        - intros ->. by exists [], pkgs. }
      rewrite Hhd. destruct (Satisfies vercmp c (p_Version a)) as [[]|] eqn:E; (split; [try done; intros [= ->] |intros (-> & ? & ?)]); try congruence; done.
Qed.

(** A spec resolves to the first AUR package of its name, whose version must satisfy
    it, and only when no package has the name to the AUR's provider, one of whose
    versioned provides entries must satisfy a versioned spec. *)
Theorem resolveSpec_spec vercmp {aur : AURSource} spec p :
  let c := Parse spec in
  resolveSpec vercmp spec = Ok (Some p) ↔
  ∃ pkgs, Info [cn_Name c] = Ok pkgs ∧
    ((∃ l1 l2, pkgs = l1 ++ p :: l2 ∧ Forall (λ q, p_Name q ≠ cn_Name c) l1) ∧
       p_Name p = cn_Name c ∧ Satisfies vercmp c (p_Version p) = Ok true ∨
     Forall (λ q, p_Name q ≠ cn_Name c) pkgs ∧ ProvidedBy (cn_Name c) = Ok (Some p) ∧
       (cn_Op c = OpAny ∨ Exists (provides vercmp c) (p_Provides p))).
Proof.
  intros c. unfold resolveSpec. fold c.
  destruct (Info [cn_Name c]) as [pkgs|]; simpl; [|naive_solver].
  pose proof (resolve_named_None vercmp c spec pkgs) as HN.
  pose proof (λ q, resolve_named_Some vercmp c spec pkgs q) as HS.
  destruct (resolve_named vercmp c spec pkgs) as [[q|]|e] eqn:E; simpl.
  - assert (¬ Forall (λ q, p_Name q ≠ cn_Name c) pkgs) by naive_solver.
    specialize (HS p). naive_solver.
  - pose proof (λ q, checkProvides_Ok vercmp spec q) as HP. simpl in HP. fold c in HP.
    assert (Hno : ∀ P, ((∃ l1 l2, pkgs = l1 ++ p :: l2 ∧ Forall (λ q, p_Name q ≠ cn_Name c) l1) ∧ P)
      → p_Name p = cn_Name c → False).
    { intros P [(l1 & l2 & -> & _) _] Hp. destruct HN as [HN _]. specialize (HN eq_refl).
      rewrite Forall_app, Forall_cons in HN. naive_solver. }
    destruct (ProvidedBy (cn_Name c)) as [[q|]|]; simpl; [|naive_solver..].
    specialize (HP q). destruct (checkProvides vercmp c q) as [[]|] eqn:Ec; simpl; naive_solver.
  - assert (¬ Forall (λ q, p_Name q ≠ cn_Name c) pkgs) by naive_solver.
    specialize (HS p). naive_solver.
Qed.

(** ** Examples *)
Section examples.
Let vercmp : string → string → Z := λ _ _, 0%Z.

(** Nothing is in the repositories; the AUR is a list of packages. *)
Definition no_repo : RepoChecker := {| Unsatisfied deps := Ok deps |}.
Definition list_aur (l : list Package) : AURSource :=
  {| Info names := Ok (filter (λ p, p_Name p ∈ names) l); ProvidedBy _ := Ok None |}.

Definition pkg (name base : string) (deps : list string) : Package :=
  mkPackage name base "1" [] deps.

Lemma Resolve_correct_witness :
  let aur := list_aur [pkg "a" "a" ["b"]; pkg "b" "b" []] in
  Resolve (repo := no_repo) vercmp 2 ["a"] = Ok [pkg "b" "b" []; pkg "a" "a" ["b"]] ∧
  NoDup (bases [pkg "b" "b" []; pkg "a" "a" ["b"]]).
Proof.
  intros aur. split; [by vm_compute|].
  refine (proj1 (Resolve_correct (repo := no_repo) (aur := aur) vercmp
                   (list_to_set (C := gset string) ["a"; "b"]) 2 ["a"] _ _)).
  - assert (Hin : ∀ spec d, resolveSpec (aur := aur) vercmp spec = Ok (Some d) →
      p_PackageBase d ∈ (list_to_set ["a"; "b"] : gset string)).
    { intros spec d H. unfold resolveSpec in H. simpl in H.
      destruct (resolve_named _ _ _ _) as [[q|]|] eqn:E; simpl in H; simplify_eq.
      apply resolve_named_Some in E as [(l1 & l2 & E & _) _].
      assert (d ∈ filter (λ p, p_Name p ∈ [cn_Name (Parse spec)]) [pkg "a" "a" ["b"]; pkg "b" "b" []]) as Hd
        by (rewrite E; set_solver).
      apply list_elem_of_filter in Hd as [_ Hd]. set_solver. }
    intros d [? (? & ? & _ & _ & H)|? ? _ (? & ? & _ & _ & H)]; by eapply Hin.
  - vm_compute. lia.
Defined.

(** A split package: [foo] needs its sibling [foo-data], of the same base. The search
    reports a dependency cycle. *)
Example split_sibling_cycle :
  Resolve (repo := no_repo)
    (aur := list_aur [pkg "foo" "foo" ["foo-data"]; pkg "foo-data" "foo" []]) vercmp 5 ["foo"]
  = Err (ErrDependsCycle "foo").
Proof. by vm_compute. Qed.

(** Two members of one base with different dependencies: those of the second one visited
    are not resolved. *)
Example split_member_skipped :
  bases <$> Resolve (repo := no_repo)
    (aur := list_aur [pkg "foo" "foo" []; pkg "foo-cli" "foo" ["bar"]; pkg "bar" "bar" []]) vercmp 5
    ["foo"; "foo-cli"]
  = Ok ["foo"].
Proof. by vm_compute. Qed.
End examples.
