(* ===== verification/Package.v ===== *)
(** * Built packages (internal/pacman/pkg/package.go, dbentry.go, buildinfo.go, soname.go)

    The walk over the members of a package archive, the readers of .PKGINFO and
    .BUILDINFO, the metadata a repository entry is made of, and the sonames a package
    ships with the bumps between two builds.

    Decompression, the tar format, SHA-256 and ELF are outside: a package file is a
    string that [decode] turns into its tar members. *)

From S2P Require Import Prelude GoStrings KeyValue Pkginfo.

(** ** Tar streams *)
Inductive typeflag := TypeReg | TypeDir | TypeOther.

#[export] Instance typeflag_eq_dec : EqDecision typeflag.
Proof. solve_decision. Defined.

Record tar_member := mkMember {
  hdr_Name : string;
  hdr_Typeflag : typeflag;
  hdr_data : string;
}.

#[export] Instance tar_member_eq_dec : EqDecision tar_member.
Proof. solve_decision. Defined.

(** The members a [tar.Reader] yields, then io.EOF or the error of [Next]. *)
Record tar_stream := mkStream { members : list tar_member; stream_err : option string }.

(** [tar.NewReader] over the writer's output. *)
Definition complete (l : list tar_member) : tar_stream := mkStream l None.

Inductive package_error :=
| ErrDecoder (e : string)
| ErrTarHeader (e : string)
| ErrPkginfoNotFound
| ErrPkginfo (e : parse_error)
| ErrBuildInfoNotFound
| ErrBuildinfo (e : parse_error)
| ErrOpen (e : string).

(** The loop of [walkPackageTar] for a callback over a state; [true] stops. *)
Fixpoint walk_members {S} (fn : S → tar_member → result package_error (S * bool)) (s : S)
    (l : list tar_member) (err : option string) : result package_error S :=
  match l with
  | [] => match err with None => Ok s | Some e => Err (ErrTarHeader e) end
  | m :: l =>
      match fn s m with
      | Err e => Err e
      | Ok (s, true) => Ok s
      | Ok (s, false) => walk_members fn s l err
      end
  end.

Record BinaryPackage := mkBinaryPackage { bp_path : string; bp_info : PKGINFO.PKGINFO }.

Definition bp_Name (p : BinaryPackage) : string := PKGINFO.PkgName (bp_info p).
Definition bp_Base (p : BinaryPackage) : string := PKGINFO.PkgBase (bp_info p).
Definition bp_Version (p : BinaryPackage) : string := PKGINFO.PkgVer (bp_info p).
Definition bp_Arch (p : BinaryPackage) : string := PKGINFO.Arch (bp_info p).

Definition NewBinaryPackage (filePath : string) (info : PKGINFO.PKGINFO) : BinaryPackage :=
  mkBinaryPackage filePath info.

Record BinaryPackageMeta := mkMeta {
  Filename : string;
  CSize : Z;
  SHA256 : string;
  m_Info : PKGINFO.PKGINFO;
  Files : list string;
}.

(** The callbacks. *)
Definition pkginfo_callback (s : string) (m : tar_member) : result package_error (string * bool) :=
  if decide (hdr_Name m ≠ ".PKGINFO") then Ok (s, false) else Ok (hdr_data m, true).

Definition buildinfo_callback (s : option string) (m : tar_member)
    : result package_error (option string * bool) :=
  if decide (hdr_Name m ≠ ".BUILDINFO") then Ok (s, false) else Ok (Some (hdr_data m), true).

Definition meta_callback (s : option PKGINFO.PKGINFO * list string) (m : tar_member)
    : result package_error (option PKGINFO.PKGINFO * list string * bool) :=
  if decide (hdr_Name m = ".PKGINFO") then
    info ← map_err ErrPkginfo (ParsePkginfo (hdr_data m));
    Ok (Some info, s.2, false)
  else if has_prefix (hdr_Name m) "." then Ok (s, false)
  else Ok (s.1, s.2 ++ [hdr_Name m], false).

Section readers.
(** [DetectCompression] and the tar reader, [sha256.Sum256] in hexadecimal. *)
Context (decode : string → result string tar_stream) (sha256 : string → string).

Definition walkPackageTar {S} (data : string)
    (fn : S → tar_member → result package_error (S * bool)) (s : S) : result package_error S :=
  stream ← map_err ErrDecoder (decode data);
  walk_members fn s (members stream) (stream_err stream).

Definition ReadBinaryPackage (binPath data : string) : result package_error BinaryPackage :=
  pkginfoData ← walkPackageTar data pkginfo_callback "";
  if decide (pkginfoData = "") then Err ErrPkginfoNotFound
  else info ← map_err ErrPkginfo (ParsePkginfo pkginfoData);
       Ok (mkBinaryPackage binPath info).

Definition ReadBuildInfoData (data : string) : result package_error string :=
  found ← walkPackageTar data buildinfo_callback None;
  result_of_option ErrBuildInfoNotFound found.

Definition ReadBuildInfo (data : string) : result package_error BUILDINFO :=
  data ← ReadBuildInfoData data;
  map_err ErrBuildinfo (ParseBuildinfoString data).

(** [file] is the outcome of opening and reading the file at [pkgPath]. *)
Definition ReadBinaryPackageMeta (pkgPath : string) (file : result string string)
    : result package_error BinaryPackageMeta :=
  data ← map_err ErrOpen file;
  acc ← walkPackageTar data meta_callback (None, []);
  match acc with
  | (None, _) => Err ErrPkginfoNotFound
  | (Some info, files) =>
      Ok (mkMeta (path_base pkgPath) (Z.of_nat (String.length data)) (sha256 data) info
            (compact (sort_strings files)))
  end.
End readers.

(** ** Sonames *)

(** [isSharedObjectName]. *)
Definition isSharedObjectName (name : string) : bool :=
  has_suffix name ".so" || contains name ".so.".

Section sonames.
(** [elf.Open] and [DynString(DT_SONAME)]: None for a file that is not ELF, the empty
    list when it has no dynamic section. *)
Context (elf : string → option (list string)) (decode : string → result string tar_stream).
Context {R : RangeOrder}.

Definition addSonames (names : list string) (set : gset string) : gset string :=
  foldl (λ s n, if decide (n = "") then s else {[n]} ∪ s) set names.

Definition sonameFromStream (content : string) (set : gset string) : gset string :=
  match elf content with Some names => addSonames names set | None => set end.

Definition soname_callback (set : gset string) (m : tar_member)
    : result package_error (gset string * bool) :=
  if decide (hdr_Typeflag m ≠ TypeReg ∨ isSharedObjectName (path_base (hdr_Name m)) = false)
  then Ok (set, false)
  else Ok (sonameFromStream (hdr_data m) set, false).

Definition sonamesFromArchive (data : string) (set : gset string) : result package_error (gset string) :=
  walkPackageTar decode data soname_callback set.

Definition sonamesFromFile (data : string) (set : gset string) : result package_error (gset string) :=
  match elf data with
  | Some names => Ok (addSonames names set)
  | None => sonamesFromArchive data set
  end.

(** The files below a directory: name, whether regular, content; or the error of the
    walk. *)
Definition dir_entry : Type := string * bool * string.

Fixpoint sonamesFromDir (entries : list (result string dir_entry)) (set : gset string)
    : result package_error (gset string) :=
  match entries with
  | [] => Ok set
  | Err e :: _ => Err (ErrOpen e)
  | Ok (name, regular, content) :: entries =>
      if negb regular || negb (isSharedObjectName name) then sonamesFromDir entries set
      else match elf content with
           | None => sonamesFromDir entries set
           | Some names => sonamesFromDir entries (addSonames names set)
           end
  end.

(** What [os.Stat] finds at the path. *)
Inductive path_kind :=
| PathError (e : string)
| PathDir (entries : list (result string dir_entry))
| PathFile (data : string).

Definition SonamesOf (p : path_kind) : result package_error (list string) :=
  match p with
  | PathError e => Err (ErrOpen e)
  | PathDir entries => set ← sonamesFromDir entries ∅; Ok (sort_strings (range_keys set))
  | PathFile data => set ← sonamesFromFile data ∅; Ok (sort_strings (range_keys set))
  end.

(** [strings.Index(s, ".so.")]. *)
Definition sonameBase (s : string) : string :=
  match cut ".so." s with Some (a, _) => a +:+ ".so" | None => s end.

Definition indexByBase (sonames : list string) : gmap string string :=
  foldl (λ m s, <[sonameBase s := s]> m) ∅ sonames.

Record SonameBump := mkBump { bump_Base : string; bump_Old : string; bump_New : string }.

Definition detect_step (newByBase : gmap string string) (kv : string * string) : option SonameBump :=
  match newByBase !! kv.1 with
  | None => Some (mkBump kv.1 kv.2 "")
  | Some newName => if decide (kv.2 ≠ newName) then Some (mkBump kv.1 kv.2 newName) else None
  end.

Definition DetectBumps (oldSonames newSonames : list string) : list SonameBump :=
  let oldByBase := indexByBase oldSonames in
  let newByBase := indexByBase newSonames in
  sort_by bump_Base (omap (detect_step newByBase) (range_map oldByBase)).
End sonames.

(** ** Theorems *)

(** The last member of a name. *)
Definition named (name : string) (l : list tar_member) : list tar_member :=
  filter (λ m, hdr_Name m = name) l.

Definition parsed_pkginfos (l : list tar_member) : Prop :=
  Forall (λ m, is_ok (ParsePkginfo (hdr_data m)) = true) (named ".PKGINFO" l).

Definition listed (l : list tar_member) : list string :=
  filter (λ n, has_prefix n "." = false) (map hdr_Name l).

Lemma walk_meta l err s :
  match walk_members meta_callback s l err with
  | Ok (info, files) =>
      err = None ∧ files = s.2 ++ listed l ∧ parsed_pkginfos l ∧
      match last (named ".PKGINFO" l) with
      | Some m => ∃ i, ParsePkginfo (hdr_data m) = Ok i ∧ info = Some i
      | None => info = s.1
      end
  | Err (ErrPkginfo e) => ∃ m, m ∈ named ".PKGINFO" l ∧ ParsePkginfo (hdr_data m) = Err e
  | Err (ErrTarHeader e) => err = Some e
  | Err _ => False
  end.
Proof.
  revert s. induction l as [|m l IH]; intros s; simpl.
  - destruct err; [done|]. destruct s as [i f]. simpl. rewrite app_nil_r.
    split_and!; try done. by constructor.
  - unfold parsed_pkginfos, named, listed in *. unfold meta_callback at 1.
    rewrite filter_cons. cbn [map].
    rewrite filter_cons. destruct (decide (hdr_Name m = ".PKGINFO")) as [Hn|Hn].
    + rewrite Hn. rewrite (decide_False (P := has_prefix ".PKGINFO" "." = false)) by done.
      destruct (ParsePkginfo (hdr_data m)) as [i|e] eqn:Hp; simpl.
      * specialize (IH (Some i, s.2)).
        destruct (walk_members _ _ l err) as [[info files]|[]]; try done; [|set_solver].
        destruct IH as (? & ? & ? & Hl). split_and!; [done..| |].
        -- constructor; [by rewrite Hp|done].
        -- rewrite last_cons. destruct (last _); [done|]. simpl in Hl. eauto.
      * exists m. split; [|done]. set_solver.
    + destruct (has_prefix (hdr_Name m) ".") eqn:Hd; simpl.
      * apply IH.
      * specialize (IH (s.1, s.2 ++ [hdr_Name m])).
        destruct (walk_members _ _ l err) as [[info files]|[]]; try done.
        destruct IH as (? & -> & ? & ?). simpl. by rewrite <-(assoc (++)).
Qed.

(** The metadata read from a package archive: the parsed .PKGINFO (of the last member
    of that name), the hash and size of the whole file, and as file list the sorted names,
    without repetition, of exactly the members that do not start with a dot. It fails
    exactly when the archive cannot be read, a .PKGINFO does not parse, or there is none. *)
Theorem ReadBinaryPackageMeta_spec decode sha256 path file :
  match ReadBinaryPackageMeta decode sha256 path file with
  | Ok m => ∃ data ms,
      file = Ok data ∧ decode data = Ok (complete ms) ∧
      (∃ p, last (named ".PKGINFO" ms) = Some p ∧ ParsePkginfo (hdr_data p) = Ok (m_Info m)) ∧
      Filename m = path_base path ∧ CSize m = Z.of_nat (String.length data) ∧
      SHA256 m = sha256 data ∧
      StronglySorted String.le (Files m) ∧ NoDup (Files m) ∧
      ∀ f, f ∈ Files m ↔ has_prefix f "." = false ∧ ∃ t, t ∈ ms ∧ hdr_Name t = f
  | Err e =>
      match e, file with
      | ErrOpen e, _ => file = Err e
      | ErrDecoder e, Ok data => decode data = Err e
      | ErrTarHeader e, Ok data => ∃ ms, decode data = Ok (mkStream ms (Some e))
      | ErrPkginfo e, Ok data => ∃ ms t p, decode data = Ok (mkStream ms t) ∧
          p ∈ named ".PKGINFO" ms ∧ ParsePkginfo (hdr_data p) = Err e
      | ErrPkginfoNotFound, Ok data => ∃ ms, decode data = Ok (complete ms) ∧
          named ".PKGINFO" ms = []
      | _, _ => False
      end
  end.
Proof.
  unfold ReadBinaryPackageMeta, walkPackageTar. destruct file as [data|e]; simpl; [|done].
  destruct (decode data) as [[ms err]|e] eqn:Hd; simpl; [|done].
  pose proof (walk_meta ms err (None, [])) as H.
  destruct (walk_members _ _ ms err) as [[info files]|e]; simpl.
  - destruct H as (-> & Hf & Hp & Hl). simpl in Hf. subst files.
    destruct (last (named ".PKGINFO" ms)) as [m|] eqn:El.
    + destruct Hl as (i & Hi & ->). simpl. exists data, ms.
      destruct (compact_sorted (sort_strings (listed ms))) as [Hs Hnd]; [apply sort_strings_sorted|].
      split_and!; try done; [by exists m|]. intros f.
      rewrite elem_of_compact, elem_of_sort_strings. unfold listed.
      rewrite list_elem_of_filter, list_elem_of_fmap. naive_solver.
    + subst info. simpl. exists ms. split; [done|]. by apply last_None.
  - destruct e; try done; [naive_solver|]. destruct H as (m & ? & ?). naive_solver.
Qed.

(** A witness of disagreement: an archive with two .PKGINFO members.  The reader of
    uploads uses the first one, the reader for the database the last one. *)
Example two_pkginfos :
  let decode _ := Ok (complete [mkMember ".PKGINFO" TypeReg "pkgname = a";
                                mkMember ".PKGINFO" TypeReg "pkgname = b"]) in
  bp_Name <$> ReadBinaryPackage decode "" "" = Ok "a" ∧
  (PKGINFO.PkgName ∘ m_Info) <$> ReadBinaryPackageMeta decode id "" (Ok "") = Ok "b".
Proof. split; by vm_compute. Qed.

(** *** Bumps *)

(** The soname of a base that the index keeps: the last of the list. *)
Definition last_of (base : string) (l : list string) : option string :=
  last (filter (λ s, sonameBase s = base) l).

Lemma lookup_indexByBase l base : indexByBase l !! base = last_of base l.
Proof.
  unfold indexByBase, last_of. induction l as [|s l IH] using rev_ind; [simpl; by rewrite lookup_empty|].
  rewrite foldl_app, filter_app, filter_cons, filter_nil. cbn [foldl].
  destruct (decide (sonameBase s = base)) as [<-|Hb].
  - rewrite lookup_insert_eq, last_snoc. done.
  - rewrite lookup_insert_ne, app_nil_r by done. apply IH.
Qed.

Lemma omap_NoDup_map {A B} (f : A → option B) (g : A → string) (h : B → string) l :
  (∀ a b, f a = Some b → h b = g a) → NoDup (map g l) → NoDup (map h (omap f l)).
Proof.
  intros Hf. induction l as [|a l IH]; intros Hnd; [constructor|]. simpl in *.
  apply NoDup_cons in Hnd as [Ha Hnd]. destruct (f a) as [b|] eqn:E; [|auto]. simpl.
  constructor; [|auto]. intros (c & Hc & Hin)%list_elem_of_fmap. apply Ha.
  apply list_elem_of_omap in Hin as (a' & Ha' & Hin). apply list_elem_of_fmap.
  exists a'. split; [|done]. rewrite <-(Hf a b), <-(Hf a' c); congruence.
Qed.

Lemma detect_step_base m kv b : detect_step m kv = Some b → bump_Base b = kv.1.
Proof. unfold detect_step. intros. repeat case_match; by simplify_eq/=. Qed.

Lemma NoDup_bumps {R : RangeOrder} old new :
  NoDup (map bump_Base (omap (detect_step (indexByBase new)) (range_map (indexByBase old)))).
Proof.
  apply (omap_NoDup_map _ fst); [intros ? ?; apply detect_step_base|].
  apply NoDup_range_map.
Qed.

(** [DetectBumps] reports, sorted by base and once each, exactly the bases that the old
    list has and whose kept (last listed) soname is another one in the new list or is in
    no soname of it; a base only in the new list is never reported, and the answer does
    not depend on the iteration order of the maps. *)
Theorem DetectBumps_spec {R : RangeOrder} old new :
  let bumps := DetectBumps old new in
  StronglySorted (key_le bump_Base) bumps ∧ NoDup (map bump_Base bumps) ∧
  bumps = @DetectBumps elements_order old new ∧
  ∀ base o n, mkBump base o n ∈ bumps ↔
    last_of base old = Some o ∧
    match last_of base new with Some n' => n = n' ∧ o ≠ n | None => n = "" end.
Proof.
  intros bumps. unfold bumps, DetectBumps. split_and!.
  - apply sort_by_sorted.
  - rewrite sort_by_perm. apply NoDup_bumps.
  - apply sort_by_Proper; [apply NoDup_bumps|]. f_equiv.
    apply NoDup_Permutation; [eapply NoDup_fmap_1, NoDup_range_map..|].
    intros [k v]. by rewrite !elem_of_range_map.
  - intros base o n. rewrite sort_by_perm, list_elem_of_omap. rewrite <-!lookup_indexByBase. split.
    + intros ([k v] & Hin%elem_of_range_map & E). pose proof (detect_step_base _ _ _ E) as Hb.
      simpl in Hb. subst k. unfold detect_step in E. simpl in E.
      destruct (indexByBase new !! base) as [n'|]; [case_decide|]; naive_solver.
    + intros [Ho Hn]. exists (base, o). rewrite elem_of_range_map. split; [done|].
      unfold detect_step. simpl.
      destruct (indexByBase new !! base) as [n'|]; [|by subst].
      destruct Hn as [-> Hne]. by rewrite decide_True.
Qed.

(** A package that shipped two versions of a library and drops the older one: the base is
    still provided by the newer one, the bump is not reported. *)
Example dropped_soname_not_reported :
  @DetectBumps elements_order ["libfoo.so.1"; "libfoo.so.2"] ["libfoo.so.2"] = [] ∧
  @DetectBumps elements_order ["libfoo.so.1"] ["libfoo.so.2"]
  = [mkBump "libfoo.so" "libfoo.so.1" "libfoo.so.2"].
Proof. split; by vm_compute. Qed.

(** *** The sonames of an archive *)
Lemma elem_of_addSonames names set x :
  x ∈ addSonames names set ↔ x ≠ "" ∧ x ∈ names ∨ x ∈ set.
Proof.
  unfold addSonames. revert set. induction names as [|n names IH]; intros set; simpl; [set_solver|].
  rewrite IH. case_decide; set_solver.
Qed.

(** A member the scan opens, with its sonames. *)
Definition shared_object (elf : string → option (list string)) (m : tar_member) (x : string) : Prop :=
  hdr_Typeflag m = TypeReg ∧ isSharedObjectName (path_base (hdr_Name m)) = true ∧ x ≠ "" ∧
  ∃ names, elf (hdr_data m) = Some names ∧ x ∈ names.

Lemma walk_sonames elf l err set :
  match walk_members (soname_callback elf) set l err with
  | Ok set' => err = None ∧ ∀ x, x ∈ set' ↔ x ∈ set ∨ ∃ m, m ∈ l ∧ shared_object elf m x
  | Err e => ∃ e', err = Some e' ∧ e = ErrTarHeader e'
  end.
Proof.
  revert set. induction l as [|m l IH]; intros set; simpl.
  - destruct err; [eauto|]. set_solver.
  - unfold soname_callback at 1. case_decide as Hs.
    + specialize (IH set). destruct (walk_members _ _ _ _); [|done]. destruct IH as [-> IH].
      split; [done|]. intros x. rewrite IH.
      assert (¬ shared_object elf m x).
      { intros (? & H & _). destruct Hs as [Hs|Hs]; [done|congruence]. }
      set_solver.
    + apply Decidable.not_or in Hs as [Ht%dec_stable Hn%not_false_is_true].
      specialize (IH (sonameFromStream elf (hdr_data m) set)).
      destruct (walk_members _ _ _ _); [|done]. destruct IH as [-> IH].
      split; [done|]. intros x. rewrite IH. unfold sonameFromStream.
      destruct (elf (hdr_data m)) as [names|] eqn:E.
      * rewrite elem_of_addSonames. unfold shared_object at 2.
        setoid_rewrite elem_of_cons. unfold shared_object. naive_solver.
      * setoid_rewrite elem_of_cons. unfold shared_object. naive_solver.
Qed.

(** [SonamesOf] a package archive is the sorted list, without repetitions, of the
    non-empty DT_SONAME values of its regular members with a shared-object name; a member
    that is not ELF is skipped and only an unreadable archive is an error. *)
Theorem SonamesOf_archive elf decode {R : RangeOrder} data :
  elf data = None →
  match SonamesOf elf decode (PathFile data) with
  | Ok l => ∃ ms, decode data = Ok (complete ms) ∧ StronglySorted String.le l ∧ NoDup l ∧
      ∀ x, x ∈ l ↔ ∃ m, m ∈ ms ∧ shared_object elf m x
  | Err e => (∃ e', decode data = Err e' ∧ e = ErrDecoder e') ∨
      ∃ ms e', decode data = Ok (mkStream ms (Some e')) ∧ e = ErrTarHeader e'
  end.
Proof.
  intros He. unfold SonamesOf, sonamesFromFile, sonamesFromArchive, walkPackageTar. rewrite He.
  destruct (decode data) as [[ms err]|e]; simpl; [|eauto].
  pose proof (walk_sonames elf ms err ∅) as H.
  destruct (walk_members _ _ ms err) as [set|e]; simpl.
  - destruct H as [-> H]. exists ms. split_and!; [done|apply sort_strings_sorted| |].
    + apply NoDup_sort_strings, NoDup_range_keys.
    + intros x. rewrite elem_of_sort_strings, elem_of_range_keys, H. set_solver.
  - destruct H as (e' & -> & ->). eauto.
Qed.

Lemma SonamesOf_archive_witness :
  let elf d := if decide (d = "ELF") then Some ["libfoo.so.1"] else None in
  let decode _ := Ok (complete [mkMember "usr/lib/libfoo.so.1.2" TypeReg "ELF";
                                mkMember "usr/lib/x.so" TypeReg "text"]) in
  elf "pkg" = None ∧
  match @SonamesOf elf decode elements_order (PathFile "pkg") with
  | Ok l => l = ["libfoo.so.1"] ∧ NoDup l
  | Err _ => False
  end.
Proof.
  intros elf decode. split; [done|].
  pose proof (@SonamesOf_archive elf decode elements_order "pkg" eq_refl) as H.
  assert (E : @SonamesOf elf decode elements_order (PathFile "pkg") = Ok ["libfoo.so.1"]) by by vm_compute.
  rewrite E in H |- *. split; [done|]. by destruct H as (? & _ & _ & ? & _).
Defined.
