(* ===== verification/Dbwriter.v ===== *)
(** * The repository database builder (internal/pacman/repo/dbwriter.go, filesdb.go)

    The entries of a pacman database, read from the tar members of the .db and .files
    archives, changed by upserts and removals, and written back.  The archives are the
    tar streams [decode] yields. *)

From S2P Require Import Prelude GoStrings KeyValue Pkginfo Desc Package.

Inductive repo_error :=
| ErrDecompress (e : string)
| ErrReadTar (e : string)
| ErrNilMeta
| ErrMissingName
| ErrNotPresent (dir : string)
| ErrMismatch (dir field got want : string)
| ErrNoFilename (dir : string)
| ErrUnsupportedDBFormat (name : string)
| ErrLimit (what : string)
| ErrParseDesc (name : string) (e : parse_error)
| ErrConvert (name : string) (e : parse_error)
| ErrPackage (e : package_error).

(** ** [encoding/base64], standard alphabet with padding *)
Definition base64_char (n : N) : ascii :=
  ascii_of_N
    (if n <? 26 then n + 65 else if n <? 52 then n - 26 + 97 else if n <? 62 then n - 52 + 48
     else if n =? 62 then 43 else 47)%N.

Fixpoint base64 (s : string) : string :=
  match s with
  | String a (String b (String c s)) =>
      let n := (byte a * 65536 + byte b * 256 + byte c)%N in
      String (base64_char (n / 262144)) (String (base64_char (n / 4096 mod 64))
        (String (base64_char (n / 64 mod 64)) (String (base64_char (n mod 64)) (base64 s))))
  | String a (String b EmptyString) =>
      let n := (byte a * 65536 + byte b * 256)%N in
      String (base64_char (n / 262144)) (String (base64_char (n / 4096 mod 64))
        (String (base64_char (n / 64 mod 64)) "="))
  | String a EmptyString =>
      let n := (byte a * 65536)%N in
      String (base64_char (n / 262144)) (String (base64_char (n / 4096 mod 64)) "==")
  | EmptyString => ""
  end.

(** [e_files] is None for the nil slice. *)
Record dbEntry := mkEntry {
  e_dir : string;
  e_name : string;
  e_desc : string;
  e_files : option string;
}.

#[export] Instance dbEntry_eta : Eta dbEntry := λ e,
  mkEntry (e_dir e) (e_name e) (e_desc e) (e_files e).

Abbreviation dbBuilder := (gmap string dbEntry).
Definition newDBBuilder : dbBuilder := ∅.

Definition splitEntryPath (p : string) : option (string * string) :=
  let p := trim_suffix p "/" in
  match cut "/" p with
  | Some (dir, member) =>
      if decide (dir = "" ∨ member = "") then None
      else if contains member "/" then None
      else Some (dir, member)
  | None => None
  end.

(** The loop of [descValue]. *)
Fixpoint value_after (field : string) (lines : list string) : string :=
  match lines with
  | line :: ((next :: _) as lines) =>
      if decide (line = field) then next else value_after field lines
  | _ => ""
  end.

Definition descValue (desc field : string) : string :=
  value_after field (split_char newline desc).

Definition descName (desc : string) : string := descValue desc "%NAME%".

Definition filesEntry (files : list string) : string :=
  "%FILES%" +:+ String newline (foldr (λ f b, f +:+ String newline b) "" files).

Definition parseFilesMember (data : string) : list string :=
  filter (λ line, ¬ (line = "" ∨ line = "%FILES%")) (split_char newline data).

Section builder.
Context (decode : string → result string tar_stream) {R : RangeOrder}.
Implicit Types (b : dbBuilder).

(** One iteration of [load]. *)
Definition load_member (withFiles : bool) b (m : tar_member) : dbBuilder :=
  if decide (hdr_Typeflag m = TypeDir) then b
  else match splitEntryPath (hdr_Name m) with
       | None => b
       | Some (dir, member) =>
           let e := default (mkEntry dir "" "" None) (b !! dir) in
           let e :=
             if decide (member = "desc") then
               (e <| e_desc := hdr_data m |>) <| e_name := descName (hdr_data m) |>
             else if decide (member = "files") then
               if withFiles then e <| e_files := Some (hdr_data m) |> else e
             else e in
           <[dir := e]> b
       end.

(** [r] is None for a nil reader. *)
Definition load b (r : option string) (withFiles : bool) : result repo_error dbBuilder :=
  match r with
  | None => Ok b
  | Some data =>
      stream ← map_err ErrDecompress (decode data);
      let b := foldl (load_member withFiles) b (members stream) in
      match stream_err stream with
      | None => Ok b
      | Some e => Err (ErrReadTar e)
      end
  end.

Definition LoadDB b (r : option string) : result repo_error dbBuilder := load b r false.

(** [canonical.files = candidate.files] for the entries of the same desc. *)
Definition adopt_files (dir : string) (candidate canonical : dbEntry) : dbEntry :=
  if decide (e_desc canonical ≠ e_desc candidate) then canonical
  else canonical <| e_files := e_files candidate |>.

Definition LoadFiles b (r : option string) : result repo_error dbBuilder :=
  match r with
  | None => Ok b
  | Some _ =>
      files ← load newDBBuilder r true;
      Ok (range_alter adopt_files b files)
  end.

Definition remove_step (name : string) (acc : dbBuilder * bool) (kv : string * dbEntry) : dbBuilder * bool :=
  if decide (e_name kv.2 = name) then (delete kv.1 acc.1, true) else acc.

Definition Remove b (name : string) : dbBuilder * bool :=
  foldl (remove_step name) (b, false) (range_map b).

(** None is a nil [meta]. *)
Definition Upsert b (meta : option BinaryPackageMeta) (sig : string) : result repo_error dbBuilder :=
  match meta with
  | None => Err ErrNilMeta
  | Some meta =>
      let name := PKGINFO.PkgName (m_Info meta) in
      let ver := PKGINFO.PkgVer (m_Info meta) in
      if decide (name = "" ∨ ver = "") then Err ErrMissingName
      else
        let '(b, _) := Remove b name in
        let desc := DescFromPkginfo (m_Info meta) (Filename meta) (CSize meta) (SHA256 meta) in
        let desc := if decide (sig = "") then desc else desc <| DESC.PGPSIG := base64 sig |> in
        let dir := name +:+ "-" +:+ ver in
        Ok (<[dir := mkEntry dir name (desc_Bytes desc) (Some (filesEntry (Files meta)))]> b)
  end.

(** The checks of [AttachFiles]: a map literal, visited in any order. *)
Definition attach_checks (meta : BinaryPackageMeta) : gmap string string :=
  list_to_map [("%FILENAME%", Filename meta); ("%CSIZE%", format_int (CSize meta));
               ("%SHA256SUM%", SHA256 meta)].

Definition attach_check (dir desc : string) (_ : unit) (kv : string * string) : result repo_error unit :=
  let got := descValue desc kv.1 in
  if decide (got ≠ kv.2) then Err (ErrMismatch dir kv.1 got kv.2) else Ok tt.

Definition AttachFiles b (meta : option BinaryPackageMeta) : result repo_error dbBuilder :=
  match meta with
  | None => Err ErrNilMeta
  | Some meta =>
      let dir := PKGINFO.PkgName (m_Info meta) +:+ "-" +:+ PKGINFO.PkgVer (m_Info meta) in
      match b !! dir with
      | None => Err (ErrNotPresent dir)
      | Some e =>
          _ ← foldM (attach_check dir (e_desc e)) tt (range_map (attach_checks meta));
          Ok (<[dir := e <| e_files := Some (filesEntry (Files meta)) |>]> b)
      end
  end.

Definition sortedDirs b : list string := sort_strings (range_keys (dom b)).

(** The entries in the order of their directories. *)
Definition entry_at b (dir : string) : dbEntry := default (mkEntry dir "" "" None) (b !! dir).

Definition missing_step b (missing : list string) (dir : string) : result repo_error (list string) :=
  let e := entry_at b dir in
  match e_files e with
  | Some _ => Ok missing
  | None =>
      let filename := descValue (e_desc e) "%FILENAME%" in
      if decide (filename = "") then Err (ErrNoFilename dir) else Ok (missing ++ [filename])
  end.

Definition missingFileObjects b : result repo_error (list string) :=
  foldM (missing_step b) [] (sortedDirs b).

(** The members written for one entry: [writeTarDir] and [writeTarFile]. *)
Definition entry_members (withFiles : bool) (e : dbEntry) : list tar_member :=
  mkMember (e_dir e +:+ "/") TypeDir "" ::
  mkMember (e_dir e +:+ "/desc") TypeReg (e_desc e) ::
  match e_files e with
  | Some files => if withFiles then [mkMember (e_dir e +:+ "/files") TypeReg files] else []
  | None => []
  end.

Definition write b (withFiles : bool) : list tar_member :=
  concat (map (λ dir, entry_members withFiles (entry_at b dir)) (sortedDirs b)).

Definition WriteDB b : list tar_member := write b false.
Definition WriteFiles b : list tar_member := write b true.

Definition names b : list string :=
  filter (λ n, n ≠ "") (map (λ kv, e_name kv.2) (range_map b)).

(** ** [FilesFromDB] (filesdb.go) *)
Definition newDBFormatMagic : string := "SQLite format 3" +:+ String "000" "".

Definition isNewDBFormat (m : tar_member) : bool :=
  bool_decide (hdr_Typeflag m = TypeReg) && has_prefix (hdr_data m) newDBFormatMagic.

Record files_entry := mkFilesEntry { fe_name : string; fe_files : list string }.

Definition files_step (dirs : gmap string files_entry) (m : tar_member)
    : result repo_error (gmap string files_entry) :=
  if decide (hdr_Typeflag m = TypeDir) then Ok dirs
  else match splitEntryPath (hdr_Name m) with
       | None => if isNewDBFormat m then Err (ErrUnsupportedDBFormat (hdr_Name m)) else Ok dirs
       | Some (dir, member) =>
           let e := default (mkFilesEntry "" []) (dirs !! dir) in
           let e :=
             if decide (member = "desc") then mkFilesEntry (descName (hdr_data m)) (fe_files e)
             else if decide (member = "files") then
               mkFilesEntry (fe_name e) (parseFilesMember (hdr_data m))
             else e in
           Ok (<[dir := e]> dirs)
       end.

Definition files_out (out : gmap string (list string)) (kv : string * files_entry) : gmap string (list string) :=
  if decide (fe_name kv.2 = "") then out else <[fe_name kv.2 := fe_files kv.2]> out.

Definition FilesFromDB (data : string) : result repo_error (gmap string (list string)) :=
  stream ← map_err ErrDecompress (decode data);
  dirs ← foldM files_step ∅ (members stream);
  match stream_err stream with
  | Some e => Err (ErrReadTar e)
  | None => Ok (foldl files_out ∅ (range_map dirs))
  end.
End builder.

(** ** The builder invariant *)
Section builder_lemmas.
Context (decode : string → result string tar_stream) {R : RangeOrder}.
Implicit Types (b : dbBuilder).

(** Keys are the directories, one path component each, and the cached name is the one in
    the desc. *)
Definition wf_entry (k : string) (e : dbEntry) : Prop :=
  e_dir e = k ∧ k ≠ "" ∧ occurs "/" k = false ∧ e_name e = descName (e_desc e).

Definition wf_builder b : Prop := map_Forall wf_entry b.

Lemma splitEntryPath_Some p dir member :
  splitEntryPath p = Some (dir, member) → dir ≠ "" ∧ occurs "/" dir = false.
Proof.
  unfold splitEntryPath. destruct (cut "/" _) as [[d m]|] eqn:E; [|done].
  apply cut_char_Some in E as [_ Ho]. case_decide as Hn; [done|].
  destruct (contains m "/"); [done|]. intros [= -> ->]. naive_solver.
Qed.

Lemma contains_char c s : contains s (String c "") = occurs c s.
Proof.
  unfold contains. destruct (occurs c s) eqn:E.
  - apply bool_decide_eq_true. apply not_eq_None_Some. rewrite cut_char_None. by rewrite E.
  - apply bool_decide_eq_false. rewrite <-eq_None_not_Some. by apply cut_char_None.
Qed.

Lemma splitEntryPath_member dir member :
  dir ≠ "" → occurs "/" dir = false → member ≠ "" → occurs "/" member = false →
  splitEntryPath (dir +:+ String "/" member) = Some (dir, member).
Proof.
  intros Hd Hod Hm Hom. unfold splitEntryPath.
  assert (trim_suffix (dir +:+ String "/" member) "/" = dir +:+ String "/" member) as ->.
  { unfold trim_suffix. destruct (strip_suffix _ _) as [t|] eqn:E; [|done]. exfalso.
    apply strip_suffix_Some in E. change (String "/" member) with ("/" +:+ member) in E. rewrite str_app_assoc in E.
    apply app_last_occurs in E; [congruence|done]. }
  rewrite cut_char_app by done. rewrite decide_False by naive_solver.
  by rewrite contains_char, Hom.
Qed.

Lemma wf_builder_insert b k e : wf_builder b → wf_entry k e → wf_builder (<[k := e]> b).
Proof. intros. by apply map_Forall_insert_2. Qed.

Lemma load_wf withFiles l b : wf_builder b → wf_builder (foldl (load_member withFiles) b l).
Proof.
  revert b. induction l as [|m l IH]; intros b Hb; [done|]. simpl. apply IH.
  unfold load_member. case_decide; [done|].
  destruct (splitEntryPath (hdr_Name m)) as [[dir member]|] eqn:E; [|done].
  apply splitEntryPath_Some in E as [Hd Ho]. apply wf_builder_insert; [done|].
  assert (He : wf_entry dir (default (mkEntry dir "" "" None) (b !! dir))).
  { destruct (b !! dir) as [e|] eqn:Hl; [by apply (Hb dir)|]. done. }
  destruct He as (H1 & _ & _ & H4).
  repeat case_match; split_and!; done.
Qed.

Lemma load_LoadDB_wf b r b' : wf_builder b → LoadDB decode b r = Ok b' → wf_builder b'.
Proof.
  unfold LoadDB, load. destruct r as [data|]; [|naive_solver]. intros Hb H. simplify_result.
  case_match; simplify_result. by apply load_wf.
Qed.

Lemma range_alter_wf b (files : dbBuilder) : wf_builder b → wf_builder (range_alter adopt_files b files).
Proof.
  intros Hb k e Hk. rewrite lookup_range_alter in Hk. revert Hk. destruct (files !! k) as [c|]; [|apply Hb].
  intros (e' & Hk & ->)%fmap_Some. apply Hb in Hk. unfold adopt_files. by case_decide.
Qed.

Lemma LoadFiles_wf b r b' : wf_builder b → LoadFiles decode b r = Ok b' → wf_builder b'.
Proof.
  unfold LoadFiles. destruct r as [data|]; [|naive_solver]. intros Hb H. simplify_result.
  by apply range_alter_wf.
Qed.

End builder_lemmas.

Section remove_lemmas.
Context {R : RangeOrder}.
Implicit Types (b : dbBuilder).

(** [Remove] keeps the entries of other names. *)
Lemma Remove_spec b name :
  (∀ k, (Remove b name).1 !! k
        = e ← b !! k; if decide (e_name e = name) then None else Some e) ∧
  ((Remove b name).2 = true ↔ ∃ k e, b !! k = Some e ∧ e_name e = name).
Proof.
  unfold Remove. set (P (_ : string) (e : dbEntry) := bool_decide (e_name e = name)).
  assert (Hl : ∀ l acc,
    (foldl (remove_step name) acc l).1
    = foldl (λ m kv, if P kv.1 kv.2 then delete kv.1 m else m) acc.1 l ∧
    ((foldl (remove_step name) acc l).2 = true ↔
       acc.2 = true ∨ ∃ kv, kv ∈ l ∧ e_name kv.2 = name)).
  { induction l as [|[k e] l IH]; intros acc; simpl; [set_solver|].
    destruct (IH (remove_step name acc (k, e))) as [-> ->].
    unfold remove_step, P. simpl. case_decide as He.
    - rewrite bool_decide_eq_true_2 by done. split; [done|]. simpl. set_solver.
    - rewrite bool_decide_eq_false_2 by done. split; [done|]. set_solver. }
  destruct (Hl (range_map b) (b, false)) as [-> ->]. simpl. split.
  - intros k. rewrite (lookup_range_delete P). unfold P.
    destruct (b !! k) as [e|]; simpl; [|done]. by repeat case_decide; case_bool_decide.
  - split.
    + intros [?|([k e] & Hin%elem_of_range_map & He)]; [done|]. eauto.
    + intros (k & e & Hk%elem_of_range_map & He). right. by exists (k, e).
Qed.

Lemma lookup_Remove b name k e :
  (Remove b name).1 !! k = Some e ↔ b !! k = Some e ∧ e_name e ≠ name.
Proof.
  rewrite (proj1 (Remove_spec b name)). destruct (b !! k) as [e'|]; simpl; [|naive_solver].
  case_decide; naive_solver.
Qed.

Lemma Remove_wf b name : wf_builder b → wf_builder (Remove b name).1.
Proof. intros Hb k e [Hk _]%lookup_Remove. by apply Hb. Qed.
End remove_lemmas.

(** ** Writing and reading back *)
Section write_load.
Context (decode : string → result string tar_stream) {R : RangeOrder}.
Implicit Types (b : dbBuilder).

(** What one archive keeps of an entry. *)
Definition kept (withFiles : bool) (e : dbEntry) : dbEntry :=
  if withFiles then e else e <| e_files := None |>.

Lemma load_entry withFiles b k e :
  wf_entry k e → b !! k = None →
  foldl (load_member withFiles) b (entry_members withFiles e) = <[k := kept withFiles e]> b.
Proof.
  intros (<- & Hne & Ho & Hn) Hb. destruct e as [dir name desc files]; simpl in *.
  unfold load_member at 3; simpl. unfold load_member at 2; simpl.
  rewrite splitEntryPath_member, Hb by done. simpl.
  destruct files as [files|]; [destruct withFiles|]; simpl; rewrite <-?Hn; try done.
  - unfold load_member; simpl. rewrite splitEntryPath_member by done.
    rewrite lookup_insert_eq. simpl. by rewrite insert_insert_eq.
  - by destruct withFiles.
Qed.

Lemma load_entries withFiles b l b0 :
  wf_builder b → NoDup l → (∀ k, k ∈ l → is_Some (b !! k) ∧ b0 !! k = None) →
  foldl (load_member withFiles) b0
    (concat (map (λ dir, entry_members withFiles (entry_at b dir)) l))
  = foldl (λ m k, <[k := kept withFiles (entry_at b k)]> m) b0 l.
Proof.
  intros Hb Hnd. revert b0. induction Hnd as [|k l Hk Hnd IH]; intros b0 Hl; [done|].
  cbn [map concat]. rewrite foldl_app. destruct (Hl k) as [[e He] Hb0]; [set_solver|].
  assert (entry_at b k = e) as Hat by (unfold entry_at; by rewrite He).
  rewrite (load_entry _ _ k) by (rewrite ?Hat; by apply (Hb k) || done). apply IH.
  intros k' Hk'. destruct (Hl k') as [? ?]; [set_solver|]. split; [done|].
  rewrite lookup_insert_ne; [done|]. intros ->. done.
Qed.

Lemma load_write withFiles b :
  wf_builder b →
  foldl (load_member withFiles) ∅ (write b withFiles) = kept withFiles <$> b.
Proof.
  intros Hb. unfold write. assert (Hdirs : ∀ k, k ∈ sortedDirs b ↔ is_Some (b !! k)).
  { intros k. unfold sortedDirs. by rewrite elem_of_sort_strings, elem_of_range_keys, elem_of_dom. }
  rewrite load_entries; [|done|apply NoDup_sort_strings, NoDup_range_keys|].
  - apply map_eq. intros k. rewrite (lookup_fill (λ k, kept withFiles (entry_at b k))).
    rewrite lookup_fmap, lookup_empty. unfold entry_at. case_decide as Hk; rewrite Hdirs in Hk.
    + by destruct Hk as [e ->].
    + by rewrite <-eq_None_not_Some in Hk; rewrite Hk.
  - intros k Hk%Hdirs. split; [done|]. apply lookup_empty.
Qed.

Lemma write_order (R' : RangeOrder) b withFiles : @write R b withFiles = @write R' b withFiles.
Proof.
  unfold write, sortedDirs.
  assert (sort_strings (@range_keys R (dom b)) = sort_strings (@range_keys R' (dom b))) as ->; [|done].
  apply sort_strings_Proper. by rewrite !range_keys_perm.
Qed.
End write_load.

(** The archives a well-formed builder writes are read back to the same builder: the
    .db archive gives every entry without its file list, and loading the .files archive
    on top restores the lists, whatever the iteration order of either program run; the
    members written do not depend on that order. *)
Theorem write_load_roundtrip decode (R1 R2 : RangeOrder) (b : dbBuilder) db files :
  wf_builder b →
  decode db = Ok (complete (@WriteDB R1 b)) → decode files = Ok (complete (@WriteFiles R1 b)) →
  (∀ withFiles, @write R1 b withFiles = @write R2 b withFiles) ∧
  LoadDB decode newDBBuilder (Some db) = Ok ((λ e, e <| e_files := None |>) <$> b) ∧
  (b' ← LoadDB decode newDBBuilder (Some db); @LoadFiles decode R2 b' (Some files)) = Ok b.
Proof.
  intros Hb Hdb Hfiles.
  assert (LoadDB decode newDBBuilder (Some db) = Ok ((λ e, e <| e_files := None |>) <$> b)) as H1.
  { unfold LoadDB, load. rewrite Hdb. simpl. unfold WriteDB, newDBBuilder. by rewrite load_write. }
  split; [intros; apply write_order|]. split; [done|]. rewrite H1. simpl. unfold LoadFiles, load. rewrite Hfiles. simpl.
  unfold WriteFiles, newDBBuilder. rewrite load_write by done. f_equal. apply map_eq. intros k.
  rewrite lookup_range_alter, !lookup_fmap. destruct (b !! k) as [e|]; [|done]. simpl.
  unfold adopt_files, kept. simpl. rewrite decide_False by (intros H; by apply H). by destruct e.
Qed.

(** Loading a .files archive changes nothing but file lists, and takes the list of an
    entry only when the archive has an entry of the same directory with the same desc: a
    stale .files archive never lends its lists to newer packages. *)
Theorem LoadFiles_spec decode {R : RangeOrder} (b : dbBuilder) data :
  match LoadFiles decode b (Some data), load decode newDBBuilder (Some data) true with
  | Ok b', Ok files => ∀ k,
      b' !! k = (λ e, match files !! k with
                      | Some c => if decide (e_desc c = e_desc e) then e <| e_files := e_files c |> else e
                      | None => e
                      end) <$> b !! k
  | Err e, Err e' => e = e'
  | _, _ => False
  end.
Proof.
  unfold LoadFiles. destruct (load _ _ _ _) as [files|e]; simpl; [|done]. intros k.
  rewrite lookup_range_alter. unfold adopt_files.
  destruct (files !! k) as [c|]; destruct (b !! k) as [e|]; simpl; try done.
  f_equal. repeat case_decide; congruence.
Qed.

(** ** [Upsert] *)
Section upsert.
Context {R : RangeOrder}.
Implicit Types (b : dbBuilder).

Definition upsert_desc (meta : BinaryPackageMeta) (sig : string) : string :=
  desc_Bytes ((DescFromPkginfo (m_Info meta) (Filename meta) (CSize meta) (SHA256 meta))
    <| DESC.PGPSIG := if decide (sig = "") then "" else base64 sig |>).

Definition upsert_entry (meta : BinaryPackageMeta) (sig : string) : dbEntry :=
  let name := PKGINFO.PkgName (m_Info meta) in
  mkEntry (name +:+ "-" +:+ PKGINFO.PkgVer (m_Info meta)) name (upsert_desc meta sig)
    (Some (filesEntry (Files meta))).

Lemma Upsert_eq b meta sig :
  PKGINFO.PkgName (m_Info meta) ≠ "" → PKGINFO.PkgVer (m_Info meta) ≠ "" →
  Upsert b (Some meta) sig
  = Ok (<[e_dir (upsert_entry meta sig) := upsert_entry meta sig]>
          (Remove b (PKGINFO.PkgName (m_Info meta))).1).
Proof.
  intros Hn Hv. unfold Upsert. rewrite decide_False by tauto.
  destruct (Remove b _) as [b' r]. unfold upsert_entry, upsert_desc. simpl.
  do 5 f_equal. by case_decide.
Qed.
End upsert.

(** *** The name in a written desc *)
Lemma collapse_no_newline inside v : occurs newline (collapse_space inside v) = false.
Proof.
  revert inside. induction v as [|c v IH]; intros inside; simpl; [done|].
  destruct (Ascii.is_space c) eqn:Hc; [destruct inside|]; simpl; rewrite ?IH; try done.
  rewrite bool_decide_eq_false_2; [done|]. by intros <-.
Qed.

Lemma value_after_cons field l next lines :
  value_after field (l :: next :: lines)
  = if decide (l = field) then next else value_after field (next :: lines).
Proof. done. Qed.

Lemma split_nonempty c s : ∃ x l, split_char c s = x :: l.
Proof. destruct (split_char c s) eqn:E; [by apply split_char_not_nil in E|eauto]. Qed.

(** A line that is not the field is skipped. *)
Lemma descValue_skip s t field :
  occurs newline s = false → s ≠ field → descValue (s +:+ String newline t) field = descValue t field.
Proof.
  intros Hs Hne. unfold descValue. rewrite split_char_app by done.
  destruct (split_nonempty newline t) as (x & l & ->). by rewrite value_after_cons, decide_False.
Qed.

Lemma descValue_found field v t :
  occurs newline field = false → occurs newline v = false →
  descValue (field +:+ String newline (v +:+ String newline t)) field = v.
Proof.
  intros Hf Hv. unfold descValue. rewrite !split_char_app by done.
  by rewrite value_after_cons, decide_True.
Qed.

Lemma writeDescField_single f v t :
  v ≠ "" →
  writeDescField f [v] +:+ t
  = ("%" +:+ f +:+ "%") +:+ String newline
      (collapse_space false v +:+ String newline ("" +:+ String newline t)).
Proof.
  intros Hv. unfold writeDescField. rewrite decide_False by done. cbn [foldr].
  rewrite <-!str_app_assoc. simpl. by rewrite <-?str_app_assoc.
Qed.

Lemma descName_Bytes d :
  DESC.Name d ≠ "" → collapse_space false (DESC.Name d) = DESC.Name d →
  collapse_space false (DESC.FileName d) ≠ "%NAME%" →
  descName (desc_Bytes d) = DESC.Name d.
Proof.
  intros Hn Hc Hf. unfold descName, desc_Bytes, desc_writes. cbn [foldr fst snd].
  set (rest := writeDescField "BASE" _ +:+ _). clearbody rest.
  assert (Hname : descValue (writeDescField "NAME" [DESC.Name d] +:+ rest) "%NAME%" = DESC.Name d).
  { rewrite writeDescField_single by done. rewrite Hc.
    apply (descValue_found "%NAME%"); [done|]. rewrite <-Hc. apply collapse_no_newline. }
  destruct (decide (DESC.FileName d = "")) as [->|Hfn]; [exact Hname|].
  rewrite writeDescField_single by done.
  rewrite (descValue_skip "%FILENAME%") by done.
  rewrite descValue_skip by (done || apply collapse_no_newline).
  rewrite (descValue_skip "") by done. exact Hname.
Qed.

(** Metadata the builder can store: names of one path component, with the white space
    repo-add writes. *)
Definition good_meta (m : BinaryPackageMeta) : bool :=
  bool_decide (PKGINFO.PkgName (m_Info m) ≠ "") && bool_decide (PKGINFO.PkgVer (m_Info m) ≠ "")
  && negb (occurs "/" (PKGINFO.PkgName (m_Info m))) && negb (occurs "/" (PKGINFO.PkgVer (m_Info m)))
  && bool_decide (collapse_space false (PKGINFO.PkgName (m_Info m)) = PKGINFO.PkgName (m_Info m))
  && bool_decide (collapse_space false (Filename m) ≠ "%NAME%").

Lemma upsert_entry_wf m sig :
  good_meta m = true → wf_entry (e_dir (upsert_entry m sig)) (upsert_entry m sig).
Proof.
  unfold good_meta. rewrite !andb_true_iff, !bool_decide_eq_true, !negb_true_iff.
  intros (((((Hn & Hv) & Hon) & Hov) & Hc) & Hf). split_and!; [done| | |].
  - simpl. by destruct (PKGINFO.PkgName (m_Info m)).
  - simpl. rewrite !occurs_app, Hon. simpl. done.
  - unfold upsert_entry, upsert_desc. cbn [e_name e_desc]. symmetry. by apply descName_Bytes.
Qed.

Section builder_theorems.
Context (decode : string → result string tar_stream) {R : RangeOrder}.
Implicit Types (b : dbBuilder).

(** The operations on a builder, as its callers may interleave them. *)
Inductive builder_step : dbBuilder → dbBuilder → Prop :=
| step_LoadDB b r b' : LoadDB decode b r = Ok b' → builder_step b b'
| step_LoadFiles b r b' : LoadFiles decode b r = Ok b' → builder_step b b'
| step_Upsert b m sig b' : good_meta m = true → Upsert b (Some m) sig = Ok b' → builder_step b b'
| step_Remove b name : builder_step b (Remove b name).1
| step_AttachFiles b m b' : AttachFiles b m = Ok b' → builder_step b b'.

Lemma AttachFiles_Ok b m b' :
  AttachFiles b m = Ok b' → ∃ m' e dir, m = Some m' ∧
    dir = PKGINFO.PkgName (m_Info m') +:+ "-" +:+ PKGINFO.PkgVer (m_Info m') ∧ b !! dir = Some e ∧
    foldM (attach_check dir (e_desc e)) tt (range_map (attach_checks m')) = Ok tt ∧
    b' = <[dir := e <| e_files := Some (filesEntry (Files m')) |>]> b.
Proof.
  unfold AttachFiles. destruct m as [m|]; [|done].
  set (dir := _ +:+ _). destruct (b !! dir) as [e|] eqn:E; [|done].
  destruct (foldM _ _ _) as [[]|] eqn:F; simpl; [|done]. intros [= <-]. by exists m, e, dir.
Qed.

Lemma builder_step_wf b b' : wf_builder b → builder_step b b' → wf_builder b'.
Proof.
  intros Hb Hs. destruct Hs as [b r b' H|b r b' H|b m sig b' Hm H|b name|b m b' H].
  - by eapply load_LoadDB_wf.
  - by eapply LoadFiles_wf.
  - pose proof Hm as Hm'. unfold good_meta in Hm'. rewrite !andb_true_iff, !bool_decide_eq_true in Hm'.
    destruct Hm' as (((((Hn & Hv) & _) & _) & _) & _).
    rewrite Upsert_eq in H by done. injection H as <-.
    apply wf_builder_insert; [by apply Remove_wf|by apply upsert_entry_wf].
  - by apply Remove_wf.
  - apply AttachFiles_Ok in H as (m' & e & dir & _ & _ & He & _ & ->).
    apply wf_builder_insert; [done|]. by apply Hb in He.
Qed.
End builder_theorems.

(** Every builder reached from the empty one by loads of arbitrary archives, upserts
    of packages with proper names, removals and attached file lists is well formed: each
    entry is keyed by its directory, a single path component, and the name it is removed
    by is the %NAME% of its desc. *)
Theorem reachable_wf decode {R : RangeOrder} (b : dbBuilder) :
  rtc (builder_step decode) newDBBuilder b → wf_builder b.
Proof.
  intros H. assert (Hg : ∀ b0, wf_builder b0 → rtc (builder_step decode) b0 b → wf_builder b).
  { intros b0 Hb0 Hr. induction Hr; [done|]. by eauto using builder_step_wf. }
  apply (Hg newDBBuilder); [|done]. apply map_Forall_empty.
Qed.

(** [Upsert] fails only on absent metadata or an empty name or version; otherwise the
    package's directory holds the new entry, every other entry of the same package name
    is gone, and every entry of another name is as before. *)
Theorem Upsert_spec {R : RangeOrder} (b : dbBuilder) meta sig :
  match Upsert b meta sig with
  | Ok b' => ∃ m, meta = Some m ∧
      let name := PKGINFO.PkgName (m_Info m) in
      let dir := name +:+ "-" +:+ PKGINFO.PkgVer (m_Info m) in
      name ≠ "" ∧ PKGINFO.PkgVer (m_Info m) ≠ "" ∧
      b' !! dir = Some (upsert_entry m sig) ∧
      (∀ k, k ≠ dir → b' !! k = e ← b !! k; if decide (e_name e = name) then None else Some e) ∧
      (∀ k e, b' !! k = Some e → e_name e = name → k = dir)
  | Err ErrNilMeta => meta = None
  | Err ErrMissingName => ∃ m, meta = Some m ∧
      (PKGINFO.PkgName (m_Info m) = "" ∨ PKGINFO.PkgVer (m_Info m) = "")
  | Err _ => False
  end.
Proof.
  destruct meta as [m|]; [|done].
  destruct (decide (PKGINFO.PkgName (m_Info m) = "" ∨ PKGINFO.PkgVer (m_Info m) = "")) as [Hm|Hm].
  - unfold Upsert. rewrite decide_True by done. eauto.
  - apply Decidable.not_or in Hm as [Hn Hv]. rewrite Upsert_eq by done. exists m.
    destruct (Remove_spec b (PKGINFO.PkgName (m_Info m))) as [HR _].
    cbn [e_dir upsert_entry]. split_and!; try done.
    + apply lookup_insert_eq.
    + intros k Hk. by rewrite lookup_insert_ne, HR.
    + intros k e Hk He. apply dec_stable. intros Hne. rewrite lookup_insert_ne, HR in Hk by done.
      destruct (b !! k) as [e'|]; simpl in Hk; [|done]. case_decide; naive_solver.
Qed.

(** [AttachFiles] stores the file list exactly when the canonical entry exists and its
    desc has the package's file name, size and hash, and changes nothing else; a refusal
    names a field whose value in the desc differs. *)
Theorem AttachFiles_spec {R : RangeOrder} (b : dbBuilder) meta :
  match AttachFiles b meta with
  | Ok b' => ∃ m e dir, meta = Some m ∧ 
      dir = PKGINFO.PkgName (m_Info m) +:+ "-" +:+ PKGINFO.PkgVer (m_Info m) ∧
      b !! dir = Some e ∧
      descValue (e_desc e) "%FILENAME%" = Filename m ∧
      descValue (e_desc e) "%CSIZE%" = format_int (CSize m) ∧
      descValue (e_desc e) "%SHA256SUM%" = SHA256 m ∧
      b' = <[dir := e <| e_files := Some (filesEntry (Files m)) |>]> b
  | Err ErrNilMeta => meta = None
  | Err (ErrNotPresent dir) => b !! dir = None
  | Err (ErrMismatch dir field got want) => ∃ m e, meta = Some m ∧ b !! dir = Some e ∧
      (field, want) ∈ [("%FILENAME%", Filename m); ("%CSIZE%", format_int (CSize m));
                       ("%SHA256SUM%", SHA256 m)] ∧
      got = descValue (e_desc e) field ∧ got ≠ want
  | Err _ => False
  end.
Proof.
  unfold AttachFiles. destruct meta as [m|]; [|done]. set (dir := _ +:+ _).
  destruct (b !! dir) as [e|] eqn:He; [|done].
  assert (Hin : ∀ kv, kv ∈ range_map (attach_checks m) ↔
    kv ∈ [("%FILENAME%", Filename m); ("%CSIZE%", format_int (CSize m)); ("%SHA256SUM%", SHA256 m)]).
  { intros [k v]. rewrite elem_of_range_map. unfold attach_checks.
    rewrite <-elem_of_list_to_map; [done|]. simpl. repeat (constructor; [set_solver|]). constructor. }
  assert (Hc : ∀ l, match foldM (attach_check dir (e_desc e)) tt l with
    | Ok _ => ∀ k v, (k, v) ∈ l → descValue (e_desc e) k = v
    | Err (ErrMismatch d k got want) => d = dir ∧ (k, want) ∈ l ∧ got = descValue (e_desc e) k ∧ got ≠ want
    | Err _ => False
    end).
  { induction l as [|[k v] l IH]; simpl; [set_solver|]. unfold attach_check at 1. simpl.
    case_decide as Hkv; [set_solver|]. destruct (foldM _ _ l) as [|[]]; try done; [|set_solver].
    intros k1 v1 [E|Hin1]%elem_of_cons; [by injection E as -> ->|auto]. }
  specialize (Hc (range_map (attach_checks m))).
  destruct (foldM _ _ _) as [[]|[]]; simpl; try done.
  - exists m, e, dir. split_and!; try done; apply Hc, Hin; set_solver.
  - destruct Hc as (-> & Hk%Hin & Hg & Hne). eauto 10.
Qed.

(** ** Witnesses *)
Definition example_entry : dbEntry :=
  mkEntry "foo-1-1" "foo" ("%NAME%" +:+ String newline ("foo" +:+ String newline ""))
    (Some (filesEntry ["usr/bin/foo"])).

Definition example_builder : dbBuilder := {["foo-1-1" := example_entry]}.

Definition example_decode (s : string) : result string tar_stream :=
  Ok (complete (if decide (s = "db") then @WriteDB elements_order example_builder
                else @WriteFiles elements_order example_builder)).

Lemma example_builder_wf : wf_builder example_builder.
Proof. apply map_Forall_singleton. by vm_compute. Qed.

Lemma write_load_roundtrip_witness :
  wf_builder example_builder ∧
  (b' ← LoadDB example_decode newDBBuilder (Some "db");
   @LoadFiles example_decode elements_order b' (Some "files")) = Ok example_builder.
Proof.
  split; [apply example_builder_wf|].
  apply (write_load_roundtrip example_decode elements_order elements_order example_builder "db" "files").
  - apply example_builder_wf.
  - reflexivity.
  - reflexivity.
Defined.

Lemma reachable_wf_witness :
  rtc (@builder_step example_decode elements_order) newDBBuilder example_builder ∧
  wf_builder example_builder.
Proof.
  assert (H : rtc (@builder_step example_decode elements_order) newDBBuilder example_builder).
  { eapply rtc_l; [apply (step_LoadDB _ _ (Some "db")); vm_compute; reflexivity|].
    eapply rtc_l; [apply (step_LoadFiles _ _ (Some "files")); vm_compute; reflexivity|].
    apply rtc_refl. }
  split; [exact H|]. exact (@reachable_wf example_decode elements_order example_builder H).
Defined.
