(* ===== verification/Repo.v ===== *)
(** * Repository databases as snapshots (internal/pacman/repo)

    name.go, artifacts.go: the names of a repository and of its database files.
    remote.go: the bounded parse of a downloaded database.
    merge.go: the overlay of a local database on an upstream one and the difference of
    two snapshots.  source_compare.go: what to build and what to prune. *)

From S2P Require Import Prelude GoStrings KeyValue Pkginfo Desc Srcinfo SourcePackage Artifact Package Dbwriter.

(** ** Names *)
Inductive name_error := ErrEmptyName | ErrTraversal (name : string) | ErrCharacter (name : string).

Definition isASCIIAlphaNumeric (c : ascii) : bool := alphanumeric c.

(** Every byte of a rune outside ASCII is refused like the rune. *)
Definition ValidateName (name : string) : result name_error unit :=
  if decide (name = "") then Err ErrEmptyName
  else if decide (name = "." ∨ name = "..") then Err (ErrTraversal name)
  else if all_bytes (λ c, isASCIIAlphaNumeric c || occurs c "._-") name then Ok tt
  else Err (ErrCharacter name).

Record DatabaseArtifacts := mkArtifacts { repoName : string; archivePrefix : string }.

Definition Artifacts (repoName : string) : DatabaseArtifacts := mkArtifacts repoName repoName.
Definition WithArchivePrefix (a : DatabaseArtifacts) (prefix : string) : DatabaseArtifacts :=
  mkArtifacts (repoName a) prefix.

Definition DatabaseAlias (a : DatabaseArtifacts) : string := repoName a +:+ ".db".
Definition FilesAlias (a : DatabaseArtifacts) : string := repoName a +:+ ".files".
Definition DatabaseAliasSignature (a : DatabaseArtifacts) : string := DatabaseAlias a +:+ ".sig".
Definition FilesAliasSignature (a : DatabaseArtifacts) : string := FilesAlias a +:+ ".sig".
Definition DatabaseArchive (a : DatabaseArtifacts) : string := archivePrefix a +:+ ".db.tar.gz".
Definition FilesArchive (a : DatabaseArtifacts) : string := archivePrefix a +:+ ".files.tar.gz".
Definition DatabaseArchiveSignature (a : DatabaseArtifacts) : string := DatabaseArchive a +:+ ".sig".
Definition FilesArchiveSignature (a : DatabaseArtifacts) : string := FilesArchive a +:+ ".sig".

Definition Aliases (a : DatabaseArtifacts) : list string := [DatabaseAlias a; FilesAlias a].
Definition AliasSignatures (a : DatabaseArtifacts) : list string :=
  [DatabaseAliasSignature a; FilesAliasSignature a].
Definition Archives (a : DatabaseArtifacts) : list string := [DatabaseArchive a; FilesArchive a].
Definition ArchiveSignatures (a : DatabaseArtifacts) : list string :=
  [DatabaseArchiveSignature a; FilesArchiveSignature a].
Definition All (a : DatabaseArtifacts) : list string :=
  Aliases a ++ Archives a ++ AliasSignatures a ++ ArchiveSignatures a.

Definition ArchiveForAlias (a : DatabaseArtifacts) (name : string) : option string :=
  if decide (name = DatabaseAlias a) then Some (DatabaseArchive a)
  else if decide (name = FilesAlias a) then Some (FilesArchive a)
  else if decide (name = DatabaseAliasSignature a) then Some (DatabaseArchiveSignature a)
  else if decide (name = FilesAliasSignature a) then Some (FilesArchiveSignature a)
  else None.

(** ** The bounded parse *)
Definition maxRepoDBExpandedBytes : Z := 512 * 2 ^ 20.
Definition maxRepoDBDescBytes : Z := 2 ^ 20.
Definition maxRepoDBPackages : Z := 100000.

Record RemoteRepo := mkRemote { rr_Name : string; rr_Server : string; Pkgs : list BinaryPackage }.

Definition PkgByPkgName (r : RemoteRepo) (pkgname : string) : option BinaryPackage :=
  snd <$> list_find (λ p, bp_Name p = pkgname) (Pkgs r).

Definition PkgByPkgBase (r : RemoteRepo) (pkgbase : string) : option BinaryPackage :=
  snd <$> list_find (λ p, bp_Base p = pkgbase) (Pkgs r).

(** [repoDBReader.Read]: [n] is what the underlying reader delivers for a buffer of the
    given length, [cancelled] the error of the context. *)
Definition repoDBReader_Read (cancelled : option string) (read : Z → Z) (remaining len : Z)
    : result repo_error Z * Z :=
  match cancelled with
  | Some e => (Err (ErrReadTar e), remaining)
  | None =>
      if (remaining <=? 0)%Z then (Err (ErrLimit "expanded bytes"), remaining)
      else let len := if (remaining <? len)%Z then remaining else len in
           let n := read len in
           (Ok n, remaining - n)%Z
  end.

Section remote.
(** [decode] is the decompression with the tar reader over [repoDBReader]; [quote] is
    [shellquote.Join] on one value; [ctx_err] is what [ctx.Err] answers at each member. *)
Context (decode : string → result string tar_stream) (quote : string → string).
Context (ctx_err : nat → option string) {R : RangeOrder}.

Definition parse_member (i : nat) (pkgs : list BinaryPackage) (m : tar_member)
    : result repo_error (list BinaryPackage) :=
  match ctx_err i with
  | Some e => Err (ErrReadTar e)
  | None =>
      if decide (hdr_Typeflag m = TypeDir ∨ has_suffix (hdr_Name m) "/desc" = false) then
        if isNewDBFormat m then Err (ErrUnsupportedDBFormat (hdr_Name m)) else Ok pkgs
      else if (maxRepoDBDescBytes <? Z.of_nat (String.length (hdr_data m)))%Z
      then Err (ErrLimit (hdr_Name m))
      else if (maxRepoDBPackages <=? Z.of_nat (length pkgs))%Z then Err (ErrLimit "packages")
      else
        desc ← map_err (ErrParseDesc (hdr_Name m)) (ParseDesc (hdr_data m));
        Ok (pkgs ++ [NewBinaryPackage (DESC.FileName desc) (ToPKGINFO quote desc)])
  end.

Fixpoint parse_members (i : nat) (pkgs : list BinaryPackage) (l : list tar_member)
    : result repo_error (list BinaryPackage) :=
  match l with
  | [] => match ctx_err i with Some e => Err (ErrReadTar e) | None => Ok pkgs end
  | m :: l => pkgs ← parse_member i pkgs m; parse_members (S i) pkgs l
  end.

Definition RemoteRepoFromDBContext (name db : string) : result repo_error RemoteRepo :=
  stream ← map_err ErrDecompress (decode db);
  pkgs ← parse_members 0 [] (members stream);
  match stream_err stream with
  | Some e => Err (ErrReadTar e)
  | None => Ok (mkRemote name "" pkgs)
  end.
End remote.

(** ** Merging *)
Section merge.
Context (decode : string → result string tar_stream) (quote : string → string) {R : RangeOrder}.

(** [LoadDB] and [LoadFiles] of one database; the readers are optional. *)
Definition load_both (db files : option string) : result repo_error dbBuilder :=
  b ← LoadDB decode newDBBuilder db; LoadFiles decode b files.

Definition merge_builders (overlay merged : dbBuilder) : dbBuilder :=
  let merged := foldl (λ m name, (Remove m name).1) merged (names overlay) in
  foldl (λ m kv, <[kv.1 := kv.2]> m) merged (range_map overlay).

(** The members written to [dbOut] and [filesOut]. *)
Definition Merge (upstreamDB upstreamFiles localDB localFiles : option string)
    : result repo_error (list tar_member * list tar_member) :=
  overlay ← load_both localDB localFiles;
  merged ← load_both upstreamDB upstreamFiles;
  let merged := merge_builders overlay merged in
  Ok (WriteDB merged, WriteFiles merged).

(** ** Differences *)
Record DBDiff := mkDiff { Added : list string; Removed : list string; Updated : list string }.

Definition diff_empty (d : DBDiff) : bool :=
  bool_decide (length (Added d) = 0) && bool_decide (length (Removed d) = 0)
  && bool_decide (length (Updated d) = 0).

Definition index_packages (pkgs : list BinaryPackage) : gmap string string :=
  foldl (λ idx p, <[bp_Name p := bp_Version p]> idx) ∅ pkgs.

Definition indexVersions (db : option string) : result repo_error (gmap string string) :=
  match db with
  | None => Ok ∅
  | Some data =>
      rr ← RemoteRepoFromDBContext decode quote (λ _, None) "" data;
      Ok (index_packages (Pkgs rr))
  end.

Definition diff_new (oldIdx : gmap string string) (diff : list string * list string)
    (kv : string * string) : list string * list string :=
  match oldIdx !! kv.1 with
  | None => (diff.1 ++ [kv.1], diff.2)
  | Some ov => if decide (ov ≠ kv.2) then (diff.1, diff.2 ++ [kv.1]) else diff
  end.

Definition diff_index (oldIdx newIdx : gmap string string) : DBDiff :=
  let '(added, updated) := foldl (diff_new oldIdx) ([], []) (range_map newIdx) in
  let removed := filter (λ name, newIdx !! name = None) (range_keys (dom oldIdx)) in
  mkDiff (sort_strings added) (sort_strings removed) (sort_strings updated).

Definition DiffDB (oldDB newDB : option string) : result repo_error DBDiff :=
  oldIdx ← indexVersions oldDB;
  newIdx ← indexVersions newDB;
  Ok (diff_index oldIdx newIdx).
End merge.

(** ** Comparison with sources *)
Definition to_build (vercmp : string → string → Z) (remote : RemoteRepo)
    (source : SourcePackage.SourcePackage) : bool :=
  match PkgByPkgBase remote (sp_Base source) with
  | None => true
  | Some published => (0 <? vercmp (sp_Version source) (bp_Version published))%Z
  end.

Definition DiffPackages (vercmp : string → string → Z) (src : list SourcePackage.SourcePackage)
    (remote : RemoteRepo) : list SourcePackage.SourcePackage :=
  filter (λ source, to_build vercmp remote source = true) src.

Definition PrunablePackages (desired : list string) (remote : RemoteRepo) : list string :=
  let set : gset string := list_to_set desired in
  filter (λ name, name ∉ set) (map bp_Name (Pkgs remote)).

(** ** Theorems: names *)

(** A valid repository name is a single path component, and so is each of the eight
    names of its database; they are pairwise different, and the public aliases resolve
    to the archives of the same kind, nothing else does. *)
Theorem Artifacts_names name :
  ValidateName name = Ok tt →
  let a := Artifacts name in
  NoDup (All a) ∧ Forall (λ n, path_base n = n ∧ occurs "/" n = false ∧ n ≠ "." ∧ n ≠ "..") (name :: All a) ∧
  ∀ alias archive, ArchiveForAlias a alias = Some archive ↔
    (alias, archive) ∈ zip (Aliases a ++ AliasSignatures a) (Archives a ++ ArchiveSignatures a).
Proof.
  unfold ValidateName. case_decide as Hne; [done|]. case_decide as Hdot; [done|].
  destruct (all_bytes _ name) eqn:Hb; [|done]. intros _. set (a := Artifacts name).
  assert (Ho : occurs "/" name = false) by (eapply all_bytes_occurs; [|exact Hb]; done).
  assert (Hall : All a = map (String.append name) [".db"; ".files"; ".db.tar.gz"; ".files.tar.gz";
    ".db.sig"; ".files.sig"; ".db.tar.gz.sig"; ".files.tar.gz.sig"]).
  { unfold All, Aliases, Archives, AliasSignatures, ArchiveSignatures, DatabaseAliasSignature,
      FilesAliasSignature, DatabaseArchiveSignature, FilesArchiveSignature, DatabaseAlias,
      FilesAlias, DatabaseArchive, FilesArchive. simpl. by rewrite <-!str_app_assoc. }
  split_and!.
  - rewrite Hall. apply (NoDup_fmap_2 (String.append name)). apply (bool_decide_eq_true_1 _). by vm_compute.
  - apply Forall_cons. split.
    { split_and!; [by apply path_base_id|done|naive_solver..]. }
    rewrite Hall. apply Forall_forall. intros n (x & -> & Hx)%list_elem_of_fmap.
    assert (Hno : occurs "/" (name +:+ x) = false ∧ 2 < String.length x).
    { rewrite occurs_app, Ho. revert x Hx. apply Forall_forall.
      repeat (apply Forall_cons; split; [split; [done|simpl; lia]|]). by apply Forall_nil. }
    destruct Hno as [Hno Hl].
    assert (2 < String.length (name +:+ x)) by (rewrite length_str_app; lia).
    split_and!; [apply path_base_id| | |]; try done; intros E; rewrite E in *; simpl in *; lia.
  - intros alias archive.
    assert (Hnd : NoDup (Aliases a ++ AliasSignatures a)).
    { assert (E : Aliases a ++ AliasSignatures a
                  = map (String.append name) [".db"; ".files"; ".db.sig"; ".files.sig"]).
      { unfold Aliases, AliasSignatures, DatabaseAliasSignature, FilesAliasSignature, DatabaseAlias,
          FilesAlias. simpl. by rewrite <-!str_app_assoc. }
      rewrite E. apply (NoDup_fmap_2 (String.append name)). apply (bool_decide_eq_true_1 _).
      by vm_compute. }
    unfold Aliases, AliasSignatures in Hnd. cbn [app] in Hnd. rewrite !NoDup_cons in Hnd.
    rewrite !not_elem_of_cons in Hnd. unfold ArchiveForAlias. simpl.
    rewrite !elem_of_cons, elem_of_nil. repeat case_decide; naive_solver.
Qed.

Lemma Artifacts_names_witness :
  ValidateName "my-repo_1.0" = Ok tt ∧ NoDup (All (Artifacts "my-repo_1.0")).
Proof.
  split; [reflexivity|]. exact (proj1 (Artifacts_names "my-repo_1.0" eq_refl)).
Defined.

(** ** Theorems: merging *)
Section merge_theorems.
Context {R : RangeOrder}.

Lemma elem_of_names (b : dbBuilder) n : n ∈ names b ↔ n ≠ "" ∧ ∃ k e, b !! k = Some e ∧ e_name e = n.
Proof.
  unfold names. rewrite list_elem_of_filter, list_elem_of_fmap. split.
  - intros [? ([k e] & -> & Hin%elem_of_range_map)]. eauto.
  - intros [? (k & e & Hk%elem_of_range_map & <-)]. split; [done|]. by exists (k, e).
Qed.

Lemma lookup_remove_all l (b : dbBuilder) k e :
  foldl (λ m name, (Remove m name).1) b l !! k = Some e ↔ b !! k = Some e ∧ e_name e ∉ l.
Proof.
  revert b. induction l as [|n l IH]; intros b; simpl; [set_solver|].
  rewrite IH, lookup_Remove, not_elem_of_cons. tauto.
Qed.

Lemma lookup_overlay (overlay m : dbBuilder) k :
  foldl (λ m kv, <[kv.1 := kv.2]> m) m (range_map overlay) !! k
  = match overlay !! k with Some e => Some e | None => m !! k end.
Proof.
  pose proof (lookup_range_insert (λ (_ : string) (e : dbEntry), Some e) m overlay k) as H.
  unfold range_insert in H. rewrite H. by destruct (overlay !! k).
Qed.

Lemma lookup_merge_builders overlay upstream k e :
  merge_builders overlay upstream !! k = Some e ↔
  overlay !! k = Some e ∨
  overlay !! k = None ∧ upstream !! k = Some e ∧
    (e_name e = "" ∨ ∀ k' e', overlay !! k' = Some e' → e_name e' ≠ e_name e).
Proof.
  unfold merge_builders. rewrite lookup_overlay.
  destruct (overlay !! k) as [e1|] eqn:E; [naive_solver|].
  rewrite lookup_remove_all, elem_of_names.
  destruct (decide (e_name e = "")) as [He|He]; naive_solver.
Qed.

Lemma load_both_wf decode db files b : load_both decode db files = Ok b → wf_builder b.
Proof.
  unfold load_both. intros H. apply bind_Ok in H as (b0 & H0 & H). eapply LoadFiles_wf; [|done].
  eapply load_LoadDB_wf; [|done]. apply map_Forall_empty.
Qed.
End merge_theorems.

(** The merged database: every local entry as it is, and of the upstream entries
    exactly those whose directory is not local and whose package name no local entry
    has. It is well formed, so that what is written reads back, and the loads of the four
    archives are the only failures. *)
Theorem Merge_spec decode {R : RangeOrder} upDB upFiles localDB localFiles :
  match load_both decode localDB localFiles, load_both decode upDB upFiles with
  | Ok overlay, Ok upstream => ∃ merged : dbBuilder,
      Merge decode upDB upFiles localDB localFiles = Ok (WriteDB merged, WriteFiles merged) ∧
      wf_builder merged ∧
      ∀ k e, merged !! k = Some e ↔
        overlay !! k = Some e ∨
        overlay !! k = None ∧ upstream !! k = Some e ∧
          (e_name e = "" ∨ ∀ k' e', overlay !! k' = Some e' → e_name e' ≠ e_name e)
  | Err err, _ => Merge decode upDB upFiles localDB localFiles = Err err
  | Ok _, Err err => Merge decode upDB upFiles localDB localFiles = Err err
  end.
Proof.
  unfold Merge. destruct (load_both decode localDB localFiles) as [overlay|] eqn:Ho; simpl; [|done].
  destruct (load_both decode upDB upFiles) as [upstream|] eqn:Hu; simpl; [|done].
  exists (merge_builders overlay upstream).
  pose proof (lookup_merge_builders overlay upstream) as Hm. split_and!; [done| |done].
  intros k e He. apply Hm in He as [He|(_ & He & _)].
  - by apply (load_both_wf _ _ _ _ Ho).
  - by apply (load_both_wf _ _ _ _ Hu).
Qed.

(** ** Theorems: differences *)
Section diff_theorems.
Context {R : RangeOrder}.

Lemma diff_new_fold old l acc :
  let r := foldl (diff_new old) acc l in
  r.1 = acc.1 ++ map fst (filter (λ kv, old !! kv.1 = None) l) ∧
  r.2 = acc.2 ++ map fst (filter (λ kv, is_Some (old !! kv.1) ∧ old !! kv.1 ≠ Some kv.2) l).
Proof.
  revert acc. induction l as [|[k v] l IH]; intros acc; simpl; [by rewrite !app_nil_r|].
  destruct (IH (diff_new old acc (k, v))) as [-> ->]. rewrite !filter_cons. unfold diff_new. simpl.
  destruct (old !! k) as [ov|] eqn:E; simpl; repeat case_decide; simpl;
    rewrite <-?(assoc (++)); try done; exfalso; naive_solver.
Qed.

Lemma NoDup_filter_map (P : string * string → Prop) `{∀ x, Decision (P x)} l :
  NoDup (map fst l) → NoDup (map fst (filter P l)).
Proof.
  intros Hnd. induction l as [|a l IH]; [constructor|]. simpl in Hnd.
  apply NoDup_cons in Hnd as [Ha Hnd]. rewrite filter_cons. case_decide; [|auto].
  simpl. constructor; [|auto]. intros (x & Hx & Hin)%list_elem_of_fmap. apply Ha.
  apply list_elem_of_fmap. apply list_elem_of_filter in Hin as [_ Hin]. eauto.
Qed.

Lemma diff_index_spec old new :
  let d := diff_index old new in
  (∀ n, n ∈ Added d ↔ is_Some (new !! n) ∧ old !! n = None) ∧
  (∀ n, n ∈ Removed d ↔ is_Some (old !! n) ∧ new !! n = None) ∧
  (∀ n, n ∈ Updated d ↔ ∃ v w, old !! n = Some v ∧ new !! n = Some w ∧ v ≠ w) ∧
  Forall (λ l, StronglySorted String.le l ∧ NoDup l) [Added d; Removed d; Updated d].
Proof.
  unfold diff_index. pose proof (diff_new_fold old (range_map new) ([], [])) as [Ha Hu].
  destruct (foldl _ _ _) as [added updated]. simpl in Ha, Hu. subst. cbn zeta. simpl. split_and!.
  - intros n. rewrite elem_of_sort_strings, list_elem_of_fmap. split.
    + intros ([k v] & -> & [Ho Hk%elem_of_range_map]%list_elem_of_filter). simpl in *. eauto.
    + intros [[v Hv%elem_of_range_map] Ho]. exists (n, v). split; [done|].
      by apply list_elem_of_filter.
  - intros n. rewrite elem_of_sort_strings, list_elem_of_filter, elem_of_range_keys, elem_of_dom. tauto.
  - intros n. rewrite elem_of_sort_strings, list_elem_of_fmap. split.
    + intros ([k v] & -> & [[[w Hw] Hne] Hk%elem_of_range_map]%list_elem_of_filter). simpl in *.
      exists w, v. split_and!; [done..|]. congruence.
    + intros (v & w & Hv & Hw%elem_of_range_map & Hne). exists (n, w). split; [done|].
      apply list_elem_of_filter. simpl. rewrite Hv. split; [|done]. split; [done|]. congruence.
  - repeat (apply Forall_cons; split; [split; [apply sort_strings_sorted|apply NoDup_sort_strings]|]);
      try apply Forall_nil; try done.
    + apply NoDup_filter_map, NoDup_range_map.
    + apply NoDup_filter, NoDup_range_keys.
    + apply NoDup_filter_map, NoDup_range_map.
Qed.
End diff_theorems.

(** The difference of two snapshots, by package name: added names are only in the new
    one, removed ones only in the old one, updated ones in both with another version;
    each list is sorted without repetition, and the difference is empty exactly when both
    have the same names and versions. *)
Theorem DiffDB_spec decode quote {R : RangeOrder} old new :
  match indexVersions decode quote old, indexVersions decode quote new with
  | Ok oldIdx, Ok newIdx => ∃ d, DiffDB decode quote old new = Ok d ∧
      (∀ n, n ∈ Added d ↔ is_Some (newIdx !! n) ∧ oldIdx !! n = None) ∧
      (∀ n, n ∈ Removed d ↔ is_Some (oldIdx !! n) ∧ newIdx !! n = None) ∧
      (∀ n, n ∈ Updated d ↔ ∃ v w, oldIdx !! n = Some v ∧ newIdx !! n = Some w ∧ v ≠ w) ∧
      Forall (λ l, StronglySorted String.le l ∧ NoDup l) [Added d; Removed d; Updated d] ∧
      (diff_empty d = true ↔ oldIdx = newIdx)
  | Ok _, Err e => DiffDB decode quote old new = Err e
  | Err e, _ => DiffDB decode quote old new = Err e
  end.
Proof.
  unfold DiffDB. destruct (indexVersions decode quote old) as [o|]; simpl; [|done].
  destruct (indexVersions decode quote new) as [n|]; simpl; [|done].
  exists (diff_index o n). destruct (diff_index_spec o n) as (Ha & Hr & Hu & Hs).
  split_and!; try done. unfold diff_empty. rewrite !andb_true_iff, !bool_decide_eq_true. split.
  - intros [[Ha0%nil_length_inv Hr0%nil_length_inv] Hu0%nil_length_inv].
    rewrite Ha0 in Ha. rewrite Hr0 in Hr. rewrite Hu0 in Hu. apply map_eq. intros k.
    specialize (Ha k). specialize (Hr k). specialize (Hu k).
    destruct (o !! k) as [v|], (n !! k) as [w|]; try done.
    + destruct (decide (v = w)); [by subst|]. assert (k ∈ []) by (apply Hu; eauto). set_solver.
    + assert (k ∈ []) by (apply Hr; eauto). set_solver.
    + assert (k ∈ []) by (apply Ha; eauto). set_solver.
  - intros ->. assert (Hnil : ∀ l : list string, (∀ x, x ∉ l) → length l = 0).
    { intros [|x l] Hx; [done|]. destruct (Hx x). set_solver. }
    split_and!; apply Hnil; intros x; [rewrite Ha|rewrite Hr|rewrite Hu];
      [intros [[? ?] ?]; congruence..|intros (? & ? & ? & ? & ?); congruence].
Qed.

(** ** Theorems: the bounded parse *)

(** A run of reads: the context, the underlying reader and the buffer of each. *)
Definition read_call : Type := option string * (Z → Z) * Z.

Definition run_read (acc : Z * Z) (c : read_call) : Z * Z :=
  match repoDBReader_Read c.1.1 c.1.2 acc.1 c.2 with
  | (Ok n, remaining) => (remaining, acc.2 + n)%Z
  | (Err _, remaining) => (remaining, acc.2)
  end.

(** However the underlying reader splits its data, the reader of a repository database
    delivers at most 512 MiB, keeps exactly the rest of that budget, and once it is spent
    every further read is an error. *)
Theorem repoDBReader_bounded (calls : list read_call) :
  Forall (λ c, ∀ len, 0 ≤ len → 0 ≤ c.1.2 len ≤ len)%Z calls → Forall (λ c, 0 ≤ c.2)%Z calls →
  let '(remaining, delivered) := foldl run_read (maxRepoDBExpandedBytes, 0%Z) calls in
  (0 ≤ delivered ≤ maxRepoDBExpandedBytes ∧ delivered + remaining = maxRepoDBExpandedBytes ∧
   (delivered = maxRepoDBExpandedBytes → ∀ cancelled read len,
      is_ok (repoDBReader_Read cancelled read remaining len).1 = false))%Z.
Proof.
  assert (Hmax : (0 ≤ maxRepoDBExpandedBytes)%Z) by (unfold maxRepoDBExpandedBytes; lia).
  revert Hmax. generalize maxRepoDBExpandedBytes. intros max Hmax Hread Hlen.
  assert (H : ∀ r d, (0 ≤ r → 0 ≤ d → 0 ≤ (foldl run_read (r, d) calls).1 ∧
    0 ≤ (foldl run_read (r, d) calls).2 ∧
    (foldl run_read (r, d) calls).1 + (foldl run_read (r, d) calls).2 = r + d)%Z).
  { induction calls as [|[[c read] len] calls IH]; intros r d Hr Hd; simpl; [lia|].
    apply Forall_cons in Hread as [Hread1 Hread]. apply Forall_cons in Hlen as [Hlen1 Hlen].
    simpl in Hread1, Hlen1. specialize (IH Hread Hlen). unfold run_read at 2 4 6 8. simpl.
    unfold repoDBReader_Read. destruct c; [by apply IH|].
    destruct (Z.leb_spec r 0) as [H0|H0]; [by apply IH|].
    destruct (Z.ltb_spec r len) as [Hl|Hl].
    - specialize (Hread1 r Hr). destruct (IH (r - read r)%Z (d + read r)%Z); lia.
    - specialize (Hread1 len Hlen1). destruct (IH (r - read len)%Z (d + read len)%Z); lia. }
  specialize (H max 0%Z Hmax (Z.le_refl 0)). destruct (foldl _ _ _) as [rem del]. simpl in H.
  split_and!; [lia..|]. intros Hdel cancelled read len. unfold repoDBReader_Read.
  destruct cancelled; [done|]. destruct (Z.leb_spec rem 0); [done|lia].
Qed.

Lemma repoDBReader_bounded_witness :
  let calls : list read_call := [(None, λ len, Z.min len 1024, 4096); (None, id, 512 * 2 ^ 20)]%Z in
  let '(remaining, delivered) := foldl run_read (maxRepoDBExpandedBytes, 0%Z) calls in
  (0 ≤ delivered ≤ maxRepoDBExpandedBytes ∧ delivered + remaining = maxRepoDBExpandedBytes ∧
   (delivered = maxRepoDBExpandedBytes → ∀ cancelled read len,
      is_ok (repoDBReader_Read cancelled read remaining len).1 = false))%Z.
Proof.
  intros calls. apply (repoDBReader_bounded calls).
  - repeat (apply Forall_cons; split; [unfold id; simpl; lia|]). by apply Forall_nil.
  - repeat (apply Forall_cons; split; [simpl; lia|]). by apply Forall_nil.
Defined.

Section remote_theorems.
Context (decode : string → result string tar_stream) (quote : string → string) {R : RangeOrder}.

Definition is_desc (m : tar_member) : bool :=
  negb (bool_decide (hdr_Typeflag m = TypeDir)) && has_suffix (hdr_Name m) "/desc".

(** The package of a desc member. *)
Definition desc_package (m : tar_member) (p : BinaryPackage) : Prop :=
  ∃ d, ParseDesc (hdr_data m) = Ok d ∧ p = NewBinaryPackage (DESC.FileName d) (ToPKGINFO quote d).

Definition descs (l : list tar_member) : list tar_member := filter (λ m, is_desc m = true) l.

Definition acceptable (l : list tar_member) : Prop :=
  Forall (λ m, is_desc m = false → isNewDBFormat m = false) l ∧
  Forall (λ m, Z.of_nat (String.length (hdr_data m)) ≤ maxRepoDBDescBytes)%Z (descs l).

Lemma is_desc_decide m :
  is_desc m = false ↔ hdr_Typeflag m = TypeDir ∨ has_suffix (hdr_Name m) "/desc" = false.
Proof.
  unfold is_desc. rewrite andb_false_iff, negb_false_iff, bool_decide_eq_true. done.
Qed.

Lemma parse_members_Ok i pkgs l r :
  parse_members quote (λ _, None) i pkgs l = Ok r ↔
  acceptable l ∧ (descs l = [] ∨ (Z.of_nat (length pkgs + length (descs l)) ≤ maxRepoDBPackages)%Z) ∧
  ∃ ps, Forall2 desc_package (descs l) ps ∧ r = pkgs ++ ps.
Proof.
  unfold acceptable, descs. revert i pkgs. induction l as [|m l IH]; intros i pkgs; simpl.
  - split.
    + intros [= <-]. split_and!; [by constructor|by constructor|by left|]. exists []. by rewrite app_nil_r.
    + intros (_ & _ & ps & Hps & ->). inversion Hps. by rewrite app_nil_r.
  - rewrite filter_cons, Forall_cons. unfold parse_member. case_decide as Hd.
    + apply is_desc_decide in Hd. rewrite (decide_False (P := is_desc m = true)) by congruence.
      destruct (isNewDBFormat m); simpl; [naive_solver|]. rewrite IH. naive_solver.
    + assert (is_desc m = true) as Hm by (apply not_false_iff_true; by rewrite is_desc_decide).
      rewrite (decide_True (P := is_desc m = true)) by done. rewrite Forall_cons.
      destruct (Z.ltb_spec maxRepoDBDescBytes (Z.of_nat (String.length (hdr_data m)))) as [Hs|Hs].
      { split; [done|]. intros [[_ [? _]] _]. lia. }
      destruct (Z.leb_spec maxRepoDBPackages (Z.of_nat (length pkgs))) as [Hmax|Hmax].
      { split; [done|]. cbn [length]. intros (_ & [?|?] & _); [done|lia]. }
      destruct (ParseDesc (hdr_data m)) as [d|e] eqn:Hp; cbn.
      * rewrite IH, length_app. cbn [length]. split.
        -- intros ([Ha1 Ha2] & Hl & ps & Hps & ->).
           split_and!; [by rewrite Hm|done|done|done| |].
           ++ right. destruct Hl as [->|?]; cbn [length]; lia.
           ++ eexists (_ :: ps). split; [constructor; [by exists d|done]|]. by rewrite <-(assoc (++)).
        -- intros ([[_ Ha1] [_ Ha2]] & Hl & ps & Hps & ->). apply Forall2_cons_inv_l in Hps as (p & ps' & (d' & E & ->) & Hps & ->).
           split_and!; [done|done|right; destruct Hl as [?|?]; [done|lia]|].
           exists ps'. split; [done|]. rewrite Hp in E. injection E as <-. by rewrite <-(assoc (++)).
      * split; [done|]. intros (_ & _ & ps & Hps & _).
        apply Forall2_cons_inv_l in Hps as (p & ps' & (d' & E & _) & _). congruence.
Qed.
End remote_theorems.

(** A database is accepted exactly when it decodes completely, no member outside the
    desc files is an embedded SQLite database, every desc has at most 1 MiB and parses,
    and there are at most 100000 of them; the packages are then those of the desc
    members, in the order of the archive. *)
Theorem RemoteRepoFromDB_spec decode quote {R : RangeOrder} name db r :
  RemoteRepoFromDBContext decode quote (λ _, None) name db = Ok r ↔
  ∃ ms, decode db = Ok (complete ms) ∧ acceptable ms ∧ (Z.of_nat (length (descs ms)) ≤ maxRepoDBPackages)%Z ∧
    Forall2 (desc_package quote) (descs ms) (Pkgs r) ∧ r = mkRemote name "" (Pkgs r).
Proof.
  unfold RemoteRepoFromDBContext. destruct (decode db) as [[ms err]|e]; simpl; [|naive_solver].
  destruct (parse_members quote (λ _, None) 0 [] ms) as [pkgs|e] eqn:E; simpl.
  - apply parse_members_Ok in E as (Ha & Hl & ps & Hps & ->). simpl. split.
    + destruct err; [done|]. intros [= <-]. exists ms. split_and!; try done.
      destruct Hl as [->|?]; [done|done].
    + intros (ms' & [= -> ->] & _ & _ & Hps' & ->). simpl in *. f_equal. f_equal.
      clear -Hps Hps'. revert Hps'. generalize (Pkgs r). induction Hps as [|m p l ps Hp Hps IH]; intros qs Hqs.
      * by inversion Hqs.
      * apply Forall2_cons_inv_l in Hqs as (q & qs' & Hq & Hqs & ->). f_equal; [|by apply IH].
        destruct Hp as (d & Hd & ->), Hq as (d' & Hd' & ->). congruence.
  - split; [done|]. intros (ms' & [= -> ->] & Ha & Hl & Hps & _). exfalso.
    assert (parse_members quote (λ _, None) 0 [] ms' = Ok (Pkgs r)); [|congruence].
    apply parse_members_Ok. split_and!; [done|by right|]. by exists (Pkgs r).
Qed.

(** ** From the builder to the readers of the repository *)
Section published.
Context (quote : string → string) {R : RangeOrder}.

Definition desc_member (e : dbEntry) : tar_member := mkMember (e_dir e +:+ "/desc") TypeReg (e_desc e).

Lemma descs_WriteDB (b : dbBuilder) :
  descs (WriteDB b) = map (λ dir, desc_member (entry_at b dir)) (sortedDirs b).
Proof.
  unfold WriteDB, write, descs. induction (sortedDirs b) as [|d l IH]; [done|].
  cbn [map concat]. rewrite filter_app, IH. f_equal. unfold entry_members.
  rewrite !filter_cons. rewrite decide_False by done. rewrite decide_True.
  - by destruct (e_files _).
  - unfold is_desc. simpl. apply has_suffix_true. by exists (e_dir (entry_at b d)).
Qed.

Lemma WriteDB_not_sqlite (b : dbBuilder) :
  Forall (λ m, is_desc m = false → isNewDBFormat m = false) (WriteDB b).
Proof.
  unfold WriteDB, write. induction (sortedDirs b) as [|d l IH]; [constructor|].
  cbn [map concat]. apply Forall_app. split; [|done]. unfold entry_members.
  assert (is_desc (desc_member (entry_at b d)) = true).
  { unfold is_desc. simpl. apply has_suffix_true. by exists (e_dir (entry_at b d)). }
  unfold desc_member in *. repeat constructor; [congruence|]. destruct (e_files _); constructor.
Qed.

(** An entry [Upsert] stored for well-formed metadata, within the size limit. *)
Definition published_entry (e : dbEntry) (m : BinaryPackageMeta) : Prop :=
  ∃ sig, e = upsert_entry m sig ∧
    wf_desc ((DescFromPkginfo (m_Info m) (Filename m) (CSize m) (SHA256 m))
      <| DESC.PGPSIG := if decide (sig = "") then "" else base64 sig |>) = true ∧
    (Z.of_nat (String.length (e_desc e)) ≤ maxRepoDBDescBytes)%Z.

Lemma published_package e m :
  published_entry e m →
  desc_package quote (desc_member e) (NewBinaryPackage (Filename m) (published_info (m_Info m))).
Proof.
  intros (sig & -> & Hwf & _). eexists. split.
  - simpl. unfold upsert_desc. by apply parse_written.
  - by rewrite ToPKGINFO_written.
Qed.
End published.

(** C21. What clients download is what was added, as far as a repository database holds it: when
    every entry of a builder was stored by [Upsert] for well-formed metadata ([wf_desc]: numbers
    of 64 bits, and values that are not empty, fit a line of the reader, have no spaces that it
    would collapse, and do not read as a header), within the limits, the .db archive it writes is
    accepted and gives one package per entry, with the file name of the upsert and the metadata
    [published_info], which is that of the package without backup, xdata, pkgtype and a build date
    that is not positive. *)
Theorem published_packages decode quote {R : RangeOrder} (b : dbBuilder)
    (metas : gmap string BinaryPackageMeta) name db :
  map_Forall (λ k e, ∃ m, metas !! k = Some m ∧ published_entry e m) b →
  (Z.of_nat (size b) ≤ maxRepoDBPackages)%Z → decode db = Ok (complete (WriteDB b)) →
  ∃ r, RemoteRepoFromDBContext decode quote (λ _, None) name db = Ok r ∧
    length (Pkgs r) = size b ∧
    ∀ p, p ∈ Pkgs r ↔ ∃ k m, is_Some (b !! k) ∧ metas !! k = Some m ∧
      p = NewBinaryPackage (Filename m) (published_info (m_Info m)).
Proof.
  intros Hb Hsize Hdb.
  assert (Hdirs : ∀ k, k ∈ sortedDirs b ↔ is_Some (b !! k)).
  { intros k. unfold sortedDirs. by rewrite elem_of_sort_strings, elem_of_range_keys, elem_of_dom. }
  assert (Hlen : length (sortedDirs b) = size b).
  { unfold sortedDirs. rewrite sort_strings_perm, range_keys_perm. apply size_dom. }
  set (package k := match metas !! k with
                    | Some m => NewBinaryPackage (Filename m) (published_info (m_Info m))
                    | None => NewBinaryPackage "" NewPKGINFO
                    end).
  assert (Hentry : ∀ k, k ∈ sortedDirs b → ∃ m, metas !! k = Some m ∧ published_entry (entry_at b k) m).
  { intros k Hk%Hdirs. destruct Hk as [e He]. unfold entry_at. rewrite He. by apply (Hb k). }
  exists (mkRemote name "" (map package (sortedDirs b))). split_and!.
  - unfold RemoteRepoFromDBContext. rewrite Hdb. cbn [mbind result_bind map_err complete members stream_err].
    assert (parse_members quote (λ _, None) 0 [] (WriteDB b) = Ok (map package (sortedDirs b))) as ->; [|done].
    apply parse_members_Ok. unfold acceptable. rewrite descs_WriteDB. split_and!.
    + apply WriteDB_not_sqlite.
    + apply Forall_forall. intros x (k & -> & Hk)%list_elem_of_fmap.
      by destruct (Hentry k Hk) as (m & _ & sig & _ & _ & Hs).
    + right. rewrite length_map. simpl. by rewrite Hlen.
    + eexists. split; [|reflexivity]. clear Hlen.
      assert (Hall : ∀ k, k ∈ sortedDirs b → desc_package quote (desc_member (entry_at b k)) (package k)).
      { intros k Hk. destruct (Hentry k Hk) as (m & Hm & Hp). unfold package. rewrite Hm.
        by apply published_package. }
      clear -Hall. induction (sortedDirs b) as [|k l IH]; [constructor|]. simpl.
      constructor; [apply Hall; set_solver|]. apply IH. intros k' Hk'. apply Hall. set_solver.
  - simpl. by rewrite length_map.
  - intros p. simpl. rewrite list_elem_of_fmap. split.
    + intros (k & -> & Hk). destruct (Hentry k Hk) as (m & Hm & _). exists k, m.
      unfold package. rewrite Hm. by apply Hdirs in Hk.
    + intros (k & m & Hk%Hdirs & Hm & ->). exists k. unfold package. by rewrite Hm.
Qed.

Definition example_meta : BinaryPackageMeta :=
  mkMeta "foo-1:1.0-1-any.pkg.tar.zst" 1234 "00ff" example_pkginfo ["usr/"; "usr/bin/"].

Definition published_builder : dbBuilder :=
  {[e_dir (upsert_entry example_meta "sig") := upsert_entry example_meta "sig"]}.

Lemma published_packages_witness :
  let decode _ := Ok (complete (@WriteDB elements_order published_builder)) in
  ∃ r, @RemoteRepoFromDBContext decode id (λ _, None) elements_order "repo" "db" = Ok r ∧
    length (Pkgs r) = 1.
Proof.
  intros decode.
  destruct (@published_packages decode id elements_order published_builder
    {[e_dir (upsert_entry example_meta "sig") := example_meta]} "repo" "db") as (r & Hr & Hl & _).
  - unfold published_builder. apply map_Forall_singleton. exists example_meta.
    split; [apply lookup_singleton_eq|]. exists "sig". split_and!; [done|by vm_compute|by vm_compute].
  - by vm_compute.
  - done.
  - exists r. split; [exact Hr|exact Hl].
Defined.
