(* ===== verification/Dbtool.v ===== *)
(** * The native repository tool (internal/pacman/repo/dbtool.go, dbtool_sign.go)

    [RepoAddBatch], [RepoRemove] and [RebuildDerived] on a file system whose operations
    may fail at any point, before or after a replacement took effect.  The archives are
    encoded by gzip and tar ([encode], [decode]) and signed by OpenPGP ([signer]), all
    parameters. *)

From S2P Require Import Prelude GoStrings KeyValue Pkginfo Desc Package Dbwriter.

Inductive tool_error :=
| ErrSignedDBUnsupported
| ErrInvalidDBName (base : string)
| ErrPackageNotFound (name : string)
| ErrMissingPackageFiles (filenames : list string)
| ErrArmoredSignature (path : string)
| ErrSignatureTooLarge (path : string)
| ErrRepo (e : repo_error)
| ErrIO (path : string).

(** ** The file system *)

(** What an operation on a file meets: success, a failure with no effect, a failure after
    the effect (the rename was done but the directory could not be flushed). *)
Inductive io_outcome := IoOk | IoFail | IoFailAfter.

Record tool_state := mkTool { fs : gmap string string; clock : nat }.

(** State and errors: the file system survives an error. *)
Definition tool (A : Type) : Type := tool_state → result tool_error A * tool_state.

#[export] Instance tool_ret : MRet tool := λ A a st, (Ok a, st).
#[export] Instance tool_bind : MBind tool := λ A B f m st,
  match m st with
  | (Ok a, st) => f a st
  | (Err e, st) => (Err e, st)
  end.

Definition fail {A} (e : tool_error) : tool A := λ st, (Err e, st).
Definition lift {A} (r : result tool_error A) : tool A := λ st, (r, st).

(** A [for] loop in [tool]. *)
Fixpoint tool_fold {A S} (f : S → A → tool S) (s : S) (l : list A) : tool S :=
  match l with
  | [] => mret s
  | a :: l => s ← f s a; tool_fold f s l
  end.

Record NativeTool := mkNativeTool { signer : option (string → result string string) }.

Record toolPaths := mkToolPaths { tp_db : string; tp_files : string; tp_dbLink : string; tp_filesLink : string }.

Definition maxPackageSigSize : Z := 16384.

Section dbtool.
Context (io : nat → io_outcome).
Context (encode : list tar_member → string) (decode : string → result string tar_stream).
Context (sha256 : string → string) {R : RangeOrder}.

(** [os.Open] and a complete read: None when the file does not exist. *)
Definition read_file (path : string) : tool (option string) := λ st,
  let st' := mkTool (fs st) (S (clock st)) in
  match io (clock st) with
  | IoOk => (Ok (fs st !! path), st')
  | _ => (Err (ErrIO path), st')
  end.

(** [safefile.Replace] with the content [write] produces. *)
Definition Replace (path : string) (content : result tool_error string) : tool unit := λ st,
  if decide (path = "") then (Err (ErrIO path), st)
  else
    let st' := mkTool (fs st) (S (clock st)) in
    match content with
    | Err e => (Err e, st')
    | Ok content =>
        match io (clock st) with
        | IoOk => (Ok tt, mkTool (<[path := content]> (fs st)) (S (clock st)))
        | IoFail => (Err (ErrIO path), st')
        | IoFailAfter => (Err (ErrIO path), mkTool (<[path := content]> (fs st)) (S (clock st)))
        end
    end.

Definition toolPathsFor (dbPath : string) : result tool_error toolPaths :=
  let dir := path_dir dbPath in
  let base := path_base dbPath in
  match cut_last ".db." base with
  | None => Err (ErrInvalidDBName base)
  | Some (prefix, suffix) =>
      Ok (mkToolPaths (path_join [dir; prefix +:+ ".db." +:+ suffix])
            (path_join [dir; prefix +:+ ".files." +:+ suffix])
            (path_join [dir; prefix +:+ ".db"])
            (path_join [dir; prefix +:+ ".files"]))
  end.

(** [loadToolArchive]: a missing archive leaves the builder alone. *)
Definition loadToolArchive (path : string) (load : option string → result repo_error dbBuilder)
    (b : dbBuilder) : tool dbBuilder :=
  f ← read_file path;
  match f with
  | None => mret b
  | Some data => lift (map_err ErrRepo (load (Some data)))
  end.

Definition loadToolBuilder (paths : toolPaths) : tool dbBuilder :=
  b ← loadToolArchive (tp_db paths) (LoadDB decode newDBBuilder) newDBBuilder;
  loadToolArchive (tp_files paths) (LoadFiles decode b) b.

Definition copyToolFile (src dst : string) : tool unit :=
  f ← read_file src;
  match f with
  | None => fail (ErrIO src)
  | Some data => Replace dst (Ok data)
  end.

Definition writeToolBuilder (b : dbBuilder) (paths : toolPaths) : tool unit :=
  _ ← Replace (tp_db paths) (Ok (encode (WriteDB b)));
  _ ← Replace (tp_files paths) (Ok (encode (WriteFiles b)));
  _ ← copyToolFile (tp_db paths) (tp_dbLink paths);
  copyToolFile (tp_files paths) (tp_filesLink paths).

Definition writeDerivedBuilder (b : dbBuilder) (paths : toolPaths) : tool unit :=
  _ ← Replace (tp_files paths) (Ok (encode (WriteFiles b)));
  copyToolFile (tp_files paths) (tp_filesLink paths).

(** ** Signing *)
Definition detachSignFile (sign : string → result string string) (srcPath sigPath : string) : tool unit :=
  f ← read_file srcPath;
  match f with
  | None => fail (ErrIO srcPath)
  | Some data => Replace sigPath (map_err ErrIO (sign data))
  end.

Definition signAndAlias (sign : string → result string string) (archivePath linkPath : string) : tool unit :=
  let sigPath := archivePath +:+ ".sig" in
  _ ← detachSignFile sign archivePath sigPath;
  copyToolFile sigPath (linkPath +:+ ".sig").

(** The callers refuse a signed database without a signer. *)
Definition maybeSign (t : NativeTool) (paths : toolPaths) (useSignedDB : bool) : tool unit :=
  if useSignedDB then
    match signer t with
    | Some sign =>
        _ ← signAndAlias sign (tp_db paths) (tp_dbLink paths);
        signAndAlias sign (tp_files paths) (tp_filesLink paths)
    | None => fail ErrSignedDBUnsupported
    end
  else mret tt.

(** ** The operations *)
Definition unsupported (t : NativeTool) (useSignedDB : bool) : bool :=
  useSignedDB && bool_decide (signer t = None).

Definition readPackageSig (pkgFilePath : string) : tool string :=
  f ← read_file (pkgFilePath +:+ ".sig");
  match f with
  | None => mret ""
  | Some sig =>
      if contains sig "BEGIN PGP SIGNATURE" then fail (ErrArmoredSignature pkgFilePath)
      else if (maxPackageSigSize <? Z.of_nat (String.length sig))%Z then fail (ErrSignatureTooLarge pkgFilePath)
      else mret sig
  end.

Definition read_meta (pkgFilePath : string) : tool BinaryPackageMeta :=
  f ← read_file pkgFilePath;
  lift (map_err (ErrRepo ∘ ErrPackage)
          (ReadBinaryPackageMeta decode sha256 pkgFilePath (result_of_option "not found" f))).

Definition add_package (b : dbBuilder) (pkgFilePath : string) : tool dbBuilder :=
  if decide (pkgFilePath = "") then mret b
  else
    meta ← read_meta pkgFilePath;
    sig ← readPackageSig pkgFilePath;
    lift (map_err ErrRepo (Upsert b (Some meta) sig)).

Definition RepoAddBatch (t : NativeTool) (dbPath : string) (pkgFilePaths : list string)
    (useSignedDB : bool) : tool unit :=
  if unsupported t useSignedDB then fail ErrSignedDBUnsupported
  else
    paths ← lift (toolPathsFor dbPath);
    b ← loadToolBuilder paths;
    b ← tool_fold add_package b pkgFilePaths;
    _ ← writeToolBuilder b paths;
    maybeSign t paths useSignedDB.

Definition RepoAdd (t : NativeTool) (dbPath pkgFilePath : string) (useSignedDB : bool) : tool unit :=
  RepoAddBatch t dbPath (if decide (pkgFilePath = "") then [] else [pkgFilePath]) useSignedDB.

Definition attach_package (b : dbBuilder) (pkgFilePath : string) : tool dbBuilder :=
  if decide (pkgFilePath = "") then mret b
  else
    meta ← read_meta pkgFilePath;
    lift (map_err ErrRepo (AttachFiles b (Some meta))).

Definition attachPackageFiles (b : dbBuilder) (pkgFilePaths : list string) : tool dbBuilder :=
  tool_fold attach_package b pkgFilePaths.

Definition RebuildDerived (t : NativeTool) (dbPath : string) (pkgFilePaths : list string)
    (useSignedDB : bool) : tool unit :=
  if unsupported t useSignedDB then fail ErrSignedDBUnsupported
  else
    paths ← lift (toolPathsFor dbPath);
    b ← loadToolBuilder paths;
    b ← attachPackageFiles b pkgFilePaths;
    missing ← lift (map_err ErrRepo (missingFileObjects b));
    if decide (missing ≠ []) then fail (ErrMissingPackageFiles missing)
    else
      _ ← writeDerivedBuilder b paths;
      maybeSign t paths useSignedDB.

Definition RepoRemove (t : NativeTool) (dbPath pkgName : string) (useSignedDB : bool) : tool unit :=
  if unsupported t useSignedDB then fail ErrSignedDBUnsupported
  else
    paths ← lift (toolPathsFor dbPath);
    b ← loadToolBuilder paths;
    let '(b, removed) := Remove b pkgName in
    if negb removed then fail (ErrPackageNotFound pkgName)
    else
      _ ← writeToolBuilder b paths;
      maybeSign t paths useSignedDB.
End dbtool.

(** ** The paths *)
Definition main_paths (p : toolPaths) : list string := [tp_db p; tp_files p; tp_dbLink p; tp_filesLink p].
Definition sig_paths (p : toolPaths) : list string := map (λ x, x +:+ ".sig") (main_paths p).

Lemma toolPathsFor_Ok dbPath paths :
  toolPathsFor dbPath = Ok paths →
  NoDup (main_paths paths) ∧ Forall (λ p, p ≠ "") (main_paths paths).
Proof.
  unfold toolPathsFor. destruct (cut_last ".db." (path_base dbPath)) as [[pre suf]|] eqn:E; [|done].
  intros [= <-]. apply cut_last_Some in E.
  assert (Ho : occurs "/" (pre +:+ ".db." +:+ suf) = false).
  { rewrite <-E. destruct (path_base_occurs dbPath) as [Hb|?]; [exfalso|done].
    rewrite Hb in E. apply (f_equal String.length) in E. rewrite !length_str_app in E. simpl in E. lia. }
  rewrite !occurs_app in Ho. apply orb_false_iff in Ho as [Hp Hs]. apply orb_false_iff in Hs as [_ Hs].
  destruct (path_join_plain (path_dir dbPath)) as [dir Hdir]; [apply path_dir_not_nil|].
  assert (Hplain : ∀ x, occurs "/" x = false → 2 < String.length x → plain (pre +:+ x) = true).
  { intros x Hx Hl. unfold plain. rewrite occurs_app, Hp, Hx, !andb_true_iff, !bool_decide_eq_true.
    split_and!; [done|intros Z..]; apply (f_equal String.length) in Z;
      rewrite length_str_app in Z; simpl in Z; lia. }
  unfold main_paths. cbn [tp_db tp_files tp_dbLink tp_filesLink].
  rewrite !Hdir by (apply Hplain; [by rewrite ?occurs_app, ?Hs|rewrite ?length_str_app; simpl; lia]).
  match goal with |- NoDup ?l ∧ _ => assert (l = map (String.append (dir +:+ pre))
    [".db." +:+ suf; ".files." +:+ suf; ".db"; ".files"]) as -> end.
  { simpl. by rewrite <-!str_app_assoc. }
  split.
  - apply (NoDup_fmap_2 (String.append (dir +:+ pre))). repeat constructor; set_solver by done.
  - apply Forall_forall. intros x (y & -> & Hy)%list_elem_of_fmap [_ ->]%str_app_nil. set_solver.
Qed.

(** ** What the steps do to the file system *)
Section tool_lemmas.
Context (io : nat → io_outcome).
Context (encode : list tar_member → string) (decode : string → result string tar_stream).
Context (sha256 : string → string) {R : RangeOrder}.

(** The errors of reading and checking files. *)
Definition read_error (e : tool_error) : bool :=
  match e with ErrPackageNotFound _ | ErrMissingPackageFiles _ => false | _ => true end.

(** A program that only reads, and computes [f] of the file system when it succeeds. *)
Definition reads {A} (m : tool A) (f : gmap string string → result tool_error A) : Prop :=
  ∀ st, fs (m st).2 = fs st ∧
    match (m st).1 with Ok a => f (fs st) = Ok a | Err e => read_error e = true end.

Lemma reads_ret {A} (a : A) : reads (mret a) (λ _, Ok a).
Proof. intros st. split; done. Qed.

Lemma reads_lift {E A} (g : E → tool_error) (r : result E A) :
  (∀ e, read_error (g e) = true) → reads (lift (map_err g r)) (λ _, map_err g r).
Proof. intros Hg st. split; [done|]. simpl. destruct r; [done|apply Hg]. Qed.

Lemma reads_fail {A} e f : read_error e = true → reads (@fail A e) f.
Proof. intros He st. by split. Qed.

Lemma reads_file path : reads (read_file io path) (λ s, Ok (s !! path)).
Proof. intros st. unfold read_file. destruct (io (clock st)); split; try done. Qed.

Lemma reads_bind {A B} (m : tool A) (k : A → tool B) f g :
  reads m f → (∀ a, reads (k a) (g a)) → reads (m ≫= k) (λ s, f s ≫= λ a, g a s).
Proof.
  intros Hm Hk st. unfold mbind, tool_bind. destruct (Hm st) as [H1 H2].
  destruct (m st) as [[a|e] st1]; simpl in *; [|done]. destruct (Hk a st1) as [H3 H4].
  rewrite H3, H1 in *. split; [done|]. rewrite H2. apply H4.
Qed.

Lemma reads_ext {A} (m : tool A) f g : reads m f → (∀ s, f s = g s) → reads m g.
Proof. intros Hm Hfg st. destruct (Hm st) as [? H]. split; [done|]. by rewrite <-Hfg. Qed.

Lemma reads_fold {A S} (f : S → A → tool S) g s l :
  (∀ s a, reads (f s a) (g s a)) → reads (tool_fold f s l) (λ σ, foldM (λ s a, g s a σ) s l).
Proof.
  intros Hf. revert s. induction l as [|a l IH]; intros s; simpl; [apply reads_ret|].
  eapply reads_ext; [apply reads_bind; [apply Hf|intros s'; apply IH]|].
  intros σ. simpl. by destruct (g s a σ).
Qed.

(** The values the operations compute, from the contents of the files. *)
Definition loaded (paths : toolPaths) (s : gmap string string) : result tool_error dbBuilder :=
  b ← map_err ErrRepo (LoadDB decode newDBBuilder (s !! tp_db paths));
  map_err ErrRepo (LoadFiles decode b (s !! tp_files paths)).

Lemma reads_loadToolBuilder paths : reads (loadToolBuilder io decode paths) (loaded paths).
Proof.
  assert (Hl : ∀ path (load : option string → result repo_error dbBuilder) b, load None = Ok b →
    reads (loadToolArchive io path load b) (λ s, map_err ErrRepo (load (s !! path)))).
  { intros path load b Hb. eapply reads_ext.
    - eapply (reads_bind _ _ _ (λ o _, match o with
                                        | Some d => map_err ErrRepo (load (Some d))
                                        | None => Ok b
                                        end)); [apply reads_file|].
      intros [data|]; [by apply reads_lift|apply reads_ret].
    - intros s. simpl. destruct (s !! path); [done|]. by rewrite Hb. }
  unfold loaded. eapply reads_ext.
  - eapply (reads_bind _ _ _ (λ b s, map_err ErrRepo (LoadFiles decode b (s !! tp_files paths)))).
    + by apply (Hl _ (LoadDB decode newDBBuilder)).
    + intros b. by apply (Hl _ (LoadFiles decode b)).
  - done.
Qed.

Definition meta_of (path : string) (s : gmap string string) : result tool_error BinaryPackageMeta :=
  map_err (ErrRepo ∘ ErrPackage)
    (ReadBinaryPackageMeta decode sha256 path (result_of_option "not found" (s !! path))).

Definition sig_value (path : string) (o : option string) : result tool_error string :=
  match o with
  | None => Ok ""
  | Some sig =>
      if contains sig "BEGIN PGP SIGNATURE" then Err (ErrArmoredSignature path)
      else if (maxPackageSigSize <? Z.of_nat (String.length sig))%Z then Err (ErrSignatureTooLarge path)
      else Ok sig
  end.

Definition sig_of (path : string) (s : gmap string string) : result tool_error string :=
  sig_value path (s !! (path +:+ ".sig")).

Definition added (s : gmap string string) (b : dbBuilder) (path : string) : result tool_error dbBuilder :=
  if decide (path = "") then Ok b
  else meta ← meta_of path s; sig ← sig_of path s;
       map_err ErrRepo (Upsert b (Some meta) sig).

Definition attached (s : gmap string string) (b : dbBuilder) (path : string) : result tool_error dbBuilder :=
  if decide (path = "") then Ok b
  else meta ← meta_of path s; map_err ErrRepo (AttachFiles b (Some meta)).

Lemma reads_meta path : reads (read_meta io decode sha256 path) (meta_of path).
Proof.
  eapply reads_ext.
  - eapply (reads_bind _ _ _ (λ o _, map_err (ErrRepo ∘ ErrPackage)
      (ReadBinaryPackageMeta decode sha256 path (result_of_option "not found" o)))); [apply reads_file|].
    intros f. by apply reads_lift.
  - done.
Qed.

Lemma reads_sig path : reads (readPackageSig io path) (sig_of path).
Proof.
  eapply reads_ext.
  - eapply (reads_bind _ _ _ (λ o _, sig_value path o)); [apply reads_file|].
    intros [sig|]; [|apply reads_ret]. unfold sig_value.
    destruct (contains _ _); [by apply reads_fail|].
    destruct (_ <? _)%Z; [by apply reads_fail|apply reads_ret].
  - done.
Qed.

Lemma reads_add b path : reads (add_package io decode sha256 b path) (λ s, added s b path).
Proof.
  unfold add_package, added. case_decide; [apply reads_ret|].
  eapply (reads_bind _ _ _ (λ meta s, sig ← sig_of path s; map_err ErrRepo (Upsert b (Some meta) sig)));
    [apply reads_meta|]. intros meta.
  eapply (reads_bind _ _ _ (λ sig _, map_err ErrRepo (Upsert b (Some meta) sig))); [apply reads_sig|].
  intros sig. by apply reads_lift.
Qed.

Lemma reads_attach b path : reads (attach_package io decode sha256 b path) (λ s, attached s b path).
Proof.
  unfold attach_package, attached. case_decide; [apply reads_ret|].
  eapply (reads_bind _ _ _ (λ meta _, map_err ErrRepo (AttachFiles b (Some meta)))); [apply reads_meta|].
  intros meta. by apply reads_lift.
Qed.

End tool_lemmas.

(** *** Writes *)
Section write_lemmas.
Context (io : nat → io_outcome) (encode : list tar_member → string) {R : RangeOrder}.

Lemma Replace_cases path c st :
  path ≠ "" →
  let '(r, st') := Replace io path (Ok c) st in
  (r = Ok tt ∧ fs st' = <[path := c]> (fs st)) ∨
  (∃ e, r = Err e) ∧ (fs st' = fs st ∨ fs st' = <[path := c]> (fs st)).
Proof.
  intros Hp. unfold Replace. rewrite decide_False by done. destruct (io (clock st)); simpl; eauto.
Qed.

Lemma copy_cases src dst st :
  dst ≠ "" →
  let '(r, st') := copyToolFile io src dst st in
  (r = Ok tt ∧ ∃ c, fs st !! src = Some c ∧ fs st' = <[dst := c]> (fs st)) ∨
  (∃ e, r = Err e) ∧ (fs st' = fs st ∨ ∃ c, fs st' = <[dst := c]> (fs st)).
Proof.
  intros Hd. unfold copyToolFile, mbind, tool_bind, read_file.
  destruct (io (clock st)); simpl; eauto.
  destruct (fs st !! src) as [c|]; simpl; [|eauto].
  pose proof (Replace_cases dst c (mkTool (fs st) (S (clock st))) Hd) as H.
  destruct (Replace _ _ _ _) as [r st']. simpl in H. naive_solver.
Qed.

(** The files a program may change. *)
Definition touches {A} (X : list string) (m : tool A) : Prop :=
  ∀ st p, p ∉ X → fs (m st).2 !! p = fs st !! p.

Lemma touches_bind {A B} X (m : tool A) (k : A → tool B) :
  touches X m → (∀ a, touches X (k a)) → touches X (m ≫= k).
Proof.
  intros Hm Hk st p Hp. unfold mbind, tool_bind. specialize (Hm st p Hp).
  destruct (m st) as [[a|e] st1]; simpl in *; [|done]. by rewrite Hk, Hm.
Qed.

Lemma touches_reads {A} X (m : tool A) f : reads m f → touches X m.
Proof. intros Hm st p _. by rewrite (proj1 (Hm st)). Qed.

Lemma touches_Replace X path c : path ∈ X → touches X (Replace io path c).
Proof.
  intros Hp st p Hn. assert (path ≠ p) by naive_solver.
  unfold Replace. case_decide; [done|]. destruct c; [|done].
  destruct (io (clock st)); simpl; by rewrite ?lookup_insert_ne.
Qed.

Lemma touches_copy X src dst : dst ∈ X → touches X (copyToolFile io src dst).
Proof.
  intros Hd. apply touches_bind; [eapply touches_reads, reads_file|].
  intros [c|]; [by apply touches_Replace|]. by eapply touches_reads, (reads_fail _ (λ _, Ok tt)).
Qed.

(** A copy changes at most its destination. *)
Lemma copy_other src dst st p :
  p ≠ dst → fs (copyToolFile io src dst st).2 !! p = fs st !! p.
Proof. intros Hp. apply (touches_copy [dst]); rewrite ?list_elem_of_singleton; done. Qed.

Lemma touches_sign X sign archive link :
  archive +:+ ".sig" ∈ X → link +:+ ".sig" ∈ X → touches X (signAndAlias io sign archive link).
Proof.
  intros Ha Hl. apply touches_bind; [|intros _; by apply touches_copy].
  apply touches_bind; [eapply touches_reads, reads_file|].
  intros [c|]; [by apply touches_Replace|]. by eapply touches_reads, (reads_fail _ (λ _, Ok tt)).
Qed.

Lemma touches_maybeSign t paths signed : touches (sig_paths paths) (maybeSign io t paths signed).
Proof.
  unfold maybeSign. destruct signed; [|eapply touches_reads, reads_ret].
  destruct (signer t) as [sign|]; [|by eapply touches_reads, (reads_fail _ (λ _, Ok tt))].
  apply touches_bind; [|intros _]; apply touches_sign; unfold sig_paths, main_paths; set_solver.
Qed.

(** The errors of writing and signing. *)
Definition io_errors {A} (m : tool A) : Prop :=
  ∀ st e, (m st).1 = Err e → read_error e = true.

Lemma io_errors_bind {A B} (m : tool A) (k : A → tool B) :
  io_errors m → (∀ a, io_errors (k a)) → io_errors (m ≫= k).
Proof.
  intros Hm Hk st e. unfold mbind, tool_bind. specialize (Hm st e).
  destruct (m st) as [[a|e'] st1]; simpl in *; [apply Hk|].
  intros [= ->]. by apply Hm.
Qed.

Lemma io_errors_reads {A} (m : tool A) f : reads m f → io_errors m.
Proof. intros Hm st e He. destruct (Hm st) as [_ H]. by rewrite He in H. Qed.

Lemma io_errors_Replace path c : (∀ e, c = Err e → read_error e = true) → io_errors (Replace io path c).
Proof.
  intros Hc st e. unfold Replace. case_decide; [by intros [= <-]|].
  destruct c as [c|e']; [|by intros [= <-]; apply Hc].
  destruct (io (clock st)); by intros [= <-].
Qed.

Lemma io_errors_copy src dst : io_errors (copyToolFile io src dst).
Proof.
  apply io_errors_bind; [eapply io_errors_reads, reads_file|].
  intros [c|]; [by apply io_errors_Replace|]. by eapply io_errors_reads, (reads_fail _ (λ _, Ok tt)).
Qed.

Lemma io_errors_maybeSign t paths signed : io_errors (maybeSign io t paths signed).
Proof.
  assert (Hs : ∀ sign a l, io_errors (signAndAlias io sign a l)).
  { intros sign a l. apply io_errors_bind; [|intros _; apply io_errors_copy].
    apply io_errors_bind; [eapply io_errors_reads, reads_file|].
    intros [c|]; [|by eapply io_errors_reads, (reads_fail _ (λ _, Ok tt))].
    apply io_errors_Replace. intros e. destruct (sign c); simpl; [done|]. by intros [= <-]. }
  unfold maybeSign. destruct signed; [|eapply io_errors_reads, reads_ret].
  destruct (signer t) as [sign|]; [|by eapply io_errors_reads, (reads_fail _ (λ _, Ok tt))].
  apply io_errors_bind; [|intros _]; apply Hs.
Qed.

Lemma io_errors_writeToolBuilder b paths : io_errors (writeToolBuilder io encode b paths).
Proof.
  repeat (apply io_errors_bind; [first [by apply io_errors_Replace|apply io_errors_copy]|intros _]).
  apply io_errors_copy.
Qed.

(** The database and its files archive after an attempt to write [b]: both old, or the new
    database with the old or the new files archive. *)
Definition written (b : dbBuilder) (paths : toolPaths) (old new : gmap string string) : Prop :=
  (new !! tp_db paths = old !! tp_db paths ∧ new !! tp_files paths = old !! tp_files paths) ∨
  (new !! tp_db paths = Some (encode (WriteDB b)) ∧
   (new !! tp_files paths = old !! tp_files paths ∨
    new !! tp_files paths = Some (encode (WriteFiles b)))).

Definition all_written (b : dbBuilder) (paths : toolPaths) (new : gmap string string) : Prop :=
  new !! tp_db paths = Some (encode (WriteDB b)) ∧
  new !! tp_dbLink paths = Some (encode (WriteDB b)) ∧
  new !! tp_files paths = Some (encode (WriteFiles b)) ∧
  new !! tp_filesLink paths = Some (encode (WriteFiles b)).

(** The paths of a tool run are four different names, none of them a signature's. *)
Definition good_paths (paths : toolPaths) : Prop :=
  NoDup (main_paths paths) ∧ Forall (λ p, p ≠ "") (main_paths paths) ∧
  Forall (λ p, p ∉ sig_paths paths) (main_paths paths).

Lemma writeToolBuilder_effect b paths st :
  good_paths paths →
  let '(r, st') := writeToolBuilder io encode b paths st in
  written b paths (fs st) (fs st') ∧ (r = Ok tt → all_written b paths (fs st')).
Proof.
  intros (Hnd & Hne & _). unfold main_paths in *. rewrite !Forall_cons in Hne.
  destruct Hne as (Hdb & Hfiles & Hdl & Hfl & _). rewrite !NoDup_cons, !not_elem_of_cons in Hnd.
  destruct Hnd as ((N1 & N2 & N3 & _) & (N4 & N5 & _) & (N6 & _) & _).
  unfold writeToolBuilder, written, all_written, mbind, tool_bind.
  pose proof (Replace_cases (tp_db paths) (encode (WriteDB b)) st Hdb) as H1.
  destruct (Replace _ _ _ st) as [r1 st1]. destruct H1 as [[-> E1]|[[e ->] [E1|E1]]].
  2, 3: rewrite E1; split; [|done]; rewrite ?lookup_insert_eq, ?lookup_insert_ne by done; eauto.
  pose proof (Replace_cases (tp_files paths) (encode (WriteFiles b)) st1 Hfiles) as H2.
  destruct (Replace _ _ _ st1) as [r2 st2]. rewrite E1 in H2. destruct H2 as [[-> E2]|[[e ->] [E2|E2]]].
  2, 3: rewrite E2; split; [|done]; right; rewrite ?lookup_insert_eq, ?lookup_insert_ne by done;
    rewrite ?lookup_insert_eq, ?lookup_insert_ne by done; eauto.
  pose proof (λ p, copy_other (tp_db paths) (tp_dbLink paths) st2 p) as T3.
  pose proof (copy_cases (tp_db paths) (tp_dbLink paths) st2 Hdl) as H3.
  destruct (copyToolFile _ _ _ st2) as [r3 st3]. simpl in T3.
  assert (Hdb3 : fs st3 !! tp_db paths = Some (encode (WriteDB b))).
  { by rewrite T3, E2, lookup_insert_ne, lookup_insert_eq. }
  assert (Hf3 : fs st3 !! tp_files paths = Some (encode (WriteFiles b))).
  { by rewrite T3, E2, lookup_insert_eq. }
  destruct H3 as [[-> (c & Hc & E3)]|[[e ->] _]]; [|split; [eauto|done]].
  assert (c = encode (WriteDB b)) as ->.
  { rewrite E2, lookup_insert_ne, lookup_insert_eq in Hc by done. congruence. }
  pose proof (λ p, copy_other (tp_files paths) (tp_filesLink paths) st3 p) as T4.
  pose proof (copy_cases (tp_files paths) (tp_filesLink paths) st3 Hfl) as H4.
  destruct (copyToolFile _ _ _ st3) as [r4 st4]. simpl in T4.
  rewrite (T4 (tp_db paths)), (T4 (tp_files paths)), (T4 (tp_dbLink paths)) by done.
  split; [eauto|]. intros ->.
  destruct H4 as [[_ (c & Hc4 & E4)]|[[e ?] _]]; [|done].
  assert (c = encode (WriteFiles b)) as -> by congruence.
  split_and!; [done|by rewrite E3, lookup_insert_eq|done|by rewrite E4, lookup_insert_eq].
Qed.

(** The end of [RebuildDerived]. *)
Lemma write_derived_effect t b paths signed st :
  good_paths paths →
  let m := writeDerivedBuilder io encode b paths ≫= λ _, maybeSign io t paths signed in
  (∀ p, p ∉ [tp_files paths; tp_filesLink paths] ++ sig_paths paths → fs (m st).2 !! p = fs st !! p) ∧
  ((m st).1 = Ok tt → fs (m st).2 !! tp_files paths = Some (encode (WriteFiles b)) ∧
     fs (m st).2 !! tp_filesLink paths = Some (encode (WriteFiles b))) ∧
  (∀ e, (m st).1 = Err e → read_error e = true).
Proof.
  intros (Hnd & Hne & Hsig) m. unfold main_paths in *. rewrite !Forall_cons in Hne, Hsig.
  destruct Hne as (_ & Hfiles & _ & Hfl & _), Hsig as (_ & S2 & _ & S4 & _).
  rewrite !NoDup_cons, !not_elem_of_cons in Hnd. destruct Hnd as (_ & (_ & N5 & _) & _).
  split_and!.
  - intros p Hp. apply (touches_bind ([tp_files paths; tp_filesLink paths] ++ sig_paths paths)); [| |done].
    + apply touches_bind; [apply touches_Replace; set_solver|intros _; apply touches_copy; set_solver].
    + intros _ st' p' Hp'. apply touches_maybeSign. set_solver.
  - subst m. unfold writeDerivedBuilder, mbind, tool_bind.
    pose proof (Replace_cases (tp_files paths) (encode (WriteFiles b)) st Hfiles) as H1.
    destruct (Replace _ _ _ st) as [r1 st1]. destruct H1 as [[-> E1]|[[e ->] _]]; [|done].
    pose proof (λ p, copy_other (tp_files paths) (tp_filesLink paths) st1 p) as T2.
    pose proof (copy_cases (tp_files paths) (tp_filesLink paths) st1 Hfl) as H2.
    destruct (copyToolFile _ _ _ st1) as [r2 st2]. simpl in T2.
    destruct H2 as [[-> (c & Hc & E2)]|[[e ->] _]]; [|done].
    assert (c = encode (WriteFiles b)) as -> by (rewrite E1, lookup_insert_eq in Hc; congruence).
    pose proof (touches_maybeSign t paths signed st2) as T3.
    destruct (maybeSign io t paths signed st2) as [r3 st3]. simpl in *. intros _.
    rewrite !T3 by done. rewrite T2, E2, E1, !lookup_insert_eq by done. done.
  - apply io_errors_bind; [|intros _; apply io_errors_maybeSign].
    apply io_errors_bind; [by apply io_errors_Replace|intros _; apply io_errors_copy].
Qed.

(** The common end of [RepoAddBatch] and [RepoRemove]. *)
Lemma write_and_sign_effect t b paths signed st :
  good_paths paths →
  let '(r, st') := (writeToolBuilder io encode b paths ≫= λ _, maybeSign io t paths signed) st in
  (∀ p, p ∉ main_paths paths ++ sig_paths paths → fs st' !! p = fs st !! p) ∧
  written b paths (fs st) (fs st') ∧ (r = Ok tt → all_written b paths (fs st')).
Proof.
  intros Hg. pose proof Hg as (_ & _ & Hsig). unfold main_paths in Hsig. rewrite !Forall_cons in Hsig.
  destruct Hsig as (S1 & S2 & S3 & S4 & _).
  pose proof (writeToolBuilder_effect b paths st Hg) as H1.
  assert (T1 : touches (main_paths paths) (writeToolBuilder io encode b paths)).
  { unfold writeToolBuilder.
    apply touches_bind; [apply touches_Replace; set_solver|intros _].
    apply touches_bind; [apply touches_Replace; set_solver|intros _].
    apply touches_bind; [apply touches_copy; set_solver|intros _]. apply touches_copy; set_solver. }
  specialize (T1 st). unfold mbind, tool_bind.
  destruct (writeToolBuilder _ _ _ _ st) as [[[]|e] st1]; simpl in T1.
  2: { destruct H1 as [H1 _]. split_and!; [|done|done]. intros p Hp. apply T1. set_solver. }
  destruct H1 as [H1 H1']. specialize (H1' eq_refl).
  pose proof (touches_maybeSign t paths signed st1) as T2.
  destruct (maybeSign io t paths signed st1) as [r st2]. simpl in T2. split_and!.
  - intros p Hp. rewrite T2, T1 by set_solver. done.
  - unfold written in *. by rewrite (T2 (tp_db paths)), (T2 (tp_files paths)).
  - intros _. unfold all_written in *.
    by rewrite (T2 (tp_db paths)), (T2 (tp_files paths)), (T2 (tp_dbLink paths)), (T2 (tp_filesLink paths)).
Qed.
End write_lemmas.

Lemma good_paths_For dbPath paths :
  toolPathsFor dbPath = Ok paths → Forall (λ p, p ∉ sig_paths paths) (main_paths paths) → good_paths paths.
Proof. intros H1 H2. destruct (toolPathsFor_Ok _ _ H1). by split_and!. Qed.

(** The builder a batch computes from the files it reads. *)
Definition batch_result (decode : string → result string tar_stream) (sha256 : string → string)
    {R : RangeOrder} (paths : toolPaths) (pkgs : list string) (s : gmap string string)
    : result tool_error dbBuilder :=
  b ← loaded decode paths s; foldM (added decode sha256 s) b pkgs.

Lemma RepoAddBatch_effect io encode decode sha256 {R : RangeOrder} t dbPath pkgs signed paths st :
  toolPathsFor dbPath = Ok paths → Forall (λ p, p ∉ sig_paths paths) (main_paths paths) →
  let '(r, st') := RepoAddBatch io encode decode sha256 t dbPath pkgs signed st in
  (∀ p, p ∉ main_paths paths ++ sig_paths paths → fs st' !! p = fs st !! p) ∧
  (fs st' !! tp_db paths = fs st !! tp_db paths ∧ fs st' !! tp_files paths = fs st !! tp_files paths ∨
   ∃ b, batch_result decode sha256 paths pkgs (fs st) = Ok b ∧ written encode b paths (fs st) (fs st')) ∧
  (r = Ok tt → ∃ b, batch_result decode sha256 paths pkgs (fs st) = Ok b ∧
     all_written encode b paths (fs st')).
Proof.
  intros Hpaths Hsig. pose proof (good_paths_For _ _ Hpaths Hsig) as Hg.
  unfold RepoAddBatch. destruct (unsupported t signed).
  { simpl. split_and!; [done|by left|done]. }
  rewrite Hpaths. unfold mbind at 1, tool_bind at 1. simpl.
  pose proof (reads_bind _ _ _ _ (reads_loadToolBuilder io decode paths)
    (λ b, reads_fold _ _ b pkgs (reads_add io decode sha256)) st) as [Hfs Hval].
  set (prefix := loadToolBuilder io decode paths ≫= _) in Hfs, Hval.
  match goal with |- context [(loadToolBuilder io decode paths ≫= ?k) st] =>
    assert (Heq : (loadToolBuilder io decode paths ≫= k) st
      = (prefix ≫= λ b, writeToolBuilder io encode b paths ≫= λ _, maybeSign io t paths signed) st) end.
  { unfold prefix, mbind, tool_bind. by destruct (loadToolBuilder io decode paths st) as [[]]. }
  rewrite Heq. unfold mbind at 1, tool_bind at 1.
  destruct (prefix st) as [[b|e] st1] eqn:Hp; simpl in Hfs, Hval.
  2: { split_and!; [by rewrite Hfs|by left; rewrite Hfs|done]. }
  pose proof (write_and_sign_effect io encode t b paths signed st1 Hg) as H.
  destruct ((writeToolBuilder io encode b paths ≫= λ _, maybeSign io t paths signed) st1) as [r st2]. destruct H as (H1 & H2 & H3). rewrite Hfs in H1, H2.
  split_and!; [done|right; by exists b|]. intros Hr. exists b. split; [done|by apply H3].
Qed.

(** C1. [RepoAddBatch] is all or nothing, wherever a read, a write or a signature fails:
    only the four files of the database and their signatures may change, and the .db
    archive is afterwards the old one or the one with every package of the batch, never a
    partial set; the .files archive changes only after it. On success the archives and
    their public copies are those of the new builder. *)
Theorem RepoAddBatch_atomic io encode decode sha256 {R : RangeOrder} t dbPath pkgs signed paths st :
  toolPathsFor dbPath = Ok paths → Forall (λ p, p ∉ sig_paths paths) (main_paths paths) →
  let '(r, st') := RepoAddBatch io encode decode sha256 t dbPath pkgs signed st in
  (∀ p, p ∉ main_paths paths ++ sig_paths paths → fs st' !! p = fs st !! p) ∧
  (fs st' !! tp_db paths = fs st !! tp_db paths ∧ fs st' !! tp_files paths = fs st !! tp_files paths ∨
   ∃ b, batch_result decode sha256 paths pkgs (fs st) = Ok b ∧ written encode b paths (fs st) (fs st')) ∧
  (r = Ok tt → ∃ b, batch_result decode sha256 paths pkgs (fs st) = Ok b ∧
     all_written encode b paths (fs st')).
Proof. apply RepoAddBatch_effect. Qed.

Lemma RepoRemove_effect io encode decode {R : RangeOrder} t dbPath name signed paths st :
  toolPathsFor dbPath = Ok paths → Forall (λ p, p ∉ sig_paths paths) (main_paths paths) →
  let '(r, st') := RepoRemove io encode decode t dbPath name signed st in
  (∀ b, loaded decode paths (fs st) = Ok b → map_Forall (λ _ e, e_name e ≠ name) b →
     fs st' = fs st ∧ r ≠ Ok tt) ∧
  (∀ p, p ∉ main_paths paths ++ sig_paths paths → fs st' !! p = fs st !! p) ∧
  (fs st' !! tp_db paths = fs st !! tp_db paths ∧ fs st' !! tp_files paths = fs st !! tp_files paths ∨
   ∃ b, loaded decode paths (fs st) = Ok b ∧ written encode (Remove b name).1 paths (fs st) (fs st')) ∧
  (r = Ok tt → ∃ b, loaded decode paths (fs st) = Ok b ∧
     (∃ k e, b !! k = Some e ∧ e_name e = name) ∧
     all_written encode (Remove b name).1 paths (fs st')).
Proof.
  intros Hpaths Hsig. pose proof (good_paths_For _ _ Hpaths Hsig) as Hg.
  unfold RepoRemove. destruct (unsupported t signed).
  { simpl. split_and!; [done|done|by left|done]. }
  rewrite Hpaths. unfold mbind at 1, tool_bind at 1. simpl. unfold mbind at 1, tool_bind at 1.
  destruct (reads_loadToolBuilder io decode paths st) as [Hfs Hval].
  destruct (loadToolBuilder io decode paths st) as [[b|e] st1]; simpl in Hfs, Hval.
  2: { rewrite Hfs. split_and!; [done|done|by left|done]. }
  destruct (Remove_spec b name) as [_ Hrem].
  destruct (Remove b name) as [b' removed] eqn:Hb. simpl in Hrem. destruct removed; simpl.
  - pose proof (write_and_sign_effect io encode t b' paths signed st1 Hg) as H.
    destruct ((writeToolBuilder io encode b' paths ≫= λ _, maybeSign io t paths signed) st1) as [r st2]. destruct H as (H1 & H2 & H3). rewrite Hfs in H1, H2.
    destruct (proj1 Hrem eq_refl) as (k & e & Hk & He). split_and!.
    + intros b0 Hb0 Hno. rewrite Hval in Hb0. injection Hb0 as <-. by apply Hno in Hk.
    + done.
    + right. exists b. by rewrite Hb.
    + intros Hr. exists b. rewrite Hb. split_and!; [done|eauto|by apply H3].
  - rewrite Hfs. split_and!; [done|done|by left|done].
Qed.

(** [RepoRemove] of a name no entry has changes no file and is an error; otherwise it
    changes the database as [RepoAddBatch] does, all or nothing, to the builder without the
    entries of that name. *)
Theorem RepoRemove_atomic io encode decode {R : RangeOrder} t dbPath name signed paths st :
  toolPathsFor dbPath = Ok paths → Forall (λ p, p ∉ sig_paths paths) (main_paths paths) →
  let '(r, st') := RepoRemove io encode decode t dbPath name signed st in
  (∀ b, loaded decode paths (fs st) = Ok b → map_Forall (λ _ e, e_name e ≠ name) b →
     fs st' = fs st ∧ r ≠ Ok tt) ∧
  (∀ p, p ∉ main_paths paths ++ sig_paths paths → fs st' !! p = fs st !! p) ∧
  (fs st' !! tp_db paths = fs st !! tp_db paths ∧ fs st' !! tp_files paths = fs st !! tp_files paths ∨
   ∃ b, loaded decode paths (fs st) = Ok b ∧ written encode (Remove b name).1 paths (fs st) (fs st')) ∧
  (r = Ok tt → ∃ b, loaded decode paths (fs st) = Ok b ∧
     (∃ k e, b !! k = Some e ∧ e_name e = name) ∧
     all_written encode (Remove b name).1 paths (fs st')).
Proof. apply RepoRemove_effect. Qed.

(** The only error that is not one of reading or writing: nothing to remove, and nothing
    changed. *)
Lemma RepoRemove_not_found io encode decode {R : RangeOrder} t dbPath name signed paths st :
  toolPathsFor dbPath = Ok paths →
  let '(r, st') := RepoRemove io encode decode t dbPath name signed st in
  ∀ e, r = Err e → read_error e = false →
  fs st' = fs st ∧ ∃ b, loaded decode paths (fs st) = Ok b ∧ map_Forall (λ _ e, e_name e ≠ name) b.
Proof.
  intros Hpaths. unfold RepoRemove. destruct (unsupported t signed); [by intros e [= <-]|].
  rewrite Hpaths. unfold mbind at 1, tool_bind at 1. simpl. unfold mbind at 1, tool_bind at 1.
  destruct (reads_loadToolBuilder io decode paths st) as [Hfs Hval].
  destruct (loadToolBuilder io decode paths st) as [[b|e'] st1]; simpl in Hfs, Hval.
  2: { intros e [= ->]. by rewrite Hval. }
  destruct (Remove_spec b name) as [_ Hrem].
  destruct (Remove b name) as [b' removed]. simpl in Hrem. destruct removed; simpl.
  - assert (io_errors (writeToolBuilder io encode b' paths ≫= λ _, maybeSign io t paths signed)) as Hio.
    { apply io_errors_bind; [apply io_errors_writeToolBuilder|intros _; apply io_errors_maybeSign]. }
    specialize (Hio st1). destruct ((writeToolBuilder io encode b' paths ≫= _) st1) as [r st2].
    intros e -> Hread. specialize (Hio e eq_refl). congruence.
  - intros e [= <-] _. split; [done|]. exists b. split; [done|]. intros k en Hk He.
    assert (false = true) by (apply Hrem; eauto). done.
Qed.

(** ** Rebuilding the files archive *)

(** Two builders with the same entries up to file lists. *)
Definition same_canonical (b b' : dbBuilder) : Prop :=
  (λ e, e <| e_files := None |>) <$> b = (λ e, e <| e_files := None |>) <$> b'.

Lemma AttachFiles_canonical {R : RangeOrder} b m b' : AttachFiles b m = Ok b' → same_canonical b b'.
Proof.
  intros (m' & e & dir & _ & _ & He & _ & ->)%AttachFiles_Ok. unfold same_canonical.
  apply map_eq. intros k. rewrite !lookup_fmap. destruct (decide (k = dir)) as [->|Hk].
  - by rewrite lookup_insert_eq, He.
  - by rewrite lookup_insert_ne.
Qed.

Lemma attached_canonical decode sha256 {R : RangeOrder} s pkgs b b' :
  foldM (attached decode sha256 s) b pkgs = Ok b' → same_canonical b b'.
Proof.
  intros H. revert H. apply (foldM_ind (same_canonical b)); [done|].
  intros b1 p b2 _ H1 H2. unfold attached in H2. case_decide; [by simplify_eq|].
  apply bind_Ok in H2 as (m & _ & H2). unfold map_err in H2.
  destruct (AttachFiles b1 (Some m)) eqn:E; [|done]. injection H2 as <-.
  unfold same_canonical in *. rewrite H1. by eapply AttachFiles_canonical.
Qed.

(** The file names of the entries without a file list, in the order of the directories. *)
Definition listless {R : RangeOrder} (b : dbBuilder) : list string :=
  map (λ dir, descValue (e_desc (entry_at b dir)) "%FILENAME%")
    (filter (λ dir, e_files (entry_at b dir) = None) (sortedDirs b)).

Lemma missingFileObjects_Ok {R : RangeOrder} b l : missingFileObjects b = Ok l → l = listless b.
Proof.
  unfold missingFileObjects, listless.
  assert (H : ∀ dirs acc l, foldM (missing_step b) acc dirs = Ok l →
    l = acc ++ map (λ dir, descValue (e_desc (entry_at b dir)) "%FILENAME%")
                 (filter (λ dir, e_files (entry_at b dir) = None) dirs)).
  { induction dirs as [|d dirs IH]; intros acc l'; simpl; [intros [= <-]; by rewrite app_nil_r|].
    rewrite filter_cons. unfold missing_step at 1. destruct (e_files (entry_at b d)) eqn:E.
    - rewrite (decide_False (P := Some s = None)) by done. apply IH.
    - rewrite (decide_True (P := @None string = None)) by done. case_decide; [done|]. intros ->%IH. by rewrite <-(assoc (++)). }
  intros ->%H. done.
Qed.

Lemma listless_nil {R : RangeOrder} (b : dbBuilder) : listless b = [] → map_Forall (λ _ e, is_Some (e_files e)) b.
Proof.
  unfold listless. intros Hl%fmap_nil_inv k e Hk. apply not_eq_None_Some. intros He.
  assert (k ∈ filter (λ dir, e_files (entry_at b dir) = None) (sortedDirs b)) as Hin; [|rewrite Hl in Hin; set_solver].
  apply list_elem_of_filter. unfold entry_at. rewrite Hk. split; [done|].
  unfold sortedDirs. by rewrite elem_of_sort_strings, elem_of_range_keys, elem_of_dom, Hk.
Qed.

Lemma RebuildDerived_effect io encode decode sha256 {R : RangeOrder} t dbPath pkgs signed paths st :
  toolPathsFor dbPath = Ok paths → Forall (λ p, p ∉ sig_paths paths) (main_paths paths) →
  let '(r, st') := RebuildDerived io encode decode sha256 t dbPath pkgs signed st in
  let rebuilt := b ← loaded decode paths (fs st); foldM (attached decode sha256 (fs st)) b pkgs in
  (∀ p, p ∉ [tp_files paths; tp_filesLink paths] ++ sig_paths paths → fs st' !! p = fs st !! p) ∧
  (r = Ok tt → ∃ b0 b, loaded decode paths (fs st) = Ok b0 ∧ rebuilt = Ok b ∧
     same_canonical b0 b ∧ map_Forall (λ _ e, is_Some (e_files e)) b ∧
     fs st' !! tp_files paths = Some (encode (WriteFiles b)) ∧
     fs st' !! tp_filesLink paths = Some (encode (WriteFiles b))) ∧
  (∀ b, rebuilt = Ok b → listless b ≠ [] → fs st' = fs st ∧ r ≠ Ok tt) ∧
  (∀ l, r = Err (ErrMissingPackageFiles l) → ∃ b, rebuilt = Ok b ∧ l = listless b ∧ l ≠ []).
Proof.
  intros Hpaths Hsig. pose proof (good_paths_For _ _ Hpaths Hsig) as Hg.
  unfold RebuildDerived. destruct (unsupported t signed); [by simpl; split_and!|].
  rewrite Hpaths. unfold mbind at 1, tool_bind at 1. simpl.
  pose proof (reads_bind _ _ _ _ (reads_loadToolBuilder io decode paths)
    (λ b, reads_fold _ _ b pkgs (reads_attach io decode sha256)) st) as [Hfs Hval].
  set (prefix := loadToolBuilder io decode paths ≫= _) in Hfs, Hval.
  match goal with |- context [(loadToolBuilder io decode paths ≫= ?k) st] =>
    assert (Heq : (loadToolBuilder io decode paths ≫= k) st
      = (prefix ≫= λ b, missing ← lift (map_err ErrRepo (missingFileObjects b));
           if decide (missing ≠ []) then fail (ErrMissingPackageFiles missing)
           else _ ← writeDerivedBuilder io encode b paths; maybeSign io t paths signed) st) end.
  { unfold prefix, mbind, tool_bind. by destruct (loadToolBuilder io decode paths st) as [[]]. }
  rewrite Heq. clear Heq. unfold mbind at 1, tool_bind at 1.
  destruct (prefix st) as [[b|e] st1] eqn:Hp; simpl in Hfs, Hval.
  2: { rewrite Hfs. split_and!; try done. by intros l [= ->]. }
  clear Hp. clearbody prefix. clear prefix.
  unfold mbind at 1, tool_bind at 1. unfold lift.
  destruct (missingFileObjects b) as [missing|e] eqn:Hm; simpl.
  2: { rewrite Hfs. by split_and!. }
  apply missingFileObjects_Ok in Hm as ->. case_decide as Hl; simpl.
  { rewrite Hfs. split_and!; try done. intros l [= <-]. by exists b. }
  pose proof (write_derived_effect io encode t b paths signed st1 Hg) as (H1 & H2 & H3).
  destruct ((writeDerivedBuilder io encode b paths ≫= λ _, maybeSign io t paths signed) st1) as [r st2].
  simpl in H1, H2, H3. rewrite Hfs in H1. split_and!; [done| | |].
  - intros Hr. destruct (H2 Hr) as [Hf Hfl]. apply listless_nil in Hl.
    destruct (loaded decode paths (fs st)) as [b0|] eqn:Hb0; [|done].
    exists b0, b. split_and!; try done. by eapply attached_canonical.
  - intros b' Hb' Hl'. by assert (Ok b = Ok b' :> result tool_error dbBuilder) as [= <-] by
      (etrans; [symmetry; exact Hval|exact Hb']).
  - intros l ->. by specialize (H3 _ eq_refl).
Qed.

(** [RebuildDerived] never changes the .db archive and its copy, nor anything but the
    .files archive, its copy and signatures. A success writes a .files archive in which
    every entry has a file list and everything else of each entry is as in the canonical
    database; when an entry is left without a list it changes nothing and fails, and the
    missing packages it reports are the file names of exactly those entries. *)
Theorem RebuildDerived_spec io encode decode sha256 {R : RangeOrder} t dbPath pkgs signed paths st :
  toolPathsFor dbPath = Ok paths → Forall (λ p, p ∉ sig_paths paths) (main_paths paths) →
  let '(r, st') := RebuildDerived io encode decode sha256 t dbPath pkgs signed st in
  let rebuilt := b ← loaded decode paths (fs st); foldM (attached decode sha256 (fs st)) b pkgs in
  (∀ p, p ∉ [tp_files paths; tp_filesLink paths] ++ sig_paths paths → fs st' !! p = fs st !! p) ∧
  (r = Ok tt → ∃ b0 b, loaded decode paths (fs st) = Ok b0 ∧ rebuilt = Ok b ∧
     same_canonical b0 b ∧ map_Forall (λ _ e, is_Some (e_files e)) b ∧
     fs st' !! tp_files paths = Some (encode (WriteFiles b)) ∧
     fs st' !! tp_filesLink paths = Some (encode (WriteFiles b))) ∧
  (∀ b, rebuilt = Ok b → listless b ≠ [] → fs st' = fs st ∧ r ≠ Ok tt) ∧
  (∀ l, r = Err (ErrMissingPackageFiles l) → ∃ b, rebuilt = Ok b ∧ l = listless b ∧ l ≠ []).
Proof. apply RebuildDerived_effect. Qed.

(** ** Without failures

    When no operation fails, the tool computes what [batch_result] says and nothing stops
    it. *)
Section no_failures.
Context (io : nat → io_outcome) (Hio : ∀ n, io n = IoOk).
Context (encode : list tar_member → string) (decode : string → result string tar_stream).
Context (sha256 : string → string) {R : RangeOrder}.

(** A program that changes no file and returns [f] of the file system. *)
Definition computes {A} (m : tool A) (f : gmap string string → result tool_error A) : Prop :=
  ∀ st, (m st).1 = f (fs st) ∧ fs (m st).2 = fs st.

Lemma computes_lift {A} (r : result tool_error A) : computes (lift r) (λ _, r).
Proof. by split. Qed.

Lemma computes_file path : computes (read_file io path) (λ s, Ok (s !! path)).
Proof. intros st. unfold read_file. by rewrite Hio. Qed.

Lemma computes_bind {A B} (m : tool A) (k : A → tool B) f g :
  computes m f → (∀ a, computes (k a) (g a)) → computes (m ≫= k) (λ s, f s ≫= λ a, g a s).
Proof.
  intros Hm Hk st. unfold mbind, tool_bind. destruct (Hm st) as [H1 H2].
  destruct (m st) as [[a|e] st1]; simpl in *; rewrite <-H1; [|done].
  destruct (Hk a st1) as [H3 H4]. rewrite H2 in *. done.
Qed.

Lemma computes_ext {A} (m : tool A) f g : computes m f → (∀ s, f s = g s) → computes m g.
Proof. intros Hm Hfg st. rewrite <-Hfg. apply Hm. Qed.

Lemma computes_fold {A S} (f : S → A → tool S) g s l :
  (∀ s a, computes (f s a) (g s a)) → computes (tool_fold f s l) (λ σ, foldM (λ s a, g s a σ) s l).
Proof.
  intros Hf. revert s. induction l as [|a l IH]; intros s; simpl; [by apply computes_lift|].
  eapply computes_ext; [apply computes_bind; [apply Hf|intros s'; apply IH]|].
  intros σ. simpl. by destruct (g s a σ).
Qed.

Lemma computes_loadToolBuilder paths : computes (loadToolBuilder io decode paths) (loaded decode paths).
Proof.
  assert (Hl : ∀ path (load : option string → result repo_error dbBuilder) b, load None = Ok b →
    computes (loadToolArchive io path load b) (λ s, map_err ErrRepo (load (s !! path)))).
  { intros path load b Hb. eapply computes_ext.
    - eapply (computes_bind _ _ _ (λ o _, match o with
        | Some d => map_err ErrRepo (load (Some d)) | None => Ok b end)); [apply computes_file|].
      intros [data|]; apply computes_lift.
    - intros s. simpl. destruct (s !! path); [done|]. by rewrite Hb. }
  eapply (computes_bind _ _ _ (λ b s, map_err ErrRepo (LoadFiles decode b (s !! tp_files paths)))).
  - by apply (Hl _ (LoadDB decode newDBBuilder)).
  - intros b. by apply (Hl _ (LoadFiles decode b)).
Qed.

Lemma computes_add b path : computes (add_package io decode sha256 b path) (λ s, added decode sha256 s b path).
Proof.
  unfold add_package, added. case_decide; [by apply computes_lift|].
  eapply (computes_bind _ _ _ (λ meta s, sig ← sig_of path s; map_err ErrRepo (Upsert b (Some meta) sig))).
  - eapply computes_ext; [eapply (computes_bind _ _ _ (λ o _, map_err (ErrRepo ∘ ErrPackage)
      (ReadBinaryPackageMeta decode sha256 path (result_of_option "not found" o))));
      [apply computes_file|intros; apply computes_lift]|done].
  - intros meta. eapply (computes_bind _ _ _ (λ sig _, map_err ErrRepo (Upsert b (Some meta) sig)));
      [|intros; apply computes_lift].
    eapply computes_ext; [eapply (computes_bind _ _ _ (λ o _, sig_value path o)); [apply computes_file|]|done].
    intros [sig|]; [|by apply computes_lift]. unfold sig_value.
    destruct (contains _ _); [by apply computes_lift|]. destruct (_ <? _)%Z; by apply computes_lift.
Qed.

Lemma computes_batch paths pkgs :
  computes (b ← loadToolBuilder io decode paths; tool_fold (add_package io decode sha256) b pkgs)
    (batch_result decode sha256 paths pkgs).
Proof.
  eapply computes_bind; [apply computes_loadToolBuilder|]. intros b. apply computes_fold.
  intros; apply computes_add.
Qed.

Lemma copy_ok src dst st :
  dst ≠ "" → is_Some (fs st !! src) → (copyToolFile io src dst st).1 = Ok tt.
Proof.
  intros Hd [c Hc]. unfold copyToolFile, mbind, tool_bind, read_file. rewrite Hio, Hc. simpl.
  unfold Replace. by rewrite decide_False, Hio by done.
Qed.

Lemma writeToolBuilder_ok b paths st :
  good_paths paths → (writeToolBuilder io encode b paths st).1 = Ok tt.
Proof.
  intros (Hnd & Hne & _). unfold main_paths in *. rewrite !Forall_cons in Hne.
  destruct Hne as (Hdb & Hfiles & Hdl & Hfl & _). rewrite !NoDup_cons, !not_elem_of_cons in Hnd.
  destruct Hnd as ((N1 & N2 & N3 & _) & (N4 & N5 & _) & (N6 & _) & _).
  unfold writeToolBuilder. unfold mbind, tool_bind.
  unfold Replace at 1. rewrite decide_False, Hio by done. cbn [fst].
  unfold Replace at 1. rewrite decide_False, Hio by done. cbn [fst fs clock].
  set (st2 := mkTool _ _). pose proof (copy_ok (tp_db paths) (tp_dbLink paths) st2 Hdl) as H1.
  pose proof (copy_other io (tp_db paths) (tp_dbLink paths) st2 (tp_files paths)) as H2.
  destruct (copyToolFile io (tp_db paths) (tp_dbLink paths) st2) as [r st3]. simpl in *.
  rewrite H1 by (rewrite lookup_insert_ne, lookup_insert_eq by done; eauto).
  apply copy_ok; [done|]. rewrite H2 by done. rewrite lookup_insert_eq. eauto.
Qed.

Lemma RepoAddBatch_ok t dbPath pkgs paths st b :
  toolPathsFor dbPath = Ok paths → good_paths paths → batch_result decode sha256 paths pkgs (fs st) = Ok b →
  (RepoAddBatch io encode decode sha256 t dbPath pkgs false st).1 = Ok tt.
Proof.
  intros Hpaths Hg Hb. unfold RepoAddBatch, unsupported. simpl. rewrite Hpaths.
  unfold mbind at 1, tool_bind at 1. simpl.
  pose proof (computes_batch paths pkgs st) as [H1 _]. rewrite Hb in H1.
  unfold mbind, tool_bind in *. destruct (loadToolBuilder io decode paths st) as [[b0|e] st1]; [|done].
  destruct (tool_fold _ b0 pkgs st1) as [[b1|e] st2]; [|done]. simpl in H1. injection H1 as ->.
  pose proof (writeToolBuilder_ok b paths st2 Hg) as H2.
  unfold mbind, tool_bind in H2.
  destruct (writeToolBuilder io encode b paths st2) as [r st3]. simpl in H2. by rewrite H2.
Qed.
End no_failures.

(** ** A run on a concrete repository *)
Section example.
Definition example_dbPath : string := "/srv/repo/x86_64/core.db.tar.gz".
Definition example_paths : toolPaths :=
  mkToolPaths "/srv/repo/x86_64/core.db.tar.gz" "/srv/repo/x86_64/core.files.tar.gz"
    "/srv/repo/x86_64/core.db" "/srv/repo/x86_64/core.files".

(** A package file in the staging directory; every archive has its .PKGINFO. *)
Definition example_state : tool_state :=
  mkTool {["/tmp/foo-1-1-any.pkg.tar.zst" := "data"]} 0.
Definition tool_decode (_ : string) : result string tar_stream :=
  Ok (complete [mkMember ".PKGINFO" TypeReg
                  ("pkgname = foo" +:+ String newline "pkgver = 1-1")]).

Lemma example_sigs : Forall (λ p, p ∉ sig_paths example_paths) (main_paths example_paths).
Proof. apply (bool_decide_eq_true_1 _). by vm_compute. Qed.

Lemma RepoAddBatch_atomic_witness :
  let '(r, st') := @RepoAddBatch (λ _, IoOk) (λ _, "archive") tool_decode id elements_order
    (mkNativeTool None) example_dbPath ["/tmp/foo-1-1-any.pkg.tar.zst"] false example_state in
  r = Ok tt ∧ ∃ b, @batch_result tool_decode id elements_order example_paths
    ["/tmp/foo-1-1-any.pkg.tar.zst"] (fs example_state) = Ok b ∧
    @all_written (λ _, "archive") elements_order b example_paths (fs st').
Proof.
  pose proof (@RepoAddBatch_atomic (λ _, IoOk) (λ _, "archive") tool_decode id elements_order
    (mkNativeTool None) example_dbPath ["/tmp/foo-1-1-any.pkg.tar.zst"] false example_paths
    example_state eq_refl example_sigs) as H.
  destruct (RepoAddBatch _ _ _ _ _ _ _ _ _) as [r st'] eqn:E.
  assert (r = Ok tt) as -> by (apply (f_equal fst) in E; vm_compute in E; by symmetry).
  split; [done|]. by apply H.
Defined.

Lemma RepoRemove_atomic_witness :
  let '(r, st') := @RepoRemove (λ _, IoOk) (λ _, "archive") tool_decode elements_order
    (mkNativeTool None) example_dbPath "bar" false example_state in
  fs st' = fs example_state ∧ r ≠ Ok tt.
Proof.
  pose proof (@RepoRemove_atomic (λ _, IoOk) (λ _, "archive") tool_decode elements_order
    (mkNativeTool None) example_dbPath "bar" false example_paths
    example_state eq_refl example_sigs) as H.
  destruct (RepoRemove _ _ _ _ _ _ _ _) as [r st'].
  apply (proj1 H ∅); [by vm_compute|]. apply map_Forall_empty.
Defined.

Lemma RebuildDerived_spec_witness :
  let '(r, st') := @RebuildDerived (λ _, IoOk) (λ _, "archive") tool_decode id elements_order
    (mkNativeTool None) example_dbPath [] false example_state in
  r = Ok tt ∧ fs st' !! tp_db example_paths = fs example_state !! tp_db example_paths.
Proof.
  pose proof (@RebuildDerived_spec (λ _, IoOk) (λ _, "archive") tool_decode id elements_order
    (mkNativeTool None) example_dbPath [] false example_paths
    example_state eq_refl example_sigs) as H.
  destruct (RebuildDerived _ _ _ _ _ _ _ _ _) as [r st'] eqn:E.
  split; [apply (f_equal fst) in E; vm_compute in E; by symmetry|].
  apply H. apply (bool_decide_eq_true_1 _). by vm_compute.
Defined.
End example.
