(* ===== verification/Blob.v ===== *)
(** * The object store of ayato (ayato/blob/blob.go, ayato/blob/localfs)

    Objects are files below a root directory, one directory per repository and
    architecture.  The store is shared: before every call other processes may have changed
    it in any way ([others]), and every call may fail, before or after its effect ([net]).
    A program over the store is a [prog]: it threads a [world] and may end with an error.
    [own] records, for the theorems only, the changes of objects this process made. *)

From S2P Require Import Prelude GoStrings Paths Package Dbwriter Repo Dbtool.

(** ** Errors *)

(** The classes of ayato/domain/error.go; [ErrInvalidUpload] is an [ErrInvalid]. *)
Inductive domain_error := DomainNotImplemented | DomainNotFound | DomainInvalid | DomainInvalidUpload | DomainConflict.

(** The errors of the store, of the repository on top of it and of the services.  [errors.WrapErr] and
    [CanonicalCommitError] keep the error they wrap. *)
Inductive error :=
| ErrNotFound
| ErrPreconditionFailed
| ErrNotExist
| ErrSafeDeleteUnsupported
| ErrStore (path : string)
| ErrLocal (path : string)
| ErrInvalidName (e : name_error)
| ErrTool (e : tool_error)
| ErrReadDB (e : repo_error)
| ErrPackageChanged (name : string)
| ErrDatabaseNotFound
| ErrInvalidFilename (name : string)
| ErrImmutableObjectConflict
| ErrDomain (class : domain_error) (reason : string)
| ErrOther (reason : string)
| CanonicalCommitError (e : error)
| WrapErr (e : error) (msg : string).

(** [errors.Is] and [errors.As] look through the wrappers. *)
Fixpoint error_is (p : error → bool) (e : error) : bool :=
  p e || match e with CanonicalCommitError e | WrapErr e _ => error_is p e | _ => false end.

Definition is_not_found : error → bool :=
  error_is (λ e, match e with ErrNotFound => true | _ => false end).
Definition is_precondition : error → bool :=
  error_is (λ e, match e with ErrPreconditionFailed => true | _ => false end).
Definition CanonicalCommitted : error → bool :=
  error_is (λ e, match e with CanonicalCommitError _ => true | _ => false end).

(** ** The world *)

Record object := mkObject { o_data : string; o_modified : Z }.

(** A change of an object: its path, the content before and after. *)
Record write := mkWrite { w_path : string; w_old : option string; w_new : option string }.

Record world := mkWorld {
  objects : gmap string object;
  (** the temporary directory of the process *)
  files : gmap string string;
  (** the operations on files and objects so far *)
  now : nat;
  own : list write;
}.
#[export] Instance eta_world : Eta world := λ w, mkWorld w.(objects) w.(files) w.(now) w.(own).

Definition prog (A : Type) : Type := world → result error A * world.

#[export] Instance prog_ret : MRet prog := λ A a w, (Ok a, w).
#[export] Instance prog_bind : MBind prog := λ A B f m w,
  match m w with
  | (Ok a, w) => f a w
  | (Err e, w) => (Err e, w)
  end.

Definition throw {A} (e : error) : prog A := λ w, (Err e, w).
Definition lift {A} (r : result error A) : prog A := λ w, (r, w).
(** The error of a call as a value. *)
Definition try {A} (m : prog A) : prog (result error A) := λ w,
  let '(r, w) := m w in (Ok r, w).
Definition wrapping {A} (f : error → error) (m : prog A) : prog A := λ w,
  let '(r, w) := m w in (map_err f r, w).

(** ** Paths of objects *)

Definition ValidatePathComponent (c : string) : result error unit :=
  if decide (c = "" ∨ c = ".") then Err ErrNotExist
  else if occurs "/" c || contains c ".." then Err ErrNotExist
  else Ok tt.

(** [root] is the directory of the configuration, resolved against the working directory. *)
Record LocalStore := mkLocalStore { root : string; repoNames : list string }.

Definition getRepoDir (l : LocalStore) (name : string) : result error string :=
  _ ← map_err ErrInvalidName (ValidateName name);
  if decide (name ∈ l.(repoNames)) then Ok (path_join [l.(root); name])
  else Err (WrapErr ErrNotFound ("repo " +:+ name)).

Definition archPath (l : LocalStore) (repo arch : string) : result error string :=
  repoDir ← getRepoDir l repo;
  _ ← ValidatePathComponent arch;
  Ok (path_join [repoDir; arch]).

Definition objectPath (l : LocalStore) (repo arch name : string) : result error string :=
  repoPath ← archPath l repo arch;
  _ ← ValidatePathComponent name;
  Ok (path_join [repoPath; name]).

(** ** Operations *)

(** A seekable stream with its name. *)
Record SeekFile := mkSeekFile { FileName : string; Data : string }.

Record FileInfo := mkFileInfo { fi_Name : string; fi_LastModified : option Z; fi_Version : string }.

Section store.
Context (net : nat → io_outcome) (others : nat → gmap string object → gmap string object).
(** The clock of the store, and SHA-256 in hexadecimal. *)
Context (time : nat → Z) (sha256 : string → string).
Context (l : LocalStore).

Definition interfere (w : world) : world :=
  w <| objects ::= others w.(now) |> <| now ::= S |>.

(** A call of the store: the other processes run, the call has an outcome, and [k] is its
    effect under the object's lock. *)
Definition call {A} (path : string) (k : io_outcome → prog A) : prog A := λ w,
  let o := net w.(now) in
  let w := interfere w in
  match o with
  | IoFail => (Err (ErrStore path), w)
  | _ => k o w
  end.

Definition sha256ETag (data : string) : string := "sha256:" +:+ sha256 data.

Definition FetchFile (repo arch name : string) : prog string :=
  path ← lift (objectPath l repo arch name);
  call path (λ o w,
    match w.(objects) !! path, o with
    | None, _ => (Err ErrNotFound, w)
    | Some obj, IoOk => (Ok obj.(o_data), w)
    | Some _, _ => (Err (ErrStore path), w)
    end).

Definition FetchFileWithETag (repo arch name : string) : prog (string * string) :=
  data ← FetchFile repo arch name;
  mret (data, sha256ETag data).

(** [writeAtomicFile], then the failure of the flush if there is one. *)
Definition put (path data : string) (o : io_outcome) : prog unit := λ w,
  let w := w <| own ::= λ l, l ++ [mkWrite path (o_data <$> w.(objects) !! path) (Some data)] |>
             <| objects ::= <[path := mkObject data (time w.(now))]> |> in
  match o with IoOk => (Ok tt, w) | _ => (Err (ErrStore path), w) end.

Definition remove (path : string) (o : io_outcome) : prog unit := λ w,
  let w := w <| own ::= λ l, l ++ [mkWrite path (o_data <$> w.(objects) !! path) None] |>
             <| objects ::= delete path |> in
  match o with IoOk => (Ok tt, w) | _ => (Err (ErrStore path), w) end.

Definition StoreFile (repo arch : string) (file : SeekFile) : prog unit :=
  path ← lift (objectPath l repo arch (path_base file.(FileName)));
  call path (put path file.(Data)).

Definition StoreFileIfMatch (repo arch : string) (file : SeekFile) (etag : string) : prog unit :=
  path ← lift (objectPath l repo arch (path_base file.(FileName)));
  call path (λ o w,
    match sha256ETag ∘ o_data <$> w.(objects) !! path with
    | None => if decide (etag = "") then put path file.(Data) o w
              else (Err ErrPreconditionFailed, w)
    | Some current => if decide (etag = "" ∨ current ≠ etag) then (Err ErrPreconditionFailed, w)
                      else put path file.(Data) o w
    end).

Definition DeleteFile (repo arch name : string) : prog unit :=
  path ← lift (objectPath l repo arch name);
  call path (λ o w,
    match w.(objects) !! path with
    | None => (Err (WrapErr ErrNotExist "failed to remove pkg file"), w)
    | Some _ => remove path o w
    end).

(** [None] is the zero time of a listing. *)
Definition DeleteFileIfUnchanged (repo arch : string) (expected : FileInfo) (cutoff : Z) : prog bool :=
  match expected.(fi_LastModified) with
  | None => mret false
  | Some modified =>
      if decide (expected.(fi_Name) = "") then mret false else
      path ← lift (objectPath l repo arch expected.(fi_Name));
      call path (λ o w,
        match w.(objects) !! path with
        | None => (Ok false, w)
        | Some obj =>
            if decide (obj.(o_modified) ≠ modified ∨ cutoff < obj.(o_modified))%Z then (Ok false, w)
            else if decide (expected.(fi_Version) ≠ "" ∧ sha256ETag obj.(o_data) ≠ expected.(fi_Version))
            then (Ok false, w)
            else (_ ← remove path o; mret true) w
        end)
  end.
End store.

(** ** Object paths never collide *)
Section paths.
Context (rs : list string) (Hrs : Forall (λ c, plain c = true) rs).

Lemma ValidatePathComponent_plain c : ValidatePathComponent c = Ok tt → plain c = true.
Proof.
  unfold ValidatePathComponent. case_decide as H1; [done|].
  destruct (occurs "/" c) eqn:Ho; [done|]. destruct (contains c "..") eqn:Hc; [done|]. intros _.
  unfold plain. rewrite Ho, !andb_true_iff, !bool_decide_eq_true. split_and!; [done|tauto|tauto|].
  intros ->. by vm_compute in Hc.
Qed.

Lemma ValidateName_plain name : ValidateName name = Ok tt → plain name = true.
Proof.
  unfold ValidateName. case_decide as Hne; [done|]. case_decide as Hdot; [done|].
  destruct (all_bytes _ name) eqn:Hb; [|done]. intros _.
  assert (Ho : occurs "/" name = false) by (eapply all_bytes_occurs; [|exact Hb]; done).
  unfold plain. rewrite Ho, !andb_true_iff, !bool_decide_eq_true. split_and!; [done|done|tauto|tauto].
Qed.

Lemma objectPath_Ok names repo arch name p :
  objectPath (mkLocalStore (abs_path rs) names) repo arch name = Ok p ↔
  ValidateName repo = Ok tt ∧ repo ∈ names ∧ ValidatePathComponent arch = Ok tt
  ∧ ValidatePathComponent name = Ok tt ∧ p = abs_path (rs ++ [repo; arch; name]).
Proof.
  unfold objectPath, archPath, getRepoDir. simpl.
  assert (∀ r : result error unit, (∃ e, r = Err e) ∨ r = Ok tt) as Hu by (intros [[]|]; eauto).
  destruct (ValidateName repo) as [[]|] eqn:H1; simpl; [|naive_solver].
  case_decide as H2; simpl; [|naive_solver].
  destruct (Hu (ValidatePathComponent arch)) as [[e H3]|H3]; rewrite H3; simpl; [naive_solver|].
  destruct (Hu (ValidatePathComponent name)) as [[e H4]|H4]; rewrite H4; simpl; [naive_solver|].
  apply ValidateName_plain in H1. apply ValidatePathComponent_plain in H3, H4.
  rewrite !path_join_abs by (rewrite ?Forall_app, ?Forall_singleton; auto).
  rewrite <-!(assoc_L (++)). split; [by intros [= <-]|by intros (_ & _ & _ & _ & ->)].
Qed.

Lemma objectPath_inj names repo arch name repo' arch' name' p :
  objectPath (mkLocalStore (abs_path rs) names) repo arch name = Ok p →
  objectPath (mkLocalStore (abs_path rs) names) repo' arch' name' = Ok p →
  repo = repo' ∧ arch = arch' ∧ name = name'.
Proof.
  intros (R1 & _ & A1 & N1 & ->)%objectPath_Ok (R2 & _ & A2 & N2 & E)%objectPath_Ok.
  apply ValidateName_plain in R1, R2. apply ValidatePathComponent_plain in A1, A2, N1, N2.
  apply abs_path_inj in E; [|apply Forall_app; split; [done|]; repeat constructor; done..].
  apply app_inv_head in E. by simplify_eq.
Qed.
End paths.
