(* ===== verification/RepoDB.v ===== *)
(** * Publishing repository databases (ayato/repository/repodb*.go, immutable.go)

    The database of a repository is an object that several instances of ayato read, change
    and write back.  A change is an optimistic transaction: fetch the objects with their
    tags into a temporary directory, run the repository tool there, store the canonical
    .db archive on the condition that its tag is still the fetched one, and then publish
    the derived archives while the canonical one is still ours.  The in-process lock
    [dbMu] only avoids conflicts and is not modelled: the other goroutines are part of the
    interference of [Blob].  A package that is already a file on disk is hard-linked into
    the directory where that is possible; the model copies its bytes. *)

From S2P Require Import Prelude GoStrings Paths Pkginfo Artifact Package Dbwriter Repo Dbtool Blob.

(** A [for] loop in [prog]. *)
Fixpoint prog_fold {A S} (f : S → A → prog S) (s : S) (l : list A) : prog S :=
  match l with
  | [] => mret s
  | a :: l => s ← f s a; prog_fold f s l
  end.

(** [WrapErr] of a call's error. *)
Definition wrap {A} (msg : string) : prog A → prog A := wrapping (λ e, WrapErr e msg).

Definition maxDBAttempts : nat := 6.

(** [RepoAddItem]; nil streams are [None]. *)
Record RepoAddItem := mkItem {
  Pkg : option SeekFile;
  Sig : option SeekFile;
  CheckCurrent : bool;
  ExpectedName : string;
  ExpectedCurrentVersion : string;
  ExpectedCurrentFile : string;
  IntendedVersion : string;
  IntendedFile : string;
}.

Definition dbArtifactBases (repoName : string) : list string := Archives (Artifacts repoName).

Definition derivedArtifacts (repoName : string) (useSignedDB : bool) : list string :=
  FilesArchive (Artifacts repoName)
  :: (if useSignedDB then ArchiveSignatures (Artifacts repoName) else []).

Section repodb.
Context (net : nat → io_outcome) (others : nat → gmap string object → gmap string object).
Context (time : nat → Z) (sha256 : string → string) (l : LocalStore).
(** The local file system: its outcomes, whether [os.Stat] works, how much of a failed write
    reaches a file, and the temporary directory [os.MkdirTemp] returns. *)
Context (io : nat → io_outcome) (stat : nat → bool) (torn : nat → nat) (dir : string).
Context (encode : list tar_member → string) (decode : string → result string tar_stream).
Context (quote : string → string) {R : RangeOrder} (t : NativeTool).

Abbreviation FetchFileWithETag := (FetchFileWithETag net others sha256 l).
Abbreviation StoreFileIfMatch := (StoreFileIfMatch net others time sha256 l).

(** ** Local files *)

Definition tick : prog io_outcome := λ w, (Ok (io w.(now)), w <| now ::= S |>).
Definition get_files : prog (gmap string string) := λ w, (Ok w.(files), w).
Definition get_now : prog nat := λ w, (Ok w.(now), w).
Definition set_file (path : string) (data : option string) : prog unit := λ w,
  (Ok tt, w <| files ::= partial_alter (λ _, data) path |>).

(** Any error of [os.Stat] counts as absence. *)
Definition fileExists (path : string) : prog bool :=
  n ← get_now; _ ← tick; fs ← get_files;
  mret (stat n && bool_decide (is_Some (fs !! path))).

Definition read_local (path : string) : prog string :=
  o ← tick; fs ← get_files;
  match o, fs !! path with
  | IoOk, Some data => mret data
  | _, _ => throw (ErrLocal path)
  end.

(** [os.Remove]; a missing file is no error to the callers. *)
Definition os_remove (path : string) : prog unit :=
  o ← tick;
  match o with
  | IoOk => set_file path None
  | _ => throw (ErrLocal path)
  end.

Definition mkdir (path : string) : prog unit :=
  o ← tick; match o with IoOk => mret tt | _ => throw (ErrLocal path) end.

(** [writeReaderToPath]: a failure can leave a part of the data. *)
Definition writeReaderToPath (dst data : string) : prog unit :=
  o ← tick;
  match o with
  | IoOk => set_file dst (Some data)
  | IoFail => throw (ErrLocal dst)
  | IoFailAfter => n ← get_now; _ ← set_file dst (Some (str_take (torn n) data)); throw (ErrLocal dst)
  end.

Definition copyLocalFile (dst src : string) : prog unit :=
  data ← read_local src; writeReaderToPath dst data.

Definition run_tool {A} (m : tool A) : prog A := λ w,
  let '(r, st) := m (mkTool w.(files) w.(now)) in
  (map_err ErrTool r, w <| files := fs st |> <| now := clock st |>).

(** The new directory is empty, and is removed with what it holds. *)
Definition in_empty {A} (run : prog A) : prog A := λ w,
  let '(r, w) := run (w <| files := ∅ |>) in (r, w <| files := ∅ |>).

Definition withRepoDBTempDir (run : prog unit) : prog unit :=
  o ← tick;
  match o with
  | IoOk => in_empty run
  | _ => throw (ErrLocal dir)
  end.

Definition local (name : string) : string := path_join [dir; name].

Definition writeSeekFileToPath (dst : string) (file : option SeekFile) : prog unit :=
  match file with
  | None => mret tt
  | Some file => writeReaderToPath dst file.(Data)
  end.

Definition writeSeekFileTo (file : option SeekFile) : prog string :=
  match file with
  | None => mret ""
  | Some f => let dst := local (path_base f.(FileName)) in
              _ ← writeSeekFileToPath dst file; mret dst
  end.

(** ** Seeding the workspace *)

Definition clearDBArtifacts (repo : string) (useSignedDB : bool) : prog unit :=
  let a := Artifacts repo in
  prog_fold (λ _ name, os_remove (local name)) tt
    (Archives a ++ Aliases a ++ (if useSignedDB then ArchiveSignatures a ++ AliasSignatures a else [])).

Definition fetch_artifact (repo arch : string) (etags : gmap string string) (name : string)
    : prog (gmap string string) :=
  r ← try (FetchFileWithETag repo arch name);
  match r with
  | Ok (data, etag) =>
      _ ← wrap ("failed to materialize db artifact " +:+ name) (writeReaderToPath (local name) data);
      mret (<[name := etag]> etags)
  | Err e => if is_not_found e then mret etags
             else throw (WrapErr e ("failed to fetch db artifact " +:+ name))
  end.

Definition fetchDBArtifacts (repo arch : string) (useSignedDB : bool) : prog (gmap string string) :=
  prog_fold (fetch_artifact repo arch) ∅
    (dbArtifactBases repo
     ++ (if useSignedDB then map (λ name, name +:+ ".sig") (dbArtifactBases repo) else [])).

(** ** Publishing *)

Definition storeIfMatch (repo arch name etag : string) : prog unit :=
  data ← wrap ("failed to open artifact " +:+ name) (read_local (local name));
  StoreFileIfMatch repo arch (mkSeekFile name data) etag.

Definition currentObjectETag (repo arch name : string) : prog string :=
  r ← try (FetchFileWithETag repo arch name);
  match r with
  | Ok (_, etag) => mret etag
  | Err e => if is_not_found e then mret "" else throw e
  end.

Definition liveObjectMatchesFile (repo arch name localPath : string) : prog bool :=
  localData ← read_local localPath;
  r ← try (FetchFileWithETag repo arch name);
  match r with
  | Ok (live, _) => mret (bool_decide (sha256 localData = sha256 live))
  | Err e => if is_not_found e then mret false else throw e
  end.

Fixpoint derived_attempts (n : nat) (repo arch name dbName canonicalSnapshot : string)
    (lastErr : error) : prog unit :=
  match n with
  | O => throw (WrapErr lastErr ("reconcile derived repo artifact " +:+ name))
  | S n =>
      matches ← liveObjectMatchesFile repo arch dbName canonicalSnapshot;
      if negb matches then throw ErrPreconditionFailed else
      etag ← currentObjectETag repo arch name;
      r ← try (storeIfMatch repo arch name etag);
      match r with
      | Ok _ => mret tt
      | Err e => if is_precondition e
                 then derived_attempts n repo arch name dbName canonicalSnapshot e
                 else throw e
      end
  end.

(** The last error of no attempt is never used. *)
Definition commitOneDerived (repo arch name dbName canonicalSnapshot : string) : prog unit :=
  derived_attempts maxDBAttempts repo arch name dbName canonicalSnapshot ErrPreconditionFailed.

Definition commit_derived (repo arch canonicalSnapshot name : string) : prog unit :=
  exists_ ← fileExists (local name);
  if negb exists_ then mret tt
  else commitOneDerived repo arch name (DatabaseArchive (Artifacts repo)) canonicalSnapshot.

Definition commitDerivedArtifacts (repo arch canonicalSnapshot : string) (useSignedDB : bool) : prog unit :=
  _ ← prog_fold (λ _ name, commit_derived repo arch canonicalSnapshot name) tt
        (derivedArtifacts repo useSignedDB);
  matches ← liveObjectMatchesFile repo arch (DatabaseArchive (Artifacts repo)) canonicalSnapshot;
  if negb matches then throw ErrPreconditionFailed else mret tt.

Definition commitDB (repo arch : string) (etags : gmap string string) (useSignedDB : bool) : prog unit :=
  let dbName := DatabaseArchive (Artifacts repo) in
  r ← try (storeIfMatch repo arch dbName (default "" (etags !! dbName)));
  match r with
  | Err e => throw (if is_precondition e then e else CanonicalCommitError e)
  | Ok _ => wrapping CanonicalCommitError
              (commitDerivedArtifacts repo arch (local dbName) useSignedDB)
  end.

(** ** The transaction *)

Definition markCommitted (canonicalCommitted : bool) (e : error) : error :=
  if negb canonicalCommitted || CanonicalCommitted e then e else CanonicalCommitError e.

Definition prepare (repo arch : string) (useSignedDB : bool) (mutate : prog unit)
    : prog (gmap string string) :=
  _ ← clearDBArtifacts repo useSignedDB;
  etags ← fetchDBArtifacts repo arch useSignedDB;
  _ ← mutate;
  mret etags.

Fixpoint run_attempts (n : nat) (repo arch : string) (useSignedDB : bool) (mutate : prog unit)
    (canonicalCommitted : bool) (lastErr : error) : prog unit :=
  match n with
  | O => throw (markCommitted canonicalCommitted (WrapErr lastErr "too many conflicting writers"))
  | S n =>
      r ← try (prepare repo arch useSignedDB mutate);
      match r with
      | Err e => throw (markCommitted canonicalCommitted e)
      | Ok etags =>
          r ← try (commitDB repo arch etags useSignedDB);
          match r with
          | Ok _ => mret tt
          | Err e =>
              if negb (is_precondition e) && negb (CanonicalCommitted e) then throw e
              else run_attempts n repo arch useSignedDB mutate
                     (canonicalCommitted || CanonicalCommitted e) e
          end
      end
  end.

Definition mutateDB (repo arch : string) (useSignedDB : bool) (mutate : string → prog unit) : prog unit :=
  run_attempts maxDBAttempts repo arch useSignedDB
    (mutate (local (DatabaseArchive (Artifacts repo)))) false ErrPreconditionFailed.

(** ** Conditional changes *)

Definition RepoFromDBFile (name dbfile : string) : prog RemoteRepo :=
  data ← read_local dbfile;
  lift (map_err ErrReadDB (RemoteRepoFromDBContext decode quote (λ _, None) name data)).

Definition hasConditionalAdd (items : list RepoAddItem) : bool := existsb CheckCurrent items.

Definition readRepoOrEmpty (dbPath : string) : prog RemoteRepo :=
  exists_ ← fileExists dbPath;
  if negb exists_ then mret (mkRemote "" "" [])
  else wrap "read repo db for conditional publish" (RepoFromDBFile "" dbPath).

(** A package is the one a caller saw: same version, same file. *)
Definition is_package (p : BinaryPackage) (version file : string) : bool :=
  bool_decide (bp_Version p = version) && bool_decide (path_base (bp_path p) = file).

Definition validateAddExpectation (current : RemoteRepo) (item : RepoAddItem) : result error unit :=
  let pkg := PkgByPkgName current item.(ExpectedName) in
  let intended := match pkg with
    | Some p => negb (bool_decide (item.(IntendedVersion) = ""))
                && is_package p item.(IntendedVersion) item.(IntendedFile)
    | None => false
    end in
  if intended then Ok tt
  else if decide (item.(ExpectedCurrentVersion) = "") then
    match pkg with Some _ => Err (ErrPackageChanged item.(ExpectedName)) | None => Ok tt end
  else match pkg with
       | Some p => if is_package p item.(ExpectedCurrentVersion) item.(ExpectedCurrentFile)
                   then Ok tt else Err (ErrPackageChanged item.(ExpectedName))
       | None => Err (ErrPackageChanged item.(ExpectedName))
       end.

Definition check_items (current : RemoteRepo) (items : list RepoAddItem) : result error unit :=
  foldM (λ _ item, if item.(CheckCurrent) then validateAddExpectation current item else Ok tt) tt items.

Definition validateAddExpectations (dbPath : string) (items : list RepoAddItem) : prog unit :=
  if negb (hasConditionalAdd items) then mret tt
  else current ← readRepoOrEmpty dbPath; lift (check_items current items).

Definition validateCurrent (current : RemoteRepo) (name expectedVersion expectedFile : string)
    : result error bool :=
  match PkgByPkgName current name with
  | None => Ok true
  | Some p => if is_package p expectedVersion expectedFile then Ok false
              else Err (ErrPackageChanged name)
  end.

Definition validateCurrentPackage (dbPath name expectedVersion expectedFile : string) : prog bool :=
  current ← wrap "read repo db for conditional remove" (RepoFromDBFile "" dbPath);
  lift (validateCurrent current name expectedVersion expectedFile).

(** ** The operations *)

Definition materialize_item (paths : list string) (item : RepoAddItem) : prog (list string) :=
  pkgPath ← writeSeekFileTo item.(Pkg);
  if decide (pkgPath = "") then mret paths
  else _ ← writeSeekFileToPath (pkgPath +:+ ".sig") item.(Sig); mret (paths ++ [pkgPath]).

Definition materializeRepoAddItems (items : list RepoAddItem) : prog (list string) :=
  prog_fold materialize_item [] items.

Definition add_mutation (items : list RepoAddItem) (pkgPaths : list string) (useSignedDB : bool)
    (dbPath : string) : prog unit :=
  _ ← validateAddExpectations dbPath items;
  wrap "repo db add failed"
    (run_tool (Dbtool.RepoAddBatch io encode decode sha256 t dbPath pkgPaths useSignedDB)).

Definition RepoAddBatch (repo arch : string) (items : list RepoAddItem) (useSignedDB : bool) : prog unit :=
  withRepoDBTempDir (
    pkgPaths ← materializeRepoAddItems items;
    mutateDB repo arch useSignedDB (add_mutation items pkgPaths useSignedDB)).

Definition RepoAdd (repo arch : string) (pkg sig : option SeekFile) (useSignedDB : bool) : prog unit :=
  RepoAddBatch repo arch [mkItem pkg sig false "" "" "" "" ""] useSignedDB.

Definition is_package_not_found : error → bool :=
  error_is (λ e, match e with ErrTool (ErrPackageNotFound _) => true | _ => false end).

Definition remove_mutation (pkg expectedVersion expectedFile : string) (conditional useSignedDB : bool)
    (dbPath : string) : prog unit :=
  exists_ ← fileExists dbPath;
  if negb exists_ then throw (if conditional then ErrPackageChanged pkg else ErrDatabaseNotFound)
  else
    alreadyRemoved ← (if conditional : bool
                      then validateCurrentPackage dbPath pkg expectedVersion expectedFile
                      else mret false);
    if alreadyRemoved : bool then mret tt
    else
      r ← try (run_tool (Dbtool.RepoRemove io encode decode t dbPath pkg useSignedDB));
      match r with
      | Ok _ => mret tt
      | Err e => if is_package_not_found e then mret tt else throw (WrapErr e "repo db remove failed")
      end.

Definition repoRemove (repo arch pkg expectedVersion expectedFile : string)
    (conditional useSignedDB : bool) : prog unit :=
  withRepoDBTempDir
    (mutateDB repo arch useSignedDB
       (remove_mutation pkg expectedVersion expectedFile conditional useSignedDB)).

Definition RepoRemove (repo arch pkg : string) (useSignedDB : bool) : prog unit :=
  repoRemove repo arch pkg "" "" false useSignedDB.

Definition RepoRemoveIfMatch (repo arch pkg expectedVersion expectedFile : string) (useSignedDB : bool)
    : prog unit :=
  repoRemove repo arch pkg expectedVersion expectedFile true useSignedDB.

(** ** Resolution of public names *)

Context (upstream : gset string).

Definition scopedArtifacts (name scope : string) : DatabaseArtifacts :=
  WithArchivePrefix (Artifacts name) (name +:+ "." +:+ scope).
Definition mergedArtifacts (name : string) : DatabaseArtifacts := scopedArtifacts name "merged".

Definition dbAliasArchive (artifacts : DatabaseArtifacts) (file : string) : string :=
  default "" (ArchiveForAlias artifacts file).

Definition dbAliasTargets (repo file : string) : list string :=
  let overlay := dbAliasArchive (Artifacts repo) file in
  if decide (overlay = "") then []
  else if decide (repo ∈ upstream) then [dbAliasArchive (mergedArtifacts repo) file; overlay]
  else [overlay].

(** The loop over the alias targets: an object, or [None] when all are absent. *)
Fixpoint fetch_targets (fetch : string → string → string → prog string) (repo arch : string)
    (targets : list string) : prog (option string) :=
  match targets with
  | [] => mret None
  | target :: targets =>
      r ← try (fetch repo arch target);
      match r with
      | Ok alias => mret (Some alias)
      | Err e => if is_not_found e then fetch_targets fetch repo arch targets else throw e
      end
  end.

Definition resolveFile (repo arch file : string) (fetch : string → string → string → prog string)
    : prog string :=
  r ← try (fetch repo arch file);
  match r with
  | Ok data => mret data
  | Err e =>
      alias ← fetch_targets fetch repo arch (dbAliasTargets repo file);
      match alias with
      | Some data => mret data
      | None =>
          if decide (arch = "any") then throw e
          else if negb (IsAny file) then throw e
          else shared ← try (fetch repo "any" file);
               match shared with Ok data => mret data | Err _ => throw e end
      end
  end.

Definition FetchFile (repo arch file : string) : prog string :=
  resolveFile repo arch file (Blob.FetchFile net others l).

(** ** Reconciliation *)

Definition materialize_package (repo arch : string) (acc : list string * gset string)
    (filename : string) : prog (list string * gset string) :=
  let '(paths, seen) := acc in
  if decide (path_base filename ≠ filename) then throw (ErrInvalidFilename filename)
  else if decide (filename ∈ seen) then mret acc
  else
    data ← wrap ("fetch canonical package object " +:+ filename) (FetchFile repo arch filename);
    let dst := path_join [local "packages"; filename] in
    _ ← wrap ("materialize canonical package object " +:+ filename) (writeReaderToPath dst data);
    mret (paths ++ [dst], {[filename]} ∪ seen).

Definition materializePackages (repo arch : string) (filenames : list string) : prog (list string) :=
  _ ← mkdir (local "packages");
  acc ← prog_fold (materialize_package repo arch) ([], ∅) filenames;
  mret acc.1.

Definition canonicalSnapshot (repo : string) : string :=
  local (".canonical-" +:+ DatabaseArchive (Artifacts repo)).

Definition fetchCanonical (repo arch : string) : prog bool :=
  let dbName := DatabaseArchive (Artifacts repo) in
  r ← try (FetchFileWithETag repo arch dbName);
  match r with
  | Ok (canonical, _) =>
      _ ← writeReaderToPath (local dbName) canonical;
      _ ← wrap "snapshot canonical db" (copyLocalFile (canonicalSnapshot repo) (local dbName));
      mret true
  | Err e => if is_not_found e then mret false
             else throw (WrapErr e "reconcile repo db: fetch canonical db")
  end.

Definition fetchFiles (repo arch : string) : prog bool :=
  let filesName := FilesArchive (Artifacts repo) in
  r ← try (FetchFileWithETag repo arch filesName);
  match r with
  | Ok (current, _) =>
      _ ← wrap "materialize files database" (writeReaderToPath (local filesName) current); mret true
  | Err e => if is_not_found e then mret false
             else throw (WrapErr e "reconcile repo db: fetch files database")
  end.

(** [errors.As] with [MissingPackageFilesError]. *)
Definition missing_files (e : error) : option (list string) :=
  match e with ErrTool (ErrMissingPackageFiles filenames) => Some filenames | _ => None end.

Definition tool_rebuild (repo : string) (pkgPaths : list string) (useSignedDB : bool) : prog unit :=
  run_tool (RebuildDerived io encode decode sha256 t (local (DatabaseArchive (Artifacts repo)))
              pkgPaths useSignedDB).

Definition rebuild_result (r : result error unit) : prog unit :=
  match r with Ok _ => mret tt | Err e => throw (WrapErr e "rebuild derived repo artifacts") end.

Definition rebuildDerived (repo arch : string) (useSignedDB hadFiles : bool) : prog unit :=
  r ← try (tool_rebuild repo [] useSignedDB);
  r ← (match r with
       | Err e => if bool_decide (missing_files e = None) && hadFiles
                  then _ ← os_remove (local (FilesArchive (Artifacts repo)));
                       try (tool_rebuild repo [] useSignedDB)
                  else mret r
       | Ok _ => mret r
       end);
  match r with
  | Err e =>
      match missing_files e with
      | Some filenames =>
          pkgPaths ← materializePackages repo arch filenames;
          r ← try (tool_rebuild repo pkgPaths useSignedDB);
          rebuild_result r
      | None => rebuild_result r
      end
  | Ok _ => rebuild_result r
  end.

Definition reconcile_once (repo arch : string) (useSignedDB : bool) : prog unit :=
  found ← fetchCanonical repo arch;
  if negb found then mret tt
  else
    hadFiles ← fetchFiles repo arch;
    _ ← rebuildDerived repo arch useSignedDB hadFiles;
    commitDerivedArtifacts repo arch (canonicalSnapshot repo) useSignedDB.

Fixpoint reconcile_attempts (n : nat) (repo arch : string) (useSignedDB : bool) : prog unit :=
  match n with
  | O => throw (WrapErr ErrPreconditionFailed "reconcile repo db: too many conflicting writers")
  | S n =>
      r ← try (withRepoDBTempDir (reconcile_once repo arch useSignedDB));
      match r with
      | Ok _ => mret tt
      | Err e => if is_precondition e then reconcile_attempts n repo arch useSignedDB else throw e
      end
  end.

Definition ReconcileDB (repo arch : string) (useSignedDB : bool) : prog unit :=
  reconcile_attempts maxDBAttempts repo arch useSignedDB.

(** ** Initialisation *)

Definition InitArch (repo arch : string) (useSignedDB : bool) : prog unit :=
  let dbName := DatabaseArchive (Artifacts repo) in
  r ← try (FetchFileWithETag repo arch dbName);
  match r with
  | Ok _ => ReconcileDB repo arch useSignedDB
  | Err e =>
      if negb (is_not_found e) then throw (WrapErr e "repo db init: probe existing db")
      else withRepoDBTempDir (
        _ ← wrap "repo db init failed"
              (run_tool (Dbtool.RepoAdd io encode decode sha256 t (local dbName) "" useSignedDB));
        r ← try (commitDB repo arch ∅ useSignedDB);
        match r with
        | Ok _ => mret tt
        | Err e => if is_precondition e then mret tt else throw (WrapErr e "repo db init failed")
        end)
  end.

Fixpoint backfill_signatures (repo arch : string) (names : list string) : prog unit :=
  match names with
  | [] => mret tt
  | name :: names =>
      r ← try (Blob.FetchFile net others l repo arch name);
      match r with
      | Ok _ => backfill_signatures repo arch names
      | Err e => if is_not_found e then ReconcileDB repo arch true
                 else throw (WrapErr e ("backfill: probe signature " +:+ name))
      end
  end.

Definition BackfillSignatures (repo arch : string) : prog unit :=
  r ← try (Blob.FetchFile net others l repo arch (DatabaseArchive (Artifacts repo)));
  match r with
  | Ok _ => backfill_signatures repo arch (ArchiveSignatures (Artifacts repo))
  | Err e => if is_not_found e then mret tt else throw (WrapErr e "backfill: probe db")
  end.

(** ** Immutable objects *)

Fixpoint immutable_attempts (n : nat) (repo arch : string) (file : SeekFile) : prog bool :=
  match n with
  | O => throw (WrapErr ErrImmutableObjectConflict "remained contended")
  | S n =>
      r ← try (FetchFileWithETag repo arch file.(FileName));
      match r with
      | Ok (existing, etag) =>
          if decide (sha256 existing = sha256 file.(Data)) then
            r ← try (StoreFileIfMatch repo arch file etag);
            match r with
            | Ok _ => mret false
            | Err e => if is_precondition e then immutable_attempts n repo arch file
                       else throw (WrapErr e "renew immutable object")
            end
          else throw (WrapErr ErrImmutableObjectConflict file.(FileName))
      | Err e =>
          if negb (is_not_found e) then throw (WrapErr e "probe immutable object")
          else
            r ← try (StoreFileIfMatch repo arch file "");
            match r with
            | Ok _ => mret true
            | Err e => if is_precondition e then immutable_attempts n repo arch file
                       else throw (WrapErr e "create immutable object")
            end
      end
  end.

Definition StoreFileImmutable (repo arch : string) (file : SeekFile) : prog bool :=
  immutable_attempts 3 repo arch file.
End repodb.
