(* ===== verification/RepoDBSpec.v ===== *)
(** * Publishing repository databases: what a transaction guarantees

    A small program logic for [prog] (weakest preconditions over the final result, the
    objects this process changed, and the final world), and with it the guarantees of the
    transactions of [RepoDB]: for every interference by other processes and every failure of
    a call. *)

From S2P Require Import Prelude GoStrings Paths Package Dbwriter Repo Dbtool Blob RepoDB.

(** ** The program logic *)

(** [Q] holds of the result of [m], of the changes it made to objects and of the world it
    leaves. *)
Definition wp {A} (m : prog A) (w : world) (Q : result error A → list write → world → Prop) : Prop :=
  ∃ ws, own (m w).2 = own w ++ ws ∧ Q (m w).1 ws (m w).2.

Section logic.
Context {A B : Type}.
Implicit Types (m : prog A) (w : world).

Lemma wp_mono m w (Q Q' : result error A → list write → world → Prop) :
  wp m w Q → (∀ r ws w', Q r ws w' → Q' r ws w') → wp m w Q'.
Proof. intros (ws & H1 & H2) HQ. exists ws. auto. Qed.

Lemma wp_ret (a : A) w Q : Q (Ok a) [] w → wp (mret a) w Q.
Proof. exists []. split; [by rewrite app_nil_r|done]. Qed.

Lemma wp_throw e w (Q : result error A → _) : Q (Err e) [] w → wp (throw e) w Q.
Proof. exists []. split; [by rewrite app_nil_r|done]. Qed.

Lemma wp_lift (r : result error A) w Q : Q r [] w → wp (lift r) w Q.
Proof. exists []. split; [by rewrite app_nil_r|done]. Qed.

Lemma wp_bind m (f : A → prog B) w Q :
  wp m w (λ r ws w', match r with
    | Ok a => wp (f a) w' (λ r ws', Q r (ws ++ ws'))
    | Err e => Q (Err e) ws w'
    end) → wp (m ≫= f) w Q.
Proof.
  intros (ws & H1 & H2). unfold wp, mbind, prog_bind in *. destruct (m w) as [[a|e] w1]; simpl in *.
  - destruct H2 as (ws' & H3 & H4). exists (ws ++ ws'). split; [|done]. by rewrite H3, H1, (assoc (++)).
  - by exists ws.
Qed.

Lemma wp_try m w Q : wp m w (λ r, Q (Ok r)) → wp (try m) w Q.
Proof. intros (ws & H1 & H2). unfold wp, try. exists ws. by destruct (m w). Qed.

Lemma wp_wrapping f m w Q : wp m w (λ r, Q (map_err f r)) → wp (wrapping f m) w Q.
Proof. intros (ws & H1 & H2). unfold wp, wrapping. exists ws. by destruct (m w). Qed.
End logic.

(** An invariant of a loop; an error of the body ends the loop. *)
Lemma wp_fold {A S} (f : S → A → prog S) (I : S → list write → world → Prop)
    (E : error → list write → world → Prop) l s w0 ws0 w :
  I s ws0 w → own w = own w0 ++ ws0 →
  (∀ s a ws w, a ∈ l → I s ws w → own w = own w0 ++ ws →
     wp (f s a) w (λ r ws' w', match r with
       | Ok s' => I s' (ws ++ ws') w'
       | Err e => E e (ws ++ ws') w'
       end)) →
  wp (prog_fold f s l) w (λ r ws' w', match r with
    | Ok s' => I s' (ws0 ++ ws') w'
    | Err e => E e (ws0 ++ ws') w'
    end).
Proof.
  revert s ws0 w. induction l as [|a l IH]; intros s ws0 w HI Hown Hf.
  { apply wp_ret. by rewrite app_nil_r. }
  simpl. apply wp_bind. destruct (Hf s a ws0 w) as (ws & H1 & H2); [set_solver|done..|].
  exists ws. split; [done|]. destruct (f s a w) as [[s'|e] w']; simpl in *; [|done].
  eapply wp_mono; [apply (IH s' (ws0 ++ ws))|].
  - done.
  - by rewrite H1, Hown, (assoc (++)).
  - intros s1 a1 ws1 w1 Ha. apply Hf. set_solver.
  - intros [s''|e] ws' w''; by rewrite (assoc (++)).
Qed.

(** ** Calls *)
Section calls.
Context (net : nat → io_outcome) (others : nat → gmap string object → gmap string object).
Context (time : nat → Z) (sha256 : string → string) `{!Inj (=) (=) sha256} (l : LocalStore).

(** The tag of an object that may be absent. *)
Definition tag (o : option string) : string :=
  match o with Some data => sha256ETag sha256 data | None => "" end.

#[export] Instance tag_inj : Inj (=) (=) tag.
Proof.
  intros [x|] [y|]; [|done..]. unfold tag, sha256ETag.
  by intros ->%(inj (String.append "sha256:"))%(inj sha256).
Qed.

Definition content (w : world) (path : string) : option string := o_data <$> objects w !! path.

(** A call: the others run, then it fails at once or its effect follows. *)
Lemma wp_call {A} path (k : io_outcome → prog A) w Q :
  (∀ w', files w' = files w → own w' = own w →
     Q (Err (ErrStore path)) [] w' ∧ ∀ o, wp (k o) w' Q) →
  wp (call net others path k) w Q.
Proof.
  intros HQ. unfold call. set (w1 := interfere others w).
  destruct (HQ w1) as [H1 H2]; [done..|]. unfold wp in *.
  destruct (net (now w)); [apply H2| |apply H2]. exists []. by rewrite app_nil_r.
Qed.

(** A fetch changes neither files nor objects of ours; what it returns is the live object,
    with its tag, and it reports an absent object exactly when there is none. *)
Lemma wp_fetch repo arch name w Q :
  (∀ w', files w' = files w →
     (∀ data path, objectPath l repo arch name = Ok path → content w' path = Some data →
        Q (Ok (data, tag (Some data))) [] w') ∧
     (∀ path, objectPath l repo arch name = Ok path → content w' path = None →
        Q (Err ErrNotFound) [] w') ∧
     (∀ path, Q (Err (ErrStore path)) [] w') ∧
     (∀ e, objectPath l repo arch name = Err e → Q (Err e) [] w')) →
  wp (FetchFileWithETag net others sha256 l repo arch name) w Q.
Proof.
  intros HQ. apply wp_bind. unfold Blob.FetchFile. apply wp_bind, wp_lift.
  destruct (objectPath l repo arch name) as [path|e] eqn:Hp; [|by apply (HQ w)].
  apply wp_call. intros w' Hf _. destruct (HQ w' Hf) as (H1 & H2 & H3 & _).
  split; [apply H3|]. intros o. exists []. unfold content in *.
  destruct (objects w' !! path) as [obj|] eqn:Ho.
  - destruct o; simpl; (split; [by rewrite app_nil_r|]); [|apply H3..].
    apply wp_ret. eapply H1; [done|]. by rewrite Ho.
  - simpl. split; [by rewrite app_nil_r|]. eapply H2; [done|]. by rewrite Ho.
Qed.

(** A conditional store either changes nothing, or replaces the object that has the given
    tag; when it does not fail it has replaced it, and a failed precondition changes
    nothing. *)
Lemma wp_store repo arch name data etag w Q :
  plain name = true →
  (∀ w', files w' = files w →
     (∀ e, e = ErrPreconditionFailed ∨ (∃ path, e = ErrStore path)
           ∨ objectPath l repo arch name = Err e → Q (Err e) [] w') ∧
     (∀ path old, objectPath l repo arch name = Ok path → tag old = etag →
        content w' path = Some data →
        Q (Ok tt) [mkWrite path old (Some data)] w' ∧
        Q (Err (ErrStore path)) [mkWrite path old (Some data)] w')) →
  wp (StoreFileIfMatch net others time sha256 l repo arch (mkSeekFile name data) etag) w Q.
Proof.
  intros Hn HQ. unfold StoreFileIfMatch. apply wp_bind, wp_lift. cbn [FileName Data].
  assert (path_base name = name) as ->.
  { apply plain_occurs in Hn as (? & ? & _). by apply path_base_id. }
  destruct (objectPath l repo arch name) as [path|e] eqn:Hp.
  2: { destruct (HQ w) as [H _]; [done|]. apply H. by right; right. }
  apply wp_call. intros w' Hf Hown. destruct (HQ w' Hf) as [He _]. split; [apply He; eauto|]. intros o.
  assert (∀ old, old = content w' path → tag old = etag → wp (put time path data o) w'
    (λ r ws' w'0, Q r ([] ++ ws') w'0)) as Hput.
  { intros old -> Htag. exists [mkWrite path (content w' path) (Some data)].
    set (w2 := w' <| own ::= λ l, l ++ [mkWrite path (content w' path) (Some data)] |>
      <| objects ::= <[path := mkObject data (time (now w'))]> |>).
    destruct (HQ w2) as [_ Hw]; [done|].
    destruct (Hw path (content w' path)) as [H1 H2]; [done|done| |].
    { unfold content. simpl. by rewrite lookup_insert_eq. }
    by destruct o. }
  pose proof (Hput (content w' path) eq_refl) as Hput'. unfold content, tag in Hput'.
  unfold wp in *. simpl. destruct (objects w' !! path) as [obj|] eqn:Ho; simpl in *.
  - case_decide as Hd; [exists []; split; [by rewrite app_nil_r|apply He; by left]|].
    apply Hput'. by apply dec_stable; naive_solver.
  - case_decide as Hd; [by apply Hput'|exists []; split; [by rewrite app_nil_r|apply He; by left]].
Qed.
End calls.

(** ** Local files *)
Section local_rules.
Context (io : nat → io_outcome) (stat : nat → bool) (torn : nat → nat).

Lemma wp_tick {A} (k : io_outcome → prog A) w Q :
  (∀ o w', files w' = files w → objects w' = objects w → own w' = own w → wp (k o) w' Q) →
  wp (tick io ≫= k) w Q.
Proof.
  intros HQ. apply wp_bind. exists []. split; [by rewrite app_nil_r|]. simpl.
  by eapply wp_mono; [apply HQ|].
Qed.

Lemma wp_get_files {A} (k : gmap string string → prog A) w Q :
  wp (k (files w)) w Q → wp (get_files ≫= k) w Q.
Proof.
  intros HQ. apply wp_bind. exists []. split; [by rewrite app_nil_r|]. by eapply wp_mono; [apply HQ|].
Qed.

Lemma wp_fileExists path w Q :
  (∀ w' b, files w' = files w → (b = true → is_Some (files w !! path)) →
     (b = false → files w !! path = None ∨ ∃ n, stat n = false) → Q (Ok b) [] w') →
  wp (fileExists io stat path) w Q.
Proof.
  intros HQ. unfold fileExists. apply wp_bind. exists []. split; [by rewrite app_nil_r|].
  apply wp_tick. intros o w' Hf _ _. apply wp_get_files, wp_ret. rewrite Hf. simpl in *.
  apply HQ; [done|..].
  - intros [_ ?]%andb_true_iff. by apply (bool_decide_eq_true_1 _).
  - intros [?|Hn]%andb_false_iff; [by eauto|]. left. apply bool_decide_eq_false in Hn.
    by apply eq_None_not_Some.
Qed.

Lemma wp_read_local path w Q :
  (∀ w', files w' = files w →
     (∀ data, files w !! path = Some data → Q (Ok data) [] w') ∧ Q (Err (ErrLocal path)) [] w') →
  wp (read_local io path) w Q.
Proof.
  intros HQ. apply wp_tick. intros o w' Hf _ _. destruct (HQ w' Hf) as [H1 H2].
  apply wp_get_files. rewrite Hf. destruct o, (files w !! path) eqn:E; try by apply wp_throw.
  apply wp_ret. by apply H1.
Qed.

(** A local program that changes no object, and no file outside [X]. *)
Definition local_frame (X : list string) (w w' : world) : Prop :=
  ∀ p, p ∉ X → files w' !! p = files w !! p.

Lemma wp_set_file {A} path data (k : unit → prog A) w Q :
  (∀ w', local_frame [path] w w' → files w' !! path = data → wp (k tt) w' Q) →
  wp (set_file path data ≫= k) w Q.
Proof.
  intros HQ. apply wp_bind. exists []. split; [by rewrite app_nil_r|]. simpl.
  eapply wp_mono; [apply HQ|done].
  - intros p Hp. simpl. apply lookup_partial_alter_ne. set_solver.
  - simpl. by rewrite lookup_partial_alter_eq.
Qed.

Lemma wp_write_local dst data w Q :
  (∀ w', local_frame [dst] w w' →
     (files w' !! dst = Some data → Q (Ok tt) [] w') ∧ Q (Err (ErrLocal dst)) [] w') →
  wp (writeReaderToPath io torn dst data) w Q.
Proof.
  intros HQ. apply wp_tick. intros o w' Hf _ _. destruct o.
  - exists []. rewrite app_nil_r. split; [done|]. apply HQ.
    + intros p Hp. simpl. rewrite Hf. apply lookup_partial_alter_ne. set_solver.
    + simpl. by rewrite lookup_partial_alter_eq.
  - apply wp_throw. apply HQ. intros p _. by rewrite Hf.
  - unfold get_now. apply wp_bind. exists []. split; [by rewrite app_nil_r|]. simpl.
    apply wp_set_file. intros w2 Hw2 _. apply wp_throw. apply HQ.
    intros p Hp. by rewrite <-Hf, <-Hw2.
Qed.

Lemma wp_os_remove path w Q :
  (∀ w', local_frame [path] w w' →
     (files w' !! path = None → Q (Ok tt) [] w') ∧ Q (Err (ErrLocal path)) [] w') →
  wp (os_remove io path) w Q.
Proof.
  intros HQ. apply wp_tick. intros o w' Hf _ _. destruct o.
  - exists []. rewrite app_nil_r. split; [done|]. apply HQ.
    + intros p Hp. simpl. rewrite Hf. apply lookup_partial_alter_ne. set_solver.
    + simpl. by rewrite lookup_partial_alter_eq.
  - apply wp_throw. apply HQ. intros p _. by rewrite Hf.
  - apply wp_throw. apply HQ. intros p _. by rewrite Hf.
Qed.

Lemma wp_tool {A} (m : tool A) w Q :
  (∀ w', files w' = fs (m (mkTool (files w) (now w))).2 →
     Q (map_err ErrTool (m (mkTool (files w) (now w))).1) [] w') →
  wp (run_tool m) w Q.
Proof.
  intros HQ. unfold wp, run_tool. exists []. rewrite app_nil_r.
  destruct (m (mkTool (files w) (now w))) as [r st]. simpl in *. split; [done|]. by apply HQ.
Qed.
End local_rules.

(** ** The workspace of a transaction *)
Section workspace.
Context (rs names tmp : list string) (repo arch kdb : string).
Context (Htmp : Forall (λ c, plain c = true) tmp).
Abbreviation l := (mkLocalStore (abs_path rs) names).
Abbreviation dir := (abs_path tmp).
Abbreviation local := (local dir).
Abbreviation artifacts := (Artifacts repo).
Abbreviation dbName := (DatabaseArchive artifacts).

Context (Hrs : Forall (λ c, plain c = true) rs).
Context (Hkdb : objectPath l repo arch dbName = Ok kdb).

Lemma repo_valid : ValidateName repo = Ok tt.
Proof. by apply objectPath_Ok in Hkdb as [? _]. Qed.

(** The names of the artifacts are the repository's with a suffix. *)
Definition suffixes : list string :=
  [".db"; ".files"; ".db.tar.gz"; ".files.tar.gz";
   ".db.sig"; ".files.sig"; ".db.tar.gz.sig"; ".files.tar.gz.sig"].

Lemma All_suffixes : All artifacts = map (String.append repo) suffixes.
Proof.
  unfold All, Aliases, Archives, AliasSignatures, ArchiveSignatures, DatabaseAliasSignature,
    FilesAliasSignature, DatabaseArchiveSignature, FilesArchiveSignature, DatabaseAlias,
    FilesAlias, DatabaseArchive, FilesArchive. simpl. by rewrite <-!str_app_assoc.
Qed.

Lemma artifact_plain name : name ∈ All artifacts → plain name = true.
Proof.
  rewrite All_suffixes. intros (x & -> & Hx)%list_elem_of_fmap.
  pose proof (ValidateName_plain _ repo_valid) as (Ho & _ & _)%plain_occurs.
  assert (occurs "/" x = false ∧ 2 < String.length x)%nat as [Hx1 Hx2].
  { revert x Hx. apply Forall_forall.
    repeat (apply Forall_cons; split; [split; [done|simpl; lia]|]). by apply Forall_nil. }
  unfold plain. rewrite occurs_app, Ho, Hx1, !andb_true_iff, !bool_decide_eq_true.
  split_and!; [done|intros E..]; apply (f_equal String.length) in E;
    rewrite length_str_app in E; simpl in E; lia.
Qed.

Lemma suffix_plain x : x ∈ suffixes → plain (repo +:+ x) = true.
Proof. intros Hx. apply artifact_plain. rewrite All_suffixes. by apply list_elem_of_fmap_2. Qed.

Lemma dbName_plain : plain dbName = true.
Proof. apply (suffix_plain ".db.tar.gz"). by apply (bool_decide_eq_true_1 _). Qed.

Lemma local_plain name : plain name = true → local name = abs_path (tmp ++ [name]).
Proof. by apply path_join_abs. Qed.

Lemma local_app name : plain name = true →
  local name = ((if decide (tmp = []) then "" else dir) +:+ "/") +:+ name.
Proof. intros Hn. rewrite local_plain, abs_path_snoc by done. by rewrite !str_app_assoc. Qed.

Lemma local_inj n1 n2 : plain n1 = true → plain n2 = true → local n1 = local n2 → n1 = n2.
Proof. intros H1 H2. rewrite !local_app by done. apply (inj _). Qed.

(** The files a transaction may change in the workspace. *)
Definition art_paths : list string := map local (All artifacts).

Lemma elem_of_art name : name ∈ All artifacts → local name ∈ art_paths.
Proof. apply list_elem_of_fmap_2. Qed.

(** The paths of the repository tool are the artifacts of the workspace. *)
Definition workspace_paths : toolPaths :=
  mkToolPaths (local dbName) (local (FilesArchive artifacts))
    (local (DatabaseAlias artifacts)) (local (FilesAlias artifacts)).

Definition main_suffixes : list string := [".db.tar.gz"; ".files.tar.gz"; ".db"; ".files"].
Definition sig_suffixes : list string :=
  [".db.tar.gz.sig"; ".files.tar.gz.sig"; ".db.sig"; ".files.sig"].

Lemma toolPathsFor_local : toolPathsFor (local dbName) = Ok workspace_paths.
Proof.
  pose proof dbName_plain as Hp. unfold toolPathsFor.
  rewrite (local_plain dbName), path_base_abs, path_dir_abs by done.
  assert (cut_last ".db." dbName = Some (repo, "tar.gz")) as ->; [|done].
  apply (cut_last_at "." "db."). by vm_compute.
Qed.

Lemma main_paths_workspace :
  main_paths workspace_paths = map (λ x, local (repo +:+ x)) main_suffixes.
Proof. done. Qed.

Lemma sig_paths_workspace :
  sig_paths workspace_paths = map (λ x, local (repo +:+ x)) sig_suffixes.
Proof.
  assert (∀ x, x ∈ suffixes → x +:+ ".sig" ∈ suffixes →
    local (repo +:+ x) +:+ ".sig" = local (repo +:+ (x +:+ ".sig"))) as H.
  { intros x H1 H2. rewrite !local_app by (by apply suffix_plain). by rewrite !str_app_assoc. }
  unfold sig_paths. rewrite main_paths_workspace. unfold main_suffixes, sig_suffixes. cbn [map].
  rewrite !H by (by apply (bool_decide_eq_true_1 _)). done.
Qed.

Lemma workspace_sigs : Forall (λ p, p ∉ sig_paths workspace_paths) (main_paths workspace_paths).
Proof.
  assert (Forall (λ x, x ∈ suffixes ∧ x ∉ sig_suffixes) main_suffixes) as Hm
    by (apply (bool_decide_eq_true_1 _); by vm_compute).
  assert (Forall (λ x, x ∈ suffixes) sig_suffixes) as Hs
    by (apply (bool_decide_eq_true_1 _); by vm_compute).
  rewrite Forall_forall in Hm, Hs.
  rewrite sig_paths_workspace, main_paths_workspace. apply Forall_forall.
  intros p (x & -> & Hx)%list_elem_of_fmap (y & E & Hy)%list_elem_of_fmap.
  apply local_inj in E; [|apply suffix_plain; naive_solver..]. apply (inj _) in E as ->.
  by apply (Hm y).
Qed.

Lemma tool_paths_art p : p ∈ main_paths workspace_paths ++ sig_paths workspace_paths → p ∈ art_paths.
Proof.
  rewrite sig_paths_workspace, main_paths_workspace, <-map_app.
  intros (x & -> & Hx)%list_elem_of_fmap. apply elem_of_art. rewrite All_suffixes.
  apply list_elem_of_fmap_2. revert x Hx. apply (proj1 (Forall_forall _ _)).
  apply (bool_decide_eq_true_1 _). by vm_compute.
Qed.

(** ** The transaction *)
Section transaction.
Context (net : nat → io_outcome) (others : nat → gmap string object → gmap string object).
Context (time : nat → Z) (sha256 : string → string) `{!Inj (=) (=) sha256}.
Context (io : nat → io_outcome) (stat : nat → bool) (torn : nat → nat) (signed : bool).
(** The files of the workspace besides the artifacts, and what a mutation makes of the
    canonical database in a workspace. *)
Context (others_ok : gmap string string → Prop).
Context (others_frame : ∀ s s', (∀ p, p ∉ art_paths → s' !! p = s !! p) → others_ok s → others_ok s').
Context (Upd : gmap string string → string → Prop).

Abbreviation tag := (tag sha256).
Abbreviation art_frame := (local_frame art_paths).

Lemma frame_ok w w' : art_frame w w' → others_ok (files w) → others_ok (files w').
Proof. intros H. by apply others_frame. Qed.

Lemma frame_one name w w' : name ∈ All artifacts → local_frame [local name] w w' → art_frame w w'.
Proof.
  intros HX H p Hp. apply H. rewrite list_elem_of_singleton. intros ->. by apply Hp, elem_of_art.
Qed.

Lemma frame_trans w1 w2 w3 : art_frame w1 w2 → art_frame w2 w3 → art_frame w1 w3.
Proof. intros H1 H2 p Hp. by rewrite H2, H1. Qed.

Lemma frame_files w w' : files w' = files w → art_frame w w'.
Proof. intros H p _. by rewrite H. Qed.

(** A derived artifact is stored as the workspace has it. *)
Definition derived_write (s : gmap string string) (wr : write) : Prop :=
  ∃ name, name ∈ derivedArtifacts repo signed ∧ objectPath l repo arch name = Ok (w_path wr)
    ∧ w_new wr = s !! local name.

(** A change of an object by a transaction: of the canonical database, from a content the
    workspace held to one the mutation made of that workspace; or of a derived artifact. *)
Definition good_write (wr : write) : Prop :=
  (w_path wr = kdb ∧ ∃ s c, w_old wr = s !! local dbName ∧ w_new wr = Some c ∧ others_ok s ∧ Upd s c)
  ∨ (∃ s, derived_write s wr).

Lemma clear_names : Archives artifacts ++ Aliases artifacts
  ++ (if signed then ArchiveSignatures artifacts ++ AliasSignatures artifacts else []) ⊆ All artifacts.
Proof. unfold All. destruct signed; intros x; rewrite !elem_of_app, ?elem_of_nil; tauto. Qed.

Lemma wp_clear w (Q : result error unit → list write → world → Prop) :
  (∀ w', art_frame w w' → (files w' !! local dbName = None → Q (Ok tt) [] w') ∧ ∀ e, Q (Err e) [] w') →
  wp (clearDBArtifacts io dir repo signed) w Q.
Proof.
  intros HQ. unfold clearDBArtifacts. cbv zeta.
  assert (∀ l w, l ⊆ All artifacts →
    wp (prog_fold (λ _ name, os_remove io (local name)) tt l) w (λ r ws w', ws = [] ∧ art_frame w w' ∧
      (r = Ok tt → (dbName ∈ l ∨ files w !! local dbName = None) → files w' !! local dbName = None))) as H.
  { clear HQ w. induction l as [|n l IH]; intros w Hl; simpl.
    { apply wp_ret. split_and!; [done|done|]. by intros _ [?%elem_of_nil|]. }
    apply list_subseteq_cons_iff in Hl as [Hn Hl].
    apply wp_bind, wp_os_remove. intros w1 Hf1. split; [intros Hn1|].
    - eapply wp_mono; [by apply IH|]. intros r ws w2 (-> & Hf2 & H2).
      assert (art_frame w w1) by by eapply frame_one.
      split_and!; [done|by eapply frame_trans|]. intros Hr [Hin|Hw].
      + apply H2; [done|]. apply elem_of_cons in Hin as [<-|?]; auto.
      + apply H2; [done|]. right. destruct (decide (local dbName = local n)) as [->|Hne]; [done|].
        rewrite Hf1; [done|]. by rewrite list_elem_of_singleton.
    - split_and!; [done| |done]. by eapply frame_one. }
  eapply wp_mono; [apply H, clear_names|]. intros r ws w' (-> & Hf & Hr).
  destruct (HQ w' Hf) as [H1 H2]. destruct r as [[]|e]; [|apply H2].
  apply H1, Hr; [done|]. left. unfold Archives. set_solver.
Qed.

(** After seeding, the tag kept for the canonical database is that of its local copy. *)
Definition seeded (etags s : gmap string string) : Prop :=
  tag (s !! local dbName) = default "" (etags !! dbName).

Lemma wp_fetchDB w (Q : result error (gmap string string) → list write → world → Prop) :
  files w !! local dbName = None →
  (∀ w', art_frame w w' → (∀ etags, seeded etags (files w') → Q (Ok etags) [] w') ∧ ∀ e, Q (Err e) [] w') →
  wp (fetchDBArtifacts net others sha256 l io torn dir repo arch signed) w Q.
Proof.
  intros Hnone HQ. unfold fetchDBArtifacts.
  set (ns := dbArtifactBases repo ++ _).
  assert (ns ⊆ All artifacts) as Hns.
  { unfold ns, dbArtifactBases, All. clear. intros x.
    assert (map (λ name, name +:+ ".sig") (Archives artifacts) = ArchiveSignatures artifacts) as -> by done.
    destruct signed; rewrite !elem_of_app, ?elem_of_nil; tauto. }
  eapply wp_mono; [apply (wp_fold _ (λ etags ws w', ws = [] ∧ art_frame w w' ∧ seeded etags (files w'))
    (λ _ ws w', ws = [] ∧ art_frame w w') ns ∅ w [])|].
  - split_and!; [done|done|]. unfold seeded. by rewrite Hnone.
  - by rewrite app_nil_r.
  - intros etags name ws w1 Hname (-> & Hf & Hs) _. apply Hns in Hname.
    apply wp_bind, wp_try, wp_fetch. intros w2 Hw2. apply frame_files in Hw2 as Hf2.
    assert (art_frame w w2) as Hf' by by eapply frame_trans.
    assert (∀ e, wp (if is_not_found e then mret etags
        else throw (WrapErr e ("failed to fetch db artifact " +:+ name))) w2
      (λ r ws' w', match r with
         | Ok etags' => [] ++ ws' = [] ∧ art_frame w w' ∧ seeded etags' (files w')
         | Err _ => [] ++ ws' = [] ∧ art_frame w w' end)) as He.
    { intros e. destruct (is_not_found e); [apply wp_ret|by apply wp_throw]. by rewrite Hw2. }
    split_and!; [|by intros..]. intros data path _ _. apply wp_bind, wp_wrapping, wp_write_local.
    intros w3 Hf3. assert (art_frame w w3).
    { eapply frame_trans; [done|]. by eapply frame_one. }
    split; [|done]. intros Hdata. apply wp_ret. split_and!; [done|done|].
    unfold seeded in *. destruct (decide (name = dbName)) as [->|Hne].
    + by rewrite Hdata, lookup_insert_eq.
    + assert (local dbName ∉ [local name]) as Hl.
      { rewrite list_elem_of_singleton. intros E%local_inj; [done|apply dbName_plain|by apply artifact_plain]. }
      rewrite lookup_insert_ne, <-Hs, Hf3, Hw2 by done. done.
  - intros [etags|e] ws w'; simpl; [intros (-> & Hf & Hs)|intros [-> Hf]]; by apply HQ.
Qed.
(** A positive answer: the live canonical database is the local file. *)
Lemma wp_live snap w (Q : result error bool → list write → world → Prop) :
  (∀ w', files w' = files w →
     (∀ c, files w !! snap = Some c → content w' kdb = Some c → Q (Ok true) [] w') ∧
     Q (Ok false) [] w' ∧ ∀ e, Q (Err e) [] w') →
  wp (liveObjectMatchesFile net others sha256 l io repo arch dbName snap) w Q.
Proof.
  intros HQ. apply wp_bind, wp_read_local. intros w1 H1. split; [|by apply HQ].
  intros c Hc. apply wp_bind, wp_try, wp_fetch. intros w2 H2.
  destruct (HQ w2) as (Ht & Hf & He); [by rewrite H2|].
  assert (∀ e, wp (if is_not_found e then mret false else throw e) w2
    (λ r ws', Q r ([] ++ ([] ++ ws')))) as Herr.
  { intros e. destruct (is_not_found e); [by apply wp_ret|by apply wp_throw]. }
  split_and!; [|by intros..]. intros data path Hp Hdata. rewrite Hkdb in Hp. injection Hp as <-.
  apply wp_ret. destruct (decide (sha256 c = sha256 data)) as [E|E].
  - rewrite bool_decide_eq_true_2 by done. apply (inj sha256) in E as <-. by eapply Ht.
  - by rewrite bool_decide_eq_false_2.
Qed.

Lemma wp_storeIfMatch name etag w (Q : result error unit → list write → world → Prop) :
  plain name = true →
  (∀ w', files w' = files w →
     (∀ e, e = ErrPreconditionFailed ∨ is_precondition e = false
           ∨ objectPath l repo arch name = Err e → Q (Err e) [] w') ∧
     (∀ path old c, objectPath l repo arch name = Ok path → tag old = etag →
        files w !! local name = Some c → content w' path = Some c →
        Q (Ok tt) [mkWrite path old (Some c)] w' ∧
        Q (Err (ErrStore path)) [mkWrite path old (Some c)] w')) →
  wp (storeIfMatch net others time sha256 l io dir repo arch name etag) w Q.
Proof.
  intros Hn HQ. apply wp_bind, wp_wrapping, wp_read_local. intros w1 H1. split.
  - intros c Hc. apply wp_store; [done|]. intros w2 H2.
    destruct (HQ w2) as [He Hw]; [by rewrite H2|]. split; [|by eauto].
    intros e [->|[[path ->]|?]]; apply He; auto.
  - apply HQ; [done|]. by right; left.
Qed.

Lemma derived_All name : name ∈ derivedArtifacts repo signed → name ∈ All artifacts.
Proof.
  unfold derivedArtifacts, All, Archives, ArchiveSignatures.
  destruct signed; rewrite ?elem_of_app, ?elem_of_cons, ?elem_of_nil; tauto.
Qed.

Lemma wp_derived_attempts n name snap lastErr w :
  name ∈ derivedArtifacts repo signed →
  wp (derived_attempts net others time sha256 l io dir n repo arch name dbName snap lastErr) w
    (λ r ws w', files w' = files w ∧ Forall (derived_write (files w)) ws).
Proof.
  intros Hname. revert lastErr w. induction n as [|n IH]; intros lastErr w; [by apply wp_throw|].
  simpl. apply wp_bind, wp_live. intros w1 H1. split_and!; [|by apply wp_throw|done].
  intros _ _ _. simpl. apply wp_bind. unfold currentObjectETag. apply wp_bind, wp_try, wp_fetch.
  intros w2 H2. assert (files w2 = files w) as Hw2 by by rewrite H2.
  assert (∀ etag, wp (r ← try (storeIfMatch net others time sha256 l io dir repo arch name etag);
     match r with
     | Ok _ => mret ()
     | Err e => if is_precondition e then
         derived_attempts net others time sha256 l io dir n repo arch name dbName snap e else throw e
     end) w2 (λ r ws w', files w' = files w ∧ Forall (derived_write (files w)) ws)) as Hstore.
  { intros etag. apply wp_bind, wp_try, wp_storeIfMatch; [by apply artifact_plain, derived_All|].
    intros w3 H3. assert (files w3 = files w) as Hw3 by by rewrite H3. split.
    - intros e _. destruct (is_precondition e); [|by apply wp_throw].
      eapply wp_mono; [apply IH|]. by rewrite Hw3.
    - intros path old c Hp _ Hc _. rewrite Hw2 in Hc.
      assert (Forall (derived_write (files w)) [mkWrite path old (Some c)]) as Hw.
      { apply Forall_singleton. exists name. simpl. by rewrite Hc. }
      by split; [apply wp_ret|apply wp_throw]. }
  assert (∀ e, wp (if is_not_found e then mret "" else throw e) w2 (λ r ws' w', match r with
    | Ok etag => wp (r ← try (storeIfMatch net others time sha256 l io dir repo arch name etag);
        match r with
        | Ok _ => mret ()
        | Err e => if is_precondition e then
            derived_attempts net others time sha256 l io dir n repo arch name dbName snap e else throw e
        end) w' (λ _ ws'0 w'0, files w'0 = files w ∧ Forall (derived_write (files w)) (ws' ++ ws'0))
    | Err _ => files w' = files w ∧ Forall (derived_write (files w)) ws' end)) as Herr.
  { intros e. destruct (is_not_found e); [by apply wp_ret|by apply wp_throw]. }
  split_and!; [|by intros..]. intros data path _ _. by apply wp_ret.
Qed.

Lemma wp_commitDerived snap w :
  wp (commitDerivedArtifacts net others time sha256 l io stat dir repo arch snap signed) w
    (λ r ws w', files w' = files w ∧ Forall (derived_write (files w)) ws ∧
       (r = Ok tt → ∃ c, files w !! snap = Some c ∧ content w' kdb = Some c)).
Proof.
  apply wp_bind. eapply wp_mono; [apply (wp_fold _ (λ _ ws w', files w' = files w ∧ Forall (derived_write (files w)) ws)
    (λ _ ws w', files w' = files w ∧ Forall (derived_write (files w)) ws) _ tt w [])|].
  - done.
  - by rewrite app_nil_r.
  - intros _ name ws w1 Hname [H1 Hws] _. apply wp_bind, wp_fileExists. intros w2 b H2 _ _.
    destruct b; simpl; [|apply wp_ret; split; [by rewrite H2|by rewrite app_nil_r]].
    eapply wp_mono; [by apply wp_derived_attempts|]. intros r ws' w' [H3 Hws'].
    rewrite H2, H1 in *. destruct r; split; try done; by apply Forall_app.
  - intros [[]|e] ws w' [H1 Hws]; [|by split_and!]. apply wp_bind, wp_live. intros w2 H2.
    rewrite H1 in H2. split_and!.
    + intros c Hc Hl. apply wp_ret. rewrite !app_nil_r. split_and!; [done|done|]. rewrite <-H1. eauto.
    + apply wp_throw. by rewrite !app_nil_r.
    + intros e. by rewrite app_nil_r.
Qed.
(** What a transaction promises of its result: success means that a change of ours is the
    live database; an error without the mark means that we changed nothing. *)
Definition outcome (r : result error unit) (ws : list write) (w' : world) : Prop :=
  (r = Ok tt → ∃ old c, mkWrite kdb old (Some c) ∈ ws ∧ content w' kdb = Some c)
  ∧ ∀ e, r = Err e → CanonicalCommitted e = false → ws = [].

Lemma committed_outcome e ws w : CanonicalCommitted e = true → outcome (Err e) ws w.
Proof. intros He. split; [done|]. intros e' [= <-]. by rewrite He. Qed.

Lemma derived_good s ws : Forall (derived_write s) ws → Forall good_write ws.
Proof. intros H. eapply Forall_impl; [exact H|]. intros wr Hwr. right. by exists s. Qed.

Lemma wp_commitDB etags s w :
  seeded etags s → others_ok s → (∀ c, files w !! local dbName = Some c → Upd s c) →
  wp (commitDB net others time sha256 l io stat dir repo arch etags signed) w
    (λ r ws w', files w' = files w ∧ Forall good_write ws ∧ outcome r ws w'
       ∧ ∀ e, r = Err e → is_precondition e = true ∨ CanonicalCommitted e = true).
Proof.
  intros Hs Hok Hupd. apply wp_bind, wp_try, wp_storeIfMatch; [by apply dbName_plain|].
  intros w1 H1. split.
  - intros e He. apply wp_throw. destruct He as [->|[->|He]]; [| |by rewrite Hkdb in He].
    + split_and!; [done|done|done|]. intros e [= <-]. by left.
    + split_and!; [done|done|by apply committed_outcome|]. intros e' [= <-]. by right.
  - intros path old c Hp Htag Hc Hlive. rewrite Hkdb in Hp. injection Hp as <-.
    rewrite <-Hs in Htag. apply (inj tag) in Htag as ->.
    assert (good_write (mkWrite kdb (s !! local dbName) (Some c))) as Hg.
    { left. split; [done|]. exists s, c. split_and!; auto. }
    split.
    + apply wp_wrapping. eapply wp_mono; [apply wp_commitDerived|].
      intros r ws w' (H2 & Hws & Hr). split; [by rewrite H2|].
      split; [constructor; [done|]; by eapply derived_good|].
      destruct r as [[]|e]; [|split; [by apply committed_outcome|intros e' [= <-]; by right]].
      split; [|done]. split; [|done]. intros _.
      destruct (Hr eq_refl) as (c' & Hc' & Hl). rewrite H1, Hc in Hc'. injection Hc' as <-.
      exists (s !! local dbName), c. split; [constructor|done].
    + apply wp_throw. split_and!; [done|by apply Forall_singleton|by apply committed_outcome|].
      intros e [= <-]. by right.
Qed.

(** What a mutation may do in the workspace. *)
Definition mutates (mutate : prog unit) : Prop := ∀ w,
  wp mutate w (λ r ws w', ws = [] ∧ art_frame w w' ∧
    (r = Ok tt → ∀ c, files w' !! local dbName = Some c → Upd (files w) c)).

Lemma wp_prepare mutate w (Q : result error (gmap string string) → list write → world → Prop) :
  mutates mutate → others_ok (files w) →
  (∀ w', art_frame w w' →
     (∀ etags s, seeded etags s → others_ok s → (∀ c, files w' !! local dbName = Some c → Upd s c) →
        Q (Ok etags) [] w') ∧ ∀ e, Q (Err e) [] w') →
  wp (prepare net others sha256 l io torn dir repo arch signed mutate) w Q.
Proof.
  intros Hm Hok HQ. apply wp_bind, wp_clear. intros w1 H1. split; [|by apply HQ]. intros Hnone.
  apply wp_bind, wp_fetchDB; [done|]. intros w2 H2.
  assert (art_frame w w2) as H2' by by eapply frame_trans.
  split; [|by apply HQ]. intros etags Hs. apply wp_bind. eapply wp_mono; [apply Hm|].
  intros r ws w3 (-> & H3 & Hupd). assert (art_frame w w3) as H3' by by eapply frame_trans.
  destruct (HQ w3 H3') as [Ht He]. destruct r as [[]|e]; [|by apply He].
  apply wp_ret. apply (Ht etags (files w2)); [done| |auto]. by eapply frame_ok.
Qed.

Lemma markCommitted_outcome committed e ws w :
  (committed = false → ws = []) → outcome (Err (markCommitted committed e)) ws w.
Proof.
  intros Hc. unfold markCommitted. destruct committed; simpl.
  - destruct (CanonicalCommitted e) eqn:He; by apply committed_outcome.
  - split; [done|]. intros. by apply Hc.
Qed.

Lemma wp_run_attempts n mutate committed lastErr ws0 w :
  mutates mutate → others_ok (files w) → Forall good_write ws0 → (committed = false → ws0 = []) →
  wp (run_attempts net others time sha256 l io stat torn dir n repo arch signed mutate committed lastErr) w
    (λ r ws w', Forall good_write (ws0 ++ ws) ∧ outcome r (ws0 ++ ws) w').
Proof.
  intros Hm. revert committed lastErr ws0 w. induction n as [|n IH]; intros committed lastErr ws0 w Hok Hws0 Hc.
  { apply wp_throw. rewrite app_nil_r. split; [done|]. by apply markCommitted_outcome. }
  simpl. apply wp_bind, wp_try, wp_prepare; [done|done|]. intros w1 H1. split.
  2: { intros e. apply wp_throw. rewrite !app_nil_r. split; [done|]. by apply markCommitted_outcome. }
  intros etags s Hs Hoks Hupd. apply wp_bind, wp_try. eapply wp_mono; [by apply (wp_commitDB etags s)|].
  intros r ws w2 (H2 & Hws & Hout & He). assert (Forall good_write (ws0 ++ ws)) as Hgood by by apply Forall_app.
  destruct r as [[]|e].
  { apply wp_ret. rewrite app_nil_r. simpl. split; [done|]. split; [|done]. intros _.
    destruct (proj1 Hout eq_refl) as (old & c & Hin & Hl). exists old, c. split; [set_solver|done]. }
  assert (negb (is_precondition e) && negb (CanonicalCommitted e) = false) as ->.
  { apply andb_false_iff. rewrite !negb_false_iff. by apply He. }
  simpl. eapply wp_mono; [apply (IH _ _ (ws0 ++ ws))|].
  - eapply frame_ok; [|done]. eapply frame_trans; [done|]. by apply frame_files.
  - done.
  - intros Hor. apply orb_false_iff in Hor as [H3 H4]. by rewrite (Hc H3), (proj2 Hout e eq_refl H4).
  - intros r' ws' w'. by rewrite (assoc_L (++)).
Qed.

Lemma wp_mutateDB (mutate : string → prog unit) w :
  mutates (mutate (local dbName)) → others_ok (files w) →
  wp (mutateDB net others time sha256 l io stat torn dir repo arch signed mutate) w
    (λ r ws w', Forall good_write ws ∧ outcome r ws w').
Proof. intros Hm Hok. by apply (wp_run_attempts _ _ _ _ []). Qed.

(** The temporary directory around a program: it starts empty. *)
Lemma wp_temp (run : prog unit) w (Q : result error unit → list write → world → Prop) :
  (∀ w1, files w1 = ∅ →
     wp run w1 (λ r ws w', ∀ w2, objects w2 = objects w' → Q r ws w2)) →
  (∀ w1, Q (Err (ErrLocal dir)) [] w1) →
  wp (withRepoDBTempDir io dir run) w Q.
Proof.
  intros Hrun He. apply wp_tick. intros o w1 _ _ Hown. destruct o; [|by apply wp_throw..].
  destruct (Hrun (w1 <| files := ∅ |>)) as (ws & H1 & H2); [done|].
  exists ws. unfold in_empty. destruct (run (w1 <| files := ∅ |>)) as [r w2]. simpl in *.
  split; [done|]. by apply H2.
Qed.
End transaction.
End workspace.
