(* ===== verification/RepoDBOps.v ===== *)
(** * Publishing repository databases: the operations

    Adding, removing, reconciling, initialising and storing immutable objects: for every
    interference by other processes and every failure of a call. *)

From S2P Require Import Prelude GoStrings Paths Package Dbwriter Repo Dbtool Blob RepoDB RepoDBSpec.

Section operations.
Context (net : nat → io_outcome) (others : nat → gmap string object → gmap string object).
Context (time : nat → Z) (sha256 : string → string) `{!Inj (=) (=) sha256}.
Context (rs names tmp : list string).
Context (io : nat → io_outcome) (stat : nat → bool) (torn : nat → nat).
Context (encode : list tar_member → string) (decode : string → result string tar_stream).
Context (quote : string → string) {R : RangeOrder} (t : NativeTool).
Context (repo arch : string) (signed : bool).
Abbreviation l := (mkLocalStore (abs_path rs) names).
Abbreviation dir := (abs_path tmp).
Abbreviation local := (local dir).
Abbreviation dbName := (DatabaseArchive (Artifacts repo)).
Abbreviation paths := (workspace_paths tmp repo).
Abbreviation arts := (art_paths tmp repo).

(** The packages of a database; a missing one is empty. *)
Definition current_repo (db : option string) : result error RemoteRepo :=
  match db with
  | None => Ok (mkRemote "" "" [])
  | Some data => map_err ErrReadDB (RemoteRepoFromDBContext decode quote (λ _, None) "" data)
  end.

(** ** Adding packages *)

(** The package files of the workspace, and their paths. *)
Definition stage_item (acc : gmap string string * list string) (item : RepoAddItem) :=
  match item.(Pkg) with
  | None => acc
  | Some f =>
      let p := local (path_base f.(FileName)) in
      let s := <[p := f.(Data)]> acc.1 in
      (match item.(Sig) with Some g => <[p +:+ ".sig" := g.(Data)]> s | None => s end, acc.2 ++ [p])
  end.
Definition staged (items : list RepoAddItem) : gmap string string * list string :=
  foldl stage_item (∅, []) items.

(** The workspace besides the artifacts holds these files. *)
Definition holds (fs s : gmap string string) : Prop := ∀ p, p ∉ arts → s !! p = fs !! p.

Lemma holds_frame fs s s' : (∀ p, p ∉ arts → s' !! p = s !! p) → holds fs s → holds fs s'.
Proof. intros H Hs p Hp. by rewrite H, Hs. Qed.

(** The batch added to a database: every expectation of the items holds of the packages of
    the old database (unless [os.Stat] failed on it), and the new one is the old one with
    the packages of the batch. *)
Definition added_to (items : list RepoAddItem) (s : gmap string string) (c : string) : Prop :=
  (hasConditionalAdd items = true → (∃ n, stat n = false) ∨
     ∃ cur, current_repo (s !! local dbName) = Ok cur ∧ check_items cur items = Ok tt)
  ∧ ∃ b, batch_result decode sha256 paths (staged items).2 s = Ok b ∧ c = encode (WriteDB b).

Lemma local_not_nil name : local name ≠ "".
Proof. unfold local, path_join. by case_decide; [|apply clean_not_nil]. Qed.

Lemma wp_seek_file dst (f : option SeekFile) w (Q : result error unit → list write → world → Prop) :
  (∀ w', local_frame [dst] w w' →
     (files w' !! dst = match f with Some f => Some f.(Data) | None => files w !! dst end → Q (Ok tt) [] w')
     ∧ ∀ e, Q (Err e) [] w') →
  wp (writeSeekFileToPath io torn dst f) w Q.
Proof.
  intros HQ. destruct f as [f|]; simpl.
  - apply wp_write_local. intros w' H. destruct (HQ w' H) as [H1 H2]. split; auto.
  - apply wp_ret. by apply HQ.
Qed.

Lemma frame_insert p w w' data :
  local_frame [p] w w' → files w' !! p = Some data → files w' = <[p := data]> (files w).
Proof.
  intros H Hp. apply map_eq. intros q. destruct (decide (q = p)) as [->|Hq].
  - by rewrite lookup_insert_eq.
  - rewrite lookup_insert_ne by done. apply H. by rewrite list_elem_of_singleton.
Qed.

Lemma wp_materialize_item ps item w :
  wp (materialize_item io torn dir ps item) w (λ r ws w', ws = [] ∧
    ∀ ps', r = Ok ps' → (files w', ps') = stage_item (files w, ps) item).
Proof.
  unfold materialize_item, writeSeekFileTo, stage_item. cbv zeta. apply wp_bind.
  destruct (Pkg item) as [f|]; [|apply wp_ret, wp_ret; split; [done|]; by intros ? [= <-]].
  set (dst := local (path_base (FileName f))). apply wp_bind, wp_seek_file.
  intros w1 H1. split; [|done]. intros Hf%(frame_insert _ _ _ _ H1). apply wp_ret.
  rewrite decide_False by apply local_not_nil. apply wp_bind, wp_seek_file. simpl.
  intros w2 H2. split; [|done]. intros Hs. apply wp_ret. split; [done|]. intros ? [= <-]. f_equal.
  rewrite <-Hf. destruct (Sig item) as [g|]; [by apply frame_insert|].
  apply map_eq. intros p. destruct (decide (p = dst +:+ ".sig")) as [->|Hp]; [done|].
  apply H2. by rewrite list_elem_of_singleton.
Qed.

Lemma wp_materialize items w :
  files w = ∅ →
  wp (materializeRepoAddItems io torn dir items) w (λ r ws w', ws = [] ∧
    ∀ ps, r = Ok ps → (files w', ps) = staged items).
Proof.
  intros Hw. unfold staged. rewrite <-Hw. clear Hw. unfold materializeRepoAddItems.
  generalize (@nil string) as ps. revert w. induction items as [|item items IH]; intros w ps.
  { apply wp_ret. split; [done|]. by intros ? [= <-]. }
  apply wp_bind. eapply wp_mono; [apply wp_materialize_item|].
  intros r ws w1 [-> Hr]. destruct r as [ps'|e]; [|done]. simpl.
  specialize (IH w1 ps'). by rewrite (Hr _ eq_refl) in IH.
Qed.

Lemma wp_RepoFromDBFile dbfile w (Q : result error RemoteRepo → list write → world → Prop) :
  (∀ w', files w' = files w →
     (∀ cur, is_Some (files w !! dbfile) → current_repo (files w !! dbfile) = Ok cur → Q (Ok cur) [] w')
     ∧ ∀ e, Q (Err e) [] w') →
  wp (RepoFromDBFile io decode quote "" dbfile) w Q.
Proof.
  intros HQ. apply wp_bind, wp_read_local. intros w1 H1. destruct (HQ w1 H1) as [Ht He].
  split; [|apply He]. intros data Hdata. apply wp_lift.
  destruct (map_err _ _) as [cur|e] eqn:E; [|apply He]. apply Ht; rewrite Hdata; [done|]. exact E.
Qed.

Lemma wp_validateAdd dbPath items w (Q : result error unit → list write → world → Prop) :
  (∀ w', files w' = files w →
     ((hasConditionalAdd items = true → (∃ n, stat n = false) ∨
         ∃ cur, current_repo (files w !! dbPath) = Ok cur ∧ check_items cur items = Ok tt) →
       Q (Ok tt) [] w') ∧ ∀ e, Q (Err e) [] w') →
  wp (validateAddExpectations io stat decode quote dbPath items) w Q.
Proof.
  intros HQ. unfold validateAddExpectations. destruct (hasConditionalAdd items); simpl.
  2: { by apply wp_ret, HQ. }
  assert (∀ w1 cur, files w1 = files w →
    (check_items cur items = Ok tt → (∃ n, stat n = false) ∨
       ∃ cur, current_repo (files w !! dbPath) = Ok cur ∧ check_items cur items = Ok tt) →
    wp (lift (check_items cur items)) w1 (λ r ws', Q r ([] ++ ws'))) as Hcheck.
  { intros w1 cur H1 Hc. apply wp_lift. destruct (HQ w1 H1) as [Ht He].
    destruct (check_items cur items) as [[]|e]; [|apply He]. apply Ht. auto. }
  apply wp_bind, wp_bind, wp_fileExists. intros w1 b H1 Htrue Hfalse. destruct b; simpl.
  - apply wp_wrapping, wp_RepoFromDBFile. intros w2 H2. rewrite H1 in H2. split.
    + intros cur _ Hcur. rewrite H1 in Hcur. simpl. apply Hcheck; [done|]. eauto.
    + intros e. by apply HQ.
  - apply wp_ret, Hcheck; [done|]. intros Hc. destruct (Hfalse eq_refl) as [->|?]; eauto.
Qed.

Context (kdb : string) (Hrs : Forall (λ c, plain c = true) rs) (Htmp : Forall (λ c, plain c = true) tmp).
Context (Hkdb : objectPath l repo arch dbName = Ok kdb).

Abbreviation good := (good_write rs names tmp repo arch kdb signed).

Lemma tool_frame (st' : tool_state) w :
  (∀ p, p ∉ main_paths paths ++ sig_paths paths → fs st' !! p = files w !! p) →
  ∀ w', files w' = fs st' → local_frame arts w w'.
Proof. intros H w' Hw' p Hp. rewrite Hw'. apply H. intros Hin.
  by apply Hp, (tool_paths_art rs names tmp repo arch kdb Htmp Hrs Hkdb).
Qed.

Lemma wp_tool_add pkgs w :
  wp (run_tool (Dbtool.RepoAddBatch io encode decode sha256 t (local dbName) pkgs signed)) w
    (λ r ws w', ws = [] ∧ local_frame arts w w' ∧
       (r = Ok tt → ∀ c, files w' !! local dbName = Some c →
          ∃ b, batch_result decode sha256 paths pkgs (files w) = Ok b ∧ c = encode (WriteDB b))).
Proof.
  apply wp_tool. intros w' Hw'.
  pose proof (RepoAddBatch_effect io encode decode sha256 t (local dbName) pkgs signed paths
    (mkTool (files w) (now w))) as H.
  destruct (Dbtool.RepoAddBatch _ _ _ _ _ _ _ _ _) as [r st'].
  destruct H as (Hf & _ & Hok).
  { exact (toolPathsFor_local rs names tmp repo arch kdb Htmp Hrs Hkdb). }
  { exact (workspace_sigs rs names tmp repo arch kdb Htmp Hrs Hkdb). }
  split_and!; [done|by eapply tool_frame|]. intros Hr c Hc.
  destruct r as [[]|e]; [|done]. destruct (Hok eq_refl) as (b & Hb & Hdb & _).
  exists b. split; [done|]. simpl in Hw'. rewrite Hw' in Hc.
  assert (fs st' !! local dbName = Some (encode (WriteDB b))) as Hdb' by exact Hdb. congruence.
Qed.

Lemma add_mutates items :
  mutates tmp repo (added_to items)
    (add_mutation sha256 io stat encode decode quote t items (staged items).2 signed (local dbName)).
Proof.
  intros w. apply wp_bind, wp_validateAdd. intros w1 H1.
  assert (local_frame arts w w1) as Hf1 by (intros p _; by rewrite H1).
  split; [|done]. intros Hexp. apply wp_wrapping. eapply wp_mono; [apply wp_tool_add|].
  intros r ws w2 (-> & Hf2 & Hr). split_and!; [done|intros p Hp; by rewrite Hf2, H1|].
  intros Hok c Hc. destruct r as [[]|e]; [|done]. rewrite H1 in Hr.
  split; [done|]. by apply Hr.
Qed.

Lemma failed_early (P : write → Prop) e w : Forall P [] ∧ outcome kdb (Err e) [] w.
Proof. split; [by apply Forall_nil|]. by split. Qed.

Lemma wp_publish (mutate : string → prog unit) fs0 Upd w :
  mutates tmp repo Upd (mutate (local dbName)) → holds fs0 (files w) →
  wp (mutateDB net others time sha256 l io stat torn dir repo arch signed mutate) w
    (λ r ws w1, ∀ w2, objects w2 = objects w1 →
       Forall (good (holds fs0) Upd) ws ∧ outcome kdb r ws w2).
Proof.
  intros Hm Hw. eapply wp_mono; [apply (wp_mutateDB rs names tmp repo arch kdb Htmp Hrs Hkdb)|].
  - done.
  - intros s s'. apply holds_frame.
  - exact Hm.
  - exact Hw.
  - intros r ws w1 [Hws Ho] w2 Hw2. split; [done|]. destruct Ho as [Ho1 Ho2]. split; [|done].
    unfold content. by rewrite Hw2.
Qed.

(** C2. Publishing packages, whatever other processes do to the store between the calls and
    whichever call fails: every write of the canonical database replaces exactly the content
    the transaction had read by that content with the whole batch added, the conditions of
    the items checked on it; no other object is written but the derived archives and
    signatures. When it succeeds, a database written by it is the live one; an error without
    the commit mark means that it has written nothing. *)
Theorem RepoAddBatch_transaction items w :
  wp (RepoAddBatch net others time sha256 l io stat torn dir encode decode quote t repo arch items signed) w
    (λ r ws w', Forall (good (holds (staged items).1) (added_to items)) ws ∧ outcome kdb r ws w').
Proof.
  apply wp_temp; [|intros w1; apply failed_early].
  intros w1 H1. apply wp_bind. eapply wp_mono; [by apply wp_materialize|].
  intros r ws w2 [-> Hr]. destruct r as [ps|e]; [|intros w3 _; apply failed_early].
  specialize (Hr ps eq_refl). rewrite <-Hr. simpl.
  assert (ps = (staged items).2) as -> by by rewrite <-Hr.
  apply wp_publish; [apply add_mutates|]. by intros p _.
Qed.

(** ** Removing a package *)

(** The name is in no package of the database. *)
Definition absent (pkg : string) (s : gmap string string) : Prop :=
  (∃ cur, current_repo (s !! local dbName) = Ok cur ∧ PkgByPkgName cur pkg = None)
  ∨ ∃ b, loaded decode paths s = Ok b ∧ map_Forall (λ _ e, e_name e ≠ pkg) b.

(** A removal: of a package that is not there, which changes nothing, or of the package
    that a conditional removal expects. *)
Definition removed_from (pkg version file : string) (conditional : bool) (s : gmap string string)
    (c : string) : Prop :=
  (s !! local dbName = Some c ∧ absent pkg s)
  ∨ (conditional = true → ∃ cur p, current_repo (s !! local dbName) = Ok cur
       ∧ PkgByPkgName cur pkg = Some p ∧ is_package p version file = true)
    ∧ ∃ b, loaded decode paths s = Ok b ∧ c = encode (WriteDB (Remove b pkg).1).

Lemma is_package_not_found_tool e :
  is_package_not_found (ErrTool e) = true → read_error e = false.
Proof. by destruct e. Qed.

Lemma wp_tool_remove pkg w (Q : result error unit → list write → world → Prop) :
  (∀ w', local_frame arts w w' →
     ((∀ c, files w' !! local dbName = Some c →
         ∃ b, loaded decode paths (files w) = Ok b ∧ c = encode (WriteDB (Remove b pkg).1)) →
       Q (Ok tt) [] w') ∧
     (∀ e, is_package_not_found e = true → files w' = files w → absent pkg (files w) → Q (Err e) [] w') ∧
     (∀ e, is_package_not_found e = false → Q (Err e) [] w')) →
  wp (run_tool (Dbtool.RepoRemove io encode decode t (local dbName) pkg signed)) w Q.
Proof.
  intros HQ. apply wp_tool. intros w' Hw'.
  pose proof (toolPathsFor_local rs names tmp repo arch kdb Htmp Hrs Hkdb) as Hpaths.
  pose proof (RepoRemove_effect io encode decode t (local dbName) pkg signed paths
    (mkTool (files w) (now w)) Hpaths (workspace_sigs rs names tmp repo arch kdb Htmp Hrs Hkdb)) as H.
  pose proof (RepoRemove_not_found io encode decode t (local dbName) pkg signed paths
    (mkTool (files w) (now w)) Hpaths) as Hnf.
  destruct (Dbtool.RepoRemove _ _ _ _ _ _ _ _) as [r st'].
  destruct H as (_ & Hf & _ & Hok). simpl in Hw'.
  destruct (HQ w') as (Ht & He1 & He2); [by eapply tool_frame|].
  destruct r as [[]|e]; simpl.
  - apply Ht. intros c Hc. destruct (Hok eq_refl) as (b & Hb & _ & Hdb & _). exists b.
    split; [done|]. assert (fs st' !! local dbName = Some (encode (WriteDB (Remove b pkg).1))) as Hdb' by exact Hdb.
    congruence.
  - destruct (is_package_not_found (ErrTool e)) eqn:E; [|by apply He2].
    destruct (Hnf e eq_refl (is_package_not_found_tool e E)) as [Hsame Habs].
    apply He1; [done|by rewrite Hw'|by right].
Qed.

Lemma wp_validateCurrent dbPath pkg version file w (Q : result error bool → list write → world → Prop) :
  (∀ w', files w' = files w →
     (∀ cur, current_repo (files w !! dbPath) = Ok cur →
        (PkgByPkgName cur pkg = None → Q (Ok true) [] w') ∧
        (∀ p, PkgByPkgName cur pkg = Some p → is_package p version file = true → Q (Ok false) [] w'))
     ∧ ∀ e, Q (Err e) [] w') →
  wp (validateCurrentPackage io decode quote dbPath pkg version file) w Q.
Proof.
  intros HQ. apply wp_bind, wp_wrapping, wp_RepoFromDBFile. intros w1 H1.
  destruct (HQ w1 H1) as [Ht He]. split; [|intros e; apply He].
  intros cur _ Hcur. apply wp_lift. unfold validateCurrent. destruct (Ht cur Hcur) as [Hn Hs].
  destruct (PkgByPkgName cur pkg) as [p|]; [|by apply Hn].
  destruct (is_package p version file) eqn:E; [by eapply Hs|apply He].
Qed.

Lemma remove_mutates pkg version file conditional :
  mutates tmp repo (removed_from pkg version file conditional)
    (remove_mutation io stat encode decode quote t pkg version file conditional signed (local dbName)).
Proof.
  intros w. apply wp_bind, wp_fileExists. intros w1 b H1 Hex _.
  assert (local_frame arts w w1) as Hf1 by (intros p _; by rewrite H1).
  destruct b; simpl; [|by apply wp_throw].
  assert (∀ w2, files w2 = files w → (conditional = true → ∃ cur p, current_repo (files w !! local dbName) = Ok cur
       ∧ PkgByPkgName cur pkg = Some p ∧ is_package p version file = true) →
    wp (r ← try (run_tool (Dbtool.RepoRemove io encode decode t (local dbName) pkg signed));
        match r with
        | Ok _ => mret tt
        | Err e => if is_package_not_found e then mret tt else throw (WrapErr e "repo db remove failed")
        end) w2 (λ r ws w', ws = [] ∧ local_frame arts w w' ∧ (r = Ok tt → ∀ c,
          files w' !! local dbName = Some c → removed_from pkg version file conditional (files w) c)))
    as Hremove.
  { intros w2 H2 Hcond. apply wp_bind, wp_try, wp_tool_remove. intros w3 H3. rewrite H2.
    assert (local_frame arts w w3) as Hf3 by (intros p Hp; by rewrite H3, H2). split_and!.
    - intros Hb. apply wp_ret. split_and!; [done..|]. intros _ c Hc. right. auto.
    - intros e -> Hw3 Habs. apply wp_ret. split_and!; [done..|]. intros _ c Hc. left.
      rewrite Hw3 in Hc. by split.
    - intros e ->. by apply wp_throw. }
  apply wp_bind. destruct conditional.
  - apply wp_validateCurrent. intros w2 H2. rewrite H1 in H2. split.
    + intros cur Hcur. rewrite H1 in Hcur. split.
      * intros Hnone. simpl. apply wp_ret. split_and!; [done|intros p _; by rewrite H2|].
        intros _ c Hc. left. rewrite H2 in Hc. split; [done|]. left. eauto.
      * intros p Hp Hpk. apply Hremove; [done|]. eauto.
    + intros e. split_and!; [done|intros p _; by rewrite H2|done].
  - apply wp_ret. by apply Hremove.
Qed.

(** Removing a package, under the same interference and failures: every write of the
    canonical database replaces exactly the content the transaction had read, by the one
    without the package's entries, or by itself when the package is not there; a conditional
    removal changes a database only when its package has the expected version and file. The
    result is as for publishing. *)
Theorem repoRemove_transaction pkg version file conditional w :
  wp (repoRemove net others time sha256 l io stat torn dir encode decode quote t repo arch
        pkg version file conditional signed) w
    (λ r ws w', Forall (good (holds ∅) (removed_from pkg version file conditional)) ws
       ∧ outcome kdb r ws w').
Proof.
  apply wp_temp; [|intros w1; apply failed_early].
  intros w1 H1. apply wp_publish; [apply remove_mutates|]. intros p _. by rewrite H1.
Qed.

(** ** Reconciliation *)

Context (upstream : gset string).

(** A program that changes neither objects nor files. *)
Definition passive {A} (m : prog A) : Prop := ∀ w (Q : result error A → list write → world → Prop),
  (∀ r w', files w' = files w → Q r [] w') → wp m w Q.

Lemma passive_ret {A} (a : A) : passive (mret a).
Proof. intros w Q HQ. by apply wp_ret, HQ. Qed.

Lemma passive_throw {A} e : passive (A := A) (throw e).
Proof. intros w Q HQ. by apply wp_throw, HQ. Qed.

Lemma passive_try_bind {A B} (m : prog A) (k : result error A → prog B) :
  passive m → (∀ r, passive (k r)) → passive (try m ≫= k).
Proof.
  intros Hm Hk w Q HQ. apply wp_bind, wp_try, Hm. intros r w' Hw'. apply Hk.
  intros r' w2 H2. apply HQ. by rewrite H2.
Qed.

Lemma passive_bind {A B} (m : prog A) (k : A → prog B) :
  passive m → (∀ a, passive (k a)) → passive (m ≫= k).
Proof.
  intros Hm Hk w Q HQ. apply wp_bind, Hm. intros [a|e] w' Hw'; [|by apply HQ].
  apply Hk. intros r' w2 H2. apply HQ. by rewrite H2.
Qed.

Lemma passive_blob_fetch r a n : passive (Blob.FetchFile net others l r a n).
Proof.
  intros w Q HQ. apply wp_bind, wp_lift.
  destruct (objectPath l r a n) as [path|]; [|by apply HQ].
  apply wp_call. intros w' Hw' _. split; [by apply HQ|]. intros o.
  destruct (objects w' !! path) eqn:E; [destruct o|]; exists []; rewrite app_nil_r, E; (split; [done|]); by apply HQ.
Qed.

Lemma passive_fetch r a n : passive (FetchFileWithETag net others sha256 l r a n).
Proof. apply passive_bind; [apply passive_blob_fetch|]. intros d. apply passive_ret. Qed.

Lemma passive_FetchFile r a n : passive (FetchFile net others l upstream r a n).
Proof.
  assert (∀ ts, passive (fetch_targets (Blob.FetchFile net others l) r a ts)) as Hts.
  { induction ts as [|x ts IH]; [apply passive_ret|]. simpl.
    apply passive_try_bind; [apply passive_blob_fetch|].
    intros [d|e]; [apply passive_ret|]. destruct (is_not_found e); [done|apply passive_throw]. }
  apply passive_try_bind; [apply passive_blob_fetch|]. intros [d|e]; [apply passive_ret|].
  apply passive_bind; [done|]. intros [d|]; [apply passive_ret|].
  case_decide; [apply passive_throw|]. destruct (negb _); [apply passive_throw|].
  apply passive_try_bind; [apply passive_blob_fetch|].
  intros [d|]; [apply passive_ret|apply passive_throw].
Qed.

(** The package objects are stored away from the names of the workspace. *)
Definition top_frame (w w' : world) : Prop :=
  ∀ n, plain n = true → n ≠ "packages" → files w' !! local n = files w !! local n.

Lemma packages_path filename n :
  path_base filename = filename → plain n = true → n ≠ "packages" →
  local n ≠ path_join [local "packages"; filename].
Proof.
  intros Hb Hn Hne. rewrite !local_plain by done.
  assert (Forall (λ c, plain c = true) (tmp ++ ["packages"])) as Hps.
  { apply Forall_app. split; [done|]. by apply Forall_singleton. }
  rewrite path_join_clean by done. rewrite reverse_app. intros E.
  assert (split_char "/" filename = ["";""] ∨ split_char "/" filename = [filename] ∧ occurs "/" filename = false)
    as Hsplit.
  { apply path_base_eq in Hb as [->|[Ho _]]; [by left|]. right.
    by rewrite split_char_single. }
  assert (∀ cs, Forall (λ c, plain c = true) cs → abs_path (tmp ++ [n]) = abs_path cs → cs = tmp ++ [n]) as Hinj.
  { intros cs Hcs Heq. symmetry. revert Heq. apply abs_path_inj; [|done].
    apply Forall_app. split; [done|]. by apply Forall_singleton. }
  apply Hinj in E.
  - revert E. destruct Hsplit as [->|[-> _]]; simpl; unfold clean_step.
    + rewrite !(decide_True (P := "" = "" ∨ "" = ".")) by auto. simpl.
      rewrite reverse_cons, reverse_involutive. by intros [= ?]%app_inv_head.
    + case_decide; [|case_decide; [|]]; simpl; rewrite ?reverse_cons, ?reverse_involutive.
      * by intros [= ?]%app_inv_head.
      * intros E%(f_equal length). rewrite length_app in E. simpl in E. lia.
      * intros E%(f_equal length). rewrite !length_app in E. simpl in E. lia.
  - apply Forall_reverse, clean_stack_plain; [apply split_char_occurs|].
    simpl. constructor; [done|]. by apply Forall_reverse.
Qed.

Lemma wp_materializePackages filenames w :
  wp (materializePackages net others l io torn dir upstream repo arch filenames) w
    (λ r ws w', ws = [] ∧ top_frame w w').
Proof.
  apply wp_bind, wp_tick. intros o w1 H1 _ _.
  assert (top_frame w w1) as Hf1 by (intros n _ _; by rewrite H1).
  destruct o; [|by apply wp_throw..]. apply wp_ret. simpl. apply wp_bind.
  eapply wp_mono; [apply (wp_fold _ (λ _ ws w', ws = [] ∧ top_frame w w') (λ _ ws w', ws = [] ∧ top_frame w w')
    filenames ([], ∅) w1 [])|].
  - done.
  - by rewrite app_nil_r.
  - intros [ps seen] name ws w2 _ [-> Hf2] _. unfold materialize_package.
    case_decide as Hb; [by apply wp_throw|]. case_decide; [by apply wp_ret|].
    apply wp_bind, wp_wrapping, passive_FetchFile. intros r w3 H3.
    assert (top_frame w w3) as Hf3 by (intros n Hn Hne; rewrite H3; by apply Hf2).
    destruct r as [data|e]; [|done]. simpl. apply wp_bind, wp_wrapping, wp_write_local. intros w4 H4.
    assert (top_frame w w4) as Hf4.
    { intros n Hn Hne. rewrite H4; [by apply Hf3|]. rewrite list_elem_of_singleton. by apply packages_path. }
    split; [|done]. intros _. by apply wp_ret.
  - intros [a|e] ws w2; simpl; [|done]. intros [-> Hf2]. by apply wp_ret.
Qed.

Abbreviation snapshot := (canonicalSnapshot dir repo).
Abbreviation filesName := (FilesArchive (Artifacts repo)).

Lemma in_suffixes x : bool_decide (x ∈ suffixes) = true → repo +:+ x ∈ All (Artifacts repo).
Proof. intros Hx%bool_decide_eq_true. rewrite All_suffixes. by apply list_elem_of_fmap_2. Qed.

Lemma artifact_length n : n ∈ All (Artifacts repo) →
  (String.length n ≤ String.length repo + 17)%nat ∧ occurs "." n = true.
Proof.
  rewrite All_suffixes. intros (x & -> & Hx)%list_elem_of_fmap. rewrite length_str_app, occurs_app.
  assert (String.length x ≤ 17 ∧ occurs "." x = true)%nat as [H1 ->]; [|split; [lia|apply orb_true_r]].
  revert x Hx. apply (proj1 (Forall_forall _ _)). apply (bool_decide_eq_true_1 _). by vm_compute.
Qed.

Lemma artifact_plain_repo n : n ∈ All (Artifacts repo) → plain n = true.
Proof. exact (artifact_plain rs names repo arch kdb Hrs Hkdb n). Qed.

Lemma db_in_All : dbName ∈ All (Artifacts repo).
Proof. by apply (in_suffixes ".db.tar.gz"). Qed.

Definition snapshot_name : string := ".canonical-" +:+ dbName.

Lemma snapshot_plain : plain snapshot_name = true ∧ snapshot_name ∉ All (Artifacts repo).
Proof.
  pose proof (artifact_plain_repo _ db_in_All) as (Ho & Hn & _)%plain_occurs. split.
  - unfold snapshot_name, plain. rewrite occurs_app, Ho. done.
  - intros Hin. apply artifact_length in Hin as [Hl _]. unfold snapshot_name, DatabaseArchive in Hl.
    rewrite !length_str_app in Hl. simpl in Hl. lia.
Qed.

(** The canonical database and its snapshot in the workspace. *)
Definition keeps (w w' : world) : Prop :=
  files w' !! local dbName = files w !! local dbName ∧ files w' !! snapshot = files w !! snapshot.

Lemma keeps_trans w1 w2 w3 : keeps w1 w2 → keeps w2 w3 → keeps w1 w3.
Proof. intros [H1 H2] [H3 H4]. split; congruence. Qed.

Lemma top_frame_keeps w w' : top_frame w w' → keeps w w'.
Proof.
  intros H. destruct snapshot_plain as [Hs _]. pose proof db_in_All as Hdb. split; apply H.
  - by apply artifact_plain_repo.
  - intros E. apply artifact_length in Hdb as [_ Ho]. by rewrite E in Ho.
  - done.
  - unfold snapshot_name. done.
Qed.

(** A workspace whose .files archive belongs to the canonical database [c], with a file list
    for every package. *)
Definition rebuilt (c : string) (s : gmap string string) : Prop := ∃ s0 b0 b,
  s0 !! local dbName = Some c ∧ loaded decode paths s0 = Ok b0 ∧ same_canonical b0 b
  ∧ map_Forall (λ _ e, is_Some (e_files e)) b ∧ s !! local filesName = Some (encode (WriteFiles b)).

Lemma db_not_derived :
  local dbName ∉ [local filesName; local (FilesAlias (Artifacts repo))] ++ sig_paths paths.
Proof.
  pose proof (toolPathsFor_local rs names tmp repo arch kdb Htmp Hrs Hkdb) as Hpaths.
  apply toolPathsFor_Ok in Hpaths as [Hnd _].
  pose proof (workspace_sigs rs names tmp repo arch kdb Htmp Hrs Hkdb) as Hsig.
  unfold main_paths in *. rewrite !Forall_cons in Hsig. destruct Hsig as [Hsig _].
  rewrite !NoDup_cons, !not_elem_of_cons in Hnd. destruct Hnd as ((H1 & _ & H3 & _) & _).
  rewrite elem_of_app, !elem_of_cons, elem_of_nil. intros [[?|[?|[]]]|?]; done.
Qed.

Lemma snapshot_not_art : snapshot ∉ arts.
Proof.
  destruct snapshot_plain as [Hp Hn]. intros (n & E & Hin)%list_elem_of_fmap.
  apply local_inj in E; [|done..|by apply artifact_plain_repo]. by subst.
Qed.

Lemma wp_tool_rebuild pkgs c w (Q : result error unit → list write → world → Prop) :
  files w !! local dbName = Some c →
  (∀ w', keeps w w' → (rebuilt c (files w') → Q (Ok tt) [] w') ∧ ∀ e, Q (Err e) [] w') →
  wp (tool_rebuild sha256 io dir encode decode t repo pkgs signed) w Q.
Proof.
  intros Hc HQ. apply wp_tool. intros w' Hw'.
  pose proof (toolPathsFor_local rs names tmp repo arch kdb Htmp Hrs Hkdb) as Hpaths.
  pose proof (RebuildDerived_effect io encode decode sha256 t (local dbName) pkgs signed paths
    (mkTool (files w) (now w)) Hpaths (workspace_sigs rs names tmp repo arch kdb Htmp Hrs Hkdb)) as H.
  destruct (RebuildDerived _ _ _ _ _ _ _ _ _) as [r st']. destruct H as (Hf & Hok & _). simpl in Hw'.
  destruct (HQ w') as [Ht He].
  { split; rewrite Hw'; apply Hf; [apply db_not_derived|]. intros Hin. apply snapshot_not_art.
    apply (tool_paths_art rs names tmp repo arch kdb Htmp Hrs Hkdb). unfold main_paths.
    rewrite elem_of_app, !elem_of_cons, elem_of_nil in *. tauto. }
  destruct r as [[]|e]; [|apply He]. apply Ht.
  destruct (Hok eq_refl) as (b0 & b & Hb0 & _ & Hsame & Hall & Hfiles & _).
  exists (files w), b0, b. rewrite Hw'. split_and!; done.
Qed.

Lemma frame_keeps n w w' :
  n ∈ All (Artifacts repo) → n ≠ dbName → local_frame [local n] w w' → keeps w w'.
Proof.
  intros Hn Hne H. pose proof db_in_All as Hdb. destruct snapshot_plain as [Hs Hsn].
  split; apply H; rewrite list_elem_of_singleton; intros E.
  - apply local_inj in E; [by subst|done|by apply artifact_plain_repo..].
  - apply (local_inj tmp Htmp snapshot_name n Hs (artifact_plain_repo n Hn)) in E. by subst.
Qed.

Lemma files_not_db : filesName ∈ All (Artifacts repo) ∧ filesName ≠ dbName.
Proof. split; [by apply (in_suffixes ".files.tar.gz")|]. by intros E%(inj (String.append repo)). Qed.

Definition rebuilds (c : string) (w : world) (r : result error unit) (ws : list write) (w' : world) : Prop :=
  ws = [] ∧ keeps w w' ∧ (r = Ok tt → rebuilt c (files w')).

Lemma wp_rebuild_result c w w' r :
  keeps w w' → (r = Ok tt → rebuilt c (files w')) → wp (rebuild_result r) w' (rebuilds c w).
Proof.
  intros Hk Hr. destruct r as [[]|e]; [apply wp_ret|apply wp_throw]; split_and!; auto; done.
Qed.

Lemma wp_rebuildDerived c hadFiles w :
  files w !! local dbName = Some c →
  wp (rebuildDerived net others sha256 l io torn dir encode decode t upstream repo arch signed hadFiles) w
    (rebuilds c w).
Proof.
  intros Hc.
  assert (∀ w1, keeps w w1 → files w1 !! local dbName = Some c) as Hkc by (intros w1 [-> _]; done).
  assert (keeps w w) as Hrefl by done.
  (* what follows the first attempts *)
  assert (∀ r w1, keeps w w1 → (r = Ok tt → rebuilt c (files w1)) →
    wp (match r with
        | Err e => match missing_files e with
            | Some filenames =>
                pkgPaths ← materializePackages net others l io torn dir upstream repo arch filenames;
                r ← try (tool_rebuild sha256 io dir encode decode t repo pkgPaths signed);
                rebuild_result r
            | None => rebuild_result r end
        | Ok _ => rebuild_result r end) w1 (rebuilds c w)) as Hend.
  { intros r w1 Hk Hr. destruct r as [[]|e]; [by apply wp_rebuild_result|].
    destruct (missing_files e) as [filenames|]; [|by apply wp_rebuild_result].
    apply wp_bind. eapply wp_mono; [apply wp_materializePackages|]. intros r ws w2 [-> H2%top_frame_keeps].
    assert (keeps w w2) as Hk2 by by eapply keeps_trans. destruct r as [ps|e']; [|by split_and!].
    apply wp_bind, wp_try, (wp_tool_rebuild ps c); [by apply Hkc|]. intros w3 H3.
    assert (keeps w w3) as Hk3 by by eapply keeps_trans.
    split; [intros Hr3|intros e3]; by apply wp_rebuild_result. }
  apply wp_bind, wp_try, (wp_tool_rebuild [] c); [done|]. intros w1 H1. split.
  - intros Hr. apply wp_bind, wp_ret. by apply (Hend (Ok tt)).
  - intros e. apply wp_bind. destruct (bool_decide (missing_files e = None) && hadFiles).
    2: { apply wp_ret. by apply (Hend (Err e)). }
    destruct files_not_db as [Hfa Hfd].
    apply wp_bind, wp_os_remove. intros w2 H2%frame_keeps; [|done..].
    assert (keeps w w2) as Hk2 by by eapply keeps_trans. split; [|by split_and!]. intros _.
    apply wp_try, (wp_tool_rebuild [] c); [by apply Hkc|]. intros w3 H3.
    assert (keeps w w3) as Hk3 by by eapply keeps_trans.
    split; [intros Hr3; by apply (Hend (Ok tt))|intros e3; by apply (Hend (Err e3))].
Qed.

(** A write of a reconciliation: never the canonical database, but a derived artifact as
    the workspace has it after a rebuild. *)
Definition reconciled_write (wr : write) : Prop := ∃ name c s,
  name ∈ derivedArtifacts repo signed ∧ objectPath l repo arch name = Ok (w_path wr)
  ∧ w_path wr ≠ kdb ∧ w_new wr = s !! local name ∧ rebuilt c s.

(** Success: there is no canonical database, or the live one is the one rebuilt from. *)
Definition reconciled (w : world) : Prop :=
  content w kdb = None ∨ ∃ c s, content w kdb = Some c ∧ rebuilt c s.

Lemma derived_not_canonical name p :
  name ∈ derivedArtifacts repo signed → objectPath l repo arch name = Ok p → p ≠ kdb.
Proof.
  intros Hn Hp ->. destruct (objectPath_inj rs Hrs _ _ _ _ _ _ _ _ Hp Hkdb) as (_ & _ & ->).
  revert Hn. unfold derivedArtifacts, ArchiveSignatures, FilesArchiveSignature, DatabaseArchiveSignature,
    FilesArchive, DatabaseArchive. rewrite elem_of_cons. intros [E%(inj (String.append repo))|E]; [done|].
  destruct signed; [|by apply elem_of_nil in E]. rewrite !elem_of_cons, elem_of_nil in E.
  simpl in E. rewrite <-!str_app_assoc in E.
  destruct E as [E%(inj (String.append repo))|[E%(inj (String.append repo))|[]]]; done.
Qed.

(** Nothing was written, and success is not claimed. *)
Definition no_success (r : result error unit) (ws : list write) (w' : world) : Prop :=
  Forall reconciled_write ws ∧ (r = Ok tt → reconciled w').

Lemma no_success_err e w : no_success (Err e) [] w.
Proof. split; [by apply Forall_nil|done]. Qed.

Lemma wp_fetchCanonical w (Q : result error bool → list write → world → Prop) :
  (∀ w', (∀ c, files w' !! local dbName = Some c → files w' !! snapshot = Some c → Q (Ok true) [] w') ∧
     (content w' kdb = None → Q (Ok false) [] w') ∧ ∀ e, Q (Err e) [] w') →
  wp (fetchCanonical net others sha256 l io torn dir repo arch) w Q.
Proof.
  intros HQ. apply wp_bind, wp_try, wp_fetch. intros w1 H1.
  destruct (HQ w1) as (_ & Hnone & He). split_and!.
  - intros c path _ _. apply wp_bind, wp_write_local. intros w2 H2.
    split; [intros Hdb|by apply HQ].
    apply wp_bind, wp_wrapping, wp_bind, wp_read_local. intros w3 H3.
    split; [|by apply HQ]. intros data Hdata. rewrite Hdb in Hdata. injection Hdata as <-.
    apply wp_write_local. intros w4 H4. split; [|by apply HQ]. intros Hsnap.
    apply wp_ret. simpl. apply (HQ w4) with c; [|done]. rewrite H4, H3; [done|].
    rewrite list_elem_of_singleton. intros E.
    apply snapshot_not_art. rewrite <-E. apply elem_of_art, db_in_All.
  - intros path Hp Hn. rewrite Hkdb in Hp. injection Hp as <-. by apply wp_ret, Hnone.
  - intros path. by apply wp_throw, He.
  - intros e Hp. by rewrite Hkdb in Hp.
Qed.

Lemma wp_fetchFiles w (Q : result error bool → list write → world → Prop) :
  (∀ w' r, keeps w w' → Q r [] w') →
  wp (fetchFiles net others sha256 l io torn dir repo arch) w Q.
Proof.
  intros HQ. destruct files_not_db as [Hfa Hfd]. apply wp_bind, wp_try, passive_fetch. intros r w1 H1.
  assert (keeps w w1) as Hk by (unfold keeps; by rewrite H1). destruct r as [[data etag]|e].
  - apply wp_bind, wp_wrapping, wp_write_local. intros w2 H2%frame_keeps; [|done..].
    assert (keeps w w2) by by eapply keeps_trans.
    split; [intros _; apply wp_ret|]; by apply HQ.
  - destruct (is_not_found e); [apply wp_ret|apply wp_throw]; by apply HQ.
Qed.

Lemma wp_reconcile_once w :
  wp (reconcile_once net others time sha256 l io stat torn dir encode decode t upstream repo arch signed) w
    no_success.
Proof.
  apply wp_bind, wp_fetchCanonical. intros w1. split_and!; [| |intros e; apply no_success_err].
  2: { intros Hnone. apply wp_ret. split; [by apply Forall_nil|]. by left. }
  intros c Hc Hsnap. apply wp_bind, wp_fetchFiles. intros w2 [hadFiles|e] [K1 K2]; [|apply no_success_err].
  rewrite Hc in K1. rewrite Hsnap in K2.
  apply wp_bind. eapply wp_mono; [by apply (wp_rebuildDerived c)|].
  intros r ws w3 (-> & [_ K3] & Hr). rewrite K2 in K3. destruct r as [[]|e]; [|apply no_success_err].
  specialize (Hr eq_refl).
  eapply wp_mono; [exact (wp_commitDerived rs names tmp repo arch kdb Hrs Hkdb net others time sha256
    io stat signed snapshot w3)|].
  intros r ws w4 (_ & Hws & Hlive). split.
  - eapply Forall_impl; [exact Hws|]. intros wr (name & Hn & Hp & Hnew). exists name, c, (files w3).
    split_and!; try done. by eapply derived_not_canonical.
  - intros Hok. destruct (Hlive Hok) as (c' & Hc' & Hl). right. exists c, (files w3).
    split; [|done]. congruence.
Qed.

Lemma wp_reconcile w :
  wp (ReconcileDB net others time sha256 l io stat torn dir encode decode t upstream repo arch signed) w
    no_success.
Proof.
  unfold ReconcileDB. generalize maxDBAttempts as n. intros n. revert w.
  induction n as [|n IH]; intros w; [apply wp_throw, no_success_err|]. simpl.
  apply wp_bind, wp_try. apply wp_temp; [|intros w1; apply wp_throw, no_success_err].
  intros w1 _. eapply wp_mono; [apply wp_reconcile_once|]. intros r ws w2 [Hws Hr] w3 Hw3.
  destruct r as [[]|e].
  - apply wp_ret. rewrite app_nil_r. split; [done|]. intros _. unfold reconciled, content.
    rewrite Hw3. by apply Hr.
  - destruct (is_precondition e).
    + eapply wp_mono; [apply IH|]. intros r ws' w4 [Hws' Hr']. split; [by apply Forall_app|done].
    + apply wp_throw. by rewrite app_nil_r.
Qed.

(** Reconciling a repository, under every interference and failure: the canonical
    database is never written; what is written are derived artifacts of a workspace rebuilt
    from a canonical database that was live, whose .files archive has a file list for every
    package. When it succeeds there is no canonical database, or the live one is the one
    the derived artifacts were rebuilt from. *)
Theorem ReconcileDB_transaction w :
  wp (ReconcileDB net others time sha256 l io stat torn dir encode decode t upstream repo arch signed) w
    (λ r ws w', Forall reconciled_write ws ∧ (r = Ok tt → reconciled w')).
Proof. apply wp_reconcile. Qed.

(** ** Initialisation *)

(** The first database is empty, and replaces nothing. *)
Definition created_from (s : gmap string string) (c : string) : Prop :=
  s !! local dbName = None ∧ c = encode (WriteDB newDBBuilder).

Definition created_or_other (wr : write) : Prop :=
  w_path wr ≠ kdb ∨ (w_path wr = kdb ∧ w_old wr = None ∧ w_new wr = Some (encode (WriteDB newDBBuilder))).

Lemma batch_empty s : s !! local dbName = None → s !! local filesName = None →
  batch_result decode sha256 paths [] s = Ok newDBBuilder.
Proof.
  intros H1 H2. unfold batch_result, loaded, paths, workspace_paths. cbn [tp_db tp_files].
  by rewrite H1, H2.
Qed.

Lemma good_created wr : good (λ _, True) created_from wr → created_or_other wr.
Proof.
  intros [(Hp & s & c & Ho & Hn & _ & Hs & ->)|(s & name & Hn & Hp & _)].
  - right. by rewrite Ho.
  - left. by eapply derived_not_canonical.
Qed.

Definition initialised (r : result error unit) (ws : list write) : Prop :=
  Forall created_or_other ws
  ∧ ∀ e, r = Err e → CanonicalCommitted e = false → Forall (λ wr, w_path wr ≠ kdb) ws.

Lemma initialised_nil r : initialised r [].
Proof. split; [|intros _ _ _]; by apply Forall_nil. Qed.

(** Initialising an architecture never overwrites a package index: under every
    interference and failure, a write of the canonical database finds no database there and
    creates the empty one, and an error without the commit mark means that no canonical
    database was written. *)
Theorem InitArch_create_only w :
  wp (InitArch net others time sha256 l io stat torn dir encode decode t upstream repo arch signed) w
    (λ r ws w', initialised r ws).
Proof.
  apply wp_bind, wp_try, passive_fetch. intros r w1 _. destruct r as [[data etag]|e].
  { eapply wp_mono; [apply wp_reconcile|]. intros r ws w2 [Hws _].
    split; [|intros _ _ _]; (eapply Forall_impl; [exact Hws|]); intros wr (? & ? & ? & _ & _ & Hne & _);
      [by left|done]. }
  destruct (negb (is_not_found e)); [apply wp_throw, initialised_nil|].
  apply wp_temp; [|intros; apply initialised_nil]. intros w2 H2. apply wp_bind, wp_wrapping.
  eapply wp_mono; [apply wp_tool_add|]. rewrite H2. intros r ws w3 (-> & _ & Hr).
  destruct r as [[]|e']; simpl; [|intros; apply initialised_nil].
  apply wp_bind, wp_try. eapply wp_mono; [apply (wp_commitDB rs names tmp repo arch kdb Hrs Hkdb
    net others time sha256 io stat signed (λ _, True) created_from ∅ ∅)|].
  - done.
  - done.
  - intros c Hc. split; [done|]. destruct (Hr eq_refl c Hc) as (b & Hb & ->).
    rewrite batch_empty in Hb by done. by injection Hb as <-.
  - intros r ws w4 (_ & Hws & Hout & _).
    assert (Forall created_or_other ws) as Hgood by (eapply Forall_impl; [exact Hws|apply good_created]).
    destruct r as [[]|e']; [|destruct (is_precondition e')].
    + apply wp_ret. intros. by rewrite app_nil_r.
    + apply wp_ret. intros. by rewrite app_nil_r.
    + apply wp_throw. intros. rewrite app_nil_r. split; [done|]. intros e3 [= <-] Hc.
      rewrite (proj2 Hout e' eq_refl Hc). by apply Forall_nil.
Qed.

(** ** Immutable objects *)

(** An immutable object is never replaced by other bytes: under every interference and
    failure, every write stores the file's bytes where there was no object or the same
    bytes. When it succeeds the live object is the file, created exactly when the answer
    says so. *)
Theorem StoreFileImmutable_spec file p w :
  objectPath l repo arch (FileName file) = Ok p →
  wp (StoreFileImmutable net others time sha256 l repo arch file) w
    (λ r ws w', Forall (λ wr, w_path wr = p ∧ w_new wr = Some (Data file)
         ∧ (w_old wr = None ∨ w_old wr = Some (Data file))) ws
       ∧ ∀ created, r = Ok created → content w' p = Some (Data file)
           ∧ mkWrite p (if created then None else Some (Data file)) (Some (Data file)) ∈ ws).
Proof.
  intros Hp.
  assert (plain (FileName file) = true) as Hplain.
  { apply objectPath_Ok in Hp as (_ & _ & _ & Hn & _); [|done]. by apply ValidatePathComponent_plain. }
  unfold StoreFileImmutable. generalize 3 as n. intros n. revert w. induction n as [|n IH]; intros w.
  { apply wp_throw. split; [by apply Forall_nil|done]. }
  set (Q := λ (r : result error bool) ws w', _). specialize (IH : ∀ w, wp _ w Q).
  assert (∀ e w', Q (Err e) [] w') as Herr by (intros; split; [by apply Forall_nil|done]).
  (* a conditional store with the tag of an absent or an equal object *)
  assert (∀ (created : bool) etag msg w',
    etag = tag sha256 (if created then None else Some (Data file)) →
    wp (r ← try (StoreFileIfMatch net others time sha256 l repo arch file etag);
        match r with
        | Ok _ => mret created
        | Err e => if is_precondition e then immutable_attempts net others time sha256 l n repo arch file
                   else throw (WrapErr e msg)
        end) w' Q) as Hstore.
  { intros created etag msg w' ->. destruct file as [name data]. apply wp_bind, wp_try, wp_store; [done|].
    intros w2 _. split; [intros e _; destruct (is_precondition e); [apply IH|by apply wp_throw]|].
    intros path old Hpath Htag Hlive. simpl in Hp. rewrite Hpath in Hp. injection Hp as ->.
    apply (inj (tag sha256)) in Htag as ->.
    assert (∀ r, (∀ c, r = Ok c → c = created) →
      Q r [mkWrite p (if created then None else Some data) (Some data)] w2) as Hw.
    { intros r Hr. split; [apply Forall_singleton; destruct created; auto|]. intros c ->.
      rewrite (Hr c eq_refl). split; [done|constructor]. }
    split; [apply wp_ret|apply wp_throw]; apply Hw; [by intros c [= <-]|done]. }
  simpl. apply wp_bind, wp_try, wp_fetch. intros w1 _. split_and!.
  - intros data path _ _. case_decide as Hsame; [|by apply wp_throw].
    apply (inj sha256) in Hsame as ->. by apply Hstore.
  - intros path _ _. by apply Hstore.
  - intros path. by apply wp_throw.
  - intros e He. by rewrite Hp in He.
Qed.
End operations.
