(* ===== verification/RepoDBQuiet.v ===== *)
(** * Publishing repository databases: the undisturbed case

    When no other process writes and no call fails, publishing a batch takes one attempt and
    is an atomic update of the two archives: the specification the transaction of [RepoDB]
    refines, and its progress. *)

From S2P Require Import Prelude GoStrings Paths Package Dbwriter Repo Dbtool Blob RepoDB RepoDBSpec RepoDBOps.

Section quiet.
Context (net : nat → io_outcome) (others : nat → gmap string object → gmap string object).
Context (time : nat → Z) (sha256 : string → string) `{!Inj (=) (=) sha256}.
Context (rs names tmp : list string).
Context (io : nat → io_outcome) (stat : nat → bool) (torn : nat → nat).
Context (encode : list tar_member → string) (decode : string → result string tar_stream).
Context (quote : string → string) {R : RangeOrder} (t : NativeTool).
Context (repo arch : string).
Context (Hnet : ∀ n, net n = IoOk) (Hio : ∀ n, io n = IoOk) (Hstat : ∀ n, stat n = true).
Context (Hothers : ∀ n o, others n o = o).
Abbreviation l := (mkLocalStore (abs_path rs) names).
Abbreviation dir := (abs_path tmp).
Abbreviation local := (local dir).
Abbreviation dbName := (DatabaseArchive (Artifacts repo)).
Abbreviation filesName := (FilesArchive (Artifacts repo)).
Abbreviation paths := (workspace_paths tmp repo).
Abbreviation arts := (art_paths tmp repo).
Abbreviation tag := (tag sha256).
Abbreviation staged := (staged tmp).

(** ** Exact rules *)

Lemma q_fetch r a n p w Q :
  objectPath l r a n = Ok p →
  (∀ w', files w' = files w → objects w' = objects w →
     Q (match content w p with Some d => Ok (d, tag (Some d)) | None => Err ErrNotFound end) [] w') →
  wp (FetchFileWithETag net others sha256 l r a n) w Q.
Proof.
  intros Hp HQ. specialize (HQ (interfere others w)). simpl in HQ. specialize (HQ eq_refl (Hothers _ _)).
  exists []. rewrite app_nil_r. revert HQ.
  unfold content, FetchFileWithETag, Blob.FetchFile, lift, call, mbind, prog_bind. rewrite Hp, Hnet.
  unfold interfere. destruct w as [os fs k ow]. simpl. rewrite Hothers.
  destruct (os !! p) as [obj|] eqn:Ho; simpl; rewrite ?Ho; simpl; rewrite ?Hothers; auto.
Qed.

Lemma q_store name data etag p w Q :
  plain name = true → objectPath l repo arch name = Ok p → tag (content w p) = etag →
  (∀ w', files w' = files w → (∀ q, content w' q = if decide (q = p) then Some data else content w q) →
     Q (Ok tt) [mkWrite p (content w p) (Some data)] w') →
  wp (StoreFileIfMatch net others time sha256 l repo arch (mkSeekFile name data) etag) w Q.
Proof.
  intros Hn Hp <- HQ. destruct w as [os fs k ow].
  set (w2 := mkWorld (<[p := mkObject data (time (S k))]> os) fs (S k)
    (ow ++ [mkWrite p (o_data <$> os !! p) (Some data)])).
  assert (StoreFileIfMatch net others time sha256 l repo arch (mkSeekFile name data)
    (tag (o_data <$> os !! p)) (mkWorld os fs k ow) = (Ok tt, w2)) as E.
  { unfold StoreFileIfMatch, mbind, prog_bind, lift, call. cbn [FileName Data].
    rewrite path_base_id by (by apply plain_occurs in Hn as (? & ? & _)). rewrite Hp.
    unfold interfere. simpl. rewrite Hnet, Hothers. unfold put.
    destruct (os !! p) as [obj|] eqn:Ho; simpl; rewrite ?Ho; simpl.
    - rewrite decide_False by (intros [?|?]; done). simpl. unfold w2, set_field. cbn. by rewrite ?Hothers, ?Ho.
    - unfold w2, set_field. cbn. by rewrite ?Hothers, ?Ho. }
  eexists. unfold content in *. simpl in *. rewrite E. split; [done|]. apply HQ; [done|]. intros q.
  unfold w2. simpl. case_decide as Hq; [subst; by rewrite lookup_insert_eq|]. by rewrite lookup_insert_ne.
Qed.

Lemma q_read_local path data w Q :
  files w !! path = Some data →
  (∀ w', files w' = files w → objects w' = objects w → Q (Ok data) [] w') →
  wp (read_local io path) w Q.
Proof.
  intros Hd HQ. unfold read_local. exists []. rewrite app_nil_r. unfold tick, get_files, mbind, prog_bind.
  cbn. rewrite Hio, Hd. cbn. split; [done|]. by apply HQ.
Qed.

Lemma q_write_local dst data w Q :
  (∀ w', files w' = <[dst := data]> (files w) → objects w' = objects w → Q (Ok tt) [] w') →
  wp (writeReaderToPath io torn dst data) w Q.
Proof.
  intros HQ. exists []. rewrite app_nil_r. unfold writeReaderToPath, tick, set_file, mbind, prog_bind.
  cbn. rewrite Hio. cbn. split; [done|]. by apply HQ.
Qed.

Lemma q_remove path w Q :
  (∀ w', files w' = delete path (files w) → objects w' = objects w → Q (Ok tt) [] w') →
  wp (os_remove io path) w Q.
Proof.
  intros HQ. exists []. rewrite app_nil_r. unfold os_remove, tick, set_file, mbind, prog_bind.
  cbn. rewrite Hio. cbn. split; [done|]. by apply HQ.
Qed.

Lemma q_fileExists path w Q :
  (∀ w', files w' = files w → objects w' = objects w →
     Q (Ok (bool_decide (is_Some (files w !! path)))) [] w') →
  wp (fileExists io stat path) w Q.
Proof.
  intros HQ. exists []. rewrite app_nil_r. unfold fileExists, get_now, tick, get_files, mbind, prog_bind.
  cbn. rewrite Hstat. cbn. split; [done|]. by apply HQ.
Qed.

(** ** The attempt *)
Context (kdb kfiles : string) (Hrs : Forall (λ c, plain c = true) rs) (Htmp : Forall (λ c, plain c = true) tmp).
Context (Hkdb : objectPath l repo arch dbName = Ok kdb).
Context (Hkfiles : objectPath l repo arch filesName = Ok kfiles).

(** The workspace an attempt starts from. *)
Definition workspace_of (w : world) (items : list RepoAddItem) (s : gmap string string) : Prop :=
  holds tmp repo (staged items).1 s
  ∧ s !! local dbName = content w kdb ∧ s !! local filesName = content w kfiles.

Lemma archive_names : dbName ≠ filesName ∧ plain dbName = true ∧ plain filesName = true
  ∧ dbName ∈ All (Artifacts repo) ∧ filesName ∈ All (Artifacts repo).
Proof.
  assert (dbName ∈ All (Artifacts repo) ∧ filesName ∈ All (Artifacts repo)) as [H1 H2].
  { rewrite All_suffixes. split; [apply (list_elem_of_fmap_2 (String.append repo) _ ".db.tar.gz")
      |apply (list_elem_of_fmap_2 (String.append repo) _ ".files.tar.gz")]; by apply (bool_decide_eq_true_1 _). }
  split_and!; [by intros E%(inj (String.append repo))|..]; try done;
    by apply (artifact_plain rs names repo arch kdb Hrs Hkdb).
Qed.

Lemma archive_paths : kdb ≠ kfiles ∧ local dbName ≠ local filesName.
Proof.
  destruct archive_names as (Hne & Hp1 & Hp2 & _). split.
  - intros E. rewrite E in Hkdb. by destruct (objectPath_inj rs Hrs _ _ _ _ _ _ _ _ Hkdb Hkfiles) as (_ & _ & ?).
  - intros E. by apply local_inj in E.
Qed.

Lemma q_clear w (Q : result error unit → list write → world → Prop) :
  (∀ w', (∀ p, p ∉ arts → files w' !! p = files w !! p) → files w' !! local dbName = None →
     files w' !! local filesName = None → objects w' = objects w → Q (Ok tt) [] w') →
  wp (clearDBArtifacts io dir repo false) w Q.
Proof.
  intros HQ. unfold clearDBArtifacts, Archives, Aliases. cbn [app prog_fold].
  apply wp_bind, q_remove. intros w1 H1 O1. apply wp_bind, q_remove. intros w2 H2 O2.
  apply wp_bind, q_remove. intros w3 H3 O3. apply wp_bind, q_remove. intros w4 H4 O4.
  apply wp_ret. destruct archive_paths as [_ Hne]. apply (HQ w4).
  - intros p Hp. assert (∀ x, x ∈ suffixes → p ≠ local (repo +:+ x)) as Hx.
    { intros x Hx ->. apply Hp, elem_of_art. rewrite All_suffixes. by apply list_elem_of_fmap_2. }
    rewrite H4, H3, H2, H1. rewrite !lookup_delete_ne; [done|symmetry..];
      [apply (Hx ".db.tar.gz")|apply (Hx ".files.tar.gz")|apply (Hx ".db")|apply (Hx ".files")];
      by apply (bool_decide_eq_true_1 _).
  - rewrite H4, H3, H2, H1, !lookup_delete_None. eauto.
  - rewrite H4, H3, H2, !lookup_delete_None. eauto.
  - congruence.
Qed.

(** The content an object has as a local file. *)
Lemma q_fetch_artifact etags name p w (Q : result error (gmap string string) → list write → world → Prop) :
  objectPath l repo arch name = Ok p → files w !! local name = None →
  (∀ w' etags', objects w' = objects w →
     (∀ q, q ≠ local name → files w' !! q = files w !! q) → files w' !! local name = content w p →
     (∀ n, n ≠ name → etags' !! n = etags !! n) → default "" (etags' !! name) = tag (content w p) →
     Q (Ok etags') [] w') →
  etags !! name = None →
  wp (fetch_artifact net others sha256 l io torn dir repo arch etags name) w Q.
Proof.
  intros Hp Hnone HQ Het. apply wp_bind, wp_try, (q_fetch _ _ _ p); [done|]. intros w1 F1 O1.
  destruct (content w p) as [data|] eqn:Hc.
  - apply wp_bind, wp_wrapping, q_write_local. intros w2 F2 O2. apply wp_ret. apply HQ.
    + congruence.
    + intros q Hq. by rewrite F2, F1, lookup_insert_ne.
    + by rewrite F2, lookup_insert_eq.
    + intros n Hn. by rewrite lookup_insert_ne.
    + by rewrite lookup_insert_eq.
  - apply wp_ret. apply HQ; [done|by rewrite F1|by rewrite F1|done|by rewrite Het].
Qed.

Lemma content_objects w w' q : objects w' = objects w → content w' q = content w q.
Proof. intros H. unfold content. by rewrite H. Qed.

Lemma q_fetchDB w (Q : result error (gmap string string) → list write → world → Prop) :
  files w !! local dbName = None → files w !! local filesName = None →
  (∀ w' etags, objects w' = objects w → (∀ p, p ∉ arts → files w' !! p = files w !! p) →
     files w' !! local dbName = content w kdb → files w' !! local filesName = content w kfiles →
     default "" (etags !! dbName) = tag (content w kdb) → Q (Ok etags) [] w') →
  wp (fetchDBArtifacts net others sha256 l io torn dir repo arch false) w Q.
Proof.
  intros Hdb Hfiles HQ. destruct archive_names as (Hne & Hp1 & Hp2 & Hin1 & Hin2).
  destruct archive_paths as [_ Hlne]. unfold fetchDBArtifacts, dbArtifactBases, Archives. cbn [app prog_fold].
  apply wp_bind, (q_fetch_artifact ∅ dbName kdb); [done|done| |done]. intros w1 e1 O1 F1 D1 E1 T1.
  apply wp_bind, (q_fetch_artifact e1 filesName kfiles); [done|by rewrite F1| |by rewrite E1].
  intros w2 e2 O2 F2 D2 E2 T2. apply wp_ret. apply HQ.
  - congruence.
  - intros p Hp. assert (∀ n, n ∈ All (Artifacts repo) → p ≠ local n) as Hpn.
    { intros n Hn ->. by apply Hp, elem_of_art. }
    rewrite F2, F1 by auto. done.
  - by rewrite F2.
  - by rewrite D2, (content_objects w w1).
  - by rewrite E2.
Qed.

Lemma q_live c w (Q : result error bool → list write → world → Prop) :
  files w !! local dbName = Some c → content w kdb = Some c →
  (∀ w', files w' = files w → objects w' = objects w → Q (Ok true) [] w') →
  wp (liveObjectMatchesFile net others sha256 l io repo arch dbName (local dbName)) w Q.
Proof.
  intros Hc Hl HQ. apply wp_bind, (q_read_local _ c); [done|]. intros w1 F1 O1.
  apply wp_bind, wp_try, (q_fetch _ _ _ kdb); [done|]. intros w2 F2 O2.
  rewrite (content_objects w w1), Hl by done. apply wp_ret. rewrite bool_decide_eq_true_2 by done.
  apply HQ; congruence.
Qed.

Lemma q_storeIfMatch name p data etag w (Q : result error unit → list write → world → Prop) :
  plain name = true → objectPath l repo arch name = Ok p → files w !! local name = Some data →
  tag (content w p) = etag →
  (∀ w', files w' = files w → (∀ q, content w' q = if decide (q = p) then Some data else content w q) →
     Q (Ok tt) [mkWrite p (content w p) (Some data)] w') →
  wp (storeIfMatch net others time sha256 l io dir repo arch name etag) w Q.
Proof.
  intros Hn Hp Hd Ht HQ. apply wp_bind, wp_wrapping, (q_read_local _ data); [done|]. intros w1 F1 O1.
  apply (q_store _ _ _ p); [done|done|by rewrite (content_objects w w1)|]. intros w2 F2 C2.
  rewrite (content_objects w w1) by done. apply HQ; [congruence|].
  intros q. by rewrite C2, (content_objects w w1).
Qed.

Lemma q_currentETag name p w (Q : result error string → list write → world → Prop) :
  objectPath l repo arch name = Ok p →
  (∀ w', files w' = files w → objects w' = objects w → Q (Ok (tag (content w p))) [] w') →
  wp (currentObjectETag net others sha256 l repo arch name) w Q.
Proof.
  intros Hp HQ. apply wp_bind, wp_try, (q_fetch _ _ _ p); [done|]. intros w1 F1 O1.
  destruct (content w p); apply wp_ret; by apply HQ.
Qed.

(** One attempt publishes a derived artifact. *)
Lemma q_derived c name p data w (Q : result error unit → list write → world → Prop) :
  plain name = true → objectPath l repo arch name = Ok p →
  files w !! local dbName = Some c → content w kdb = Some c → files w !! local name = Some data →
  (∀ w', files w' = files w → (∀ q, content w' q = if decide (q = p) then Some data else content w q) →
     Q (Ok tt) [mkWrite p (content w p) (Some data)] w') →
  wp (commit_derived net others time sha256 l io stat dir repo arch (local dbName) name) w Q.
Proof.
  intros Hn Hp Hc Hl Hd HQ. apply wp_bind, q_fileExists. intros w1 F1 O1.
  rewrite Hd, bool_decide_eq_true_2 by eauto. cbn [negb].
  unfold commitOneDerived. change maxDBAttempts with (S 5). cbn [derived_attempts].
  apply wp_bind, (q_live c); [by rewrite F1|by rewrite (content_objects w w1)|]. intros w2 F2 O2.
  cbn [negb]. apply wp_bind, (q_currentETag _ p); [done|]. intros w3 F3 O3.
  assert (∀ q, content w3 q = content w q) as C3 by (intros q; apply content_objects; congruence).
  assert (content w2 p = content w p) as C2 by (apply content_objects; congruence).
  apply wp_bind, wp_try, (q_storeIfMatch _ p data); [done|done|congruence|by rewrite C3, C2|].
  intros w4 F4 C4. rewrite C3. apply wp_ret. apply HQ; [congruence|]. intros q. by rewrite C4, C3.
Qed.

(** The two archives of the workspace are published. *)
Lemma q_commitDB c f etags w (Q : result error unit → list write → world → Prop) :
  files w !! local dbName = Some c → files w !! local filesName = Some f →
  default "" (etags !! dbName) = tag (content w kdb) →
  (∀ w', (∀ q, content w' q = if decide (q = kfiles) then Some f
                              else if decide (q = kdb) then Some c else content w q) →
     Q (Ok tt) [mkWrite kdb (content w kdb) (Some c); mkWrite kfiles (content w kfiles) (Some f)] w') →
  wp (commitDB net others time sha256 l io stat dir repo arch etags false) w Q.
Proof.
  intros Hc Hf Ht HQ. destruct archive_names as (Hne & Hp1 & Hp2 & Hin1 & Hin2).
  destruct archive_paths as [Hkne Hlne].
  apply wp_bind, wp_try, (q_storeIfMatch _ kdb c); [done..|]. intros w1 F1 C1.
  apply wp_wrapping, wp_bind. cbn [derivedArtifacts prog_fold].
  assert (content w1 kdb = Some c) as Hl1 by (by rewrite C1, decide_True).
  assert (content w1 kfiles = content w kfiles) as Hl2 by (by rewrite C1, decide_False).
  apply wp_bind, (q_derived c _ kfiles f); [done|done|congruence|done|congruence|]. intros w2 F2 C2.
  rewrite Hl2. apply wp_ret. apply wp_bind, (q_live c); [congruence|by rewrite C2, decide_False|].
  intros w3 F3 O3. apply wp_ret. simpl. apply HQ. intros q.
  rewrite (content_objects w2 w3), C2, C1 by done. done.
Qed.

(** ** Publishing a batch *)

Lemma q_seek_file dst (f : option SeekFile) w (Q : result error unit → list write → world → Prop) :
  (∀ w', objects w' = objects w →
     files w' = match f with Some f => <[dst := f.(Data)]> (files w) | None => files w end →
     Q (Ok tt) [] w') →
  wp (writeSeekFileToPath io torn dst f) w Q.
Proof.
  intros HQ. destruct f as [f|]; [apply q_write_local; intros; by apply HQ|by apply wp_ret, HQ].
Qed.

Lemma q_materialize_item ps item w (Q : result error (list string) → list write → world → Prop) :
  (∀ w', objects w' = objects w → (files w', (stage_item tmp (files w, ps) item).2) = stage_item tmp (files w, ps) item →
     Q (Ok (stage_item tmp (files w, ps) item).2) [] w') →
  wp (materialize_item io torn dir ps item) w Q.
Proof.
  unfold stage_item. intros HQ. unfold materialize_item, writeSeekFileTo. cbv zeta. apply wp_bind.
  destruct (Pkg item) as [f|]; [|by apply wp_ret, wp_ret, HQ].
  apply wp_bind, q_seek_file. intros w1 O1 F1. apply wp_ret.
  rewrite decide_False by apply local_not_nil. apply wp_bind, q_seek_file. intros w2 O2 F2.
  apply wp_ret. apply HQ; [congruence|]. simpl. rewrite F2, F1. by destruct (Sig item).
Qed.

Lemma q_materialize items w (Q : result error (list string) → list write → world → Prop) :
  files w = ∅ →
  (∀ w', objects w' = objects w → files w' = (staged items).1 → Q (Ok (staged items).2) [] w') →
  wp (materializeRepoAddItems io torn dir items) w Q.
Proof.
  unfold RepoDBOps.staged. intros <-. unfold materializeRepoAddItems. generalize (@nil string) as ps.
  revert w. induction items as [|item items IH]; intros w ps HQ; [by apply wp_ret, HQ|].
  apply wp_bind, q_materialize_item. intros w1 O1 F1. apply IH. rewrite F1. intros w2 O2 F2.
  apply HQ; [congruence|done].
Qed.

(** The conditions of the items hold of the live database. *)
Definition expected (w : world) (items : list RepoAddItem) : Prop :=
  hasConditionalAdd items = true →
  ∃ cur, current_repo decode quote (content w kdb) = Ok cur ∧ check_items cur items = Ok tt.

Lemma q_validateAdd items w0 w (Q : result error unit → list write → world → Prop) :
  expected w0 items → files w !! local dbName = content w0 kdb →
  (∀ w', files w' = files w → objects w' = objects w → Q (Ok tt) [] w') →
  wp (validateAddExpectations io stat decode quote (local dbName) items) w Q.
Proof.
  intros He Hdb HQ. unfold validateAddExpectations, expected in *.
  destruct (hasConditionalAdd items); [|by apply wp_ret, HQ]. cbn [negb].
  destruct (He eq_refl) as (cur & Hcur & Hcheck). apply wp_bind, wp_bind, q_fileExists. intros w1 F1 O1.
  rewrite Hdb. unfold current_repo in Hcur. destruct (content w0 kdb) as [data|].
  - rewrite bool_decide_eq_true_2 by eauto. apply wp_wrapping, wp_bind, (q_read_local _ data); [congruence|].
    intros w2 F2 O2. apply wp_lift. rewrite Hcur. apply wp_lift. rewrite Hcheck. apply HQ; congruence.
  - rewrite bool_decide_eq_false_2 by (by intros []). apply wp_ret, wp_lift. injection Hcur as <-.
    rewrite Hcheck. by apply HQ.
Qed.

Lemma q_tool_add pkgs b w (Q : result error unit → list write → world → Prop) :
  batch_result decode sha256 paths pkgs (files w) = Ok b →
  (∀ w', objects w' = objects w → files w' !! local dbName = Some (encode (WriteDB b)) →
     files w' !! local filesName = Some (encode (WriteFiles b)) → Q (Ok tt) [] w') →
  wp (run_tool (Dbtool.RepoAddBatch io encode decode sha256 t (local dbName) pkgs false)) w Q.
Proof.
  intros Hb HQ. pose proof (toolPathsFor_local rs names tmp repo arch kdb Htmp Hrs Hkdb) as Hpaths.
  pose proof (workspace_sigs rs names tmp repo arch kdb Htmp Hrs Hkdb) as Hsig.
  pose proof (RepoAddBatch_ok io Hio encode decode sha256 t (local dbName) pkgs paths
    (mkTool (files w) (now w)) b Hpaths (good_paths_For _ _ Hpaths Hsig) Hb) as Hok.
  pose proof (RepoAddBatch_effect io encode decode sha256 t (local dbName) pkgs false paths
    (mkTool (files w) (now w)) Hpaths Hsig) as H.
  exists []. rewrite app_nil_r. unfold run_tool. destruct (Dbtool.RepoAddBatch _ _ _ _ _ _ _ _ _) as [r st].
  simpl in Hok. subst r. destruct H as (_ & _ & H). destruct (H eq_refl) as (b' & Hb' & Hw).
  assert (b' = b) as -> by (simpl in Hb'; congruence). split; [done|].
  destruct Hw as (H1 & _ & H2 & _). by apply HQ.
Qed.

(** C3. Publishing a batch undisturbed, in a repository whose database is not signed: when no
    other process writes and no call fails, and the conditions of the items hold of the live
    database, the operation succeeds and is exactly one atomic update: the canonical database
    becomes the old one with the batch added, the files archive its counterpart, and every
    other object is unchanged.  (Of a signed database the two signatures are written too.) *)
Theorem RepoAddBatch_refines items w b :
  expected w items →
  (∀ s, workspace_of w items s → batch_result decode sha256 paths (staged items).2 s = Ok b) →
  wp (RepoAddBatch net others time sha256 l io stat torn dir encode decode quote t repo arch items false) w
    (λ r ws w', r = Ok tt
       ∧ ws = [mkWrite kdb (content w kdb) (Some (encode (WriteDB b)));
               mkWrite kfiles (content w kfiles) (Some (encode (WriteFiles b)))]
       ∧ ∀ q, content w' q = if decide (q = kfiles) then Some (encode (WriteFiles b))
                             else if decide (q = kdb) then Some (encode (WriteDB b)) else content w q).
Proof.
  intros Hexp Hb. set (w0 := w <| now ::= S |>). unfold RepoAddBatch, withRepoDBTempDir, wp.
  assert (wp (pkgPaths ← materializeRepoAddItems io torn dir items;
      mutateDB net others time sha256 l io stat torn dir repo arch false
        (add_mutation sha256 io stat encode decode quote t items pkgPaths false)) (w0 <| files := ∅ |>)
    (λ r ws w', r = Ok tt
       ∧ ws = [mkWrite kdb (content w kdb) (Some (encode (WriteDB b)));
               mkWrite kfiles (content w kfiles) (Some (encode (WriteFiles b)))]
       ∧ ∀ q, content w' q = if decide (q = kfiles) then Some (encode (WriteFiles b))
                             else if decide (q = kdb) then Some (encode (WriteDB b)) else content w q)) as Hrun.
  { apply wp_bind, q_materialize; [done|]. intros w1 O1 F1.
    unfold mutateDB. change maxDBAttempts with (S 5). cbn [run_attempts].
    apply wp_bind, wp_try, wp_bind, q_clear. intros w2 F2 D2 E2 O2.
    apply wp_bind, q_fetchDB; [done|done|]. intros w3 etags O3 F3 D3 E3 T3.
    assert (∀ q, content w2 q = content w q) as C2 by (intros q; apply content_objects; rewrite O2; exact O1).
    assert (∀ q, content w3 q = content w q) as C3 by (intros q; rewrite <-C2; by apply content_objects).
    rewrite C2 in D3, E3, T3.
    apply wp_bind, wp_bind, (q_validateAdd items w); [done|done|]. intros w4 F4 O4.
    apply wp_wrapping, (q_tool_add _ b).
    { apply Hb. rewrite F4. split_and!; [|done|done]. intros p Hp. by rewrite F3, F2, F1. }
    intros w5 O5 D5 E5. apply wp_ret. simpl.
    assert (∀ q, content w5 q = content w q) as C5 by (intros q; rewrite <-C3; apply content_objects; congruence).
    apply wp_bind, wp_try, (q_commitDB (encode (WriteDB b)) (encode (WriteFiles b)));
      [done|done|by rewrite C5|].
    intros w6 C6. apply wp_ret. rewrite !C5. split_and!; [done|done|]. intros q. by rewrite C6, C5. }
  destruct Hrun as (ws & Hown & Hr & Hws & Hc). exists ws.
  assert ((o ← tick io; match o with
     | IoOk => in_empty (pkgPaths ← materializeRepoAddItems io torn dir items;
         mutateDB net others time sha256 l io stat torn dir repo arch false
           (add_mutation sha256 io stat encode decode quote t items pkgPaths false))
     | _ => throw (ErrLocal dir) end) w
    = in_empty (pkgPaths ← materializeRepoAddItems io torn dir items;
         mutateDB net others time sha256 l io stat torn dir repo arch false
           (add_mutation sha256 io stat encode decode quote t items pkgPaths false)) w0) as ->.
  { unfold mbind, prog_bind, tick. by rewrite Hio. }
  unfold in_empty. revert Hown Hr Hws Hc.
  destruct ((materializeRepoAddItems io torn dir items ≫= _) (w0 <| files := ∅ |>)) as [r w7].
  intros. by split_and!.
Qed.
End quiet.
