(* ===== verification/RepoDBExamples.v ===== *)
(** * Publishing repository databases: runs on a concrete store *)

From S2P Require Import Prelude GoStrings Paths Package Dbwriter Repo Dbtool Blob RepoDB RepoDBSpec RepoDBOps RepoDBQuiet.

Definition srv : list string := ["srv"].
Definition tmpdir : list string := ["tmp"; "ayato-repodb-1"].
Definition core_db : string := "/srv/core/x86_64/core.db.tar.gz".
Definition core_files : string := "/srv/core/x86_64/core.files.tar.gz".

Definition foo_item : RepoAddItem :=
  mkItem (Some (mkSeekFile "foo-1-1-any.pkg.tar.zst" "data")) None false "" "" "" "" "".

(** The canonical database written by another instance just before call [k]. *)
Definition other_writer (k n : nat) (o : gmap string object) : gmap string object :=
  if decide (n = k) then <[core_db := mkObject "other" 7]> o else o.

Definition store_world : world :=
  mkWorld {[core_db := mkObject "old" 1]} ∅ 0 [].

Definition add_foo (k : nat) : prog unit :=
  RepoAddBatch (λ _, IoOk) (other_writer k) Z.of_nat id (mkLocalStore (abs_path srv) ["core"])
    (λ _, IoOk) (λ _, true) (λ _, 0%nat) (abs_path tmpdir) (λ _, "archive") tool_decode id
    (R := elements_order) (mkNativeTool None) "core" "x86_64" [foo_item] false.

Lemma srv_plain : Forall (λ c, plain c = true) srv.
Proof. by repeat constructor. Qed.
Lemma tmpdir_plain : Forall (λ c, plain c = true) tmpdir.
Proof. by repeat constructor. Qed.

Lemma core_path : objectPath (mkLocalStore (abs_path srv) ["core"]) "core" "x86_64"
  (DatabaseArchive (Artifacts "core")) = Ok core_db.
Proof. vm_compute. reflexivity. Qed.

(** The change another instance makes before call 23 comes between the canonical and the
    derived archives of the first attempt: the second attempt adds the batch to it. *)
Lemma RepoAddBatch_transaction_witness :
  (add_foo 23 store_world).1 = Ok tt
  ∧ map w_old (own (add_foo 23 store_world).2) = [Some "old"; Some "other"; None]
  ∧ content (add_foo 23 store_world).2 core_db = Some "archive"
  ∧ wp (add_foo 23) store_world (λ r ws w', outcome core_db r ws w').
Proof.
  split; [vm_compute; reflexivity|]. split; [vm_compute; reflexivity|].
  split; [vm_compute; reflexivity|]. unfold add_foo. eapply wp_mono; [exact (RepoAddBatch_transaction (λ _, IoOk)
    (other_writer 23) Z.of_nat id srv ["core"] tmpdir (λ _, IoOk) (λ _, true) (λ _, 0%nat)
    (λ _, "archive") tool_decode id (R := elements_order) (mkNativeTool None) "core" "x86_64" false core_db
    srv_plain tmpdir_plain core_path [foo_item] store_world)|].
  intros r ws w' [_ H]; exact H.
Defined.

Definition remove_foo (k : nat) : prog unit :=
  repoRemove (λ _, IoOk) (other_writer k) Z.of_nat id (mkLocalStore (abs_path srv) ["core"])
    (λ _, IoOk) (λ _, true) (λ _, 0%nat) (abs_path tmpdir) (λ _, "archive") tool_decode id
    (R := elements_order) (mkNativeTool None) "core" "x86_64" "foo" "1-1" "foo-1-1-any.pkg.tar.zst" true false.

Lemma repoRemove_transaction_witness :
  (remove_foo 100 store_world).1 = Ok tt
  ∧ content (remove_foo 100 store_world).2 core_db = Some "old"
  ∧ wp (remove_foo 100) store_world (λ r ws w', outcome core_db r ws w').
Proof.
  split; [vm_compute; reflexivity|]. split; [vm_compute; reflexivity|].
  unfold remove_foo. eapply wp_mono; [exact (repoRemove_transaction (λ _, IoOk) (other_writer 100) Z.of_nat id srv ["core"]
    tmpdir (λ _, IoOk) (λ _, true) (λ _, 0%nat) (λ _, "archive") tool_decode id (R := elements_order)
    (mkNativeTool None) "core" "x86_64" false core_db srv_plain tmpdir_plain core_path "foo" "1-1" "foo-1-1-any.pkg.tar.zst" true store_world)|].
  intros r ws w' [_ H]; exact H.
Defined.

Definition reconcile_core (k : nat) : prog unit :=
  ReconcileDB (λ _, IoOk) (other_writer k) Z.of_nat id (mkLocalStore (abs_path srv) ["core"])
    (λ _, IoOk) (λ _, true) (λ _, 0%nat) (abs_path tmpdir) (λ _, "archive") tool_decode
    (R := elements_order) (mkNativeTool None) ∅ "core" "x86_64" false.

Lemma ReconcileDB_transaction_witness :
  (reconcile_core 14 store_world).1 = Ok tt
  ∧ content (reconcile_core 14 store_world).2 core_db = Some "other"
  ∧ wp (reconcile_core 14) store_world (λ r ws w', r = Ok tt →
      reconciled tmpdir (λ _, "archive") tool_decode (R := elements_order) "core" core_db w').
Proof.
  split; [vm_compute; reflexivity|]. split; [vm_compute; reflexivity|].
  unfold reconcile_core. eapply wp_mono; [exact (ReconcileDB_transaction (λ _, IoOk) (other_writer 14) Z.of_nat id srv ["core"]
    tmpdir (λ _, IoOk) (λ _, true) (λ _, 0%nat) (λ _, "archive") tool_decode id (R := elements_order)
    (mkNativeTool None) "core" "x86_64" false core_db srv_plain tmpdir_plain core_path ∅ store_world)|].
  intros r ws w' [_ H]; exact H.
Defined.

(** A repository with a files archive and no canonical database. *)
Definition orphan_world : world := mkWorld {[core_files := mkObject "stale" 1]} ∅ 0 [].

Definition init_core (k : nat) : prog unit :=
  InitArch (λ _, IoOk) (other_writer k) Z.of_nat id (mkLocalStore (abs_path srv) ["core"])
    (λ _, IoOk) (λ _, true) (λ _, 0%nat) (abs_path tmpdir) (λ _, "archive") tool_decode
    (R := elements_order) (mkNativeTool None) ∅ "core" "x86_64" false.

Lemma InitArch_create_only_witness :
  (init_core 11 orphan_world).1 = Ok tt
  ∧ content (init_core 11 orphan_world).2 core_db = Some "other"
  ∧ wp (init_core 11) orphan_world (λ r ws _, initialised (λ _, "archive") (R := elements_order) core_db r ws).
Proof.
  split; [vm_compute; reflexivity|]. split; [vm_compute; reflexivity|].
  unfold init_core. eapply wp_mono; [exact (InitArch_create_only (λ _, IoOk) (other_writer 11) Z.of_nat id srv ["core"]
    tmpdir (λ _, IoOk) (λ _, true) (λ _, 0%nat) (λ _, "archive") tool_decode id (R := elements_order)
    (mkNativeTool None) "core" "x86_64" false core_db srv_plain tmpdir_plain core_path ∅ orphan_world)|].
  intros r ws w' H; exact H.
Defined.

(** The derived archives of a new architecture are not create-only: a stale files archive
    is replaced. *)
Example init_overwrites_derived :
  (init_core 100 orphan_world).1 = Ok tt
  ∧ own (init_core 100 orphan_world).2
    = [mkWrite core_db None (Some "archive"); mkWrite core_files (Some "stale") (Some "archive")].
Proof. split; vm_compute; reflexivity. Qed.

Definition store_foo (k : nat) : prog bool :=
  StoreFileImmutable (λ _, IoOk) (other_writer k) Z.of_nat id (mkLocalStore (abs_path srv) ["core"])
    "core" "x86_64" (mkSeekFile "core.db.tar.gz" "mine").

Lemma StoreFileImmutable_spec_witness :
  is_ok (store_foo 1 (mkWorld ∅ ∅ 0 [])).1 = false
  ∧ content (store_foo 1 (mkWorld ∅ ∅ 0 [])).2 core_db = Some "other"
  ∧ wp (store_foo 1) (mkWorld ∅ ∅ 0 []) (λ r ws w',
       ∀ created, r = Ok created → content w' core_db = Some "mine").
Proof.
  split; [vm_compute; reflexivity|]. split; [vm_compute; reflexivity|].
  unfold store_foo. eapply wp_mono; [exact (StoreFileImmutable_spec (λ _, IoOk) (other_writer 1) Z.of_nat id srv
    ["core"] "core" "x86_64" srv_plain (mkSeekFile "core.db.tar.gz" "mine") core_db (mkWorld ∅ ∅ 0 []) core_path)|].
  intros r ws w' [_ H] created Hr. exact (proj1 (H created Hr)).
Defined.

(** A repository name that the configuration accepts and the store refuses: every
    operation on its database fails. *)
Example dotted_name_refused :
  ValidateName "a..b" = Ok tt
  ∧ objectPath (mkLocalStore (abs_path srv) ["a..b"]) "a..b" "x86_64" (DatabaseArchive (Artifacts "a..b"))
    = Err ErrNotExist.
Proof. split; vm_compute; reflexivity. Qed.

(** Without other processes the batch is one atomic update of the two archives. *)
Definition add_foo_quiet : prog unit :=
  RepoAddBatch (λ _, IoOk) (λ _ o, o) Z.of_nat id (mkLocalStore (abs_path srv) ["core"])
    (λ _, IoOk) (λ _, true) (λ _, 0%nat) (abs_path tmpdir) (λ _, "archive") tool_decode id
    (R := elements_order) (mkNativeTool None) "core" "x86_64" [foo_item] false.

Definition foo_staged : gmap string string :=
  <[local (abs_path tmpdir) "core.db.tar.gz" := "old"]> (staged tmpdir [foo_item]).1.

Definition foo_builder : dbBuilder :=
  match batch_result tool_decode id (R := elements_order) (workspace_paths tmpdir "core")
    (staged tmpdir [foo_item]).2 foo_staged with Ok b => b | Err _ => newDBBuilder end.

Lemma foo_batch s :
  workspace_of tmpdir "core" core_db core_files store_world [foo_item] s →
  batch_result tool_decode id (R := elements_order) (workspace_paths tmpdir "core")
    (staged tmpdir [foo_item]).2 s = Ok foo_builder.
Proof.
  intros (Hs & Hdb & Hfiles).
  assert (∀ p, bool_decide (p ∈ art_paths tmpdir "core") = false → s !! p = (staged tmpdir [foo_item]).1 !! p)
    as Hp by (intros p ?%bool_decide_eq_false; by apply Hs).
  trans (batch_result tool_decode id (R := elements_order) (workspace_paths tmpdir "core")
    (staged tmpdir [foo_item]).2 foo_staged); [|vm_compute; reflexivity].
  set (p := "/tmp/ayato-repodb-1/foo-1-1-any.pkg.tar.zst").
  assert ((staged tmpdir [foo_item]).2 = [p]) as -> by (vm_compute; reflexivity).
  unfold batch_result, loaded, workspace_paths, foldM, added, meta_of, sig_of. cbn [tp_db tp_files].
  rewrite Hdb, Hfiles, (Hp p), (Hp (p +:+ ".sig")) by (vm_compute; reflexivity).
  vm_compute. reflexivity.
Qed.

Lemma core_files_path : objectPath (mkLocalStore (abs_path srv) ["core"]) "core" "x86_64"
  (FilesArchive (Artifacts "core")) = Ok core_files.
Proof. vm_compute. reflexivity. Qed.

Lemma foo_expected : expected tool_decode id (R := elements_order) core_db store_world [foo_item].
Proof. vm_compute. discriminate. Qed.

Lemma RepoAddBatch_refines_witness :
  size foo_builder = 1%nat ∧
  wp add_foo_quiet store_world (λ r ws w', r = Ok tt ∧ content w' core_files = Some "archive").
Proof.
  split; [vm_compute; reflexivity|]. unfold add_foo_quiet.
  eapply wp_mono; [exact (RepoAddBatch_refines (λ _, IoOk) (λ _ o, o) Z.of_nat id srv ["core"] tmpdir
    (λ _, IoOk) (λ _, true) (λ _, 0%nat) (λ _, "archive") tool_decode id (R := elements_order)
    (mkNativeTool None) "core" "x86_64" (λ _, eq_refl) (λ _, eq_refl) (λ _, eq_refl) (λ _ _, eq_refl)
    core_db core_files srv_plain tmpdir_plain core_path core_files_path [foo_item] store_world foo_builder
    foo_expected foo_batch)|].
  intros r ws w' (-> & _ & H). split; [reflexivity|]. rewrite (H core_files).
  vm_compute. reflexivity.
Defined.
