(* ===== verification/Catalog.v ===== *)
(** * The repository policies of ayato (ayato/domain)

    repository_policy.go: tiers, and one validated policy per logical repository.
    catalog.go: the index of logical policies and of the physical repositories they own.
    upstream.go: the remote database a repository may overlay.

    [url.Parse] enters as a parameter: the scheme and host of a URL it accepts. *)

From S2P Require Import Prelude GoStrings Artifact Package Repo.

(** ** Tiers *)

(** A tier is a string, as in the code; three are named. *)
Definition Tier : Type := string.
Definition TierStaging : Tier := "staging".
Definition TierTesting : Tier := "testing".
Definition TierStable : Tier := "stable".

Inductive catalog_error :=
| ErrUnknownTier (value : string)
| ErrNotTiered (name : string)
| ErrRepositoryName (e : name_error)
| ErrEmptyArch
| ErrAnyArch
| ErrArchCharacter (arch : string)
| ErrDuplicateArch (arch : string)
| ErrFilesURL
| ErrUpstreamURL (field value : string)
| ErrInRepository (name : string) (e : catalog_error)
| ErrDefaultArches (e : catalog_error)
| ErrDuplicateLogical (name : string)
| ErrCollision (physical previous name : string).

Definition ParseTier (value : string) : result catalog_error Tier :=
  if decide (value = TierStaging ∨ value = TierTesting ∨ value = TierStable) then Ok value
  else Err (ErrUnknownTier value).

Definition CanPromote (from to : Tier) : bool :=
  bool_decide (from = TierStaging) && bool_decide (to = TierTesting)
  || bool_decide (from = TierTesting) && bool_decide (to = TierStable).

(** ** Upstreams *)

(** [strings.ReplaceAll] for a non-empty [old]; every replacement uses up a byte. *)
Fixpoint replace_all_fuel (n : nat) (s old new : string) : string :=
  match n with
  | O => s
  | S n => match cut old s with
           | Some (a, b) => a +:+ new +:+ replace_all_fuel n b old new
           | None => s
           end
  end.
Definition ReplaceAll (s old new : string) : string := replace_all_fuel (String.length s) s old new.

Record UpstreamSpec := mkUpstreamSpec { DBURL : string; FilesURL : string }.
Record Upstream := mkUpstream { dbURL : string; filesURL : string }.

Definition Enabled (u : Upstream) : bool := negb (bool_decide (dbURL u = "")).

Definition DBURLFor (u : Upstream) (arch : string) : string := ReplaceAll (dbURL u) "$arch" arch.

Definition deriveFilesURL (dbURL : string) : string :=
  match cut_last ".db" dbURL with
  | Some (a, b) => a +:+ ".files" +:+ b
  | None => dbURL
  end.

Definition FilesURLFor (u : Upstream) (arch : string) : string :=
  let filesURL := if decide (filesURL u = "") then deriveFilesURL (dbURL u) else filesURL u in
  ReplaceAll filesURL "$arch" arch.

(** ** Policies *)

Record RepositorySpec := mkSpec {
  spec_Name : string;
  spec_Arches : list string;
  spec_AllowNewArch : bool;
  spec_TrustedKeys : list string;
  spec_Tiered : bool;
  spec_PromotionKeepInSource : bool;
  spec_Upstream : UpstreamSpec;
}.

Record Repository := mkRepository {
  r_name : string;
  r_arches : list string;
  r_allowNewArch : bool;
  r_trustedKeys : list string;
  r_tiered : bool;
  r_promotionKeepInSource : bool;
  r_upstream : Upstream;
}.

Definition isArchCharacter (c : ascii) : bool := alphanumeric c || occurs c "_-.+".

Definition validateArch (arch : string) : result catalog_error unit :=
  if decide (arch = "") then Err ErrEmptyArch
  else if decide (arch = "any") then Err ErrAnyArch
  else if all_bytes isArchCharacter arch then Ok tt
  else Err (ErrArchCharacter arch).

(** The loop of [validateArches], with [seen] the architectures before. *)
Fixpoint validate_arches (seen : gset string) (arches : list string)
    : result catalog_error (list string) :=
  match arches with
  | [] => Ok []
  | arch :: arches =>
      _ ← validateArch arch;
      if decide (arch ∈ seen) then Err (ErrDuplicateArch arch)
      else rest ← validate_arches ({[arch]} ∪ seen) arches; Ok (arch :: rest)
  end.
Definition validateArches : list string → result catalog_error (list string) := validate_arches ∅.

Definition PhysicalName (r : Repository) (tier : Tier) : result catalog_error string :=
  _ ← ParseTier tier;
  if negb (r_tiered r) && negb (bool_decide (tier = TierStable)) then Err (ErrNotTiered (r_name r))
  else if decide (tier = TierStable) then Ok (r_name r)
  else Ok (r_name r +:+ "-" +:+ tier).

Definition tiers (r : Repository) : list Tier :=
  if r_tiered r then [TierStaging; TierTesting; TierStable] else [TierStable].

(** The error of [PhysicalName] is dropped, with the empty name. *)
Definition PhysicalNames (r : Repository) : list string :=
  map (λ tier, match PhysicalName r tier with Ok physical => physical | Err _ => "" end) (tiers r).

(** ** The catalog *)

Record ResolvedRepository := mkResolved { rr_Repository : Repository; Physical : string; rr_Tier : Tier }.

Record RepositoryCatalog := mkCatalog {
  logicalOrder : list string;
  physicalOrder : list string;
  logical : gmap string Repository;
  physical : gmap string ResolvedRepository;
}.
#[export] Instance eta_catalog : Eta RepositoryCatalog := λ c,
  mkCatalog c.(logicalOrder) c.(physicalOrder) c.(logical) c.(physical).

Definition addPhysical (repository : Repository) (c : RepositoryCatalog) (tier : Tier)
    : result catalog_error RepositoryCatalog :=
  p ← PhysicalName repository tier;
  match physical c !! p with
  | Some previous => Err (ErrCollision p (r_name (rr_Repository previous)) (r_name repository))
  | None => Ok (c <| physical ::= <[p := mkResolved repository p tier]> |>
                  <| physicalOrder ::= λ l, l ++ [p] |>)
  end.

Definition add (c : RepositoryCatalog) (repository : Repository) : result catalog_error RepositoryCatalog :=
  if decide (is_Some (logical c !! r_name repository)) then Err (ErrDuplicateLogical (r_name repository))
  else foldM (addPhysical repository)
         (c <| logical ::= <[r_name repository := repository]> |>
            <| logicalOrder ::= λ l, l ++ [r_name repository] |>)
         (tiers repository).

(** A nil catalog answers like an empty one. *)
Definition empty_catalog : RepositoryCatalog := mkCatalog [] [] ∅ ∅.

Definition Logical (c : RepositoryCatalog) (n : string) : option Repository := logical c !! n.
Definition Resolve (c : RepositoryCatalog) (n : string) : option ResolvedRepository := physical c !! n.

Definition DeclaredArches (c : RepositoryCatalog) (physical : string) : list string :=
  match Resolve c physical with Some resolved => r_arches (rr_Repository resolved) | None => [] end.

Definition AllowsNewArch (c : RepositoryCatalog) (physical : string) : bool :=
  match Resolve c physical with Some resolved => r_allowNewArch (rr_Repository resolved) | None => false end.

(** The physical name of the staging tier; the dropped error would leave it empty. *)
Definition PublishTarget (c : RepositoryCatalog) (n : string) : option string :=
  match Logical c n with
  | Some repository =>
      if r_tiered repository
      then Some (match PhysicalName repository TierStaging with Ok p => p | Err _ => "" end)
      else Some (r_name repository)
  | None => match Resolve c n with Some resolved => Some (Physical resolved) | None => None end
  end.

Definition UpstreamPhysicalNames (c : RepositoryCatalog) : list string :=
  filter (λ n, from_option (λ r, Enabled (r_upstream (rr_Repository r))) false (physical c !! n) = true)
    (physicalOrder c).

Section construction.
(** [url.Parse]: the scheme and the host of a URL, [None] for an error. *)
Context (url_parse : string → option (string * string)).

Definition validateUpstreamURL (field value : string) : result catalog_error unit :=
  match url_parse (ReplaceAll value "$arch" "x86_64") with
  | Some (scheme, host) =>
      if decide ((scheme ≠ "http" ∧ scheme ≠ "https") ∨ host = "") then Err (ErrUpstreamURL field value)
      else Ok tt
  | None => Err (ErrUpstreamURL field value)
  end.

Definition newUpstream (spec : UpstreamSpec) : result catalog_error Upstream :=
  if decide (DBURL spec = "") then
    if decide (FilesURL spec ≠ "") then Err ErrFilesURL else Ok (mkUpstream "" "")
  else
    _ ← validateUpstreamURL "db_url" (DBURL spec);
    _ ← (if decide (FilesURL spec ≠ "") then validateUpstreamURL "files_url" (FilesURL spec) else Ok tt);
    Ok (mkUpstream (DBURL spec) (FilesURL spec)).

Definition newRepository (defaultArches : list string) (spec : RepositorySpec)
    : result catalog_error Repository :=
  _ ← map_err ErrRepositoryName (ValidateName (spec_Name spec));
  let arches := if decide (spec_Arches spec = []) then defaultArches else spec_Arches spec in
  normalizedArches ← map_err (ErrInRepository (spec_Name spec)) (validateArches arches);
  upstream ← map_err (ErrInRepository (spec_Name spec)) (newUpstream (spec_Upstream spec));
  Ok (mkRepository (spec_Name spec) normalizedArches (spec_AllowNewArch spec) (spec_TrustedKeys spec)
        (spec_Tiered spec) (spec_PromotionKeepInSource spec) upstream).

Definition NewRepositoryCatalog (defaultArches : list string) (specs : list RepositorySpec)
    : result catalog_error RepositoryCatalog :=
  defaults ← map_err ErrDefaultArches (validateArches defaultArches);
  foldM (λ c spec, repository ← newRepository defaults spec; add c repository) empty_catalog specs.
End construction.

(** ** Lemmas *)

Lemma validate_arches_Ok seen arches l :
  validate_arches seen arches = Ok l ↔
  l = arches ∧ Forall (λ a, validateArch a = Ok tt) arches ∧ NoDup arches ∧ Forall (λ a, a ∉ seen) arches.
Proof.
  revert seen l. induction arches as [|a arches IH]; intros seen l; simpl.
  { split; [intros [= <-]|by intros (-> & _)]. split_and!; try done; constructor. }
  rewrite bind_Ok. setoid_rewrite Forall_cons. rewrite NoDup_cons. split.
  - intros ([] & Ha & H). case_decide; [done|].
    apply bind_Ok in H as (rest & (-> & Hv & Hnd & Hs)%IH & [= <-]). split_and!; try done.
    + intros Hin. rewrite Forall_forall in Hs. apply (Hs a Hin). set_solver.
    + eapply Forall_impl; [exact Hs|]. set_solver.
  - intros (-> & [Ha Hv] & [Hn Hnd] & [Hna Hs]). exists tt. split; [done|].
    rewrite decide_False by done. apply bind_Ok. exists arches. split; [|done].
    apply IH. split_and!; try done. apply Forall_forall. intros x Hx.
    rewrite Forall_forall in Hs. specialize (Hs x Hx). set_solver.
Qed.

Lemma validateArches_Ok arches l :
  validateArches arches = Ok l ↔ l = arches ∧ Forall (λ a, validateArch a = Ok tt) arches ∧ NoDup arches.
Proof.
  unfold validateArches. rewrite validate_arches_Ok. split; [tauto|]. intros (-> & ? & ?).
  split_and!; try done. apply Forall_true. set_solver.
Qed.

Lemma ParseTier_Ok value t :
  ParseTier value = Ok t ↔ t = value ∧ (value = TierStaging ∨ value = TierTesting ∨ value = TierStable).
Proof. unfold ParseTier. case_decide; naive_solver. Qed.

(** A repository has a physical name exactly for its tiers. *)
Lemma PhysicalName_Ok r t p :
  PhysicalName r t = Ok p ↔
  t ∈ tiers r ∧ p = if decide (t = TierStable) then r_name r else r_name r +:+ "-" +:+ t.
Proof.
  unfold PhysicalName. rewrite bind_Ok. setoid_rewrite ParseTier_Ok. unfold tiers. split.
  - intros (? & [-> Ht] & H). destruct (r_tiered r) eqn:E; simpl in H.
    + destruct Ht as [->|[->| ->]]; injection H as <-; (split; [|done]); apply (bool_decide_eq_true_1 _); reflexivity.
    + destruct Ht as [->|[->| ->]]; try discriminate H. injection H as <-. split; [constructor|done].
  - intros [Ht ->]. exists t. destruct (r_tiered r) eqn:E; simpl.
    + rewrite !elem_of_cons, elem_of_nil in Ht. destruct Ht as [->|[->|[->|[]]]]; auto.
    + apply list_elem_of_singleton in Ht as ->. auto.
Qed.

(** Every tier of a repository has its name. *)
Lemma PhysicalNames_eq r :
  PhysicalNames r = if r_tiered r then [r_name r +:+ "-staging"; r_name r +:+ "-testing"; r_name r]
                    else [r_name r].
Proof. unfold PhysicalNames, tiers, PhysicalName. by destruct (r_tiered r). Qed.

Lemma PhysicalName_tiers r : Forall2 (λ t p, PhysicalName r t = Ok p) (tiers r) (PhysicalNames r).
Proof.
  rewrite PhysicalNames_eq. unfold tiers, PhysicalName. destruct (r_tiered r) eqn:E; repeat constructor; by rewrite E.
Qed.

Lemma NoDup_PhysicalNames r : NoDup (PhysicalNames r).
Proof.
  assert (∀ s, s ≠ "" → r_name r +:+ s ≠ r_name r) as Hne.
  { intros s Hs E%(f_equal String.length). rewrite length_str_app in E. destruct s; [done|]. simpl in E. lia. }
  rewrite PhysicalNames_eq. destruct (r_tiered r); [|apply NoDup_singleton].
  rewrite !NoDup_cons, !elem_of_cons, !elem_of_nil. split_and!.
  - intros [E|[E|[]]]; [by apply (inj (String.append _)) in E|by apply Hne in E].
  - intros [E|[]]. by apply Hne in E.
  - tauto.
  - apply NoDup_nil_2.
Qed.

(** A physical name is a valid repository name. *)
Lemma PhysicalName_valid r t p :
  ValidateName (r_name r) = Ok tt → PhysicalName r t = Ok p → ValidateName p = Ok tt.
Proof.
  intros Hv [Ht ->]%PhysicalName_Ok. case_decide as Hs; [done|].
  revert Hv. unfold ValidateName. case_decide; [done|]. case_decide; [done|].
  destruct (all_bytes _ (r_name r)) eqn:Hb; [|done]. intros _.
  assert (all_bytes (λ c, isASCIIAlphaNumeric c || occurs c "._-") ("-" +:+ t) = true
    ∧ (2 < String.length ("-" +:+ t))%nat) as [Hsuf Hlen].
  { revert t Ht Hs. unfold tiers. destruct (r_tiered r); intros t; rewrite !elem_of_cons, elem_of_nil;
      intros [->|Ht] Hs; try done; [split; [reflexivity|simpl; lia]|].
    destruct Ht as [->|[->|[]]]; [|done]. split; [reflexivity|simpl; lia]. }
  rewrite (all_bytes_app _ (r_name r)), Hb, Hsuf.
  assert (2 < String.length (r_name r +:+ ("-" +:+ t)))%nat by (rewrite length_str_app; lia).
  rewrite !decide_False; [done|intros [E|E]; rewrite E in *; simpl in *; lia|intros E; rewrite E in *; simpl in *; lia].
Qed.

(** The loop over the tiers succeeds exactly when their names are new and different, and
    adds one entry for each. *)
Lemma addPhysicals r ts ps c :
  Forall2 (λ t p, PhysicalName r t = Ok p) ts ps →
  (is_ok (foldM (addPhysical r) c ts) = true ↔ NoDup ps ∧ Forall (λ p, physical c !! p = None) ps) ∧
  ∀ c', foldM (addPhysical r) c ts = Ok c' →
    logical c' = logical c ∧ logicalOrder c' = logicalOrder c ∧ physicalOrder c' = physicalOrder c ++ ps ∧
    ∀ p x, physical c' !! p = Some x ↔
      physical c !! p = Some x ∨ ∃ t, t ∈ ts ∧ PhysicalName r t = Ok p ∧ x = mkResolved r p t.
Proof.
  intros H. revert c. induction H as [|t p ts ps Htp _ IH]; intros c.
  { split; [split; [split; [apply NoDup_nil_2|by apply Forall_nil]|done]|].
    intros c' [= <-]. rewrite app_nil_r. split_and!; try done. set_solver. }
  simpl. unfold addPhysical at 1 3. rewrite Htp. simpl. destruct (physical c !! p) as [x|] eqn:E.
  { split; [|done]. split; [done|]. intros [_ [Hp _]%Forall_cons]. congruence. }
  set (c1 := _ <| physicalOrder ::= _ |>). specialize (IH c1) as [IH1 IH2].
  assert (∀ q, physical c1 !! q = if decide (q = p) then Some (mkResolved r p t) else physical c !! q) as Hc1.
  { intros q. unfold c1. cbn. case_decide as Hq; [subst; apply lookup_insert_eq|by apply lookup_insert_ne]. }
  split.
  - rewrite IH1, NoDup_cons, Forall_cons, !Forall_forall. split.
    + intros [Hnd Hf]. split_and!; try done.
      * intros Hin. specialize (Hf p Hin). rewrite Hc1, decide_True in Hf by done. done.
      * intros q Hq. specialize (Hf q Hq). rewrite Hc1 in Hf. by case_decide.
    + intros ([Hn Hnd] & _ & Hf). split; [done|]. intros q Hq.
      rewrite Hc1, decide_False by (intros ->; done). by apply Hf.
  - intros c' Hc'. apply IH2 in Hc' as (H1 & H2 & H3 & H4). rewrite H1, H2, H3. cbn.
    split_and!; [done..|by rewrite <-app_assoc|]. intros q x. rewrite H4, Hc1. case_decide as Hq.
    + subst q. split.
      * intros [[= <-]|(t' & Ht' & Hpt & ->)]; right; [exists t|exists t']; split_and!; try done; set_solver.
      * intros [Hx|(t' & Ht' & Hpt & ->)]; [congruence|]. apply elem_of_cons in Ht' as [->|Ht']; [by left|].
        right. eauto.
    + split.
      * intros [Hx|(t' & Ht' & ?)]; [by left|right]. exists t'. split; [set_solver|done].
      * intros [Hx|(t' & Ht' & Hpt & ->)]; [by left|]. apply elem_of_cons in Ht' as [->|Ht']; [congruence|].
        right. eauto.
Qed.

(** The catalog of a list of policies. *)
Record represents (c : RepositoryCatalog) (rs : list Repository) : Prop := {
  rep_logicalOrder : logicalOrder c = map r_name rs;
  rep_physicalOrder : physicalOrder c = concat (map PhysicalNames rs);
  rep_logical n r : logical c !! n = Some r ↔ r ∈ rs ∧ r_name r = n;
  rep_physical p x : physical c !! p = Some x ↔
    ∃ r t, r ∈ rs ∧ PhysicalName r t = Ok p ∧ x = mkResolved r p t;
}.

Lemma elem_of_PhysicalNames r p : p ∈ PhysicalNames r ↔ ∃ t, PhysicalName r t = Ok p.
Proof.
  pose proof (PhysicalName_tiers r) as H. split.
  - intros (i & Hi)%list_elem_of_lookup. destruct (Forall2_lookup_r _ _ _ _ _ H Hi) as (t & _ & Ht). eauto.
  - intros (t & Ht). pose proof Ht as [Hin _]%PhysicalName_Ok.
    apply list_elem_of_lookup in Hin as (i & Hi).
    destruct (Forall2_lookup_l _ _ _ _ _ H Hi) as (p' & Hp' & E). rewrite Ht in E. injection E as ->.
    by eapply list_elem_of_lookup_2.
Qed.

Lemma elem_of_physical c rs p :
  represents c rs → p ∈ physicalOrder c ↔ is_Some (physical c !! p).
Proof.
  intros H. rewrite (rep_physicalOrder _ _ H), list_elem_of_In, in_concat. split.
  - intros (l & (r & <- & Hr)%in_map_iff & Hp). apply list_elem_of_In, elem_of_PhysicalNames in Hp as (t & Ht).
    exists (mkResolved r p t). apply (rep_physical _ _ H). exists r, t. by rewrite list_elem_of_In.
  - intros (x & (r & t & Hr & Ht & _)%(rep_physical _ _ H)). exists (PhysicalNames r).
    split; [apply in_map_iff; exists r; by rewrite <-list_elem_of_In|].
    apply list_elem_of_In, elem_of_PhysicalNames. eauto.
Qed.

Lemma r_name_PhysicalNames r : r_name r ∈ PhysicalNames r.
Proof.
  apply elem_of_PhysicalNames. exists TierStable. apply PhysicalName_Ok. split; [|done].
  unfold tiers. destruct (r_tiered r); apply (bool_decide_eq_true_1 _); reflexivity.
Qed.

(** Adding a policy: refused exactly when one of its names is taken. *)
Lemma add_represents c rs r :
  represents c rs →
  (is_ok (add c r) = true ↔ ∀ p, p ∈ PhysicalNames r → p ∉ physicalOrder c) ∧
  ∀ c', add c r = Ok c' → represents c' (rs ++ [r]).
Proof.
  intros H. unfold add. case_decide as Hdup.
  { destruct Hdup as (r' & [Hr' Hn]%(rep_logical _ _ H)). split; [|done]. split; [done|]. intros Hno.
    destruct (Hno (r_name r) (r_name_PhysicalNames r)).
    rewrite (rep_physicalOrder _ _ H), list_elem_of_In, in_concat. exists (PhysicalNames r').
    split; [apply in_map_iff; exists r'; by rewrite <-list_elem_of_In|].
    rewrite <-Hn. by apply list_elem_of_In, r_name_PhysicalNames. }
  apply eq_None_not_Some in Hdup.
  set (c1 := _ <| logicalOrder ::= _ |>).
  destruct (addPhysicals r _ _ c1 (PhysicalName_tiers r)) as [H1 H2]. split.
  - rewrite H1, Forall_forall. split.
    + intros [_ Hf] p Hp Hin. apply (elem_of_physical _ _ _ H) in Hin as [x Hx].
      specialize (Hf p Hp). unfold c1 in Hf. cbn in Hf. congruence.
    + intros Hno. split; [apply NoDup_PhysicalNames|]. intros p Hp. unfold c1. cbn.
      apply eq_None_not_Some. rewrite <-(elem_of_physical _ _ _ H). by apply Hno.
  - intros c' (E1 & E2 & E3 & E4)%H2. split.
    + rewrite E2, map_app. unfold c1. cbn. by rewrite (rep_logicalOrder _ _ H).
    + rewrite E3, map_app, concat_app. unfold c1. cbn. by rewrite (rep_physicalOrder _ _ H), app_nil_r.
    + intros n r'. rewrite E1. unfold c1. cbn. setoid_rewrite elem_of_app. setoid_rewrite list_elem_of_singleton.
      destruct (decide (n = r_name r)) as [->|Hn].
      * rewrite lookup_insert_eq. split; [intros [= <-]; auto|]. intros [[Hr'| ->] Hn]; [|done].
        assert (logical c !! r_name r = Some r') by (apply (rep_logical _ _ H); auto). congruence.
      * rewrite lookup_insert_ne by done. rewrite (rep_logical _ _ H). naive_solver.
    + intros p x. rewrite E4. unfold c1. cbn. rewrite (rep_physical _ _ H). split.
      * intros [(r' & t & ? & ? & ->)|(t & ? & ? & ->)]; [exists r', t|exists r, t]; split_and!; try done; set_solver.
      * intros (r' & t & [Hr'|Hr']%elem_of_app & Ht & ->); [left; eauto 6|].
        apply list_elem_of_singleton in Hr' as ->. right. exists t. split_and!; try done.
        by apply PhysicalName_Ok in Ht as [? _].
Qed.

Lemma represents_empty : represents empty_catalog [].
Proof.
  split; try done.
  - intros n r. split; [done|]. by intros [?%elem_of_nil _].
  - intros p x. split; [done|]. by intros (? & ? & ?%elem_of_nil & _).
Qed.

Section theorems.
Context (url_parse : string → option (string * string)).

(** The policies a configuration describes. *)
Definition policies (defaultArches : list string) (specs : list RepositorySpec) (rs : list Repository) : Prop :=
  validateArches defaultArches = Ok defaultArches ∧
  Forall2 (λ spec r, newRepository url_parse defaultArches spec = Ok r) specs rs.

Lemma build_catalog ds specs c rs0 :
  represents c rs0 → NoDup (physicalOrder c) →
  let build := foldM (λ c spec, repository ← newRepository url_parse ds spec; add c repository) c specs in
  (is_ok build = true ↔ ∃ rs, Forall2 (λ spec r, newRepository url_parse ds spec = Ok r) specs rs ∧
     NoDup (concat (map PhysicalNames (rs0 ++ rs)))) ∧
  ∀ c', build = Ok c' → ∃ rs, Forall2 (λ spec r, newRepository url_parse ds spec = Ok r) specs rs ∧
     represents c' (rs0 ++ rs) ∧ NoDup (physicalOrder c').
Proof.
  revert c rs0. induction specs as [|spec specs IH]; intros c rs0 H Hnd; simpl.
  { split; [split; [intros _|done]|intros c' [= <-]]; exists []; rewrite app_nil_r; [|done].
    by rewrite <-(rep_physicalOrder _ _ H). }
  destruct (newRepository url_parse ds spec) as [r|e] eqn:Er; simpl.
  2: { split; [|done]. split; [done|]. intros (rs & Hf & _). inversion Hf; congruence. }
  destruct (add_represents c rs0 r H) as [Hadd Hrep].
  destruct (add c r) as [c1|e] eqn:Ea; simpl.
  - specialize (Hrep c1 eq_refl). assert (NoDup (physicalOrder c1)) as Hnd1.
    { rewrite (rep_physicalOrder _ _ Hrep), map_app, concat_app. simpl. rewrite app_nil_r.
      rewrite (rep_physicalOrder _ _ H) in Hnd, Hadd. apply NoDup_app. split_and!; [done| |apply NoDup_PhysicalNames].
      intros p Hp1 Hp2. by apply (proj1 Hadd eq_refl p Hp2). }
    destruct (IH c1 (rs0 ++ [r]) Hrep Hnd1) as [IH1 IH2]. split.
    + rewrite IH1. setoid_rewrite <-app_assoc. split.
      * intros (rs & Hf & Hn). exists (r :: rs). split; [by constructor|done].
      * intros (rs & Hf & Hn). inversion Hf as [|? r' ? rs' Hr' Hf']; subst.
        rewrite Er in Hr'. injection Hr' as <-. by exists rs'.
    + intros c' Hc'. destruct (IH2 c' Hc') as (rs & Hf & Hr & Hn). exists (r :: rs).
      rewrite <-app_assoc in Hr. split_and!; [by constructor|done..].
  - split; [|done]. split; [done|]. intros (rs & Hf & Hn).
    inversion Hf as [|? r' ? rs' Hr' Hf']; subst. rewrite Er in Hr'. injection Hr' as <-.
    exfalso. assert (is_ok (Err (A := RepositoryCatalog) e) = true); [|done]. apply Hadd.
    intros p Hp Hin. rewrite map_app, concat_app in Hn. apply NoDup_app in Hn as (_ & Hn & _).
    rewrite (rep_physicalOrder _ _ H) in Hin. apply (Hn p Hin). simpl. apply elem_of_app. by left.
Qed.

(** The catalog of a configuration. It is built exactly when every policy is valid and
    no two tiers, of the same or of different repositories, would share a physical
    repository; then it indexes exactly these policies and their tiers in the order of
    the configuration, each physical name belongs to exactly one tier of one policy, and
    every physical name is a valid repository name. *)
Theorem NewRepositoryCatalog_spec ds specs :
  (is_ok (NewRepositoryCatalog url_parse ds specs) = true ↔
     ∃ rs, policies ds specs rs ∧ NoDup (concat (map PhysicalNames rs))) ∧
  ∀ c, NewRepositoryCatalog url_parse ds specs = Ok c → ∃ rs, policies ds specs rs ∧
    logicalOrder c = map r_name rs ∧ physicalOrder c = concat (map PhysicalNames rs) ∧ NoDup (physicalOrder c) ∧
    (∀ n r, Logical c n = Some r ↔ r ∈ rs ∧ r_name r = n) ∧
    (∀ p x, Resolve c p = Some x ↔ ∃ r t, r ∈ rs ∧ PhysicalName r t = Ok p ∧ x = mkResolved r p t) ∧
    Forall (λ p, ValidateName p = Ok tt) (physicalOrder c).
Proof.
  unfold NewRepositoryCatalog, policies.
  destruct (validateArches ds) as [ds'|e] eqn:Ed; simpl.
  2: { split; [|done]. split; [done|]. by intros (rs & [? _] & _). }
  pose proof Ed as (-> & Hv & Hnda)%validateArches_Ok.
  destruct (build_catalog ds specs empty_catalog [] represents_empty (NoDup_nil_2)) as [H1 H2]. split.
  - rewrite H1. simpl. naive_solver.
  - intros c Hc. destruct (H2 c Hc) as (rs & Hf & H & Hn). exists rs. simpl in H. destruct H as [Hlo Hpo Hl Hp].
    split_and!; try done. rewrite Forall_forall. intros p Hin.
    rewrite Hpo, list_elem_of_In, in_concat in Hin.
    destruct Hin as (l & (r & <- & Hr)%in_map_iff & (t & Ht)%list_elem_of_In%elem_of_PhysicalNames).
    eapply PhysicalName_valid; [|exact Ht].
    apply list_elem_of_In, list_elem_of_lookup in Hr as (i & Hi).
    destruct (Forall2_lookup_r _ _ _ _ _ Hf Hi) as (spec & _ & Hs). unfold newRepository in Hs.
    destruct (ValidateName (spec_Name spec)) as [[]|] eqn:Hvn; [|done]. simpl in Hs.
    apply bind_Ok in Hs as (? & _ & Hs). apply bind_Ok in Hs as (? & _ & [= <-]). done.
Qed.

(** Where an upload goes: a logical name leads to the staging tier of a tiered policy
    and to the policy's own repository otherwise, so that nothing is published to a later
    tier by its logical name; any other name leads to the tier it addresses, and only
    configured names are accepted. *)
Theorem PublishTarget_spec ds specs c :
  NewRepositoryCatalog url_parse ds specs = Ok c →
  ∀ n, match Logical c n with
       | Some r => ∃ p, PublishTarget c n = Some p ∧
           Resolve c p = Some (mkResolved r p (if r_tiered r then TierStaging else TierStable))
       | None => match Resolve c n with
                 | Some x => PublishTarget c n = Some n ∧ Physical x = n ∧
                     (r_tiered (rr_Repository x) = true ∧ rr_Tier x ≠ TierStable)
                 | None => PublishTarget c n = None
                 end
       end.
Proof.
  unfold NewRepositoryCatalog. destruct (validateArches ds) as [ds'|e]; [|done]. simpl. intros Hc n.
  destruct (build_catalog ds' specs empty_catalog [] represents_empty NoDup_nil_2) as [_ H2].
  destruct (H2 c Hc) as (rs & _ & H & _). simpl in H. unfold PublishTarget, Logical, Resolve.
  destruct (logical c !! n) as [r|] eqn:El.
  - apply (rep_logical _ _ H) in El as [Hr Hn].
    set (t := if r_tiered r then TierStaging else TierStable).
    assert (∃ p, PhysicalName r t = Ok p) as [p Hp].
    { unfold PhysicalName, t. destruct (r_tiered r) eqn:E; simpl; eauto. }
    exists p. split.
    + unfold t in Hp. destruct (r_tiered r) eqn:E; [by rewrite Hp|].
      by apply PhysicalName_Ok in Hp as [_ ->].
    + apply (rep_physical _ _ H). eauto.
  - destruct (physical c !! n) as [x|] eqn:Ep; [|done].
    pose proof Ep as (r & t & Hr & Ht & ->)%(rep_physical _ _ H). simpl.
    apply PhysicalName_Ok in Ht as [Ht Hp]. split_and!; [done|done| |].
    + unfold tiers in Ht. destruct (r_tiered r) eqn:E; [done|]. apply list_elem_of_singleton in Ht as ->.
      assert (logical c !! n = Some r) by (apply (rep_logical _ _ H); auto). congruence.
    + intros ->. assert (logical c !! n = Some r) by (apply (rep_logical _ _ H); auto). congruence.
Qed.
End theorems.

(** ** A configuration *)

Definition plain_spec (n : string) (tiered : bool) : RepositorySpec :=
  mkSpec n [] false [] tiered false (mkUpstreamSpec "" "").

Definition example_specs : list RepositorySpec := [plain_spec "core" true; plain_spec "aur" false].
Definition example_catalog : RepositoryCatalog :=
  match NewRepositoryCatalog (λ _, None) ["x86_64"] example_specs with Ok c => c | Err _ => empty_catalog end.

Lemma NewRepositoryCatalog_example :
  NewRepositoryCatalog (λ _, None) ["x86_64"] example_specs = Ok example_catalog.
Proof. vm_compute. reflexivity. Qed.

(** A logical repository may not take the name of another one's tier. *)
Example staging_name_collides :
  NewRepositoryCatalog (λ _, None) ["x86_64"] [plain_spec "core" true; plain_spec "core-staging" false]
  = Err (ErrCollision "core-staging" "core" "core-staging").
Proof. vm_compute. reflexivity. Qed.

Lemma PublishTarget_spec_witness :
  PublishTarget example_catalog "core" = Some "core-staging"
  ∧ ∃ p r, PublishTarget example_catalog "core" = Some p
      ∧ Resolve example_catalog p = Some (mkResolved r p TierStaging).
Proof.
  split; [vm_compute; reflexivity|].
  pose proof (PublishTarget_spec (λ _, None) ["x86_64"] example_specs example_catalog
    NewRepositoryCatalog_example "core") as H.
  destruct (Logical example_catalog "core") as [r|] eqn:E.
  - destruct H as (p & H1 & H2). exists p, r. split; [exact H1|]. rewrite H2.
    vm_compute in E. injection E as <-. reflexivity.
  - vm_compute in E. discriminate E.
Defined.
