(* ===== verification/Ports.v ===== *)
(** * The ports of the ayato services (ayato/service/ports.go)

    A service is a program over the interfaces of ports.go: its calls of the package
    repository and of the name store are the constructors of [Port.op], and a [comp] is
    a program of such calls, any of which may return an error.  What a program does is
    its log, the list of its calls with their results; [wpc] is the weakest precondition of
    a property of result and log, for every answer of the ports. *)

From S2P Require Import Prelude GoStrings Artifact Package Dbwriter Repo Dbtool Blob RepoDB RepoDBSpec.

Record PackageFileEntry := mkEntry { pe_Arch : string; pe_Name : string; pe_FileName : string }.

Module Port.
(** [BinaryRepository], [NameStore], [SignerRepository], the temporary files and the clock. *)
Inductive op : Type → Type :=
| Arches (repo : string) : op (list string)
| Files (repo arch : string) : op (list string)
| FilesWithMeta (repo arch : string) : op (list FileInfo)
| RepoNames : op (list string)
| VerifyPkgRepo (repo : string) : op unit
| FetchFile (repo arch file : string) : op string
| RemoteRepo (repo arch : string) : op RemoteRepo
| StoreFileImmutable (repo arch : string) (file : SeekFile) : op bool
| RepoAddBatch (repo arch : string) (items : list RepoAddItem) (signed : bool) : op unit
| RepoRemove (repo arch pkg : string) (signed : bool) : op unit
| RepoRemoveIfMatch (repo arch pkg version file : string) (signed : bool) : op unit
| ReconcileDB (repo arch : string) (signed : bool) : op unit
| InitArch (repo arch : string) (signed : bool) : op unit
| BackfillSignatures (repo arch : string) : op unit
| RebuildMerged (repo arch : string) (signed : bool) : op unit
| DeleteFile (repo arch file : string) : op unit
| DeleteOrphanIfUnchanged (repo arch : string) (expected : FileInfo) (cutoff : Z) : op bool
| AcquirePublicationLease (repo : string) : op unit
| ReleasePublicationLease (repo : string) : op unit
| PackageFile (repo arch name : string) : op string
| StorePackageFile (repo arch name file : string) : op unit
| StorePackageFiles (repo : string) (entries : list PackageFileEntry) : op unit
| DeletePackageFileEntry (repo arch name : string) : op unit
| ListSigners : op (list string)
| AddSigner (fingerprint armored : string) : op unit
| DeleteSigner (fingerprint : string) : op unit
| Spool (data : string) : op unit
| Now : op Z
| ContextErr : op unit.
End Port.

(** The calls that change the repository, or whose result a decision rests on. *)
Inductive event :=
| EvRead (repo arch : string) (r : result error RemoteRepo)
| EvFetch (repo arch file : string) (r : result error string)
| EvStore (repo arch : string) (file : SeekFile) (r : result error bool)
| EvPublish (repo arch : string) (items : list RepoAddItem) (r : result error unit)
| EvRemove (repo arch pkg : string) (r : result error unit)
| EvRemoveIfMatch (repo arch pkg version file : string) (r : result error unit)
| EvReconcile (repo arch : string) (r : result error unit)
| EvInit (repo arch : string) (r : result error unit)
| EvBackfill (repo arch : string) (r : result error unit)
| EvMerge (repo arch : string) (r : result error unit)
| EvDelete (repo arch file : string) (r : result error unit)
| EvDeleteOrphan (repo arch : string) (info : FileInfo) (cutoff : Z) (r : result error bool)
| EvLease (repo : string) (r : result error unit)
| EvRelease (repo : string)
| EvNames (repo : string) (entries : list PackageFileEntry) (r : result error unit)
| EvUnname (repo arch name : string) (r : result error unit)
| EvSigner (fingerprint armored : string) (r : result error unit)
| EvUnsigner (fingerprint : string) (r : result error unit)
| EvArches (repo : string) (r : result error (list string))
| EvList (repo arch : string) (r : result error (list FileInfo))
| EvQuiet.

Definition event_of {X} (c : Port.op X) : result error X → event :=
  match c in Port.op X return result error X → event with
  | Port.RemoteRepo repo arch => EvRead repo arch
  | Port.FetchFile repo arch file => EvFetch repo arch file
  | Port.StoreFileImmutable repo arch file => EvStore repo arch file
  | Port.RepoAddBatch repo arch items _ => EvPublish repo arch items
  | Port.RepoRemove repo arch pkg _ => EvRemove repo arch pkg
  | Port.RepoRemoveIfMatch repo arch pkg version file _ => EvRemoveIfMatch repo arch pkg version file
  | Port.ReconcileDB repo arch _ => EvReconcile repo arch
  | Port.InitArch repo arch _ => EvInit repo arch
  | Port.BackfillSignatures repo arch => EvBackfill repo arch
  | Port.RebuildMerged repo arch _ => EvMerge repo arch
  | Port.DeleteFile repo arch file => EvDelete repo arch file
  | Port.DeleteOrphanIfUnchanged repo arch info cutoff => EvDeleteOrphan repo arch info cutoff
  | Port.AcquirePublicationLease repo => EvLease repo
  | Port.ReleasePublicationLease repo => λ _, EvRelease repo
  | Port.StorePackageFile repo arch name file => EvNames repo [mkEntry arch name file]
  | Port.StorePackageFiles repo entries => EvNames repo entries
  | Port.DeletePackageFileEntry repo arch name => EvUnname repo arch name
  | Port.AddSigner fingerprint armored => EvSigner fingerprint armored
  | Port.DeleteSigner fingerprint => EvUnsigner fingerprint
  | Port.Arches repo => EvArches repo
  | Port.FilesWithMeta repo arch => EvList repo arch
  | _ => λ _, EvQuiet
  end.

(** ** Programs *)

Inductive comp (A : Type) : Type :=
| Ret (r : result error A)
| Call {X : Type} (c : Port.op X) (k : result error X → comp A).
Arguments Ret {A} r.
Arguments Call {A X} c k.

Fixpoint bindc {A B} (m : comp A) (f : A → comp B) : comp B :=
  match m with
  | Ret (Ok a) => f a
  | Ret (Err e) => Ret (Err e)
  | Call c k => Call c (λ r, bindc (k r) f)
  end.

#[export] Instance comp_ret : MRet comp := λ A a, Ret (Ok a).
#[export] Instance comp_bind : MBind comp := λ A B f m, bindc m f.

Definition call {X} (c : Port.op X) : comp X := Call c Ret.
(** A call whose error is looked at. *)
Definition attempt {X} (c : Port.op X) : comp (result error X) := Call c (λ r, Ret (Ok r)).
Definition fail {A} (e : error) : comp A := Ret (Err e).
Definition ofResult {A} (r : result error A) : comp A := Ret r.

Fixpoint catch {A} (m : comp A) : comp (result error A) :=
  match m with
  | Ret r => Ret (Ok r)
  | Call c k => Call c (λ r, catch (k r))
  end.

Fixpoint wrapc {A} (f : error → error) (m : comp A) : comp A :=
  match m with
  | Ret r => Ret (map_err f r)
  | Call c k => Call c (λ r, wrapc f (k r))
  end.

(** A [for] loop. *)
Fixpoint comp_fold {A S} (f : S → A → comp S) (s : S) (l : list A) : comp S :=
  match l with
  | [] => mret s
  | a :: l => s ← f s a; comp_fold f s l
  end.

(** ** Running a program *)

(** An implementation of the ports over the shared store. *)
Class Ports := perform : ∀ X, Port.op X → prog X.
#[global] Arguments perform {_} {X} c.

Fixpoint run `{Ports} {A} (m : comp A) : prog A :=
  match m with
  | Ret r => lift r
  | Call c k => r ← try (perform c); run (k r)
  end.

(** ** The logic of logs *)

Fixpoint wpc {A} (m : comp A) (Q : result error A → list event → Prop) : Prop :=
  match m with
  | Ret r => Q r []
  | Call c k => ∀ r, wpc (k r) (λ r' log, Q r' (event_of c r :: log))
  end.

Section wpc.
Context {A B : Type}.
Implicit Types (m : comp A) (Q : result error A → list event → Prop).

Lemma wpc_mono m Q Q' : wpc m Q → (∀ r log, Q r log → Q' r log) → wpc m Q'.
Proof.
  revert Q Q'. induction m as [r|X c k IH]; intros Q Q' Hm HQ; simpl in *; [auto|].
  intros r. eapply IH; [apply Hm|]. intros r' log. apply HQ.
Qed.

Lemma wpc_bind m (f : A → comp B) (Q : result error B → list event → Prop) :
  wpc m (λ r log, match r with
    | Ok a => wpc (f a) (λ r' log', Q r' (log ++ log'))
    | Err e => Q (Err e) log
    end) → wpc (m ≫= f) Q.
Proof.
  change (m ≫= f) with (bindc m f).
  revert Q. induction m as [[a|e]|X c k IH]; intros Q Hm; simpl in *; [done..|].
  intros r. apply IH. eapply wpc_mono; [apply Hm|]. intros [a|e] log; done.
Qed.

Lemma wpc_catch m (Q : result error (result error A) → list event → Prop) :
  wpc m (λ r, Q (Ok r)) → wpc (catch m) Q.
Proof. revert Q. induction m as [r|X c k IH]; intros Q Hm; simpl in *; [done|]. intros r. by apply IH. Qed.

Lemma wpc_wrapc f m Q : wpc m (λ r, Q (map_err f r)) → wpc (wrapc f m) Q.
Proof. revert Q. induction m as [r|X c k IH]; intros Q Hm; simpl in *; [done|]. intros r. by apply IH. Qed.

End wpc.

(** An invariant of a loop; an error of the body ends the loop. *)
Lemma wpc_fold {B S} (f : S → B → comp S) (I : S → list event → Prop) (E : error → list event → Prop) l s log0 :
  I s log0 →
  (∀ s b log, b ∈ l → I s log → wpc (f s b) (λ r log', match r with
     | Ok s' => I s' (log ++ log') | Err e => E e (log ++ log') end)) →
  wpc (comp_fold f s l) (λ r log, match r with
    | Ok s' => I s' (log0 ++ log) | Err e => E e (log0 ++ log) end).
Proof.
  revert s log0. induction l as [|b l IH]; intros s log0 HI Hf; simpl.
  { by rewrite app_nil_r. }
  apply wpc_bind. eapply wpc_mono; [apply (Hf s b log0); [constructor|done]|].
  intros [s'|e] log H; [|done]. simpl in H. eapply wpc_mono; [apply (IH s' (log0 ++ log) H)|].
  - intros s2 b2 log2 Hb2. apply Hf. by constructor.
  - intros [s2|e] log'; by rewrite (assoc (++)).
Qed.

(** The run against ports that always give the same answers. *)
Fixpoint exec {A} (answer : ∀ X, Port.op X → result error X) (m : comp A) : result error A * list event :=
  match m with
  | Ret r => (r, [])
  | Call c k => let '(r, log) := exec answer (k (answer _ c)) in (r, event_of c (answer _ c) :: log)
  end.

Lemma wpc_exec {A} answer (m : comp A) Q : wpc m Q → Q (exec answer m).1 (exec answer m).2.
Proof.
  revert Q. induction m as [r|X c k IH]; intros Q Hm; simpl in *; [done|].
  specialize (IH _ _ (Hm (answer _ c))). destruct (exec _ _). exact IH.
Qed.

(** Ports for examples: the architectures, the listed packages and the objects of every
    repository, and whether names can be written; every change succeeds. *)
Record view := mkView {
  v_arches : list string;
  v_remote : string → string → result error RemoteRepo;
  v_fetch : string → result error string;
  v_names : result error unit;
}.

Definition fixed_answer (v : view) : ∀ X, Port.op X → result error X := λ X c,
  match c in Port.op X return result error X with
  | Port.Arches _ => Ok v.(v_arches) | Port.Files _ _ => Ok [] | Port.FilesWithMeta _ _ => Ok []
  | Port.RepoNames => Ok ["core"; "core-testing"; "core-staging"] | Port.VerifyPkgRepo _ => Ok tt
  | Port.FetchFile _ _ f => v.(v_fetch) f | Port.RemoteRepo repo arch => v.(v_remote) repo arch
  | Port.StoreFileImmutable _ _ _ => Ok true
  | Port.RepoAddBatch _ _ _ _ => Ok tt | Port.RepoRemove _ _ _ _ => Ok tt
  | Port.RepoRemoveIfMatch _ _ _ _ _ _ => Ok tt | Port.ReconcileDB _ _ _ => Ok tt
  | Port.InitArch _ _ _ => Ok tt | Port.BackfillSignatures _ _ => Ok tt | Port.RebuildMerged _ _ _ => Ok tt
  | Port.DeleteFile _ _ _ => Ok tt | Port.DeleteOrphanIfUnchanged _ _ _ _ => Ok true
  | Port.AcquirePublicationLease _ => Ok tt | Port.ReleasePublicationLease _ => Ok tt
  | Port.PackageFile _ _ _ => Ok "" | Port.StorePackageFile _ _ _ _ => Ok tt
  | Port.StorePackageFiles _ _ => v.(v_names) | Port.DeletePackageFileEntry _ _ _ => Ok tt
  | Port.ListSigners => Ok [] | Port.AddSigner _ _ => Ok tt | Port.DeleteSigner _ => Ok tt
  | Port.Spool _ => Ok tt | Port.Now => Ok 0%Z | Port.ContextErr => Ok tt
  end.

(** ** What an implementation promises *)

(** [explains e ws]: a call with this result made at most these changes. *)
Class Contract `{Ports} := {
  explains : event → list write → Prop;
  contract {X} (c : Port.op X) w : wp (perform c) w (λ r ws _, explains (event_of c r) ws);
}.

(** Changes that the calls of a log made, one after another. *)
Inductive explained `{Contract} : list event → list write → Prop :=
| explained_nil : explained [] []
| explained_cons e log ws ws' : explains e ws → explained log ws' → explained (e :: log) (ws ++ ws').

(** What holds of the log of a program holds of its runs over any implementation of the
    ports, and the changes of a run are the changes of its calls. *)
Lemma run_explained `{Contract} {A} (m : comp A) (Q : result error A → list event → Prop) w :
  wpc m Q → wp (run m) w (λ r ws _, ∃ log, Q r log ∧ explained log ws).
Proof.
  revert Q w. induction m as [r|X c k IH]; intros Q w Hm; simpl in *.
  { apply wp_lift. exists []. split; [done|constructor]. }
  apply wp_bind, wp_try. eapply wp_mono; [apply contract|]. intros r ws w' He. simpl.
  eapply wp_mono; [apply IH, Hm|]. intros r' ws' w2 (log & HQ & Hlog).
  exists (event_of c r :: log). split; [done|]. by constructor.
Qed.

(** ** Histories *)

(** Every event is justified by the events before it. *)
Fixpoint ordered (J : list event → event → Prop) (h log : list event) : Prop :=
  match log with
  | [] => True
  | e :: log => J h e ∧ ordered J (h ++ [e]) log
  end.

Lemma ordered_app J h log log' : ordered J h (log ++ log') ↔ ordered J h log ∧ ordered J (h ++ log) log'.
Proof.
  revert h. induction log as [|e log IH]; intros h; simpl.
  - rewrite app_nil_r. tauto.
  - rewrite IH, <-(assoc_L (++)). simpl. tauto.
Qed.

(** What [ordered] means of one event of the log. *)
Lemma ordered_elem J log pre e post : ordered J [] log → log = pre ++ e :: post → J pre e.
Proof. intros H ->. apply ordered_app in H as [_ [H _]]. exact H. Qed.

Section histories.
Context (J : list event → event → Prop).

(** After the history [h] the program makes justified calls only, and [Q] holds of its
    result and of the history then. *)
Definition spec {A} (h : list event) (m : comp A) (Q : result error A → list event → Prop) : Prop :=
  wpc m (λ r log, ordered J h log ∧ Q r (h ++ log)).

Lemma spec_ret {A} h (r : result error A) Q : Q r h → spec h (Ret r) Q.
Proof. intros HQ. split; [done|]. by rewrite app_nil_r. Qed.

Lemma spec_call {A X} h (c : Port.op X) (k : result error X → comp A) Q :
  (∀ r, J h (event_of c r) ∧ spec (h ++ [event_of c r]) (k r) Q) → spec h (Call c k) Q.
Proof.
  intros H r. destruct (H r) as [HJ Hk]. eapply wpc_mono; [exact Hk|].
  intros r' log [Ho HQ]. split; [done|]. by rewrite (assoc_L (++)) in HQ || rewrite <-(assoc_L (++)) in HQ.
Qed.

Lemma spec_mono {A} h (m : comp A) Q Q' :
  spec h m Q → (∀ r h', h `prefix_of` h' → Q r h' → Q' r h') → spec h m Q'.
Proof.
  intros H HQ. eapply wpc_mono; [exact H|]. intros r log [Ho Hr]. split; [done|].
  apply HQ; [by apply prefix_app_r|done].
Qed.

Lemma spec_bind {A B} h (m : comp A) (f : A → comp B) Q :
  spec h m (λ r h', match r with Ok a => spec h' (f a) Q | Err e => Q (Err e) h' end) →
  spec h (m ≫= f) Q.
Proof.
  intros H. apply wpc_bind. eapply wpc_mono; [exact H|]. intros [a|e] log [Ho Hr]; [|done].
  eapply wpc_mono; [exact Hr|]. intros r log' [Ho' Hr']. rewrite (assoc_L (++)).
  split; [by apply ordered_app|done].
Qed.

Lemma spec_catch {A} h (m : comp A) (Q : result error (result error A) → list event → Prop) :
  spec h m (λ r, Q (Ok r)) → spec h (catch m) Q.
Proof. intros H. by apply wpc_catch. Qed.

Lemma spec_wrapc {A} h f (m : comp A) Q : spec h m (λ r, Q (map_err f r)) → spec h (wrapc f m) Q.
Proof. intros H. by apply wpc_wrapc. Qed.

Lemma spec_attempt {X} h (c : Port.op X) (Q : result error (result error X) → list event → Prop) :
  (∀ r, J h (event_of c r) ∧ Q (Ok r) (h ++ [event_of c r])) → spec h (attempt c) Q.
Proof. intros H. apply spec_call. intros r. split; [apply H|]. apply spec_ret, H. Qed.

Lemma spec_do {X} h (c : Port.op X) Q :
  (∀ r, J h (event_of c r) ∧ Q r (h ++ [event_of c r])) → spec h (call c) Q.
Proof. intros H. apply spec_call. intros r. split; [apply H|]. apply spec_ret, H. Qed.

(** An invariant of a loop, over what it has gone through. *)
Lemma spec_loop {A S} (f : S → A → comp S) (I : list A → S → list event → Prop)
    (E : error → list event → Prop) l s h :
  I [] s h →
  (∀ done s a rest h', l = done ++ a :: rest → h `prefix_of` h' → I done s h' →
     spec h' (f s a) (λ r h2, match r with Ok s' => I (done ++ [a]) s' h2 | Err e => E e h2 end)) →
  spec h (comp_fold f s l) (λ r h', match r with Ok s' => I l s' h' | Err e => E e h' end).
Proof.
  intros HI Hf.
  assert (∀ l' done s h', l = done ++ l' → h `prefix_of` h' → I done s h' →
    spec h' (comp_fold f s l') (λ r h2, match r with Ok s' => I l s' h2 | Err e => E e h2 end)) as H.
  { induction l' as [|a l' IH]; intros done s' h' Hl Hp HI'.
    { apply spec_ret. by rewrite app_nil_r in Hl; subst. }
    simpl. apply spec_bind. eapply spec_mono; [by apply (Hf done s' a l' h')|].
    intros [s2|e] h2 Hp2 H2; [|done]. apply (IH (done ++ [a])); [by rewrite <-(assoc_L (++))|by etrans|done]. }
  by apply (H l []).
Qed.

Lemma spec_fold {A S} (f : S → A → comp S) (I : S → list event → Prop) (E : error → list event → Prop) l s h :
  I s h →
  (∀ s a h', a ∈ l → h `prefix_of` h' → I s h' →
     spec h' (f s a) (λ r h2, match r with Ok s' => I s' h2 | Err e => E e h2 end)) →
  spec h (comp_fold f s l) (λ r h', match r with Ok s' => I s' h' | Err e => E e h' end).
Proof.
  intros HI Hf. apply (spec_loop f (λ _, I)); [done|]. intros done s' a rest h' -> Hp H.
  apply Hf; [set_solver|done..].
Qed.
End histories.

Lemma spec_wpc {A} (J : list event → event → Prop) (m : comp A) Q :
  spec J [] m Q → wpc m (λ r log, ordered J [] log ∧ Q r log).
Proof. done. Qed.

Lemma spec_and_ordered {A} (J : list event → event → Prop) h (m : comp A) Q :
  spec J h m Q → spec J h m (λ r h', (∃ log, h' = h ++ log ∧ ordered J h log) ∧ Q r h').
Proof. intros H. eapply wpc_mono; [exact H|]. intros r log [Ho HQ]. split; [done|]. eauto. Qed.

(** Weaker justifications. *)
Lemma ordered_mono (J J' : list event → event → Prop) h log :
  (∀ h e, J h e → J' h e) → ordered J h log → ordered J' h log.
Proof.
  intros HJ. revert h. induction log as [|e log IH]; intros h; [done|]. simpl.
  intros [He Ho]. split; [by apply HJ|by apply IH].
Qed.

Lemma spec_weaken {A} (J J' : list event → event → Prop) h (m : comp A) Q :
  (∀ h e, J h e → J' h e) → spec J h m Q → spec J' h m Q.
Proof. intros HJ H. eapply wpc_mono; [exact H|]. intros r log [Ho HQ]. split; [by eapply ordered_mono|done]. Qed.

Lemma spec_lift {A} (J J' : list event → event → Prop) h (m : comp A) Q Q' :
  spec J h m Q →
  (∀ r log, ordered J h log → Q r (h ++ log) → ordered J' h log ∧ Q' r (h ++ log)) → spec J' h m Q'.
Proof. intros H HQ. eapply wpc_mono; [exact H|]. intros r log [Ho Hr]. by apply HQ. Qed.

#[global] Arguments wpc : simpl never.
#[global] Opaque spec.
