(* ===== verification/Trust.v ===== *)
(** * Trust in package signatures

    internal/pacman/sign/verify.go, fingerprint.go: the keyring a detached signature is
    verified against.  ayato/service/signers.go: the trust roots of the configuration and
    the worker keys a master key has certified.

    OpenPGP is a third-party library: parsing of keys, the check of a signature against a
    list of keys, expiry, revocation and certifications are parameters. *)

From S2P Require Import Prelude GoStrings Artifact Package Dbwriter Repo Dbtool Blob RepoDB Ports.

(** [strings.ToUpper] and the removal of white space, for ASCII fingerprints. *)
Definition to_upper (c : ascii) : ascii :=
  if (97 <=? byte c)%N && (byte c <=? 122)%N then ascii_of_N (byte c - 32) else c.

Fixpoint drop_bytes (f : ascii → bool) (s : string) : string :=
  match s with
  | "" => ""
  | String c s => if f c then drop_bytes f s else String c (drop_bytes f s)
  end.

Definition NormalizeFingerprint (s : string) : string :=
  let s := trim_space s in
  let s := trim_prefix s "0x" in
  let s := trim_prefix s "0X" in
  drop_bytes (λ c, bool_decide (c = " "%char ∨ c = "009"%char ∨ c = newline ∨ c = carriage_return))
    (map_bytes to_upper s).

Section trust.
(** A public key with its fingerprint in upper-case hexadecimal. *)
Context {Entity : Type} (fingerprint : Entity → string).
Context (read_keys : string → result string (list Entity)).
(** [openpgp.CheckDetachedSignatureAndHash]: the signer among the keys. *)
Context (check_detached : list Entity → string → string → result string Entity).
Context (expired revoked : Entity → bool) (certified_by : Entity → Entity → bool).

Record Keyring := mkKeyring { k_entities : list Entity; k_trusted : gset string }.

Definition NewKeyring (entities : list Entity) (trustedFprs : list string) : Keyring :=
  mkKeyring entities
    (foldl (λ trusted fpr, let n := NormalizeFingerprint fpr in
       if decide (n = "") then trusted else {[n]} ∪ trusted) ∅ trustedFprs).

Definition VerifyDetached (k : Keyring) (signed sig : string) : result string string :=
  signer ← check_detached k.(k_entities) signed sig;
  if expired signer then Err "signing key is expired or has no valid self-signature"
  else if revoked signer then Err "signing key is revoked"
  else if decide (k.(k_trusted) ≠ ∅ ∧ fingerprint signer ∉ k.(k_trusted))
       then Err "signing key is not in the trusted allowlist"
  else Ok (fingerprint signer).

(** ** The trust of the service *)

Record signatureTrust := mkTrust {
  base : list Entity;
  masters : list Entity;
  trustedFingerprints : list string;
  trust_err : option string;
}.
#[local] Instance eta_trust : Eta signatureTrust := λ t,
  mkTrust t.(base) t.(masters) t.(trustedFingerprints) t.(trust_err).

Record TrustSettings := mkTrustSettings {
  VerificationKeys : option string;
  TrustedVerificationKeys : list string;
  MasterVerificationKeys : list string;
  ts_RequireSign : bool;
}.

Definition no_keys (r : result string (list Entity)) (message : string) : result string (list Entity) :=
  entities ← r; if decide (length entities = 0%nat) then Err message else Ok entities.

Definition add_master (t : signatureTrust) (armored : string) : signatureTrust :=
  match no_keys (read_keys armored) "master key contains no public keys" with
  | Err e => t <| trust_err := Some e |>
  | Ok entities => t <| masters ::= λ l, l ++ entities |>
  end.

Definition parseSignatureTrust (s : TrustSettings) : signatureTrust :=
  let trust := match s.(VerificationKeys) with
    | None => mkTrust [] [] s.(TrustedVerificationKeys) None
    | Some keys =>
        match no_keys (read_keys keys) "keyring contains no public keys" with
        | Err e => mkTrust (match read_keys keys with Ok l => l | Err _ => [] end) []
                     s.(TrustedVerificationKeys) (Some e)
        | Ok entities => mkTrust entities [] s.(TrustedVerificationKeys) None
        end
    end in
  let trust := foldl add_master trust s.(MasterVerificationKeys) in
  let hasRoot := bool_decide (is_Some s.(VerificationKeys))
                 || negb (bool_decide (s.(MasterVerificationKeys) = [])) in
  if s.(ts_RequireSign) && negb hasRoot && bool_decide (trust.(trust_err) = None)
  then trust <| trust_err := Some "require_sign is enabled but no verification trust root is configured" |>
  else trust.

(** The loop over the registered worker keys; one that does not parse is skipped. *)
Definition add_worker (allowlist : bool) (acc : list Entity * list string) (armored : string)
    : list Entity * list string :=
  match read_keys armored with
  | Err _ => acc
  | Ok workers => (acc.1 ++ workers, if allowlist then acc.2 ++ map fingerprint workers else acc.2)
  end.

Definition keyring_of (t : signatureTrust) (registered : list string) : option Keyring :=
  let '(entities, trusted) := foldl (add_worker (negb (bool_decide (t.(trustedFingerprints) = []))))
                                (t.(base), t.(trustedFingerprints)) registered in
  if decide (length entities = 0%nat) then None else Some (NewKeyring entities trusted).

(** [None] is a nil keyring. [registry]: a signer repository is wired. *)
Definition verifyKeyring (registry : bool) (t : signatureTrust) : comp (option Keyring) :=
  registered ← (if registry then call Port.ListSigners else mret []);
  mret (keyring_of t registered).

Definition UnregisterSigner (registry : bool) (fpr : string) : comp unit :=
  if negb registry then fail (ErrOther "signer registration is not available")
  else call (Port.DeleteSigner fpr).

(** A registered key that does not parse is left out. *)
Definition signer_names (registered : list string) : list string :=
  omap (λ armored, match read_keys armored with
                   | Ok (worker :: _) => Some (fingerprint worker)
                   | _ => None
                   end) registered.

Definition Service_ListSigners (registry : bool) : comp (list string) :=
  if negb registry then mret []
  else registered ← call Port.ListSigners; mret (signer_names registered).

Definition certifiedByAny (worker : Entity) (masters : list Entity) : bool :=
  existsb (certified_by worker) masters.

Definition RegisterSigner (registry : bool) (t : signatureTrust) (armored : string) : comp string :=
  if negb registry then fail (ErrOther "signer registration is not available")
  else match read_keys armored with
  | Err e => fail (ErrOther ("parse signer key: " +:+ e))
  | Ok [worker] =>
      if decide (length t.(masters) = 0%nat)
      then fail (ErrOther "no verify.master_keys configured to certify a worker key")
      else if negb (certifiedByAny worker t.(masters))
      then fail (ErrOther "worker key is not certified by any configured master key")
      else _ ← call (Port.AddSigner (fingerprint worker) armored); mret (fingerprint worker)
  | Ok _ => fail (ErrOther "expected exactly one signer key")
  end.

(** ** Lemmas *)

Lemma NewKeyring_trusted entities l n :
  n ∈ k_trusted (NewKeyring entities l) ↔ n ∈ map NormalizeFingerprint l ∧ n ≠ "".
Proof.
  unfold NewKeyring. cbn [k_trusted].
  assert (∀ X : gset string, n ∈ foldl (λ trusted fpr, let n := NormalizeFingerprint fpr in
    if decide (n = "") then trusted else {[n]} ∪ trusted) X l
    ↔ n ∈ X ∨ n ∈ map NormalizeFingerprint l ∧ n ≠ "") as H; [|rewrite H; set_solver].
  induction l as [|x l IH]; intros X; cbn [foldl map].
  { rewrite elem_of_nil. tauto. }
  rewrite IH, elem_of_cons. clear IH. cbv zeta. case_decide as Hx.
  - rewrite Hx. tauto.
  - rewrite elem_of_union, elem_of_singleton. naive_solver.
Qed.

(** The keys and the allowlist the registered workers add. *)
Definition workers_of (registered : list string) : list Entity :=
  concat (map (λ armored, match read_keys armored with Ok l => l | Err _ => [] end) registered).

Lemma add_workers allowlist registered acc :
  foldl (add_worker allowlist) acc registered
  = (acc.1 ++ workers_of registered,
     acc.2 ++ if allowlist then map fingerprint (workers_of registered) else []).
Proof.
  unfold workers_of. revert acc. induction registered as [|x l IH]; intros [es fs]; simpl.
  { rewrite app_nil_r. by destruct allowlist; rewrite app_nil_r. }
  rewrite IH. unfold add_worker. destruct (read_keys x) as [ws|]; simpl; [|done].
  f_equal; [by rewrite (assoc_L (++))|]. destruct allowlist; [|done]. by rewrite map_app, (assoc_L (++)).
Qed.

Lemma keyring_of_Some t registered k :
  keyring_of t registered = Some k →
  k_entities k = base t ++ workers_of registered ∧
  ∀ n, n ∈ k_trusted k ↔ n ≠ "" ∧ (n ∈ map NormalizeFingerprint (trustedFingerprints t)
    ∨ trustedFingerprints t ≠ [] ∧ n ∈ map (NormalizeFingerprint ∘ fingerprint) (workers_of registered)).
Proof.
  unfold keyring_of. rewrite add_workers. simpl. case_decide; [done|]. intros [= <-]. split; [done|].
  intros n. rewrite NewKeyring_trusted, map_app, elem_of_app.
  assert (n ∈ map NormalizeFingerprint (if negb (bool_decide (trustedFingerprints t = []))
      then map fingerprint (workers_of registered) else [])
    ↔ trustedFingerprints t ≠ [] ∧ n ∈ map (NormalizeFingerprint ∘ fingerprint) (workers_of registered)) as ->; [|tauto].
  rewrite <-(map_map fingerprint NormalizeFingerprint). case_bool_decide; simpl.
  - rewrite elem_of_nil. tauto.
  - tauto.
Qed.

(** Who can sign an uploaded package. A signature is accepted exactly when OpenPGP
    attributes it to a key of the keyring that is neither expired nor revoked, and that an
    allowlist with at least one non-blank entry names, directly or as a registered worker;
    the keys are those of the configuration and of the registered workers, and without
    any of them there is no keyring. *)
Theorem accepted_signer t registered signed sig fpr :
  (keyring_of t registered = None ↔ base t = [] ∧ workers_of registered = []) ∧
  ∀ k, keyring_of t registered = Some k →
    VerifyDetached k signed sig = Ok fpr ↔
    ∃ signer, check_detached (base t ++ workers_of registered) signed sig = Ok signer
      ∧ expired signer = false ∧ revoked signer = false ∧ fingerprint signer = fpr
      ∧ ((∃ f, f ∈ trustedFingerprints t ∧ NormalizeFingerprint f ≠ "")
         ∨ trustedFingerprints t ≠ [] ∧ (∃ e, e ∈ workers_of registered ∧ NormalizeFingerprint (fingerprint e) ≠ "") →
         fpr ≠ "" ∧ (fpr ∈ map NormalizeFingerprint (trustedFingerprints t)
           ∨ trustedFingerprints t ≠ [] ∧ fpr ∈ map (NormalizeFingerprint ∘ fingerprint) (workers_of registered))).
Proof.
  split.
  { unfold keyring_of. rewrite add_workers. simpl. case_decide as Hl; (split; [|]); try done.
    - intros _. apply nil_length_inv in Hl. by apply app_nil in Hl.
    - intros [E1 E2]. by rewrite E1, E2 in Hl. }
  intros k (He & Ht)%keyring_of_Some. unfold VerifyDetached. rewrite He, bind_Ok.
  assert (k_trusted k ≠ ∅ ↔ (∃ f, f ∈ trustedFingerprints t ∧ NormalizeFingerprint f ≠ "")
    ∨ trustedFingerprints t ≠ [] ∧ (∃ e, e ∈ workers_of registered ∧ NormalizeFingerprint (fingerprint e) ≠ ""))
    as Hne.
  { split.
    - intros (n & Hn)%set_choose_L. apply Ht in Hn as [Hn [(f & -> & Hf)%list_elem_of_fmap
        |[Hl (e & -> & Hw)%list_elem_of_fmap]]]; [left|right]; eauto.
    - intros [(f & Hf & Hn)|(Hl & e & Hw & Hn)] E.
      + apply (not_elem_of_empty (C := gset string) (NormalizeFingerprint f)). rewrite <-E. apply Ht.
        split; [done|]. left. by apply list_elem_of_fmap_2.
      + apply (not_elem_of_empty (C := gset string) (NormalizeFingerprint (fingerprint e))). rewrite <-E. apply Ht.
        split; [done|]. right. split; [done|]. by apply (list_elem_of_fmap_2 (NormalizeFingerprint ∘ fingerprint)). }
  setoid_rewrite <-Hne. setoid_rewrite <-Ht. split.
  - intros (signer & Hc & H). exists signer. destruct (expired signer); [done|]. destruct (revoked signer); [done|].
    case_decide as Hd; [done|]. injection H as <-. split_and!; try done. intros Hk.
    destruct (decide (fingerprint signer ∈ k_trusted k)); [done|]. by destruct Hd.
  - intros (signer & Hc & He1 & He2 & <- & H). exists signer. split; [done|]. rewrite He1, He2.
    case_decide as Hd; [|done]. destruct Hd as [Hk Hn]. destruct Hn. by apply H.
Qed.

(** A worker key is stored only when one of the configured master keys certifies it, as
    the one key of what was submitted, under its own fingerprint. *)
Theorem RegisterSigner_spec registry t armored :
  wpc (RegisterSigner registry t armored) (λ r log,
    (∀ fpr, r = Ok fpr → ∃ worker, read_keys armored = Ok [worker] ∧ fpr = fingerprint worker
       ∧ log = [EvSigner fpr armored (Ok tt)]) ∧
    Forall (λ ev, ∃ worker master r, ev = EvSigner (fingerprint worker) armored r
       ∧ registry = true ∧ read_keys armored = Ok [worker]
       ∧ master ∈ masters t ∧ certified_by worker master = true) log).
Proof.
  assert (∀ e, wpc (fail e) (λ (r : result error string) log,
    (∀ fpr, r = Ok fpr → ∃ worker, read_keys armored = Ok [worker] ∧ fpr = fingerprint worker
       ∧ log = [EvSigner fpr armored (Ok tt)]) ∧
    Forall (λ ev, ∃ worker master r, ev = EvSigner (fingerprint worker) armored r
       ∧ registry = true ∧ read_keys armored = Ok [worker]
       ∧ master ∈ masters t ∧ certified_by worker master = true) log)) as Hfail.
  { intros e. split; [done|by apply Forall_nil]. }
  unfold RegisterSigner. destruct registry; [|apply Hfail]. cbn [negb].
  destruct (read_keys armored) as [[|worker [|]]|e] eqn:Hr; try apply Hfail.
  case_decide; [apply Hfail|]. destruct (certifiedByAny worker (masters t)) eqn:Hc; [|apply Hfail].
  apply existsb_exists in Hc as (master & Hm%list_elem_of_In & Hc). cbn [negb].
  intros r. assert (Forall (λ ev, ∃ w m r, ev = EvSigner (fingerprint w) armored r ∧ true = true
    ∧ @Ok string _ [worker] = Ok [w] ∧ m ∈ masters t ∧ certified_by w m = true)
    [EvSigner (fingerprint worker) armored r]) as Hlog by (apply Forall_singleton; exists worker, master, r; done).
  destruct r as [[]|e]; simpl; (split; [|exact Hlog]); [|done]. intros fpr [= <-]. by exists worker.
Qed.
End trust.

(** An allowlist whose entries are all blank admits every key of the keyring: blank entries
    are dropped, and an empty allowlist means no allowlist. *)
Example blank_allowlist_admits_all :
  let check (es : list string) (_ _ : string) := result_of_option "unknown" (head es) in
  let k := NewKeyring ["ABCD"] [" 0x "] in
  VerifyDetached id check (λ _, false) (λ _, false) k "package" "signature" = Ok "ABCD".
Proof. reflexivity. Qed.
