(* ===== verification/Upload.v ===== *)
(** * Publishing uploads (ayato/service)

    upload*.go, publication.go, publishing half of service.go and upstream.go: a batch of
    uploaded packages is validated, compared with what the repository lists, stored,
    registered in one database transaction per architecture, and indexed by name; a failure
    undoes what was committed.

    A nil stream is [None]; streams are their bytes, so rewinding them is no operation.
    The indexes of uploads in [byArch] are the uploads themselves, which nothing changes once
    the batches are built. *)

From S2P Require Import Prelude GoStrings KeyValue Pkginfo Artifact Constraint Package Dbwriter Repo Dbtool.
From S2P Require Import Blob RepoDB Catalog Ports Trust.

(** ** Data *)

Record UploadFiles := mkUploadFiles { PkgFile : option SeekFile; SigFile : option SeekFile }.

Record publishedPackage := mkPublished { version : string; fileName : string; pub_storeArch : string }.

Record preparedUpload := mkUpload {
  pkgStream : SeekFile;
  sigStream : option SeekFile;
  pkgName : string;
  pkgVersion : string;
  storeArch : string;
  dbArches : list string;
  storedName : string;
  sigName : string;
  oldByArch : gmap string publishedPackage;
}.
#[export] Instance eta_upload : Eta preparedUpload := λ u,
  mkUpload u.(pkgStream) u.(sigStream) u.(pkgName) u.(pkgVersion) u.(storeArch) u.(dbArches)
    u.(storedName) u.(sigName) u.(oldByArch).

(** [archKey]: an architecture and a name or file. *)
Definition archKey : Type := string * string.

Record Settings := mkSettings {
  RequireSign : bool;
  RequireBuildinfoProvenance : bool;
  ExpectedBuildDir : string;
  ProtectedNames : list string;
  MaxPackageSize : Z;
  SignDatabase : bool;
}.

Record spooledPackage := mkSpooled { sp_pkg : SeekFile; sp_sig : option SeekFile }.

Record publicationRollback := mkRollback {
  oldArtifacts : gmap archKey spooledPackage;
  oldNames : gmap archKey string;
  committedArches : list string;
  needsReconcile : gset string;
  namesTouched : bool;
}.
#[export] Instance eta_rollback : Eta publicationRollback := λ r,
  mkRollback r.(oldArtifacts) r.(oldNames) r.(committedArches) r.(needsReconcile) r.(namesTouched).

Definition newPublicationRollback : publicationRollback := mkRollback ∅ ∅ [] ∅ false.

Definition is_package_changed : error → bool :=
  error_is (λ e, match e with ErrPackageChanged _ => true | _ => false end).
Definition is_immutable_conflict : error → bool :=
  error_is (λ e, match e with ErrImmutableObjectConflict => true | _ => false end).

Definition invalid (reason : string) : error := ErrDomain DomainInvalidUpload reason.
Definition conflict (reason : string) : error := ErrDomain DomainConflict reason.

(** internal/pacman/limits. *)
Definition DefaultPackageBytes : Z := 512 * 2 ^ 20.
Definition PackageBytes (configured : Z) : Z :=
  if (0 <? configured)%Z then configured else DefaultPackageBytes.
Definition Exceeds (size configured : Z) : bool := (PackageBytes configured <? size)%Z.

(** ** Validation *)
Section validation.
Context (decode : string → result string tar_stream) (settings : Settings).
Context {Entity : Type} (fingerprint : Entity → string).
Context (check_detached : list Entity → string → string → result string Entity).
Context (expired revoked : Entity → bool).

Definition checkSize (file : SeekFile) : result error unit :=
  if Exceeds (len file.(Data)) settings.(MaxPackageSize)
  then Err (invalid "package exceeds max_size") else Ok tt.

Definition validatedPackageFilename (fileName : string) (info : PKGINFO.PKGINFO) : result error string :=
  match ParseArtifact fileName with
  | Err _ => Err (invalid "invalid package filename")
  | Ok artifact =>
      if signature artifact then Err (invalid "invalid package filename")
      else match Coordinates artifact with
           | Err _ => Err (invalid "package filename does not match .PKGINFO")
           | Ok coordinates =>
               if MatchesMetadata coordinates (PKGINFO.PkgName info) (PKGINFO.PkgVer info) (PKGINFO.Arch info)
               then Ok (filename artifact)
               else Err (invalid "package filename does not match .PKGINFO")
           end
  end.

Definition checkBuildinfoProvenance (file : SeekFile) : result error unit :=
  if negb settings.(RequireBuildinfoProvenance) then Ok tt
  else match ReadBuildInfo decode file.(Data) with
       | Err _ => Err (invalid "no usable .BUILDINFO but provenance is required")
       | Ok buildInfo => if decide (BuildDir buildInfo ≠ settings.(ExpectedBuildDir))
                         then Err (invalid "builddir is not the expected sandbox root") else Ok tt
       end.

(** The names a package would take. *)
Definition claimed_names (info : PKGINFO.PKGINFO) : list string :=
  PKGINFO.PkgName info
  :: map (λ p, cn_Name (Parse p)) (PKGINFO.Provides info)
  ++ map (λ p, cn_Name (Parse p)) (PKGINFO.Replaces info) ++ PKGINFO.Group info.

Definition checkProtectedNames (info : PKGINFO.PKGINFO) : result error unit :=
  if existsb (λ c, bool_decide (c ∈ settings.(ProtectedNames))) (claimed_names info)
  then Err (conflict "collides with protected official name") else Ok tt.

Definition verifySignature (keyring : option (Keyring (Entity := Entity))) (pkgFile : SeekFile)
    (sigFile : option SeekFile) (storedName : string) : result error unit :=
  match sigFile with
  | None => if settings.(RequireSign) then Err (invalid "package signature is required") else Ok tt
  | Some sig =>
      if decide (sig.(FileName) ≠ storedName +:+ ".sig")
      then Err (invalid "signature filename does not match package")
      else match keyring with
      | None => Err (ErrOther "no trust root is configured to validate the signature")
      | Some k =>
          match VerifyDetached fingerprint check_detached expired revoked k pkgFile.(Data) sig.(Data) with
          | Err _ => Err (invalid "package signature verification failed")
          | Ok _ => Ok tt
          end
      end
  end.

Definition validatePackageArch (arch : string) : result error unit :=
  if bool_decide (arch = "") || occurs "/" arch || contains arch ".."
  then Err (invalid "invalid package arch") else Ok tt.

Definition validate (keyring : option (Keyring (Entity := Entity))) (files : option UploadFiles)
    : result error preparedUpload :=
  match files with
  | Some (mkUploadFiles (Some pkgStream) sigFile) =>
      _ ← checkSize pkgStream;
      binary ← map_err (λ _, invalid "failed to read package from binary")
                 (ReadBinaryPackage decode pkgStream.(FileName) pkgStream.(Data));
      let info := bp_info binary in
      storedName ← validatedPackageFilename pkgStream.(FileName) info;
      _ ← checkBuildinfoProvenance pkgStream;
      _ ← checkProtectedNames info;
      _ ← verifySignature keyring pkgStream sigFile storedName;
      _ ← validatePackageArch (PKGINFO.Arch info);
      Ok (mkUpload pkgStream sigFile (PKGINFO.PkgName info) (PKGINFO.PkgVer info) (PKGINFO.Arch info)
            [] storedName (storedName +:+ ".sig") ∅)
  | _ => Err (invalid "package file is required")
  end.

Definition has_sig (files : option UploadFiles) : bool :=
  match files with Some f => bool_decide (is_Some f.(SigFile)) | None => false end.

(** The loop of [validateInputs]. *)
Definition validate_step (keyring : option (Keyring (Entity := Entity)))
    (acc : list preparedUpload * gset archKey) (files : option UploadFiles)
    : result error (list preparedUpload * gset archKey) :=
  upload ← validate keyring files;
  let key := (storeArch upload, storedName upload) in
  if decide (key ∈ acc.2) then Err (invalid "duplicate package object in one batch")
  else Ok (acc.1 ++ [upload], {[key]} ∪ acc.2).

Definition validate_batch (keyring : option (Keyring (Entity := Entity))) (files : list (option UploadFiles))
    : result error (list preparedUpload) :=
  fst <$> foldM (validate_step keyring) ([], ∅) files.
End validation.

(** ** The service *)

Definition concrete_step (acc : list string * gset string) (arch : string) : list string * gset string :=
  if decide (arch = "" ∨ arch = "any" ∨ arch ∈ acc.2) then acc
  else (acc.1 ++ [arch], {[arch]} ∪ acc.2).
Definition concreteArches (declared stored : list string) : list string :=
  (foldl concrete_step ([], ∅) (declared ++ stored)).1.

Definition containsArch (arches : list string) (target : string) : bool := bool_decide (target ∈ arches).

Section service.
Context (decode : string → result string tar_stream) (quote : string → string).
(** [alpm.VerCmp]. *)
Context (vercmp : string → string → Z).
Context (settings : Settings) (catalog : RepositoryCatalog).
Context {Entity : Type} (fingerprint : Entity → string).
Context (read_keys : string → result string (list Entity)).
Context (check_detached : list Entity → string → string → result string Entity).
Context (expired revoked : Entity → bool).
Context (registry : bool) (trust : signatureTrust (Entity := Entity)).
Context {R : RangeOrder}.
(** The order of a [range] over a map with [archKey] keys. *)
Context (range_keys_arch : gset archKey → list archKey).

Definition signedDB : bool := settings.(SignDatabase).
Definition publishTarget (repo : string) : string := default repo (PublishTarget catalog repo).
Definition isUpstreamRepo (repo : string) : bool :=
  match Resolve catalog repo with
  | Some resolved => Enabled (r_upstream (rr_Repository resolved))
  | None => false
  end.

(** *** Architectures *)

Definition storedArches (repo : string) : comp (list string) :=
  r ← attempt (Port.Arches repo);
  mret (match r with Ok arches => arches | Err _ => [] end).

Definition declaredArches (repo : string) : list string := DeclaredArches catalog repo.

Definition repoArches (repo : string) : comp (list string) :=
  stored ← storedArches repo;
  mret (concreteArches (declaredArches repo) stored).

Definition archAccepted (repo arch : string) : comp bool :=
  if AllowsNewArch catalog repo then mret true
  else
    let declared := declaredArches repo in
    if containsArch declared arch then mret true
    else
      stored ← storedArches repo;
      if decide (length declared = 0%nat ∧ length stored = 0%nat) then mret true
      else mret (containsArch stored arch).

Definition targetArches (repo pkgArch : string) : comp (list string) :=
  if decide (pkgArch ≠ "any") then mret [pkgArch]
  else
    arches ← repoArches repo;
    if decide (length arches = 0%nat) then fail (ErrOther "repository has no architectures for an arch=any package")
    else mret arches.

(** *** Spooled packages *)

Definition spoolRepositoryFile (repo arch filename : string) : comp SeekFile :=
  data ← call (Port.FetchFile repo arch filename);
  _ ← call (Port.Spool data);
  mret (mkSeekFile (path_base filename) data).

Definition spoolPackage (repo arch filename : string) : comp spooledPackage :=
  pkgFile ← spoolRepositoryFile repo arch filename;
  r ← catch (spoolRepositoryFile repo arch (filename +:+ ".sig"));
  match r with
  | Ok sigFile => mret (mkSpooled pkgFile (Some sigFile))
  | Err e => if is_not_found e then mret (mkSpooled pkgFile None)
             else fail (WrapErr e "spool package signature")
  end.

Definition storeImmutableFile (repo arch : string) (file : option SeekFile) : comp unit :=
  match file with
  | None => mret tt
  | Some file => _ ← call (Port.StoreFileImmutable repo arch file); mret tt
  end.

Definition storeSpooledPackage (repo arch : string) (artifact : spooledPackage) : comp unit :=
  comp_fold (λ _ file, wrapc (λ e, WrapErr e "store package artifact") (storeImmutableFile repo arch file)) tt
    [Some artifact.(sp_pkg); artifact.(sp_sig)].

(** *** New architectures *)

Definition backfill_item (repo : string) (items : list RepoAddItem) (filename : string) : comp (list RepoAddItem) :=
  if negb (IsArchive filename) then mret items
  else
    artifact ← wrapc (λ e, WrapErr e "spool any package for backfill") (spoolPackage repo "any" filename);
    mret (items ++ [mkItem (Some artifact.(sp_pkg)) artifact.(sp_sig) false "" "" "" "" ""]).

Definition backfillAnyInto (repo arch : string) (useSignedDB : bool) : comp unit :=
  r ← attempt (Port.Files repo "any");
  match r with
  | Err e => if is_not_found e then mret tt else fail (WrapErr e "list any packages for backfill")
  | Ok files =>
      items ← comp_fold (backfill_item repo) [] files;
      if decide (length items = 0%nat) then mret tt
      else call (Port.RepoAddBatch repo arch items useSignedDB)
  end.

Definition ensureArchSeeded (repo arch : string) (useSignedDB : bool) : comp unit :=
  stored ← storedArches repo;
  _ ← call (Port.InitArch repo arch useSignedDB);
  _ ← (if useSignedDB then call (Port.BackfillSignatures repo arch) else mret tt);
  if containsArch stored arch then mret tt else backfillAnyInto repo arch useSignedDB.

Definition initRepo (repo : string) (useSignedDB : bool) : comp unit :=
  arches ← repoArches repo;
  comp_fold (λ _ arch, ensureArchSeeded repo arch useSignedDB) tt arches.

Definition ensureRepository (repo : string) : comp unit :=
  r ← attempt (Port.VerifyPkgRepo repo);
  match r with
  | Ok _ => mret tt
  | Err _ => wrapc (λ e, WrapErr e "failed to initialize repo") (initRepo repo signedDB)
  end.

Definition seed_upload (repo : string) (stored : gset string) (upload : preparedUpload) : comp (gset string) :=
  if decide (storeArch upload = "any" ∨ storeArch upload ∈ stored) then mret stored
  else
    _ ← wrapc (λ e, WrapErr e "failed to seed new arch") (ensureArchSeeded repo (storeArch upload) signedDB);
    mret ({[storeArch upload]} ∪ stored).

Definition seedNewArches (repo : string) (uploads : list preparedUpload) : comp unit :=
  if negb (AllowsNewArch catalog repo) then mret tt
  else
    stored ← storedArches repo;
    _ ← comp_fold (seed_upload repo) (list_to_set stored) uploads;
    mret tt.

(** *** What the repository lists *)

Definition overlayRepo (repo arch : string) : comp RemoteRepo :=
  if negb (isUpstreamRepo repo) then call (Port.RemoteRepo repo arch)
  else
    data ← call (Port.FetchFile repo arch (DatabaseArchive (Artifacts repo)));
    ofResult (map_err ErrReadDB (RemoteRepoFromDBContext decode quote (λ _, None) repo data)).

(** The identity of a listed package. *)
Definition published_of (arch : string) (current : RemoteRepo) (pkgName : string)
    : result error (option publishedPackage) :=
  match PkgByPkgName current pkgName with
  | None => Ok None
  | Some pkg =>
      let fileName := path_base (bp_path pkg) in
      let storeArch := if decide (bp_Arch pkg ≠ "any") then arch else bp_Arch pkg in
      if decide (fileName = "" ∨ fileName = "." ∨ storeArch = "")
      then Err (ErrOther "published package has invalid storage identity")
      else Ok (Some (mkPublished (bp_Version pkg) fileName storeArch))
  end.

Definition lookupPublished (repo arch pkgName : string) : comp (option publishedPackage) :=
  r ← catch (overlayRepo repo arch);
  match r with
  | Err e => if is_not_found e then mret None else fail (WrapErr e "read repo db for version gate")
  | Ok current => ofResult (published_of arch current pkgName)
  end.

(** The version gate: not listed, older, the same, or newer. *)
Definition gate (upload : preparedUpload) (arch : string) (current : option publishedPackage)
    : result error preparedUpload :=
  match current with
  | None => Ok (upload <| dbArches ::= λ l, l ++ [arch] |>)
  | Some current =>
      let comparison := vercmp (pkgVersion upload) (version current) in
      if (comparison <? 0)%Z then Err (invalid "older than the published version")
      else if (comparison =? 0)%Z then Ok upload
      else Ok (upload <| oldByArch ::= <[arch := current]> |> <| dbArches ::= λ l, l ++ [arch] |>)
  end.

Definition resolve_arch (repo : string) (acc : preparedUpload * gset archKey) (arch : string)
    : comp (preparedUpload * gset archKey) :=
  let '(upload, seenPackages) := acc in
  let key := (arch, pkgName upload) in
  if decide (key ∈ seenPackages) then fail (invalid "package targets an arch more than once in one batch")
  else
    current ← lookupPublished repo arch (pkgName upload);
    upload ← ofResult (gate upload arch current);
    mret (upload, {[key]} ∪ seenPackages).

Definition resolveUploadState (repo : string) (upload : preparedUpload) (seenPackages : gset archKey)
    : comp (preparedUpload * gset archKey) :=
  arches ← targetArches repo (storeArch upload);
  comp_fold (resolve_arch repo) (upload <| dbArches := [] |> <| oldByArch := ∅ |>, seenPackages) arches.

Definition check_arch (repo : string) (upload : preparedUpload) : comp unit :=
  if decide (storeArch upload = "any") then mret tt
  else
    accepted ← archAccepted repo (storeArch upload);
    if accepted : bool then mret tt else fail (invalid "arch is not served by the repository").

Definition resolve_step (repo : string) (acc : list preparedUpload * gset archKey) (upload : preparedUpload)
    : comp (list preparedUpload * gset archKey) :=
  r ← resolveUploadState repo upload acc.2;
  mret (acc.1 ++ [r.1], r.2).

Definition resolveRepositoryState (repo : string) (uploads : list preparedUpload) : comp (list preparedUpload) :=
  _ ← comp_fold (λ _ upload, check_arch repo upload) tt uploads;
  _ ← seedNewArches repo uploads;
  r ← comp_fold (resolve_step repo) ([], ∅) uploads;
  mret r.1.

(** *** The batches *)

Record archBatches := mkBatches { byArch : gmap string (list preparedUpload); archOrder : list string }.

Definition batch_add (upload : preparedUpload) (b : archBatches) (arch : string) : archBatches :=
  match byArch b !! arch with
  | Some l => mkBatches (<[arch := l ++ [upload]]> (byArch b)) (archOrder b)
  | None => mkBatches (<[arch := [upload]]> (byArch b)) (archOrder b ++ [arch])
  end.

Definition buildArchBatches (uploads : list preparedUpload) : archBatches :=
  foldl (λ b upload, foldl (batch_add upload) b (dbArches upload)) (mkBatches ∅ []) uploads.

Definition batch_of (b : archBatches) (arch : string) : list preparedUpload := default [] (byArch b !! arch).
(** *** Rollback *)

Definition capture_old (repo : string) (upload : preparedUpload) (rb : publicationRollback)
    (old : publishedPackage) : comp publicationRollback :=
  let artifactKey := (pub_storeArch old, fileName old) in
  let rb := rb <| oldNames ::= <[(pub_storeArch old, pkgName upload) := fileName old]> |> in
  if decide (is_Some (oldArtifacts rb !! artifactKey)) then mret rb
  else
    artifact ← wrapc (λ e, WrapErr e "capture package for upload rollback")
                 (spoolPackage repo (pub_storeArch old) (fileName old));
    mret (rb <| oldArtifacts ::= <[artifactKey := artifact]> |>).

Definition capture (repo : string) (uploads : list preparedUpload) : comp publicationRollback :=
  comp_fold (λ rb upload, comp_fold (capture_old repo upload) rb (range_map (oldByArch upload)).*2)
    newPublicationRollback uploads.

(** The old package that [capture] spooled; without it the code would dereference nil. *)
Definition restore_item (upload : preparedUpload) (artifact : spooledPackage) : RepoAddItem :=
  mkItem (Some artifact.(sp_pkg)) artifact.(sp_sig) true (pkgName upload) (pkgVersion upload)
    (storedName upload) "" "".

Definition restorePackage (repo arch : string) (rb : publicationRollback) (upload : preparedUpload) : comp unit :=
  match oldByArch upload !! arch with
  | None => call (Port.RepoRemoveIfMatch repo arch (pkgName upload) (pkgVersion upload) (storedName upload) signedDB)
  | Some old =>
      match oldArtifacts rb !! (pub_storeArch old, fileName old) with
      | None => fail (ErrOther "nil artifact")
      | Some artifact =>
          _ ← storeSpooledPackage repo (pub_storeArch old) artifact;
          call (Port.RepoAddBatch repo arch [restore_item upload artifact] signedDB)
      end
  end.

(** Whether a restored database needs a reconciliation, and the names not to restore. *)
Definition restore_step (repo arch : string) (rb : publicationRollback) (acc : gset string * gset archKey)
    (upload : preparedUpload) : comp (gset string * gset archKey) :=
  r ← catch (restorePackage repo arch rb upload);
  mret (match r with
        | Ok _ => acc
        | Err e => if CanonicalCommitted e then ({[arch]} ∪ acc.1, acc.2)
                   else (acc.1, {[(storeArch upload, pkgName upload)]} ∪ acc.2)
        end).

Definition restoreArch (repo : string) (b : archBatches) (rb : publicationRollback)
    (acc : gset string * gset archKey) (arch : string) : comp (gset string * gset archKey) :=
  comp_fold (restore_step repo arch rb) acc (batch_of b arch).

Definition reconcileDatabases (repo : string) (needs : gset string) : comp unit :=
  comp_fold (λ _ arch, _ ← attempt (Port.ReconcileDB repo arch signedDB); mret tt) tt (range_keys needs).

(** The names that were ours and are gone again. *)
Definition restore_name (repo : string) (protected : gset archKey) (acc : list archKey * gset archKey)
    (upload : preparedUpload) : comp (list archKey * gset archKey) :=
  let key := (storeArch upload, pkgName upload) in
  if decide (key ∈ acc.2 ∨ key ∈ protected) then mret acc
  else
    let seen := {[key]} ∪ acc.2 in
    r ← attempt (Port.PackageFile repo key.1 key.2);
    match r with
    | Err _ => mret (acc.1, seen)
    | Ok current =>
        if decide (current ≠ storedName upload) then mret (acc.1, seen)
        else
          r ← attempt (Port.DeletePackageFileEntry repo key.1 key.2);
          match r with
          | Err _ => mret (acc.1, seen)
          | Ok _ => mret (acc.1 ++ [key], seen)
          end
    end.

Definition restoreOldNameEntries (repo : string) (rb : publicationRollback) (keys : list archKey) : comp unit :=
  let entries := omap (λ key : archKey, (λ file, mkEntry key.1 key.2 file) <$> oldNames rb !! key) keys in
  _ ← attempt (Port.StorePackageFiles repo entries); mret tt.

Definition restoreNames (repo : string) (uploads : list preparedUpload) (rb : publicationRollback)
    (protected : gset archKey) : comp unit :=
  if negb (namesTouched rb) then mret tt
  else
    acc ← comp_fold (restore_name repo protected) ([], ∅) uploads;
    restoreOldNameEntries repo rb acc.1.

Definition run_rollback (repo : string) (uploads : list preparedUpload) (b : archBatches)
    (rb : publicationRollback) : comp unit :=
  acc ← comp_fold (restoreArch repo b rb) (needsReconcile rb, ∅) (reverse (committedArches rb));
  _ ← reconcileDatabases repo acc.1;
  restoreNames repo uploads rb acc.2.

(** *** Publication *)

Definition storeObject (repo arch kind name : string) (file : option SeekFile) : comp unit :=
  match file with
  | None => mret tt
  | Some file =>
      r ← catch (storeImmutableFile repo arch (Some (mkSeekFile name file.(Data))));
      match r with
      | Ok _ => mret tt
      | Err e => if is_immutable_conflict e then fail (conflict (kind +:+ " object already exists with different content"))
                 else fail (WrapErr e ("failed to store " +:+ kind))
      end
  end.

Definition store_upload (repo : string) (upload : preparedUpload) : comp unit :=
  if decide (length (dbArches upload) = 0%nat) then mret tt
  else
    _ ← storeObject repo (storeArch upload) "package" (storedName upload) (Some (pkgStream upload));
    storeObject repo (storeArch upload) "signature" (sigName upload) (sigStream upload).

Definition storeObjects (repo : string) (uploads : list preparedUpload) : comp unit :=
  comp_fold (λ _ upload, store_upload repo upload) tt uploads.

Definition repoAddItem (arch : string) (upload : preparedUpload) : RepoAddItem :=
  let old := oldByArch upload !! arch in
  mkItem (Some (pkgStream upload)) (sigStream upload) true (pkgName upload)
    (from_option version "" old) (from_option fileName "" old) (pkgVersion upload) (storedName upload).

(** The rollback state is kept on every path; the error ends the loop. *)
Fixpoint commit_arches (repo : string) (b : archBatches) (rb : publicationRollback) (arches : list string)
    : comp (publicationRollback * result error unit) :=
  match arches with
  | [] => mret (rb, Ok tt)
  | arch :: arches =>
      r ← attempt (Port.RepoAddBatch repo arch (map (repoAddItem arch) (batch_of b arch)) signedDB);
      match r with
      | Ok _ => commit_arches repo b (rb <| committedArches ::= λ l, l ++ [arch] |>) arches
      | Err e =>
          let rb := if CanonicalCommitted e
            then rb <| committedArches ::= λ l, l ++ [arch] |> <| needsReconcile ::= λ s, {[arch]} ∪ s |>
            else rb in
          mret (rb, Err (if is_package_changed e then conflict "package changed during publish"
                         else WrapErr e "failed to add to repo database"))
      end
  end.

Definition commitDatabases (repo : string) (b : archBatches) (rb : publicationRollback)
    : comp (publicationRollback * result error unit) := commit_arches repo b rb (archOrder b).

Definition name_entries (uploads : list preparedUpload) : list PackageFileEntry :=
  omap (λ u, if decide (length (dbArches u) = 0%nat) then None
             else Some (mkEntry (storeArch u) (pkgName u) (storedName u))) uploads.

Definition storePackageNames (repo : string) (uploads : list preparedUpload) (rb : publicationRollback)
    : comp (publicationRollback * result error unit) :=
  let entries := name_entries uploads in
  if decide (length entries = 0%nat) then mret (rb, Ok tt)
  else
    let rb := rb <| namesTouched := true |> in
    r ← catch (
      _ ← wrapc (λ e, WrapErr e "failed to store package file names") (call (Port.StorePackageFiles repo entries));
      let newNames : gset archKey := list_to_set (map (λ e, (pe_Arch e, pe_Name e)) entries) in
      comp_fold (λ _ (key : archKey), if decide (key ∈ newNames) then mret tt
                   else wrapc (λ e, WrapErr e "failed to remove superseded package file name")
                          (call (Port.DeletePackageFileEntry repo key.1 key.2))) tt
        (range_keys_arch (dom (oldNames rb))));
    mret (rb, r).

Definition rebuildMergedIfUpstream (repo : string) (arches : list string) : comp unit :=
  if negb (isUpstreamRepo repo) then mret tt
  else comp_fold (λ _ arch, _ ← attempt (Port.RebuildMerged repo arch signedDB); mret tt) tt arches.

(** What is done under the lease. *)
Definition publish (repo : string) (uploads : list preparedUpload) : comp unit :=
  uploads ← resolveRepositoryState repo uploads;
  let b := buildArchBatches uploads in
  rb ← capture repo uploads;
  r ← catch (storeObjects repo uploads);
  match r with
  | Err e => _ ← run_rollback repo uploads b rb; fail e
  | Ok _ =>
      r ← commitDatabases repo b rb;
      match r.2 with
      | Err e => _ ← run_rollback repo uploads b r.1; fail e
      | Ok _ =>
          r ← storePackageNames repo uploads r.1;
          match r.2 with
          | Err e => _ ← run_rollback repo uploads b r.1; fail e
          | Ok _ => rebuildMergedIfUpstream repo (archOrder b)
          end
      end
  end.

(** A function under the publication lease, which is released on every path. *)
Definition withLease {A} (repo : string) (run : comp A) : comp A :=
  _ ← wrapc (λ e, WrapErr e "acquire repository publication lease") (call (Port.AcquirePublicationLease repo));
  r ← catch run;
  _ ← attempt (Port.ReleasePublicationLease repo);
  ofResult r.

Definition batchKeyring (files : list (option UploadFiles)) : comp (option (Keyring (Entity := Entity))) :=
  if existsb has_sig files
  then wrapc (λ e, WrapErr e "build signature keyring") (verifyKeyring fingerprint read_keys registry trust)
  else mret None.

Definition Service_UploadFiles (repo : string) (files : list (option UploadFiles)) : comp unit :=
  if decide (length files = 0%nat) then mret tt
  else
    let repo := publishTarget repo in
    _ ← ensureRepository repo;
    keyring ← batchKeyring files;
    uploads ← ofResult (validate_batch decode settings fingerprint check_detached expired revoked keyring files);
    withLease repo (publish repo uploads).

Definition Service_UploadFile (repo : string) (files : option UploadFiles) : comp unit := Service_UploadFiles repo [files].
End service.
