(* ===== verification/History.v ===== *)
(** * Histories of the ayato services

    Facts about the log of a service that its proofs share: what the repository was read to
    list, what was fetched from it, the publication lease, and the rules for the parts of a
    service that only read. *)

From S2P Require Import Prelude GoStrings KeyValue Pkginfo Artifact Constraint Package Dbwriter Repo Dbtool.
From S2P Require Import Blob RepoDB Catalog Ports Trust Upload.

Lemma elem_prefix {A} (x : A) h h' : h `prefix_of` h' → x ∈ h → x ∈ h'.
Proof. intros [l ->] Hx. apply elem_of_app. by left. Qed.

Lemma elem_snoc {A} (x : A) l : x ∈ l ++ [x].
Proof. apply elem_of_app. right. constructor. Qed.

Lemma prefix_snoc {A} (l : list A) x : l `prefix_of` l ++ [x].
Proof. by exists [x]. Qed.

Create HintDb history.
#[export] Hint Resolve elem_prefix elem_snoc prefix_snoc prefix_app_r : history.

(** What was in a history still is. *)
Ltac still := eapply elem_prefix; [|eassumption]; first [assumption | etrans; eassumption].

(** What holds of an event of an ordered log. *)
Lemma ordered_elem_of (K : list event → event → Prop) h log e :
  ordered K h log → e ∈ log → ∃ pre, h `prefix_of` pre ∧ K pre e.
Proof.
  intros Ho (l1 & l2 & ->)%list_elem_of_split. apply ordered_app in Ho as [_ [He _]].
  exists (h ++ l1). split; [by apply prefix_app_r|done].
Qed.

(** Events that change nothing. *)
Definition passive (e : event) : bool :=
  match e with
  | EvRead _ _ _ | EvFetch _ _ _ _ | EvArches _ _ | EvList _ _ _ | EvQuiet => true
  | _ => false
  end.

Definition was_committed (r : result error unit) : bool :=
  match r with Ok _ => true | Err e => CanonicalCommitted e end.

(** ** Architectures *)

Lemma concrete_foldl l acc : (∀ a, a ∈ acc.2 ↔ a ∈ acc.1) →
  let acc' := foldl concrete_step acc l in
  (∀ a, a ∈ acc'.2 ↔ a ∈ acc'.1) ∧ ∀ a, a ∈ acc'.1 ↔ a ∈ acc.1 ∨ a ∈ l ∧ a ≠ "" ∧ a ≠ "any".
Proof.
  revert acc. induction l as [|x l IH]; intros acc Hacc; simpl; [split; [done|set_solver]|].
  destruct (decide (x = "" ∨ x = "any" ∨ x ∈ acc.2)) as [Hx|Hx].
  - assert (concrete_step acc x = acc) as -> by (unfold concrete_step; by rewrite decide_True).
    destruct (IH acc Hacc) as [H1 H2].
    split; [done|]. intros a. rewrite H2. rewrite Hacc in Hx. destruct Hx as [->|[->|Hx]]; set_solver.
  - assert (concrete_step acc x = (acc.1 ++ [x], {[x]} ∪ acc.2)) as ->
      by (unfold concrete_step; by rewrite decide_False).
    destruct (IH (acc.1 ++ [x], {[x]} ∪ acc.2)) as [H1 H2].
    { intros a. simpl. rewrite elem_of_union, elem_of_app, Hacc. set_solver. }
    split; [done|]. intros a. rewrite H2. simpl. rewrite elem_of_app, list_elem_of_singleton, elem_of_cons.
    assert (x ≠ "" ∧ x ≠ "any") as [] by (split; intros ->; apply Hx; auto). naive_solver.
Qed.

(** The architectures that are not the pseudo-architecture. *)
Lemma elem_of_concreteArches a declared st :
  a ∈ concreteArches declared st ↔ a ∈ declared ++ st ∧ a ≠ "" ∧ a ≠ "any".
Proof.
  destruct (concrete_foldl (declared ++ st) ([], ∅)) as [_ H]; [set_solver|].
  unfold concreteArches. rewrite H. set_solver.
Qed.

(** ** What was read *)
Section reads.
Context (decode : string → result string tar_stream) (quote : string → string).
Context (catalog : RepositoryCatalog).
Context {R : RangeOrder}.
Implicit Types (h : list event) (cur : option publishedPackage).

(** A read of the local database of an architecture. *)
Definition read_of repo h arch (r : result error RemoteRepo) : Prop :=
  if isUpstreamRepo catalog repo
  then ∃ d, EvFetch repo arch (DatabaseArchive (Artifacts repo)) d ∈ h ∧
    r = (data ← d; map_err ErrReadDB (RemoteRepoFromDBContext decode quote (λ _, None) repo data))
  else EvRead repo arch r ∈ h.

(** The database was read, and listed this package under the name. *)
Definition listed repo h arch name cur : Prop := ∃ r, read_of repo h arch r ∧
  match r with
  | Ok rr => published_of arch rr name = Ok cur
  | Err e => is_not_found e = true ∧ cur = None
  end.

Lemma listed_mono repo h h' arch name cur :
  h `prefix_of` h' → listed repo h arch name cur → listed repo h' arch name cur.
Proof.
  intros Hp (r & Hr & H). exists r. split; [|done]. unfold read_of in *. destruct (isUpstreamRepo _ _).
  - destruct Hr as (d & Hd & ->). exists d. split; [by eapply elem_prefix|done].
  - by eapply elem_prefix.
Qed.

(** Package bytes that were fetched from the repository. *)
Definition spooled repo h arch filename (a : spooledPackage) : Prop :=
  (∃ data, EvFetch repo arch filename (Ok data) ∈ h ∧ sp_pkg a = mkSeekFile (path_base filename) data) ∧
  match sp_sig a with
  | Some s => ∃ data, EvFetch repo arch (filename +:+ ".sig") (Ok data) ∈ h
      ∧ s = mkSeekFile (path_base (filename +:+ ".sig")) data
  | None => True
  end.

Lemma spooled_mono repo h h' arch f a : h `prefix_of` h' → spooled repo h arch f a → spooled repo h' arch f a.
Proof.
  intros Hp [(d & Hd & E) Hs]. split; [exists d; split; [by eapply elem_prefix|done]|].
  destruct (sp_sig a) as [s|]; [|done]. destruct Hs as (d' & Hd' & E'). exists d'.
  split; [by eapply elem_prefix|done].
Qed.

(** The files of the package were stored. *)
Definition stored_again repo h arch (a : spooledPackage) : Prop :=
  ∀ f, Some f ∈ [Some (sp_pkg a); sp_sig a] → ∃ b, EvStore repo arch f (Ok b) ∈ h.

Lemma stored_again_mono repo h h' arch a :
  h `prefix_of` h' → stored_again repo h arch a → stored_again repo h' arch a.
Proof. intros Hp H f Hf. destruct (H f Hf) as (b & Hb). exists b. by eapply elem_prefix. Qed.

(** *** Programs that only read *)
Context (J : list event → event → Prop) (J_passive : ∀ h e, passive e = true → J h e).

Lemma spec_spoolFile repo h arch filename (Q : result error SeekFile → list event → Prop) :
  (∀ r h', h `prefix_of` h' →
     (∀ f, r = Ok f → ∃ data, EvFetch repo arch filename (Ok data) ∈ h' ∧ f = mkSeekFile (path_base filename) data) →
     Q r h') →
  spec J h (spoolRepositoryFile repo arch filename) Q.
Proof.
  intros HQ. apply spec_bind, spec_do. intros r. split; [by apply J_passive|].
  destruct r as [data|e]; [|apply HQ; [apply prefix_snoc|done]].
  apply spec_bind, spec_do. intros r. split; [by apply J_passive|].
  set (h2 := _ ++ _). assert (h `prefix_of` h2) as Hp by by do 2 apply prefix_app_r.
  destruct r as [[]|e]; [|by apply HQ]. apply spec_ret, HQ; [done|]. intros f [= <-].
  exists data. split; [|done]. eapply elem_prefix; [apply prefix_snoc|apply elem_snoc].
Qed.

Lemma spec_spool repo h arch filename (Q : result error spooledPackage → list event → Prop) :
  (∀ r h', h `prefix_of` h' → (∀ a, r = Ok a → spooled repo h' arch filename a) → Q r h') →
  spec J h (spoolPackage repo arch filename) Q.
Proof.
  intros HQ. apply spec_bind, spec_spoolFile. intros r h1 Hp1 H1. destruct r as [pkg|e]; [|by apply HQ].
  destruct (H1 pkg eq_refl) as (data & Hd & Ep). apply spec_bind, spec_catch, spec_spoolFile.
  intros r h2 Hp2 H2. assert (h `prefix_of` h2) as Hp by by etrans.
  assert (EvFetch repo arch filename (Ok data) ∈ h2) as Hd2 by (eapply elem_prefix; [exact Hp2|exact Hd]).
  destruct r as [sig|e].
  - apply spec_ret, HQ; [done|]. intros a [= <-]. split; [by exists data|]. by apply H2.
  - destruct (is_not_found e); apply spec_ret, HQ; try done. intros a [= <-]. split; [by exists data|done].
Qed.

Lemma spec_storedArches repo h (Q : result error (list string) → list event → Prop) :
  (∀ arches h', h `prefix_of` h' → Q (Ok arches) h') → spec J h (storedArches repo) Q.
Proof.
  intros HQ. apply spec_bind, spec_attempt. intros r. split; [by apply J_passive|].
  apply spec_ret, HQ, prefix_snoc.
Qed.

Lemma spec_repoArches repo h (Q : result error (list string) → list event → Prop) :
  (∀ stored h', h `prefix_of` h' → Q (Ok (concreteArches (declaredArches catalog repo) stored)) h') →
  spec J h (repoArches catalog repo) Q.
Proof. intros HQ. apply spec_bind, spec_storedArches. intros stored h' Hp. by apply spec_ret, HQ. Qed.

Lemma spec_lookupPublished repo h arch name (Q : result error (option publishedPackage) → list event → Prop) :
  (∀ r h', h `prefix_of` h' → (∀ cur, r = Ok cur → listed repo h' arch name cur) → Q r h') →
  spec J h (lookupPublished decode quote catalog repo arch name) Q.
Proof.
  intros HQ. apply spec_bind, spec_catch.
  assert (∀ r h', h `prefix_of` h' → read_of repo h' arch r → spec J h'
    (match r with
     | Err e => if is_not_found e then mret None else fail (WrapErr e "read repo db for version gate")
     | Ok current => ofResult (published_of arch current name)
     end) Q) as Hend.
  { intros r h' Hp Hr. destruct r as [rr|e].
    - apply spec_ret, HQ; [done|]. intros cur Hc. by exists (Ok rr).
    - destruct (is_not_found e) eqn:En; apply spec_ret, HQ; try done. intros cur [= <-]. by exists (Err e). }
  unfold overlayRepo. destruct (isUpstreamRepo catalog repo) eqn:Eu; cbn [negb].
  - apply spec_bind, spec_do. intros r. split; [by apply J_passive|]. destruct r as [data|e].
    + apply spec_ret, Hend; [apply prefix_snoc|]. unfold read_of. rewrite Eu. exists (Ok data). split; [apply elem_snoc|done].
    + apply (Hend (Err e)); [apply prefix_snoc|]. unfold read_of. rewrite Eu. exists (Err e). split; [apply elem_snoc|done].
  - apply spec_do. intros r. split; [by apply J_passive|]. apply Hend; [apply prefix_snoc|].
    unfold read_of. rewrite Eu. apply elem_snoc.
Qed.
End reads.

(** Storing a package that was fetched. *)
Lemma spec_storeSpooledPackage (J : list event → event → Prop) repo h arch a
    (Q : result error unit → list event → Prop) :
  (∀ h' f r, h `prefix_of` h' → Some f ∈ [Some (sp_pkg a); sp_sig a] → J h' (EvStore repo arch f r)) →
  (∀ r h', h `prefix_of` h' → (r = Ok tt → stored_again repo h' arch a) →
     (∀ e, r = Err e → ∃ f e, Some f ∈ [Some (sp_pkg a); sp_sig a] ∧ EvStore repo arch f (Err e) ∈ h') →
     Q r h') →
  spec J h (storeSpooledPackage repo arch a) Q.
Proof.
  intros HJ HQ. eapply spec_mono; [apply (spec_loop _ _ (λ done _ h',
    ∀ f, Some f ∈ done → ∃ b, EvStore repo arch f (Ok b) ∈ h')
    (λ _ h', ∃ f e, Some f ∈ [Some (sp_pkg a); sp_sig a] ∧ EvStore repo arch f (Err e) ∈ h'))|].
  - set_solver.
  - intros dn _ [f|] rest h1 El Hp1 Hdn; apply spec_wrapc.
    2: { apply spec_ret. intros f [Hf|Hf%list_elem_of_singleton]%elem_of_app; [by apply Hdn|done]. }
    assert (Some f ∈ [Some (sp_pkg a); sp_sig a]) as Hf by (rewrite El; set_solver).
    apply spec_bind, spec_do. intros r. split; [by apply HJ|].
    destruct r as [b|e]; [apply spec_ret|].
    + intros f' [Hf'|Hf'%list_elem_of_singleton]%elem_of_app.
      * destruct (Hdn f' Hf') as (b' & Hb'). exists b'. eapply elem_prefix; [apply prefix_snoc|done].
      * injection Hf' as ->. exists b. apply elem_snoc.
    + exists f, e. split; [done|apply elem_snoc].
  - intros r h' Hp Hr. destruct r as [[]|e]; by apply HQ.
Qed.

(** ** The publication lease *)

Definition lease_event (e : event) : bool :=
  match e with EvLease _ _ | EvRelease _ => true | _ => false end.

(** The lease is held. *)
Definition leased (repo : string) (h : list event) : Prop :=
  ∃ h1 h2, h = h1 ++ EvLease repo (Ok tt) :: h2 ∧ Forall (λ e, lease_event e = false) h2.

(** The lease was released, by the last event, if it was acquired. *)
Definition released (repo : string) (h : list event) : Prop :=
  EvLease repo (Ok tt) ∈ h → last h = Some (EvRelease repo).

Lemma ordered_leased (J K : list event → event → Prop) repo h log :
  (∀ h e, J h e → leased repo h → K h e ∧ lease_event e = false) →
  ordered J h log → leased repo h → ordered K h log ∧ leased repo (h ++ log).
Proof.
  intros HJ. revert h. induction log as [|e log IH]; intros h Ho Hl; simpl in *; [by rewrite app_nil_r|].
  destruct Ho as [Hj Ho]. destruct (HJ h e Hj Hl) as [HK Hn]. destruct (IH (h ++ [e])) as [Ho' Hl'].
  { done. }
  { destruct Hl as (h1 & h2 & -> & Hh2). exists h1, (h2 ++ [e]). rewrite <-(assoc_L (++)). split; [done|].
    apply Forall_app. split; [done|]. by apply Forall_singleton. }
  rewrite <-(assoc_L (++)) in Hl'. by split.
Qed.

(** A program under the lease: its events may rely on it, and it is released at the end. *)
Lemma spec_withLease {A} (J K : list event → event → Prop) repo h (m : comp A)
    (Q : result error A → list event → Prop) :
  (∀ h r, K h (EvLease repo r)) → (∀ h, K h (EvRelease repo)) →
  (∀ h e, J h e → leased repo h → K h e ∧ lease_event e = false) →
  (∀ r, EvLease repo r ∉ h) →
  (∀ e, Q (Err (WrapErr e "acquire repository publication lease")) (h ++ [EvLease repo (Err e)])) →
  spec J (h ++ [EvLease repo (Ok tt)]) m (λ r h', Q r (h' ++ [EvRelease repo])) →
  spec K h (withLease repo m) (λ r h', Q r h' ∧ released repo h').
Proof.
  intros HKl HKr HJ Hno Herr Hm. apply spec_bind, spec_wrapc, spec_do. intros r. split; [apply HKl|].
  destruct r as [[]|e].
  - apply spec_bind, spec_catch. eapply spec_lift; [exact Hm|].
    intros r log Ho HQ. destruct (ordered_leased J K repo _ _ HJ Ho) as [Ho' Hl].
    { exists h, []. split; [done|constructor]. }
    split; [done|]. apply spec_bind, spec_attempt. intros r'. split; [apply HKr|].
    apply spec_ret. split; [exact HQ|]. intros _. by rewrite last_snoc.
  - split; [apply Herr|]. intros [Hin|Hin]%elem_of_app; [by apply Hno in Hin|set_solver].
Qed.
