(* ===== verification/UploadHistory.v ===== *)
(** * Publishing uploads: the history of an upload

    Every change that an upload makes to the repository is justified by the events before
    it, for every answer of the repository and of the name store. *)

From S2P Require Import Prelude GoStrings KeyValue Pkginfo Artifact Constraint Package Dbwriter Repo Dbtool.
From S2P Require Import Blob RepoDB Catalog Ports Trust Upload History.

Section history.
Context (decode : string → result string tar_stream) (quote : string → string).
Context (vercmp : string → string → Z) (settings : Settings) (catalog : RepositoryCatalog).
Context {R : RangeOrder} (range_keys_arch : gset archKey → list archKey).
(** The repository published to, and the validated batch. *)
Context (repo : string) (us : list preparedUpload).

Implicit Types (h : list event) (u : preparedUpload) (cur : option publishedPackage) (rb : publicationRollback)
  (uploads : list preparedUpload).

(** ** What a history says *)

Abbreviation listed := (History.listed decode quote catalog repo).
Abbreviation spooled := (History.spooled repo).
Abbreviation stored_again := (History.stored_again repo).

Definition newer u cur : Prop := ∀ c, cur = Some c → (0 < vercmp (pkgVersion u) (version c))%Z.
Definition targets u arch : Prop := storeArch u = "any" ∨ arch = storeArch u.

(** The package [u] of the batch may replace what the architecture lists. *)
Definition gated h arch u cur : Prop :=
  u ∈ us ∧ targets u arch ∧ listed h arch (pkgName u) cur ∧ newer u cur.

Definition pkg_object u : SeekFile := mkSeekFile (storedName u) (Data (pkgStream u)).

(** The objects of the package, in its own architecture's directory. *)
Definition stored h u : Prop :=
  (∃ b, EvStore repo (storeArch u) (pkg_object u) (Ok b) ∈ h) ∧
  ∀ s, sigStream u = Some s → ∃ b, EvStore repo (storeArch u) (mkSeekFile (sigName u) (Data s)) (Ok b) ∈ h.

(** What is registered for it: on the condition that the database still lists [cur]. *)
Definition upload_item u cur : RepoAddItem :=
  mkItem (Some (pkgStream u)) (sigStream u) true (pkgName u)
    (from_option version "" cur) (from_option fileName "" cur) (pkgVersion u) (storedName u).

Definition uploaded h arch (item : RepoAddItem) : Prop :=
  ∃ u cur, gated h arch u cur ∧ stored h u ∧ item = upload_item u cur.

(** The registration may have been committed. *)
Definition published h arch u cur : Prop :=
  ∃ items r, EvPublish repo arch items r ∈ h ∧ was_committed r = true ∧ upload_item u cur ∈ items.

Definition restored h arch (item : RepoAddItem) : Prop :=
  ∃ u c a, u ∈ us ∧ published h arch u (Some c) ∧ spooled h (pub_storeArch c) (fileName c) a
    ∧ stored_again h (pub_storeArch c) a ∧ item = restore_item u a.

Definition backfilled h (item : RepoAddItem) : Prop :=
  ∃ filename a, IsArchive filename = true ∧ spooled h "any" filename a
    ∧ item = mkItem (Some (sp_pkg a)) (sp_sig a) false "" "" "" "" "".

(** ** Justified events *)
Definition justified h (e : event) : Prop :=
  match e with
  | EvPublish r arch items _ => r = repo ∧
      (Forall (backfilled h) items ∨ Forall (uploaded h arch) items
       ∨ ∃ item, items = [item] ∧ restored h arch item)
  | EvStore r arch file _ => r = repo ∧
      ((∃ u db cur, gated h db u cur ∧ arch = storeArch u ∧
          (file = pkg_object u ∨ ∃ s, sigStream u = Some s ∧ file = mkSeekFile (sigName u) (Data s)))
       ∨ ∃ u c a db, u ∈ us ∧ published h db u (Some c) ∧ arch = pub_storeArch c
           ∧ spooled h arch (fileName c) a ∧ Some file ∈ [Some (sp_pkg a); sp_sig a])
  | EvRemoveIfMatch r arch pkg v f _ => r = repo ∧
      ∃ u, u ∈ us ∧ published h arch u None ∧ pkg = pkgName u ∧ v = pkgVersion u ∧ f = storedName u
  | EvReconcile r arch _ => r = repo ∧ ∃ items r', EvPublish repo arch items r' ∈ h
  | EvMerge r _ _ | EvNames r _ _ | EvUnname r _ _ _ | EvInit r _ _ | EvBackfill r _ _ => r = repo
  | EvLease r _ | EvRelease r => r = repo
  | EvRemove _ _ _ _ | EvDelete _ _ _ _ | EvDeleteOrphan _ _ _ _ _ | EvSigner _ _ _ | EvUnsigner _ _ => False
  | EvRead _ _ _ | EvFetch _ _ _ _ | EvArches _ _ | EvList _ _ _ | EvQuiet => True
  end.

(** Everything but the creation of an architecture happens under the lease. *)
Definition needs_lease (e : event) : bool :=
  match e with
  | EvPublish _ _ items _ => existsb CheckCurrent items
  | EvStore _ _ _ _ | EvRemoveIfMatch _ _ _ _ _ _ | EvReconcile _ _ _ | EvMerge _ _ _
  | EvNames _ _ _ | EvUnname _ _ _ _ => true
  | _ => false
  end.

Definition J_seed h e : Prop := justified h e ∧ lease_event e = false ∧ needs_lease e = false.
Definition J_pub h e : Prop := justified h e ∧ lease_event e = false.
Definition J h e : Prop := justified h e ∧ (needs_lease e = true → leased repo h).

(** ** Facts that histories keep *)

Lemma gated_mono h h' arch u cur : h `prefix_of` h' → gated h arch u cur → gated h' arch u cur.
Proof. intros Hp (? & ? & Hl & ?). split_and!; try done. by eapply listed_mono. Qed.

Lemma stored_mono h h' u : h `prefix_of` h' → stored h u → stored h' u.
Proof.
  intros Hp [(b & Hb) Hs]. split; [exists b; by eapply elem_prefix|]. intros s Es.
  destruct (Hs s Es) as (b' & Hb'). exists b'. by eapply elem_prefix.
Qed.

Lemma published_mono h h' arch u cur : h `prefix_of` h' → published h arch u cur → published h' arch u cur.
Proof. intros Hp (items & r & Hi & ?). exists items, r. split; [by eapply elem_prefix|done]. Qed.

Lemma backfilled_mono h h' item : h `prefix_of` h' → backfilled h item → backfilled h' item.
Proof. intros Hp (f & a & ? & Hs & ?). exists f, a. split_and!; try done. by eapply spooled_mono. Qed.

#[local] Hint Resolve prefix_snoc prefix_app_r : core.

Lemma J_seed_passive h e : passive e = true → J_seed h e.
Proof. by destruct e. Qed.

(** ** Fetching and creating architectures *)

Lemma spec_backfillAnyInto h arch s (Q : result error unit → list event → Prop) :
  (∀ r h', h `prefix_of` h' → Q r h') → spec J_seed h (backfillAnyInto repo arch s) Q.
Proof.
  intros HQ. apply spec_bind, spec_attempt. intros r. split; [done|]. destruct r as [files|e].
  2: { destruct (is_not_found e); apply spec_ret, HQ; eauto. }
  apply spec_bind. eapply spec_mono; [apply (spec_fold _ _ (λ items h', Forall (backfilled h') items
    ∧ Forall (λ i, CheckCurrent i = false) items ∧ h `prefix_of` h') (λ _ h', h `prefix_of` h'))|].
  - split_and!; eauto.
  - intros items f h1 _ Hp1 (Hi & Hc & Hp). unfold backfill_item. destruct (IsArchive f) eqn:Ea; cbn [negb].
    2: { by apply spec_ret. }
    apply spec_bind, spec_wrapc, (spec_spool _ J_seed_passive). intros r h2 Hp2 H2. destruct r as [a|e]; simpl; [|by etrans].
    apply spec_ret. split_and!; [|by apply Forall_app; split; [|apply Forall_singleton]|by etrans].
    apply Forall_app. split.
    + eapply Forall_impl; [exact Hi|]. intros i Hi'. by eapply backfilled_mono.
    + apply Forall_singleton. exists f, a. split_and!; [done|by apply H2|done].
  - intros r h1 Hp1 H1. destruct r as [items|e]; [|by apply HQ]. destruct H1 as (Hi & Hc & Hp).
    case_decide; [by apply spec_ret, HQ|]. apply spec_do. intros r. split; [|apply HQ; by etrans; eauto].
    split; [split; [done|by left]|split; [done|]]. simpl. apply not_true_is_false. intros (i & Hi' & E)%existsb_exists.
    rewrite Forall_forall in Hc. rewrite (Hc i) in E; [done|]. by apply list_elem_of_In.
Qed.

Lemma spec_ensureArchSeeded h arch s (Q : result error unit → list event → Prop) :
  (∀ r h', h `prefix_of` h' → Q r h') → spec J_seed h (ensureArchSeeded repo arch s) Q.
Proof.
  intros HQ. apply spec_bind, spec_bind, spec_attempt. intros r1. split; [done|].
  apply spec_ret, spec_bind, spec_do. intros r2. split; [done|].
  set (h2 := (h ++ _) ++ _). assert (h `prefix_of` h2) as Hp2 by (by do 2 apply prefix_app_r).
  destruct r2 as [[]|e]; [|by apply HQ]. apply spec_bind.
  assert (∀ h3, h2 `prefix_of` h3 → spec J_seed h3 (if containsArch match r1 with Ok arches => arches | Err _ => [] end arch
    then mret tt else backfillAnyInto repo arch s) Q) as Hend.
  { intros h3 Hp3. assert (h `prefix_of` h3) by by etrans. destruct (containsArch _ _); [by apply spec_ret, HQ|].
    apply spec_backfillAnyInto. intros. apply HQ. by etrans. }
  destruct s; [|by apply spec_ret, Hend]. apply spec_do. intros r3. split; [done|].
  destruct r3 as [[]|e]; [by apply Hend, prefix_app_r|by apply HQ, prefix_app_r].
Qed.

Lemma spec_initRepo h s (Q : result error unit → list event → Prop) :
  (∀ r h', h `prefix_of` h' → Q r h') → spec J_seed h (initRepo catalog repo s) Q.
Proof.
  intros HQ. apply spec_bind, spec_bind, spec_bind, spec_attempt. intros r. split; [done|].
  apply spec_ret, spec_ret. eapply spec_mono; [apply (spec_fold _ _ (λ _ h', h `prefix_of` h') (λ _ h', h `prefix_of` h'))|].
  - apply prefix_snoc.
  - intros _ arch h' _ _ Hp. apply spec_ensureArchSeeded. intros r2 h2 Hp2. destruct r2; simpl; by etrans.
  - intros r2 h2 _ H2. destruct r2; by apply HQ.
Qed.

Lemma spec_ensureRepository h (Q : result error unit → list event → Prop) :
  (∀ r h', h `prefix_of` h' → Q r h') → spec J_seed h (ensureRepository settings catalog repo) Q.
Proof.
  intros HQ. apply spec_bind, spec_attempt. intros r. split; [done|]. destruct r as [[]|e].
  - apply spec_ret, HQ, prefix_snoc.
  - apply spec_wrapc, spec_initRepo. intros r h' Hp. apply HQ. etrans; [apply prefix_snoc|done].
Qed.

Lemma spec_seedNewArches h uploads (Q : result error unit → list event → Prop) :
  (∀ r h', h `prefix_of` h' → Q r h') → spec J_seed h (seedNewArches settings catalog repo uploads) Q.
Proof.
  intros HQ. unfold seedNewArches. destruct (AllowsNewArch _ _); cbn [negb]; [|by apply spec_ret, HQ].
  apply spec_bind, spec_bind, spec_attempt. intros r. split; [done|]. apply spec_ret, spec_bind.
  eapply spec_mono; [apply (spec_fold _ _ (λ _ h', h `prefix_of` h') (λ _ h', h `prefix_of` h'))|].
  - apply prefix_snoc.
  - intros stored u h' _ _ Hp. unfold seed_upload. case_decide; [by apply spec_ret|].
    apply spec_bind, spec_wrapc, spec_ensureArchSeeded. intros r2 h2 Hp2.
    destruct r2; [apply spec_ret|]; simpl; by etrans.
  - intros r2 h2 _ H2. destruct r2; [by apply spec_ret, HQ|by apply HQ].
Qed.

(** ** The version gate *)

(** The same package. *)
Definition same_package u u' : Prop :=
  pkgStream u' = pkgStream u ∧ sigStream u' = sigStream u ∧ pkgName u' = pkgName u
  ∧ pkgVersion u' = pkgVersion u ∧ storeArch u' = storeArch u ∧ storedName u' = storedName u ∧ sigName u' = sigName u.

(** The architecture already lists this version. *)
Definition settled h arch u : Prop :=
  ∃ c, listed h arch (pkgName u) (Some c) ∧ vercmp (pkgVersion u) (version c) = 0%Z.

(** [u'] is the package [u] with what the repository lists: the databases to register it in. *)
Record resolved h u u' : Prop := {
  resolved_same : same_package u u';
  resolved_gated : ∀ arch, arch ∈ dbArches u' → gated h arch u (oldByArch u' !! arch);
  resolved_old : ∀ arch, is_Some (oldByArch u' !! arch) → arch ∈ dbArches u';
}.
Definition accounted h u u' arch : Prop := arch ∈ dbArches u' ∨ settled h arch u.

(** The architectures that a package must be listed in: its own, or, for an arch=any
    package, at least one, those that are declared and those that the repository answered
    that it stores. *)
Definition belongs h u (arches : list string) : Prop :=
  if decide (storeArch u = "any")
  then arches ≠ [] ∧ ∃ r, EvArches repo r ∈ h ∧
    arches = concreteArches (declaredArches catalog repo) (match r with Ok stored => stored | Err _ => [] end)
  else arches = [storeArch u].

Lemma belongs_mono h h' u arches : h `prefix_of` h' → belongs h u arches → belongs h' u arches.
Proof.
  unfold belongs. intros Hp. case_decide; [|done]. intros (Hn & r & Hr & E).
  split; [done|]. exists r. split; [by eapply elem_prefix|done].
Qed.

Lemma settled_mono h h' arch u : h `prefix_of` h' → settled h arch u → settled h' arch u.
Proof. intros Hp (c & Hl & Hc). exists c. split; [by eapply listed_mono|done]. Qed.

Lemma resolved_mono h h' u u' : h `prefix_of` h' → resolved h u u' → resolved h' u u'.
Proof. intros Hp []. split; [done| |done]. intros arch Ha. eapply gated_mono; eauto. Qed.

Lemma accounted_mono h h' u u' arch : h `prefix_of` h' → accounted h u u' arch → accounted h' u u' arch.
Proof. intros Hp [H|H]; [by left|right; by eapply settled_mono]. Qed.

Lemma spec_targetArches h u (Q : result error (list string) → list event → Prop) :
  (∀ r h', h `prefix_of` h' → (∀ arches, r = Ok arches →
     (∀ arch, arch ∈ arches → targets u arch) ∧ belongs h' u arches) → Q r h') →
  spec J_seed h (targetArches catalog repo (storeArch u)) Q.
Proof.
  intros HQ. unfold targetArches. destruct (decide (storeArch u = "any")) as [Ea|Ea].
  2: { rewrite decide_True by done. apply spec_ret, HQ; [done|]. intros arches [= <-]. split.
       - intros arch ->%list_elem_of_singleton. by right.
       - unfold belongs. by rewrite decide_False by done. }
  rewrite decide_False by auto. apply spec_bind, spec_bind, spec_bind, spec_attempt. intros r. split; [done|].
  apply spec_ret, spec_ret. case_decide as Hlen; apply spec_ret, HQ; try done; [apply prefix_snoc..|].
  intros arches [= <-]. split; [by left|]. unfold belongs. rewrite decide_True by done.
  split; [by intros E; rewrite E in Hlen|]. exists r. split; [apply elem_snoc|done].
Qed.

Lemma gate_resolved h u u' arch cur u2 :
  u ∈ us → targets u arch → listed h arch (pkgName u) cur → resolved h u u' → arch ∉ dbArches u' →
  gate vercmp u' arch cur = Ok u2 →
  resolved h u u2 ∧ accounted h u u2 arch ∧ (∀ a, a ∈ dbArches u2 → a ∈ dbArches u' ∨ a = arch)
    ∧ ∀ a, a ∈ dbArches u' → a ∈ dbArches u2.
Proof.
  intros Hu Ht Hl [Hs Hg Ho] Hn Hgate. unfold gate in Hgate.
  assert (oldByArch u' !! arch = None) as En.
  { apply eq_None_not_Some. intros H. by apply Hn, Ho. }
  destruct Hs as (? & ? & Ename & Ever & ? & ? & ?). destruct cur as [c|].
  - destruct (_ <? 0)%Z eqn:Elt; [done|]. destruct (_ =? 0)%Z eqn:Eeq; simplify_eq.
    { split; [done|]. split; [|split; [by left|done]]. right. exists c. split; [done|].
      rewrite <-Ever. by apply Z.eqb_eq. }
    apply Z.ltb_ge in Elt. apply Z.eqb_neq in Eeq. cbn. split; [|split_and!; [left; cbn; set_solver|set_solver..]].
    split; [done| |].
    + cbn. intros a Ha. destruct (decide (a = arch)) as [->|Hne].
      * rewrite lookup_insert_eq. split_and!; [done..|]. intros c' [= <-]. rewrite <-Ever. lia.
      * rewrite lookup_insert_ne by done. apply Hg. set_solver.
    + cbn. intros a [->|Ha]%lookup_insert_is_Some'; set_solver.
  - simplify_eq. cbn. split; [|split_and!; [left; cbn; set_solver|set_solver..]].
    split; [done| |].
    + cbn. intros a [Ha| ->%list_elem_of_singleton]%elem_of_app; [by apply Hg|].
      rewrite En. split_and!; [done..|]. intros c. done.
    + cbn. intros a Ha. apply elem_of_app. left. by apply Ho.
Qed.

(** Wherever it belongs, the package is to be registered or is listed. *)
Definition listed_everywhere h u u' : Prop :=
  ∃ arches, belongs h u arches ∧ ∀ arch, arch ∈ arches → accounted h u u' arch.

Lemma listed_everywhere_mono h h' u u' :
  h `prefix_of` h' → listed_everywhere h u u' → listed_everywhere h' u u'.
Proof.
  intros Hp (arches & Hb & Ha). exists arches. split; [by eapply belongs_mono|].
  intros arch Harch. by eapply accounted_mono, Ha.
Qed.

Lemma spec_resolveUploadState h u (seen : gset archKey)
    (Q : result error (preparedUpload * gset archKey) → list event → Prop) :
  u ∈ us →
  (∀ r h', h `prefix_of` h' → (∀ u' seen', r = Ok (u', seen') →
     resolved h' u u' ∧ listed_everywhere h' u u') → Q r h') →
  spec J_seed h (resolveUploadState decode quote vercmp catalog repo u seen) Q.
Proof.
  intros Hu HQ. apply spec_bind, spec_targetArches. intros r h1 Hp1 Ht.
  destruct r as [arches|e]; [|by apply HQ]. destruct (Ht arches eq_refl) as [Htg Hreq].
  eapply spec_mono; [apply (spec_loop _ _ (λ done (acc : preparedUpload * gset archKey) h',
    resolved h' u acc.1 ∧ (∀ arch, arch ∈ dbArches acc.1 → (arch, pkgName u) ∈ acc.2)
    ∧ ∀ arch, arch ∈ done → accounted h' u acc.1 arch) (λ _ _, True))|].
  - split_and!; [|set_solver..]. split; [done|set_solver|]. cbn. intros arch [? E]. by rewrite lookup_empty in E.
  - intros dn [u' seen'] arch rest h' -> Hp' (Hr & Hseen & Hacc). simpl in *.
    assert (pkgName u' = pkgName u) as En by apply Hr. rewrite En.
    case_decide as Hd; [by apply spec_ret|]. apply spec_bind, (spec_lookupPublished _ _ _ _ J_seed_passive).
    intros r h2 Hp2 H2. destruct r as [cur|e]; [|done].
    destruct (gate vercmp u' arch cur) as [u2|e] eqn:Eg; [|by apply spec_ret]. apply spec_ret. simpl.
    destruct (gate_resolved h2 u u' arch cur u2) as (Hr2 & Ha2 & Hdb & Hin); [done|apply Htg; set_solver|by apply H2|
      by eapply resolved_mono|by intros ?%Hseen|done|].
    split_and!; [done| |].
    + intros a [Ha| ->]%Hdb; [|set_solver]. apply Hseen in Ha. set_solver.
    + intros a [Ha| ->%list_elem_of_singleton]%elem_of_app; [|done].
      destruct (Hacc a Ha) as [H|H]; [left; auto|right; by eapply settled_mono].
  - intros r h' Hp' Hr. apply HQ; [by etrans|]. intros u' seen' ->. destruct Hr as (Hr & _ & Ha).
    split; [done|]. exists arches. split; [by eapply belongs_mono|exact Ha].
Qed.

(** The batch, resolved; nothing that the repository must list is left out. *)
Definition complete h (uploads : list preparedUpload) : Prop :=
  Forall2 (λ u u', resolved h u u' ∧ listed_everywhere h u u') us uploads.

Lemma complete_mono h h' uploads : h `prefix_of` h' → complete h uploads → complete h' uploads.
Proof.
  intros Hp H. eapply Forall2_impl; [exact H|]. intros u u' [Hr Ha].
  split; [by eapply resolved_mono|by eapply listed_everywhere_mono].
Qed.

Lemma complete_elem h uploads u' : complete h uploads → u' ∈ uploads → ∃ u, u ∈ us ∧ resolved h u u'.
Proof.
  intros H Hu'. apply list_elem_of_lookup in Hu' as [i Hi].
  destruct (Forall2_lookup_r _ _ _ _ _ H Hi) as (u & Hu & Hr & _). exists u. split; [|done].
  by eapply list_elem_of_lookup_2.
Qed.

Lemma J_seed_pub h e : J_seed h e → J_pub h e.
Proof. by intros (? & ? & _). Qed.

Lemma spec_check_arch h u (Q : result error unit → list event → Prop) :
  (∀ r h', h `prefix_of` h' → Q r h') → spec J_seed h (check_arch catalog repo u) Q.
Proof.
  intros HQ. unfold check_arch. case_decide; [by apply spec_ret, HQ|].
  assert (∀ (b : bool) h', h `prefix_of` h' →
    spec J_seed h' (if b then mret tt else fail (invalid "arch is not served by the repository")) Q) as Hend.
  { intros [] h' Hp; by apply spec_ret, HQ. }
  apply spec_bind. unfold archAccepted. destruct (AllowsNewArch _ _); [by apply spec_ret, (Hend true)|].
  destruct (containsArch _ _); [by apply spec_ret, (Hend true)|].
  apply spec_bind, spec_bind, spec_attempt. intros r. split; [done|]. apply spec_ret.
  case_decide; apply spec_ret;
    [apply (Hend true)|apply (Hend (containsArch _ _))]; apply prefix_snoc.
Qed.

Lemma spec_resolveRepositoryState h (Q : result error (list preparedUpload) → list event → Prop) :
  (∀ r h', h `prefix_of` h' → (∀ uploads, r = Ok uploads → complete h' uploads) → Q r h') →
  spec J_seed h (resolveRepositoryState decode quote vercmp settings catalog repo us) Q.
Proof.
  intros HQ. apply spec_bind. eapply spec_mono; [apply (spec_fold _ _ (λ _ h', h `prefix_of` h') (λ _ h', h `prefix_of` h'))|].
  { done. }
  { intros _ u h' _ _ Hp. apply spec_check_arch. intros r h2 Hp2. destruct r; simpl; by etrans. }
  intros r h1 _ H1. destruct r as [[]|e]; [|by apply HQ].
  apply spec_bind, spec_seedNewArches.
  intros r h2 Hp2. destruct r as [[]|e]; [|by apply HQ; [etrans|]]. apply spec_bind.
  eapply spec_mono; [apply (spec_loop _ _ (λ done (acc : list preparedUpload * gset archKey) h',
    Forall2 (λ u u', resolved h' u u' ∧ listed_everywhere h' u u') done acc.1) (λ _ _, True))|].
  { constructor. }
  { intros dn acc u rest h' Hus Hp' Hdone. apply spec_bind, spec_resolveUploadState.
    { rewrite Hus. set_solver. }
    intros r h3 Hp3 H3. destruct r as [[u' seen']|e]; [|done]. apply spec_ret. simpl. apply Forall2_app.
    - eapply Forall2_impl; [exact Hdone|]. intros x y [Hr Ha].
      split; [by eapply resolved_mono|by eapply listed_everywhere_mono].
    - constructor; [by apply (H3 u' seen')|constructor]. }
  intros r h3 Hp3 H3. assert (h `prefix_of` h3) by (do 2 (etrans; [done|]); done).
  destruct r as [acc|e]; [|by apply HQ]. apply spec_ret, HQ; [done|]. by intros uploads [= <-].
Qed.

(** ** The batches *)

(** [done] lists the pairs of an upload and an architecture that have been added. *)
Definition batches_ok (done : list (preparedUpload * string)) (b : archBatches) : Prop :=
  (∀ u arch, u ∈ batch_of b arch ↔ (u, arch) ∈ done)
  ∧ ∀ arch, arch ∈ archOrder b ↔ is_Some (byArch b !! arch).

Lemma batch_add_ok u done b arch : batches_ok done b → batches_ok (done ++ [(u, arch)]) (batch_add u b arch).
Proof.
  intros [Hb Ho]. unfold batch_add. destruct (byArch b !! arch) as [l|] eqn:El; split.
  all: intros x; unfold batch_of; simpl.
  1, 3: intros a; destruct (decide (a = arch)) as [->|Hne];
    [rewrite lookup_insert_eq|rewrite lookup_insert_ne by done; fold (batch_of b a)];
    rewrite elem_of_app, list_elem_of_singleton, <-Hb; unfold batch_of; rewrite ?El; simpl; set_solver.
  - rewrite Ho, lookup_insert_is_Some'. split; [auto|]. by intros [->|]; [eexists|].
  - rewrite elem_of_app, Ho, lookup_insert_is_Some', list_elem_of_singleton. naive_solver.
Qed.

Lemma buildArchBatches_ok uploads : batches_ok (uploads ≫= λ u, map (u,.) (dbArches u)) (buildArchBatches uploads).
Proof.
  unfold buildArchBatches.
  enough (∀ done b, batches_ok done b → batches_ok (done ++ (uploads ≫= λ u, map (u,.) (dbArches u)))
    (foldl (λ b u, foldl (batch_add u) b (dbArches u)) b uploads)) as H.
  { apply (H [] (mkBatches ∅ [])). split.
    - intros u arch. unfold batch_of. simpl. rewrite lookup_empty. set_solver.
    - intros arch. simpl. rewrite lookup_empty. split; [set_solver|by intros []]. }
  induction uploads as [|u uploads IH]; intros dn b Hb; simpl; [by rewrite app_nil_r|].
  rewrite (assoc_L (++)). apply IH.
  assert (∀ l dn b, batches_ok dn b → batches_ok (dn ++ map (u,.) l) (foldl (batch_add u) b l)) as Hin.
  { induction l as [|a l IHl]; intros dn' b' Hb'; simpl; [by rewrite app_nil_r|].
    apply batch_add_ok with (u := u) (arch := a) in Hb'. specialize (IHl _ _ Hb').
    by rewrite <-(assoc_L (++)) in IHl. }
  by apply Hin.
Qed.

Lemma elem_of_batch uploads u arch :
  u ∈ batch_of (buildArchBatches uploads) arch ↔ u ∈ uploads ∧ arch ∈ dbArches u.
Proof.
  destruct (buildArchBatches_ok uploads) as [H _]. rewrite H, list_elem_of_bind. split.
  - intros (u' & Hin & Hu'). apply list_elem_of_fmap in Hin as (a & [= -> ->] & Ha). done.
  - intros [Hu Ha]. exists u. split; [|done]. apply list_elem_of_fmap. eauto.
Qed.

Lemma elem_of_archOrder uploads u arch :
  u ∈ uploads → arch ∈ dbArches u → arch ∈ archOrder (buildArchBatches uploads).
Proof.
  intros Hu Ha. destruct (buildArchBatches_ok uploads) as [_ H]. apply H.
  assert (u ∈ batch_of (buildArchBatches uploads) arch) as Hb by by apply elem_of_batch.
  unfold batch_of in Hb. destruct (_ !! arch); [by eexists|simpl in Hb; set_solver].
Qed.

(** ** Capturing what is replaced *)

(** The bytes of every package that the batch replaces are at hand. *)
Record captured h (uploads : list preparedUpload) (rb : publicationRollback) : Prop := {
  captured_spooled : ∀ key a, oldArtifacts rb !! key = Some a → spooled h key.1 key.2 a;
  captured_all : ∀ u arch old, u ∈ uploads → oldByArch u !! arch = Some old →
    is_Some (oldArtifacts rb !! (pub_storeArch old, fileName old));
}.

Lemma captured_mono h h' uploads rb : h `prefix_of` h' → captured h uploads rb → captured h' uploads rb.
Proof. intros Hp [Hs Ha]. split; [|done]. intros key a Hk. eapply spooled_mono; eauto. Qed.

Definition has_artifact rb (old : publishedPackage) : Prop :=
  is_Some (oldArtifacts rb !! (pub_storeArch old, fileName old)).

Lemma spec_capture_old h u rb old (Q : result error publicationRollback → list event → Prop) :
  (∀ key a, oldArtifacts rb !! key = Some a → spooled h key.1 key.2 a) →
  (∀ r h', h `prefix_of` h' → (∀ rb', r = Ok rb' →
     (∀ key a, oldArtifacts rb' !! key = Some a → spooled h' key.1 key.2 a)
     ∧ has_artifact rb' old ∧ (∀ o, has_artifact rb o → has_artifact rb' o)
     ∧ committedArches rb' = committedArches rb ∧ needsReconcile rb' = needsReconcile rb) → Q r h') →
  spec J_seed h (capture_old repo u rb old) Q.
Proof.
  intros Hs HQ. unfold capture_old. case_decide as Hd.
  { apply spec_ret, HQ; [done|]. intros rb' [= <-]. split_and!; [exact Hs|exact Hd|done..]. }
  apply spec_bind, spec_wrapc, (spec_spool _ J_seed_passive). intros r h' Hp Hr. destruct r as [a|e]; simpl; [|by apply HQ].
  apply spec_ret, HQ; [done|]. intros rb' [= <-]. unfold has_artifact. cbn. split_and!; [| | |done..].
  - intros key a' [[<- <-]|[_ Ha]]%lookup_insert_Some; [by apply Hr|]. eapply spooled_mono; eauto.
  - by rewrite lookup_insert_eq.
  - intros o Ho. apply lookup_insert_is_Some'. by right.
Qed.

Lemma spec_capture h uploads (Q : result error publicationRollback → list event → Prop) :
  (∀ r h', h `prefix_of` h' → (∀ rb, r = Ok rb → captured h' uploads rb ∧ committedArches rb = [] ∧ needsReconcile rb = ∅) → Q r h') →
  spec J_seed h (capture repo uploads) Q.
Proof.
  intros HQ. eapply spec_mono; [apply (spec_loop _ _ (λ done rb h',
    captured h' done rb ∧ committedArches rb = [] ∧ needsReconcile rb = ∅) (λ _ _, True))|].
  - split; [split|done]; [|set_solver]. intros key a. cbn. by rewrite lookup_empty.
  - intros dn rb u rest h1 _ Hp1 ([Hs Hall] & Hc & Hn).
    eapply spec_mono; [apply (spec_loop _ _ (λ olds rb' h',
      (∀ key a, oldArtifacts rb' !! key = Some a → spooled h' key.1 key.2 a)
      ∧ (∀ o, o ∈ olds → has_artifact rb' o) ∧ (∀ o, has_artifact rb o → has_artifact rb' o)
      ∧ committedArches rb' = [] ∧ needsReconcile rb' = ∅) (λ _ _, True))|].
    + split_and!; [done|set_solver|done..].
    + intros olds rb' o rest' h2 _ Hp2 (Hs' & Ho & Hk & Hc' & Hn'). apply spec_capture_old; [done|].
      intros r h3 Hp3 H3. destruct r as [rb2|e]; [|done]. destruct (H3 rb2 eq_refl) as (Hs2 & Hn2 & Hk2 & Hc2 & Hr2).
      split_and!; [done| |auto|congruence..].
      intros o' [Ho'| ->%list_elem_of_singleton]%elem_of_app; auto.
    + intros r h2 Hp2 H2. destruct r as [rb2|e]; [|done]. destruct H2 as (Hs2 & Ho2 & Hk2 & Hc2 & Hn2).
      split; [split; [done|]|done]. intros u' arch old [Hu'| ->%list_elem_of_singleton]%elem_of_app Hold.
      * eapply Hk2, Hall; eauto.
      * apply Ho2. apply list_elem_of_fmap. exists (arch, old). split; [done|]. by apply elem_of_range_map.
  - intros r h' Hp Hr. apply HQ; [done|]. by intros rb ->.
Qed.

(** ** Storing the objects *)

(** No registration of an upload: what a batch registers has an intended file. *)
Definition quiet (e : event) : Prop :=
  match e with
  | EvPublish _ _ items _ => Forall (λ i, CheckCurrent i = true → IntendedFile i = "") items
  | _ => True
  end.
Definition J_quiet h e : Prop := J_pub h e ∧ quiet e.

Lemma J_seed_quiet h e : J_seed h e → J_quiet h e.
Proof.
  intros (? & ? & Hn). split; [done|]. destruct e; try done. simpl in *. apply Forall_forall.
  intros i Hi Hc. exfalso. apply not_true_iff_false in Hn. apply Hn, existsb_exists. exists i.
  by rewrite <-list_elem_of_In.
Qed.

Lemma resolved_stored h h' u u' : resolved h u u' → stored h' u' → stored h' u.
Proof.
  intros [(E1 & E2 & E3 & E4 & E5 & E6 & E7) _ _] [Hs Hg]. unfold stored, pkg_object in *.
  rewrite E1, E2, E5, E6, E7 in *. done.
Qed.

Lemma spec_storeObject h arch kind name file (Q : result error unit → list event → Prop) :
  (∀ f, file = Some f → ∀ r, J_quiet h (EvStore repo arch (mkSeekFile name (Data f)) r)) →
  (∀ r h', h `prefix_of` h' → (r = Ok tt → ∀ f, file = Some f →
     ∃ b, EvStore repo arch (mkSeekFile name (Data f)) (Ok b) ∈ h') → Q r h') →
  spec J_quiet h (storeObject repo arch kind name file) Q.
Proof.
  intros HJ HQ. destruct file as [f|]; [|by apply spec_ret, HQ].
  apply spec_bind, spec_catch, spec_bind, spec_do. intros r. split; [by apply HJ|].
  destruct r as [b|e].
  - apply spec_ret, spec_ret, HQ; [apply prefix_snoc|]. intros _ f' [= <-]. exists b. apply elem_snoc.
  - cbn. destruct (is_immutable_conflict e); apply spec_ret, HQ; try done; apply prefix_snoc.
Qed.

Lemma resolved_object h h' u u' arch name f : resolved h u u' → h `prefix_of` h' → dbArches u' ≠ [] →
  arch = storeArch u →
  mkSeekFile name (Data f) = pkg_object u ∨ (∃ s, sigStream u = Some s ∧ mkSeekFile name (Data f) = mkSeekFile (sigName u) (Data s)) →
  ∀ r, J_quiet h' (EvStore repo arch (mkSeekFile name (Data f)) r).
Proof.
  intros Hr Hp Hne -> Hf r. split; [|done]. split; [|done]. split; [done|]. left.
  destruct (dbArches u') as [|db l] eqn:Ed; [done|].
  exists u, db, (oldByArch u' !! db). split; [|done]. eapply gated_mono; [done|].
  apply (resolved_gated _ _ _ Hr). rewrite Ed. constructor.
Qed.

Lemma spec_store_upload h u u' (Q : result error unit → list event → Prop) :
  resolved h u u' →
  (∀ r h', h `prefix_of` h' → (r = Ok tt → dbArches u' ≠ [] → stored h' u) → Q r h') →
  spec J_quiet h (store_upload repo u') Q.
Proof.
  intros Hr HQ. unfold store_upload. case_decide as Hd; [apply spec_ret, HQ; [done|]|].
  { intros _ Hne. by destruct (dbArches u'). }
  assert (dbArches u' ≠ []) as Hne by (intros E; by rewrite E in Hd).
  destruct (resolved_same _ _ _ Hr) as (E1 & E2 & E3 & E4 & E5 & E6 & E7). rewrite E1, E2, E5, E6, E7.
  apply spec_bind, spec_storeObject.
  { intros f [= <-]. eapply resolved_object; eauto. }
  intros r h1 Hp1 H1. destruct r as [[]|e]; [|by apply HQ]. apply spec_storeObject.
  { intros f Hf. eapply resolved_object; eauto. }
  intros r h2 Hp2 H2. apply HQ; [by etrans|]. intros -> _. split; [|by apply H2].
  destruct (H1 eq_refl _ eq_refl) as (b & Hb). exists b. by eapply elem_prefix.
Qed.

(** Every package that is to be registered is in place. *)
Definition all_stored h (uploads : list preparedUpload) : Prop :=
  ∀ u u', u' ∈ uploads → resolved h u u' → dbArches u' ≠ [] → stored h u.

Lemma same_stored h u1 u2 u' : same_package u1 u' → same_package u2 u' → stored h u1 → stored h u2.
Proof.
  intros (E1 & E2 & E3 & E4 & E5 & E6 & E7) (F1 & F2 & F3 & F4 & F5 & F6 & F7). unfold stored, pkg_object.
  by rewrite <-E1, <-E2, <-E5, <-E6, <-E7, F1, F2, F5, F6, F7.
Qed.

Lemma spec_storeObjects h uploads (Q : result error unit → list event → Prop) :
  complete h uploads →
  (∀ r h', h `prefix_of` h' → (r = Ok tt → all_stored h' uploads) → Q r h') →
  spec J_quiet h (storeObjects repo uploads) Q.
Proof.
  intros Hc HQ. eapply spec_mono; [apply (spec_loop _ _ (λ done _ h',
    ∀ u u', u' ∈ done → same_package u u' → dbArches u' ≠ [] → stored h' u) (λ _ _, True))|].
  - set_solver.
  - intros dn _ u' rest h' -> Hp Hdn. destruct (complete_elem h _ u' Hc) as (u & Hu & Hr); [set_solver|].
    eapply spec_store_upload; [by eapply resolved_mono|]. intros r h2 Hp2 H2. destruct r as [[]|e]; [|done].
    intros v v' [Hv| ->%list_elem_of_singleton]%elem_of_app Hsame Hne.
    + eapply stored_mono; [done|]. by eapply Hdn.
    + eapply same_stored; [apply (resolved_same _ _ _ Hr)|exact Hsame|]. by apply H2.
  - intros r h' Hp Hr. apply HQ; [done|]. intros -> u u' Hu' Hres. by apply (Hr u u'), Hres.
Qed.

(** ** Registering the batches *)

Definition batch_items uploads arch : list RepoAddItem :=
  map (repoAddItem arch) (batch_of (buildArchBatches uploads) arch).

Definition committed h uploads arch : Prop :=
  ∃ r, EvPublish repo arch (batch_items uploads arch) r ∈ h ∧ was_committed r = true.

(** The registrations of the history are those of these architectures. *)
Definition tracked h uploads (arches : list string) : Prop :=
  ∀ arch items r i, EvPublish repo arch items r ∈ h → was_committed r = true →
    i ∈ items → CheckCurrent i = true → IntendedFile i ≠ "" →
    arch ∈ arches ∧ items = batch_items uploads arch.

(** The rollback state accounts for what has been done. *)
Record progress h uploads (rb : publicationRollback) : Prop := {
  progress_captured : captured h uploads rb;
  progress_committed : ∀ arch, arch ∈ committedArches rb → committed h uploads arch;
  progress_reconcile : ∀ arch, arch ∈ needsReconcile rb → arch ∈ committedArches rb;
  progress_tracked : tracked h uploads (committedArches rb);
}.

Lemma committed_mono h h' uploads arch : h `prefix_of` h' → committed h uploads arch → committed h' uploads arch.
Proof. intros Hp (r & Hr & Hc). exists r. split; [by eapply elem_prefix|done]. Qed.

Lemma tracked_quiet h log uploads arches :
  ordered J_quiet h log → tracked h uploads arches → tracked (h ++ log) uploads arches.
Proof.
  intros Ho Ht arch items r i [Hin|Hin]%elem_of_app Hr Hi Hc Hf; [by eapply Ht|].
  destruct (ordered_elem_of _ _ _ _ Ho Hin) as (pre & _ & _ & Hq).
  exfalso. apply Hf. simpl in Hq. rewrite Forall_forall in Hq. by apply Hq.
Qed.

Lemma repoAddItem_resolved h u u' arch : resolved h u u' → repoAddItem arch u' = upload_item u (oldByArch u' !! arch).
Proof.
  intros [(E1 & E2 & E3 & E4 & E5 & E6 & E7) _ _]. unfold repoAddItem, upload_item. by rewrite E1, E2, E3, E4, E6.
Qed.

Lemma batch_uploaded h uploads arch : complete h uploads → all_stored h uploads →
  Forall (uploaded h arch) (batch_items uploads arch).
Proof.
  intros Hc Hs. apply Forall_forall. intros i Hi. apply list_elem_of_fmap in Hi as (u' & -> & Hu').
  apply elem_of_batch in Hu' as [Hu' Ha]. destruct (complete_elem _ _ _ Hc Hu') as (u & Hu & Hr).
  exists u, (oldByArch u' !! arch). split_and!.
  - by apply (resolved_gated _ _ _ Hr).
  - eapply Hs; [done..|]. intros E. rewrite E in Ha. set_solver.
  - by eapply repoAddItem_resolved.
Qed.

Lemma progress_publish h uploads rb rb' arch r : progress h uploads rb → was_committed r = true →
  oldArtifacts rb' = oldArtifacts rb → committedArches rb' = committedArches rb ++ [arch] →
  (∀ a, a ∈ needsReconcile rb' → a ∈ needsReconcile rb ∨ a = arch) →
  progress (h ++ [EvPublish repo arch (batch_items uploads arch) r]) uploads rb'.
Proof.
  intros [[Hs Ha] Hcm Hre Htr] Hr Eo Ec Hn. split.
  - split; rewrite Eo; [|done]. intros key a Hk. eapply spooled_mono; [apply prefix_snoc|by apply Hs].
  - rewrite Ec. intros a [Ha'| ->%list_elem_of_singleton]%elem_of_app.
    + eapply committed_mono; [apply prefix_snoc|by apply Hcm].
    + exists r. split; [apply elem_snoc|done].
  - rewrite Ec. intros a [Ha'| ->]%Hn; apply elem_of_app; [left; by apply Hre|right; constructor].
  - rewrite Ec. intros a items r' i [Hin|[= -> -> ->]%list_elem_of_singleton]%elem_of_app Hr' Hi Hc Hf.
    + destruct (Htr a items r' i) as [? ?]; [done..|]. split; [apply elem_of_app; by left|done].
    + split; [apply elem_of_app; right; constructor|done].
Qed.

Lemma progress_failed h uploads rb arch r : progress h uploads rb → was_committed r = false →
  progress (h ++ [EvPublish repo arch (batch_items uploads arch) r]) uploads rb.
Proof.
  intros [Hc Hcm Hre Htr] Hr. split; [by eapply captured_mono; [apply prefix_snoc|]| |done|].
  - intros a Ha. eapply committed_mono; [apply prefix_snoc|by apply Hcm].
  - intros a items r' i [Hin|[= -> -> ->]%list_elem_of_singleton]%elem_of_app Hr' Hi Hc' Hf.
    + by eapply Htr.
    + congruence.
Qed.

Lemma spec_commit_arches h uploads rb arches
    (Q : result error (publicationRollback * result error unit) → list event → Prop) :
  complete h uploads → all_stored h uploads → progress h uploads rb →
  (∀ rb' r h', h `prefix_of` h' → progress h' uploads rb' →
     (r = Ok tt → ∀ arch, arch ∈ arches → EvPublish repo arch (batch_items uploads arch) (Ok tt) ∈ h') →
     Q (Ok (rb', r)) h') →
  spec J_pub h (commit_arches settings repo (buildArchBatches uploads) rb arches) Q.
Proof.
  revert h rb Q. induction arches as [|arch arches IH]; intros h rb Q Hc Hs Hp HQ; cbn [commit_arches].
  { apply spec_ret, HQ; [done..|]. set_solver. }
  apply spec_bind, spec_attempt. intros r. split; [split; [split; [done|]|done]|].
  { right. left. by apply batch_uploaded. }
  set (h1 := h ++ _). assert (h `prefix_of` h1) as Hp1 by apply prefix_snoc.
  assert (h1 = h ++ [EvPublish repo arch (batch_items uploads arch) r]) as Eh by done. clearbody h1.
  destruct r as [[]|e].
  - apply IH.
    + by eapply complete_mono.
    + intros u u' Hu' Hr Hne. eapply stored_mono; [done|].
      destruct (complete_elem _ _ _ Hc Hu') as (v & Hv & Hr').
      eapply same_stored; [apply (resolved_same _ _ _ Hr')|apply (resolved_same _ _ _ Hr)|]. by eapply Hs.
    + rewrite Eh. eapply progress_publish with (rb := rb); try done. cbn. auto.
    + intros rb' r h' Hp' Hprog Hok. apply HQ; [by etrans|done|].
      intros -> a [->|Ha]%elem_of_cons; [|by apply Hok].
      eapply elem_prefix; [done|]. rewrite Eh. apply elem_snoc.
  - apply spec_ret. apply HQ; [done| |done]. rewrite Eh. destruct (CanonicalCommitted e) eqn:Ec.
    + eapply progress_publish with (rb := rb); try done. cbn. set_solver.
    + by apply progress_failed.
Qed.

(** ** Undoing *)

(** The registration was undone, or the attempt to undo it failed: the package is removed if
    it is still the listed one, or what it replaced is put back in its place. *)
Definition compensated h arch u cur : Prop :=
  match cur with
  | None => ∃ r, EvRemoveIfMatch repo arch (pkgName u) (pkgVersion u) (storedName u) r ∈ h
  | Some c => ∃ a, spooled h (pub_storeArch c) (fileName c) a ∧
      ((∃ r, EvPublish repo arch [restore_item u a] r ∈ h)
       ∨ ∃ f e, Some f ∈ [Some (sp_pkg a); sp_sig a] ∧ EvStore repo (pub_storeArch c) f (Err e) ∈ h)
  end.

Lemma compensated_mono h h' arch u cur : h `prefix_of` h' → compensated h arch u cur → compensated h' arch u cur.
Proof.
  intros Hp. destruct cur as [c|]; simpl.
  - intros (a & Hs & H). exists a. split; [by eapply spooled_mono|]. destruct H as [[r Hr]|(f & e & Hf & He)].
    + left. exists r. by eapply elem_prefix.
    + right. exists f, e. split; [done|by eapply elem_prefix].
  - intros [r Hr]. exists r. by eapply elem_prefix.
Qed.

Lemma spec_restorePackage h arch uploads rb u u' (Q : result error unit → list event → Prop) :
  u ∈ us → u' ∈ uploads → resolved h u u' → captured h uploads rb → published h arch u (oldByArch u' !! arch) →
  (∀ r h', h `prefix_of` h' → compensated h' arch u (oldByArch u' !! arch) → Q r h') →
  spec J_quiet h (restorePackage settings repo arch rb u') Q.
Proof.
  intros Hu Hu' Hr [Hsp Hall] Hpub HQ. unfold restorePackage.
  destruct (resolved_same _ _ _ Hr) as (E1 & E2 & E3 & E4 & E5 & E6 & E7).
  destruct (oldByArch u' !! arch) as [c|] eqn:Ec.
  - destruct (Hall u' arch c Hu' Ec) as [a Ha]. rewrite Ha. specialize (Hsp _ _ Ha). simpl in Hsp.
    apply spec_bind, spec_storeSpooledPackage.
    { intros h1 f r Hp1 Hf. split; [|done]. split; [|done]. split; [done|]. right. exists u, c, a, arch.
      split_and!; [done|by eapply published_mono|done|by eapply spooled_mono|done]. }
    intros r h1 Hp1 Hok Herr.
    destruct r as [[]|e].
    + assert (restore_item u' a = restore_item u a) as -> by (unfold restore_item; by rewrite E3, E4, E6).
      apply spec_do. intros r. split.
      { split; [split; [split; [done|]|done]|].
        - right. right. exists (restore_item u a). split; [done|]. exists u, c, a.
          split_and!; [done|by eapply published_mono|by eapply spooled_mono|by apply Hok|done].
        - by apply Forall_singleton. }
      apply HQ; [etrans; [done|apply prefix_snoc]|]. exists a. split; [|left; exists r; apply elem_snoc].
      eapply spooled_mono; [|done]. etrans; [done|apply prefix_snoc].
    + apply HQ; [done|]. exists a. split; [by eapply spooled_mono|right]. by eapply Herr.
  - rewrite E3, E4, E6. apply spec_do. intros r. split.
    { split; [|done]. split; [|done]. split; [done|]. by exists u. }
    apply HQ; [apply prefix_snoc|]. exists r. apply elem_snoc.
Qed.

(** A committed batch published each of its packages. *)
Lemma committed_published h uploads arch u u' : committed h uploads arch → resolved h u u' →
  u' ∈ batch_of (buildArchBatches uploads) arch → published h arch u (oldByArch u' !! arch).
Proof.
  intros (r & Hr & Hc) Hres Hu'. exists (batch_items uploads arch), r. split_and!; [done..|].
  erewrite <-repoAddItem_resolved by done. by apply list_elem_of_fmap_2.
Qed.

(** The packages of these architectures were undone. *)
Definition undone h uploads (arches : list string) : Prop :=
  ∀ u u' arch, arch ∈ arches → u' ∈ batch_of (buildArchBatches uploads) arch → same_package u u' →
    compensated h arch u (oldByArch u' !! arch).

Lemma same_compensated h u1 u2 u' arch cur : same_package u1 u' → same_package u2 u' →
  compensated h arch u1 cur → compensated h arch u2 cur.
Proof.
  intros (E1 & E2 & E3 & E4 & E5 & E6 & E7) (F1 & F2 & F3 & F4 & F5 & F6 & F7).
  unfold compensated, restore_item. by rewrite <-E3, <-E4, <-E6, F3, F4, F6.
Qed.

Lemma spec_restoreArch h uploads rb (acc : gset string * gset archKey) (arch : string)
    (Q : result error (gset string * gset archKey) → list event → Prop) :
  complete h uploads → captured h uploads rb → committed h uploads arch →
  (∀ acc' h', h `prefix_of` h' → (∀ a, a ∈ acc'.1 → a ∈ acc.1 ∨ a = arch) → undone h' uploads [arch] → Q (Ok acc') h') →
  spec J_quiet h (restoreArch settings repo (buildArchBatches uploads) rb acc arch) Q.
Proof.
  intros Hc Hcap Hcm HQ. eapply spec_mono; [apply (spec_loop _ _ (λ done (acc' : gset string * gset archKey) h',
    (∀ a, a ∈ acc'.1 → a ∈ acc.1 ∨ a = arch)
    ∧ ∀ u u', u' ∈ done → same_package u u' → compensated h' arch u (oldByArch u' !! arch)) (λ _ _, False))|].
  - split; [auto|set_solver].
  - intros dn acc' u' rest h1 Hb Hp1 [Hacc Hdn].
    assert (u' ∈ batch_of (buildArchBatches uploads) arch) as Hu' by (rewrite Hb; set_solver).
    pose proof Hu' as [Hin _]%elem_of_batch. destruct (complete_elem _ _ _ Hc Hin) as (u & Hu & Hr).
    apply spec_bind, spec_catch. eapply (spec_restorePackage _ _ uploads _ u); try done.
    { by eapply resolved_mono. } { by eapply captured_mono. }
    { eapply published_mono; [done|]. by eapply committed_published. }
    intros r h2 Hp2 H2. apply spec_ret. split.
    + destruct r as [[]|e]; [done|]. destruct (CanonicalCommitted e); simpl; [|done].
      intros a [->%elem_of_singleton|Ha]%elem_of_union; auto.
    + intros v v' [Hv| ->%list_elem_of_singleton]%elem_of_app Hs.
      * eapply compensated_mono; [done|]. by apply Hdn.
      * eapply same_compensated; [apply (resolved_same _ _ _ Hr)|done|done].
  - intros r h' Hp Hr. destruct r as [acc'|e]; [|done]. destruct Hr as [Hacc Hdn].
    apply HQ; [done..|]. intros u u' a ->%list_elem_of_singleton Hu' Hs. by apply Hdn.
Qed.

Lemma undone_mono h h' uploads arches : h `prefix_of` h' → undone h uploads arches → undone h' uploads arches.
Proof. intros Hp H u u' arch Ha Hu' Hs. eapply compensated_mono; [done|by eapply H]. Qed.

Lemma spec_restoreNames h uploads rb (protected : gset archKey) (Q : result error unit → list event → Prop) :
  (∀ r h', h `prefix_of` h' → Q r h') → spec J_quiet h (restoreNames repo uploads rb protected) Q.
Proof.
  intros HQ. unfold restoreNames. destruct (namesTouched rb); cbn [negb]; [|by apply spec_ret, HQ].
  apply spec_bind. eapply spec_mono; [apply (spec_fold _ _ (λ _ h', h `prefix_of` h') (λ _ h', h `prefix_of` h'))|].
  - done.
  - intros acc u h1 _ _ Hp1. unfold restore_name. case_decide; [by apply spec_ret|].
    apply spec_bind, spec_attempt. intros r. split; [done|].
    destruct r as [current|e]; [|apply spec_ret; by apply prefix_app_r].
    case_decide; [apply spec_ret; by apply prefix_app_r|].
    apply spec_bind, spec_attempt. intros r. split; [done|].
    destruct r as [[]|e]; apply spec_ret; by do 2 apply prefix_app_r.
  - intros r h1 _ H1. destruct r as [acc|e]; [|by apply HQ]. apply spec_bind, spec_attempt. intros r.
    split; [done|]. apply spec_ret, HQ. by apply prefix_app_r.
Qed.

Lemma spec_run_rollback h uploads rb (Q : result error unit → list event → Prop) :
  complete h uploads → progress h uploads rb →
  (∀ r h', h `prefix_of` h' → undone h' uploads (committedArches rb) → Q r h') →
  spec J_quiet h (run_rollback settings repo uploads (buildArchBatches uploads) rb) Q.
Proof.
  intros Hc [Hcap Hcm Hre Htr] HQ. apply spec_bind.
  eapply spec_mono; [apply (spec_loop _ _ (λ done (acc : gset string * gset archKey) h',
    (∀ a, a ∈ acc.1 → a ∈ committedArches rb) ∧ undone h' uploads done) (λ _ _, False))|].
  - split; [done|]. intros u u' arch Ha. by apply not_elem_of_nil in Ha.
  - intros dn acc arch rest h1 El Hp1 [Hacc Hdn].
    assert (arch ∈ committedArches rb) as Harch by (rewrite <-elem_of_reverse, El; set_solver).
    apply spec_restoreArch; [by eapply complete_mono|by eapply captured_mono|by eapply committed_mono, Hcm|].
    intros acc' h2 Hp2 Hacc' H2. split; [by intros a [?| ->]%Hacc'; auto|].
    intros u u' a [Ha|Ha]%elem_of_app; [|by apply H2].
    intros Hu' Hs. eapply compensated_mono; [done|by eapply Hdn].
  - intros r h1 Hp1 H1. destruct r as [acc|e]; [|done]. destruct H1 as [Hacc Hun]. apply spec_bind.
    eapply spec_mono; [apply (spec_fold _ _ (λ _ h', h1 `prefix_of` h') (λ _ _, False))|].
    + done.
    + intros _ arch h2 Harch%elem_of_range_keys _ Hp2. apply spec_bind, spec_attempt. intros r.
      split; [|by apply spec_ret, prefix_app_r]. split; [|done]. split; [|done]. split; [done|].
      destruct (Hcm arch (Hacc _ Harch)) as (r' & Hr' & _). eexists _, r'. eapply elem_prefix; [|done]. by etrans.
    + intros r h2 _ H2. destruct r as [[]|e]; [|done]. apply spec_restoreNames. intros r h3 Hp3.
      assert (h1 `prefix_of` h3) by by etrans. apply HQ; [by etrans|].
      eapply undone_mono; [done|]. intros u u' arch Ha. apply Hun. by apply elem_of_reverse.
Qed.

(** ** Names and merged databases *)

Lemma spec_storePackageNames h uploads rb
    (Q : result error (publicationRollback * result error unit) → list event → Prop) :
  (∀ rb' r h', h `prefix_of` h' → oldArtifacts rb' = oldArtifacts rb → committedArches rb' = committedArches rb →
     needsReconcile rb' = needsReconcile rb →
     (r = Ok tt → ∀ e, e ∈ name_entries uploads → EvNames repo (name_entries uploads) (Ok tt) ∈ h') →
     Q (Ok (rb', r)) h') →
  spec J_quiet h (storePackageNames range_keys_arch repo uploads rb) Q.
Proof.
  intros HQ. unfold storePackageNames. case_decide as Hd.
  { apply spec_ret, HQ; try done. intros _ e He. destruct (name_entries uploads); [set_solver|done]. }
  apply spec_bind, spec_catch, spec_bind, spec_wrapc, spec_do. intros r. split; [done|].
  destruct r as [[]|e]; [|apply spec_ret, HQ; try done; apply prefix_snoc].
  set (h1 := h ++ _). assert (EvNames repo (name_entries uploads) (Ok tt) ∈ h1) as Hin by apply elem_snoc.
  assert (h `prefix_of` h1) as Hp1 by apply prefix_snoc. clearbody h1.
  eapply spec_mono; [apply (spec_fold _ _ (λ _ h', h1 `prefix_of` h') (λ _ h', h1 `prefix_of` h'))|].
  - done.
  - intros _ key h2 _ _ Hp2. case_decide; [by apply spec_ret|]. apply spec_wrapc, spec_do. intros r.
    split; [done|]. destruct r as [[]|e]; simpl; by apply prefix_app_r.
  - intros r h2 _ H2. assert (h1 `prefix_of` h2) by by destruct r. apply spec_ret, HQ; try done; [by etrans|].
    intros _ e _. by eapply elem_prefix.
Qed.

Lemma spec_rebuildMerged h arches (Q : result error unit → list event → Prop) :
  (∀ h', h `prefix_of` h' → Q (Ok tt) h') →
  spec J_quiet h (rebuildMergedIfUpstream settings catalog repo arches) Q.
Proof.
  intros HQ. unfold rebuildMergedIfUpstream. destruct (isUpstreamRepo _ _); cbn [negb]; [|by apply spec_ret, HQ].
  eapply spec_mono; [apply (spec_fold _ _ (λ _ h', h `prefix_of` h') (λ _ _, False))|].
  - done.
  - intros _ arch h1 _ _ Hp. apply spec_bind, spec_attempt. intros r. split; [done|]. by apply spec_ret, prefix_app_r.
  - intros [[]|e] h' _ H'; [by apply HQ|done].
Qed.

(** ** The whole publication *)

(** Registered on the condition that what the package replaces is still listed, and named. *)
Definition registered h arch u : Prop := ∃ cur items entries,
  gated h arch u cur ∧ EvPublish repo arch items (Ok tt) ∈ h ∧ upload_item u cur ∈ items
  ∧ EvNames repo entries (Ok tt) ∈ h ∧ mkEntry (storeArch u) (pkgName u) (storedName u) ∈ entries.

(** What an upload has come to. *)
Definition outcome (r : result error unit) h : Prop :=
  match r with
  | Ok _ => ∀ u, u ∈ us → ∃ arches, belongs h u arches ∧
      ∀ arch, arch ∈ arches → settled h arch u ∨ registered h arch u
  | Err _ => ∀ arch items r i, EvPublish repo arch items r ∈ h → was_committed r = true →
      i ∈ items → CheckCurrent i = true → IntendedFile i ≠ "" →
      ∃ u cur, gated h arch u cur ∧ i = upload_item u cur ∧ compensated h arch u cur
  end.

Lemma J_quiet_pub h e : J_quiet h e → J_pub h e.
Proof. by intros []. Qed.

(** Quiet steps keep the account of the registrations. *)
Lemma spec_quiet {A} h (m : comp A) uploads arches (Q : result error A → list event → Prop) :
  tracked h uploads arches →
  spec J_quiet h m (λ r h', tracked h' uploads arches → Q r h') → spec J_pub h m Q.
Proof.
  intros Ht Hm. eapply spec_weaken; [apply J_quiet_pub|]. eapply spec_mono; [by apply spec_and_ordered|].
  intros r h' _ ((log & -> & Ho) & HQ). apply HQ. by apply tracked_quiet.
Qed.

Lemma outcome_err h uploads arches e : complete h uploads → tracked h uploads arches →
  undone h uploads arches → outcome (Err e) h.
Proof.
  intros Hc Ht Hu arch items r i Hin Hr Hi Hck Hf. destruct (Ht _ _ _ _ Hin Hr Hi Hck Hf) as [Ha ->].
  apply list_elem_of_fmap in Hi as (u' & -> & Hb). pose proof Hb as [Hu' Hdb]%elem_of_batch.
  destruct (complete_elem _ _ _ Hc Hu') as (u & Hus & Hres). exists u, (oldByArch u' !! arch).
  split_and!; [by apply (resolved_gated _ _ _ Hres)|by eapply repoAddItem_resolved|].
  by apply Hu; [..|apply (resolved_same _ _ _ Hres)].
Qed.

Lemma outcome_none h uploads e : tracked h uploads [] → outcome (Err e) h.
Proof. intros Ht arch items r i Hin Hr Hi Hck Hf. destruct (Ht _ _ _ _ Hin Hr Hi Hck Hf). set_solver. Qed.

Lemma outcome_ok h uploads : complete h uploads →
  (∀ arch, arch ∈ archOrder (buildArchBatches uploads) → EvPublish repo arch (batch_items uploads arch) (Ok tt) ∈ h) →
  (∀ e, e ∈ name_entries uploads → EvNames repo (name_entries uploads) (Ok tt) ∈ h) → outcome (Ok tt) h.
Proof.
  intros Hc Hpub Hn u Hu. apply list_elem_of_lookup in Hu as [i Hi].
  destruct (Forall2_lookup_l _ _ _ _ _ Hc Hi) as (u' & Hi' & Hres & arches & Hb & Hacc).
  exists arches. split; [done|]. intros arch Harch. destruct (Hacc arch Harch) as [Hdb|Hs]; [right|by left].
  assert (u' ∈ uploads) as Hu' by by eapply list_elem_of_lookup_2.
  exists (oldByArch u' !! arch), (batch_items uploads arch), (name_entries uploads).
  assert (mkEntry (storeArch u) (pkgName u) (storedName u) ∈ name_entries uploads) as He.
  { apply list_elem_of_omap. exists u'. split; [done|]. rewrite decide_False by (destruct (dbArches u'); [set_solver|done]).
    by destruct (resolved_same _ _ _ Hres) as (_ & _ & -> & _ & -> & -> & _). }
  split_and!; [by apply (resolved_gated _ _ _ Hres)|by eapply Hpub, elem_of_archOrder| |by eapply Hn|done].
  erewrite <-repoAddItem_resolved by done. apply list_elem_of_fmap_2. by apply elem_of_batch.
Qed.

Lemma progress_same h h' uploads rb rb' : h `prefix_of` h' → tracked h' uploads (committedArches rb) →
  oldArtifacts rb' = oldArtifacts rb → committedArches rb' = committedArches rb →
  needsReconcile rb' = needsReconcile rb → progress h uploads rb → progress h' uploads rb'.
Proof.
  intros Hp Ht E1 E2 E3 [[Hs Ha] Hcm Hre _]. split; rewrite ?E2, ?E3; try done.
  - split; rewrite E1; [|done]. intros key a Hk. by eapply spooled_mono, Hs.
  - intros arch H. by eapply committed_mono, Hcm.
Qed.

Lemma spec_undo h uploads rb e : complete h uploads → progress h uploads rb →
  spec J_pub h (_ ← run_rollback settings repo uploads (buildArchBatches uploads) rb; fail e) outcome.
Proof.
  intros Hc Hp. eapply (spec_quiet _ _ uploads); [apply Hp|].
  apply spec_bind, spec_run_rollback; [done..|]. intros r h' Hp' Hu. destruct r as [[]|e'].
  - apply spec_ret. intros Ht. by eapply outcome_err; [eapply complete_mono| |].
  - intros Ht. by eapply outcome_err; [eapply complete_mono| |].
Qed.

Lemma spec_publish h : tracked h [] [] →
  spec J_pub h (publish decode quote vercmp settings catalog range_keys_arch repo us) outcome.
Proof.
  intros Ht0. assert (∀ uploads, tracked h uploads []) as Ht.
  { intros uploads arch items r i Hin Hr Hi Hck Hf. destruct (Ht0 arch items r i Hin Hr Hi Hck Hf). set_solver. }
  apply spec_bind, (spec_quiet _ _ [] []), (spec_weaken J_seed); [done|apply J_seed_quiet|].
  apply spec_resolveRepositoryState. intros r h1 Hp1 Hr Ht1.
  destruct r as [uploads|e]; [|by eapply outcome_none]. specialize (Hr uploads eq_refl).
  assert (tracked h1 uploads []) as Ht1'.
  { intros arch items r i Hin Hr' Hi Hck Hf. destruct (Ht1 arch items r i Hin Hr' Hi Hck Hf). set_solver. }
  apply spec_bind, (spec_quiet _ _ uploads []), (spec_weaken J_seed); [done|apply J_seed_quiet|].
  apply spec_capture. intros r h2 Hp2 Hcap Ht2. destruct r as [rb|e]; [|by eapply outcome_none].
  destruct (Hcap rb eq_refl) as (Hcap' & Ec & En). eapply complete_mono in Hr; [|exact Hp2].
  apply spec_bind, (spec_quiet _ _ uploads []); [done|]. apply spec_catch, spec_storeObjects; [done|].
  intros r h3 Hp3 Hst Ht3. eapply complete_mono in Hr; [|exact Hp3].
  assert (progress h3 uploads rb) as Hprog.
  { split; rewrite ?Ec, ?En; [by eapply captured_mono|set_solver..|done]. }
  destruct r as [[]|e]; [|by apply spec_undo].
  apply spec_bind, spec_commit_arches; [done|by apply Hst|done|].
  intros rb1 r h4 Hp4 Hprog1 Hok. eapply complete_mono in Hr; [|exact Hp4].
  destruct r as [[]|e]; [|by apply spec_undo].
  apply spec_bind. eapply (spec_quiet _ _ uploads); [apply Hprog1|].
  apply spec_storePackageNames. intros rb2 r h5 Hp5 E1 E2 E3 Hn Ht5.
  assert (progress h5 uploads rb2) as Hprog2 by by eapply progress_same.
  eapply complete_mono in Hr; [|exact Hp5]. destruct r as [[]|e]; [|by apply spec_undo].
  eapply (spec_weaken J_quiet); [apply J_quiet_pub|]. apply spec_rebuildMerged. intros h6 Hp6.
  eapply outcome_ok; [by eapply complete_mono| |].
  - intros arch Ha. do 2 (eapply elem_prefix; [done|]). by apply Hok.
  - intros e He. eapply elem_prefix; [done|]. by eapply Hn.
Qed.

(** ** The lease *)

Lemma tracked_lease h r : tracked h [] [] → tracked (h ++ [EvLease repo r]) [] [].
Proof. intros Ht arch items r' i [Hin|Hin]%elem_of_app; [by eapply Ht|set_solver]. Qed.

Lemma outcome_snoc r h : outcome r h → outcome r (h ++ [EvRelease repo]).
Proof.
  assert (h `prefix_of` h ++ [EvRelease repo]) as Hp by apply prefix_snoc.
  destruct r as [[]|e]; simpl.
  - intros H u Hu. destruct (H u Hu) as (arches & Hb & Ha). exists arches. split; [by eapply belongs_mono|].
    intros arch Harch. destruct (Ha arch Harch) as [Hs|(cur & items & entries & Hg & ? & ? & ? & ?)].
    + left. by eapply settled_mono.
    + right. exists cur, items, entries. split_and!; try done; [by eapply gated_mono|by eapply elem_prefix..].
  - intros H arch items r i [Hin|Hin]%elem_of_app Hr Hi Hc Hf; [|set_solver].
    destruct (H _ _ _ _ Hin Hr Hi Hc Hf) as (u & cur & Hg & -> & Hcomp). exists u, cur.
    split_and!; [by eapply gated_mono|done|by eapply compensated_mono].
Qed.

End history.

(** ** Uploading *)
Section uploads.
Context (decode : string → result string tar_stream) (quote : string → string).
Context (vercmp : string → string → Z) (settings : Settings) (catalog : RepositoryCatalog).
Context {R : RangeOrder} (range_keys_arch : gset archKey → list archKey).
Context {Entity : Type} (fingerprint : Entity → string).
Context (read_keys : string → result string (list Entity)).
Context (check_detached : list Entity → string → string → result string Entity).
Context (expired revoked : Entity → bool).
Context (registry : bool) (trust : signatureTrust (Entity := Entity)).
Context (repo : string) (files : list (option UploadFiles)).

Abbreviation seed_ok := (J_seed decode quote vercmp catalog (publishTarget catalog repo)).
Abbreviation event_ok := (J decode quote vercmp catalog (publishTarget catalog repo)).
Abbreviation UploadFiles := (Service_UploadFiles decode quote vercmp settings catalog fingerprint read_keys
  check_detached expired revoked registry trust range_keys_arch repo files).

(** The batch that was validated; nothing, when it was not. *)
Definition validated (us : list preparedUpload) : Prop :=
  us = [] ∨ ∃ keyring, validate_batch decode settings fingerprint check_detached expired revoked keyring files = Ok us.

Lemma justified_batch us h e : seed_ok [] h e → event_ok us h e.
Proof.
  intros (Hj & Hl & Hn). split; [|by rewrite Hn]. destruct e; simpl in *; try done.
  destruct Hj as [-> [Hb|[Hu|(item & -> & (u & c & a & Hu & _))]]]; split; auto.
  - right. left. eapply Forall_impl; [exact Hu|]. intros i (u & cur & (Hin & _) & _). set_solver.
  - set_solver.
Qed.

#[local] Transparent spec.

Lemma spec_batchKeyring h : spec (seed_ok []) h
  (batchKeyring fingerprint read_keys registry trust files) (λ _ _, True).
Proof.
  unfold batchKeyring. destruct (existsb _ _); [|by apply spec_ret].
  apply spec_wrapc, spec_bind. destruct registry; [|by apply spec_ret, spec_ret].
  apply spec_do. intros r. split; [done|]. destruct r; [|done]. by apply spec_ret.
Qed.

Lemma seed_phase us log : ordered (seed_ok []) [] log →
  ordered (event_ok us) [] log ∧ tracked (publishTarget catalog repo) log [] [] ∧
  ∀ r, EvLease (publishTarget catalog repo) r ∉ log.
Proof.
  intros Ho. split_and!.
  - eapply ordered_mono; [|exact Ho]. apply justified_batch.
  - change log with ([] ++ log). eapply tracked_quiet; [|intros arch items r i Hin; set_solver].
    eapply ordered_mono; [|exact Ho]. apply J_seed_quiet.
  - intros r Hin. destruct (ordered_elem_of _ _ _ _ Ho Hin) as (pre & _ & _ & Hl & _). done.
Qed.

(** What is so of every log of an upload: before the batch is validated only architectures
    are seeded, and then the batch is published under the lease. *)
Lemma upload_history : wpc UploadFiles (λ r log, ∃ us, validated us
  ∧ (r = Ok tt → ∃ keyring,
       validate_batch decode settings fingerprint check_detached expired revoked keyring files = Ok us)
  ∧ ordered (event_ok us) [] log
  ∧ outcome decode quote vercmp catalog (publishTarget catalog repo) us r log
  ∧ released (publishTarget catalog repo) log).
Proof.
  assert (∀ e log, ordered (seed_ok []) [] log → ∃ us, validated us
    ∧ (@Err error unit e = Ok tt → ∃ keyring,
         validate_batch decode settings fingerprint check_detached expired revoked keyring files = Ok us)
    ∧ ordered (event_ok us) [] log
    ∧ outcome decode quote vercmp catalog (publishTarget catalog repo) us (Err e) log
    ∧ released (publishTarget catalog repo) log) as Herr.
  { intros e log Ho. destruct (seed_phase [] log Ho) as (Ho' & Ht & Hno). exists [].
    split; [by left|]. split; [done|]. split; [done|]. split; [|by intros Hin%Hno].
    eapply outcome_none. exact Ht. }
  unfold Service_UploadFiles. case_decide as Hf.
  { exists []. split_and!; [by left| |done|intros u; set_solver|]. 2: { intros Hin. set_solver. }
    intros _. exists None. by destruct files. }
  apply wpc_bind. eapply wpc_mono.
  { by apply (spec_ensureRepository decode quote vercmp settings catalog _ [] [] (λ _ _, True)). }
  intros r log1 [Ho1 _]. destruct r as [[]|e]; [|by apply Herr].
  apply wpc_bind. eapply wpc_mono; [apply (spec_batchKeyring log1)|].
  intros r log2 [Ho2 _].
  assert (ordered (seed_ok []) [] (log1 ++ log2)) as Ho by by apply ordered_app.
  destruct r as [keyring|e]; [|by apply Herr].
  destruct (validate_batch decode settings fingerprint check_detached expired revoked keyring files) as [us|e] eqn:Ev.
  2: { apply (Herr e (log1 ++ log2 ++ [])). by rewrite app_nil_r. }
  destruct (seed_phase us _ Ho) as (Ho' & Ht & Hno).
  eapply wpc_mono; [apply (spec_withLease (J_pub decode quote vercmp catalog (publishTarget catalog repo) us)
    (event_ok us) _ (log1 ++ log2) _ (outcome decode quote vercmp catalog (publishTarget catalog repo) us))|].
  { done. } { done. } { intros h e [Hj Hl] Hh. split; [|done]. by split. } { done. }
  { intros e. eapply outcome_none. by apply tracked_lease. }
  { eapply spec_mono; [by apply spec_publish, tracked_lease|]. intros r h _. apply outcome_snoc. }
  intros r log3 [Ho3 [Hout Hrel]]. rewrite (assoc_L (++)). exists us.
  split_and!; [right; eauto|eauto|by apply ordered_app|done|done].
Qed.



End uploads.

(** ** A run *)
Module example.
Definition pkg : preparedUpload :=
  mkUpload (mkSeekFile "a-2-1-x86_64.pkg.tar.zst" "new") None "a" "2-1" "x86_64" [] "a-2-1-x86_64.pkg.tar.zst"
    "a-2-1-x86_64.pkg.tar.zst.sig" ∅.
Definition listing : RemoteRepo := mkRemote "core" "" [mkBinaryPackage "a-1-1-x86_64.pkg.tar.zst"
  (PKGINFO.mk "a" "a" "1-1" "" "" 0 "" 0 "x86_64" [] [] [] [] [] [] [] [] [] [] ∅ "")].

(** A repository that lists version 1, and whose index of names cannot be written. *)
Definition answer : ∀ X, Port.op X → result error X := fixed_answer (mkView ["x86_64"] (λ _ _, Ok listing)
  (λ f, if decide (f = "a-1-1-x86_64.pkg.tar.zst") then Ok "old" else Err ErrNotFound) (Err (ErrOther "kv"))).

Definition upload : comp unit := withLease "core" (publish (λ _, Err "") id (λ a b, if decide (a = b) then 0 else 1)%Z
  (mkSettings false false "" [] 0 true) (mkCatalog [] [] ∅ ∅) (R := elements_order) (λ X, elements X) "core" [pkg]).

(** The write of the names fails after the registration; the old package is put back. *)
Example rolled_back :
  let old := mkSeekFile "a-1-1-x86_64.pkg.tar.zst" "old" in
  let new := pkgStream pkg in
  exec answer upload = (Err (WrapErr (ErrOther "kv") "failed to store package file names"),
    [EvLease "core" (Ok tt); EvArches "core" (Ok ["x86_64"]); EvRead "core" "x86_64" (Ok listing);
     EvFetch "core" "x86_64" (FileName old) (Ok "old"); EvQuiet;
     EvFetch "core" "x86_64" (FileName old +:+ ".sig") (Err ErrNotFound);
     EvStore "core" "x86_64" new (Ok true);
     EvPublish "core" "x86_64" [mkItem (Some new) None true "a" "1-1" (FileName old) "2-1" (FileName new)] (Ok tt);
     EvNames "core" [mkEntry "x86_64" "a" (FileName new)] (Err (ErrOther "kv"));
     EvStore "core" "x86_64" old (Ok true);
     EvPublish "core" "x86_64" [mkItem (Some old) None true "a" "2-1" (FileName new) "" ""] (Ok tt);
     EvQuiet; EvNames "core" [] (Err (ErrOther "kv")); EvRelease "core"]).
Proof. vm_compute. reflexivity. Qed.
End example.
