(* ===== verification/Lifecycle.v ===== *)
(** * Promotion, removal and collection (ayato/service)

    tier.go, remove.go, reconcile.go, namefile.go, and parts of repo.go, signers.go and
    service.go: a package moves to the next tier, leaves a repository, and the objects
    that no database lists are collected; start-up and the registry of signers.

    Times are nanoseconds in Z; a zero time is [None].  The logger is not modelled: an error
    that is only logged is dropped. *)

From S2P Require Import Prelude GoStrings KeyValue Pkginfo Artifact Constraint Package Dbwriter Repo Dbtool.
From S2P Require Import Blob RepoDB Catalog Ports Trust Upload.

Record OrphanObject := mkOrphan { or_Arch : string; or_Name : string; Age : Z }.

Definition db_error (e : catalog_error) : error := ErrDomain DomainInvalid "tier".

Section lifecycle.
Context (decode : string → result string tar_stream) (quote : string → string).
Context (vercmp : string → string → Z).
Context (settings : Settings) (catalog : RepositoryCatalog).
Context {R : RangeOrder}.

(** ** Looking a package up *)

Definition ValidateRepoName (repo : string) : comp unit :=
  match ValidateName repo with
  | Err _ => fail (ErrDomain DomainInvalid "repository name")
  | Ok _ =>
      match Resolve catalog repo with
      | None => fail (ErrDomain DomainNotFound "not found in configured repositories")
      | Some _ =>
          initializedRepos ← wrapc (λ e, WrapErr e "failed to get repository names") (call Port.RepoNames);
          if decide (repo ∈ initializedRepos) then mret tt
          else fail (ErrOther "found but failed to initialize")
      end
  end.

Definition packageEntryFromDB (repo arch pkgname : string) : comp (string * string) :=
  rr ← wrapc (λ e, WrapErr e "fetch remote repo db") (call (Port.RemoteRepo repo arch));
  match PkgByPkgName rr pkgname with
  | None => fail (ErrOther "package not found in db")
  | Some p =>
      let fn := path_base (bp_path p) in
      if decide (fn = "" ∨ fn = "." ∨ fn = "/") then fail (ErrOther "package has no filename in db")
      else mret (fn, bp_Arch p)
  end.

(** The loop of [resolvePackage]. *)
Fixpoint resolve_in (repo pkgname : string) (arches : list string) : comp (string * string) :=
  match arches with
  | [] => fail (ErrDomain DomainNotFound "package not found")
  | a :: arches =>
      r ← catch (packageEntryFromDB repo a pkgname);
      match r with
      | Err _ => resolve_in repo pkgname arches
      | Ok (fn, sa) => _ ← attempt (Port.StorePackageFile repo sa pkgname fn); mret (fn, sa)
      end
  end.

Definition resolvePackage (repo reqArch pkgname : string) : comp (string * string) :=
  arches ← repoArches catalog repo;
  resolve_in repo pkgname ((if decide (reqArch ≠ "" ∧ reqArch ≠ "any") then [reqArch] else []) ++ arches).

(** ** Removal *)

(** The loop of [stillRegistered] over the arches that were not removed. *)
Fixpoint registered_in (repo pkgname : string) (removed arches : list string) : comp bool :=
  match arches with
  | [] => mret false
  | a :: arches =>
      if decide (a ∈ removed) then registered_in repo pkgname removed arches
      else
        r ← attempt (Port.RemoteRepo repo a);
        match r with
        | Err e => if is_not_found e then registered_in repo pkgname removed arches
                   else fail (WrapErr e "read other arch before deleting shared package")
        | Ok rr => if decide (is_Some (PkgByPkgName rr pkgname)) then mret true
                   else registered_in repo pkgname removed arches
        end
  end.

Definition stillRegistered (repo pkgname : string) (arches removed : list string) : comp bool :=
  registered_in repo pkgname removed arches.

Definition deleteSignatureIfPresent (repo arch pkgFile : string) : comp unit :=
  let sig := pkgFile +:+ ".sig" in
  r ← attempt (Port.Files repo arch);
  match r with
  | Err _ => mret tt
  | Ok files => if decide (sig ∈ files) then _ ← attempt (Port.DeleteFile repo arch sig); mret tt
                else mret tt
  end.

(** The databases to remove the package from. *)
Definition removal_arches (arch storeArch : string) (knownArches : list string)
    : result error (list string) :=
  let allArches := bool_decide (arch = "" ∨ arch = "any") in
  if decide (storeArch = "any") then Ok (if allArches then knownArches else [arch])
  else if negb allArches && negb (bool_decide (arch = storeArch))
  then Err (ErrOther "package has another architecture")
  else Ok [storeArch].

Definition known_arches (rname storeArch : string) : comp (list string) :=
  if decide (storeArch = "any") then
    stored ← wrapc (λ e, WrapErr e "list arches before removing shared package") (call (Port.Arches rname));
    mret (concreteArches (declaredArches catalog rname) stored)
  else mret [].

(** What is done once no database lists the package. *)
Definition delete_package (rname storeArch filename pkgname : string) : comp unit :=
  _ ← wrapc (λ e, WrapErr e "delete package file") (call (Port.DeleteFile rname storeArch filename));
  _ ← deleteSignatureIfPresent rname storeArch filename;
  wrapc (λ e, WrapErr e "delete package metadata entry") (call (Port.DeletePackageFileEntry rname storeArch pkgname)).

Definition remove_from (rname pkgname : string) (dbArches : list string) : comp unit :=
  comp_fold (λ _ a, wrapc (λ e, WrapErr e "repo-remove") (call (Port.RepoRemove rname a pkgname (signedDB settings))))
    tt dbArches.

Definition RemovePkg (rname arch pkgname : string) : comp unit :=
  _ ← wrapc (λ e, WrapErr e "validate repo name failed") (ValidateRepoName rname);
  entry ← wrapc (λ e, WrapErr e "resolve package") (resolvePackage rname arch pkgname);
  let '(filename, storeArch) := (entry : string * string) in
  knownArches ← known_arches rname storeArch;
  dbArches ← ofResult (removal_arches arch storeArch knownArches);
  if decide (length dbArches = 0%nat) then fail (ErrOther "no architecture database to remove from")
  else
    _ ← remove_from rname pkgname dbArches;
    _ ← rebuildMergedIfUpstream settings catalog rname dbArches;
    registered ← (if decide (storeArch = "any" ∧ ¬ (arch = "" ∨ arch = "any"))
                  then stillRegistered rname pkgname knownArches dbArches else mret false);
    if registered : bool then mret tt else delete_package rname storeArch filename pkgname.

(** ** Promotion *)

Definition promotion_item (artifact : spooledPackage) (pkgname version filename : string)
    (current : option publishedPackage) : RepoAddItem :=
  mkItem (Some artifact.(sp_pkg)) artifact.(sp_sig) true pkgname
    (from_option Upload.version "" current) (from_option fileName "" current) version filename.

(** The check against what the target tier lists. *)
Definition promotion_gate (version filename : string) (current : option publishedPackage) : result error unit :=
  match current with
  | None => Ok tt
  | Some current =>
      let cmp := vercmp version (Upload.version current) in
      if (cmp <? 0)%Z then Err (conflict "target tier already has a newer package")
      else if (cmp =? 0)%Z && negb (bool_decide (fileName current = filename))
      then Err (conflict "target tier has the version under a different immutable filename")
      else Ok tt
  end.

Definition promoteOneArch (src dst arch storeArch filename pkgname version : string) : comp unit :=
  current ← wrapc (λ e, WrapErr e "read target tier package state")
              (lookupPublished decode quote catalog dst arch pkgname);
  _ ← ofResult (promotion_gate version filename current);
  artifact ← spoolPackage src storeArch filename;
  _ ← wrapc (λ e, WrapErr e "store package in target tier") (storeSpooledPackage dst storeArch artifact);
  _ ← wrapc (λ e, WrapErr e "register package in target tier db")
        (call (Port.RepoAddBatch dst arch [promotion_item artifact pkgname version filename current] (signedDB settings)));
  wrapc (λ e, WrapErr e "record promoted package file name")
    (call (Port.StorePackageFile dst storeArch pkgname filename)).

Definition promote_arch (src dst pkgname version : string) (promotedArches : list string) (arch : string)
    : comp (list string) :=
  _ ← call Port.ContextErr;
  r ← attempt (Port.RemoteRepo src arch);
  match r with
  | Err e => if is_not_found e then mret promotedArches else fail (WrapErr e "read source tier db")
  | Ok rr =>
      match PkgByPkgName rr pkgname with
      | None => mret promotedArches
      | Some p =>
          if decide (version ≠ "" ∧ bp_Version p ≠ version)
          then fail (ErrDomain DomainInvalid "not the requested version")
          else
            let storeArch := if decide (bp_Arch p = "any") then "any" else arch in
            _ ← wrapc (λ e, WrapErr e "promote")
                  (promoteOneArch src dst arch storeArch (bp_path p) (bp_Name p) (bp_Version p));
            mret (promotedArches ++ [arch])
      end
  end.

Definition dropFromSource (src pkgname : string) (arches : list string) : comp unit :=
  r ← catch (RemovePkg src "" pkgname);
  match r with
  | Ok _ => mret tt
  | Err _ => comp_fold (λ _ arch, _ ← attempt (Port.RepoRemove src arch pkgname (signedDB settings)); mret tt) tt arches
  end.

Definition PromotePackage (repo : string) (from to : Tier) (pkgname version : string) : comp unit :=
  match Logical catalog repo with
  | None => fail (ErrDomain DomainInvalid "not a tiered repository")
  | Some rc =>
      if negb (r_tiered rc) then fail (ErrDomain DomainInvalid "not a tiered repository")
      else if negb (CanPromote from to) then fail (ErrDomain DomainInvalid "cannot promote")
      else
        src ← ofResult (map_err db_error (PhysicalName rc from));
        dst ← ofResult (map_err db_error (PhysicalName rc to));
        withLease dst (
          arches ← repoArches catalog src;
          promotedArches ← comp_fold (promote_arch src dst pkgname version) [] arches;
          if decide (length promotedArches = 0%nat) then fail (ErrDomain DomainNotFound "not found in the source tier")
          else if r_promotionKeepInSource rc then mret tt
          else dropFromSource src pkgname promotedArches)
  end.

(** ** Collection of orphans *)

Definition dbArtifacts (repo : string) : list string := All (Artifacts repo).

(** The file and the signature of every listed package. *)
Definition listed_objects (pkgs : list BinaryPackage) : gset string :=
  foldl (λ acc p, let fn := bp_path p in
    if decide (fn = "") then acc else {[fn; fn +:+ ".sig"]} ∪ acc) ∅ pkgs.

Definition referencedObjects (repo arch : string) : comp (gset string) :=
  let referenced := list_to_set (dbArtifacts repo) in
  r ← attempt (Port.RemoteRepo repo arch);
  match r with
  | Err e => if is_not_found e then mret referenced else fail (WrapErr e "read repo db for reconcile")
  | Ok rr => mret (listed_objects (Pkgs rr) ∪ referenced)
  end.

(** An object that is reported; its age. *)
Definition orphan_age (referenced : gset string) (olderThan now : Z) (info : FileInfo) : option Z :=
  if decide (fi_Name info ∈ referenced) then None
  else if negb (IsArtifact (fi_Name info)) then None
  else match fi_LastModified info with
  | None => None
  | Some t => let age := (now - t)%Z in if (age <? olderThan)%Z then None else Some age
  end.

Definition collect_object (repo arch : string) (referenced : gset string) (olderThan : Z) (dryRun : bool)
    (now cutoff : Z) (orphans : list OrphanObject) (info : FileInfo) : comp (list OrphanObject) :=
  match orphan_age referenced olderThan now info with
  | None => mret orphans
  | Some age =>
      let orphans := orphans ++ [mkOrphan arch (fi_Name info) age] in
      if dryRun then mret orphans
      else _ ← attempt (Port.DeleteOrphanIfUnchanged repo arch info cutoff); mret orphans
  end.

Definition reconcileDir (repo arch : string) (referenced : gset string) (olderThan : Z) (dryRun : bool)
    (now cutoff : Z) : comp (list OrphanObject) :=
  r ← attempt (Port.FilesWithMeta repo arch);
  match r with
  | Err e => if is_not_found e then mret [] else fail (WrapErr e "list objects for reconcile")
  | Ok infos => comp_fold (collect_object repo arch referenced olderThan dryRun now cutoff) [] infos
  end.

Definition collect_arch (repo : string) (olderThan : Z) (dryRun : bool) (now cutoff : Z)
    (acc : gset string * list OrphanObject) (arch : string) : comp (gset string * list OrphanObject) :=
  referenced ← referencedObjects repo arch;
  let anyReferenced := filter (λ name, IsAny name = true) referenced ∪ acc.1 in
  found ← reconcileDir repo arch referenced olderThan dryRun now cutoff;
  mret (anyReferenced, acc.2 ++ found).

Definition ReconcileOrphans (repo : string) (olderThan : Z) (dryRun : bool) : comp (list OrphanObject) :=
  let repo := publishTarget catalog repo in
  now ← call Port.Now;
  let cutoff := (now - olderThan)%Z in
  if (olderThan <? 0)%Z then fail (ErrOther "orphan age must not be negative")
  else withLease repo (
    arches ← wrapc (λ e, WrapErr e "list arches for reconcile") (call (Port.Arches repo));
    acc ← comp_fold (collect_arch repo olderThan dryRun now cutoff) (list_to_set (dbArtifacts repo), []) arches;
    anyOrphans ← reconcileDir repo "any" acc.1 olderThan dryRun now cutoff;
    mret (acc.2 ++ anyOrphans)).

(** ** Start-up *)

Definition InitAll (catalogErr verifierErr : option error) : comp unit :=
  match catalogErr, verifierErr with
  | Some e, _ => fail (WrapErr e "invalid repository catalog")
  | None, Some e => fail e
  | None, None =>
      comp_fold (λ _ repo, wrapc (λ e, WrapErr e "failed to init repo") (initRepo catalog repo (signedDB settings)))
        tt (physicalOrder catalog)
  end.
End lifecycle.
