(* ===== verification/LifecycleHistory.v ===== *)
(** * Promotion, removal and collection: what they change

    The changes of the operations of Lifecycle.v, each justified by what was read and done
    before, for every answer of the repository. *)

From S2P Require Import Prelude GoStrings KeyValue Pkginfo Artifact Constraint Package Dbwriter Repo Dbtool.
From S2P Require Import Blob RepoDB Catalog Ports Trust Upload History Lifecycle.

Lemma Ok_inj {E A} (a b : A) : @Ok E A a = Ok b → b = a.
Proof. by intros [= ->]. Qed.

(** ** Collection *)
Section collection.
Context (repo : string) (olderThan : Z) (dryRun : bool).
Implicit Types (h : list event) (info : FileInfo).

(** The database of an architecture was read, and does not list the object. *)
Definition not_listed h arch name : Prop := ∃ r, EvRead repo arch r ∈ h ∧
  match r with
  | Ok rr => ∀ p, p ∈ Pkgs rr → bp_path p ≠ "" → name ≠ bp_path p ∧ name ≠ bp_path p +:+ ".sig"
  | Err e => is_not_found e = true
  end.

(** No database lists the object: that of its architecture, or for the shared directory,
    that of any of the architectures of the repository. *)
Definition unreferenced h dir name : Prop := ∃ arches, EvArches repo (Ok arches) ∈ h ∧
  (dir ∈ arches ∧ not_listed h dir name
   ∨ dir = "any" ∧ ∀ a, a ∈ arches → not_listed h a name ∨ IsAny name = false).

(** A package object of a listing, unreferenced and not younger than [cutoff]. *)
Record orphan h dir info (cutoff : Z) : Prop := {
  orphan_found : ∃ infos, EvList repo dir (Ok infos) ∈ h ∧ info ∈ infos;
  orphan_artifact : IsArtifact (fi_Name info) = true;
  orphan_not_db : fi_Name info ∉ All (Artifacts repo);
  orphan_old : ∃ t, fi_LastModified info = Some t ∧ (t ≤ cutoff)%Z;
  orphan_unreferenced : unreferenced h dir (fi_Name info);
}.

Definition collection_justified h (e : event) : Prop :=
  passive e = true ∨
  ∃ r dir info cutoff res, e = EvDeleteOrphan r dir info cutoff res
    ∧ r = repo ∧ dryRun = false ∧ orphan h dir info cutoff.

Lemma collection_passive h e : passive e = true → collection_justified h e.
Proof. by left. Qed.

Lemma not_listed_mono h h' arch name : h `prefix_of` h' → not_listed h arch name → not_listed h' arch name.
Proof. intros Hp (r & Hr & H). exists r. split; [still|done]. Qed.

Lemma elem_of_listed_objects pkgs name : name ∈ listed_objects pkgs ↔
  ∃ p, p ∈ pkgs ∧ bp_path p ≠ "" ∧ (name = bp_path p ∨ name = bp_path p +:+ ".sig").
Proof.
  unfold listed_objects.
  assert (∀ X : gset string, name ∈ foldl (λ acc p, let fn := bp_path p in
      if decide (fn = "") then acc else {[fn; fn +:+ ".sig"]} ∪ acc) X pkgs
    ↔ name ∈ X ∨ ∃ p, p ∈ pkgs ∧ bp_path p ≠ "" ∧ (name = bp_path p ∨ name = bp_path p +:+ ".sig")) as H.
  2: { rewrite H. set_solver. }
  induction pkgs as [|p pkgs IH]; intros X; cbn [foldl]; [set_solver|].
  rewrite IH. cbv zeta. setoid_rewrite elem_of_cons. case_decide as Hp.
  - naive_solver.
  - rewrite !elem_of_union, !elem_of_singleton. naive_solver.
Qed.

Lemma spec_referencedObjects h arch (Q : result error (gset string) → list event → Prop) :
  (∀ r h', h `prefix_of` h' → (∀ refs, r = Ok refs →
     (∀ n, n ∈ All (Artifacts repo) → n ∈ refs) ∧ ∀ n, n ∉ refs → not_listed h' arch n) → Q r h') →
  spec collection_justified h (referencedObjects repo arch) Q.
Proof.
  intros HQ. apply spec_bind, spec_attempt. intros r. split; [by left|]. destruct r as [rr|e].
  - apply spec_ret, HQ; [apply prefix_snoc|]. intros refs ->%Ok_inj. split.
    + intros n Hn. apply elem_of_union. right. by apply elem_of_list_to_set.
    + intros n Hn. exists (Ok rr). split; [apply elem_snoc|]. intros p Hp Hne.
      assert (n ∉ listed_objects (Pkgs rr)) as Hl by set_solver. rewrite elem_of_listed_objects in Hl.
      split; intros ->; apply Hl; exists p; auto.
  - destruct (is_not_found e) eqn:En; apply spec_ret, HQ; try done; [apply prefix_snoc| |apply prefix_snoc].
    intros refs ->%Ok_inj. split; [intros n Hn; by apply elem_of_list_to_set|].
    intros n _. exists (Err e). split; [apply elem_snoc|done].
Qed.

(** The reported objects, the oldest allowed age being that of [cutoff]. *)
Definition reported h now (orphans : list OrphanObject) : Prop := ∀ o, o ∈ orphans →
  (olderThan ≤ Age o)%Z ∧ ∃ info, fi_Name info = or_Name o ∧ fi_LastModified info = Some (now - Age o)%Z
    ∧ orphan h (or_Arch o) info (now - olderThan).

Lemma orphan_mono h h' dir info cutoff : h `prefix_of` h' → orphan h dir info cutoff → orphan h' dir info cutoff.
Proof.
  intros Hp [(infos & Hi & Hin) ? ? ? (arches & Ha & Hu)]. split; try done.
  - exists infos. split; [still|done].
  - exists arches. split; [still|]. destruct Hu as [[? Hn]|[-> Hn]]; [left|right].
    + split; [done|by eapply not_listed_mono].
    + split; [done|]. intros a Hin'. destruct (Hn a Hin'); [left; by eapply not_listed_mono|by right].
Qed.

Lemma reported_mono h h' now orphans : h `prefix_of` h' → reported h now orphans → reported h' now orphans.
Proof.
  intros Hp H o Ho. destruct (H o Ho) as (? & info & ? & ? & Horph). split; [done|]. exists info.
  split_and!; [done..|by eapply orphan_mono].
Qed.

Lemma orphan_age_Some referenced now info age :
  orphan_age referenced olderThan now info = Some age →
  (fi_Name info ∉ referenced) ∧ IsArtifact (fi_Name info) = true ∧ fi_LastModified info = Some (now - age)%Z
  ∧ (olderThan ≤ age)%Z.
Proof.
  unfold orphan_age. case_decide; [done|]. destruct (IsArtifact _); [|done]. cbn [negb].
  destruct (fi_LastModified info) as [t|]; [|done]. destruct (_ <? _)%Z eqn:E; [done|]. intros [= <-].
  apply Z.ltb_ge in E. split_and!; [done..|f_equal; lia|done].
Qed.

Lemma spec_reconcileDir h dir referenced now (Q : result error (list OrphanObject) → list event → Prop) :
  (∀ n, n ∈ All (Artifacts repo) → n ∈ referenced) → (∀ n, n ∉ referenced → unreferenced h dir n) →
  (∀ r h', h `prefix_of` h' → (∀ orphans, r = Ok orphans → reported h' now orphans) → Q r h') →
  spec collection_justified h (reconcileDir repo dir referenced olderThan dryRun now (now - olderThan)) Q.
Proof.
  intros Hdb Href HQ. apply spec_bind, spec_attempt. intros r. split; [by left|].
  set (h1 := h ++ _). assert (h `prefix_of` h1) as Hp1 by apply prefix_snoc.
  destruct r as [infos|e].
  2: { destruct (is_not_found e); apply spec_ret, HQ; try done. intros orphans [= <-] o Ho. set_solver. }
  assert (EvList repo dir (Ok infos) ∈ h1) as Hlist by apply elem_snoc. clearbody h1.
  eapply spec_mono; [apply (spec_fold _ _ (λ orphans h', reported h' now orphans) (λ _ _, True))|].
  - intros o Ho. set_solver.
  - intros orphans info h2 Hin Hp2 Hrep. unfold collect_object.
    destruct (orphan_age _ _ _ _) as [age|] eqn:Ea; [|by apply spec_ret].
    apply orphan_age_Some in Ea as (Hn & Hart & Ht & Hage).
    assert (orphan h2 dir info (now - olderThan)) as Horph.
    { split; [exists infos; split; [still|done]|done|by intros ?%Hdb| |].
      - exists (now - age)%Z. split; [done|lia].
      - destruct (Href _ Hn) as (arches & Ha & Hu). assert (h `prefix_of` h2) as Hp by by etrans.
        exists arches. split; [still|]. destruct Hu as [[? Hl]|[-> Hl]]; [left|right].
        + split; [done|by eapply not_listed_mono].
        + split; [done|]. intros a Hin'. destruct (Hl a Hin'); [left; by eapply not_listed_mono|by right]. }
    assert (∀ h3, h2 `prefix_of` h3 → reported h3 now (orphans ++ [mkOrphan dir (fi_Name info) age])) as Hrep'.
    { intros h3 Hp3 o [Ho| ->%list_elem_of_singleton]%elem_of_app.
      - by eapply reported_mono; [|exact Hrep|].
      - split; [done|]. exists info. split_and!; [done..|by eapply orphan_mono]. }
    destruct dryRun eqn:Edry; [by apply spec_ret, Hrep'|].
    apply spec_bind, spec_attempt. intros r. split.
    + right. do 5 eexists. split; [done|]. split_and!; [done|done|exact Horph].
    + by apply spec_ret, Hrep', prefix_snoc.
  - intros r h2 Hp2 Hr. apply HQ; [by etrans|]. intros orphans ->. exact Hr.
Qed.

(** Every name that some architecture needs is in [names]. *)
Definition covers h (done : list string) (names : gset string) : Prop :=
  (∀ n, n ∈ All (Artifacts repo) → n ∈ names) ∧
  ∀ n a, n ∉ names → a ∈ done → not_listed h a n ∨ IsAny n = false.

Lemma covers_mono h h' dn names : h `prefix_of` h' → covers h dn names → covers h' dn names.
Proof.
  intros Hp [Hdb Hn]. split; [done|]. intros n a Hin Ha. destruct (Hn n a Hin Ha); [left|by right].
  by eapply not_listed_mono.
Qed.

Lemma spec_collect_arch h arches dn now (acc : gset string * list OrphanObject) arch
    (Q : result error (gset string * list OrphanObject) → list event → Prop) :
  EvArches repo (Ok arches) ∈ h → arch ∈ arches → covers h dn acc.1 → reported h now acc.2 →
  (∀ r h', h `prefix_of` h' → (∀ acc', r = Ok acc' → covers h' (dn ++ [arch]) acc'.1 ∧ reported h' now acc'.2) → Q r h') →
  spec collection_justified h (collect_arch repo olderThan dryRun now (now - olderThan) acc arch) Q.
Proof.
  intros Harches Hin Hcov Hrep HQ. apply spec_bind, spec_referencedObjects. intros r h1 Hp1 Hr.
  destruct r as [refs|e]; [|by apply HQ]. destruct (Hr refs eq_refl) as [Hdb Hn].
  apply spec_bind, spec_reconcileDir; [done| |].
  { intros n Hnn. exists arches. split; [still|]. left. split; [done|by apply Hn]. }
  intros r h2 Hp2 H2. assert (h `prefix_of` h2) as Hp by by etrans.
  destruct r as [found|e]; [|by apply HQ]. apply spec_ret, HQ; [done|]. intros acc' ->%Ok_inj. cbn [fst snd].
  split.
  - eapply covers_mono in Hcov as [Hcdb Hcn]; [|exact Hp]. split.
    + intros n Hn'. apply elem_of_union. right. by apply Hcdb.
    + intros n a Hnn [Ha| ->%list_elem_of_singleton]%elem_of_app; [apply Hcn; [set_solver|done]|].
      destruct (IsAny n) eqn:Eany; [left|by right].
      eapply not_listed_mono; [exact Hp2|]. apply Hn. intros Href. apply Hnn. apply elem_of_union. left.
      by apply elem_of_filter.
  - intros o [Ho|Ho]%elem_of_app; [by eapply reported_mono; [|exact Hrep|]|by apply H2 with (orphans := found)].
Qed.

(** What is done under the lease. *)
Lemma spec_collect h now (Q : result error (list OrphanObject) → list event → Prop) :
  (∀ r h', h `prefix_of` h' → (∀ orphans, r = Ok orphans → reported h' now orphans) → Q r h') →
  spec collection_justified h (
    arches ← wrapc (λ e, WrapErr e "list arches for reconcile") (call (Port.Arches repo));
    acc ← comp_fold (collect_arch repo olderThan dryRun now (now - olderThan)) (list_to_set (dbArtifacts repo), []) arches;
    anyOrphans ← reconcileDir repo "any" acc.1 olderThan dryRun now (now - olderThan);
    mret (acc.2 ++ anyOrphans)) Q.
Proof.
  intros HQ. apply spec_bind, spec_wrapc, spec_do. intros r. split; [by left|].
  destruct r as [arches|e]; [|apply HQ; [apply prefix_snoc|done]].
  set (h1 := h ++ _). assert (h `prefix_of` h1) as Hp1 by apply prefix_snoc.
  assert (EvArches repo (Ok arches) ∈ h1) as Harches by apply elem_snoc. clearbody h1. apply spec_bind.
  eapply spec_mono; [apply (spec_loop _ _ (λ done (acc : gset string * list OrphanObject) h',
    covers h' done acc.1 ∧ reported h' now acc.2) (λ _ _, True))|].
  - split; [|intros o Ho; set_solver]. split; [|set_solver]. intros n Hn. by apply elem_of_list_to_set.
  - intros dn acc a rest h2 Hl Hp2 [Hcov Hrep].
    eapply spec_collect_arch; [still|rewrite Hl; set_solver|done|done|].
    intros r h3 Hp3 H3. destruct r as [acc'|e]; [|done]. by apply H3.
  - intros r h2 Hp2 H2. assert (h `prefix_of` h2) by by etrans.
    destruct r as [acc|e]; [|by apply HQ]. destruct H2 as [[Hdb Hcov] Hrep].
    apply spec_bind, spec_reconcileDir; [done| |].
    { intros n Hn. exists arches. split; [still|]. right. split; [done|]. intros a Ha. by apply Hcov. }
    intros r h3 Hp3 H3. assert (h `prefix_of` h3) by by etrans.
    destruct r as [found|e]; [|by apply HQ]. apply spec_ret, HQ; [done|]. intros orphans ->%Ok_inj.
    intros o [Ho|Ho]%elem_of_app; [by eapply reported_mono; [|exact Hrep|]|by apply H3 with (orphans := found)].
Qed.
End collection.

(** C6. Collection only deletes what no database needs.  An object is deleted under the
    publication lease, not in a dry run, when it is a package file or signature of a
    listing, is none of the database files, was not modified after the cutoff that
    the deletion carries as its condition, and when the databases were read before and do
    not list it: that of the architecture it is stored under, or, in the shared directory,
    those of all architectures.  What is reported is exactly of this kind, and nothing else
    is changed. *)
Theorem ReconcileOrphans_safe catalog repo olderThan dryRun :
  let target := publishTarget catalog repo in
  wpc (ReconcileOrphans catalog repo olderThan dryRun) (λ r log,
    (∀ before e after, log = before ++ e :: after → passive e = false →
       match e with
       | EvDeleteOrphan r dir info cutoff _ =>
           r = target ∧ dryRun = false ∧ leased target before ∧ orphan target before dir info cutoff
       | EvLease r _ | EvRelease r => r = target
       | _ => False
       end) ∧
    (∀ orphans, r = Ok orphans → ∃ now, reported target olderThan log now orphans) ∧
    released target log).
Proof.
  intros target.
  set (K := λ h e, collection_justified target dryRun h e ∧ (passive e = false → leased target h)
    ∨ e = EvRelease target ∨ ∃ r, e = EvLease target r).
  enough (spec K [] (ReconcileOrphans catalog repo olderThan dryRun) (λ r log,
    (∀ orphans, r = Ok orphans → ∃ now, reported target olderThan log now orphans) ∧ released target log)) as H.
  { eapply wpc_mono; [exact H|]. intros r log [Ho HQ]. split; [|done].
    intros before e after Hlog Hp. destruct (ordered_elem _ _ _ _ _ Ho Hlog) as [[[Hpas|Hdel] Hl]|[->|[r' ->]]]; [| |done..].
    - congruence.
    - destruct Hdel as (r' & dir & info & cutoff & res & -> & -> & Hd & Horph). split_and!; [done..|by apply Hl|done]. }
  apply spec_bind, spec_do. intros r. split; [by left; split; [left|]|]. destruct r as [now|e].
  2: { split; [done|]. intros Hin. set_solver. }
  destruct (olderThan <? 0)%Z. { apply spec_ret. split; [done|]. intros Hin. set_solver. }
  apply (spec_withLease (collection_justified target dryRun) K); [by right; right; eexists|by right; left| |set_solver|done|].
  - intros h e Hj Hl. split; [by left|]. destruct Hj as [Hp|(r & dir & info & c & res & -> & _)]; [by destruct e|done].
  - apply spec_collect. intros r h Hp Hr orphans Hok. exists now.
    eapply reported_mono; [apply prefix_snoc|by apply Hr].
Qed.

(** ** Removal *)
Section removal.
Context (settings : Settings) (catalog : RepositoryCatalog) (rname arch pkgname : string).
Implicit Types (h : list event).

(** A database was read to list the package, with this file and architecture. *)
Definition entry h filename sa : Prop := ∃ a rr p, EvRead rname a (Ok rr) ∈ h
  ∧ PkgByPkgName rr pkgname = Some p ∧ filename = path_base (bp_path p) ∧ sa = bp_Arch p.

(** A database was read not to list it. *)
Definition absent h a : Prop := ∃ r, EvRead rname a r ∈ h ∧
  match r with Ok rr => PkgByPkgName rr pkgname = None | Err e => is_not_found e = true end.

Definition removed h a : Prop := EvRemove rname a pkgname (Ok tt) ∈ h.

(** No database that could list the file still does. *)
Definition nowhere h sa : Prop :=
  if decide (sa = "any")
  then ∃ stored, EvArches rname (Ok stored) ∈ h ∧
    ∀ a, a ∈ concreteArches (declaredArches catalog rname) stored → removed h a ∨ absent h a
  else removed h sa.

Definition every_arch : Prop := arch = "" ∨ arch = "any".

Definition removal_justified h (e : event) : Prop := passive e = true ∨
  match e with
  | EvNames r entries _ => r = rname ∧ ∃ fn sa, entry h fn sa ∧ entries = [mkEntry sa pkgname fn]
  | EvRemove r a p _ => r = rname ∧ p = pkgname ∧ (every_arch ∨ a = arch) ∧ ∃ fn sa, entry h fn sa
  | EvMerge r a _ => r = rname ∧ removed h a
  | EvDelete r dir f _ => r = rname ∧ ∃ fn, entry h fn dir ∧ (f = fn ∨ f = fn +:+ ".sig") ∧ nowhere h dir
  | EvUnname r dir n _ => r = rname ∧ n = pkgname ∧ ∃ fn, entry h fn dir ∧ EvDelete rname dir fn (Ok tt) ∈ h
  | _ => False
  end.

Lemma removal_passive h e : passive e = true → removal_justified h e.
Proof. by left. Qed.

Lemma entry_mono h h' fn sa : h `prefix_of` h' → entry h fn sa → entry h' fn sa.
Proof. intros Hp (a & rr & p & Hr & ?). exists a, rr, p. split; [still|done]. Qed.

Lemma absent_mono h h' a : h `prefix_of` h' → absent h a → absent h' a.
Proof. intros Hp (r & Hr & ?). exists r. split; [still|done]. Qed.

Lemma removed_mono h h' a : h `prefix_of` h' → removed h a → removed h' a.
Proof. unfold removed. intros Hp Hr. still. Qed.

Lemma nowhere_mono h h' sa : h `prefix_of` h' → nowhere h sa → nowhere h' sa.
Proof.
  intros Hp. unfold nowhere. case_decide; [|by apply removed_mono]. intros (stored & Ha & H').
  exists stored. split; [still|]. intros a Hin. destruct (H' a Hin); [left; by eapply removed_mono|right; by eapply absent_mono].
Qed.

Lemma spec_resolve_in h arches (Q : result error (string * string) → list event → Prop) :
  (∀ r h', h `prefix_of` h' → (∀ fn sa, r = Ok (fn, sa) → entry h' fn sa) → Q r h') →
  spec removal_justified h (resolve_in rname pkgname arches) Q.
Proof.
  revert h. induction arches as [|a arches IH]; intros h HQ; cbn [resolve_in]; [by apply spec_ret, HQ|].
  apply spec_bind, spec_catch, spec_bind, spec_wrapc, spec_do. intros r. split; [by left|].
  set (h1 := h ++ _). assert (h `prefix_of` h1) as Hp1 by apply prefix_snoc.
  assert (spec removal_justified h1 (resolve_in rname pkgname arches) Q) as Hnext.
  { apply IH. intros r' h' Hp'. apply HQ. by etrans. }
  destruct r as [rr|e]; [|exact Hnext].
  assert (EvRead rname a (Ok rr) ∈ h1) as Hread by apply elem_snoc. clearbody h1. cbn [map_err].
  destruct (PkgByPkgName rr pkgname) as [p|] eqn:Epk; [|by apply spec_ret].
  case_decide; [by apply spec_ret|]. apply spec_ret, spec_bind, spec_attempt. intros r.
  assert (entry h1 (path_base (bp_path p)) (bp_Arch p)) as Hent by (by exists a, rr, p).
  split; [right; split; [done|]; by do 2 eexists|]. apply spec_ret, HQ.
  - by apply prefix_app_r.
  - intros fn sa [= <- <-]. eapply entry_mono; [apply prefix_snoc|done].
Qed.

Lemma spec_registered_in h dbs arches (Q : result error bool → list event → Prop) :
  (∀ r h', h `prefix_of` h' → (r = Ok false → ∀ a, a ∈ arches → a ∈ dbs ∨ absent h' a) → Q r h') →
  spec removal_justified h (registered_in rname pkgname dbs arches) Q.
Proof.
  revert h. induction arches as [|a arches IH]; intros h HQ; cbn [registered_in].
  { apply spec_ret, HQ; [done|]. intros _ a Ha. set_solver. }
  case_decide as Ha.
  { apply IH. intros r h' Hp H. apply HQ; [done|]. intros Hr a' [->|Ha']%elem_of_cons; [by left|by apply H]. }
  apply spec_bind, spec_attempt. intros r. split; [by left|].
  set (h1 := h ++ _). assert (h `prefix_of` h1) as Hp1 by apply prefix_snoc.
  assert (EvRead rname a r ∈ h1) as Hread by apply elem_snoc. clearbody h1.
  assert (absent h1 a → spec removal_justified h1 (registered_in rname pkgname dbs arches) Q) as Hnext.
  { intros Habs. apply IH. intros r' h' Hp' H. apply HQ; [by etrans|].
    intros Hr a' [->|Ha']%elem_of_cons; [right; by eapply absent_mono|by apply H]. }
  destruct r as [rr|e].
  - case_decide as Hpk; [by apply spec_ret, HQ|]. apply Hnext. exists (Ok rr). split; [done|].
    by apply eq_None_not_Some.
  - destruct (is_not_found e) eqn:En; [|by apply spec_ret, HQ]. apply Hnext. by exists (Err e).
Qed.

Lemma spec_delete_package h fn sa (Q : result error unit → list event → Prop) :
  entry h fn sa → nowhere h sa → (∀ r h', h `prefix_of` h' → (r = Ok tt → EvDelete rname sa fn (Ok tt) ∈ h') → Q r h') →
  spec removal_justified h (delete_package rname sa fn pkgname) Q.
Proof.
  intros Hent Hnow HQ. apply spec_bind, spec_wrapc, spec_do. intros r. split.
  { right. split; [done|]. exists fn. auto. }
  set (h1 := h ++ _). assert (h `prefix_of` h1) as Hp1 by apply prefix_snoc.
  destruct r as [[]|e]; [|by apply HQ].
  assert (EvDelete rname sa fn (Ok tt) ∈ h1) as Hdel by apply elem_snoc. clearbody h1.
  assert (∀ h2, h1 `prefix_of` h2 → spec removal_justified h2 (wrapc (λ e, WrapErr e "delete package metadata entry")
    (call (Port.DeletePackageFileEntry rname sa pkgname))) Q) as Hend.
  { intros h2 Hp2. apply spec_wrapc, spec_do. intros r. split.
    - right. split; [done|]. split; [done|]. exists fn. split; [eapply entry_mono; [|done]; by etrans|still].
    - apply HQ; [apply prefix_app_r; by etrans|]. intros _. eapply elem_prefix; [apply prefix_snoc|still]. }
  apply spec_bind, spec_bind, spec_attempt. intros r. split; [by left|].
  set (h2 := h1 ++ _). assert (h1 `prefix_of` h2) as Hp2 by apply prefix_snoc.
  destruct r as [files|e]; [|by apply spec_ret, Hend]. case_decide; [|by apply spec_ret, Hend].
  apply spec_bind, spec_attempt. intros r. split.
  { right. split; [done|]. exists fn. split; [eapply entry_mono; [|done]; by etrans|]. split; [by right|].
    eapply nowhere_mono; [|done]. by etrans. }
  apply spec_ret, Hend. by apply prefix_app_r.
Qed.

Lemma spec_remove_from h dbs fn sa (Q : result error unit → list event → Prop) :
  entry h fn sa → (∀ a, a ∈ dbs → every_arch ∨ a = arch) →
  (∀ r h', h `prefix_of` h' → (r = Ok tt → ∀ a, a ∈ dbs → removed h' a) → Q r h') →
  spec removal_justified h (remove_from settings rname pkgname dbs) Q.
Proof.
  intros Hent Hdbs HQ. eapply spec_mono; [apply (spec_loop _ _ (λ done _ h', ∀ a, a ∈ done → removed h' a) (λ _ _, True))|].
  - set_solver.
  - intros dn _ a rest h1 -> Hp1 Hdn. apply spec_wrapc, spec_do. intros r. split.
    { right. split; [done|]. split; [done|]. split; [apply Hdbs; set_solver|]. exists fn, sa. by eapply entry_mono. }
    destruct r as [[]|e]; [|done]. cbn. intros a' [Ha'| ->%list_elem_of_singleton]%elem_of_app.
    + eapply removed_mono; [apply prefix_snoc|by apply Hdn].
    + apply elem_snoc.
  - intros r h' Hp Hr. apply HQ; [done|]. by intros ->.
Qed.

Lemma spec_rebuild h dbs (Q : result error unit → list event → Prop) :
  (∀ a, a ∈ dbs → removed h a) → (∀ r h', h `prefix_of` h' → Q r h') →
  spec removal_justified h (rebuildMergedIfUpstream settings catalog rname dbs) Q.
Proof.
  intros Hdbs HQ. unfold rebuildMergedIfUpstream. destruct (isUpstreamRepo _ _); cbn [negb]; [|by apply spec_ret, HQ].
  eapply spec_mono; [apply (spec_fold _ _ (λ _ h', h `prefix_of` h') (λ _ h', h `prefix_of` h'))|].
  - done.
  - intros _ a h1 Ha _ Hp. apply spec_bind, spec_attempt. intros r. split; [|by apply spec_ret, prefix_app_r].
    right. split; [done|]. by eapply removed_mono, Hdbs.
  - intros r h1 Hp _. by apply HQ.
Qed.

Lemma spec_ValidateRepoName h (Q : result error unit → list event → Prop) :
  (∀ r h', h `prefix_of` h' → Q r h') → spec removal_justified h (ValidateRepoName catalog rname) Q.
Proof.
  intros HQ. unfold ValidateRepoName. destruct (ValidateName rname); [|by apply spec_ret, HQ].
  destruct (Resolve catalog rname) as [rc|]; [|by apply spec_ret, HQ].
  apply spec_bind, spec_wrapc, spec_do. intros r. split; [by left|].
  destruct r as [names|e]; [|apply HQ, prefix_snoc]. cbn [map_err].
  case_decide; apply spec_ret, HQ, prefix_snoc.
Qed.

(** What a successful removal has de-registered. *)
Definition removal_done h : Prop := ∃ fn sa, entry h fn sa ∧
  if decide every_arch then
    if decide (sa = "any")
    then ∃ stored, EvArches rname (Ok stored) ∈ h ∧
      ∀ a, a ∈ concreteArches (declaredArches catalog rname) stored → removed h a
    else removed h sa
  else removed h arch.

Lemma removal_done_mono h h' : h `prefix_of` h' → removal_done h → removal_done h'.
Proof.
  intros Hp (fn & sa & He & H). exists fn, sa. split; [by eapply entry_mono|].
  repeat case_decide; [|by eapply removed_mono..]. destruct H as (stored & Ha & H). exists stored.
  split; [still|]. intros a Hin. by eapply removed_mono, H.
Qed.

Lemma spec_known_arches h sa (Q : result error (list string) → list event → Prop) :
  (∀ r h', h `prefix_of` h' → (∀ known, r = Ok known → sa = "any" →
     ∃ stored, EvArches rname (Ok stored) ∈ h' ∧ known = concreteArches (declaredArches catalog rname) stored) → Q r h') →
  spec removal_justified h (known_arches catalog rname sa) Q.
Proof.
  intros HQ. unfold known_arches. case_decide as Hsa; [|by apply spec_ret, HQ].
  apply spec_bind, spec_wrapc, spec_do. intros r. split; [by left|].
  destruct r as [stored|e]; [apply spec_ret|]; apply HQ; try done; try apply prefix_snoc.
  intros known ->%Ok_inj _. exists stored. split; [apply elem_snoc|done].
Qed.

Lemma removal_arches_Ok sa known dbs : removal_arches arch sa known = Ok dbs →
  (∀ a, a ∈ dbs → every_arch ∨ a = arch) ∧
  if decide every_arch then dbs = (if decide (sa = "any") then known else [sa])
  else arch ∈ dbs ∧ (sa ≠ "any" → sa = arch).
Proof.
  unfold removal_arches. fold every_arch. case_decide as Hsa.
  - intros ->%Ok_inj. case_bool_decide as Ha; destruct (decide every_arch); try done.
    + split; [auto|done].
    + split; [intros a ->%list_elem_of_singleton; auto|]. split; [constructor|done].
  - case_bool_decide as Ha; cbn [negb andb]; [|case_bool_decide as Hs; cbn [negb]; [|done]]; intros ->%Ok_inj.
    + split; [auto|]. by destruct (decide every_arch).
    + split; [intros a ->%list_elem_of_singleton; auto|]. destruct (decide every_arch); [done|].
      subst. split; [constructor|done].
Qed.

Lemma spec_RemovePkg h (Q : result error unit → list event → Prop) :
  (∀ r h', h `prefix_of` h' → (r = Ok tt → removal_done h') → Q r h') →
  spec removal_justified h (RemovePkg settings catalog rname arch pkgname) Q.
Proof.
  intros HQ. apply spec_bind, spec_wrapc, spec_ValidateRepoName. intros r h1 Hp1.
  destruct r as [[]|e]; [|by apply HQ]. apply spec_bind, spec_wrapc, spec_bind.
  apply (spec_repoArches catalog _ removal_passive). intros stored0 h2 Hp2. apply spec_resolve_in. intros r h3 Hp3 H3.
  assert (h `prefix_of` h3) as Hp by (do 2 (etrans; [done|]); done). clear Hp1 Hp2 Hp3 h1 h2 stored0.
  destruct r as [[fn sa]|e]; [|by apply HQ]. specialize (H3 fn sa eq_refl). cbn [map_err].
  apply spec_bind, spec_known_arches. intros r h4 Hp4 H4. assert (h `prefix_of` h4) by (by etrans).
  destruct r as [known|e]; [|by apply HQ]. specialize (H4 known eq_refl).
  eapply entry_mono in H3; [|exact Hp4]. clear Hp4 Hp.
  destruct (removal_arches arch sa known) as [dbs|e] eqn:Edbs; [|by apply spec_ret, HQ].
  apply removal_arches_Ok in Edbs as [Hdbs Hsel]. apply spec_bind, spec_ret.
  destruct (decide (length dbs = 0%nat)) as [Hlen|Hlen]; [by apply spec_ret, HQ|].
  apply spec_bind. eapply spec_remove_from; [done|done|]. intros r h5 Hp5 H5.
  assert (h `prefix_of` h5) by (by etrans). destruct r as [[]|e]; [|by apply HQ]. specialize (H5 eq_refl).
  assert (removal_done h5) as Hdone.
  { exists fn, sa. split; [by apply (entry_mono h4)|]. destruct (decide every_arch); [subst dbs|apply H5, Hsel].
    destruct (decide (sa = "any")) as [Hsa|Hsa]; [|apply H5; constructor]. destruct (H4 Hsa) as (stored & Ha & ->).
    exists stored. split; [still|done]. }
  apply spec_bind, spec_rebuild; [done|]. intros r h6 Hp6. assert (h `prefix_of` h6) by (by etrans).
  eapply removal_done_mono in Hdone; [|exact Hp6]. destruct r as [[]|e]; [|by apply HQ].
  assert (∀ h7 (b : bool), h6 `prefix_of` h7 → (b = false → nowhere h7 sa) →
    spec removal_justified h7 (if b then mret tt else delete_package rname sa fn pkgname) Q) as Hend.
  { intros h7 b Hp7 Hnow. eapply removal_done_mono in Hdone; [|exact Hp7].
    assert (h `prefix_of` h7) by (by etrans). destruct b; [by apply spec_ret, HQ|].
    apply spec_delete_package; [|by apply Hnow|].
    - eapply entry_mono; [|exact H3]. do 2 (etrans; [done|]). done.
    - intros r h8 Hp8 _. apply HQ; [by etrans|]. intros _. eapply removal_done_mono; [exact Hp8|done]. }
  apply spec_bind. destruct (decide (sa = "any" ∧ ¬ (arch = "" ∨ arch = "any"))) as [Hshared|Hshared].
  - apply spec_registered_in. intros r h7 Hp7 H7. destruct r as [b|e]; [|apply HQ; [by etrans|done]].
    apply Hend; [done|]. intros ->. specialize (H7 eq_refl). destruct Hshared as [Hsa Hne].
    unfold nowhere. rewrite decide_True by done. destruct (H4 Hsa) as (stored & Ha & ->).
    exists stored. split; [eapply elem_prefix; [|exact Ha]; do 2 (etrans; [done|]); done|].
    intros a Hin. destruct (H7 a Hin); [left|by right]. eapply removed_mono; [|by apply H5]. by etrans.
  - apply spec_ret, (Hend h6 false); [done|]. intros _. unfold nowhere. destruct (decide (sa = "any")) as [Hsa|Hsa].
    + destruct (H4 Hsa) as (stored & Ha & ->). exists stored. assert (every_arch) as Hev.
      { destruct (decide every_arch); [done|]. by destruct Hshared. }
      destruct (decide every_arch); [subst dbs|done].
      split; [eapply elem_prefix; [|exact Ha]; by etrans|]. intros a Hin. left.
      eapply removed_mono; [exact Hp6|by apply H5].
    + eapply removed_mono; [exact Hp6|]. apply H5. destruct (decide every_arch); [|destruct Hsel as [? ->]; done].
      subst dbs. constructor.
Qed.
End removal.

(** C8. Removal deletes an object only when nothing can still need it.  A package file, or
    its signature, is deleted only as the one that a database of the repository was read to
    list for the package, and only after the package was removed from the database of its
    architecture, or, for a file shared by all architectures, after every architecture either
    removed it or was read not to list it.  Nothing but this package is removed, from no other
    architecture than the one that was asked for, and success means that it was removed there;
    without an architecture, from all of them for a shared file, but otherwise only from the
    architecture of the first database that listed it. *)
Theorem RemovePkg_safe settings catalog rname arch pkgname :
  wpc (RemovePkg settings catalog rname arch pkgname) (λ r log,
    (∀ before e after, log = before ++ e :: after →
       removal_justified catalog rname arch pkgname before e) ∧
    (r = Ok tt → removal_done catalog rname arch pkgname log)).
Proof.
  assert (spec (removal_justified catalog rname arch pkgname) [] (RemovePkg settings catalog rname arch pkgname)
    (λ r log, r = Ok tt → removal_done catalog rname arch pkgname log)) as H.
  { by apply spec_RemovePkg. }
  eapply wpc_mono; [exact H|]. intros r log [Ho HQ]. split; [|done].
  intros before e after. by apply ordered_elem.
Qed.

(** ** Promotion *)
Section promotion.
Context (decode : string → result string tar_stream) (quote : string → string).
Context (vercmp : string → string → Z) (settings : Settings) (catalog : RepositoryCatalog).
Context {R : RangeOrder}.
(** The physical repositories of the two tiers. *)
Context (src dst pkgname version : string) (keep : bool).
Implicit Types (h : list event) (p : BinaryPackage) (cur : option publishedPackage).

(** The source tier was read to list the package, in the version that was asked for. *)
Definition candidate h arch p : Prop := ∃ rr, EvRead src arch (Ok rr) ∈ h
  ∧ PkgByPkgName rr pkgname = Some p ∧ (version = "" ∨ bp_Version p = version).

(** The target tier was read to list [cur], which the package may replace. *)
Definition admitted h arch p cur : Prop := listed decode quote catalog dst h arch (bp_Name p) cur
  ∧ ∀ c, cur = Some c → (0 < vercmp (bp_Version p) (Upload.version c))%Z
      ∨ vercmp (bp_Version p) (Upload.version c) = 0%Z ∧ fileName c = bp_path p.

Definition store_arch arch p : string := if decide (bp_Arch p = "any") then "any" else arch.

(** The bytes of the source tier. *)
Definition copied h arch p cur a : Prop :=
  candidate h arch p ∧ admitted h arch p cur ∧ spooled src h (store_arch arch p) (bp_path p) a.

Definition promoted h arch : Prop := ∃ items, EvPublish dst arch items (Ok tt) ∈ h.

Definition promotion_step h (e : event) : Prop :=
  match e with
  | EvStore r sa f _ => r = dst ∧ ∃ arch p cur a, copied h arch p cur a ∧ sa = store_arch arch p
      ∧ Some f ∈ [Some (sp_pkg a); sp_sig a]
  | EvPublish r arch items _ => r = dst ∧ ∃ p cur a, copied h arch p cur a
      ∧ stored_again dst h (store_arch arch p) a
      ∧ items = [promotion_item a (bp_Name p) (bp_Version p) (bp_path p) cur]
  | EvNames r entries _ => r = dst ∧ ∃ arch p, candidate h arch p ∧ promoted h arch
      ∧ entries = [mkEntry (store_arch arch p) (bp_Name p) (bp_path p)]
  | _ => False
  end.

(** The source is cleared after a promotion, when the policy does not keep it. *)
Definition clearing_step h (e : event) : Prop :=
  keep = false ∧ (∃ arch, promoted h arch) ∧
  (removal_justified catalog src "" pkgname h e ∨ ∃ arch r, e = EvRemove src arch pkgname r ∧ promoted h arch).

Definition promotion_justified h (e : event) : Prop :=
  lease_event e = false ∧ (passive e = true ∨ promotion_step h e ∨ clearing_step h e).

Lemma promotion_passive h e : passive e = true → promotion_justified h e.
Proof. destruct e; try done; by split; [|left]. Qed.

Lemma candidate_mono h h' arch p : h `prefix_of` h' → candidate h arch p → candidate h' arch p.
Proof. intros Hp (rr & Hr & ?). exists rr. split; [still|done]. Qed.

Lemma promoted_mono h h' arch : h `prefix_of` h' → promoted h arch → promoted h' arch.
Proof. intros Hp (items & Hi). exists items. still. Qed.

Lemma copied_mono h h' arch p cur a : h `prefix_of` h' → copied h arch p cur a → copied h' arch p cur a.
Proof.
  intros Hp (Hc & [Hl Hg] & Hs). split_and!; [by eapply candidate_mono| |by eapply spooled_mono].
  split; [by eapply listed_mono|done].
Qed.

Lemma promotion_gate_Ok p cur : promotion_gate vercmp (bp_Version p) (bp_path p) cur = Ok tt →
  ∀ c, cur = Some c → (0 < vercmp (bp_Version p) (Upload.version c))%Z
    ∨ vercmp (bp_Version p) (Upload.version c) = 0%Z ∧ fileName c = bp_path p.
Proof.
  intros H c ->. unfold promotion_gate in H. destruct (_ <? 0)%Z eqn:E1; [done|]. apply Z.ltb_ge in E1.
  destruct (_ =? 0)%Z eqn:E2; [|apply Z.eqb_neq in E2; left; lia].
  apply Z.eqb_eq in E2. case_bool_decide; [by right|done].
Qed.

Lemma spec_promoteOneArch h arch p (Q : result error unit → list event → Prop) :
  candidate h arch p →
  (∀ r h', h `prefix_of` h' → (r = Ok tt → promoted h' arch) → Q r h') →
  spec promotion_justified h (promoteOneArch decode quote vercmp settings catalog src dst arch (store_arch arch p)
    (bp_path p) (bp_Name p) (bp_Version p)) Q.
Proof.
  intros Hc HQ. apply spec_bind, spec_wrapc, (spec_lookupPublished _ _ _ _ promotion_passive).
  intros r h1 Hp1 H1. destruct r as [cur|e]; [|by apply HQ]. specialize (H1 cur eq_refl). cbn [map_err].
  destruct (promotion_gate vercmp (bp_Version p) (bp_path p) cur) as [[]|e] eqn:Eg; [|by apply spec_ret, HQ].
  apply spec_bind, spec_ret, spec_bind, (spec_spool _ promotion_passive).
  intros r h2 Hp2 H2. assert (h `prefix_of` h2) as Hp by (by etrans). destruct r as [a|e]; [|by apply HQ].
  assert (copied h2 arch p cur a) as Hcop.
  { split_and!; [by apply (candidate_mono h)| |by apply H2]. split; [by apply (listed_mono _ _ _ _ h1)|].
    by apply promotion_gate_Ok. }
  apply spec_bind, spec_wrapc, spec_storeSpooledPackage.
  { intros h' f r Hp' Hf. split; [done|]. right. left. split; [done|]. exists arch, p, cur, a.
    split_and!; [by eapply copied_mono|done|done]. }
  intros r h3 Hp3 H3 _. assert (h `prefix_of` h3) as Hp' by (by etrans). destruct r as [[]|e]; [|by apply HQ].
  eapply copied_mono in Hcop; [|exact Hp3]. apply spec_bind, spec_wrapc, spec_do. intros r. split.
  { split; [done|]. right. left. split; [done|]. exists p, cur, a. split_and!; [done|by apply H3|done]. }
  set (h4 := h3 ++ _). assert (h3 `prefix_of` h4) as Hp4 by apply prefix_snoc.
  destruct r as [[]|e]; [|apply HQ; [by etrans|done]].
  assert (promoted h4 arch) as Hprom by (eexists; apply elem_snoc). clearbody h4.
  apply spec_wrapc, spec_do. intros r. split.
  { split; [done|]. right. left. split; [done|]. exists arch, p. split_and!; [|done|done].
    apply (candidate_mono h3); [done|]. apply Hcop. }
  apply HQ; [apply prefix_app_r; by etrans|]. intros _. eapply promoted_mono; [apply prefix_snoc|done].
Qed.

(** The promoted architectures so far; the others were read not to list the package. *)
Definition progress h (done promotedArches : list string) : Prop :=
  (∀ a, a ∈ promotedArches → promoted h a) ∧
  ∀ a, a ∈ done → promoted h a ∨ absent src pkgname h a.

Lemma progress_mono h h' dn arches : h `prefix_of` h' → progress h dn arches → progress h' dn arches.
Proof.
  intros Hp [H1 H2]. split; [intros a Ha; by eapply promoted_mono, H1|].
  intros a Ha. destruct (H2 a Ha); [left; by eapply promoted_mono|right; by eapply absent_mono].
Qed.

Lemma spec_promote_arch h dn arches arch (Q : result error (list string) → list event → Prop) :
  progress h dn arches →
  (∀ r h', h `prefix_of` h' → (∀ arches', r = Ok arches' → progress h' (dn ++ [arch]) arches') → Q r h') →
  spec promotion_justified h (promote_arch decode quote vercmp settings catalog src dst pkgname version arches arch) Q.
Proof.
  intros Hprog HQ. apply spec_bind, spec_do. intros r. split; [by apply promotion_passive|].
  destruct r as [[]|e]; [|apply HQ; [apply prefix_snoc|done]].
  apply spec_bind, spec_attempt. intros r. split; [by apply promotion_passive|].
  set (h1 := _ ++ _). assert (h `prefix_of` h1) as Hp1 by by do 2 apply prefix_app_r.
  assert (EvRead src arch r ∈ h1) as Hread by apply elem_snoc. clearbody h1.
  eapply progress_mono in Hprog; [|exact Hp1].
  assert (absent src pkgname h1 arch → progress h1 (dn ++ [arch]) arches) as Habs.
  { intros Ha. destruct Hprog as [H1 H2]. split; [done|].
    intros a [Hin| ->%list_elem_of_singleton]%elem_of_app; [by apply H2|by right]. }
  destruct r as [rr|e].
  2: { destruct (is_not_found e) eqn:En; apply spec_ret, HQ; try done. intros arches' ->%Ok_inj. apply Habs.
       by exists (Err e). }
  destruct (PkgByPkgName rr pkgname) as [p|] eqn:Epk.
  2: { apply spec_ret, HQ; [done|]. intros arches' ->%Ok_inj. apply Habs. by exists (Ok rr). }
  case_decide as Hv; [by apply spec_ret, HQ|].
  assert (candidate h1 arch p) as Hc.
  { exists rr. split_and!; [done..|]. destruct (decide (version = "")); [by left|right].
    destruct (decide (bp_Version p = version)); [done|]. by destruct Hv. }
  apply spec_bind, spec_wrapc, spec_promoteOneArch; [done|]. intros r h2 Hp2 H2.
  assert (h `prefix_of` h2) by (by etrans). destruct r as [[]|e]; [|by apply HQ]. specialize (H2 eq_refl).
  eapply progress_mono in Hprog as [Hg1 Hg2]; [|exact Hp2]. apply spec_ret, HQ; [done|]. intros arches' ->%Ok_inj.
  split; intros a [Hin| ->%list_elem_of_singleton]%elem_of_app; auto.
Qed.

Lemma clearing_removal h e : keep = false → (∃ arch, promoted h arch) →
  removal_justified catalog src "" pkgname h e → lease_event e = false ∧ promotion_justified h e.
Proof.
  intros Hk Hp Hj. assert (lease_event e = false) as Hl by (by destruct Hj as [|]; destruct e).
  split; [done|]. split; [done|]. right. right. split; [done|]. split; [done|by left].
Qed.

Lemma ordered_clearing h log : keep = false → (∃ arch, promoted h arch) →
  ordered (removal_justified catalog src "" pkgname) h log → ordered promotion_justified h log.
Proof.
  intros Hk. revert h. induction log as [|e log IH]; intros h Hp; [done|]. intros [He Ho]. split.
  - by apply clearing_removal.
  - apply IH; [|done]. destruct Hp as [arch Hp]. exists arch. eapply promoted_mono; [apply prefix_snoc|done].
Qed.

Lemma spec_dropFromSource h arches (Q : result error unit → list event → Prop) :
  keep = false → arches ≠ [] → (∀ a, a ∈ arches → promoted h a) →
  (∀ r h', h `prefix_of` h' → Q r h') →
  spec promotion_justified h (dropFromSource settings catalog src pkgname arches) Q.
Proof.
  intros Hk Hne Hprom HQ.
  assert (∃ a, promoted h a) as Hany.
  { destruct arches as [|a arches]; [done|]. exists a. apply Hprom. constructor. }
  apply spec_bind, spec_catch. eapply (spec_lift (removal_justified catalog src "" pkgname)).
  { apply (spec_RemovePkg _ _ _ _ _ _ (λ _ h', h `prefix_of` h')). by intros r h' Hp _. }
  intros r log Ho Hp. split; [by apply ordered_clearing|].
  destruct r as [[]|e]; [by apply spec_ret, HQ|].
  eapply spec_mono; [apply (spec_fold _ _ (λ _ h', h `prefix_of` h') (λ _ _, False))|].
  - done.
  - intros _ a h1 Ha Hp1 Hp2. apply spec_bind, spec_attempt. intros r. split; [|by apply spec_ret, prefix_app_r].
    split; [done|]. right. right. split; [done|]. split.
    + destruct Hany as [b Hb]. exists b. by eapply promoted_mono.
    + right. exists a, r. split; [done|]. by eapply promoted_mono, Hprom.
  - intros [[]|e2] h1 _ H1; [by apply HQ|done].
Qed.

(** What a successful promotion has done. *)
Definition promotion_done h : Prop := (∃ arch, promoted h arch) ∧
  ∀ a, a ∈ declaredArches catalog src → a ≠ "" → a ≠ "any" → promoted h a ∨ absent src pkgname h a.

Lemma spec_promote_all h (Q : result error unit → list event → Prop) :
  (∀ r h', h `prefix_of` h' → (r = Ok tt → promotion_done h') → Q r h') →
  spec promotion_justified h (
    arches ← repoArches catalog src;
    promotedArches ← comp_fold (promote_arch decode quote vercmp settings catalog src dst pkgname version) [] arches;
    if decide (length promotedArches = 0%nat) then fail (ErrDomain DomainNotFound "not found in the source tier")
    else if keep then mret tt else dropFromSource settings catalog src pkgname promotedArches) Q.
Proof.
  intros HQ. apply spec_bind, (spec_repoArches _ _ promotion_passive). intros stored h1 Hp1.
  set (arches := concreteArches _ _). apply spec_bind.
  eapply spec_mono; [apply (spec_loop _ _ (λ done promotedArches h', progress h' done promotedArches) (λ _ _, True))|].
  - split; set_solver.
  - intros dn ps a rest h2 _ Hp2 Hprog. eapply spec_promote_arch; [done|]. intros r h3 Hp3 H3.
    destruct r as [ps'|e]; [|done]. by apply H3.
  - intros r h2 Hp2 Hr. assert (h `prefix_of` h2) as Hp by (by etrans).
    destruct r as [ps|e]; [|by apply HQ]. destruct Hr as [Hps Harches].
    case_decide as Hlen; [by apply spec_ret, HQ|].
    assert (ps ≠ []) as Hne by (by intros ->).
    assert (∀ h3, h2 `prefix_of` h3 → promotion_done h3) as Hdone.
    { intros h3 Hp3. split.
      - destruct ps as [|a ps]; [done|]. exists a. eapply promoted_mono; [done|]. apply Hps. constructor.
      - intros a Ha Hn1 Hn2. destruct (Harches a) as [H|H]; [|left; by eapply promoted_mono|right; by eapply absent_mono].
        apply elem_of_concreteArches. set_solver. }
    destruct keep eqn:Hkeep; [by apply spec_ret, HQ; [|intros _; apply Hdone]|].
    apply spec_dropFromSource; [done..|]. intros r h3 Hp3. apply HQ; [by etrans|]. intros _. by apply Hdone.
Qed.
End promotion.

#[local] Transparent spec.


(** ** Runs *)
Module example.
Definition listing (arch : string) : RemoteRepo := mkRemote "core" "" [mkBinaryPackage ("a-1-1-" +:+ arch +:+ ".pkg.tar.zst")
  (PKGINFO.mk "a" "a" "1-1" "" "" 0 "" 0 arch [] [] [] [] [] [] [] [] [] [] ∅ "")].
Definition core (tiered : bool) : Repository := mkRepository "core" ["x86_64"; "aarch64"] false [] tiered false (mkUpstream "" "").
Definition catalog (tiered : bool) : RepositoryCatalog :=
  match add empty_catalog (core tiered) with Ok c => c | Err _ => empty_catalog end.
Definition settings : Settings := mkSettings false false "" [] 0 false.
Definition changes (log : list event) : list event := filter (λ e, passive e = false) log.
Definition removed_from (log : list event) : list (string * string) :=
  omap (λ e, match e with EvRemove repo arch _ (Ok _) => Some (repo, arch) | _ => None end) log.
Definition published_in (log : list event) : list (string * string) :=
  omap (λ e, match e with EvPublish repo arch _ (Ok _) => Some (repo, arch) | _ => None end) log.

(** Two architectures list their own package; it is asked to be removed from all. *)
Definition both : ∀ X, Port.op X → result error X :=
  fixed_answer (mkView [] (λ _ arch, Ok (listing arch)) (λ _, Ok "bytes") (Ok tt)).

(** Only the first architecture loses it, and the caller is told that the removal succeeded. *)
Example remove_everywhere_removes_one :
  let r := exec both (RemovePkg settings (catalog false) "core" "" "a") in
  (r.1, changes r.2) = (Ok tt, [EvNames "core" [mkEntry "x86_64" "a" "a-1-1-x86_64.pkg.tar.zst"] (Ok tt);
    EvRemove "core" "x86_64" "a" (Ok tt); EvDelete "core" "x86_64" "a-1-1-x86_64.pkg.tar.zst" (Ok tt);
    EvUnname "core" "x86_64" "a" (Ok tt)]).
Proof. vm_compute. reflexivity. Qed.

Definition staged : ∀ X, Port.op X → result error X :=
  fixed_answer (mkView [] (λ repo arch, if decide (repo = "core-staging") then Ok (listing arch) else Err ErrNotFound)
    (λ _, Ok "bytes") (Ok tt)).

(** A promotion that moves both: the source tier keeps the second. *)
Example move_leaves_one :
  let r := exec staged (PromotePackage (λ _, Err "") id (λ _ _, 0%Z) settings (catalog true) (R := elements_order)
    "core" TierStaging TierTesting "a" "") in
  (r.1, removed_from r.2, published_in r.2)
  = (Ok tt, [("core-staging", "x86_64")], [("core-testing", "x86_64"); ("core-testing", "aarch64")]).
Proof. vm_compute. reflexivity. Qed.
End example.
