(* ===== verification/Joblog.v ===== *)
(** * Build logs: the buffer, the event stream and its client
      (miko/joblog/buffer.go, JobLogsHandler in miko/handler/build.go, StreamLogs in
      miko/client/build.go)

    A build writes its log to a [Buffer] while HTTP handlers poll it and send what is new
    as server-sent events; the client turns the events back into lines.  The critical
    sections of the buffer are its operations, so an interleaving of the writer with a
    reader is a list of batches of operations, one batch before each poll. *)

From S2P Require Import Prelude GoStrings.
Local Open Scope Z_scope.

(** ** The buffer *)

Record Buffer := mkBuffer {
  maxBytes : Z;
  truncated : bool;
  buf : string;
  closed : bool;
}.
#[export] Instance eta_Buffer : Eta Buffer :=
  λ b, mkBuffer b.(maxBytes) b.(truncated) b.(buf) b.(closed).

Definition New (maxBytes : Z) : Buffer := mkBuffer maxBytes false "" false.

(** The truncation marker, clipped to the size of the buffer. *)
Definition marker (maxBytes : Z) : string :=
  let m := String newline "--- log truncated (max " +:+ format_int maxBytes
             +:+ " bytes) ---" +:+ String newline "" in
  if maxBytes <? len m then str_take (Z.to_nat maxBytes) m else m.

(** [Write]: the new buffer and the number of bytes it reports. *)
Definition Write (b : Buffer) (p : string) : Buffer * Z :=
  let requested := len p in
  if b.(closed) || b.(truncated) then (b, requested) else
  if b.(maxBytes) <=? 0 then (b <| buf ::= λ s, s +:+ p |>, requested) else
  let marker := marker b.(maxBytes) in
  let payloadLimit := b.(maxBytes) - len marker in
  let remaining := payloadLimit - len b.(buf) in
  if len p <=? remaining then (b <| buf ::= λ s, s +:+ p |>, requested) else
  let b := if 0 <? remaining
           then b <| buf ::= λ s, s +:+ str_take (Z.to_nat remaining) p |> else b in
  (b <| buf ::= λ s, s +:+ marker |> <| truncated := true |>, requested).

Definition Close (b : Buffer) : Buffer := b <| closed := true |>.

(** [BytesFrom]: the bytes from an offset, clamped to the buffer, the total length and
    the closed flag. *)
Definition BytesFrom (b : Buffer) (offset : Z) : string * Z * bool :=
  let total := len b.(buf) in
  let offset := if offset <? 0 then 0 else offset in
  let offset := if total <? offset then total else offset in
  (str_drop (Z.to_nat offset) b.(buf), total, b.(closed)).

(** The operations of the writer of a log. *)
Inductive log_op := OpWrite (p : string) | OpClose.

Definition run_op (b : Buffer) (o : log_op) : Buffer :=
  match o with OpWrite p => (Write b p).1 | OpClose => Close b end.

Definition run_ops (b : Buffer) (os : list log_op) : Buffer := foldl run_op b os.

(** ** The event stream of a job's log *)

(** What happens at one call on the connection: it is served, or it fails after some of
    its bytes have been delivered. *)
Inductive conn_outcome := Served | Broken (delivered : nat).

(** The state of one [JobLogsHandler]. *)
Record stream := mkStream { offset : Z; sent : string; calls : nat }.
#[export] Instance eta_stream : Eta stream := λ s, mkStream s.(offset) s.(sent) s.(calls).

(** One event. *)
Definition frame (l : string) : string :=
  "data: " +:+ l +:+ String newline (String newline "").

Definition frames (ls : list string) : string := foldr (λ l s, frame l +:+ s) "" ls.

Section stream.
Context (conn : nat → conn_outcome).

(** A call that carries the bytes [data]. *)
Definition conn_call (data : string) (s : stream) : stream * bool :=
  match conn s.(calls) with
  | Served => (s <| sent ::= λ t, t +:+ data |> <| calls ::= S |>, true)
  | Broken n => (s <| sent ::= λ t, t +:+ str_take n data |> <| calls ::= S |>, false)
  end.

(** A sequence of calls that stops at the first failure. *)
Fixpoint conn_calls (datas : list string) (s : stream) : stream * bool :=
  match datas with
  | [] => (s, true)
  | data :: datas =>
      match conn_call data s with
      | (s, true) => conn_calls datas s
      | r => r
      end
  end.

(** The complete lines of a chunk, or the whole chunk when the log is closed. *)
Definition emit_data (chunk : string) (closed : bool) : string :=
  if closed then chunk
  else match cut_last (String newline "") chunk with
       | Some (a, _) => line a
       | None => ""
       end.

(** Send a chunk: set the write deadline, print one event per line (the empty tail after
    the last newline is not a line), flush, clear the deadline. *)
Definition send_data (data : string) (s : stream) : stream * bool :=
  conn_calls ("" :: map frame (raw_lines (split_char newline data)) ++ [""; ""]) s.

(** [emit]: [None] is an error of the connection, [Some closed] the end of the poll. *)
Definition emit (b : Buffer) (s : stream) : stream * option bool :=
  let '(chunk, _, closed) := BytesFrom b s.(offset) in
  let data := emit_data chunk closed in
  if 0 <? len data then
    match send_data data s with
    | (s, false) => (s, None)
    | (s, true) => (s <| offset ::= λ o, o + len data |>, Some closed)
    end
  else (s, Some closed).

Inductive stream_end := Complete | BrokenConn | Disconnected.

(** The polling loop; [ticks] are the operations of the writer between the ticks, and the
    client leaves when they run out. *)
Fixpoint serve (b : Buffer) (s : stream) (ticks : list (list log_op)) :
    Buffer * stream * stream_end :=
  match emit b s with
  | (s, None) => (b, s, BrokenConn)
  | (s, Some true) => (b, s, Complete)
  | (s, Some false) =>
      match ticks with
      | [] => (b, s, Disconnected)
      | os :: ticks => serve (run_ops b os) s ticks
      end
  end.

Definition stream0 : stream := mkStream 0 "" 0.

(** The buffer a handler reads: the live one, or the stored text of a finalized job. *)
Definition log_source (live : option Buffer) (logs : string) : Buffer :=
  match live with Some b => b | None => Close (Write (New 0) logs).1 end.
End stream.

(** ** The client *)

(** [scanner.Buffer(…, 1<<20)]. *)
Definition client_scan_limit : Z := 1048576.

(** The line the client prints for one line of the response. *)
Definition client_line (text : string) : option string :=
  (λ data, line (trim_prefix data " ")) <$> strip_prefix "data:" text.

(** [StreamLogs] of an event stream: what the client prints and whether the scanner
    stopped at a line it cannot hold. *)
Definition StreamLogs (response : string) : string * bool :=
  let '(ls, long) := scan_lines_upto client_scan_limit response in
  (foldr (λ t s, match client_line t with Some l => l +:+ s | None => s end) "" ls, long).

(** The lines of a log text. *)
Definition log_lines (text : string) : list string := raw_lines (split_char newline text).

(** ** Lemmas on the buffer *)

Lemma len_nonneg s : 0 ≤ len s.
Proof. unfold len. lia. Qed.

Lemma len_app s t : len (s +:+ t) = len s + len t.
Proof. unfold len. rewrite length_str_app. lia. Qed.

Lemma len_take n s : 0 ≤ n ≤ len s → len (str_take (Z.to_nat n) s) = n.
Proof. unfold len. rewrite length_str_take. lia. Qed.

Lemma marker_len max : 0 < max → len (marker max) ≤ max.
Proof.
  intros Hmax. unfold marker. cbv zeta. case_match eqn:E; [|lia].
  rewrite len_take; lia.
Qed.

Definition concat_writes (ps : list string) : string := foldr String.append "" ps.

(** What a buffer that saw the bytes [all] holds. *)
Definition written (max : Z) (all : string) : Buffer :=
  if max <=? 0 then mkBuffer max false all false else
  let payload := max - len (marker max) in
  if len all <=? payload then mkBuffer max false all false
  else mkBuffer max true (str_take (Z.to_nat payload) all +:+ marker max) false.

Lemma Write_written max all p : (Write (written max all) p).1 = written max (all +:+ p).
Proof.
  unfold written. destruct (max <=? 0) eqn:Hm.
  { unfold Write. simpl. by rewrite Hm. }
  pose proof (marker_len max ltac:(lia)) as Hk. pose proof (len_nonneg (marker max)).
  pose proof (len_nonneg all). pose proof (len_nonneg p).
  cbv zeta. rewrite len_app. destruct (len all <=? max - len (marker max)) eqn:Hall.
  2:{ rewrite (proj2 (Z.leb_gt (len all + len p) _)) by lia.
      unfold Write. simpl. rewrite str_take_app_le by (unfold len in *; lia). done. }
  unfold Write. cbn [closed truncated maxBytes buf orb]. rewrite Hm. cbv zeta.
  destruct (len all + len p <=? max - len (marker max)) eqn:Hp.
  { rewrite (proj2 (Z.leb_le (len p) _)) by lia. done. }
  rewrite (proj2 (Z.leb_gt (len p) _)) by lia. simpl.
  assert (str_take (Z.to_nat (max - len (marker max))) (all +:+ p)
          = all +:+ str_take (Z.to_nat (max - len (marker max) - len all)) p) as ->.
  { rewrite str_take_app_ge by (unfold len in *; lia). do 2 f_equal. unfold len in *. lia. }
  destruct (0 <? max - len (marker max) - len all) eqn:Hr; simpl.
  - done.
  - replace (max - len (marker max) - len all) with 0 by lia. by rewrite str_app_nil_r.
Qed.

Lemma run_writes max all ps :
  run_ops (written max all) (map OpWrite ps) = written max (all +:+ concat_writes ps).
Proof.
  revert all. induction ps as [|p ps IH]; intros all; [by rewrite str_app_nil_r|].
  unfold run_ops in *. simpl. rewrite Write_written, IH. by rewrite str_app_assoc.
Qed.

Lemma written_bound max all : max ≤ 0 ∨ len (written max all).(buf) ≤ max.
Proof.
  unfold written. destruct (max <=? 0) eqn:Hm; [left; lia|right].
  pose proof (marker_len max ltac:(lia)). pose proof (len_nonneg (marker max)).
  cbv zeta. case_match; simpl; [lia|]. rewrite len_app, len_take; [lia|]. lia.
Qed.

Lemma run_closed b os : b.(closed) = true → run_ops b os = b.
Proof.
  intros Hb. induction os as [|o os IH]; [done|]. unfold run_ops in *. simpl.
  assert (run_op b o = b) as ->; [|done].
  destruct b, o; simpl in *; subst; [|done]. unfold Write. done.
Qed.

(** C23. The log buffer, for every limit and every sequence of writes and closes: what it
    holds is determined by the concatenation of the writes before the first close,
    unchanged when the limit is not positive or the text fits beside the truncation
    marker, and otherwise cut there and followed by exactly one marker, whatever the chunk
    boundaries; a positive limit is never exceeded; every write reports its full length,
    and nothing after the close changes the buffer. *)
Theorem Buffer_spec max ps os p b :
  run_ops (New max) (map OpWrite ps) = written max (concat_writes ps)
  ∧ (max ≤ 0 ∨ len (written max (concat_writes ps)).(buf) ≤ max)
  ∧ run_ops (New max) (map OpWrite ps ++ OpClose :: os) = Close (written max (concat_writes ps))
  ∧ (Write b p).2 = len p.
Proof.
  assert (New max = written max "") as Hn.
  { unfold written, New. destruct (max <=? 0) eqn:Hm; [done|]. cbv zeta.
    pose proof (marker_len max ltac:(lia)). by rewrite (proj2 (Z.leb_le _ _)) by (change (len "") with 0; lia). }
  assert (run_ops (New max) (map OpWrite ps) = written max (concat_writes ps)) as Hw.
  { by rewrite Hn, run_writes. }
  split_and!; [done|apply written_bound| |].
  - unfold run_ops in *. rewrite foldl_app, Hw. simpl. by apply run_closed.
  - unfold Write. cbv zeta. repeat case_match; done.
Qed.

Example truncated_log :
  (run_ops (New 50) (map OpWrite ["0123456789"; "abcdef"; "x"])).(buf)
  = "0123456789ab" +:+ String newline "--- log truncated (max 50 bytes) ---" +:+ String newline "".
Proof. vm_compute. reflexivity. Qed.

(** ** Lemmas on lines and frames *)

Lemma raw_lines_app_ne l k : k ≠ [] → raw_lines (l ++ k) = l ++ raw_lines k.
Proof.
  intros Hk. induction l as [|x l IH]; [done|]. simpl. rewrite <-IH.
  destruct l as [|y l]; simpl; [by destruct k|done].
Qed.

Definition no_newline (l : string) : Prop := occurs newline l = false.

Lemma log_lines_app ls text :
  Forall no_newline ls → log_lines (unlines ls +:+ text) = ls ++ log_lines text.
Proof.
  intros Hls. unfold log_lines.
  assert (split_char newline (unlines ls +:+ text) = ls ++ split_char newline text) as ->.
  { induction Hls as [|l ls Hl Hls IH]; [done|]. unfold unlines in *. simpl.
    by rewrite <-str_app_assoc, str_app_cons, split_char_app, IH by done. }
  apply raw_lines_app_ne, split_char_not_nil.
Qed.

Lemma log_lines_no_newline text : Forall no_newline (log_lines text).
Proof.
  unfold log_lines. induction (split_char_occurs newline text) as [|x [|y l] Hx Hl IH];
    simpl in *; [by constructor| |by constructor].
  case_decide; by repeat constructor.
Qed.

Lemma unlines_split a : unlines (split_char newline a) = line a.
Proof.
  unfold line. rewrite <-(join_split newline a) at 2.
  pose proof (split_char_not_nil newline a) as Hn.
  induction (split_char newline a) as [|x [|y l] IH]; [done| |].
  - unfold unlines. simpl. done.
  - change (unlines (x :: y :: l)) with (x +:+ String newline (unlines (y :: l))).
    rewrite IH by done.
    change (join (String newline "") (x :: y :: l))
      with (x +:+ String newline (join (String newline "") (y :: l))).
    by rewrite <-str_app_assoc.
Qed.

Lemma log_lines_line a : log_lines (line a) = split_char newline a.
Proof.
  rewrite <-unlines_split, <-(str_app_nil_r (unlines _)), log_lines_app, app_nil_r;
    [done|apply split_char_occurs].
Qed.

Lemma frames_app l k : frames (l ++ k) = frames l +:+ frames k.
Proof. induction l as [|x l IH]; [done|]. simpl. by rewrite IH, str_app_assoc. Qed.

(** A poll takes whole lines, and everything once the log is closed. *)
Lemma emit_data_spec chunk closed :
  ∃ rest, chunk = emit_data chunk closed +:+ rest
    ∧ if closed then rest = "" else emit_data chunk closed = unlines (log_lines (emit_data chunk closed)).
Proof.
  destruct closed; simpl; [exists ""; by rewrite str_app_nil_r|].
  destruct (cut_last _ chunk) as [[a rest]|] eqn:E; [|by exists chunk].
  exists rest. apply cut_last_Some in E as ->. rewrite log_lines_line, unlines_split.
  split; [|done]. unfold line. by rewrite <-!str_app_assoc.
Qed.

Lemma Write_prefix b p : ∃ t, (Write b p).1.(buf) = b.(buf) +:+ t.
Proof.
  unfold Write. cbv zeta. repeat case_match; simpl; try (eexists; done);
    try (exists ""; by rewrite str_app_nil_r).
  eexists. by rewrite <-str_app_assoc.
Qed.

Lemma run_ops_prefix b os : ∃ t, (run_ops b os).(buf) = b.(buf) +:+ t.
Proof.
  revert b. induction os as [|o os IH]; intros b; [exists ""; by rewrite str_app_nil_r|].
  unfold run_ops in *. simpl. destruct (IH (run_op b o)) as [t ->].
  destruct o as [p|]; simpl; [|by exists t].
  destruct (Write_prefix b p) as [t' ->]. exists (t' +:+ t). by rewrite str_app_assoc.
Qed.

(** ** Lemmas on the stream *)

Section stream_lemmas.
Context (conn : nat → conn_outcome).
Implicit Types (s : stream) (b : Buffer).

Lemma str_take_prefix n t : ∃ u, t = str_take n t +:+ u.
Proof. exists (str_drop n t). by rewrite str_take_drop. Qed.

Lemma conn_call_spec data s s' ok :
  conn_call conn data s = (s', ok) →
  s'.(offset) = s.(offset) ∧
  if ok then s'.(sent) = s.(sent) +:+ data
  else (∃ u, s.(sent) +:+ data = s'.(sent) +:+ u) ∧ ∃ n k, conn n = Broken k.
Proof.
  unfold conn_call. destruct (conn _) as [|n] eqn:E; intros [= <- <-]; simpl; [done|].
  split; [done|]. split; [|eauto].
  destruct (str_take_prefix n data) as [u Hu]. exists u. by rewrite <-str_app_assoc, <-Hu.
Qed.

Lemma conn_calls_spec datas s s' ok :
  conn_calls conn datas s = (s', ok) →
  s'.(offset) = s.(offset) ∧
  if ok then s'.(sent) = s.(sent) +:+ concat_writes datas
  else (∃ u, s.(sent) +:+ concat_writes datas = s'.(sent) +:+ u) ∧ ∃ n k, conn n = Broken k.
Proof.
  revert s. induction datas as [|d datas IH]; intros s; cbn [conn_calls concat_writes foldr].
  { intros [= <- <-]. by rewrite str_app_nil_r. }
  change (foldr _ "" datas) with (concat_writes datas).
  destruct (conn_call conn d s) as [s1 [|]] eqn:E; apply conn_call_spec in E as [Ho Hs].
  - intros [Ho' Hs']%IH. rewrite Ho', Ho. split; [done|].
    rewrite Hs in Hs'. by rewrite str_app_assoc.
  - intros [= <- <-]. split; [done|]. destruct Hs as [[u Hu] Hb]. split; [|done].
    exists (u +:+ concat_writes datas). by rewrite !str_app_assoc, Hu.
Qed.

Lemma send_data_spec data s s' ok :
  send_data conn data s = (s', ok) →
  s'.(offset) = s.(offset) ∧
  if ok then s'.(sent) = s.(sent) +:+ frames (log_lines data)
  else (∃ u, s.(sent) +:+ frames (log_lines data) = s'.(sent) +:+ u) ∧ ∃ n k, conn n = Broken k.
Proof.
  intros H%conn_calls_spec.
  assert (concat_writes ("" :: map frame (log_lines data) ++ [""; ""]) = frames (log_lines data))
    as Hf; [|unfold log_lines in *; by rewrite Hf in H].
  simpl. induction (log_lines data) as [|l ls IH]; [done|]. simpl. by rewrite IH.
Qed.

(** Between two polls the whole lines of a prefix of the log have been sent. *)
Definition sent_lines b s : Prop :=
  ∃ ls rest, b.(buf) = unlines ls +:+ rest ∧ Forall no_newline ls
    ∧ s.(offset) = len (unlines ls) ∧ s.(sent) = frames ls.

Definition sent_prefix b s : Prop :=
  ∃ t, frames (log_lines b.(buf)) = s.(sent) +:+ t.

Lemma sent_lines_prefix b s : sent_lines b s → sent_prefix b s.
Proof.
  intros (ls & rest & Hb & Hls & _ & Hs). exists (frames (log_lines rest)).
  by rewrite Hb, log_lines_app, frames_app, Hs.
Qed.

Lemma sent_lines_run b s os : sent_lines b s → sent_lines (run_ops b os) s.
Proof.
  intros (ls & rest & Hb & H). destruct (run_ops_prefix b os) as [t Ht].
  exists ls, (rest +:+ t). by rewrite Ht, Hb, str_app_assoc.
Qed.

Lemma BytesFrom_app b pre rest :
  b.(buf) = pre +:+ rest → (BytesFrom b (len pre)) = (rest, len b.(buf), b.(closed)).
Proof.
  intros Hb. unfold BytesFrom. cbv zeta. rewrite Hb, len_app.
  pose proof (len_nonneg pre). pose proof (len_nonneg rest).
  rewrite (proj2 (Z.ltb_ge (len pre) 0)) by lia. rewrite (proj2 (Z.ltb_ge _ _)) by lia.
  do 2 f_equal. unfold len. rewrite Nat2Z.id. apply str_drop_app.
Qed.

(** The result of a poll. *)
Definition poll_ok b s (r : option bool) : Prop :=
  match r with
  | None => sent_prefix b s ∧ ∃ n k, conn n = Broken k
  | Some true => b.(closed) = true ∧ s.(sent) = frames (log_lines b.(buf))
  | Some false => b.(closed) = false ∧ sent_lines b s
  end.

Lemma emit_spec b s s' r :
  sent_lines b s → emit conn b s = (s', r) → poll_ok b s' r.
Proof.
  intros (ls & rest & Hb & Hls & Ho & Hs). unfold emit.
  rewrite Ho, (BytesFrom_app b (unlines ls) rest) by done.
  destruct (emit_data_spec rest b.(closed)) as (tail & Htail & Hclosed). cbv zeta.
  set (data := emit_data rest b.(closed)) in *.
  assert (Hlog : frames (log_lines b.(buf)) = s.(sent) +:+ frames (log_lines rest)).
  { by rewrite Hb, log_lines_app, frames_app, Hs. }
  destruct (0 <? len data) eqn:Hdata.
  - destruct (send_data conn data s) as [s1 [|]] eqn:E; apply send_data_spec in E as [Ho1 Hs1].
    + intros [= <- <-]. unfold poll_ok. destruct b.(closed) eqn:Hc; split; try done.
      * simpl. rewrite Hs1, Hlog, Htail, Hclosed. by rewrite str_app_nil_r.
      * exists (ls ++ log_lines data), tail. simpl. split_and!.
        -- by rewrite unlines_app, <-Hclosed, <-str_app_assoc, <-Htail.
        -- apply Forall_app. split; [done|apply log_lines_no_newline].
        -- by rewrite Ho1, Ho, unlines_app, <-Hclosed, len_app.
        -- by rewrite Hs1, frames_app, Hs.
    + intros [= <- <-]. destruct Hs1 as [[u Hu] Hbr]. split; [|done].
      destruct b.(closed).
      * exists u. by rewrite Hlog, Htail, Hclosed, str_app_nil_r, Hu.
      * exists (u +:+ frames (log_lines tail)). rewrite Hlog, Htail, Hclosed.
        rewrite log_lines_app by apply log_lines_no_newline.
        by rewrite frames_app, !str_app_assoc, Hu.
  - intros [= <- <-]. assert (data = "") as Hnil.
    { destruct data; [done|]. unfold len in Hdata. simpl in Hdata. lia. }
    unfold poll_ok. destruct b.(closed) eqn:Hc; split; try done.
    + rewrite Hlog, Htail, Hclosed, Hnil. simpl. by rewrite str_app_nil_r.
    + by exists ls, rest.
Qed.
End stream_lemmas.

Lemma serve_spec conn ticks b s b' s' e :
  sent_lines b s → serve conn b s ticks = (b', s', e) →
  (∃ k, b' = run_ops b (mjoin (take k ticks)))
  ∧ sent_prefix b' s'
  ∧ match e with
    | Complete => b'.(closed) = true ∧ s'.(sent) = frames (log_lines b'.(buf))
    | BrokenConn => ∃ n k, conn n = Broken k
    | Disconnected => b' = run_ops b (mjoin ticks) ∧ b'.(closed) = false
    end.
Proof.
  revert b s. induction ticks as [|os ticks IH]; intros b s Hs; cbn [serve];
    destruct (emit conn b s) as [s1 r] eqn:E; apply emit_spec in E; try done;
    destruct r as [[|]|]; destruct E as [E1 E2];
    try (intros [= <- <- <-]; split; [by exists 0%nat|]).
  1,4: split; [exists ""; by rewrite str_app_nil_r, E2|done].
  - split; [by apply sent_lines_prefix|done].
  - done.
  - intros H. apply (sent_lines_run _ _ os) in E2.
    destruct (IH _ _ E2 H) as ([k ->] & Hp & He). split_and!; [|done|].
    + exists (S k). simpl. unfold run_ops. by rewrite foldl_app.
    + destruct e; [done..|]. destruct He as [He ?]. split; [|done].
      rewrite He. simpl. unfold run_ops. by rewrite foldl_app.
  - done.
Qed.

Lemma closed_run b os : OpClose ∈ os → (run_ops b os).(closed) = true.
Proof.
  intros (l1 & l2 & ->)%list_elem_of_split. unfold run_ops. rewrite foldl_app. simpl.
  change (foldl run_op ?x l2) with (run_ops x l2). by rewrite run_closed.
Qed.

Lemma sent_lines_start b : sent_lines b stream0.
Proof. exists [], b.(buf). split_and!; [done|by constructor|done|done]. Qed.

(** Streaming a log, for every buffer, every sequence of writer operations between the
    polls and every behaviour of the connection: what the client has received is always a
    prefix of one event per line of the log, so that no line is repeated, reordered, lost
    or split between two events; a stream that completes has sent the whole closed log;
    it ends early only because a call on the connection failed or the client left an open
    log, and with a sound connection every log that is closed while the client listens is
    delivered. *)
Theorem JobLogs_stream conn b ticks :
  let '(b', s', e) := serve conn b stream0 ticks in
  (∃ k, b' = run_ops b (mjoin (take k ticks)))
  ∧ (∃ t, frames (log_lines b'.(buf)) = s'.(sent) +:+ t)
  ∧ match e with
    | Complete => b'.(closed) = true ∧ s'.(sent) = frames (log_lines b'.(buf))
    | BrokenConn => ∃ n k, conn n = Broken k
    | Disconnected =>
        b' = run_ops b (mjoin ticks) ∧ b'.(closed) = false ∧ OpClose ∉ mjoin ticks
    end.
Proof.
  destruct (serve conn b stream0 ticks) as [[b' s'] e] eqn:E.
  destruct (serve_spec _ _ _ _ _ _ _ (sent_lines_start b) E) as (Hk & Hp & He).
  split_and!; [done|done|]. destruct e; [done|done|]. destruct He as [-> Hc].
  split_and!; [done|done|]. intros Hin%(closed_run b). congruence.
Qed.

(** ** Lemmas on the client *)

(** The lines of a response. *)
Definition event_lines (ls : list string) : list string :=
  foldr (λ l acc, ("data: " +:+ l) :: "" :: acc) [] ls.

Lemma client_lines ls :
  foldr (λ t s, match client_line t with Some l => l +:+ s | None => s end) ""
    (event_lines ls) = unlines ls.
Proof.
  induction ls as [|l ls IH]; [done|]. cbn [event_lines foldr].
  change (foldr _ [] ls) with (event_lines ls). rewrite IH.
  assert (client_line ("data: " +:+ l) = Some (line l)) as ->.
  { unfold client_line.
    assert (strip_prefix "data:" ("data: " +:+ l) = Some (" " +:+ l)) as ->
      by (by apply strip_prefix_Some).
    cbn [fmap option_fmap option_map]. f_equal. }
  unfold line, unlines. simpl. by rewrite <-str_app_assoc.
Qed.

Lemma frames_unlines ls : frames ls = unlines (event_lines ls).
Proof.
  induction ls as [|l ls IH]; [done|]. simpl. rewrite IH. unfold frame, unlines. simpl.
  by rewrite <-!str_app_assoc.
Qed.

(** A line the client prints as it was written. *)
Definition client_good (l : string) : bool :=
  (len l + 6 <? client_scan_limit) && negb (has_suffix l (String carriage_return "")).

Lemma drop_cr_snoc s : drop_cr (s +:+ String carriage_return "") = s.
Proof. apply trim_suffix_app. Qed.

Lemma drop_cr_data l : drop_cr ("data: " +:+ l) = "data: " +:+ drop_cr l.
Proof.
  destruct (has_suffix l (String carriage_return "")) eqn:E.
  - apply has_suffix_true in E as [t ->]. rewrite str_app_assoc. by rewrite !drop_cr_snoc.
  - rewrite (drop_cr_id l) by done. apply drop_cr_id. apply not_true_is_false.
    intros [t Ht]%has_suffix_true. destruct l as [|c l].
    + apply (f_equal (λ s, has_suffix s (String carriage_return ""))) in Ht.
      rewrite (proj2 (has_suffix_true (t +:+ _) _)) in Ht by eauto. done.
    + apply app_suffix_cases in Ht as [H|[[|d u] Hu]%has_suffix_true]; [congruence| |].
      * simpl in Hu. rewrite <-Hu in E. done.
      * simplify_eq/=. by destruct u.
Qed.

Lemma StreamLogs_frames ls :
  Forall no_newline ls → Forall (λ l, len l + 6 < client_scan_limit) ls →
  StreamLogs (frames ls) = (unlines (map drop_cr ls), false).
Proof.
  intros Hn Hl. unfold StreamLogs, scan_lines_upto.
  rewrite frames_unlines, split_unlines, raw_lines_app.
  2:{ clear Hl. induction Hn as [|l ls Hl Hn IH]; simpl; constructor; [|by constructor].
      simpl. done. }
  assert (scan_tokens client_scan_limit (event_lines ls) = (event_lines (map drop_cr ls), false))
    as ->; [|by rewrite client_lines].
  induction Hl as [|l ls Hl Hls IH]; [done|]. apply Forall_cons in Hn as [_ Hn].
  cbn [event_lines foldr scan_tokens map].
  change (foldr _ [] ls) with (event_lines ls).
  change (foldr _ [] (map drop_cr ls)) with (event_lines (map drop_cr ls)).
  rewrite (proj2 (Z.ltb_lt _ _)).
  2:{ change (len ("data: " +:+ l) < client_scan_limit). rewrite len_app.
      change (len "data: ") with 6. lia. }
  rewrite (proj2 (Z.ltb_lt _ _)) by done. rewrite IH by done. by rewrite drop_cr_data.
Qed.

Lemma map_drop_cr_id ls :
  Forall (λ l, has_suffix l (String carriage_return "") = false) ls → map drop_cr ls = ls.
Proof. induction 1 as [|l ls Hl Hls IH]; [done|]. simpl. by rewrite IH, drop_cr_id. Qed.

Lemma unlines_log_lines text : text = "" ∨ has_suffix text (String newline "") = true →
  unlines (log_lines text) = text.
Proof.
  intros [->|[t ->]%has_suffix_true]; [done|].
  change (t +:+ String newline "") with (line t). by rewrite log_lines_line, unlines_split.
Qed.

(** C24. A log arrives at the client as it was written: when a stream completes, and the
    lines of the log fit the client's 1 MiB scan buffer and none ends in a carriage return,
    the client prints exactly the lines of the closed log, hence the log itself when it
    ends with a newline. *)
Theorem log_delivered conn b ticks b' s' :
  serve conn b stream0 ticks = (b', s', Complete) →
  Forall (λ l, client_good l = true) (log_lines b'.(buf)) →
  StreamLogs s'.(sent) = (unlines (log_lines b'.(buf)), false)
  ∧ (b'.(buf) = "" ∨ has_suffix b'.(buf) (String newline "") = true →
     StreamLogs s'.(sent) = (b'.(buf), false)).
Proof.
  intros E Hg. destruct (serve_spec _ _ _ _ _ _ _ (sent_lines_start b) E) as (_ & _ & _ & ->).
  assert (StreamLogs (frames (log_lines (buf b'))) = (unlines (log_lines (buf b')), false)) as ->.
  { rewrite StreamLogs_frames; [|apply log_lines_no_newline|].
    - rewrite map_drop_cr_id; [done|]. eapply Forall_impl; [exact Hg|]. intros l.
      unfold client_good. rewrite andb_true_iff, negb_true_iff. tauto.
    - eapply Forall_impl; [exact Hg|]. intros l. unfold client_good.
      rewrite andb_true_iff, Z.ltb_lt. tauto. }
  split; [done|]. intros H. by rewrite unlines_log_lines.
Qed.

(** A build that writes two lines in three writes, finished between two polls. *)
Definition log_example : Buffer :=
  run_ops (New 4096) [OpWrite "==> Making"; OpWrite (" package" +:+ String newline "che")].

Definition log_ticks : list (list log_op) :=
  [[]; [OpWrite ("ck()" +:+ String newline ""); OpClose]].

Lemma log_delivered_witness :
  ∃ b' s', serve (λ _, Served) log_example stream0 log_ticks = (b', s', Complete)
    ∧ StreamLogs s'.(sent)
      = ("==> Making package" +:+ String newline "check()" +:+ String newline "", false).
Proof.
  eexists _, _. split; [vm_compute; reflexivity|].
  refine (eq_trans (proj1 (log_delivered (λ _, Served) log_example log_ticks _ _ _ _)) _).
  - vm_compute. reflexivity.
  - apply forallb_Forall. vm_compute. reflexivity.
  - vm_compute. reflexivity.
Defined.

(** A carriage return at the end of a line is lost on the way. *)
Example carriage_return_lost :
  StreamLogs (frames (log_lines ("50%" +:+ String carriage_return (String newline ""))))
  = ("50%" +:+ String newline "", false).
Proof. vm_compute. reflexivity. Qed.
