(* ===== verification/JobRequest.v ===== *)
(** * Build requests (miko/domain/job.go, the validation of miko/service/jobs.go)

    The data of a build job and the checks every request passes before it is queued: the
    architecture, the repository name, the feature level, and that every local package to
    install lies in the staging directory. *)

From S2P Require Import Prelude GoStrings Paths Repo.

(** ** Data *)

Inductive JobStatus := Queued | Running | Success | Failed | Cancelled.
#[export] Instance JobStatus_eq_dec : EqDecision JobStatus.
Proof. solve_decision. Defined.

Inductive BuildReason :=
  ReasonManual | ReasonDependency | ReasonVersionUpdate | ReasonSonameRebuild | ReasonRetry.

Record GitSource := mkGit { git_URL : string; git_Ref : string; git_Subdir : string }.

Definition SignHost : string := "host".
Definition SignClient : string := "client".

Record BuildRequest := mkRequest {
  rq_Repo : string;
  rq_Arch : string;
  rq_Microarch : string;
  rq_Git : option GitSource;
  rq_Pkgbuild : string;
  rq_Files : gmap string string;
  rq_InstallPkgs : list string;
  rq_SignMode : string;
  rq_Timeout : Z;
  rq_IgnoreArch : bool;
  rq_RunCheck : option bool;
  rq_RunVerify : option bool;
  rq_SkipChecksums : bool;
  rq_SkipPGPCheck : bool;
  rq_Requester : string;
}.

Record BuildJob := mkJob {
  ID : string;
  j_Repo : string;
  j_Arch : string;
  Status : JobStatus;
  Logs : string;
  j_Err : string;
  Packages : list string;
  Retries : Z;
  Reason : BuildReason;
  Owner : string;
  Request : option BuildRequest;
  ArtifactDir : string;
  CreatedAt : Z;
  StartedAt : option Z;
  EndedAt : option Z;
}.
#[export] Instance eta_BuildJob : Eta BuildJob := λ j,
  mkJob j.(ID) j.(j_Repo) j.(j_Arch) j.(Status) j.(Logs) j.(j_Err) j.(Packages) j.(Retries)
    j.(Reason) j.(Owner) j.(Request) j.(ArtifactDir) j.(CreatedAt) j.(StartedAt) j.(EndedAt).

(** ** [filepath.Abs] and [filepath.Rel] on Unix *)

Definition filepath_Abs (cwd : option string) (p : string) : option string :=
  if is_abs p then Some (clean p) else (λ wd, path_join [wd; p]) <$> cwd.

Definition rel_comps (p : string) : list string :=
  filter (λ c, c ≠ "") (split_char "/" p).

Fixpoint strip_common (bs ts : list string) : list string * list string :=
  match bs, ts with
  | b :: bs', t :: ts' => if decide (b = t) then strip_common bs' ts' else (bs, ts)
  | _, _ => (bs, ts)
  end.

Definition filepath_Rel (base targ : string) : option string :=
  let base := clean base in
  let targ := clean targ in
  if decide (base = targ) then Some "." else
  let base := if decide (base = ".") then "" else base in
  if negb (bool_decide (is_abs base = is_abs targ)) then None else
  let '(bs, ts) := strip_common (rel_comps base) (rel_comps targ) in
  match bs with
  | [] => Some (join "/" ts)
  | b :: _ => if decide (b = "..") then None
              else Some (join "/" (replicate (length bs) ".." ++ ts))
  end.

(** ** The checks *)

Inductive submit_error :=
| ErrNilRequest
| ErrUnsupportedArch (arch : string)
| ErrRepoName (name : string)
| ErrMicroarchArch (tier : string)
| ErrMicroarchTier (tier : string)
| ErrNoStaging
| ErrInstallPath (path : string)
| ErrEscapesStaging (path : string)
| ErrQueueFull.

Definition allowedArches : list string :=
  ["x86_64"; "aarch64"; "armv7h"; "i486"; "i686"; "pentium4"].

Definition microarchLevels : list (string * string) :=
  [("x86_64_v2", "x86-64-v2"); ("x86_64_v3", "x86-64-v3"); ("x86_64_v4", "x86-64-v4")].

Definition ValidMicroarch (tier : string) : bool :=
  bool_decide (tier = "" ∨ tier ∈ microarchLevels.*1).

Section validation.
(** [Settings.DataDir] and the working directory, [None] when [os.Getwd] fails. *)
Context (DataDir : string) (cwd : option string).

Definition validateInstallPkg (base p : string) : result submit_error unit :=
  match filepath_Abs cwd p with
  | None => Err (ErrInstallPath p)
  | Some abs =>
      match filepath_Rel base abs with
      | None => Err (ErrEscapesStaging p)
      | Some rel =>
          if decide (rel = ".." ∨ has_prefix rel "../" = true) then Err (ErrEscapesStaging p)
          else Ok tt
      end
  end.

Definition validateInstallPkgs (pkgs : list string) : result submit_error unit :=
  match pkgs with
  | [] => Ok tt
  | _ => if decide (DataDir = "") then Err ErrNoStaging
         else foldM (λ _ p, validateInstallPkg (path_join [DataDir; "staging"]) p) tt pkgs
  end.

(** The guards of [submitWithReason] on a non-nil request. *)
Definition validateRequest (req : BuildRequest) : result submit_error unit :=
  if decide (req.(rq_Arch) ∉ allowedArches) then Err (ErrUnsupportedArch req.(rq_Arch))
  else if negb (bool_decide (req.(rq_Repo) = "")) && negb (is_ok (ValidateName req.(rq_Repo)))
  then Err (ErrRepoName req.(rq_Repo))
  else if negb (bool_decide (req.(rq_Microarch) = ""))
          && negb (bool_decide (req.(rq_Arch) = "x86_64"))
  then Err (ErrMicroarchArch req.(rq_Microarch))
  else if negb (bool_decide (req.(rq_Microarch) = "")) && negb (ValidMicroarch req.(rq_Microarch))
  then Err (ErrMicroarchTier req.(rq_Microarch))
  else validateInstallPkgs req.(rq_InstallPkgs).
End validation.

(** ** Components of paths *)

Lemma rel_comps_abs_path cs : Forall (λ c, plain c = true) cs → rel_comps (abs_path cs) = cs.
Proof.
  intros Hcs. unfold rel_comps. rewrite split_abs_path by done. rewrite filter_cons_False by tauto.
  case_decide as Hn; [by subst|]. apply filter_id. intros c Hc. rewrite Forall_forall in Hcs.
  by apply plain_occurs, Hcs.
Qed.

(** ** Paths inside a directory *)

Lemma strip_common_spec bs ts :
  let '(bs', ts') := strip_common bs ts in
  ∃ pre, bs = pre ++ bs' ∧ ts = pre ++ ts' ∧ (∀ rest, ts = bs ++ rest → bs' = []).
Proof.
  revert ts. induction bs as [|b bs IH]; intros ts; simpl.
  { exists []. split_and!; [done|done|]. by intros. }
  destruct ts as [|t ts]; [by exists []|]. case_decide as Hbt; [subst|].
  - specialize (IH ts). destruct (strip_common bs ts) as [bs' ts'].
    destruct IH as (pre & -> & -> & H). exists (t :: pre). split_and!; [done|done|].
    intros rest [= Hr]. by eapply H.
  - exists []. split_and!; [done|done|]. by intros rest [= ->].
Qed.

Lemma join_plain_up c l :
  plain c = true → let rel := join "/" (c :: l) in rel ≠ ".." ∧ has_prefix rel "../" = false.
Proof.
  intros Hc. pose proof (plain_occurs c Hc) as (Ho & _ & _).
  assert (c ≠ "..") as Hne by (intros ->; done). simpl.
  assert (∀ t, cut "/" (".." +:+ String "/" t) = Some ("..", t)) as Hcut.
  { intros t. by apply cut_char_app. }
  destruct l as [|d l].
  - split; [done|]. apply not_true_is_false. intros [t ->]%has_prefix_true.
    apply (cut_char_None "/") in Ho. change ("../" +:+ t) with (".." +:+ String "/" t) in Ho.
    by rewrite Hcut in Ho.
  - assert (cut "/" (c +:+ String "/" (join "/" (d :: l))) = Some (c, join "/" (d :: l))) as E
      by (by apply cut_char_app).
    split.
    + intros H. change (c +:+ String "/" (join "/" (d :: l)) = "..") in H. by rewrite H in E.
    + apply not_true_is_false. intros [t Ht]%has_prefix_true.
      change (c +:+ String "/" (join "/" (d :: l)) = ".." +:+ String "/" t) in Ht.
      rewrite Ht, Hcut in E. congruence.
Qed.

Lemma filepath_Rel_inside bs ts :
  Forall (λ c, plain c = true) bs → Forall (λ c, plain c = true) ts →
  ∃ rel, filepath_Rel (abs_path bs) (abs_path ts) = Some rel
    ∧ (rel = ".." ∨ has_prefix rel "../" = true ↔ ¬ bs `prefix_of` ts).
Proof.
  intros Hb Ht. unfold filepath_Rel. cbv zeta. rewrite !clean_abs_path by done.
  case_decide as Heq.
  { apply abs_path_inj in Heq as ->; [|done..]. exists ".". split; [done|]. split.
    - by intros [?|?].
    - by intros []. }
  rewrite (decide_False (P := abs_path bs = ".")) by done. rewrite !is_abs_abs_path.
  cbn [bool_decide negb]. rewrite bool_decide_eq_true_2 by done. cbn [negb].
  rewrite !rel_comps_abs_path by done. pose proof (strip_common_spec bs ts) as H.
  destruct (strip_common bs ts) as [bs' ts']. destruct H as (pre & -> & -> & H).
  apply Forall_app in Hb as [_ Hb]. apply Forall_app in Ht as [_ Ht].
  destruct bs' as [|b bs'].
  - eexists. split; [done|]. rewrite app_nil_r in *. destruct ts' as [|t ts'].
    { by rewrite app_nil_r in Heq. }
    apply Forall_cons in Ht as [Ht _]. destruct (join_plain_up t ts' Ht) as [H1 H2]. split.
    + intros [?|?]; congruence.
    + intros []. by eexists.
  - apply Forall_cons in Hb as [Hb _]. rewrite decide_False by (by intros ->).
    eexists. split; [done|]. split.
    + intros _ [rest Hr]. by apply H in Hr.
    + intros _. cbn [replicate length app]. destruct (replicate (length bs') ".." ++ ts') eqn:E;
        [by left|right]. apply has_prefix_true. by eexists.
Qed.

(** ** The checks, characterised *)
Section validation_spec.
Context (DataDir : string) (cwd : option string).

(** A path lies in the staging directory: its cleaned absolute form extends the
    components of that directory by plain names. *)
Definition staged (p : string) : Prop :=
  ∃ bs rest, path_join [DataDir; "staging"] = abs_path bs
    ∧ filepath_Abs cwd p = Some (abs_path (bs ++ rest))
    ∧ Forall (λ c, plain c = true) (bs ++ rest).

Context (Hcwd : ∀ wd, cwd = Some wd → is_abs wd = true).

Lemma filepath_Abs_spec p abs :
  filepath_Abs cwd p = Some abs →
  ∃ ts, abs = abs_path ts ∧ Forall (λ c, plain c = true) ts.
Proof.
  unfold filepath_Abs. destruct (is_abs p) eqn:E.
  - intros [= <-]. by apply clean_abs.
  - intros (wd & Hwd & ->)%fmap_Some. apply Hcwd in Hwd.
    apply has_prefix_true in Hwd as [t ->]. unfold path_join.
    rewrite decide_False by done. apply clean_abs. cbn [join]. destruct (decide (p = "")); 
      apply has_prefix_true; by eexists.
Qed.

Lemma validateInstallPkg_spec p :
  DataDir ≠ "" →
  validateInstallPkg cwd (path_join [DataDir; "staging"]) p = Ok tt ↔ staged p.
Proof.
  intros HD. unfold validateInstallPkg, staged.
  destruct (filepath_Abs cwd p) as [abs|] eqn:Ha; [|naive_solver].
  destruct (filepath_Abs_spec p abs Ha) as (ts & -> & Hts).
  destruct (is_abs (path_join [DataDir; "staging"])) eqn:Hb.
  - assert (∃ bs, path_join [DataDir; "staging"] = abs_path bs ∧ Forall (λ c, plain c = true) bs)
      as (bs & -> & Hbs).
    { revert Hb. unfold path_join. rewrite decide_False, is_abs_clean by done. apply clean_abs. }
    destruct (filepath_Rel_inside bs ts Hbs Hts) as (rel & -> & Hrel).
    case_decide as Hup; [apply Hrel in Hup|rewrite Hrel in Hup].
    + split; [done|]. intros (bs' & rest & Hbs' & Hr & Hp). destruct Hup. exists rest.
      apply (inj Some) in Hr.
      apply Forall_app in Hp as Hp'. apply abs_path_inj in Hbs' as ->; [|done|tauto].
      apply (abs_path_inj ts) in Hr; done.
    + split; [|done]. intros _. destruct (decide (bs `prefix_of` ts)) as [[rest ->]|]; [|done].
      by exists bs, rest.
  - split; [|intros (bs & rest & Hbs & _); by rewrite Hbs, is_abs_abs_path in Hb].
    unfold filepath_Rel. cbv zeta. set (base := path_join _) in *.
    assert (is_abs (clean base) = false) as Hc by (by rewrite is_abs_clean).
    assert (is_abs (clean (abs_path ts)) = true) as Ht by (by rewrite is_abs_clean, is_abs_abs_path).
    rewrite (decide_False (P := clean base = _)) by congruence.
    assert (is_abs (if decide (clean base = ".") then "" else clean base) = false) as ->
      by (by case_decide).
    rewrite Ht. done.
Qed.

Lemma validateInstallPkgs_spec pkgs :
  validateInstallPkgs DataDir cwd pkgs = Ok tt
  ↔ pkgs = [] ∨ DataDir ≠ "" ∧ Forall staged pkgs.
Proof.
  unfold validateInstallPkgs. destruct pkgs as [|q pkgs]; [naive_solver|].
  destruct (decide (DataDir = "")) as [|HD]; [naive_solver|].
  rewrite foldM_check. split.
  - intros H. right. split; [done|]. eapply Forall_impl; [exact H|]. intros p.
    by apply validateInstallPkg_spec.
  - intros [?|[_ H]]; [done|]. eapply Forall_impl; [exact H|]. intros p.
    by apply validateInstallPkg_spec.
Qed.

(** A build request is accepted exactly when its architecture is one of the six
    supported ones, its repository name is empty or a valid name, its feature level is
    empty or a known one with the x86_64 architecture, and, when it names packages to
    install, a data directory is configured and every one of them, made absolute and
    cleaned, lies inside its staging directory: no relative or doubly dotted path reaches
    outside it. *)
Theorem validateRequest_spec req :
  validateRequest DataDir cwd req = Ok tt ↔
  rq_Arch req ∈ allowedArches
  ∧ (rq_Repo req = "" ∨ ValidateName (rq_Repo req) = Ok tt)
  ∧ (rq_Microarch req = "" ∨ rq_Arch req = "x86_64" ∧ rq_Microarch req ∈ microarchLevels.*1)
  ∧ (rq_InstallPkgs req = [] ∨ DataDir ≠ "" ∧ Forall staged (rq_InstallPkgs req)).
Proof.
  rewrite <-validateInstallPkgs_spec. unfold validateRequest, ValidMicroarch.
  destruct (decide (rq_Arch req ∉ allowedArches)) as [Ha|Ha%dec_stable]; [naive_solver|].
  destruct (decide (rq_Repo req = "")) as [Hr|Hr];
    [rewrite (bool_decide_eq_true_2 _ Hr)|rewrite (bool_decide_eq_false_2 _ Hr)]; cbn [negb andb].
  2: destruct (ValidateName (rq_Repo req)) as [[]|] eqn:Hn; cbn [is_ok negb];
       [|split; [done|intros (_ & [?|?] & _); done]].
  all: destruct (decide (rq_Microarch req = "")) as [Hm|Hm];
    [rewrite (bool_decide_eq_true_2 (rq_Microarch req = "") Hm)
    |rewrite (bool_decide_eq_false_2 (rq_Microarch req = "") Hm)]; cbn [negb andb].
  1,3: tauto.
  all: destruct (decide (rq_Arch req = "x86_64")) as [Hx|Hx];
    [rewrite (bool_decide_eq_true_2 _ Hx)|rewrite (bool_decide_eq_false_2 _ Hx)]; cbn [negb].
  2,4: split; [done|tauto].
  all: case_bool_decide as Hl; cbn [negb]; [tauto|]; split; [done|tauto].
Qed.
End validation_spec.

(** A request for a package in the staging directory. *)
Definition request_example : BuildRequest :=
  mkRequest "myrepo" "x86_64" "x86_64_v3" (Some (mkGit "https://aur.archlinux.org/foo.git" "" ""))
    "" ∅ ["/data/staging/../staging/dep.pkg.tar.zst"] SignHost 0 false None None false false "ci".

Lemma validateRequest_spec_witness :
  (∀ wd, Some "/srv" = Some wd → is_abs wd = true)
  ∧ Forall (staged "/data" (Some "/srv")) (rq_InstallPkgs request_example).
Proof.
  assert (∀ wd, Some "/srv" = Some wd → is_abs wd = true) as Hwd by (by intros wd [= <-]).
  split; [done|].
  assert (validateRequest "/data" (Some "/srv") request_example = Ok tt) as H
    by (vm_compute; reflexivity).
  apply (validateRequest_spec "/data" (Some "/srv") Hwd request_example) in H
    as (_ & _ & _ & [H|[_ H]]); [discriminate H|exact H].
Defined.

Example escaping_path :
  validateInstallPkgs "/data" (Some "/srv") ["/data/staging/../keys/signing.key"]
  = Err (ErrEscapesStaging "/data/staging/../keys/signing.key").
Proof. vm_compute. reflexivity. Qed.
