(* ===== verification/Jobs.v ===== *)
(** * The build service (miko/service: jobs.go, jobstore.go, queue.go, worker.go, and the
      store and log handling of service.go)

    The service is shared by HTTP handlers, the workers and the sweeper.  Every critical
    section of the code (a stretch under [mu] or [logsMu], a channel operation, a disk
    write, a call whose result the environment decides) is one move of a [thread]; what a
    goroutine does next is its continuation.  [run] is the function that makes a move, and
    [step] interleaves the moves of all threads in any order. *)

From stdpp Require Import pretty.
From S2P Require Import Prelude GoStrings Joblog JobRequest.
Local Open Scope Z_scope.

(** ** State *)

Record Service := mkService {
  store : gmap string BuildJob;
  (** the job IDs with a registered cancel function *)
  running : gset string;
  (** the jobs whose build context was cancelled *)
  cancelled : gset string;
  queue : list (string * BuildRequest);
  logs : gmap string Buffer;
  (** what the [Persister] holds *)
  disk : gmap string BuildJob;
  (** the artifact directories passed to [os.RemoveAll] *)
  removed : list string;
  (** the context of [Run] was cancelled *)
  shutdown : bool;
}.
#[export] Instance eta_Service : Eta Service := λ s,
  mkService s.(store) s.(running) s.(cancelled) s.(queue) s.(logs) s.(disk) s.(removed) s.(shutdown).

(** An error of a build or an upload: its text, and whether it is [context.Canceled] or
    [builder.ErrBuildFailed] under [errors.Is]. *)
Record build_error := mkErr { msg : string; is_canceled : bool; is_build_failed : bool }.

Inductive reply :=
| Submitted (id : string)
| SubmitFailed (e : submit_error)
| CancelAccepted
| JobNotFound
| ErrJobNotCancelable
| Swept
| Exited.

(** What a goroutine still has to do. *)
Inductive thread :=
| TReply (r : reply)
| TSave (snap : BuildJob) (k : thread)
| TRemove (ids : list string) (k : thread)
| TPush (id : string) (req : BuildRequest)
| TFail (id : string)
| TLog (id : string) (k : thread)
| TLogText (id text : string) (k : thread)
| TSignal (id : string)
| TIdle
| TCheck (id : string) (req : BuildRequest)
| TStart (id : string) (req : BuildRequest)
| TBuild (id : string) (req : BuildRequest) (attempt : Z)
| TPublish (id : string) (res : list string) (outDir : string)
| TComplete (id : string) (cancelled : bool) (err : option build_error)
    (res : option (list string)) (keep : bool) (outDir : string)
| TSweep (k : thread)
| TRmdir (dir : string) (k : thread)
| TUnregister (id : string).

(** What the environment decides in a move. *)
Inductive event :=
| EvGo
| EvExit
| EvLogWrite (p : string)
| EvRetry (err : build_error)
| EvBuilt (err : option build_error) (res : option (list string)) (outDir : string)
| EvUploaded (err : option build_error).

(** ** The job store *)

(** [update]: change a stored job and persist a snapshot. *)
Definition update (id : string) (f : BuildJob → BuildJob) (k : thread) (s : Service) :
    Service * thread :=
  match s.(store) !! id with
  | Some j => (s <| store ::= <[id := f j]> |>, TSave (f j) k)
  | None => (s, k)
  end.

Definition setStatus (id : string) (status : JobStatus) (err : option string) :
    thread → Service → Service * thread :=
  update id (λ j,
    let j := j <| Status := status |> in
    match err with Some e => j <| j_Err := e |> | None => j end).

Definition terminal (st : JobStatus) : bool :=
  match st with Success | Failed | Cancelled => true | Queued | Running => false end.

Definition maxStoredJobs : Z := 500.

Definition created_le (a b : BuildJob) : Prop := a.(CreatedAt) ≤ b.(CreatedAt).
#[export] Instance created_le_dec : RelDecision created_le.
Proof. intros a b. unfold created_le. apply _. Defined.
#[export] Instance created_le_total : Total created_le.
Proof. intros a b. unfold created_le. lia. Qed.
#[export] Instance created_le_trans : Transitive created_le.
Proof. intros a b c. unfold created_le. lia. Qed.

Definition stored (st : gmap string BuildJob) : Z := Z.of_nat (size st).

(** The loop over the sorted terminal jobs: the store, the IDs evicted and the artifact
    directories removed. *)
Fixpoint evict_loop (l : list BuildJob) (st : gmap string BuildJob) :
    gmap string BuildJob * list string * list string :=
  match l with
  | [] => (st, [], [])
  | j :: l =>
      if stored st <=? maxStoredJobs then (st, [], []) else
      let '(st', ids, dirs) := evict_loop l (delete j.(ID) st) in
      (st', j.(ID) :: ids, if decide (j.(ArtifactDir) = "") then dirs else j.(ArtifactDir) :: dirs)
  end.

(** What survives the JSON file of a job: the request and the artifact directory are not
    serialized. *)
Definition durable (j : BuildJob) : BuildJob :=
  j <| Request := None |> <| ArtifactDir := "" |>.

Definition defaultQueueSize : Z := 128.

Section service.
Context {R : RangeOrder}.
(** The settings of the service: the staging root and working directory of the validation,
    the log limit, the retry count shown in the log, the retention of artifacts, and
    whether a [Persister] is configured. *)
Context (DataDir : string) (cwd : option string).
Context (MaxLogBytes MaxRetries artifactRetention : Z) (persistent : bool).

Definition evict_candidates (st : gmap string BuildJob) : list BuildJob :=
  merge_sort created_le (filter (λ j, terminal j.(Status)) (range_map st).*2).

Definition evictLocked (st : gmap string BuildJob) :
    gmap string BuildJob * list string * list string :=
  if stored st <=? maxStoredJobs then (st, [], []) else evict_loop (evict_candidates st) st.

(** The submission of a valid request: the new buffer, then the section that stores the job
    and evicts old ones; the snapshot is saved, the evicted jobs are removed from disk, and
    the job is pushed. *)
Definition new_job (now : Z) (id : string) (req : BuildRequest) (reason : BuildReason) : BuildJob :=
  mkJob id req.(rq_Repo) req.(rq_Arch) Queued "" "" [] 0 reason req.(rq_Requester) (Some req)
    "" now None None.

Definition submitWithReason (now : Z) (id : string) (req : option BuildRequest)
    (reason : BuildReason) (s : Service) : Service * thread :=
  match req with
  | None => (s, TReply (SubmitFailed ErrNilRequest))
  | Some req =>
      match validateRequest DataDir cwd req with
      | Err e => (s, TReply (SubmitFailed e))
      | Ok _ =>
          let job := new_job now id req reason in
          let s := s <| logs ::= <[id := New MaxLogBytes]> |> in
          let '(st, evicted, dirs) := evictLocked (<[id := job]> s.(store)) in
          (s <| store := st |> <| removed ::= λ l, l ++ dirs |>,
           TSave job (TRemove evicted (TPush id req)))
      end
  end.

Definition Cancel (now : Z) (id : string) (s : Service) : Service * thread :=
  match s.(store) !! id with
  | None => (s, TReply JobNotFound)
  | Some job =>
      match job.(Status) with
      | Success | Failed | Cancelled => (s, TReply ErrJobNotCancelable)
      | Queued =>
          let job := job <| Status := Cancelled |> <| EndedAt := Some now |> in
          (s <| store ::= <[id := job]> |>, TSave job (TReply CancelAccepted))
      | Running =>
          (s, if decide (id ∈ s.(running)) then TSignal id else TReply CancelAccepted)
      end
  end.

(** [sweepArtifacts]: forget the artifact directories of jobs that ended longer ago than
    the retention, remove them, and save the jobs. *)
Definition expired (now : Z) (j : BuildJob) : bool :=
  negb (bool_decide (j.(ArtifactDir) = ""))
  && match j.(EndedAt) with Some e => artifactRetention <? now - e | None => false end.

Definition sweepArtifacts (now : Z) (k : thread) (s : Service) : Service * thread :=
  let swept := filter (λ kv, expired now kv.2) (range_map s.(store)) in
  (s <| store ::= λ st, foldl (λ st kv, <[kv.1 := kv.2 <| ArtifactDir := "" |>]> st) st swept |>
     <| removed ::= λ l, l ++ map (λ kv, kv.2.(ArtifactDir)) swept |>,
   foldr (λ kv k, TSave (kv.2 <| ArtifactDir := "" |>) k) k swept).

(** [isCancelled] on the context of a job. *)
Definition isCancelled (s : Service) (id : string) (err : option build_error) : bool :=
  match err with Some e => e.(is_canceled) | None => false end
  || bool_decide (id ∈ s.(cancelled)) || s.(shutdown).

(** The terminal update of [process]. *)
Definition complete_job (now : Z) (cancelled : bool) (err : option build_error)
    (res : option (list string)) (keep : bool) (outDir : string) (j : BuildJob) : BuildJob :=
  let j := j <| EndedAt := Some now |> in
  if cancelled then
    let j := j <| Status := Cancelled |> in
    match err with Some e => j <| j_Err := e.(msg) |> | None => j end
  else match err with
       | Some e => j <| Status := Failed |> <| j_Err := e.(msg) |>
       | None =>
           let j := j <| Status := Success |> in
           let j := match res with Some ps => j <| Packages := ps |> | None => j end in
           if keep then j <| ArtifactDir := outDir |> else j
       end.

(** What [process] does after the terminal update, with its deferred calls. *)
Definition process_exit (id : string) (keep : bool) (outDir : string) : thread :=
  TSweep (TLog id (if negb (bool_decide (outDir = "")) && negb keep
                   then TRmdir outDir (TUnregister id) else TUnregister id)).

Definition retry_line (attempt : Z) (err : build_error) : string :=
  line ("retry " +:+ format_int attempt +:+ "/" +:+ format_int MaxRetries
        +:+ " after retriable error: " +:+ err.(msg)).

(** A write to the live log of a job. *)
Definition log_write (id p : string) (s : Service) : Service :=
  s <| logs ::= alter (λ b, (Write b p).1) id |>.

(** One move of a thread at time [now]; [ok] tells whether a disk write succeeds.  [None]
    means that the thread cannot make this move. *)
Definition run (now : Z) (ok : bool) (ev : event) (s : Service) (t : thread) :
    option (Service * thread) :=
  match t, ev with
  | TSave j k, EvGo =>
      Some (if persistent && ok then s <| disk ::= <[j.(ID) := durable j]> |> else s, k)
  | TRemove [] k, EvGo => Some (s, k)
  | TRemove (id :: ids) k, EvGo =>
      Some (if persistent && ok then s <| disk ::= delete id |> else s, TRemove ids k)
  | TPush id req, EvGo =>
      Some (if Z.of_nat (length s.(queue)) <? defaultQueueSize
            then (s <| queue ::= λ q, q ++ [(id, req)] |>, TReply (Submitted id))
            else (s, TLog id (TFail id)))
  | TFail id, EvGo =>
      Some (setStatus id Failed (Some "build queue is full")
              (TReply (SubmitFailed ErrQueueFull)) s)
  | TLog id k, EvGo =>
      Some match s.(logs) !! id with
           | None => (s, k)
           | Some b => (s <| logs ::= delete id |>, TLogText id (Close b).(buf) k)
           end
  | TLogText id text k, EvGo => Some (update id (λ j, j <| Logs := text |>) k s)
  | TSignal id, EvGo => Some (s <| cancelled ::= λ c, {[id]} ∪ c |>, TReply CancelAccepted)
  | TIdle, EvGo =>
      match s.(queue) with
      | (id, req) :: q => Some (s <| queue := q |>, TCheck id req)
      | [] => None
      end
  | TIdle, EvExit => if s.(shutdown) then Some (s, TReply Exited) else None
  | TCheck id req, EvGo =>
      Some match s.(store) !! id with
           | None => (s, TLog id TIdle)
           | Some cur => if decide (cur.(Status) = Cancelled) then (s, TLog id TIdle)
                         else (s <| running ::= λ r, {[id]} ∪ r |>, TStart id req)
           end
  | TStart id req, EvGo =>
      Some (update id (λ j, j <| Status := Running |> <| StartedAt := Some now |>)
              (TBuild id req 0) s)
  | TBuild id req n, EvLogWrite p => Some (log_write id p s, t)
  | TBuild id req n, EvRetry err =>
      Some (update id (λ j, j <| Retries := n + 1 |> <| Reason := ReasonRetry |>)
              (TBuild id req (n + 1)) (log_write id (retry_line (n + 1) err) s))
  | TBuild id req n, EvBuilt err res outDir =>
      let keep := match err, res with None, Some _ => bool_decide (req.(rq_SignMode) = SignClient)
                  | _, _ => false end in
      Some (s, match err, res with
               | None, Some ps => if keep then TComplete id (isCancelled s id err) err res keep outDir
                                  else TPublish id ps outDir
               | _, _ => TComplete id (isCancelled s id err) err res keep outDir
               end)
  | TPublish id ps outDir, EvUploaded err =>
      Some (s, TComplete id (isCancelled s id err) err (Some ps) false outDir)
  | TComplete id cancelled err res keep outDir, EvGo =>
      Some (update id (complete_job now cancelled err res keep outDir)
              (process_exit id keep outDir) s)
  | TSweep k, EvGo => Some (sweepArtifacts now k s)
  | TRmdir dir k, EvGo => Some (s <| removed ::= λ l, l ++ [dir] |>, k)
  | TUnregister id, EvGo => Some (s <| running ::= λ r, r ∖ {[id]} |>, TIdle)
  | _, _ => None
  end.

(** ** Start and restart *)

(** [restore]: the jobs a crash left unfinished become failed. *)
Definition restore_job (j : BuildJob) : BuildJob :=
  match j.(Status) with
  | Queued | Running =>
      let j := j <| Status := Failed |> in
      if decide (j.(j_Err) = "") then j <| j_Err := "interrupted by server restart" |> else j
  | _ => j
  end.

Definition restore_step (s : Service) (j : BuildJob) (ok : bool) : Service :=
  let j' := restore_job j in
  s <| store ::= <[j.(ID) := j']> |>
    <| disk ::= λ d, if terminal j.(Status) then d
                     else if ok then <[j.(ID) := durable j']> d else d |>.

(** [New] with the jobs that [loadAll] returned and the outcomes of the saves. *)
Definition restore (disk : gmap string BuildJob) (jobs : list BuildJob) (ok : string → bool) : Service :=
  foldl (λ s j, restore_step s j (ok j.(ID)))
    (mkService ∅ ∅ ∅ [] ∅ disk [] false) jobs.

(** ** The system *)

(** The service, its goroutines, and the job IDs handed out so far. *)
Record sys := mkSys { svc : Service; threads : list thread; issued : gset string }.

Inductive step : sys → sys → Prop :=
| step_thread now ok ev s ths iss i t s' t' :
    ths !! i = Some t → run now ok ev s t = Some (s', t') →
    step (mkSys s ths iss) (mkSys s' (<[i := t']> ths) iss)
| step_submit now id req reason s ths iss s' t' :
    id ∉ iss → submitWithReason now id req reason s = (s', t') →
    step (mkSys s ths iss) (mkSys s' (ths ++ [t']) ({[id]} ∪ iss))
| step_cancel now id s ths iss s' t' :
    Cancel now id s = (s', t') →
    step (mkSys s ths iss) (mkSys s' (ths ++ [t']) iss)
| step_sweep now s ths iss s' t' :
    sweepArtifacts now (TReply Swept) s = (s', t') →
    step (mkSys s ths iss) (mkSys s' (ths ++ [t']) iss)
| step_shutdown s ths iss :
    step (mkSys s ths iss) (mkSys (s <| shutdown := true |>) ths iss).

(** A service that starts on the jobs of an earlier run, with its workers. *)
Definition initial (y : sys) : Prop :=
  ∃ disk jobs ok workers,
    y = mkSys (restore disk jobs ok) (replicate workers TIdle)
          (list_to_set (map ID jobs)).

Definition reachable (y : sys) : Prop := ∃ y0, initial y0 ∧ rtc step y0 y.
End service.

(** ** Eviction *)

Section evict.
Context {R : RangeOrder}.
Implicit Types (st : gmap string BuildJob) (l : list BuildJob).

Definition keyed st : Prop := map_Forall (λ id j, j.(ID) = id) st.

Lemma elem_of_candidates st j :
  j ∈ evict_candidates st ↔ terminal j.(Status) = true ∧ ∃ id, st !! id = Some j.
Proof.
  unfold evict_candidates. rewrite merge_sort_Permutation, list_elem_of_filter, Is_true_true.
  rewrite list_elem_of_fmap. split.
  - intros [? ([id j'] & -> & Hin%elem_of_range_map)]. eauto.
  - intros [? [id Hid]]. split; [done|]. exists (id, j). split; [done|]. by apply elem_of_range_map.
Qed.

Lemma candidates_ids st : keyed st → NoDup (map ID (evict_candidates st)).
Proof.
  intros Hk. unfold evict_candidates.
  rewrite (Permutation_map ID (merge_sort_Permutation _ _)).
  assert (map ID (range_map st).*2 = (range_map st).*1) as Hids.
  { pose proof (λ k v, proj1 (elem_of_range_map st k v)) as Hin.
    induction (range_map st) as [|[id j] l IH]; [done|]. simpl. f_equal.
    - apply Hk. apply Hin. set_solver.
    - apply IH. intros k v H. apply Hin. set_solver. }
  assert (NoDup (map ID (range_map st).*2)) as Hnd by (rewrite Hids; apply NoDup_range_map).
  revert Hnd. generalize (range_map st).*2 as l. induction l as [|j l IH]; [by constructor|].
  simpl. intros [Hj Hl]%NoDup_cons. rewrite filter_cons. case_decide; [|by apply IH].
  simpl. apply NoDup_cons. split; [|by apply IH]. intros (x & Hx & [_ Hin]%list_elem_of_filter)%list_elem_of_fmap.
  apply Hj, list_elem_of_fmap. eauto.
Qed.

Lemma stored_delete st id j : st !! id = Some j → stored (delete id st) = stored st - 1.
Proof.
  intros Hj. unfold stored. rewrite map_size_delete, Hj.
  assert (size st ≠ 0%nat); [|lia]. rewrite map_size_ne_0_lookup. eauto.
Qed.

Lemma evict_loop_spec l st st' ids dirs :
  keyed st → NoDup (map ID l) → Forall (λ j, st !! j.(ID) = Some j) l →
  evict_loop l st = (st', ids, dirs) →
  ∃ l1 l2, l = l1 ++ l2 ∧ ids = map ID l1
    ∧ dirs = filter (λ d, d ≠ "") (map ArtifactDir l1)
    ∧ (∀ id, st' !! id = if decide (id ∈ ids) then None else st !! id)
    ∧ stored st' = stored st - Z.of_nat (length l1)
    ∧ (stored st' ≤ maxStoredJobs ∨ l2 = [])
    ∧ (l1 = [] ∨ maxStoredJobs ≤ stored st').
Proof.
  revert st st' ids dirs. induction l as [|j l IH]; intros st st' ids dirs Hk Hnd Hin; simpl.
  { intros [= <- <- <-]. exists [], []. split_and!; try done;
      [simpl; lia|by right|by left]. }
  apply NoDup_cons in Hnd as [Hj Hnd]. apply Forall_cons in Hin as [Hjin Hin].
  destruct (stored st <=? maxStoredJobs) eqn:Hs.
  { intros [= <- <- <-]. exists [], (j :: l). split_and!; try done; [simpl; lia|left; lia|by left]. }
  destruct (evict_loop l _) as [[st1 ids1] dirs1] eqn:E. intros [= <- <- <-].
  apply IH in E as (l1 & l2 & -> & -> & -> & Hst & Hsz & Hb & Hm); [|by apply map_Forall_delete|done|].
  2:{ rewrite Forall_forall in *. intros x Hx. rewrite lookup_delete_ne; [by apply Hin|].
      intros Heq. apply Hj. rewrite Heq. by apply list_elem_of_fmap_2. }
  erewrite stored_delete in Hsz by done.
  exists (j :: l1), l2. split_and!; try done.
  - simpl. rewrite filter_cons. case_decide as Hd; case_decide; done.
  - intros id. rewrite Hst. simpl. destruct (decide (id = ID j)) as [->|Hne].
    + rewrite (decide_True (P := ID j ∈ ID j :: _)) by set_solver. rewrite lookup_delete_eq.
      by case_decide.
    + rewrite lookup_delete_ne by done. destruct (decide (id ∈ map ID l1)).
      * by rewrite decide_True by set_solver.
      * by rewrite decide_False by set_solver.
  - simpl. lia.
  - right. destruct Hm as [->|Hm]; [|done]. simpl in Hsz. lia.
Qed.

(** The jobs [evictLocked] removes. *)
Lemma evictLocked_loop st st' ids dirs :
  keyed st → evictLocked st = (st', ids, dirs) →
  ∃ l1 l2, (stored st ≤ maxStoredJobs ∧ l1 = [] ∨ evict_candidates st = l1 ++ l2) ∧ ids = map ID l1
    ∧ dirs = filter (λ d, d ≠ "") (map ArtifactDir l1)
    ∧ (∀ id, st' !! id = if decide (id ∈ ids) then None else st !! id)
    ∧ stored st' = stored st - Z.of_nat (length l1)
    ∧ (stored st' ≤ maxStoredJobs ∨ l2 = [] ∧ evict_candidates st = l1 ++ l2)
    ∧ (l1 = [] ∨ maxStoredJobs ≤ stored st').
Proof.
  intros Hk. unfold evictLocked. destruct (stored st <=? maxStoredJobs) eqn:Hs.
  - intros [= <- <- <-]. exists [], []. split_and!; try done; [left; split; [lia|done]|simpl; lia|left; lia|by left].
  - intros E. apply evict_loop_spec in E as (l1 & l2 & ? & ? & ? & ? & ? & ? & ?);
      [|done|by apply candidates_ids|].
    + exists l1, l2. naive_solver.
    + apply Forall_forall. intros j [_ [id Hid]]%elem_of_candidates. by rewrite (Hk id j Hid).
Qed.

Lemma evicted_terminal st st' ids dirs :
  keyed st → evictLocked st = (st', ids, dirs) →
  ∀ id, id ∈ ids → ∃ j, st !! id = Some j ∧ terminal j.(Status) = true.
Proof.
  intros Hk E. apply evictLocked_loop in E as (l1 & l2 & Hl & -> & _); [|done].
  intros id (j & -> & Hj)%list_elem_of_fmap. exists j.
  destruct Hl as [[_ ->]|Hl]; [set_solver|].
  assert (j ∈ evict_candidates st) as [Ht [id Hid]]%elem_of_candidates by (rewrite Hl; set_solver).
  split; [|done]. by rewrite (Hk id j Hid).
Qed.

Lemma evicted_lookup st st' ids dirs :
  keyed st → evictLocked st = (st', ids, dirs) →
  ∀ id, st' !! id = if decide (id ∈ ids) then None else st !! id.
Proof. intros Hk E. apply evictLocked_loop in E as (? & ? & _ & _ & _ & H & _); done. Qed.

(** Eviction, for every iteration order of the store: a store within 500 jobs is left
    alone; otherwise exactly enough finished jobs are dropped to come down to 500, or all
    of them when the unfinished jobs alone exceed it; the dropped jobs are never newer than
    a finished job that stays, and their artifact directories are removed; a queued or
    running job is never dropped and no job that stays is changed. *)
Theorem evictLocked_spec st st' ids dirs :
  keyed st → evictLocked st = (st', ids, dirs) →
  (stored st ≤ maxStoredJobs → st' = st ∧ ids = [])
  ∧ NoDup ids
  ∧ (∀ id, st' !! id = if decide (id ∈ ids) then None else st !! id)
  ∧ (∀ id, id ∈ ids → ∃ j, st !! id = Some j ∧ terminal j.(Status) = true
      ∧ (j.(ArtifactDir) ≠ "" → j.(ArtifactDir) ∈ dirs)
      ∧ ∀ id' j', st' !! id' = Some j' → terminal j'.(Status) = true →
          j.(CreatedAt) ≤ j'.(CreatedAt))
  ∧ (∀ d, d ∈ dirs → ∃ id j, id ∈ ids ∧ st !! id = Some j ∧ j.(ArtifactDir) = d)
  ∧ (maxStoredJobs < stored st →
      stored st' = maxStoredJobs
      ∨ maxStoredJobs < stored st' ∧ ∀ id j, st' !! id = Some j → terminal j.(Status) = false).
Proof.
  intros Hk E. pose proof (evicted_terminal _ _ _ _ Hk E) as Hterm.
  assert (stored st ≤ maxStoredJobs → st' = st ∧ ids = []) as Hsmall.
  { intros Hs. unfold evictLocked in E. apply Z.leb_le in Hs. rewrite Hs in E. by injection E as <- <- <-. }
  apply evictLocked_loop in E as (l1 & l2 & Hl & -> & -> & Hst & Hsz & Hb & Hm); [|done].
  assert (∀ j, j ∈ l1 → st !! ID j = Some j ∧ terminal (Status j) = true) as Hl1.
  { intros j Hj. destruct Hl as [[_ ->]|Hl]; [set_solver|].
    assert (j ∈ evict_candidates st) as [Ht [id Hid]]%elem_of_candidates by (rewrite Hl; set_solver).
    split; [|done]. by rewrite (Hk id j Hid). }
  split_and!; [done| |done| | |].
  - destruct Hl as [[_ ->]|Hl]; [constructor|].
    pose proof (candidates_ids st Hk) as Hnd. rewrite Hl, map_app in Hnd.
    by apply NoDup_app in Hnd as [? _].
  - intros id (j & -> & Hj)%list_elem_of_fmap. destruct (Hl1 j Hj) as [Hj1 Hj2].
    exists j. split_and!; [done|done| |].
    + intros Hd. apply list_elem_of_filter. split; [done|]. by apply list_elem_of_fmap_2.
    + intros id' j' Hj' Ht'. destruct Hl as [[_ ->]|Hl]; [set_solver|].
      rewrite Hst in Hj'. case_decide as Hid'; [done|].
      assert (j' ∈ l2) as Hj2'.
      { assert (j' ∈ evict_candidates st) as Hc by (apply elem_of_candidates; eauto).
        rewrite Hl in Hc. apply elem_of_app in Hc as [Hc|Hc]; [|done]. destruct Hid'.
        rewrite <-(Hk id' j' Hj'). by apply list_elem_of_fmap_2. }
      assert (StronglySorted created_le (l1 ++ l2)) as Hs.
      { rewrite <-Hl. apply StronglySorted_merge_sort; apply _. }
      clear -Hs Hj Hj2'. induction l1 as [|a l1 IH]; [set_solver|].
      apply StronglySorted_cons in Hs as [Ha Hs]. apply elem_of_cons in Hj as [->|Hj]; [|by apply IH].
      rewrite Forall_forall in Ha. apply Ha. set_solver.
  - intros d (Hd & (j & -> & Hj)%list_elem_of_fmap)%list_elem_of_filter.
    exists (ID j), j. split_and!; [by apply list_elem_of_fmap_2|by apply Hl1|done].
  - intros Hs. destruct Hb as [Hb|[-> Hc]].
    + left. destruct Hm as [->|Hm]; [simpl in Hsz|]; lia.
    + destruct (Z.le_gt_cases (stored st') maxStoredJobs) as [Hle|Hgt].
      { left. destruct Hm as [->|Hm]; [simpl in Hsz|]; lia. }
      right. split; [lia|]. intros id j Hj. apply not_true_is_false. intros Ht.
      rewrite Hst in Hj. case_decide as Hid; [done|]. destruct Hid.
      assert (j ∈ evict_candidates st) as Hin by (apply elem_of_candidates; eauto).
      rewrite Hc, app_nil_r in Hin. rewrite <-(Hk id j Hj). by apply list_elem_of_fmap_2.
Qed.
End evict.

(** 501 finished jobs, the one at index 500 the oldest. *)
Definition finished_job (n : nat) : BuildJob :=
  mkJob (pretty (Z.of_nat n)) "core" "x86_64" Success "" "" [] 0 ReasonManual "" None
    ("/tmp/miko-out-" +:+ pretty (Z.of_nat n)) (1000 - Z.of_nat n) None None.

Definition full_store : gmap string BuildJob :=
  list_to_map ((λ n, (pretty (Z.of_nat n), finished_job n)) <$> seq 0 501).

Lemma full_store_keyed : keyed full_store.
Proof.
  intros id j Hj%elem_of_list_to_map_2. apply list_elem_of_fmap in Hj as (n & [= -> ->] & _).
  reflexivity.
Qed.

Lemma evictLocked_spec_witness :
  stored full_store = 501
  ∧ ∃ st' ids dirs, evictLocked (R := elements_order) full_store = (st', ids, dirs)
    ∧ ids = ["500"] ∧ dirs = ["/tmp/miko-out-500"]
    ∧ (stored st' = maxStoredJobs
       ∨ maxStoredJobs < stored st' ∧ ∀ id j, st' !! id = Some j → terminal j.(Status) = false).
Proof.
  split; [vm_compute; reflexivity|].
  destruct (evictLocked (R := elements_order) full_store) as [[st' ids] dirs] eqn:E.
  exists st', ids, dirs. split; [done|].
  assert ((evictLocked (R := elements_order) full_store).1.2 = ["500"]
    ∧ (evictLocked (R := elements_order) full_store).2 = ["/tmp/miko-out-500"]) as H
    by (split; vm_compute; reflexivity).
  rewrite E in H. destruct H as [H1 H2]. split; [exact H1|]. split; [exact H2|].
  apply (proj2 (proj2 (proj2 (proj2 (proj2
    (evictLocked_spec (R := elements_order) _ _ _ _ full_store_keyed E)))))).
  vm_compute; reflexivity.
Defined.
