(* ===== verification/JobsInv.v ===== *)
(** * The life cycle of build jobs

    Invariants of every reachable state of the system of Jobs.v, for every interleaving of
    handlers, workers and the sweeper, every outcome of builds, uploads and disk writes,
    and every order in which the runtime iterates over the job store. *)

From S2P Require Import Prelude GoStrings Joblog JobRequest Jobs.
Local Open Scope Z_scope.

(** ** Who is responsible for a job *)

(** How far the goroutine that owns a job has come: it waits in the queue or on its way
    there; its push was refused and its log is not closed yet, or its status not set yet;
    a worker has registered it, builds it, has set its final status, has closed its log. *)
Inductive phase := Waiting | Rejected | Failing | Starting | Building | Closing | Closed.
#[export] Instance phase_eq_dec : EqDecision phase.
Proof. solve_decision. Defined.

Fixpoint owner (t : thread) : option (string * phase) :=
  match t with
  | TReply _ | TSignal _ | TIdle => None
  | TSave _ k | TRemove _ k | TLogText _ _ k | TSweep k | TRmdir _ k => owner k
  | TPush id _ | TCheck id _ => Some (id, Waiting)
  | TFail id => Some (id, Failing)
  | TLog id k => Some (id, match owner k with Some (_, Failing) => Rejected | _ => Closing end)
  | TStart id _ => Some (id, Starting)
  | TBuild id _ _ | TPublish id _ _ | TComplete id _ _ _ _ _ => Some (id, Building)
  | TUnregister id => Some (id, Closed)
  end.

(** The continuation after a log is closed stays with the same job. *)
Fixpoint wf (t : thread) : Prop :=
  match t with
  | TSave _ k | TRemove _ k | TLogText _ _ k | TSweep k | TRmdir _ k => wf k
  | TLog id k => wf k ∧ (owner k = None ∨ owner k = Some (id, Failing) ∨ owner k = Some (id, Closed))
  | _ => True
  end.

Definition waiting (q : list (string * BuildRequest)) : list (string * phase) :=
  map (λ e, (e.1, Waiting)) q.

Definition owned (y : sys) : list (string * phase) :=
  waiting y.(svc).(queue) ++ omap owner y.(threads).

Definition status (s : Service) (id : string) : option JobStatus := Status <$> s.(store) !! id.

(** The statuses a job in the store may have in a phase. *)
Definition status_ok (ph : phase) (st : JobStatus) : bool :=
  match ph with
  | Waiting | Rejected | Failing | Starting =>
      match st with Queued | Cancelled => true | _ => false end
  | Building => match st with Running => true | _ => false end
  | Closing | Closed => terminal st
  end.

Definition has_log (ph : phase) : bool :=
  match ph with Failing | Closed => false | _ => true end.

Definition registered (ph : phase) : bool :=
  match ph with Starting | Building => true | _ => false end.

Definition phase_ok (s : Service) (id : string) (ph : phase) : Prop :=
  (∀ st, status s id = Some st → status_ok ph st = true)
  ∧ (is_Some (s.(logs) !! id) ↔ has_log ph = true)
  ∧ (registered ph = true → id ∈ s.(running)).

(** The invariant on a service [s] whose jobs are owned as [O] says. *)
Record own_inv (O : list (string * phase)) (s : Service) (iss : gset string) : Prop := {
  oi_nodup : NoDup O.*1;
  oi_phase : ∀ id ph, (id, ph) ∈ O → phase_ok s id ph;
  oi_live : ∀ id st, status s id = Some st → terminal st = false → id ∈ O.*1;
  oi_logs : ∀ id, is_Some (s.(logs) !! id) → id ∈ O.*1;
  oi_issued : ∀ id, id ∈ O.*1 ∨ is_Some (status s id) → id ∈ iss;
}.

#[export] Instance own_inv_perm : Proper ((≡ₚ) ==> (=) ==> (=) ==> iff) own_inv.
Proof.
  assert (∀ O O' s iss, O ≡ₚ O' → own_inv O s iss → own_inv O' s iss) as H.
  { intros O O' s iss HO [H1 H2 H3 H4 H5]. split.
    - by rewrite <-HO.
    - intros id ph. rewrite <-HO. apply H2.
    - intros id st. rewrite <-HO. apply H3.
    - intros id. rewrite <-HO. apply H4.
    - intros id. rewrite <-HO. apply H5. }
  intros O O' HO s s' -> iss iss' ->. split; apply H; [done|by symmetry].
Qed.

(** ** Changes of one job *)

(** Outside [F] nothing that matters changes, except that jobs may leave the store. *)
Definition agree (F : list string) (s s' : Service) : Prop :=
  ∀ id, id ∉ F →
    (status s' id = status s id ∨ status s' id = None)
    ∧ (is_Some (s'.(logs) !! id) ↔ is_Some (s.(logs) !! id))
    ∧ (id ∈ s.(running) → id ∈ s'.(running)).

Lemma phase_ok_agree F s s' id ph :
  agree F s s' → id ∉ F → phase_ok s id ph → phase_ok s' id ph.
Proof.
  intros Ha Hid (H1 & H2 & H3). destruct (Ha id Hid) as (A1 & A2 & A3). split_and!.
  - intros st Hst. apply H1. destruct A1; congruence.
  - by rewrite A2.
  - auto.
Qed.

(** No change of ownership. *)
Lemma own_inv_quiet O s s' iss : agree [] s s' → own_inv O s iss → own_inv O s' iss.
Proof.
  intros Ha [H1 H2 H3 H4 H5]. assert (∀ id : string, id ∉ []) as Hn by set_solver. split; [done| | | |].
  - intros id ph Hin. eapply phase_ok_agree; eauto.
  - intros id st Hst. destruct (Ha id (Hn id)) as [[Hs|Hs] _]; [|congruence]. apply H3. congruence.
  - intros id Hl. apply H4. by apply (Ha id (Hn id)).
  - intros id [Hin|[st Hst]]; apply H5; [by left|right]. exists st.
    destruct (Ha id (Hn id)) as [[Hs|Hs] _]; congruence.
Qed.

(** The owner of the job [x] moves to another phase. *)
Lemma own_inv_phase x ph ph' rest s s' iss :
  own_inv ((x, ph) :: rest) s iss → agree [x] s s' → phase_ok s' x ph' →
  (is_Some (status s' x) → is_Some (status s x)) →
  own_inv ((x, ph') :: rest) s' iss.
Proof.
  intros [H1 H2 H3 H4 H5] Ha Hx Hst. apply NoDup_cons in H1 as [Hnx H1]. split.
  - by constructor.
  - intros id p [[= -> ->]|Hin]%elem_of_cons; [done|]. eapply phase_ok_agree; [exact Ha| |].
    + intros ->%list_elem_of_singleton. apply Hnx. by apply (list_elem_of_fmap_2 fst) in Hin.
    + apply H2. by right.
  - intros id st Hs Ht. destruct (decide (id = x)) as [->|Hne]; [by left|].
    destruct (Ha id) as [[Hs'|Hs'] _]; [set_solver| |congruence].
    eapply H3; [by rewrite <-Hs'|done].
  - intros id Hl. destruct (decide (id = x)) as [->|Hne]; [by left|].
    apply H4. apply (Ha id); [set_solver|done].
  - intros id Hid. destruct (decide (id = x)) as [->|Hne].
    + apply H5. left. by left.
    + apply H5. destruct Hid as [?|[st Hs]]; [by left|right].
      destruct (Ha id) as [[Hs'|Hs'] _]; [set_solver| |congruence]. exists st. congruence.
Qed.

(** The owner of the job [x] leaves it. *)
Lemma own_inv_leave x ph rest s s' iss :
  own_inv ((x, ph) :: rest) s iss → agree [x] s s' →
  (∀ st, status s' x = Some st → terminal st = true) → s'.(logs) !! x = None →
  (is_Some (status s' x) → is_Some (status s x)) →
  own_inv rest s' iss.
Proof.
  intros [H1 H2 H3 H4 H5] Ha Ht Hl Hst. apply NoDup_cons in H1 as [Hnx H1].
  assert (∀ id, id ∈ ((x, ph) :: rest).*1 → id ≠ x → id ∈ rest.*1) as Hin by set_solver.
  split; [done| | | |].
  - intros id p Hp. eapply phase_ok_agree; [exact Ha| |apply H2; by right].
    intros ->%list_elem_of_singleton. apply Hnx. by apply (list_elem_of_fmap_2 fst) in Hp.
  - intros id st Hs Hterm. destruct (decide (id = x)) as [->|Hne]; [apply Ht in Hs; congruence|].
    destruct (Ha id) as [[Hs'|Hs'] _]; [set_solver| |congruence].
    apply Hin; [|done]. eapply H3; [by rewrite <-Hs'|done].
  - intros id [b Hb]. destruct (decide (id = x)) as [->|Hne]; [congruence|].
    apply Hin; [|done]. apply H4. apply (Ha id); [set_solver|by exists b].
  - intros id Hid. destruct (decide (id = x)) as [->|Hne].
    + apply H5. left. by left.
    + apply H5. destruct Hid as [?|[st Hs]]; [left; by right|right].
      destruct (Ha id) as [[Hs'|Hs'] _]; [set_solver| |congruence]. exists st. congruence.
Qed.

(** A new job [x] gets an owner. *)
Lemma own_inv_new x O s s' iss :
  own_inv O s iss → x ∉ iss → agree [x] s s' → phase_ok s' x Waiting →
  own_inv ((x, Waiting) :: O) s' ({[x]} ∪ iss).
Proof.
  intros [H1 H2 H3 H4 H5] Hx Ha Hok. assert (x ∉ O.*1) as HxO by (intros ?; apply Hx, H5; by left).
  split.
  - by constructor.
  - intros id p [[= -> ->]|Hp]%elem_of_cons; [done|]. eapply phase_ok_agree; [exact Ha| |by apply H2].
    intros ->%list_elem_of_singleton. apply HxO. by apply (list_elem_of_fmap_2 fst) in Hp.
  - intros id st Hs Ht. destruct (decide (id = x)) as [->|Hne]; [by left|right].
    destruct (Ha id) as [[Hs'|Hs'] _]; [set_solver| |congruence].
    eapply H3; [by rewrite <-Hs'|done].
  - intros id Hl. destruct (decide (id = x)) as [->|Hne]; [by left|right].
    apply H4. apply (Ha id); [set_solver|done].
  - intros id Hid. destruct (decide (id = x)) as [->|Hne]; [set_solver|].
    apply elem_of_union. right. apply H5. destruct Hid as [Hin|[st Hs]]; [left; set_solver|right].
    destruct (Ha id) as [[Hs'|Hs'] _]; [set_solver| |congruence]. exists st. congruence.
Qed.

(** ** The moves *)

(** The owners when one thread owns [o] and the others [rest]. *)
Definition own_with (q : list (string * BuildRequest)) (o : option (string * phase))
    (rest : list (string * phase)) : list (string * phase) :=
  waiting q ++ option_list o ++ rest.

Lemma own_with_Some q o rest : own_with q (Some o) rest ≡ₚ o :: own_with q None rest.
Proof. unfold own_with. simpl. by rewrite Permutation_middle. Qed.

Lemma own_with_push q id req rest :
  own_with (q ++ [(id, req)]) None rest ≡ₚ own_with q (Some (id, Waiting)) rest.
Proof. unfold own_with, waiting. rewrite map_app. simpl. by rewrite <-app_assoc. Qed.

Lemma own_with_pop q id req rest :
  own_with q (Some (id, Waiting)) rest ≡ₚ own_with ((id, req) :: q) None rest.
Proof. by rewrite own_with_Some. Qed.

Section moves.
Context {R : RangeOrder}.
Context (DataDir : string) (cwd : option string).
Context (MaxLogBytes MaxRetries artifactRetention : Z) (persistent : bool).
Abbreviation submitWithReason := (submitWithReason DataDir cwd MaxLogBytes).
Abbreviation run := (run MaxRetries artifactRetention persistent).
Abbreviation sweepArtifacts := (sweepArtifacts artifactRetention).
Abbreviation step := (step DataDir cwd MaxLogBytes MaxRetries artifactRetention persistent).
Abbreviation reachable := (reachable DataDir cwd MaxLogBytes MaxRetries artifactRetention persistent).
Implicit Types (s : Service) (t k : thread).

(** What an [update] does. *)
Lemma update_spec id f k s s' t' :
  (∀ j, ID (f j) = ID j) → update id f k s = (s', t') → keyed s.(store) →
  keyed s'.(store) ∧ owner t' = owner k ∧ (wf k → wf t')
  ∧ s'.(logs) = s.(logs) ∧ s'.(running) = s.(running) ∧ s'.(queue) = s.(queue)
  ∧ agree [id] s s' ∧ status s' id = (λ j, Status (f j)) <$> s.(store) !! id.
Proof.
  intros Hf. unfold update. destruct (store s !! id) as [j|] eqn:Hj; intros [= <- <-] Hk.
  - split_and!; try done.
    + apply map_Forall_insert_2; [|done]. rewrite Hf. by apply Hk.
    + intros id' Hid'. split_and!; [left|done|done]. unfold status. simpl.
      rewrite lookup_insert_ne; [done|]. set_solver.
    + unfold status. simpl. by rewrite lookup_insert_eq.
  - split_and!; try done.
    + intros id' _. by split_and!; [left| |].
    + unfold status. by rewrite Hj.
Qed.

Lemma log_write_spec id p s :
  agree [] s (log_write id p s) ∧ (log_write id p s).(store) = s.(store)
  ∧ (log_write id p s).(queue) = s.(queue).
Proof.
  split_and!; [|done|done]. intros id' _. split_and!; [by left| |done].
  unfold log_write. simpl. destruct (decide (id = id')) as [->|Hne].
  - rewrite lookup_alter_eq. apply fmap_is_Some.
  - by rewrite lookup_alter_ne.
Qed.

Lemma sweep_spec now k s s' t' :
  sweepArtifacts now k s = (s', t') → keyed s.(store) →
  keyed s'.(store) ∧ owner t' = owner k ∧ (wf k → wf t') ∧ s'.(queue) = s.(queue) ∧ agree [] s s'
  ∧ ∀ id, status s' id = status s id.
Proof.
  unfold Jobs.sweepArtifacts. intros [= <- <-] Hk.
  set (swept := filter _ (range_map (store s))).
  assert (Forall (λ kv, store s !! kv.1 = Some kv.2) swept) as Hin.
  { apply Forall_forall. intros [id j] [_ H%elem_of_range_map]%list_elem_of_filter. done. }
  assert (∀ st, keyed st → (∀ id, Status <$> st !! id = Status <$> store s !! id) →
    let st' := foldl (λ st kv, <[kv.1:=kv.2 <| ArtifactDir := "" |> ]> st) st swept in
    keyed st' ∧ ∀ id, Status <$> st' !! id = Status <$> store s !! id) as Hfold.
  { clear -Hin Hk. induction Hin as [|[id j] l Hj Hl IH]; intros st Hkst Hst; [done|]. simpl in *.
    apply IH.
    - apply map_Forall_insert_2; [|done]. exact (Hk id j Hj).
    - intros id'. destruct (decide (id = id')) as [->|Hne].
      + rewrite lookup_insert_eq, Hj. done.
      + by rewrite lookup_insert_ne. }
  destruct (Hfold (store s) Hk (λ _, eq_refl)) as [Hk' Hst]. split_and!; try done.
  - clear. induction swept as [|kv l IH]; [done|]. simpl. done.
  - clear. intros H. induction swept as [|kv l IH]; [done|]. simpl. done.
  - intros id _. split_and!; [left; apply Hst|done|done].
Qed.

(** The changes of status the service makes.  The last two come from races: a job cancelled
    between its push or its check by the worker and the update that follows. *)
Definition edge (a b : JobStatus) : bool :=
  match a, b with
  | Queued, (Queued | Running | Cancelled | Failed) => true
  | Running, (Running | Success | Failed | Cancelled) => true
  | Success, Success | Failed, Failed | Cancelled, Cancelled => true
  | Cancelled, (Running | Failed) => true
  | _, _ => false
  end.

Definition transition s s' : Prop :=
  ∀ id st', status s' id = Some st' → ∃ st, status s id = Some st ∧ edge st st' = true.

Lemma edge_refl st : edge st st = true.
Proof. by destruct st. Qed.

Lemma transition_agree F s s' :
  agree F s s' →
  (∀ x st', x ∈ F → status s' x = Some st' → ∃ st, status s x = Some st ∧ edge st st' = true) →
  transition s s'.
Proof.
  intros Ha Hx id st' Hst. destruct (decide (id ∈ F)) as [?|HF]; [by eapply Hx|].
  destruct (Ha id HF) as [[Hs|Hs] _]; [|congruence]. exists st'.
  split; [congruence|apply edge_refl].
Qed.

(** What a move of a thread that owned [o] beside [rest] establishes. *)
Record moved rest iss s s' t' : Prop := {
  mv_own : own_inv (own_with s'.(queue) (owner t') rest) s' iss;
  mv_keyed : keyed s'.(store);
  mv_wf : wf t';
  mv_transition : transition s s';
  mv_queue : Z.of_nat (length s.(queue)) ≤ defaultQueueSize →
             Z.of_nat (length s'.(queue)) ≤ defaultQueueSize;
}.

Section one_move.
Context (rest : list (string * phase)) (iss : gset string) (s : Service) (t : thread).
Context (Hown : own_inv (own_with s.(queue) (owner t) rest) s iss).

Lemma moved_quiet s' t' :
  agree [] s s' → owner t' = owner t → s'.(queue) = s.(queue) → keyed s'.(store) → wf t' →
  moved rest iss s s' t'.
Proof.
  intros Ha Ho Hq Hk Hw. split; [|done|done| |by rewrite Hq].
  - rewrite Ho, Hq. by eapply own_inv_quiet.
  - eapply transition_agree; [done|]. set_solver.
Qed.

Lemma moved_phase x ph ph' s' t' :
  owner t = Some (x, ph) → owner t' = Some (x, ph') → agree [x] s s' → phase_ok s' x ph' →
  (∀ st', status s' x = Some st' → ∃ st, status s x = Some st ∧ edge st st' = true) →
  s'.(queue) = s.(queue) → keyed s'.(store) → wf t' →
  moved rest iss s s' t'.
Proof.
  intros Ho Ho' Ha Hp He Hq Hk Hw. split; [|done|done| |by rewrite Hq].
  - rewrite Ho', Hq, own_with_Some. rewrite Ho, own_with_Some in Hown.
    eapply own_inv_phase; [exact Hown|done|done|]. intros [st' Hst'].
    destruct (He st' Hst') as (st & ? & _). by exists st.
  - eapply transition_agree; [done|]. intros y st' ->%list_elem_of_singleton. apply He.
Qed.

Lemma moved_leave x ph s' t' :
  owner t = Some (x, ph) → owner t' = None → agree [x] s s' → s'.(logs) !! x = None →
  (∀ st', status s' x = Some st' →
    terminal st' = true ∧ ∃ st, status s x = Some st ∧ edge st st' = true) →
  s'.(queue) = s.(queue) → keyed s'.(store) → wf t' →
  moved rest iss s s' t'.
Proof.
  intros Ho Ho' Ha Hl He Hq Hk Hw. split; [|done|done| |by rewrite Hq].
  - rewrite Ho', Hq. rewrite Ho, own_with_Some in Hown.
    eapply own_inv_leave; [exact Hown|done| |done|].
    + intros st' Hst'. by destruct (He st' Hst').
    + intros [st' Hst']. destruct (He st' Hst') as (_ & st & ? & _). by exists st.
  - eapply transition_agree; [done|]. intros y st' ->%list_elem_of_singleton Hst'.
    by destruct (He st' Hst').
Qed.

Lemma owner_phase x ph : owner t = Some (x, ph) → phase_ok s x ph.
Proof. intros Ho. apply Hown. rewrite Ho, own_with_Some. by left. Qed.
End one_move.

Lemma agree_refl F s : agree F s s.
Proof. intros id _. by split_and!; [left| |]. Qed.

Lemma agree_same F s s' :
  s'.(store) = s.(store) → s'.(logs) = s.(logs) → s'.(running) = s.(running) → agree F s s'.
Proof. intros H1 H2 H3 id _. unfold status. rewrite H1, H2, H3. by split_and!; [left| |]. Qed.

Lemma status_edge_same s s' x :
  status s' x = status s x →
  ∀ st', status s' x = Some st' → ∃ st, status s x = Some st ∧ edge st st' = true.
Proof. intros H st' Hst'. exists st'. split; [congruence|apply edge_refl]. Qed.

Lemma updated_status s s' id (f : BuildJob → BuildJob) st' :
  status s' id = (λ j, Status (f j)) <$> s.(store) !! id → status s' id = Some st' →
  ∃ j, s.(store) !! id = Some j ∧ st' = Status (f j) ∧ status s id = Some (Status j).
Proof.
  intros H Hst'. rewrite H in Hst'. apply fmap_Some in Hst' as (j & Hj & ->).
  exists j. split_and!; [done|done|]. unfold status. by rewrite Hj.
Qed.

Lemma status_ok_None ph s id : s.(store) !! id = None →
  ∀ st, status s id = Some st → status_ok ph st = true.
Proof. intros H st. unfold status. by rewrite H. Qed.

(** The move that runs an [update] which keeps the status. *)
Lemma moved_update id f k s s' t t' rest iss :
  own_inv (own_with s.(queue) (owner t) rest) s iss → keyed s.(store) →
  (∀ j, ID (f j) = ID j) → (∀ j, Status (f j) = Status j) → owner t = owner k → wf k →
  update id f k s = (s', t') → moved rest iss s s' t'.
Proof.
  intros Hown Hk Hid Hf Ho Hw (Hk' & Ho' & Hw' & Hl & Hr & Hq & Ha & Hst)%update_spec; [|done|done].
  eapply moved_quiet; eauto; [|congruence].
  intros id' _. rewrite Hl, Hr. split_and!; [|done|done]. destruct (decide (id' = id)) as [->|Hne].
  - left. rewrite Hst. unfold status. destruct (store s !! id); simpl; [by rewrite Hf|done].
  - apply Ha. set_solver.
Qed.

Lemma complete_job_ID now c err res keep dir j : ID (complete_job now c err res keep dir j) = ID j.
Proof. unfold complete_job. by destruct c, err, res, keep. Qed.

Lemma complete_job_terminal now c err res keep dir j :
  terminal (Status (complete_job now c err res keep dir j)) = true.
Proof. unfold complete_job. by destruct c, err, res, keep. Qed.

Lemma process_exit_owner id keep dir : owner (process_exit id keep dir) = Some (id, Closing).
Proof. unfold process_exit. simpl. by destruct (_ && _). Qed.

Lemma process_exit_wf id keep dir : wf (process_exit id keep dir).
Proof. unfold process_exit. simpl. destruct (_ && _); simpl; auto. Qed.

(** Every move of a thread. *)
Lemma run_moved now ok ev s t s' t' rest iss :
  own_inv (own_with s.(queue) (owner t) rest) s iss → keyed s.(store) → wf t →
  run now ok ev s t = Some (s', t') → moved rest iss s s' t'.
Proof.
  intros Hown Hk Hwf. pose proof (owner_phase rest iss s t Hown) as Hph.
  destruct t, ev; intros Hrun; cbn [Jobs.run] in Hrun; try discriminate Hrun;
    try (destruct ids; discriminate Hrun); cbn [owner] in Hph.
  - (* TSave *) injection Hrun as <- <-.
    apply (moved_quiet rest iss _ _ Hown); [by destruct (_ && _); apply agree_same| |by destruct (_ && _)..|done]; done.
  - (* TRemove *) destruct ids as [|id ids]; injection Hrun as <- <-;
      apply (moved_quiet rest iss _ _ Hown); try done; try (by destruct (_ && _));
      [apply agree_refl|by destruct (_ && _); apply agree_same].
  - (* TPush *) destruct (_ <? _) eqn:Hlen; injection Hrun as <- <-.
    + split; [|done|done| |].
      * cbn [owner queue]. simpl. rewrite own_with_push. 
        eapply own_inv_quiet; [|exact Hown]. by apply agree_same.
      * by eapply (transition_agree []); [apply agree_same|set_solver].
      * simpl. rewrite length_app. simpl. unfold defaultQueueSize in *. lia.
    + eapply (moved_phase rest iss _ _ Hown id Waiting Rejected); try done; [apply agree_refl| |by apply status_edge_same|].
      * destruct (Hph id Waiting eq_refl) as (H1 & H2 & H3). by split_and!.
      * simpl. auto.
  - (* TFail *) injection Hrun as Hrun.
    apply update_spec in Hrun as (Hk' & Ho & Hw & Hl & Hr & Hq & Ha & Hst); [|done|done].
    destruct (Hph id Failing eq_refl) as (H1 & H2 & _).
    apply (moved_leave rest iss _ _ Hown id Failing); try done; [| |by apply Hw].
    + rewrite Hl. apply eq_None_not_Some. by rewrite H2.
    + intros st' Hst'. destruct (updated_status s s' id _ st' Hst Hst') as (j & _ & -> & Hj).
      split; [done|]. exists (Status j). split; [done|]. apply H1 in Hj. by destruct (Status j).
  - (* TLog *) destruct Hwf as [Hwf Hk']. destruct (logs s !! id) as [b|] eqn:Hb; injection Hrun as <- <-.
    2:{ destruct (Hph id _ eq_refl) as (_ & H2 & _). rewrite Hb in H2. exfalso.
        destruct H2 as [_ [x ?]]; [by destruct (owner t) as [[? []]|]|done]. }
    destruct (Hph id _ eq_refl) as (H1 & _ & _).
    assert (agree [id] s (s <| logs ::= delete id |>)) as Ha.
    { intros id' Hid'. split_and!; [by left| |done]. simpl.
      rewrite lookup_delete_ne by set_solver. done. }
    destruct Hk' as [Hk'|[Hk'|Hk']]; rewrite Hk' in H1.
    + eapply (moved_leave rest iss _ _ Hown id); try done; [by apply lookup_delete_eq|].
      intros st' Hst'. split; [by apply H1|exists st'; split; [exact Hst'|apply edge_refl]].
    + eapply (moved_phase rest iss _ _ Hown id _ Failing); try done; [|by apply status_edge_same].
      split_and!; [done| |done]. simpl. rewrite lookup_delete_eq. split; [by intros []|done].
    + eapply (moved_phase rest iss _ _ Hown id _ Closed); try done; [|by apply status_edge_same].
      split_and!; [done| |done]. simpl. rewrite lookup_delete_eq. split; [by intros []|done].
  - (* TLogText *) injection Hrun as Hrun. by eapply moved_update in Hrun.
  - (* TSignal *) injection Hrun as <- <-. apply (moved_quiet rest iss _ _ Hown); try done. by apply agree_same.
  - (* TIdle, pop *) destruct (queue s) as [|[id req] q] eqn:Hq; [done|]. injection Hrun as <- <-.
    split; [|done|done| |].
    + cbn [owner queue]. simpl. rewrite own_with_pop. rewrite <-Hq.
      eapply own_inv_quiet; [|rewrite Hq; exact Hown]. by apply agree_same.
    + by eapply (transition_agree []); [apply agree_same|set_solver].
    + rewrite Hq. simpl. lia.
  - (* TIdle, exit *) destruct (shutdown s); [|done]. injection Hrun as <- <-.
    apply (moved_quiet rest iss _ _ Hown); try done. apply agree_refl.
  - (* TCheck *) destruct (Hph id Waiting eq_refl) as (H1 & H2 & H3). injection Hrun as Hrun.
    assert (∀ ph', (∀ st, status s id = Some st → status_ok ph' st = true) → has_log ph' = true →
      registered ph' = false → phase_ok s id ph') as Hskip.
    { intros ph' Hs' Hl' Hr'. split_and!; [done|by rewrite Hl'|by rewrite Hr']. }
    destruct (store s !! id) as [cur|] eqn:Hcur; [case_decide as Hc|]; injection Hrun as <- <-.
    + eapply (moved_phase rest iss _ _ Hown id Waiting Closing); try done;
        [apply agree_refl| |by apply status_edge_same|simpl; auto].
      apply Hskip; [|done|done]. unfold status. rewrite Hcur. simpl. rewrite Hc. by intros st [= <-].
    + eapply (moved_phase rest iss _ _ Hown id Waiting Starting); try done; [|  |by apply status_edge_same].
      * intros id' _. split_and!; [by left|done|]. simpl. set_solver.
      * split_and!; [done|done|]. intros _. simpl. set_solver.
    + eapply (moved_phase rest iss _ _ Hown id Waiting Closing); try done;
        [apply agree_refl| |by apply status_edge_same|simpl; auto].
      apply Hskip; [|done|done]. by apply status_ok_None.
  - (* TStart *) injection Hrun as Hrun.
    apply update_spec in Hrun as (Hk' & Ho & Hw & Hl & Hr & Hq & Ha & Hst); [|done|done].
    destruct (Hph id Starting eq_refl) as (H1 & H2 & H3).
    eapply (moved_phase rest iss _ _ Hown id Starting Building); try done; [| |by apply Hw].
    + split_and!; [|by rewrite Hl|by rewrite Hr]. intros st' Hst'.
      destruct (updated_status s s' id _ st' Hst Hst') as (j & _ & -> & Hj). done.
    + intros st' Hst'. destruct (updated_status s s' id _ st' Hst Hst') as (j & _ & -> & Hj).
      exists (Status j). split; [done|]. apply H1 in Hj. by destruct (Status j).
  - (* TBuild, a write to the log *) injection Hrun as <- <-.
    destruct (log_write_spec id p s) as (Ha & Hs & Hq).
    apply (moved_quiet rest iss _ _ Hown); try done.
  - (* TBuild, a retry *) injection Hrun as Hrun.
    set (s1 := log_write id _ s) in Hrun.
    destruct (log_write_spec id (retry_line MaxRetries (attempt + 1) err) s) as (Ha & Hs & Hq). fold s1 in Ha, Hs, Hq.
    assert (own_inv (own_with (queue s1) (Some (id, Building)) rest) s1 iss) as Hown1
      by (eapply own_inv_quiet; [exact Ha|by rewrite Hq]).
    eapply (moved_update _ _ _ s1 s' (TBuild id req (attempt + 1))) in Hrun as [M1 M2 M3 M4 M5];
      [|exact Hown1|by rewrite Hs|done..].
    split; [done|done|done| |by rewrite <-Hq].
    intros id' st' Hst'. destruct (M4 id' st' Hst') as (st & Hst & He). exists st.
    split; [|done]. unfold status in *. by rewrite <-Hs.
  - (* TBuild, the result *) injection Hrun as <- <-.
    eapply (moved_quiet rest iss _ _ Hown); try done; [apply agree_refl| |];
      destruct err, res; try done; by case_match.
  - (* TPublish *) injection Hrun as <- <-.
    apply (moved_quiet rest iss _ _ Hown); try done. apply agree_refl.
  - (* TComplete *) injection Hrun as Hrun.
    apply update_spec in Hrun as (Hk' & Ho & Hw & Hl & Hr & Hq & Ha & Hst);
      [|intros; apply complete_job_ID|done]. rewrite process_exit_owner in Ho.
    destruct (Hph id Building eq_refl) as (H1 & H2 & H3).
    eapply (moved_phase rest iss _ _ Hown id Building Closing); try done; [| |by apply Hw, process_exit_wf].
    + split_and!; [|by rewrite Hl|done]. intros st' Hst'.
      destruct (updated_status s s' id _ st' Hst Hst') as (j & _ & -> & Hj). apply complete_job_terminal.
    + intros st' Hst'. destruct (updated_status s s' id _ st' Hst Hst') as (j & _ & -> & Hj).
      exists (Status j). split; [done|]. apply H1 in Hj.
      pose proof (complete_job_terminal now cancelled err res keep outDir j) as Ht.
      by destruct (Status j), (Status (complete_job _ _ _ _ _ _ j)).
  - (* TSweep *) apply (inj Some) in Hrun. apply sweep_spec in Hrun as (Hk' & Ho & Hw & Hq & Ha & _); [|done].
    apply (moved_quiet rest iss _ _ Hown); try done. by apply Hw.
  - (* TRmdir *) injection Hrun as <- <-. apply (moved_quiet rest iss _ _ Hown); try done. by apply agree_same.
  - (* TUnregister *) injection Hrun as <- <-.
    destruct (Hph id Closed eq_refl) as (H1 & H2 & _).
    eapply (moved_leave rest iss _ _ Hown id Closed); try done.
    + intros id' Hid'. split_and!; [by left|done|]. simpl. set_solver.
    + simpl. apply eq_None_not_Some. by rewrite H2.
    + intros st' Hst'. split; [by apply H1|exists st'; split; [exact Hst'|apply edge_refl]].
Qed.

(** ** The system *)

Record inv (y : sys) : Prop := {
  inv_own : own_inv (owned y) y.(svc) y.(issued);
  inv_keyed : keyed y.(svc).(store);
  inv_wf : Forall wf y.(threads);
  inv_queue : Z.of_nat (length y.(svc).(queue)) ≤ defaultQueueSize;
}.

Lemma omap_owner_at ths i t t' :
  ths !! i = Some t →
  ∃ rest, omap owner ths ≡ₚ option_list (owner t) ++ rest
    ∧ omap owner (<[i := t']> ths) ≡ₚ option_list (owner t') ++ rest.
Proof.
  intros Hi. exists (omap owner (take i ths) ++ omap owner (drop (S i) ths)).
  assert (i < length ths)%nat as Hlt by (by eapply lookup_lt_Some).
  assert (∀ u, option_list (owner u) = omap owner [u]) as Hu.
  { intros u. simpl. by destruct (owner u). }
  split.
  - rewrite <-(take_drop_middle ths i t Hi) at 1. rewrite omap_app, Hu.
    change (t :: drop (S i) ths) with ([t] ++ drop (S i) ths). rewrite omap_app.
    by rewrite Permutation_app_swap_app.
  - rewrite insert_take_drop by done. rewrite omap_app, Hu.
    change (t' :: drop (S i) ths) with ([t'] ++ drop (S i) ths). rewrite omap_app.
    by rewrite Permutation_app_swap_app.
Qed.

Lemma inv_step_thread now ok ev s ths iss i t s' t' :
  inv (mkSys s ths iss) → ths !! i = Some t → run now ok ev s t = Some (s', t') →
  inv (mkSys s' (<[i := t']> ths) iss) ∧ transition s s'.
Proof.
  intros [H1 H2 H3 H4] Hi Hrun. unfold owned in H1. simpl in *.
  destruct (omap_owner_at ths i t t' Hi) as (rest & Ho & Ho'). rewrite Ho in H1.
  assert (wf t) as Hw by (rewrite Forall_forall in H3; apply H3; by eapply list_elem_of_lookup_2).
  destruct (run_moved _ _ _ _ _ _ _ _ _ H1 H2 Hw Hrun) as [M1 M2 M3 M4 M5].
  split; [|done]. split; simpl; [|done| |auto].
  - unfold owned. simpl. by rewrite Ho'.
  - by apply Forall_insert.
Qed.

(** A new thread that owns nothing. *)
Lemma owned_spawn s ths iss t : owned (mkSys s (ths ++ [t]) iss) ≡ₚ
  option_list (owner t) ++ owned (mkSys s ths iss).
Proof.
  unfold owned. simpl. rewrite omap_app. simpl. rewrite app_assoc.
  rewrite (Permutation_app_comm _ (match owner t with Some _ => _ | None => _ end)).
  by destruct (owner t).
Qed.

Lemma inv_step_submit now id req reason s ths iss s' t' :
  inv (mkSys s ths iss) → id ∉ iss → submitWithReason now id req reason s = (s', t') →
  inv (mkSys s' (ths ++ [t']) ({[id]} ∪ iss))
  ∧ ∀ id' st', status s' id' = Some st' →
      status s id' = Some st' ∨ id' = id ∧ st' = Queued ∧ status s id = None.
Proof.
  intros [H1 H2 H3 H4] Hid. simpl in *.
  assert (∀ r, inv (mkSys s (ths ++ [TReply r]) ({[id]} ∪ iss))) as Hreply.
  { intros r. split; simpl; [|done| |done].
    - rewrite owned_spawn. simpl. destruct H1 as [N1 N2 N3 N4 N5]. split; [done..|].
      intros id' Hin. apply elem_of_union. right. by apply N5.
    - apply Forall_app. split; [done|]. by constructor. }
  unfold Jobs.submitWithReason. destruct req as [req|]; [|intros [= <- <-]; split; [apply Hreply|by left]].
  destruct (validateRequest DataDir cwd req) as [[]|e];
    [|intros [= <- <-]; split; [apply Hreply|by left]].
  cbv zeta. destruct (evictLocked _) as [[st ids] dirs] eqn:E.
  assert (keyed (<[id := new_job now id req reason]> (store s))) as Hk
    by (by apply map_Forall_insert_2).
  simpl in E. pose proof (evicted_lookup _ _ _ _ Hk E) as Hst.
  assert (id ∉ ids) as Hnew.
  { intros Hin. destruct (evicted_terminal _ _ _ _ Hk E id Hin) as (j & Hj & Ht).
    rewrite lookup_insert_eq in Hj. injection Hj as <-. done. }
  assert (status s id = None) as Hfresh.
  { apply eq_None_not_Some. intros Hs. apply Hid. apply (oi_issued _ _ _ H1). by right. }
  intros [= <- <-].
  assert (∀ id', id' ≠ id → Status <$> st !! id' = status s id' ∨ st !! id' = None) as Hother.
  { intros id' Hne. rewrite Hst. case_decide; [by right|left]. by rewrite lookup_insert_ne. }
  assert (st !! id = Some (new_job now id req reason)) as Hsome.
  { rewrite Hst, decide_False by done. by rewrite lookup_insert_eq. }
  split.
  - split; simpl; [| | |done].
    + rewrite owned_spawn. simpl.
      apply (own_inv_new _ _ s); [exact H1|done| |].
      * intros id' Hid'. split_and!; [| |done].
        -- destruct (Hother id') as [Hs|Hs]; [set_solver|by left|right]. unfold status. simpl. by rewrite Hs.
        -- simpl. rewrite lookup_insert_ne; [done|]. set_solver.
      * split_and!; [|simpl; rewrite lookup_insert_eq; split; [done|by eexists]|done].
        intros st'. unfold status. simpl. rewrite Hsome. by intros [= <-].
    + intros id' j Hj. rewrite Hst in Hj. case_decide; [done|]. by apply Hk.
    + apply Forall_app. split; [done|]. by constructor.
  - intros id' st' Hs'. unfold status in Hs' at 1. simpl in Hs'. destruct (decide (id' = id)) as [->|Hne].
    + right. rewrite Hsome in Hs'. by injection Hs' as <-.
    + left. destruct (Hother id' Hne) as [Hs|Hs]; [congruence|]. by rewrite Hs in Hs'.
Qed.

Lemma inv_step_cancel now id s ths iss s' t' :
  inv (mkSys s ths iss) → Cancel now id s = (s', t') →
  inv (mkSys s' (ths ++ [t']) iss) ∧ transition s s'.
Proof.
  intros [H1 H2 H3 H4]. simpl in *.
  assert (∀ t, owner t = None → wf t → inv (mkSys s (ths ++ [t]) iss) ∧ transition s s) as Hsame.
  { intros t Ho Hw. split.
    - split; simpl; [|done| |done]; [by rewrite owned_spawn, Ho|].
      apply Forall_app. split; [done|]. by constructor.
    - apply (transition_agree []); [apply agree_refl|set_solver]. }
  unfold Cancel. destruct (store s !! id) as [job|] eqn:Hj; [|intros [= <- <-]; by apply Hsame].
  destruct (Status job) eqn:Hs; try (intros [= <- <-]; by apply Hsame).
  2:{ intros [= <- <-]. case_decide; by apply Hsame. }
  intros [= <- <-].
  set (job' := job <| Status := Cancelled |> <| EndedAt := Some now |>).
  set (s' := s <| store ::= <[id := job']> |>).
  assert (agree [id] s s') as Ha.
  { intros id' Hid'. split_and!; [left|done|done]. unfold status. simpl.
    rewrite lookup_insert_ne; [done|]. set_solver. }
  assert (status s id = Some Queued) as Hst by (unfold status; by rewrite Hj, <-Hs).
  assert (status s' id = Some Cancelled) as Hst' by (unfold status; simpl; by rewrite lookup_insert_eq).
  split.
  - split; simpl; [| |  |done].
    + rewrite owned_spawn. simpl. change (owned (mkSys s' ths iss)) with (owned (mkSys s ths iss)).
      pose proof (oi_live _ _ _ H1 id Queued Hst eq_refl) as ([x ph] & Hx & Hin)%list_elem_of_fmap.
      simpl in Hx. subst x. apply elem_of_Permutation in Hin as Hp. destruct Hp as [rest Hp].
      pose proof (oi_phase _ _ _ H1 _ _ Hin) as (P1 & P2 & P3). rewrite Hp in H1 |- *.
      apply (own_inv_phase _ ph _ _ s); [done|done| |by eexists].
      split_and!; [|done|done]. rewrite Hst'. intros st [= <-]. specialize (P1 Queued Hst).
      by destruct ph.
    + apply map_Forall_insert_2; [|done]. by apply (H2 id job).
    + apply Forall_app. split; [done|]. by constructor.
  - apply (transition_agree [id]); [done|]. intros x st' ->%list_elem_of_singleton Hx.
    exists Queued. split; [done|]. rewrite Hst' in Hx. by injection Hx as <-.
Qed.

Lemma inv_step_sweep now s ths iss s' t' :
  inv (mkSys s ths iss) → sweepArtifacts now (TReply Swept) s = (s', t') →
  inv (mkSys s' (ths ++ [t']) iss) ∧ transition s s'.
Proof.
  intros [H1 H2 H3 H4] (Hk & Ho & Hw & Hq & Ha & _)%sweep_spec; [|done]. simpl in *.
  split; [|by eapply (transition_agree []); [done|set_solver]].
  split; simpl; [|done| |by rewrite Hq].
  - rewrite owned_spawn, Ho. simpl. unfold owned in *. simpl in *. rewrite Hq.
    by eapply own_inv_quiet.
  - apply Forall_app. split; [done|]. constructor; [by apply Hw|done].
Qed.

(** The statuses of the store after a step. *)
Definition step_status (y y' : sys) : Prop :=
  ∀ id st', status y'.(svc) id = Some st' →
    (∃ st, status y.(svc) id = Some st ∧ edge st st' = true)
    ∨ status y.(svc) id = None ∧ st' = Queued ∧ id ∉ y.(issued).

Lemma inv_step y y' : inv y → step y y' → inv y' ∧ step_status y y' ∧ y.(issued) ⊆ y'.(issued).
Proof.
  intros Hy Hstep. destruct Hstep as
    [now ok ev s ths iss i t s' t' Hi Hrun|now id req reason s ths iss s' t' Hid Hsub
    |now id s ths iss s' t' Hc|now s ths iss s' t' Hs|s ths iss].
  - destruct (inv_step_thread _ _ _ _ _ _ _ _ _ _ Hy Hi Hrun) as [Hi' Ht]. split_and!; [done| |done].
    intros id st' Hst. left. by apply Ht.
  - destruct (inv_step_submit _ _ _ _ _ _ _ _ _ Hy Hid Hsub) as [Hi' Ht].
    split_and!; [done| |simpl; set_solver].
    intros id' st' Hst. destruct (Ht id' st' Hst) as [?|(-> & ? & ?)]; [left|by right].
    exists st'. split; [done|apply edge_refl].
  - destruct (inv_step_cancel _ _ _ _ _ _ _ Hy Hc) as [Hi' Ht]. split_and!; [done| |done].
    intros id' st' Hst. left. by apply Ht.
  - destruct (inv_step_sweep _ _ _ _ _ _ Hy Hs) as [Hi' Ht]. split_and!; [done| |done].
    intros id' st' Hst. left. by apply Ht.
  - destruct Hy as [H1 H2 H3 H4]. split_and!; [|by left; exists st'; split; [|apply edge_refl]|done].
    split; [|done..]. simpl in *. eapply own_inv_quiet; [|exact H1]. by apply agree_same.
Qed.

(** ** Start *)

Lemma restore_job_terminal j : terminal (Status (restore_job j)) = true.
Proof. unfold restore_job. destruct (Status j) eqn:E; try (by rewrite E); by case_decide. Qed.

Lemma restore_job_ID j : ID (restore_job j) = ID j.
Proof. unfold restore_job. destruct (Status j); try done; by case_decide. Qed.

Lemma restore_state disk jobs ok :
  let s := restore disk jobs ok in
  s.(queue) = [] ∧ s.(logs) = ∅ ∧ s.(running) = ∅ ∧ keyed s.(store)
  ∧ ∀ id j, s.(store) !! id = Some j → terminal j.(Status) = true ∧ id ∈ map ID jobs.
Proof.
  unfold restore.
  induction jobs as [|j jobs IH] using rev_ind; [by split_and!|].
  rewrite foldl_app. destruct IH as (H1 & H2 & H3 & H4 & H5). cbn [foldl].
  set (s := foldl _ _ jobs) in *. unfold restore_step. simpl. split_and!; try done.
  - apply map_Forall_insert_2; [apply restore_job_ID|done].
  - intros id j'. rewrite map_app. destruct (decide (ID j = id)) as [<-|Hne].
    + rewrite lookup_insert_eq. intros [= <-]. split; [apply restore_job_terminal|set_solver].
    + rewrite lookup_insert_ne by done. intros Hj'. apply H5 in Hj'. set_solver.
Qed.

Lemma inv_initial y : initial y → inv y.
Proof.
  intros (disk & jobs & ok & n & ->).
  destruct (restore_state disk jobs ok) as (H1 & H2 & H3 & H4 & H5).
  assert (omap owner (replicate n TIdle) = []) as Ho by (by induction n).
  split; simpl; [|done|by apply Forall_replicate|by rewrite H1].
  unfold owned. simpl. rewrite H1, Ho. simpl. split.
  - constructor.
  - set_solver.
  - intros id st (j & Hj & ->)%fmap_Some Ht. apply H5 in Hj. destruct Hj. congruence.
  - intros id [b Hb]. by rewrite H2, lookup_empty in Hb.
  - intros id [Hin|[st (j & Hj & ->)%fmap_Some]]; [set_solver|]. apply elem_of_list_to_set. by apply (H5 id j).
Qed.

Lemma inv_reachable y : reachable y → inv y.
Proof.
  intros (y0 & H0 & Hy). apply inv_initial in H0. induction Hy as [|y0 y1 y2 Hs _ IH]; [done|].
  apply IH. by eapply inv_step.
Qed.

Lemma owned_unique y id ph ph' : inv y → (id, ph) ∈ owned y → (id, ph') ∈ owned y → ph = ph'.
Proof.
  intros [[Hnd _ _ _ _] _ _ _] H1 H2.
  assert ((id, ph) = (id, ph')); [|congruence].
  by eapply (NoDup_map_inj fst).
Qed.

Lemma owned_thread y id ph :
  (id, ph) ∈ owned y →
  (ph = Waiting ∧ id ∈ y.(svc).(queue).*1)
  ∨ ∃ i t, y.(threads) !! i = Some t ∧ owner t = Some (id, ph).
Proof.
  unfold owned. intros [(q & [= -> ->] & Hq)%list_elem_of_fmap|(t & Ht & Ho)%list_elem_of_omap]%elem_of_app.
  - left. split; [done|]. by apply list_elem_of_fmap_2.
  - right. apply list_elem_of_lookup in Ht as [i Hi]. eauto.
Qed.

Lemma job_ownership_running y : inv y → ∀ id,
  status (svc y) id = Some Running → id ∈ running (svc y).
Proof.
  intros [[H1 H2 H3 H4 H5] _ _ Hq] id Hst.
  destruct (proj1 (list_elem_of_fmap _ _ _) (H3 id Running Hst eq_refl)) as ([x ph] & Hx & Hin).
  simpl in Hx. subst x. destruct (H2 id ph Hin) as (P1 & P2 & P3). specialize (P1 Running Hst).
  apply P3. by destruct ph.
Qed.

(** C25. No job is lost and none is built twice, in every reachable state: a queued job is in
    the channel, or held by a goroutine that is on its way to build it (waiting for a slot or
    starting it) or to mark it failed (a full queue, or a build that cannot start); a running job
    is held by a worker that is building it, whose cancel function is registered and whose log is live;
    no job is held twice; a log is live only while some goroutine or the channel is still
    responsible for its job, so that no reader waits for ever; a finished job that is still
    held only waits for its cleanup; the queue never exceeds its capacity. *)
Theorem job_ownership y :
  reachable y →
  (∀ id, status (svc y) id = Some Queued →
     id ∈ (queue (svc y)).*1
     ∨ ∃ i t ph, threads y !! i = Some t ∧ owner t = Some (id, ph)
         ∧ (ph = Waiting ∨ ph = Starting ∨ ph = Rejected ∨ ph = Failing))
  ∧ (∀ id, status (svc y) id = Some Running →
       (∃ i t, threads y !! i = Some t ∧ owner t = Some (id, Building))
       ∧ id ∈ running (svc y) ∧ is_Some (logs (svc y) !! id))
  ∧ NoDup (owned y).*1
  ∧ (∀ id, is_Some (logs (svc y) !! id) → id ∈ (owned y).*1)
  ∧ (∀ id st ph, status (svc y) id = Some st → (id, ph) ∈ owned y → status_ok ph st = true)
  ∧ Z.of_nat (length (queue (svc y))) ≤ defaultQueueSize.
Proof.
  intros Hr. pose proof (inv_reachable y Hr) as [[H1 H2 H3 H4 H5] _ _ Hq].
  assert (∀ id st, status (svc y) id = Some st → terminal st = false →
    ∃ ph, (id, ph) ∈ owned y ∧ phase_ok (svc y) id ph) as Hlive.
  { intros id st Hst Ht. destruct (proj1 (list_elem_of_fmap _ _ _) (H3 id st Hst Ht)) as ([x ph] & Hx & Hin).
    simpl in Hx. subst x. exists ph. split; [done|]. by apply H2. }
  split_and!; try done.
  - intros id Hst. destruct (Hlive id Queued Hst eq_refl) as (ph & Hin & P1 & _).
    specialize (P1 Queued Hst). destruct (owned_thread _ _ _ Hin) as [[_ ?]|(i & t & Hi & Ho)]; [by left|right].
    exists i, t, ph. split_and!; [done|done|]. destruct ph; try done; tauto.
  - intros id Hst. destruct (Hlive id Running Hst eq_refl) as (ph & Hin & P1 & P2 & P3).
    specialize (P1 Running Hst). destruct ph; try done.
    split_and!; [|by apply P3|by apply P2].
    destruct (owned_thread _ _ _ Hin) as [[? _]|(i & t & Hi & Ho)]; [done|]. eauto.
  - intros id st ph Hst Hin. by apply (H2 id ph Hin).
Qed.

(** C26. The life cycle of a job: a step of the system starts new jobs, under an ID never
    used before, as queued, and changes a status only from queued to running, cancelled or
    failed (a full queue), from running to success, failed or cancelled, or, when a
    cancellation races with the worker or with a refused push, from cancelled to running
    or failed; so success and failure are final as long as the job is stored. *)
Theorem job_lifecycle y y' :
  reachable y → rtc step y y' →
  (∀ y'', step y' y'' → ∀ id st',
     status (svc y'') id = Some st' →
     (∃ st, status (svc y') id = Some st ∧ edge st st' = true)
     ∨ status (svc y') id = None ∧ st' = Queued ∧ id ∉ issued y')
  ∧ (∀ id st, (st = Success ∨ st = Failed) → status (svc y) id = Some st →
       status (svc y') id = Some st ∨ status (svc y') id = None).
Proof.
  intros Hr%inv_reachable Hsteps.
  assert (inv y' ∧ issued y ⊆ issued y' ∧ ∀ id st, (st = Success ∨ st = Failed) →
    status (svc y) id = Some st →
    status (svc y') id = Some st ∨ status (svc y') id = None) as (Hy' & _ & Hfinal).
  { induction Hsteps as [y|y y1 y2 Hs Hsteps IH] ; [by split_and!; [| |auto]|].
    destruct (inv_step _ _ Hr Hs) as (Hi1 & Hst & Hiss). destruct (IH Hi1) as (Hi2 & Hiss2 & IH').
    split_and!; [done|set_solver|]. intros id st Hfin Hid.
    assert (id ∈ issued y1) as Hin.
    { apply Hiss, (oi_issued _ _ _ (inv_own _ Hr)). right. by eexists. }
    assert (status (svc y1) id = Some st ∨ status (svc y1) id = None) as [H|H].
    { destruct (status (svc y1) id) as [st1|] eqn:E; [left|by right].
      destruct (Hst id st1 E) as [(st0 & H0 & He)|(H0 & _)]; [|congruence].
      assert (st0 = st) as -> by congruence. destruct Hfin as [-> | ->]; by destruct st1. }
    - by apply IH'.
    - right. clear IH IH' Hst Hid. revert H Hin Hi1. clear -Hsteps.
      induction Hsteps as [y|y y1 y2 Hs _ IH]; [done|]. intros H Hin Hi.
      destruct (inv_step _ _ Hi Hs) as (Hi' & Hst & Hiss). apply IH; [|by apply Hiss|done].
      destruct (status (svc y1) id) as [st1|] eqn:E; [|done].
      destruct (Hst id st1 E) as [(st0 & H0 & _)|(_ & _ & ?)]; [congruence|done]. }
  split; [|done]. intros y'' Hs. by apply (inv_step _ _ Hy' Hs).
Qed.

(** Cancelling, in every reachable state: an unknown or finished job is refused and
    nothing changes; a queued job becomes cancelled at once, whatever else happens to the
    store is unchanged, and a worker that pops it afterwards skips it; for a running job
    the cancel function is always there, and once it has been called every later outcome
    of the build counts as cancelled. *)
Theorem Cancel_spec now id y :
  reachable y →
  match Cancel now id (svc y) with
  | (s', t') =>
      match status (svc y) id with
      | None => s' = svc y ∧ t' = TReply JobNotFound
      | Some (Success | Failed | Cancelled) => s' = svc y ∧ t' = TReply ErrJobNotCancelable
      | Some Queued =>
          status s' id = Some Cancelled
          ∧ (∀ id', id' ≠ id → store s' !! id' = store (svc y) !! id')
          ∧ (∃ job, t' = TSave job (TReply CancelAccepted) ∧ store s' !! id = Some job
               ∧ EndedAt job = Some now)
          ∧ (∀ now' ok req, run now' ok EvGo s' (TCheck id req) = Some (s', TLog id TIdle))
      | Some Running =>
          s' = svc y ∧ t' = TSignal id
          ∧ ∀ now' ok s'', run now' ok EvGo s' t' = Some (s'', TReply CancelAccepted) →
              ∀ err, isCancelled s'' id err = true
      end
  end.
Proof.
  intros Hr. pose proof (job_ownership_running y (inv_reachable y Hr) id) as Hrun. unfold Cancel, status in *.
  destruct (store (svc y) !! id) as [job|] eqn:Hj; [|done]. cbn [fmap option_fmap option_map] in *.
  destruct (Status job) eqn:Hs; try done.
  - simpl. rewrite lookup_insert_eq. split_and!; [done| | |].
    + intros id' Hne. by rewrite lookup_insert_ne.
    + eexists. by split_and!.
    + by intros now' ok req; simpl.
  - rewrite decide_True by (by apply Hrun). split_and!; [done|done|].
    intros now' ok s'' [= <-] err. unfold isCancelled. simpl.
    rewrite (bool_decide_eq_true_2 (id ∈ _)) by set_solver. by rewrite orb_true_r.
Qed.
End moves.

(** ** Executions

    A schedule names the step to take; [exec] runs it. *)
Inductive sched :=
| SThread (i : nat) (now : Z) (ok : bool) (ev : event)
| SSubmit (now : Z) (id : string) (req : option BuildRequest) (reason : BuildReason)
| SCancel (now : Z) (id : string)
| SSweep (now : Z)
| SShutdown.

Section exec.
Context {R : RangeOrder}.
Context (DataDir : string) (cwd : option string).
Context (MaxLogBytes MaxRetries artifactRetention : Z) (persistent : bool).
Abbreviation step := (step DataDir cwd MaxLogBytes MaxRetries artifactRetention persistent).

Definition exec_step (y : sys) (c : sched) : option sys :=
  let '(mkSys s ths iss) := y in
  match c with
  | SThread i now ok ev =>
      t ← ths !! i;
      '(s', t') ← run MaxRetries artifactRetention persistent now ok ev s t;
      Some (mkSys s' (<[i := t']> ths) iss)
  | SSubmit now id req reason =>
      if decide (id ∈ iss) then None else
      let '(s', t') := submitWithReason DataDir cwd MaxLogBytes now id req reason s in
      Some (mkSys s' (ths ++ [t']) ({[id]} ∪ iss))
  | SCancel now id =>
      let '(s', t') := Cancel now id s in Some (mkSys s' (ths ++ [t']) iss)
  | SSweep now =>
      let '(s', t') := sweepArtifacts artifactRetention now (TReply Swept) s in
      Some (mkSys s' (ths ++ [t']) iss)
  | SShutdown => Some (mkSys (s <| shutdown := true |>) ths iss)
  end.

Fixpoint exec (y : sys) (cs : list sched) : option sys :=
  match cs with [] => Some y | c :: cs => y' ← exec_step y c; exec y' cs end.

Lemma exec_step_sound y c y' : exec_step y c = Some y' → step y y'.
Proof.
  destruct y as [s ths iss], c as [i now ok ev|now id req reason|now id|now|]; simpl.
  - destruct (ths !! i) as [t|] eqn:Hi; [|done]. simpl.
    destruct (run _ _ _ _ _ _ _ t) as [[s' t']|] eqn:E; intros [= <-]. by eapply step_thread.
  - case_decide; [done|]. destruct (submitWithReason _ _ _ _ _ _ _ _) as [s' t'] eqn:E.
    intros [= <-]. by eapply step_submit.
  - destruct (Cancel _ _ _) as [s' t'] eqn:E. intros [= <-]. by eapply step_cancel.
  - intros [= <-]. by eapply step_sweep.
  - intros [= <-]. apply step_shutdown.
Qed.

Lemma exec_sound y cs y' : exec y cs = Some y' → rtc step y y'.
Proof.
  revert y. induction cs as [|c cs IH]; intros y; simpl; [intros [= <-]; done|].
  destruct (exec_step y c) as [y1|] eqn:E; [|done]. simpl. intros H.
  eapply rtc_l; [by eapply exec_step_sound|by apply IH].
Qed.
End exec.

(** A service with one worker, and a build submitted to it up to the worker's check. *)
Definition start1 : sys := mkSys (restore ∅ [] (λ _, true)) (replicate 1 TIdle) (list_to_set []).

Definition plain_request : BuildRequest :=
  mkRequest "extra" "x86_64" "" (Some (mkGit "https://aur.archlinux.org/foo.git" "" "")) "" ∅ []
    SignHost 0 false None None false false "ci".

Definition to_check : list sched :=
  [SSubmit 1 "j1" (Some plain_request) ReasonManual; SThread 1 1 true EvGo; SThread 1 1 true EvGo;
   SThread 1 1 true EvGo; SThread 0 2 true EvGo; SThread 0 2 true EvGo].

Definition to_running : list sched := to_check ++ [SThread 0 3 true EvGo; SThread 0 3 true EvGo].

Definition job_example (cs : list sched) : option sys :=
  exec (R := elements_order) "" None 4096 2 3600 true start1 cs.

Abbreviation reachable_example :=
  (reachable (R := elements_order) "" None 4096 2 3600 true).

Lemma start1_initial : initial start1.
Proof. by exists ∅, [], (λ _, true), 1%nat. Qed.

Lemma example_reachable cs y : job_example cs = Some y → reachable_example y.
Proof. intros H. exists start1. split; [apply start1_initial|]. by eapply exec_sound. Qed.

Lemma example_state cs (P : sys → bool) :
  (match job_example cs with Some y => P y | None => false end) = true →
  ∃ y, job_example cs = Some y ∧ P y = true.
Proof. destruct (job_example cs) as [y|]; [eauto|done]. Qed.

Definition has_status (id : string) (st : JobStatus) (y : sys) : bool :=
  bool_decide (status (svc y) id = Some st).

Lemma job_ownership_witness :
  ∃ y, reachable_example y ∧ status (svc y) "j1" = Some Running
    ∧ "j1" ∈ running (svc y).
Proof.
  destruct (example_state to_running (has_status "j1" Running)) as (y & Hy & Hs);
    [vm_compute; reflexivity|].
  apply bool_decide_eq_true in Hs. apply example_reachable in Hy.
  exists y. split; [done|]. split; [done|].
  exact (proj1 (proj2 (proj1 (proj2 (job_ownership "" None 4096 2 3600 true y Hy)) "j1" Hs))).
Defined.

Lemma job_lifecycle_witness :
  ∃ y y', reachable_example y ∧ rtc (step (R := elements_order) "" None 4096 2 3600 true) y y'
    ∧ status (svc y) "j1" = Some Failed
    ∧ (status (svc y') "j1" = Some Failed ∨ status (svc y') "j1" = None).
Proof.
  destruct (example_state (to_running ++ [SThread 0 4 true (EvBuilt (Some (mkErr "boom" false true)) None "");
    SThread 0 5 true EvGo]) (has_status "j1" Failed)) as (y & Hy & Hs); [vm_compute; reflexivity|].
  apply bool_decide_eq_true in Hs. apply example_reachable in Hy.
  destruct (exec_step (R := elements_order) "" None 4096 2 3600 true y SShutdown) as [y'|] eqn:E;
    [|by destruct y].
  apply exec_step_sound, rtc_once in E. exists y, y'. split_and!; [done|done|done|].
  exact (proj2 (job_lifecycle "" None 4096 2 3600 true y y' Hy E) "j1" Failed (or_intror eq_refl) Hs).
Defined.

Lemma Cancel_spec_witness :
  ∃ y, reachable_example y ∧ status (svc y) "j1" = Some Running
    ∧ (Cancel 9 "j1" (svc y)).2 = TSignal "j1".
Proof.
  destruct (example_state to_running (has_status "j1" Running)) as (y & Hy & Hs);
    [vm_compute; reflexivity|].
  apply bool_decide_eq_true in Hs. apply example_reachable in Hy.
  exists y. split; [done|]. split; [done|].
  pose proof (Cancel_spec "" None 4096 2 3600 true 9 "j1" y Hy) as H. rewrite Hs in H.
  destruct (Cancel 9 "j1" (svc y)) as [s' t']. exact (proj1 (proj2 H)).
Defined.

(** A cancellation accepted between the worker's check and its update is lost: the caller
    was told that the job is cancelled, and the job runs and succeeds. *)
Theorem cancel_race :
  ∃ y, reachable_example y ∧ TReply CancelAccepted ∈ threads y
    ∧ status (svc y) "j1" = Some Success.
Proof.
  destruct (example_state (to_check ++ [SCancel 3 "j1"; SThread 2 3 true EvGo;
      SThread 0 4 true EvGo; SThread 0 4 true EvGo;
      SThread 0 5 true (EvBuilt None (Some ["/tmp/miko-out-1/foo-1-1-any.pkg.tar.zst"]) "/tmp/miko-out-1");
      SThread 0 6 true (EvUploaded None); SThread 0 7 true EvGo])
    (λ y, has_status "j1" Success y && match threads y !! 2%nat with Some (TReply CancelAccepted) => true | _ => false end))
    as (y & Hy & Hs); [vm_compute; reflexivity|].
  apply andb_true_iff in Hs as [Hs Ht]. exists y. split_and!.
  - by eapply example_reachable.
  - apply list_elem_of_lookup. exists 2%nat. destruct (threads y !! 2%nat) as [[[]| | | | | | | | | | | | | | | |]|]; done.
  - by apply bool_decide_eq_true in Hs.
Qed.

(** A job refused by a full queue fails without an end time. *)
Example queue_full_no_end :
  let s := mkService {["j1" := new_job 1 "j1" plain_request ReasonManual]} ∅ ∅ [] ∅ ∅ [] false in
  match run (R := elements_order) 2 3600 true 5 true EvGo s (TFail "j1") with
  | Some (s', _) => (λ j, (Status j, EndedAt j)) <$> store s' !! "j1" = Some (Failed, None)
  | None => False
  end.
Proof. vm_compute. reflexivity. Qed.

(** ** Restart *)

Lemma restore_untouched disk jobs ok id :
  id ∉ map ID jobs → Jobs.disk (restore disk jobs ok) !! id = disk !! id.
Proof.
  unfold restore. induction jobs as [|j jobs IH] using rev_ind; [done|].
  rewrite map_app, foldl_app. intros [Hid Hne]%not_elem_of_app. cbn [foldl].
  set (s := foldl _ _ jobs) in *. unfold restore_step. simpl.
  assert (ID j ≠ id) by set_solver. destruct (terminal (Status j)); [by apply IH|].
  destruct (ok (ID j)); [rewrite lookup_insert_ne by done|]; by apply IH.
Qed.

(** Restarting the service on what the earlier run had persisted: every job comes back
    under its ID with its recorded fields, jobs that had finished unchanged, and jobs that
    were queued or running as failed with an error text; no job is left unfinished, the
    queue, the logs and the cancel functions start empty, the files of finished jobs are
    not touched, the failed ones are written back where the disk allows it, and a second
    restart on what is then stored changes nothing more. *)
Theorem restore_spec disk jobs ok :
  NoDup (map ID jobs) →
  let s := restore disk jobs ok in
  queue s = [] ∧ logs s = ∅ ∧ running s = ∅
  ∧ (∀ j, j ∈ jobs → store s !! ID j = Some (restore_job j))
  ∧ (∀ id j', store s !! id = Some j' → ∃ j, j ∈ jobs ∧ ID j = id ∧ j' = restore_job j)
  ∧ (∀ j, restore_job (restore_job j) = restore_job j
       ∧ (if terminal (Status j) then restore_job j = j
          else Status (restore_job j) = Failed ∧ j_Err (restore_job j) ≠ ""
               ∧ Packages (restore_job j) = Packages j ∧ Logs (restore_job j) = Logs j))
  ∧ (∀ j, j ∈ jobs → Jobs.disk s !! ID j =
       if terminal (Status j) then disk !! ID j
       else if ok (ID j) then Some (durable (restore_job j)) else disk !! ID j)
  ∧ (∀ id, id ∉ map ID jobs → Jobs.disk s !! id = disk !! id).
Proof.
  intros Hnd. cbv zeta. destruct (restore_state disk jobs ok) as (H1 & H2 & H3 & _ & _).
  split_and!; [done|done|done| | | | |].
  3:{ intros j. unfold restore_job. destruct (Status j) eqn:E; simpl; rewrite ?E; try done;
        case_decide as He; simpl; by split_and!. }
  4:{ intros id. apply restore_untouched. }
  all: clear H1 H2 H3; unfold restore;
    induction jobs as [|j jobs IH] using rev_ind; [set_solver|];
    rewrite map_app in Hnd; apply NoDup_app in Hnd as (Hnd & Hdis & _);
    assert (ID j ∉ map ID jobs) as Hj by (intros Hin; apply (Hdis _ Hin); simpl; set_solver);
    rewrite foldl_app; cbn [foldl]; pose proof (restore_untouched disk jobs ok (ID j) Hj) as Hu;
    unfold restore in Hu; set (s := foldl _ _ jobs) in *; unfold restore_step; simpl.
  - intros x [Hx| ->%list_elem_of_singleton]%elem_of_app; [|by rewrite lookup_insert_eq].
    rewrite lookup_insert_ne; [by apply IH|]. intros Heq. apply Hj. rewrite Heq.
    by apply list_elem_of_fmap_2.
  - intros id j'. destruct (decide (ID j = id)) as [<-|Hne].
    + rewrite lookup_insert_eq. intros [= <-]. exists j. set_solver.
    + rewrite lookup_insert_ne by done. intros (x & Hx & ? & ?)%(IH Hnd). exists x. set_solver.
  - intros x [Hx| ->%list_elem_of_singleton]%elem_of_app.
    + assert (ID j ≠ ID x) as Hne by (intros Heq; apply Hj; rewrite Heq; by apply list_elem_of_fmap_2).
      destruct (terminal (Status j)); [by apply IH|].
      destruct (ok (ID j)); [rewrite lookup_insert_ne by done|]; by apply IH.
    + destruct (terminal (Status j)); [done|]. destruct (ok (ID j)); [by rewrite lookup_insert_eq|done].
Qed.

Lemma restore_spec_witness :
  let j := (new_job 1 "j1" plain_request ReasonManual) <| Status := Running |> in
  NoDup (map ID [j])
  ∧ store (restore {["j1" := durable j]} [durable j] (λ _, true)) !! "j1"
    = Some (restore_job (durable j)).
Proof.
  set (j := _ <| Status := Running |>).
  assert (NoDup (map ID [durable j])) as Hnd by apply NoDup_singleton.
  split; [done|].
  destruct (restore_spec {["j1" := durable j]} [durable j] (λ _, true) Hnd) as (_ & _ & _ & H & _).
  exact (H (durable j) (list_elem_of_here _ _)).
Defined.
