(* ===== verification/Rebuild.v ===== *)
(** * Rebuilds after a soname bump (miko/service/soname.go)

    When a published package changes the sonames it provides, everything that links
    against it, directly or through other packages, is rebuilt, dependencies first. *)

From S2P Require Import Prelude GoStrings Pkginfo Constraint Toposort Package Repo JobRequest.

(** ** The chain *)

Section chain.
Context {R : RangeOrder}.
Context (g : Graph) (bumped : string).

(** The inner loop: mark and enqueue the dependents not seen yet. *)
Definition bfs_visit (acc : gset string * list string) (d : string) : gset string * list string :=
  let '(affected, queue) := acc in
  if decide (d ≠ bumped ∧ d ∉ affected) then ({[d]} ∪ affected, queue ++ [d]) else acc.

(** The outer loop; [None] is lack of fuel. *)
Fixpoint bfs (fuel : nat) (affected : gset string) (queue : list string) : option (gset string) :=
  match queue with
  | [] => Some affected
  | n :: queue =>
      match fuel with
      | O => None
      | S fuel =>
          let '(affected, queue) := foldl bfs_visit (affected, queue) (Dependents g n) in
          bfs fuel affected queue
      end
  end.

(** [rebuildChain]: every node enters the queue at most once, so the number of nodes is
    fuel enough. *)
Definition rebuildChain : result topo_error (list string) :=
  let queue := Dependents g bumped in
  match bfs (length (Nodes g)) (list_to_set queue) queue with
  | None => Err ErrTopoFuel
  | Some affected =>
      if decide (affected = ∅) then Ok []
      else order ← BuildOrder g; Ok (filter (λ n, n ∈ affected) order)
  end.

(** [enqueueRebuildChain] with an enqueuer that may refuse: what it enqueued, and whether
    it reached the end. *)
Fixpoint enqueue_all (accept : string → bool) (chain : list string) : list string * bool :=
  match chain with
  | [] => ([], true)
  | pb :: chain =>
      if accept pb then let '(done, ok) := enqueue_all accept chain in (pb :: done, ok)
      else ([], false)
  end.

Definition enqueueRebuildChain (accept : string → bool) :
    result topo_error (list string * bool) :=
  enqueue_all accept <$> rebuildChain.
End chain.

(** ** The graph of a published repository *)

Definition baseOf (p : BinaryPackage) : string :=
  if decide (bp_Base p = "") then bp_Name p else bp_Base p.

Definition spec_name (spec : string) : string := cn_Name (Parse spec).

(** The names each package provides. *)
Definition provide (m : gmap string string) (p : BinaryPackage) : gmap string string :=
  foldl (λ m pr, <[spec_name pr := baseOf p]> m)
    (<[spec_name (bp_Name p) := baseOf p]> m) (PKGINFO.Provides (bp_info p)).

Definition providers (pkgs : list BinaryPackage) : gmap string string := foldl provide ∅ pkgs.

Definition base_deps (provider : gmap string string) (p : BinaryPackage) : list string :=
  omap (λ d, match provider !! spec_name d with
             | Some prov => if decide (prov = baseOf p) then None else Some prov
             | None => None
             end) (PKGINFO.Depend (bp_info p)).

(** [deps[base] = append(deps[base], …)], which creates the key with its first element. *)
Definition add_deps (provider : gmap string string) (m : gmap string (list string))
    (p : BinaryPackage) : gmap string (list string) :=
  match base_deps provider p with
  | [] => m
  | ds => <[baseOf p := default [] (m !! baseOf p) ++ ds]> m
  end.

Definition repoDepGraph {R : RangeOrder} (rr : RemoteRepo) : Graph :=
  let provider := providers rr.(Pkgs) in
  let bases : gset string := list_to_set (map baseOf rr.(Pkgs)) in
  NewGraph (range_keys bases) (foldl (add_deps provider) ∅ rr.(Pkgs)).

(** ** The sonames of a build *)

Section bumps.
Context {R : RangeOrder}.
(** The ELF and archive readers of Package.v and the files of the build. *)
Context (elf : string → option (list string)) (decode : string → result string tar_stream).
Context (files : string → path_kind).

(** [os.Open] and [pkgbaseOf]; a directory opens but cannot be read as a package. *)
Definition pkgbaseOf (pkgFile : string) : result package_error string :=
  match files pkgFile with
  | PathFile data => baseOf <$> ReadBinaryPackage decode pkgFile data
  | PathError e => Err (ErrOpen e)
  | PathDir _ => Err (ErrDecoder pkgFile)
  end.

Definition group_sonames (grouped : gmap string (gset string)) (p : string) :
    result package_error (gmap string (gset string)) :=
  base ← pkgbaseOf p;
  sonames ← SonamesOf elf decode (files p);
  Ok (<[base := default ∅ (grouped !! base) ∪ list_to_set sonames]> grouped).

Definition sonamesByPkgbase (packages : list string) :
    result package_error (gmap string (list string)) :=
  (λ grouped : gmap string (gset string), (λ set, sort_strings (range_keys set)) <$> grouped)
    <$> foldM group_sonames ∅ packages.

(** [fileSonameStore.path]: only a single path component names a file of the store. *)
Definition safe_pkgbase (b : string) : bool :=
  negb (bool_decide (b = "")) && bool_decide (path_base b = b)
  && negb (occurs "/" b) && negb (occurs "\" b).

(** The store of sonames: its files, and the bases whose file cannot be read or written. *)
Record SonameStore := mkStore {
  st_files : gmap string (list string);
  st_unreadable : string → bool;
  st_unwritable : string → bool;
}.
#[export] Instance eta_SonameStore : Eta SonameStore :=
  λ s, mkStore s.(st_files) s.(st_unreadable) s.(st_unwritable).

Definition Load (s : SonameStore) (b : string) : option (list string) :=
  if negb (safe_pkgbase b) || s.(st_unreadable) b then None
  else Some (default [] (s.(st_files) !! b)).

Definition Save (s : SonameStore) (b : string) (l : list string) : SonameStore :=
  if negb (safe_pkgbase b) || s.(st_unwritable) b then s else s <| st_files ::= <[b := l]> |>.

(** One iteration of [maybeRebuildOnSonameBump]: the store and the bumped bases. *)
Definition bump_step (acc : SonameStore * list string) (bc : string * list string) :
    SonameStore * list string :=
  let '(s, bumped) := acc in
  let '(base, current) := bc in
  match Load s base with
  | None => (s, bumped)
  | Some prev =>
      let s := Save s base current in
      match prev with
      | [] => (s, bumped)
      | _ => match DetectBumps prev current with
             | [] => (s, bumped)
             | _ => (s, bumped ++ [base])
             end
      end
  end.

Definition maybeRebuildOnSonameBump (enabled : bool) (s : SonameStore) (packages : list string) :
    SonameStore * list string :=
  if negb enabled then (s, []) else
  match sonamesByPkgbase packages with
  | Err _ => (s, [])
  | Ok grouped => foldl bump_step (s, []) (range_map grouped)
  end.

(** [triggerReverseDepRebuilds] with the repository the server returned, and the request
    each rebuild submits. *)
Definition rebuild_request (AURGitBase repo arch pkgbase : string) : BuildRequest :=
  mkRequest repo arch ""
    (Some (mkGit (trim_right_byte "/" AURGitBase +:+ "/" +:+ pkgbase +:+ ".git") "" "")) "" ∅ [] ""
    0 false None None false false "".

Definition triggerReverseDepRebuilds (AyatoURL AURGitBase repo arch : string)
    (repositoryDB : option RemoteRepo) (accept : string → bool) (bumped : string) :
    list BuildRequest :=
  if decide (AyatoURL = "" ∨ repo = "" ∨ arch = "") then [] else
  match repositoryDB with
  | None => []
  | Some rr =>
      match enqueueRebuildChain (repoDepGraph rr) bumped accept with
      | Err _ => []
      | Ok (enqueued, _) => map (rebuild_request AURGitBase repo arch) enqueued
      end
  end.
End bumps.

(** ** Lemmas *)

Section chain_lemmas.
Context {R : RangeOrder}.
Context (g : Graph) (bumped : string).
Implicit Types (affected : gset string) (queue : list string).

Abbreviation dependent := (λ a b : string, b ∈ Dependents g a).

Lemma bfs_visit_fold l affected queue :
  ∃ new, foldl (bfs_visit bumped) (affected, queue) l
         = (affected ∪ list_to_set new, queue ++ new)
    ∧ NoDup new
    ∧ ∀ x, x ∈ new ↔ x ∈ l ∧ x ≠ bumped ∧ x ∉ affected.
Proof.
  revert affected queue. induction l as [|d l IH]; intros affected queue.
  { exists []. split_and!; [simpl; rewrite app_nil_r; f_equal; set_solver|constructor|set_solver]. }
  cbn [foldl bfs_visit]. case_decide as Hd.
  - destruct (IH ({[d]} ∪ affected) (queue ++ [d])) as (new & -> & Hnd & Hnew).
    exists (d :: new). split_and!.
    + f_equal; [set_solver|]. by rewrite <-app_assoc.
    + constructor; [|done]. rewrite Hnew. set_solver.
    + intros x. rewrite elem_of_cons, Hnew. destruct (decide (x = d)) as [->|]; set_solver.
  - destruct (IH affected queue) as (new & -> & Hnd & Hnew). exists new. split_and!; [done|done|].
    intros x. rewrite Hnew. split; [set_solver|]. intros (Hx & ? & ?). split_and!; try done.
    apply elem_of_cons in Hx as [->|]; [|done]. tauto.
Qed.

(** The state of the outer loop. *)
Record bfs_inv (N affected : gset string) (queue : list string) : Prop := {
  bi_nodes : affected ⊆ N;
  bi_queue : ∀ x, x ∈ queue → x ∈ affected;
  bi_nodup : NoDup queue;
  bi_reach : ∀ x, x ∈ affected → x ≠ bumped ∧ tc dependent bumped x;
  bi_closed : ∀ x d, x ∈ affected → x ∉ queue → d ∈ Dependents g x → d ≠ bumped → d ∈ affected;
}.

Lemma bfs_correct N fuel affected queue :
  (∀ x d, d ∈ Dependents g x → d ∈ N) →
  bfs_inv N affected queue → length queue + size (N ∖ affected) ≤ fuel →
  ∃ affected', bfs g bumped fuel affected queue = Some affected'
    ∧ affected ⊆ affected' ∧ bfs_inv N affected' [].
Proof.
  intros HN. revert affected queue.
  induction fuel as [|fuel IH]; intros affected queue Hi Hf; destruct queue as [|n queue]; simpl in *.
  1,3: by exists affected.
  { lia. }
  destruct (bfs_visit_fold (Dependents g n) affected queue) as (new & -> & Hnd & Hnew).
  destruct Hi as [H1 H2 H3 H4 H5]. apply NoDup_cons in H3 as [Hn H3].
  assert (n ∈ affected) as Hna by (apply H2; by left).
  assert (∀ x, x ∈ new → x ∈ N ∖ affected) as HnewN.
  { intros x Hx. apply Hnew in Hx. set_solver. }
  assert (size (N ∖ affected) = size (N ∖ (affected ∪ list_to_set new)) + length new) as Hsize.
  { rewrite <-(size_list_to_set (C := gset string) new) by done.
    rewrite <-size_union by set_solver. f_equal. apply set_eq. intros x.
    destruct (decide (x ∈ new)) as [Hx|Hx]; [pose proof (HnewN x Hx)|]; set_solver. }
  destruct (IH (affected ∪ list_to_set new) (queue ++ new)) as (affected' & Hb & Hsub & Hi').
  - split.
    + intros x [Hx|Hx%elem_of_list_to_set%HnewN]%elem_of_union; set_solver.
    + intros x. rewrite elem_of_app, elem_of_union, elem_of_list_to_set.
      intros [?|?]; [left; apply H2; by right|by right].
    + apply NoDup_app. split_and!; [done| |done]. intros x Hx Hxn. apply Hnew in Hxn.
      destruct Hxn as (_ & _ & []). apply H2. by right.
    + intros x [Hx|Hx%elem_of_list_to_set%Hnew]%elem_of_union; [by apply H4|].
      destruct Hx as (Hx & ? & ?). split; [done|]. eapply tc_r; [by apply H4|done].
    + intros x d Hx Hxq Hd Hdb. apply elem_of_union. rewrite elem_of_list_to_set.
      destruct (decide (x = n)) as [->|Hne].
      * destruct (decide (d ∈ affected)); [by left|right]. by apply Hnew.
      * apply elem_of_union in Hx as [Hx|Hx]; [left|set_solver].
        apply (H5 x d); [done| |done|done]. set_solver.
  - rewrite length_app. lia.
  - exists affected'. split_and!; [done|set_solver|done].
Qed.
End chain_lemmas.

Lemma filter_app_cons {A} (P : A → Prop) `{∀ x, Decision (P x)} (l l1 l2 : list A) n :
  filter P l = l1 ++ n :: l2 → ∃ k1 k2, l = k1 ++ n :: k2 ∧ l1 = filter P k1.
Proof.
  revert l1. induction l as [|a l IH]; intros l1 E; [by destruct l1|].
  rewrite filter_cons in E. case_decide as Ha.
  - destruct l1 as [|b l1]; injection E as -> E.
    + by exists [], l.
    + destruct (IH l1 E) as (k1 & k2 & -> & ->). exists (b :: k1), k2.
      split; [done|]. by rewrite filter_cons, decide_True.
  - destruct (IH l1 E) as (k1 & k2 & -> & ->). exists (a :: k1), k2.
    split; [done|]. by rewrite filter_cons, decide_False.
Qed.

Section graph_nodes.
Context {R : RangeOrder}.

Lemma NewGraph_Nodes pkgs deps n : n ∈ Nodes (NewGraph pkgs deps) ↔ n ∈ nodeSet pkgs deps.
Proof.
  unfold Nodes, NewGraph. destruct (foldl _ _ (range_map deps)) as [f b]. simpl.
  by rewrite elem_of_sort_strings, elem_of_range_keys.
Qed.

Lemma NewGraph_NoDup pkgs deps :
  NoDup (Nodes (NewGraph pkgs deps)) ∧ ∀ n, NoDup (Dependents (NewGraph pkgs deps) n).
Proof.
  split.
  - unfold Nodes, NewGraph. destruct (foldl _ _ (range_map deps)) as [f b]. simpl.
    rewrite NoDup_sort_strings. apply NoDup_range_keys.
  - intros n. destruct (NewGraph_edges pkgs deps n) as (F & B & _ & -> & _).
    by destruct (sortedKeys_spec B) as (_ & ? & _).
Qed.
End graph_nodes.

(** The rebuild chain of a bumped package in any dependency graph: it is computed for
    every graph without lack of fuel; it holds exactly the transitive dependents of the
    package, each once and never the package itself, every package after those of the
    chain it depends on; a cycle anywhere in the graph is reported, and only when there is
    something to rebuild. *)
Theorem rebuildChain_spec `{R : RangeOrder} pkgs deps bumped :
  let g := NewGraph pkgs deps in
  let affected n := n ≠ bumped ∧ tc (λ a b, b ∈ Dependents g a) bumped n in
  match rebuildChain g bumped with
  | Ok chain =>
      NoDup chain
      ∧ (∀ n, n ∈ chain ↔ affected n)
      ∧ (∀ l1 n l2 d, chain = l1 ++ n :: l2 → d ∈ Deps g n → d ∈ chain → d ∈ l1)
  | Err e => (∃ n, affected n) ∧ ∃ c, e = ErrCycle c ∧ is_cycle (g_forward g) c
  end.
Proof.
  intros g affected. unfold rebuildChain.
  assert (∀ x d, d ∈ Dependents g x → d ≠ x ∧ d ∈ Nodes g) as Hdep.
  { intros x d Hd. destruct (NewGraph_edges pkgs deps x) as (F & B & _ & EB & _ & HB).
    unfold g in Hd. rewrite EB in Hd. destruct (sortedKeys_spec B) as (_ & _ & SB).
    rewrite SB, HB in Hd. split; [tauto|]. unfold g. rewrite NewGraph_Nodes, elem_of_nodeSet. right. left.
    destruct Hd as [Hd _]. apply elem_of_edges in Hd as (ds & Hd & _). by apply elem_of_dom. }
  assert (∀ n, n ∈ list_to_set (C := gset string) (Dependents g bumped) →
    n ≠ bumped ∧ tc (λ a b, b ∈ Dependents g a) bumped n) as Hinit.
  { intros n Hn%elem_of_list_to_set. split; [by apply (Hdep bumped)|by apply tc_once]. }
  destruct (bfs_correct g bumped (list_to_set (Nodes g)) (length (Nodes g))
    (list_to_set (Dependents g bumped)) (Dependents g bumped)) as (aff & -> & Hsub & Haff).
  { intros x d Hd. apply elem_of_list_to_set. by apply (Hdep x). }
  { split; [|set_solver|by apply NewGraph_NoDup|done|set_solver].
    intros x Hx%elem_of_list_to_set. apply elem_of_list_to_set. by apply (Hdep bumped). }
  { rewrite <-(size_list_to_set (C := gset string) (Dependents g bumped)) by apply NewGraph_NoDup.
    rewrite <-size_union by set_solver. rewrite <-(size_list_to_set (C := gset string) (Nodes g))
      by apply NewGraph_NoDup. apply subseteq_size. intros x.
    rewrite elem_of_union, elem_of_difference, !elem_of_list_to_set.
    intros [Hx|[? _]]; [by apply (Hdep bumped)|done]. }
  destruct Haff as [Hnodes _ _ Hreach Hclosed].
  assert (∀ n, n ∈ aff ↔ affected n) as Heq.
  { intros n. split; [apply Hreach|]. intros [Hn Htc]. 
    assert (∀ m, tc (λ a b, b ∈ Dependents g a) bumped m → m = bumped ∨ m ∈ aff) as H.
    { clear n Hn Htc. apply (tc_ind_r (λ m, m = bumped ∨ m ∈ aff)).
      - intros y Hy. right. apply Hsub. by apply elem_of_list_to_set.
      - intros y z _ Hz [->|Hy].
        + right. apply Hsub. by apply elem_of_list_to_set.
        + destruct (decide (z = bumped)); [by left|right]. apply (Hclosed y z); [done|set_solver|done|done]. }
    destruct (H n Htc); [done|done]. }
  case_decide as Hnil.
  { split_and!; [constructor| |by intros []]. intros n. rewrite <-Heq. set_solver. }
  unfold BuildOrder. pose proof (TopoSort_spec (g_nodes g) (g_forward g)) as H. cbv zeta in H.
  destruct (TopoSort _ _) as [order|e]; cbn [mbind result_bind].
  - destruct H as [Hg Hp]. split_and!.
    + apply NoDup_filter. by eapply greedy_NoDup.
    + intros n. rewrite list_elem_of_filter, <-Heq. split; [tauto|]. intros Hn. split; [done|].
      rewrite Hp, elem_of_elements, elem_of_nodeSet. left. apply Hnodes in Hn.
      by apply elem_of_list_to_set in Hn.
    + intros l1 n l2 d E Hd Hin. destruct (filter_app_cons _ _ _ _ _ E) as (k1 & k2 & Hk & ->).
      apply list_elem_of_filter in Hin as [Hin _]. apply list_elem_of_filter. split; [done|].
      by eapply greedy_deps.
  - destruct H as [_ Hc]. split; [|done]. apply set_choose_L in Hnil as [n Hn]. exists n. by apply Heq.
Qed.
