(* ===== verification/Base64.v ===== *)
(** * encoding/base64 without padding

    [base64.RawURLEncoding] as the tokens and the keys of ayato use it.  The decoder is Go's:
    it skips carriage returns and line feeds, and it does not look at the bits of the last
    digit that encode nothing, so a string of bytes has many texts. *)

From S2P Require Import Prelude GoStrings.

Definition base64_alphabet : string :=
  "ABCDEFGHIJKLMNOPQRSTUVWXYZabcdefghijklmnopqrstuvwxyz0123456789-_".

(** The digit of the six bits [i] of [v]. *)
Definition sextet (v i : N) : ascii :=
  default "A"%char (String.get (N.to_nat (N.land (N.shiftr v i) 63)) base64_alphabet).

Definition octet (v i : N) : ascii := ascii_of_N (N.land (N.shiftr v i) 255).

Definition triple (a b c : N) : N :=
  N.lor (N.shiftl a 16) (N.lor (N.shiftl b 8) c).

Fixpoint base64_encode (s : string) : string :=
  match s with
  | "" => ""
  | String a "" => let v := triple (byte a) 0 0 in
      String (sextet v 18) (String (sextet v 12) "")
  | String a (String b "") => let v := triple (byte a) (byte b) 0 in
      String (sextet v 18) (String (sextet v 12) (String (sextet v 6) ""))
  | String a (String b (String c s)) => let v := triple (byte a) (byte b) (byte c) in
      String (sextet v 18) (String (sextet v 12) (String (sextet v 6) (String (sextet v 0) (base64_encode s))))
  end%string.

(** [decodeMap] *)
Definition digit_value (c : ascii) : option N :=
  let n := byte c in
  if ((65 <=? n) && (n <=? 90))%N then Some (n - 65)%N
  else if ((97 <=? n) && (n <=? 122))%N then Some (n - 71)%N
  else if ((48 <=? n) && (n <=? 57))%N then Some (n + 4)%N
  else if bool_decide (c = "-"%char) then Some 62%N
  else if bool_decide (c = "_"%char) then Some 63%N
  else None.

Definition skipped (c : ascii) : bool := bool_decide (c = newline ∨ c = carriage_return).

(** The values of the digits; [None] is a [CorruptInputError]. *)
Fixpoint digits_of (s : string) : option (list N) :=
  match s with
  | "" => Some []
  | String c s => if skipped c then digits_of s
                  else d ← digit_value c; l ← digits_of s; Some (d :: l)
  end%string.

Definition quad (d0 d1 d2 d3 : N) : N :=
  N.lor (N.shiftl d0 18) (N.lor (N.shiftl d1 12) (N.lor (N.shiftl d2 6) d3)).

Fixpoint of_digits (l : list N) : option string :=
  match l with
  | [] => Some ""
  | [_] => None
  | [d0; d1] => let v := quad d0 d1 0 0 in Some (String (octet v 16) "")
  | [d0; d1; d2] => let v := quad d0 d1 d2 0 in Some (String (octet v 16) (String (octet v 8) ""))
  | d0 :: d1 :: d2 :: d3 :: l => let v := quad d0 d1 d2 d3 in
      s ← of_digits l;
      Some (String (octet v 16) (String (octet v 8) (String (octet v 0) s)))
  end%string.

Definition base64_decode (s : string) : option string := digits_of s ≫= of_digits.

(** ** Round trip *)

Definition sextet_value (v i : N) : N := N.land (N.shiftr v i) 63.

Lemma digit_value_sextet v i : digit_value (sextet v i) = Some (sextet_value v i).
Proof.
  unfold sextet, sextet_value. set (n := N.land _ _).
  assert (n < 64)%N as Hn by (unfold n; rewrite (N.land_ones _ 6); by apply N.mod_lt).
  clearbody n. revert n Hn.
  assert (Forall (λ k, digit_value (default "A"%char (String.get k base64_alphabet)) = Some (N.of_nat k)) (seq 0 64))
    as H by (apply (bool_decide_eq_true_1 _); by vm_compute).
  intros n Hn. rewrite Forall_seq in H. rewrite (H (N.to_nat n)) by lia. by rewrite N2Nat.id.
Qed.

Lemma skipped_sextet v i : skipped (sextet v i) = false.
Proof.
  pose proof (digit_value_sextet v i) as H. unfold skipped. apply bool_decide_eq_false.
  intros [E|E]; by rewrite E in H.
Qed.

Lemma byte_lt c : (byte c < 256)%N.
Proof. apply N_ascii_bounded. Qed.

Lemma octet_byte v i c : N.land (N.shiftr v i) 255 = byte c → octet v i = c.
Proof. intros H. unfold octet. rewrite H. apply ascii_N_embedding. Qed.

Lemma sextet_eq v i : sextet_value v i = (v / 2 ^ i mod 64)%N.
Proof. unfold sextet_value. by rewrite (N.land_ones _ 6), N.shiftr_div_pow2. Qed.

Lemma octet_eq v i : N.land (N.shiftr v i) 255 = (v / 2 ^ i mod 256)%N.
Proof. by rewrite (N.land_ones _ 8), N.shiftr_div_pow2. Qed.

(** A disjoint [lor] is a sum. *)
Lemma lor_shiftl a b n : (b < 2 ^ n → N.lor (N.shiftl a n) b = a * 2 ^ n + b)%N.
Proof.
  intros Hb. assert (N.land (N.shiftl a n) b = 0%N) as H0.
  { apply N.bits_inj. intros i. rewrite N.land_spec, N.bits_0. destruct (N.lt_ge_cases i n).
    - by rewrite N.shiftl_spec_low.
    - rewrite <-(N.mod_small b (2 ^ n)), N.mod_pow2_bits_high by done. apply andb_false_r. }
  rewrite <-N.lxor_lor, <-N.add_nocarry_lxor by done. by rewrite N.shiftl_mul_pow2.
Qed.

Lemma triple_eq a b c : (b < 256 → c < 256 → triple a b c = a * 65536 + b * 256 + c)%N.
Proof. intros Hb Hc. unfold triple. rewrite (lor_shiftl b), (lor_shiftl a); lia. Qed.

Lemma quad_eq d0 d1 d2 d3 :
  (d1 < 64 → d2 < 64 → d3 < 64 → quad d0 d1 d2 d3 = d0 * 262144 + d1 * 4096 + d2 * 64 + d3)%N.
Proof.
  intros H1 H2 H3. unfold quad. rewrite (lor_shiftl d2), (lor_shiftl d1), (lor_shiftl d0); lia.
Qed.

Lemma sextet_value_lt v i : (sextet_value v i < 64)%N.
Proof. rewrite sextet_eq. by apply N.mod_lt. Qed.

(** The digits of a 24-bit value give it back. *)
Lemma quad_sextets v : (v < 16777216)%N →
  quad (sextet_value v 18) (sextet_value v 12) (sextet_value v 6) (sextet_value v 0) = v.
Proof.
  intros Hv. rewrite quad_eq by apply sextet_value_lt. rewrite !sextet_eq.
  change (2 ^ 18)%N with 262144%N. change (2 ^ 12)%N with 4096%N. change (2 ^ 6)%N with 64%N.
  change (2 ^ 0)%N with 1%N. rewrite N.div_1_r. lia.
Qed.

Lemma octets_triple a b c :
  let v := triple (byte a) (byte b) (byte c) in
  (v < 16777216)%N ∧ octet v 16 = a ∧ octet v 8 = b ∧ octet v 0 = c.
Proof.
  pose proof (byte_lt a). pose proof (byte_lt b). pose proof (byte_lt c).
  cbv zeta. rewrite triple_eq by done.
  split_and!; [lia|apply octet_byte; rewrite octet_eq; change (2 ^ 16)%N with 65536%N
    |apply octet_byte; rewrite octet_eq; change (2 ^ 8)%N with 256%N
    |apply octet_byte; rewrite octet_eq; change (2 ^ 0)%N with 1%N; rewrite N.div_1_r]; lia.
Qed.

Lemma digits_of_sextet v i s : digits_of (String (sextet v i) s) = (λ l, sextet_value v i :: l) <$> digits_of s.
Proof. simpl. rewrite skipped_sextet, digit_value_sextet. simpl. by destruct (digits_of s). Qed.

(** The last digits of a text whose length is no multiple of three: the missing octets are
    zero, so the missing digits are. *)
Lemma short_digits a b : (b < 256)%N → let v := triple (byte a) b 0 in
  quad (sextet_value v 18) (sextet_value v 12) (sextet_value v 6) 0 = v
  ∧ (b = 0%N → quad (sextet_value v 18) (sextet_value v 12) 0 0 = v).
Proof.
  intros Hb v. pose proof (byte_lt a). assert (v = byte a * 65536 + b * 256)%N as Ev.
  { unfold v. rewrite triple_eq; lia. }
  assert (quad (sextet_value v 18) (sextet_value v 12) (sextet_value v 6) (sextet_value v 0) = v) as Hq.
  { apply quad_sextets. lia. }
  assert (sextet_value v 0 = 0%N) as H0.
  { rewrite sextet_eq. change (2 ^ 0)%N with 1%N. rewrite N.div_1_r. lia. }
  rewrite H0 in Hq. split; [done|]. intros ->.
  assert (sextet_value v 6 = 0%N) as H6 by (rewrite sextet_eq; change (2 ^ 6)%N with 64%N; lia).
  by rewrite H6 in Hq.
Qed.

Lemma decode_encode s : base64_decode (base64_encode s) = Some s.
Proof.
  unfold base64_decode. induction s as [s IH] using string_length_ind.
  destruct s as [|a [|b [|c s]]]; [done|..]; cbn [base64_encode]; rewrite !digits_of_sextet.
  - destruct (octets_triple a "000" "000") as (_ & Ha & _).
    destruct (short_digits a 0) as [_ H]; [lia|]. cbn -[triple quad sextet_value octet byte] in *.
    change (byte "000") with 0%N in Ha. by rewrite H, Ha.
  - destruct (octets_triple a b "000") as (_ & Ha & Hb & _).
    destruct (short_digits a (byte b)) as [H _]; [apply byte_lt|]. cbn -[triple quad sextet_value octet byte] in *.
    change (byte "000") with 0%N in Ha, Hb. by rewrite H, Ha, Hb.
  - destruct (octets_triple a b c) as (Hv & Ha & Hb & Hc).
    specialize (IH s). destruct (digits_of (base64_encode s)) as [l|]; cbn -[triple quad sextet_value octet byte] in *.
    + rewrite IH by lia. cbn -[triple quad sextet_value octet byte]. by rewrite quad_sextets, Ha, Hb, Hc.
    + discriminate IH. lia.
Qed.

#[export] Instance base64_encode_inj : Inj (=) (=) base64_encode.
Proof. intros s t E. apply (f_equal base64_decode) in E. rewrite !decode_encode in E. by simplify_eq. Qed.

(** Line breaks do not matter. *)
Lemma digits_of_skip c s t : skipped c = true → digits_of (s +:+ String c t) = digits_of (s +:+ t).
Proof. intros Hc. induction s as [|d s IH]; simpl; [by rewrite Hc|]. by rewrite IH. Qed.

Lemma base64_decode_skip c s t :
  skipped c = true → base64_decode (s +:+ String c t) = base64_decode (s +:+ t).
Proof. intros Hc. unfold base64_decode. by rewrite digits_of_skip. Qed.

(** A text of digits only. *)
Lemma base64_encode_occurs c s : digit_value c = None → occurs c (base64_encode s) = false.
Proof.
  intros Hc. assert (∀ v i, c ≠ sextet v i) as Hd.
  { intros v i ->. by rewrite digit_value_sextet in Hc. }
  induction s as [s IH] using string_length_ind.
  destruct s as [|x [|y [|z s]]]; [done|..]; cbn; rewrite !bool_decide_eq_false_2 by apply Hd; try done.
  apply IH. simpl. lia.
Qed.

Lemma base64_encode_nil s : base64_encode s = "" ↔ s = "".
Proof. by destruct s as [|? [|? [|? s]]]. Qed.
