(* ===== verification/Token.v ===== *)
(** * Signed tokens (ayato/auth/signer.go, pkce.go)

    Every credential of a user is a signed envelope that the client keeps: the base64 text of
    its claims, a dot, and the base64 text of the HMAC of the first text.  The first secret
    signs and every secret verifies, so that prepending one rotates it.  HMAC-SHA256 and the
    JSON form of the claims are parameters. *)

From S2P Require Import Prelude GoStrings Base64.

Definition TypSession : string := "session".
Definition TypCLI : string := "cli".
Definition TypCodeCLI : string := "code_cli".
Definition TypCodeWeb : string := "code_web".
Definition TypState : string := "state".
Definition TypBearer : string := "bearer".
Definition TypRefresh : string := "refresh".

(** Times are nanoseconds. *)
Record Claims := mkClaims {
  Typ : string;
  GitHubID : Z;
  Login : string;
  c_Name : string;
  Port : Z;
  Challenge : string;
  Binding : string;
  CLIState : string;
  c_UserCode : string;
  CLI : bool;
  Web : bool;
  Device : bool;
  JTI : string;
  SessionID : string;
  Exp : Z;
}.

(** A composite literal that names only some fields. *)
Definition no_claims : Claims := mkClaims "" 0 "" "" 0 "" "" "" "" false false false "" "" 0.
#[export] Instance eta_claims : Eta Claims := λ c,
  mkClaims c.(Typ) c.(GitHubID) c.(Login) c.(c_Name) c.(Port) c.(Challenge) c.(Binding) c.(CLIState)
    c.(c_UserCode) c.(CLI) c.(Web) c.(Device) c.(JTI) c.(SessionID) c.(Exp).

Inductive auth_error :=
| ErrNoSecret
| ErrShortSecret
| ErrMarshal
| ErrMalformed
| ErrMalformedSignature
| ErrBadSignature
| ErrMalformedPayload
| ErrMalformedClaims
| ErrExpired
| ErrWrongType (got want : string).

Definition minSecretBytes : nat := 32.

Record Signer := mkSigner { secrets : list string }.

Definition NewSigner (secrets : list string) : result auth_error Signer :=
  match secrets with
  | [] => Err ErrNoSecret
  | _ => if forallb (λ s, minSecretBytes <=? String.length s)%nat secrets
         then Ok (mkSigner secrets) else Err ErrShortSecret
  end.

Section signer.
(** HMAC-SHA256 of a message under a key, and [json.Marshal], [json.Unmarshal] of claims; a
    time outside the years of RFC 3339 cannot be marshalled. *)
Context (hmac : string → string → string).
Context (marshal : Claims → option string) (unmarshal : string → option Claims).
Implicit Types (s : Signer) (c : Claims).

(** A signer has a secret. *)
Definition signing_key s : string := default "" (head s.(secrets)).

Definition Sign s c : result auth_error string :=
  payload ← result_of_option ErrMarshal (marshal c);
  let payloadB64 := base64_encode payload in
  Ok (payloadB64 +:+ "." +:+ base64_encode (hmac (signing_key s) payloadB64)).

Definition parse s (token : string) : result auth_error Claims :=
  match cut "." token with
  | None => Err ErrMalformed
  | Some (payloadB64, sigB64) =>
      if decide (payloadB64 = "" ∨ sigB64 = "") then Err ErrMalformed else
      want ← result_of_option ErrMalformedSignature (base64_decode sigB64);
      if negb (existsb (λ key, bool_decide (hmac key payloadB64 = want)) s.(secrets))
      then Err ErrBadSignature else
      payload ← result_of_option ErrMalformedPayload (base64_decode payloadB64);
      result_of_option ErrMalformedClaims (unmarshal payload)
  end.

Definition expired (now : Z) c : bool := (c.(Exp) <? now)%Z.

Definition verify s (now : Z) (token : string) : result auth_error Claims :=
  c ← parse s token;
  if expired now c then Err ErrExpired else Ok c.

Definition VerifyTyp s (now : Z) (token typ : string) : result auth_error Claims :=
  c ← verify s now token;
  if decide (c.(Typ) ≠ typ) then Err (ErrWrongType c.(Typ) typ) else Ok c.

Definition VerifyTypAllowExpired s (now : Z) (token typ : string) : result auth_error (Claims * bool) :=
  c ← parse s token;
  if decide (c.(Typ) ≠ typ) then Err (ErrWrongType c.(Typ) typ) else Ok (c, expired now c).

(** [S256ChallengeFromVerifier] of golang.org/x/oauth2. *)
Definition VerifyPKCE (S256 : string → string) (verifier challenge : string) : bool :=
  if decide (verifier = "" ∨ challenge = "") then false
  else bool_decide (S256 verifier = challenge).

(** ** What a signature vouches for *)

Lemma parse_Ok s token c :
  parse s token = Ok c ↔ ∃ p q key payload,
    token = p +:+ "." +:+ q ∧ occurs "." p = false ∧ p ≠ "" ∧ q ≠ ""
    ∧ key ∈ s.(secrets) ∧ base64_decode q = Some (hmac key p)
    ∧ base64_decode p = Some payload ∧ unmarshal payload = Some c.
Proof.
  unfold parse. split.
  - destruct (cut "." token) as [[p q]|] eqn:Hcut; [|done]. apply cut_char_Some in Hcut as [-> Hp].
    case_decide as Hne; [done|]. destruct (base64_decode q) as [want|] eqn:Hq; [|done]. simpl.
    destruct (existsb _ _) eqn:Hex; [|done]. simpl.
    apply existsb_exists in Hex as (key & Hkey & <-%bool_decide_eq_true).
    destruct (base64_decode p) as [payload|] eqn:Hd; [|done]. simpl.
    destruct (unmarshal payload) eqn:Hu; [|done]. simpl. intros [= <-].
    apply list_elem_of_In in Hkey. exists p, q, key, payload. split_and!; try done; intros E; apply Hne; auto.
  - intros (p & q & key & payload & -> & Hp & Hpn & Hqn & Hkey & Hq & Hd & Hu).
    rewrite (proj2 (cut_char_Some _ _ _ _)) by done. rewrite decide_False by (by intros [?|?]). rewrite Hq. simpl.
    assert (existsb (λ key0, bool_decide (hmac key0 p = hmac key p)) (secrets s) = true) as ->.
    { apply existsb_exists. exists key. rewrite <-list_elem_of_In. split; [done|]. by apply bool_decide_eq_true. }
    simpl. rewrite Hd. simpl. by rewrite Hu.
Qed.

Lemma VerifyTyp_Ok s now token typ c :
  VerifyTyp s now token typ = Ok c ↔ parse s token = Ok c ∧ (now ≤ c.(Exp))%Z ∧ c.(Typ) = typ.
Proof.
  unfold VerifyTyp, verify, expired.
  destruct (parse s token) as [c'|]; simpl; [|by split; [|intros [? _]]].
  destruct (Z.ltb_spec (Exp c') now); simpl.
  - split; [done|]. clear marshal. intros ([= ->] & ? & _). lia.
  - case_decide as Ht; (split; [intros [= <-]|intros ([= ->] & _ & ?)]); done.
Qed.

Section signed.
Context (Hcodec : ∀ c payload, marshal c = Some payload → payload ≠ "" ∧ unmarshal payload = Some c).

(** Whoever knows the signing key of a signer reads its tokens back. *)
Lemma parse_Sign s s' c token :
  (∀ k p, hmac k p ≠ "") → signing_key s ∈ s'.(secrets) → Sign s c = Ok token → parse s' token = Ok c.
Proof.
  intros Hmac Hkey. unfold Sign. destruct (marshal c) as [payload|] eqn:Hm; [|done]. simpl.
  intros [= <-]. apply Hcodec in Hm as [Hne Hu]. apply parse_Ok.
  eexists _, _, (signing_key s), payload. split_and!; [done|by apply base64_encode_occurs|..]; try done.
  - by rewrite base64_encode_nil.
  - by rewrite base64_encode_nil.
  - apply decode_encode.
  - apply decode_encode.
Qed.
End signed.

(** A text and the text with a line break put behind it are the same token. *)
Lemma parse_line_break s token c b :
  skipped b = true → parse s token = Ok c → parse s (token +:+ String b "") = Ok c.
Proof.
  intros Hb (p & q & key & payload & -> & Hp & Hpn & Hqn & Hkey & Hq & Hd & Hu)%parse_Ok.
  apply parse_Ok. exists p, (q +:+ String b ""), key, payload.
  rewrite <-!str_app_assoc, base64_decode_skip, str_app_nil_r by done.
  split_and!; try done. intros [E _]%str_app_nil. done.
Qed.
End signer.

(** ** The theorems *)

(** A token signed by one process is read back by every process that still has the
    signing secret, whatever secrets were prepended since: unexpired and asked for by its
    type it yields exactly the signed claims, expired it is ErrExpired, and for any other
    type it is refused. *)
Theorem Sign_VerifyTyp hmac marshal unmarshal
    (Hcodec : ∀ c payload, marshal c = Some payload → payload ≠ "" ∧ unmarshal payload = Some c)
    (Hmac : ∀ k p, hmac k p ≠ "") old new s s' c token now typ :
  NewSigner old = Ok s → NewSigner (new ++ old) = Ok s' → Sign hmac marshal s c = Ok token →
  VerifyTyp hmac unmarshal s' now token typ =
    if (c.(Exp) <? now)%Z then Err ErrExpired
    else if decide (c.(Typ) = typ) then Ok c else Err (ErrWrongType c.(Typ) typ).
Proof.
  intros Hs Hs' Hsign. assert (signing_key s ∈ secrets s') as Hkey.
  { unfold NewSigner in Hs, Hs'. destruct old as [|k old]; [done|].
    destruct (forallb _ (k :: old)); [|done]. simplify_eq.
    destruct (new ++ k :: old) eqn:E; [done|]. destruct (forallb _ _); [|done]. simplify_eq.
    simpl. rewrite <-E. set_solver. }
  unfold VerifyTyp, verify, expired. erewrite parse_Sign by done. simpl.
  destruct (Exp c <? now)%Z; simpl; [done|]. repeat case_decide; tauto.
Qed.

(** The text of a token and the code under it: [key] made the code of [p], and [p] is the base64
    text of [payload]. *)
Definition sealed (hmac : string → string → string) (key p payload token : string) : Prop :=
  ∃ q, token = p +:+ "." +:+ q ∧ occurs "." p = false ∧ p ≠ "" ∧ q ≠ "" ∧
    base64_decode q = Some (hmac key p) ∧ base64_decode p = Some payload.

(** The texts that signing claims makes codes of ([Sign]). *)
Definition signed_text (marshal : Claims → option string) (issued : list Claims) (p : string) : Prop :=
  ∃ c payload, c ∈ issued ∧ marshal c = Some payload ∧ p = base64_encode payload.

(** C14. A token is accepted, with the claims [c], exactly when its text carries the code that one of
    the verifier's secrets makes of it, decodes to a payload that reads as [c], and [c] is of
    the type asked for and not past its expiry.  So whatever claims were issued, an accepted token
    either has the claims that reading back the very bytes of claims that were signed gives, or it
    shows a valid code, under a secret of the verifier, of a text that was never signed, which is a
    forgery of the HMAC. *)
Theorem VerifyTyp_authentic hmac marshal unmarshal (issued : list Claims) s now token typ c :
  (VerifyTyp hmac unmarshal s now token typ = Ok c ↔
     (∃ key p payload, key ∈ s.(secrets) ∧ sealed hmac key p payload token ∧ unmarshal payload = Some c)
     ∧ c.(Typ) = typ ∧ (now ≤ c.(Exp))%Z)
  ∧ (VerifyTyp hmac unmarshal s now token typ = Ok c →
     (∃ c0 payload, c0 ∈ issued ∧ marshal c0 = Some payload ∧ unmarshal payload = Some c)
     ∨ ∃ key p payload, key ∈ s.(secrets) ∧ sealed hmac key p payload token ∧ ¬ signed_text marshal issued p).
Proof.
  assert (VerifyTyp hmac unmarshal s now token typ = Ok c ↔
     (∃ key p payload, key ∈ s.(secrets) ∧ sealed hmac key p payload token ∧ unmarshal payload = Some c)
     ∧ c.(Typ) = typ ∧ (now ≤ c.(Exp))%Z) as Hiff.
  { rewrite VerifyTyp_Ok, parse_Ok. unfold sealed. split.
    - intros ((p & q & key & payload & ? & ? & ? & ? & ? & ? & ? & ?) & ? & ?). split_and!; [|done..]. exists key, p, payload. by eauto 10.
    - intros ((key & p & payload & ? & (q & ? & ? & ? & ? & ? & ?) & ?) & ? & ?). split_and!; [|done..]. exists p, q, key, payload. by eauto 10. }
  split; [exact Hiff|]. intros ((key & p & payload & Hkey & Hsealed & Hu) & _)%Hiff.
  destruct (decide (p ∈ omap (λ c, base64_encode <$> marshal c) issued)) as [Hin|Hn].
  - left. apply list_elem_of_omap in Hin as (c0 & Hc0 & Hm). destruct (marshal c0) as [payload0|] eqn:E; [|done].
    simpl in Hm. simplify_eq. destruct Hsealed as (q & _ & _ & _ & _ & _ & Hd). rewrite decode_encode in Hd. simplify_eq. by exists c0, payload.
  - right. exists key, p, payload. split_and!; [done..|]. intros (c0 & payload0 & Hc0 & Hm & ->).
    apply Hn, list_elem_of_omap. exists c0. by rewrite Hm.
Qed.

(** ** Examples *)
Module example.

#[export] Instance Claims_eq_dec : EqDecision Claims.
Proof. solve_decision. Defined.

Definition fields (c : Claims) : list (string + Z + bool) :=
  [inl (inl c.(Typ)); inl (inr c.(GitHubID)); inl (inl c.(Login)); inl (inl c.(c_Name)); inl (inr c.(Port));
   inl (inl c.(Challenge)); inl (inl c.(Binding)); inl (inl c.(CLIState)); inl (inl c.(c_UserCode));
   inr c.(CLI); inr c.(Web); inr c.(Device); inl (inl c.(JTI)); inl (inl c.(SessionID)); inl (inr c.(Exp))].

Definition of_fields (l : list (string + Z + bool)) : option Claims :=
  match l with
  | [inl (inl ty); inl (inr i); inl (inl lo); inl (inl n); inl (inr po); inl (inl ch); inl (inl bi); inl (inl cs);
     inl (inl uc); inr cl; inr we; inr de; inl (inl j); inl (inl se); inl (inr ex)] =>
      Some (mkClaims ty i lo n po ch bi cs uc cl we de j se ex)
  | _ => None
  end.

#[export] Instance Claims_countable : Countable Claims.
Proof. refine (inj_countable fields of_fields _). by intros []. Defined.

Definition marshal (c : Claims) : option string := Some (to_text c).
Definition unmarshal (s : string) : option Claims := of_text s.
Definition hmac (key msg : string) : string := base64_encode key +:+ "." +:+ msg.

Lemma codec c payload : marshal c = Some payload → payload ≠ "" ∧ unmarshal payload = Some c.
Proof. intros [= <-]. split; [apply to_text_not_nil|apply of_to_text]. Defined.

Lemma hmac_not_nil k p : hmac k p ≠ "".
Proof. unfold hmac. intros [_ E]%str_app_nil. done. Defined.

Definition key1 : string := "0123456789abcdef0123456789abcdef".
Definition key2 : string := "fedcba9876543210fedcba9876543210".

Definition claims : Claims :=
  no_claims <| Typ := TypRefresh |> <| GitHubID := 7%Z |> <| Login := "octocat" |> <| JTI := "j1" |>
    <| SessionID := "s1" |> <| Exp := 1000%Z |>.

Definition payload : string := to_text claims.

Definition token : string :=
  match Sign hmac marshal (mkSigner [key1]) claims with Ok t => t | Err _ => "" end.
End example.

Lemma Sign_VerifyTyp_witness :
  VerifyTyp example.hmac example.unmarshal (mkSigner [example.key2; example.key1]) 10 example.token TypRefresh
    = Ok example.claims.
Proof.
  assert (Sign example.hmac example.marshal (mkSigner [example.key1]) example.claims = Ok example.token)
    as Hsign by (by vm_compute).
  generalize dependent example.token. intros token Hsign.
  rewrite (Sign_VerifyTyp example.hmac example.marshal example.unmarshal example.codec example.hmac_not_nil
    [example.key1] [example.key2] (mkSigner [example.key1]) (mkSigner [example.key2; example.key1])
    example.claims token 10 TypRefresh); [done|by vm_compute..|exact Hsign].
Defined.

(** The token of the example is accepted. *)
Lemma VerifyTyp_authentic_witness :
  VerifyTyp example.hmac example.unmarshal (mkSigner [example.key1]) 10 example.token TypRefresh = Ok example.claims ∧
  ((∃ c0 payload, c0 ∈ [example.claims] ∧ example.marshal c0 = Some payload ∧ example.unmarshal payload = Some example.claims) ∨
   ∃ key p payload, key ∈ [example.key1] ∧ sealed example.hmac key p payload example.token
     ∧ ¬ signed_text example.marshal [example.claims] p).
Proof.
  assert (H : VerifyTyp example.hmac example.unmarshal (mkSigner [example.key1]) 10 example.token TypRefresh
    = Ok example.claims) by (vm_compute; reflexivity).
  split; [exact H|]. revert H. generalize example.token. intros token H.
  exact (proj2 (VerifyTyp_authentic example.hmac example.marshal example.unmarshal [example.claims]
    (mkSigner [example.key1]) 10 token TypRefresh example.claims) H).
Defined.
