(* ===== verification/CIAuth.v ===== *)
(** * Publishing credentials of continuous integration (ayato/auth/ci*.go)

    A CI job presents an API key or an OpenID Connect token of GitHub Actions; each grants the
    repositories of its configuration.  The verification of the OpenID token (go-oidc) is a
    parameter. *)

From S2P Require Import Prelude GoStrings.

(** [http.Header.Get]: the first value, or the empty string. *)
Abbreviation Header := (gmap string string).
Definition header_get (h : Header) (name : string) : string := default "" (h !! name).

Definition BearerToken (h : Header) : option string :=
  let authorization := header_get h "Authorization" in
  if negb (has_prefix authorization "Bearer ") then None
  else let token := trim_prefix authorization "Bearer " in
       if decide (token = "") then None else Some token.

(** [strings.Count] of a byte. *)
Fixpoint count_byte (c : ascii) (s : string) : nat :=
  match s with
  | EmptyString => 0
  | String d s => (if decide (c = d) then 1 else 0) + count_byte c s
  end.

Definition bearerJWT (h : Header) : option string :=
  match BearerToken h with
  | Some tok => if decide (count_byte "." tok = 2%nat) then Some tok else None
  | None => None
  end.

Record CIAPIKey := mkAPIKey { k_Name : string; Key : string; k_PublishRepos : list string; Scopes : list string }.
Record CIOIDCPublisher := mkPublisher {
  Repository : string; RepositoryID : string; AllowRefs : list string; p_PublishRepos : list string }.

Record CIPrincipal := mkPrincipal { Via : string; ID : string }.
Inductive CIOutcome := CIOutcomeNone | CIOutcomeDeny | CIOutcomeAllow.

(** ** API keys (ci_apikey.go) *)

Record apiKeyEntry := mkKeyEntry { name : string; key : string; repos : gset string; scopes : gset string }.
Inductive apiKeyGrant := repositoryGrant | serviceGrant.

Definition newAPIKeyAuth (cfg : list CIAPIKey) : list apiKeyEntry :=
  map (λ k, mkKeyEntry k.(k_Name) k.(Key) (list_to_set k.(k_PublishRepos)) (list_to_set k.(Scopes))) cfg.

(** The last key that matches. *)
Definition match_key (keys : list apiKeyEntry) (presented : string) : option apiKeyEntry :=
  foldl (λ m e, if decide (presented = e.(key)) then Some e else m) None keys.

Definition authorizeGrant (keys : list apiKeyEntry) (presented target : string) (grant : apiKeyGrant)
    : option CIPrincipal * bool :=
  match match_key keys presented with
  | None => (None, false)
  | Some e =>
      let allowed := match grant with repositoryGrant => e.(repos) | serviceGrant => e.(scopes) end in
      (Some (mkPrincipal "apikey" e.(name)),
       bool_decide (target ∈ allowed) || bool_decide ("*" ∈ allowed))
  end.

(** ** OpenID Connect (ci_oidc.go) *)

Record oidcClaims := mkOIDC {
  o_Repository : string; o_RepositoryID : string; Sub : string; o_Ref : string; EventName : string }.

Definition publisher_matches (p : CIOIDCPublisher) (c : oidcClaims) : bool :=
  if decide (p.(RepositoryID) ≠ "") then bool_decide (c.(o_RepositoryID) = p.(RepositoryID))
  else bool_decide (c.(o_Repository) = p.(Repository)).

Definition publisher_allows (p : CIOIDCPublisher) (c : oidcClaims) (repo : string) : bool :=
  publisher_matches p c && bool_decide (c.(o_Ref) ∈ p.(AllowRefs))
  && (bool_decide (repo ∈ p.(p_PublishRepos)) || bool_decide ("*" ∈ p.(p_PublishRepos))).

Definition is_pull_request (c : oidcClaims) : bool :=
  bool_decide (c.(EventName) = "pull_request") || bool_decide (c.(EventName) = "pull_request_target")
  || has_suffix c.(Sub) ":pull_request".

Definition authorizeClaims (publishers : list CIOIDCPublisher) (c : oidcClaims) (repo : string)
    : option CIPrincipal :=
  if is_pull_request c then None
  else if existsb (λ p, publisher_allows p c repo) publishers
       then Some (mkPrincipal "oidc" c.(o_Repository)) else None.

(** ** The authorizer (ci.go) *)

Record CIAuthorizer := mkCI { apikey : option (list apiKeyEntry); oidc : option (list CIOIDCPublisher) }.

Definition NewCIAuthorizer (keys : list CIAPIKey) (github : option (list CIOIDCPublisher)) : CIAuthorizer :=
  mkCI (match keys with [] => None | _ => Some (newAPIKeyAuth keys) end) github.

Definition Enabled (a : option CIAuthorizer) : bool :=
  match a with Some a => bool_decide (is_Some a.(apikey)) || bool_decide (is_Some a.(oidc)) | None => false end.

Section authorize.
(** [Verify] and [Claims]: the claims of a token that GitHub signed for the configured
    audience and that has not expired. *)
Context (verify_oidc : string → option oidcClaims).

Definition Authorize (a : CIAuthorizer) (h : Header) (ayatoRepo : string) : CIOutcome * option CIPrincipal :=
  let k := header_get h "X-API-Key" in
  if decide (k ≠ "") then
    match a.(apikey) with
    | None => (CIOutcomeDeny, None)
    | Some keys => let '(p, ok) := authorizeGrant keys k ayatoRepo repositoryGrant in
                   ((if ok : bool then CIOutcomeAllow else CIOutcomeDeny), p)
    end
  else match bearerJWT h with
    | Some tok =>
        match a.(oidc) with
        | None => (CIOutcomeDeny, None)
        | Some publishers =>
            match verify_oidc tok with
            | Some c => match authorizeClaims publishers c ayatoRepo with
                        | Some p => (CIOutcomeAllow, Some p)
                        | None => (CIOutcomeDeny, None)
                        end
            | None => (CIOutcomeDeny, None)
            end
        end
    | None => (CIOutcomeNone, None)
    end.

Definition AuthorizeScope (a : option CIAuthorizer) (h : Header) (scope : string) : CIOutcome * option CIPrincipal :=
  let k := header_get h "X-API-Key" in
  if decide (k = "") then (CIOutcomeNone, None)
  else match a ≫= apikey with
    | None => (CIOutcomeDeny, None)
    | Some keys => let '(p, ok) := authorizeGrant keys k scope serviceGrant in
                   ((if ok : bool then CIOutcomeAllow else CIOutcomeDeny), p)
    end.
End authorize.

(** ** What an allowed request has shown *)

(** The configured grants, read off the configuration. *)
Definition key_grants (cfg : list CIAPIKey) (presented target : string) (grant : apiKeyGrant) (who : string) : Prop :=
  ∃ k, k ∈ cfg ∧ k.(Key) = presented ∧ k.(k_Name) = who
    ∧ (target ∈ (match grant with repositoryGrant => k.(k_PublishRepos) | serviceGrant => k.(Scopes) end)
       ∨ "*" ∈ (match grant with repositoryGrant => k.(k_PublishRepos) | serviceGrant => k.(Scopes) end)).

Definition publisher_grants (cfg : list CIOIDCPublisher) (c : oidcClaims) (repo : string) : Prop :=
  c.(EventName) ≠ "pull_request" ∧ c.(EventName) ≠ "pull_request_target"
  ∧ (¬ ∃ s, c.(Sub) = s +:+ ":pull_request")
  ∧ ∃ p, p ∈ cfg
    ∧ (if decide (p.(RepositoryID) = "") then c.(o_Repository) = p.(Repository)
       else c.(o_RepositoryID) = p.(RepositoryID))
    ∧ c.(o_Ref) ∈ p.(AllowRefs) ∧ (repo ∈ p.(p_PublishRepos) ∨ "*" ∈ p.(p_PublishRepos)).

Lemma match_key_Some keys presented e :
  match_key keys presented = Some e → e ∈ keys ∧ presented = e.(key).
Proof.
  unfold match_key. induction keys as [|k keys IH] using rev_ind; [done|].
  rewrite foldl_app. simpl. case_decide as Hk; [intros [= <-]; set_solver|]. intros H. set_solver.
Qed.

Lemma authorizeGrant_true cfg presented target grant p :
  authorizeGrant (newAPIKeyAuth cfg) presented target grant = (p, true) →
  ∃ who, p = Some (mkPrincipal "apikey" who) ∧ key_grants cfg presented target grant who.
Proof.
  unfold authorizeGrant. destruct (match_key _ _) as [e|] eqn:He; [|done].
  apply match_key_Some in He as [Hin ->]. apply list_elem_of_fmap in Hin as (k & -> & Hk).
  intros [= <- Hor]. exists k.(k_Name). split; [done|]. exists k. split_and!; [done..|].
  apply orb_true_iff in Hor as [H|H]; apply bool_decide_eq_true in H; destruct grant; simpl in *; set_solver.
Qed.

Lemma no_suffix s p : has_suffix s p = false ↔ ¬ ∃ t, s = t +:+ p.
Proof. rewrite <-has_suffix_true. by destruct (has_suffix s p). Qed.

Lemma authorizeClaims_Some cfg c repo p :
  authorizeClaims cfg c repo = Some p ↔ p = mkPrincipal "oidc" c.(o_Repository) ∧ publisher_grants cfg c repo.
Proof.
  unfold authorizeClaims, is_pull_request, publisher_grants. rewrite <-no_suffix.
  destruct (decide (EventName c = "pull_request")) as [->|H1]; [simpl; naive_solver|].
  destruct (decide (EventName c = "pull_request_target")) as [->|H2]; [simpl; naive_solver|].
  rewrite !bool_decide_eq_false_2 by done. simpl. destruct (has_suffix (Sub c) ":pull_request"); [naive_solver|].
  assert (existsb (λ p0, publisher_allows p0 c repo) cfg = true ↔ ∃ p0, p0 ∈ cfg
    ∧ (if decide (p0.(RepositoryID) = "") then c.(o_Repository) = p0.(Repository)
       else c.(o_RepositoryID) = p0.(RepositoryID))
    ∧ c.(o_Ref) ∈ p0.(AllowRefs) ∧ (repo ∈ p0.(p_PublishRepos) ∨ "*" ∈ p0.(p_PublishRepos))) as He.
  { rewrite existsb_exists. setoid_rewrite <-list_elem_of_In. apply exist_proper. intros p0.
    apply and_iff_compat_l. unfold publisher_allows, publisher_matches.
    rewrite !andb_true_iff, orb_true_iff, !bool_decide_eq_true.
    repeat case_decide; rewrite ?bool_decide_eq_true; tauto. }
  destruct (existsb _ cfg); naive_solver.
Qed.

(** A CI request is allowed exactly when its credential grants the repository: a presented
    API key decides alone, and must be a configured key with a grant for the repository or for
    all; otherwise a bearer JWT must be a verified token of a configured publisher, on an
    allowed ref, never of a pull request. A refused credential is Deny, and None, which lets
    the request try the administrator's way, means that no credential was presented. *)
Theorem Authorize_spec verify_oidc keys github h repo outcome p :
  Authorize verify_oidc (NewCIAuthorizer keys github) h repo = (outcome, p) →
  let presented := header_get h "X-API-Key" in
  match outcome with
  | CIOutcomeAllow =>
      (presented ≠ "" ∧ ∃ who, p = Some (mkPrincipal "apikey" who) ∧ key_grants keys presented repo repositoryGrant who)
      ∨ (presented = "" ∧ ∃ tok c cfg, bearerJWT h = Some tok ∧ verify_oidc tok = Some c ∧ github = Some cfg
          ∧ publisher_grants cfg c repo ∧ p = Some (mkPrincipal "oidc" c.(o_Repository)))
  | CIOutcomeNone => presented = "" ∧ bearerJWT h = None
  | CIOutcomeDeny => presented ≠ "" ∨ is_Some (bearerJWT h)
  end.
Proof.
  unfold Authorize. cbv zeta. case_decide as Hk.
  - destruct keys as [|k keys]; simpl; [intros [= <- <-]; auto|].
    destruct (authorizeGrant _ _ _ _) as [p' ok] eqn:Hg. destruct ok; intros [= <- <-]; [|auto].
    left. split; [done|]. by apply (authorizeGrant_true (k :: keys)).
  - destruct (bearerJWT h) as [tok|] eqn:Hb; [|by intros [= <- <-]].
    simpl. destruct github as [cfg|]; simpl; [|intros [= <- <-]; eauto].
    destruct (verify_oidc tok) as [c|] eqn:Hv; [|intros [= <- <-]; eauto].
    destruct (authorizeClaims cfg c repo) as [q|] eqn:Hc; intros [= <- <-]; [|eauto].
    apply authorizeClaims_Some in Hc as [-> Hg]. right. split; [done|]. exists tok, c, cfg. done.
Qed.

Lemma Authorize_spec_witness :
  key_grants [mkAPIKey "alter" "secret-1" ["alterlinux"] []] "secret-1" "alterlinux" repositoryGrant "alter".
Proof.
  destruct (Authorize_spec (λ _, None) [mkAPIKey "alter" "secret-1" ["alterlinux"] []] None
    {[ "X-API-Key" := "secret-1" ]} "alterlinux" CIOutcomeAllow (Some (mkPrincipal "apikey" "alter")))
    as [(_ & who & Hp & Hg)|[H _]]; [by vm_compute|by injection Hp as <-|by vm_compute in H].
Defined.
