(* ===== verification/KV.v ===== *)
(** * Key-value stores (ayato/repository/kv) and programs over them

    Several instances of ayato share one store of namespaced entries, each with an optional
    expiry.  [exec] is one call of a backend, at a time of the clock: the entries of sqlkv are
    rows filtered when they are read, those of badgerkv expire by themselves, on a clock of whole
    seconds.  A request handler is a [prog], a program of such calls; [config] is a pool of
    handlers in any state of progress over one store, and an [action] lets one of them make its
    next call, or time pass. *)

From S2P Require Import Prelude GoStrings.

(** ** Errors *)

Inductive error :=
| ErrNotFound
| ErrStore
| ErrRandom
| ErrEmpty (what : string)
| ErrNotAtomic
| ErrCodec
| ErrInvalidID
| ErrNotConfigured
| ErrConflict
| WrapErr (e : error) (msg : string).

(** [errors.Is] looks through the wrappers. *)
Fixpoint is_not_found (e : error) : bool :=
  match e with ErrNotFound => true | WrapErr e _ => is_not_found e | _ => false end.

Fixpoint is_conflict (e : error) : bool :=
  match e with ErrConflict => true | WrapErr e _ => is_conflict e | _ => false end.

(** ** Namespaces (schema.go) *)

Definition AdminAllowlist : string := "allow".
Definition PackageFiles : string := "pkgfile".
Definition Signers : string := "signers".
Definition TokenDenylist : string := "deny".
Definition SessionDenylist : string := "deny-session".
Definition ReplayCodes : string := "replay".
Definition Devices : string := "device".
Definition DeviceUserIndex : string := "deviceuc".
Definition SpentDevices : string := "devicespent".
Definition LogTokens : string := "logtoken".
Definition SpentLogTokens : string := "logtokenspent".

(** ** Backends *)

(** Times and durations are nanoseconds. *)
Definition second : Z := 1000000000.
Definition minute : Z := 60 * second.
Definition hour : Z := 60 * minute.

(** [None] never expires. *)
Record entry := mkEntry { Value : string; ExpiresAt : option Z }.
Abbreviation table := (gmap (string * string) entry).

(** What the backends differ in: the instant an expiry is rounded to, whether [Add] takes the
    place of an expired entry, and whether they can add atomically at all ([kv.Adder]). *)
Record Backend := mkBackend {
  round : Z → Z;
  round_mono x y : (x ≤ y → round x ≤ round y)%Z;
  reuses : bool;
  adder : bool;
}.

Definition sqlkv : Backend := mkBackend (λ t, t) (λ _ _ H, H) false true.

Lemma whole_seconds_mono x y : (x ≤ y → x / second * second ≤ y / second * second)%Z.
Proof. intros H. apply Z.mul_le_mono_nonneg_r; [done|]. by apply Z.div_le_mono. Qed.

Definition badgerkv : Backend := mkBackend (λ t, t / second * second)%Z whole_seconds_mono true true.

Definition expires_at (b : Backend) (now ttl : Z) : option Z :=
  if (0 <? ttl)%Z then Some (b.(round) (now + ttl)%Z) else None.

Definition live (now : Z) (e : entry) : bool :=
  match e.(ExpiresAt) with None => true | Some t => (now <? t)%Z end.

(** ** Calls *)

Inductive op : Type → Type :=
| Get (ns key : string) : op string
| Set_ (ns key value : string) (ttl : Z) : op unit
| Delete (ns key : string) : op unit
| Add (ns key value : string) (ttl : Z) : op bool
| List (ns : string) : op (list (string * string))
| Adder : op bool
| Now : op Z
| Random (n : nat) : op string.

(** A call succeeds, or fails before or after its effect. *)
Inductive outcome := Done | Failed | Lost.

Section exec.
Context (b : Backend) {R : RangeOrder}.

Definition sql_get (now : Z) (ns key : string) (t : table) : result error string :=
  match t !! (ns, key) with
  | Some e => if live now e then Ok e.(Value) else Err ErrNotFound
  | None => Err ErrNotFound
  end.

Definition kv_set (now : Z) (ns key value : string) (ttl : Z) (t : table) : table :=
  <[(ns, key) := mkEntry value (expires_at b now ttl)]> t.

Definition kv_delete (ns key : string) (t : table) : table := delete (ns, key) t.

(** INSERT … ON CONFLICT DO NOTHING, and a serializable transaction. *)
Definition kv_add (now : Z) (ns key value : string) (ttl : Z) (t : table) : bool * table :=
  let taken := match t !! (ns, key) with
    | Some e => if b.(reuses) then live now e else true
    | None => false
    end in
  if taken : bool then (false, t) else (true, kv_set now ns key value ttl t).

Definition namespace (ns : string) (t : table) : gmap string entry :=
  list_to_map (omap (λ '(k, e), if decide (k.1 = ns) then Some (k.2, e) else None) (map_to_list t)).

Definition kv_list (now : Z) (ns : string) (t : table) : list (string * string) :=
  omap (λ '(k, e), if live now e then Some (k, e.(Value)) else None) (range_map (namespace ns t)).

(** What a call returns and does when nothing fails. *)
Definition effect (rnd : string) (now : Z) {X} (c : op X) (t : table) : result error X * table :=
  match c in op X return result error X * table with
  | Get ns key => (sql_get now ns key t, t)
  | Set_ ns key value ttl => (Ok tt, kv_set now ns key value ttl t)
  | Delete ns key => (Ok tt, kv_delete ns key t)
  | Add ns key value ttl => let '(created, t) := kv_add now ns key value ttl t in (Ok created, t)
  | List ns => (Ok (kv_list now ns t), t)
  | Adder => (Ok b.(adder), t)
  | Now => (Ok now, t)
  | Random n => (Ok rnd, t)
  end.

(** The clock and the shape of the store cannot fail. *)
Definition fails {X} (c : op X) : option error :=
  match c with Now | Adder => None | Random _ => Some ErrRandom | _ => Some ErrStore end.

Definition exec (o : outcome) (rnd : string) (now : Z) {X} (c : op X) (t : table) : result error X * table :=
  match o, fails c with
  | Failed, Some e => (Err e, t)
  | Lost, Some e => (Err e, (effect rnd now c t).2)
  | _, _ => effect rnd now c t
  end.
End exec.

(** A call with its result. *)
Inductive event :=
| EvGet (ns key : string) (r : result error string)
| EvSet (ns key value : string) (ttl : Z) (r : result error unit)
| EvDelete (ns key : string) (r : result error unit)
| EvAdd (ns key value : string) (ttl : Z) (r : result error bool)
| EvList (ns : string) (r : result error (list (string * string)))
| EvAdder (r : result error bool)
| EvNow (r : result error Z)
| EvRandom (r : result error string).

Definition event_of {X} (c : op X) : result error X → event :=
  match c in op X return result error X → event with
  | Get ns key => EvGet ns key
  | Set_ ns key value ttl => EvSet ns key value ttl
  | Delete ns key => EvDelete ns key
  | Add ns key value ttl => EvAdd ns key value ttl
  | List ns => EvList ns
  | Adder => EvAdder
  | Now => EvNow
  | Random _ => EvRandom
  end.

(** ** Programs *)

(** A program that answers [A], or returns early with an [E]. *)
Inductive prog (E A : Type) : Type :=
| Ret (r : result E A)
| Do {X : Type} (c : op X) (k : result error X → prog E A).
Arguments Ret {E A} r.
Arguments Do {E A X} c k.

Fixpoint bindp {E A B} (m : prog E A) (f : A → prog E B) : prog E B :=
  match m with
  | Ret (Ok a) => f a
  | Ret (Err e) => Ret (Err e)
  | Do c k => Do c (λ r, bindp (k r) f)
  end.

#[export] Instance prog_ret {E} : MRet (prog E) := λ A a, Ret (Ok a).
#[export] Instance prog_bind {E} : MBind (prog E) := λ A B f m, bindp m f.

Definition call {X} (c : op X) : prog error X := Do c Ret.
Definition throw {E A} (e : E) : prog E A := Ret (Err e).
Definition of_result {E A} (r : result E A) : prog E A := Ret r.

(** The error of a program as a value, and renamed. *)
Fixpoint try {E E' A} (m : prog E A) : prog E' (result E A) :=
  match m with
  | Ret r => Ret (Ok r)
  | Do c k => Do c (λ r, try (k r))
  end.

Fixpoint on_err {E E' A} (f : E → E') (m : prog E A) : prog E' A :=
  match m with
  | Ret r => Ret (map_err f r)
  | Do c k => Do c (λ r, on_err f (k r))
  end.

Definition wrap {A} (msg : string) : prog error A → prog error A := on_err (λ e, WrapErr e msg).

(** [time.Now], which does not fail. *)
Definition get_now {E} : prog E Z := Do Now (λ r, match r with Ok t => Ret (Ok t) | Err _ => Ret (Ok 0%Z) end).

Fixpoint prog_fold {E A S} (f : S → A → prog E S) (s : S) (l : list A) : prog E S :=
  match l with
  | [] => mret s
  | a :: l => s ← f s a; prog_fold f s l
  end.

(** ** Interleaving *)

(** A handler's answer, early or not. *)
Abbreviation handler R := (prog R R).

Definition answer {R} (p : handler R) : option R :=
  match p with Ret (Ok r) | Ret (Err r) => Some r | Do _ _ => None end.

(** A call at a time, and the calls of all handlers in order. *)
Definition tevent : Type := Z * event.
Definition trace : Type := list (nat * tevent).

Record config (R : Type) := mkConfig {
  rows : table;
  clock : Z;
  threads : list (handler R);
  history : trace;
}.
Arguments mkConfig {R} _ _ _ _.
Arguments rows {R} _.
Arguments clock {R} _.
Arguments threads {R} _.
Arguments history {R} _.

Inductive action (R : Type) :=
| Tick (d : N)
| Start (p : handler R)
| Step (i : nat) (o : outcome) (rnd : string).
Arguments Tick {R} d.
Arguments Start {R} p.
Arguments Step {R} i o rnd.

Section interleaving.
Context (b : Backend) {R : RangeOrder} {Resp : Type}.
Implicit Types (cfg : config Resp) (a : action Resp).

(** A step of a handler that is done, or not there, does nothing. *)
Definition act cfg a : config Resp :=
  match a with
  | Tick d => mkConfig (rows cfg) (clock cfg + Z.of_N d) (threads cfg) (history cfg)
  | Start p => mkConfig (rows cfg) (clock cfg) (threads cfg ++ [p]) (history cfg)
  | Step i o rnd =>
      match threads cfg !! i with
      | Some (Do c k) =>
          let '(r, t) := exec b o rnd (clock cfg) c (rows cfg) in
          mkConfig t (clock cfg) (<[i := k r]> (threads cfg))
            (history cfg ++ [(i, (clock cfg, event_of c r))])
      | _ => cfg
      end
  end.

Definition runs cfg (l : list (action Resp)) : config Resp := foldl act cfg l.

(** The calls of one handler. *)
Definition log (i : nat) (tr : trace) : list tevent :=
  omap (λ '(j, e), if decide (i = j) then Some e else None) tr.
End interleaving.
