(* ===== verification/KVSpec.v ===== *)
(** * Key-value stores: what holds of every interleaving

    [spec G h p Q]: whatever the store answers and however late, a program [p] that has made
    the calls [h] makes only calls that [G] allows, and ends with [Q].  It is proved of a
    handler alone; [run_thread] and [run_events] carry it to every pool of handlers, and the
    lemmas about [held] say what the calls of the others leave in the store. *)

From S2P Require Import Prelude GoStrings KV.

(** ** Programs *)

Definition after (h : list tevent) (t : Z) : Prop := Forall (λ e, e.1 ≤ t)%Z h.

(** The clock answers the time of the call. *)
Definition possible (t : Z) (ev : event) : Prop :=
  match ev with EvNow r => r = Ok t | _ => True end.

Section spec.
Context (G : list tevent → Z → event → Prop).

Fixpoint spec {E A} (h : list tevent) (p : prog E A) (Q : list tevent → result E A → Prop) : Prop :=
  match p with
  | Ret r => Q h r
  | Do c k => ∀ t r, after h t → possible t (event_of c r) →
      G h t (event_of c r) ∧ spec (h ++ [(t, event_of c r)]) (k r) Q
  end.

Section rules.
Context {E A : Type}.
Implicit Types (p : prog E A) (Q : list tevent → result E A → Prop).

Lemma sp_mono h p Q Q' :
  spec h p Q → (∀ h' r, h `prefix_of` h' → Q h' r → Q' h' r) → spec h p Q'.
Proof.
  revert h. induction p as [r|X c k IH]; intros h Hp HQ; simpl in *; [by apply HQ|].
  intros t r Ht Hr. destruct (Hp t r Ht Hr) as [HG Hk]. split; [done|].
  apply IH; [done|]. intros h' r' Hpre. apply HQ. etrans; [|exact Hpre]. by apply prefix_app_r.
Qed.

Lemma sp_ret h (r : result E A) Q : Q h r → spec h (Ret r) Q.
Proof. done. Qed.

Lemma sp_bind {B} h p (f : A → prog E B) (Q : list tevent → result E B → Prop) :
  spec h p (λ h' r, match r with Ok a => spec h' (f a) Q | Err e => Q h' (Err e) end) →
  spec h (p ≫= f) Q.
Proof.
  change (p ≫= f) with (bindp p f).
  revert h. induction p as [[a|e]|X c k IH]; intros h Hp; simpl in *; [done..|].
  intros t r Ht Hr. destruct (Hp t r Ht Hr) as [HG Hk]. split; [done|]. by apply IH.
Qed.

Lemma sp_try {E'} h p (Q : list tevent → result E' (result E A) → Prop) :
  spec h p (λ h' r, Q h' (Ok r)) → spec h (try p) Q.
Proof.
  revert h. induction p as [r|X c k IH]; intros h Hp; simpl in *; [done|].
  intros t r Ht Hr. destruct (Hp t r Ht Hr) as [HG Hk]. split; [done|]. by apply IH.
Qed.

Lemma sp_on_err {E'} (f : E → E') h p (Q : list tevent → result E' A → Prop) :
  spec h p (λ h' r, Q h' (map_err f r)) → spec h (on_err f p) Q.
Proof.
  revert h. induction p as [r|X c k IH]; intros h Hp; simpl in *; [done|].
  intros t r Ht Hr. destruct (Hp t r Ht Hr) as [HG Hk]. split; [done|]. by apply IH.
Qed.
End rules.

Lemma sp_call {X} h (c : op X) (Q : list tevent → result error X → Prop) :
  (∀ t r, after h t → possible t (event_of c r) →
     G h t (event_of c r) ∧ Q (h ++ [(t, event_of c r)]) r) → spec h (call c) Q.
Proof. done. Qed.

(** An invariant of a loop, over what it has gone through. *)
Lemma sp_fold {E A S} (f : S → A → prog E S) (I : list A → S → list tevent → Prop)
    l s h (Q : list tevent → result E S → Prop) :
  I [] s h →
  (∀ done a rest s h', l = done ++ a :: rest → h `prefix_of` h' → I done s h' →
     spec h' (f s a) (λ h2 r, match r with Ok s' => I (done ++ [a]) s' h2 | Err e => Q h2 (Err e) end)) →
  (∀ h' s', h `prefix_of` h' → I l s' h' → Q h' (Ok s')) → spec h (prog_fold f s l) Q.
Proof.
  intros HI Hf HQ.
  assert (∀ l' done s h', l = done ++ l' → h `prefix_of` h' → I done s h' → spec h' (prog_fold f s l') Q) as H.
  { induction l' as [|a l' IH]; intros done s' h' Hl Hp HI'; simpl.
    { apply sp_ret, HQ; [done|]. by rewrite app_nil_r in Hl; subst. }
    apply sp_bind. eapply sp_mono; [by apply (Hf done a l')|].
    intros h2 [s2|e] Hp2 H2; [|done]. apply (IH (done ++ [a])); [by rewrite <-(assoc_L (++))|by etrans|done]. }
  by apply (H l []).
Qed.

Lemma sp_clock {E} h (Q : list tevent → result E Z → Prop) :
  (∀ t, after h t → G h t (EvNow (Ok t)) ∧ Q (h ++ [(t, EvNow (Ok t))]) (Ok t)) → spec h get_now Q.
Proof. intros H t r Ht Hr. simpl in Hr. subst r. by apply H. Qed.
End spec.

Lemma sp_weaken {E A} (G G' : list tevent → Z → event → Prop) h (p : prog E A) Q :
  (∀ h t ev, G h t ev → G' h t ev) → spec G h p Q → spec G' h p Q.
Proof.
  intros HG. revert h. induction p as [r|X c k IH]; intros h Hp; simpl in *; [done|].
  intros t r Ht Hr. destruct (Hp t r Ht Hr) as [HG' Hk]. split; [by apply HG|]. by apply IH.
Qed.

Lemma after_snoc h t ev t' : after (h ++ [(t, ev)]) t' ↔ after h t' ∧ (t ≤ t')%Z.
Proof. unfold after. rewrite Forall_app, Forall_singleton. done. Qed.

#[global] Arguments spec : simpl never.

(** ** Runs *)

Section runs.
Context (b : Backend) {RO : RangeOrder} {Resp : Type}.
Implicit Types (cfg : config Resp) (l : list (action Resp)) (G : nat → list tevent → Z → event → Prop).

Definition init (t : table) (now : Z) : config Resp := mkConfig t now [] [].

(** The handlers in the order they were started. *)
Definition started l : list (handler Resp) :=
  omap (λ a, match a with Start p => Some p | _ => None end) l.

(** One call: what it was, what it answered, what it did. *)
Definition evolves (t : table) (now : Z) (ev : event) (t' : table) : Prop :=
  ∃ X (c : op X) o rnd r, ev = event_of c r ∧ exec b o rnd now c t = (r, t').

Fixpoint replay (t : table) (tr : trace) (t' : table) : Prop :=
  match tr with
  | [] => t' = t
  | (_, (now, ev)) :: tr => ∃ t1, evolves t now ev t1 ∧ replay t1 tr t'
  end.

Definition in_order (tr : trace) (now : Z) : Prop :=
  StronglySorted Z.le (map (λ e, e.2.1) tr) ∧ Forall (λ e, e.2.1 ≤ now)%Z tr.

Lemma replay_app t tr tr' t' : replay t (tr ++ tr') t' ↔ ∃ t1, replay t tr t1 ∧ replay t1 tr' t'.
Proof.
  revert t. induction tr as [|[i [now ev]] tr IH]; intros t; simpl; [naive_solver|].
  setoid_rewrite IH. naive_solver.
Qed.

Lemma log_app i tr tr' : log i (tr ++ tr') = log i tr ++ log i tr'.
Proof. apply omap_app. Qed.

Lemma log_same i t ev : log i [(i, (t, ev))] = [(t, ev)].
Proof. unfold log. simpl. by rewrite decide_True. Qed.

Lemma log_other i j t ev : i ≠ j → log i [(j, (t, ev))] = [].
Proof. intros H. unfold log. simpl. by rewrite decide_False. Qed.

Lemma elem_of_log i tr e : e ∈ log i tr ↔ (i, e) ∈ tr.
Proof.
  unfold log. rewrite list_elem_of_omap. split.
  - intros ([j e'] & Hin & He). case_decide; by simplify_eq.
  - intros Hin. exists (i, e). split; [done|]. by rewrite decide_True.
Qed.

Lemma after_log i tr now : in_order tr now → after (log i tr) now.
Proof.
  intros [_ Ho]. apply Forall_forall. intros [t ev] Hin. apply elem_of_log in Hin.
  rewrite Forall_forall in Ho. by apply Ho in Hin.
Qed.

Lemma in_order_snoc tr i now ev : in_order tr now → in_order (tr ++ [(i, (now, ev))]) now.
Proof.
  intros [Hs Ha]. split; [|apply Forall_app; split; [done|by repeat constructor]].
  rewrite map_app. apply StronglySorted_app_2; [|done|repeat constructor].
  intros x y Hx ->%list_elem_of_singleton. apply list_elem_of_fmap in Hx as (e & -> & He).
  rewrite Forall_forall in Ha. by apply Ha.
Qed.

Lemma in_order_le tr now now' : (now ≤ now')%Z → in_order tr now → in_order tr now'.
Proof. intros Hle [Hs Ha]. split; [done|]. eapply Forall_impl; [exact Ha|]. simpl. lia. Qed.

(** What is true of every reached configuration, when handler [i] keeps to [G i]. *)
Record reached (t0 : table) G (ps : list (handler Resp)) cfg : Prop := mkReached {
  reached_replay : replay t0 (history cfg) (rows cfg);
  reached_order : in_order (history cfg) (clock cfg);
  reached_length : length (threads cfg) = length ps;
  reached_thread i p p0 Q : threads cfg !! i = Some p → ps !! i = Some p0 →
    spec (G i) [] p0 Q → spec (G i) (log i (history cfg)) p Q;
  reached_started i e : (i, e) ∈ history cfg → (i < length ps)%nat;
  reached_events pre i t ev post : history cfg = pre ++ (i, (t, ev)) :: post →
    (∀ i p, ps !! i = Some p → spec (G i) [] p (λ _ _, True)) → G i (log i pre) t ev;
}.

Lemma runs_snoc cfg l a : runs b cfg (l ++ [a]) = act b (runs b cfg l) a.
Proof. unfold runs. by rewrite foldl_app. Qed.

Lemma started_snoc l a : started (l ++ [a]) = started l ++ match a with Start p => [p] | _ => [] end.
Proof. unfold started. rewrite omap_app. by destruct a. Qed.

Lemma possible_exec {X} (c : op X) o rnd now t r t' : exec b o rnd now c t = (r, t') → possible now (event_of c r).
Proof. destruct c; simpl; try done. destruct o; simpl; by intros [= <-]. Qed.

(** A handler's call keeps everything. *)
Lemma reached_call t0 G ps cfg i {X} (c : op X) (k : result error X → handler Resp) o rnd r t :
  reached t0 G ps cfg → threads cfg !! i = Some (Do c k) → exec b o rnd (clock cfg) c (rows cfg) = (r, t) →
  reached t0 G ps (mkConfig t (clock cfg) (<[i := k r]> (threads cfg))
    (history cfg ++ [(i, (clock cfg, event_of c r))])).
Proof.
  intros [Hr Ho Hl Ht Hs He] Hi Hexec.
  assert (i < length ps)%nat as Hlt by (rewrite <-Hl; by eapply lookup_lt_Some).
  pose proof (after_log i _ _ Ho) as Hafter. pose proof (possible_exec _ _ _ _ _ _ _ Hexec) as Hposs.
  split; simpl.
  - apply replay_app. exists (rows cfg). split; [done|]. exists t. split; [|done]. by exists X, c, o, rnd, r.
  - by apply in_order_snoc.
  - by rewrite length_insert.
  - intros j p p0 Q Hj Hp0 Hspec. rewrite log_app. destruct (decide (j = i)) as [->|Hne].
    + rewrite list_lookup_insert_eq in Hj by (eapply lookup_lt_Some; exact Hi). injection Hj as <-. rewrite log_same.
      by apply (Ht i _ p0 Q Hi Hp0 Hspec).
    + rewrite list_lookup_insert_ne in Hj by done. rewrite log_other, app_nil_r by done. by eapply Ht.
  - intros j e [Hin|Hin]%elem_of_app; [by eapply Hs|]. apply list_elem_of_singleton in Hin. by simplify_eq.
  - intros pre j t' ev post Heq HG. destruct post as [|e post _] using rev_ind.
    + apply app_inj_tail in Heq as [<- [= <- <- <-]].
      destruct (ps !! i) as [p0|] eqn:Hp0; [|by apply lookup_ge_None in Hp0; lia].
      pose proof (Ht i _ p0 _ Hi Hp0 (HG i p0 Hp0)) as Hk.
      by apply (Hk _ r Hafter Hposs).
    + rewrite app_comm_cons, (assoc_L (++)) in Heq. apply app_inj_tail in Heq as [Heq _]. by eapply He.
Qed.

Theorem runs_reached t0 now G l : reached t0 G (started l) (runs b (init t0 now) l).
Proof.
  induction l as [|a l IH] using rev_ind.
  { split; simpl; try done.
    - by repeat constructor.
    - intros i e Hin. set_solver.
    - intros pre i t ev post Heq. by destruct pre. }
  rewrite runs_snoc, started_snoc. set (cfg := runs b (init t0 now) l) in *. destruct a as [d|p|i o rnd]; simpl.
  - rewrite app_nil_r. destruct IH as [Hr Ho Hl Ht Hs He]. split; simpl; try done.
    eapply in_order_le; [|exact Ho]. lia.
  - destruct IH as [Hr Ho Hl Ht Hs He]. split; simpl; try done.
    + rewrite !length_app. simpl. f_equal. exact Hl.
    + intros j q q0 Q Hq Hq0 Hspec. destruct (decide (j < length (started l))%nat) as [Hlt|Hge].
      * rewrite lookup_app_l in Hq by (eapply Nat.lt_le_trans; [exact Hlt|by rewrite <-Hl]).
        rewrite lookup_app_l in Hq0 by done. by eapply Ht.
      * apply lookup_app_Some in Hq as [Hq|[_ Hq]]; [apply lookup_lt_Some in Hq; lia|].
        apply lookup_app_Some in Hq0 as [Hq0|[_ Hq0]]; [apply lookup_lt_Some in Hq0; lia|].
        rewrite Hl in Hq. apply list_lookup_singleton_Some in Hq as [_ <-].
        apply list_lookup_singleton_Some in Hq0 as [_ <-].
        assert (log j (history cfg) = []) as ->; [|done].
        destruct (log j (history cfg)) as [|e h] eqn:Hh; [done|].
        assert (e ∈ log j (history cfg)) as Hin by (rewrite Hh; set_solver).
        apply elem_of_log in Hin. apply Hs in Hin. lia.
    + intros j e Hin. rewrite length_app. apply Hs in Hin. lia.
    + intros pre j t ev post Heq HG. eapply He; [done|]. intros j' q Hq. by apply HG, lookup_app_l_Some.
  - rewrite app_nil_r. destruct (threads cfg !! i) as [[r|X c k]|] eqn:Hi; [done| |done].
    destruct (exec b o rnd (clock cfg) c (rows cfg)) as [r t] eqn:Hexec. by eapply reached_call.
Qed.

(** ** What comes later *)

Lemma runs_app cfg l l' : runs b cfg (l ++ l') = runs b (runs b cfg l) l'.
Proof. apply foldl_app. Qed.

(** The handlers of a configuration, and the calls since. *)
Record extends cfg cfg' (tr : trace) : Prop := mkExtends {
  extends_history : history cfg' = history cfg ++ tr;
  extends_replay : replay (rows cfg) tr (rows cfg');
  extends_later : Forall (λ e, clock cfg ≤ e.2.1)%Z tr;
  extends_clock : (clock cfg ≤ clock cfg')%Z;
  extends_idle i p : threads cfg !! i = Some p → log i tr = [] → threads cfg' !! i = Some p;
}.

Lemma runs_extends cfg l : ∃ tr, extends cfg (runs b cfg l) tr.
Proof.
  induction l as [|a l (tr & [Hh Hr Hl Hc Hi])] using rev_ind.
  { exists []. split; try done. by rewrite app_nil_r. }
  rewrite runs_snoc. set (cfg' := runs b cfg l) in *. destruct a as [d|p|i o rnd]; simpl.
  - exists tr. split; simpl; try done. lia.
  - exists tr. split; simpl; try done. intros j q Hj Htr. by apply lookup_app_l_Some, Hi.
  - destruct (threads cfg' !! i) as [[r|X c k]|] eqn:Ht; [by exists tr| |by exists tr].
    destruct (exec b o rnd (clock cfg') c (rows cfg')) as [r t] eqn:Hexec.
    exists (tr ++ [(i, (clock cfg', event_of c r))]). split; simpl; [|..|done|].
    + by rewrite Hh, (assoc_L (++)).
    + apply replay_app. exists (rows cfg'). split; [done|]. exists t. split; [|done]. by exists X, c, o, rnd, r.
    + apply Forall_app. split; [done|by repeat constructor].
    + intros j q Hj. rewrite log_app. intros [Htr Hlog]%app_nil. destruct (decide (j = i)) as [->|Hne].
      * by rewrite log_same in Hlog.
      * rewrite list_lookup_insert_ne by done. by apply Hi.
Qed.

(** What a handler that has answered did last, it did after it had not. *)
Lemma last_call_later cfg cfg' tr i r h e : extends cfg cfg' tr → threads cfg' !! i = Some (Ret r) →
  (∀ r', threads cfg !! i ≠ Some (Ret r')) → (threads cfg !! i = None → log i (history cfg) = []) →
  log i (history cfg') = h ++ [e] → (i, e) ∈ tr.
Proof.
  intros [Hh _ _ _ Hi] Ht Hno Hnew Hlog. apply elem_of_log. rewrite Hh, log_app in Hlog.
  destruct (log i tr) as [|e' h' _] eqn:Htr using rev_ind.
  - destruct (threads cfg !! i) as [p|] eqn:Hp.
    + rewrite (Hi i p Hp Htr) in Ht. simplify_eq. by destruct (Hno r).
    + rewrite app_nil_r, Hnew in Hlog by done. by destruct h.
  - rewrite (assoc_L (++)) in Hlog. apply app_inj_tail in Hlog as [_ ->]. set_solver.
Qed.

(** ** Entries *)

Implicit Types (t : table) (k : string * string).

(** The key has an entry, and not one that expires before [e]. *)
Definition held t k (e : Z) : Prop :=
  ∃ row, t !! k = Some row ∧ ∀ x, row.(ExpiresAt) = Some x → (e ≤ x)%Z.

(** A call that does not take such an entry away. *)
Definition keeps k (e : Z) (ev : tevent) : Prop :=
  match ev.2 with
  | EvDelete ns key _ => (ns, key) ≠ k
  | EvSet ns key _ ttl _ | EvAdd ns key _ ttl _ =>
      (ns, key) = k → ∀ x, expires_at b ev.1 ttl = Some x → (e ≤ x)%Z
  | _ => True
  end.

(** What a call that changes the store does, whether it reports a failure or not. *)
Lemma evolves_cases t now ev t' : evolves t now ev t' →
  t' = t ∨ match ev with
    | EvSet ns key v ttl _ => t' = kv_set b now ns key v ttl t
    | EvDelete ns key _ => t' = kv_delete ns key t
    | EvAdd ns key v ttl _ => kv_add b now ns key v ttl t = (true, t')
    | _ => False
    end.
Proof.
  intros (X & c & o & rnd & r & -> & Hexec). unfold exec in Hexec.
  destruct c; simpl in *; try (destruct o; simpl in *; simplify_eq; auto; fail).
  destruct (kv_add b now ns key value ttl t) as [created t1] eqn:Ha.
  assert (t1 = t ∨ created = true) as Hc.
  { unfold kv_add in Ha. destruct (match t !! _ with Some _ => _ | None => _ end); simplify_eq; auto. }
  destruct o; simpl in Hexec; simplify_eq; destruct Hc as [->| ->]; auto.
Qed.

(** A property of the rows that every call keeps. *)
Lemma replay_invariant (P : table → Prop) t tr t' :
  replay t tr t' → (∀ i now ev t1 t2, (i, (now, ev)) ∈ tr → evolves t1 now ev t2 → P t1 → P t2) → P t → P t'.
Proof.
  revert t. induction tr as [|[i [now ev]] tr IH]; intros t; simpl; [by intros ->|].
  intros (t1 & Hev & Hr) HP Ht. apply (IH t1); [done| |].
  - intros j n e t2 t3 Hin. apply (HP j). by apply list_elem_of_further.
  - eapply HP; [apply list_elem_of_here|done..].
Qed.

(** What a call may have done to a row. *)
Lemma evolves_row t now ev t' k : evolves t now ev t' →
  t' !! k = t !! k ∨ match ev with
    | EvSet ns key v ttl _ | EvAdd ns key v ttl _ => k = (ns, key) ∧ t' !! k = Some (mkEntry v (expires_at b now ttl))
    | EvDelete ns key _ => k = (ns, key) ∧ t' !! k = None
    | _ => False
    end.
Proof.
  intros [->|Hev]%evolves_cases; [by left|].
  assert (∀ ns key row, <[(ns, key) := row]> t !! k = t !! k ∨ k = (ns, key) ∧ <[(ns, key) := row]> t !! k = Some row) as Hins.
  { intros ns key row. destruct (decide (k = (ns, key))) as [->|]; [right; by rewrite lookup_insert_eq|].
    left. by rewrite lookup_insert_ne. }
  destruct ev as [|ns key v ttl r|ns key r|ns key v ttl r| | | |]; simpl in *; try done.
  - subst t'. apply Hins.
  - subst t'. unfold kv_delete. destruct (decide (k = (ns, key))) as [->|]; [right; by rewrite lookup_delete_eq|].
    left. by rewrite lookup_delete_ne.
  - unfold kv_add in Hev. destruct (match t !! _ with Some _ => _ | None => _ end); [done|]. injection Hev as <-.
    apply Hins.
Qed.

Lemma held_mono t k e e' : (e' ≤ e)%Z → held t k e → held t k e'.
Proof. intros He (row & Hrow & Hx). exists row. split; [done|]. intros x ?%Hx. lia. Qed.

Lemma held_set t now ns key v ttl e :
  (∀ x, expires_at b now ttl = Some x → e ≤ x)%Z → held (kv_set b now ns key v ttl t) (ns, key) e.
Proof. intros H. eexists. split; [apply lookup_insert_eq|exact H]. Qed.

Lemma held_other t k k' row e : k ≠ k' → held t k e → held (<[k' := row]> t) k e.
Proof. intros Hne (row0 & Hrow & Hx). exists row0. split; [|done]. by rewrite lookup_insert_ne. Qed.

Lemma held_evolves t now ev t' k e :
  evolves t now ev t' → keeps k e (now, ev) → held t k e → held t' k e.
Proof.
  intros [->|Hev]%evolves_cases Hk Hh; [done|].
  destruct ev as [| ns key v ttl r|ns key r|ns key v ttl r| | | |]; simpl in *; try done.
  - subst t'. destruct (decide ((ns, key) = k)) as [<-|Hne]; [by apply held_set, Hk|by apply held_other].
  - subst t'. destruct Hh as (row & Hrow & Hx). exists row. split; [|done]. by apply lookup_delete_Some.
  - unfold kv_add in Hev. destruct (match t !! _ with Some _ => _ | None => _ end); [done|]. injection Hev as <-.
    destruct (decide ((ns, key) = k)) as [<-|Hne]; [by apply held_set, Hk|by apply held_other].
Qed.

Lemma held_replay t tr t' k e :
  replay t tr t' → Forall (λ ev, keeps k e ev.2) tr → held t k e → held t' k e.
Proof.
  revert t. induction tr as [|[i [now ev]] tr IH]; intros t; simpl; [by intros ->|].
  intros (t1 & Hev & Hr) [Hk Htr]%Forall_cons Hh. apply (IH t1); [done..|]. by eapply held_evolves.
Qed.

(** The successful calls that leave an entry. *)
Lemma evolves_added t now ns key v ttl t' e :
  evolves t now (EvAdd ns key v ttl (Ok true)) t' →
  (∀ x, expires_at b now ttl = Some x → e ≤ x)%Z → held t' (ns, key) e.
Proof.
  intros (X & c & o & rnd & r & Hev & Hexec) He. destruct c; try discriminate Hev. simpl in Hev.
  injection Hev as <- <- <- <- Hr. subst r. unfold exec in Hexec. simpl in Hexec.
  destruct (kv_add b now ns key v ttl t) as [created t1] eqn:Ha.
  destruct o; simpl in Hexec; simplify_eq. unfold kv_add in Ha.
  destruct (match t !! _ with Some _ => _ | None => _ end); simplify_eq. by apply held_set.
Qed.

Lemma evolves_set t now ns key v ttl t' e :
  evolves t now (EvSet ns key v ttl (Ok tt)) t' →
  (∀ x, expires_at b now ttl = Some x → e ≤ x)%Z → held t' (ns, key) e.
Proof.
  intros (X & c & o & rnd & r & Hev & Hexec) He. destruct c; try discriminate Hev. simpl in Hev.
  injection Hev as <- <- <- <- Hr. subst r. unfold exec in Hexec. simpl in Hexec.
  destruct o; simpl in Hexec; simplify_eq; by apply held_set.
Qed.

(** An entry is added over one that has expired only, and only by a backend that does so. *)
Lemma held_added t now ns key v ttl t' e :
  held t (ns, key) e → evolves t now (EvAdd ns key v ttl (Ok true)) t' → b.(reuses) = true ∧ (e ≤ now)%Z.
Proof.
  intros (row & Hrow & Hx) (X & c & o & rnd & r & Hev & Hexec). destruct c; try discriminate Hev.
  simpl in Hev. injection Hev as <- <- <- <- Hr. subst r. unfold exec in Hexec. simpl in Hexec.
  unfold kv_add in Hexec. rewrite Hrow in Hexec.
  destruct (reuses b); [|by destruct o]. split; [done|]. unfold live in Hexec.
  destruct (ExpiresAt row) as [x|]; [|by destruct o].
  destruct (Z.ltb_spec now x); [by destruct o|]. specialize (Hx x eq_refl). lia.
Qed.

(** A live entry is found. *)
Lemma held_get t now ns key t' e err :
  held t (ns, key) e → (now < e)%Z → is_not_found err = true →
  evolves t now (EvGet ns key (Err err)) t' → False.
Proof.
  intros (row & Hrow & Hx) Hlt Herr (X & c & o & rnd & r & Hev & Hexec). destruct c; try discriminate Hev.
  simpl in Hev. injection Hev as <- <- Hr. subst r. unfold exec in Hexec. simpl in Hexec.
  unfold sql_get in Hexec. rewrite Hrow in Hexec. unfold live in Hexec.
  destruct (ExpiresAt row) as [x|]; [|by destruct o; simplify_eq].
  specialize (Hx x eq_refl). rewrite (proj2 (Z.ltb_lt now x)) in Hexec by lia. by destruct o; simplify_eq.
Qed.

(** What is read was written. *)
Lemma read_written t tr t' now ns key v t'' :
  replay t tr t' → evolves t' now (EvGet ns key (Ok v)) t'' →
  (∃ row, t !! (ns, key) = Some row ∧ row.(Value) = v)
  ∨ ∃ e, e ∈ tr ∧ match e.2.2 with
      | EvSet ns' key' v' _ _ | EvAdd ns' key' v' _ _ => ns' = ns ∧ key' = key ∧ v' = v
      | _ => False
      end.
Proof.
  intros Hr (X & c & o & rnd & r & Hev & Hexec).
  assert (∃ row, t' !! (ns, key) = Some row ∧ row.(Value) = v) as Hrow.
  { destruct c; try discriminate Hev. simpl in Hev. injection Hev as <- <- Hr'. subst r.
    unfold exec in Hexec. simpl in Hexec. unfold sql_get in Hexec.
    destruct (t' !! (ns, key)) as [row|]; [|by destruct o].
    destruct (live now row); [|by destruct o]. destruct o; simplify_eq; eauto. }
  clear Hev Hexec. revert t Hr. induction tr as [|[i [n ev]] tr IH]; intros t; simpl.
  { intros <-. by left. }
  intros (t1 & Hev & Hr). destruct (IH t1 Hr) as [(row & H1 & H2)|(e & He & Hw)].
  2: { right. exists e. split; [by apply list_elem_of_further|done]. }
  apply evolves_cases in Hev as [->|Hev]; [left; eauto|].
  destruct ev as [|ns' key' v' ttl r'|ns' key' r'|ns' key' v' ttl r'| | | |]; try done.
  - subst t1. unfold kv_set in H1. destruct (decide ((ns', key') = (ns, key))) as [[= -> ->]|Hne].
    + rewrite lookup_insert_eq in H1. simplify_eq. right. eexists. split; [apply list_elem_of_here|done].
    + rewrite lookup_insert_ne in H1 by done. left; eauto.
  - subst t1. unfold kv_delete in H1. apply lookup_delete_Some in H1 as [_ H1]. left; eauto.
  - unfold kv_add in Hev. destruct (match t !! (ns', key') with Some _ => _ | None => _ end); [done|].
    injection Hev as <-. unfold kv_set in H1. destruct (decide ((ns', key') = (ns, key))) as [[= -> ->]|Hne].
    + rewrite lookup_insert_eq in H1. simplify_eq. right. eexists. split; [apply list_elem_of_here|done].
    + rewrite lookup_insert_ne in H1 by done. left; eauto.
Qed.

(** An entry that was set is not missed before it expires. *)
Lemma set_not_missed t pre i ti ns key v ttl post t' j tj err e :
  replay t (pre ++ (i, (ti, EvSet ns key v ttl (Ok tt))) :: post) t' →
  (∀ x, expires_at b ti ttl = Some x → e ≤ x)%Z → (∀ ev, ev ∈ post → keeps (ns, key) e ev.2) →
  (j, (tj, EvGet ns key (Err err))) ∈ post → is_not_found err = true → (e ≤ tj)%Z.
Proof.
  intros (t1 & _ & t2 & Hset & Hpost)%replay_app He Hk Hin Herr.
  apply list_elem_of_split in Hin as (mid & post' & ->).
  apply replay_app in Hpost as (t3 & Hmid & t4 & Hget & _). apply Z.nlt_ge. intros Hlt.
  eapply (held_get t3); [|exact Hlt|exact Herr|exact Hget].
  eapply held_replay; [exact Hmid|apply Forall_forall; intros ev Hev; apply Hk; set_solver|].
  by eapply evolves_set.
Qed.

(** ** One-time use *)

(** Two handlers that both created the same entry, when every call keeps entries of this key
    until [e]: the second did it after [e], on a backend that reuses expired entries. *)
Lemma added_once t0 tr t1 now ns key e i j ti vi ttli tj vj ttlj :
  replay t0 tr t1 → in_order tr now → (∀ ev, ev ∈ tr → keeps (ns, key) e ev.2) → i ≠ j →
  (ti, EvAdd ns key vi ttli (Ok true)) ∈ log i tr → (tj, EvAdd ns key vj ttlj (Ok true)) ∈ log j tr →
  b.(reuses) = true ∧ (e ≤ now)%Z.
Proof.
  intros Hr [_ Hnow] Hk Hne Hi%elem_of_log Hj%elem_of_log.
  assert (∀ i j ti tj vi vj ttli ttlj pre mid post,
    tr = pre ++ (i, (ti, EvAdd ns key vi ttli (Ok true))) :: mid ++ (j, (tj, EvAdd ns key vj ttlj (Ok true))) :: post →
    b.(reuses) = true ∧ (e ≤ now)%Z) as H.
  { intros i' j' ti' tj' vi' vj' ttli' ttlj' pre mid post ->.
    apply replay_app in Hr as (t2 & _ & t3 & Hadd & (t4 & Hmid & t5 & Hadd' & _)%replay_app).
    destruct (held_added t4 tj' ns key vj' ttlj' t5 e) as [H1 H2]; [|done|].
    - eapply held_replay; [exact Hmid|apply Forall_forall; intros ev Hev; apply Hk; set_solver|].
      eapply evolves_added; [exact Hadd|].
      by apply (Hk (i', (ti', EvAdd ns key vi' ttli' (Ok true)))); [set_solver|].
    - split; [done|]. rewrite Forall_forall in Hnow.
      specialize (Hnow (j', (tj', EvAdd ns key vj' ttlj' (Ok true)))). simpl in Hnow.
      etrans; [exact H2|]. apply Hnow. set_solver. }
  apply list_elem_of_split in Hi as (pre & post & Htr).
  rewrite Htr in Hj. apply elem_of_app in Hj as [Hj|[Hj|Hj]%elem_of_cons].
  - apply list_elem_of_split in Hj as (pre' & mid & ->). rewrite <-(assoc_L (++)) in Htr. simpl in Htr. by eapply H.
  - by simplify_eq.
  - apply list_elem_of_split in Hj as (mid & post' & ->). by eapply H.
Qed.
End runs.

(** ** Rules for the common calls

    A history only grows, so what was in it stays. *)

Lemma elem_later (h h' : list tevent) e : h `prefix_of` h' → e ∈ h → e ∈ h'.
Proof. intros [k ->] ?. by apply elem_of_app; left. Qed.

Lemma elem_last (h : list tevent) e : e ∈ h ++ [e].
Proof. set_solver. Qed.

Lemma prefix_last (h : list tevent) e : h `prefix_of` h ++ [e].
Proof. by apply prefix_app_r. Qed.

Lemma after_elem h t t0 ev : after h t → (t0, ev) ∈ h → (t0 ≤ t)%Z.
Proof. unfold after. rewrite Forall_forall. intros H Hin. by apply (H _ Hin). Qed.

(** Close a goal that a fact about an earlier history settles. *)
Ltac still :=
  match goal with
  | |- ?h `prefix_of` ?h => reflexivity
  | |- _ `prefix_of` _ ++ [_] => first [eassumption | apply prefix_last | etrans; [|apply prefix_last]; still]
  | |- _ `prefix_of` _ => first [eassumption | etrans; [|eassumption]; still]
  | |- _ ∈ _ ++ [_] => first [apply elem_last | eapply elem_later; [apply prefix_last|]; still]
  | |- _ ∈ _ => first [eassumption | eapply elem_later; [eassumption|]; still]
  end.

(** Calls that only read. *)
Definition quiet (ev : event) : Prop :=
  match ev with EvSet _ _ _ _ _ | EvDelete _ _ _ | EvAdd _ _ _ _ _ => False | _ => True end.

Section quiet_rules.
Context (G : list tevent → Z → event → Prop) (G_quiet : ∀ h t ev, quiet ev → G h t ev).
Abbreviation spec := (spec G).

Lemma sp_now {E} h (Q : list tevent → result E Z → Prop) :
  (∀ t h', h `prefix_of` h' → after h t → (t, EvNow (Ok t)) ∈ h' → Q h' (Ok t)) → spec h get_now Q.
Proof. intros H. apply sp_clock. intros t Ht. split; [by apply G_quiet|]. apply H; [still|done|still]. Qed.

Lemma sp_quiet {X} h (c : op X) (Q : list tevent → result error X → Prop) :
  (∀ r, quiet (event_of c r)) → (∀ t r, Q (h ++ [(t, event_of c r)]) r) → spec h (call c) Q.
Proof. intros Hq H. apply sp_call. intros t r _ _. split; [by apply G_quiet|apply H]. Qed.

(** A program whose failures do not matter. *)
Lemma sp_try_any {E E' A} h (p : prog E A) (Q : list tevent → result E' (result E A) → Prop) :
  spec h p (λ h' r, Q h' (Ok r)) → spec h (try p) Q.
Proof. apply sp_try. Qed.
End quiet_rules.
