(* ===== verification/AuthStore.v ===== *)
(** * What ayato keeps of its users (ayato/repository, ayato/service/auth.go, revoke.go)

    The repositories over the key-value store: one-time consumption, the deny lists of tokens
    and sessions, device authorizations, log tokens and the list of administrators.  The
    JSON forms of the stored records are parameters.  [adminMu] orders the administrators'
    changes of one process only, and is not modelled: interleavings stand for all processes. *)

From S2P Require Import Prelude GoStrings KV.

Definition one_byte : string := String "001" "".

(** A miss is no error ([getOptional]). *)
Definition getOptional (ns key errorContext : string) : prog error (option string) :=
  r ← try (call (Get ns key));
  match r with
  | Ok v => mret (Some v)
  | Err e => if is_not_found e then mret None else throw (WrapErr e errorContext)
  end.

(** ** One-time consumption (replayrepo.go) *)

Record consumptionPolicy := mkConsumption { cp_namespace : string; emptyError : string; errorContext : string }.

Definition replayConsumption := mkConsumption ReplayCodes "replay: empty id" "replay: consume".
Definition tokenConsumption := mkConsumption TokenDenylist "deny: empty jti" "deny: consume jti".
Definition spentDeviceConsumption := mkConsumption SpentDevices "device: empty device code" "device: consume".
Definition spentLogTokenConsumption := mkConsumption SpentLogTokens "logtoken: empty token" "logtoken: consume".

Definition consume (p : consumptionPolicy) (key : string) (ttl : Z) : prog error bool :=
  if decide (key = "") then throw (ErrEmpty p.(emptyError))
  else if (ttl <=? 0)%Z then mret false
  else
    ok ← call Adder;
    if negb ok then throw ErrNotAtomic
    else wrap p.(errorContext) (call (Add p.(cp_namespace) key one_byte ttl)).

(** ** Revocation (denylistrepo.go, service/revoke.go) *)

Record revocationPolicy := mkRevocation { rp_namespace : string; field : string }.

Definition tokenRevocations := mkRevocation TokenDenylist "jti".
Definition sessionRevocations := mkRevocation SessionDenylist "session id".

Definition revoke (p : revocationPolicy) (id : string) (ttl : Z) : prog error unit :=
  if decide (id = "") then throw (ErrEmpty ("deny: empty " +:+ p.(field)))
  else if (ttl <=? 0)%Z then mret tt
  else call (Set_ p.(rp_namespace) id one_byte ttl).

Definition isRevoked (p : revocationPolicy) (id : string) : prog error bool :=
  if decide (id = "") then mret false
  else v ← getOptional p.(rp_namespace) id "deny: check id"; mret (bool_decide (is_Some v)).

Section service.
(** Whether the service was given a deny list. *)
Context (denylist : bool).

Definition IsRevoked (jti : string) : prog error bool :=
  if denylist then isRevoked tokenRevocations jti else mret false.
Definition IsSessionRevoked (sessionID : string) : prog error bool :=
  if denylist then isRevoked sessionRevocations sessionID else mret false.
Definition Revoke (jti : string) (ttl : Z) : prog error unit :=
  if denylist then revoke tokenRevocations jti ttl else throw ErrNotConfigured.
Definition RevokeSession (sessionID : string) (ttl : Z) : prog error unit :=
  if denylist then revoke sessionRevocations sessionID ttl else throw ErrNotConfigured.
Definition ConsumeRefreshToken (jti : string) (ttl : Z) : prog error bool :=
  if denylist then consume tokenConsumption jti ttl else throw ErrNotConfigured.
End service.

(** ** Device authorizations (devicerepo.go, devicerepo_storage.go) *)

Definition DevicePending : string := "pending".
Definition DeviceApproved : string := "approved".
Definition DeviceDenied : string := "denied".

(** [dr_ExpiresAt] is in seconds. *)
Record deviceRecord := mkDevice {
  dr_DeviceCode : string;
  dr_UserCode : string;
  dr_Status : string;
  dr_GitHubID : Z;
  dr_Login : string;
  dr_ExpiresAt : Z;
}.
#[export] Instance eta_deviceRecord : Eta deviceRecord := λ r,
  mkDevice r.(dr_DeviceCode) r.(dr_UserCode) r.(dr_Status) r.(dr_GitHubID) r.(dr_Login) r.(dr_ExpiresAt).

(** [time.Unix]. *)
Definition unix (seconds : Z) : Z := seconds * second.

Section devices.
Context (encode : deviceRecord → string) (decode : string → option deviceRecord).

Definition putByCode (deviceCode : string) (record : deviceRecord) (ttl : Z) : prog error unit :=
  wrap "device: store record" (call (Set_ Devices deviceCode (encode record) ttl)).

Definition getByCode (deviceCode : string) : prog error (option deviceRecord) :=
  if decide (deviceCode = "") then mret None
  else
    raw ← getOptional Devices deviceCode "device: get record";
    match raw with
    | None => mret None
    | Some raw =>
        match decode raw with
        | None => throw (WrapErr ErrCodec "device: unmarshal record")
        | Some record =>
            now ← get_now;
            if (unix record.(dr_ExpiresAt) <? now)%Z then mret None else mret (Some record)
        end
    end.

Definition getByUserCode (userCode : string) : prog error (option deviceRecord) :=
  if decide (userCode = "") then mret None
  else
    code ← getOptional DeviceUserIndex userCode "device: get user index";
    match code with None => mret None | Some code => getByCode code end.

Definition CreateDevice (deviceCode userCode : string) (ttl : Z) : prog error unit :=
  if decide (deviceCode = "" ∨ userCode = "") then throw (ErrEmpty "device: empty device or user code")
  else
    now ← get_now;
    _ ← putByCode deviceCode (mkDevice deviceCode userCode DevicePending 0 "" ((now + ttl) / second)%Z) ttl;
    wrap "device: index user code" (call (Set_ DeviceUserIndex userCode deviceCode ttl)).

Definition LookupByUserCode (userCode : string) : prog error (option string) :=
  r ← getByUserCode userCode; mret (option_map dr_Status r).

(** [false]: the record is absent or expired. *)
Definition transition (userCode : string) (mutate : deviceRecord → deviceRecord) : prog error bool :=
  r ← getByUserCode userCode;
  match r with
  | None => mret false
  | Some rec =>
      now ← get_now;
      let ttl := (unix rec.(dr_ExpiresAt) - now)%Z in
      if (ttl <=? 0)%Z then mret false
      else _ ← putByCode rec.(dr_DeviceCode) (mutate rec) ttl; mret true
  end.

Definition approve (githubID : Z) (login : string) (rec : deviceRecord) : deviceRecord :=
  rec <| dr_Status := DeviceApproved |> <| dr_GitHubID := githubID |> <| dr_Login := login |>.

Definition ApproveDevice (userCode : string) (githubID : Z) (login : string) : prog error bool :=
  transition userCode (approve githubID login).

Definition DenyDevice (userCode : string) : prog error bool :=
  transition userCode (λ rec, rec <| dr_Status := DeviceDenied |>).

Definition PollDevice (deviceCode : string) : prog error (option (string * Z * string)) :=
  r ← getByCode deviceCode;
  mret (option_map (λ rec, (rec.(dr_Status), rec.(dr_GitHubID), rec.(dr_Login))) r).

Definition ConsumeDevice (deviceCode : string) : prog error bool :=
  r ← getByCode deviceCode;
  match r with
  | None => mret false
  | Some rec =>
      now ← get_now;
      let ttl := (unix rec.(dr_ExpiresAt) - now)%Z in
      if (ttl <=? 0)%Z then mret false
      else
        created ← consume spentDeviceConsumption deviceCode ttl;
        if negb created then mret false
        else
          _ ← try (E := error) (call (Delete DeviceUserIndex rec.(dr_UserCode)));
          _ ← try (E := error) (call (Delete Devices deviceCode));
          mret true
  end.
End devices.

(** ** Log tokens (logtokenrepo.go) *)

Record logTokenRecord := mkLogToken { lt_JobID : string; lt_ExpiresAt : Z }.

Section log_tokens.
Context (encode : logTokenRecord → string) (decode : string → option logTokenRecord).

Definition StoreLogToken (token jobID : string) (ttl : Z) : prog error unit :=
  if decide (token = "" ∨ jobID = "") then throw (ErrEmpty "logtoken: empty token or job id")
  else
    now ← get_now;
    wrap "logtoken: store" (call (Set_ LogTokens token (encode (mkLogToken jobID ((now + ttl) / second)%Z)) ttl)).

(** A value that is no record is the job of a token of an older version. *)
Definition log_token_record (v : string) : prog error logTokenRecord :=
  match decode v with
  | Some record => mret record
  | None => now ← get_now; mret (mkLogToken v ((now + minute) / second)%Z)
  end.

Definition ConsumeLogToken (token : string) : prog error (option string) :=
  if decide (token = "") then mret None
  else
    v ← getOptional LogTokens token "logtoken: get";
    match v with
    | None => mret None
    | Some v =>
        record ← log_token_record v;
        now ← get_now;
        let ttl := (unix record.(lt_ExpiresAt) - now)%Z in
        if bool_decide (record.(lt_JobID) = "") || (ttl <=? 0)%Z then mret None
        else
          created ← consume spentLogTokenConsumption token ttl;
          if negb created then mret None
          else _ ← try (E := error) (call (Delete LogTokens token)); mret (Some record.(lt_JobID))
    end.
End log_tokens.

(** ** Administrators (authrepo.go, service/auth.go) *)

Record AllowedAdmin := mkAdmin { ad_ID : Z; ad_Login : string }.

Definition repo_AddAdmin (id : Z) (login : string) : prog error unit :=
  if (id <=? 0)%Z then throw ErrInvalidID else call (Set_ AdminAllowlist (format_int id) login 0).

Definition repo_RemoveAdmin (id : Z) : prog error unit :=
  if (id <=? 0)%Z then throw ErrInvalidID else call (Delete AdminAllowlist (format_int id)).

(** Any error counts as no. *)
Definition IsAdmin {E} (id : Z) : prog E bool :=
  if (id <=? 0)%Z then mret false
  else r ← try (call (Get AdminAllowlist (format_int id))); mret (is_ok r).

Definition admin_of_entry (e : string * string) : option AllowedAdmin :=
  (λ id, mkAdmin id e.2) <$> parse_int e.1.

Definition ListAdmins : prog error (list AllowedAdmin) :=
  entries ← wrap "auth: list allowlist" (call (List AdminAllowlist));
  mret (omap (M:=list) admin_of_entry entries).

Definition AddAdmin := repo_AddAdmin.

Definition RemoveAdmin (id : Z) : prog error unit :=
  admins ← wrap "auth: list allowlist for removal" ListAdmins;
  match admins with
  | [a] => if decide (a.(ad_ID) = id) then throw (WrapErr ErrConflict "cannot remove the last admin")
           else repo_RemoveAdmin id
  | _ => repo_RemoveAdmin id
  end.

Definition SeedBootstrapAdmin (id : Z) : prog error unit :=
  if (id <=? 0)%Z then mret tt
  else
    admins ← wrap "auth: list allowlist for seed" ListAdmins;
    match admins with
    | [] => wrap "auth: seed bootstrap admin" (repo_AddAdmin id "")
    | _ => mret tt
    end.
