(* ===== verification/AuthFlow.v ===== *)
(** * Logging in, refreshing and logging out (ayato/handler, ayato/auth, ayato/middleware)

    The handlers of the authentication routes and the middleware of the protected ones, as
    programs over the key-value store: the device flow of RFC 8628, the OAuth callback, one-time
    codes, refresh tokens and revocation.  A request is what the handler reads of it; the answer
    of GitHub to an OAuth code, the origin check of the browser and the decoding of the request
    body are parts of it.  HMAC, SHA-256, the PKCE challenge and the JSON forms are parameters. *)

From S2P Require Import Prelude GoStrings Base64 Token CIAuth KV AuthStore.

(** [NewOpaqueToken] and [NewUserCode] (auth/store.go). *)
Definition NewOpaqueToken (byteLength : nat) : prog error string :=
  b ← call (Random byteLength); mret (base64_encode b).

Definition NewState := NewOpaqueToken 32.
Definition NewJTI := NewOpaqueToken 16.
Definition NewDeviceCode := NewOpaqueToken 32.

Definition userCodeAlphabet : string := "BCDFGHJKLMNPQRSTVWXZ".

Fixpoint user_code (i : nat) (b : string) : string :=
  match b with
  | EmptyString => ""
  | String v b =>
      (if decide (0 < i ∧ i mod 4 = 0) then "-" else "")
      +:+ String (default "B"%char (String.get (N.to_nat (byte v mod 20)) userCodeAlphabet)) (user_code (S i) b)
  end%nat.

Definition NewUserCode : prog error string := b ← call (Random 8); mret (user_code 0 b).

(** The letters A to Z of [strings.ToUpper]: beside the ASCII letters, the upper case of U+0131
    is I and that of U+017F is S. *)
Definition upper (c : ascii) : ascii :=
  if ((97 <=? byte c) && (byte c <=? 122))%N then ascii_of_N (byte c - 32) else c.

Fixpoint letters (s : string) : string :=
  match s with
  | EmptyString => ""
  | String "196" (String "177" s) => String "I" (letters s)
  | String "197" (String "191" s) => String "S" (letters s)
  | String c s => let c := upper c in
      if ((65 <=? byte c) && (byte c <=? 90))%N then String c (letters s) else letters s
  end.

Definition normalizeUserCode (value : string) : string :=
  let l := letters value in
  if decide (String.length l = 8%nat) then str_take 4 l +:+ "-" +:+ str_drop 4 l else l.

Definition sessionTTL : Z := 7 * 24 * hour.
Definition bearerTTL : Z := 7 * 24 * hour.
Definition codeTTL : Z := 60 * second.
Definition stateTTL : Z := 10 * minute.
Definition deviceCodeTTL : Z := 10 * minute.
Definition deviceInterval : Z := 5 * second.
Definition logTokenTTL : Z := 60 * second.

Definition sessionFamilyID (c : Claims) : string :=
  if decide (c.(SessionID) ≠ "") then c.(SessionID) else c.(JTI).

(** ** Requests and answers *)

Inductive CredentialSource := ViaSession | ViaBearer | ViaBasic.
Record Identity := mkIdentity { i_GitHubID : Z; i_Login : string; i_Via : CredentialSource }.

(** The session cookie, the headers, the password of Basic authentication, and whether the
    browser's signals say that the request comes from an allowed origin. *)
Record Request := mkRequest {
  cookie : option string;
  header : Header;
  basic : option string;
  sameOrigin : bool;
}.

Record githubUser := mkUser { u_ID : Z; u_Login : string }.

Inductive Response :=
| AuthError (status : Z) (message : string)
| TokenPair (token refresh_token : string) (expires_in : Z) (login : string) (id : Z)
| WebToken (token login : string) (id : Z)
| DeviceCodes (device_code user_code : string) (expires_in interval : Z)
| DeviceForm (status : Z) (user_code : string)
| DeviceMessage (status : Z)
| ToGitHub (state : string) (nonce : option string)
| ToLoopback (port : Z) (code state : string)
| WebBridge (code state : string)
| Session (value : string)
| AuthOK
| Me (who : option (Z * string))
| LogToken (token : string)
| Aborted (status : Z) (expired_hint : bool)
| Next (who : option Identity) (ci : option CIPrincipal).

Abbreviation page := (prog Response).

Definition fail {A} (status : Z) (message : string) : page A := throw (AuthError status message).
Definition or_fail {A} (status : Z) (message : string) : prog error A → page A :=
  on_err (λ _, AuthError status message).
Definition or_abort {A} (status : Z) : prog error A → page A := on_err (λ _, Aborted status false).

(** [AuthSettings] and the parts [AuthHandler] and [Middleware] were given. *)
Record Server := mkServer {
  signer : option Signer;
  oauth : bool;
  replay_guard : bool;
  device_store : bool;
  deny_list : bool;
  admin_list : bool;
  log_tokens : bool;
  spa_origin : bool;
  legacy_basic : bool;
  AccessTokenTTL : Z;
  RefreshTokenTTL : Z;
  ci : option CIAuthorizer;
}.

Section handlers.
Context (hmac : string → string → string).
Context (marshal : Claims → option string) (unmarshal : string → option Claims).
Context (encode_device : deviceRecord → string) (decode_device : string → option deviceRecord).
Context (encode_log : logTokenRecord → string) (decode_log : string → option logTokenRecord).
Context (HashHex S256 : string → string) (verify_oidc : string → option oidcClaims).
Context {R : RangeOrder} (h : Server).

Definition sign (s : Signer) (c : Claims) : prog error string :=
  of_result (map_err (λ _, ErrCodec) (Sign hmac marshal s c)).

(** [VerifyTyp] reads the clock once the signature is good. *)
Definition verify_typ {E} (s : Signer) (token typ : string) : prog E (result auth_error Claims) :=
  match parse hmac unmarshal s token with
  | Err e => mret (Err e)
  | Ok _ => now ← get_now; mret (VerifyTyp hmac unmarshal s now token typ)
  end.

Definition or_fail_auth {A} (status : Z) (message : string) (r : result auth_error A) : page A :=
  of_result (map_err (λ _, AuthError status message) r).

Definition require_signer (message : string) : page Signer :=
  of_result (result_of_option (AuthError 503 message) h.(signer)).

Definition require_body {A} (body : option A) : page A :=
  of_result (result_of_option (AuthError 400 "invalid request") body).

(** ** Token pairs (refresh.go) *)

Definition issueAccessRefreshForSession (s : Signer) (githubID : Z) (login sessionID : string)
    (refreshExpiresAt : Z) : prog error (string * string * Z) :=
  now ← get_now;
  if bool_decide (sessionID = "") || (refreshExpiresAt <=? now)%Z then throw ErrCodec
  else
    accessJTI ← NewJTI;
    now ← get_now;
    access ← sign s (no_claims <| Typ := TypCLI |> <| GitHubID := githubID |> <| Login := login |>
      <| c_Name := "cli" |> <| JTI := accessJTI |> <| SessionID := sessionID |>
      <| Exp := (now + h.(AccessTokenTTL))%Z |>);
    refreshJTI ← NewJTI;
    refresh ← sign s (no_claims <| Typ := TypRefresh |> <| GitHubID := githubID |> <| Login := login |>
      <| JTI := refreshJTI |> <| SessionID := sessionID |> <| Exp := refreshExpiresAt |>);
    mret (access, refresh, h.(AccessTokenTTL) / second)%Z.

Definition issueAccessRefresh (s : Signer) (githubID : Z) (login : string) : prog error (string * string * Z) :=
  sessionID ← NewJTI;
  now ← get_now;
  issueAccessRefreshForSession s githubID login sessionID (now + h.(RefreshTokenTTL))%Z.

Definition respondTokenPair (pair : string * string * Z) (login : string) (id : Z) : page Response :=
  let '(access, refresh, expiresIn) := pair in mret (TokenPair access refresh expiresIn login id).

Definition require_live_session (sessionID : string) : page unit :=
  revoked ← or_fail 503 "refresh unavailable" (IsSessionRevoked h.(deny_list) sessionID);
  if revoked : bool then fail 401 "invalid_grant" else mret tt.

Definition RefreshHandler (body : option string) : page Response :=
  s ← require_signer "auth not configured";
  token ← require_body body;
  r ← verify_typ s token TypRefresh;
  rec ← or_fail_auth 401 "invalid_grant" r;
  if decide (rec.(JTI) = "") then fail 401 "invalid_grant" else
  let sessionID := sessionFamilyID rec in
  _ ← require_live_session sessionID;
  admin ← IsAdmin rec.(GitHubID);
  if negb admin then fail 403 "not allowed" else
  pair ← or_fail 500 "token" (issueAccessRefreshForSession s rec.(GitHubID) rec.(Login) sessionID rec.(Exp));
  now ← get_now;
  consumed ← or_fail 503 "refresh unavailable"
    (ConsumeRefreshToken h.(deny_list) rec.(JTI) (rec.(Exp) - now)%Z);
  if negb consumed then fail 401 "invalid_grant" else
  _ ← require_live_session sessionID;
  respondTokenPair pair rec.(Login) rec.(GitHubID).

(** ** Revocation (revoke.go, oauth_session.go) *)

Definition presented (s : Signer) (token : option string) (typ : string) : page (option Claims) :=
  match token with
  | None => mret None
  | Some token => r ← verify_typ s token typ; mret (match r with Ok c => Some c | Err _ => None end)
  end.

Definition has_jti (c : option Claims) : bool :=
  match c with Some c => negb (bool_decide (c.(JTI) = "")) | None => false end.

(** One presented token: its id is denied, its family noted with the longest time. *)
Definition revoke_claims (families : gmap string Z) (c : Claims) : page (gmap string Z) :=
  _ ← (if decide (c.(JTI) = "") then mret tt
       else now ← get_now; or_fail 500 "revoke failed" (Revoke h.(deny_list) c.(JTI) (c.(Exp) - now)%Z));
  let family := sessionFamilyID c in
  if decide (family = "") then mret families
  else
    now ← get_now;
    let ttl := Z.max h.(RefreshTokenTTL) (c.(Exp) - now) in
    mret (if (default 0 (families !! family) <? ttl)%Z then <[family := ttl]> families else families).

Definition revoke_families (families : gmap string Z) : page unit :=
  prog_fold (λ _ '(family, ttl), or_fail 500 "revoke failed" (RevokeSession h.(deny_list) family ttl)) tt
    (range_map families).

Definition RevokeCLIHandler (hd : Header) (refresh_token : string) : page Response :=
  s ← require_signer "revocation not configured";
  access ← presented s (BearerToken hd) TypCLI;
  refresh ← presented s (if decide (refresh_token = "") then None else Some refresh_token) TypRefresh;
  if bool_decide (access = None) && bool_decide (refresh = None) then fail 401 "invalid token"
  else if negb (has_jti access) && negb (has_jti refresh)
  then fail 409 "token has no jti; re-login to mint a revocable token"
  else
    families ← prog_fold revoke_claims ∅ (omap (M:=list) id [access; refresh]);
    _ ← revoke_families families;
    mret AuthOK.

Fixpoint revokePresentedAccess (s : Signer) (token : string) (types : list string) : page unit :=
  match types with
  | [] => mret tt
  | typ :: types =>
      r ← verify_typ s token typ;
      match r with
      | Err _ => revokePresentedAccess s token types
      | Ok c =>
          if decide (c.(JTI) = "") then revokePresentedAccess s token types
          else
            now ← get_now;
            _ ← or_fail 503 "revocation store" (Revoke h.(deny_list) c.(JTI) (c.(Exp) - now)%Z);
            if bool_decide (typ = TypCLI) && negb (bool_decide (c.(SessionID) = ""))
            then or_fail 503 "revocation store" (RevokeSession h.(deny_list) c.(SessionID) h.(RefreshTokenTTL))
            else mret tt
      end
  end.

Definition LogoutHandler (q : Request) : page Response :=
  if negb q.(sameOrigin) then throw (Aborted 403 false) else
  _ ← (match h.(signer), BearerToken q.(header) with
       | Some s, Some token => revokePresentedAccess s token [TypBearer; TypCLI]
       | _, _ => mret tt
       end);
  mret AuthOK.

(** ** One-time codes (oauth_exchange.go) *)

Definition consumeCode (code : string) (c : Claims) : page unit :=
  if negb h.(replay_guard) then mret tt
  else
    now ← get_now;
    firstUse ← or_fail 500 "token" (consume replayConsumption (HashHex code) (c.(Exp) - now)%Z);
    if negb firstUse then fail 400 "invalid or used code" else mret tt.

(** The body holds the code and the verifier. *)
Definition redeemCode (s : Signer) (body : option (string * string)) (tokenType : string) : page Claims :=
  '(code, verifier) ← require_body body;
  r ← verify_typ s code tokenType;
  c ← or_fail_auth 400 "invalid or used code" r;
  if negb (VerifyPKCE S256 verifier c.(Challenge)) then fail 400 "pkce verification failed" else
  admin ← IsAdmin c.(GitHubID);
  if negb admin then fail 403 "not allowed" else
  _ ← consumeCode code c;
  mret c.

Definition CLIExchangeHandler (body : option (string * string)) : page Response :=
  s ← require_signer "auth not configured";
  c ← redeemCode s body TypCodeCLI;
  pair ← or_fail 500 "token" (issueAccessRefresh s c.(GitHubID) c.(Login));
  respondTokenPair pair c.(Login) c.(GitHubID).

Definition WebExchangeHandler (body : option (string * string)) : page Response :=
  s ← require_signer "auth not configured";
  c ← redeemCode s body TypCodeWeb;
  jti ← or_fail 500 "token" NewJTI;
  now ← get_now;
  token ← or_fail 500 "token" (sign s (no_claims <| Typ := TypBearer |> <| GitHubID := c.(GitHubID) |>
    <| Login := c.(Login) |> <| c_Name := "web" |> <| JTI := jti |> <| Exp := (now + bearerTTL)%Z |>));
  mret (WebToken token c.(Login) c.(GitHubID)).

(** ** The device flow (device.go, device_token.go) *)

Definition oauthConfigured : bool := bool_decide (is_Some h.(signer)) && h.(oauth).

Definition require_oauth : page Signer :=
  match h.(signer) with
  | Some s => if h.(oauth) then mret s else fail 503 "github login not configured"
  | None => fail 503 "github login not configured"
  end.

Definition requireDeviceAuthorization : page Signer :=
  match h.(signer) with
  | Some s => if h.(oauth) && h.(device_store) then mret s else fail 503 "device login not configured"
  | None => fail 503 "device login not configured"
  end.

Definition DeviceCodeHandler : page Response :=
  _ ← requireDeviceAuthorization;
  deviceCode ← or_fail 500 "device code" NewDeviceCode;
  userCode ← or_fail 500 "user code" NewUserCode;
  _ ← or_fail 500 "device store" (CreateDevice encode_device deviceCode userCode deviceCodeTTL);
  mret (DeviceCodes deviceCode userCode (deviceCodeTTL / second) (deviceInterval / second)).

Definition DeviceApproveHandler (user_code : string) : page Response :=
  s ← requireDeviceAuthorization;
  let userCode := normalizeUserCode user_code in
  status ← or_fail 500 "device store" (LookupByUserCode decode_device userCode);
  match status with
  | None => mret (DeviceForm 404 userCode)
  | Some status =>
      if decide (status ≠ DevicePending) then mret (DeviceMessage 200)
      else
        nonce ← or_fail 500 "state" NewState;
        now ← get_now;
        state ← or_fail 500 "state" (sign s (no_claims <| Typ := TypState |> <| Device := true |>
          <| c_UserCode := userCode |> <| Binding := HashHex nonce |> <| Exp := (now + stateTTL)%Z |>));
        mret (ToGitHub state (Some nonce))
  end.

Definition finishDeviceLogin (st : Claims) (user : githubUser) : page Response :=
  if negb h.(device_store) then fail 503 "device login not configured" else
  ok ← or_fail 500 "device store"
    (ApproveDevice encode_device decode_device st.(c_UserCode) user.(u_ID) user.(u_Login));
  mret (DeviceMessage (if ok : bool then 200 else 410)).

Definition denyDeviceLogin (st : Claims) : page Response :=
  _ ← (if h.(device_store)
       then _ ← try (DenyDevice encode_device decode_device st.(c_UserCode)); mret tt
       else mret tt);
  mret (DeviceMessage 403).

Definition issueDeviceToken (s : Signer) (deviceCode : string) (githubID : Z) (login : string) : page Response :=
  admin ← IsAdmin githubID;
  if negb admin then fail 400 "access_denied" else
  pair ← or_fail 500 "token" (issueAccessRefresh s githubID login);
  consumed ← or_fail 503 "device store" (ConsumeDevice decode_device deviceCode);
  if negb consumed then fail 400 "expired_token" else
  respondTokenPair pair login githubID.

(** A poll too soon after the last one; an error of the guard lets it through. *)
Definition poll_spacing (device_code : string) : page unit :=
  if negb h.(replay_guard) then mret tt
  else
    r ← try (consume replayConsumption ("devpoll:" +:+ device_code) deviceInterval);
    match r with
    | Ok firstUse => if negb firstUse then fail 400 "slow_down" else mret tt
    | Err _ => mret tt
    end.

Definition DeviceTokenHandler (body : option string) : page Response :=
  match h.(signer) with
  | None => fail 503 "device login not configured"
  | Some s =>
      if negb h.(device_store) then fail 503 "device login not configured" else
      device_code ← require_body body;
      _ ← poll_spacing device_code;
      r ← or_fail 500 "device store" (PollDevice decode_device device_code);
      match r with
      | None => fail 400 "expired_token"
      | Some (status, githubID, login) =>
          if decide (status = DeviceApproved) then issueDeviceToken s device_code githubID login
          else if decide (status = DeviceDenied) then fail 400 "access_denied"
          else fail 400 "authorization_pending"
      end
  end.

(** ** GitHub (oauth_login.go, oauth_callback.go) *)

Definition GitHubLoginHandler : page Response :=
  s ← require_oauth;
  nonce ← or_fail 500 "state" NewState;
  now ← get_now;
  state ← or_fail 500 "state" (sign s (no_claims <| Typ := TypState |> <| Binding := HashHex nonce |>
    <| Exp := (now + stateTTL)%Z |>));
  mret (ToGitHub state (Some nonce)).

Definition parseChallengeAndState (challenge state : string) : page (string * string) :=
  if bool_decide (challenge = "") || (256 <? len challenge)%Z then fail 400 "missing or oversized challenge"
  else if (256 <? len state)%Z then fail 400 "oversized state"
  else if decide (state = "") then s ← or_fail 500 "state" NewState; mret (challenge, s)
  else mret (challenge, state).

Definition valid_port (portStr : string) : option Z :=
  match parse_int portStr with
  | Some p => if (1 <=? p)%Z && (p <=? 65535)%Z && bool_decide (format_int p = portStr) then Some p else None
  | None => None
  end.

Definition CLIStartHandler (portStr challenge state : string) : page Response :=
  s ← require_oauth;
  match valid_port portStr with
  | None => fail 400 "invalid port"
  | Some port =>
      '(challenge, cliState) ← parseChallengeAndState challenge state;
      now ← get_now;
      state ← or_fail 500 "state" (sign s (no_claims <| Typ := TypState |> <| CLI := true |> <| Port := port |>
        <| Challenge := challenge |> <| CLIState := cliState |> <| Exp := (now + stateTTL)%Z |>));
      mret (ToGitHub state None)
  end.

Definition WebStartHandler (challenge state : string) : page Response :=
  s ← require_oauth;
  '(challenge, cliState) ← parseChallengeAndState challenge state;
  now ← get_now;
  state ← or_fail 500 "state" (sign s (no_claims <| Typ := TypState |> <| Web := true |>
    <| Challenge := challenge |> <| CLIState := cliState |> <| Exp := (now + stateTTL)%Z |>));
  mret (ToGitHub state None).

Definition issueAuthorizationCode (s : Signer) (tokenType : string) (st : Claims) (user : githubUser)
    : prog error string :=
  now ← get_now;
  sign s (no_claims <| Typ := tokenType |> <| GitHubID := user.(u_ID) |> <| Login := user.(u_Login) |>
    <| Challenge := st.(Challenge) |> <| Exp := (now + codeTTL)%Z |>).

Definition finishWebLogin (s : Signer) (user : githubUser) : page Response :=
  now ← get_now;
  value ← or_fail 500 "session" (sign s (no_claims <| Typ := TypSession |> <| GitHubID := user.(u_ID) |>
    <| Login := user.(u_Login) |> <| Exp := (now + sessionTTL)%Z |>));
  mret (Session value).

Definition finishCLILogin (s : Signer) (st : Claims) (user : githubUser) : page Response :=
  oneTime ← or_fail 500 "code" (issueAuthorizationCode s TypCodeCLI st user);
  mret (ToLoopback st.(Port) oneTime st.(CLIState)).

Definition finishWebBearerLogin (s : Signer) (st : Claims) (user : githubUser) : page Response :=
  oneTime ← or_fail 500 "code" (issueAuthorizationCode s TypCodeWeb st user);
  if negb h.(spa_origin) then fail 503 "public_origin not configured"
  else mret (WebBridge oneTime st.(CLIState)).

(** The browser's cookie binds a state that no PKCE challenge binds. *)
Definition state_bound (st : Claims) (nonce : option string) : bool :=
  st.(CLI) || st.(Web) ||
  match nonce with
  | Some nonce => negb (bool_decide (st.(Binding) = "")) && bool_decide (HashHex nonce = st.(Binding))
  | None => false
  end.

(** [user] is what GitHub says of the code. *)
Definition GitHubCallbackHandler (state : string) (nonce : option string) (code : string)
    (user : option githubUser) : page Response :=
  s ← require_oauth;
  r ← verify_typ s state TypState;
  st ← or_fail_auth 400 "invalid state" r;
  if negb (state_bound st nonce) then fail 403 "state binding mismatch"
  else if decide (code = "") then fail 400 "missing code"
  else match user with
    | None => fail 401 "github identity check failed"
    | Some user =>
        if decide (user.(u_ID) = 0)%Z then fail 401 "github identity check failed" else
        admin ← IsAdmin user.(u_ID);
        if negb admin then (if st.(Device) then denyDeviceLogin st else fail 403 "not allowed")
        else if st.(CLI) then finishCLILogin s st user
        else if st.(Web) then finishWebBearerLogin s st user
        else if st.(Device) then finishDeviceLogin st user
        else finishWebLogin s user
    end.

(** ** Protected routes (auth/request.go, middleware) *)

Definition ClaimsRevoked (c : Claims) : prog error bool :=
  if negb h.(deny_list) then mret false
  else
    revoked ← (if decide (c.(JTI) = "") then mret false else IsRevoked true c.(JTI));
    if revoked : bool then mret true
    else if decide (c.(SessionID) = "") then mret false else IsSessionRevoked true c.(SessionID).

Fixpoint resolve_credential (s : Signer) (token : string) (source : CredentialSource) (types : list string)
    : prog error (option Identity) :=
  match types with
  | [] => mret None
  | typ :: types =>
      r ← verify_typ s token typ;
      match r with
      | Err _ => resolve_credential s token source types
      | Ok c =>
          revoked ← ClaimsRevoked c;
          if revoked : bool then mret None else mret (Some (mkIdentity c.(GitHubID) c.(Login) source))
      end
  end.

Definition accessCredential (q : Request) (allowBasic : bool) : option (string * CredentialSource * list string) :=
  match BearerToken q.(header) with
  | Some token => Some (token, ViaBearer, [TypCLI; TypBearer])
  | None => if allowBasic then (λ password, (password, ViaBasic, [TypCLI])) <$> q.(basic) else None
  end.

Definition Resolve (s : Signer) (q : Request) (allowBasic : bool) : prog error (option Identity) :=
  session ← (match q.(cookie) with
    | Some value => if decide (value = "") then mret None else resolve_credential s value ViaSession [TypSession]
    | None => mret None
    end);
  match session with
  | Some who => mret (Some who)
  | None => match accessCredential q allowBasic with
      | None => mret None
      | Some (token, source, types) => resolve_credential s token source types
      end
  end.

Fixpoint expired_access (s : Signer) (token : string) (types : list string) : prog error bool :=
  match types with
  | [] => mret false
  | typ :: types =>
      match parse hmac unmarshal s token with
      | Err _ => expired_access s token types
      | Ok c =>
          if decide (c.(Typ) ≠ typ) then expired_access s token types
          else
            now ← get_now;
            revoked ← ClaimsRevoked c;
            mret (expired now c && negb revoked)
      end
  end.

Definition ExpiredAccessToken (s : Signer) (q : Request) (allowBasic : bool) : prog error bool :=
  match accessCredential q allowBasic with
  | None => mret false
  | Some (token, _, types) => expired_access s token types
  end.

Definition authorizeAdminRequest (q : Request) (allowBasic hintExpiredToken : bool) : page Identity :=
  match h.(signer) with
  | None => throw (Aborted 503 false)
  | Some s =>
      if negb h.(admin_list) then throw (Aborted 503 false) else
      who ← or_abort 503 (Resolve s q allowBasic);
      match who with
      | None =>
          hint ← (if hintExpiredToken : bool then or_abort 503 (ExpiredAccessToken s q allowBasic) else mret false);
          throw (Aborted 401 hint)
      | Some who =>
          if match who.(i_Via) with ViaSession => negb q.(sameOrigin) | _ => false end
          then throw (Aborted 403 false) else
          admin ← IsAdmin who.(i_GitHubID);
          if negb admin then throw (Aborted 403 false) else mret who
      end
  end.

Definition requireAdmin (allowBasic : bool) (q : Request) : page Response :=
  who ← authorizeAdminRequest q allowBasic true; mret (Next (Some who) None).
Definition RequireAdmin := requireAdmin false.
Definition RequireBlinkyAdmin := requireAdmin true.

Definition require_ci (outcome : CIOutcome * option CIPrincipal) (q : Request) : page Response :=
  match outcome with
  | (CIOutcomeAllow, p) => mret (Next None p)
  | (CIOutcomeDeny, _) => throw (Aborted 403 false)
  | (CIOutcomeNone, _) => RequireAdmin q
  end.

Definition RequireCI (q : Request) (repo : string) : page Response :=
  match h.(ci) with
  | Some a => if Enabled (Some a) then require_ci (Authorize verify_oidc a q.(header) repo) q else RequireAdmin q
  | None => RequireAdmin q
  end.

Definition RequireServiceScope (q : Request) (scope : string) : page Response :=
  if Enabled h.(ci) then require_ci (AuthorizeScope h.(ci) q.(header) scope) q else RequireAdmin q.

Definition RequireSignerRegistration (q : Request) : page Response :=
  if decide (header_get q.(header) "X-API-Key" ≠ "") then RequireServiceScope q "signer:register"
  else if h.(legacy_basic) && has_prefix (header_get q.(header) "Authorization") "Basic "
  then RequireBlinkyAdmin q
  else RequireServiceScope q "signer:register".

(** [token] is the query parameter, [id] the job of the route. *)
Definition RequireLogAccess (q : Request) (token id : string) : page Response :=
  let token := if decide (token ≠ "") then token else header_get q.(header) "X-Log-Token" in
  if decide (token ≠ "") then
    if negb h.(log_tokens) then throw (Aborted 401 false) else
    job ← or_abort 503 (ConsumeLogToken decode_log token);
    if bool_decide (job = Some id) then mret (Next None None) else throw (Aborted 401 false)
  else who ← authorizeAdminRequest q false false; mret (Next (Some who) None).

Definition MintLogTokenHandler (id : string) : page Response :=
  if negb h.(log_tokens) then fail 503 "log tokens not configured" else
  token ← or_fail 500 "token" (NewOpaqueToken 32);
  _ ← or_fail 500 "token" (StoreLogToken encode_log token id logTokenTTL);
  mret (LogToken token).

Definition MeHandler (q : Request) : page Response :=
  match h.(signer) with
  | None => mret (Me None)
  | Some s =>
      who ← or_abort 503 (Resolve s q false);
      match who with
      | None => mret (Me None)
      | Some i =>
          admin ← IsAdmin i.(i_GitHubID);
          mret (Me (if admin : bool then Some (i.(i_GitHubID), i.(i_Login)) else None))
      end
  end.
(** ** Routes *)

Inductive Req :=
| ReqDeviceCode
| ReqDeviceApprove (user_code : string)
| ReqDeviceToken (body : option string)
| ReqGitHubLogin
| ReqCLIStart (port challenge state : string)
| ReqWebStart (challenge state : string)
| ReqCallback (state : string) (nonce : option string) (code : string) (user : option githubUser)
| ReqCLIExchange (body : option (string * string))
| ReqWebExchange (body : option (string * string))
| ReqRefresh (body : option string)
| ReqRevoke (hd : Header) (refresh_token : string)
| ReqLogout (q : Request)
| ReqMe (q : Request)
| ReqAdmin (q : Request) (allowBasic : bool)
| ReqCI (q : Request) (repo : string)
| ReqScope (q : Request) (scope : string)
| ReqSignerRegistration (q : Request)
| ReqLogs (q : Request) (token id : string)
| ReqMintLogToken (id : string).

Definition serve (r : Req) : page Response :=
  match r with
  | ReqDeviceCode => DeviceCodeHandler
  | ReqDeviceApprove user_code => DeviceApproveHandler user_code
  | ReqDeviceToken body => DeviceTokenHandler body
  | ReqGitHubLogin => GitHubLoginHandler
  | ReqCLIStart port challenge state => CLIStartHandler port challenge state
  | ReqWebStart challenge state => WebStartHandler challenge state
  | ReqCallback state nonce code user => GitHubCallbackHandler state nonce code user
  | ReqCLIExchange body => CLIExchangeHandler body
  | ReqWebExchange body => WebExchangeHandler body
  | ReqRefresh body => RefreshHandler body
  | ReqRevoke hd refresh_token => RevokeCLIHandler hd refresh_token
  | ReqLogout q => LogoutHandler q
  | ReqMe q => MeHandler q
  | ReqAdmin q allowBasic => requireAdmin allowBasic q
  | ReqCI q repo => RequireCI q repo
  | ReqScope q scope => RequireServiceScope q scope
  | ReqSignerRegistration q => RequireSignerRegistration q
  | ReqLogs q token id => RequireLogAccess q token id
  | ReqMintLogToken id => MintLogTokenHandler id
  end.
End handlers.

(** The tokens and codes a request presents to be spent or revoked. *)
Definition spent_tokens (r : Req) : list string :=
  match r with
  | ReqRefresh body => option_list body
  | ReqRevoke hd refresh_token => option_list (BearerToken hd) ++ [refresh_token]
  | ReqLogout q => option_list (BearerToken q.(header))
  | ReqCLIExchange body | ReqWebExchange body => option_list (fst <$> body)
  | _ => []
  end.
