(* ===== verification/AuthFlowSpec.v ===== *)
(** * Logging in, refreshing and logging out: each handler alone

    [disciplined] is the protocol every handler keeps towards the shared store: what it may
    write, given what it has read.  The lemmas prove it of each handler together with what its
    answer means: a token pair that was handed out has spent its credential, was issued for an
    administrator, and so on. *)

From S2P Require Import Prelude GoStrings Base64 Token CIAuth KV KVSpec AuthStore AuthFlow.

(** Arithmetic and sets: the functions of the context do not matter. *)
Ltac forget := repeat match goal with f : _ → _ |- _ => clear f end; idtac.
Ltac arith := forget; lia.
Ltac sets := forget; set_solver.

Section flow.
Context (hmac : string → string → string).
Context (marshal : Claims → option string) (unmarshal : string → option Claims).
Context (encode_device : deviceRecord → string) (decode_device : string → option deviceRecord).
Context (encode_log : logTokenRecord → string) (decode_log : string → option logTokenRecord).
Context (HashHex S256 : string → string) (verify_oidc : string → option oidcClaims).
Context {R : RangeOrder} (hd : Server).
Context (Hdevice : ∀ rec, decode_device (encode_device rec) = Some rec).
Context (Hrefresh : (0 < hd.(RefreshTokenTTL))%Z).

Abbreviation parse := (parse hmac unmarshal).

(** The claims a presented token vouches for. *)
Definition vouched (toks : list string) (c : Claims) : Prop :=
  ∃ s tok, hd.(signer) = Some s ∧ tok ∈ toks ∧ parse s tok = Ok c.

(** An administrator was looked up and found. *)
Definition found_admin (h : list tevent) (id : Z) : Prop :=
  ∃ t w, (t, EvGet AdminAllowlist (format_int id) (Ok w)) ∈ h.

(** The record of a device was read. *)
Definition read_device (h : list tevent) (code : string) (rec : deviceRecord) : Prop :=
  ∃ t raw, (t, EvGet Devices code (Ok raw)) ∈ h ∧ decode_device raw = Some rec.

Definition denies (toks : list string) (key : string) (until : Z) : Prop :=
  ∃ c, vouched toks c ∧ c.(JTI) = key ∧ (c.(Exp) ≤ until)%Z.

(** The namespaces whose rows are marks. *)
Definition marker (ns : string) : Prop := ns = TokenDenylist ∨ ns = SessionDenylist.

(** [users] are the ids GitHub answered with in the request. *)
Definition may_set (toks : list string) (users : list Z) (h : list tevent) (ns key value : string) (until ttl : Z) : Prop :=
  (0 < ttl)%Z ∧
  (ns = TokenDenylist ∧ denies toks key until
   ∨ ns = SessionDenylist ∧ (hd.(RefreshTokenTTL) ≤ ttl)%Z
   ∨ ns = Devices ∧ (∃ rec, decode_device value = Some rec
       ∧ (rec.(dr_Status) = DeviceApproved → rec.(dr_GitHubID) ∈ users ∧ found_admin h rec.(dr_GitHubID)))
   ∨ ns = DeviceUserIndex ∨ ns = LogTokens).

Definition may_add (toks : list string) (h : list tevent) (ns key : string) (until ttl : Z) : Prop :=
  (0 < ttl)%Z ∧
  (ns = TokenDenylist ∧ denies toks key until
   ∨ ns = ReplayCodes ∧ ((∃ d, key = "devpoll:" +:+ d)
       ∨ ∃ s code c, hd.(signer) = Some s ∧ code ∈ toks ∧ parse s code = Ok c ∧ key = HashHex code
           ∧ (c.(Exp) ≤ until)%Z)
   ∨ ns = SpentDevices ∧ (∃ rec, read_device h key rec ∧ (unix rec.(dr_ExpiresAt) ≤ until)%Z)
   ∨ ns = SpentLogTokens).

Definition disciplined (toks : list string) (users : list Z) (h : list tevent) (t : Z) (ev : event) : Prop :=
  match ev with
  | EvSet ns key value ttl _ => (marker ns → value = one_byte) ∧ may_set toks users h ns key value (t + ttl)%Z ttl
  | EvAdd ns key value ttl _ => value = one_byte ∧ may_add toks h ns key (t + ttl)%Z ttl
  | EvDelete ns _ _ => ns = DeviceUserIndex ∨ ns = Devices ∨ ns = LogTokens
  | _ => True
  end.

Lemma disciplined_quiet toks users h t ev : quiet ev → disciplined toks users h t ev.
Proof. by destruct ev. Qed.

Lemma found_admin_prefix h h' id : h `prefix_of` h' → found_admin h id → found_admin h' id.
Proof. intros Hp (t & w & H). exists t, w. still. Qed.

Lemma read_device_prefix h h' code rec : h `prefix_of` h' → read_device h code rec → read_device h' code rec.
Proof. intros Hp (t & raw & H & ?). exists t, raw. split; [still|done]. Qed.
(** ** The repositories *)

Context (toks : list string) (users : list Z).
Abbreviation G := (disciplined toks users).
Abbreviation spec := (KVSpec.spec G).

#[local] Hint Resolve disciplined_quiet : core.

Lemma sp_time {E} h (Q : list tevent → result E Z → Prop) :
  (∀ t h', h `prefix_of` h' → after h t → (t, EvNow (Ok t)) ∈ h' → Q h' (Ok t)) → spec h get_now Q.
Proof. apply sp_now. auto. Qed.

Lemma sp_read {X} h (c : op X) (Q : list tevent → result error X → Prop) :
  (∀ r, quiet (event_of c r)) → (∀ t r, Q (h ++ [(t, event_of c r)]) r) → spec h (call c) Q.
Proof. apply sp_quiet. auto. Qed.

Lemma sp_getOptional h ns key ctx (Q : list tevent → result error (option string) → Prop) :
  (∀ h' e, Q h' (Err e)) →
  (∀ t v, Q (h ++ [(t, EvGet ns key (Ok v))]) (Ok (Some v))) →
  (∀ t e, is_not_found e = true → Q (h ++ [(t, EvGet ns key (Err e))]) (Ok None)) →
  spec h (getOptional ns key ctx) Q.
Proof.
  intros HE HS HN. apply sp_bind, sp_try, sp_read; [done|]. intros t [v|e]; [apply HS|].
  destruct (is_not_found e) eqn:He; [by apply HN|apply HE].
Qed.

Lemma sp_consume h p key ttl (Q : list tevent → result error bool → Prop) :
  (∀ h' e, Q h' (Err e)) → (∀ h', Q h' (Ok false)) →
  (key ≠ "" → (0 < ttl)%Z → ∀ h' t, h `prefix_of` h' → after h' t →
     may_add toks h' p.(cp_namespace) key (t + ttl)%Z ttl
     ∧ ∀ h'', h `prefix_of` h'' → (t, EvAdd p.(cp_namespace) key one_byte ttl (Ok true)) ∈ h'' → Q h'' (Ok true)) →
  spec h (consume p key ttl) Q.
Proof.
  intros HE HF HT. unfold consume. destruct (decide _); [apply HE|].
  destruct (Z.leb_spec ttl 0); [apply HF|].
  apply sp_bind, sp_read; [done|]. intros t0 [ok|e]; [|apply HE]. destruct ok; [|apply HE].
  apply sp_on_err, sp_call. intros t r Ht _.
  destruct (HT n ltac:(arith) _ t (prefix_last _ _) Ht) as [HG HQ]. split; [by split|].
  destruct r as [[]|e]; [|apply HF|apply HE]. apply HQ; still.
Qed.

Lemma sp_revoke h p id ttl (Q : list tevent → result error unit → Prop) :
  (∀ h' e, Q h' (Err e)) → ((ttl ≤ 0)%Z → Q h (Ok tt)) →
  (id ≠ "" → (0 < ttl)%Z → ∀ t, after h t → may_set toks users h p.(rp_namespace) id one_byte (t + ttl)%Z ttl
     ∧ Q (h ++ [(t, EvSet p.(rp_namespace) id one_byte ttl (Ok tt))]) (Ok tt)) →
  spec h (revoke p id ttl) Q.
Proof.
  intros HE H0 HS. unfold revoke. destruct (decide _); [apply HE|].
  destruct (Z.leb_spec ttl 0); [by apply H0|].
  apply sp_call. intros t r Ht _. destruct (HS n ltac:(arith) t Ht) as [HG HQ]. split; [by split|].
  destruct r as [[]|e]; [exact HQ|apply HE].
Qed.

Lemma sp_isRevoked h p id (Q : list tevent → result error bool → Prop) :
  (∀ h' e, Q h' (Err e)) → (∀ h', h `prefix_of` h' → Q h' (Ok true)) →
  (id = "" → Q h (Ok false)) →
  (∀ t e, id ≠ "" → is_not_found e = true → Q (h ++ [(t, EvGet p.(rp_namespace) id (Err e))]) (Ok false)) →
  spec h (isRevoked p id) Q.
Proof.
  intros HE HT H0 HF. unfold isRevoked. destruct (decide _) as [|Hne]; [by apply H0|].
  apply sp_bind, sp_getOptional; [apply HE|..].
  - intros t v. apply HT. still.
  - intros t e He. by apply HF.
Qed.

Lemma sp_IsAdmin {E} h id (Q : list tevent → result E bool → Prop) :
  (∀ h', h `prefix_of` h' → Q h' (Ok false)) →
  (∀ h', h `prefix_of` h' → found_admin h' id → Q h' (Ok true)) → spec h (IsAdmin id) Q.
Proof.
  intros HF HT. unfold IsAdmin. destruct (id <=? 0)%Z; [apply HF; still|].
  apply sp_bind, sp_try, sp_read; [done|]. intros t [w|e]; [apply HT|apply HF]; [still|exists t, w; still|still].
Qed.

Lemma sp_getByCode h code (Q : list tevent → result error (option deviceRecord) → Prop) :
  (∀ h' e, Q h' (Err e)) → (∀ h', h `prefix_of` h' → Q h' (Ok None)) →
  (∀ h' rec, h `prefix_of` h' → read_device h' code rec → Q h' (Ok (Some rec))) →
  spec h (getByCode decode_device code) Q.
Proof.
  intros HE HN HS. unfold getByCode. destruct (decide _); [apply HN; still|].
  apply sp_bind, sp_getOptional; [apply HE| |intros t e _; apply HN; still].
  intros t raw. cbv beta iota. destruct (decode_device raw) as [rec|] eqn:Hd; [|apply HE].
  apply sp_bind, sp_time. intros now h' Hp _ _. destruct (_ <? _)%Z; [apply HN; still|].
  apply HS; [still|]. exists t, raw. split; [still|done].
Qed.

Lemma sp_getByUserCode h code (Q : list tevent → result error (option deviceRecord) → Prop) :
  (∀ h' e, Q h' (Err e)) → (∀ h', h `prefix_of` h' → Q h' (Ok None)) →
  (∀ h' dc rec, h `prefix_of` h' → read_device h' dc rec → Q h' (Ok (Some rec))) →
  spec h (getByUserCode decode_device code) Q.
Proof.
  intros HE HN HS. unfold getByUserCode. destruct (decide _); [apply HN; still|].
  apply sp_bind, sp_getOptional; [apply HE| |intros t e _; apply HN; still].
  intros t dc. cbv beta iota. apply sp_getByCode; [apply HE|intros h' Hp; apply HN; still|].
  intros h' rec Hp Hr. by apply (HS h' dc); [still|].
Qed.

Lemma sp_put h ns key v ttl msg (Q : list tevent → result error unit → Prop) :
  (∀ h' e, Q h' (Err e)) → ¬ marker ns → (∀ t, after h t → may_set toks users h ns key v (t + ttl)%Z ttl) →
  (∀ h', h `prefix_of` h' → Q h' (Ok tt)) → spec h (wrap msg (call (Set_ ns key v ttl))) Q.
Proof.
  intros HE Hm HG HQ. apply sp_on_err, sp_call. intros t r Ht _. split; [split; [done|by apply HG]|].
  destruct r as [[]|e]; [apply HQ; still|apply HE].
Qed.

(** A transition keeps the discipline when what it writes does. *)
Lemma sp_transition h code mutate (Q : list tevent → result error bool → Prop) :
  (∀ h' e, Q h' (Err e)) → (∀ h' b, h `prefix_of` h' → Q h' (Ok b)) →
  (∀ rec, (mutate rec).(dr_Status) = DeviceApproved →
     (mutate rec).(dr_GitHubID) ∈ users ∧ found_admin h (mutate rec).(dr_GitHubID)) →
  spec h (transition encode_device decode_device code mutate) Q.
Proof.
  intros HE HQ Hm. unfold transition. apply sp_bind, sp_getByUserCode; [apply HE|intros h' Hp; by apply HQ|].
  intros h' dc rec Hp _. cbv beta iota. apply sp_bind, sp_time. intros now h2 Hp2 _ _.
  destruct (Z.leb_spec (unix rec.(dr_ExpiresAt) - now) 0); [apply HQ; still|].
  apply sp_bind, sp_put; [apply HE|by intros []| |intros h3 Hp3; apply HQ; still].
  intros t _. split; [arith|]. right. right. left. split; [done|]. eexists. split; [apply Hdevice|].
  intros [? ?]%Hm. split; [done|]. eapply found_admin_prefix; [|done]. still.
Qed.

Lemma sp_CreateDevice h dc uc ttl (Q : list tevent → result error unit → Prop) :
  (0 < ttl)%Z → (∀ h' e, Q h' (Err e)) → (∀ h', h `prefix_of` h' → Q h' (Ok tt)) →
  spec h (CreateDevice encode_device dc uc ttl) Q.
Proof.
  intros Httl HE HQ. unfold CreateDevice. destruct (decide _); [apply HE|].
  apply sp_bind, sp_time. intros now h1 Hp1 _ _. apply sp_bind, sp_put; [apply HE|by intros []| |].
  - intros t _. split; [done|]. right. right. left. split; [done|]. eexists. split; [apply Hdevice|]. done.
  - intros h2 Hp2. apply sp_put; [apply HE|by intros []| |intros h3 Hp3; apply HQ; still].
    intros t _. split; [done|]. auto.
Qed.

Lemma sp_ConsumeDevice h code (Q : list tevent → result error bool → Prop) :
  (∀ h' e, Q h' (Err e)) → (∀ h', Q h' (Ok false)) →
  (∀ h' t ttl, h `prefix_of` h' → (t, EvAdd SpentDevices code one_byte ttl (Ok true)) ∈ h' → Q h' (Ok true)) →
  spec h (ConsumeDevice decode_device code) Q.
Proof.
  intros HE HF HT. unfold ConsumeDevice. apply sp_bind, sp_getByCode; [apply HE|intros; apply HF|].
  intros h1 rec Hp1 Hrec. cbv beta iota. apply sp_bind, sp_time. intros now h2 Hp2 Hafter Hnow.
  destruct (Z.leb_spec (unix rec.(dr_ExpiresAt) - now) 0); [apply HF|].
  apply sp_bind, sp_consume; [apply HE|intros; apply HF|]. intros _ _ h3 t Hp3 Ht. split.
  { split; [arith|]. right. right. left. split; [done|]. exists rec.
    split; [eapply read_device_prefix; [|exact Hrec]; still|].
    assert (now ≤ t)%Z by (eapply after_elem; [exact Ht|still]). arith. }
  intros h4 Hp4 Hin. cbv beta iota. apply sp_bind, sp_try, sp_call. intros t5 r5 _ _. split; [simpl; auto|].
  apply sp_bind, sp_try, sp_call. intros t6 r6 _ _. split; [simpl; auto|]. eapply HT; still.
Qed.

Lemma sp_ConsumeLogToken h token (Q : list tevent → result error (option string) → Prop) :
  (∀ h' e, Q h' (Err e)) → (∀ h', Q h' (Ok None)) →
  (∀ h' job t ttl, h `prefix_of` h' → (t, EvAdd SpentLogTokens token one_byte ttl (Ok true)) ∈ h' → Q h' (Ok (Some job))) →
  spec h (ConsumeLogToken decode_log token) Q.
Proof.
  intros HE HN HS. unfold ConsumeLogToken. destruct (decide _); [apply HN|].
  apply sp_bind, sp_getOptional; [apply HE| |intros; apply HN]. intros t0 v. cbv beta iota.
  apply sp_bind. eapply (sp_mono _ _ _ (λ h' r, h `prefix_of` h' ∧ ∃ rec, r = Ok rec)).
  { unfold log_token_record. destruct (decode_log v) as [rec|]; [split; [still|eauto]|].
    apply sp_bind, sp_time. intros now h' Hp _ _. split; [still|eauto]. }
  intros h1 r Hp1 (_ & rec & ->). apply sp_bind, sp_time. intros now h2 Hp2 _ _.
  destruct (Z.leb_spec (unix rec.(lt_ExpiresAt) - now) 0); [rewrite orb_true_r; apply HN|].
  rewrite orb_false_r. case_bool_decide; [apply HN|].
  apply sp_bind, sp_consume; [apply HE|intros; apply HN|]. intros _ _ h3 t Hp3 Ht. split.
  { split; [arith|]. auto. }
  intros h4 Hp4 Hin. cbv beta iota. apply sp_bind, sp_try, sp_call. intros t5 r5 _ _. split; [simpl; auto|].
  eapply HS; still.
Qed.

(** ** The handlers *)

Lemma sp_random {A} h n (f : string → prog error A) (Q : list tevent → result error A → Prop) :
  (∀ h' e, Q h' (Err e)) → (∀ h' b, h `prefix_of` h' → spec h' (f b) Q) → spec h (call (Random n) ≫= f) Q.
Proof.
  intros HE HQ. apply sp_bind, sp_read; [done|]. intros t [b|e]; [|apply HE]. apply HQ. still.
Qed.

Lemma sp_opaque h n (Q : list tevent → result error string → Prop) :
  (∀ h' e, Q h' (Err e)) → (∀ h' b, h `prefix_of` h' → Q h' (Ok b)) → spec h (NewOpaqueToken n) Q.
Proof. intros HE HQ. apply sp_random; [apply HE|]. intros h' b Hp. apply HQ; still. Qed.

Lemma sp_sign h s c (Q : list tevent → result error string → Prop) :
  (∀ e, Q h (Err e)) → (∀ tok, Sign hmac marshal s c = Ok tok → Q h (Ok tok)) → spec h (sign hmac marshal s c) Q.
Proof. intros HE HQ. unfold sign. destruct (Sign _ _ s c); simpl; [by apply HQ|apply HE]. Qed.

(** The clock read was not past the expiry of the claims. *)
Definition unexpired (h : list tevent) (c : Claims) : Prop :=
  ∃ t, (t, EvNow (Ok t)) ∈ h ∧ (t ≤ c.(Exp))%Z.

(** What a failed verification leaves open: the token is bad, or of another type, or has
    expired. *)
Lemma sp_verify {E} h s tok typ (Q : list tevent → result E (result auth_error Claims) → Prop) :
  (∀ h' e, h `prefix_of` h' →
     (∀ c, parse s tok = Ok c → c.(Typ) = typ → ∃ t, (t, EvNow (Ok t)) ∈ h' ∧ (c.(Exp) < t)%Z) → Q h' (Ok (Err e))) →
  (∀ h' c, h `prefix_of` h' → parse s tok = Ok c → c.(Typ) = typ → unexpired h' c → Q h' (Ok (Ok c))) →
  spec h (verify_typ hmac unmarshal s tok typ) Q.
Proof.
  intros HE HQ. unfold verify_typ. destruct (parse s tok) as [c|e] eqn:Hp; [|by apply HE].
  apply sp_bind, sp_time. intros t h' Hh _ Ht.
  destruct (VerifyTyp hmac unmarshal s t tok typ) as [c'|e] eqn:Hv.
  - apply VerifyTyp_Ok in Hv as (Hc & Hexp & Htyp). rewrite Hp in Hc. simplify_eq. apply HQ; try done. by exists t.
  - apply HE; [still|]. intros c' [= <-] Htyp. exists t. split; [done|].
    destruct (Z.lt_ge_cases (Exp c) t); [done|].
    by rewrite (proj2 (VerifyTyp_Ok _ _ _ _ _ _ c)) in Hv.
Qed.

(** The pair that was signed: an access token and a refresh token of the session, the latter
    with the expiry asked for. *)
Definition pair_of (s : Signer) (id : Z) (login sid : string) (exp : Z) (a r : string) : Prop :=
  ∃ ca cr, Sign hmac marshal s ca = Ok a ∧ Sign hmac marshal s cr = Ok r
    ∧ ca.(Typ) = TypCLI ∧ ca.(GitHubID) = id ∧ ca.(SessionID) = sid
    ∧ cr.(Typ) = TypRefresh ∧ cr.(GitHubID) = id ∧ cr.(Login) = login ∧ cr.(SessionID) = sid ∧ cr.(Exp) = exp.

Lemma sp_issue_for h s id login sid exp (Q : list tevent → result error (string * string * Z) → Prop) :
  (∀ h' e, Q h' (Err e)) →
  (∀ h' a r n, h `prefix_of` h' → pair_of s id login sid exp a r → Q h' (Ok (a, r, n))) →
  spec h (issueAccessRefreshForSession hmac marshal hd s id login sid exp) Q.
Proof.
  intros HE HQ. unfold issueAccessRefreshForSession. apply sp_bind, sp_time. intros t1 h1 Hp1 _ _.
  destruct (_ || _); [apply HE|]. apply sp_bind, sp_opaque; [apply HE|]. intros h2 aj Hp2.
  apply sp_bind, sp_time. intros t3 h3 Hp3 _ _. apply sp_bind, sp_sign; [apply HE|]. intros a Ha.
  apply sp_bind, sp_opaque; [apply HE|]. intros h4 rj Hp4. apply sp_bind, sp_sign; [apply HE|]. intros r Hr.
  apply HQ; [still|]. by eexists _, _.
Qed.

Lemma sp_issue h s id login (Q : list tevent → result error (string * string * Z) → Prop) :
  (∀ h' e, Q h' (Err e)) →
  (∀ h' a r n sid exp, h `prefix_of` h' → pair_of s id login sid exp a r → Q h' (Ok (a, r, n))) →
  spec h (issueAccessRefresh hmac marshal hd s id login) Q.
Proof.
  intros HE HQ. unfold issueAccessRefresh. apply sp_bind, sp_opaque; [apply HE|]. intros h1 sid Hp1.
  apply sp_bind, sp_time. intros t h2 Hp2 _ _. apply sp_issue_for; [apply HE|].
  intros h3 a r n Hp3 Hpair. by eapply HQ; [still|].
Qed.

(** The last call found no denial of the session. *)
Definition session_checked (h : list tevent) (sid : string) : Prop :=
  ∃ h0 t e, h = h0 ++ [(t, EvGet SessionDenylist sid (Err e))] ∧ is_not_found e = true.

Lemma sp_live h sid (Q : list tevent → result Response unit → Prop) :
  (∀ h' st msg, Q h' (Err (AuthError st msg))) →
  (∀ h', h `prefix_of` h' → (hd.(deny_list) = true → sid ≠ "" → session_checked h' sid) → Q h' (Ok tt)) →
  spec h (require_live_session hd sid) Q.
Proof.
  intros HE HQ. unfold require_live_session, IsSessionRevoked. apply sp_bind, sp_on_err.
  destruct (deny_list hd).
  - apply sp_isRevoked; simpl.
    + intros h' e. apply HE.
    + intros h' _. apply HE.
    + intros ->. by apply HQ.
    + intros t e Hne He. apply HQ; [still|]. intros _ _. by exists h, t, e.
  - apply sp_ret. simpl. apply HQ; [still|done].
Qed.

(** What a token pair of the refresh route means. *)
Definition refreshed (body : option string) (h : list tevent) (a r login : string) (id : Z) : Prop :=
  ∃ s tok c t ttl, body = Some tok ∧ hd.(signer) = Some s ∧ parse s tok = Ok c ∧ c.(Typ) = TypRefresh
    ∧ (t, EvAdd TokenDenylist c.(JTI) one_byte ttl (Ok true)) ∈ h
    ∧ session_checked h (sessionFamilyID c)
    ∧ id = c.(GitHubID) ∧ login = c.(Login) ∧ found_admin h id
    ∧ pair_of s id login (sessionFamilyID c) c.(Exp) a r.

Lemma sp_Refresh body (Q : list tevent → result Response Response → Prop) :
  option_list body ⊆ toks → (∀ h' st msg, Q h' (Err (AuthError st msg))) →
  (∀ h' a r n login id, refreshed body h' a r login id → Q h' (Ok (TokenPair a r n login id))) →
  spec [] (RefreshHandler hmac marshal unmarshal hd body) Q.
Proof.
  intros Hin HE HQ. unfold RefreshHandler, require_signer. destruct (signer hd) as [s|] eqn:Hs; [|apply HE].
  destruct body as [tok|]; [|apply HE]. cbv [require_body of_result result_of_option map_err].
  apply sp_bind, sp_ret. apply sp_bind, sp_ret.
  apply sp_bind, sp_verify; [intros; apply HE|]. intros h1 c Hp1 Hc Htyp _.
  apply sp_bind, sp_ret. cbv beta iota delta [map_err]. destruct (decide _) as [|Hjti]; [apply HE|].
  apply sp_bind, sp_live; [apply HE|]. intros h2 Hp2 _.
  apply sp_bind, sp_IsAdmin; [intros; apply HE|]. intros h3 Hp3 Hadmin. cbv beta iota.
  apply sp_bind, sp_on_err, sp_issue_for; [intros; apply HE|]. intros h4 a r n Hp4 Hpair.
  apply sp_bind, sp_time. intros now h5 Hp5 _ Hnow.
  apply sp_bind, sp_on_err. unfold ConsumeRefreshToken. destruct (deny_list hd) eqn:Hdl; [|apply HE].
  apply sp_consume; [intros; apply HE|intros; apply HE|]. intros Hne Hpos h6 t Hp6 Ht. split.
  { split; [done|]. left. split; [done|]. exists c. split; [exists s, tok; sets|]. split; [done|].
    assert (now ≤ t)%Z by (eapply after_elem; [exact Ht|still]). arith. }
  intros h7 Hp7 Hadd. cbv beta iota. apply sp_bind, sp_live; [apply HE|]. intros h8 Hp8 Hsess.
  apply HQ. exists s, tok, c, t, (Exp c - now)%Z. split_and!; try done; [still| |eapply found_admin_prefix; [|exact Hadmin]; still].
  apply Hsess; [done|]. unfold sessionFamilyID. by destruct (decide _).
Qed.

(** The family of a presented token is denied, unless the token had expired. *)
Definition denied_session (h : list tevent) (sid : string) : Prop :=
  ∃ t ttl, (t, EvSet SessionDenylist sid one_byte ttl (Ok tt)) ∈ h.

Lemma denied_session_prefix h h' sid : h `prefix_of` h' → denied_session h sid → denied_session h' sid.
Proof. intros Hp (t & ttl & H). exists t, ttl. still. Qed.

Definition ended (h : list tevent) (c : Claims) : Prop :=
  (∃ t, (t, EvNow (Ok t)) ∈ h ∧ (c.(Exp) < t)%Z) ∨ sessionFamilyID c = "" ∨ denied_session h (sessionFamilyID c).

Definition logged_out (bearer : option string) (refresh_token : string) (h : list tevent) : Prop :=
  ∃ s, hd.(signer) = Some s ∧ hd.(deny_list) = true
    ∧ (∀ tok c, bearer = Some tok → parse s tok = Ok c → c.(Typ) = TypCLI → ended h c)
    ∧ (∀ c, refresh_token ≠ "" → parse s refresh_token = Ok c → c.(Typ) = TypRefresh → ended h c).

Lemma sp_presented h s token typ (Q : list tevent → result Response (option Claims) → Prop) :
  (∀ h' o, h `prefix_of` h' →
     (∀ c, o = Some c → ∃ tok, token = Some tok ∧ parse s tok = Ok c) →
     (∀ tok c, token = Some tok → parse s tok = Ok c → c.(Typ) = typ →
        o = Some c ∨ ∃ t, (t, EvNow (Ok t)) ∈ h' ∧ (c.(Exp) < t)%Z) → Q h' (Ok o)) →
  spec h (presented hmac unmarshal s token typ) Q.
Proof.
  intros HQ. unfold presented. destruct token as [tok|]; [|by apply HQ].
  apply sp_bind, sp_verify.
  - intros h' e Hp Hexp. apply HQ; [done|done|]. intros tok' c [= <-] Hc Ht. right. by apply Hexp.
  - intros h' c Hp Hc Ht _. apply HQ; [done|by intros c' [= <-]; exists tok|].
    intros tok' c' [= <-] Hc' _. left. congruence.
Qed.

(** The families noted so far: every claim's, for at least the life of a refresh token. *)
Definition noted (cs : list Claims) (families : gmap string Z) : Prop :=
  (∀ c, c ∈ cs → sessionFamilyID c ≠ "" → is_Some (families !! sessionFamilyID c))
  ∧ map_Forall (λ _ ttl, hd.(RefreshTokenTTL) ≤ ttl)%Z families.

Lemma sp_revoke_claims h families c cs (Q : list tevent → result Response (gmap string Z) → Prop) :
  vouched toks c → noted cs families → (∀ h' st msg, Q h' (Err (AuthError st msg))) →
  (∀ h' families', h `prefix_of` h' → noted (cs ++ [c]) families' → Q h' (Ok families')) →
  spec h (revoke_claims hd families c) Q.
Proof.
  intros Hv [Hn1 Hn2] HE HQ. unfold revoke_claims. set (rest := λ _ : (), _).
  assert (∀ h', h `prefix_of` h' → spec h' (rest tt) Q) as Hrest.
  { intros h' Hp. unfold rest. cbv beta zeta. destruct (decide _) as [Hf|Hf].
    - apply HQ; [done|]. split; [|done]. intros c' [Hc'|Hc'%list_elem_of_singleton]%elem_of_app; [by apply Hn1|].
      by subst c'.
    - apply sp_bind, sp_time. intros now h2 Hp2 _ _. apply HQ; [still|].
      destruct (Z.ltb_spec (default 0%Z (families !! sessionFamilyID c)) (RefreshTokenTTL hd `max` (Exp c - now))) as [Hlt|Hge].
      + split.
        * intros c' [Hc'|Hc'%list_elem_of_singleton]%elem_of_app Hne; rewrite lookup_insert_is_Some'; auto. left. by subst.
        * apply map_Forall_insert_2; [arith|done].
      + split; [|done]. intros c' [Hc'|Hc'%list_elem_of_singleton]%elem_of_app Hne; [by apply Hn1|]. subst c'.
        destruct (families !! sessionFamilyID c) eqn:E; [by eauto|]. simpl in Hge. arith. }
  clearbody rest. apply sp_bind. destruct (decide _) as [|Hj]; [by apply Hrest|].
  apply sp_bind, sp_time. intros now h1 Hp1 _ Hnow. apply sp_on_err. unfold Revoke.
  destruct (deny_list hd); [|apply HE].
  apply sp_revoke; [intros; apply HE|intros _; apply Hrest; still|]. intros _ Hpos t Ht. split; [|apply Hrest; still].
  split; [done|]. left. split; [done|]. exists c. split_and!; [done..|].
  assert (now ≤ t)%Z by (by eapply after_elem). arith.
Qed.

Lemma sp_revoke_families h families (Q : list tevent → result Response unit → Prop) :
  map_Forall (λ _ ttl, hd.(RefreshTokenTTL) ≤ ttl)%Z families → (∀ h' st msg, Q h' (Err (AuthError st msg))) →
  (∀ h', h `prefix_of` h' → (hd.(deny_list) = true → ∀ sid, is_Some (families !! sid) → denied_session h' sid) → Q h' (Ok tt)) →
  spec h (revoke_families hd families) Q.
Proof.
  intros Hmin HE HQ. unfold revoke_families.
  apply (sp_fold _ _ (λ done _ h', hd.(deny_list) = true → ∀ sid ttl, (sid, ttl) ∈ done → denied_session h' sid)).
  - intros _ sid ttl Hin. by apply elem_of_nil in Hin.
  - intros done [sid ttl] rest [] h' Hl Hp HI. apply sp_on_err. unfold RevokeSession.
    destruct (deny_list hd); [|apply HE].
    assert (hd.(RefreshTokenTTL) ≤ ttl)%Z as Hle.
    { apply (Hmin sid). apply elem_of_range_map. rewrite Hl. sets. }
    apply sp_revoke; [intros; apply HE|intros; arith|]. intros Hne Hpos t Ht. split; [split; [done|by right; left]|].
    intros _ sid' ttl' [Hin|Hin%list_elem_of_singleton]%elem_of_app.
    + eapply denied_session_prefix; [|by eapply HI]. still.
    + simplify_eq. exists t, ttl. still.
  - intros h' [] Hp HI. apply HQ; [done|]. intros Hdl sid [ttl Hsid]. eapply HI; [done|]. by apply elem_of_range_map.
Qed.

Lemma sp_Revoke header refresh_token (Q : list tevent → result Response Response → Prop) :
  option_list (BearerToken header) ++ [refresh_token] ⊆ toks → (∀ h' st msg, Q h' (Err (AuthError st msg))) →
  (∀ h', (hd.(deny_list) = true → logged_out (BearerToken header) refresh_token h') → Q h' (Ok AuthOK)) →
  spec [] (RevokeCLIHandler hmac unmarshal hd header refresh_token) Q.
Proof.
  intros Hin HE HQ. unfold RevokeCLIHandler, require_signer. destruct (signer hd) as [s|] eqn:Hs; [|apply HE].
  apply sp_bind, sp_ret. apply sp_bind, sp_presented. intros h1 oa Hp1 Ha1 Ha2.
  apply sp_bind, sp_presented. intros h2 orf Hp2 Hr1 Hr2.
  destruct (_ && _); [apply HE|]. destruct (_ && _); [apply HE|]. apply sp_bind.
  assert (∀ c, oa = Some c ∨ orf = Some c → vouched toks c) as Hv.
  { intros c [Hc|Hc]; [apply Ha1 in Hc as (tok & Ht & Hpar)|apply Hr1 in Hc as (tok & Ht & Hpar)]; exists s, tok;
      (split_and!; [done| |done]); apply Hin; [rewrite Ht; sets|].
    destruct (decide _); [done|]. simplify_eq. sets. }
  apply (sp_fold _ _ (λ cs families _, noted cs families)).
  - split; [intros c Hc; by apply elem_of_nil in Hc|apply map_Forall_empty].
  - intros done c rest families h' Hl Hp HI. apply (sp_revoke_claims _ _ _ done); [|done|intros; apply HE|done].
    apply Hv. assert (c ∈ omap (M:=list) id [oa; orf]) as Hc by (rewrite Hl; sets).
    apply list_elem_of_omap in Hc as (o & Ho & Hid). sets.
  - intros h3 families Hp3 [Hn1 Hn2]. apply sp_bind, sp_revoke_families; [done|intros; apply HE|].
    intros h4 Hp4 Hden. apply HQ. intros Hdl.
    assert (∀ c, c ∈ omap (M:=list) id [oa; orf] → ended h4 c) as Hend.
    { intros c Hc. destruct (decide (sessionFamilyID c = "")) as [|Hne]; [by right; left|]. right. right. eauto. }
    exists s. split_and!; [done..| |].
    + intros tok c Ht Hc Htyp. destruct (Ha2 tok c Ht Hc Htyp) as [->|(t & Hnow & Hlt)]; [apply Hend; sets|].
      left. exists t. split; [still|done].
    + intros c Hne Hc Htyp. destruct (Hr2 refresh_token c) as [->|(t & Hnow & Hlt)]; [by rewrite decide_False|done..| |].
      * apply Hend. apply list_elem_of_omap. exists (Some c). sets.
      * left. exists t. split; [still|done].
Qed.

Lemma sp_revokePresented h s tok types (Q : list tevent → result Response unit → Prop) :
  hd.(signer) = Some s → tok ∈ toks → (∀ h' st msg, Q h' (Err (AuthError st msg))) → (∀ h', Q h' (Ok tt)) →
  spec h (revokePresentedAccess hmac unmarshal hd s tok types) Q.
Proof.
  intros Hs Hin HE HQ. revert h. induction types as [|typ types IH]; intros h; cbn [revokePresentedAccess]; [by apply sp_ret|].
  apply sp_bind, sp_verify; [intros; apply IH|]. intros h1 c Hp1 Hc _ _. cbv beta iota.
  destruct (decide _) as [|Hj]; [apply IH|]. apply sp_bind, sp_time. intros now h2 Hp2 _ Hnow.
  assert (∀ h', spec h' (if bool_decide (typ = TypCLI) && negb (bool_decide (SessionID c = ""))
    then or_fail 503 "revocation store" (RevokeSession (deny_list hd) (SessionID c) (RefreshTokenTTL hd))
    else mret ()) Q) as Hrest.
  { intros h'. destruct (_ && _); [|by apply sp_ret]. apply sp_on_err. unfold RevokeSession.
    destruct (deny_list hd); [|apply HE]. apply sp_revoke; [intros; apply HE|intros; arith|].
    intros _ _ t Ht. split; [split; [done|by right; left]|]. apply HQ. }
  apply sp_bind, sp_on_err. unfold Revoke. destruct (deny_list hd); [|apply HE].
  apply sp_revoke; [intros; apply HE|intros; apply Hrest|]. intros _ Hpos t Ht. split; [|apply Hrest].
  split; [done|]. left. split; [done|]. exists c. split_and!; [by exists s, tok|done|].
  assert (now ≤ t)%Z by (by eapply after_elem). arith.
Qed.

(** A redeemed code: verified, bound to the challenge, for an administrator, and spent. *)
Definition redeemed (typ : string) (body : option (string * string)) (h : list tevent) (c : Claims) : Prop :=
  ∃ s code verifier, body = Some (code, verifier) ∧ hd.(signer) = Some s ∧ parse s code = Ok c ∧ c.(Typ) = typ
    ∧ VerifyPKCE S256 verifier c.(Challenge) = true ∧ found_admin h c.(GitHubID)
    ∧ (hd.(replay_guard) = true → ∃ t ttl, (t, EvAdd ReplayCodes (HashHex code) one_byte ttl (Ok true)) ∈ h).

Lemma redeemed_prefix typ body h h' c : h `prefix_of` h' → redeemed typ body h c → redeemed typ body h' c.
Proof.
  intros Hp (s & code & v & H1 & H2 & H3 & H4 & H5 & H6 & H7). exists s, code, v. split_and!; try done.
  - by eapply found_admin_prefix.
  - intros Hg. destruct (H7 Hg) as (t & ttl & H). exists t, ttl. still.
Qed.

Lemma sp_redeem h s body typ (Q : list tevent → result Response Claims → Prop) :
  hd.(signer) = Some s → option_list (fst <$> body) ⊆ toks → (∀ h' st msg, Q h' (Err (AuthError st msg))) →
  (∀ h' c, redeemed typ body h' c → Q h' (Ok c)) →
  spec h (redeemCode hmac unmarshal HashHex S256 hd s body typ) Q.
Proof.
  intros Hs Hin HE HQ. unfold redeemCode. destruct body as [[code verifier]|]; [|apply HE].
  apply sp_bind, sp_ret. cbv beta iota. apply sp_bind, sp_verify; [intros; apply HE|].
  intros h1 c Hp1 Hc Htyp _. apply sp_bind, sp_ret. cbv beta iota delta [map_err].
  destruct (VerifyPKCE S256 verifier (Challenge c)) eqn:Hpkce; [|apply HE]. cbn [negb].
  apply sp_bind, sp_IsAdmin; [intros; apply HE|]. intros h2 Hp2 Hadmin. cbv beta iota delta [negb].
  apply sp_bind. unfold consumeCode. destruct (replay_guard hd) eqn:Hg; cbv beta iota delta [negb].
  2: { apply sp_ret, sp_ret, HQ. exists s, code, verifier. split_and!; try done. by rewrite Hg. }
  apply sp_bind, sp_time. intros now h3 Hp3 _ Hnow. apply sp_bind, sp_on_err.
  apply sp_consume; [intros; apply HE|intros; apply HE|]. intros _ Hpos h4 t Hp4 Ht. split.
  { split; [done|]. right. left. split; [done|]. right. exists s, code, c. split_and!; try done; [sets|].
    assert (now ≤ t)%Z by (eapply after_elem; [exact Ht|still]). arith. }
  intros h5 Hp5 Hadd. cbv beta iota. apply sp_ret, sp_ret, HQ. exists s, code, verifier.
  split_and!; try done; [eapply found_admin_prefix; [|exact Hadmin]; still|]. eauto.
Qed.

Definition exchanged (typ : string) (body : option (string * string)) (h : list tevent) (login : string) (id : Z) : Prop :=
  ∃ c, redeemed typ body h c ∧ login = c.(Login) ∧ id = c.(GitHubID).

Lemma sp_CLIExchange body (Q : list tevent → result Response Response → Prop) :
  option_list (fst <$> body) ⊆ toks → (∀ h' st msg, Q h' (Err (AuthError st msg))) →
  (∀ h' a r n login id, exchanged TypCodeCLI body h' login id → Q h' (Ok (TokenPair a r n login id))) →
  spec [] (CLIExchangeHandler hmac marshal unmarshal HashHex S256 hd body) Q.
Proof.
  intros Hin HE HQ. unfold CLIExchangeHandler, require_signer. destruct (signer hd) as [s|] eqn:Hs; [|apply HE].
  apply sp_bind, sp_ret. apply sp_bind, sp_redeem; [done..|apply HE|]. intros h1 c Hc.
  apply sp_bind, sp_on_err, sp_issue; [intros; apply HE|]. intros h2 a r n sid exp Hp2 _.
  apply HQ. exists c. split; [by eapply redeemed_prefix|done].
Qed.

Lemma sp_WebExchange body (Q : list tevent → result Response Response → Prop) :
  option_list (fst <$> body) ⊆ toks → (∀ h' st msg, Q h' (Err (AuthError st msg))) →
  (∀ h' tok login id, exchanged TypCodeWeb body h' login id → Q h' (Ok (WebToken tok login id))) →
  spec [] (WebExchangeHandler hmac marshal unmarshal HashHex S256 hd body) Q.
Proof.
  intros Hin HE HQ. unfold WebExchangeHandler, require_signer. destruct (signer hd) as [s|] eqn:Hs; [|apply HE].
  apply sp_bind, sp_ret. apply sp_bind, sp_redeem; [done..|apply HE|]. intros h1 c Hc.
  apply sp_bind, sp_on_err, sp_opaque; [intros; apply HE|]. intros h2 jti Hp2.
  apply sp_bind, sp_time. intros now h3 Hp3 _ _. apply sp_bind, sp_on_err, sp_sign; [intros; apply HE|].
  intros tok _. apply sp_ret, HQ. exists c. split; [eapply redeemed_prefix; [|exact Hc]; still|done].
Qed.

(** What a token pair of the device flow means. *)
Definition device_granted (body : option string) (h : list tevent) (login : string) (id : Z) : Prop :=
  ∃ code rec t ttl, body = Some code ∧ read_device h code rec ∧ rec.(dr_Status) = DeviceApproved
    ∧ id = rec.(dr_GitHubID) ∧ login = rec.(dr_Login) ∧ found_admin h id
    ∧ (t, EvAdd SpentDevices code one_byte ttl (Ok true)) ∈ h.

Lemma sp_poll_spacing h code (Q : list tevent → result Response unit → Prop) :
  (∀ h' st msg, Q h' (Err (AuthError st msg))) → (∀ h', Q h' (Ok tt)) → spec h (poll_spacing hd code) Q.
Proof.
  intros HE HQ. unfold poll_spacing. destruct (negb _); [by apply sp_ret|].
  apply sp_bind, sp_try, sp_consume; [intros; by apply sp_ret|intros; apply HE|].
  intros _ Hpos h1 t Hp1 Ht. split; [|intros; by apply sp_ret].
  split; [done|]. right. left. split; [done|]. left. eauto.
Qed.

Lemma sp_DeviceToken body (Q : list tevent → result Response Response → Prop) :
  (∀ h' st msg, Q h' (Err (AuthError st msg))) →
  (∀ h' a r n login id, device_granted body h' login id → Q h' (Ok (TokenPair a r n login id))) →
  spec [] (DeviceTokenHandler hmac marshal decode_device hd body) Q.
Proof.
  intros HE HQ. unfold DeviceTokenHandler. destruct (signer hd) as [s|] eqn:Hs; [|apply HE].
  destruct (negb _); [apply HE|]. destruct body as [code|]; [|apply HE].
  apply sp_bind, sp_ret. cbv beta iota. apply sp_bind, sp_poll_spacing; [apply HE|]. intros h1.
  apply sp_bind, sp_on_err. unfold PollDevice. apply sp_bind, sp_getByCode;
    [intros; apply HE|intros; apply sp_ret, HE|]. intros h2 rec Hp2 Hrec.
  apply sp_ret. cbv beta iota delta [map_err option_map].
  destruct (decide _) as [Hst|]; [|by destruct (decide _); apply HE].
  unfold issueDeviceToken. apply sp_bind, sp_IsAdmin; [intros; apply HE|]. intros h3 Hp3 Hadmin.
  cbv beta iota delta [negb]. apply sp_bind, sp_on_err, sp_issue; [intros; apply HE|].
  intros h4 a r n sid exp Hp4 _. apply sp_bind, sp_on_err, sp_ConsumeDevice; [intros; apply HE|intros; apply HE|].
  intros h5 t ttl Hp5 Hadd. cbv beta iota. apply HQ. exists code, rec, t, ttl. split_and!; try done.
  - eapply read_device_prefix; [|exact Hrec]. still.
  - eapply found_admin_prefix; [|exact Hadmin]. still.
Qed.

(** ** Starting a login *)

(** Answers that give nothing away. *)
Definition plain (r : result Response Response) : Prop :=
  match r with
  | Err (AuthError _ _) | Err (Aborted _ _) => True
  | Ok (DeviceCodes _ _ _ _) | Ok (DeviceForm _ _) | Ok (DeviceMessage _) | Ok (ToGitHub _ _) => True
  | _ => False
  end.

Section starting.
Context (Q : list tevent → result Response Response → Prop) (Hany : ∀ h r, plain r → Q h r).

Lemma sp_Logout q :
  option_list (BearerToken q.(header)) ⊆ toks → (∀ h, Q h (Ok AuthOK)) → spec [] (LogoutHandler hmac unmarshal hd q) Q.
Proof.
  intros Hin HO. unfold LogoutHandler. destruct (negb _); [by apply Hany|]. apply sp_bind.
  destruct (signer hd) as [s|] eqn:Hs; [|apply sp_ret, sp_ret, HO].
  destruct (BearerToken _) as [tok|]; [|apply sp_ret, sp_ret, HO].
  apply sp_revokePresented; [done|sets|intros; by apply Hany|intros; apply sp_ret, HO].
Qed.

Lemma sp_DeviceCode : spec [] (DeviceCodeHandler encode_device hd) Q.
Proof.
  unfold DeviceCodeHandler, requireDeviceAuthorization. destruct (signer hd); [|by apply Hany].
  destruct (_ && _); [|by apply Hany]. apply sp_bind, sp_ret. apply sp_bind, sp_on_err, sp_opaque; [intros; by apply Hany|].
  intros h1 dc Hp1. apply sp_bind, sp_on_err. unfold NewUserCode. apply sp_random; [intros; by apply Hany|]. intros h2 uc Hp2.
  apply sp_ret. cbv beta iota delta [map_err]. apply sp_bind, sp_on_err, sp_CreateDevice; [done|intros; by apply Hany|].
  intros h3 Hp3. by apply sp_ret, Hany.
Qed.

Lemma sp_DeviceApprove user_code :
  spec [] (DeviceApproveHandler hmac marshal decode_device HashHex hd user_code) Q.
Proof.
  unfold DeviceApproveHandler, requireDeviceAuthorization. destruct (signer hd); [|by apply Hany].
  destruct (_ && _); [|by apply Hany]. apply sp_bind, sp_ret. apply sp_bind, sp_on_err.
  unfold LookupByUserCode. apply sp_bind, sp_getByUserCode; [intros; by apply Hany|intros; by apply sp_ret, Hany|].
  intros h1 dc rec Hp1 _. apply sp_ret. cbv beta iota delta [map_err option_map].
  destruct (decide _); [by apply sp_ret, Hany|]. apply sp_bind, sp_on_err, sp_opaque; [intros; by apply Hany|]. intros h2 nonce Hp2.
  apply sp_bind, sp_time. intros t h3 Hp3 _ _. by apply sp_bind, sp_on_err, sp_sign; intros; apply Hany.
Qed.

Lemma sp_GitHubLogin : spec [] (GitHubLoginHandler hmac marshal HashHex hd) Q.
Proof.
  unfold GitHubLoginHandler, require_oauth. destruct (signer hd); [|by apply Hany]. destruct (oauth hd); [|by apply Hany].
  apply sp_bind, sp_ret. apply sp_bind, sp_on_err, sp_opaque; [intros; by apply Hany|]. intros h2 nonce Hp2.
  apply sp_bind, sp_time. intros t h3 Hp3 _ _. by apply sp_bind, sp_on_err, sp_sign; intros; apply Hany.
Qed.

Lemma sp_parse_state h challenge state (Q' : list tevent → result Response (string * string) → Prop) :
  (∀ h' st msg, Q' h' (Err (AuthError st msg))) → (∀ h' x, Q' h' (Ok x)) →
  spec h (parseChallengeAndState challenge state) Q'.
Proof.
  intros HE HQ'. unfold parseChallengeAndState. destruct (_ || _); [apply HE|]. destruct (_ <? _)%Z; [apply HE|].
  destruct (decide _); [|apply HQ']. apply sp_bind, sp_on_err, sp_opaque; [intros; apply HE|].
  intros; apply sp_ret, HQ'.
Qed.

(** The end of the handlers that send the browser to GitHub. *)
Lemma sp_to_github h s (c : Z → Claims) (st : string) :
  spec h (now ← get_now; state ← or_fail 500 st (sign hmac marshal s (c now)); mret (ToGitHub state None)) Q.
Proof.
  apply sp_bind, sp_time. intros t h3 Hp3 _ _. by apply sp_bind, sp_on_err, sp_sign; intros; apply Hany.
Qed.

Lemma sp_CLIStart port challenge state : spec [] (CLIStartHandler hmac marshal hd port challenge state) Q.
Proof.
  unfold CLIStartHandler, require_oauth. destruct (signer hd); [|by apply Hany]. destruct (oauth hd); [|by apply Hany].
  apply sp_bind, sp_ret. cbv beta iota. destruct (valid_port port); [|by apply Hany].
  apply sp_bind, sp_parse_state; [intros; by apply Hany|]. intros h' [ch st]. cbv beta iota.
  apply (sp_to_github _ _ (λ now, _)).
Qed.

Lemma sp_WebStart challenge state : spec [] (WebStartHandler hmac marshal hd challenge state) Q.
Proof.
  unfold WebStartHandler, require_oauth. destruct (signer hd); [|by apply Hany]. destruct (oauth hd); [|by apply Hany].
  apply sp_bind, sp_ret. cbv beta iota. apply sp_bind, sp_parse_state; [intros; by apply Hany|]. intros h' [ch st].
  cbv beta iota. apply (sp_to_github _ _ (λ now, _)).
Qed.
End starting.

(** ** The callback *)

(** Only an administrator gets a session or a code. *)
Definition let_in (user : option githubUser) (h : list tevent) : Prop :=
  ∃ u, user = Some u ∧ found_admin h u.(u_ID).

Lemma sp_Callback state nonce code user (Q : list tevent → result Response Response → Prop) :
  (∀ h' st msg, Q h' (Err (AuthError st msg))) → (∀ h' st, Q h' (Ok (DeviceMessage st))) →
  (∀ h' r, let_in user h' → match r with Session _ | ToLoopback _ _ _ | WebBridge _ _ => Q h' (Ok r) | _ => True end) →
  users = option_list (u_ID <$> user) →
  spec [] (GitHubCallbackHandler hmac marshal unmarshal encode_device decode_device HashHex hd state nonce code user) Q.
Proof.
  intros HE HD HQ Husers. unfold GitHubCallbackHandler, require_oauth. destruct (signer hd) as [s|]; [|apply HE].
  destruct (oauth hd); [|apply HE]. apply sp_bind, sp_ret, sp_bind, sp_verify; [intros; apply HE|].
  intros h1 st Hp1 _ _ _. apply sp_bind, sp_ret. cbv beta iota delta [map_err].
  destruct (negb _); [apply HE|]. destruct (decide _); [apply HE|]. destruct user as [u|]; [|apply HE].
  destruct (decide _); [apply HE|]. apply sp_bind, sp_IsAdmin; cbv beta iota delta [negb].
  { intros h2 Hp2. destruct (Device st); [|apply HE]. unfold denyDeviceLogin. apply sp_bind.
    destruct (device_store hd); [|apply sp_ret, HD].
    apply sp_bind, sp_try, sp_transition; [intros; apply sp_ret, HD..|done]. }
  intros h2 Hp2 Hadmin.
  assert (∀ h', h2 `prefix_of` h' → let_in (Some u) h') as Hin.
  { intros h' Hp. exists u. split; [done|]. by eapply found_admin_prefix. }
  assert (∀ h' typ msg (f : string → page Response), h2 `prefix_of` h' →
    (∀ h3 tok, h2 `prefix_of` h3 → spec h3 (f tok) Q) →
    spec h' (or_fail 500 msg (issueAuthorizationCode hmac marshal s typ st u) ≫= f) Q) as Hissue.
  { intros h' typ msg f Hp' Hf. apply sp_bind, sp_on_err, sp_bind, sp_time. intros now h3 Hp3 _ _.
    apply sp_sign; [intros; apply HE|]. intros tok _. apply Hf. still. }
  destruct (CLI st); [|destruct (Web st); [|destruct (Device st)]].
  - apply Hissue; [still|]. intros h3 tok Hp3. by apply (HQ h3 (ToLoopback _ _ _)), Hin.
  - apply Hissue; [still|]. intros h3 tok Hp3. destruct (negb _); [apply HE|]. by apply (HQ h3 (WebBridge _ _)), Hin.
  - unfold finishDeviceLogin. destruct (negb _); [apply HE|].
    apply sp_bind, sp_on_err, sp_transition; [intros; apply HE|intros; apply HD|].
    intros rec _. split; [subst users; apply list_elem_of_here|exact Hadmin].
  - apply sp_bind, sp_time. intros now h3 Hp3 _ _. apply sp_bind, sp_on_err, sp_sign; [intros; apply HE|].
    intros tok _. by apply (HQ h3 (Session _)), Hin.
Qed.

(** ** Protected routes *)

(** A deny list that was asked has no entry for the id. *)
Definition not_denied (h : list tevent) (ns id : string) : Prop :=
  id = "" ∨ ∃ t e, (t, EvGet ns id (Err e)) ∈ h ∧ is_not_found e = true.

Definition unrevoked (h : list tevent) (c : Claims) : Prop :=
  hd.(deny_list) = true → not_denied h TokenDenylist c.(JTI) ∧ not_denied h SessionDenylist c.(SessionID).

Lemma not_denied_prefix h h' ns id : h `prefix_of` h' → not_denied h ns id → not_denied h' ns id.
Proof. intros Hp [?|(t & e & H & ?)]; [by left|]. right. exists t, e. split; [still|done]. Qed.

Lemma unrevoked_prefix h h' c : h `prefix_of` h' → unrevoked h c → unrevoked h' c.
Proof. intros Hp H Hd. destruct (H Hd). split; by eapply not_denied_prefix. Qed.

Lemma unexpired_prefix h h' c : h `prefix_of` h' → unexpired h c → unexpired h' c.
Proof. intros Hp (t & H & ?). exists t. split; [still|done]. Qed.

Lemma sp_revoked h c (Q : list tevent → result error bool → Prop) :
  (∀ h' e, h `prefix_of` h' → Q h' (Err e)) → (∀ h', h `prefix_of` h' → Q h' (Ok true)) →
  (∀ h', h `prefix_of` h' → unrevoked h' c → Q h' (Ok false)) → spec h (ClaimsRevoked hd c) Q.
Proof.
  intros HE HT HF. unfold ClaimsRevoked. destruct (deny_list hd) eqn:Hd; cbv beta iota delta [negb].
  2: { apply sp_ret, HF; [still|]. unfold unrevoked. congruence. }
  assert (∀ p id h (Q' : list tevent → result error bool → Prop), (∀ h' e, h `prefix_of` h' → Q' h' (Err e)) →
    (∀ h', h `prefix_of` h' → Q' h' (Ok true)) →
    (∀ h', h `prefix_of` h' → not_denied h' p.(rp_namespace) id → Q' h' (Ok false)) →
    spec h (if decide (id = "") then mret false else isRevoked p id) Q') as Hask.
  { intros p id h0 Q' HE' HT' HF'. destruct (decide _) as [->|Hne]; [apply HF'; [still|by left]|].
    unfold isRevoked. rewrite decide_False by done. apply sp_bind, sp_bind, sp_try, sp_read; [done|].
    intros t [v|e]; [apply HT'; still|]. destruct (is_not_found e) eqn:He; [|apply HE'; still].
    apply HF'; [still|]. right. exists t, e. split; [still|done]. }
  apply sp_bind, (Hask tokenRevocations); [done|intros; by apply HT|]. intros h1 Hp1 H1. cbv beta iota.
  apply (Hask sessionRevocations); [intros; apply HE; still|intros; apply HT; still|].
  intros h2 Hp2 H2. apply HF; [still|]. intros _. split; [by eapply not_denied_prefix|done].
Qed.

(** A token of the request: good, of its kind, not expired, and not revoked. *)
Definition presents (q : Request) (allowBasic : bool) (tok typ : string) (via : CredentialSource) : Prop :=
  match via with
  | ViaSession => q.(cookie) = Some tok ∧ typ = TypSession
  | ViaBearer => BearerToken q.(header) = Some tok ∧ (typ = TypCLI ∨ typ = TypBearer)
  | ViaBasic => allowBasic = true ∧ BearerToken q.(header) = None ∧ q.(basic) = Some tok ∧ typ = TypCLI
  end.

Definition identified (q : Request) (allowBasic : bool) (h : list tevent) (who : Identity) : Prop :=
  ∃ s tok c, hd.(signer) = Some s ∧ presents q allowBasic tok c.(Typ) who.(i_Via) ∧ parse s tok = Ok c
    ∧ unexpired h c ∧ unrevoked h c ∧ who.(i_GitHubID) = c.(GitHubID) ∧ who.(i_Login) = c.(Login).

Lemma identified_prefix q b h h' who : h `prefix_of` h' → identified q b h who → identified q b h' who.
Proof.
  intros Hp (s & tok & c & H1 & H2 & H3 & H4 & H5 & H6). exists s, tok, c.
  split_and!; try done; [by eapply unexpired_prefix|by eapply unrevoked_prefix|by destruct H6..].
Qed.

Lemma sp_credential h s tok via types q b (Q : list tevent → result error (option Identity) → Prop) :
  hd.(signer) = Some s → (∀ typ, typ ∈ types → presents q b tok typ via) →
  (∀ h' e, h `prefix_of` h' → Q h' (Err e)) → (∀ h', h `prefix_of` h' → Q h' (Ok None)) →
  (∀ h' who, h `prefix_of` h' → identified q b h' who → Q h' (Ok (Some who))) →
  spec h (resolve_credential hmac unmarshal hd s tok via types) Q.
Proof.
  intros Hs Htyp. revert h. induction types as [|typ types IH]; intros h HE HN HQ; cbn [resolve_credential]; [by apply HN|].
  apply sp_bind, sp_verify.
  { intros h' e Hp _. cbv beta iota. apply IH; [by intros; apply Htyp, list_elem_of_further|..]; intros; [apply HE|apply HN|apply HQ]; try done; still. }
  intros h1 c Hp1 Hc Ht Hexp. cbv beta iota. apply sp_bind, sp_revoked; [intros; apply HE; still|intros; apply HN; still|].
  intros h2 Hp2 Hrev. apply HQ; [still|]. exists s, tok, c. rewrite Ht.
  split_and!; [done|apply Htyp, list_elem_of_here|done|by eapply unexpired_prefix|done..].
Qed.

Lemma sp_Resolve h s q b (Q : list tevent → result error (option Identity) → Prop) :
  hd.(signer) = Some s →
  (∀ h' e, h `prefix_of` h' → Q h' (Err e)) → (∀ h', h `prefix_of` h' → Q h' (Ok None)) →
  (∀ h' who, h `prefix_of` h' → identified q b h' who → Q h' (Ok (Some who))) →
  spec h (Resolve hmac unmarshal hd s q b) Q.
Proof.
  intros Hs HE HN HQ. unfold Resolve. apply sp_bind.
  assert (∀ h', h `prefix_of` h' → spec h' (match accessCredential q b with
    | Some (token, source, types) => resolve_credential hmac unmarshal hd s token source types
    | None => mret None end) Q) as Haccess.
  { intros h' Hp. destruct (accessCredential q b) as [[[tok via] types]|] eqn:Ha; [|by apply HN].
    apply (sp_credential _ _ _ _ _ q b); try done; [|intros; apply HE|intros; apply HN|intros; apply HQ]; try done; [|still..].
    intros typ Htyp. unfold accessCredential in Ha. destruct (BearerToken _) eqn:Hb.
    - simplify_eq. simpl. split; [done|sets].
    - destruct b; [|done]. destruct (basic q) eqn:Hq; simplify_eq/=. split_and!; try done. sets. }
  destruct (cookie q) as [v|] eqn:Hcookie; [|by apply sp_ret, Haccess].
  destruct (decide _); [by apply sp_ret, Haccess|].
  apply (sp_credential _ _ _ _ _ q b); [done| |done|done|].
  - intros typ ->%list_elem_of_singleton. done.
  - intros h' who Hp Hid. by apply sp_ret, HQ.
Qed.

(** The gate of the administrators' routes. *)
Definition admitted (q : Request) (allowBasic : bool) (h : list tevent) (who : Identity) : Prop :=
  identified q allowBasic h who ∧ found_admin h who.(i_GitHubID)
  ∧ (who.(i_Via) = ViaSession → q.(sameOrigin) = true).

Lemma sp_expired h s tok types (Q : list tevent → result error bool → Prop) :
  (∀ h' r, Q h' r) → spec h (expired_access hmac unmarshal hd s tok types) Q.
Proof.
  intros HQ. induction types as [|typ types IH]; cbn [expired_access]; [apply HQ|].
  destruct (parse s tok); [|done]. destruct (decide _); [done|].
  apply sp_bind, sp_time. intros t h' Hp _ _. apply sp_bind, sp_revoked; intros; apply HQ.
Qed.

Lemma sp_authorizeAdmin h q b hint (Q : list tevent → result Response Identity → Prop) :
  (∀ h' st x, Q h' (Err (Aborted st x))) →
  (∀ h' who, admitted q b h' who → Q h' (Ok who)) →
  spec h (authorizeAdminRequest hmac unmarshal hd q b hint) Q.
Proof.
  intros HE HQ. unfold authorizeAdminRequest. destruct (signer hd) as [s|] eqn:Hs; [|apply HE].
  destruct (negb _); [apply HE|]. apply sp_bind, sp_on_err, (sp_Resolve _ _ q b); [done|intros; apply HE|..].
  - intros h' Hp. cbv beta iota delta [map_err]. apply sp_bind. destruct hint; [|apply sp_ret, HE].
    apply sp_on_err. unfold ExpiredAccessToken. destruct (accessCredential q b) as [[[tok via] types]|]; [|apply sp_ret, HE].
    apply sp_expired. intros h2 [x|e]; [apply HE|apply HE].
  - intros h' who Hp Hid. cbv beta iota delta [map_err].
    destruct (match i_Via who with ViaSession => _ | _ => _ end) eqn:Hvia; [apply HE|].
    apply sp_bind, sp_IsAdmin; [intros; apply HE|]. intros h2 Hp2 Hadmin. apply HQ.
    split_and!; [by eapply identified_prefix|done|]. intros Hv. rewrite Hv in Hvia. by destruct (sameOrigin q).
Qed.

(** ** Every request *)

(** A CI credential or scope that the policy allows. *)
Definition ci_allows (outcome : CIOutcome * option CIPrincipal) (p : option CIPrincipal) : Prop :=
  Enabled hd.(ci) = true ∧ outcome = (CIOutcomeAllow, p).

Definition scope_allows (q : Request) (scope : string) := ci_allows (AuthorizeScope hd.(ci) q.(header) scope).

Definition repo_allows (q : Request) (repo : string) (p : option CIPrincipal) : Prop :=
  ∃ a, hd.(ci) = Some a ∧ ci_allows (Authorize verify_oidc a q.(header) repo) p.

(** The token of a log request that was spent for it. *)
Definition log_granted (q : Request) (token : string) (h : list tevent) : Prop :=
  ∃ tok t ttl, tok = (if decide (token ≠ "") then token else header_get q.(header) "X-Log-Token")
    ∧ tok ≠ "" ∧ (t, EvAdd SpentLogTokens tok one_byte ttl (Ok true)) ∈ h.

(** What each answer means for each request. *)
Definition granted (r : Req) (h : list tevent) (a : Response) : Prop :=
  match a with
  | TokenPair at_ rt n login id =>
      match r with
      | ReqRefresh body => refreshed body h at_ rt login id
      | ReqCLIExchange body => exchanged TypCodeCLI body h login id
      | ReqDeviceToken body => device_granted body h login id
      | _ => False
      end
  | WebToken _ login id =>
      match r with ReqWebExchange body => exchanged TypCodeWeb body h login id | _ => False end
  | Session _ | ToLoopback _ _ _ | WebBridge _ _ =>
      match r with ReqCallback _ _ _ user => let_in user h | _ => False end
  | AuthOK =>
      match r with
      | ReqRevoke hdr rt => hd.(deny_list) = true → logged_out (BearerToken hdr) rt h
      | ReqLogout _ => True
      | _ => False
      end
  | Next (Some who) _ =>
      match r with
      | ReqAdmin q b => admitted q b h who
      | ReqCI q _ | ReqScope q _ | ReqLogs q _ _ => admitted q false h who
      | ReqSignerRegistration q => admitted q true h who
      | _ => False
      end
  | Next None p =>
      match r with
      | ReqCI q repo => repo_allows q repo p
      | ReqScope q scope => scope_allows q scope p
      | ReqSignerRegistration q => scope_allows q "signer:register" p
      | ReqLogs q token _ => log_granted q token h
      | _ => False
      end
  | _ => True
  end.

Definition meaning (r : Req) (h : list tevent) (res : result Response Response) : Prop :=
  match res with
  | Ok a => granted r h a
  | Err a => match a with AuthError _ _ | Aborted _ _ => True | _ => False end
  end.

Lemma admitted_weaken q h who : admitted q false h who → admitted q true h who.
Proof.
  intros [(s & tok & c & H1 & H2 & H3) H4]. split; [|done]. exists s, tok, c. split_and!; [done| |apply H3..].
  destruct (i_Via who); try done. by destruct H2.
Qed.

Lemma sp_requireAdmin h b q (Q : list tevent → result Response Response → Prop) :
  (∀ h' st x, Q h' (Err (Aborted st x))) →
  (∀ h' who, admitted q b h' who → Q h' (Ok (Next (Some who) None))) →
  spec h (requireAdmin hmac unmarshal hd b q) Q.
Proof. intros HE HQ. by apply sp_bind, sp_authorizeAdmin. Qed.

Lemma sp_require_ci h outcome q (Q : list tevent → result Response Response → Prop) :
  (∀ h' st x, Q h' (Err (Aborted st x))) →
  (∀ h' who, admitted q false h' who → Q h' (Ok (Next (Some who) None))) →
  (∀ h' p, outcome = (CIOutcomeAllow, p) → Q h' (Ok (Next None p))) →
  spec h (require_ci hmac unmarshal hd outcome q) Q.
Proof.
  intros HE HA HC. unfold require_ci. destruct outcome as [[] p]; [by apply sp_requireAdmin|apply HE|by apply HC].
Qed.

Lemma sp_scope h q scope (Q : list tevent → result Response Response → Prop) :
  (∀ h' st x, Q h' (Err (Aborted st x))) →
  (∀ h' who, admitted q false h' who → Q h' (Ok (Next (Some who) None))) →
  (∀ h' p, scope_allows q scope p → Q h' (Ok (Next None p))) →
  spec h (RequireServiceScope hmac unmarshal hd q scope) Q.
Proof.
  intros HE HA HC. unfold RequireServiceScope. destruct (Enabled _) eqn:He; [|by apply sp_requireAdmin].
  apply sp_require_ci; [done..|]. intros h' p Ho. by apply HC.
Qed.

Lemma sp_RequireCI q repo : spec [] (RequireCI hmac unmarshal verify_oidc hd q repo) (meaning (ReqCI q repo)).
Proof.
  unfold RequireCI. destruct (ci hd) as [a|] eqn:Ha; [|by apply sp_requireAdmin].
  destruct (Enabled (Some a)) eqn:He; [|by apply sp_requireAdmin].
  apply sp_require_ci; [done..|]. intros h' p Ho. exists a. unfold ci_allows. by rewrite Ha.
Qed.

Lemma sp_SignerRegistration q :
  spec [] (RequireSignerRegistration hmac unmarshal hd q) (meaning (ReqSignerRegistration q)).
Proof.
  assert (∀ h : list tevent, spec h (RequireServiceScope hmac unmarshal hd q "signer:register") (meaning (ReqSignerRegistration q))).
  { intros h. apply sp_scope; [done| |done]. intros h' who. apply admitted_weaken. }
  unfold RequireSignerRegistration. destruct (decide _); [done|]. destruct (_ && _); [|done].
  by apply sp_requireAdmin.
Qed.

Lemma sp_Logs q token id :
  spec [] (RequireLogAccess hmac unmarshal decode_log hd q token id) (meaning (ReqLogs q token id)).
Proof.
  unfold RequireLogAccess. set (tok := if decide (token ≠ "") then _ else _). destruct (decide (tok ≠ "")) as [Hne|].
  2: { by apply sp_bind, sp_authorizeAdmin. }
  destruct (negb _); [done|]. apply sp_bind, sp_on_err, sp_ConsumeLogToken; [done..|].
  intros h' job t ttl Hp Hin. cbv beta iota delta [map_err]. case_bool_decide; [|done]. by exists tok, t, ttl.
Qed.

Lemma sp_MintLogToken id : spec [] (MintLogTokenHandler encode_log hd id) (meaning (ReqMintLogToken id)).
Proof.
  unfold MintLogTokenHandler. destruct (negb _); [done|]. apply sp_bind, sp_on_err, sp_opaque; [done|].
  intros h1 tok Hp1. apply sp_bind, sp_on_err. unfold StoreLogToken. destruct (decide _); [done|].
  apply sp_bind, sp_time. intros now h2 Hp2 _ _. apply sp_put; [done|by intros []| |done].
  intros t _. split; [done|]. auto.
Qed.

Lemma sp_Me q : spec [] (MeHandler hmac unmarshal hd q) (meaning (ReqMe q)).
Proof.
  unfold MeHandler. destruct (signer hd) as [s|] eqn:Hs; [|done].
  apply sp_bind, sp_on_err, (sp_Resolve _ _ q false); [done..|]. intros h1 who Hp1 _.
  apply sp_bind, sp_IsAdmin; done.
Qed.

End flow.

(** The id that GitHub answered with. *)
Definition github_users (r : Req) : list Z :=
  match r with ReqCallback _ _ _ user => option_list (u_ID <$> user) | _ => [] end.

(** Every handler keeps the protocol, and its answer means what [meaning] says. *)
Section serve.
Context (hmac : string → string → string).
Context (marshal : Claims → option string) (unmarshal : string → option Claims).
Context (encode_device : deviceRecord → string) (decode_device : string → option deviceRecord).
Context (encode_log : logTokenRecord → string) (decode_log : string → option logTokenRecord).
Context (HashHex S256 : string → string) (verify_oidc : string → option oidcClaims).
Context {R : RangeOrder} (hd : Server).
Context (Hdevice : ∀ rec, decode_device (encode_device rec) = Some rec).
Context (Hrefresh : (0 < hd.(RefreshTokenTTL))%Z).

Abbreviation serve := (AuthFlow.serve hmac marshal unmarshal encode_device decode_device encode_log decode_log
  HashHex S256 verify_oidc hd).
Abbreviation disciplined := (AuthFlowSpec.disciplined hmac unmarshal decode_device HashHex hd).
Abbreviation meaning := (AuthFlowSpec.meaning hmac marshal unmarshal decode_device HashHex S256 verify_oidc hd).

Lemma plain_meaning r h res : plain res → meaning r h res.
Proof. by destruct res as [[]|[]]. Qed.

Lemma serve_meaning r : spec (disciplined (spent_tokens r) (github_users r)) [] (serve r) (meaning r).
Proof.
  pose proof (plain_meaning r) as Hplain.
  destruct r as [|uc|body|  |port ch st|ch st|st nonce code user|body|body|body|hdr rt|q|q|q b|q repo|q scope|q|q tok id|id];
    cbn [AuthFlow.serve spent_tokens github_users].
  - by apply sp_DeviceCode.
  - by apply sp_DeviceApprove.
  - by apply sp_DeviceToken.
  - by apply sp_GitHubLogin.
  - by apply sp_CLIStart.
  - by apply sp_WebStart.
  - apply sp_Callback; [done..| |done]. intros h a Hin. by destruct a.
  - by apply sp_CLIExchange.
  - by apply sp_WebExchange.
  - by apply sp_Refresh.
  - by apply sp_Revoke.
  - by apply sp_Logout.
  - by apply sp_Me.
  - by apply sp_requireAdmin.
  - by apply sp_RequireCI.
  - by apply sp_scope.
  - by apply sp_SignerRegistration.
  - by apply sp_Logs.
  - by apply sp_MintLogToken.
Qed.
End serve.
