(* ===== verification/AuthFlowHistory.v ===== *)
(** * Logging in, refreshing and logging out: every interleaving

    Any number of requests, on any number of instances of ayato that share one store, make their
    calls in any order, at any time, with any failures.  A refresh token, a one-time code and a
    device authorization are each spent once, a session that was ended stays ended, and a device
    is only let in for a person GitHub vouched for who was an administrator. *)

From S2P Require Import Prelude GoStrings Base64 Token CIAuth KV KVSpec AuthStore AuthFlow AuthFlowSpec.

Lemma expires_at_Some b now ttl x : (0 < ttl)%Z → expires_at b now ttl = Some x → x = b.(round) (now + ttl)%Z.
Proof. intros H. unfold expires_at. rewrite (proj2 (Z.ltb_lt 0 ttl)) by done. congruence. Qed.

Section history.
Context (hmac : string → string → string).
Context (marshal : Claims → option string) (unmarshal : string → option Claims).
Context (encode_device : deviceRecord → string) (decode_device : string → option deviceRecord).
Context (encode_log : logTokenRecord → string) (decode_log : string → option logTokenRecord).
Context (HashHex S256 : string → string) (verify_oidc : string → option oidcClaims).
Context {R : RangeOrder} (hd : Server).
Context (Hdevice : ∀ rec, decode_device (encode_device rec) = Some rec).
Context (Hrefresh : (0 < hd.(RefreshTokenTTL))%Z).
Context (b : Backend) (t0 : table) (now0 : Z) (reqs : list Req).

Abbreviation serve := (AuthFlow.serve hmac marshal unmarshal encode_device decode_device encode_log decode_log
  HashHex S256 verify_oidc hd).
Abbreviation disciplined := (AuthFlowSpec.disciplined hmac unmarshal decode_device HashHex hd).
Abbreviation granted := (AuthFlowSpec.granted hmac marshal unmarshal decode_device HashHex S256 verify_oidc hd).
Abbreviation meaning := (AuthFlowSpec.meaning hmac marshal unmarshal decode_device HashHex S256 verify_oidc hd).
Abbreviation parse := (Token.parse hmac unmarshal).
Abbreviation after l := (runs b (init t0 now0) l).

(** The answer of a request. *)
Definition answers (cfg : config Response) (i : nat) (a : Response) : Prop :=
  ∃ p, threads cfg !! i = Some p ∧ answer p = Some a.

(** The requests were started in order, the last of them perhaps not yet. *)
Definition serves (l : list (action Response)) : Prop := started l `prefix_of` map serve reqs.

(** What request [i] keeps to. *)
Definition protocol (i : nat) : list tevent → Z → event → Prop :=
  match reqs !! i with
  | Some r => disciplined (spent_tokens r) (github_users r)
  | None => λ _ _ _, False
  end.

Lemma serves_lookup l i p : serves l → started l !! i = Some p → ∃ r, reqs !! i = Some r ∧ p = serve r.
Proof.
  intros [k Hk] Hp. assert (map serve reqs !! i = Some p) as H by (rewrite Hk; by apply lookup_app_l_Some).
  apply list_lookup_fmap_Some in H as (r & -> & Hr). eauto.
Qed.

Lemma protocol_serve l i p : serves l → started l !! i = Some p → spec (protocol i) [] p (λ _ _, True).
Proof.
  intros Hl Hp. destruct (serves_lookup l i p Hl Hp) as (r & Hr & ->). unfold protocol. rewrite Hr.
  eapply sp_mono; [|done]. by apply serve_meaning.
Qed.

Section run.
Context (l : list (action Response)) (Hl : serves l).
Abbreviation cfg := (after l).

Lemma run_reached : reached b t0 protocol (started l) cfg.
Proof. apply runs_reached. Qed.

Lemma answer_granted i r a : reqs !! i = Some r → answers cfg i a → granted r (log i (history cfg)) a.
Proof.
  intros Hr (p & Hp & Ha). pose proof run_reached as Hreach.
  assert (is_Some (started l !! i)) as [p0 Hp0].
  { apply lookup_lt_is_Some. rewrite <-(reached_length _ _ _ _ _ Hreach). by eapply lookup_lt_Some. }
  destruct (serves_lookup l i p0 Hl Hp0) as (r' & Hr' & ->). simplify_eq.
  pose proof (reached_thread _ _ _ _ _ Hreach i p (serve r) (meaning r) Hp Hp0) as Hspec.
  unfold protocol in Hspec. rewrite Hr in Hspec. specialize (Hspec ltac:(by apply serve_meaning)).
  destruct p as [[a'|a']|]; simpl in Ha; simplify_eq; [done|].
  change (meaning r (log i (history cfg)) (Err a)) in Hspec. by destruct a.
Qed.

(** Every call was allowed to the request that made it. *)
Lemma call_allowed i t ev : (i, (t, ev)) ∈ history cfg →
  ∃ r pre post, reqs !! i = Some r ∧ history cfg = pre ++ (i, (t, ev)) :: post
    ∧ disciplined (spent_tokens r) (github_users r) (log i pre) t ev.
Proof.
  intros (pre & post & Hh)%list_elem_of_split.
  pose proof (reached_events _ _ _ _ _ run_reached pre i t ev post Hh) as H.
  unfold protocol in H at 2. destruct (reqs !! i) as [r|]; [|exfalso; apply H].
  - exists r, pre, post. split_and!; [done..|]. apply H. intros j p Hp. by apply (protocol_serve l).
  - intros j p Hp. by apply (protocol_serve l).
Qed.

(** ** How long the rows that spend something stay *)

(** The tokens and codes of all requests. *)
Definition presented_tokens : list string := concat (map spent_tokens reqs).

Lemma spent_presented i r tok : reqs !! i = Some r → tok ∈ spent_tokens r → tok ∈ presented_tokens.
Proof.
  intros Hr Htok. apply list_elem_of_In, in_concat. exists (spent_tokens r).
  split; apply list_elem_of_In; [|done]. apply list_elem_of_fmap_2, (list_elem_of_lookup_2 _ _ _ Hr).
Qed.

Lemma round_until t ttl x e : (0 < ttl)%Z → expires_at b t ttl = Some x → (e ≤ t + ttl)%Z → (b.(round) e ≤ x)%Z.
Proof. intros Httl ->%expires_at_Some He; [|done]. by apply round_mono. Qed.

Lemma keeps_token s jti e ev : hd.(signer) = Some s →
  (∀ tok c, tok ∈ presented_tokens → parse s tok = Ok c → c.(JTI) = jti → (e ≤ c.(Exp))%Z) →
  ev ∈ history cfg → keeps b (TokenDenylist, jti) (b.(round) e) ev.2.
Proof.
  intros Hs He Hin. destruct ev as [i [t ev]]. apply call_allowed in Hin as (r & pre & post & Hr & _ & Hd).
  assert (∀ until, denies hmac unmarshal hd (spent_tokens r) jti until → (e ≤ until)%Z) as Hdeny.
  { intros u (c & (s' & tok & Hs' & Htok & Hc) & Hj & Hu). simplify_eq. etrans; [|exact Hu].
    apply (He tok c); [by eapply spent_presented|done..]. }
  destruct ev; simpl in *; try done; unfold keeps; simpl.
  - intros [= -> ->] x Hx. destruct Hd as (_ & Httl & [[_ ?]|[[]|[[]|[]]]]); try done.
    by eapply round_until; [|exact Hx|apply Hdeny].
  - by destruct Hd as [->|[->| ->]].
  - intros [= -> ->] x Hx. destruct Hd as (_ & Httl & [[_ ?]|[[]|[[]|]]]); try done.
    by eapply round_until; [|exact Hx|apply Hdeny].
Qed.

Lemma keeps_code s code e ev : hd.(signer) = Some s →
  (∀ code' c, code' ∈ presented_tokens → HashHex code' = HashHex code → parse s code' = Ok c → (e ≤ c.(Exp))%Z) →
  (∀ d, HashHex code ≠ "devpoll:" +:+ d) →
  ev ∈ history cfg → keeps b (ReplayCodes, HashHex code) (b.(round) e) ev.2.
Proof.
  intros Hs He Hpoll Hin. destruct ev as [i [t ev]]. apply call_allowed in Hin as (r & pre & post & Hr & _ & Hd).
  destruct ev; simpl in *; try done; unfold keeps; simpl.
  - intros [= -> ->]. by destruct Hd as (_ & _ & [[]|[[]|[[]|[]]]]).
  - by destruct Hd as [->|[->| ->]].
  - intros [= -> ->] x Hx. destruct Hd as (_ & Httl & [[]|[[_ [[d Hkey]|Hcode]]|[[]|]]]); try done.
    { by destruct (Hpoll d). }
    destruct Hcode as (s' & code' & c & Hs' & Hin & Hc & Hh & Hu). simplify_eq.
    eapply round_until; [exact Httl|exact Hx|]. etrans; [|exact Hu].
    apply (He code'); [by eapply spent_presented|done..].
Qed.

Lemma read_device_app h h' code rec :
  read_device decode_device h code rec → read_device decode_device (h ++ h') code rec.
Proof. intros (t & raw & Hin & Hd). exists t, raw. split; [set_solver|done]. Qed.

Lemma keeps_device code e ev :
  (∀ i rec, read_device decode_device (log i (history cfg)) code rec → (e ≤ unix rec.(dr_ExpiresAt))%Z) →
  ev ∈ history cfg → keeps b (SpentDevices, code) (b.(round) e) ev.2.
Proof.
  intros He Hin. destruct ev as [i [t ev]]. apply call_allowed in Hin as (r & pre & post & Hr & Hh & Hd).
  destruct ev; simpl in *; try done; unfold keeps; simpl.
  - intros [= -> ->]. by destruct Hd as (_ & _ & [[]|[[]|[[]|[]]]]).
  - by destruct Hd as [->|[->| ->]].
  - intros [= -> ->] x Hx. destruct Hd as (_ & Httl & [[]|[[]|[(_ & rec & Hrec & Hu)|]]]); try done.
    eapply round_until; [exact Httl|exact Hx|]. etrans; [|exact Hu]. apply (He i).
    rewrite Hh, log_app. by apply read_device_app.
Qed.

(** A session is denied for the life of a refresh token, at least. *)
Lemma keeps_session sid from i t ev : (i, (t, ev)) ∈ history cfg → (from ≤ t)%Z →
  keeps b (SessionDenylist, sid) (b.(round) (from + hd.(RefreshTokenTTL))%Z) (t, ev).
Proof.
  intros Hin Hfrom. apply call_allowed in Hin as (r & pre & post & Hr & Hh & Hd).
  destruct ev; simpl in *; try done; unfold keeps; simpl.
  - intros [= -> ->] x Hx. destruct Hd as (_ & Httl & [[]|[[_ ?]|[[]|[]]]]); try done.
    eapply round_until; [exact Httl|exact Hx|]. by apply Z.add_le_mono.
  - by destruct Hd as [->|[->| ->]].
  - intros [= -> ->]. by destruct Hd as (_ & _ & [[]|[[]|[[]|]]]).
Qed.

(** ** Spent once *)

Lemma spent_once i j ns key e ti ttli tj ttlj : i ≠ j →
  (∀ ev, ev ∈ history cfg → keeps b (ns, key) e ev.2) →
  (ti, EvAdd ns key one_byte ttli (Ok true)) ∈ log i (history cfg) →
  (tj, EvAdd ns key one_byte ttlj (Ok true)) ∈ log j (history cfg) →
  b.(reuses) = true ∧ (e ≤ clock cfg)%Z.
Proof.
  intros Hne Hk Hi Hj. destruct run_reached as [Hr Ho _ _ _ _]. by eapply added_once.
Qed.
End run.

(** ** Theorems *)

(** C11. A refresh token is good for one token pair: two requests that present tokens of the same
    id (whatever the handlers' interleaving, on any number of instances, with any failures of the
    store) are both answered with a pair only by a store that puts a new row in the place of an
    expired one, and not before the expiry of the token, as that store rounds it.  So with sqlkv
    it never happens, and with badgerkv only in the last, partial second. *)
Theorem refresh_once l i j s tok tok' c c' a r n login id a' r' n' login' id' :
  serves l → i ≠ j → hd.(signer) = Some s →
  reqs !! i = Some (ReqRefresh (Some tok)) → reqs !! j = Some (ReqRefresh (Some tok')) →
  parse s tok = Ok c → parse s tok' = Ok c' → c'.(JTI) = c.(JTI) →
  (∀ tok2 c2, tok2 ∈ presented_tokens → parse s tok2 = Ok c2 → c2.(JTI) = c.(JTI) → (c.(Exp) ≤ c2.(Exp))%Z) →
  answers (after l) i (TokenPair a r n login id) → answers (after l) j (TokenPair a' r' n' login' id') →
  b.(reuses) = true ∧ (b.(round) c.(Exp) ≤ clock (after l))%Z.
Proof.
  intros Hl Hne Hs Hi Hj Hc Hc' Hjti Hexp Ha Ha'.
  apply (answer_granted l Hl i _ _ Hi) in Ha as (s1 & t1 & c1 & ti & ttli & [= <-] & Hs1 & Hc1 & _ & Hadd & _).
  apply (answer_granted l Hl j _ _ Hj) in Ha' as (s2 & t2 & c2 & tj & ttlj & [= <-] & Hs2 & Hc2 & _ & Hadd' & _).
  assert (c1 = c) as -> by congruence. assert (c2 = c') as -> by congruence. rewrite Hjti in Hadd'. eapply (spent_once l i j); [done| |exact Hadd|exact Hadd'].
  intros ev. by apply (keeps_token l Hl s).
Qed.

(** The answer that redeems a one-time code. *)
Definition redeems (code : string) (r : Req) (a : Response) : Prop :=
  match r, a with
  | ReqCLIExchange (Some (code', _)), TokenPair _ _ _ _ _ => code' = code
  | ReqWebExchange (Some (code', _)), WebToken _ _ _ => code' = code
  | _, _ => False
  end.

(** A one-time code is good for one login: a second redemption of the same text needs a store
    that reuses expired rows, and the code to have expired. *)
Theorem exchange_once l i j s code c r r' a a' :
  serves l → i ≠ j → hd.(signer) = Some s → hd.(replay_guard) = true → parse s code = Ok c →
  (∀ code', code' ∈ presented_tokens → HashHex code' = HashHex code → code' = code) →
  (∀ d, HashHex code ≠ "devpoll:" +:+ d) →
  reqs !! i = Some r → reqs !! j = Some r' → answers (after l) i a → answers (after l) j a' →
  redeems code r a → redeems code r' a' →
  b.(reuses) = true ∧ (b.(round) c.(Exp) ≤ clock (after l))%Z.
Proof.
  intros Hl Hne Hs Hg Hc Hinj Hpoll Hi Hj Ha Ha' Hr Hr'.
  assert (∀ k r0 a0, reqs !! k = Some r0 → answers (after l) k a0 → redeems code r0 a0 →
    ∃ t ttl, (t, EvAdd ReplayCodes (HashHex code) one_byte ttl (Ok true)) ∈ log k (history (after l))) as Hadd.
  { intros k r0 a0 Hk Hans Ha0. apply (answer_granted l Hl k _ _ Hk) in Hans.
    destruct r0 as [| | | | | | |[[code0 v]|]|[[code0 v]|]| | | | | | | | | |], a0; try done; simpl in Ha0; subst code0;
      destruct Hans as (c0 & (s0 & code0 & v1 & [= <- <-] & _ & _ & _ & _ & _ & H) & _); by apply H. }
  destruct (Hadd i r a) as (ti & ttli & Hti); [done..|].
  destruct (Hadd j r' a') as (tj & ttlj & Htj); [done..|].
  eapply (spent_once l i j); [done| |exact Hti|exact Htj]. intros ev. apply (keeps_code l Hl s); [done| |done].
  intros code' c' Hin Hh Hc'. rewrite (Hinj code' Hin Hh) in Hc'. by assert (c' = c) as -> by congruence.
Qed.

(** A device code is good for one token pair: a second one needs a store that reuses expired
    rows, and the time to be past the expiry of the records read under the code. *)
Theorem device_once l i j code expiry a r n login id a' r' n' login' id' :
  serves l → i ≠ j →
  reqs !! i = Some (ReqDeviceToken (Some code)) → reqs !! j = Some (ReqDeviceToken (Some code)) →
  (∀ k rec, read_device decode_device (log k (history (after l))) code rec → (expiry ≤ unix rec.(dr_ExpiresAt))%Z) →
  answers (after l) i (TokenPair a r n login id) → answers (after l) j (TokenPair a' r' n' login' id') →
  b.(reuses) = true ∧ (b.(round) expiry ≤ clock (after l))%Z.
Proof.
  intros Hl Hne Hi Hj Hx Ha Ha'.
  apply (answer_granted l Hl i _ _ Hi) in Ha as (c1 & rec1 & t1 & ttl1 & [= <-] & _ & _ & _ & _ & _ & Hadd).
  apply (answer_granted l Hl j _ _ Hj) in Ha' as (c2 & rec2 & t2 & ttl2 & [= <-] & _ & _ & _ & _ & _ & Hadd').
  eapply (spent_once l i j); [done| |exact Hadd|exact Hadd']. intros ev. by apply (keeps_device l Hl).
Qed.

(** ** Ended sessions *)

(** Once the denial of a session is written, a later look for it finds it, until the life of a
    refresh token is over. *)
Lemma denial_found l1 l2 tr i j sid t ttl t' e : serves (l1 ++ l2) → extends b (after l1) (after (l1 ++ l2)) tr →
  (i, (t, EvSet SessionDenylist sid one_byte ttl (Ok tt))) ∈ history (after l1) →
  (j, (t', EvGet SessionDenylist sid (Err e))) ∈ tr → is_not_found e = true →
  (b.(round) (t + hd.(RefreshTokenTTL)) ≤ clock (after (l1 ++ l2)))%Z.
Proof.
  intros Hl Hx Hset Hget He. destruct (run_reached (l1 ++ l2)) as [Hr Ho _ _ _ _].
  apply list_elem_of_split in Hset as (pre & post & Hh).
  assert (history (after (l1 ++ l2)) = pre ++ (i, (t, EvSet SessionDenylist sid one_byte ttl (Ok tt))) :: (post ++ tr)) as Hh'.
  { rewrite (extends_history _ _ _ _ Hx), Hh, <-(assoc_L (++)). done. }
  assert (∀ ev, ev ∈ history (after (l1 ++ l2)) → (t ≤ ev.2.1)%Z →
    keeps b (SessionDenylist, sid) (b.(round) (t + hd.(RefreshTokenTTL))%Z) ev.2) as Hk.
  { intros [k [tk ev]] Hin Hle. by apply (keeps_session (l1 ++ l2) Hl sid t k). }
  destruct Ho as [Hsort Hnow]. rewrite Hh', map_app in Hsort. apply StronglySorted_app in Hsort as (_ & _ & Hsort).
  apply StronglySorted_inv in Hsort as [_ Hlater].
  rewrite Hh' in Hr. transitivity t'.
  - eapply set_not_missed; [exact Hr| | |by apply elem_of_app; right; exact Hget|done].
    + apply (Hk (i, (t, EvSet SessionDenylist sid one_byte ttl (Ok tt)))); [rewrite Hh'; set_solver|done|done].
    + intros ev Hin. apply Hk; [rewrite Hh'; set_solver|]. rewrite Forall_forall in Hlater. by apply Hlater, (list_elem_of_fmap_2 (λ e, e.2.1)).
  - rewrite Forall_forall in Hnow. apply (Hnow (j, (t', EvGet SessionDenylist sid (Err e)))). rewrite Hh'. set_solver.
Qed.

(** A token that a request for revocation presents. *)
Definition revokes (r : Req) (tok typ : string) : Prop :=
  match r with
  | ReqRevoke hdr rt => BearerToken hdr = Some tok ∧ typ = TypCLI ∨ rt = tok ∧ tok ≠ "" ∧ typ = TypRefresh
  | _ => False
  end.

(** The configuration after [l0 ++ l1] in which request [i], not started before [l0] was over, has
    been told that the session of its token is ended, before that token expired. *)
Definition session_over (l0 l1 : list (action Response)) (i : nat) (s : Signer) (tok : string) (c : Claims) : Prop :=
  (length (started l0) ≤ i)%nat ∧ hd.(signer) = Some s ∧ hd.(deny_list) = true ∧ parse s tok = Ok c
  ∧ (∃ r, reqs !! i = Some r ∧ revokes r tok c.(Typ)) ∧ answers (after (l0 ++ l1)) i AuthOK
  ∧ (clock (after (l0 ++ l1)) ≤ c.(Exp))%Z ∧ sessionFamilyID c ≠ "".

Lemma unstarted_log (l : list (action Response)) i : (length (started l) ≤ i)%nat → log i (history (after l)) = [].
Proof.
  intros Hlen. destruct (log i (history (after l))) as [|e h] eqn:Hh; [done|].
  assert (e ∈ log i (history (after l))) as Hin by (rewrite Hh; set_solver).
  apply elem_of_log, (reached_started _ _ _ _ _ (run_reached l)) in Hin. lia.
Qed.

Lemma started_app (l l' : list (action Response)) : started (l ++ l') = started l ++ started l'.
Proof. apply omap_app. Qed.

Lemma serves_prefix l l' : serves (l ++ l') → serves l.
Proof. unfold serves. rewrite started_app. intros [k ->]. exists (started l' ++ k). by rewrite (assoc_L (++)). Qed.

Lemma session_over_denied l0 l1 i s tok c : serves (l0 ++ l1) → session_over l0 l1 i s tok c →
  ∃ t ttl, (i, (t, EvSet SessionDenylist (sessionFamilyID c) one_byte ttl (Ok tt))) ∈ history (after (l0 ++ l1))
    ∧ (clock (after l0) ≤ t)%Z.
Proof.
  intros Hl (Hlen & Hs & Hdl & Hc & (r & Hr & Hrev) & Ha & Hexp & Hfam).
  destruct r as [| | | | | | | | | |hdr rt| | | | | | | |]; try done.
  apply (answer_granted _ Hl i _ _ Hr) in Ha. destruct (Ha Hdl) as (s' & Hs' & _ & Hbearer & Hbody).
  assert (s' = s) as -> by congruence. clear Hs'.
  assert (ended (log i (history (after (l0 ++ l1)))) c) as [(t & Hnow & Hlt)|[?|(t & ttl & Hset)]]; [..|done|].
  { destruct Hrev as [[Hb Ht]|(<- & Hne & Ht)]; [by eapply Hbearer|by apply Hbody]. }
  - apply elem_of_log in Hnow. destruct (run_reached (l0 ++ l1)) as [_ [_ Ho] _ _ _ _].
    rewrite Forall_forall in Ho. apply Ho in Hnow. simpl in Hnow. lia.
  - exists t, ttl. apply elem_of_log in Hset. split; [done|].
    destruct (runs_extends b (after l0) l1) as (tr & [Hh _ Hlater _ _]). rewrite <-runs_app in Hh.
    rewrite Hh in Hset. apply elem_of_app in Hset as [Hset|Hset].
    + apply elem_of_log in Hset. rewrite (unstarted_log l0 i Hlen) in Hset. by apply elem_of_nil in Hset.
    + rewrite Forall_forall in Hlater. by apply Hlater in Hset.
Qed.

(** C12. A session that was ended stays ended: once a request for revocation has been answered, a
    refresh of the same session that had not been answered yet gets no token pair, not even one
    that runs at the same time, for as long as a refresh token of the session can live. *)
Theorem revoked_session_not_refreshed l0 l1 l2 i j s tok c tok' c' a r n login id :
  serves (l0 ++ l1 ++ l2) → session_over l0 l1 i s tok c →
  reqs !! j = Some (ReqRefresh (Some tok')) → parse s tok' = Ok c' → sessionFamilyID c' = sessionFamilyID c →
  (∀ a0, ¬ answers (after (l0 ++ l1)) j a0) →
  answers (after (l0 ++ l1 ++ l2)) j (TokenPair a r n login id) →
  (b.(round) (clock (after l0) + hd.(RefreshTokenTTL)) ≤ clock (after (l0 ++ l1 ++ l2)))%Z.
Proof.
  rewrite (assoc_L (++) l0). intros Hl Hover Hj Hc' Hfam Hopen Ha. set (l3 := l0 ++ l1) in *.
  destruct (session_over_denied l0 l1 i s tok c) as (t & ttl & Hset & Ht); [by eapply serves_prefix|done|].
  destruct (runs_extends b (after l3) l2) as (tr & Hx). rewrite <-runs_app in Hx.
  pose proof (answer_granted _ Hl j _ _ Hj Ha) as (s1 & tok1 & c1 & t1 & ttl1 & [= <-] & Hs1 & Hc1 & _ & _ & Hcheck & _).
  assert (c1 = c') as -> by (destruct Hover as (_ & Hs & _); congruence). rewrite Hfam in Hcheck.
  destruct Hcheck as (h0 & t' & e & Hlog & He).
  assert ((j, (t', EvGet SessionDenylist (sessionFamilyID c) (Err e))) ∈ tr) as Hget.
  { destruct Ha as (p & Hp & Hans). destruct p as [res|]; [|done].
    eapply (last_call_later b (after l3)); [exact Hx|exact Hp| | |exact Hlog].
    - intros r' Hr'. destruct r' as [x|x]; apply (Hopen x); by eexists.
    - intros Hnone. apply unstarted_log. apply lookup_ge_None in Hnone.
      by rewrite (reached_length _ _ _ _ _ (run_reached l3)) in Hnone. }
  etrans; [|by eapply denial_found]. apply round_mono. lia.
Qed.

(** Nor does it open the protected routes: a request that starts after the answer and carries
    tokens of the session only is not let in. *)
Theorem revoked_session_not_admitted l0 l1 l2 i j s tok c q allowBasic who p :
  serves (l0 ++ l1 ++ l2) → session_over l0 l1 i s tok c →
  reqs !! j = Some (ReqAdmin q allowBasic) → (length (started (l0 ++ l1)) ≤ j)%nat →
  (∀ tok' typ via c', presents q allowBasic tok' typ via → parse s tok' = Ok c' → c'.(SessionID) = sessionFamilyID c) →
  answers (after (l0 ++ l1 ++ l2)) j (Next (Some who) p) →
  (b.(round) (clock (after l0) + hd.(RefreshTokenTTL)) ≤ clock (after (l0 ++ l1 ++ l2)))%Z.
Proof.
  rewrite (assoc_L (++) l0). intros Hl Hover Hj Hlen Hsid Ha. set (l3 := l0 ++ l1) in *.
  destruct (session_over_denied l0 l1 i s tok c) as (t & ttl & Hset & Ht); [by eapply serves_prefix|done|].
  destruct (runs_extends b (after l3) l2) as (tr & Hx). rewrite <-runs_app in Hx.
  pose proof (answer_granted _ Hl j _ _ Hj Ha) as ((s1 & tok1 & c1 & Hs1 & Hpres & Hc1 & _ & Hun & _) & _).
  destruct Hover as (_ & Hs & Hdl & _ & _ & _ & _ & Hne). assert (s1 = s) as -> by congruence.
  destruct (Hun Hdl) as [_ Hden]. rewrite (Hsid _ _ _ _ Hpres Hc1) in Hden.
  destruct Hden as [?|(t' & e & Hget & He)]; [done|].
  rewrite (extends_history _ _ _ _ Hx), log_app, (unstarted_log l3 j Hlen) in Hget.
  apply elem_of_log in Hget. etrans; [|by eapply denial_found]. apply round_mono. lia.
Qed.

(** ** What is in the store *)

(** C13. A device is only let in for a person: the token pair of a device code names an id that
    GitHub answered with in some request to the callback, whose handler found it among the
    administrators, as did the handler that issued the pair. *)
Theorem device_login_vouched l i code a r n login id :
  serves l → reqs !! i = Some (ReqDeviceToken (Some code)) → answers (after l) i (TokenPair a r n login id) →
  (∀ key row rec, t0 !! (Devices, key) = Some row → decode_device row.(Value) = Some rec →
     rec.(dr_Status) ≠ DeviceApproved) →
  found_admin (log i (history (after l))) id
  ∧ ∃ k state nonce gh u, reqs !! k = Some (ReqCallback state nonce gh (Some u)) ∧ u.(u_ID) = id
    ∧ found_admin (log k (history (after l))) id.
Proof.
  intros Hl Hi Ha Ht0.
  apply (answer_granted l Hl i _ _ Hi) in Ha as (code' & rec & t & ttl & _ & (tr & raw & Hread & Hdec) & Hst & -> & _ & Hadm & _).
  split; [done|]. apply elem_of_log in Hread. apply list_elem_of_split in Hread as (pre & post & Hh).
  pose proof (reached_replay _ _ _ _ _ (run_reached l)) as Hr. rewrite Hh in Hr.
  apply replay_app in Hr as (t1 & Hpre & t2 & Hget & _).
  destruct (read_written _ _ _ _ _ _ _ _ _ Hpre Hget) as [(row & Hrow & <-)|([k [tw ev]] & Hin & Hw)].
  { exfalso. by eapply Ht0. }
  destruct (call_allowed l Hl k tw ev) as (rk & pre' & post' & Hk & Hh' & Hd); [rewrite Hh; set_solver|].
  destruct ev; try done; simpl in Hw; destruct Hw as (-> & -> & ->); simpl in Hd.
  - destruct Hd as (_ & _ & [[]|[[]|[(_ & rec' & Hdec' & Happ)|[]]]]); try done. simplify_eq.
    destruct (Happ Hst) as [Huser (ta & w & Hadm')]. destruct rk as [| | | | | |state nonce gh [u|]| | | | | | | | | | | |]; simpl in Huser;
      try by apply elem_of_nil in Huser.
    apply list_elem_of_singleton in Huser. exists k, state, nonce, gh, u. split_and!; [done..|].
    exists ta, w. rewrite Hh', log_app. set_solver.
  - by destruct Hd as (_ & _ & [[]|[[]|[[]|]]]).
Qed.

(** The rows that mark something hold one byte and expire; those of the devices are records, and
    expire. *)
Definition row_ok (k : string * string) (row : entry) : Prop :=
  (k.1 ∈ [TokenDenylist; SessionDenylist; ReplayCodes; SpentDevices; SpentLogTokens] →
     row.(Value) = one_byte ∧ is_Some row.(ExpiresAt))
  ∧ (k.1 = Devices → is_Some (decode_device row.(Value)) ∧ is_Some row.(ExpiresAt)).

Definition well_formed (t : table) : Prop := map_Forall row_ok t.

Lemma expires_is_Some now ttl : (0 < ttl)%Z → is_Some (expires_at b now ttl).
Proof. intros H. unfold expires_at. rewrite (proj2 (Z.ltb_lt 0 ttl)) by done. eauto. Qed.

(** C15. The store stays well formed, and no request of the login flow touches the list of
    administrators: after any run each row has the shape its readers expect, the marks expire, and
    the allow list is the initial one. *)
Theorem store_well_formed l : serves l → well_formed t0 →
  well_formed (rows (after l)) ∧ ∀ key, rows (after l) !! (AdminAllowlist, key) = t0 !! (AdminAllowlist, key).
Proof.
  intros Hl Ht0. pose proof (reached_replay _ _ _ _ _ (run_reached l)) as Hr.
  eapply (replay_invariant b (λ t, well_formed t ∧ ∀ key, t !! (AdminAllowlist, key) = t0 !! (AdminAllowlist, key)));
    [exact Hr| |done].
  intros i now ev t1 t2 Hin Hev [Hwf Hadm]. apply (call_allowed l Hl) in Hin as (r & pre & post & _ & _ & Hd).
  split.
  - intros k row Hk. destruct (evolves_row b _ _ _ _ k Hev) as [Heq|Hw]; [apply Hwf; by rewrite <-Heq|].
    destruct ev; simpl in *; try done; destruct Hw as [-> Hw]; simplify_eq; simpl in *.
    + destruct Hd as (Hone & Httl & Hor). split; simpl; (intros Hns; split; [|by apply expires_is_Some]).
      * apply Hone. unfold marker. destruct Hor as [[-> _]|[[-> _]|[[-> _]|[->| ->]]]]; first [by left|by right|set_solver].
      * subst ns. destruct Hor as [[? _]|[[? _]|[(_ & rec & Hrec & _)|[?|?]]]]; done.
    + destruct Hd as (-> & Httl & Hor). split; simpl; (intros Hns; split; [|by apply expires_is_Some]); [done|].
      subst ns. by destruct Hor as [[]|[[]|[[]|]]].
  - intros key. rewrite <-Hadm. destruct (evolves_row b _ _ _ _ (AdminAllowlist, key) Hev) as [Heq|Hw]; [done|].
    exfalso. destruct ev; simpl in *; try done; destruct Hw as [[= <- <-] _].
    + by destruct Hd as (_ & _ & [[]|[[]|[[]|[]]]]).
    + by destruct Hd as [|[]].
    + by destruct Hd as (_ & _ & [[]|[[]|[[]|]]]).
Qed.
End history.
