(* ===== verification/AuthFlowExamples.v ===== *)
(** * Logging in, refreshing and logging out: the theorems on concrete runs *)

From S2P Require Import Prelude GoStrings Base64 Token CIAuth KV KVSpec AuthStore AuthFlow AuthFlowSpec AuthFlowHistory.

Module example.

#[export] Existing Instance elements_order.

(** Records as text. *)
Definition device_fields (r : deviceRecord) : list (string + Z) :=
  [inl r.(dr_DeviceCode); inl r.(dr_UserCode); inl r.(dr_Status); inr r.(dr_GitHubID); inl r.(dr_Login); inr r.(dr_ExpiresAt)].
Definition device_of (l : list (string + Z)) : option deviceRecord :=
  match l with
  | [inl d; inl u; inl s; inr g; inl lo; inr e] => Some (mkDevice d u s g lo e)
  | _ => None
  end.
Definition encode_device (r : deviceRecord) : string := to_text (device_fields r).
Definition decode_device (s : string) : option deviceRecord := of_text s ≫= device_of.

Lemma device_codec r : decode_device (encode_device r) = Some r.
Proof. unfold decode_device, encode_device. rewrite of_to_text. by destruct r. Defined.

Definition encode_log (r : logTokenRecord) : string := to_text [inl r.(lt_JobID); inr r.(lt_ExpiresAt) : string + Z].
Definition decode_log (s : string) : option logTokenRecord :=
  l ← of_text s; match l with [inl j; inr e] => Some (mkLogToken j (e : Z)) | _ => None end.

Definition HashHex (s : string) : string := "h" +:+ s.
Definition S256 (v : string) : string := v.
Definition verify_oidc (s : string) : option oidcClaims := None.

Definition s1 : Signer := mkSigner [Token.example.key1].

Definition hd : Server := {|
  signer := Some s1; oauth := true; replay_guard := true; device_store := true; deny_list := true;
  admin_list := true; log_tokens := true; spa_origin := true; legacy_basic := false;
  AccessTokenTTL := hour; RefreshTokenTTL := 10 * hour; ci := None |}.

Definition t0 : table := {[ (AdminAllowlist, "7") := mkEntry "octocat" None ]}.

Definition token (c : Claims) : string :=
  match Sign Token.example.hmac Token.example.marshal s1 c with Ok t => t | Err _ => "" end.

Abbreviation serve := (AuthFlow.serve Token.example.hmac Token.example.marshal Token.example.unmarshal
  encode_device decode_device encode_log decode_log HashHex S256 verify_oidc hd).

(** Handler [i] makes [n] calls. *)
Definition go (i n : nat) (rnd : string) : list (action Response) := replicate n (Step i Done rnd).

(** All calls a handler makes. *)
Definition whole (i : nat) (rnd : string) : list (action Response) := replicate 40 (Step i Done rnd).

Definition claim (typ jti : string) (exp : Z) : Claims :=
  no_claims <| Typ := typ |> <| GitHubID := 7%Z |> <| Login := "octocat" |> <| JTI := jti |>
    <| SessionID := "s1" |> <| Challenge := "v" |> <| Exp := exp |>.

Definition is_pair (a : Response) : bool := match a with TokenPair _ _ _ _ _ => true | _ => false end.
Definition lets_in (a : Response) : bool := match a with Next (Some _) _ => true | _ => false end.
Definition answered (f : Response → bool) (cfg : config Response) (i : nat) : bool :=
  match threads cfg !! i with Some p => match answer p with Some a => f a | None => false end | None => false end.

Lemma answered_answers f cfg i : answered f cfg i = true → ∃ a, f a = true ∧ answers cfg i a.
Proof.
  unfold answered, answers. destruct (threads cfg !! i) as [p|]; [|done].
  destruct (answer p) as [a|] eqn:Ha; [|done]. eauto.
Defined.

Lemma answered_pair cfg i : answered is_pair cfg i = true → ∃ a r n login id, answers cfg i (TokenPair a r n login id).
Proof. intros (a & Ha & H)%answered_answers. destruct a; try done. eauto 6. Defined.

(** Two refreshes with one token that expires in the middle of a second. *)
Definition refresh_claims : Claims := claim TypRefresh "j1" (10 * second + 500000000).
Definition refresh_reqs (tok : string) : list Req := [ReqRefresh (Some tok); ReqRefresh (Some tok)].
Definition refresh_run (tok : string) : list (action Response) :=
  map (λ r, Start (serve r)) (refresh_reqs tok) ++ whole 0 "r" ++ [Tick 10200000000] ++ whole 1 "r".

(** A code that is redeemed twice, the second time after its row has expired. *)
Definition code_claims : Claims := claim TypCodeCLI "" (10 * second + 500000000).
Definition code_reqs (code : string) : list Req := [ReqCLIExchange (Some (code, "v")); ReqCLIExchange (Some (code, "v"))].
Definition code_run (code : string) : list (action Response) :=
  map (λ r, Start (serve r)) (code_reqs code) ++ whole 0 "r" ++ [Tick 10200000000] ++ whole 1 "r".

(** A device: the code, the approval of an administrator, the poll. *)
Definition device_code : string := base64_encode "rrrrrrrr".
Definition device_state : Claims :=
  no_claims <| Typ := TypState |> <| Device := true |> <| c_UserCode := user_code 0 "rrrrrrrr" |>
    <| Binding := HashHex "nonce" |> <| Exp := hour |>.
Definition device_reqs (state : string) : list Req :=
  [ReqDeviceCode; ReqCallback state (Some "nonce") "gh" (Some (mkUser 7 "octocat"));
   ReqDeviceToken (Some device_code)].
Definition device_run (state : string) : list (action Response) :=
  map (λ r, Start (serve r)) (device_reqs state) ++ whole 0 "rrrrrrrr" ++ whole 1 "r" ++ whole 2 "r".

(** The same device code again, once the first has expired. *)
Definition again_reqs (state : string) : list Req := device_reqs state ++ device_reqs state.
Definition again_run (state : string) : list (action Response) :=
  map (λ r, Start (serve r)) (again_reqs state) ++ whole 0 "rrrrrrrr" ++ whole 1 "r" ++ whole 2 "r"
  ++ [Tick 601000000000] ++ whole 3 "rrrrrrrr" ++ whole 4 "r" ++ whole 5 "r".

(** A session that is ended, and a token of it that outlives a refresh token. *)
Definition bearer (tok : string) : Header := {[ "Authorization" := "Bearer " +:+ tok ]}.
Definition ended_claims : Claims := claim TypRefresh "j1" (5 * hour).
Definition late_claims : Claims := claim TypRefresh "j2" (20 * hour).
Definition access_claims : Claims := claim TypCLI "j3" (20 * hour).
Definition ended_reqs (ended late access : string) : list Req :=
  [ReqRevoke ∅ ended; ReqRefresh (Some late); ReqAdmin (mkRequest None (bearer access) None true) false].
Definition revoke_run (ended : string) : list (action Response) := Start (serve (ReqRevoke ∅ ended)) :: whole 0 "r".
Definition later_run (late access : string) : list (action Response) :=
  Tick (11 * 3600000000000)%N :: map (λ r, Start (serve r)) (drop 1 (ended_reqs "" late access)) ++ whole 1 "r" ++ whole 2 "r".

(** The records a run read under a device code. *)
Definition records_until (code : string) (expiry : Z) (tr : trace) : bool :=
  forallb (λ e, match e.2.2 with
    | EvGet ns key (Ok raw) =>
        if decide (ns = Devices ∧ key = code)
        then match decode_device raw with Some rec => (expiry <=? unix rec.(dr_ExpiresAt))%Z | None => true end
        else true
    | _ => true
    end) tr.

Lemma records_until_read code expiry tr i rec : records_until code expiry tr = true →
  read_device decode_device (log i tr) code rec → (expiry ≤ unix rec.(dr_ExpiresAt))%Z.
Proof.
  intros Hall (t & raw & Hin & Hdec). apply elem_of_log in Hin. unfold records_until in Hall.
  rewrite forallb_forall in Hall. specialize (Hall (i, (t, EvGet Devices code (Ok raw)))). simpl in Hall.
  rewrite decide_True, Hdec in Hall by done. apply Z.leb_le, Hall. by apply list_elem_of_In.
Defined.

Definition parses (c : Claims) (tok : string) : Prop :=
  Token.parse Token.example.hmac Token.example.unmarshal s1 tok = Ok c.

Lemma serves_all reqs l : started l = map serve reqs →
  serves Token.example.hmac Token.example.marshal Token.example.unmarshal encode_device decode_device encode_log decode_log
    HashHex S256 verify_oidc hd reqs l.
Proof. intros H. exists []. by rewrite H, app_nil_r. Defined.
End example.

Import example.

Lemma refresh_once_witness :
  let l := refresh_run (token refresh_claims) in
  reuses badgerkv = true ∧ (round badgerkv (Exp refresh_claims) ≤ clock (runs badgerkv (init t0 0) l))%Z.
Proof.
  destruct (answered_pair (runs badgerkv (init t0 0) (refresh_run (token refresh_claims))) 0)
    as (a & r & n & login & id & Ha); [by vm_compute|].
  destruct (answered_pair (runs badgerkv (init t0 0) (refresh_run (token refresh_claims))) 1)
    as (a' & r' & n' & login' & id' & Ha'); [by vm_compute|].
  assert (parses refresh_claims (token refresh_claims)) as Hparse by (vm_compute; reflexivity).
  revert Ha Ha' Hparse. generalize (token refresh_claims). intros tok Ha Ha' Hparse l.
  eapply (refresh_once Token.example.hmac Token.example.marshal Token.example.unmarshal encode_device decode_device
    encode_log decode_log HashHex S256 verify_oidc hd device_codec eq_refl badgerkv t0 0 (refresh_reqs tok) l 0 1 s1
    tok tok refresh_claims refresh_claims); [|done|reflexivity|reflexivity|reflexivity|exact Hparse|exact Hparse|reflexivity| |exact Ha|exact Ha'].
  - by apply serves_all.
  - intros tok2 c2 Hin Hc2 _. assert (tok2 = tok) as -> by (clear -Hin; change (tok2 ∈ [tok; tok]) in Hin; set_solver).
    unfold parses in Hparse. rewrite Hparse in Hc2. by injection Hc2 as <-.
Defined.

Lemma exchange_once_witness :
  let l := code_run (token code_claims) in
  reuses badgerkv = true ∧ (round badgerkv (Exp code_claims) ≤ clock (runs badgerkv (init t0 0) l))%Z.
Proof.
  destruct (answered_pair (runs badgerkv (init t0 0) (code_run (token code_claims))) 0)
    as (a & r & n & login & id & Ha); [by vm_compute|].
  destruct (answered_pair (runs badgerkv (init t0 0) (code_run (token code_claims))) 1)
    as (a' & r' & n' & login' & id' & Ha'); [by vm_compute|].
  assert (parses code_claims (token code_claims)) as Hparse by (vm_compute; reflexivity).
  revert Ha Ha' Hparse. generalize (token code_claims). intros code Ha Ha' Hparse l.
  eapply (exchange_once Token.example.hmac Token.example.marshal Token.example.unmarshal encode_device decode_device
    encode_log decode_log HashHex S256 verify_oidc hd device_codec eq_refl badgerkv t0 0 (code_reqs code) l 0 1 s1
    code code_claims); [|done|reflexivity|reflexivity|exact Hparse| | |reflexivity|reflexivity|exact Ha|exact Ha'|reflexivity|reflexivity].
  - by apply serves_all.
  - intros code' Hin _. clear -Hin. change (code' ∈ [code; code]) in Hin. set_solver.
  - done.
Defined.

Lemma device_once_witness :
  let l := again_run (token device_state) in
  reuses badgerkv = true ∧ (round badgerkv (600 * second) ≤ clock (runs badgerkv (init t0 0) l))%Z.
Proof.
  destruct (answered_pair (runs badgerkv (init t0 0) (again_run (token device_state))) 2)
    as (a & r & n & login & id & Ha); [by vm_compute|].
  destruct (answered_pair (runs badgerkv (init t0 0) (again_run (token device_state))) 5)
    as (a' & r' & n' & login' & id' & Ha'); [by vm_compute|].
  assert (records_until device_code (600 * second) (history (runs badgerkv (init t0 0) (again_run (token device_state)))) = true)
    as Hrec by (vm_compute; reflexivity).
  revert Ha Ha' Hrec. generalize (token device_state). intros state Ha Ha' Hrec l.
  eapply (device_once Token.example.hmac Token.example.marshal Token.example.unmarshal encode_device decode_device
    encode_log decode_log HashHex S256 verify_oidc hd device_codec eq_refl badgerkv t0 0 (again_reqs state) l 2 5
    device_code (600 * second)%Z); [|done|reflexivity|reflexivity| |exact Ha|exact Ha'].
  - by apply serves_all.
  - intros k rec. by apply records_until_read.
Defined.

Lemma t0_rows k row : t0 !! k = Some row → k = (AdminAllowlist, "7").
Proof. unfold t0. intros H. by apply lookup_singleton_Some in H as [<- _]. Defined.

Lemma device_login_vouched_witness :
  let l := device_run (token device_state) in
  ∃ a r n login id, answers (runs sqlkv (init t0 0) l) 2 (TokenPair a r n login id)
    ∧ found_admin (log 2 (history (runs sqlkv (init t0 0) l))) id.
Proof.
  destruct (answered_pair (runs sqlkv (init t0 0) (device_run (token device_state))) 2)
    as (a & r & n & login & id & Ha); [by vm_compute|].
  revert Ha. generalize (token device_state). intros state Ha l. exists a, r, n, login, id. split; [exact Ha|].
  eapply (device_login_vouched Token.example.hmac Token.example.marshal Token.example.unmarshal encode_device decode_device
    encode_log decode_log HashHex S256 verify_oidc hd device_codec eq_refl sqlkv t0 0 (device_reqs state) l 2
    device_code); [|reflexivity|exact Ha|].
  - by apply serves_all.
  - by intros key row rec Hrow%t0_rows.
Defined.

Lemma store_well_formed_witness :
  let l := device_run (token device_state) in
  well_formed decode_device (rows (runs sqlkv (init t0 0) l)).
Proof.
  generalize (token device_state). intros state l.
  apply (store_well_formed Token.example.hmac Token.example.marshal Token.example.unmarshal encode_device decode_device
    encode_log decode_log HashHex S256 verify_oidc hd device_codec eq_refl sqlkv t0 0 (device_reqs state) l).
  - by apply serves_all.
  - intros k row ->%t0_rows. split; simpl; [|done]. clear. set_solver.
Defined.

Lemma session_over_example ended late access :
  parses ended_claims ended → answered (λ a, match a with AuthOK => true | _ => false end)
    (runs sqlkv (init t0 0) (revoke_run ended)) 0 = true → (clock (runs sqlkv (init t0 0) (revoke_run ended)) <=? Exp ended_claims)%Z = true →
  ended ≠ "" →
  session_over Token.example.hmac Token.example.unmarshal hd sqlkv t0 0 (ended_reqs ended late access) [] (revoke_run ended)
    0 s1 ended ended_claims.
Proof.
  intros Hparse Hans Hclock Hne. split; [simpl; lia|]. split; [done|]. split; [done|]. split; [exact Hparse|].
  split_and!; [| |by apply Z.leb_le|done].
  - eexists. split; [reflexivity|]. right. done.
  - apply answered_answers in Hans as (a & Ha & H). by destruct a.
Defined.

Lemma revoked_session_not_refreshed_witness :
  let l := revoke_run (token ended_claims) ++ later_run (token late_claims) (token access_claims) in
  (round sqlkv (0 + RefreshTokenTTL hd) ≤ clock (runs sqlkv (init t0 0) l))%Z.
Proof.
  pose proof (session_over_example (token ended_claims) (token late_claims) (token access_claims)) as Hover.
  specialize (Hover ltac:(vm_compute; reflexivity) ltac:(vm_compute; reflexivity) ltac:(vm_compute; reflexivity)
    ltac:(by vm_compute)).
  destruct (answered_pair (runs sqlkv (init t0 0)
    (revoke_run (token ended_claims) ++ later_run (token late_claims) (token access_claims))) 1)
    as (a & r & n & login & id & Ha); [by vm_compute|].
  assert (parses late_claims (token late_claims)) as Hlate by (vm_compute; reflexivity).
  assert (threads (runs sqlkv (init t0 0) (revoke_run (token ended_claims))) !! 1%nat = None) as Hno
    by (vm_compute; reflexivity).
  revert Ha Hover Hlate Hno. generalize (token ended_claims) (token late_claims) (token access_claims).
  intros ended late access Ha Hover Hlate Hno l.
  eapply (revoked_session_not_refreshed Token.example.hmac Token.example.marshal Token.example.unmarshal
    encode_device decode_device encode_log decode_log HashHex S256 verify_oidc hd device_codec eq_refl sqlkv t0 0
    (ended_reqs ended late access) [] (revoke_run ended) (later_run late access) 0 1 s1 ended ended_claims
    late late_claims); [|exact Hover|reflexivity|exact Hlate|reflexivity| |exact Ha].
  - by apply serves_all.
  - intros a0 (p & Hp & _). change (threads (runs sqlkv (init t0 0) (revoke_run ended)) !! 1%nat = Some p) in Hp.
    by rewrite Hno in Hp.
Defined.

Lemma revoked_session_not_admitted_witness :
  let l := revoke_run (token ended_claims) ++ later_run (token late_claims) (token access_claims) in
  (round sqlkv (0 + RefreshTokenTTL hd) ≤ clock (runs sqlkv (init t0 0) l))%Z.
Proof.
  pose proof (session_over_example (token ended_claims) (token late_claims) (token access_claims)) as Hover.
  specialize (Hover ltac:(vm_compute; reflexivity) ltac:(vm_compute; reflexivity) ltac:(vm_compute; reflexivity)
    ltac:(by vm_compute)).
  destruct (answered_answers lets_in (runs sqlkv (init t0 0)
    (revoke_run (token ended_claims) ++ later_run (token late_claims) (token access_claims))) 2)
    as (a & Ha & Hans); [by vm_compute|].
  assert (parses access_claims (token access_claims)) as Haccess by (vm_compute; reflexivity).
  assert (BearerToken (bearer (token access_claims)) = Some (token access_claims)) as Hbearer by (vm_compute; reflexivity).
  destruct a as [| | | | | | | | | | | | | |[who|] p]; try discriminate Ha. clear Ha.
  revert Hans Hover Haccess Hbearer. generalize (token ended_claims) (token late_claims) (token access_claims).
  intros ended late access Hans Hover Haccess Hbearer l.
  eapply (revoked_session_not_admitted Token.example.hmac Token.example.marshal Token.example.unmarshal
    encode_device decode_device encode_log decode_log HashHex S256 verify_oidc hd device_codec eq_refl sqlkv t0 0
    (ended_reqs ended late access) [] (revoke_run ended) (later_run late access) 0 2 s1 ended ended_claims
    (mkRequest None (bearer access) None true) false who p); [|exact Hover|reflexivity| | |exact Hans].
  - by apply serves_all.
  - change (1 ≤ 2)%nat. lia.
  - intros tok' typ [] c' Hpres Hc'; simpl in Hpres; [by destruct Hpres| |by destruct Hpres].
    rewrite Hbearer in Hpres. destruct Hpres as [[= <-] _]. unfold parses in Haccess. rewrite Haccess in Hc'.
    by injection Hc' as <-.
Defined.

(** ** Where the code and its comments part *)

Definition is_error (message : string) (a : Response) : bool :=
  match a with AuthError _ m => bool_decide (m = message) | _ => false end.

(** A one-time code and the same code with a line break are two keys of the replay guard and one
    signature: both are redeemed, at once and on either backend. *)
Definition break_reqs (code : string) : list Req :=
  [ReqCLIExchange (Some (code, "v")); ReqCLIExchange (Some (code +:+ String "010" "", "v"))].

Lemma code_redeemed_twice :
  let cfg := runs sqlkv (init t0 0)
    (map (λ r, Start (serve r)) (break_reqs (token code_claims)) ++ whole 0 "r" ++ whole 1 "r") in
  answered is_pair cfg 0 = true ∧ answered is_pair cfg 1 = true ∧ clock cfg = 0%Z.
Proof. vm_compute. done. Qed.

(** A row of the poll spacing is never added again by a store that leaves expired rows: the second
    poll of an approved device is answered [slow_down] a minute after the first, as is every one. *)
Definition poll_reqs (state : string) : list Req := device_reqs state ++ [ReqDeviceToken (Some device_code)].
Definition poll_run (state : string) : list (action Response) :=
  map (λ r, Start (serve r)) (poll_reqs state) ++ whole 0 "rrrrrrrr" ++ whole 2 "r" ++ whole 1 "r"
  ++ [Tick 60000000000] ++ whole 3 "r".

Lemma sqlkv_slows_down_for_good :
  let cfg b := runs b (init t0 0) (poll_run (token device_state)) in
  answered (is_error "authorization_pending") (cfg sqlkv) 2 = true ∧ answered (is_error "slow_down") (cfg sqlkv) 3 = true
  ∧ answered is_pair (cfg badgerkv) 3 = true.
Proof. vm_compute. done. Qed.
