(* ===== verification/Worklist.v ===== *)
(** * Graph searches and stable sorts

    The loops the planning code shares: the search that marks a node when it enters the
    queue, as a function of the successors of a node, and the stable sort by a comparison
    function, each with the specification its callers use. *)

From S2P Require Import Prelude.

(** ** Search *)
Section search.
Context (succ : string → list string).

(** [if !seen[d] { seen[d] = true; queue = append(queue, d) }]. *)
Definition discover (acc : gset string * list string) (d : string) : gset string * list string :=
  if decide (d ∈ acc.1) then acc else ({[d]} ∪ acc.1, acc.2 ++ [d]).

(** The nodes taken from the queue, in order; [None] is lack of fuel. *)
Fixpoint search (fuel : nat) (seen : gset string) (queue : list string)
    : option (gset string * list string) :=
  match queue with
  | [] => Some (seen, [])
  | n :: queue =>
      match fuel with
      | O => None
      | S fuel =>
          let '(seen, queue) := foldl discover (seen, queue) (succ n) in
          '(seen, visited) ← search fuel seen queue;
          Some (seen, n :: visited)
      end
  end.

Abbreviation edge := (λ a b : string, b ∈ succ a).

Lemma discover_fold l seen queue :
  ∃ new, foldl discover (seen, queue) l = (seen ∪ list_to_set new, queue ++ new)
    ∧ NoDup new ∧ ∀ x, x ∈ new ↔ x ∈ l ∧ x ∉ seen.
Proof.
  revert seen queue. induction l as [|d l IH]; intros seen queue.
  { exists []. split_and!; [simpl; rewrite app_nil_r; f_equal; set_solver|constructor|set_solver]. }
  cbn [foldl]. unfold discover at 2. cbn [fst snd]. case_decide as Hd.
  - destruct (IH seen queue) as (new & -> & Hnd & Hnew). exists new. split_and!; [done|done|].
    intros x. rewrite Hnew, elem_of_cons. split; [tauto|]. intros [[->|?] ?]; [done|tauto].
  - destruct (IH ({[d]} ∪ seen) (queue ++ [d])) as (new & -> & Hnd & Hnew).
    exists (d :: new). split_and!.
    + f_equal; [set_solver|]. by rewrite <-app_assoc.
    + constructor; [|done]. rewrite Hnew. set_solver.
    + intros x. rewrite elem_of_cons, Hnew. destruct (decide (x = d)) as [->|]; set_solver.
Qed.

(** The nodes a search from [queue] visits: the queue and new ones, each once; whatever
    they lead to has been seen, and each is reached from the queue. *)
Record searched (seen : gset string) (queue : list string) (seen' : gset string)
    (visited : list string) : Prop := {
  searched_seen x : x ∈ seen' ↔ x ∈ seen ∨ x ∈ visited;
  searched_new : ∃ new, visited ≡ₚ queue ++ new ∧ NoDup new ∧ ∀ x, x ∈ new → x ∉ seen;
  searched_closed x d : x ∈ visited → d ∈ succ x → d ∈ seen';
  searched_reach x : x ∈ visited → ∃ q, q ∈ queue ∧ rtc edge q x;
}.

Lemma search_spec N fuel seen queue :
  (∀ x d, d ∈ succ x → d ∈ N) → (∀ x, x ∈ queue → x ∈ seen) →
  length queue + size (N ∖ seen) ≤ fuel →
  ∃ seen' visited, search fuel seen queue = Some (seen', visited) ∧ searched seen queue seen' visited.
Proof.
  intros HN. revert seen queue.
  induction fuel as [|fuel IH]; intros seen queue Hq Hf; destruct queue as [|n queue]; simpl in *.
  1,3: exists seen, []; split; [done|]; split; [set_solver| |set_solver..]; exists []; set_solver by constructor.
  { lia. }
  destruct (discover_fold (succ n) seen queue) as (new & -> & Hnd & Hnew).
  assert (∀ x, x ∈ new → x ∈ N ∖ seen) as HnewN.
  { intros x [??]%Hnew. apply elem_of_difference. split; [by eapply HN|done]. }
  assert (size (N ∖ seen) = size (N ∖ (seen ∪ list_to_set new)) + length new) as Hsize.
  { rewrite <-(size_list_to_set (C := gset string) new) by done.
    rewrite <-size_union by set_solver. f_equal. apply set_eq. intros x.
    destruct (decide (x ∈ new)) as [Hx|Hx]; [pose proof (HnewN x Hx)|]; set_solver. }
  destruct (IH (seen ∪ list_to_set new) (queue ++ new)) as (seen' & visited & -> & [S1 S2 S3 S4]).
  { set_solver. }
  { rewrite length_app. lia. }
  destruct S2 as (new' & Hp & Hnd' & Hnew').
  exists seen', (n :: visited). split; [done|]. split.
  - intros x. rewrite S1, elem_of_cons, elem_of_union, elem_of_list_to_set, Hp, !elem_of_app.
    split; [tauto|]. intros [?|[->|?]]; [tauto|left; left; apply Hq; by left|tauto].
  - exists (new ++ new'). split_and!; [by rewrite Hp, <-app_assoc| |set_solver].
    apply NoDup_app. split_and!; [done| |done]. set_solver.
  - intros x d [->|Hx]%elem_of_cons Hd; [|by eapply S3].
    apply S1. rewrite elem_of_union, elem_of_list_to_set.
    destruct (decide (d ∈ seen)); [tauto|]. left. right. by apply Hnew.
  - intros x [->|Hx]%elem_of_cons; [exists n; split; [by left|done]|].
    destruct (S4 x Hx) as (q & Hqq & Hr). apply elem_of_app in Hqq as [?|[Hs _]%Hnew].
    + exists q. split; [by right|done].
    + exists n. split; [by left|]. by apply (rtc_l _ _ q).
Qed.

(** When everything seen before is closed under successors, the visited nodes are closed
    as well. *)
Lemma searched_rtc seen queue seen' visited q x :
  searched seen queue seen' visited → (∀ y d, y ∈ seen → y ∉ visited → d ∈ succ y → d ∈ seen) →
  q ∈ seen' → rtc edge q x → x ∈ seen'.
Proof.
  intros [S1 _ S3 _] Hs Hq Hr. induction Hr as [|q y x Hy Hr IH]; [done|]. apply IH.
  destruct (decide (q ∈ visited)) as [Hv|Hv]; [by eapply S3|].
  apply S1. left. apply S1 in Hq as [Hq|?]; [by eapply Hs|done].
Qed.
End search.

(** ** Stable sort *)
Section stable_sort.
Context {A : Type} (le : A → A → bool).

Fixpoint insert_stable (x : A) (l : list A) : list A :=
  match l with
  | [] => [x]
  | y :: l => if le x y then x :: y :: l else y :: insert_stable x l
  end.

(** [slices.SortStableFunc] with [le a b] for [cmp(a, b) <= 0]. *)
Fixpoint stable_sort (l : list A) : list A :=
  match l with [] => [] | x :: l => insert_stable x (stable_sort l) end.

Lemma insert_stable_perm x l : insert_stable x l ≡ₚ x :: l.
Proof.
  induction l as [|y l IH]; simpl; [done|]. destruct (le x y); [done|].
  rewrite IH. apply Permutation_swap.
Qed.

Lemma stable_sort_perm l : stable_sort l ≡ₚ l.
Proof. induction l as [|x l IH]; simpl; [done|]. by rewrite insert_stable_perm, IH. Qed.

Lemma elem_of_stable_sort x l : x ∈ stable_sort l ↔ x ∈ l.
Proof. by rewrite stable_sort_perm. Qed.

Context (Htotal : ∀ x y, le x y = true ∨ le y x = true).
Context (Htrans : ∀ x y z, le x y = true → le y z = true → le x z = true).

Lemma insert_stable_sorted x l :
  StronglySorted (λ a b, le a b = true) l → StronglySorted (λ a b, le a b = true) (insert_stable x l).
Proof.
  induction 1 as [|y l Hs IH Hy]; simpl; [repeat constructor|]. destruct (le x y) eqn:E.
  - repeat constructor; [done..|]. eapply Forall_impl; [exact Hy|]. intros z. by apply Htrans.
  - constructor; [done|]. rewrite insert_stable_perm. constructor; [|done].
    destruct (Htotal x y); [congruence|done].
Qed.

Lemma stable_sort_sorted l : StronglySorted (λ a b, le a b = true) (stable_sort l).
Proof. induction l; simpl; [constructor|by apply insert_stable_sorted]. Qed.

(** Elements that no comparison separates keep their order. *)
Lemma insert_stable_filter (P : A → Prop) `{∀ x, Decision (P x)} x l :
  (∀ y, P x → P y → le x y = true) →
  filter P (insert_stable x l) = filter P (x :: l).
Proof.
  intros HP. induction l as [|y l IH]; simpl; [done|]. destruct (le x y) eqn:E; [done|].
  rewrite filter_cons, IH, !filter_cons.
  destruct (decide (P x)) as [Hx|Hx], (decide (P y)) as [Hy|Hy]; [|done..].
  by rewrite HP in E.
Qed.

Lemma stable_sort_filter (P : A → Prop) `{∀ x, Decision (P x)} l :
  (∀ x y, P x → P y → le x y = true) → filter P (stable_sort l) = filter P l.
Proof.
  intros HP. induction l as [|x l IH]; simpl; [done|].
  rewrite insert_stable_filter by auto. rewrite !filter_cons, IH. done.
Qed.
End stable_sort.

(** ** Positions and multimaps *)

(** [for i, n := range order { pos[n] = i }]. *)
Definition positions (order : list string) : gmap string nat :=
  foldl (λ m inx, <[inx.2 := inx.1]> m) ∅ (imap pair order).

Lemma lookup_positions order i x :
  NoDup order → order !! i = Some x → positions order !! x = Some i.
Proof.
  unfold positions. revert i. induction order as [|o order IH] using rev_ind; intros i Hnd Hi; [done|].
  rewrite imap_app, foldl_app. simpl. rewrite Nat.add_0_r.
  apply NoDup_app in Hnd as (Hnd & Hdis & _).
  apply lookup_app_Some in Hi as [Hi|[Hle Hi]].
  - rewrite lookup_insert_ne; [by apply IH|]. intros ->. apply (Hdis x); [|by left].
    by eapply list_elem_of_lookup_2.
  - apply list_lookup_singleton_Some in Hi as [Hi ->]. rewrite lookup_insert_eq. f_equal. lia.
Qed.

Definition position (pos : gmap string nat) (n : string) : nat := default 0 (pos !! n).

(** What comes before an element has a smaller position. *)
Lemma position_lt k1 n k2 d :
  NoDup (k1 ++ n :: k2) → d ∈ k1 →
  position (positions (k1 ++ n :: k2)) d < position (positions (k1 ++ n :: k2)) n.
Proof.
  intros Hnd [i Hi]%list_elem_of_lookup_1. unfold position.
  rewrite (lookup_positions _ i d) by (done || by apply lookup_app_l_Some).
  rewrite (lookup_positions _ (length k1) n) by (done || by rewrite lookup_app_r, Nat.sub_diag by lia).
  simpl. by eapply lookup_lt_Some.
Qed.

(** [m[k] = append(m[k], v)]. *)
Definition push {A} (m : gmap string (list A)) (k : string) (v : A) : gmap string (list A) :=
  <[k := default [] (m !! k) ++ [v]]> m.

(** What a loop of appends leaves under a key: the values appended under it, in order. *)
Lemma lookup_pushes {A B} (kv : B → option (string * A)) (l : list B) m k :
  default [] (foldl (λ m b, match kv b with Some (j, v) => push m j v | None => m end) m l !! k)
  = default [] (m !! k)
    ++ omap (λ b, match kv b with Some (j, v) => if decide (j = k) then Some v else None | None => None end) l.
Proof.
  revert m. induction l as [|b l IH]; intros m; simpl; [by rewrite app_nil_r|].
  rewrite IH. destruct (kv b) as [[j v]|]; [|done]. unfold push.
  destruct (decide (j = k)) as [->|Hj].
  - rewrite lookup_insert_eq. simpl. by rewrite <-app_assoc.
  - by rewrite lookup_insert_ne.
Qed.

Lemma foldl_same {A S} (f g : S → A → S) l s :
  (∀ s x, f s x = g s x) → foldl f s l = foldl g s l.
Proof. intros Hfg. revert s. induction l as [|a l IH]; intros s; simpl; [done|]. by rewrite Hfg, IH. Qed.

(** A loop within a loop is a loop over the pairs. *)
Lemma foldl_nested {A B S} (f : A → list B) (step : A → S → B → S) (l : list A) (s : S) :
  foldl (λ s a, foldl (step a) s (f a)) s l
  = foldl (λ s ab, step ab.1 s ab.2) s (concat (map (λ a, map (a,.) (f a)) l)).
Proof.
  revert s. induction l as [|a l IH]; intros s; simpl; [done|].
  rewrite foldl_app, IH. f_equal. generalize s. induction (f a) as [|b k IHk]; intros s'; simpl; [done|].
  apply IHk.
Qed.

Lemma elem_of_nested {A B} (f : A → list B) (l : list A) a b :
  (a, b) ∈ concat (map (λ a, map (a,.) (f a)) l) ↔ a ∈ l ∧ b ∈ f a.
Proof.
  rewrite list_elem_of_In, in_concat. split.
  - intros (k & Hk & Hab). apply list_elem_of_In in Hk, Hab.
    apply list_elem_of_fmap in Hk as (a' & -> & Ha). apply list_elem_of_fmap in Hab as (b' & E & Hb).
    by simplify_eq.
  - intros [Ha Hb]. exists (map (a,.) (f a)). split; apply list_elem_of_In, list_elem_of_fmap; eauto.
Qed.

Lemma StronglySorted_impl {A} (P Q : A → A → Prop) l :
  (∀ x y, P x y → Q x y) → StronglySorted P l → StronglySorted Q l.
Proof. intros HPQ. induction 1; constructor; [done|]. eapply Forall_impl; [done|]. auto. Qed.

(** A list sorted by positions that are those of its elements in [order] is a
    subsequence of it. *)
Lemma sorted_sublist (pos : string → nat) (order l : list string) :
  (∀ i x, order !! i = Some x → pos x = i) → (∀ x, x ∈ l → x ∈ order) → NoDup l →
  StronglySorted (λ a b, pos a ≤ pos b) l → l `sublist_of` order.
Proof.
  intros Hpos. revert l. induction order as [|o order IH] using rev_ind; intros l Hl Hnd Hs.
  { destruct l; [constructor|]. exfalso. apply (not_elem_of_nil s), Hl. by left. }
  destruct (decide (o ∈ l)) as [Ho|Ho].
  - apply list_elem_of_split in Ho as (l1 & l2 & ->).
    assert (l2 = []) as ->.
    { destruct l2 as [|b l2]; [done|]. exfalso.
      apply NoDup_app in Hnd as (_ & _ & Hnd). apply NoDup_cons in Hnd as [Hob _].
      apply StronglySorted_app_1_r in Hs. apply StronglySorted_inv in Hs as [_ Hs].
      apply Forall_cons in Hs as [Hle _].
      destruct (list_elem_of_lookup_1 (order ++ [o]) b) as [i Hi]; [apply Hl; set_solver|].
      rewrite (Hpos _ _ Hi), (Hpos (length order) o) in Hle
        by by rewrite lookup_app_r, Nat.sub_diag by lia.
      pose proof (lookup_lt_Some _ _ _ Hi) as Hlt. rewrite length_app in Hlt. simpl in Hlt.
      assert (i = length order) as -> by lia.
      rewrite lookup_app_r, Nat.sub_diag in Hi by lia. simplify_eq/=. set_solver. }
    apply NoDup_app in Hnd as (Hnd & Hdis & _). apply StronglySorted_app_1_l in Hs.
    apply sublist_app; [|done]. apply IH; [| |done|done].
    + intros i x Hi. apply Hpos. by apply lookup_app_l_Some.
    + intros x Hx. specialize (Hl x). specialize (Hdis x). set_solver.
  - apply sublist_inserts_r. apply IH; [| |done|done].
    + intros i x Hi. apply Hpos. by apply lookup_app_l_Some.
    + intros x Hx. specialize (Hl x Hx). set_solver.
Qed.
