(* ===== verification/SourceRepo.v ===== *)
(** * Source repositories (ayaka/source)

    git.go, select.go, source.go and config.go: the VCS sources of a PKGBUILD, the
    selection of packages by name and architecture, the dependency graph between the
    packages of a repository, and the configuration file with its legacy keys. *)

From S2P Require Import Prelude GoStrings Srcinfo SourcePackage Constraint Toposort Rebuild Worklist.

(** ** [git.go] *)
Record GitSource := mkGitSource { gs_Remote : string; gs_Ref : string }.

#[export] Instance GitSource_eq_dec : EqDecision GitSource.
Proof. solve_decision. Defined.

(** The part before the first [sep], everything when there is none. *)
Definition before (sep s : string) : string :=
  match cut sep s with Some (a, _) => a | None => s end.

Definition ParseGitSource (value : string) : option GitSource :=
  let value := match cut "::" value with Some (_, source) => source | None => value end in
  '(scheme, rest) ← cut "://" value;
  let protocols := split_char "+" scheme in
  if decide ("git" ∈ protocols) then
    let '(location, fragment) :=
      match cut "#" rest with Some (l, f) => (l, Some f) | None => (rest, None) end in
    let location := before "?" location in
    if decide (location = "") then None
    else
      ref ← match fragment with
            | None => Some "HEAD"
            | Some fragment =>
                match cut "=" (before "?" fragment) with
                | Some (kind, value) =>
                    if decide (value = "" ∨ kind ≠ "branch") then None else Some value
                | None => None
                end
            end;
      Some (mkGitSource (default "" (last protocols) +:+ "://" +:+ location) ref)
  else None.

(** ** [select.go] *)
Definition is_named (name : string) (p : SourcePackage) : bool :=
  bool_decide (name = sp_Base p ∨ name ∈ Names p).

Definition SelectPackages (pkgs : list SourcePackage) (names : list string) : list SourcePackage :=
  match names with
  | [] => pkgs
  | _ => omap (λ name, List.find (is_named name) pkgs) names
  end.

Definition FilterByArch (pkgs : list SourcePackage) (arch : string) : list SourcePackage :=
  filter (λ p, SupportsArch p arch = true) pkgs.

Section graph.
Context {R : RangeOrder}.
Implicit Types (pkgs : list SourcePackage) (arch : string).

(** The provider of each name: real package names first, then provides entries, which
    never shadow a name already there. *)
Definition name_provider (m : gmap string string) (p : SourcePackage) : gmap string string :=
  foldl (λ m n, <[n := sp_Base p]> m) m (Names p).

Definition provides_provider arch (m : gmap string string) (p : SourcePackage) : gmap string string :=
  foldl (λ m pr,
    let name := cn_Name (Parse pr) in
    if decide (is_Some (m !! name)) then m else <[name := sp_Base p]> m) m (sp_Provides p arch).

Definition provider_map pkgs arch : gmap string string :=
  foldl (provides_provider arch) (foldl name_provider ∅ pkgs) pkgs.

Definition dependency_edge (provider : gmap string string) (p : SourcePackage)
    (deps : gmap string (list string)) (d : string) : gmap string (list string) :=
  match provider !! cn_Name (Parse d) with
  | Some prov => if decide (prov ≠ sp_Base p) then push deps (sp_Base p) prov else deps
  | None => deps
  end.

Definition dependencyGraph pkgs arch (dependencies : SourcePackage → string → list string) : Graph :=
  let provider := provider_map pkgs arch in
  let deps := foldl (λ deps p, foldl (dependency_edge provider p) deps (dependencies p arch)) ∅ pkgs in
  NewGraph (map sp_Base pkgs) deps.

Definition BuildDependencyGraph pkgs arch : Graph := dependencyGraph pkgs arch BuildDepends.

Definition BuildMakeDependencyGraph pkgs arch : Graph :=
  dependencyGraph pkgs arch (λ p arch, sp_MakeDepends p arch ++ sp_CheckDepends p arch).

Definition OrderByDeps pkgs arch : list SourcePackage :=
  match BuildOrder (BuildDependencyGraph pkgs arch) with
  | Err _ => pkgs
  | Ok order =>
      let pos := positions order in
      stable_sort (λ a b, position pos (sp_Base a) <=? position pos (sp_Base b)) pkgs
  end.
End graph.

(** ** [source.go], [config.go] *)
Record SrcConfig := mkSrcConfig {
  sc_Name : string;
  sc_URL : string;
  sc_ArchBuild : string;
  sc_LegacyServer : string;
  sc_LegacyArchBuild : string;
}.

Record SourceRepo := mkSourceRepo { sr_Config : option SrcConfig; sr_Pkgs : list SourcePackage }.

(** [GetSrcRepo]: a directory whose .SRCINFO cannot be read is skipped. *)
Definition GetSrcRepo {E} (walk : result E (list string))
    (open : string → result E SourcePackage) (no_dirs no_config : E)
    (cfg : option SrcConfig) : result E SourceRepo :=
  match cfg with
  | None => Err no_config
  | Some _ =>
      dirs ← walk;
      match dirs with
      | [] => Err no_dirs
      | _ => Ok (mkSourceRepo cfg
          (omap (λ dir, match open dir with Ok p => Some p | Err _ => None end) dirs))
      end
  end.

Definition archSuffixes : list string :=
  ["x86_64_v2"; "x86_64_v3"; "x86_64_v4"; "x86_64"; "pentium4"; "aarch64"; "armv7h"; "i686"; "i486"; "any"].

Fixpoint strip_first (server : string) (arches : list string) : string :=
  match arches with
  | [] => server
  | arch :: arches =>
      match strip_suffix ("/" +:+ arch) server with
      | Some base => base
      | None => strip_first server arches
      end
  end.

Definition stripArchSuffix (server : string) : string :=
  strip_first (trim_right_byte "/" server) archSuffixes.

Definition migrateLegacy (c : SrcConfig) : SrcConfig :=
  let c :=
    if decide (sc_LegacyServer c ≠ "") then
      mkSrcConfig (sc_Name c)
        (if decide (sc_URL c = "") then stripArchSuffix (sc_LegacyServer c) else sc_URL c)
        (sc_ArchBuild c) "" (sc_LegacyArchBuild c)
    else c in
  if decide (sc_LegacyArchBuild c ≠ "") then
    mkSrcConfig (sc_Name c) (sc_URL c)
      (if decide (sc_ArchBuild c = "") then sc_LegacyArchBuild c else sc_ArchBuild c)
      (sc_LegacyServer c) ""
  else c.

Definition Validate (c : SrcConfig) : bool := negb (bool_decide (sc_Name c = "")).

(** ** Theorems: VCS sources *)

(** A source entry: an optional file name, the protocols, the remote and the branch. *)
Definition print_url (protocols : list string) (location : string) (branch : option string) : string :=
  join "+" protocols +:+ "://" +:+ location
  +:+ match branch with Some b => "#branch=" +:+ b | None => "" end.

Definition print_source (name : option string) (url : string) : string :=
  match name with Some n => n +:+ "::" +:+ url | None => url end.

Definition wf_source (name : option string) (protocols : list string) (location : string)
    (branch : option string) : bool :=
  match name with
  | Some n => negb (occurs ":" n)
  | None => bool_decide (cut "::" (print_url protocols location branch) = None)
  end
  && bool_decide ("git" ∈ protocols)
  && forallb (λ p, negb (occurs "+" p) && negb (occurs ":" p)) protocols
  && bool_decide (location ≠ "") && negb (occurs "#" location) && negb (occurs "?" location)
  && match branch with
     | Some b => bool_decide (b ≠ "") && negb (occurs "?" b)
     | None => true
     end.

Lemma before_none c s : occurs c s = false → before (String c "") s = s.
Proof. unfold before. intros Hs. by rewrite (proj2 (cut_char_None c s) Hs). Qed.

Lemma occurs_join c sep l :
  occurs c sep = false → Forall (λ p, occurs c p = false) l → occurs c (join sep l) = false.
Proof.
  intros Hsep. induction 1 as [|p [|q l] Hp Hl IH]; [done|done|].
  change (join sep (p :: q :: l)) with (p +:+ sep +:+ join sep (q :: l)).
  by rewrite !occurs_app, Hp, Hsep, IH.
Qed.

Lemma cut_prefixed sep t : cut sep (sep +:+ t) = Some ("", t).
Proof.
  assert (strip_prefix sep (sep +:+ t) = Some t) as H by by apply strip_prefix_Some.
  destruct sep as [|c sep]; [destruct t as [|d t]|]; simpl in *; by rewrite ?H.
Qed.

Lemma cut_free c p s t :
  occurs c s = false → cut (String c p) (s +:+ String c p +:+ t) = Some (s, t).
Proof.
  intros Hs. rewrite cut_op_app by done. rewrite (cut_prefixed (String c p)). simpl.
  by rewrite str_app_nil_r.
Qed.

(** A source entry written as an optional file name, protocols one of which is git, a
    remote without fragment or query, and an optional branch is recognised as a VCS source:
    the remote is the location under the last protocol (the transport), the ref the branch,
    HEAD without one. *)
Theorem ParseGitSource_print name protocols location branch :
  wf_source name protocols location branch = true →
  ParseGitSource (print_source name (print_url protocols location branch))
  = Some (mkGitSource (default "" (last protocols) +:+ "://" +:+ location) (default "HEAD" branch)).
Proof.
  unfold wf_source. rewrite !andb_true_iff, !bool_decide_eq_true, !negb_true_iff.
  intros ((((((Hname & Hgit) & Hprot) & Hloc) & Hhash) & Hq) & Hbr).
  assert (Forall (λ p, occurs "+" p = false) protocols ∧ Forall (λ p, occurs ":" p = false) protocols) as [Hp Hc].
  { rewrite forallb_Forall in Hprot. split; (eapply Forall_impl; [exact Hprot|]);
      intros p; rewrite andb_true_iff, !negb_true_iff; tauto. }
  assert (protocols ≠ []) as Hne by (intros ->; set_solver).
  unfold ParseGitSource.
  replace (match cut "::" (print_source name (print_url protocols location branch)) with
           | Some (_, source) => source | None => _ end) with (print_url protocols location branch).
  2: { destruct name as [n|]; cbn [print_source].
       - apply negb_true_iff in Hname. by rewrite (cut_free ":" ":" n).
       - apply bool_decide_eq_true in Hname. by rewrite Hname. }
  unfold print_url. rewrite (cut_free ":" "//") by by apply occurs_join.
  cbn [mbind option_bind]. rewrite (split_join "+") by done. rewrite decide_True by done.
  destruct branch as [b|].
  - apply andb_true_iff in Hbr as [Hb%bool_decide_eq_true Hbq%negb_true_iff].
    change (location +:+ "#branch=" +:+ b) with (location +:+ String "#" "" +:+ ("branch=" +:+ b)).
    rewrite (cut_free "#" "" location ("branch=" +:+ b)) by done.
    rewrite !before_none by done. rewrite decide_False by done.
    change ("branch=" +:+ b) with ("branch" +:+ String "=" "" +:+ b).
    rewrite (cut_free "=" "" "branch" b) by done.
    rewrite decide_False by naive_solver. done.
  - rewrite str_app_nil_r. rewrite (proj2 (cut_char_None "#" location)) by done.
    rewrite before_none by done. by rewrite decide_False.
Qed.

Lemma ParseGitSource_print_witness :
  wf_source (Some "linux") ["git"; "https"] "host/linux.git" (Some "main") = true ∧
  ParseGitSource "linux::git+https://host/linux.git#branch=main"
  = Some (mkGitSource "https://host/linux.git" "main").
Proof.
  split; [by vm_compute|].
  apply (ParseGitSource_print (Some "linux") ["git"; "https"] "host/linux.git" (Some "main")).
  by vm_compute.
Defined.

(** ** Theorems: the dependency graph *)

(** The package base behind a name: the last package that lists it as a package name, and
    without one the first that provides it. *)
Definition provided_by {R : RangeOrder} (pkgs : list SourcePackage) (arch name : string) : option string :=
  match List.find (λ p, bool_decide (name ∈ Names p)) (rev pkgs) with
  | Some p => Some (sp_Base p)
  | None =>
      sp_Base <$> List.find (λ p, bool_decide (name ∈ map (λ pr, cn_Name (Parse pr)) (sp_Provides p arch))) pkgs
  end.

Section graph_lemmas.
Context {R : RangeOrder}.
Implicit Types (pkgs : list SourcePackage) (arch : string).

Lemma lookup_fold_same (l : list string) (b : string) (m : gmap string string) k :
  foldl (λ m n, <[n := b]> m) m l !! k = if decide (k ∈ l) then Some b else m !! k.
Proof. apply (lookup_fill (λ _, b)). Qed.

Lemma lookup_names pkgs name :
  foldl name_provider ∅ pkgs !! name
  = sp_Base <$> List.find (λ p, bool_decide (name ∈ Names p)) (rev pkgs).
Proof.
  induction pkgs as [|p pkgs IH] using rev_ind; [done|].
  rewrite foldl_app, rev_app_distr. simpl. unfold name_provider at 1. rewrite lookup_fold_same, IH.
  case_decide; [by rewrite bool_decide_eq_true_2|by rewrite bool_decide_eq_false_2].
Qed.

Lemma lookup_provides arch p m name :
  provides_provider arch m p !! name =
  match m !! name with
  | Some b => Some b
  | None => if decide (name ∈ map (λ pr, cn_Name (Parse pr)) (sp_Provides p arch)) then Some (sp_Base p) else None
  end.
Proof.
  unfold provides_provider. revert m.
  induction (sp_Provides p arch) as [|pr l IH]; intros m; simpl; [by destruct (m !! name)|].
  rewrite IH. destruct (decide (name = cn_Name (Parse pr))) as [->|Hn].
  - rewrite (decide_True (P := _ ∈ _ :: _)) by (by left).
    destruct (decide (is_Some (m !! cn_Name (Parse pr)))) as [Hs|Hs].
    + by destruct Hs as [b ->].
    + apply eq_None_not_Some in Hs. by rewrite lookup_insert_eq, Hs.
  - rewrite (decide_ext (name ∈ cn_Name (Parse pr) :: _) (name ∈ map (λ pr, cn_Name (Parse pr)) l))
      by (rewrite elem_of_cons; tauto).
    destruct (decide (is_Some (m !! cn_Name (Parse pr)))); [done|]. by rewrite lookup_insert_ne.
Qed.

Lemma lookup_provider_map pkgs arch name : provider_map pkgs arch !! name = provided_by pkgs arch name.
Proof.
  unfold provider_map, provided_by.
  assert (∀ l m, foldl (provides_provider arch) m l !! name =
    match m !! name with
    | Some b => Some b
    | None => sp_Base <$> List.find (λ p, bool_decide (name ∈ map (λ pr, cn_Name (Parse pr)) (sp_Provides p arch))) l
    end) as H.
  { induction l as [|p l IH]; intros m; simpl; [by destruct (m !! name)|].
    rewrite IH, lookup_provides. destruct (m !! name); [done|].
    case_decide; [by rewrite bool_decide_eq_true_2|by rewrite bool_decide_eq_false_2]. }
  rewrite H, lookup_names. by destruct (List.find _ (rev pkgs)).
Qed.

Lemma provided_by_base pkgs arch name b :
  provided_by pkgs arch name = Some b → ∃ p, p ∈ pkgs ∧ b = sp_Base p.
Proof.
  unfold provided_by. destruct (List.find _ (rev pkgs)) as [p|] eqn:E.
  - intros [= <-]. apply List.find_some in E as [Hp _]. apply in_rev, list_elem_of_In in Hp. eauto.
  - intros (p & Hf & ->)%fmap_Some. apply List.find_some in Hf as [Hp _].
    apply list_elem_of_In in Hp. eauto.
Qed.

Lemma elem_of_graph_deps pkgs arch dependencies b d :
  d ∈ edges (foldl (λ deps p, foldl (dependency_edge (provider_map pkgs arch) p) deps (dependencies p arch)) ∅ pkgs) b
  ↔ d ≠ b ∧ ∃ p spec, p ∈ pkgs ∧ sp_Base p = b ∧ spec ∈ dependencies p arch
      ∧ provided_by pkgs arch (cn_Name (Parse spec)) = Some d.
Proof.
  rewrite (foldl_nested (λ p, dependencies p arch) (dependency_edge (provider_map pkgs arch))).
  set (l := concat _).
  rewrite (foldl_same _ (λ m ps,
    match (prov ← provider_map pkgs arch !! cn_Name (Parse ps.2);
           if decide (prov ≠ sp_Base ps.1) then Some (sp_Base ps.1, prov) else None) with
    | Some (j, v) => push m j v | None => m end)).
  2: { intros m ps. unfold dependency_edge. destruct (provider_map pkgs arch !! _); simpl; [by case_decide|done]. }
  unfold edges. rewrite lookup_pushes. rewrite (lookup_empty (M := gmap string)). simpl. rewrite list_elem_of_omap. split.
  - intros ([p spec] & Hin & Hd). apply elem_of_nested in Hin as [Hp Hs]. simpl in Hd.
    rewrite lookup_provider_map in Hd. destruct (provided_by _ _ _) as [prov|] eqn:E; [|done]. simpl in Hd.
    do 2 (case_decide; [|done]). simplify_eq. split; [done|]. eauto 6.
  - intros (Hne & p & spec & Hp & <- & Hs & E). exists (p, spec). split; [by apply elem_of_nested|].
    simpl. rewrite lookup_provider_map, E. simpl. by rewrite !decide_True.
Qed.

Lemma dependencyGraph_Deps pkgs arch dependencies b d :
  d ∈ Deps (dependencyGraph pkgs arch dependencies) b ↔
  d ≠ b ∧ ∃ p spec, p ∈ pkgs ∧ sp_Base p = b ∧ spec ∈ dependencies p arch
      ∧ provided_by pkgs arch (cn_Name (Parse spec)) = Some d.
Proof.
  unfold dependencyGraph. cbv zeta. set (deps := foldl _ ∅ pkgs).
  destruct (NewGraph_edges (map sp_Base pkgs) deps b) as (F & B & -> & _ & HF & _).
  destruct (sortedKeys_spec F) as (_ & _ & ->). rewrite HF. unfold deps.
  rewrite elem_of_graph_deps. tauto.
Qed.

Lemma dependencyGraph_Nodes pkgs arch dependencies n :
  n ∈ Nodes (dependencyGraph pkgs arch dependencies) ↔ n ∈ map sp_Base pkgs.
Proof.
  unfold dependencyGraph. cbv zeta. rewrite NewGraph_Nodes, elem_of_nodeSet.
  split; [|tauto]. intros [?|[Hn|[m Hm]]]; [done| |].
  - apply elem_of_dom in Hn as [ds Hds].
    assert (∃ d, d ∈ ds) as [d Hd].
    { revert ds Hds. rewrite (foldl_nested (λ p, dependencies p arch) (dependency_edge (provider_map pkgs arch))).
      generalize (concat (map (λ a, map (a,.) (dependencies a arch)) pkgs)). intros l.
      induction l as [|[p spec] l IH] using rev_ind; intros ds; [simpl; by rewrite lookup_empty|].
      rewrite foldl_app. simpl. unfold dependency_edge.
      destruct (provider_map pkgs arch !! _); [|apply IH]. case_decide; [|apply IH].
      unfold push. destruct (decide (n = sp_Base p)) as [->|Hne].
      - rewrite lookup_insert_eq. intros [= <-]. set_solver.
      - rewrite lookup_insert_ne by done. apply IH. }
    assert (d ∈ edges (foldl (λ deps p, foldl (dependency_edge (provider_map pkgs arch) p) deps
      (dependencies p arch)) ∅ pkgs) n) as He by (apply elem_of_edges; eauto).
    apply elem_of_graph_deps in He as (_ & p & _ & Hp & <- & _). apply list_elem_of_fmap. eauto.
  - apply elem_of_graph_deps in Hm as (_ & p & spec & _ & _ & _ & Hm).
    apply provided_by_base in Hm as (q & Hq & ->). apply list_elem_of_fmap. eauto.
Qed.

Lemma Dependents_Deps pkgs arch dependencies n d :
  let g := dependencyGraph pkgs arch dependencies in
  n ∈ Dependents g d ↔ d ∈ Deps g n.
Proof.
  cbv zeta. unfold dependencyGraph. cbv zeta. set (deps := foldl _ ∅ pkgs).
  destruct (NewGraph_edges (map sp_Base pkgs) deps n) as (F & _ & -> & _ & HF & _).
  destruct (NewGraph_edges (map sp_Base pkgs) deps d) as (_ & B & _ & -> & _ & HB).
  destruct (sortedKeys_spec F) as (_ & _ & ->), (sortedKeys_spec B) as (_ & _ & ->).
  rewrite HF, HB. naive_solver.
Qed.
End graph_lemmas.

Section order.
Context {R : RangeOrder}.

(** The build order of a graph: its nodes, each after its dependencies, or a cycle. *)
Lemma BuildOrder_NewGraph pkgs deps :
  let g := NewGraph pkgs deps in
  match BuildOrder g with
  | Ok order =>
      NoDup order ∧ (∀ n, n ∈ order ↔ n ∈ nodeSet pkgs deps) ∧
      (∀ l1 n l2 d, order = l1 ++ n :: l2 → d ∈ edges deps n → d ≠ n → d ∈ l1) ∧
      ¬ (∃ c, is_cycle (g_forward g) c)
  | Err e => ∃ c, e = ErrCycle c ∧ is_cycle (g_forward g) c
  end.
Proof.
  cbv zeta. set (g := NewGraph pkgs deps). unfold BuildOrder.
  assert (∀ m d, d ∈ edges (g_forward g) m ↔ d ∈ edges deps m ∧ d ≠ m) as Hd.
  { intros m d. destruct (NewGraph_edges pkgs deps m) as (F & B & EF & _ & HF & _).
    change (edges (g_forward g) m) with (Deps (NewGraph pkgs deps) m). rewrite EF.
    destruct (sortedKeys_spec F) as (_ & _ & ->). apply HF. }
  pose proof (TopoSort_spec (g_nodes g) (g_forward g)) as H. cbv zeta in H.
  destruct (TopoSort _ _) as [order|e]; [|apply H]. destruct H as [Hg Hp]. split_and!.
  - by eapply greedy_NoDup.
  - intros n. rewrite Hp, elem_of_elements, elem_of_nodeSet, <-(NewGraph_Nodes pkgs deps). fold g. unfold Nodes.
    split; [|tauto]. intros [?|[Hn|[m Hm]]]; [done| |].
    + apply elem_of_dom in Hn as [ds Hn]. revert Hn. unfold g, NewGraph.
      destruct (foldl _ _ (range_map _)) as [f b]. simpl. rewrite (lookup_fill (λ n, _)), lookup_empty.
      case_decide; [|done]. intros _. by rewrite elem_of_sort_strings.
    + apply Hd in Hm as [Hm _]. apply NewGraph_Nodes. by eapply nodeSet_closed.
  - intros l1 n l2 d E Hdep Hne. eapply greedy_deps; [exact Hg|exact E|]. by apply Hd.
  - eapply order_acyclic; [|done|done]. intros. by eapply nodeSet_keys.
Qed.

Lemma BuildOrder_spec pkgs arch dependencies :
  let g := dependencyGraph pkgs arch dependencies in
  match BuildOrder g with
  | Ok order =>
      NoDup order ∧ (∀ n, n ∈ order ↔ n ∈ map sp_Base pkgs) ∧
      (∀ l1 n l2 d, order = l1 ++ n :: l2 → d ∈ Deps g n → d ∈ l1) ∧
      ¬ (∃ c, is_cycle (g_forward g) c)
  | Err e => ∃ c, e = ErrCycle c ∧ is_cycle (g_forward g) c
  end.
Proof.
  cbv zeta. unfold dependencyGraph. cbv zeta. set (deps := foldl _ ∅ pkgs).
  pose proof (BuildOrder_NewGraph (map sp_Base pkgs) deps) as H. cbv zeta in H.
  destruct (BuildOrder _) as [order|e]; [|done]. destruct H as (Hnd & Hin & Hord & Hac). split_and!; [done| | |done].
  - intros n. rewrite Hin, <-NewGraph_Nodes. apply (dependencyGraph_Nodes pkgs arch dependencies).
  - intros l1 n l2 d E Hd. destruct (NewGraph_edges (map sp_Base pkgs) deps n) as (F & B & EF & _ & HF & _).
    rewrite EF in Hd. destruct (sortedKeys_spec F) as (_ & _ & SF). apply SF, HF in Hd as [Hd Hne]. by eapply Hord.
Qed.
End order.

(** Ordering packages for a build: the result is the packages given, those of one
    pkgbase in the order given. Without a dependency cycle between the packages, a package
    comes after every package that provides one of its build dependencies; with a cycle
    the order given is kept. *)
Theorem OrderByDeps_spec {R : RangeOrder} pkgs arch :
  let g := BuildDependencyGraph pkgs arch in
  let l := OrderByDeps pkgs arch in
  l ≡ₚ pkgs ∧
  (∀ b, filter (λ p, sp_Base p = b) l = filter (λ p, sp_Base p = b) pkgs) ∧
  ((∃ c, is_cycle (g_forward g) c) ∧ l = pkgs ∨
   ∀ l1 p l2 q spec, l = l1 ++ p :: l2 → q ∈ pkgs → sp_Base q ≠ sp_Base p →
     spec ∈ BuildDepends p arch → provided_by pkgs arch (cn_Name (Parse spec)) = Some (sp_Base q) →
     q ∈ l1).
Proof.
  intros g l. unfold l, OrderByDeps.
  pose proof (BuildOrder_spec pkgs arch BuildDepends) as H. cbv zeta in H.
  fold (BuildDependencyGraph pkgs arch) in H. fold g in H |- *.
  destruct (BuildOrder g) as [order|e].
  2: { split_and!; [done..|]. left. destruct H as (c & _ & ?). eauto. }
  destruct H as (Hnd & Hin & Hdep & _). set (le := λ a b, _).
  split_and!.
  - apply stable_sort_perm.
  - intros b. apply stable_sort_filter. intros x y Hx Hy. apply Nat.leb_le. by rewrite Hx, Hy.
  - right. intros l1 p l2 q spec E Hq Hne Hs Hpr.
    assert (p ∈ pkgs) as Hp by (rewrite <-(elem_of_stable_sort le), E; set_solver).
    assert (sp_Base p ∈ order) as Ho by (apply Hin, list_elem_of_fmap; eauto).
    apply list_elem_of_split in Ho as (k1 & k2 & ->).
    assert (sp_Base q ∈ k1) as Hqk.
    { apply (Hdep k1 (sp_Base p) k2); [done|]. apply dependencyGraph_Deps. split; [done|]. eauto 6. }
    pose proof (position_lt _ _ _ _ Hnd Hqk) as Hlt.
    assert (q ∈ stable_sort le pkgs) as Hql by by rewrite elem_of_stable_sort.
    rewrite E in Hql. apply elem_of_app in Hql as [?|Hql]; [done|exfalso].
    assert (StronglySorted (λ a b, le a b = true) (l1 ++ p :: l2)) as Hs'.
    { rewrite <-E. apply stable_sort_sorted; unfold le; intros *; rewrite !Nat.leb_le; lia. }
    apply StronglySorted_app_1_r in Hs'. apply StronglySorted_inv in Hs' as [_ Hf].
    apply elem_of_cons in Hql as [->|Hql]; [done|].
    rewrite Forall_forall in Hf. apply Hf in Hql. apply Nat.leb_le in Hql. lia.
Qed.
