(* ===== verification/PkgbuildEdit.v ===== *)
(** * Edits of a PKGBUILD (ayaka/service/source: bump.go, nvbump.go)

    The regular expressions that find the value of [pkgrel=] and [pkgver=], the rewrites
    that splice a new value into its span, and the operations that edit the packages of a
    source repository.  makepkg, updpkgsums and the file system's failures are parameters. *)

From Stdlib Require Import DecimalString.
From S2P Require Import Prelude GoStrings Srcinfo SourcePackage SourceRepo.

(** ** The patterns

    Both patterns are, on a line of the file: the key, an optional quote, the value, an
    optional quote, blanks, an optional comment, an optional carriage return.  No part of
    them matches a line feed, so a match lies within a line; and a value never holds a byte
    that may follow it, so the greedy choice is the only one. *)

Fixpoint span (f : ascii → bool) (s : string) : string * string :=
  match s with
  | "" => ("", "")
  | String c s' => if f c then let '(a, b) := span f s' in (String c a, b) else ("", s)
  end.

Definition tab : ascii := "009".
Definition form_feed : ascii := "012".
Definition quote : ascii := "034".

Definition is_digit (c : ascii) : bool := (48 <=? byte c)%N && (byte c <=? 57)%N.
Definition is_quote (c : ascii) : bool := bool_decide (c = "'"%char ∨ c = quote).
Definition is_blank (c : ascii) : bool := bool_decide (c = " "%char ∨ c = tab).

(** An optional quote. *)
Definition opt_quote (s : string) : string * string :=
  match s with
  | String c s' => if is_quote c then (String c "", s') else ("", s)
  | "" => ("", "")
  end.

(** What may follow the value up to the end of the line. *)
Definition line_end (s : string) : bool :=
  let s := (opt_quote s).2 in
  let s := (span is_blank s).2 in
  let s := match s with
           | String "#" s' => (span (λ c, negb (bool_decide (c = carriage_return))) s').2
           | _ => s
           end in
  bool_decide (s = "" ∨ s = String carriage_return "").

(** A match on one line: what comes before the value, the value, what comes after. *)
Definition value_pattern := string → option (string * string).

Definition match_line (key : string) (value : value_pattern) (l : string)
    : option (string * string * string) :=
  rest ← strip_prefix key l;
  let '(q, rest) := opt_quote rest in
  '(v, rest) ← value rest;
  if line_end rest then Some (key +:+ q, v, rest) else None.

(** [FindSubmatchIndex]: the lines before the first that matches, its text before, within
    and after the span of the value, the lines after it. *)
Record span_match := mkMatch {
  sm_before : list string;
  sm_prefix : string;
  sm_value : string;
  sm_suffix : string;
  sm_after : list string;
}.

Fixpoint match_lines (key : string) (value : value_pattern) (ls : list string) : option span_match :=
  match ls with
  | [] => None
  | l :: ls =>
      match match_line key value l with
      | Some (p, v, r) => Some (mkMatch [] p v r ls)
      | None =>
          m ← match_lines key value ls;
          Some (mkMatch (l :: sm_before m) (sm_prefix m) (sm_value m) (sm_suffix m) (sm_after m))
      end
  end.

Definition find_value (key : string) (value : value_pattern) (data : string) : option span_match :=
  match_lines key value (split_char newline data).

(** [data[:m[2]] + v + data[m[3]:]]. *)
Definition splice (m : span_match) (v : string) : string :=
  join (String newline "")
    (sm_before m ++ (sm_prefix m +:+ v +:+ sm_suffix m) :: sm_after m).

(** [[0-9]+(?:\.[0-9]+)?]. *)
Definition pkgrel_value : value_pattern := λ s,
  let '(n, rest) := span is_digit s in
  if decide (n = "") then None
  else match rest with
       | String "." rest' =>
           let '(f, rest'') := span is_digit rest' in
           if decide (f = "") then Some (n, rest) else Some (n +:+ "." +:+ f, rest'')
       | _ => Some (n, rest)
       end.

(** Anything but white space, quotes and the comment sign. *)
Definition version_byte (c : ascii) : bool :=
  negb (is_blank c || is_quote c
        || bool_decide (c = newline ∨ c = carriage_return ∨ c = form_feed ∨ c = "#"%char)).

Definition pkgver_value : value_pattern := λ s,
  let '(v, rest) := span version_byte s in
  if decide (v = "") then None else Some (v, rest).

Definition pkgrelRe : string → option span_match := find_value "pkgrel=" pkgrel_value.
Definition pkgverRe : string → option span_match := find_value "pkgver=" pkgver_value.

(** ** The new values *)
Inductive edit_error :=
| ErrPkgrelNotFound
| ErrPkgverNotFound
| ErrInvalidPkgrel (cur : string)
| ErrInvalidStep (by_ : string)
| ErrPackageNotFound (name : string)
| ErrFile (path msg : string)
| ErrTool (msg : string)
| ErrCancelled (msg : string).

(** [int] arithmetic wraps at 64 bits. *)
Definition wrap64 (z : Z) : Z := ((z + 2 ^ 63) mod 2 ^ 64 - 2 ^ 63)%Z.

Definition nextPkgrel (cur by_ : string) : result edit_error string :=
  let '(intPart, frac) := match cut "." cur with Some (i, f) => (i, Some f) | None => (cur, None) end in
  match parse_int intPart with
  | None => Err (ErrInvalidPkgrel cur)
  | Some n =>
      if decide (by_ = "1") then Ok (format_int (wrap64 (n + 1)))
      else if decide (by_ = "0.1") then
        match frac with
        | None => Ok (intPart +:+ ".1")
        | Some frac =>
            match parse_int frac with
            | None => Err (ErrInvalidPkgrel cur)
            | Some f => Ok (intPart +:+ "." +:+ format_int (wrap64 (f + 1)))
            end
        end
      else Err (ErrInvalidStep by_)
  end.

Definition rewritePkgrel (data by_ : string) : result edit_error string :=
  match pkgrelRe data with
  | None => Err ErrPkgrelNotFound
  | Some m => next ← nextPkgrel (sm_value m) by_; Ok (splice m next)
  end.

Definition rewritePkgver (data newVersion : string) : result edit_error string :=
  match pkgverRe data with
  | None => Err ErrPkgverNotFound
  | Some m =>
      match pkgrelRe (splice m newVersion) with
      | None => Err ErrPkgrelNotFound
      | Some r => Ok (splice r "1")
      end
  end.

(** ** The operations on a source repository *)
Definition findPackage (pkgs : list SourcePackage) (name : string) : option SourcePackage :=
  List.find (is_named name) pkgs.

#[local] Abbreviation files := (gmap string string).

Section edit.
(** The context's error, asked once per check; whether a file can be written; what makepkg
    prints, and what updpkgsums makes of the directory. *)
Context (ctx_err : nat → option string).
Context (write_err : string → option string).
Context (makepkg : string → files → result string string).
Context (updpkgsums : string → files → result string files).
(** The go-srcinfo parser under [ParseSrcinfoString] and its mark of an empty override. *)
Context (EmptyOverride : string) (go_parse : string → result string go_srcinfo).

Definition read_file (fs : files) (path : string) : result edit_error string :=
  result_of_option (ErrFile path "no such file") (fs !! path).

Definition write_file (fs : files) (path content : string) : files * result edit_error unit :=
  match write_err path with
  | Some e => (fs, Err (ErrFile path e))
  | None => (<[path := content]> fs, Ok tt)
  end.

Definition pkgbuild_path (p : SourcePackage) : string := path_join [sp_dir p; "PKGBUILD"].
Definition srcinfo_path (dir : string) : string := path_join [dir; ".SRCINFO"].

(** The .SRCINFO is written only after makepkg succeeds. *)
Definition GenerateSrcinfo (i : nat) (dir : string) (fs : files) : files * result edit_error unit :=
  match ctx_err i with
  | Some e => (fs, Err (ErrCancelled e))
  | None =>
      match makepkg dir fs with
      | Err e => (fs, Err (ErrTool e))
      | Ok out => write_file fs (srcinfo_path dir) out
      end
  end.

Definition OpenSourcePackage (fs : files) (dir : string) : result edit_error SourcePackage :=
  data ← read_file fs (srcinfo_path dir);
  match ParseSrcinfoString EmptyOverride string go_parse data with
  | Err _ => Err (ErrFile (srcinfo_path dir) "invalid .SRCINFO")
  | Ok info => Ok (mkSourcePackage dir info)
  end.

(** One iteration of the loop of [BumpPkgrel]; its context checks are the [2 i]th and the
    next. *)
Definition bump_one (pkgs : list SourcePackage) (by_ : string) (i : nat) (name : string) (fs : files)
    : files * result edit_error SourcePackage :=
  match ctx_err (2 * i) with
  | Some e => (fs, Err (ErrCancelled e))
  | None =>
      match findPackage pkgs name with
      | None => (fs, Err (ErrPackageNotFound name))
      | Some p =>
          match data ← read_file fs (pkgbuild_path p); rewritePkgrel data by_ with
          | Err e => (fs, Err e)
          | Ok out =>
              match write_file fs (pkgbuild_path p) out with
              | (fs, Err e) => (fs, Err e)
              | (fs, Ok _) =>
                  match GenerateSrcinfo (2 * i + 1) (sp_dir p) fs with
                  | (fs, Err e) => (fs, Err e)
                  | (fs, Ok _) => (fs, OpenSourcePackage fs (sp_dir p))
                  end
              end
          end
      end
  end.

Fixpoint bump_all (pkgs : list SourcePackage) (by_ : string) (i : nat) (names : list string) (fs : files)
    : files * result edit_error (list SourcePackage) :=
  match names with
  | [] => (fs, Ok [])
  | name :: names =>
      match bump_one pkgs by_ i name fs with
      | (fs, Err e) => (fs, Err e)
      | (fs, Ok p) =>
          let '(fs, r) := bump_all pkgs by_ (S i) names fs in (fs, bumped ← r; Ok (p :: bumped))
      end
  end.

Definition BumpPkgrel (src : SourceRepo) (names : list string) (by_ : string) (fs : files)
    : files * result edit_error (list SourcePackage) :=
  bump_all (sr_Pkgs src) by_ 0 names fs.

Definition NvBump (src : SourceRepo) (name newVersion : string) (fs : files)
    : files * result edit_error SourcePackage :=
  match ctx_err 0 with
  | Some e => (fs, Err (ErrCancelled e))
  | None =>
      match findPackage (sr_Pkgs src) name with
      | None => (fs, Err (ErrPackageNotFound name))
      | Some p =>
          match data ← read_file fs (pkgbuild_path p); rewritePkgver data newVersion with
          | Err e => (fs, Err e)
          | Ok out =>
              match write_file fs (pkgbuild_path p) out with
              | (fs, Err e) => (fs, Err e)
              | (fs, Ok _) =>
                  match updpkgsums (sp_dir p) fs with
                  | Err e => (fs, Err (ErrTool e))
                  | Ok fs =>
                      match GenerateSrcinfo 1 (sp_dir p) fs with
                      | (fs, Err e) => (fs, Err e)
                      | (fs, Ok _) => (fs, OpenSourcePackage fs (sp_dir p))
                      end
                  end
              end
          end
      end
  end.
End edit.

(** ** Theorems: what a rewrite changes *)

Definition crlf (s : string) : string := s +:+ String carriage_return "".

Example rewritePkgrel_tests :
  rewritePkgrel (unlines ["pkgname=foo"; "pkgver=1.0"; "pkgrel=1"; "arch=(any)"]) "0.1"
    = Ok (unlines ["pkgname=foo"; "pkgver=1.0"; "pkgrel=1.1"; "arch=(any)"])
  ∧ rewritePkgrel (unlines [crlf "pkgname=foo"; crlf "pkgrel=1"]) "0.1"
    = Ok (unlines [crlf "pkgname=foo"; crlf "pkgrel=1.1"])
  ∧ rewritePkgrel "pkgrel=1 # rebuilt for openssl" "0.1" = Ok "pkgrel=1.1 # rebuilt for openssl"
  ∧ rewritePkgrel "pkgrel='1'" "0.1" = Ok "pkgrel='1.1'"
  ∧ rewritePkgrel "pkgname=foo" "0.1" = Err ErrPkgrelNotFound
  ∧ rewritePkgrel "pkgrel=1.9" "0.1" = Ok "pkgrel=1.10"
  ∧ rewritePkgver (unlines ["pkgver=1.0"; "pkgrel=3"]) "2.0" = Ok (unlines ["pkgver=2.0"; "pkgrel=1"]).
Proof. by vm_compute. Qed.

(** The text a match was found in is the splice of the value it found. *)
Lemma span_app f s : (span f s).1 +:+ (span f s).2 = s.
Proof. induction s as [|c s IH]; [done|]. simpl. destruct (f c); [|done]. destruct (span f s). simpl in *. by rewrite <-IH. Qed.

Lemma opt_quote_app s : (opt_quote s).1 +:+ (opt_quote s).2 = s.
Proof. destruct s as [|c s]; [done|]. simpl. by destruct (is_quote c). Qed.

(** A pattern that finds a prefix of its text, made of bytes [f] admits, and would find it
    again before anything it leaves. *)
Class ValuePattern (value : value_pattern) := {
  value_app s v r : value s = Some (v, r) → s = v +:+ r;
  value_nil s v r : value s = Some (v, r) → occurs newline v = false;
}.

Lemma span_bytes f s : all_bytes f (span f s).1 = true.
Proof.
  induction s as [|c s IH]; [done|]. simpl. destruct (f c) eqn:E; [|done].
  destruct (span f s). simpl in *. by rewrite E.
Qed.

Lemma span_free f s c : f c = false → occurs c (span f s).1 = false.
Proof. intros Hc. apply (all_bytes_occurs f); [done|apply span_bytes]. Qed.

#[export] Instance pkgver_pattern : ValuePattern pkgver_value.
Proof.
  split; intros s v r; unfold pkgver_value; pose proof (span_app version_byte s) as Ha;
    pose proof (span_free version_byte s newline eq_refl) as Hf; destruct (span version_byte s) as [a b];
    simpl in *; case_decide; try done; by intros [= <- <-].
Qed.

#[export] Instance pkgrel_pattern : ValuePattern pkgrel_value.
Proof.
  split; intros s v r; unfold pkgrel_value; pose proof (span_app is_digit s) as Ha;
    pose proof (span_free is_digit s newline eq_refl) as Hf; destruct (span is_digit s) as [a b];
    simpl in *; (case_decide; [done|]).
  - destruct b as [|c b]; [by intros [= <- <-]|]. destruct (decide (c = "."%char)) as [->|Hc].
    + pose proof (span_app is_digit b) as Hb. destruct (span is_digit b) as [x y]. simpl in *.
      case_decide; intros [= <- <-]; [done|]. by rewrite <-Ha, <-Hb, <-!str_app_assoc.
    + destruct c as [[] [] [] [] [] [] [] []]; try (by intros [= <- <-]). by destruct Hc.
  - destruct b as [|c b]; [by intros [= <- <-]|]. destruct (decide (c = "."%char)) as [->|Hc].
    + pose proof (span_free is_digit b newline eq_refl) as Hb. destruct (span is_digit b) as [x y]. simpl in *.
      case_decide; intros [= <- <-]; [done|]. by rewrite occurs_app, Hf; simpl; rewrite Hb.
    + destruct c as [[] [] [] [] [] [] [] []]; try (by intros [= <- <-]). by destruct Hc.
Qed.

Section find.
Context (key : string) (value : value_pattern) `{!ValuePattern value}.

Lemma match_line_app l p v r : match_line key value l = Some (p, v, r) → l = p +:+ v +:+ r.
Proof.
  unfold match_line. intros H.
  destruct (strip_prefix key l) as [rest|] eqn:E; [|done]. simpl in H.
  apply strip_prefix_Some in E as ->. pose proof (opt_quote_app rest) as Hq.
  destruct (opt_quote rest) as [q rest']. simpl in *.
  destruct (value rest') as [[v' r']|] eqn:Ev; [|done]. simpl in H.
  apply value_app in Ev as ->. destruct (line_end r'); [|done]. simplify_eq.
  by rewrite !str_app_assoc.
Qed.

Lemma match_lines_app ls m :
  match_lines key value ls = Some m →
  ls = sm_before m ++ (sm_prefix m +:+ sm_value m +:+ sm_suffix m) :: sm_after m
  ∧ match_line key value (sm_prefix m +:+ sm_value m +:+ sm_suffix m)
    = Some (sm_prefix m, sm_value m, sm_suffix m)
  ∧ Forall (λ l, match_line key value l = None) (sm_before m).
Proof.
  revert m. induction ls as [|l ls IH]; intros m; simpl; [done|].
  destruct (match_line key value l) as [[[p v] r]|] eqn:E.
  - intros [= <-]. simpl. rewrite <-(match_line_app _ _ _ _ E). by split_and!.
  - destruct (match_lines key value ls) as [m'|]; [|done]. intros [= <-]. simpl.
    destruct (IH m' eq_refl) as (-> & ? & ?). split_and!; [done..|by constructor].
Qed.

Lemma match_lines_before ls1 l ls2 p v r :
  Forall (λ l, match_line key value l = None) ls1 → match_line key value l = Some (p, v, r) →
  match_lines key value (ls1 ++ l :: ls2) = Some (mkMatch ls1 p v r ls2).
Proof. induction 1 as [|l1 ls1 H1 Hf IH]; intros Hl; simpl; [by rewrite Hl|]. by rewrite H1, IH. Qed.

Lemma find_splice data m : find_value key value data = Some m → splice m (sm_value m) = data.
Proof.
  intros (E & _ & _)%match_lines_app. unfold splice. rewrite <-E. apply join_split.
Qed.

(** A new value that reads as one and holds no line feed is found where it was put. *)
Lemma find_spliced data m v :
  find_value key value data = Some m → occurs newline v = false →
  match_line key value (sm_prefix m +:+ v +:+ sm_suffix m) = Some (sm_prefix m, v, sm_suffix m) →
  find_value key value (splice m v)
  = Some (mkMatch (sm_before m) (sm_prefix m) v (sm_suffix m) (sm_after m)).
Proof.
  intros (E & Hl & Hb)%match_lines_app Hv Hm. unfold find_value, splice.
  pose proof (split_char_occurs newline data) as Hs. rewrite E, Forall_app, Forall_cons in Hs.
  destruct Hs as (Hs1 & Hs2 & Hs3). rewrite !occurs_app, !orb_false_iff in Hs2.
  rewrite split_join; [by apply match_lines_before|by destruct (sm_before m)|].
  apply Forall_app. split; [done|]. constructor; [|done]. rewrite !occurs_app, Hv. destruct Hs2 as (-> & _ & ->). done.
Qed.
End find.

(** ** The new value is read back *)
Lemma line_end_head c r :
  line_end (String c r) = true →
  is_quote c = true ∨ is_blank c = true ∨ c = "#"%char ∨ c = carriage_return.
Proof.
  unfold line_end, opt_quote. destruct (is_quote c) eqn:Eq; [by left|]. cbn [snd span].
  destruct (is_blank c) eqn:Eb; [by right; left|]. cbn [snd].
  destruct (decide (c = "#"%char)) as [->|Hc]; [by right; right; left|].
  intros H. right. right. right.
  assert (bool_decide (String c r = "" ∨ String c r = String carriage_return "") = true) as Hb.
  { revert H. destruct c as [[] [] [] [] [] [] [] []]; done. }
  apply bool_decide_eq_true in Hb as [?|Hb]; [done|]. by injection Hb.
Qed.

Lemma line_end_stops c r :
  line_end (String c r) = true → is_digit c = false ∧ version_byte c = false ∧ c ≠ "."%char.
Proof.
  intros [H|[H|[->| ->]]]%line_end_head; [| |done..].
  - apply bool_decide_eq_true in H as [->| ->]; done.
  - apply bool_decide_eq_true in H as [->| ->]; done.
Qed.

Lemma span_stop f v r :
  all_bytes f v = true → (∀ c r', r = String c r' → f c = false) → span f (v +:+ r) = (v, r).
Proof.
  intros Hv Hr. induction v as [|c v IH]; simpl in *.
  - destruct r as [|c r]; [done|]. simpl. by rewrite (Hr c r).
  - apply andb_true_iff in Hv as [-> Hv]. by rewrite IH.
Qed.

Definition pkgrel_text (v : string) : bool := bool_decide (pkgrel_value v = Some (v, "")).
Definition pkgver_text (v : string) : bool := bool_decide (v ≠ "") && all_bytes version_byte v.

Lemma pkgver_reread v r :
  pkgver_text v = true → line_end r = true → pkgver_value (v +:+ r) = Some (v, r).
Proof.
  unfold pkgver_text, pkgver_value. rewrite andb_true_iff, bool_decide_eq_true. intros [Hv Ha] Hr.
  rewrite span_stop by (try done; intros c r' ->; by apply line_end_stops in Hr as (_ & ? & _)).
  by rewrite decide_False.
Qed.

Lemma pkgrel_reread v r :
  pkgrel_text v = true → line_end r = true → pkgrel_value (v +:+ r) = Some (v, r).
Proof.
  unfold pkgrel_text. rewrite bool_decide_eq_true. intros Hv Hr.
  assert (∀ c r', r = String c r' → is_digit c = false) as Hd.
  { intros c r' ->. by apply line_end_stops in Hr as (? & _). }
  unfold pkgrel_value in *. pose proof (span_bytes is_digit v) as Hb. pose proof (span_app is_digit v) as Ha.
  destruct (span is_digit v) as [n rest]. simpl in *. destruct (decide (n = "")) as [|Hn]; [done|].
  destruct rest as [|c rest].
  - injection Hv as ->. rewrite span_stop by done. rewrite decide_False by done.
    destruct r as [|c r]; [done|]. destruct (line_end_stops _ _ Hr) as (_ & _ & Hc).
    clear -Hc. destruct c as [[] [] [] [] [] [] [] []]; done.
  - destruct (decide (c = "."%char)) as [->|Hc].
    2: { exfalso. clear -Hv Hc. destruct c as [[] [] [] [] [] [] [] []]; try (by simplify_eq). }
    pose proof (span_bytes is_digit rest) as Hb'. pose proof (span_app is_digit rest) as Ha'.
    destruct (span is_digit rest) as [f r2]. simpl in *.
    destruct (decide (f = "")) as [|Hf]; [by simplify_eq|]. injection Hv as Hv ->.
    rewrite <-Hv, <-str_app_assoc.
    change (String "." f +:+ r) with (String "." (f +:+ r)).
    rewrite (span_stop is_digit n) by (done || (intros ? ? [= <- _]; done)).
    rewrite decide_False by done. rewrite span_stop by done. by rewrite decide_False.
Qed.

Lemma match_line_new key value l p v r v' :
  match_line key value l = Some (p, v, r) →
  (∃ c t, v' = String c t ∧ is_quote c = false) → (line_end r = true → value (v' +:+ r) = Some (v', r)) →
  match_line key value (p +:+ v' +:+ r) = Some (p, v', r).
Proof.
  unfold match_line. intros H (c & t & -> & Hc) Hv.
  destruct (strip_prefix key l) as [rest|] eqn:E; [|done]. simpl in H.
  destruct (opt_quote rest) as [q rest'] eqn:Eq.
  destruct (value rest') as [[v0 r0]|]; [|done]. cbn [mbind option_bind] in H.
  destruct (line_end r0) eqn:Er; [|done]. simplify_eq.
  rewrite <-str_app_assoc, (proj2 (strip_prefix_Some key _ (q +:+ String c t +:+ r)) eq_refl). simpl.
  assert (opt_quote (q +:+ String c (t +:+ r)) = (q, String c (t +:+ r))) as ->.
  { destruct rest as [|d rest]; simpl in Eq; [injection Eq as <- <-; simpl; by rewrite Hc|].
    destruct (is_quote d) eqn:Ed; injection Eq as <- <-; simpl; [by rewrite Ed|by rewrite Hc]. }
  rewrite (Hv Er : value (String c (t +:+ r)) = _). simpl. by rewrite Er.
Qed.

Lemma pkgrel_text_head v : pkgrel_text v = true → ∃ c t, v = String c t ∧ is_quote c = false.
Proof.
  unfold pkgrel_text, pkgrel_value. rewrite bool_decide_eq_true. destruct v as [|c t]; [done|].
  intros H. exists c, t. split; [done|]. revert H. simpl.
  destruct (is_digit c) eqn:Ed; [|by rewrite decide_True]. intros _.
  clear -Ed. unfold is_quote. apply bool_decide_eq_false. intros [->| ->]; done.
Qed.

Lemma pkgver_text_head v : pkgver_text v = true → ∃ c t, v = String c t ∧ is_quote c = false.
Proof.
  unfold pkgver_text. rewrite andb_true_iff, bool_decide_eq_true. destruct v as [|c t]; [naive_solver|].
  simpl. rewrite andb_true_iff. intros (_ & Hc & _). exists c, t. split; [done|].
  unfold version_byte in Hc. destruct (is_quote c); [|done]. by destruct (is_blank c).
Qed.

Lemma pkgrel_text_newline v : pkgrel_text v = true → occurs newline v = false.
Proof. unfold pkgrel_text. rewrite bool_decide_eq_true. apply value_nil. Qed.

Lemma pkgver_text_newline v : pkgver_text v = true → occurs newline v = false.
Proof.
  unfold pkgver_text. rewrite andb_true_iff. intros [_ Hv].
  by apply (all_bytes_occurs version_byte).
Qed.

Lemma pkgrel_spliced data m v :
  pkgrelRe data = Some m → pkgrel_text v = true →
  pkgrelRe (splice m v) = Some (mkMatch (sm_before m) (sm_prefix m) v (sm_suffix m) (sm_after m)).
Proof.
  intros Hm Hv. eapply find_spliced; [exact _|done|by apply pkgrel_text_newline|].
  destruct (match_lines_app _ _ _ _ Hm) as (_ & Hl & _).
  eapply match_line_new; [exact Hl|by apply pkgrel_text_head|]. by apply pkgrel_reread.
Qed.

Lemma pkgver_spliced data m v :
  pkgverRe data = Some m → pkgver_text v = true →
  pkgverRe (splice m v) = Some (mkMatch (sm_before m) (sm_prefix m) v (sm_suffix m) (sm_after m)).
Proof.
  intros Hm Hv. eapply find_spliced; [exact _|done|by apply pkgver_text_newline|].
  destruct (match_lines_app _ _ _ _ Hm) as (_ & Hl & _).
  eapply match_line_new; [exact Hl|by apply pkgver_text_head|]. by apply pkgver_reread.
Qed.

(** ** Repeated bumps *)
Lemma uint_digits (d : Decimal.uint) : all_bytes is_digit (NilEmpty.string_of_uint d) = true.
Proof. induction d; simpl; try done; by rewrite IHd. Qed.

Lemma format_digits z : (0 ≤ z)%Z → all_bytes is_digit (format_int z) = true.
Proof.
  unfold format_int. destruct z as [|p|p]; [done| |lia]. simpl.
  pose proof (uint_digits (Pos.to_uint p)). by destruct (Pos.to_uint p).
Qed.

Lemma pkgrel_text_digits n : all_bytes is_digit n = true → n ≠ "" → pkgrel_text n = true.
Proof.
  intros Hn Hne. unfold pkgrel_text, pkgrel_value. apply bool_decide_eq_true.
  rewrite <-(str_app_nil_r n) at 1. rewrite span_stop by done. by rewrite decide_False.
Qed.

Lemma pkgrel_text_suffix n f :
  all_bytes is_digit n = true → n ≠ "" → all_bytes is_digit f = true → f ≠ "" →
  pkgrel_text (n +:+ "." +:+ f) = true.
Proof.
  intros Hn Hne Hf Hfe. unfold pkgrel_text, pkgrel_value. apply bool_decide_eq_true.
  rewrite span_stop by (done || (intros ? ? [= <- _]; done)). rewrite decide_False by done. simpl.
  rewrite <-(str_app_nil_r f) at 1. rewrite span_stop by done. by rewrite decide_False.
Qed.

Lemma nextPkgrel_int n :
  int64 n = true → (0 ≤ n)%Z →
  nextPkgrel (format_int n) "0.1" = Ok (format_int n +:+ ".1") ∧
  nextPkgrel (format_int n) "1" = Ok (format_int (wrap64 (n + 1))).
Proof.
  intros Hn Hz. unfold nextPkgrel.
  rewrite (proj2 (cut_char_None "." _)) by by apply occurs_format_int.
  by rewrite parse_format_int.
Qed.

Lemma nextPkgrel_suffix n k :
  int64 n = true → int64 k = true → (0 ≤ n)%Z → (0 ≤ k)%Z →
  nextPkgrel (format_int n +:+ "." +:+ format_int k) "0.1"
    = Ok (format_int n +:+ "." +:+ format_int (wrap64 (k + 1))) ∧
  nextPkgrel (format_int n +:+ "." +:+ format_int k) "1" = Ok (format_int (wrap64 (n + 1))).
Proof.
  intros Hn Hk Hnz Hkz. unfold nextPkgrel.
  rewrite (cut_free "." "" (format_int n) (format_int k)) by by apply occurs_format_int.
  by rewrite !parse_format_int.
Qed.

Lemma wrap64_id z : int64 z = true → wrap64 z = z.
Proof.
  unfold int64, wrap64, min_int64, max_int64. rewrite andb_true_iff, !Z.leb_le. intros [H1 H2].
  rewrite Z.mod_small; lia.
Qed.

Fixpoint bumps (k : nat) (by_ data : string) : result edit_error string :=
  match k with O => Ok data | S k => out ← bumps k by_ data; rewritePkgrel out by_ end.

(** Bumping the pkgrel [n] of a PKGBUILD [k] times by 0.1 gives [n.k], and then bumping
    it by 1 gives [n + 1] without a suffix; each time only the value on the first line that
    assigns pkgrel changes, whatever quotes, comment or line ending surround it, and the
    value put there is the one the next bump reads. *)
Theorem bump_sequence data m n k :
  pkgrelRe data = Some m → sm_value m = format_int n → (0 ≤ n < max_int64)%Z →
  (1 ≤ Z.of_nat k ≤ max_int64)%Z →
  data = splice m (format_int n) ∧
  bumps k "0.1" data = Ok (splice m (format_int n +:+ "." +:+ format_int (Z.of_nat k))) ∧
  (out ← bumps k "0.1" data; rewritePkgrel out "1") = Ok (splice m (format_int (n + 1))).
Proof.
  intros Hm Hv Hn Hk.
  assert (∀ z, (0 ≤ z ≤ max_int64)%Z → int64 z = true) as Hi.
  { intros z Hz. unfold int64, min_int64 in *. apply andb_true_iff. rewrite !Z.leb_le. lia. }
  assert (bumps k "0.1" data = Ok (splice m (format_int n +:+ "." +:+ format_int (Z.of_nat k)))) as Hb.
  { induction k as [|[|k] IH]; [lia| |].
    - simpl. unfold rewritePkgrel. rewrite Hm, Hv.
      destruct (nextPkgrel_int n) as [-> _]; [apply Hi; lia|lia|done].
    - cbn [bumps]. cbn [bumps] in IH. rewrite IH by lia. cbn [mbind result_bind]. unfold rewritePkgrel.
      rewrite (pkgrel_spliced _ _ _ Hm)
        by (apply pkgrel_text_suffix; try apply format_digits; try apply format_int_not_nil; lia).
    cbn [sm_value].
      destruct (nextPkgrel_suffix n (Z.of_nat (S k))) as [-> _]; [apply Hi; lia..|lia|lia|]. simpl.
      rewrite wrap64_id by (apply Hi; lia). by replace (Z.of_nat (S k) + 1)%Z with (Z.of_nat (S (S k))) by lia. }
  split_and!; [|done|].
  - rewrite <-Hv. by rewrite (find_splice _ _ _ _ Hm).
  - rewrite Hb. cbn [mbind result_bind]. unfold rewritePkgrel.
    rewrite (pkgrel_spliced _ _ _ Hm)
      by (apply pkgrel_text_suffix; try apply format_digits; try apply format_int_not_nil; lia).
    cbn [sm_value].
    destruct (nextPkgrel_suffix n (Z.of_nat k)) as [_ ->]; [apply Hi; lia..|lia|lia|]. simpl.
    by rewrite wrap64_id by (apply Hi; lia).
Qed.

Definition bump_example : string :=
  unlines ["# Maintainer"; "pkgver=1.0"; "pkgrel='3'  # rebuilt"; "pkgrel=9"].

Lemma bump_sequence_witness :
  bumps 12 "0.1" bump_example = Ok (unlines ["# Maintainer"; "pkgver=1.0"; "pkgrel='3.12'  # rebuilt"; "pkgrel=9"]) ∧
  bump_example = splice (mkMatch ["# Maintainer"; "pkgver=1.0"] "pkgrel='" "3" "'  # rebuilt" ["pkgrel=9"; ""]) "3".
Proof.
  destruct (bump_sequence bump_example
    (mkMatch ["# Maintainer"; "pkgver=1.0"] "pkgrel='" "3" "'  # rebuilt" ["pkgrel=9"; ""]) 3 12)
    as (H1 & H2 & _); [by vm_compute|by vm_compute|by vm_compute|by vm_compute|].
  split; [rewrite H2; by vm_compute|exact H1].
Defined.

(** ** The rewrite of pkgver *)

(** The line a match is on, with a value put in. *)
Definition sm_line (m : span_match) (v : string) : string := sm_prefix m +:+ v +:+ sm_suffix m.

Lemma splice_lines data key value m v :
  ValuePattern value → find_value key value data = Some m → occurs newline v = false →
  split_char newline (splice m v) = <[length (sm_before m) := sm_line m v]> (split_char newline data).
Proof.
  intros Hval (E & Hl & _)%match_lines_app Hv; [|done].
  pose proof (split_char_occurs newline data) as Hs. rewrite E in Hs |- *.
  apply Forall_app in Hs as [Hs1 Hs2]. apply Forall_cons in Hs2 as [Hs2 Hs3].
  rewrite !occurs_app, !orb_false_iff in Hs2.
  rewrite insert_app_r_alt, Nat.sub_diag by done. simpl.
  unfold splice. rewrite split_join; [done|by destruct (sm_before m)|].
  apply Forall_app. split; [done|]. constructor; [|done]. unfold sm_line. rewrite !occurs_app, Hv.
  destruct Hs2 as (-> & _ & ->). done.
Qed.

(** A line that does not match may be replaced by another that does not. *)
Lemma match_lines_insert key value ls r i l' :
  ValuePattern value → match_lines key value ls = Some r → i ≠ length (sm_before r) →
  match_line key value l' = None →
  ∃ r', match_lines key value (<[i := l']> ls) = Some r' ∧ length (sm_before r') = length (sm_before r)
    ∧ sm_prefix r' = sm_prefix r ∧ sm_value r' = sm_value r ∧ sm_suffix r' = sm_suffix r.
Proof.
  intros Hval Hr Hi Hl'. apply match_lines_app in Hr as (-> & Hl & Hb); [|done].
  destruct (decide (i < length (sm_before r))) as [Hlt|Hge].
  - rewrite insert_app_l by done.
    eexists. split; [apply match_lines_before; [|exact Hl]|].
    + by apply Forall_insert.
    + simpl. by rewrite length_insert.
  - rewrite insert_app_r_alt by lia. destruct (i - length (sm_before r)) as [|j] eqn:Ej; [lia|].
    simpl. eexists. split; [apply match_lines_before; [done|exact Hl]|]. done.
Qed.

Lemma match_line_key key value l p v r :
  match_line key value l = Some (p, v, r) → has_prefix l key = true.
Proof.
  unfold match_line. destruct (strip_prefix key l) eqn:E; [|done]. intros _.
  apply has_prefix_true. apply strip_prefix_Some in E. eauto.
Qed.

Lemma match_line_other key key' value l :
  has_prefix l key' = true → String.length key = String.length key' → key ≠ key' →
  match_line key value l = None.
Proof.
  intros [t ->]%has_prefix_true Hlen Hne. unfold match_line.
  destruct (strip_prefix key (key' +:+ t)) as [u|] eqn:E; [|done].
  apply strip_prefix_Some in E. exfalso. apply Hne.
  apply (f_equal (str_take (String.length key))) in E.
  rewrite str_take_app, Hlen, str_take_app in E. done.
Qed.

(** Putting a version into a PKGBUILD that assigns pkgver and pkgrel: the rewrite
    succeeds, the first line that assigns pkgver reads back the new version, the first that
    assigns pkgrel reads 1, and no other line changes. *)
Theorem rewritePkgver_spec data v m r :
  pkgverRe data = Some m → pkgrelRe data = Some r → pkgver_text v = true →
  ∃ out m' r',
    rewritePkgver data v = Ok out ∧
    pkgverRe out = Some m' ∧ sm_value m' = v ∧
    pkgrelRe out = Some r' ∧ sm_value r' = "1" ∧
    split_char newline out
    = <[length (sm_before r) := sm_line r "1"]>
        (<[length (sm_before m) := sm_line m v]> (split_char newline data)).
Proof.
  intros Hm Hr Hv.
  pose proof (pkgver_spliced _ _ _ Hm Hv) as Hm1.
  pose proof (splice_lines _ _ _ _ _ _ Hm (pkgver_text_newline _ Hv)) as Hl1.
  destruct (match_lines_app _ _ _ _ Hm) as (E & Hlm & _).
  destruct (match_lines_app _ _ _ _ Hr) as (Er & Hlr & _).
  destruct (match_lines_app _ _ _ _ Hm1) as (_ & Hlm1 & _). simpl in Hlm1.
  assert (length (sm_before m) ≠ length (sm_before r)) as Hij.
  { intros Heq. assert (split_char newline data !! length (sm_before m)
      = Some (sm_prefix m +:+ sm_value m +:+ sm_suffix m)) as H1 by (rewrite E; by apply list_lookup_middle).
    rewrite Heq, Er, list_lookup_middle in H1 by done. injection H1 as H1. rewrite H1 in Hlr.
    rewrite (match_line_other "pkgrel=" "pkgver=") in Hlr; [done| |done|done].
    by eapply match_line_key. }
  destruct (match_lines_insert "pkgrel=" pkgrel_value _ r (length (sm_before m)) (sm_line m v) _ Hr Hij)
    as (r1 & Hr1 & Hb1 & Hp1 & _ & Hs1).
  { apply (match_line_other _ "pkgver="); [|done|done]. by eapply match_line_key. }
  rewrite <-Hl1 in Hr1. fold (find_value "pkgrel=" pkgrel_value (splice m v)) in Hr1.
  fold (pkgrelRe (splice m v)) in Hr1.
  assert (pkgrel_text "1" = true) as H1 by done.
  pose proof (splice_lines _ _ _ _ _ _ Hr1 (pkgrel_text_newline _ H1)) as Hl2.
  pose proof (pkgrel_spliced _ _ _ Hr1 H1) as Hr2.
  destruct (match_lines_app _ _ _ _ Hr2) as (_ & Hlr2 & _). simpl in Hlr2.
  destruct (match_lines_insert "pkgver=" pkgver_value _ _ (length (sm_before r1)) (sm_line r1 "1") _ Hm1)
    as (m2 & Hm2 & _ & _ & Hv2 & _).
  { simpl. rewrite Hb1. by apply not_eq_sym. }
  { apply (match_line_other _ "pkgrel="); [|done|done]. by eapply match_line_key. }
  rewrite <-Hl2 in Hm2.
  exists (splice r1 "1"). eexists m2, _. split_and!; [|exact Hm2|exact Hv2|exact Hr2|done|].
  - unfold rewritePkgver. by rewrite Hm, Hr1.
  - rewrite Hl2, Hl1, Hb1. unfold sm_line. by rewrite Hp1, Hs1.
Qed.

Lemma rewritePkgver_spec_witness :
  ∃ out, rewritePkgver (unlines ["pkgname=foo"; "pkgrel=3"; "pkgver='1.0' # tag"]) "2.0rc1" = Ok out ∧
    split_char newline out = ["pkgname=foo"; "pkgrel=1"; "pkgver='2.0rc1' # tag"; ""].
Proof.
  destruct (rewritePkgver_spec (unlines ["pkgname=foo"; "pkgrel=3"; "pkgver='1.0' # tag"]) "2.0rc1"
    (mkMatch ["pkgname=foo"; "pkgrel=3"] "pkgver='" "1.0" "' # tag" [""])
    (mkMatch ["pkgname=foo"] "pkgrel=" "3" "" ["pkgver='1.0' # tag"; ""]))
    as (out & m' & r' & H & _ & _ & _ & _ & Hl); [by vm_compute..|].
  exists out. split; [exact H|]. rewrite Hl. by vm_compute.
Defined.

(** ** The files an operation touches *)
Section frame.
Context (ctx_err : nat → option string) (write_err : string → option string).
Context (makepkg : string → files → result string string).
Context (EmptyOverride : string) (go_parse : string → result string go_srcinfo).
Context (pkgs : list SourcePackage) (by_ : string).

Abbreviation bump_one := (bump_one ctx_err write_err makepkg EmptyOverride go_parse pkgs by_).
Abbreviation bump_all := (bump_all ctx_err write_err makepkg EmptyOverride go_parse pkgs by_).

(** The files of a named package an edit may write. *)
Definition edited (name path : string) : Prop :=
  ∃ p, findPackage pkgs name = Some p ∧ (path = pkgbuild_path p ∨ path = srcinfo_path (sp_dir p)).

Lemma write_file_frame fs path content fs' r q :
  write_file write_err fs path content = (fs', r) → q ≠ path → fs' !! q = fs !! q.
Proof. unfold write_file. destruct (write_err path); intros [= <- _] Hq; [done|by rewrite lookup_insert_ne]. Qed.

Lemma bump_one_frame i name fs fs' r path :
  bump_one i name fs = (fs', r) → ¬ edited name path → fs' !! path = fs !! path.
Proof.
  unfold PkgbuildEdit.bump_one. intros H Hn.
  destruct (ctx_err (2 * i)); [by simplify_eq|].
  destruct (findPackage pkgs name) as [p|] eqn:Ep; [|by simplify_eq].
  assert (path ≠ pkgbuild_path p ∧ path ≠ srcinfo_path (sp_dir p)) as [Hp1 Hp2].
  { split; intros ->; apply Hn; exists p; auto. }
  destruct (read_file fs (pkgbuild_path p) ≫= _) as [out|e]; [|by simplify_eq].
  destruct (write_file write_err fs (pkgbuild_path p) out) as [fs1 [[]|e]] eqn:Ew;
    pose proof (write_file_frame _ _ _ _ _ _ Ew Hp1) as E1; [|by simplify_eq].
  destruct (GenerateSrcinfo _ _ _ _ _ _) as [fs2 r2] eqn:Eg.
  assert (fs2 !! path = fs1 !! path) as E2.
  { revert Eg. unfold GenerateSrcinfo. destruct (ctx_err _); [by intros [= <- _]|].
    destruct (makepkg _ _) as [o|]; [|by intros [= <- _]]. intros Eg. by eapply write_file_frame. }
  destruct r2; simplify_eq; congruence.
Qed.

(** Bumping touches only the PKGBUILD and the .SRCINFO of the packages named, on success
    and on every failure; a package is returned for each name, in order, from the directory
    of the one it names. *)
Theorem BumpPkgrel_frame i names fs :
  let '(fs', r) := bump_all i names fs in
  (∀ path, (∀ name, name ∈ names → ¬ edited name path) → fs' !! path = fs !! path) ∧
  ∀ bumped, r = Ok bumped →
    Forall2 (λ name q, ∃ p, findPackage pkgs name = Some p ∧ sp_dir q = sp_dir p) names bumped.
Proof.
  revert i fs. induction names as [|name names IH]; intros i fs; simpl; [split; [done|by intros ? [= <-]]|].
  destruct (bump_one i name fs) as [fs1 [q|e]] eqn:E.
  - specialize (IH (S i) fs1). destruct (bump_all (S i) names fs1) as [fs2 r2]. destruct IH as [IH1 IH2].
    split.
    + intros path Hp. rewrite IH1 by (intros; apply Hp; by right). eapply bump_one_frame; [exact E|]. apply Hp. by left.
    + intros bumped Hb. destruct r2 as [l|]; [|done]. simpl in Hb. simplify_eq. constructor; [|by apply IH2].
      revert E. unfold PkgbuildEdit.bump_one. destruct (ctx_err _); [done|].
      destruct (findPackage pkgs name) as [p|]; [|done]. destruct (read_file _ _ ≫= _); [|done].
      destruct (write_file _ _ _ _) as [f1 [|]]; [|done]. destruct (GenerateSrcinfo _ _ _ _ _ _) as [f2 [|]]; [|done].
      intros [= -> Ho]. exists p. split; [done|]. revert Ho. unfold OpenSourcePackage.
      destruct (read_file _ _) as [d|]; [|done]. simpl. destruct (ParseSrcinfoString _ _ _ _); [|done].
      by intros [= <-].
  - split; [|done]. intros path Hp. eapply bump_one_frame; [exact E|]. apply Hp. by left.
Qed.
End frame.
