(* ===== verification/BuildPlan.v ===== *)
(** * What a run must build (ayaka/service/plan)

    vcs.go, plan.go, remote.go and prune.go: the packages whose source is newer than the
    published repository, those whose VCS sources moved, those a dependency update or a
    soname change rebuilds, their build order and its split over workers; and the removal
    of published packages that left the source. *)

From Stdlib Require Import SpecFloat.
From S2P Require Import Prelude GoStrings Pkginfo Srcinfo SourcePackage Constraint Toposort Package Repo Rebuild Worklist SourceRepo PkgbuildEdit.

(** ** The commit a published version names ([gitCommitFromVersion]) *)
Definition is_hex (c : ascii) : bool :=
  is_digit c || ((97 <=? byte c)%N && (byte c <=? 102)%N) || ((65 <=? byte c)%N && (byte c <=? 70)%N).

Definition to_lower (c : ascii) : ascii :=
  if (65 <=? byte c)%N && (byte c <=? 90)%N then ascii_of_N (byte c + 32) else c.

Definition either (c lower upper : ascii) : bool := bool_decide (c = lower ∨ c = upper).

(** A regular expression at a place of the text: whether the text starts here, the rest of
    it; the submatch and the length of the match. *)
Definition matcher := bool → string → option (string * nat).

(** [describedGitCommit]: [.g] and at least seven hexadecimal digits, in any case. *)
Definition describedGitCommit : matcher := λ _ s,
  match s with
  | String "." (String g s) =>
      let h := (span is_hex s).1 in
      if either g "g" "G" && (7 <=? String.length h)%nat then Some (h, 2 + String.length h) else None
  | _ => None
  end.

(** [revisionGitCommit] after its first alternative: [r], digits, a dot, at least seven
    hexadecimal digits, and the end of the text or one of [-+.]. *)
Definition revision_body (s : string) : option (string * nat) :=
  match s with
  | String r s =>
      if either r "r" "R" then
        let '(n, rest) := span is_digit s in
        match rest with
        | String "." rest =>
            let '(h, rest) := span is_hex rest in
            if bool_decide (n ≠ "") && (7 <=? String.length h)%nat then
              let len := 2 + String.length n + String.length h in
              match rest with
              | "" => Some (h, len)
              | String c _ => if bool_decide (c ∈ ["-"; "+"; "."]%char) then Some (h, S len) else None
              end
            else None
        | _ => None
        end
      else None
  | "" => None
  end.

Definition revisionGitCommit : matcher := λ start s,
  match (if start then revision_body s else None) with
  | Some m => Some m
  | None =>
      match s with
      | String "." s => '(h, len) ← revision_body s; Some (h, S len)
      | _ => None
      end
  end.

(** [FindAllStringSubmatch]: matches from left to right that do not overlap. *)
Fixpoint find_all (re : matcher) (skip : nat) (start : bool) (s : string) : list string :=
  match s with
  | "" => []
  | String _ s' =>
      match skip with
      | S skip => find_all re skip false s'
      | O =>
          match re start s with
          | Some (h, len) => h :: find_all re (len - 1) false s'
          | None => find_all re 0 false s'
          end
      end
  end.

Definition validHex (value : string) : bool :=
  let value := if Nat.odd (String.length value) then "0" +:+ value else value in
  Nat.even (String.length value) && all_bytes is_hex value.

Definition validGitCommitPrefix (commit : string) : bool :=
  (7 <=? String.length commit)%nat && (String.length commit <=? 64)%nat && validHex commit.

Definition gitCommitFromVersion (version : string) : option string :=
  let described := find_all describedGitCommit 0 true version in
  let found := match described with [] => find_all revisionGitCommit 0 true version | _ => described end in
  m ← last found;
  let commit := map_bytes to_lower m in
  if validGitCommitPrefix commit then Some commit else None.

(** ** VCS sources that moved *)

(** The order in which the goroutines of a check deliver their results. *)
Class Arrival := {
  arrive : list (result string string) → list (result string string);
  arrive_perm l : arrive l ≡ₚ l;
}.

(** The loop over the results: whether the commit of one is not the published one, and the
    errors seen before; a cancelled check reports none. *)
Fixpoint changed_loop (cancelled : bool) (published : string) (results : list (result string string))
    (errs : list string) : bool * list string :=
  match results with
  | [] => (false, errs)
  | Err e :: results => changed_loop cancelled published results (if cancelled then errs else errs ++ [e])
  | Ok commit :: results =>
      if has_prefix (map_bytes to_lower commit) published then changed_loop cancelled published results errs
      else (true, errs)
  end.

Section plan.
Context (vercmp : string → string → Z) {R : RangeOrder} {A : Arrival}.
(** [ctx.Err()] and [gitRemoteCommit], which asks git. *)
Context (ctx_err : option string) (resolve : GitSource → result string string).

Definition gitSourcesChanged (publishedVersion : string) (sources : list GitSource) : bool * list string :=
  match gitCommitFromVersion publishedVersion with
  | None => (true, [])
  | Some published =>
      changed_loop (bool_decide (is_Some ctx_err)) published (arrive (map resolve sources)) []
  end.

(** The check of one package; [None] is a package that is not checked. *)
Definition check_vcs (remote : RemoteRepo) (arch : string) (p : SourcePackage) : option bool :=
  published ← PkgByPkgBase remote (sp_Base p);
  match omap ParseGitSource (Sources p arch) with
  | [] => None
  | gitSources => Some (gitSourcesChanged (bp_Version published) gitSources).1
  end.

Definition detectVCSUpdates (packages : list SourcePackage) (remote : RemoteRepo) (arch : string) : gset string :=
  foldl (λ updates p,
    if decide (check_vcs remote arch p = Some true) then {[sp_Base p]} ∪ updates else updates) ∅ packages.

(** ** [plan.go] *)
Inductive CascadeMode := CascadeOff | CascadeMakeDepends | CascadeSoname | CascadeBoth.

Definition CascadeMode_text (m : CascadeMode) : string :=
  match m with
  | CascadeOff => "off" | CascadeMakeDepends => "makedepends"
  | CascadeSoname => "soname" | CascadeBoth => "both"
  end.

Definition ParseCascadeMode (s : string) : option CascadeMode :=
  List.find (λ m, bool_decide (CascadeMode_text m = s)) [CascadeOff; CascadeMakeDepends; CascadeSoname; CascadeBoth].

Record Plan := mkPlan {
  Order : list string;
  Buckets : list (list string);
  Reasons : gmap string string;
  BumpTargets : list string;
}.

Inductive plan_error := ErrContext (msg : string) | ErrOrder (e : topo_error) | ErrPlanFuel.

Definition pkgverOf (v : string) : string :=
  match cut_last "-" v with Some (a, _) => a | None => v end.

Definition pkgverChanged (sp : SourcePackage) (rr : RemoteRepo) : bool :=
  match PkgByPkgBase rr (sp_Base sp) with
  | None => true
  | Some rp => negb (vercmp (pkgverOf (sp_Version sp)) (pkgverOf (bp_Version rp)) =? 0)%Z
  end.

Definition dependentsClosure (g : Graph) (seeds : list string) : option (list string) :=
  let '(seen, queue) := foldl (λ acc s, foldl discover acc (Dependents g s)) (∅, []) seeds in
  '(_, visited) ← search (Dependents g) (length (Nodes g)) seen queue;
  Some (sort_strings visited).

Definition sonameSatisfied (c : Constraint) (vers : list string) : bool :=
  if decide (cn_Op c = OpAny) then true
  else existsb (λ v,
    negb (bool_decide (v = "")) && match Satisfies vercmp c v with Ok ok => ok | Err _ => false end) vers.

Definition provided_versions (rr : RemoteRepo) : gmap string (list string) :=
  foldl (λ m p, foldl (λ m pr, let c := Parse pr in push m (cn_Name c) (cn_Ver c)) m
    (PKGINFO.Provides (bp_info p))) ∅ (Pkgs rr).

(** The iteration over one dependency of one package. *)
Definition broken_dep (provides : gmap string (list string)) (base : string)
    (acc : gset string * list string) (d : string) : gset string * list string :=
  if contains d ".so" then
    let c := Parse d in
    match provides !! cn_Name c with
    | None => acc
    | Some vers => if sonameSatisfied c vers then acc else discover acc base
    end
  else acc.

Definition brokenSonameDependents (rr : RemoteRepo) : list string :=
  let provides := provided_versions rr in
  sort_strings (foldl (λ acc p, foldl (broken_dep provides (baseOf p)) acc (PKGINFO.Depend (bp_info p)))
    (∅, []) (Pkgs rr)).2.

(** *** Components and buckets *)
Definition adjacency (deps : gmap string (list string)) : gmap string (list string) :=
  foldl (λ adj nds, foldl (λ adj d, push (push adj nds.1 d) d nds.1) adj nds.2) ∅ (range_map deps).

Fixpoint components_loop (adj : gmap string (list string)) (seen : gset string) (sorted : list string)
    : option (list (list string)) :=
  match sorted with
  | [] => Some []
  | n :: sorted =>
      if decide (n ∈ seen) then components_loop adj seen sorted
      else
        '(seen, comp) ← search (edges adj) (S (size adj)) ({[n]} ∪ seen) [n];
        comps ← components_loop adj seen sorted;
        Some (comp :: comps)
  end.

Definition components (nodes : list string) (deps : gmap string (list string)) : option (list (list string)) :=
  components_loop (adjacency deps) ∅ (sort_strings nodes).

(** [float64]. *)
Definition float64 := spec_float.
Definition float_zero : float64 := S754_zero false.
Definition float_one : float64 := S754_finite false 4503599627370496 (-52).
Definition float_add : float64 → float64 → float64 := SFadd 53 1024.
Definition is_nan (x : float64) : bool := match x with S754_nan => true | _ => false end.

(** [cmp.Compare(x, y) <= 0]: NaN comes before every number. *)
Definition float_le (x y : float64) : bool := is_nan x || negb (is_nan y) && SFleb x y.

Definition cost_of (costs : gmap string float64) (p : string) : float64 :=
  match costs !! p with
  | Some w => if SFleb w float_zero then float_one else w
  | None => float_one
  end.

Definition weigh (costs : gmap string float64) (c : list string) : float64 :=
  foldl (λ total p, float_add total (cost_of costs p)) float_zero c.

Definition best_bucket (loads : list float64) : nat :=
  foldl (λ best i, if SFltb (nth i loads float_zero) (nth best loads float_zero) then i else best) 0
    (seq 1 (length loads - 1)).

(** [buckets[best] = append(…); loads[best] += …]. *)
Definition assign (acc : list (list string) * list float64) (w : list string * float64) :=
  let best := best_bucket acc.2 in
  (alter (λ b, b ++ w.1) best acc.1, alter (λ l, float_add l w.2) best acc.2).

Definition packBuckets (comps : list (list string)) (order : list string) (workers : Z)
    (costs : gmap string float64) : list (list string) :=
  let pos := positions order in
  let weighted := map (λ c, (c, weigh costs c)) comps in
  let weighted := stable_sort (λ a b, float_le b.2 a.2) weighted in
  let n := Z.to_nat (Z.min workers (Z.of_nat (length weighted))) in
  let buckets := (foldl assign (repeat [] n, repeat float_zero n) weighted).1 in
  map (stable_sort (λ a b, position pos a <=? position pos b)) buckets.

(** *** [compute] *)

(** [lo.KeyBy]: the last package of a pkgbase. *)
Definition key_by_base (pkgs : list SourcePackage) : gmap string SourcePackage :=
  foldl (λ m p, <[sp_Base p := p]> m) ∅ pkgs.

(** [pkgverChanged(byBase[base], rr)]: every base asked for is a key. *)
Definition base_changed (byBase : gmap string SourcePackage) (rr : RemoteRepo) (base : string) : bool :=
  match byBase !! base with Some p => pkgverChanged p rr | None => false end.

Definition version_reasons (archPkgs : list SourcePackage) (rr : RemoteRepo) : gmap string string :=
  foldl (λ reasons p, <[sp_Base p := "version"]> reasons) ∅ (DiffPackages vercmp archPkgs rr).

Definition vcs_reasons (byBase : gmap string SourcePackage) (rr : RemoteRepo) (updates : gset string)
    (reasons : gmap string string) : gmap string string :=
  foldl (λ reasons base,
    if bool_decide (reasons !! base = None) || negb (base_changed byBase rr base)
    then <[base := "vcs"]> reasons else reasons) reasons (range_keys updates).

(** [if _, ok := reasons[b]; !ok { reasons[b] = why }] over a list. *)
Definition add_reason (why : string) (reasons : gmap string string) (b : string) : gmap string string :=
  if bool_decide (reasons !! b = None) then <[b := why]> reasons else reasons.

Definition cascades_makedepends (m : CascadeMode) : bool :=
  match m with CascadeMakeDepends | CascadeBoth => true | _ => false end.
Definition cascades_soname (m : CascadeMode) : bool :=
  match m with CascadeSoname | CascadeBoth => true | _ => false end.

Definition is_seed (byBase : gmap string SourcePackage) (rr : RemoteRepo) (reasons : gmap string string)
    (base : string) : bool :=
  bool_decide (reasons !! base = Some "vcs") || base_changed byBase rr base.

Definition makedepends_reasons (cascade : CascadeMode) (archPkgs : list SourcePackage) (arch : string)
    (byBase : gmap string SourcePackage) (rr : RemoteRepo) (reasons : gmap string string)
    : option (gmap string string) :=
  if cascades_makedepends cascade then
    let seeds := filter (λ base, is_seed byBase rr reasons base = true) (range_keys (dom reasons)) in
    deps ← dependentsClosure (BuildMakeDependencyGraph archPkgs arch) seeds;
    Some (foldl (add_reason "makedepends") reasons deps)
  else Some reasons.

Definition soname_reasons (cascade : CascadeMode) (byBase : gmap string SourcePackage) (rr : RemoteRepo)
    (reasons : gmap string string) : gmap string string :=
  if cascades_soname cascade then
    foldl (add_reason "soname") reasons
      (filter (λ base, is_Some (byBase !! base)) (brokenSonameDependents rr))
  else reasons.

(** [subDeps]: the edges of the graph within the build set. *)
Definition sub_deps (graph : Graph) (reasons : gmap string string) (nodes : list string)
    : gmap string (list string) :=
  foldl (λ m n, foldl (λ m d, if decide (is_Some (reasons !! d)) then push m n d else m) m (Deps graph n))
    ∅ nodes.

Definition is_bump_target (reasons : gmap string string) (n : string) : bool :=
  negb (bool_decide (reasons !! n = Some "version")) && negb (bool_decide (reasons !! n = Some "vcs")).

Definition compute (src : list SourcePackage) (rr : RemoteRepo) (arch : string) (cascade : CascadeMode)
    (workers : Z) (costs : gmap string float64) : result plan_error Plan :=
  let archPkgs := FilterByArch src arch in
  let byBase := key_by_base archPkgs in
  let reasons := version_reasons archPkgs rr in
  let reasons := vcs_reasons byBase rr (detectVCSUpdates archPkgs rr arch) reasons in
  match ctx_err with
  | Some e => Err (ErrContext e)
  | None =>
      let graph := BuildDependencyGraph archPkgs arch in
      reasons ← result_of_option ErrPlanFuel (makedepends_reasons cascade archPkgs arch byBase rr reasons);
      let reasons := soname_reasons cascade byBase rr reasons in
      if decide (reasons = ∅) then Ok (mkPlan [] [] reasons [])
      else
        let nodes := range_keys (dom reasons) in
        let subDeps := sub_deps graph reasons nodes in
        order ← map_err ErrOrder (TopoSort nodes subDeps);
        buckets ← (if (0 <? workers)%Z then
                     comps ← result_of_option ErrPlanFuel (components nodes subDeps);
                     Ok (packBuckets comps order workers costs)
                   else Ok []);
        Ok (mkPlan order buckets reasons (filter (λ n, is_bump_target reasons n = true) order))
  end.
End plan.

(** ** [remote.go], [prune.go] *)
Definition ResolveDiffServer (diffURL server configURL arch : string) : string :=
  if decide (diffURL ≠ "") then diffURL
  else if decide (server ≠ "") then server
  else if decide (configURL ≠ "") then trim_right_byte "/" configURL +:+ "/" +:+ arch
  else "".

Inductive prune_error :=
| ErrNotConfigured
| ErrNoPackages (repo : string)
| ErrNoURL (repo : string)
| ErrFetch (msg : string)
| ErrNoRemover
| ErrRemove (msg : string).

Record PruneOptions := mkPruneOptions {
  po_Arch : string;
  po_DatabaseURL : string;
  po_DryRun : bool;
  po_Remove : option (string → string → option string);
}.

(** What [fetch] returns: the database, its absence ([ErrRepoNotFound]), another error. *)
Inductive fetched := FetchedRepo (r : RemoteRepo) | RepoNotFound | FetchFailed (msg : string).

(** The calls of the remover made before the first that fails, that one included. *)
Fixpoint remove_all (remove : string → string → option string) (repo : string) (names : list string)
    : list string * option string :=
  match names with
  | [] => ([], None)
  | n :: names =>
      match remove repo n with
      | Some e => ([n], Some e)
      | None => let '(calls, e) := remove_all remove repo names in (n :: calls, e)
      end
  end.

(** The packages pruned, and the removals called for. *)
Definition prune (src : option SourceRepo) (options : PruneOptions) (fetch : string → string → fetched)
    : list string * result prune_error (list string) :=
  match src ≫= λ s, (s,.) <$> sr_Config s with
  | None => ([], Err ErrNotConfigured)
  | Some (src, cfg) =>
      let desired := concat (map Names (sr_Pkgs src)) in
      if decide (desired = []) then ([], Err (ErrNoPackages (sc_Name cfg)))
      else
        let databaseURL :=
          if decide (po_DatabaseURL options = "" ∧ sc_URL cfg ≠ "")
          then trim_right_byte "/" (sc_URL cfg) +:+ "/" +:+ po_Arch options
          else po_DatabaseURL options in
        if decide (databaseURL = "") then ([], Err (ErrNoURL (sc_Name cfg)))
        else
          match fetch databaseURL (sc_Name cfg) with
          | RepoNotFound => ([], Ok [])
          | FetchFailed e => ([], Err (ErrFetch e))
          | FetchedRepo remote =>
              let packages := PrunablePackages desired remote in
              if decide (packages = []) then ([], Ok [])
              else if po_DryRun options then ([], Ok packages)
              else
                match po_Remove options with
                | None => ([], Err ErrNoRemover)
                | Some remove =>
                    match remove_all remove (sc_Name cfg) packages with
                    | (calls, Some e) => (calls, Err (ErrRemove e))
                    | (calls, None) => (calls, Ok packages)
                    end
                end
          end
  end.

(** ** Lemmas: closures *)
Section closure_lemmas.
Context {R : RangeOrder}.

Lemma discover_nested (f : string → list string) l acc :
  foldl (λ acc s, foldl discover acc (f s)) acc l = foldl discover acc (concat (map f l)).
Proof. revert acc. induction l as [|s l IH]; intros acc; simpl; [done|]. by rewrite foldl_app, IH. Qed.

(** What is reached in at least one step is reached from some successor. *)
Lemma tc_first {B} (rel : relation B) x y : tc rel x y ↔ ∃ z, rel x z ∧ rtc rel z y.
Proof.
  split.
  - destruct 1 as [x y Hy|x z y Hz Ht]; [by exists y|]. exists z. split; [done|by apply tc_rtc].
  - intros (z & Hz & Hr). eapply tc_rtc_r; [by apply tc_once|done].
Qed.

(** The closure of a graph whose edges stay among its nodes. *)
Lemma dependentsClosure_spec g seeds :
  NoDup (Nodes g) → (∀ x d, d ∈ Dependents g x → d ∈ Nodes g) →
  ∃ l, dependentsClosure g seeds = Some l ∧ StronglySorted String.le l ∧ NoDup l ∧
    ∀ n, n ∈ l ↔ ∃ s, s ∈ seeds ∧ tc (λ a b, b ∈ Dependents g a) s n.
Proof.
  intros Hnd Hcl. unfold dependentsClosure. rewrite discover_nested.
  destruct (discover_fold (Dependents g) (concat (map (Dependents g) seeds)) ∅ []) as (new & -> & Hnew & Hin). simpl.
  setoid_rewrite elem_of_concat_map in Hin.
  assert (∀ x, x ∈ new → x ∈ Nodes g) as HnN.
  { intros x [(s & _ & Hs) _]%Hin. by eapply Hcl. }
  destruct (search_spec (Dependents g) (list_to_set (Nodes g)) (length (Nodes g))
    (∅ ∪ list_to_set new) new) as (seen' & visited & -> & Hs).
  { intros x d Hd. apply elem_of_list_to_set. by eapply Hcl. }
  { set_solver. }
  { rewrite <-(size_list_to_set (C := gset string) new) by done.
    rewrite <-size_union by set_solver.
    rewrite <-(size_list_to_set (C := gset string) (Nodes g)) by done.
    apply subseteq_size. intros x. rewrite elem_of_union, elem_of_difference, !elem_of_list_to_set.
    intros [?|[? _]]; auto. }
  cbn [mbind option_bind]. eexists. split; [done|]. split_and!; [apply sort_strings_sorted| |].
  - rewrite NoDup_sort_strings. destruct (searched_new _ _ _ _ _ Hs) as (new' & -> & Hn' & Hd').
    apply NoDup_app. split_and!; [done| |done]. intros x Hx Hx'. apply (Hd' x Hx'). set_solver.
  - intros n. rewrite elem_of_sort_strings. setoid_rewrite tc_first. split.
    + intros Hn. destruct (searched_reach _ _ _ _ _ Hs n Hn) as (q & Hq & Hr).
      apply Hin in Hq as [(s & Hs' & Hd) _]. eauto.
    + intros (s & Hs' & z & Hz & Hr).
      assert (z ∈ new) as Hzn by (apply Hin; split; [eauto|set_solver]).
      assert (n ∈ seen') as Hn.
      { eapply searched_rtc; [exact Hs| | |exact Hr].
        - intros y d Hy Hyv. exfalso. apply Hyv.
          destruct (searched_new _ _ _ _ _ Hs) as (new' & -> & _). set_solver.
        - apply (searched_seen _ _ _ _ _ Hs). left. set_solver. }
      apply (searched_seen _ _ _ _ _ Hs) in Hn as [Hn|Hn]; [|done].
      destruct (searched_new _ _ _ _ _ Hs) as (new' & -> & _). set_solver.
Qed.
End closure_lemmas.

(** ** Lemmas: components *)
Section component_lemmas.
Implicit Types (adj deps : gmap string (list string)).

Lemma elem_of_push (m : gmap string (list string)) k v j x :
  x ∈ edges (push m k v) j ↔ x ∈ edges m j ∨ (j = k ∧ x = v).
Proof.
  unfold push, edges. destruct (decide (j = k)) as [->|Hj].
  - rewrite lookup_insert_eq. simpl. rewrite elem_of_app, list_elem_of_singleton. tauto.
  - rewrite lookup_insert_ne by done. tauto.
Qed.

Lemma elem_of_adjacency `{R : RangeOrder} deps n x :
  x ∈ edges (adjacency deps) n ↔ x ∈ edges deps n ∨ n ∈ edges deps x.
Proof.
  unfold adjacency. rewrite (foldl_nested snd (λ nds adj d, push (push adj nds.1 d) d nds.1)).
  assert (∀ (l : list (string * list string * string)) m,
    x ∈ edges (foldl (λ adj ab, push (push adj ab.1.1 ab.2) ab.2 ab.1.1) m l) n ↔
    x ∈ edges m n ∨ ∃ nds d, (nds, d) ∈ l ∧ (n = nds.1 ∧ x = d ∨ n = d ∧ x = nds.1)) as Hl.
  { induction l as [|[nds d] l IH]; intros m; simpl; [set_solver|].
    rewrite IH, !elem_of_push. setoid_rewrite elem_of_cons. simpl. split.
    - intros [[[?|?]|?]|(nds' & d' & ? & ?)]; [tauto|right; exists nds, d; tauto..|].
      right. exists nds', d'. tauto.
    - intros [?|(nds' & d' & [?|?] & Hc)]; [tauto| |].
      + simplify_eq. simpl in Hc. tauto.
      + right. eauto. }
  rewrite Hl. setoid_rewrite elem_of_nested.
  assert (∀ k d, (∃ ds, (k, ds) ∈ range_map deps ∧ d ∈ ds) ↔ d ∈ edges deps k) as He.
  { intros k d. rewrite elem_of_edges. by setoid_rewrite elem_of_range_map. }
  rewrite <-!He. unfold edges at 1. rewrite lookup_empty. simpl. split.
  - intros [?|([k ds] & d & [Hk Hd] & [[-> ->]|[-> ->]])]; [set_solver|left; eauto|right; eauto].
  - intros [(ds & Hk & Hd)|(ds & Hk & Hd)]; right; [exists (n, ds), x|exists (x, ds), n]; auto.
Qed.

Abbreviation edge adj := (λ a b : string, b ∈ edges adj a).

(** A connected component: whatever is connected to one of its members. *)
Definition is_component adj (c : list string) : Prop :=
  c ≠ [] ∧ ∀ x y, x ∈ c → (y ∈ c ↔ rtc (edge adj) x y).

Definition symmetric adj : Prop := ∀ x y, x ∈ edges adj y → y ∈ edges adj x.
Definition closed_under adj (seen : gset string) : Prop := ∀ y d, y ∈ seen → d ∈ edges adj y → d ∈ seen.

Lemma rtc_edge_symm adj x y : symmetric adj → rtc (edge adj) x y → rtc (edge adj) y x.
Proof. intros Hs. induction 1 as [|x z y Hz Hr IH]; [done|]. eapply rtc_r; [done|]. by apply Hs. Qed.

(** One search from a node not seen finds its component. *)
Lemma search_component adj seen n :
  symmetric adj → closed_under adj seen → n ∉ seen →
  ∃ comp, search (edges adj) (S (size adj)) ({[n]} ∪ seen) [n] = Some (seen ∪ list_to_set comp, comp)
    ∧ NoDup comp ∧ n ∈ comp ∧ (∀ x, x ∈ comp → x ∉ seen) ∧ is_component adj comp
    ∧ closed_under adj (seen ∪ list_to_set comp).
Proof.
  intros Hsym Hcl Hn.
  destruct (search_spec (edges adj) (dom adj) (S (size adj)) ({[n]} ∪ seen) [n])
    as (seen' & comp & Hsearch & Hs).
  { intros x d Hd. apply Hsym in Hd as (ds & ? & _)%elem_of_edges. by apply elem_of_dom. }
  { set_solver. }
  { simpl. rewrite <-size_dom. apply le_n_S, subseteq_size. set_solver. }
  destruct Hs as [S1 (new & Hp & Hnd & Hnew) S3 S4].
  assert (n ∈ comp) as Hnc by (rewrite Hp; set_solver).
  assert (seen' = seen ∪ list_to_set comp) as ->.
  { apply set_eq. intros x. rewrite S1. set_solver. }
  assert (∀ x, x ∈ comp → x ∉ seen) as Hdis.
  { intros x. rewrite Hp. intros [->|Hx]%elem_of_cons; [done|]. specialize (Hnew x Hx). set_solver. }
  assert (∀ x d, x ∈ comp → d ∈ edges adj x → d ∈ comp) as Hcc.
  { intros x d Hx Hd. pose proof (S3 x d Hx Hd) as Hd'.
    apply elem_of_union in Hd' as [Hd'|Hd']; [|by apply elem_of_list_to_set in Hd'].
    exfalso. apply (Hdis x Hx). by apply (Hcl d); [|apply Hsym]. }
  exists comp. split_and!; [done| |done|done| |].
  - rewrite Hp. apply NoDup_app. split_and!; [apply NoDup_singleton| |done].
    intros x Hx Hx'. apply (Hnew x Hx'). set_solver.
  - split; [by intros ->; apply not_elem_of_nil in Hnc|]. intros x y Hx. split.
    + intros Hy. destruct (S4 x Hx) as (q & ->%list_elem_of_singleton & Hqx).
      destruct (S4 y Hy) as (q & ->%list_elem_of_singleton & Hqy).
      trans n; [by apply rtc_edge_symm|done].
    + intros Hr. clear -Hx Hr Hcc. induction Hr as [|x z y Hz Hr IH]; [done|]. apply IH. by eapply Hcc.
  - intros y d. rewrite !elem_of_union, !elem_of_list_to_set. intros [?|?] ?; [left|right]; [by eapply Hcl|by eapply Hcc].
Qed.

Lemma components_loop_spec adj seen sorted :
  symmetric adj → closed_under adj seen →
  ∃ comps, components_loop adj seen sorted = Some comps
    ∧ NoDup (concat comps) ∧ (∀ x, x ∈ concat comps → x ∉ seen)
    ∧ Forall (is_component adj) comps
    ∧ (∀ n, n ∈ sorted → n ∈ seen ∨ n ∈ concat comps)
    ∧ (∀ x, x ∈ concat comps → ∃ n, n ∈ sorted ∧ rtc (edge adj) n x).
Proof.
  intros Hsym. revert seen. induction sorted as [|n sorted IH]; intros seen Hcl; cbn [components_loop].
  { exists []. split_and!; try done; set_solver by constructor. }
  destruct (decide (n ∈ seen)) as [Hn|Hn].
  - destruct (IH seen Hcl) as (comps & -> & ? & ? & ? & Hin & Hr). exists comps. split_and!; [done..| |].
    + intros m [->|?]%elem_of_cons; auto.
    + intros x Hx. destruct (Hr x Hx) as (m & ? & ?). exists m. split; [by right|done].
  - destruct (search_component adj seen n Hsym Hcl Hn) as (comp & -> & Hnd & Hnc & Hdis & Hc & Hcl').
    cbn [mbind option_bind]. destruct (IH _ Hcl') as (comps & -> & Hnd' & Hdis' & Hf & Hin & Hr).
    cbn [mbind option_bind]. exists (comp :: comps). simpl.
    split_and!; [done| | |by constructor| |].
    + apply NoDup_app. split_and!; [done| |done]. intros x Hx Hx'. apply (Hdis' x Hx'). set_solver.
    + intros x [?|Hx]%elem_of_app; [by apply Hdis|]. specialize (Hdis' x Hx). set_solver.
    + intros m [->|Hm]%elem_of_cons; [set_solver|]. specialize (Hin m Hm). set_solver.
    + intros x [Hx|Hx]%elem_of_app.
      * exists n. split; [by left|]. by apply (proj2 Hc n x).
      * destruct (Hr x Hx) as (m & ? & ?). exists m. split; [by right|done].
Qed.

Lemma components_spec `{R : RangeOrder} nodes deps :
  ∃ comps, components nodes deps = Some comps
    ∧ NoDup (concat comps) ∧ Forall (is_component (adjacency deps)) comps
    ∧ (∀ n, n ∈ nodes → n ∈ concat comps)
    ∧ (∀ x, x ∈ concat comps → ∃ n, n ∈ nodes ∧ rtc (edge (adjacency deps)) n x).
Proof.
  destruct (components_loop_spec (adjacency deps) ∅ (sort_strings nodes)) as (comps & ? & ? & _ & ? & Hin & Hr).
  { intros x y. rewrite !elem_of_adjacency. tauto. }
  { intros y d. set_solver. }
  exists comps. split_and!; [done..| |].
  - intros n Hn. destruct (Hin n) as [?|?]; [by apply elem_of_sort_strings|set_solver|done].
  - intros x (n & Hn & ?)%Hr. rewrite elem_of_sort_strings in Hn. eauto.
Qed.
End component_lemmas.

(** ** Lemmas: buckets *)
Section bucket_lemmas.

Lemma best_bucket_lt (loads : list float64) : loads ≠ [] → best_bucket loads < length loads.
Proof.
  intros Hne. unfold best_bucket. assert (0 < length loads) as Hlen by (destruct loads; [done|simpl; lia]).
  assert (∀ l best, best < length loads → (∀ i, i ∈ l → i < length loads) →
    foldl (λ best i, if SFltb (nth i loads float_zero) (nth best loads float_zero) then i else best) best l
    < length loads) as H.
  { induction l as [|i l IH]; intros best Hb Hl; simpl; [done|].
    apply IH; [|set_solver]. destruct (SFltb _ _); [apply Hl; by left|done]. }
  apply H; [done|]. intros i. rewrite elem_of_seq. lia.
Qed.

Lemma concat_alter (bs : list (list string)) i w :
  i < length bs → concat (alter (λ b, b ++ w) i bs) ≡ₚ concat bs ++ w.
Proof.
  revert i. induction bs as [|b bs IH]; intros i Hi; simpl in *; [lia|].
  destruct i as [|i]; simpl.
  - rewrite <-!app_assoc. apply Permutation_app_head, Permutation_app_comm.
  - rewrite <-app_assoc. apply Permutation_app_head, IH. lia.
Qed.

(** The loop that fills the buckets. *)
Lemma assign_spec (weighted : list (list string * float64)) buckets loads :
  buckets ≠ [] → length loads = length buckets →
  let '(buckets', loads') := foldl assign (buckets, loads) weighted in
  length buckets' = length buckets ∧ length loads' = length loads
  ∧ concat buckets' ≡ₚ concat buckets ++ concat (map fst weighted)
  ∧ (∀ b, b ∈ buckets → ∃ b', b' ∈ buckets' ∧ b ⊆ b')
  ∧ (∀ w, w ∈ weighted → ∃ b', b' ∈ buckets' ∧ w.1 ⊆ b').
Proof.
  revert buckets loads. induction weighted as [|w weighted IH]; intros buckets loads Hne Hlen; simpl.
  { split_and!; [done..|by rewrite app_nil_r|eauto|set_solver]. }
  set (best := best_bucket loads).
  assert (best < length buckets) as Hbest.
  { rewrite <-Hlen. apply best_bucket_lt. by destruct loads, buckets. }
  specialize (IH (alter (λ b, b ++ w.1) best buckets) (alter (λ l, float_add l w.2) best loads)).
  unfold assign at 2. cbn [fst snd]. fold best.
  destruct (foldl assign _ weighted) as [buckets' loads'].
  rewrite !length_alter in IH. destruct IH as (H1 & H2 & H3 & H4 & H5).
  { intros E. apply (f_equal length) in E. rewrite length_alter in E. simpl in E. lia. }
  { done. }
  assert (∀ i b, buckets !! i = Some b → ∃ b', b' ∈ buckets' ∧ b ⊆ b') as Hb.
  { intros i b Hi. destruct (decide (i = best)) as [->|Hi'].
    - destruct (H4 (b ++ w.1)) as (b' & ? & ?); [|exists b'; split; [done|set_solver]].
      apply list_elem_of_lookup. exists best. by rewrite list_lookup_alter_eq, Hi.
    - apply H4, list_elem_of_lookup. exists i. by rewrite list_lookup_alter_ne. }
  split_and!; [done|done| | |].
  - rewrite H3, concat_alter by done. by rewrite <-app_assoc.
  - intros b [i Hi]%list_elem_of_lookup. by eapply Hb.
  - intros v [->|Hv]%elem_of_cons; [|by apply H5].
    destruct (lookup_lt_is_Some_2 buckets best Hbest) as [b Hb'].
    destruct (H4 (b ++ w.1)) as (b' & ? & ?); [|exists b'; split; [done|set_solver]].
    apply list_elem_of_lookup. exists best. by rewrite list_lookup_alter_eq, Hb'.
Qed.

Lemma concat_map_perm (f : list string → list string) bs :
  (∀ b, f b ≡ₚ b) → concat (map f bs) ≡ₚ concat bs.
Proof. intros Hf. induction bs as [|b bs IH]; simpl; [done|]. by rewrite Hf, IH. Qed.

Lemma Permutation_concat (l k : list (list string)) : l ≡ₚ k → concat l ≡ₚ concat k.
Proof.
  induction 1 as [|x l k Hp IH|x y l|l1 l2 l3 H1 IH1 H2 IH2]; simpl; [done|by rewrite IH| |by trans (concat l2)].
  rewrite !app_assoc. by rewrite (Permutation_app_comm x y).
Qed.

Lemma elem_of_concat (bs : list (list string)) x : x ∈ concat bs ↔ ∃ b, b ∈ bs ∧ x ∈ b.
Proof. rewrite <-(map_id bs) at 1. apply (elem_of_concat_map id). Qed.

(** The buckets are a partition of the order into subsequences of it, at most one per
    worker, and no component is split. *)
Lemma packBuckets_spec comps order workers costs :
  NoDup order → concat comps ≡ₚ order → (0 < workers)%Z →
  let buckets := packBuckets comps order workers costs in
  concat buckets ≡ₚ order ∧ (∀ b, b ∈ buckets → b `sublist_of` order)
  ∧ (Z.of_nat (length buckets) ≤ workers)%Z
  ∧ (∀ c, c ∈ comps → ∃ b, b ∈ buckets ∧ c ⊆ b).
Proof.
  intros Hnd Hp Hw. unfold packBuckets. cbv zeta.
  set (weighted := stable_sort _ (map _ comps)). set (n := Z.to_nat _).
  set (le := λ a b, position (positions order) a <=? position (positions order) b).
  assert (map fst weighted ≡ₚ comps) as Hwc.
  { unfold weighted. rewrite stable_sort_perm, map_map. by rewrite map_id. }
  assert (length weighted = length comps) as Hwl by by rewrite <-(length_map fst), Hwc.
  assert (n = Z.to_nat (Z.min workers (Z.of_nat (length comps)))) as Hn by (unfold n; by rewrite Hwl).
  destruct (decide (comps = [])) as [->|Hne].
  { simpl in *. apply Permutation_nil in Hp as ->. rewrite Z.min_r in Hn by lia. simpl in Hn. rewrite Hn.
    simpl. split_and!; [done|set_solver|lia|set_solver]. }
  assert (n ≠ 0) as Hn0 by (destruct comps; [done|simpl in Hn; lia]).
  pose proof (assign_spec weighted (repeat [] n) (repeat float_zero n)) as Ha.
  rewrite !repeat_length in Ha. destruct (foldl assign _ weighted) as [buckets loads].
  destruct Ha as (H1 & _ & H3 & _ & H5); [by destruct n|done|]. simpl.
  assert (concat buckets ≡ₚ order) as Hbo.
  { rewrite H3. assert (concat (repeat ([] : list string) n) = []) as ->.
    { clear. induction n; simpl; done. }
    simpl. by rewrite (Permutation_concat _ _ Hwc). }
  split_and!.
  - rewrite concat_map_perm; [done|]. intros b. apply stable_sort_perm.
  - intros b (b0 & -> & Hb0)%list_elem_of_fmap. apply (sorted_sublist (position (positions order))).
    + intros i x Hx. unfold position. by rewrite (lookup_positions _ i x).
    + intros x. rewrite elem_of_stable_sort. intros Hx. rewrite <-Hbo. apply elem_of_concat. eauto.
    + rewrite stable_sort_perm. rewrite <-Hbo in Hnd.
      apply list_elem_of_split in Hb0 as (k1 & k2 & ->). rewrite concat_app in Hnd. simpl in Hnd.
      apply NoDup_app in Hnd as (_ & _ & Hnd). by apply NoDup_app in Hnd as (? & _).
    + eapply StronglySorted_impl; [|apply (stable_sort_sorted le); unfold le; intros *; rewrite !Nat.leb_le; lia].
      intros x y. apply Nat.leb_le.
  - rewrite length_map, H1, Hn. lia.
  - intros c Hc. rewrite <-Hwc in Hc. apply list_elem_of_fmap in Hc as (w & -> & Hw').
    destruct (H5 w Hw') as (b & Hb & Hsub). exists (stable_sort le b). split.
    + apply list_elem_of_fmap. eauto.
    + intros x Hx. rewrite elem_of_stable_sort. by apply Hsub.
Qed.
End bucket_lemmas.

(** ** Lemmas: the reasons *)
Lemma lookup_fold_key {T} (key : T → string) (v : string) (l : list T) (m : gmap string string) k :
  foldl (λ m p, <[key p := v]> m) m l !! k = if decide (k ∈ map key l) then Some v else m !! k.
Proof.
  revert m. induction l as [|p l IH]; intros m; simpl; [done|]. rewrite IH.
  destruct (decide (k ∈ map key l)) as [Hk|Hk]; [by rewrite decide_True by set_solver|].
  destruct (decide (k = key p)) as [->|Hp].
  - by rewrite lookup_insert_eq, decide_True by set_solver.
  - by rewrite lookup_insert_ne, decide_False by set_solver.
Qed.

Lemma lookup_add_reasons why l reasons b :
  foldl (add_reason why) reasons l !! b =
  match reasons !! b with
  | Some r => Some r
  | None => if decide (b ∈ l) then Some why else None
  end.
Proof.
  revert reasons. induction l as [|a l IH]; intros reasons; simpl; [by destruct (reasons !! b)|].
  rewrite IH. unfold add_reason. destruct (decide (b = a)) as [->|Hb].
  - rewrite (decide_True (P := a ∈ a :: l)) by (by left). case_bool_decide as Hn.
    + by rewrite lookup_insert_eq, Hn.
    + by destruct (reasons !! a).
  - assert ((if bool_decide (reasons !! a = None) then <[a:=why]> reasons else reasons) !! b = reasons !! b) as ->.
    { case_bool_decide; [by rewrite lookup_insert_ne|done]. }
    by rewrite (decide_ext (b ∈ a :: l) (b ∈ l)) by (rewrite elem_of_cons; tauto).
Qed.

Lemma key_by_base_dom pkgs b : is_Some (key_by_base pkgs !! b) ↔ b ∈ map sp_Base pkgs.
Proof.
  unfold key_by_base. induction pkgs as [|p pkgs IH] using rev_ind; [simpl; rewrite lookup_empty; split; [by intros []|set_solver]|].
  rewrite foldl_app, map_app, elem_of_app. simpl. rewrite list_elem_of_singleton.
  destruct (decide (b = sp_Base p)) as [->|Hb].
  - rewrite lookup_insert_eq. split; [tauto|eauto].
  - rewrite lookup_insert_ne, IH by done. tauto.
Qed.

Section reason_lemmas.
Context (vercmp : string → string → Z) {R : RangeOrder} {A : Arrival}.
Context (resolve : GitSource → result string string).

Lemma lookup_vcs_reasons byBase rr updates reasons b :
  vcs_reasons vercmp byBase rr updates reasons !! b =
  if decide (b ∈ updates ∧ (reasons !! b = None ∨ base_changed vercmp byBase rr b = false))
  then Some "vcs" else reasons !! b.
Proof.
  unfold vcs_reasons. pose proof (NoDup_range_keys updates) as Hnd.
  trans (if decide (b ∈ range_keys updates ∧ (reasons !! b = None ∨ base_changed vercmp byBase rr b = false))
         then Some "vcs" else reasons !! b); [|apply decide_ext; by rewrite elem_of_range_keys].
  revert reasons Hnd. induction (range_keys updates) as [|a l IH]; intros reasons Hnd; cbn [foldl].
  { by rewrite decide_False by set_solver. }
  apply NoDup_cons in Hnd as [Ha Hnd]. rewrite IH by done.
  destruct (decide (b = a)) as [->|Hb].
  - rewrite decide_False by tauto.
    destruct (bool_decide (reasons !! a = None)) eqn:En; simpl.
    + apply bool_decide_eq_true in En. rewrite lookup_insert_eq, decide_True; [done|]. set_solver.
    + apply bool_decide_eq_false in En. destruct (base_changed vercmp byBase rr a) eqn:Ec; simpl.
      * rewrite decide_False; [done|]. naive_solver.
      * rewrite lookup_insert_eq, decide_True; [done|]. set_solver.
  - assert (∀ m : gmap string string, (if bool_decide (reasons !! a = None) || negb (base_changed vercmp byBase rr a)
      then <[a:="vcs"]> m else m) !! b = m !! b) as E.
    { intros m. destruct (_ || _); [by rewrite lookup_insert_ne|done]. }
    rewrite E. apply decide_ext. rewrite elem_of_cons. tauto.
Qed.

Lemma elem_of_detectVCSUpdates ctx_err packages remote arch b :
  b ∈ detectVCSUpdates ctx_err resolve packages remote arch ↔
  ∃ p, p ∈ packages ∧ sp_Base p = b ∧ check_vcs ctx_err resolve remote arch p = Some true.
Proof.
  unfold detectVCSUpdates. induction packages as [|p packages IH] using rev_ind; [set_solver|].
  rewrite foldl_app. simpl. case_decide as Hc; [rewrite elem_of_union, elem_of_singleton|]; rewrite IH.
  all: setoid_rewrite elem_of_app; setoid_rewrite list_elem_of_singleton; naive_solver.
Qed.

(** *** Broken sonames *)

(** A dependency on a soname the repository provides, in no version that satisfies it. *)
Definition soname_broken (rr : RemoteRepo) (d : string) : Prop :=
  let c := Parse d in
  let provided pr := ∃ q, q ∈ Pkgs rr ∧ pr ∈ PKGINFO.Provides (bp_info q) ∧ cn_Name (Parse pr) = cn_Name c in
  contains d ".so" = true ∧ cn_Op c ≠ OpAny ∧ (∃ pr, provided pr) ∧
  ∀ pr, provided pr → cn_Ver (Parse pr) = "" ∨ Satisfies vercmp c (cn_Ver (Parse pr)) ≠ Ok true.

Lemma elem_of_provided_versions rr name v :
  v ∈ default [] (provided_versions rr !! name) ↔
  ∃ q pr, q ∈ Pkgs rr ∧ pr ∈ PKGINFO.Provides (bp_info q) ∧ cn_Name (Parse pr) = name ∧ v = cn_Ver (Parse pr).
Proof.
  unfold provided_versions.
  rewrite (foldl_nested (λ p, PKGINFO.Provides (bp_info p)) (λ p m pr, push m (cn_Name (Parse pr)) (cn_Ver (Parse pr)))).
  pose proof (lookup_pushes (λ ab : BinaryPackage * string, Some (cn_Name (Parse ab.2), cn_Ver (Parse ab.2)))) as H.
  cbv beta iota in H. rewrite H, lookup_empty.
  simpl. rewrite list_elem_of_omap. split.
  - intros ([q pr] & Hin & Hv). apply elem_of_nested in Hin as [Hq Hpr]. simpl in Hv. case_decide; simplify_eq. eauto 6.
  - intros (q & pr & Hq & Hpr & <- & ->). exists (q, pr). split; [by apply elem_of_nested|]. simpl. by rewrite decide_True.
Qed.

Lemma provided_versions_Some rr name vers : provided_versions rr !! name = Some vers → vers ≠ [].
Proof.
  unfold provided_versions.
  rewrite (foldl_nested (λ p, PKGINFO.Provides (bp_info p)) (λ p m pr, push m (cn_Name (Parse pr)) (cn_Ver (Parse pr)))).
  revert vers. induction (concat _) as [|[q pr] l IH] using rev_ind; intros vers; [simpl; by rewrite lookup_empty|].
  rewrite foldl_app. simpl. unfold push. destruct (decide (name = cn_Name (Parse pr))) as [->|Hn].
  - rewrite lookup_insert_eq. intros [= <-]. by destruct (default [] _).
  - rewrite lookup_insert_ne by done. apply IH.
Qed.

Lemma sonameSatisfied_false c vers :
  sonameSatisfied vercmp c vers = false ↔
  cn_Op c ≠ OpAny ∧ ∀ v, v ∈ vers → v = "" ∨ Satisfies vercmp c v ≠ Ok true.
Proof.
  unfold sonameSatisfied. case_decide as Ho; [naive_solver|].
  rewrite <-not_true_iff_false, existsb_exists. split.
  - intros H. split; [done|]. intros v Hv. destruct (decide (v = "")); [by left|right]. intros Hs.
    apply H. exists v. rewrite list_elem_of_In in Hv. split; [done|]. rewrite Hs. by rewrite bool_decide_eq_false_2.
  - intros [_ H] (v & Hv & Hb). apply list_elem_of_In in Hv. apply andb_true_iff in Hb as [Hne Hs].
    apply negb_true_iff, bool_decide_eq_false in Hne. destruct (H v Hv) as [?|Hn]; [done|].
    destruct (Satisfies vercmp c v); [subst; done|done].
Qed.

Lemma elem_of_broken rr b :
  b ∈ brokenSonameDependents vercmp rr ↔
  ∃ p d, p ∈ Pkgs rr ∧ baseOf p = b ∧ d ∈ PKGINFO.Depend (bp_info p) ∧ soname_broken rr d.
Proof.
  unfold brokenSonameDependents. rewrite elem_of_sort_strings.
  rewrite (foldl_nested (λ p, PKGINFO.Depend (bp_info p)) (λ p, broken_dep vercmp (provided_versions rr) (baseOf p))).
  set (l := concat _).
  assert (∀ d, (∃ vers, contains d ".so" = true ∧ provided_versions rr !! cn_Name (Parse d) = Some vers ∧
      sonameSatisfied vercmp (Parse d) vers = false) ↔ soname_broken rr d) as Hbr.
  { intros d. unfold soname_broken. cbv zeta. split.
    - intros (vers & Hc & Hp & Hs). apply sonameSatisfied_false in Hs as [Ho Hs].
      pose proof (elem_of_provided_versions rr (cn_Name (Parse d))) as He. rewrite Hp in He. simpl in He.
      split_and!; [done|done| |].
      + pose proof (provided_versions_Some _ _ _ Hp). destruct vers as [|v vers]; [done|].
        destruct (proj1 (He v)) as (q & pr & ? & ? & ? & _); [by left|eauto].
      + intros pr (q & Hq & Hpr & Hn). apply Hs, He. eauto 6.
    - intros (Hc & Ho & (pr & q & Hq & Hpr & Hn) & Hall).
      pose proof (elem_of_provided_versions rr (cn_Name (Parse d))) as He.
      destruct (provided_versions rr !! cn_Name (Parse d)) as [vers|]; simpl in He.
      + exists vers. split_and!; [done|done|]. apply sonameSatisfied_false. split; [done|].
        intros v (q' & pr' & ? & ? & ? & ->)%He. eauto.
      + exfalso. apply (not_elem_of_nil (cn_Ver (Parse pr))), He. eauto 6. }
  assert (∀ acc, acc = (list_to_set acc.2, acc.2) →
    let r := foldl (λ s ab, broken_dep vercmp (provided_versions rr) (baseOf ab.1) s ab.2) acc l in
    b ∈ r.2 ↔ b ∈ acc.2 ∨ ∃ p d, (p, d) ∈ l ∧ baseOf p = b ∧ soname_broken rr d) as H.
  { induction l as [|[p d] l IH]; intros acc Hacc; cbv zeta; simpl; [set_solver|]. cbv zeta in IH.
    assert (broken_dep vercmp (provided_versions rr) (baseOf p) acc d = acc ∧ ¬ soname_broken rr d ∨
      broken_dep vercmp (provided_versions rr) (baseOf p) acc d = discover acc (baseOf p) ∧ soname_broken rr d)
      as Hd.
    { rewrite <-Hbr. clear. unfold broken_dep.
      destruct (contains d ".so"); [|left; split; [done|by intros (? & ? & _)]].
      destruct (provided_versions rr !! cn_Name (Parse d)) as [vers|];
        [|left; split; [done|by intros (? & _ & ? & _)]].
      destruct (sonameSatisfied vercmp (Parse d) vers) eqn:E; [left|right; eauto].
      split; [done|]. intros (vers' & _ & [= <-] & E'). congruence. }
    clear Hbr. generalize dependent (soname_broken rr). intros P IH Hd.
    destruct Hd as [[-> Hn]|[-> Hy]].
    - rewrite IH by done. split; (intros [?|(p' & d' & Hin & Hb & HP)]; [by left|right]).
      + exists p', d'. split; [by right|done].
      + apply elem_of_cons in Hin as [[= -> ->]|Hin]; [done|eauto].
    - rewrite IH.
      2: { rewrite Hacc. unfold discover. simpl. case_decide; simpl; [done|]. f_equal. set_solver. }
      assert (b ∈ (discover acc (baseOf p)).2 ↔ b ∈ acc.2 ∨ b = baseOf p) as ->.
      { rewrite Hacc. unfold discover. simpl. case_decide; simpl; set_solver. }
      split.
      + intros [[?| ->]|(p' & d' & Hin & ?)]; [by left|right; exists p, d; split; [by left|done]|].
        right. exists p', d'. split; [by right|done].
      + intros [?|(p' & d' & Hin & Hb & HP)]; [by left; left|].
        apply elem_of_cons in Hin as [[= -> ->]|Hin]; [by left; right|eauto 6]. }
  cbv zeta in H. rewrite H by done. simpl. unfold l. clear. split.
  - intros [Hb|(p & d & Hin & ? & ?)]; [by apply not_elem_of_nil in Hb|].
    apply elem_of_nested in Hin as [? ?]. exists p, d. auto.
  - intros (p & d & ? & ? & ? & ?). right. exists p, d. split; [by apply elem_of_nested|done].
Qed.
End reason_lemmas.

(** ** The plan *)
Section compute_lemmas.
Context {R : RangeOrder}.

Lemma elem_of_sub_deps graph reasons nodes n d :
  d ∈ edges (sub_deps graph reasons nodes) n ↔ n ∈ nodes ∧ d ∈ Deps graph n ∧ is_Some (reasons !! d).
Proof.
  unfold sub_deps.
  rewrite (foldl_nested (Deps graph) (λ n m d, if decide (is_Some (reasons !! d)) then push m n d else m)).
  assert (∀ (l : list (string * string)) m,
    d ∈ edges (foldl (λ m ab, if decide (is_Some (reasons !! ab.2)) then push m ab.1 ab.2 else m) m l) n ↔
    d ∈ edges m n ∨ (n, d) ∈ l ∧ is_Some (reasons !! d)) as H.
  { induction l as [|[a b] l IH]; intros m; simpl; [set_solver|]. rewrite IH, elem_of_cons.
    case_decide as Hb; [rewrite elem_of_push|]; (split; [|naive_solver]).
    - intros [[?|[-> ->]]|?]; tauto.
    - intros [?|[? ?]]; tauto. }
  rewrite H, elem_of_nested. unfold edges at 1. rewrite lookup_empty. simpl. set_solver.
Qed.

Lemma sub_deps_keys graph reasons nodes n :
  n ∈ dom (sub_deps graph reasons nodes) → n ∈ nodes.
Proof.
  unfold sub_deps.
  assert (∀ a (l : list string) m, n ∈ dom (foldl (λ m d, if decide (is_Some (reasons !! d)) then push m a d else m) m l) →
    n = a ∨ n ∈ dom m) as H.
  { intros a. induction l as [|d l IH]; intros m; simpl; [by right|]. intros [?|Hn]%IH; [by left|].
    case_decide; [|by right]. unfold push in Hn. rewrite dom_insert in Hn. set_solver. }
  induction nodes as [|a nodes IH] using rev_ind; [simpl; rewrite dom_empty; set_solver|].
  rewrite foldl_app. simpl. intros [->|Hn]%H; apply elem_of_app; [right; by left|left; by apply IH].
Qed.

(** The nodes of the restricted graph are the build set. *)
Lemma sub_deps_nodeSet graph reasons n :
  let nodes := range_keys (dom reasons) in
  n ∈ nodeSet nodes (sub_deps graph reasons nodes) ↔ n ∈ dom reasons.
Proof.
  cbv zeta. rewrite elem_of_nodeSet, elem_of_range_keys. split; [|tauto].
  intros [?|[Hn|[m Hm]]]; [done| |].
  - apply sub_deps_keys in Hn. by rewrite elem_of_range_keys in Hn.
  - apply elem_of_sub_deps in Hm as (_ & _ & ?). by apply elem_of_dom.
Qed.

Lemma chain_mono (deps deps' : gmap string (list string)) c :
  (∀ n d, d ∈ edges deps n → d ∈ edges deps' n) → is_cycle deps c → is_cycle deps' c.
Proof. intros H [Hc Hn]. split; [|done]. intros i a b Ha Hb. by eapply H, Hc. Qed.

(** The order of the build set and its split over workers. *)
Definition good_order (graph : Graph) (reasons : gmap string string) (order : list string) : Prop :=
  NoDup order ∧ (∀ n, n ∈ order ↔ is_Some (reasons !! n)) ∧
  ∀ l1 n l2 d, order = l1 ++ n :: l2 → d ∈ Deps graph n → is_Some (reasons !! d) → d ∈ l1.

Definition good_buckets (graph : Graph) (order : list string) (workers : Z) (buckets : list (list string)) : Prop :=
  concat buckets ≡ₚ order ∧ (∀ b, b ∈ buckets → b `sublist_of` order) ∧
  (Z.of_nat (length buckets) ≤ workers)%Z ∧
  ∀ n d, n ∈ order → d ∈ order → d ∈ Deps graph n → ∃ b, b ∈ buckets ∧ n ∈ b ∧ d ∈ b.

Lemma order_build_set graph reasons :
  let nodes := range_keys (dom reasons) in
  match TopoSort nodes (sub_deps graph reasons nodes) with
  | Ok order => good_order graph reasons order
  | Err e => ∃ c, e = ErrCycle c ∧ is_cycle (g_forward graph) c
  end.
Proof.
  cbv zeta. set (nodes := range_keys (dom reasons)).
  pose proof (TopoSort_spec nodes (sub_deps graph reasons nodes)) as H. cbv zeta in H.
  destruct (TopoSort _ _) as [order|e].
  - destruct H as [Hg Hp]. split_and!.
    + by eapply greedy_NoDup.
    + intros n. rewrite Hp, elem_of_elements. unfold nodes. by rewrite sub_deps_nodeSet, elem_of_dom.
    + intros l1 n l2 d E Hd Hs. eapply greedy_deps; [exact Hg|exact E|].
      apply elem_of_sub_deps. split_and!; [|done|done]. unfold nodes.
      rewrite elem_of_range_keys, <-(sub_deps_nodeSet graph), <-elem_of_elements. fold nodes.
      rewrite <-Hp, E. set_solver.
  - destruct H as [_ (c & -> & Hc)]. exists c. split; [done|]. eapply chain_mono; [|exact Hc].
    intros n d (_ & ? & _)%elem_of_sub_deps. done.
Qed.

Lemma bucket_build_set graph reasons order workers costs :
  let nodes := range_keys (dom reasons) in
  let subDeps := sub_deps graph reasons nodes in
  good_order graph reasons order → (0 < workers)%Z →
  ∃ comps, components nodes subDeps = Some comps
    ∧ good_buckets graph order workers (packBuckets comps order workers costs).
Proof.
  cbv zeta. intros (Hnd & Hin & _) Hw. set (nodes := range_keys (dom reasons)).
  destruct (components_spec nodes (sub_deps graph reasons nodes)) as (comps & Hc & Hcnd & Hf & Hnodes & Hreach).
  exists comps. split; [done|].
  assert (∀ n, n ∈ nodes ↔ is_Some (reasons !! n)) as Hns.
  { intros n. unfold nodes. by rewrite elem_of_range_keys, elem_of_dom. }
  assert (∀ x y, y ∈ edges (adjacency (sub_deps graph reasons nodes)) x → y ∈ nodes) as Hadj.
  { intros x y. rewrite elem_of_adjacency, !elem_of_sub_deps. rewrite !Hns. tauto. }
  assert (concat comps ≡ₚ order) as Hp.
  { apply NoDup_Permutation; [done..|]. intros x. rewrite Hin, <-Hns. split; [|apply Hnodes].
    intros (n & Hn & Hr)%Hreach. clear -Hn Hr Hadj. induction Hr as [|x z y Hz Hr IH]; [done|].
    apply IH. by eapply Hadj. }
  destruct (packBuckets_spec comps order workers costs Hnd Hp Hw) as (H1 & H2 & H3 & H4).
  split_and!; [done..|]. intros n d Hn Hd Hdep.
  assert (n ∈ concat comps) as Hnc by by rewrite Hp.
  apply elem_of_concat in Hnc as (c & Hcc & Hnc). destruct (H4 c Hcc) as (b & Hb & Hsub).
  exists b. split_and!; [done|by apply Hsub|]. apply Hsub.
  rewrite Forall_forall in Hf. destruct (Hf c) as [_ Hconn]; [done|].
  apply (Hconn n d Hnc). apply rtc_once, elem_of_adjacency. left.
  apply elem_of_sub_deps. rewrite Hns, <-!Hin. done.
Qed.
End compute_lemmas.

Section compute_reasons.
Context (vercmp : string → string → Z) {R : RangeOrder} {A : Arrival}.
Context (ctx_err : option string) (resolve : GitSource → result string string).
Context (src : list SourcePackage) (rr : RemoteRepo) (arch : string) (cascade : CascadeMode).

Abbreviation archPkgs := (FilterByArch src arch).
Abbreviation byBase := (key_by_base archPkgs).
Abbreviation makeGraph := (BuildMakeDependencyGraph archPkgs arch).

(** Some package of the pkgbase is newer than the published one, or is not published. *)
Definition version_changed (b : string) : Prop :=
  ∃ p, p ∈ archPkgs ∧ sp_Base p = b ∧ to_build vercmp rr p = true.

(** Some VCS source of a published package is not at the commit its version names. *)
Definition vcs_changed (b : string) : Prop :=
  ∃ p, p ∈ archPkgs ∧ sp_Base p = b ∧ check_vcs ctx_err resolve rr arch p = Some true.

(** The packages whose update cascades: a VCS update, or a new version whose pkgver is
    not the published one. *)
Definition cascade_seed (b : string) : Prop :=
  vcs_changed b ∨ version_changed b ∧ base_changed vercmp byBase rr b = true.

Inductive reason_of (b : string) : string → Prop :=
| reason_vcs :
    vcs_changed b → ¬ version_changed b ∨ base_changed vercmp byBase rr b = false → reason_of b "vcs"
| reason_version :
    version_changed b → ¬ vcs_changed b ∨ base_changed vercmp byBase rr b = true → reason_of b "version"
| reason_makedepends s :
    cascades_makedepends cascade = true → cascade_seed s →
    tc (λ a d, d ∈ Dependents makeGraph a) s b →
    ¬ version_changed b → ¬ vcs_changed b → reason_of b "makedepends"
| reason_soname p d :
    cascades_soname cascade = true → b ∈ map sp_Base archPkgs →
    p ∈ Pkgs rr → baseOf p = b → d ∈ PKGINFO.Depend (bp_info p) → soname_broken vercmp rr d →
    ¬ version_changed b → ¬ vcs_changed b →
    ¬ (cascades_makedepends cascade = true ∧
       ∃ s, cascade_seed s ∧ tc (λ a d, d ∈ Dependents makeGraph a) s b) →
    reason_of b "soname".

Definition direct_reasons : gmap string string :=
  vcs_reasons vercmp byBase rr (detectVCSUpdates ctx_err resolve archPkgs rr arch)
    (version_reasons vercmp archPkgs rr).

Lemma version_reasons_lookup b :
  (version_reasons vercmp archPkgs rr !! b = Some "version" ∧ version_changed b) ∨
  (version_reasons vercmp archPkgs rr !! b = None ∧ ¬ version_changed b).
Proof.
  unfold version_reasons. rewrite lookup_fold_key, lookup_empty.
  assert (b ∈ map sp_Base (DiffPackages vercmp archPkgs rr) ↔ version_changed b) as H.
  { unfold version_changed, DiffPackages. rewrite list_elem_of_fmap. split.
    - intros (p & -> & [? ?]%list_elem_of_filter). eauto.
    - intros (p & ? & <- & ?). exists p. split; [done|]. by apply list_elem_of_filter. }
  case_decide as Hd; rewrite H in Hd; [by left|by right].
Qed.

Lemma direct_reasons_lookup b :
  (direct_reasons !! b = Some "vcs" ∧ vcs_changed b ∧ (¬ version_changed b ∨ base_changed vercmp byBase rr b = false)) ∨
  (direct_reasons !! b = Some "version" ∧ version_changed b ∧ (¬ vcs_changed b ∨ base_changed vercmp byBase rr b = true)) ∨
  (direct_reasons !! b = None ∧ ¬ version_changed b ∧ ¬ vcs_changed b).
Proof.
  unfold direct_reasons. rewrite lookup_vcs_reasons.
  pose proof (version_reasons_lookup b) as Hv.
  pose proof (elem_of_detectVCSUpdates vercmp resolve ctx_err archPkgs rr arch b) as Hu.
  fold (vcs_changed b) in Hu. case_decide as Hd.
  - left. destruct Hd as [Hd1 Hd2]. split_and!; [done|tauto|].
    destruct Hv as [[Hv ?]|[Hv ?]]; rewrite Hv in Hd2; [right; naive_solver|by left].
  - right. rewrite Hu in Hd. destruct Hv as [[Hv Hc]|[Hv Hc]]; rewrite Hv in Hd |- *; [left|right].
    + split_and!; [done..|]. destruct (base_changed vercmp byBase rr b); [by right|].
      left. intros ?. apply Hd. split; [done|by right].
    + split_and!; [done..|]. intros ?. apply Hd. split; [done|by left].
Qed.

Lemma seeds_spec b :
  is_Some (direct_reasons !! b) ∧ is_seed vercmp byBase rr direct_reasons b = true ↔ cascade_seed b.
Proof.
  unfold is_seed, cascade_seed. rewrite orb_true_iff, bool_decide_eq_true.
  destruct (direct_reasons_lookup b) as [(-> & ? & ?)|[(-> & ? & ?)|(-> & ? & ?)]].
  - split; [tauto|]. intros _. split; [eauto|by left].
  - split; [intros [_ [?|?]]; [done|tauto]|]. intros Hs. split; [eauto|right].
    destruct Hs as [Hs|[_ ?]]; [|done]. tauto.
  - split; [by intros [[? ?] _]|tauto].
Qed.

Lemma makedepends_lookup :
  ∃ reasons, makedepends_reasons vercmp cascade archPkgs arch byBase rr direct_reasons = Some reasons ∧
  ∀ b, reasons !! b = match direct_reasons !! b with
                      | Some r => Some r
                      | None => reasons !! b
                      end ∧
    (direct_reasons !! b = None →
      reasons !! b = Some "makedepends" ∧
        (cascades_makedepends cascade = true ∧
         ∃ s, cascade_seed s ∧ tc (λ a d, d ∈ Dependents makeGraph a) s b) ∨
      reasons !! b = None ∧
        ¬ (cascades_makedepends cascade = true ∧
           ∃ s, cascade_seed s ∧ tc (λ a d, d ∈ Dependents makeGraph a) s b)).
Proof.
  unfold makedepends_reasons. destruct (cascades_makedepends cascade).
  2: { exists direct_reasons. split; [done|]. intros b. split; [by destruct (direct_reasons !! b)|].
       intros ->. right. split; [done|]. by intros []. }
  set (seeds := filter _ _).
  destruct (dependentsClosure_spec makeGraph seeds) as (l & -> & _ & _ & Hl).
  { apply NewGraph_NoDup. }
  { intros x d Hd. apply Dependents_Deps, dependencyGraph_Deps in Hd as (_ & p & _ & Hp & <- & _).
    apply dependencyGraph_Nodes, list_elem_of_fmap. eauto. }
  cbn [mbind option_bind]. eexists. split; [done|]. intros b. rewrite lookup_add_reasons.
  split; [by destruct (direct_reasons !! b)|]. intros ->.
  assert (b ∈ l ↔ true = true ∧ ∃ s, cascade_seed s ∧ tc (λ a d, d ∈ Dependents makeGraph a) s b) as <-.
  { rewrite Hl. split.
    - intros (s & Hs & ?). split; [done|]. exists s. split; [|done]. apply seeds_spec.
      apply list_elem_of_filter in Hs as [? Hs]. by rewrite elem_of_range_keys, elem_of_dom in Hs.
    - intros (_ & s & Hs & ?). exists s. split; [|done]. apply seeds_spec in Hs as [? ?].
      apply list_elem_of_filter. by rewrite elem_of_range_keys, elem_of_dom. }
  case_decide; auto.
Qed.

Lemma lookup_soname_reasons reasons b :
  soname_reasons vercmp cascade byBase rr reasons !! b =
  match reasons !! b with
  | Some r => Some r
  | None => if decide (cascades_soname cascade = true ∧ b ∈ map sp_Base archPkgs ∧ b ∈ brokenSonameDependents vercmp rr)
            then Some "soname" else None
  end.
Proof.
  unfold soname_reasons. destruct (cascades_soname cascade).
  - rewrite lookup_add_reasons. destruct (reasons !! b); [done|]. apply decide_ext.
    rewrite list_elem_of_filter, key_by_base_dom. tauto.
  - destruct (reasons !! b); [done|]. rewrite decide_False; [done|]. by intros [? _].
Qed.

(** The reasons [compute] reaches. *)
Lemma reasons_spec :
  ∃ made, makedepends_reasons vercmp cascade archPkgs arch byBase rr direct_reasons = Some made ∧
  ∀ b r, soname_reasons vercmp cascade byBase rr made !! b = Some r ↔ reason_of b r.
Proof.
  destruct makedepends_lookup as (made & Hm & Hl). exists made. split; [done|]. intros b r.
  rewrite lookup_soname_reasons. destruct (Hl b) as [H1 H2].
  destruct (direct_reasons_lookup b) as [(E & ? & ?)|[(E & ? & ?)|(E & ? & ?)]]; rewrite E in H1.
  - rewrite H1. split; [intros [= <-]; by constructor|]. destruct 1; (done || exfalso; intuition congruence).
  - rewrite H1. split; [intros [= <-]; by constructor|]. destruct 1; (done || exfalso; intuition congruence).
  - destruct (H2 E) as [(-> & Hc & s & Hs & Ht)|[-> Hn]].
    + split; [intros [= <-]; by eapply reason_makedepends|]. destruct 1; (done || exfalso; eauto 6).
    + case_decide as Hd.
      * destruct Hd as (Hc & Hb & (p & d & ? & ? & ? & ?)%elem_of_broken).
        split; [intros [= <-]; by eapply reason_soname|]. destruct 1; (done || exfalso; eauto 6).
      * split; [done|]. destruct 1 as [| |s|p d]; [done..|exfalso; eauto 6|].
        exfalso. apply Hd. split_and!; [done..|]. apply elem_of_broken. eauto 6.
Qed.
End compute_reasons.

(** ** Theorems *)

(** What [compute] returns, by the state of the context. *)
Lemma compute_cases vercmp {R : RangeOrder} {A : Arrival} ctx_err resolve src rr arch cascade workers costs :
  let graph := BuildDependencyGraph (FilterByArch src arch) arch in
  match compute vercmp ctx_err resolve src rr arch cascade workers costs with
  | Ok plan =>
      ctx_err = None ∧
      (∀ b r, Reasons plan !! b = Some r ↔ reason_of vercmp ctx_err resolve src rr arch cascade b r) ∧
      good_order graph (Reasons plan) (Order plan) ∧
      BumpTargets plan = filter (λ n, is_bump_target (Reasons plan) n = true) (Order plan) ∧
      if (0 <? workers)%Z then good_buckets graph (Order plan) workers (Buckets plan) else Buckets plan = []
  | Err e =>
      (∃ m, ctx_err = Some m ∧ e = ErrContext m) ∨
      ctx_err = None ∧ ∃ c, e = ErrOrder (ErrCycle c) ∧ is_cycle (g_forward graph) c
  end.
Proof.
  cbv zeta. unfold compute. cbv zeta.
  destruct ctx_err as [m|]; [left; eauto|].
  destruct (reasons_spec vercmp None resolve src rr arch cascade) as (made & Hm & Hr).
  unfold direct_reasons in Hm. rewrite Hm. cbn [result_of_option mbind result_bind].
  set (reasons := soname_reasons _ _ _ _ _) in *. clearbody reasons.
  set (graph := BuildDependencyGraph _ _).
  case_decide as He.
  { subst reasons. simpl. split_and!; [done|done| |done|].
    - split_and!; [constructor| |by intros []]. intros n. rewrite lookup_empty. split; [set_solver|by intros []].
    - destruct (Z.ltb_spec 0 workers); [|done]. split_and!; [done|set_solver|simpl; lia|set_solver]. }
  pose proof (order_build_set graph reasons) as Ho. cbv zeta in Ho.
  destruct (TopoSort _ _) as [order|e]; cbn [map_err mbind result_bind].
  2: { right. destruct Ho as (c & -> & ?). eauto. }
  destruct (Z.ltb_spec 0 workers) as [Hw|Hw].
  - destruct (bucket_build_set graph reasons order workers costs Ho Hw) as (comps & Hc & Hb).
    rewrite Hc. cbn [result_of_option mbind result_bind]. done.
  - cbn [mbind result_bind]. done.
Qed.

(** C20. The plan of a run. Its order holds exactly the packages with a reason to be built,
    each once, every one after those of the run that provide one of its build
    dependencies; the packages to bump are those rebuilt for a dependency or a soname, in
    that order. With workers, the buckets split the order into at most that many
    subsequences and never separate a package from a dependency built in the same run. The
    only errors are the context's and a dependency cycle between the packages. *)
Theorem compute_spec vercmp {R : RangeOrder} {A : Arrival} ctx_err resolve src rr arch cascade workers costs :
  let graph := BuildDependencyGraph (FilterByArch src arch) arch in
  match compute vercmp ctx_err resolve src rr arch cascade workers costs with
  | Ok plan =>
      good_order graph (Reasons plan) (Order plan) ∧
      BumpTargets plan `sublist_of` Order plan ∧
      (∀ n, n ∈ BumpTargets plan ↔
         Reasons plan !! n = Some "makedepends" ∨ Reasons plan !! n = Some "soname") ∧
      if (0 <? workers)%Z then good_buckets graph (Order plan) workers (Buckets plan) else Buckets plan = []
  | Err e =>
      (∃ m, ctx_err = Some m ∧ e = ErrContext m) ∨
      ∃ c, e = ErrOrder (ErrCycle c) ∧ is_cycle (g_forward graph) c
  end.
Proof.
  cbv zeta.
  pose proof (compute_cases vercmp ctx_err resolve src rr arch cascade workers costs) as H. cbv zeta in H.
  destruct (compute _ _ _ _ _ _ _ _ _) as [plan|e].
  - destruct H as (_ & Hr & Ho & Hb & Hk). rewrite Hb. split_and!; [done|apply sublist_filter| |done].
    intros n. rewrite list_elem_of_filter. destruct Ho as (_ & Hin & _). rewrite Hin.
    unfold is_bump_target. rewrite andb_true_iff, !negb_true_iff, !bool_decide_eq_false. split.
    + intros [[Hv Hc] [r Hs]]. rewrite Hs in *. apply Hr in Hs. destruct Hs; tauto.
    + intros [Hs|Hs]; rewrite Hs; eauto.
  - destruct H as [?|[_ ?]]; [by left|by right].
Qed.

(** Why a package is in the plan. Its reason is the one the source and the published
    repository give it: a VCS source that moved (unless its pkgver changes as well), a
    version newer than the published one or a package not published, a make or check
    dependency, at any distance, on a package whose pkgver or VCS revision changes, or a
    dependency on a soname the repository provides in no version that satisfies it; the
    first that applies, and with none of them the package is not in the plan. *)
Theorem compute_reasons_spec vercmp {R : RangeOrder} {A : Arrival} ctx_err resolve src rr arch cascade workers costs plan :
  compute vercmp ctx_err resolve src rr arch cascade workers costs = Ok plan →
  (∀ b r, Reasons plan !! b = Some r ↔ reason_of vercmp ctx_err resolve src rr arch cascade b r) ∧
  ∀ b, b ∈ Order plan ↔ ∃ r, reason_of vercmp ctx_err resolve src rr arch cascade b r.
Proof.
  intros E. pose proof (compute_cases vercmp ctx_err resolve src rr arch cascade workers costs) as H.
  cbv zeta in H. rewrite E in H. destruct H as (_ & Hr & (_ & Hin & _) & _). split; [done|].
  intros b. rewrite Hin. unfold is_Some. by setoid_rewrite Hr.
Qed.

(** *** An example *)
Definition only (l : list string) : ArchStrings := Some {["" := l]}.

(** A source package of one output, for any architecture. *)
Definition simple_source (base pkgver : string) (source makedepends depends provides : list string) : SourcePackage :=
  mkSourcePackage ("/src/" +:+ base)
    (mkSRCINFO
      (mkBase base pkgver "1" "" (only source) None None None None None None None None None None
        (only makedepends) None)
      (SrcinfoPackage.mk base "" (Some ["any"]) "" None None (only depends) None (only provides) None None
        None None "" "" 0%Z)
      [SrcinfoPackage.mk base "" None "" None None None None None None None None None "" "" 0%Z]).

Definition simple_binary (name version : string) (depends provides : list string) : BinaryPackage :=
  mkBinaryPackage "" (PKGINFO.mk name name version "" "" 0%Z "" 0%Z "any" [] [] [] [] provides [] depends [] [] [] ∅ "pkg").

Definition example_vercmp (a b : string) : Z :=
  match (a ?= b)%string with Eq => 0 | Lt => -1 | Gt => 1 end%Z.

Definition example_arrival : Arrival := {| arrive l := l; arrive_perm l := reflexivity l |}.

Definition example_src : list SourcePackage :=
  [simple_source "lib" "2" [] [] [] ["libx.so=2"];
   simple_source "app" "1" [] [] ["tool"; "libx.so=1"] [];
   simple_source "tool" "1" [] ["lib"] [] [];
   simple_source "vcs" "r5.abcdef1" ["git+https://host/vcs"] [] [] [];
   simple_source "other" "1" [] [] [] []].

Definition example_remote : RemoteRepo := mkRemote "repo" ""
  [simple_binary "lib" "1-1" [] ["libx.so=2"]; simple_binary "app" "1-1" ["tool"; "libx.so=1"] [];
   simple_binary "tool" "1-1" [] []; simple_binary "vcs" "r5.abcdef1-1" [] []; simple_binary "other" "1-1" [] []].

Definition example_plan : result plan_error Plan :=
  @compute example_vercmp elements_order example_arrival None (λ _, Ok "ABCDEF2345") example_src example_remote
    "x86_64" CascadeBoth 2 ∅.

Definition example_reasons : gmap string string :=
  {["lib" := "version"; "vcs" := "vcs"; "tool" := "makedepends"; "app" := "soname"]}.

Example example_plan_value :
  example_plan = Ok (mkPlan ["lib"; "tool"; "app"; "vcs"] [["lib"; "tool"; "app"]; ["vcs"]]
    example_reasons ["tool"; "app"]).
Proof. by vm_compute. Qed.

Lemma compute_reasons_spec_witness :
  ∃ plan, example_plan = Ok plan ∧
    @reason_of example_vercmp elements_order example_arrival None (λ _, Ok "ABCDEF2345") example_src example_remote
      "x86_64" CascadeBoth "app" "soname".
Proof.
  pose proof example_plan_value as E. eexists. split; [exact E|]. unfold example_plan in E.
  destruct (compute_reasons_spec _ _ _ _ _ _ _ _ _ _ E) as [H _].
  apply H. clear. vm_compute. reflexivity.
Defined.

(** ** The commit of a version *)
Lemma find_all_skip re s t skip start :
  String.length s = skip → find_all re skip start (s +:+ t) = find_all re 0 (start && (skip =? 0)) t.
Proof.
  revert skip start. induction s as [|c s IH]; intros skip start <-; simpl.
  - by destruct start.
  - rewrite andb_false_r. by rewrite IH.
Qed.

(** A match that starts in the first part stays within it. *)
Definition bounded (re : matcher) (t : string) : Prop :=
  ∀ start p h len, p ≠ "" → re start (p +:+ t) = Some (h, len) → 1 ≤ len ≤ String.length p.

Lemma find_all_app re p t skip start :
  bounded re t → skip ≤ String.length p →
  ∃ ms, find_all re skip start (p +:+ t) = ms ++ find_all re 0 (start && bool_decide (p = "")) t.
Proof.
  intros Hb. revert skip start. induction p as [|c p IH]; intros skip start Hs; simpl in *.
  { exists []. assert (skip = 0) as -> by lia. by rewrite andb_true_r. }
  rewrite andb_false_r. destruct skip as [|skip].
  - destruct (re start (String c (p +:+ t))) as [[h len]|] eqn:E.
    + destruct (Hb start (String c p) h len) as [H1 H2]; [done|done|]. simpl in H2.
      destruct (IH (len - 1) false) as [ms ->]; [lia|]. by exists (h :: ms).
    + apply (IH 0 false). lia.
  - apply (IH skip false). lia.
Qed.

Lemma span_app_stop f p t :
  (∀ c t', t = String c t' → f c = false) → (span f (p +:+ t)).1 = (span f p).1.
Proof.
  intros Ht. induction p as [|c p IH]; simpl.
  - destruct t as [|c t]; [done|]. simpl. by rewrite (Ht c t).
  - destruct (f c); [|done]. destruct (span f (p +:+ t)), (span f p). simpl in *. by rewrite IH.
Qed.

Lemma length_span f p : String.length (span f p).1 ≤ String.length p.
Proof. induction p as [|c p IH]; simpl; [done|]. destruct (f c); simpl; [|lia]. destruct (span f p). simpl in *. lia. Qed.

Lemma described_bounded t : bounded describedGitCommit (String "." t).
Proof.
  intros start p h len Hp. unfold describedGitCommit.
  destruct p as [|c p]; [done|]. simpl. destruct (decide (c = "."%char)) as [->|Hc].
  2: { clear -Hc. destruct c as [[] [] [] [] [] [] [] []]; try done. }
  destruct p as [|g p]; simpl.
  - done.
  - rewrite (span_app_stop is_hex) by (by intros ? ? [= <- _]). pose proof (length_span is_hex p).
    destruct (either _ _ _ && _); [|done]. intros [= <- <-]. lia.
Qed.

(** No match without its letter. *)
Lemma find_all_none re s skip start :
  (∀ start p c t, s = p +:+ String c t → re start (String c t) = None) → find_all re skip start s = [].
Proof.
  revert skip start. induction s as [|c s IH]; intros skip start H; simpl; [done|].
  assert (∀ skip start, find_all re skip start s = []) as IH'.
  { intros. apply IH. intros b p d t ->. by apply (H b (String c p)). }
  destruct skip; [|apply IH']. rewrite (H start "" c s) by done. apply IH'.
Qed.

Lemma described_none s : occurs "g" s = false → occurs "G" s = false → ∀ skip start, find_all describedGitCommit skip start s = [].
Proof.
  intros Hg HG skip start. apply find_all_none. intros b p c t ->. rewrite !occurs_app in *.
  apply orb_false_iff in Hg as [_ Hg], HG as [_ HG]. simpl in *.
  apply orb_false_iff in Hg as [_ Hg], HG as [_ HG].
  destruct (decide (c = "."%char)) as [->|Hc].
  2: { clear -Hc. destruct c as [[] [] [] [] [] [] [] []]; try done. }
  destruct t as [|g t]; [done|]. simpl in *.
  apply orb_false_iff in Hg as [Hg%bool_decide_eq_false _], HG as [HG%bool_decide_eq_false _].
  unfold describedGitCommit, either. rewrite bool_decide_eq_false_2; [done|]. intros [->| ->]; done.
Qed.

Lemma validHex_hex v : all_bytes is_hex v = true → validHex v = true.
Proof.
  intros Hv. unfold validHex. destruct (Nat.odd (String.length v)) eqn:E; apply andb_true_iff.
  - split; [|by simpl; rewrite Hv]. change (String.length ("0" +:+ v)) with (S (String.length v)).
    by rewrite Nat.even_succ.
  - split; [|done]. by rewrite <-Nat.negb_odd, E.
Qed.

Lemma length_map_bytes f v : String.length (map_bytes f v) = String.length v.
Proof. induction v as [|c v IH]; simpl; [done|by rewrite IH]. Qed.

Lemma to_lower_hex c : is_hex c = true → is_hex (to_lower c) = true.
Proof. destruct c as [[] [] [] [] [] [] [] []]; by vm_compute. Qed.

Lemma map_bytes_all (f g : ascii → bool) h v :
  (∀ c, f c = true → g (h c) = true) → all_bytes f v = true → all_bytes g (map_bytes h v) = true.
Proof.
  intros Hfg. induction v as [|c v IH]; simpl; [done|]. rewrite !andb_true_iff. intros [? ?]. auto.
Qed.

Definition commit_hash (h : string) : Prop :=
  all_bytes is_hex h = true ∧ 7 ≤ String.length h ≤ 64.

Lemma commit_valid h : commit_hash h → validGitCommitPrefix (map_bytes to_lower h) = true.
Proof.
  intros [Hh [H1 H2]]. unfold validGitCommitPrefix. rewrite length_map_bytes, !andb_true_iff, !Nat.leb_le.
  split_and!; [done..|]. apply validHex_hex. by apply (map_bytes_all is_hex is_hex _ _ to_lower_hex).
Qed.

Lemma span_hash h rel : commit_hash h → (∀ c t, rel = String c t → is_hex c = false) → span is_hex (h +:+ rel) = (h, rel).
Proof. intros [Hh _] Hr. by apply span_stop. Qed.

(** What follows the hash of a version: the end, or its pkgrel. *)
Definition after_hash (rel : string) : Prop :=
  rel = "" ∨ ∃ t, rel = "-" +:+ t ∧ all_bytes (λ c, is_digit c || bool_decide (c = "."%char)) t = true.

Lemma after_hash_free rel c :
  after_hash rel → is_digit c = false → c ≠ "."%char → c ≠ "-"%char → occurs c rel = false.
Proof.
  intros [->|(t & -> & Ht)] Hd Hc Hm; [done|]. simpl. rewrite bool_decide_eq_false_2 by done.
  eapply all_bytes_occurs; [|exact Ht]. simpl. rewrite Hd. by apply bool_decide_eq_false_2.
Qed.

Lemma after_hash_stop rel : after_hash rel → ∀ c t, rel = String c t → is_hex c = false.
Proof. intros [->|(t & -> & _)] c s; [done|]. by intros [= <- _]. Qed.

(** The version of a git describe: the last [.g] and the hash after it. *)
Lemma commit_described pre h rel :
  commit_hash h → after_hash rel →
  gitCommitFromVersion (pre +:+ ".g" +:+ h +:+ rel) = Some (map_bytes to_lower h).
Proof.
  intros Hh Hrel. unfold gitCommitFromVersion.
  destruct (find_all_app describedGitCommit pre (".g" +:+ h +:+ rel) 0 true) as [ms Hms];
    [apply described_bounded|lia|].
  rewrite Hms. set (b := true && _). clearbody b.
  assert (find_all describedGitCommit 0 b (".g" +:+ h +:+ rel) = [h]) as ->.
  { change (".g" +:+ h +:+ rel) with (String "." (String "g" (h +:+ rel))). cbn [find_all].
    assert (describedGitCommit b (String "." (String "g" (h +:+ rel))) = Some (h, 2 + String.length h)) as ->.
    { unfold describedGitCommit. cbv zeta. rewrite (span_hash h rel Hh (after_hash_stop _ Hrel)). cbn [fst].
      destruct Hh as [_ [H1 _]]. by rewrite (proj2 (Nat.leb_le _ _) H1). }
    f_equal. change (2 + String.length h - 1) with (S (String.length h)). cbv iota beta.
    rewrite (find_all_skip _ h) by done. apply described_none; by apply after_hash_free. }
  assert (ms ++ [h] ≠ []) as Hne by by destruct ms.
  destruct (ms ++ [h]) as [|x l] eqn:E; [done|]. rewrite <-E, last_snoc. cbn [mbind option_bind].
  by rewrite commit_valid.
Qed.

Lemma revision_body_match n h rel :
  all_bytes is_digit n = true → n ≠ "" → commit_hash h → after_hash rel →
  ∃ k, revision_body ("r" +:+ n +:+ "." +:+ h +:+ rel)
       = Some (h, 2 + String.length n + String.length h + k) ∧ k = String.length (str_take 1 rel).
Proof.
  intros Hn Hne Hh Hrel. unfold revision_body. cbv zeta.
  change ("r" +:+ n +:+ "." +:+ h +:+ rel) with (String "r" (n +:+ String "." (h +:+ rel))).
  change (either "r" "r" "R") with true. cbv iota.
  rewrite span_stop by (done || (intros ? ? [= <- _]; done)).
  rewrite (span_hash h rel Hh (after_hash_stop _ Hrel)).
  rewrite bool_decide_eq_true_2 by done. destruct Hh as [_ [H1 _]]. rewrite (proj2 (Nat.leb_le _ _) H1).
  cbn [andb]. destruct Hrel as [->|(t & -> & _)]; eexists; (split; [|reflexivity]); simpl; f_equal; f_equal; lia.
Qed.

(** No revision starts where there is no [r]. *)
Lemma revision_none s : occurs "r" s = false → occurs "R" s = false → ∀ skip start, find_all revisionGitCommit skip start s = [].
Proof.
  intros Hr HR skip start. apply find_all_none. intros b p c t ->. rewrite !occurs_app in *.
  apply orb_false_iff in Hr as [_ Hr], HR as [_ HR].
  assert (∀ u, occurs "r" u = false → occurs "R" u = false → revision_body u = None) as Hb.
  { intros [|d u] Hu HU; [done|]. simpl in Hu, HU.
    apply orb_false_iff in Hu as [Hu%bool_decide_eq_false _], HU as [HU%bool_decide_eq_false _].
    unfold revision_body, either. rewrite bool_decide_eq_false_2; [done|]. intros [->| ->]; done. }
  unfold revisionGitCommit. rewrite (Hb (String c t)) by done.
  replace (if b then None else None) with (@None (string * nat)) by by destruct b.
  simpl in Hr, HR. apply orb_false_iff in Hr as [_ Hr], HR as [_ HR].
  destruct (decide (c = "."%char)) as [->|Hc]; [by rewrite Hb|].
  clear -Hc. destruct c as [[] [] [] [] [] [] [] []]; done.
Qed.

(** Before a dot, a match would need an [r] of the first part. *)
Lemma revision_before p t start :
  occurs "r" p = false → occurs "R" p = false →
  ∃ b, find_all revisionGitCommit 0 start (p +:+ String "." t) = find_all revisionGitCommit 0 b (String "." t).
Proof.
  intros Hr HR. revert start. induction p as [|c p IH]; intros start; [by exists start|].
  simpl in Hr, HR. apply orb_false_iff in Hr as [Hrc%bool_decide_eq_false Hr], HR as [HRc%bool_decide_eq_false HR].
  cbn [String.app find_all].
  assert (revisionGitCommit start (String c (p +:+ String "." t)) = None) as ->; [|by apply IH].
  assert (∀ d u, d ≠ "r"%char → d ≠ "R"%char → revision_body (String d u) = None) as Hb.
  { intros d u Hd HD. unfold revision_body, either. rewrite bool_decide_eq_false_2; [done|]. intros [?|?]; done. }
  unfold revisionGitCommit. rewrite Hb by done.
  replace (if start then None else None) with (@None (string * nat)) by by destruct start.
  destruct (decide (c = "."%char)) as [->|Hc].
  - destruct p as [|d p]; cbn [String.app]; [by rewrite Hb|]. simpl in Hr, HR.
    apply orb_false_iff in Hr as [Hd%bool_decide_eq_false _], HR as [HD%bool_decide_eq_false _]. by rewrite Hb.
  - clear -Hc. destruct c as [[] [] [] [] [] [] [] []]; done.
Qed.

(** The version of a revision count and a hash, alone or after a dot. *)
Lemma commit_revision pre n h rel :
  all_bytes is_digit n = true → n ≠ "" → commit_hash h → after_hash rel →
  (pre = "" ∨ ∃ p, pre = p +:+ "." ∧ Forall (λ c, occurs c p = false) ["r"; "R"; "g"; "G"]%char) →
  gitCommitFromVersion (pre +:+ "r" +:+ n +:+ "." +:+ h +:+ rel) = Some (map_bytes to_lower h).
Proof.
  intros Hn Hne Hh Hrel Hpre. unfold gitCommitFromVersion.
  set (body := "r" +:+ n +:+ "." +:+ h +:+ rel).
  assert (∀ c, is_digit c = false → is_hex c = false → c ≠ "r"%char → c ≠ "."%char → c ≠ "-"%char →
    occurs c body = false) as Hfree.
  { intros c Hd Hx H1 H2 H3. unfold body. rewrite !occurs_app. simpl.
    rewrite !bool_decide_eq_false_2 by done. rewrite (all_bytes_occurs is_digit c n), (all_bytes_occurs is_hex c h),
      (after_hash_free rel c) by (done || apply Hh). done. }
  rewrite described_none.
  2-3: destruct Hpre as [->|(p & -> & Hp)]; [by apply Hfree|];
    rewrite !Forall_cons in Hp; destruct Hp as (? & ? & Hg & HG & _);
    rewrite !occurs_app, ?Hg, ?HG, (Hfree _) by done; done.
  destruct (revision_body_match n h rel Hn Hne Hh Hrel) as (k & Hm & Hk). fold body in Hm.
  assert (find_all revisionGitCommit 0 true (pre +:+ body) = [h]) as ->.
  2: { cbn [last mbind option_bind]. by rewrite commit_valid. }
  assert (∀ skip, skip = String.length n + String.length h + 1 + k → 
    find_all revisionGitCommit skip false (n +:+ "." +:+ h +:+ rel) = []) as Hrest.
  { intros skip ->. rewrite <-(str_take_drop 1 rel), !str_app_assoc, find_all_skip.
    - apply revision_none; destruct Hrel as [->|(t & -> & Ht)]; try done; simpl;
        (eapply all_bytes_occurs; [|exact Ht]); done.
    - rewrite !length_str_app, Hk. simpl. lia. }
  destruct Hpre as [->|(p & -> & Hp)].
  - change ("" +:+ body) with body. change body with (String "r" (n +:+ "." +:+ h +:+ rel)) at 1.
    cbn [find_all]. change (String "r" (n +:+ "." +:+ h +:+ rel)) with body.
    unfold revisionGitCommit at 1. rewrite Hm. cbv iota beta. f_equal. apply Hrest. lia.
  - rewrite <-str_app_assoc. change ("." +:+ body) with (String "." body).
    rewrite !Forall_cons in Hp. destruct Hp as (Hr & HR & _).
    destruct (revision_before p body true Hr HR) as [b ->]. cbn [find_all].
    unfold revisionGitCommit at 1.
    replace (if b then revision_body (String "." body) else None) with (@None (string * nat)) by by destruct b.
    rewrite Hm. cbn [mbind option_bind]. f_equal.
    change body with (String "r" (n +:+ "." +:+ h +:+ rel)).
    replace (S (2 + String.length n + String.length h + k) - 1)
      with (S (String.length n + String.length h + 1 + k)) by lia.
    cbn [find_all]. by apply Hrest.
Qed.

(** The versions of VCS packages, with or without a pkgrel: a git describe with its hash,
    and a revision count with the hash of the commit. *)
Inductive names_commit : string → string → Prop :=
| names_described pre h rel :
    commit_hash h → after_hash rel → names_commit (pre +:+ ".g" +:+ h +:+ rel) h
| names_revision pre n h rel :
    all_bytes is_digit n = true → n ≠ "" → commit_hash h → after_hash rel →
    (pre = "" ∨ ∃ p, pre = p +:+ "." ∧ Forall (λ c, occurs c p = false) ["r"; "R"; "g"; "G"]%char) →
    names_commit (pre +:+ "r" +:+ n +:+ "." +:+ h +:+ rel) h.

Lemma names_commit_found version h : names_commit version h → gitCommitFromVersion version = Some (map_bytes to_lower h).
Proof. destruct 1; [by apply commit_described|by apply commit_revision]. Qed.

Lemma changed_loop_spec cancelled published results errs :
  (changed_loop cancelled published results errs).1 = true ↔
  ∃ commit, Ok commit ∈ results ∧ has_prefix (map_bytes to_lower commit) published = false.
Proof.
  revert errs. induction results as [|[commit|e] results IH]; intros errs; simpl.
  - split; [done|]. by intros (c & Hc%not_elem_of_nil & _).
  - destruct (has_prefix (map_bytes to_lower commit) published) eqn:E.
    + rewrite IH. split; intros (c & Hc & ?); exists c; (split; [|done]); [by right|].
      apply elem_of_cons in Hc as [[= ->]|?]; [congruence|done].
    + split; [|done]. intros _. exists commit. split; [by left|done].
  - rewrite IH. split; intros (c & Hc & ?); exists c; (split; [|done]); [by right|].
    by apply elem_of_cons in Hc as [?|?].
Qed.

(** Whether a published VCS package is out of date. Its version, a git describe or a
    revision count with the hash of its commit, names that commit; whatever the order in
    which the lookups finish, the package is out of date exactly when one of its sources
    resolves to a commit that hash is not a prefix of, lookups that fail not counting. A
    version that names no commit is always out of date. *)
Theorem gitSourcesChanged_spec {A : Arrival} ctx_err resolve version sources :
  (∀ h, names_commit version h →
     (gitSourcesChanged ctx_err resolve version sources).1 = true ↔
     ∃ s commit, s ∈ sources ∧ resolve s = Ok commit ∧
       has_prefix (map_bytes to_lower commit) (map_bytes to_lower h) = false) ∧
  (gitCommitFromVersion version = None → (gitSourcesChanged ctx_err resolve version sources).1 = true).
Proof.
  unfold gitSourcesChanged. split; [|by intros ->].
  intros h Hh%names_commit_found. rewrite Hh, changed_loop_spec. setoid_rewrite arrive_perm.
  setoid_rewrite list_elem_of_fmap. split.
  - intros (commit & (s & Hs & Hin) & Hp). eauto.
  - intros (s & commit & Hin & Hs & Hp). exists commit. split; [eauto|done].
Qed.

Example gitCommitFromVersion_tests :
  gitCommitFromVersion "1.2.3.r45.gABCDEF0-1" = Some "abcdef0"
  ∧ gitCommitFromVersion "r123.abcdef1-2" = Some "abcdef1"
  ∧ gitCommitFromVersion "0.1.2.r5.abcdef1" = Some "abcdef1"
  ∧ gitCommitFromVersion "1.0.r5.gabcdef1.r6.gabcdef2-1" = Some "abcdef2"
  ∧ gitCommitFromVersion "1.2.3-4" = None.
Proof. by vm_compute. Qed.

(** ** Pruning *)

(** Some source package of the repository has the name. *)
Definition has_source (pkgs : list SourcePackage) (n : string) : bool :=
  existsb (λ p, bool_decide (n ∈ Names p)) pkgs.

Definition orphaned (s : SourceRepo) (remote : RemoteRepo) : list string :=
  filter (λ n, has_source (sr_Pkgs s) n = false) (map bp_Name (Pkgs remote)).

Lemma PrunablePackages_orphaned s remote :
  PrunablePackages (concat (map Names (sr_Pkgs s))) remote = orphaned s remote.
Proof.
  unfold PrunablePackages, orphaned. cbv zeta. apply list_filter_iff. intros n.
  rewrite elem_of_list_to_set, elem_of_concat_map, <-not_true_iff_false. unfold has_source.
  rewrite existsb_exists. split; intros H (p & Hp & Hn); apply H; exists p.
  - apply bool_decide_eq_true in Hn. by rewrite list_elem_of_In.
  - apply list_elem_of_In in Hp. by rewrite bool_decide_eq_true.
Qed.

Lemma remove_all_spec remove repo names :
  let '(calls, e) := remove_all remove repo names in
  match e with
  | None => calls = names ∧ ∀ n, n ∈ names → remove repo n = None
  | Some e => ∃ before n after, names = before ++ n :: after ∧ calls = before ++ [n] ∧
      (∀ m, m ∈ before → remove repo m = None) ∧ remove repo n = Some e
  end.
Proof.
  induction names as [|n names IH]; simpl; [split; [done|set_solver]|].
  destruct (remove repo n) as [e|] eqn:E.
  - exists [], n, names. split_and!; [done|done|set_solver|done].
  - destruct (remove_all remove repo names) as [calls [e|]]; simpl.
    + destruct IH as (b & m & a & -> & -> & Hb & He). exists (n :: b), m, a. split_and!; [done|done| |done].
      intros x [->|?]%elem_of_cons; auto.
    + destruct IH as [-> Hn]. split; [done|]. intros x [->|?]%elem_of_cons; auto.
Qed.

(** Pruning: a package is removed only from a configured source repository that lists
    at least one package and whose database could be read, by the remover given and not in
    a dry run. The packages to prune are then the published ones whose names no source
    package has, in the order of the database; the remover is called for each of them, and
    when a call fails for none after it. A dry run returns the same list and calls nothing. *)
Theorem prune_spec src options fetch :
  let '(calls, r) := prune src options fetch in
  (calls = [] ∧ (∀ e, r ≠ Err (ErrRemove e)) ∧ ∀ l, r = Ok l → l ≠ [] → po_DryRun options = true ∧
     ∃ s cfg url remote, src = Some s ∧ sr_Config s = Some cfg ∧ fetch url (sc_Name cfg) = FetchedRepo remote ∧
       l = orphaned s remote) ∨
  ∃ s cfg url remote remove,
    src = Some s ∧ sr_Config s = Some cfg ∧ fetch url (sc_Name cfg) = FetchedRepo remote ∧
    (∃ p, p ∈ sr_Pkgs s) ∧ po_DryRun options = false ∧ po_Remove options = Some remove ∧
    match r with
    | Ok l => l = orphaned s remote ∧ calls = l ∧ ∀ n, n ∈ l → remove (sc_Name cfg) n = None
    | Err e => ∃ before n after m, e = ErrRemove m ∧ orphaned s remote = before ++ n :: after ∧
        calls = before ++ [n] ∧ (∀ m, m ∈ before → remove (sc_Name cfg) m = None) ∧ remove (sc_Name cfg) n = Some m
    end.
Proof.
  unfold prune. destruct src as [s|]; simpl; [|left; by split_and!].
  destruct (sr_Config s) as [cfg|] eqn:Ec; simpl; [|left; by split_and!].
  case_decide as Hd; [left; by split_and!|].
  set (url := if decide (po_DatabaseURL options = "" ∧ _) then _ else _). destruct (decide (url = "")) as [|Hu]; [left; by split_and!|].
  destruct (fetch url (sc_Name cfg)) as [remote| |] eqn:Ef; [|left; split_and!; [done|done|by intros l [= <-]]|left; by split_and!].
  rewrite PrunablePackages_orphaned.
  destruct (decide (orphaned s remote = [])) as [|Hne]; [left; split_and!; [done|done|by intros l [= <-]]|].
  destruct (po_DryRun options); [left|].
  { split_and!; [done|done|]. intros l [= <-] _. split; [done|]. eauto 8. }
  destruct (po_Remove options) as [remove|]; [|left; by split_and!].
  assert (∃ p, p ∈ sr_Pkgs s) as Hp.
  { destruct (sr_Pkgs s) as [|p l]; [done|]. exists p. by left. }
  pose proof (remove_all_spec remove (sc_Name cfg) (orphaned s remote)) as Hr.
  destruct (remove_all _ _ _) as [calls [e|]].
  - destruct Hr as (b & n & a & Ha & -> & Hb & He). right. exists s, cfg, url, remote, remove. split_and!; try done. by exists b, n, a, e.
  - destruct Hr as [-> Hr]. right. exists s, cfg, url, remote, remove. by split_and!.
Qed.
