(* ===== verification/BuildSet.v ===== *)
(** * Build sets (ayaka/service/buildset: packages.go, sources.go, repositories.go, resolver.go)

    From packages asked for by name and local source directories to the sources to build:
    every build dependency is resolved to a local source, to an AUR source of the set, or to
    a configured repository, AUR sources are fetched until nothing is missing, and the set
    is ordered.  The AUR, git, makepkg and the go-srcinfo parser are interfaces; what they
    answer may change from one call to the next, so each call is numbered. *)

From S2P Require Import Prelude GoStrings Pkginfo Srcinfo SourcePackage Constraint Toposort Package Repo Rebuild Worklist SourceRepo Artifact.

(** ** [packages.go] *)
Inductive error :=
| ErrPackageName (name : string)
| ErrNoArchitecture
| ErrArchitecture (arch : string)
| ErrUnsupported (base arch : string)
| ErrSource (name msg : string)
| ErrDeclares (name base : string)
| ErrDuplicateBase (base : string)
| ErrAUR (what msg : string)
| ErrManyLocal (name : string) (bases : list string)
| ErrManyAUR (name : string)
| ErrNotFound (name : string)
| ErrNotProduced (base name arch : string)
| ErrManyProviders (owner spec kind : string) (bases : list string)
| ErrNoProvider (owner spec : string)
| ErrUnsatisfiedBy (owner spec base : string)
| ErrShadowed (base : string)
| ErrOperator (e : depend_error)
| ErrGraph (e : topo_error)
| ErrIndex (base : string)
| ErrRepository (name : string).

Definition name_byte (c : ascii) : bool := alphanumeric c || occurs c "@._+-".

Definition validatePackageName (name : string) : result error unit :=
  if bool_decide (name = "" ∨ name = "." ∨ name = "..")
     || match name with String c _ => bool_decide (c = "-"%char ∨ c = "."%char) | "" => false end
  then Err (ErrPackageName name)
  else if all_bytes name_byte name then Ok tt else Err (ErrPackageName name).

Definition normalize_step (acc : gset string * list string) (name : string)
    : result error (gset string * list string) :=
  _ ← validatePackageName name;
  Ok (discover acc name).

Definition normalizePackages (names : list string) : result error (list string) :=
  acc ← foldM normalize_step (∅, []) names;
  Ok (sort_strings acc.2).

Definition target_architectures : list string := ["x86_64"; "i486"; "i686"; "pentium4"; "aarch64"; "armv7h"].

Definition validateTargetArchitecture (arch : string) : result error unit :=
  if decide (arch ∈ target_architectures) then Ok tt
  else if decide (arch = "") then Err ErrNoArchitecture
  else Err (ErrArchitecture arch).

(** ** Sources *)
Inductive SourceType := SourceLocal | SourceAUR.

#[export] Instance SourceType_eq_dec : EqDecision SourceType.
Proof. solve_decision. Defined.

Record Source := mkSource {
  src_Type : SourceType; src_Path : string; src_URL : string; src_Revision : string; src_Digest : string;
}.

Record Dependency := mkDependency {
  dep_Constraint : string;
  ProviderType : string;
  Provider : string;
  ProviderPkgbase : string;
  Repository : string;
}.

Record sourceRecord := mkSourceRecord {
  metadata : SourcePackage;
  ref : Source;
  workDir : string;
  explicit : gset string;
  dependencies : list Dependency;
}.

Definition base_of (s : sourceRecord) : string := sp_Base (metadata s).

(** A package of the AUR: the fields the planner reads. *)
Record AURPkg := mkAURPkg {
  aur_Name : string; aur_PackageBase : string; aur_Version : string; aur_Provides : list string;
}.

(** The AUR client: the answer to the [n]th call. *)
Class AURClient := {
  aur_Info : nat → list string → result string (list AURPkg);
  aur_Search : nat → string → result string (list AURPkg);
  GitBase : string;
}.

(** The source trees: cloning, the .SRCINFO of a directory after the [n]th call ([None]
    when there is none), the backend that generates one, the go-srcinfo parser, the digest
    of a directory, and the copy of a local source, which gives its absolute path. *)
Class SourceTrees := {
  clone : nat → string → string → result string string;
  read_srcinfo : nat → string → option string;
  generate_srcinfo : option (nat → string → result string string);
  parse_srcinfo : string → result string SRCINFO;
  digestTree : nat → string → result string string;
  stage_local : string → string → result string string;
}.

Section buildset.
Context (vercmp : string → string → Z) {R : RangeOrder} {aur : AURClient} {trees : SourceTrees}.
Context (arch sourcesDir : string).

Definition validateSourceMetadata (m : SourcePackage) : result error unit :=
  _ ← foldM (λ _ name, validatePackageName name) tt (Names m);
  match OutputNames m arch with
  | [] => Err (ErrUnsupported (sp_Base m) arch)
  | _ => Ok tt
  end.

Definition OpenSourcePackage (dir data : string) : result string SourcePackage :=
  info ← parse_srcinfo data; Ok (mkSourcePackage dir info).

(** A directory without a .SRCINFO has it generated, and is read again. *)
Definition openMetadata (n : nat) (dir : string) : result string SourcePackage :=
  match read_srcinfo n dir with
  | Some data => OpenSourcePackage dir data
  | None =>
      match generate_srcinfo with
      | None => Err "no metadata backend"
      | Some generate => data ← generate n dir; OpenSourcePackage dir data
      end
  end.

Definition fetchAURSource (n : nat) (pkgbase : string) : result error sourceRecord :=
  _ ← validatePackageName pkgbase;
  let url := trim_right_byte "/" GitBase +:+ "/" +:+ pkgbase +:+ ".git" in
  let destination := path_join [sourcesDir; "aur"; pkgbase] in
  revision ← map_err (ErrSource pkgbase) (clone n url destination);
  m ← map_err (ErrSource pkgbase) (openMetadata n destination);
  _ ← validateSourceMetadata m;
  if decide (sp_Base m ≠ pkgbase) then Err (ErrDeclares pkgbase (sp_Base m))
  else
    digest ← map_err (ErrSource pkgbase) (digestTree n destination);
    Ok (mkSourceRecord m (mkSource SourceAUR "" url revision digest) destination ∅ []).

(** [%04d]. *)
Definition pad4 (n : nat) : string :=
  let s := format_int (Z.of_nat n) in
  let zeros := 4 - String.length s in
  String.concat "" (repeat "0" zeros) +:+ s.

(** One local source: its index, its path, the pkgbases and records so far. *)
Definition collect_step (acc : nat * list sourceRecord) (source : string)
    : result error (nat * list sourceRecord) :=
  let '(index, records) := acc in
  let destination := path_join [sourcesDir; "local"; pad4 index] in
  input ← map_err (ErrSource source) (stage_local source destination);
  m ← map_err (ErrSource input) (openMetadata index destination);
  _ ← validateSourceMetadata m;
  if decide (sp_Base m ∈ map base_of records) then Err (ErrDuplicateBase (sp_Base m))
  else
    digest ← map_err (ErrSource input) (digestTree index destination);
    let record := mkSourceRecord m (mkSource SourceLocal input "" "" digest) destination
                    (list_to_set (OutputNames m arch)) [] in
    Ok (S index, records ++ [record]).

Definition collectLocalSources (sources : list string) : result error (list sourceRecord) :=
  acc ← foldM collect_step (0, []) sources;
  Ok (sort_by base_of acc.2).

(** ** [repositories.go] *)
Record repositorySnapshot := mkSnapshot { rs_name : string; rs_packages : list BinaryPackage }.

Definition repositoryInstallsPackages (usage : list string) : bool :=
  bool_decide (usage = [] ∨ "All" ∈ usage ∨ "Install" ∈ usage).

(** A configured repository: its name, its usage, its servers. *)
Definition configured_repository : Type := string * list string * list string.

(** The first server whose database can be read. *)
Fixpoint fetch_servers (fetch : string → string → result string (list BinaryPackage)) (name : string)
    (servers : list string) : option (list BinaryPackage) :=
  match servers with
  | [] => None
  | server :: servers =>
      match fetch name server with
      | Ok packages => Some packages
      | Err _ => fetch_servers fetch name servers
      end
  end.

Definition load_step (fetch : string → string → result string (list BinaryPackage))
    (snapshots : list repositorySnapshot) (c : configured_repository) : result error (list repositorySnapshot) :=
  let '(name, usage, servers) := c in
  if repositoryInstallsPackages usage then
    match fetch_servers fetch name servers with
    | Some packages => Ok (snapshots ++ [mkSnapshot name packages])
    | None => Err (ErrRepository name)
    end
  else Ok snapshots.

Definition loadRepositories (fetch : string → string → result string (list BinaryPackage))
    (configured : list configured_repository) : result error (list repositorySnapshot) :=
  foldM (load_step fetch) [] configured.

Definition satisfied (c : Constraint) (version : string) : bool :=
  match Satisfies vercmp c version with Ok b => b | Err _ => false end.

Definition providedSatisfies (c : Constraint) (provided : string) : bool :=
  let parsed := Parse (trim_space provided) in
  if decide (cn_Name parsed ≠ cn_Name c) then false
  else if decide (cn_Op c = OpAny) then true
  else if decide (cn_Op parsed = OpAny ∨ cn_Ver parsed = "") then false
  else satisfied c (cn_Ver parsed).

Definition binary_satisfies (c : Constraint) (p : BinaryPackage) : bool :=
  bool_decide (bp_Arch p = "" ∨ bp_Arch p = "any" ∨ bp_Arch p = arch)
  && (bool_decide (bp_Name p = cn_Name c) && satisfied c (bp_Version p)
      || existsb (providedSatisfies c) (PKGINFO.Provides (bp_info p))).

Definition repositoryCandidates (snapshot : repositorySnapshot) (spec : string) : list string :=
  let c := Parse spec in
  compact (sort_strings (map bp_Name (filter (λ p, binary_satisfies c p = true) (rs_packages snapshot)))).

(** ** [resolver.go] *)

(** The planner: the sources in the order they were found, the index [byBase] of each,
    which stands for the pointer the map shares with the list, the answers of the AUR kept,
    and the number of the next call. *)
Record planner := mkPlanner {
  sources : list sourceRecord;
  byBase : gmap string nat;
  aurInfo : gmap string (list AURPkg);
  aurSearch : gmap string (list AURPkg);
  calls : nat;
}.

Definition newPlanner (local : list sourceRecord) : planner :=
  mkPlanner local (foldl (λ m ix, <[base_of ix.2 := ix.1]> m) ∅ (imap pair local)) ∅ ∅ 0.

Definition sourceSatisfies (s : sourceRecord) (c : Constraint) : bool :=
  bool_decide (cn_Name c ∈ OutputNames (metadata s) arch) && satisfied c (sp_Version (metadata s))
  || existsb (providedSatisfies c) (OutputProvides (metadata s) arch).

Definition sourceBases (l : list sourceRecord) : list string := compact (sort_strings (map base_of l)).

Definition exactSourceCandidates (p : planner) (name : string) (kind : SourceType) : list nat :=
  map fst (filter (λ ix, src_Type (ref ix.2) = kind ∧ name ∈ OutputNames (metadata ix.2) arch)
    (imap pair (sources p))).

Definition resolveFromSources (p : planner) (spec : string) (kind : SourceType) (providerType : string)
    (owner : string) : result error (option Dependency) :=
  let c := Parse spec in
  match filter (λ s, src_Type (ref s) = kind ∧ sourceSatisfies s c = true) (sources p) with
  | [] => Ok None
  | [s] => Ok (Some (mkDependency spec providerType (base_of s) (base_of s) ""))
  | candidates => Err (ErrManyProviders owner spec providerType (sourceBases candidates))
  end.

Definition aurInfoFor (p : planner) (name : string) : result error (list AURPkg * planner) :=
  match aurInfo p !! name with
  | Some cached => Ok (cached, p)
  | None =>
      entries ← map_err (ErrAUR name) (aur_Info (calls p) [name]);
      Ok (entries, mkPlanner (sources p) (byBase p) (<[name := entries]> (aurInfo p)) (aurSearch p) (S (calls p)))
  end.

Definition aurProvidersFor (p : planner) (name : string) : result error (list AURPkg * planner) :=
  match aurSearch p !! name with
  | Some cached => Ok (cached, p)
  | None =>
      results ← map_err (ErrAUR name) (aur_Search (calls p) name);
      match compact (sort_strings (map aur_Name results)) with
      | [] => Ok ([], mkPlanner (sources p) (byBase p) (aurInfo p) (<[name := []]> (aurSearch p)) (S (calls p)))
      | requested =>
          entries ← map_err (ErrAUR name) (aur_Info (S (calls p)) requested);
          Ok (entries, mkPlanner (sources p) (byBase p) (aurInfo p) (<[name := entries]> (aurSearch p))
                         (S (S (calls p))))
      end
  end.

Definition exactAURPackage (p : planner) (name : string) : result error (option AURPkg * planner) :=
  '(entries, p) ← aurInfoFor p name;
  match filter (λ e, aur_Name e = name) entries with
  | [] => Ok (None, p)
  | [e] => Ok (Some e, p)
  | _ => Err (ErrManyAUR name)
  end.

(** The entries that provide a constraint, the last of each pkgbase. *)
Definition providing (c : Constraint) (entries : list AURPkg) : gmap string AURPkg :=
  foldl (λ m e, if existsb (providedSatisfies c) (aur_Provides e) then <[aur_PackageBase e := e]> m else m) ∅ entries.

Definition resolveAURCandidate (p : planner) (spec owner : string) : result error (option AURPkg * planner) :=
  let c := Parse spec in
  '(exact, p) ← exactAURPackage p (cn_Name c);
  matches ← match exact with
            | Some e => b ← map_err ErrOperator (Satisfies vercmp c (aur_Version e)); Ok (if b : bool then Some e else None)
            | None => Ok None
            end;
  match matches with
  | Some e => Ok (Some e, p)
  | None =>
      '(entries, p) ← aurProvidersFor p (cn_Name c);
      let bases := providing c entries in
      match sort_strings (range_keys (dom bases)) with
      | [] => Ok (None, p)
      | [b] => Ok (bases !! b, p)
      | l => Err (ErrManyProviders owner spec "aur" l)
      end
  end.

(** The index of the source. *)
Definition addAURSource (p : planner) (pkgbase : string) : result error (nat * planner) :=
  match byBase p !! pkgbase with
  | Some i =>
      match sources p !! i with
      | None => Err (ErrIndex pkgbase)
      | Some existing =>
          if decide (src_Type (ref existing) = SourceLocal) then Err (ErrShadowed pkgbase) else Ok (i, p)
      end
  | None =>
      s ← fetchAURSource (calls p) pkgbase;
      let i := length (sources p) in
      Ok (i, mkPlanner (sources p ++ [s]) (<[pkgbase := i]> (byBase p)) (aurInfo p) (aurSearch p) (S (calls p)))
  end.

(** The first repository with a candidate. *)
Fixpoint resolveFromRepositories (repositories : list repositorySnapshot) (spec owner : string)
    : result error (option Dependency) :=
  match repositories with
  | [] => Ok None
  | repository :: repositories =>
      match repositoryCandidates repository spec with
      | [] => resolveFromRepositories repositories spec owner
      | [name] => Ok (Some (mkDependency spec "repository" name "" (rs_name repository)))
      | candidates => Err (ErrManyProviders owner spec (rs_name repository) candidates)
      end
  end.

Context (repositories : list repositorySnapshot).

(** The dependency, or [None] for a source that was added. *)
Definition resolveDependency (p : planner) (owner spec : string) : result error (option Dependency * planner) :=
  local ← resolveFromSources p spec SourceLocal "local" owner;
  match local with
  | Some d => Ok (Some d, p)
  | None =>
      built ← resolveFromSources p spec SourceAUR "built" owner;
      match built with
      | Some d => Ok (Some d, p)
      | None =>
          found ← resolveFromRepositories repositories spec owner;
          match found with
          | Some d => Ok (Some d, p)
          | None =>
              '(candidate, p) ← resolveAURCandidate p spec owner;
              match candidate with
              | None => Err (ErrNoProvider owner spec)
              | Some e =>
                  if decide (is_Some (byBase p !! aur_PackageBase e))
                  then Err (ErrUnsatisfiedBy owner spec (aur_PackageBase e))
                  else
                    '(_, p) ← addAURSource p (aur_PackageBase e);
                    Ok (None, p)
              end
          end
      end
  end.

(** [source.explicit[name] = struct{}{}], [source.dependencies = resolved]. *)
Definition update_source (f : sourceRecord → sourceRecord) (i : nat) (p : planner) : planner :=
  mkPlanner (alter f i (sources p)) (byBase p) (aurInfo p) (aurSearch p) (calls p).

Definition mark_explicit (name : string) (s : sourceRecord) : sourceRecord :=
  mkSourceRecord (metadata s) (ref s) (workDir s) ({[name]} ∪ explicit s) (dependencies s).

Definition set_dependencies (deps : list Dependency) (s : sourceRecord) : sourceRecord :=
  mkSourceRecord (metadata s) (ref s) (workDir s) (explicit s) deps.

(** One requested name: the planner and the names to install. *)
Definition request (acc : planner * gset string) (name : string) : result error (planner * gset string) :=
  let '(p, install) := acc in
  match exactSourceCandidates p name SourceLocal with
  | [i] => Ok (update_source (mark_explicit name) i p, {[name]} ∪ install)
  | [] =>
      '(entry, p) ← exactAURPackage p name;
      match entry with
      | None => Err (ErrNotFound name)
      | Some e =>
          '(i, p) ← addAURSource p (aur_PackageBase e);
          match sources p !! i with
          | None => Err (ErrIndex (aur_PackageBase e))
          | Some s =>
              if decide (name ∈ OutputNames (metadata s) arch)
              then Ok (update_source (mark_explicit name) i p, {[name]} ∪ install)
              else Err (ErrNotProduced (base_of s) name arch)
          end
      end
  | l => Err (ErrManyLocal name (sourceBases (omap (λ i, sources p !! i) l)))
  end.

(** The dependencies of one source, [None] when a source was added. *)
Fixpoint resolve_specs (p : planner) (owner : string) (specs : list string) (resolved : list Dependency)
    : result error (option (list Dependency) * planner) :=
  match specs with
  | [] => Ok (Some resolved, p)
  | spec :: specs =>
      '(d, p) ← resolveDependency p owner spec;
      match d with
      | None => Ok (None, p)
      | Some d => resolve_specs p owner specs (resolved ++ [d])
      end
  end.

(** A pass over the sources from the [i]th: whether one was added. *)
Fixpoint resolve_pass (p : planner) (i : nat) (l : list sourceRecord) : result error (bool * planner) :=
  match l with
  | [] => Ok (false, p)
  | s :: l =>
      '(resolved, p) ← resolve_specs p (base_of s) (BuildDepends (metadata s) arch) [];
      match resolved with
      | None => Ok (true, p)
      | Some deps => resolve_pass (update_source (set_dependencies deps) i p) (S i) l
      end
  end.

(** Passes until one adds nothing; [None] is lack of fuel. *)
Fixpoint resolve_all (fuel : nat) (p : planner) : option (result error planner) :=
  match fuel with
  | O => None
  | S fuel =>
      match resolve_pass p 0 (sources p) with
      | Err e => Some (Err e)
      | Ok (added, p) => if added : bool then resolve_all fuel p else Some (Ok p)
      end
  end.

Record PlannedBuild := mkPlannedBuild {
  Pkgbase : string;
  pb_Version : string;
  pb_Source : Source;
  pb_Packages : list string;
  Explicit : list string;
  Dependencies : list Dependency;
}.

Record Plan := mkPlan {
  plan_Arch : string;
  Install : list string;
  BuildOrder_ : list string;
  Builds : list PlannedBuild;
}.

Definition mapKeys (values : gset string) : list string := sort_strings (range_keys values).

Definition source_edges (l : list sourceRecord) : gmap string (list string) :=
  foldl (λ m s, foldl (λ m d,
    if decide (ProviderPkgbase d ≠ "" ∧ ProviderPkgbase d ≠ base_of s)
    then push m (base_of s) (ProviderPkgbase d) else m) m (dependencies s)) ∅ l.

(** [p.byBase[base]] is never nil. *)
Definition planned (p : planner) (base : string) : result error PlannedBuild :=
  match byBase p !! base ≫= λ i, sources p !! i with
  | None => Err (ErrIndex base)
  | Some s =>
      Ok (mkPlannedBuild base (sp_Version (metadata s)) (ref s) (OutputNames (metadata s) arch)
            (mapKeys (explicit s)) (dependencies s))
  end.

Definition finish (p : planner) (install : gset string) : result error Plan :=
  order ← map_err ErrGraph (BuildOrder (NewGraph (map base_of (sources p)) (source_edges (sources p))));
  builds ← foldM (λ acc base, b ← planned p base; Ok (acc ++ [b])) [] order;
  Ok (mkPlan arch (mapKeys install) order builds).

Definition build (fuel : nat) (p : planner) (requested : list string) : option (result error Plan) :=
  let install := foldl (λ s r, s ∪ explicit r) ∅ (sources p) in
  match foldM request (p, install) requested with
  | Err e => Some (Err e)
  | Ok (p, install) => r ← resolve_all fuel p; Some (p ← r; finish p install)
  end.

(** [Plan] and [prepare], once the pacman configuration and the repositories are read. *)
Definition prepare (fuel : nat) (packages localSources : list string) : option (result error Plan) :=
  match _ ← validateTargetArchitecture arch; normalizePackages packages with
  | Err e => Some (Err e)
  | Ok requested =>
      if decide (packages = [] ∧ localSources = []) then Some (Ok (mkPlan arch [] [] []))
      else
        match collectLocalSources localSources with
        | Err e => Some (Err e)
        | Ok local => build fuel (newPlanner local) requested
        end
  end.
End buildset.
