(* ===== verification/BuildSetSpec.v ===== *)
(** * What a build set promises

    The state of the planner is well formed at every step: its index finds each source under
    its pkgbase.  A plan holds the sources given and the AUR sources fetched, every build
    dependency resolved in the order of precedence local, built, repository; with finitely
    many AUR pkgbases the search ends. *)

From S2P Require Import Prelude GoStrings Pkginfo Srcinfo SourcePackage Constraint Toposort Package Repo Rebuild Worklist SourceRepo Artifact BuildSet.

(** The part of a source that only its requests and dependencies leave alone. *)
Definition skel (s : sourceRecord) : SourcePackage * Source * string := (metadata s, ref s, workDir s).

Lemma skel_base s t : skel s = skel t → base_of s = base_of t.
Proof. unfold base_of. by intros [= -> _ _]. Qed.

Lemma elem_of_skel (l k : list sourceRecord) s :
  map skel l = map skel k → s ∈ l → ∃ t, t ∈ k ∧ skel t = skel s.
Proof.
  intros E Hs. assert (skel s ∈ map skel k) as Hk by (rewrite <-E; apply list_elem_of_fmap; eauto).
  apply list_elem_of_fmap in Hk as (t & ? & ?). eauto.
Qed.

Lemma map_skel_base (l k : list sourceRecord) : map skel l = map skel k → map base_of l = map base_of k.
Proof.
  revert k. induction l as [|s l IH]; intros [|t k]; simpl; try done.
  intros [= H1 H2 H3 H]. f_equal; [apply skel_base; unfold skel; congruence|by apply IH].
Qed.

Lemma map_alter_same {B} (h : sourceRecord → B) (f : sourceRecord → sourceRecord) i l :
  (∀ s, h (f s) = h s) → map h (alter f i l) = map h l.
Proof. intros Hf. revert i. induction l as [|s l IH]; intros [|i]; simpl; [done..|by rewrite Hf|]. f_equal. apply IH. Qed.

(** ** The index *)
Record wf (p : planner) : Prop := {
  wf_bases : NoDup (map base_of (sources p));
  wf_index b i : byBase p !! b = Some i ↔ map base_of (sources p) !! i = Some b;
}.

Lemma wf_None p b : wf p → byBase p !! b = None ↔ b ∉ map base_of (sources p).
Proof.
  intros Hw. rewrite list_elem_of_lookup. split.
  - intros Hn [i Hi]. apply (wf_index p Hw) in Hi. congruence.
  - intros Hn. apply eq_None_not_Some. intros [i Hi]. apply Hn. exists i. by apply (wf_index p Hw).
Qed.

(** Sources that differ in what is requested or resolved only. *)
Lemma wf_same p q :
  wf p → map base_of (sources q) = map base_of (sources p) → byBase q = byBase p → wf q.
Proof. intros [H1 H2] Hs Hb. split; [by rewrite Hs|]. intros b i. by rewrite Hs, Hb. Qed.

Lemma wf_add p q s b :
  wf p → byBase p !! b = None → base_of s = b →
  sources q = sources p ++ [s] → byBase q = <[b := length (sources p)]> (byBase p) → wf q.
Proof.
  intros Hw Hn Hb Es Eb. pose proof (proj1 (wf_None p b Hw) Hn) as Hnin. split.
  - rewrite Es, map_app. apply NoDup_app. split_and!; [by apply wf_bases| |apply NoDup_singleton].
    intros x Hx. simpl. rewrite list_elem_of_singleton. intros ->. by rewrite Hb in Hx.
  - intros c i. rewrite Es, Eb, map_app. simpl. destruct (decide (c = b)) as [->|Hc].
    + rewrite lookup_insert_eq. split.
      * intros [= <-]. rewrite lookup_app_r by by rewrite length_map.
        by rewrite length_map, Nat.sub_diag, Hb.
      * rewrite lookup_app_Some. intros [Hi|[Hle Hi]].
        -- destruct Hnin. by eapply list_elem_of_lookup_2.
        -- apply list_lookup_singleton_Some in Hi as [Hi _]. rewrite length_map in *. f_equal. lia.
    + rewrite lookup_insert_ne, (wf_index p Hw) by done. rewrite lookup_app_Some. split; [by left|].
      intros [?|[_ Hi]]; [done|]. apply list_lookup_singleton_Some in Hi as [_ Hi]. congruence.
Qed.

Lemma wf_newPlanner local : NoDup (map base_of local) → wf (newPlanner local).
Proof.
  intros Hnd. split; [done|]. intros b i. simpl.
  induction local as [|s local IH] using rev_ind; simpl in *; [by rewrite lookup_empty, lookup_nil|].
  rewrite imap_app, foldl_app. simpl. rewrite Nat.add_0_r.
  rewrite map_app in Hnd |- *. simpl in *.
  apply NoDup_app in Hnd as (Hnd & Hdis & _).
  destruct (decide (b = base_of s)) as [->|Hb].
  - rewrite lookup_insert_eq. split.
    + intros [= <-]. rewrite lookup_app_r by by rewrite length_map. by rewrite length_map, Nat.sub_diag.
    + rewrite lookup_app_Some. intros [Hi|[Hle Hi]].
      * exfalso. apply (Hdis (base_of s)); [by eapply list_elem_of_lookup_2|by left].
      * apply list_lookup_singleton_Some in Hi as [Hi _]. rewrite length_map in *. f_equal. lia.
  - rewrite lookup_insert_ne by done. rewrite IH by done. rewrite lookup_app_Some. split; [by left|].
    intros [?|[_ Hi]]; [done|]. apply list_lookup_singleton_Some in Hi as [_ Hi]. congruence.
Qed.

Section spec.
Context (vercmp : string → string → Z) {R : RangeOrder} {aur : AURClient} {trees : SourceTrees}.
Context (arch sourcesDir : string) (repositories : list repositorySnapshot).
Implicit Types (p q : planner) (l k : list sourceRecord).

(** ** What a dependency resolves to *)

(** The sources of a kind that satisfy a spec. *)
Definition candidates l (kind : SourceType) (spec : string) (s : sourceRecord) : Prop :=
  s ∈ l ∧ src_Type (ref s) = kind ∧ sourceSatisfies vercmp arch s (Parse spec) = true.

Definition only_candidate l (kind : SourceType) (spec base : string) : Prop :=
  (∃ s, candidates l kind spec s) ∧ ∀ s, candidates l kind spec s → base_of s = base.

(** The precedence of providers: a local source, an AUR source of the set, the first
    repository with a candidate; at each place the provider is unique. *)
Inductive resolved_to l (spec : string) : Dependency → Prop :=
| resolved_local b :
    only_candidate l SourceLocal spec b → resolved_to l spec (mkDependency spec "local" b b "")
| resolved_built b :
    (∀ s, ¬ candidates l SourceLocal spec s) → only_candidate l SourceAUR spec b →
    resolved_to l spec (mkDependency spec "built" b b "")
| resolved_repository before r after name :
    (∀ s, ¬ candidates l SourceLocal spec s) → (∀ s, ¬ candidates l SourceAUR spec s) →
    repositories = before ++ r :: after →
    (∀ r', r' ∈ before → repositoryCandidates vercmp arch r' spec = []) →
    repositoryCandidates vercmp arch r spec = [name] →
    resolved_to l spec (mkDependency spec "repository" name "" (rs_name r)).

(** The dependencies of a source, one for each of its build dependencies, in order. *)
Definition dependencies_ok l (s : sourceRecord) : Prop :=
  Forall2 (resolved_to l) (BuildDepends (metadata s) arch) (dependencies s).

Lemma candidates_skel l k kind spec s :
  map skel l = map skel k → candidates l kind spec s →
  ∃ t, candidates k kind spec t ∧ skel t = skel s.
Proof.
  intros E (Hs & Ht & Hc). destruct (elem_of_skel l k s E Hs) as (t & Hin & Hsk).
  exists t. split; [|done]. injection Hsk as Hm Hr _. split_and!; [done|by rewrite Hr|].
  rewrite <-Hc. unfold sourceSatisfies. by rewrite Hm.
Qed.

Lemma no_candidates_skel l k kind spec :
  map skel l = map skel k → (∀ s, ¬ candidates l kind spec s) → ∀ s, ¬ candidates k kind spec s.
Proof. intros E Hn s Hs. destruct (candidates_skel k l kind spec s) as (t & ? & _); [done..|]. by apply (Hn t). Qed.

Lemma only_candidate_skel l k kind spec b :
  map skel l = map skel k → only_candidate l kind spec b → only_candidate k kind spec b.
Proof.
  intros E [[s Hs] Hb]. split.
  - destruct (candidates_skel l k kind spec s E Hs) as (t & ? & _). eauto.
  - intros t Ht. destruct (candidates_skel k l kind spec t) as (u & Hu & Hsk); [done..|].
    rewrite <-(skel_base _ _ Hsk). by apply Hb.
Qed.

Lemma resolved_to_skel l k spec d : map skel l = map skel k → resolved_to l spec d → resolved_to k spec d.
Proof.
  intros E. destruct 1 as [b Hb|b Hn Hb|bf r af name H1 H2 Hr Hbf Hc].
  - apply resolved_local. by eapply only_candidate_skel.
  - apply resolved_built; [by eapply no_candidates_skel|by eapply only_candidate_skel].
  - eapply resolved_repository; [by eapply no_candidates_skel..|done|done|done].
Qed.

Lemma dependencies_ok_skel l k s : map skel l = map skel k → dependencies_ok l s → dependencies_ok k s.
Proof. intros E H. eapply Forall2_impl; [exact H|]. intros spec d. by apply resolved_to_skel. Qed.

Lemma resolveFromSources_spec p spec kind text owner r :
  resolveFromSources vercmp arch p spec kind text owner = Ok r →
  match r with
  | None => ∀ s, ¬ candidates (sources p) kind spec s
  | Some d => ∃ b, only_candidate (sources p) kind spec b ∧ d = mkDependency spec text b b ""
  end.
Proof.
  unfold resolveFromSources. cbv zeta. set (found := filter _ _).
  assert (∀ s, s ∈ found ↔ candidates (sources p) kind spec s) as Hf.
  { intros s. unfold found, candidates. rewrite list_elem_of_filter. tauto. }
  destruct found as [|s [|]]; intros [= <-].
  - intros s Hs. apply Hf in Hs. by apply not_elem_of_nil in Hs.
  - exists (base_of s). split; [|done]. split.
    + exists s. apply Hf. by left.
    + intros t Ht%Hf. by apply list_elem_of_singleton in Ht as ->.
Qed.

Lemma resolveFromRepositories_spec reps spec owner r :
  resolveFromRepositories vercmp arch reps spec owner = Ok r →
  match r with
  | None => ∀ r', r' ∈ reps → repositoryCandidates vercmp arch r' spec = []
  | Some d => ∃ before r after name, reps = before ++ r :: after ∧
      (∀ r', r' ∈ before → repositoryCandidates vercmp arch r' spec = []) ∧
      repositoryCandidates vercmp arch r spec = [name] ∧ d = mkDependency spec "repository" name "" (rs_name r)
  end.
Proof.
  induction reps as [|rep reps IH]; cbn [resolveFromRepositories].
  { intros [= <-] r' Hr'. by apply not_elem_of_nil in Hr'. }
  destruct (repositoryCandidates vercmp arch rep spec) as [|name [|]] eqn:E; [|intros [= <-]|done].
  - intros H%IH. destruct r as [d|].
    + destruct H as (b & r & a & n & -> & Hb & Hr & ->). exists (rep :: b), r, a, n. split_and!; [done| |done|done].
      intros r' [->|?]%elem_of_cons; auto.
    + intros r' [->|?]%elem_of_cons; auto.
  - exists [], rep, reps, name. split_and!; [done| |done|done]. intros r' Hr'. by apply not_elem_of_nil in Hr'.
Qed.

(** ** Steps of the planner *)

(** The pkgbases the AUR may answer with. *)
Definition aur_universe (U : list string) : Prop :=
  ∀ n names es e, aur_Info n names = Ok es → e ∈ es → aur_PackageBase e ∈ U.

(** The answers kept are among them. *)
Definition known (U : list string) p : Prop :=
  ∀ name es e, aurInfo p !! name = Some es ∨ aurSearch p !! name = Some es → e ∈ es → aur_PackageBase e ∈ U.

(** A step that only asks the AUR. *)
Record asked p q : Prop := {
  asked_sources : sources q = sources p;
  asked_byBase : byBase q = byBase p;
  asked_known U : aur_universe U → known U p → known U q;
}.

Lemma asked_refl p : asked p p.
Proof. done. Qed.

Lemma asked_trans p q r : asked p q → asked q r → asked p r.
Proof. intros [?? H1] [?? H2]. split; [congruence..|]. auto. Qed.

Lemma known_insert_info U p name (l : list AURPkg) n :
  known U p → (∀ e, e ∈ l → aur_PackageBase e ∈ U) →
  known U (mkPlanner (sources p) (byBase p) (<[name := l]> (aurInfo p)) (aurSearch p) n).
Proof.
  intros Hk Hl name' l' e [H|H] He; simpl in H; [|by eapply Hk; [right|]].
  destruct (decide (name' = name)) as [->|Hn].
  - rewrite lookup_insert_eq in H. simplify_eq. auto.
  - rewrite lookup_insert_ne in H by done. by eapply Hk; [left|].
Qed.

Lemma known_insert_search U p name (l : list AURPkg) n :
  known U p → (∀ e, e ∈ l → aur_PackageBase e ∈ U) →
  known U (mkPlanner (sources p) (byBase p) (aurInfo p) (<[name := l]> (aurSearch p)) n).
Proof.
  intros Hk Hl name' l' e [H|H] He; simpl in H; [by eapply Hk; [left|]|].
  destruct (decide (name' = name)) as [->|Hn].
  - rewrite lookup_insert_eq in H. simplify_eq. auto.
  - rewrite lookup_insert_ne in H by done. by eapply Hk; [right|].
Qed.

(** The entries an answer holds. *)
Definition among (U : list string) (l : list AURPkg) : Prop := ∀ e, e ∈ l → aur_PackageBase e ∈ U.

Lemma aurInfoFor_asked p name (l : list AURPkg) q :
  aurInfoFor p name = Ok (l, q) → asked p q ∧ ∀ U, aur_universe U → known U p → among U l.
Proof.
  unfold aurInfoFor. destruct (aurInfo p !! name) as [cached|] eqn:E.
  - intros [= <- <-]. split; [done|]. intros U _ Hk e He. by eapply Hk; [left|].
  - destruct (aur_Info (calls p) [name]) as [entries|] eqn:Ei; [|done]. simpl. intros [= <- <-].
    split; [split; [done..|]|].
    + intros U HU Hk. apply known_insert_info; [done|]. intros e. by eapply HU.
    + intros U HU _ e. by eapply HU.
Qed.

Lemma aurProvidersFor_asked p name (l : list AURPkg) q :
  aurProvidersFor p name = Ok (l, q) → asked p q ∧ ∀ U, aur_universe U → known U p → among U l.
Proof.
  unfold aurProvidersFor. destruct (aurSearch p !! name) as [cached|] eqn:E.
  { intros [= <- <-]. split; [done|]. intros U _ Hk e He. by eapply Hk; [right|]. }
  destruct (aur_Search _ _) as [results|]; [|done]. simpl. destruct (compact _) as [|r rs].
  - intros [= <- <-]. split; [split; [done..|]|].
    + intros U HU Hk. apply known_insert_search; [done|]. intros e He. by apply not_elem_of_nil in He.
    + intros U _ _ e He. by apply not_elem_of_nil in He.
  - destruct (aur_Info (S (calls p)) (r :: rs)) as [entries|] eqn:Ei; [|done]. simpl. intros [= <- <-].
    split; [split; [done..|]|].
    + intros U HU Hk. apply known_insert_search; [done|]. intros e. by eapply HU.
    + intros U HU _ e. by eapply HU.
Qed.

Lemma exactAURPackage_asked p name r q :
  exactAURPackage p name = Ok (r, q) →
  asked p q ∧ ∀ e, r = Some e → aur_Name e = name ∧ ∀ U, aur_universe U → known U p → aur_PackageBase e ∈ U.
Proof.
  unfold exactAURPackage. destruct (aurInfoFor p name) as [[l q']|] eqn:E; [|done]. cbn [mbind result_bind].
  apply aurInfoFor_asked in E as [Ha Hl]. destruct (filter _ l) as [|e' [|]] eqn:Ef; try done; intros [= <- <-].
  - done.
  - split; [done|]. intros e [= <-]. assert (e' ∈ filter (λ e, aur_Name e = name) l) as He by (rewrite Ef; by left).
    apply list_elem_of_filter in He as [? ?]. split; [done|]. intros U HU Hk. by eapply Hl.
Qed.

Lemma providing_spec c (entries : list AURPkg) b e :
  providing vercmp c entries !! b = Some e → e ∈ entries ∧ aur_PackageBase e = b.
Proof.
  unfold providing. revert b e. induction entries as [|e' entries IH] using rev_ind; intros b e; [simpl; by rewrite lookup_empty|].
  rewrite foldl_app. simpl. rewrite elem_of_app, list_elem_of_singleton. destruct (existsb _ _).
  - destruct (decide (b = aur_PackageBase e')) as [->|Hb].
    + rewrite lookup_insert_eq. intros [= ->]. auto.
    + rewrite lookup_insert_ne by done. intros [? ?]%IH. auto.
  - intros [? ?]%IH. auto.
Qed.

Lemma resolveAURCandidate_asked p spec owner r q :
  resolveAURCandidate vercmp p spec owner = Ok (r, q) →
  asked p q ∧ ∀ e, r = Some e → ∀ U, aur_universe U → known U p → aur_PackageBase e ∈ U.
Proof.
  unfold resolveAURCandidate. cbv zeta.
  destruct (exactAURPackage p _) as [[exact p1]|] eqn:E1; [|done]. apply exactAURPackage_asked in E1 as [Ha1 Hx].
  cbn [mbind result_bind].
  destruct (match exact with Some e => _ | None => _ end) as [m|] eqn:Em; [|done]. cbn [mbind result_bind].
  assert (∀ e, m = Some e → exact = Some e) as Hm.
  { intros e ->. destruct exact as [x|]; [|done]. destruct (Satisfies _ _ _) as [[]|]; by simplify_eq/=. }
  destruct m as [m|].
  - intros [= <- <-]. split; [done|]. intros e [= <-] U HU Hk. by apply Hx; [apply Hm| |].
  - destruct (aurProvidersFor p1 _) as [[entries p2]|] eqn:E2; [|done]. apply aurProvidersFor_asked in E2 as [Ha2 Hp].
    cbn [mbind result_bind]. pose proof (asked_trans _ _ _ Ha1 Ha2).
    destruct (sort_strings _) as [|b [|]]; try done; intros [= <- <-]; (split; [done|]); [done|].
    intros e He U HU Hk. apply providing_spec in He as [He _]. eapply Hp; [done| |done].
    by apply (asked_known _ _ Ha1).
Qed.

Lemma fetchAURSource_base n b s : fetchAURSource arch sourcesDir n b = Ok s → base_of s = b ∧ src_Type (ref s) = SourceAUR
  ∧ explicit s = ∅.
Proof.
  unfold fetchAURSource. destruct (validatePackageName b); [|done]. cbn [mbind result_bind].
  destruct (clone _ _ _); [|done]. cbn [map_err mbind result_bind].
  destruct (openMetadata _ _) as [m|]; [|done]. cbn [map_err mbind result_bind].
  destruct (validateSourceMetadata arch m); [|done]. cbn [mbind result_bind]. case_decide as Hb; [done|].
  destruct (digestTree _ _); [|done]. cbn [map_err mbind result_bind]. intros [= <-].
  split; [exact Hb|done].
Qed.

(** A source is fetched under a pkgbase the planner does not have. *)
Definition fetched p q (b : string) : Prop :=
  ∃ n s, byBase p !! b = None ∧ fetchAURSource arch sourcesDir n b = Ok s ∧
    q = mkPlanner (sources p ++ [s]) (<[b := length (sources p)]> (byBase p)) (aurInfo p) (aurSearch p) (S n).

Lemma addAURSource_spec p b i q :
  wf p → addAURSource arch sourcesDir p b = Ok (i, q) →
  (q = p ∧ ∃ s, sources p !! i = Some s ∧ base_of s = b ∧ src_Type (ref s) = SourceAUR) ∨
  (fetched p q b ∧ i = length (sources p)).
Proof.
  intros Hw. unfold addAURSource. destruct (byBase p !! b) as [j|] eqn:E.
  - destruct (sources p !! j) as [s|] eqn:Es; [|done]. case_decide as Ht; [done|]. intros [= <- <-]. left.
    split; [done|]. exists s. split_and!; [done| |].
    + apply (wf_index p Hw) in E. rewrite list_lookup_fmap in E. rewrite Es in E. by injection E.
    + by destruct (src_Type (ref s)) eqn:Et; [destruct Ht|].
  - destruct (fetchAURSource _ _ _ b) as [s|] eqn:Ef; [|done]. cbn [mbind result_bind]. intros [= <- <-]. right.
    split; [|done]. exists (calls p), s. done.
Qed.

Lemma fetched_wf p q b : wf p → fetched p q b → wf q.
Proof.
  intros Hw (n & s & Hn & Hf & ->). eapply wf_add; [done|done| |done|done].
  by apply fetchAURSource_base in Hf as (? & _).
Qed.

Lemma resolveDependency_spec p owner spec r q :
  wf p → resolveDependency vercmp arch sourcesDir repositories p owner spec = Ok (r, q) →
  match r with
  | Some d => q = p ∧ resolved_to (sources p) spec d
  | None => ∃ p' b, asked p p' ∧ fetched p' q b ∧ ∀ U, aur_universe U → known U p → b ∈ U
  end.
Proof.
  intros Hw. unfold resolveDependency.
  destruct (resolveFromSources _ _ _ _ SourceLocal _ _) as [local|] eqn:El; [|done]. apply resolveFromSources_spec in El.
  cbn [mbind result_bind]. destruct local as [d|].
  { intros [= <- <-]. split; [done|]. destruct El as (b & ? & ->). by apply resolved_local. }
  destruct (resolveFromSources _ _ _ _ SourceAUR _ _) as [built|] eqn:Eb; [|done]. apply resolveFromSources_spec in Eb.
  cbn [mbind result_bind]. destruct built as [d|].
  { intros [= <- <-]. split; [done|]. destruct Eb as (b & ? & ->). by apply resolved_built. }
  destruct (resolveFromRepositories _ _ _ _ _) as [found|] eqn:Er; [|done]. apply resolveFromRepositories_spec in Er.
  cbn [mbind result_bind]. destruct found as [d|].
  { intros [= <- <-]. split; [done|]. destruct Er as (b & rr & a & n & ? & ? & ? & ->). by eapply resolved_repository. }
  destruct (resolveAURCandidate _ _ _ _) as [[cand p1]|] eqn:Ec; [|done]. apply resolveAURCandidate_asked in Ec as [Ec HU].
  cbn [mbind result_bind]. destruct cand as [e|]; [|done]. case_decide as Hs; [done|].
  destruct (addAURSource _ _ p1 _) as [[i p2]|] eqn:Ea; [|done]. cbn [mbind result_bind]. intros [= <- <-].
  apply addAURSource_spec in Ea as [(-> & s & Hi & Hb & _)|[Hf _]].
  - exfalso. apply Hs. exists i. rewrite (asked_byBase _ _ Ec). apply (wf_index p Hw). rewrite <-(asked_sources _ _ Ec).
    rewrite list_lookup_fmap, Hi. simpl. by rewrite Hb.
  - exists p1, (aur_PackageBase e). eauto.
  - eapply wf_same; [exact Hw| |apply Ec]. by rewrite (asked_sources _ _ Ec).
Qed.
(** ** The passes *)

(** What a pass leaves alone in a source: everything but its dependencies. *)
Definition core (s : sourceRecord) := (metadata s, ref s, workDir s, explicit s).

Lemma core_skel l k : map core l = map core k → map skel l = map skel k.
Proof.
  revert k. induction l as [|s l IH]; intros [|t k]; simpl; try done.
  intros [= H1 H2 H3 H4 H]. f_equal; [unfold skel; congruence|by apply IH].
Qed.

Lemma core_base l k : map core l = map core k → map base_of l = map base_of k.
Proof. intros H. by apply map_skel_base, core_skel. Qed.

Lemma resolve_specs_spec p owner specs acc r q :
  wf p → resolve_specs vercmp arch sourcesDir repositories p owner specs acc = Ok (r, q) →
  match r with
  | Some deps => q = p ∧ ∃ new, deps = acc ++ new ∧ Forall2 (resolved_to (sources p)) specs new
  | None => ∃ p' b, asked p p' ∧ fetched p' q b ∧ ∀ U, aur_universe U → known U p → b ∈ U
  end.
Proof.
  intros Hw. revert acc. induction specs as [|spec specs IH]; intros acc; cbn [resolve_specs].
  { intros [= <- <-]. split; [done|]. exists []. by rewrite app_nil_r. }
  destruct (resolveDependency _ _ _ _ p owner spec) as [[d p1]|] eqn:E; [|done]. cbn [mbind result_bind].
  apply resolveDependency_spec in E; [|done]. destruct d as [d|].
  - destruct E as [-> Hd]. intros H%IH. destruct r as [deps|]; [|done].
    destruct H as (-> & new & -> & Hn). split; [done|]. exists (d :: new). rewrite <-app_assoc. split; [done|by constructor].
  - by intros [= <- <-].
Qed.

(** A planner with the same sources but for their dependencies. *)
Record resolved p q : Prop := {
  resolved_core : map core (sources q) = map core (sources p);
  resolved_byBase : byBase q = byBase p;
  resolved_known U : known U p → known U q;
}.

Lemma resolved_refl p : resolved p p.
Proof. done. Qed.

Lemma resolved_trans p q r : resolved p q → resolved q r → resolved p r.
Proof. intros [H1 H2 H3] [H4 H5 H6]. split; [congruence..|]. auto. Qed.

Lemma resolved_wf p q : wf p → resolved p q → wf q.
Proof. intros Hw [H1 H2 _]. eapply wf_same; [done| |done]. by apply core_base. Qed.

Lemma set_dependencies_resolved deps i p : resolved p (update_source (set_dependencies deps) i p).
Proof. split; [by apply map_alter_same|done|done]. Qed.

Lemma skel_cons_drop s l i (k : list sourceRecord) :
  map skel (s :: l) = drop i (map skel k) →
  (∃ t, k !! i = Some t ∧ skel t = skel s) ∧ map skel l = drop (S i) (map skel k).
Proof.
  intros E. assert (map skel k !! i = Some (skel s)) as Hi.
  { rewrite <-(Nat.add_0_r i), <-lookup_drop, <-E. done. }
  split; [rewrite list_lookup_fmap in Hi; by apply fmap_Some in Hi as (t & ? & ->); eauto|].
  rewrite (drop_S _ _ _ Hi) in E. by injection E.
Qed.

Lemma resolve_pass_spec l p i added q :
  wf p → map skel l = drop i (map skel (sources p)) →
  resolve_pass vercmp arch sourcesDir repositories p i l = Ok (added, q) →
  if added : bool then
    ∃ p1 p2 b, resolved p p1 ∧ asked p1 p2 ∧ fetched p2 q b ∧ ∀ U, aur_universe U → known U p → b ∈ U
  else
    resolved p q ∧
    ∀ j s, sources q !! j = Some s →
      (i ≤ j → dependencies_ok (sources p) s) ∧ (j < i → sources p !! j = Some s).
Proof.
  revert p i. induction l as [|s l IH]; intros p i Hw E; cbn [resolve_pass].
  { intros [= <- <-]. split; [done|]. intros j s Hs. split; [|done]. intros Hij. exfalso.
    apply lookup_lt_Some in Hs. apply (f_equal length) in E. simpl in E.
    rewrite length_drop, length_map in E. lia. }
  destruct (skel_cons_drop s l i (sources p) E) as [(t & Ht & Hsk) El].
  destruct (resolve_specs _ _ _ _ p _ _ _) as [[r p1]|] eqn:Er; [|done]. cbn [mbind result_bind].
  apply resolve_specs_spec in Er; [|done]. destruct r as [deps|].
  - destruct Er as (-> & new & -> & Hnew). simpl in *.
    set (p1 := update_source (set_dependencies new) i p).
    pose proof (set_dependencies_resolved new i p : resolved p p1) as Hr1. intros H.
    apply IH in H; [|by eapply resolved_wf|].
    2: { rewrite El. f_equal. symmetry. apply core_skel. by destruct Hr1. }
    destruct added.
    + destruct H as (p2 & p3 & b & H1 & H2 & H3 & H4). exists p2, p3, b. split_and!; [|done|done|].
      * by eapply resolved_trans.
      * intros U HU Hk. apply H4; [done|]. by apply (resolved_known _ _ Hr1).
    + destruct H as [H1 H2]. split; [by eapply resolved_trans|]. intros j u Hu. destruct (H2 j u Hu) as [H3 H4].
      pose proof (core_skel _ _ (resolved_core _ _ Hr1)) as Hsk1. split.
      * intros Hij. destruct (decide (j = i)) as [->|Hji].
        -- specialize (H4 ltac:(lia)). unfold p1 in H4. simpl in H4.
           rewrite list_lookup_alter_eq, Ht in H4. injection H4 as <-. unfold dependencies_ok. simpl.
           injection Hsk as Hm _ _. by rewrite Hm.
        -- apply (dependencies_ok_skel (sources p1)); [done|]. apply H3. lia.
      * intros Hij. rewrite <-(H4 ltac:(lia)). unfold p1. simpl. rewrite list_lookup_alter_ne by lia. done.
  - destruct Er as (p' & b & Ha & Hf & HU). intros [= <- <-]. exists p, p', b. done.
Qed.

(** The fetched sources of a planner. *)
Definition from_aur (s : sourceRecord) : Prop := ∃ n, fetchAURSource arch sourcesDir n (base_of s) = Ok s.

Definition grown p q : Prop :=
  ∃ new, map core (sources q) = map core (sources p) ++ map core new ∧ Forall from_aur new.

Lemma grown_refl p : grown p p.
Proof. exists []. by rewrite app_nil_r. Qed.

Lemma grown_trans p q r : grown p q → grown q r → grown p r.
Proof.
  intros (n1 & H1 & F1) (n2 & H2 & F2). exists (n1 ++ n2). rewrite H2, H1, map_app, app_assoc.
  split; [done|]. by apply Forall_app.
Qed.

Lemma fetched_grown p q b : fetched p q b → grown p q.
Proof.
  intros (n & s & _ & Hf & ->). exists [s]. simpl. rewrite map_app. split; [done|].
  constructor; [|done]. exists n. by destruct (fetchAURSource_base _ _ _ Hf) as (-> & _).
Qed.

Lemma resolve_all_spec fuel p q :
  wf p → resolve_all vercmp arch sourcesDir repositories fuel p = Some (Ok q) →
  wf q ∧ grown p q ∧ ∀ s, s ∈ sources q → dependencies_ok (sources q) s.
Proof.
  revert p. induction fuel as [|fuel IH]; intros p Hw; cbn [resolve_all]; [done|].
  destruct (resolve_pass _ _ _ _ p 0 (sources p)) as [[added p1]|] eqn:E; [|done].
  apply resolve_pass_spec in E; [|done|done]. destruct added.
  - destruct E as (p2 & p3 & b & Hr & Ha & Hf & _). intros H.
    assert (wf p3) as Hw3.
    { eapply wf_same; [by eapply resolved_wf| |apply Ha]. by rewrite (asked_sources _ _ Ha). }
    apply IH in H as (H1 & H2 & H3); [|by eapply fetched_wf]. split_and!; [done| |done].
    apply (grown_trans _ p1); [|done]. apply fetched_grown in Hf as (new & Hn & Hfa). exists new.
    split; [|done]. rewrite Hn. f_equal. rewrite (asked_sources _ _ Ha). apply Hr.
  - destruct E as [Hr Hd]. intros [= <-]. split_and!; [by eapply resolved_wf| |].
    + exists []. by rewrite app_nil_r, (resolved_core _ _ Hr).
    + intros s [j Hj]%list_elem_of_lookup. apply (dependencies_ok_skel (sources p)).
      * symmetry. apply core_skel, Hr.
      * destruct (Hd j s Hj) as [Hd' _]. apply Hd'. lia.
Qed.

(** The sources grow by one AUR pkgbase at each pass but the last. *)
Lemma resolve_all_fuel U fuel p :
  wf p → aur_universe U → known U p →
  size (list_to_set U ∖ list_to_set (map base_of (sources p)) : gset string) < fuel →
  ∃ r, resolve_all vercmp arch sourcesDir repositories fuel p = Some r.
Proof.
  intros Hw HU. revert p Hw. induction fuel as [|fuel IH]; intros p Hw Hk Hf; [lia|]. cbn [resolve_all].
  destruct (resolve_pass _ _ _ _ p 0 (sources p)) as [[added p1]|] eqn:E; [|eauto].
  apply resolve_pass_spec in E; [|done|done]. destruct added; [|eauto].
  destruct E as (p2 & p3 & b & Hr & Ha & Hfe & Hb).
  assert (wf p3) as Hw3.
  { eapply wf_same; [by eapply resolved_wf| |apply Ha]. by rewrite (asked_sources _ _ Ha). }
  pose proof (fetched_wf _ _ _ Hw3 Hfe) as Hw1. destruct Hfe as (n & s & Hn & Hs & ->).
  assert (map base_of (sources p3) = map base_of (sources p)) as Hbases.
  { rewrite (asked_sources _ _ Ha). apply core_base, Hr. }
  apply IH; [done|change (known U p3); apply (asked_known _ _ Ha); [done|by apply (resolved_known _ _ Hr)]|].
  apply (wf_None p3 b Hw3) in Hn. rewrite Hbases in Hn. specialize (Hb U HU Hk). simpl.
  rewrite map_app, Hbases. simpl. destruct (fetchAURSource_base _ _ _ Hs) as (-> & _).
  eapply Nat.lt_le_trans; [|apply Nat.lt_succ_r, Hf]. apply subset_size. split; [set_solver|].
  intros Hsub. specialize (Hsub b). set_solver.
Qed.
(** ** The requests *)
Record request_inv (local : list sourceRecord) (p : planner) (install : gset string) : Prop := {
  ri_wf : wf p;
  ri_sources : ∃ new, map skel (sources p) = map skel local ++ map skel new ∧ Forall from_aur new;
  ri_install n : n ∈ install ↔ ∃ s, s ∈ sources p ∧ n ∈ explicit s;
  ri_outputs s n : s ∈ sources p → n ∈ explicit s → n ∈ OutputNames (metadata s) arch;
}.

Lemma elem_of_alter (f : sourceRecord → sourceRecord) i l s :
  l !! i = Some s → ∀ t, t ∈ alter f i l ↔ t = f s ∨ ∃ j, j ≠ i ∧ l !! j = Some t.
Proof.
  intros Hi t. rewrite list_elem_of_lookup. split.
  - intros [j Hj]. destruct (decide (j = i)) as [->|Hji].
    + rewrite list_lookup_alter_eq, Hi in Hj. injection Hj as <-. by left.
    + rewrite list_lookup_alter_ne in Hj by done. eauto.
  - intros [->|(j & Hji & Hj)].
    + exists i. by rewrite list_lookup_alter_eq, Hi.
    + exists j. by rewrite list_lookup_alter_ne.
Qed.

Lemma mark_inv local p install i s name :
  request_inv local p install → sources p !! i = Some s → name ∈ OutputNames (metadata s) arch →
  request_inv local (update_source (mark_explicit name) i p) ({[name]} ∪ install).
Proof.
  intros [H1 H2 H3 H4] Hi Hn. pose proof (elem_of_alter (mark_explicit name) i (sources p) s Hi) as Hel.
  assert (∀ t, t ∈ sources p → t = s ∨ ∃ j, j ≠ i ∧ sources p !! j = Some t) as Hold.
  { intros t [j Hj]%list_elem_of_lookup. destruct (decide (j = i)) as [->|]; [left; congruence|right; eauto]. }
  assert (s ∈ sources p) as Hs by by eapply list_elem_of_lookup_2.
  split; simpl.
  - eapply wf_same; [exact H1|by apply map_alter_same|done].
  - destruct H2 as (new & E & F). exists new. split; [|done]. rewrite <-E. by apply map_alter_same.
  - intros n. rewrite elem_of_union, elem_of_singleton, H3. split.
    + intros [->|(t & Ht & Hnt)].
      * exists (mark_explicit name s). rewrite Hel. split; [by left|]. simpl. set_solver.
      * destruct (Hold t Ht) as [->|Hj]; [|exists t; rewrite Hel; split; [by right|done]].
        exists (mark_explicit name s). rewrite Hel. split; [by left|]. simpl. set_solver.
    + intros (t & [->|(j & _ & Hj)]%Hel & Hnt).
      * simpl in Hnt. apply elem_of_union in Hnt as [?%elem_of_singleton|?]; [by left|right; eauto].
      * right. exists t. split; [by eapply list_elem_of_lookup_2|done].
  - intros t n [->|(j & _ & Hj)]%Hel Hnt.
    + simpl in *. apply elem_of_union in Hnt as [->%elem_of_singleton|?]; [done|by eapply H4].
    + eapply H4; [by eapply list_elem_of_lookup_2|done].
Qed.

(** What a request or a pass adds. *)
Lemma grown_inv local p q install :
  request_inv local p install → wf q → grown p q → request_inv local q install.
Proof.
  intros [H1 H2 H3 H4] Hw (new & E & F).
  assert (∀ s, s ∈ sources q → (∃ t, t ∈ sources p ∧ core t = core s) ∨ ∃ t, t ∈ new ∧ core t = core s) as Hq.
  { intros s Hs. assert (core s ∈ map core (sources q)) as Hc by (apply list_elem_of_fmap; eauto).
    rewrite E, elem_of_app, !list_elem_of_fmap in Hc. destruct Hc as [(t & ? & ?)|(t & ? & ?)]; [left|right]; eauto. }
  assert (∀ t, t ∈ sources p → ∃ s, s ∈ sources q ∧ core t = core s) as Hp.
  { intros t Ht. assert (core t ∈ map core (sources q)) as Hc.
    { rewrite E, elem_of_app, !list_elem_of_fmap. left. eauto. }
    apply list_elem_of_fmap in Hc as (s & ? & ?). eauto. }
  assert (∀ t, t ∈ new → explicit t = ∅) as Hnew.
  { intros t Ht. rewrite Forall_forall in F. destruct (F t Ht) as [n Hn]. by apply fetchAURSource_base in Hn as (_ & _ & ?). }
  split; [done| | |].
  - destruct H2 as (new0 & E0 & F0). exists (new0 ++ new). split; [|by apply Forall_app].
    rewrite map_app, app_assoc, <-E0, <-map_app. apply core_skel. by rewrite map_app.
  - intros n. rewrite H3. split.
    + intros (t & Ht & Hn). destruct (Hp t Ht) as (s & Hs & Hc). exists s. split; [done|].
      injection Hc as _ _ _ Hx. by rewrite <-Hx.
    + intros (s & Hs & Hn). destruct (Hq s Hs) as [(t & Ht & Hc)|(t & Ht & Hc)]; injection Hc as _ _ _ Hx.
      * exists t. by rewrite Hx.
      * rewrite <-Hx, (Hnew t Ht) in Hn. by apply not_elem_of_empty in Hn.
  - intros s n Hs Hn. destruct (Hq s Hs) as [(t & Ht & Hc)|(t & Ht & Hc)]; injection Hc as Hm _ _ Hx.
    + rewrite <-Hm. eapply H4; [done|by rewrite Hx].
    + rewrite <-Hx, (Hnew t Ht) in Hn. by apply not_elem_of_empty in Hn.
Qed.

Lemma asked_inv local p q install : request_inv local p install → asked p q → request_inv local q install.
Proof.
  intros [H1 H2 H3 H4] [Es Eb _]. split; rewrite ?Es; [|done..]. eapply wf_same; [done|by rewrite Es|done].
Qed.

Lemma exactSourceCandidates_spec p name kind i :
  i ∈ exactSourceCandidates arch p name kind ↔
  ∃ s, sources p !! i = Some s ∧ src_Type (ref s) = kind ∧ name ∈ OutputNames (metadata s) arch.
Proof.
  unfold exactSourceCandidates. rewrite list_elem_of_fmap. setoid_rewrite list_elem_of_filter.
  split.
  - intros ([j s] & -> & [Ht Hn] & Hin). apply list_elem_of_lookup in Hin as [k Hk].
    rewrite list_lookup_imap in Hk. apply fmap_Some in Hk as (s' & Hs & [= -> ->]). eauto.
  - intros (s & Hs & Ht & Hn). exists (i, s). split_and!; [done..|]. apply list_elem_of_lookup. exists i.
    by rewrite list_lookup_imap, Hs.
Qed.

Lemma request_spec local p install name q install' :
  request_inv local p install → request arch sourcesDir (p, install) name = Ok (q, install') →
  request_inv local q install' ∧ install' = {[name]} ∪ install
  ∧ ∀ U, aur_universe U → known U p → known U q.
Proof.
  intros Hi. unfold request.
  destruct (exactSourceCandidates arch p name SourceLocal) as [|i [|]] eqn:Ec; [| |done].
  - destruct (exactAURPackage p name) as [[entry p1]|] eqn:Ee; [|done]. cbn [mbind result_bind].
    apply exactAURPackage_asked in Ee as [Ha _]. destruct entry as [e|]; [|done].
    pose proof (asked_inv _ _ _ _ Hi Ha) as Hi1.
    destruct (addAURSource _ _ p1 _) as [[i p2]|] eqn:Ed; [|done]. cbn [mbind result_bind].
    destruct (sources p2 !! i) as [s|] eqn:Es; [|done]. case_decide as Hn; [|done]. intros [= <- <-].
    apply addAURSource_spec in Ed; [|apply Hi1].
    assert (request_inv local p2 install ∧ ∀ U, aur_universe U → known U p → known U p2) as [Hi2 Hk].
    { destruct Ed as [[-> _]|[Hf _]]; [split; [done|apply Ha]|]. split.
      - eapply grown_inv; [done|by eapply fetched_wf, Hf; apply Hi1|by eapply fetched_grown].
      - destruct Hf as (n & s' & _ & _ & ->). intros U HU Hk.
        change (known U p1). by apply (asked_known _ _ Ha). }
    split_and!; [by eapply mark_inv|done|done].
  - assert (i ∈ exactSourceCandidates arch p name SourceLocal) as Hin by (rewrite Ec; by left).
    apply exactSourceCandidates_spec in Hin as (s & Hs & _ & Hn). intros [= <- <-].
    split_and!; [by eapply mark_inv|done|done].
Qed.

Lemma requests_spec local requested p install q install' :
  request_inv local p install → foldM (request arch sourcesDir) (p, install) requested = Ok (q, install') →
  request_inv local q install' ∧ (∀ n, n ∈ install' ↔ n ∈ requested ∨ n ∈ install)
  ∧ ∀ U, aur_universe U → known U p → known U q.
Proof.
  revert p install. induction requested as [|name requested IH]; intros p install Hi; cbn [foldM].
  { intros [= <- <-]. split_and!; [done| |done]. intros n. split; [by right|]. intros [Hn|?]; [|done].
    by apply not_elem_of_nil in Hn. }
  destruct (request arch sourcesDir (p, install) name) as [[p1 i1]|] eqn:E; [|done]. cbn [mbind result_bind].
  apply (request_spec local) in E as (H1 & -> & H3); [|done]. intros (H4 & H5 & H6)%IH; [|done].
  split_and!; [done| |auto]. intros n. rewrite H5, elem_of_union, elem_of_singleton, elem_of_cons. tauto.
Qed.

(** ** The plan *)
Lemma elem_of_source_edges l b d :
  d ∈ edges (source_edges l) b ↔
  d ≠ "" ∧ d ≠ b ∧ ∃ s dep, s ∈ l ∧ base_of s = b ∧ dep ∈ dependencies s ∧ ProviderPkgbase dep = d.
Proof.
  unfold source_edges.
  rewrite (foldl_nested dependencies (λ s m d, if decide (ProviderPkgbase d ≠ "" ∧ ProviderPkgbase d ≠ base_of s)
    then push m (base_of s) (ProviderPkgbase d) else m)).
  rewrite (foldl_same _ (λ m sd,
    match (if decide (ProviderPkgbase sd.2 ≠ "" ∧ ProviderPkgbase sd.2 ≠ base_of sd.1)
           then Some (base_of sd.1, ProviderPkgbase sd.2) else None) with
    | Some (j, v) => push m j v | None => m end)) by (intros m sd; by case_decide).
  unfold edges. rewrite lookup_pushes, lookup_empty. simpl. rewrite list_elem_of_omap. split.
  - intros ([s dep] & Hin & Hd). apply elem_of_nested in Hin as [Hs Hdep]. simpl in Hd.
    case_decide as Hc; [|done]. case_decide; [|done]. simplify_eq. destruct Hc. split_and!; [done..|]. eauto 6.
  - intros (H1 & H2 & s & dep & Hs & <- & Hdep & <-). exists (s, dep). split; [by apply elem_of_nested|].
    simpl. rewrite decide_True by done. by rewrite decide_True.
Qed.

Lemma source_edges_keys l b : b ∈ dom (source_edges l) → b ∈ map base_of l.
Proof.
  unfold source_edges.
  assert (∀ s (ds : list Dependency) m, b ∈ dom (foldl (λ m d,
    if decide (ProviderPkgbase d ≠ "" ∧ ProviderPkgbase d ≠ base_of s) then push m (base_of s) (ProviderPkgbase d) else m) m ds)
    → b = base_of s ∨ b ∈ dom m) as H.
  { intros s. induction ds as [|d ds IHd]; intros m; simpl; [by right|]. intros [?|Hm]%IHd; [by left|].
    case_decide; [|by right]. unfold push in Hm. rewrite dom_insert, elem_of_union, elem_of_singleton in Hm. tauto. }
  induction l as [|s l IH] using rev_ind; [simpl; rewrite dom_empty; set_solver|].
  rewrite foldl_app, map_app, elem_of_app. simpl. rewrite list_elem_of_singleton. intros [?|?]%H; [by right|left; auto].
Qed.

Definition planned_of (s : sourceRecord) : PlannedBuild :=
  mkPlannedBuild (base_of s) (sp_Version (metadata s)) (ref s) (OutputNames (metadata s) arch)
    (mapKeys (explicit s)) (dependencies s).

Lemma planned_spec p s : wf p → s ∈ sources p → planned arch p (base_of s) = Ok (planned_of s).
Proof.
  intros Hw [i Hi]%list_elem_of_lookup. unfold planned.
  assert (byBase p !! base_of s = Some i) as ->; [|simpl; by rewrite Hi].
  apply (wf_index p Hw). by rewrite list_lookup_fmap, Hi.
Qed.

(** What a plan gives the run of its builds: each build after those that provide one of its
    dependencies. *)
Record wf_plan (plan : Plan) : Prop := {
  wp_order : BuildOrder_ plan = map Pkgbase (Builds plan);
  wp_NoDup : NoDup (map Pkgbase (Builds plan));
  wp_deps (before after : list PlannedBuild) (b : PlannedBuild) (d : Dependency) : Builds plan = before ++ b :: after → d ∈ Dependencies b → ProviderPkgbase d ≠ "" →
    ProviderPkgbase d = Pkgbase b ∨ ∃ b', b' ∈ before ∧ Pkgbase b' = ProviderPkgbase d;
}.

Lemma resolved_to_base l spec d :
  resolved_to l spec d → ProviderPkgbase d ≠ "" → ∃ s, s ∈ l ∧ base_of s = ProviderPkgbase d.
Proof.
  destruct 1 as [b [[s Hs] Hb]|b _ [[s Hs] Hb]|]; simpl; [| |done]; intros _; exists s; (split; [apply Hs|by apply Hb]).
Qed.

Lemma dependencies_ok_base l s d :
  dependencies_ok l s → d ∈ dependencies s → ProviderPkgbase d ≠ "" → ∃ t, t ∈ l ∧ base_of t = ProviderPkgbase d.
Proof.
  intros H Hd Hne. unfold dependencies_ok in H. apply list_elem_of_lookup in Hd as [i Hi].
  destruct (Forall2_lookup_r _ _ _ _ _ H Hi) as (spec & _ & Hr). by eapply resolved_to_base.
Qed.

Lemma finish_spec p install :
  wf p → (∀ s, s ∈ sources p → dependencies_ok (sources p) s) →
  match finish arch p install with
  | Ok plan => ∃ ss, ss ≡ₚ sources p ∧ Builds plan = map planned_of ss ∧ Install plan = mapKeys install ∧ wf_plan plan
  | Err e => ∃ c, e = ErrGraph (ErrCycle c) ∧ is_cycle (source_edges (sources p)) c
  end.
Proof.
  intros Hw Hok. unfold finish.
  pose proof (BuildOrder_NewGraph (map base_of (sources p)) (source_edges (sources p))) as H. cbv zeta in H.
  destruct (BuildOrder _) as [order|e]; cbn [map_err mbind result_bind].
  2: { destruct H as (c & -> & Hc). exists c. split; [done|]. destruct Hc as [Hc Hn]. split; [|done].
       intros i a b Ha Hb. specialize (Hc i a b Ha Hb).
       destruct (NewGraph_edges (map base_of (sources p)) (source_edges (sources p)) a) as (F & B & EF & _ & HF & _).
       change (edges (g_forward (NewGraph (map base_of (sources p)) (source_edges (sources p)))) a)
         with (Deps (NewGraph (map base_of (sources p)) (source_edges (sources p))) a) in Hc.
       rewrite EF in Hc. destruct (sortedKeys_spec F) as (_ & _ & SF). apply SF, HF in Hc as [Hc _]. exact Hc. }
  destruct H as (Hnd & Hin & Hord & _).
  assert (∀ n, n ∈ nodeSet (map base_of (sources p)) (source_edges (sources p)) ↔ n ∈ map base_of (sources p)) as Hset.
  { intros n. rewrite elem_of_nodeSet. split; [|tauto]. intros [?|[Hn|[m Hm]]]; [done|by apply source_edges_keys|].
    apply elem_of_source_edges in Hm as (Hne & _ & s & dep & Hs & _ & Hdep & <-).
    destruct (dependencies_ok_base _ _ _ (Hok s Hs) Hdep Hne) as (t & Ht & <-). apply list_elem_of_fmap. eauto. }
  assert (order ≡ₚ map base_of (sources p)) as Hp.
  { apply NoDup_Permutation; [done|apply Hw|]. intros n. by rewrite Hin, Hset. }
  apply Permutation_map_inv in Hp as (ss & -> & Hss).
  assert (∀ l acc, (∀ s, s ∈ l → s ∈ sources p) →
    foldM (λ acc base, b ← planned arch p base; Ok (acc ++ [b])) acc (map base_of l) = Ok (acc ++ map planned_of l)) as Hf.
  { induction l as [|s l IH]; intros acc Hl; simpl; [by rewrite app_nil_r|].
    rewrite planned_spec by (done || apply Hl; by left). simpl. rewrite IH by (intros; apply Hl; by right).
    by rewrite <-app_assoc. }
  rewrite Hf by (intros s Hs; by rewrite Hss). cbn [mbind result_bind]. exists ss. simpl.
  assert (map Pkgbase (map planned_of ss) = map base_of ss) as Hpb by by rewrite map_map.
  split_and!; [by symmetry|done|done|]. split; simpl; [by rewrite Hpb|by rewrite Hpb|].
  intros l1 b l2 d E Hd Hne. apply map_eq_app in E as (s1 & s2' & -> & <- & E).
  apply map_eq_cons in E as (s & s2 & -> & <- & <-). simpl in *.
  destruct (decide (ProviderPkgbase d = base_of s)) as [|Hneb]; [by left|right].
  rewrite map_app in Hord. simpl in Hord.
  specialize (Hord _ _ _ (ProviderPkgbase d) eq_refl). rewrite elem_of_source_edges in Hord.
  assert (ProviderPkgbase d ∈ map base_of s1) as Hd1.
  { apply Hord; [|done]. split_and!; [done..|]. exists s, d. split_and!; [|done..]. rewrite Hss. set_solver. }
  apply list_elem_of_fmap in Hd1 as (t & Ht & Ht1). exists (planned_of t). split; [|done].
  apply list_elem_of_fmap. eauto.
Qed.

(** ** Local sources *)
Lemma collectLocalSources_spec srcs local :
  collectLocalSources arch sourcesDir srcs = Ok local →
  NoDup (map base_of local) ∧
  ∀ s, s ∈ local → src_Type (ref s) = SourceLocal ∧ ∀ n, n ∈ explicit s ↔ n ∈ OutputNames (metadata s) arch.
Proof.
  unfold collectLocalSources.
  destruct (foldM (collect_step arch sourcesDir) (0, []) srcs) as [[k records]|] eqn:E; [|done].
  cbn [mbind result_bind]. intros [= <-]. simpl.
  set (P := λ acc : nat * list sourceRecord, NoDup (map base_of acc.2) ∧
    ∀ s, s ∈ acc.2 → src_Type (ref s) = SourceLocal ∧ ∀ n, n ∈ explicit s ↔ n ∈ OutputNames (metadata s) arch).
  assert (P (k, records)) as [H1 H2].
  { refine (foldM_ind P _ _ _ _ _ _ E); [unfold P; simpl; split; [apply NoDup_nil_2|intros s Hs%elem_of_nil; done]|].
    intros [i l] src acc' _ [H1 H2]. unfold collect_step.
    destruct (stage_local _ _) as [input|]; [|done]. cbn [map_err mbind result_bind].
    destruct (openMetadata _ _) as [m|]; [|done]. cbn [map_err mbind result_bind].
    destruct (validateSourceMetadata _ m); [|done]. cbn [mbind result_bind]. case_decide as Hd; [done|].
    destruct (digestTree _ _); [|done]. cbn [map_err mbind result_bind]. intros [= <-]. unfold P; simpl. split.
    - rewrite map_app. apply NoDup_app. split_and!; [done| |apply NoDup_singleton].
      intros x Hx Hx'. apply list_elem_of_singleton in Hx'. subst x. done.
    - intros s [?|Hs]%elem_of_app; [by apply H2|]. apply list_elem_of_singleton in Hs as ->. simpl.
      split; [done|]. intros n. apply elem_of_list_to_set. }
  simpl in *. pose proof (sort_by_perm base_of records) as Hp. split.
  - by rewrite Hp.
  - intros s Hs. rewrite Hp in Hs. by apply H2.
Qed.

Lemma newPlanner_inv local :
  NoDup (map base_of local) →
  (∀ s, s ∈ local → ∀ n, n ∈ explicit s ↔ n ∈ OutputNames (metadata s) arch) →
  request_inv local (newPlanner local) (foldl (λ s r, s ∪ explicit r) ∅ local).
Proof.
  intros Hnd Hout. split.
  - by apply wf_newPlanner.
  - exists []. by rewrite app_nil_r.
  - intros n. simpl. clear Hnd Hout.
    assert (∀ acc : gset string, n ∈ foldl (λ s r, s ∪ explicit r) acc local ↔ n ∈ acc ∨ ∃ s, s ∈ local ∧ n ∈ explicit s) as ->.
    { induction local as [|s local IH]; intros acc; simpl.
      - split; [by left|]. intros [?|(s & Hs & _)]; [done|by apply not_elem_of_nil in Hs].
      - rewrite IH, elem_of_union. setoid_rewrite elem_of_cons. split.
        + intros [[?|?]|(t & ? & ?)]; [by left|right; eauto|right; eauto].
        + intros [?|(t & [->|?] & ?)]; [by left; left|by left; right|right; eauto]. }
    split; [|by right]. intros [Hn|?]; [by apply not_elem_of_empty in Hn|done].
  - intros s n Hs. by apply Hout.
Qed.

(** ** The plan of a request *)
Lemma size_list_to_set_le (U : list string) : size (list_to_set U : gset string) ≤ length U.
Proof.
  induction U as [|u U IH]; cbn [list_to_set length]; [by rewrite size_empty|].
  rewrite size_union_alt, size_singleton.
  assert (size (list_to_set U ∖ {[u]} : gset string) ≤ size (list_to_set U : gset string)); [|lia].
  apply subseteq_size. set_solver.
Qed.

Lemma foldM_normalize names acc acc' :
  foldM normalize_step acc names = Ok acc' → acc' = foldl discover acc names.
Proof.
  revert acc. induction names as [|n names IH]; intros acc; cbn [foldM foldl]; [by intros [= <-]|].
  unfold normalize_step at 1. destruct (validatePackageName n); [|done]. cbn [mbind result_bind]. apply IH.
Qed.

Lemma elem_of_normalizePackages names out : normalizePackages names = Ok out → ∀ n, n ∈ out ↔ n ∈ names.
Proof.
  unfold normalizePackages. destruct (foldM normalize_step _ names) as [acc|] eqn:E; [|done].
  cbn [mbind result_bind]. intros [= <-] n. apply foldM_normalize in E as ->.
  destruct (discover_fold (λ _, []) names ∅ []) as (new & -> & _ & Hnew). simpl.
  rewrite elem_of_sort_strings, Hnew. set_solver.
Qed.

Lemma elem_of_mapKeys n (s : gset string) : n ∈ mapKeys s ↔ n ∈ s.
Proof. unfold mapKeys. by rewrite elem_of_sort_strings, elem_of_range_keys. Qed.

Lemma candidates_perm l k kind spec s : l ≡ₚ k → candidates l kind spec s ↔ candidates k kind spec s.
Proof. intros H. unfold candidates. by rewrite H. Qed.

Lemma resolved_to_perm l k spec d : l ≡ₚ k → resolved_to l spec d → resolved_to k spec d.
Proof.
  intros H. pose proof (λ kind s, candidates_perm l k kind spec s H) as Hc.
  assert (∀ kind b, only_candidate l kind spec b → only_candidate k kind spec b) as Ho.
  { intros kind b [[s Hs] Hb]. split; [exists s; by apply Hc|]. intros t Ht. by apply Hb, Hc. }
  assert (∀ kind, (∀ s, ¬ candidates l kind spec s) → ∀ s, ¬ candidates k kind spec s) as Hn.
  { intros kind Hl s Hs%Hc. by apply (Hl s). }
  destruct 1; [apply resolved_local|apply resolved_built|eapply resolved_repository]; eauto.
Qed.

Lemma dependencies_ok_perm l k s : l ≡ₚ k → dependencies_ok l s → dependencies_ok k s.
Proof. intros H Hs. eapply Forall2_impl; [exact Hs|]. intros spec d. by apply resolved_to_perm. Qed.

(** Where the sources of a plan come from. *)
Definition source_of (local : list sourceRecord) (s : sourceRecord) : Prop :=
  (∃ t, t ∈ local ∧ skel t = skel s) ∨ ∃ t, from_aur t ∧ skel t = skel s.

Lemma request_inv_sources local p install s :
  request_inv local p install → s ∈ sources p → source_of local s.
Proof.
  intros [_ (new & E & F) _ _] Hs. rewrite <-map_app in E.
  destruct (elem_of_skel _ _ s E Hs) as (t & [Ht|Ht]%elem_of_app & Hsk); [left; eauto|right].
  rewrite Forall_forall in F. eauto.
Qed.

(** C16. A plan that is made is sound. Its builds are those of sources, each a local one or
    one fetched from the AUR under its own pkgbase, with distinct pkgbases; every build
    dependency of each is resolved, in order, by the rule of precedence: the local source
    that provides it, else the AUR source of the set that does, else the candidate of the
    first repository that has one, unique at its place; the build order lists the pkgbases
    of the builds, and every build comes after those that provide its dependencies. What is
    to be installed is exactly the packages asked for and the outputs of the local sources,
    and exactly what the builds name as explicit, each among the packages its build
    produces. *)
Theorem plan_sound fuel packages localSources plan :
  prepare vercmp arch sourcesDir repositories fuel packages localSources = Some (Ok plan) →
  ∃ local ss, collectLocalSources arch sourcesDir localSources = Ok local ∧
    Builds plan = map planned_of ss ∧ wf_plan plan ∧
    (∀ s, s ∈ ss → source_of local s ∧ dependencies_ok ss s) ∧
    (∀ n, n ∈ Install plan ↔ n ∈ packages ∨ ∃ s, s ∈ local ∧ n ∈ OutputNames (metadata s) arch) ∧
    (∀ n, n ∈ Install plan ↔ ∃ b, b ∈ Builds plan ∧ n ∈ Explicit b) ∧
    ∀ b n, b ∈ Builds plan → n ∈ Explicit b → n ∈ pb_Packages b.
Proof.
  unfold prepare. destruct (validateTargetArchitecture arch) as [[]|]; [|done]. cbn [mbind result_bind].
  destruct (normalizePackages packages) as [requested|] eqn:En; [|done]. case_decide as He.
  { destruct He as [-> ->]. intros [= <-]. exists [], []. simpl. unfold collectLocalSources. simpl.
    split_and!; try done; [split; simpl; [done|constructor|]| | | |]; try set_solver.
    intros [|] ? ?; done. }
  destruct (collectLocalSources arch sourcesDir localSources) as [local|] eqn:El; [|done].
  apply collectLocalSources_spec in El as Hl. destruct Hl as [Hnd Hl]. unfold build. cbv zeta.
  change (sources (newPlanner local)) with local.
  destruct (foldM _ _ requested) as [[p install]|] eqn:Er; [|done].
  eapply requests_spec in Er as (Hi & Hin & _); [|apply newPlanner_inv; [done|by apply Hl]].
  destruct (resolve_all _ _ _ _ fuel p) as [[q|]|] eqn:Ea; [|done|done]. cbn [mbind option_bind result_bind].
  apply resolve_all_spec in Ea as (Hwq & Hg & Hd); [|apply Hi].
  pose proof (grown_inv _ _ _ _ Hi Hwq Hg) as Hq. pose proof (finish_spec q install Hwq Hd) as Hf.
  intros [= Ef]. rewrite Ef in Hf. destruct Hf as (ss & Hp & Hb & Hins & Hwf).
  pose proof (newPlanner_inv local Hnd (λ s Hs, proj2 (Hl s Hs))) as [_ _ H0 _]. simpl in H0.
  exists local, ss. split_and!; [done|done|done| | | |].
  - intros s Hs. rewrite Hp in Hs. split; [by eapply request_inv_sources|].
    apply (dependencies_ok_perm (sources q)); [done|by apply Hd].
  - intros n. rewrite Hins, elem_of_mapKeys, Hin, H0. rewrite (elem_of_normalizePackages _ _ En). f_equiv.
    f_equiv. intros s. split; intros [Hs Hn]; (split; [done|]); by apply (proj2 (Hl s Hs)).
  - intros n. rewrite Hins, elem_of_mapKeys, (ri_install _ _ _ Hq), Hb. setoid_rewrite list_elem_of_fmap. split.
    + intros (s & Hs & Hn). exists (planned_of s). split; [exists s; by rewrite Hp|]. by apply elem_of_mapKeys.
    + intros (b & (s & -> & Hs) & Hn). exists s. rewrite <-Hp. split; [done|]. by apply elem_of_mapKeys in Hn.
  - intros b n Hbb Hn. rewrite Hb in Hbb. apply list_elem_of_fmap in Hbb as (s & -> & Hs). simpl in *.
    apply elem_of_mapKeys in Hn. eapply ri_outputs; [exact Hq|by rewrite <-Hp|done].
Qed.

(** C18. With an AUR whose answers name finitely many pkgbases, planning ends: each pass
    but the last adds a source under one of them, so one pass more than there are suffices. *)
Theorem plan_terminates U fuel packages localSources :
  aur_universe U → length U < fuel →
  ∃ r, prepare vercmp arch sourcesDir repositories fuel packages localSources = Some r.
Proof.
  intros HU Hf. unfold prepare. destruct (validateTargetArchitecture arch) as [[]|]; cbn [mbind result_bind]; [|eauto].
  destruct (normalizePackages packages) as [requested|]; [|eauto]. case_decide; [eauto|].
  destruct (collectLocalSources arch sourcesDir localSources) as [local|] eqn:El; [|eauto].
  apply collectLocalSources_spec in El as [Hnd Hl]. unfold build. cbv zeta.
  destruct (foldM _ _ requested) as [[p install]|] eqn:Er; [|eauto].
  eapply requests_spec in Er as (Hi & _ & Hk); [|apply newPlanner_inv; [done|by apply Hl]].
  destruct (resolve_all_fuel U fuel p) as [r ->]; [apply Hi|done| | |simpl; eauto].
  - apply Hk; [done|]. intros name es e [Hn|Hn]; simpl in Hn; by rewrite lookup_empty in Hn.
  - eapply Nat.le_lt_trans; [|exact Hf].
    transitivity (size (list_to_set U : gset string)); [apply subseteq_size; set_solver|].
    by apply size_list_to_set_le.
Qed.
End spec.

(** ** An example: a package of the AUR that needs a local source that needs the AUR *)
Definition made_of (base : string) (makedepends : list string) : SRCINFO :=
  mkSRCINFO
    (mkBase base "1" "1" "" None None None None None None None None None None None (Some {["" := makedepends]}) None)
    (SrcinfoPackage.mk base "" (Some ["x86_64"]) "" None None None None None None None None None "" "" 0%Z)
    [SrcinfoPackage.mk base "" None "" None None None None None None None None None "" "" 0%Z].

Definition example_trees : SourceTrees := {|
  clone n url dir := Ok "0123456789abcdef";
  read_srcinfo n dir := Some dir;
  generate_srcinfo := None;
  parse_srcinfo dir :=
    if decide (dir = "/w/sources/aur/aur-root") then Ok (made_of "aur-root" ["local-app"])
    else if decide (dir = "/w/sources/aur/aur-dep") then Ok (made_of "aur-dep" [])
    else if decide (dir = "/w/sources/local/0000") then Ok (made_of "local-app" ["aur-dep"])
    else Err "no source";
  digestTree n dir := Ok "digest";
  stage_local source dir := Ok source;
|}.

Definition example_aur : AURClient := {|
  aur_Info n names :=
    Ok (filter (λ e, aur_Name e ∈ names) [mkAURPkg "aur-root" "aur-root" "1-1" []; mkAURPkg "aur-dep" "aur-dep" "1-1" []]);
  aur_Search n name := Ok [];
  GitBase := "https://aur.example";
|}.

Definition example_prepare : option (result error Plan) :=
  @prepare (λ a b, if decide (a = b) then 0%Z else 1%Z) elements_order example_aur example_trees
    "x86_64" "/w/sources" [] 3 ["aur-root"] ["/home/local-app"].

Lemma example_prepare_order :
  match example_prepare with
  | Some (Ok plan) => BuildOrder_ plan = ["aur-dep"; "local-app"; "aur-root"] ∧ Install plan = ["aur-root"; "local-app"]
  | _ => False
  end.
Proof. by vm_compute. Qed.

Lemma example_prepare_Ok : ∃ plan, example_prepare = Some (Ok plan).
Proof.
  pose proof example_prepare_order as Ho. revert Ho. generalize example_prepare as r. intros [[plan|]|]; [|done..].
  by exists plan.
Qed.

Lemma plan_sound_witness :
  ∃ plan local, example_prepare = Some (Ok plan) ∧ wf_plan plan
    ∧ @collectLocalSources elements_order example_trees "x86_64" "/w/sources" ["/home/local-app"] = Ok local
    ∧ (∀ n, n ∈ Install plan ↔ ∃ b, b ∈ Builds plan ∧ n ∈ Explicit b).
Proof.
  destruct example_prepare_Ok as [plan E].
  destruct (@plan_sound (λ a b, if decide (a = b) then 0%Z else 1%Z) elements_order example_aur example_trees
    "x86_64" "/w/sources" [] 3 ["aur-root"] ["/home/local-app"] plan E) as (local & ss & Hl & _ & Hw & _ & _ & Hi & _).
  exists plan, local. exact (conj E (conj Hw (conj Hl Hi))).
Defined.

Lemma example_universe : @aur_universe example_aur ["aur-root"; "aur-dep"].
Proof.
  intros n names es e [= <-] He. apply list_elem_of_filter in He as [_ He].
  apply elem_of_cons in He as [->|He]; [by left|]. apply list_elem_of_singleton in He as ->. right. by left.
Qed.

Lemma plan_terminates_witness :
  ∃ r, @prepare (λ a b, if decide (a = b) then 0%Z else 1%Z) elements_order example_aur example_trees
    "x86_64" "/w/sources" [] 3 ["aur-root"] ["/home/local-app"] = Some r.
Proof.
  apply (@plan_terminates (λ a b, if decide (a = b) then 0%Z else 1%Z) elements_order example_aur example_trees
    "x86_64" "/w/sources" [] ["aur-root"; "aur-dep"]); [apply example_universe|simpl; lia].
Defined.
