(* ===== verification/BuildSetRun.v ===== *)
(** * Running a build set (ayaka/service/buildset/build.go, manifest.go)

    The builds of a plan are run in order.  Each is given the packages its dependencies
    produced, and what it produces is compared with what its source declares; the packages
    of all builds are then published as a repository with a manifest.  The build backend,
    the files it leaves and the file system are interfaces. *)

From S2P Require Import Prelude GoStrings Pkginfo Srcinfo SourcePackage Package Repo Artifact Worklist BuildSet BuildSetSpec.

(** ** Data *)
Record ManifestPackage := mkManifestPackage {
  mp_Name : string; mp_Version : string; mp_Arch : string; mp_File : string; mp_Signature : string;
  mp_SHA256 : string; mp_BuildInfo : string; mp_Explicit : bool;
}.

Record ManifestBuild := mkManifestBuild {
  mb_Pkgbase : string; mb_Source : Source; mb_Explicit : bool; mb_Log : string;
  mb_Dependencies : list Dependency; mb_Packages : list ManifestPackage;
}.

(** The schema version, the backend's name and the build environment are constants of a run and
    are left out. *)
Record Manifest := mkManifest {
  mf_Arch : string; mf_Repository : string; mf_Path : string; mf_Database : string;
  mf_Install : list string; mf_Builds : list ManifestBuild;
}.

Record builtPackage := mkBuiltPackage {
  bpk_path : string; bpk_signature : string; bpk_buildInfo : string; bpk_manifest : ManifestPackage;
}.

Record builtSource := mkBuiltSource { bs_packages : list builtPackage; bs_log : string }.

Record Spec := mkSpec { SrcDir : string; OutDir : string; spec_Arch : string; InstallPkgs : list string }.

(** A file of the build output: whether it is regular, its metadata, its .BUILDINFO, and
    whether there is a signature next to it and it is regular. *)
Record packageFile := mkPackageFile {
  pf_regular : bool;
  pf_meta : result string BinaryPackageMeta;
  pf_buildInfo : result string string;
  pf_signature : result string (option bool);
}.

(** The operations on the file system that change it, or only fail. *)
Inductive io_op :=
| MkdirAll (dir : string) | OpenLog (path : string) | CloseLog (path : string) | WriteFile (path : string)
| MkdirTemp (dir : string) | CopyFile (source destination : string)
| AddPackages (database : string) (packages : list string) | StatRegular (path : string)
| SyncDirectory (path : string) | Rename (source destination : string)
| ReplaceManifest (path : string) | RemoveAll (path : string).

Inductive run_error :=
| ErrCancelled
| ErrNoSource (base : string)
| ErrIO (msg : string)
| ErrUnknownProvider (current provider : string)
| ErrNotBuilt (base provider : string)
| ErrBackend (base msg : string)
| ErrNoResult
| ErrNotRegular (path : string)
| ErrRead (path msg : string)
| ErrUnexpected (name : string) (expected : list string)
| ErrTwice (name : string)
| ErrMismatch (field name value : string)
| ErrFilename (e : artifact_error)
| ErrFilenameDiffers (path : string)
| ErrMissing (name : string)
| ErrCollision (filename previous base : string).

(** The backend and the host: the build of a spec ([None] is a nil result), the files of
    its output, and the outcome of each file operation. *)
Class BuildHost := {
  backend_build : Spec → result string (option (list string));
  inspect : string → result string packageFile;
  io : io_op → result string unit;
}.

(** A loop whose body may fail or lack fuel. *)
Fixpoint try_each {A S} (f : A → S → option (result run_error S)) (l : list A) (s : S)
    : option (result run_error S) :=
  match l with
  | [] => Some (Ok s)
  | a :: l => r ← f a s; match r with Ok s => try_each f l s | Err e => Some (Err e) end
  end.

(** ** The directories a publication writes *)

(** A repository directory: the file each of its paths was copied from, the packages its
    database was made of, and whether it was flushed after the last of these. *)
Record tree := mkTree { t_files : gmap (list string) string; t_indexed : option (list string); t_synced : bool }.

Definition empty_tree : tree := mkTree ∅ None false.

(** The staging directory, the output directory and the manifest. *)
Record outcome := mkOutcome { os_staging : option tree; os_output : option tree; os_manifest : option Manifest }.

#[export] Instance eta_outcome : Eta outcome := λ o, mkOutcome (os_staging o) (os_output o) (os_manifest o).

Definition copy_in (c : list string * string) (st : outcome) : outcome :=
  st <| os_staging ::= fmap (λ t, mkTree (<[c.1 := c.2]> (t_files t)) (t_indexed t) false) |>.
Definition index_in (packages : list string) (st : outcome) : outcome :=
  st <| os_staging ::= fmap (λ t, mkTree (t_files t) (Some packages) false) |>.
Definition sync_in (st : outcome) : outcome :=
  st <| os_staging ::= fmap (λ t, mkTree (t_files t) (t_indexed t) true) |>.

(** Steps that change these and may fail. *)
Definition pub (A : Type) : Type := outcome → result run_error A * outcome.

#[export] Instance pub_ret : MRet pub := λ A a st, (Ok a, st).
#[export] Instance pub_bind : MBind pub := λ A B f m st,
  match m st with (Ok a, st) => f a st | (Err e, st) => (Err e, st) end.

Definition pfail {A} (e : run_error) : pub A := λ st, (Err e, st).

Fixpoint each {A S} (f : S → A → pub S) (s : S) (l : list A) : pub S :=
  match l with [] => mret s | a :: l => s ← f s a; each f s l end.

(** ** [dependencyArtifacts] *)
Section artifacts.
Context (base : string) (builds : list PlannedBuild) (built : gmap string builtSource).

Definition plannedByBase : gmap string PlannedBuild := foldl (λ m b, <[Pkgbase b := b]> m) ∅ builds.

Definition planned_dependencies (current : string) : list Dependency :=
  match plannedByBase !! current with Some b => Dependencies b | None => [] end.

Definition artifact_paths (provider : string) : list string :=
  match built !! provider with Some b => map bpk_path (bs_packages b) | None => [] end.

(** One dependency: the providers seen and the paths so far. *)
Definition visit_dependency (visit : string → gset string * list string → option (result run_error (gset string * list string)))
    (current : string) (dependency : Dependency) (st : gset string * list string)
    : option (result run_error (gset string * list string)) :=
  let provider := ProviderPkgbase dependency in
  if decide (provider = "" ∨ provider = current) then Some (Ok st)
  else if decide (provider ∈ st.1) then Some (Ok st)
  else if decide (plannedByBase !! provider = None) then Some (Err (ErrUnknownProvider current provider))
  else
    r ← visit provider st;
    match r with
    | Err e => Some (Err e)
    | Ok (seen, paths) =>
        if decide (built !! provider = None) then Some (Err (ErrNotBuilt base provider))
        else Some (Ok ({[provider]} ∪ seen, paths ++ artifact_paths provider))
    end.

Fixpoint visit (fuel : nat) (current : string) (st : gset string * list string)
    : option (result run_error (gset string * list string)) :=
  match fuel with
  | O => None
  | S fuel => try_each (visit_dependency (visit fuel) current) (planned_dependencies current) st
  end.

Definition dependencyArtifacts (fuel : nat) : option (result run_error (list string)) :=
  r ← visit fuel base (∅, []);
  Some (st ← r; Ok (sort_strings st.2)).
End artifacts.

(** ** [validateBuildResult] *)
Section run.
Context {R : RangeOrder} {host : BuildHost}.

Definition do_io (op : io_op) : result run_error unit := map_err ErrIO (io op).

Definition package_step (source : sourceRecord) (arch buildInfoDir : string)
    (acc : gset string * list builtPackage) (packagePath : string) : result run_error (gset string * list builtPackage) :=
  let '(seen, packages) := acc in
  let expected := OutputNames (metadata source) arch in
  file ← map_err (ErrRead packagePath) (inspect packagePath);
  if negb (pf_regular file) then Err (ErrNotRegular packagePath)
  else
  meta ← map_err (ErrRead packagePath) (pf_meta file);
  let info := m_Info meta in
  let name := PKGINFO.PkgName info in
  if decide ((name ∉ expected) ∧ (trim_suffix name "-debug" ∉ expected)) then Err (ErrUnexpected name expected)
  else if decide (name ∈ seen) then Err (ErrTwice name)
  else if decide (PKGINFO.PkgVer info ≠ sp_Version (metadata source)) then Err (ErrMismatch "version" name (PKGINFO.PkgVer info))
  else if decide (PKGINFO.PkgBase info ≠ "" ∧ PKGINFO.PkgBase info ≠ base_of source)
  then Err (ErrMismatch "pkgbase" name (PKGINFO.PkgBase info))
  else if decide (PKGINFO.Arch info ≠ arch ∧ PKGINFO.Arch info ≠ "any")
  then Err (ErrMismatch "architecture" name (PKGINFO.Arch info))
  else
  artifact ← map_err ErrFilename (ParseArtifact (path_base packagePath));
  coordinates ← map_err ErrFilename (Coordinates artifact);
  if negb (MatchesMetadata coordinates name (PKGINFO.PkgVer info) (PKGINFO.Arch info))
  then Err (ErrFilenameDiffers (path_base packagePath))
  else
  _ ← map_err (ErrRead packagePath) (pf_buildInfo file);
  let buildInfoPath := path_join [buildInfoDir; name +:+ ".BUILDINFO"] in
  _ ← do_io (WriteFile buildInfoPath);
  sig ← map_err (ErrRead packagePath) (pf_signature file);
  if decide (sig = Some false) then Err (ErrNotRegular (packagePath +:+ ".sig"))
  else
  let sigPath := match sig with Some _ => packagePath +:+ ".sig" | None => "" end in
  Ok ({[name]} ∪ seen, packages ++ [mkBuiltPackage packagePath sigPath buildInfoPath
    (mkManifestPackage name (PKGINFO.PkgVer info) (PKGINFO.Arch info) "" "" (SHA256 meta) ""
       (bool_decide (name ∈ explicit source)))]).

Definition manifest_name (p : builtPackage) : string := mp_Name (bpk_manifest p).

Definition validateBuildResult (result : option (list string)) (source : sourceRecord) (arch buildInfoDir : string)
    : Prelude.result run_error (list builtPackage) :=
  match result with
  | None => Err ErrNoResult
  | Some paths =>
      _ ← do_io (MkdirAll buildInfoDir);
      acc ← foldM (package_step source arch buildInfoDir) (∅, []) paths;
      match filter (.∉ acc.1) (OutputNames (metadata source) arch) with
      | name :: _ => Err (ErrMissing name)
      | [] => Ok (sort_by manifest_name acc.2)
      end
  end.

(** ** [Build]: the loop *)
Context (arch workspace logsRoot : string) (sources : gmap string sourceRecord) (cancelled : nat → bool).

(** One build: the spec given to the backend, if it gets there, and the outcome. *)
Definition build_planned (fuel n : nat) (plan : Plan) (built : gmap string builtSource) (planned : PlannedBuild)
    : option (option Spec * result run_error builtSource) :=
  let base := Pkgbase planned in
  if cancelled n then Some (None, Err ErrCancelled)
  else
  match sources !! base with
  | None => Some (None, Err (ErrNoSource base))
  | Some source =>
      let outDir := path_join [workspace; "artifacts"; base] in
      let logPath := path_join [logsRoot; base +:+ ".log"] in
      match _ ← do_io (MkdirAll outDir); do_io (OpenLog logPath) with
      | Err e => Some (None, Err e)
      | Ok _ =>
          artifacts ← dependencyArtifacts base (Builds plan) built fuel;
          Some (match artifacts with
          | Err e => (None, Err e)
          | Ok installPackages =>
              let spec := mkSpec (workDir source) outDir arch installPackages in
              (Some spec,
                result ← map_err (ErrBackend base) (backend_build spec);
                _ ← do_io (CloseLog logPath);
                packages ← validateBuildResult result source arch (path_join [workspace; "buildinfo"; base]);
                Ok (mkBuiltSource packages logPath))
          end)
      end
  end.

(** The specs given to the backend, what is built, and the error that stopped the run. *)
Fixpoint run_builds (fuel n : nat) (plan : Plan) (built : gmap string builtSource) (todo : list PlannedBuild)
    : option (list Spec * gmap string builtSource * option run_error) :=
  match todo with
  | [] => Some ([], built, if cancelled n then Some ErrCancelled else None)
  | planned :: todo =>
      '(spec, r) ← build_planned fuel n plan built planned;
      match r with
      | Err e => Some (option_list spec, built, Some e)
      | Ok b =>
          '(specs, built, e) ← run_builds fuel (S n) plan (<[Pkgbase planned := b]> built) todo;
          Some (option_list spec ++ specs, built, e)
      end
  end.

(** ** [publish] *)
Context (repo_name : string) (output staging manifestPath : string) (externalLogs : bool).

(** What a failed [os.RemoveAll] leaves of a directory, and whether a failed replacement of the
    manifest had put it in place, when only the flush of its directory failed. *)
Context (leftover : tree → tree) (replaced : bool).

(** An operation on the file system, and what it does when it succeeds. *)
Definition step (op : io_op) (effect : outcome → outcome) : pub unit := λ st,
  match io op with Ok _ => (Ok tt, effect st) | Err e => (Err (ErrIO e), st) end.

(** [destination] is the file at [rel] under the staging directory. *)
Definition copyFile (source destination : string) (rel : list string) : pub unit :=
  step (CopyFile source destination) (copy_in (rel, source)).

(** The files named so far, with the pkgbase of each, and the packages staged. *)
Definition publish_package (base : string) (acc : gmap string string * list string * list ManifestPackage)
    (artifact : builtPackage) : pub (gmap string string * list string * list ManifestPackage) :=
  let '(filenames, packagePaths, published) := acc in
  let filename := path_base (bpk_path artifact) in
  match filenames !! filename with
  | Some previous => pfail (ErrCollision filename previous base)
  | None =>
      let target := path_join [staging; filename] in
      _ ← copyFile (bpk_path artifact) target [filename];
      let file := path_join [output; filename] in
      _ ← (if decide (bpk_signature artifact = "") then mret tt
           else copyFile (bpk_signature artifact) (target +:+ ".sig") [filename +:+ ".sig"]);
      let infoName := path_base (bpk_buildInfo artifact) in
      _ ← copyFile (bpk_buildInfo artifact) (path_join [staging; "buildinfo"; base; infoName]) ["buildinfo"; base; infoName];
      let m := bpk_manifest artifact in
      mret (<[filename := base]> filenames, packagePaths ++ [target],
          published ++ [mkManifestPackage (mp_Name m) (mp_Version m) (mp_Arch m) file
            (if decide (bpk_signature artifact = "") then "" else file +:+ ".sig") (mp_SHA256 m)
            (path_join [output; "buildinfo"; base; infoName]) (mp_Explicit m)])
  end.

(** What [built] has of a build; a missing entry is Go's zero value. *)
Definition built_of (built : gmap string builtSource) (planned : PlannedBuild) : builtSource :=
  default (mkBuiltSource [] "") (built !! Pkgbase planned).

Definition publish_build (built : gmap string builtSource) (acc : gmap string string * list string * list ManifestBuild)
    (planned : PlannedBuild) : pub (gmap string string * list string * list ManifestBuild) :=
  let '(filenames, packagePaths, builds) := acc in
  let base := Pkgbase planned in
  let log := bs_log (built_of built planned) in
  logPath ← (if externalLogs then mret log
             else _ ← copyFile log (path_join [staging; "logs"; path_base log]) ["logs"; path_base log];
                  mret (path_join [output; "logs"; path_base log]));
  '(filenames, packagePaths, published) ← each (publish_package base) (filenames, packagePaths, []) (bs_packages (built_of built planned));
  mret (filenames, packagePaths,
      builds ++ [mkManifestBuild base (pb_Source planned) (bool_decide (Explicit planned ≠ [])) logPath
                   (Dependencies planned) published]).

(** [os.RemoveAll], whose error is ignored. *)
Definition removed (path : string) (t : option tree) : option tree :=
  match io (RemoveAll path) with Ok _ => None | Err _ => leftover <$> t end.

(** The deferred removal of the staging directory, unless it has been renamed. *)
Definition cleaning {A} (m : pub A) : pub A := λ st,
  let '(r, st) := m st in (r, st <| os_staging ::= λ t, match t with Some _ => removed staging t | None => None end |>).

(** After the rename a failure removes the output again. *)
Definition or_remove {A} (m : pub A) : pub A := λ st,
  let '(r, st) := m st in (r, if is_ok r then st else st <| os_output ::= removed output |>).

Definition replace_manifest (manifest : Manifest) : pub unit := λ st,
  match io (ReplaceManifest manifestPath) with
  | Ok _ => (Ok tt, st <| os_manifest := Some manifest |>)
  | Err e => (Err (ErrIO e), if replaced then st <| os_manifest := Some manifest |> else st)
  end.

Definition publish (plan : Plan) (built : gmap string builtSource) : pub Manifest :=
  _ ← step (MkdirTemp (path_dir output)) (λ st, st <| os_staging := Some empty_tree |>);
  cleaning (
    '(_, packagePaths, builds) ← each (publish_build built) (∅, [], []) (Builds plan);
    let packagePaths := sort_strings packagePaths in
    _ ← step (AddPackages (path_join [staging; DatabaseArchive (Artifacts repo_name)]) packagePaths) (index_in packagePaths);
    _ ← each (λ _ name, step (StatRegular (path_join [staging; name])) id) tt
          (Archives (Artifacts repo_name) ++ Aliases (Artifacts repo_name));
    _ ← step (SyncDirectory staging) sync_in;
    _ ← step (Rename staging output) (λ st, st <| os_output := os_staging st |> <| os_staging := None |>);
    _ ← or_remove (step (SyncDirectory (path_dir output)) id);
    let manifest := mkManifest arch repo_name output (path_join [output; repo_name +:+ ".db"]) (Install plan) builds in
    _ ← or_remove (replace_manifest manifest);
    mret manifest).
End run.

(** ** Dependency artifacts *)
Section providers.
Context (builds : list PlannedBuild).
Implicit Types (x y : PlannedBuild).

(** A build needs another: the edges the plan is ordered by. *)
Definition needs (a b : string) : Prop :=
  ∃ x d, x ∈ builds ∧ Pkgbase x = a ∧ d ∈ Dependencies x ∧ ProviderPkgbase d = b ∧ b ≠ "" ∧ b ≠ a.

Context (Hnd : NoDup (map Pkgbase builds)).
Context (Hdeps : ∀ before after x d, builds = before ++ x :: after → d ∈ Dependencies x → ProviderPkgbase d ≠ "" →
  ProviderPkgbase d = Pkgbase x ∨ ∃ y, y ∈ before ∧ Pkgbase y = ProviderPkgbase d).

Lemma planned_inj x y : x ∈ builds → y ∈ builds → Pkgbase x = Pkgbase y → x = y.
Proof using Hnd.
  clear Hdeps. revert Hnd. induction builds as [|b l IH]; simpl; [by intros _ ?%elem_of_nil|].
  intros [Hb Hl]%NoDup_cons [->|Hx]%elem_of_cons [->|Hy]%elem_of_cons E; [done| | |by apply IH].
  - destruct Hb. rewrite E. by apply list_elem_of_fmap_2.
  - destruct Hb. rewrite <-E. by apply list_elem_of_fmap_2.
Qed.

Lemma lookup_plannedByBase b x : plannedByBase builds !! b = Some x ↔ x ∈ builds ∧ Pkgbase x = b.
Proof using Hnd.
  clear Hdeps. unfold plannedByBase. induction builds as [|y l IH] using rev_ind; simpl.
  { rewrite lookup_empty. split; [done|]. by intros [?%elem_of_nil _]. }
  rewrite foldl_app, elem_of_app, list_elem_of_singleton. simpl.
  rewrite map_app in Hnd. apply NoDup_app in Hnd as (Hl & Hd & _). specialize (IH Hl).
  destruct (decide (b = Pkgbase y)) as [->|Hb].
  - rewrite lookup_insert_eq. split; [intros [= ->]; auto|]. intros [[Hx| ->] E]; [|done].
    destruct (Hd (Pkgbase y)); [rewrite <-E; by apply list_elem_of_fmap_2|by left].
  - rewrite lookup_insert_ne, IH by done. split; [intros [? ?]; auto|]. intros [[?| ->] E]; [done|].
    by destruct Hb.
Qed.

Lemma planned_dependencies_of x : x ∈ builds → planned_dependencies builds (Pkgbase x) = Dependencies x.
Proof using Hnd. intros Hx. unfold planned_dependencies. by rewrite (proj2 (lookup_plannedByBase _ x)). Qed.

Definition closed (seen : gset string) : Prop := ∀ a b, a ∈ seen → needs a b → b ∈ seen.

(** The providers a visit adds to those seen. *)
Record added (seen : gset string) (before : list PlannedBuild) (from : string → Prop) (new : list string) : Prop := {
  added_NoDup : NoDup new;
  added_new b : b ∈ new → (b ∉ seen) ∧ b ∈ map Pkgbase before ∧ from b;
  added_closed : closed (seen ∪ list_to_set new);
}.

Lemma added_nil seen before from : closed seen → added seen before from [].
Proof.
  intros Hc. split; [constructor|intros b ?%elem_of_nil; done|].
  intros a b. rewrite !elem_of_union. intros [Ha|Ha]; [left; eauto|by apply elem_of_list_to_set, elem_of_nil in Ha].
Qed.

Context (base : string) (built : gmap string builtSource).

Lemma try_each_visit step ds x before seen paths :
  (∀ d seen paths, d ∈ ds → closed seen →
    ∃ new, step d (seen, paths) = Some (Ok (seen ∪ list_to_set new, paths ++ concat (map (artifact_paths built) new)))
      ∧ added seen before (tc needs (Pkgbase x)) new
      ∧ (ProviderPkgbase d ≠ "" → ProviderPkgbase d ≠ Pkgbase x → ProviderPkgbase d ∈ seen ∪ list_to_set new)) →
  closed seen →
  ∃ new, try_each step ds (seen, paths)
      = Some (Ok (seen ∪ list_to_set new, paths ++ concat (map (artifact_paths built) new)))
    ∧ added seen before (tc needs (Pkgbase x)) new
    ∧ ∀ d, d ∈ ds → ProviderPkgbase d ≠ "" → ProviderPkgbase d ≠ Pkgbase x → ProviderPkgbase d ∈ seen ∪ list_to_set new.
Proof.
  revert seen paths. induction ds as [|d ds IH]; intros seen paths Hstep Hc; cbn [try_each].
  { exists []. simpl. rewrite app_nil_r, union_empty_r_L. split_and!; [done|by apply added_nil|].
    by intros d ?%elem_of_nil. }
  destruct (Hstep d seen paths) as (n1 & -> & [A1 B1 C1] & D1); [by left|done|]. cbn [mbind option_bind].
  destruct (IH (seen ∪ list_to_set n1) (paths ++ concat (map (artifact_paths built) n1)))
    as (n2 & -> & [A2 B2 C2] & D2); [intros; apply Hstep; [by right|done]|done|].
  exists (n1 ++ n2). rewrite list_to_set_app_L, map_app, concat_app, app_assoc, (assoc_L (∪)). split_and!; [done| |].
  - split.
    + apply NoDup_app. split_and!; [done| |done]. intros b Hb Hb2. apply B2 in Hb2 as [Hb2 _]. set_solver.
    + intros b [Hb|Hb]%elem_of_app; [by apply B1|]. apply B2 in Hb as (H1 & H2 & H3). split_and!; [set_solver|done..].
    + by rewrite list_to_set_app_L, (assoc_L (∪)).
  - intros d' [->|Hd']%elem_of_cons Hne Hnx; [|by apply D2]. specialize (D1 Hne Hnx). set_solver.
Qed.

Lemma visit_spec fuel before x after seen paths :
  builds = before ++ x :: after → length before < fuel → (∀ y, y ∈ before → is_Some (built !! Pkgbase y)) →
  closed seen →
  ∃ new, visit base builds built fuel (Pkgbase x) (seen, paths)
      = Some (Ok (seen ∪ list_to_set new, paths ++ concat (map (artifact_paths built) new)))
    ∧ added seen before (tc needs (Pkgbase x)) new
    ∧ ∀ b, needs (Pkgbase x) b → b ∈ seen ∪ list_to_set new.
Proof.
  revert before x after seen paths. induction fuel as [|fuel IH]; intros before x after seen paths E Hf Hb Hc; [lia|].
  cbn [visit]. assert (x ∈ builds) as Hx by (rewrite E; set_solver). rewrite planned_dependencies_of by done.
  destruct (try_each_visit (visit_dependency base builds built (visit base builds built fuel) (Pkgbase x))
    (Dependencies x) x before seen paths) as (new & Hn & Ha & Hd); [|done|].
  2: { exists new. split_and!; [done|done|]. intros b (x' & d & Hx' & Ex & Hdx & <- & Hne & Hnx).
       rewrite (planned_inj x' x) in Hdx by done. by apply Hd. }
  clear seen paths Hc. intros d seen paths Hd Hc. unfold visit_dependency. cbv zeta. cbn [fst].
  destruct (decide (ProviderPkgbase d = "" ∨ ProviderPkgbase d = Pkgbase x)) as [Hs|Hs].
  { exists []. simpl. rewrite app_nil_r, union_empty_r_L. split_and!; [done|by apply added_nil|tauto]. }
  destruct (decide (ProviderPkgbase d ∈ seen)) as [Hin|Hin].
  { exists []. simpl. rewrite app_nil_r, union_empty_r_L. split_and!; [done|by apply added_nil|done]. }
  destruct (Hdeps before after x d E Hd) as [?|(y & Hy & Ey)]; [tauto..|].
  apply list_elem_of_split in Hy as Hyb. destruct Hyb as (b1 & b2 & ->).
  assert (builds = b1 ++ y :: (b2 ++ x :: after)) as E' by (by rewrite E, <-app_assoc).
  assert (y ∈ builds) as Hyl by (rewrite E'; set_solver).
  rewrite <-Ey, (proj2 (lookup_plannedByBase _ y)) by done. cbn [decide]. rewrite decide_False by done.
  rewrite length_app in Hf. simpl in Hf.
  destruct (IH b1 y (b2 ++ x :: after) seen paths E') as (new & -> & [A B C] & D);
    [lia|intros z Hz; apply Hb; set_solver|done|]. cbn [mbind option_bind].
  destruct (Hb y Hy) as [by_ Hby]. rewrite decide_False by (by rewrite Hby).
  assert (needs (Pkgbase x) (Pkgbase y)) as Hxy.
  { exists x, d. rewrite Ey. split_and!; [done..|tauto|tauto]. }
  assert (Pkgbase y ∉ map Pkgbase b1) as Hyb1.
  { rewrite E', map_app in Hnd. apply NoDup_app in Hnd as (_ & Hn & _). intros Hin'. apply (Hn _ Hin'). simpl. by left. }
  exists (new ++ [Pkgbase y]). rewrite list_to_set_app_L, map_app, concat_app, app_assoc. simpl.
  rewrite app_nil_r, union_empty_r_L, <-!Ey in *. split_and!.
  - do 3 f_equal. set_solver.
  - split.
    + apply NoDup_app. split_and!; [done| |apply NoDup_singleton]. intros b Hbn ->%list_elem_of_singleton.
      by apply B in Hbn as (_ & ? & _).
    + intros b [Hbn|Hbn]%elem_of_app.
      * apply B in Hbn as (H1 & H2 & H3). split_and!; [done|rewrite map_app; set_solver|by eapply tc_l].
      * apply list_elem_of_singleton in Hbn as ->. split_and!; [done| |by constructor].
        apply list_elem_of_fmap. exists y. split; [done|set_solver].
    + intros a b Ha Hab. rewrite list_to_set_app_L in *. simpl in *.
      destruct (decide (a = Pkgbase y)) as [->|Hay]; [specialize (D _ Hab); set_solver|].
      assert (a ∈ seen ∪ list_to_set new) as Ha' by (clear -Ha Hay; set_solver).
      specialize (C a b Ha' Hab). clear -C. set_solver.
  - set_solver.
Qed.

(** The packages of the builds a build needs, directly or not. *)
Definition provided_paths (from : string) (paths : list string) : Prop :=
  ∃ bases, NoDup bases ∧ (∀ b, b ∈ bases ↔ tc needs from b) ∧ (∀ b, b ∈ bases → is_Some (built !! b)) ∧
    paths = sort_strings (concat (map (artifact_paths built) bases)).

Lemma dependencyArtifacts_spec fuel before x after :
  base = Pkgbase x → builds = before ++ x :: after → length before < fuel →
  (∀ y, y ∈ before → is_Some (built !! Pkgbase y)) →
  ∃ paths, dependencyArtifacts base builds built fuel = Some (Ok paths) ∧ provided_paths base paths.
Proof.
  intros Eb E Hf Hb. unfold dependencyArtifacts.
  replace (visit base builds built fuel base (∅, [])) with (visit base builds built fuel (Pkgbase x) (∅, [])) by (by rewrite <-Eb).
  destruct (visit_spec fuel before x after ∅ [] E Hf Hb) as (new & -> & [A B C] & D); [by intros a b ?%elem_of_empty|].
  cbn [mbind option_bind result_bind]. eexists. split; [done|]. exists new. rewrite union_empty_l_L in *.
  split_and!; [done| | |done].
  - intros b. split; [intros Hbn; rewrite Eb; by apply B|]. rewrite Eb. intros Ht.
    assert (∀ a, a = Pkgbase x ∨ a ∈ (list_to_set new : gset string) → ∀ c, needs a c → c ∈ (list_to_set new : gset string)) as Hstep.
    { intros a [->|Ha] c Hac; [by apply D|by eapply C]. }
    apply (elem_of_list_to_set (C:=gset string)).
    assert (∀ a, a = Pkgbase x ∨ a ∈ (list_to_set new : gset string) → tc needs a b → b ∈ (list_to_set new : gset string)) as H.
    { clear Ht. intros a Ha Ht. revert Ha. induction Ht as [a b Hab|a c b Hac _ IH]; intros Ha; [by eapply Hstep|].
      apply IH. right. by eapply Hstep. }
    apply (H (Pkgbase x)); [by left|done].
  - intros b Hbn. apply B in Hbn as (_ & Hbb & _). apply list_elem_of_fmap in Hbb as (y & -> & Hy). by apply Hb.
Qed.
End providers.

(** ** The run *)

(** The errors of the search for artifacts, and of a plan that does not fit its sources. *)
Definition plan_error (e : run_error) : bool :=
  match e with ErrUnknownProvider _ _ | ErrNotBuilt _ _ | ErrNoSource _ => true | _ => false end.

Lemma foldM_error {E A S} (f : S → A → result E S) s l e :
  foldM f s l = Err e → ∃ s a, f s a = Err e.
Proof.
  revert s. induction l as [|a l IH]; intros s; cbn [foldM]; [done|].
  destruct (f s a) as [s'|e'] eqn:Ef; cbn [mbind result_bind]; [apply IH|intros [= ->]; eauto].
Qed.

Section run_spec.
Context {R : RangeOrder} {host : BuildHost}.
Context (arch workspace logsRoot : string) (sources : gmap string sourceRecord) (cancelled : nat → bool).
Context (plan : Plan) (Hplan : wf_plan plan) (Hsources : ∀ b, b ∈ Builds plan → is_Some (sources !! Pkgbase b)).

(** What the backend is given for a build. *)
Definition spec_of (built : gmap string builtSource) (b : PlannedBuild) (sp : Spec) : Prop :=
  OutDir sp = path_join [workspace; "artifacts"; Pkgbase b] ∧ spec_Arch sp = arch ∧
  (∃ s, sources !! Pkgbase b = Some s ∧ SrcDir sp = workDir s) ∧
  provided_paths (Builds plan) built (Pkgbase b) (InstallPkgs sp).

(** What is kept of a build. *)
Definition built_from (b : PlannedBuild) (r : builtSource) : Prop :=
  ∃ sp s paths, sources !! Pkgbase b = Some s ∧ backend_build sp = Ok paths ∧
    SrcDir sp = workDir s ∧
    validateBuildResult paths s arch (path_join [workspace; "buildinfo"; Pkgbase b]) = Ok (bs_packages r).

Lemma provided_paths_mono (b1 b2 : gmap string builtSource) from paths :
  b1 ⊆ b2 → provided_paths (Builds plan) b1 from paths → provided_paths (Builds plan) b2 from paths.
Proof using Type.
  intros Hsub (bases & H1 & H2 & H3 & ->). exists bases. split_and!; [done|done| |].
  - intros b Hb. destruct (H3 b Hb) as [x Hx]. exists x. by eapply lookup_weaken.
  - f_equal. f_equal. apply map_ext_in. intros b Hb%list_elem_of_In. destruct (H3 b Hb) as [x Hx].
    unfold artifact_paths. by rewrite Hx, (lookup_weaken _ _ _ _ Hx Hsub).
Qed.

Lemma spec_of_mono (b1 b2 : gmap string builtSource) b sp : b1 ⊆ b2 → spec_of b1 b sp → spec_of b2 b sp.
Proof using Type. intros Hsub (H1 & H2 & H3 & H4). split_and!; [done..|]. by eapply provided_paths_mono. Qed.

Lemma do_io_error op e : do_io op = Err e → plan_error e = false.
Proof using Type. unfold do_io. destruct (io op); [done|]. by intros [= <-]. Qed.

Lemma validateBuildResult_error res s a dir e : validateBuildResult res s a dir = Err e → plan_error e = false.
Proof using Type.
  unfold validateBuildResult. destruct res as [paths|]; [|by intros [= <-]].
  destruct (do_io (MkdirAll dir)) as [[]|] eqn:E1; cbn [mbind result_bind]; [|intros [= <-]; by eapply do_io_error].
  destruct (foldM _ _ paths) as [acc|e2] eqn:E2; cbn [mbind result_bind].
  - destruct (filter _ _); [done|by intros [= <-]].
  - intros [= <-]. apply foldM_error in E2 as ([seen pk] & path & Hs). revert Hs. unfold package_step. cbv zeta.
    destruct (inspect path) as [file|]; cbn [map_err mbind result_bind]; [|by intros [= <-]].
    destruct (pf_regular file); cbn [negb]; [|by intros [= <-]].
    destruct (pf_meta file) as [meta|]; cbn [map_err mbind result_bind]; [|by intros [= <-]].
    repeat (case_decide; [by intros [= <-]|]).
    destruct (ParseArtifact _); cbn [map_err mbind result_bind]; [|by intros [= <-]].
    destruct (Coordinates _); cbn [map_err mbind result_bind]; [|by intros [= <-]].
    destruct (negb _); [by intros [= <-]|].
    destruct (pf_buildInfo file); cbn [map_err mbind result_bind]; [|by intros [= <-]].
    destruct (do_io (WriteFile _)) as [[]|] eqn:E3; cbn [mbind result_bind]; [|intros [= <-]; by eapply do_io_error].
    destruct (pf_signature file); cbn [map_err mbind result_bind]; [|by intros [= <-]].
    case_decide; [by intros [= <-]|done].
Qed.

Lemma build_planned_spec fuel n built before planned after :
  Builds plan = before ++ planned :: after → length before < fuel →
  (∀ y, y ∈ before → is_Some (built !! Pkgbase y)) →
  ∃ spec r, build_planned arch workspace logsRoot sources cancelled fuel n plan built planned = Some (spec, r) ∧
    (∀ sp, spec = Some sp → spec_of built planned sp) ∧
    match r with
    | Ok b => is_Some spec ∧ built_from planned b
    | Err e => plan_error e = false
    end.
Proof using Hplan Hsources.
  intros E Hf Hb. unfold build_planned. destruct (cancelled n).
  { eexists _, _. by split_and!. }
  destruct (Hsources planned) as [s Hs]; [rewrite E; set_solver|]. rewrite Hs.
  destruct (do_io (MkdirAll _)) as [[]|e1] eqn:E1; cbn [mbind result_bind].
  2: { eexists _, _. split_and!; [done|done|]. by eapply do_io_error. }
  destruct (do_io (OpenLog _)) as [[]|e2] eqn:E2; cbn [mbind result_bind].
  2: { eexists _, _. split_and!; [done|done|]. by eapply do_io_error. }
  destruct (dependencyArtifacts_spec (Builds plan) (wp_NoDup _ Hplan) (wp_deps _ Hplan) (Pkgbase planned) built fuel before
    planned after eq_refl E Hf Hb) as (paths & -> & Hp). cbn [mbind option_bind].
  eexists _, _. split; [done|]. split.
  { intros sp [= <-]. unfold spec_of. simpl. split_and!; [done|done| |done]. eauto. }
  destruct (backend_build _) as [res|] eqn:Er; cbn [map_err mbind result_bind]; [|done].
  destruct (do_io (CloseLog _)) as [[]|e3] eqn:E3; cbn [mbind result_bind]; [|by eapply do_io_error].
  destruct (validateBuildResult _ _ _ _) as [pk|e4] eqn:E4; cbn [mbind result_bind];
    [|by eapply validateBuildResult_error].
  split; [done|]. eexists _, s, res. by split_and!.
Qed.

Lemma run_builds_spec fuel n built before todo :
  Builds plan = before ++ todo → length (Builds plan) ≤ fuel →
  (∀ b, is_Some (built !! b) ↔ b ∈ map Pkgbase before) →
  ∃ specs built' e, run_builds arch workspace logsRoot sources cancelled fuel n plan built todo = Some (specs, built', e) ∧
    built ⊆ built' ∧ length specs ≤ length todo ∧
    (∀ i b sp, todo !! i = Some b → specs !! i = Some sp → spec_of built' b sp) ∧
    (∀ b, b ∈ todo → ∀ r, built' !! Pkgbase b = Some r → built_from b r) ∧
    match e with
    | None => length specs = length todo ∧ ∀ b, is_Some (built' !! b) ↔ b ∈ map Pkgbase (Builds plan)
    | Some e => plan_error e = false
    end.
Proof using Hplan Hsources.
  revert n built before. induction todo as [|planned todo IH]; intros n built before E Hf Hb; cbn [run_builds].
  { rewrite app_nil_r in E. eexists _, _, _. split; [done|]. split_and!; [done|done|done|by intros b ?%elem_of_nil|].
    destruct (cancelled n); [done|]. by rewrite E. }
  assert (length before < fuel) as Hlt by (rewrite E, length_app in Hf; simpl in Hf; lia).
  destruct (build_planned_spec fuel n built before planned todo E Hlt) as (spec & r & -> & Hspec & Hr).
  { intros y Hy. by apply Hb, list_elem_of_fmap_2. }
  cbn [mbind option_bind].
  assert (NoDup (map Pkgbase before ++ Pkgbase planned :: map Pkgbase todo)) as Hnd.
  { pose proof (wp_NoDup _ Hplan) as Hnd. by rewrite E, map_app in Hnd. }
  apply NoDup_app in Hnd as (_ & Hdis & [Hnt _]%NoDup_cons).
  assert (built !! Pkgbase planned = None) as Hnone.
  { apply eq_None_not_Some. intros Hin%Hb. apply (Hdis _ Hin). by left. }
  destruct r as [b|e].
  - destruct Hr as [[sp ->] Hbf].
    destruct (IH (S n) (<[Pkgbase planned := b]> built) (before ++ [planned])) as (specs & built' & e & -> & H1 & H2 & H3 & H4 & H5);
      [by rewrite <-app_assoc|done| |].
    { intros c. rewrite lookup_insert_is_Some', map_app, elem_of_app, Hb. simpl. rewrite list_elem_of_singleton. naive_solver. }
    cbn [mbind option_bind]. eexists _, _, _. split; [done|].
    assert (built ⊆ <[Pkgbase planned := b]> built) as Hs by by apply insert_subseteq.
    split_and!; [by transitivity (<[Pkgbase planned := b]> built)|simpl; lia| | |].
    + intros [|i] c sp' Hc Hsp; simpl in Hc, Hsp; [|by eapply H3]. simplify_eq.
      eapply spec_of_mono; [|by apply Hspec]. by transitivity (<[Pkgbase c := b]> built).
    + intros c [->|Hc]%elem_of_cons r Hrr; [|by apply H4].
      assert (built' !! Pkgbase planned = Some b) as Hp'; [|by simplify_eq].
      eapply lookup_weaken; [|exact H1]. by rewrite lookup_insert_eq.
    + destruct e as [e|]; [done|]. destruct H5 as [H5 H6]. split; [simpl; by rewrite H5|done].
  - eexists _, _, _. split; [done|]. split_and!; [done|destruct spec; simpl; lia| | |done].
    + intros [|i] c sp' Hc Hsp; simpl in Hc; destruct spec as [sp|]; simpl in Hsp; simplify_eq.
      by apply Hspec.
    + intros c Hc r Hrr. exfalso. assert (Pkgbase c ∈ map Pkgbase before) as Hin by (apply Hb; by exists r).
      apply (Hdis _ Hin). change (Pkgbase c ∈ map Pkgbase (planned :: todo)). by apply list_elem_of_fmap_2.
Qed.

(** C17. Running a plan. The run ends; every build handed to the backend is a build of the
    plan, in the order of the plan and in its own output directory, and the packages
    installed before it are those of the builds it needs, directly or through others, each
    once, sorted. What is kept of a build is what the backend produced for its source and
    passed the checks. The run never fails for a provider that is not in the plan, not
    built yet, or for a source that is missing; when it does not fail every build of the
    plan is done. *)
Theorem run_plan fuel :
  length (Builds plan) ≤ fuel →
  ∃ specs built e, run_builds arch workspace logsRoot sources cancelled fuel 0 plan ∅ (Builds plan) = Some (specs, built, e) ∧
    length specs ≤ length (Builds plan) ∧
    (∀ i b sp, Builds plan !! i = Some b → specs !! i = Some sp → spec_of built b sp) ∧
    (∀ b r, b ∈ Builds plan → built !! Pkgbase b = Some r → built_from b r) ∧
    match e with
    | None => length specs = length (Builds plan) ∧ ∀ b, is_Some (built !! b) ↔ b ∈ map Pkgbase (Builds plan)
    | Some e => plan_error e = false
    end.
Proof using Hplan Hsources.
  intros Hf. destruct (run_builds_spec fuel 0 ∅ [] (Builds plan) eq_refl Hf) as (specs & built & e & H1 & _ & H2 & H3 & H4 & H5).
  { intros b. rewrite lookup_empty. simpl. split; [by intros [? ?]|by intros ?%elem_of_nil]. }
  exists specs, built, e. split_and!; [done..| |done]. intros b r Hb. by apply H4.
Qed.
End run_spec.

(** ** The checks on a build's output *)
Section checks.
Context {R : RangeOrder} {host : BuildHost}.

(** A package kept of a build, as it was inspected. *)
Definition checked (source : sourceRecord) (arch : string) (p : builtPackage) : Prop :=
  let m := bpk_manifest p in
  let expected := OutputNames (metadata source) arch in
  ∃ file meta a c,
    inspect (bpk_path p) = Ok file ∧ pf_regular file = true ∧ pf_meta file = Ok meta ∧
    mp_Name m = PKGINFO.PkgName (m_Info meta) ∧ mp_Version m = PKGINFO.PkgVer (m_Info meta) ∧
    mp_Arch m = PKGINFO.Arch (m_Info meta) ∧ mp_SHA256 m = SHA256 meta ∧
    (mp_Name m ∈ expected ∨ trim_suffix (mp_Name m) "-debug" ∈ expected) ∧
    mp_Version m = sp_Version (metadata source) ∧
    (PKGINFO.PkgBase (m_Info meta) = "" ∨ PKGINFO.PkgBase (m_Info meta) = base_of source) ∧
    (mp_Arch m = arch ∨ mp_Arch m = "any") ∧
    ParseArtifact (path_base (bpk_path p)) = Ok a ∧ Coordinates a = Ok c ∧
    MatchesMetadata c (mp_Name m) (mp_Version m) (mp_Arch m) = true ∧
    (bpk_signature p = "" ∧ pf_signature file = Ok None
     ∨ bpk_signature p = bpk_path p +:+ ".sig" ∧ pf_signature file = Ok (Some true)) ∧
    (mp_Explicit m = true ↔ mp_Name m ∈ explicit source).

Lemma package_step_spec source arch dir seen packages path acc' :
  package_step source arch dir (seen, packages) path = Ok acc' →
  ∃ p, acc' = ({[manifest_name p]} ∪ seen, packages ++ [p]) ∧ (manifest_name p ∉ seen) ∧ bpk_path p = path ∧
    checked source arch p.
Proof.
  unfold package_step. cbv zeta.
  destruct (inspect path) as [file|] eqn:Ei; cbn [map_err mbind result_bind]; [|done].
  destruct (pf_regular file) eqn:Er; cbn [negb]; [|done].
  destruct (pf_meta file) as [meta|] eqn:Em; cbn [map_err mbind result_bind]; [|done].
  destruct (decide ((_ ∉ _) ∧ _)) as [|He]; [done|]. destruct (decide (_ ∈ seen)) as [|Hs]; [done|].
  destruct (decide (PKGINFO.PkgVer _ ≠ _)) as [|Hv]; [done|].
  destruct (decide (PKGINFO.PkgBase _ ≠ _ ∧ _)) as [|Hb]; [done|].
  destruct (decide (PKGINFO.Arch _ ≠ _ ∧ _)) as [|Ha]; [done|].
  destruct (ParseArtifact _) as [a|] eqn:Ep; cbn [map_err mbind result_bind]; [|done].
  destruct (Coordinates a) as [c|] eqn:Ec; cbn [map_err mbind result_bind]; [|done].
  destruct (MatchesMetadata _ _ _ _) eqn:Emm; cbn [negb]; [|done].
  destruct (pf_buildInfo file); cbn [map_err mbind result_bind]; [|done].
  destruct (do_io _) as [[]|]; cbn [mbind result_bind]; [|done].
  destruct (pf_signature file) as [sig|] eqn:Esig; cbn [map_err mbind result_bind]; [|done].
  destruct (decide (sig = Some false)) as [|Hsig]; [done|]. intros [= <-].
  eexists (mkBuiltPackage _ _ _ (mkManifestPackage _ _ _ _ _ _ _ _)). split_and!; [reflexivity|done|done|].
  exists file, meta, a, c. simpl.
  apply dec_stable in Hv. split_and!; try done.
  - destruct (decide (PKGINFO.PkgName (m_Info meta) ∈ OutputNames (metadata source) arch)); [by left|right].
    apply dec_stable. tauto.
  - destruct (decide (PKGINFO.PkgBase (m_Info meta) = "")); [by left|right]. apply dec_stable. tauto.
  - destruct (decide (PKGINFO.Arch (m_Info meta) = arch)); [by left|right]. apply dec_stable. tauto.
  - destruct sig as [[]|]; [by right|by destruct Hsig|by left].
  - by rewrite bool_decide_eq_true.
Qed.

(** What a build must produce. The packages kept are exactly the files the backend
    reports, in the order of their names, no name twice; all outputs the source declares
    for the architecture are among them, and every one is such an output or its debug
    package, a regular file with the version of the source, its pkgbase or none, the
    architecture or any, the file name its metadata asks for, and a signature that is a
    regular file or absent; it is marked explicit exactly when the source has it so. *)
Theorem validateBuildResult_spec res source arch dir packages :
  validateBuildResult res source arch dir = Ok packages →
  StronglySorted String.le (map manifest_name packages) ∧ NoDup (map manifest_name packages) ∧
  (∃ paths, res = Some paths ∧ map bpk_path packages ≡ₚ paths) ∧
  (∀ n, n ∈ OutputNames (metadata source) arch → n ∈ map manifest_name packages) ∧
  ∀ p, p ∈ packages → checked source arch p.
Proof.
  unfold validateBuildResult. destruct res as [paths|]; [|done].
  destruct (do_io _) as [[]|]; cbn [mbind result_bind]; [|done].
  destruct (foldM _ _ paths) as [[seen l]|] eqn:E; cbn [mbind result_bind]; [|done].
  destruct (filter _ _) as [|] eqn:Ef; [|done]. cbn [fst snd] in *. intros [= <-].
  assert (∀ ps acc acc', foldM (package_step source arch dir) acc ps = Ok acc' →
    (∀ n, n ∈ acc.1 ↔ n ∈ map manifest_name acc.2) → NoDup (map manifest_name acc.2) →
    (∀ n, n ∈ acc'.1 ↔ n ∈ map manifest_name acc'.2) ∧ NoDup (map manifest_name acc'.2) ∧
    map bpk_path acc'.2 = map bpk_path acc.2 ++ ps ∧
    ∀ p, p ∈ acc'.2 → p ∈ acc.2 ∨ checked source arch p) as Hf.
  { induction ps as [|path ps IH]; intros [s k] acc'; cbn [foldM].
    - intros [= <-] H1 H2. rewrite app_nil_r. split_and!; [done..|]. by left.
    - destruct (package_step source arch dir (s, k) path) as [acc1|] eqn:Es; [|done].
      apply package_step_spec in Es as (p & -> & Hp & <- & Hc). cbn [fst snd]. intros H H1 H2.
      apply IH in H as (A & B & C & D); cbn [fst snd] in *.
      + split_and!; [done|done|by rewrite C, map_app, <-app_assoc|]. intros q [Hq|Hq]%D; [|by right].
        apply elem_of_app in Hq as [?|Hq]; [by left|]. apply list_elem_of_singleton in Hq as ->. by right.
      + intros n. rewrite map_app, elem_of_app, elem_of_union, H1. simpl. rewrite list_elem_of_singleton, elem_of_singleton. tauto.
      + rewrite map_app. apply NoDup_app. split_and!; [done| |apply NoDup_singleton].
        intros n Hn ->%list_elem_of_singleton. by apply Hp, H1. }
  apply Hf in E as (A & B & C & D); cbn [fst snd] in *; [|intros n; simpl; by rewrite elem_of_empty, elem_of_nil|apply NoDup_nil_2].
  pose proof (sort_by_perm manifest_name l) as Hp. split_and!.
  - pose proof (sort_by_sorted manifest_name l) as Hs. clear -Hs. induction Hs as [|x k Hk IH Hx]; simpl; constructor; [done|].
    apply Forall_map. done.
  - by rewrite Hp.
  - exists paths. split; [done|]. rewrite Hp. simpl in C. by rewrite C.
  - intros n Hn. rewrite Hp. apply A. apply dec_stable. intros Hns.
    assert (n ∈ filter (.∉ seen) (OutputNames (metadata source) arch)) as Hin by by apply list_elem_of_filter.
    rewrite Ef in Hin. by apply not_elem_of_nil in Hin.
  - intros p. rewrite Hp. intros [?%elem_of_nil|?]%D; done.
Qed.
End checks.

(** ** The published repository *)
Section published.
Context {R : RangeOrder} {host : BuildHost}.
Context (arch repo_name output staging manifestPath : string) (externalLogs : bool).
Context (leftover : tree → tree) (replaced : bool).

Definition artifact_filename (p : builtPackage) : string := path_base (bpk_path p).

(** The manifest's entry of a package. *)
Definition manifest_entry (base : string) (p : builtPackage) : ManifestPackage :=
  let m := bpk_manifest p in
  let file := path_join [output; artifact_filename p] in
  mkManifestPackage (mp_Name m) (mp_Version m) (mp_Arch m) file
    (if decide (bpk_signature p = "") then "" else file +:+ ".sig") (mp_SHA256 m)
    (path_join [output; "buildinfo"; base; path_base (bpk_buildInfo p)]) (mp_Explicit m).

(** The manifest's entry of a build. *)
Definition entry_of (built : gmap string builtSource) (b : PlannedBuild) (e : ManifestBuild) : Prop :=
  let log := bs_log (built_of built b) in
  mb_Pkgbase e = Pkgbase b ∧ mb_Source e = pb_Source b ∧ mb_Dependencies e = Dependencies b ∧
  (mb_Explicit e = true ↔ Explicit b ≠ []) ∧
  mb_Log e = (if externalLogs then log else path_join [output; "logs"; path_base log]) ∧
  mb_Packages e = map (manifest_entry (Pkgbase b)) (bs_packages (built_of built b)).

(** The files a package and a build bring into the repository, in the order they are copied:
    where each goes, and the file it is a copy of. *)
Definition package_copies (base : string) (p : builtPackage) : list (list string * string) :=
  [([artifact_filename p], bpk_path p)]
  ++ (if decide (bpk_signature p = "") then [] else [([artifact_filename p +:+ ".sig"], bpk_signature p)])
  ++ [(["buildinfo"; base; path_base (bpk_buildInfo p)], bpk_buildInfo p)].

Definition build_copies (built : gmap string builtSource) (b : PlannedBuild) : list (list string * string) :=
  let r := built_of built b in
  (if externalLogs then [] else [(["logs"; path_base (bs_log r)], bs_log r)])
  ++ concat (map (package_copies (Pkgbase b)) (bs_packages r)).

Definition copied (l : list (list string * string)) (m : gmap (list string) string) : gmap (list string) string :=
  foldl (λ m c, <[c.1 := c.2]> m) m l.

(** The repository of a plan: these files, and a database of every package, flushed. *)
Definition repository (built : gmap string builtSource) (builds : list PlannedBuild) : tree :=
  mkTree (copied (concat (map (build_copies built) builds)) ∅)
    (Some (sort_strings (map (λ p, path_join [staging; artifact_filename p]) (concat (map (bs_packages ∘ built_of built) builds))))) true.

(** [m] only copies files into the staging directory, and which when it succeeds. *)
Definition fills {A} (m : pub A) (P : list (list string * string) → A → Prop) : Prop :=
  ∀ st, ∃ l, (m st).2 = foldl (λ st c, copy_in c st) st l ∧ ∀ a, (m st).1 = Ok a → P l a.

Lemma fills_mono {A} (m : pub A) (P Q : _ → A → Prop) : fills m P → (∀ l a, P l a → Q l a) → fills m Q.
Proof. intros Hm H st. destruct (Hm st) as (l & E & HP). exists l. auto. Qed.

Lemma fills_ret {A} (a : A) (P : _ → A → Prop) : P [] a → fills (mret a) P.
Proof. intros H st. exists []. split; [done|]. by intros a' [= <-]. Qed.

Lemma fills_fail {A} e (P : _ → A → Prop) : fills (pfail e) P.
Proof. intros st. by exists []. Qed.

Lemma fills_bind {A B} (m : pub A) (f : A → pub B) P Q :
  fills m P → (∀ l a, P l a → fills (f a) (λ k, Q (l ++ k))) → fills (m ≫= f) Q.
Proof.
  intros Hm Hf st. destruct (Hm st) as (l & E & HP). unfold mbind, pub_bind.
  destruct (m st) as [[a|e] st1]; cbn [fst snd] in *; subst st1; [|by exists l].
  destruct (Hf l a (HP a eq_refl) (foldl (λ st c, copy_in c st) st l)) as (k & E & HQ).
  exists (l ++ k). by rewrite foldl_app.
Qed.

Lemma fills_copy source destination rel : fills (copyFile source destination rel) (λ l _, l = [(rel, source)]).
Proof. intros st. unfold copyFile, step. case_match; [by exists [(rel, source)]|by exists []]. Qed.

Lemma publish_package_fills base names paths entries p :
  fills (publish_package output staging base (names, paths, entries) p) (λ l acc, l = package_copies base p ∧
    names !! artifact_filename p = None ∧
    acc = (<[artifact_filename p := base]> names, paths ++ [path_join [staging; artifact_filename p]], entries ++ [manifest_entry base p])).
Proof.
  unfold publish_package. cbv zeta. fold (artifact_filename p).
  destruct (names !! artifact_filename p) eqn:En; [apply fills_fail|].
  eapply fills_bind; [apply fills_copy|]. intros l1 _ ->.
  eapply (fills_bind _ _ (λ l _, l = if decide (bpk_signature p = "") then [] else [([artifact_filename p +:+ ".sig"], bpk_signature p)])).
  { case_decide; [by apply fills_ret|apply fills_copy]. }
  intros l2 _ ->. eapply fills_bind; [apply fills_copy|]. intros l3 _ ->. apply fills_ret.
  unfold package_copies. by rewrite app_nil_r.
Qed.

Lemma publish_packages_fills base l names paths entries :
  fills (each (publish_package output staging base) (names, paths, entries) l) (λ k acc, k = concat (map (package_copies base) l) ∧
    ∃ names', acc = (names', paths ++ map (λ p, path_join [staging; artifact_filename p]) l, entries ++ map (manifest_entry base) l) ∧
    NoDup (map artifact_filename l) ∧ (∀ f, f ∈ map artifact_filename l → names !! f = None) ∧
    ∀ f, is_Some (names' !! f) ↔ is_Some (names !! f) ∨ f ∈ map artifact_filename l).
Proof.
  revert names paths entries. induction l as [|p l IH]; intros names paths entries; cbn [each].
  { apply fills_ret. split; [done|]. exists names. rewrite !app_nil_r. split_and!; [done|constructor|by intros f ?%elem_of_nil|].
    intros f. simpl. rewrite elem_of_nil. tauto. }
  eapply fills_bind; [apply publish_package_fills|]. intros k1 acc (-> & En & ->).
  eapply fills_mono; [apply IH|]. intros k acc (-> & names' & -> & H1 & H2 & H3). split; [done|].
  exists names'. rewrite <-!app_assoc. split_and!; [done| | |].
  - simpl. apply NoDup_cons. split; [|done]. intros Hin%H2. by rewrite lookup_insert_eq in Hin.
  - simpl. intros f [->|Hf]%elem_of_cons; [done|]. apply H2 in Hf.
    by apply lookup_insert_None in Hf as [? _].
  - intros f. simpl. rewrite H3, lookup_insert_is_Some', elem_of_cons. naive_solver.
Qed.

Lemma publish_builds_fills built l names paths entries :
  let arts := concat (map (bs_packages ∘ built_of built) l) in
  fills (each (publish_build output staging externalLogs built) (names, paths, entries) l) (λ k acc,
    k = concat (map (build_copies built) l) ∧
    ∃ names' new, acc = (names', paths ++ map (λ p, path_join [staging; artifact_filename p]) arts, entries ++ new) ∧
      Forall2 (entry_of built) l new ∧
      NoDup (map artifact_filename arts) ∧ (∀ f, f ∈ map artifact_filename arts → names !! f = None) ∧
      ∀ f, is_Some (names' !! f) ↔ is_Some (names !! f) ∨ f ∈ map artifact_filename arts).
Proof.
  revert names paths entries. induction l as [|b l IH]; intros names paths entries; cbn [each map concat].
  { apply fills_ret. split; [done|]. exists names, []. rewrite !app_nil_r. split_and!; [done|constructor|constructor|by intros f ?%elem_of_nil|].
    intros f. simpl. rewrite elem_of_nil. tauto. }
  set (log := bs_log (built_of built b)).
  eapply (fills_bind _ _ (λ k acc, k = build_copies built b ∧ ∃ n1 e, acc = (n1, paths ++ map (λ p, path_join [staging; artifact_filename p]) (bs_packages (built_of built b)), entries ++ [e]) ∧
    entry_of built b e ∧ NoDup (map artifact_filename (bs_packages (built_of built b))) ∧
    (∀ f, f ∈ map artifact_filename (bs_packages (built_of built b)) → names !! f = None) ∧
    ∀ f, is_Some (n1 !! f) ↔ is_Some (names !! f) ∨ f ∈ map artifact_filename (bs_packages (built_of built b)))).
  { unfold publish_build. cbv zeta. fold log.
    eapply (fills_bind _ _ (λ k p, k = (if externalLogs then [] else [(["logs"; path_base log], log)])
      ∧ p = if externalLogs then log else path_join [output; "logs"; path_base log])).
    { destruct externalLogs; [by apply fills_ret|]. eapply fills_bind; [apply fills_copy|]. intros k _ ->. by apply fills_ret. }
    intros k1 logPath [-> ->]. eapply fills_bind; [apply publish_packages_fills|].
    intros k2 acc (-> & n1 & -> & A & B & C). apply fills_ret. rewrite app_nil_r. split; [done|].
    eexists n1, _. split_and!; [reflexivity| |done..]. unfold entry_of. simpl. split_and!; try done. by rewrite bool_decide_eq_true. }
  intros k1 acc1 (-> & n1 & e & -> & He & A1 & B1 & C1).
  eapply fills_mono; [apply IH|]. intros k acc (-> & n2 & new & -> & F2 & A2 & B2 & C2). split; [done|].
  eexists n2, (_ :: new). unfold compose at 1 2 3 4. rewrite ?map_app. split_and!; [by rewrite <-!app_assoc|by constructor| | |].
  - apply NoDup_app. split_and!; [done| |done]. intros f Hf Hf2%B2.
    apply (eq_None_not_Some (n1 !! f)) in Hf2. apply Hf2, C1. by right.
  - intros f [Hf|Hf]%elem_of_app; [by apply B1|]. apply B2 in Hf. apply eq_None_not_Some. intros Hn.
    apply (eq_None_not_Some (n1 !! f)) in Hf. apply Hf, C1. by left.
  - intros f. rewrite C2, C1, elem_of_app. tauto.
Qed.

(** The staging directory after copies. *)
Lemma copied_in l t o m :
  ∃ b, foldl (λ st c, copy_in c st) (mkOutcome (Some t) o m) l = mkOutcome (Some (mkTree (copied l (t_files t)) (t_indexed t) b)) o m.
Proof.
  revert t. induction l as [|c l IH]; intros t; [exists (t_synced t); by destruct t|].
  cbn [foldl]. destruct (IH (mkTree (<[c.1:=c.2]> (t_files t)) (t_indexed t) false)) as [b E]. by exists b.
Qed.

Lemma each_stat names st : let '(r, st') := each (λ _ name, step (StatRegular (path_join [staging; name])) id) tt names st in
  st' = st ∧ (r = Ok tt → ∀ name, name ∈ names → io (StatRegular (path_join [staging; name])) = Ok tt).
Proof.
  induction names as [|n names IH]; cbn [each]; [split; [done|]; by intros _ ? ?%elem_of_nil|].
  unfold mbind, pub_bind, step at 1. destruct (io (StatRegular _)) as [[]|e] eqn:E; [|done]. cbn [id].
  destruct (each _ tt names st) as [r st']. destruct IH as [-> IH]. split; [done|].
  intros Hr n' [->|Hn]%elem_of_cons; [done|by apply IH].
Qed.

(** No directory is left at [path], or removing it failed. *)
Definition gone (path : string) (t : option tree) : Prop := t = None ∨ is_ok (io (RemoveAll path)) = false.

(** How a publication that starts with no output and no manifest ends. *)
Definition published (plan : Plan) (built : gmap string builtSource) (r : result run_error Manifest) (st : outcome) : Prop :=
  match r with
  | Ok m =>
      st = mkOutcome None (Some (repository built (Builds plan))) (Some m) ∧
      (∀ name, name ∈ Archives (Artifacts repo_name) ++ Aliases (Artifacts repo_name) → io (StatRegular (path_join [staging; name])) = Ok tt) ∧
      (∃ builds, m = mkManifest arch repo_name output (path_join [output; repo_name +:+ ".db"]) (Install plan) builds
        ∧ Forall2 (entry_of built) (Builds plan) builds) ∧
      NoDup (map artifact_filename (concat (map (bs_packages ∘ built_of built) (Builds plan))))
  | Err e =>
      gone staging (os_staging st) ∧ gone output (os_output st) ∧
      ∀ m, os_manifest st = Some m → replaced = true ∧ is_ok (io (ReplaceManifest manifestPath)) = false
  end.

Lemma removed_gone path t : gone path (removed leftover path t).
Proof. unfold gone, removed. destruct (io (RemoveAll path)); auto. Qed.

(** A failure before the rename leaves what was there, but for the staging directory. *)
Lemma published_early plan built e t : published plan built (Err e) (mkOutcome (removed leftover staging (Some t)) None None).
Proof. split_and!; [apply removed_gone|by left|by intros m]. Qed.

(** C19. Publishing is all or nothing, but for the manifest and for a removal that itself
    fails, which the code ignores. When it succeeds the output directory is exactly the repository
    of the plan: a copy of every package, with its signature and its .BUILDINFO and, unless they
    are kept elsewhere, of the logs, and a database that was made of all these packages, has all
    its files and was flushed before the directory was put in place; the manifest is there with an
    entry for each build of the plan, in order, with every package the build produced; and no two
    packages of the run have the same file name. When it fails there is neither a staging nor an
    output directory, or removing it failed; a manifest is left only when its own replacement
    failed after the file was put in place. *)
Theorem publish_spec plan built :
  let '(r, st) := publish arch repo_name output staging manifestPath externalLogs leftover replaced plan built (mkOutcome None None None) in
  published plan built r st.
Proof.
  unfold publish, mbind at 1, pub_bind at 1, step at 1. destruct (io (MkdirTemp _)) as [[]|]; [|split_and!; [by left|by left|by intros m]].
  unfold cleaning. cbn beta. change ((mkOutcome None None None) <| os_staging := Some empty_tree |>) with (mkOutcome (Some empty_tree) None None).
  unfold mbind at 1, pub_bind at 1.
  destruct (publish_builds_fills built (Builds plan) ∅ [] [] (mkOutcome (Some empty_tree) None None)) as (l & El & HP).
  destruct (each _ _ _ _) as [r st1]. cbn [fst snd] in *. destruct (copied_in l empty_tree None None) as [b Eb]. rewrite Eb in El. subst st1.
  destruct r as [acc|]; [|apply published_early].
  destruct (HP acc eq_refl) as (-> & names & builds & -> & F & Hnd & _). cbn [app]. clear HP Eb.
  unfold mbind at 1, pub_bind at 1, step at 1. destruct (io (AddPackages _ _)) as [[]|]; [|apply published_early].
  unfold mbind at 1, pub_bind at 1. match goal with |- context [each ?f tt ?n ?st] => pose proof (each_stat n st) as Hs; destruct (each f tt n st) as [[[]|] st2] end;
    destruct Hs as [-> Hs]; [|apply published_early].
  unfold mbind at 1, pub_bind at 1, step at 1. destruct (io (SyncDirectory staging)) as [[]|]; [|apply published_early].
  unfold mbind at 1, pub_bind at 1, step at 1. destruct (io (Rename _ _)) as [[]|]; [|apply published_early].
  unfold mbind at 1, pub_bind at 1, or_remove at 1, step at 1.
  destruct (io (SyncDirectory _)) as [[]|]; [|split_and!; [by left|apply removed_gone|by intros m]].
  unfold mbind, pub_bind, or_remove, replace_manifest. destruct (io (ReplaceManifest _)) as [[]|] eqn:Er.
  - split_and!; [done|by apply Hs|by exists builds|done].
  - destruct replaced eqn:Erep; (split_and!; [by left|apply removed_gone|]); rewrite Er; [done|by intros m].
Qed.
End published.


(** ** An example: a local source that needs another *)
Definition example_source (base : string) : sourceRecord :=
  mkSourceRecord (mkSourcePackage ("/w/sources/local/" +:+ base) (made_of base [])) (mkSource SourceLocal ("/src/" +:+ base) "" "" "d")
    ("/w/sources/local/" +:+ base) {[base]} [].

Definition example_sources : gmap string sourceRecord :=
  {["provider" := example_source "provider"; "consumer" := example_source "consumer"]}.

Definition example_builds : list PlannedBuild :=
  [mkPlannedBuild "provider" "1-1" (ref (example_source "provider")) ["provider"] ["provider"] [];
   mkPlannedBuild "consumer" "1-1" (ref (example_source "consumer")) ["consumer"] ["consumer"]
     [mkDependency "provider" "local" "provider" "provider" ""]].

Definition example_run_plan : Plan :=
  mkPlan "x86_64" ["consumer"; "provider"] ["provider"; "consumer"] example_builds.

(** A backend that leaves one package in the output directory. *)
Definition example_host : BuildHost := {|
  backend_build sp := Ok (Some [OutDir sp +:+ "/" +:+ path_base (SrcDir sp) +:+ "-1-1-x86_64.pkg.tar.zst"]);
  inspect path :=
    let name := path_base (path_dir path) in
    Ok (mkPackageFile true (Ok (mkMeta path 0 "sum"
      (PKGINFO.mk name name "1-1" "" "" 0 "" 0 "x86_64" [] [] [] [] [] [] [] [] [] [] ∅ "pkg") [])) (Ok "") (Ok None));
  io op := Ok tt;
|}.

Definition example_run : option (list Spec * gmap string builtSource * option run_error) :=
  @run_builds elements_order example_host "x86_64" "/w" "/w/logs" example_sources (λ _, false) 2 0 example_run_plan ∅
    example_builds.

Example example_run_installs :
  match example_run with
  | Some (specs, _, None) => map InstallPkgs specs = [[]; ["/w/artifacts/provider/provider-1-1-x86_64.pkg.tar.zst"]]
  | _ => False
  end.
Proof. by vm_compute. Qed.

Lemma example_wf_plan : wf_plan example_run_plan.
Proof.
  split; [done|apply (bool_decide_unpack _); by vm_compute|].
  unfold example_run_plan, example_builds. simpl. intros before after b d E Hd Hne.
  destruct before as [|b1 [|b2 before]]; simpl in E; simplify_eq; simpl in Hd.
  - by apply elem_of_nil in Hd.
  - apply list_elem_of_singleton in Hd as ->. right. eexists. split; [by left|done].
  - by destruct before.
Qed.

Lemma example_sources_found : ∀ b, b ∈ Builds example_run_plan → is_Some (example_sources !! Pkgbase b).
Proof.
  unfold example_run_plan, example_builds. simpl. intros b [->|[->|Hb%elem_of_nil]%elem_of_cons]%elem_of_cons; [| |done]; simpl.
  - exists (example_source "provider"). by vm_compute.
  - exists (example_source "consumer"). by vm_compute.
Qed.

Lemma run_plan_witness :
  ∃ specs built e, example_run = Some (specs, built, e) ∧
    ∀ b r, b ∈ example_builds → built !! Pkgbase b = Some r →
      @built_from elements_order example_host "x86_64" "/w" example_sources b r.
Proof.
  destruct (@run_plan elements_order example_host "x86_64" "/w" "/w/logs" example_sources (λ _, false) example_run_plan
    example_wf_plan example_sources_found 2 ltac:(simpl; lia)) as (specs & built & e & H1 & _ & _ & H4 & _).
  exists specs, built, e. exact (conj H1 H4).
Defined.

Definition example_checked : result run_error (list builtPackage) :=
  @validateBuildResult elements_order example_host (Some ["/w/artifacts/provider/provider-1-1-x86_64.pkg.tar.zst"])
    (example_source "provider") "x86_64" "/w/buildinfo/provider".

Definition example_package : builtPackage :=
  mkBuiltPackage "/w/artifacts/provider/provider-1-1-x86_64.pkg.tar.zst" "" "/w/buildinfo/provider/provider.BUILDINFO"
    (mkManifestPackage "provider" "1-1" "x86_64" "" "" "sum" "" true).

Lemma example_checked_value : example_checked = Ok [example_package].
Proof. by vm_compute. Qed.

Lemma validateBuildResult_spec_witness :
  example_checked = Ok [example_package] ∧
  @checked elements_order example_host (example_source "provider") "x86_64" example_package.
Proof.
  pose proof example_checked_value as E.
  destruct (@validateBuildResult_spec elements_order example_host _ _ _ _ _ E) as (_ & _ & _ & _ & H).
  split; [exact E|apply H; by left].
Defined.

Definition example_publish (r : io_op → result string unit) (leftover : tree → tree) : result run_error Manifest * outcome :=
  @publish {| backend_build _ := Ok None; inspect _ := Err ""; io := r |} "x86_64" "local" "/out/repo" "/out/.repo.staging"
    "/out/manifest.json" false leftover false example_run_plan
    {["provider" := mkBuiltSource [example_package] "/w/logs/provider.log"; "consumer" := mkBuiltSource [] "/w/logs/consumer.log"]}
    (mkOutcome None None None).

(** The files of the repository. *)
Example example_published :
  match example_publish (λ _, Ok tt) id with
  | (Ok _, st) => (λ t, (t_files t !! ["provider-1-1-x86_64.pkg.tar.zst"], t_indexed t)) <$> os_output st
      = Some (Some "/w/artifacts/provider/provider-1-1-x86_64.pkg.tar.zst", Some ["/out/.repo.staging/provider-1-1-x86_64.pkg.tar.zst"])
  | _ => False
  end.
Proof. by vm_compute. Qed.

(** A failed removal after a failed flush leaves the repository. *)
Example example_removal_fails :
  match example_publish (λ op, match op with SyncDirectory "/out" | RemoveAll _ => Err "EIO" | _ => Ok tt end) id with
  | (Err _, st) => is_Some (os_output st)
  | _ => False
  end.
Proof. vm_compute. by eexists. Qed.
