(* ===== verification/Aurweb.v ===== *)
(** * The AUR web interface (pkg/aurweb)

    Records, matching, records of a .SRCINFO, the RPC of the server with its fallback to an
    upstream, the redirects of git clones, the bulk dumps and the rate limiter.  The
    backend, the upstream, Unicode case folding and the JSON decoder are interfaces; a
    request is what [net/http] has parsed of it. *)

From S2P Require Import Prelude GoStrings Srcinfo.

(** ** [pkg.go] *)
Record Pkg := mkPkg {
  ID : Z; Name : string; PackageBaseID : Z; PackageBase : string; pkg_Version : string;
  Description : string; pkg_URL : string; NumVotes : Z;
  Popularity : Z; (* the bits of a float64 that is only copied *)
  OutOfDate : Z;
  Maintainer : string; Submitter : string; FirstSubmitted : Z; LastModified : Z; URLPath : string;
  pkg_Depends : list string; pkg_MakeDepends : list string; pkg_CheckDepends : list string;
  pkg_OptDepends : list string; pkg_Conflicts : list string; pkg_Provides : list string;
  pkg_Replaces : list string; pkg_Groups : list string; pkg_License : list string;
  Keywords : list string; CoMaintainers : list string;
}.

#[export] Instance eta_Pkg : Eta Pkg := λ p,
  mkPkg (ID p) (Name p) (PackageBaseID p) (PackageBase p) (pkg_Version p) (Description p) (pkg_URL
    p) (NumVotes p) (Popularity p) (OutOfDate p) (Maintainer p) (Submitter p) (FirstSubmitted p)
    (LastModified p) (URLPath p) (pkg_Depends p) (pkg_MakeDepends p) (pkg_CheckDepends p)
    (pkg_OptDepends p) (pkg_Conflicts p) (pkg_Provides p) (pkg_Replaces p) (pkg_Groups p)
    (pkg_License p) (Keywords p) (CoMaintainers p).

(** *** The records of a response *)

(** A column that is null when empty. *)
Definition nullStr (s : string) : option string := if decide (s = "") then None else Some s.
Definition outOfDate (ts : Z) : option Z := if (0 <? ts)%Z then Some ts else None.

Record searchResult := mkSearchResult {
  r_ID : Z; r_Name : string; r_PackageBaseID : Z; r_PackageBase : string; r_Version : string;
  r_Description : option string; r_URL : option string; r_NumVotes : Z; r_Popularity : Z; r_OutOfDate : option Z; r_Maintainer : option string;
  r_FirstSubmitted : Z; r_LastModified : Z; r_URLPath : string;
}.

(** A relation is left out when empty: [None]. *)
Record infoResult := mkInfoResult {
  i_search : searchResult; i_Submitter : option string; i_License : list string; i_Keywords : list string;
  i_relations : list (string * list string);
}.

Definition base (p : Pkg) : searchResult :=
  mkSearchResult (ID p) (Name p) (PackageBaseID p) (PackageBase p) (pkg_Version p) (nullStr (Description p))
    (nullStr (pkg_URL p)) (NumVotes p) (Popularity p) (outOfDate (OutOfDate p)) (nullStr (Maintainer p)) (FirstSubmitted p) (LastModified p) (URLPath p).

Definition relations (p : Pkg) : list (string * list string) :=
  filter (λ r, r.2 ≠ [])
    [("Depends", pkg_Depends p); ("MakeDepends", pkg_MakeDepends p); ("CheckDepends", pkg_CheckDepends p);
     ("OptDepends", pkg_OptDepends p); ("Conflicts", pkg_Conflicts p); ("Provides", pkg_Provides p);
     ("Replaces", pkg_Replaces p); ("Groups", pkg_Groups p); ("CoMaintainers", CoMaintainers p)].

Definition info_result (p : Pkg) : infoResult :=
  mkInfoResult (base p) (nullStr (Submitter p)) (pkg_License p) (Keywords p) (relations p).

(** *** [upstream_result.go]: the record read back; a null column is empty. *)
Definition relation (r : infoResult) (k : string) : list string :=
  match list_find (λ kv, kv.1 = k) (i_relations r) with Some (_, kv) => kv.2 | None => [] end.

Definition toPkg (r : infoResult) : Pkg :=
  let s := i_search r in
  mkPkg (r_ID s) (r_Name s) (r_PackageBaseID s) (r_PackageBase s) (r_Version s) (default "" (r_Description s))
    (default "" (r_URL s)) (r_NumVotes s) (r_Popularity s) (default 0%Z (r_OutOfDate s)) (default "" (r_Maintainer s)) (default "" (i_Submitter r))
    (r_FirstSubmitted s) (r_LastModified s) (r_URLPath s)
    (relation r "Depends") (relation r "MakeDepends") (relation r "CheckDepends") (relation r "OptDepends")
    (relation r "Conflicts") (relation r "Provides") (relation r "Replaces") (relation r "Groups")
    (i_License r) (i_Keywords r) (relation r "CoMaintainers").

(** ** [by.go], [match.go] *)
Definition By : Type := string.

Definition DefaultBy : By := "name-desc".

Definition exposedBys : list By :=
  ["name"; "name-desc"; "maintainer"; "submitter"; "depends"; "makedepends"; "optdepends"; "checkdepends";
   "provides"; "conflicts"; "replaces"; "groups"; "keywords"; "comaintainers"].

Definition valid (b : By) : bool := bool_decide (b ∈ exposedBys).

(** What Go knows of Unicode: [strings.ToLower], [strings.EqualFold] and the length in runes. *)
Class Unicode := {
  ToLower : string → string;
  EqualFold : string → string → bool;
  rune_count : string → nat;
}.

Definition is_rel_sep (c : ascii) : bool := occurs c "<>=: ".

(** [FieldsFunc] and its first field. *)
Fixpoint first_field (s acc : string) : string :=
  match s with
  | "" => acc
  | String c s =>
      if is_rel_sep c then (if decide (acc = "") then first_field s "" else acc)
      else first_field s (acc +:+ String c "")
  end.

Definition relName (s : string) : string := first_field s "".

Section match_.
Context {U : Unicode}.

Definition hasRelName (rels : list string) (arg : string) : bool := existsb (λ rel, EqualFold (relName rel) arg) rels.

Definition any_fold (l : list string) (arg : string) : bool := existsb (λ x, EqualFold x arg) l.

Definition Match (p : Pkg) (by_ : By) (arg : string) : bool :=
  let arg := ToLower arg in
  if decide (by_ = "name") then contains (ToLower (Name p)) arg
  else if decide (by_ = "name-desc" ∨ by_ = "")
  then contains (ToLower (Name p)) arg || contains (ToLower (Description p)) arg
  else if decide (by_ = "maintainer") then bool_decide (arg = "") || EqualFold (Maintainer p) arg
  else if decide (by_ = "comaintainers") then any_fold (CoMaintainers p) arg
  else if decide (by_ = "submitter") then EqualFold (Submitter p) arg
  else if decide (by_ = "depends") then hasRelName (pkg_Depends p) arg
  else if decide (by_ = "makedepends") then hasRelName (pkg_MakeDepends p) arg
  else if decide (by_ = "checkdepends") then hasRelName (pkg_CheckDepends p) arg
  else if decide (by_ = "optdepends") then hasRelName (pkg_OptDepends p) arg
  else if decide (by_ = "provides") then hasRelName (pkg_Provides p) arg || EqualFold (Name p) arg
  else if decide (by_ = "conflicts") then hasRelName (pkg_Conflicts p) arg
  else if decide (by_ = "replaces") then hasRelName (pkg_Replaces p) arg
  else if decide (by_ = "groups") then any_fold (pkg_Groups p) arg
  else if decide (by_ = "keywords") then any_fold (Keywords p) arg
  else false.
End match_.

(** ** [util.go] *)

(** [lo.UniqBy]: the first of each key. *)
Fixpoint uniq_by_aux {A} (key : A → string) (seen : gset string) (l : list A) : list A :=
  match l with
  | [] => []
  | a :: l => if decide (key a ∈ seen) then uniq_by_aux key seen l else a :: uniq_by_aux key ({[key a]} ∪ seen) l
  end.

Definition uniq_by {A} (key : A → string) (l : list A) : list A := uniq_by_aux key ∅ l.

Definition mergeByName (local upstream : list Pkg) : list Pkg := uniq_by Name (local ++ upstream).
Definition mergeStrings (local upstream : list string) : list string := uniq (local ++ upstream).
Definition dedupeNonEmpty (l : list string) : list string := uniq (filter (λ s, s ≠ "") l).
Definition sortedNonEmpty (l : list string) : list string := sort_strings (dedupeNonEmpty l).

Definition atoiSafe (s : string) : Z := default 0%Z (parse_int (trim_space s)).
Definition parseVersion (seg : string) : Z := atoiSafe (trim_prefix seg "v").

(** ** [srcinfo.go] *)
Record SrcinfoMeta := mkSrcinfoMeta {
  sm_Maintainer : string; sm_Submitter : string; sm_FirstSubmitted : Z; sm_LastModified : Z; sm_URLPath : string;
}.

(** FNV-1a on 32 bits. *)
Fixpoint fnv32a (h : Z) (s : string) : Z :=
  match s with
  | "" => h
  | String c s => fnv32a ((Z.lxor h (Z.of_N (byte c)) * 16777619) mod 2 ^ 32)%Z s
  end.

Definition stableID (name : string) : Z := Z.land (fnv32a 2166136261 name) 0x7fffffff.

Section from_srcinfo.
Context {R : RangeOrder}.

(** [ArchStrings.All], in the order of the map. *)
Definition all_arches (a : ArchStrings) : list string :=
  match a with
  | None => []
  | Some m => concat (map (λ k, filter (λ v, v ≠ "") (default [] (m !! k))) (range_keys (dom m)))
  end.

Definition pkg_of (b : SrcinfoBase) (m : SrcinfoMeta) (p : SrcinfoPackage.SrcinfoPackage) : Pkg :=
  let urlPath := if decide (sm_URLPath m = "") then "/cgit/aur.git/snapshot/" +:+ PkgBase b +:+ ".tar.gz" else sm_URLPath m in
  mkPkg (stableID (SrcinfoPackage.PkgName p)) (SrcinfoPackage.PkgName p) (stableID (PkgBase b)) (PkgBase b) (Version b)
    (SrcinfoPackage.PkgDesc p) (SrcinfoPackage.URL p) 0 0 0 (sm_Maintainer m) (sm_Submitter m) (sm_FirstSubmitted m)
    (sm_LastModified m) urlPath
    (sortedNonEmpty (all_arches (SrcinfoPackage.Depends p))) (sortedNonEmpty (all_arches (MakeDepends b)))
    (sortedNonEmpty (all_arches (CheckDepends b))) (sortedNonEmpty (all_arches (SrcinfoPackage.OptDepends p)))
    (sortedNonEmpty (all_arches (SrcinfoPackage.Conflicts p))) (sortedNonEmpty (all_arches (SrcinfoPackage.Provides p)))
    (sortedNonEmpty (all_arches (SrcinfoPackage.Replaces p))) (sortedNonEmpty (elems (SrcinfoPackage.Groups p)))
    (sortedNonEmpty (elems (SrcinfoPackage.License p))) [] [].

Definition FromSrcinfo (si : option SRCINFO) (m : SrcinfoMeta) : list Pkg :=
  match si with
  | None => []
  | Some si =>
      let pkgs := match SplitPackages si with [] => [srcinfo_pkg si] | l => l end in
      map (pkg_of (srcinfo_base si) m) pkgs
  end.
End from_srcinfo.

(** ** [backend.go] *)
Definition SuggestLimit : nat := 20.

(** The packages a host manages.  The handlers only log the errors of [Info], [Search],
    [Suggest] and [SourceURL] and go on with the value returned beside them, which is what
    the fields give; [b_SourceURL] gives [None] for a pkgbase that is not managed. *)
Record Backend := mkBackend {
  b_Info : list string → list Pkg;
  b_Search : By → string → list Pkg;
  b_Suggest : string → bool → list string;
  b_All : result string (list Pkg);
  b_SourceURL : string → option string;
}.

(** The upstream: the elements of its dump with the name decoded from each, the error the
    stream ends with, and its size. *)
Record dump_stream := mkDumpStream {
  ds_elements : list (string * option string); ds_error : option string; ds_bytes : Z;
}.

Record Upstream := mkUpstream {
  u_Info : list string → result string (list Pkg);
  u_Search : By → string → result string (list Pkg);
  u_Suggest : string → bool → result string (list string);
  u_GitBase : string;
  u_SnapshotURL : string → string;
  u_PlainURL : string → string;
  u_Dump : option ((bool → result string dump_stream) * result string (list string));
}.

(** ** [request.go] *)
Record http_request := mkRequest {
  rq_Method : string; rq_Path : string; rq_RawQuery : string;
  rq_Form : gmap string (list string);
  rq_Query_h : string;
  rq_ContentType : string; rq_Body : string; rq_Client : string;
}.

Definition form_get (r : http_request) (k : string) : string :=
  match rq_Form r !! k with Some (v :: _) => v | _ => "" end.

Record rpcQuery := mkQuery { q_version : Z; q_typ : string; q_by : By; q_args : list string; q_callback : string }.

Section request.
(** The JSON body: its [by] and the arguments of its [arg] ([parseJSONArg]). *)
Context (decode_body : string → option (string * list string)).

Definition path_segments (path : string) : list string := split_char "/" (trim_byte "/" (trim_prefix path "/rpc/")).

Definition parseRPC (r : http_request) : rpcQuery :=
  let path := rq_Path r in
  let '(version, typ, by_, args, pathArg) :=
    if has_prefix path "/rpc/v" then
      let segs := path_segments path in
      let '(by_, args) :=
        if bool_decide (rq_Method r = "POST") && contains (rq_ContentType r) "json" && negb (bool_decide (rq_Body r = ""))
        then match decode_body (rq_Body r) with Some (b, args) => (b, args) | None => ("", []) end
        else ("", []) in
      (parseVersion (nth 0 segs ""), nth 1 segs "", by_, args, join "/" (drop 2 segs))
    else (atoiSafe (form_get r "v"), form_get r "type", "", [], "") in
  let by_ := if decide (form_get r "by" = "") then by_ else form_get r "by" in
  let args := args ++ default [] (rq_Form r !! "arg[]") in
  let args := if decide (form_get r "arg" = "") then args else args ++ [form_get r "arg"] in
  let args := if decide (args = [] ∧ pathArg ≠ "") then [pathArg] else args in
  mkQuery version typ by_ args (form_get r "callback").

Inductive rpc_type := TypeInfo | TypeSearch | TypeMSearch | TypeSuggest | TypeSuggestBase | TypeUnknown.

Definition resolveType (t : string) : rpc_type :=
  if decide (t = "info" ∨ t = "multiinfo") then TypeInfo
  else if decide (t = "search") then TypeSearch
  else if decide (t = "msearch") then TypeMSearch
  else if decide (t = "suggest") then TypeSuggest
  else if decide (t = "suggest-pkgbase") then TypeSuggestBase
  else TypeUnknown.

(** ** [rpc.go], [git.go], [dump.go] *)
Inductive reply :=
| RpcDoc
| RateLimited (version : Z) (retry : Z)
| RpcError (callback : string) (version : Z) (msg : string)
| Results (callback typ : string) (pkgs : list Pkg) (info : bool)
| Suggestions (callback : string) (names : list string)
| Redirect (location : string)
| NotFound
| SnapshotUnavailable (base : string)
| DumpUnavailable
| MetaDump (local : list Pkg) (upstream : list string) (ext : bool)
| NamesDump (names : list string).

Context {U : Unicode}.

(** [^[a-zA-Z0-9()_.]{1,128}$]. *)
Definition callback_byte (c : ascii) : bool :=
  let n := byte c in
  ((97 <=? n) && (n <=? 122) || (65 <=? n) && (n <=? 90) || (48 <=? n) && (n <=? 57))%N || occurs c "()_.".

Definition callback_ok (s : string) : bool :=
  (1 <=? String.length s)%nat && (String.length s <=? 128)%nat && all_bytes callback_byte s.

Definition maxResults : nat := 5000.

Record Server := mkServer {
  s_backend : Backend; s_upstream : option Upstream;
  s_limiter : option (string → bool * Z);
}.

Definition capped (q : rpcQuery) (typ : string) (info : bool) (results : list Pkg) : reply :=
  if (maxResults <? length results)%nat then RpcError (q_callback q) (q_version q) "Too many package results."
  else Results (q_callback q) typ results info.

Definition handleInfo (s : Server) (q : rpcQuery) : reply :=
  let names := dedupeNonEmpty (q_args q) in
  if decide (names = []) then RpcError (q_callback q) (q_version q) "No request type/data specified."
  else
    let local := b_Info (s_backend s) names in
    let results :=
      match s_upstream s with
      | None => local
      | Some up =>
          match filter (λ n, n ∉ map Name local) names with
          | [] => local
          | missing => match u_Info up missing with Ok l => local ++ l | Err _ => local end
          end
      end in
    capped q "multiinfo" true results.

(** [cmp.Or]. *)
Definition first_nonempty (l : list string) : string := default "" (head (filter (λ s, s ≠ "") l)).

Definition handleSearch (s : Server) (q : rpcQuery) (maintainer : bool) : reply :=
  let by_ := if maintainer then "maintainer" else q_by q in
  let by_ := if decide (by_ = "") then DefaultBy else by_ in
  if negb (valid by_) then RpcError (q_callback q) (q_version q) "Incorrect by field specified."
  else
    let arg := first_nonempty (q_args q) in
    if bool_decide (by_ ≠ "maintainer" ∧ arg = "")
    then RpcError (q_callback q) (q_version q) "No request type/data specified."
    else if bool_decide (by_ ≠ "maintainer") && (rune_count arg <? 2)%nat
    then RpcError (q_callback q) (q_version q) "Query arg too small."
    else
      let local := b_Search (s_backend s) by_ arg in
      let results :=
        match s_upstream s with
        | None => local
        | Some up => match u_Search up by_ arg with Ok l => mergeByName local l | Err _ => local end
        end in
      capped q "search" false results.

Definition handleSuggest (s : Server) (q : rpcQuery) (pkgbase : bool) : reply :=
  let arg := first_nonempty (q_args q) in
  let local := b_Suggest (s_backend s) arg pkgbase in
  let names :=
    match s_upstream s with
    | None => local
    | Some up => match u_Suggest up arg pkgbase with Ok l => mergeStrings local l | Err _ => local end
    end in
  Suggestions (q_callback q) (take SuggestLimit names).

Definition RPC (s : Server) (r : http_request) : reply :=
  if bool_decide (rq_Method r = "GET" ∧ rq_RawQuery r = "") && negb (has_prefix (rq_Path r) "/rpc/v") then RpcDoc
  else
    let q := parseRPC r in
    let limited := match s_limiter s with
                   | Some limiter => let '(allowed, retry) := limiter (rq_Client r) in if allowed : bool then None else Some retry
                   | None => None end in
    match limited with
    | Some retry => RateLimited (q_version q) retry
    | None =>
        if negb (bool_decide (q_callback q = "")) && negb (callback_ok (q_callback q))
        then RpcError "" (q_version q) "Invalid callback name."
        else if decide (q_version q = 0%Z) then RpcError (q_callback q) (q_version q) "Please specify an API version."
        else if decide (q_version q ≠ 5%Z) then RpcError (q_callback q) (q_version q) "Invalid version specified."
        else
          match resolveType (q_typ q) with
          | TypeInfo => handleInfo s q
          | TypeSearch => handleSearch s q false
          | TypeMSearch => handleSearch s q true
          | TypeSuggest => handleSuggest s q false
          | TypeSuggestBase => handleSuggest s q true
          | TypeUnknown => RpcError (q_callback q) (q_version q) "Incorrect request type specified."
          end
    end.

(** [strings.Cut(strings.TrimPrefix(p, "/"), "/")]. *)
Definition first_segment (p : string) : string * string :=
  match cut "/" (trim_prefix p "/") with Some (seg, rest) => (seg, rest) | None => (trim_prefix p "/", "") end.

Definition PkgbaseFromGitPath (p : string) : string :=
  let seg := (first_segment p).1 in
  if decide (seg ≠ ".git" ∧ has_suffix seg ".git" = true) then trim_suffix seg ".git" else "".

Definition gitPathRemainder (p : string) : string := trim_byte "/" (first_segment p).2.

Definition GitClone (s : Server) (r : http_request) : reply :=
  let base := PkgbaseFromGitPath (rq_Path r) in
  if decide (base = "") then NotFound
  else
    match b_SourceURL (s_backend s) base, s_upstream s with
    | None, None => NotFound
    | found, up =>
        let target := match found with
                      | Some t => t
                      | None => match up with Some up => u_GitBase up +:+ "/" +:+ base +:+ ".git" | None => "" end
                      end in
        let loc := trim_right_byte "/" target in
        let rest := gitPathRemainder (rq_Path r) in
        let loc := if decide (rest = "") then loc else loc +:+ "/" +:+ rest in
        Redirect (if decide (rq_RawQuery r = "") then loc else loc +:+ "?" +:+ rq_RawQuery r)
    end.

Definition Snapshot (s : Server) (r : http_request) : reply :=
  let base := trim_suffix (trim_prefix (rq_Path r) "/cgit/aur.git/snapshot/") ".tar.gz" in
  if decide (base = "") then NotFound
  else
    match b_SourceURL (s_backend s) base with
    | Some _ => SnapshotUnavailable base
    | None => match s_upstream s with None => NotFound | Some up => Redirect (u_SnapshotURL up base) end
    end.

Definition PlainPKGBUILD (s : Server) (r : http_request) : reply :=
  match s_upstream s with
  | Some up => if decide (rq_Query_h r = "") then NotFound else Redirect (u_PlainURL up (rq_Query_h r))
  | None => NotFound
  end.

Definition maxDumpBytes : Z := 256 * 2 ^ 20.

Definition buildMetaDump (s : Server) (ext : bool) : reply :=
  match b_All (s_backend s) with
  | Err _ => DumpUnavailable
  | Ok local =>
      match s_upstream s ≫= u_Dump with
      | None => MetaDump local [] ext
      | Some (reader, _) =>
          match reader ext with
          | Err _ => MetaDump local [] ext
          | Ok stream =>
              match ds_error stream with
              | Some _ => DumpUnavailable
              | None =>
                  if (maxDumpBytes <? ds_bytes stream)%Z then DumpUnavailable
                  else MetaDump local
                         (map fst (filter (λ e, negb (match e.2 with Some n => bool_decide (n ∈ map Name local) | None => false end) = true)
                            (ds_elements stream))) ext
              end
          end
      end
  end.

Definition buildNamesDump (s : Server) : reply :=
  match b_All (s_backend s) with
  | Err _ => DumpUnavailable
  | Ok local =>
      let names := map Name local in
      NamesDump (uniq (names ++ match s_upstream s ≫= u_Dump with Some (_, Ok l) => l | _ => [] end))
  end.

Definition ServeHTTP (s : Server) (r : http_request) : reply :=
  let p := rq_Path r in
  if bool_decide (p = "/rpc" ∨ p = "/rpc/" ∨ p = "/rpc.php") || has_prefix p "/rpc/" then RPC s r
  else if has_prefix p "/cgit/aur.git/snapshot/" then Snapshot s r
  else if has_prefix p "/cgit/aur.git/plain/" then PlainPKGBUILD s r
  else if decide (p = "/packages-meta-ext-v1.json.gz") then buildMetaDump s true
  else if decide (p = "/packages-meta-v1.json.gz") then buildMetaDump s false
  else if decide (p = "/packages.gz") then buildNamesDump s
  else if decide (PkgbaseFromGitPath p ≠ "") then GitClone s r
  else NotFound.
End request.
