(* ===== verification/AurwebSpec.v ===== *)
(** * What the AUR web interface answers

    The records that go through an upstream and back, and the answers of the server: what a
    host manages is never taken from the upstream, and every answer is bounded. *)

From S2P Require Import Prelude GoStrings Srcinfo Aurweb.

(** ** Records *)

Lemma list_find_filter (l : list (string * list string)) k v :
  NoDup (map fst l) → (k, v) ∈ l →
  match list_find (λ kv, kv.1 = k) (filter (λ r, r.2 ≠ []) l) with Some (_, kv) => kv.2 | None => [] end = v.
Proof.
  induction l as [|[k' v'] l IH]; [by rewrite elem_of_nil |].
  cbn [map fst]; rewrite NoDup_cons, elem_of_cons; intros [Hk Hn] [Heq | Hin].
  - simplify_eq; rewrite filter_cons; case_decide as Hv; cbn [list_find]; [by rewrite decide_True |].
    cbn in Hv; subst v'.
    destruct (list_find _ _) as [[i [k2 v2]] |] eqn:Hf; [| done].
    apply list_find_Some in Hf as (Hl & Hk2 & _); cbn in Hk2; subst k2.
    apply list_elem_of_lookup_2, list_elem_of_filter in Hl as [_ Hl].
    by destruct Hk; apply list_elem_of_fmap; exists (k', v2).
  - assert (k' ≠ k) as Hne by (intros ->; apply Hk, list_elem_of_fmap; by exists (k, v)).
    rewrite filter_cons; case_decide; [| by apply IH].
    cbn [list_find]; rewrite decide_False by done.
    specialize (IH Hn Hin); destruct (list_find _ _) as [[i kv] |]; done.
Qed.

(** A record written by [result] and read by [toPkg] is the record, a negative flag time
    being no flag. *)
Lemma toPkg_info_result p : toPkg (info_result p) = p <| OutOfDate := Z.max 0 (OutOfDate p) |>.
Proof.
  assert (∀ k v, (k, v) ∈
    [("Depends", pkg_Depends p); ("MakeDepends", pkg_MakeDepends p); ("CheckDepends", pkg_CheckDepends p);
     ("OptDepends", pkg_OptDepends p); ("Conflicts", pkg_Conflicts p); ("Provides", pkg_Provides p);
     ("Replaces", pkg_Replaces p); ("Groups", pkg_Groups p); ("CoMaintainers", CoMaintainers p)] →
    relation (info_result p) k = v) as Hr.
  { intros k v Hin; apply list_find_filter; [| done]; cbn [map fst]; apply (bool_decide_unpack _); by vm_compute. }
  assert (∀ s, default "" (nullStr s) = s) as Hs by (intros s; unfold nullStr; by case_decide).
  assert (default 0%Z (outOfDate (OutOfDate p)) = Z.max 0 (OutOfDate p)) as Ho.
  { unfold outOfDate; destruct (Z.ltb_spec 0 (OutOfDate p)); cbn; lia. }
  unfold toPkg.
  rewrite (Hr "Depends" (pkg_Depends p)), (Hr "MakeDepends" (pkg_MakeDepends p)), (Hr "CheckDepends" (pkg_CheckDepends p)),
    (Hr "OptDepends" (pkg_OptDepends p)), (Hr "Conflicts" (pkg_Conflicts p)), (Hr "Provides" (pkg_Provides p)),
    (Hr "Replaces" (pkg_Replaces p)), (Hr "Groups" (pkg_Groups p)), (Hr "CoMaintainers" (CoMaintainers p))
    by (rewrite !elem_of_cons; tauto).
  cbn; rewrite !Hs, Ho; by destruct p.
Qed.

(** ** Merging *)
Lemma elem_of_uniq_by_aux {A} (key : A → string) seen l a :
  a ∈ uniq_by_aux key seen l → a ∈ l ∧ key a ∉ seen.
Proof.
  revert seen; induction l as [|b l IH]; intros seen; cbn; [by rewrite elem_of_nil |].
  case_decide as Hb.
  - intros [??]%IH; by rewrite elem_of_cons; auto.
  - rewrite !elem_of_cons; intros [-> | [? Hn]%IH]; [auto |].
    rewrite not_elem_of_union in Hn; tauto.
Qed.

Lemma NoDup_uniq_by_aux {A} (key : A → string) seen l : NoDup (map key (uniq_by_aux key seen l)).
Proof.
  revert seen; induction l as [|b l IH]; intros seen; cbn; [constructor |].
  case_decide; [done |]; cbn; constructor; [| done].
  intros (a & Ha & Hin)%list_elem_of_fmap.
  apply elem_of_uniq_by_aux in Hin as [_ Hn]; set_solver.
Qed.

Lemma uniq_by_app_l {A} (key : A → string) seen l k a :
  a ∈ uniq_by_aux key seen (l ++ k) → key a ∈ map key l → a ∈ l.
Proof.
  revert seen; induction l as [|b l IH]; intros seen; cbn; [by rewrite elem_of_nil |].
  case_decide as Hb; rewrite !elem_of_cons.
  - intros Ha [Hk | Hk]; [| right; by eapply IH].
    apply elem_of_uniq_by_aux in Ha as [_ Hn]; congruence.
  - intros [-> | Ha] Hk; [by left |].
    destruct Hk as [Hk | Hk]; [| right; by eapply IH].
    apply elem_of_uniq_by_aux in Ha as [_ Hn]; set_solver.
Qed.

(** The records of the host win over those of the upstream with the same name. *)
Lemma mergeByName_spec local up :
  NoDup (map Name (mergeByName local up)) ∧
  ∀ p, p ∈ mergeByName local up → p ∈ local ∨ p ∈ up ∧ Name p ∉ map Name local.
Proof.
  split; [apply NoDup_uniq_by_aux |]; intros p Hp.
  destruct (decide (Name p ∈ map Name local)) as [Hn | Hn]; [left; by eapply uniq_by_app_l |].
  apply elem_of_uniq_by_aux in Hp as [[Hp | Hp]%elem_of_app _]; [by left | by right].
Qed.

(** ** Answers *)
Section answers.
Context (decode_body : string → option (string * list string)) {U : Unicode}.
Implicit Types (s : Server) (r : http_request).

(** The upstream is asked for [names], or there is none to ask. *)
Definition from_upstream s (names : list string) (up : list Pkg) : Prop :=
  up = [] ∨ ∃ u, s_upstream s = Some u ∧ names ≠ [] ∧ u_Info u names = Ok up.

(** The target of a redirect, by the kind of the path.  Under [snapshot/] it is the upstream's
    archive of a pkgbase the host does not manage; under [plain/] the upstream's file for the
    query, whatever the host manages; elsewhere it is a clone, sent to the source of a pkgbase the
    host manages, and to the upstream only for one it does not. *)
Definition redirect_ok s r (loc : string) : Prop :=
  let p := rq_Path r in
  if has_prefix p "/cgit/aur.git/snapshot/" then
    let base := trim_suffix (trim_prefix p "/cgit/aur.git/snapshot/") ".tar.gz" in
    ∃ u, b_SourceURL (s_backend s) base = None ∧ s_upstream s = Some u ∧ loc = u_SnapshotURL u base
  else if has_prefix p "/cgit/aur.git/plain/" then
    ∃ u, s_upstream s = Some u ∧ rq_Query_h r ≠ "" ∧ loc = u_PlainURL u (rq_Query_h r)
  else
    let base := PkgbaseFromGitPath p in
    ∃ target, base ≠ "" ∧ loc = trim_right_byte "/" target
        +:+ (if decide (gitPathRemainder p = "") then "" else "/" +:+ gitPathRemainder p)
        +:+ (if decide (rq_RawQuery r = "") then "" else "?" +:+ rq_RawQuery r) ∧
      match b_SourceURL (s_backend s) base with
      | Some t => target = t
      | None => ∃ u, s_upstream s = Some u ∧ target = u_GitBase u +:+ "/" +:+ base +:+ ".git"
      end.

Definition reply_ok s r (rep : reply) : Prop :=
  match rep with
  | Results _ _ pkgs true =>
      length pkgs ≤ maxResults ∧
      let names := dedupeNonEmpty (q_args (parseRPC decode_body r)) in
      ∃ up, pkgs = b_Info (s_backend s) names ++ up ∧
        from_upstream s (filter (λ n, n ∉ map Name (b_Info (s_backend s) names)) names) up
  | Results _ _ pkgs false =>
      length pkgs ≤ maxResults ∧
      let arg := first_nonempty (q_args (parseRPC decode_body r)) in
      ∃ by_, let local := b_Search (s_backend s) by_ arg in
        valid by_ = true ∧ (pkgs = local ∨
        ∃ u up, s_upstream s = Some u ∧ u_Search u by_ arg = Ok up ∧ NoDup (map Name pkgs) ∧
          ∀ p, p ∈ pkgs → p ∈ local ∨ p ∈ up ∧ Name p ∉ map Name local)
  | Suggestions _ names => length names ≤ SuggestLimit
  | Redirect loc => redirect_ok s r loc
  | MetaDump local up _ =>
      b_All (s_backend s) = Ok local ∧
      (up = [] ∨ ∃ u reader names stream ext, s_upstream s = Some u ∧ u_Dump u = Some (reader, names) ∧
         reader ext = Ok stream ∧ ds_error stream = None ∧ (ds_bytes stream ≤ maxDumpBytes)%Z ∧
         ∀ e, e ∈ up → ∃ n, (e, n) ∈ ds_elements stream ∧ ∀ n', n = Some n' → n' ∉ map Name local)
  | NamesDump names => NoDup names ∧ ∃ local, b_All (s_backend s) = Ok local ∧ map Name local ⊆ names
  | _ => True
  end.

Lemma capped_ok s r q typ info pkgs :
  (length pkgs ≤ maxResults → reply_ok s r (Results (q_callback q) typ pkgs info)) →
  reply_ok s r (capped q typ info pkgs).
Proof. unfold capped; destruct (Nat.ltb_spec maxResults (length pkgs)); [done | auto]. Qed.

Lemma handleInfo_ok s r : reply_ok s r (handleInfo s (parseRPC decode_body r)).
Proof.
  unfold handleInfo; cbn zeta; case_decide; [done |].
  apply capped_ok; intros Hl; split; [done |]; cbn zeta.
  set (names := dedupeNonEmpty _) in *; clearbody names.
  destruct (s_upstream s) as [u |] eqn:Hu; [| exists []; rewrite app_nil_r; split; [done | by left]].
  destruct (filter _ _) as [|n ns] eqn:Hf; [exists []; rewrite app_nil_r; split; [done | by left] |].
  destruct (u_Info u (n :: ns)) as [up |] eqn:Hup; [| exists []; rewrite app_nil_r; split; [done | by left]].
  exists up; split; [done |]; right; by exists u.
Qed.

Lemma handleSearch_ok s r maintainer : reply_ok s r (handleSearch s (parseRPC decode_body r) maintainer).
Proof.
  set (q := parseRPC decode_body r); unfold handleSearch.
  set (by_ := if decide (_ = "") then DefaultBy else _); set (arg := first_nonempty _).
  destruct (valid by_) eqn:Hv; [| done]; cbn [negb].
  case_match; [done |]; case_match; [done |].
  apply capped_ok; intros Hl; split; [done |]; fold q; fold arg; exists by_; split; [done |].
  destruct (s_upstream s) as [u |] eqn:Hu; [| by left].
  destruct (u_Search u by_ arg) as [up |] eqn:Hup; [| by left].
  right; exists u, up; destruct (mergeByName_spec (b_Search (s_backend s) by_ arg) up); auto.
Qed.

Lemma handleSuggest_ok s r q pkgbase : reply_ok s r (handleSuggest s q pkgbase).
Proof. unfold handleSuggest, reply_ok; cbn zeta; rewrite length_take; apply Nat.le_min_l. Qed.

Lemma RPC_ok s r : reply_ok s r (RPC decode_body s r).
Proof.
  unfold RPC; case_match; [done |].
  destruct (match s_limiter s with Some _ => _ | None => _ end); [done |].
  repeat (case_match; try done); auto using handleInfo_ok, handleSearch_ok, handleSuggest_ok.
Qed.

Lemma GitClone_ok s r :
  has_prefix (rq_Path r) "/cgit/aur.git/snapshot/" = false → has_prefix (rq_Path r) "/cgit/aur.git/plain/" = false →
  reply_ok s r (GitClone s r).
Proof.
  intros Hsnap Hplain; unfold GitClone; case_decide as Hb; [done |].
  set (rest := gitPathRemainder (rq_Path r)).
  set (tail := (if decide (rest = "") then "" else "/" +:+ rest) +:+
               (if decide (rq_RawQuery r = "") then "" else "?" +:+ rq_RawQuery r)).
  assert (∀ loc, (let loc := if decide (rest = "") then loc else loc +:+ "/" +:+ rest in
            if decide (rq_RawQuery r = "") then loc else loc +:+ "?" +:+ rq_RawQuery r) = loc +:+ tail) as Ht.
  { intros loc; unfold tail; cbn zeta; repeat case_decide;
      repeat first [rewrite <- !str_app_assoc | rewrite !str_app_nil_r | rewrite (str_app_nil_r loc)]; done. }
  assert (∀ target, match b_SourceURL (s_backend s) (PkgbaseFromGitPath (rq_Path r)) with
      | Some t => target = t
      | None => ∃ u, s_upstream s = Some u ∧ target = u_GitBase u +:+ "/" +:+ PkgbaseFromGitPath (rq_Path r) +:+ ".git" end →
    redirect_ok s r (trim_right_byte "/" target +:+ tail)) as Hgit.
  { intros target Ht'; unfold redirect_ok; rewrite Hsnap, Hplain; by exists target. }
  destruct (b_SourceURL (s_backend s) (PkgbaseFromGitPath (rq_Path r))) as [t |] eqn:Hs.
  - cbn [reply_ok]; rewrite Ht; by apply Hgit.
  - destruct (s_upstream s) as [u |] eqn:Hu; [| done].
    cbn [reply_ok]; rewrite Ht; apply Hgit; by exists u.
Qed.

Lemma Snapshot_ok s r : has_prefix (rq_Path r) "/cgit/aur.git/snapshot/" = true → reply_ok s r (Snapshot s r).
Proof.
  intros Hp; unfold Snapshot; destruct (decide _); [done |].
  destruct (b_SourceURL _ _) eqn:Hs; [done |]; destruct (s_upstream s) as [u |] eqn:Hu; [| done].
  cbn [reply_ok]; unfold redirect_ok; rewrite Hp; by exists u.
Qed.

Lemma PlainPKGBUILD_ok s r :
  has_prefix (rq_Path r) "/cgit/aur.git/snapshot/" = false → has_prefix (rq_Path r) "/cgit/aur.git/plain/" = true →
  reply_ok s r (PlainPKGBUILD s r).
Proof.
  intros Hsnap Hplain; unfold PlainPKGBUILD; destruct (s_upstream s) as [u |] eqn:Hu; [| done]; destruct (decide _); [done |].
  cbn [reply_ok]; unfold redirect_ok; rewrite Hsnap, Hplain; by exists u.
Qed.

Lemma buildMetaDump_ok s r ext : reply_ok s r (buildMetaDump s ext).
Proof.
  unfold buildMetaDump; destruct (b_All (s_backend s)) as [local |] eqn:Hall; [| done].
  destruct (s_upstream s ≫= u_Dump) as [[reader names] |] eqn:Hu; [| by split; [| left]].
  destruct (reader ext) as [stream |] eqn:Hr; [| by split; [| left]].
  destruct (ds_error stream) eqn:He; [done |].
  destruct (Z.ltb_spec maxDumpBytes (ds_bytes stream)); [done |].
  apply bind_Some in Hu as (u & Hup & Hd).
  split; [done |]; right; exists u, reader, names, stream, ext; split_and!; try done.
  intros e ([e' n] & -> & [Hk Hin]%list_elem_of_filter)%list_elem_of_fmap.
  exists n; split; [done |]; intros n' ->.
  cbn [snd] in Hk; case_bool_decide; [done | done].
Qed.

Lemma buildNamesDump_ok s r : reply_ok s r (buildNamesDump s).
Proof.
  unfold buildNamesDump; destruct (b_All (s_backend s)) as [local |] eqn:Hall; [| done].
  split; [apply NoDup_uniq |]; exists local; split; [done |].
  intros n Hn; rewrite elem_of_uniq, elem_of_app; by left.
Qed.

Lemma ServeHTTP_ok s r : reply_ok s r (ServeHTTP decode_body s r).
Proof.
  unfold ServeHTTP.
  destruct (bool_decide _ || _); [apply RPC_ok |].
  destruct (has_prefix _ "/cgit/aur.git/snapshot/") eqn:Hsnap; [by apply Snapshot_ok |].
  destruct (has_prefix _ "/cgit/aur.git/plain/") eqn:Hplain; [by apply PlainPKGBUILD_ok |].
  destruct (decide _); [apply buildMetaDump_ok |].
  destruct (decide _); [apply buildMetaDump_ok |].
  destruct (decide _); [apply buildNamesDump_ok |].
  destruct (decide _); [by apply GitClone_ok | done].
Qed.

End answers.
