(* ===== verification/AurwebLimit.v ===== *)
(** * The dump cache and the rate limiter of the AUR interface

    [dump.go]: [getOrBuild] as run by any number of requests at once, one step per critical
    section, on a clock that never goes back.  [ratelimit.go]: the limiter kept in memory, one
    call at a time under its lock.  Times and durations are in nanoseconds. *)

From S2P Require Import Prelude.

(** ** [dumpCache] *)
Module DumpCache.

Definition dumpTTL : Z := 30 * 60 * 1000000000.

(** [time.Time.After] is strict: an entry is fresh up to and including its expiry. *)
Record dumpEntry := mkEntry { body : string; expires : Z }.

Section cache.
(** The clock reading of a request, and where it stands in [getOrBuild]. *)
Inductive stage :=
| Lookup              (** before the first [get] *)
| Waiting             (** missed; before [c.build.Lock] *)
| Recheck             (** holds the lock; before the second [get] *)
| Build               (** holds the lock; missed again, [build] not called yet *)
| Put (e : dumpEntry) (** holds the lock; built, before [put] *)
| Unlock (r : option dumpEntry) (** holds the lock; before the deferred unlock *)
| Return (r : option dumpEntry).

Record request := mkRequest { key : string; now : Z; at_ : stage }.

(** [builds] is the history of the builds that succeeded, the latest first: key, clock reading
    of the request and body. *)
Record state := mkState {
  clock : Z;
  entries : gmap string dumpEntry;
  build : option nat;
  requests : gmap nat request;
  builds : list (string * Z * string);
}.

Definition init (t : Z) : state := mkState t ∅ None ∅ [].

Definition get (m : gmap string dumpEntry) (k : string) (t : Z) : option dumpEntry :=
  match m !! k with Some e => if (expires e <? t)%Z then None else Some e | None => None end.

Definition advance (i : nat) (k : string) (t : Z) (g : stage) (s : state) : gmap nat request :=
  <[i := mkRequest k t g]> (requests s).

(** One step: the clock advances, a request starts, or a request runs its next critical
    section.  [build] succeeds with any body or fails. *)
Inductive step : state → state → Prop :=
| step_tick s t :
    (clock s ≤ t)%Z →
    step s (mkState t (entries s) (build s) (requests s) (builds s))
| step_start s i k :
    requests s !! i = None →
    step s (mkState (clock s) (entries s) (build s) (advance i k (clock s) Lookup s) (builds s))
| step_get s i k t :
    requests s !! i = Some (mkRequest k t Lookup) →
    step s (mkState (clock s) (entries s) (build s)
      (advance i k t (match get (entries s) k t with Some e => Return (Some e) | None => Waiting end) s) (builds s))
| step_lock s i k t :
    requests s !! i = Some (mkRequest k t Waiting) → build s = None →
    step s (mkState (clock s) (entries s) (Some i) (advance i k t Recheck s) (builds s))
| step_recheck s i k t :
    requests s !! i = Some (mkRequest k t Recheck) →
    step s (mkState (clock s) (entries s) (build s)
      (advance i k t (match get (entries s) k t with Some e => Unlock (Some e) | None => Build end) s) (builds s))
| step_build s i k t b :
    requests s !! i = Some (mkRequest k t Build) →
    step s (mkState (clock s) (entries s) (build s)
      (advance i k t (Put (mkEntry b (t + dumpTTL))) s) ((k, t, b) :: builds s))
| step_build_fails s i k t :
    requests s !! i = Some (mkRequest k t Build) →
    step s (mkState (clock s) (entries s) (build s) (advance i k t (Unlock None) s) (builds s))
| step_put s i k t e :
    requests s !! i = Some (mkRequest k t (Put e)) →
    step s (mkState (clock s) (<[k := e]> (entries s)) (build s) (advance i k t (Unlock (Some e)) s) (builds s))
| step_unlock s i k t r :
    requests s !! i = Some (mkRequest k t (Unlock r)) →
    step s (mkState (clock s) (entries s) None (advance i k t (Return r) s) (builds s)).

Definition reachable (s : state) : Prop := ∃ t, rtc step (init t) s.

(** *** The invariant *)

(** The stages that hold the build lock. *)
Definition holds (g : stage) : bool :=
  match g with Recheck | Build | Put _ | Unlock _ => true | _ => false end.

(** Entry [e] is the result of a build of [k]. *)
Definition built (bs : list (string * Z * string)) (k : string) (e : dumpEntry) : Prop :=
  ∃ t, (k, t, body e) ∈ bs ∧ expires e = (t + dumpTTL)%Z.

(** What a request may rely on at its stage: an answer was built, and is fresh for it. *)
Definition stage_ok (s : state) (q : request) : Prop :=
  match at_ q with
  | Build => ∀ t b, (key q, t, b) ∈ builds s → (t + dumpTTL < now q)%Z
  | Put e => built (builds s) (key q) e ∧ expires e = (now q + dumpTTL)%Z ∧
             ∀ t b, (key q, t, b) ∈ builds s → (t ≤ now q)%Z
  | Unlock (Some e) | Return (Some e) => built (builds s) (key q) e ∧ (now q ≤ expires e)%Z
  | _ => True
  end.

(** Successful builds of one key are more than a lifetime apart. *)
Fixpoint spaced (bs : list (string * Z * string)) : Prop :=
  match bs with
  | [] => True
  | (k, t, _) :: bs => (∀ t' b', (k, t', b') ∈ bs → (t' + dumpTTL < t)%Z) ∧ spaced bs
  end.

(** A build not in the cache is the one its request is about to store. *)
Definition covered (s : state) : Prop :=
  ∀ k t b, (k, t, b) ∈ builds s →
    (∃ e, entries s !! k = Some e ∧ (t + dumpTTL ≤ expires e)%Z) ∨
    (∃ i t' e, requests s !! i = Some (mkRequest k t' (Put e)) ∧ (t ≤ t')%Z).

Record inv (s : state) : Prop := {
  inv_lock i q : requests s !! i = Some q → holds (at_ q) = true → build s = Some i;
  inv_stage i q : requests s !! i = Some q → stage_ok s q;
  inv_entry k e : entries s !! k = Some e → built (builds s) k e;
  inv_spaced : spaced (builds s);
  inv_covered : covered s;
}.

Lemma built_cons bs k e x : built bs k e → built (x :: bs) k e.
Proof. intros (t & Ht & He); exists t; split; [by apply elem_of_cons; right | done]. Qed.

Lemma get_Some m k t e : get m k t = Some e ↔ m !! k = Some e ∧ (t ≤ expires e)%Z.
Proof.
  unfold get; destruct (m !! k) as [e' |]; [| naive_solver].
  destruct (Z.ltb_spec (expires e') t); split; intros; destruct_and?; simplify_eq; try done; lia.
Qed.

Lemma get_None m k t e : get m k t = None → m !! k = Some e → (expires e < t)%Z.
Proof. unfold get; intros Hg He; rewrite He in Hg; destruct (Z.ltb_spec (expires e) t); [lia | done]. Qed.

(** A step of one request that neither builds nor stores: the other requests keep what they
    rely on. *)
Lemma advance_inv s i k t g g' l :
  inv s → requests s !! i = Some (mkRequest k t g) → (∀ e, g ≠ Put e) →
  (holds g' = true → l = Some i) →
  (holds g = true ∨ holds g' = false ∧ l = build s ∨ build s = None) →
  (holds g = false → holds g' = false → l = build s) →
  stage_ok s (mkRequest k t g') →
  inv (mkState (clock s) (entries s) l (advance i k t g' s) (builds s)).
Proof.
  intros [Hl Hst He Hsp Hc] Hi Hput Hl' Hcase Hsame Hok; constructor; cbn; [| | done | done |].
  - intros j q; unfold advance; rewrite lookup_insert_Some; intros [[<- <-] | [Hij Hj]] Hh; [by apply Hl' |].
    specialize (Hl j q Hj Hh) as Hlj.
    destruct Hcase as [Hg | [[Hg' ->] | Hn]]; [| done | congruence].
    specialize (Hl i _ Hi Hg); congruence.
  - intros j q; unfold advance; rewrite lookup_insert_Some; intros [[<- <-] | [Hij Hj]]; [done | by apply (Hst j)].
  - intros k' t' b' Hb; destruct (Hc k' t' b' Hb) as [? | (j & t2 & e & Hj & Ht)]; [by left | right].
    exists j, t2, e; split; [| done]; cbn; unfold advance; rewrite lookup_insert_ne; [done |].
    intros ->; rewrite Hi in Hj; injection Hj as -> -> ->; by destruct (Hput e).
Qed.

Lemma dump_inv_step s s' : inv s → step s s' → inv s'.
Proof.
  intros Hinv Hs; destruct Hs as [s t Ht | s i k Hi | s i k t Hi | s i k t Hi Hb | s i k t Hi | s i k t b Hi
    | s i k t Hi | s i k t e Hi | s i k t r Hi].
  - destruct Hinv; by constructor.
  - destruct Hinv as [Hl Hst He Hsp Hc]; constructor; cbn; [| | done | done |].
    + intros j q; unfold advance; rewrite lookup_insert_Some; intros [[<- <-] | [Hij Hj]]; [done | by apply Hl].
    + intros j q; unfold advance; rewrite lookup_insert_Some; intros [[<- <-] | [Hij Hj]]; [done | by apply (Hst j)].
    + intros k' t' b' Hb; destruct (Hc k' t' b' Hb) as [? | (j & t2 & e & Hj & Ht)]; [by left | right].
      exists j, t2, e; split; [| done]; cbn; unfold advance; rewrite lookup_insert_ne; [done | intros ->; congruence].
  - apply (advance_inv s i k t Lookup); try done; [by case_match | right; left; split; [by case_match | done] |].
    destruct (get _ _ _) as [e |] eqn:Hg; [| done].
    apply get_Some in Hg as [He ?]; split; [by apply (inv_entry s Hinv) | done].
  - apply (advance_inv s i k t Waiting); try done; by (right; right).
  - assert (build s = Some i) as Hl by by apply (inv_lock s Hinv i _ Hi).
    apply (advance_inv s i k t Recheck); try done; [by left |].
    destruct (get _ _ _) as [e |] eqn:Hg.
    + apply get_Some in Hg as [He ?]; split; [by apply (inv_entry s Hinv) | done].
    + intros t' b' Hb; destruct (inv_covered s Hinv _ _ _ Hb) as [(e & He & Hle) | (j & t2 & e & Hj & _)].
      * pose proof (get_None _ _ _ _ Hg He); cbn; lia.
      * assert (build s = Some j) by by apply (inv_lock s Hinv j _ Hj).
        simplify_eq.
  - assert (build s = Some i) as Hl by by apply (inv_lock s Hinv i _ Hi).
    pose proof (inv_stage s Hinv i _ Hi) as Hold; cbn in Hold.
    destruct Hinv as [Hlk Hst He Hsp Hc]; constructor; cbn.
    + intros j q; unfold advance; rewrite lookup_insert_Some; intros [[<- <-] | [Hij Hj]]; [done | by apply Hlk].
    + intros j q; unfold advance; rewrite lookup_insert_Some; intros [[<- <-] | [Hij Hj]].
      * cbn; split_and!; [exists t; split; [by left | done] | done |].
        intros t' b'; rewrite elem_of_cons; intros [Heq | Hin]; [by simplify_eq |].
        specialize (Hold _ _ Hin); unfold dumpTTL in Hold; lia.
      * specialize (Hst j q Hj); assert (holds (at_ q) = true → False) as Hnh.
        { intros Hh; specialize (Hlk j q Hj Hh); congruence. }
        unfold stage_ok in *; destruct (at_ q) as [| | | | | [e |] | [e |]]; try done; try by destruct Hnh.
        destruct Hst; split; [by apply built_cons | done].
    + intros k' e Hk; apply built_cons, (He _ _ Hk).
    + split; [| done]; intros t' b' Hin; by apply (Hold _ b').
    + intros k' t' b'; cbn; rewrite elem_of_cons; intros [Heq | Hin].
      * simplify_eq; right; exists i, t, (mkEntry b (t + dumpTTL)); split; [apply lookup_insert_eq | lia].
      * destruct (Hc _ _ _ Hin) as [? | (j & t2 & e & Hj & Ht)]; [by left |].
        assert (build s = Some j) as Hj' by by apply (Hlk j _ Hj).
        simplify_eq.
  - assert (build s = Some i) as Hl by by apply (inv_lock s Hinv i _ Hi).
    apply (advance_inv s i k t Build); try done; by left.
  - assert (build s = Some i) as Hl by by apply (inv_lock s Hinv i _ Hi).
    pose proof (inv_stage s Hinv i _ Hi) as (Hbt & Hex & Hle); cbn in Hbt, Hex, Hle.
    destruct Hinv as [Hlk Hst He Hsp Hc]; constructor; cbn; [| | | done |].
    + intros j q; unfold advance; rewrite lookup_insert_Some; intros [[<- <-] | [Hij Hj]]; [done | by apply Hlk].
    + intros j q; unfold advance; rewrite lookup_insert_Some; intros [[<- <-] | [Hij Hj]]; [| by apply (Hst j)].
      split; [done |]; cbn; unfold dumpTTL in Hex; lia.
    + intros k' e'; rewrite lookup_insert_Some; intros [[<- <-] | [Hk Hk']]; [done | by apply He].
    + intros k' t' b' Hin; destruct (decide (k' = k)) as [-> | Hk].
      * left; exists e; split; [apply lookup_insert_eq |]; specialize (Hle _ _ Hin); lia.
      * cbn; destruct (Hc _ _ _ Hin) as [(e' & He' & ?) | (j & t2 & e' & Hj & Ht)].
        { left; exists e'; split; [by rewrite lookup_insert_ne | done]. }
        assert (build s = Some j) as Hj' by by apply (Hlk j _ Hj).
        simplify_eq.
  - assert (build s = Some i) as Hl by by apply (inv_lock s Hinv i _ Hi).
    pose proof (inv_stage s Hinv i _ Hi) as Hok.
    apply (advance_inv s i k t (Unlock r)); try done; by left.
Qed.

Lemma dump_reachable_inv s : reachable s → inv s.
Proof.
  intros [t Hs]; remember (init t) as s0 eqn:H0; assert (inv s0) as Hi.
  { subst; constructor; cbn; [intros i q; by rewrite lookup_empty | intros i q; by rewrite lookup_empty
      | intros k e; by rewrite lookup_empty | done | intros k t' b; by rewrite elem_of_nil]. }
  clear H0; induction Hs; eauto using dump_inv_step.
Qed.
End cache.

(** However requests interleave, at most one builds a dump at a time; two successful
    builds of one dump are more than its lifetime apart, so a cold or expired cache fetches the
    upstream once; and every dump answered was built by a request at most a lifetime
    older than the one it answers. *)
Theorem dump_single_flight s :
  reachable s →
  (∀ i j q q', requests s !! i = Some q → requests s !! j = Some q' →
     holds (at_ q) = true → holds (at_ q') = true → i = j) ∧
  spaced (builds s) ∧
  ∀ i k t e, requests s !! i = Some (mkRequest k t (Return (Some e))) →
    ∃ t', (k, t', body e) ∈ builds s ∧ (t ≤ t' + dumpTTL)%Z.
Proof.
  intros [Hl Hst _ Hsp _]%dump_reachable_inv; split_and!; [| done |].
  - intros i j q q' Hi Hj Hq Hq'; pose proof (Hl _ _ Hi Hq); pose proof (Hl _ _ Hj Hq'); congruence.
  - intros i k t e Hi; destruct (Hst _ _ Hi) as [(t' & Hb & He) Hle]; cbn in *; exists t'; split; [done | lia].
Qed.

(** A request that finds the cache cold, builds, and answers; and one that finds it filled. *)
Definition example_entry : dumpEntry := mkEntry "[]" (5 + dumpTTL).

Lemma step_eq s s1 s2 : step s s1 → s1 = s2 → step s s2.
Proof. by intros ? <-. Qed.

Tactic Notation "run_step" uconstr(H) :=
  eapply rtc_l; [eapply step_eq; [apply H; vm_compute; done | vm_compute; reflexivity] |].

Lemma dump_example_reachable :
  reachable (mkState 9 {["meta" := example_entry]} None
    {[0%nat := mkRequest "meta" 5 (Return (Some example_entry)); 1%nat := mkRequest "meta" 9 (Return (Some example_entry))]}
    [("meta", 5%Z, "[]")]).
Proof.
  exists 0%Z.
  run_step (step_tick _ 5).
  run_step (step_start _ 0 "meta").
  run_step (step_get _ 0 "meta" 5).
  run_step (step_lock _ 0 "meta" 5).
  run_step (step_recheck _ 0 "meta" 5).
  run_step (step_build _ 0 "meta" 5 "[]").
  run_step (step_put _ 0 "meta" 5 example_entry).
  run_step (step_unlock _ 0 "meta" 5 (Some example_entry)).
  run_step (step_tick _ 9).
  run_step (step_start _ 1 "meta").
  run_step (step_get _ 1 "meta" 9).
  apply reflexive_eq; vm_compute; reflexivity.
Qed.

Lemma dump_single_flight_witness : ∃ t', ("meta", t', "[]") ∈ [("meta", 5%Z, "[]")] ∧ (9 ≤ t' + dumpTTL)%Z.
Proof.
  destruct (dump_single_flight _ dump_example_reachable) as (_ & _ & H).
  apply (H 1%nat "meta" 9%Z example_entry); reflexivity.
Defined.
End DumpCache.

(** ** [memoryRateLimiter] *)
Module RateLimit.

Definition defaultMaxRateLimitClients : nat := Z.to_nat 100000.

Record rateLimitBucket := mkBucket {
  b_window : Z; index : Z; count : nat; lastSeen : Z; expiresAt : Z;
}.

(** Go's [/] truncates. *)
Definition rateLimitWindow (now window : Z) : Z * Z :=
  let i := Z.quot now window in (i, (i + 1) * window - now)%Z.

Definition sweep (now : Z) (m : gmap string rateLimitBucket) : gmap string rateLimitBucket :=
  filter (λ kv, (now < expiresAt kv.2)%Z) m.

Section limiter.
Context {R : RangeOrder}.

(** The first client met with the least [lastSeen]. *)
Definition oldest (m : gmap string rateLimitBucket) : option (string * Z) :=
  foldl (λ found '(client, entry),
    match found with
    | Some (_, old) => if (lastSeen entry <? old)%Z then Some (client, lastSeen entry) else found
    | None => Some (client, lastSeen entry)
    end) None (range_map m).

Definition evictOldest (m : gmap string rateLimitBucket) : gmap string rateLimitBucket :=
  match oldest m with Some (client, _) => delete client m | None => m end.

Definition make_room (maxClients : nat) (now : Z) (m : gmap string rateLimitBucket) : gmap string rateLimitBucket :=
  if decide (maxClients ≤ size m) then
    let m := sweep now m in
    if decide (maxClients ≤ size m) then evictOldest m else m
  else m.

(** The answer of [allow], and the buckets after it. *)
Definition allow (maxClients : nat) (now : Z) (client : string) (limit : Z) (window : Z) (m : gmap string rateLimitBucket) :
    bool * Z * gmap string rateLimitBucket :=
  if bool_decide (limit ≤ 0)%Z || bool_decide (window ≤ 0)%Z then (true, 0%Z, m)
  else
    let '(i, retry) := rateLimitWindow now window in
    let fresh m := (true, 0%Z, <[client := mkBucket window i 1 now (now + retry)]> m) in
    match m !! client with
    | None => fresh (make_room maxClients now m)
    | Some current =>
        if decide (b_window current ≠ window ∨ index current ≠ i) then fresh m
        else if (limit <=? Z.of_nat (count current))%Z
        then (false, retry, <[client := mkBucket (b_window current) (index current) (count current) now (expiresAt current)]> m)
        else (true, 0%Z, <[client := mkBucket (b_window current) (index current) (S (count current)) now (expiresAt current)]> m)
    end.

(** *** The number of clients remembered *)
Lemma oldest_dom m : m ≠ ∅ → ∃ c t, oldest m = Some (c, t) ∧ c ∈ dom m.
Proof.
  intros Hm; unfold oldest.
  assert (∀ l acc, (∀ c b, (c, b) ∈ l → c ∈ dom m) → (∀ c t, acc = Some (c, t) → c ∈ dom m) → (l ≠ [] ∨ is_Some acc) →
    ∃ c t, foldl (λ found '(client, entry),
      match found with
      | Some (_, old) => if (lastSeen entry <? old)%Z then Some (client, lastSeen entry) else found
      | None => Some (client, lastSeen entry)
      end) acc l = Some (c, t) ∧ c ∈ dom m) as Hfold.
  { induction l as [|[c b] l IH]; intros acc Hl Hacc Hne; cbn [foldl].
    - destruct Hne as [? | [[c t] ->]]; [done |]; exists c, t; split; [done | by apply (Hacc c t)].
    - assert (c ∈ dom m) by (apply (Hl c b); by left).
      apply IH; [intros c' b' Hin; apply (Hl c' b'); by right | | right].
      + destruct acc as [[c0 old] |]; [case_match |]; intros c' t' Heq; simplify_eq; [done | | done].
        by apply (Hacc c' t').
      + destruct acc as [[c0 old] |]; [case_match |]; by eexists. }
  apply Hfold; [| done | left].
  - intros c b Hin%elem_of_range_map; by apply elem_of_dom_2 in Hin.
  - destruct (map_choose _ Hm) as (c & b & Hc); apply elem_of_range_map in Hc.
    by intros Hr; rewrite Hr in Hc; apply elem_of_nil in Hc.
Qed.

Lemma size_evictOldest m : m ≠ ∅ → size (evictOldest m) = pred (size m).
Proof.
  intros (c & t & Ho & [b Hc]%elem_of_dom)%oldest_dom; unfold evictOldest; rewrite Ho.
  by rewrite map_size_delete, Hc.
Qed.

Lemma size_make_room maxClients now m :
  0 < maxClients → size m ≤ maxClients → size (make_room maxClients now m) < maxClients.
Proof.
  intros Hp Hm; unfold make_room; destruct (decide (maxClients ≤ size m)); [| lia].
  assert (size (sweep now m) ≤ size m) by apply map_subseteq_size, map_filter_subseteq.
  cbn zeta; destruct (decide (maxClients ≤ size (sweep now m))); [| lia].
  rewrite size_evictOldest; [lia |]; intros He; rewrite He, map_size_empty in *; lia.
Qed.

Lemma allow_size maxClients now client limit window m :
  0 < maxClients → size m ≤ maxClients → size (allow maxClients now client limit window m).2 ≤ maxClients.
Proof.
  intros Hp Hm; unfold allow; destruct (_ || _); [done |]; cbn [rateLimitWindow].
  assert (∀ b (k : gmap string rateLimitBucket), is_Some (k !! client) → size (<[client := b]> k) = size k) as Hs.
  { intros b k [b' Hk]; by rewrite map_size_insert, Hk. }
  destruct (m !! client) as [current |] eqn:Hc.
  - case_decide; [| case_match]; cbn [snd]; rewrite Hs; eauto.
  - cbn [snd]; rewrite map_size_insert; pose proof (size_make_room maxClients now m Hp Hm).
    destruct (make_room maxClients now m !! client); unfold id; lia.
Qed.

(** *** The calls that are allowed *)

(** A run of calls on a limiter of fixed settings, and what each was answered. *)
Fixpoint run (maxClients : nat) (limit window : Z) (m : gmap string rateLimitBucket) (calls : list (string * Z)) : list (bool * Z) :=
  match calls with
  | [] => []
  | (client, now) :: calls =>
      let '(r, m) := allow maxClients now client limit window m in r :: run maxClients limit window m calls
  end.

(** The window a time falls in, and how many calls of [h] a client made in one. *)
Definition window_of (window now : Z) : Z := (rateLimitWindow now window).1.

Definition calls_in (window : Z) (h : list (string * Z)) (c : string) (i : Z) : nat :=
  length (filter (λ call, call.1 = c ∧ window_of window call.2 = i) h).

Definition clients_in (window : Z) (h : list (string * Z)) (i : Z) : gset string :=
  list_to_set (map fst (filter (λ call, window_of window call.2 = i) h)).

(** The answer the limit calls for: [h] are the earlier calls. *)
Definition answer (limit window : Z) (h : list (string * Z)) (c : string) (now : Z) : bool * Z :=
  if (Z.of_nat (calls_in window h c (window_of window now)) <? limit)%Z then (true, 0%Z)
  else (false, (window_of window now + 1) * window - now)%Z.

Fixpoint answers (limit window : Z) (h calls : list (string * Z)) : list (bool * Z) :=
  match calls with
  | [] => []
  | (c, now) :: calls => answer limit window h c now :: answers limit window ((c, now) :: h) calls
  end.

Section exact.
Context (maxClients : nat) (limit window : Z) (Hlimit : (0 < limit)%Z) (Hwindow : (0 < window)%Z).
Notation "'idx'" := (window_of window).

Lemma window_of_bounds t : (0 ≤ t)%Z → (idx t * window ≤ t < (idx t + 1) * window)%Z.
Proof using Hwindow.
  clear Hlimit; intros Ht; unfold window_of; cbn.
  rewrite Z.quot_div_nonneg by lia.
  pose proof (Z.div_mod t window ltac:(lia)); pose proof (Z.mod_pos_bound t window Hwindow); nia.
Qed.

Lemma window_of_mono t t' : (0 ≤ t)%Z → (t ≤ t')%Z → (idx t ≤ idx t')%Z.
Proof using Hwindow.
  clear Hlimit; intros Ht Hle; unfold window_of; cbn.
  rewrite !Z.quot_div_nonneg by lia; by apply Z.div_le_mono.
Qed.

Lemma calls_in_cons h c t c' i :
  calls_in window ((c, t) :: h) c' i = (if decide (c = c' ∧ idx t = i) then 1 else 0) + calls_in window h c' i.
Proof. unfold calls_in; rewrite filter_cons; cbn [fst snd]; by case_decide. Qed.

Lemma calls_in_zero h c i : (∀ t, (c, t) ∈ h → idx t ≠ i) → calls_in window h c i = 0.
Proof.
  intros Hh; unfold calls_in; apply length_zero_iff_nil.
  destruct (filter _ h) as [|[c' t] l] eqn:Hf; [done |].
  assert ((c', t) ∈ filter (λ call : string * Z, call.1 = c ∧ idx call.2 = i) h) as Hin by (rewrite Hf; by left).
  apply list_elem_of_filter in Hin as [[Hc Hi] Hin]; cbn in Hc, Hi; subst c'; by destruct (Hh t).
Qed.

Lemma elem_of_clients_in h c i : c ∈ clients_in window h i ↔ ∃ t, (c, t) ∈ h ∧ idx t = i.
Proof.
  unfold clients_in; rewrite elem_of_list_to_set, list_elem_of_fmap; split.
  - intros ([c' t] & -> & [Hi Hin]%list_elem_of_filter); by exists t.
  - intros (t & Hin & Hi); exists (c, t); split; [done |]; by apply list_elem_of_filter.
Qed.

(** The bucket of a client counts its calls of one window; a client without one has no call in
    the window of the last call, at [T]. *)
Definition bucket_ok (h : list (string * Z)) (T : Z) (c : string) (b : rateLimitBucket) : Prop :=
  b_window b = window ∧ (index b ≤ idx T)%Z ∧ expiresAt b = ((index b + 1) * window)%Z ∧
  Z.of_nat (count b) = Z.min limit (Z.of_nat (calls_in window h c (index b))) ∧
  (∃ t, (c, t) ∈ h ∧ idx t = index b) ∧ ∀ t, (c, t) ∈ h → (idx t ≤ index b)%Z.

Definition forgotten (h : list (string * Z)) (T : Z) (c : string) : Prop := ∀ t, (c, t) ∈ h → (idx t < idx T)%Z.

Record limiter_inv (h : list (string * Z)) (T : Z) (m : gmap string rateLimitBucket) : Prop := {
  li_bucket c b : m !! c = Some b → bucket_ok h T c b;
  li_none c : m !! c = None → forgotten h T c;
  li_time c t : (c, t) ∈ h → (0 ≤ t ≤ T)%Z;
}.

Lemma limiter_inv_later h T T' m : (0 ≤ T ≤ T')%Z → limiter_inv h T m → limiter_inv h T' m.
Proof using Hwindow.
  clear Hlimit; intros HT [Hb Hn Ht]; pose proof (window_of_mono T T' ltac:(lia) ltac:(lia)); constructor.
  - intros c b Hc; destruct (Hb c b Hc) as (?&?&?&?&?&?); split_and!; try done; lia.
  - intros c Hc t Hin; specialize (Hn c Hc t Hin); lia.
  - intros c t Hin; specialize (Ht c t Hin); lia.
Qed.

(** Making room forgets only clients with no call in this window, if no more clients than the
    limiter remembers call in it. *)
Lemma make_room_inv h now m client :
  (0 ≤ now)%Z → limiter_inv h now m → m !! client = None →
  size (clients_in window ((client, now) :: h) (idx now)) ≤ maxClients →
  limiter_inv h now (make_room maxClients now m) ∧ make_room maxClients now m !! client = None.
Proof using Hwindow.
  clear Hlimit; intros Hnow [Hb Hn Ht] Hc Hsize.
  assert (sweep now m !! client = None) as Hcs by (apply map_lookup_filter_None; by left).
  unfold make_room; destruct (decide (maxClients ≤ size m)) as [Hm |]; [| done].
  cbn zeta; destruct (decide (maxClients ≤ size (sweep now m))) as [Hm' | _].
  - exfalso.
    assert ({[client]} ∪ dom (sweep now m) ⊆ clients_in window ((client, now) :: h) (idx now)) as Hsub.
    { intros c; rewrite elem_of_union, elem_of_singleton, elem_of_dom, elem_of_clients_in.
      intros [-> | [b Hcb]]; [exists now; split; [by left | done] |].
      apply map_lookup_filter_Some in Hcb as [Hcb Hlive]; cbn in Hlive.
      destruct (Hb c b Hcb) as (_ & Hi & He & _ & (t & Hin & Hit) & _).
      exists t; split; [by right |]; rewrite Hit.
      pose proof (window_of_bounds now Hnow); nia. }
    apply subseteq_size in Hsub; rewrite size_union, size_singleton, size_dom in Hsub.
    + lia.
    + apply disjoint_singleton_l; by apply not_elem_of_dom.
  - split; [constructor | done].
    + intros c b Hcb; apply map_lookup_filter_Some in Hcb as [Hcb _]; by apply Hb.
    + intros c Hcn; apply map_lookup_filter_None in Hcn as [Hcn | Hdead]; [by apply Hn |].
      destruct (m !! c) as [b |] eqn:Hcb; [| by apply Hn].
      specialize (Hdead b eq_refl); cbn in Hdead.
      destruct (Hb c b Hcb) as (_ & Hi & He & _ & _ & Hle).
      intros t Hin; specialize (Hle t Hin).
      pose proof (window_of_bounds now Hnow); nia.
    + done.
Qed.

(** A new bucket for a client with no call in this window. *)
Lemma fresh_inv h now m client :
  (0 ≤ now)%Z → (∀ c, c ≠ client → ∀ b, m !! c = Some b → bucket_ok h now c b) →
  (∀ c, c ≠ client → m !! c = None → forgotten h now c) →
  (∀ c t, (c, t) ∈ h → (0 ≤ t ≤ now)%Z) → forgotten h now client →
  limiter_inv ((client, now) :: h) now
    (<[client := mkBucket window (idx now) 1 now (now + (rateLimitWindow now window).2)]> m).
Proof using Hlimit.
  intros Hnow Hb Hn Ht Hf; constructor.
  - intros c b; rewrite lookup_insert_Some; intros [[<- <-] | [Hne Hc]].
    + unfold bucket_ok; cbn [b_window index expiresAt count].
      rewrite calls_in_cons, decide_True, calls_in_zero by (try done; intros t Hin; specialize (Hf t Hin); lia).
      split_and!; [done | lia | unfold window_of; cbn; lia | lia | exists now; split; [by left | done] |].
      intros t; rewrite elem_of_cons; intros [Heq | Hin]; [by simplify_eq | specialize (Hf t Hin); lia].
    + destruct (Hb c ltac:(done) b Hc) as (?&?&?&Hcount&(t & Hin & Hit)&Hle).
      unfold bucket_ok; rewrite calls_in_cons, decide_False by (intros [? _]; done).
      split_and!; try done; [exists t; split; [by right | done] |].
      intros t'; rewrite elem_of_cons; intros [Heq | Hin']; [by simplify_eq | by apply Hle].
  - intros c; rewrite lookup_insert_None; intros [Hc Hne] t; rewrite elem_of_cons.
    intros [Heq | Hin]; [by simplify_eq | by apply (Hn c ltac:(done) Hc)].
  - intros c t; rewrite elem_of_cons; intros [Heq | Hin]; [by simplify_eq | by eapply Ht].
Qed.

(** A call in the window of its client's bucket. *)
Lemma count_inv h now m client current n :
  (0 ≤ now)%Z → limiter_inv h now m → m !! client = Some current → index current = idx now →
  Z.of_nat n = Z.min limit (Z.of_nat (S (calls_in window h client (idx now)))) →
  limiter_inv ((client, now) :: h) now
    (<[client := mkBucket (b_window current) (index current) n now (expiresAt current)]> m).
Proof using.
  intros Hnow [Hb Hn Ht] Hc Hi Hcount; constructor.
  - intros c b; rewrite lookup_insert_Some; intros [[<- <-] | [Hne Hc']].
    + destruct (Hb client current Hc) as (?&?&?&_&(t & Hin & Hit)&Hle).
      unfold bucket_ok; cbn [b_window index expiresAt count].
      rewrite calls_in_cons, decide_True by (split; [done | lia]); rewrite Hi in *.
      split_and!; try done; [exists t; split; [by right | done] |].
      intros t'; rewrite elem_of_cons; intros [Heq | Hin']; [simplify_eq; lia | by apply Hle].
    + destruct (Hb c b Hc') as (?&?&?&?&(t & Hin & Hit)&Hle).
      unfold bucket_ok; rewrite calls_in_cons, decide_False by (intros [? _]; done).
      split_and!; try done; [exists t; split; [by right | done] |].
      intros t'; rewrite elem_of_cons; intros [Heq | Hin']; [by simplify_eq | by apply Hle].
  - intros c; rewrite lookup_insert_None; intros [Hcn Hne] t; rewrite elem_of_cons.
    intros [Heq | Hin]; [by simplify_eq | by apply (Hn c Hcn)].
  - intros c t; rewrite elem_of_cons; intros [Heq | Hin]; [by simplify_eq | by eapply Ht].
Qed.

Lemma allow_step h now m client :
  (0 ≤ now)%Z → limiter_inv h now m →
  size (clients_in window ((client, now) :: h) (idx now)) ≤ maxClients →
  let '(r, m') := allow maxClients now client limit window m in
  r = answer limit window h client now ∧ limiter_inv ((client, now) :: h) now m'.
Proof using Hlimit Hwindow.
  intros Hnow Hinv Hsize; unfold allow.
  rewrite !bool_decide_eq_false_2 by lia; cbn [orb].
  change (rateLimitWindow now window) with (idx now, (rateLimitWindow now window).2).
  assert (forgotten h now client → answer limit window h client now = (true, 0%Z)) as Hfresh.
  { intros Hf; unfold answer; rewrite calls_in_zero by (intros t Hin; specialize (Hf t Hin); lia).
    by rewrite (proj2 (Z.ltb_lt _ _)) by lia. }
  destruct (m !! client) as [current |] eqn:Hc.
  - destruct (li_bucket _ _ _ Hinv client current Hc) as (Hw & Hi & He & Hcount & _ & Hle).
    case_decide as Hne.
    + destruct Hne as [? | Hne]; [done |].
      assert (forgotten h now client) as Hf by (intros t Hin; specialize (Hle t Hin); lia).
      split; [by rewrite Hfresh |]; destruct Hinv as [Hb Hn Ht]; apply fresh_inv; eauto.
    + assert (index current = idx now) as Hix by (apply dec_stable; tauto).
      rewrite Hix in Hcount; unfold answer.
      destruct (Z.leb_spec limit (Z.of_nat (count current))) as [Hl | Hl].
      * split; [rewrite (proj2 (Z.ltb_ge _ _)) by lia; done |].
        by apply count_inv; [| | | | lia].
      * split; [rewrite (proj2 (Z.ltb_lt _ _)) by lia; done |].
        by apply count_inv; [| | | | lia].
  - destruct (make_room_inv h now m client Hnow Hinv Hc Hsize) as [[Hb Hn Ht] Hcm].
    assert (forgotten h now client) as Hf by by apply (li_none _ _ _ Hinv).
    split; [by rewrite Hfresh |]; apply fresh_inv; eauto.
Qed.

Lemma run_answers calls h T m :
  (0 ≤ T)%Z → limiter_inv h T m → StronglySorted Z.le (T :: map snd calls) →
  (∀ i, size (clients_in window (rev calls ++ h) i) ≤ maxClients) →
  run maxClients limit window m calls = answers limit window h calls.
Proof using Hlimit Hwindow.
  revert h T m; induction calls as [|[c now] calls IH]; intros h T m HT Hinv Hs Hsize; [done |].
  cbn [map snd] in Hs; apply StronglySorted_inv in Hs as [Hs Hall].
  apply Forall_cons in Hall as [Hle _].
  apply (limiter_inv_later _ _ now) in Hinv; [| lia].
  cbn [run answers].
  pose proof (allow_step h now m c ltac:(lia) Hinv) as Hstep.
  destruct (allow _ _ _ _ _ _) as [r m'].
  assert (∀ i, size (clients_in window (rev calls ++ (c, now) :: h) i) ≤ maxClients) as Hsize'.
  { intros i; specialize (Hsize i); cbn [rev] in Hsize; by rewrite <- app_assoc in Hsize. }
  destruct Hstep as [-> Hinv'].
  - etransitivity; [| apply (Hsize' (idx now))]; apply subseteq_size; intros c'.
    rewrite !elem_of_clients_in; intros (t & Hin & Hi); exists t; split; [apply elem_of_app; by right | done].
  - f_equal; apply (IH _ now); [lia | done | done | done].
Qed.
End exact.

(** The limiter in memory allows exactly the first [limit] calls of each client in each
    window and tells a refused one how long its window still lasts, on a clock that does not go
    back and as long as no more clients call in one window than it remembers: sweeping and
    evicting buckets then never lets a client start over nor counts a call twice. *)
Theorem limiter_exact (maxClients : nat) (limit window T : Z) (calls : list (string * Z)) :
  (0 < limit)%Z → (0 < window)%Z → (0 ≤ T)%Z → StronglySorted Z.le (T :: map snd calls) →
  (∀ i, size (clients_in window calls i) ≤ maxClients) →
  run maxClients limit window ∅ calls = answers limit window [] calls.
Proof.
  intros Hl Hw HT Hs Hsize; apply (run_answers maxClients limit window Hl Hw calls [] T); [done | | done |].
  - constructor; [intros c b Hc; by rewrite lookup_empty in Hc | intros c _ t; by rewrite elem_of_nil
      | intros c t; by rewrite elem_of_nil].
  - intros i; etransitivity; [| apply (Hsize i)]; apply subseteq_size; intros c.
    rewrite !elem_of_clients_in, app_nil_r; intros (t & Hin & Hi); exists t; split; [| done].
    by rewrite list_elem_of_In, <- in_rev, <- list_elem_of_In in Hin.
Qed.
End limiter.

(** Four calls of [a] and one of [b], two allowed per window of 10, one client remembered. *)
Definition example_calls : list (string * Z) := [("a", 1%Z); ("a", 2%Z); ("a", 4%Z); ("b", 11%Z); ("a", 25%Z)].

Lemma example_clients i : size (clients_in 10 example_calls i) ≤ 1.
Proof.
  unfold clients_in, example_calls; rewrite !filter_cons; cbn [snd].
  change (window_of 10 1) with 0%Z; change (window_of 10 2) with 0%Z; change (window_of 10 4) with 0%Z;
    change (window_of 10 11) with 1%Z; change (window_of 10 25) with 2%Z.
  repeat case_decide; subst; try done; vm_compute; lia.
Qed.

Lemma limiter_exact_witness :
  run (R := elements_order) 1 2 10 ∅ example_calls = [(true, 0%Z); (true, 0%Z); (false, 6%Z); (true, 0%Z); (true, 0%Z)].
Proof.
  transitivity (answers 2 10 [] example_calls); [| by vm_compute].
  apply (limiter_exact (R := elements_order) 1 2 10 0 example_calls); [lia | lia | lia | | apply example_clients].
  repeat constructor; cbn; lia.
Defined.
End RateLimit.
