(* ===== verification/AurwebUpstream.v ===== *)
(** * The client of an upstream AUR (pkg/aurweb/upstream.go, upstream_dump.go)

    A query is the list of its parameters; the HTTP client answers each attempt, the context
    may be cancelled after any, and JSON decoding, the dates of HTTP and URL escaping are parameters. *)

From S2P Require Import Prelude GoStrings Aurweb.

Definition upstreamBatchSize : nat := 150.
Definition upstreamGETAttempts : nat := 4.
Definition second : Z := 1000000000.

Record http_response := mkResponse { status : Z; retry_after : string; resp_body : string }.

Inductive upstream_error :=
| RequestError (err : string)
| ContextError (err : string)
| StatusError (status : Z)
| DecodeError
| UpstreamError (msg : string)
| GunzipError
| ReadError.

Definition retryableUpstreamStatus (status : Z) : bool := bool_decide (status = 429)%Z || (500 <=? status)%Z.

(** [slices.Chunk]. *)
Fixpoint chunks {A} (fuel n : nat) (l : list A) : list (list A) :=
  match fuel, l with
  | S fuel, _ :: _ => take n l :: chunks fuel n (drop n l)
  | _, _ => []
  end.

Definition Chunk {A} (l : list A) (n : nat) : list (list A) := chunks (length l) n l.

Section client.
(** The delay until a date of HTTP; the answer to the n-th attempt at a request; the error
    of the context after it; and whether the wait before the next is cut short. *)
Context (until_date : string → option Z).
Context (attempt_of : string → nat → result string http_response).
Context (context_err wait_err : nat → option string).

Definition retryAfter (resp : option http_response) (attempt : nat) : Z :=
  let backoff := (100000000 * 2 ^ Z.of_nat attempt)%Z in
  match resp with
  | None => backoff
  | Some resp =>
      match parse_int (retry_after resp) with
      | Some seconds =>
          if (0 <=? seconds)%Z then (if (30 <=? seconds)%Z then 30 * second else seconds * second)%Z
          else match until_date (retry_after resp) with
               | Some delay => if (0 <? delay)%Z then Z.min delay (30 * second) else backoff
               | None => backoff
               end
      | None =>
          match until_date (retry_after resp) with
          | Some delay => if (0 <? delay)%Z then Z.min delay (30 * second) else backoff
          | None => backoff
          end
      end
  end.

(** The loop from an attempt on: the delays it waited, and what it returns. *)
Fixpoint get_from (req : string) (remaining attempt : nat) : list Z * result upstream_error http_response :=
  match remaining with
  | 0 => ([], Err (RequestError ""))
  | S remaining =>
      let last := bool_decide (S attempt = upstreamGETAttempts) in
      let retry resp :=
        match context_err attempt with
        | Some e => ([], Err (ContextError e))
        | None =>
            let delay := retryAfter resp attempt in
            match wait_err attempt with
            | Some e => ([delay], Err (ContextError e))
            | None => let '(delays, r) := get_from req remaining (S attempt) in (delay :: delays, r)
            end
        end in
      match attempt_of req attempt with
      | Ok resp => if negb (retryableUpstreamStatus (status resp)) || last then ([], Ok resp) else retry (Some resp)
      | Err e => if last then ([], Err (RequestError e)) else retry None
      end
  end.

Definition doUpstreamGET (req : string) : list Z * result upstream_error http_response :=
  get_from req upstreamGETAttempts 0.

(** [maxResponseBytes]. *)
Definition maxResponseBytes : nat := Z.to_nat (32 * 2 ^ 20).

(** A query, encoded after the endpoint ([url.Values.Encode]). *)
Context (rpcURL gitBase : string) (encode_values : list (string * string) → string).
(** The envelope of a response: its error and its records; and a list of names. *)
Context (decode_envelope : string → option (string * list infoResult)) (decode_names : string → option (list string)).

Definition get (v : list (string * string)) : result upstream_error string :=
  resp ← (doUpstreamGET (rpcURL +:+ "?" +:+ encode_values v)).2;
  if decide (status resp = 200)%Z then mret (str_take maxResponseBytes (resp_body resp)) else Err (StatusError (status resp)).

Definition do_query (v : list (string * string)) : result upstream_error (list Pkg) :=
  body ← get v;
  match decode_envelope body with
  | None => Err DecodeError
  | Some (error, results) => if decide (error = "") then mret (map toPkg results) else Err (UpstreamError error)
  end.

Definition info_query (names : list string) : list (string * string) :=
  [("v", "5"); ("type", "info")] ++ map (λ n, ("arg[]", n)) names.

Definition Info (names : list string) : result upstream_error (list Pkg) :=
  foldM (λ out chunk, res ← do_query (info_query chunk); mret (out ++ res)) [] (Chunk names upstreamBatchSize).

Definition Search (by_ : By) (arg : string) : result upstream_error (list Pkg) :=
  do_query ([("v", "5"); ("type", "search"); ("arg", arg)] ++ (if decide (by_ ≠ "" ∧ by_ ≠ DefaultBy) then [("by", by_)] else [])).

Definition Suggest (arg : string) (pkgbase : bool) : result upstream_error (list string) :=
  body ← get [("v", "5"); ("type", if pkgbase then "suggest-pkgbase" else "suggest"); ("arg", arg)];
  result_of_option DecodeError (decode_names body).

(** [upstream_dump.go]; [gunzip] gives the bytes of a stream and whether it ends without error. *)
Context (gunzip : string → option (string * bool)) (PathEscape QueryEscape : string → string).

Definition maxNamesBytes : nat := Z.to_nat (64 * 2 ^ 20).

Definition gzipStream (url : string) : result upstream_error (string * bool) :=
  resp ← (doUpstreamGET url).2;
  if decide (status resp = 200)%Z then result_of_option GunzipError (gunzip (resp_body resp)) else Err (StatusError (status resp)).

Definition DumpReader (ext : bool) : result upstream_error (string * bool) :=
  gzipStream (gitBase +:+ if ext then "/packages-meta-ext-v1.json.gz" else "/packages-meta-v1.json.gz").

(** A stream that breaks after the limit is not read so far. *)
Definition FetchNames : result upstream_error (list string) :=
  '(data, good) ← gzipStream (gitBase +:+ "/packages.gz");
  if negb good && (String.length data <? maxNamesBytes)%nat then Err ReadError
  else mret (filter (λ l, l ≠ "") (map trim_space (split_char newline (str_take maxNamesBytes data)))).

Definition SnapshotURL (pkgbase : string) : string := gitBase +:+ "/cgit/aur.git/snapshot/" +:+ PathEscape pkgbase +:+ ".tar.gz".
Definition PlainURL (pkgname : string) : string := gitBase +:+ "/cgit/aur.git/plain/PKGBUILD?h=" +:+ QueryEscape pkgname.

(** ** Batches *)
Lemma chunks_spec {A} fuel n (l : list A) :
  0 < n → length l ≤ fuel → concat (chunks fuel n l) = l ∧ Forall (λ c, 0 < length c ≤ n) (chunks fuel n l).
Proof.
  clear; intros Hn; revert l; induction fuel as [|fuel IH]; intros [|a l] Hl; cbn in Hl; try (split; [done | constructor]).
  - lia.
  - cbn [chunks concat]; destruct (IH (drop n (a :: l))) as [Hc Hf]; [rewrite length_drop; cbn; lia |].
    split; [by rewrite Hc, take_drop |]; constructor; [| done].
    rewrite length_take; cbn; lia.
Qed.

(** A query for records is sent in requests of 1 to 150 names, in order, and is answered only
    if every one of them is. *)
Lemma Info_spec names :
  ∃ batches, concat batches = names ∧ Forall (λ b, 0 < length b ≤ upstreamBatchSize) batches ∧
    match Info names with
    | Ok pkgs => ∃ answers, Forall2 (λ b a, do_query (info_query b) = Ok a) batches answers ∧ pkgs = concat answers
    | Err e => ∃ b, b ∈ batches ∧ do_query (info_query b) = Err e
    end.
Proof.
  unfold Info, Chunk; set (bs := chunks _ _ _).
  assert (concat bs = names ∧ Forall (λ b, 0 < length b ≤ upstreamBatchSize) bs) as [Hc Hf]
    by (apply chunks_spec; [unfold upstreamBatchSize; lia | done]).
  exists bs; split_and!; [done | done |]; clear Hc Hf; clearbody bs.
  assert (∀ out, match foldM (λ out chunk, res ← do_query (info_query chunk); mret (out ++ res)) out bs with
    | Ok pkgs => ∃ answers, Forall2 (λ b a, do_query (info_query b) = Ok a) bs answers ∧ pkgs = out ++ concat answers
    | Err e => ∃ b, b ∈ bs ∧ do_query (info_query b) = Err e
    end) as H; [| apply (H [])].
  induction bs as [|b bs IH]; intros out; cbn [foldM].
  { exists []; split; [constructor | by rewrite app_nil_r]. }
  destruct (do_query (info_query b)) as [a | e] eqn:Hb; cbn [mbind result_bind mret result_ret];
    [| exists b; split; [by left | done]].
  specialize (IH (out ++ a)); destruct (foldM _ _ _) as [pkgs | e].
  - destruct IH as (answers & Hf & ->); exists (a :: answers); split; [by constructor | by rewrite <- app_assoc].
  - destruct IH as (b' & Hb' & He); exists b'; split; [by right | done].
Qed.

(** ** Retries *)
Lemma retryAfter_bounds resp attempt :
  (Z.of_nat attempt < 8)%Z → (0 ≤ retryAfter resp attempt ≤ 30 * second)%Z.
Proof.
  clear; intros Ha; unfold retryAfter, second.
  assert (0 ≤ 100000000 * 2 ^ Z.of_nat attempt ≤ 30 * 1000000000)%Z.
  { pose proof (Z.pow_le_mono_r 2 (Z.of_nat attempt) 7 ltac:(lia) ltac:(lia)).
    pose proof (Z.pow_nonneg 2 (Z.of_nat attempt) ltac:(lia)); lia. }
  destruct resp as [resp |]; [| done].
  assert (∀ o, (0 ≤ match o with Some delay => if (0 <? delay) then Z.min delay (30 * 1000000000) else 100000000 * 2 ^ Z.of_nat attempt
    | None => 100000000 * 2 ^ Z.of_nat attempt end ≤ 30 * 1000000000)%Z) as Hd.
  { intros [d |]; [destruct (Z.ltb_spec 0 d); lia | done]. }
  destruct (parse_int _) as [n |]; [| apply Hd].
  destruct (Z.leb_spec 0 n); [| apply Hd]; destruct (Z.leb_spec 30 n); lia.
Qed.

Definition calls_for_retry (req : string) (n : nat) : Prop :=
  match attempt_of req n with Ok resp => retryableUpstreamStatus (status resp) = true | Err _ => True end.

(** The outcome of the attempts of a request from one on, of which [m] may be repeated. *)
Definition outcome (req : string) (m attempt : nat) (o : list Z * result upstream_error http_response) : Prop :=
  length o.1 ≤ m ∧ Forall (λ d, 0 ≤ d ≤ 30 * second)%Z o.1 ∧
  match o.2 with
  | Ok resp => ∃ n, attempt ≤ n < upstreamGETAttempts ∧ attempt_of req n = Ok resp ∧
      (retryableUpstreamStatus (status resp) = true → S n = upstreamGETAttempts) ∧
      ∀ k, attempt ≤ k < n → calls_for_retry req k
  | Err _ => ∀ n, attempt ≤ n < attempt + length o.1 → calls_for_retry req n
  end.

Lemma outcome_stop req m attempt r :
  attempt < upstreamGETAttempts →
  match r with
  | Ok resp => attempt_of req attempt = Ok resp ∧
      (retryableUpstreamStatus (status resp) = true → S attempt = upstreamGETAttempts)
  | Err _ => True
  end → outcome req m attempt ([], r).
Proof.
  intros Ha Hr; split_and!; [cbn; lia | constructor |]; cbn; destruct r as [resp | e]; [| lia].
  destruct Hr; exists attempt; split_and!; try done; lia.
Qed.

Lemma outcome_again req m attempt d o :
  (0 ≤ d ≤ 30 * second)%Z → calls_for_retry req attempt → outcome req m (S attempt) o →
  outcome req (S m) attempt (d :: o.1, o.2).
Proof.
  intros Hd Hc (Hl & Hf & Hr); split_and!; [cbn; lia | by constructor |]; cbn; destruct o.2 as [resp | e].
  - destruct Hr as (n & Hn & Ha & Hs & Hk); exists n; split_and!; [lia | lia | done | done |].
    intros k Hkn; destruct (decide (k = attempt)) as [-> | Hne]; [done | apply Hk; lia].
  - intros n Hn; destruct (decide (n = attempt)) as [-> | Hne]; [done | apply Hr; lia].
Qed.

Lemma get_from_outcome req m attempt :
  attempt + S m = upstreamGETAttempts → outcome req m attempt (get_from req (S m) attempt).
Proof.
  revert attempt; induction m as [|m IH]; intros attempt Ha.
  - cbn [get_from]; rewrite (bool_decide_eq_true_2 (S attempt = upstreamGETAttempts)) by lia.
    destruct (attempt_of req attempt) as [resp | e] eqn:Hr; rewrite ?orb_true_r; (apply outcome_stop; [lia |]); [split; [done | intros _; lia] | done].
  - specialize (IH (S attempt) ltac:(lia)).
    remember (S m) as n eqn:Hn; cbn [get_from]; subst n.
    rewrite (bool_decide_eq_false_2 (S attempt = upstreamGETAttempts)) by lia.
    assert (∀ resp, calls_for_retry req attempt → outcome req (S m) attempt
      match context_err attempt with
      | Some e => ([], Err (ContextError e))
      | None => match wait_err attempt with
                | Some e => ([retryAfter resp attempt], Err (ContextError e))
                | None => let '(delays, r) := get_from req (S m) (S attempt) in (retryAfter resp attempt :: delays, r)
                end
      end) as Hretry.
    { intros resp Hc; destruct (context_err attempt); [apply outcome_stop; [lia | done] |].
      pose proof (retryAfter_bounds resp attempt) as Hd; change upstreamGETAttempts with 4 in *.
      specialize (Hd ltac:(lia)); destruct (wait_err attempt) as [e |].
      - apply (outcome_again req m attempt _ ([], Err (ContextError e))); [done | done | apply outcome_stop; [unfold upstreamGETAttempts; lia | done]].
      - apply (outcome_again req m attempt (retryAfter resp attempt)) in IH; [| done | done].
        by destruct (get_from req (S m) (S attempt)). }
    assert (calls_for_retry req attempt ∨ ∃ resp, attempt_of req attempt = Ok resp ∧ retryableUpstreamStatus (status resp) = false) as Hc.
    { unfold calls_for_retry; destruct (attempt_of req attempt) as [resp |]; [| by left].
      destruct (retryableUpstreamStatus (status resp)) eqn:Hs; [by left | right; by exists resp]. }
    destruct Hc as [Hc | (resp & Hr & Hs)].
    + unfold calls_for_retry in Hretry, Hc; destruct (attempt_of req attempt) as [resp |]; [rewrite Hc |]; by apply Hretry.
    + rewrite Hr, Hs; cbn [negb orb]; apply outcome_stop; [lia | by rewrite Hs].
Qed.

(** A request is made at most four times, with waits of at most 30 seconds in between; it is
    answered by the first response that calls for no retry, or by the last attempt. *)
Lemma doUpstreamGET_spec req : outcome req 3 0 (doUpstreamGET req).
Proof. by apply (get_from_outcome req 3 0). Qed.
End client.
