(* ===== verification/KayoTrust.v ===== *)
(** * The trust gate of kayo (kayo/trust, federate, clonecache, service/verify.go)

    Approvals, the sources kayo merges by rank, the gate each record passes, and the check of a
    pacman transaction.  Backends are records of functions, as in [Aurweb]; a backend that
    fails is skipped.  The clock, JSON and git are parameters. *)

From S2P Require Import Prelude GoStrings Aurweb.

(** ** [trust/store.go] *)
Record TrustedMaintainer := mkTrusted { tm_Source : string; tm_Account : string; tm_AddedAt : Z; tm_Note : string }.
Record WhitelistEntry := mkWhitelist { wl_Pkgbase : string; wl_AddedAt : Z; wl_Note : string }.
Record Approval := mkApproval {
  ap_Pkgbase : string; ap_Source : string; ap_Maintainer : string; ap_Commit : string; ap_AuditMax : string; ap_ApprovedAt : Z;
}.

Record Store := mkStore {
  Maintainers : gmap string TrustedMaintainer;
  Approvals : gmap string Approval;
  Whitelist : gmap string WhitelistEntry;
}.

#[export] Instance eta_Store : Eta Store := λ s, mkStore (Maintainers s) (Approvals s) (Whitelist s).

Definition empty_store : Store := mkStore ∅ ∅ ∅.

Definition mkey (source account : string) : string := source +:+ String "000" account.

Definition TrustMaintainer (now : Z) (source account note : string) (s : Store) : Store :=
  if decide (account = "") then s
  else if decide (is_Some (Maintainers s !! mkey source account)) then s
  else s <| Maintainers := <[mkey source account := mkTrusted source account now note]> (Maintainers s) |>.

Definition UntrustMaintainer (source account : string) (s : Store) : Store :=
  s <| Maintainers := delete (mkey source account) (Maintainers s) |>.

Definition IsMaintainerTrusted (s : Store) (source account : string) : bool :=
  bool_decide (is_Some (Maintainers s !! mkey source account)).

(** The zero time is [0]. *)
Definition Approve (now : Z) (a : Approval) (s : Store) : Store :=
  let a := if decide (ap_ApprovedAt a = 0%Z)
           then mkApproval (ap_Pkgbase a) (ap_Source a) (ap_Maintainer a) (ap_Commit a) (ap_AuditMax a) now else a in
  s <| Approvals := <[ap_Pkgbase a := a]> (Approvals s) |>.

Definition approval (s : Store) (pkgbase : string) : option Approval := Approvals s !! pkgbase.
Definition RemoveApproval (pkgbase : string) (s : Store) : Store := s <| Approvals := delete pkgbase (Approvals s) |>.

Definition AddWhitelist (now : Z) (pkgbase note : string) (s : Store) : Store :=
  if decide (pkgbase = "") then s
  else if decide (is_Some (Whitelist s !! pkgbase)) then s
  else s <| Whitelist := <[pkgbase := mkWhitelist pkgbase now note]> (Whitelist s) |>.

Definition RemoveWhitelist (pkgbase : string) (s : Store) : Store := s <| Whitelist := delete pkgbase (Whitelist s) |>.
Definition IsWhitelisted (s : Store) (pkgbase : string) : bool := bool_decide (is_Some (Whitelist s !! pkgbase)).

(** ** [trust/evaluate.go] *)
Inductive TrustDecision := Trusted | NeedsReview.

#[export] Instance TrustDecision_eq : EqDecision TrustDecision.
Proof. solve_decision. Defined.

Inductive Reason :=
| Unreviewed
| SourceChanged (old new : string)
| MaintainerChanged (old new : string).

Record Verdict := mkVerdict { decision : TrustDecision; Reasons : list Reason }.

Definition Evaluate (s : Store) (source pkgbase maintainer : string) : Verdict :=
  if decide (source = "overlay") then mkVerdict Trusted []
  else if IsWhitelisted s pkgbase then mkVerdict Trusted []
  else
    match approval s pkgbase with
    | None => mkVerdict NeedsReview [Unreviewed]
    | Some ap =>
        if decide (ap_Source ap ≠ source) then mkVerdict NeedsReview [SourceChanged (ap_Source ap) source]
        else if decide (ap_Maintainer ap ≠ maintainer) then
          if negb (bool_decide (maintainer = "")) && IsMaintainerTrusted s source maintainer then mkVerdict Trusted []
          else mkVerdict NeedsReview [MaintainerChanged (ap_Maintainer ap) maintainer]
        else mkVerdict Trusted []
    end.

(** A nil store trusts everything. *)
Definition EvaluateResolved (s : option Store) (source pkgbase maintainer : string) (delegatedVerified : bool) : Verdict :=
  match s with
  | None => mkVerdict Trusted []
  | Some s => if delegatedVerified then mkVerdict Trusted [] else Evaluate s source pkgbase maintainer
  end.

(** ** [federate/gate.go] *)

(** [fmt.Sprintf] with [%q]: quoting is a parameter of the annotation. *)
Section gate.
Context (quote : string → string).

Definition reason_text (r : Reason) : string :=
  match r with
  | Unreviewed => "unreviewed package"
  | SourceChanged old new => "source changed: " +:+ quote old +:+ " -> " +:+ quote new
  | MaintainerChanged old new => "maintainer changed: " +:+ quote old +:+ " -> " +:+ quote new
  end.

Definition gate (s : option Store) (mode source : string) (delegatedVerified : bool) (p : Pkg) : option Pkg :=
  let v := EvaluateResolved s source (PackageBase p) (Maintainer p) delegatedVerified in
  if decide (decision v = Trusted) then Some p
  else if decide (mode = "enforce") then None
  else
    match s ≫= λ s, approval s (PackageBase p) with
    | Some _ => Some (p <| Description := "[kayo: " +:+ join "; " (map reason_text (Reasons v)) +:+ "] " +:+ Description p |>)
    | None => Some p
    end.

Definition gateAll (s : option Store) (mode : string) (pkgs : list Pkg) : list Pkg := omap (gate s mode "aur" false) pkgs.

(** [TrustUpstream]: only [Info] and [Search] pass the gate. *)
Definition TrustUpstream (u : Upstream) (s : option Store) (mode : string) : Upstream :=
  mkUpstream (λ names, gateAll s mode <$> u_Info u names) (λ by_ arg, gateAll s mode <$> u_Search u by_ arg)
    (u_Suggest u) (u_GitBase u) (u_SnapshotURL u) (u_PlainURL u) (u_Dump u).

(** ** [federate/composite.go] *)
Inductive Tier := TierAyato | TierOverlay.

#[export] Instance Tier_eq : EqDecision Tier.
Proof. solve_decision. Defined.

Definition tier_rank (t : Tier) : nat := match t with TierAyato => 0 | TierOverlay => 1 end.

(** A backend of the composite; the errors it logs and skips are kept. *)
Record Source := mkSource {
  s_Info : list string → result string (list Pkg);
  s_Search : By → string → result string (list Pkg);
  s_Suggest : string → bool → result string (list string);
  s_All : result string (list Pkg);
  s_SourceURL : string → result string (option string);
}.

(** [verified] is what the callback answers now, when there is one. *)
Record entry := mkEntry {
  backend : Source; tier : Tier; priority : Z; source : string; delegated : bool; verified : option bool;
}.

Definition delegatedVerified (e : entry) : bool := delegated e && match verified e with Some v => v | None => false end.

Record Composite := mkComposite { entries : list entry; store : option Store; mode : string }.

(** Higher tiers first, then higher priorities. *)
Definition ranks (a b : entry) : Prop :=
  tier_rank (tier b) < tier_rank (tier a) ∨ tier a = tier b ∧ (priority b ≤ priority a)%Z.

#[export] Instance ranks_dec a b : Decision (ranks a b).
Proof. unfold ranks; apply _. Defined.

Definition New : Composite := mkComposite [] None "".
Definition SetGate (s : Store) (m : string) (c : Composite) : Composite := mkComposite (entries c) (Some s) m.
Definition add (e : entry) (c : Composite) : Composite := mkComposite (merge_sort ranks (entries c ++ [e])) (store c) (mode c).
Definition Add (b : Source) (t : Tier) (prio : Z) (src : string) : Composite → Composite := add (mkEntry b t prio src false None).
Definition AddDelegated (b : Source) (t : Tier) (prio : Z) (src : string) (v : bool) : Composite → Composite :=
  add (mkEntry b t prio src true (Some v)).

Definition keep (c : Composite) (e : entry) (p : Pkg) : option Pkg := gate (store c) (mode c) (source e) (delegatedVerified e) p.

Definition gateUnique (c : Composite) (all : list (entry * Pkg)) : list Pkg :=
  omap (λ '(e, p), keep c e p) (uniq_by (λ item, Name item.2) all).

(** The records of every source that answers, in the order of the sources. *)
Definition collect (c : Composite) (ask : Source → result string (list Pkg)) : list (entry * Pkg) :=
  concat (map (λ e, match ask (backend e) with Ok pkgs => map (pair e) pkgs | Err _ => [] end) (entries c)).

Definition Info (c : Composite) (names : list string) : list Pkg := gateUnique c (collect c (λ b, s_Info b names)).
Definition Search (c : Composite) (by_ : By) (arg : string) : list Pkg := gateUnique c (collect c (λ b, s_Search b by_ arg)).
Definition All (c : Composite) : list Pkg := gateUnique c (collect c s_All).

Definition Suggest (c : Composite) (arg : string) (pkgbase : bool) : list string :=
  take SuggestLimit (uniq (concat (map (λ e, match s_Suggest (backend e) arg pkgbase with Ok l => l | Err _ => [] end) (entries c)))).

Fixpoint first_url (l : list entry) (pkgbase : string) : option string :=
  match l with
  | [] => None
  | e :: l => match s_SourceURL (backend e) pkgbase with Ok (Some u) => Some u | _ => first_url l pkgbase end
  end.

Definition SourceURL (c : Composite) (pkgbase : string) : option string := first_url (entries c) pkgbase.

Definition SourceURLFor (c : Composite) (src pkgbase : string) : result string (option string) :=
  match list_find (λ e, source e = src) (entries c) with
  | Some (_, e) => s_SourceURL (backend e) pkgbase
  | None => Ok None
  end.

Fixpoint resolve_in (l : list entry) (name : string) : option (Pkg * string * bool) :=
  match l with
  | [] => None
  | e :: l =>
      match s_Info (backend e) [name] with
      | Err _ => resolve_in l name
      | Ok pkgs =>
          match list_find (λ p, Name p = name) pkgs with
          | Some (_, p) => Some (p, source e, delegatedVerified e)
          | None => resolve_in l name
          end
      end
  end.

Definition Resolve (c : Composite) (name : string) : option (Pkg * string * bool) := resolve_in (entries c) name.

(** The composite as the backend of the AUR interface, and the server of [server.go] on it. *)
Definition as_backend (c : Composite) : Backend :=
  mkBackend (Info c) (Search c) (Suggest c) (Ok (All c)) (SourceURL c).

Definition surface (c : Composite) (u : option Upstream) : Server :=
  mkServer (as_backend c) ((λ u, TrustUpstream u (store c) (mode c)) <$> u) None.
End gate.

(** ** [clonecache/clonecache.go] *)
(** [Cached] is the field [Exists]. *)
Record Result_ := mkResult { Dir_ : string; Cached : bool; Head : string; Pinned : string; Matches : bool }.

Definition no_result : Result_ := mkResult "" false "" "" false.

Definition Drifted (r : Result_) : bool := Cached r && negb (Matches r).

(** A name of one local path component: what [filepath.IsLocal] and the other conditions leave. *)
Definition valid_pkgbase (p : string) : bool :=
  negb (bool_decide (p = "")) && negb (bool_decide (p = ".")) && negb (bool_decide (p = ".."))
  && negb (occurs "/" p) && negb (occurs "\" p) && negb (occurs "000" p).

Section verify.
(** Whether a checkout has a [.git], and its HEAD. *)
Context (has_git : string → bool) (HeadCommit : string → result string string).

Definition check_clone (root pkgbase pinned : string) : result string Result_ :=
  if negb (valid_pkgbase pkgbase) then Err ("invalid package base " +:+ pkgbase)
  else
    let dir := path_join [root; pkgbase] in
    if decide (root = "") then mret (mkResult dir false "" pinned false)
    else if negb (has_git dir) then mret (mkResult dir false "" pinned false)
    else
      head ← HeadCommit dir;
      mret (mkResult dir true head pinned (bool_decide (head = pinned))).

(** ** [service/verify.go] *)
Record verifyTarget := mkTarget { t_pkg : Pkg; t_source : string; t_delegated : bool }.
Record Verification := mkVerification { v_Name : string; v_Source : string; v_Pkgbase : string; v_Verdict : Verdict; v_Clone : Result_ }.

Inductive verify_error := ErrUpstream (err : string) | ErrUntrusted.

Definition lookup_managed (resolve : string → option (Pkg * string * bool)) (found : gmap string verifyTarget) (name : string) :
    gmap string verifyTarget :=
  match resolve name with Some (pkg, src, dv) => <[name := mkTarget pkg src dv]> found | None => found end.

(** The names no source resolves that are in no repository either: all of them when those
    cannot be listed. *)
Definition foreign_names (resolve : string → option (Pkg * string * bool)) (sync : result string (gset string)) (names : list string) : list string :=
  let unknown := filter (λ n, resolve n = None) names in
  match sync with Ok synced => filter (λ n, n ∉ synced) unknown | Err _ => unknown end.

Definition add_upstream (found : gmap string verifyTarget) (pkg : Pkg) : gmap string verifyTarget :=
  <[Name pkg := mkTarget pkg "aur" false]> found.

Definition find_targets (resolve : string → option (Pkg * string * bool)) (upstream : option (list string → result string (list Pkg)))
    (sync : result string (gset string)) (enforce : bool) (names : list string) : result verify_error (gmap string verifyTarget) :=
  let found := foldl (lookup_managed resolve) ∅ names in
  match upstream, foreign_names resolve sync names with
  | Some lookup, (_ :: _) as foreign =>
      match lookup foreign with
      | Ok packages => Ok (foldl add_upstream found packages)
      | Err e => if enforce then Err (ErrUpstream e) else Ok found
      end
  | _, _ => Ok found
  end.

Definition evaluate_one (s : Store) (found : gmap string verifyTarget) (name : string) : option Verification :=
  match found !! name with
  | None => None
  | Some t =>
      Some (mkVerification name (t_source t) (PackageBase (t_pkg t))
        (EvaluateResolved (Some s) (t_source t) (PackageBase (t_pkg t)) (Maintainer (t_pkg t)) (t_delegated t)) no_result)
  end.

Definition evaluateTrust (s : Store) (order : list string) (found : gmap string verifyTarget) : list Verification :=
  omap (evaluate_one s found) order.

(** The clone of a package with an approved commit; one that cannot be read is skipped. *)
Definition check_drift (s : Store) (root : string) (v : Verification) : Verification :=
  match approval s (v_Pkgbase v) with
  | None => v
  | Some ap =>
      if decide (ap_Commit ap = "") then v
      else match check_clone root (v_Pkgbase v) (ap_Commit ap) with
           | Err _ => v
           | Ok r => mkVerification (v_Name v) (v_Source v) (v_Pkgbase v) (v_Verdict v) (mkResult (Dir_ r) (Cached r) (Head r) (ap_Commit ap) (Matches r))
           end
  end.

Definition untrusted (v : Verification) : bool := bool_decide (decision (v_Verdict v) ≠ Trusted).

(** The verifications of a transaction, and whether it may go on. *)
Definition verify (s : Store) (resolve : string → option (Pkg * string * bool))
    (upstream : option (list string → result string (list Pkg))) (sync : result string (gset string))
    (root : string) (strict : bool) (enforceMode : string) (names : list string) : list Verification * option verify_error :=
  if decide (names = []) then ([], None)
  else
    let enforce := strict || bool_decide (enforceMode = "enforce") in
    match find_targets resolve upstream sync enforce names with
    | Err e => ([], Some e)
    | Ok found =>
        let results := map (check_drift s root) (evaluateTrust s names found) in
        if existsb (λ v, untrusted v || Drifted (v_Clone v)) results && enforce then (results, Some ErrUntrusted)
        else (results, None)
    end.
End verify.
