(* ===== verification/KayoIndex.v ===== *)
(** * The snapshot index of kayo's sources (kayo/pkgindex/index.go)

    A published snapshot is immutable: a refresh replaces it as a whole. *)

From S2P Require Import Prelude GoStrings Aurweb KayoTrust.

Module Index.
Record snapshot := mkSnapshot { byName : gmap string Pkg; sources : gmap string string; names : list string }.

Definition New : snapshot := mkSnapshot ∅ ∅ [].

Section index.
Context {R : RangeOrder} {U : Unicode}.

Definition Replace (byName : gmap string Pkg) (sources : gmap string string) : snapshot :=
  mkSnapshot byName sources (sort_strings (range_keys (dom byName))).

Definition Info (i : snapshot) (requested : list string) : list Pkg := omap (λ n, byName i !! n) requested.

Definition Search (i : snapshot) (by_ : By) (arg : string) : list Pkg :=
  sort_by Name (filter (λ p, Match p by_ arg = true) (range_map (byName i)).*2).

Definition SuggestPool (i : snapshot) (pkgbase : bool) : list string :=
  if pkgbase then sort_strings (uniq (map PackageBase (range_map (byName i)).*2)) else names i.

Definition Suggest (i : snapshot) (arg : string) (pkgbase : bool) : list string :=
  take SuggestLimit (filter (λ n, has_prefix n arg = true) (SuggestPool i pkgbase)).

Definition All (i : snapshot) : list Pkg := sort_by Name (range_map (byName i)).*2.

Definition as_source (i : snapshot) : Source :=
  mkSource (λ names, Ok (Info i names)) (λ by_ arg, Ok (Search i by_ arg)) (λ arg b, Ok (Suggest i arg b)) (Ok (All i))
    (λ pkgbase, Ok (sources i !! pkgbase)).
End index.
End Index.
