(* ===== verification/KayoTrustSpec.v ===== *)
(** * What the trust gate of kayo promises

    Verdicts, the sources in the order of their ranks, the records a client is given, and the
    transactions the pacman hook lets through. *)

From S2P Require Import Prelude GoStrings Aurweb AurwebSpec KayoTrust KayoIndex.

(** ** Verdicts *)
Lemma EvaluateResolved_trusted s src base maint dv :
  decision (EvaluateResolved (Some s) src base maint dv) = Trusted ↔
  dv = true ∨ src = "overlay" ∨ is_Some (Whitelist s !! base) ∨
  ∃ ap, approval s base = Some ap ∧ ap_Source ap = src ∧
    (ap_Maintainer ap = maint ∨ maint ≠ "" ∧ is_Some (Maintainers s !! mkey src maint)).
Proof.
  destruct dv; [split; [by left | done] |]; unfold EvaluateResolved, Evaluate, IsWhitelisted, IsMaintainerTrusted.
  case_decide; [split; [auto | done] |]; case_bool_decide; [split; [auto | done] |].
  destruct (approval s base) as [ap |]; [| split; [done | naive_solver]].
  case_decide as Hs; [split; [done | naive_solver] |].
  case_decide as Hm.
  - destruct (decide (maint ≠ "" ∧ is_Some (Maintainers s !! mkey src maint))) as [[Hne Ht] | Hn].
    + rewrite (bool_decide_eq_false_2 (maint = "")), (bool_decide_eq_true_2 (is_Some _)) by done; cbn [negb andb].
      split; [intros _; right; right; right; exists ap; auto | done].
    + destruct (negb _ && _) eqn:Hc; [| split; [done | naive_solver]].
      apply andb_true_iff in Hc as [Hne Ht]; rewrite negb_true_iff, bool_decide_eq_false in Hne.
      rewrite bool_decide_eq_true in Ht; by destruct Hn.
  - split; [intros _; right; right; right; exists ap; auto | done].
Qed.

Lemma gate_enforce quote s src dv p q :
  gate quote (Some s) "enforce" src dv p = Some q →
  q = p ∧ decision (EvaluateResolved (Some s) src (PackageBase p) (Maintainer p) dv) = Trusted.
Proof. unfold gate; case_decide; [by intros [= <-] | by rewrite decide_True by done]. Qed.

(** ** The order of the sources *)
#[export] Instance ranks_trans : Transitive ranks.
Proof.
  intros a b c [?|[??]] [?|[??]]; unfold ranks in *; [left; lia | left | left | right].
  - match goal with H : tier b = tier c |- _ => rewrite <- H end; done.
  - match goal with H : tier a = tier b |- _ => rewrite H end; done.
  - split; [congruence | lia].
Qed.

#[export] Instance ranks_total : Total ranks.
Proof.
  intros a b; unfold ranks.
  destruct (tier a), (tier b); cbn; destruct (Z.le_ge_cases (priority a) (priority b)); auto with lia.
Qed.

Lemma add_sorted e c : StronglySorted ranks (entries (add e c)).
Proof. apply StronglySorted_merge_sort; apply _. Qed.

(** A composite as the services build it. *)
Inductive built : Composite → Prop :=
| built_New : built New
| built_SetGate s m c : built c → built (SetGate s m c)
| built_add e c : built c → built (add e c).

Lemma built_sorted c : built c → StronglySorted ranks (entries c).
Proof. induction 1; [constructor | done | apply add_sorted]. Qed.

(** [a] is of a higher tier than [b], or of the same tier with a higher priority. *)
Definition outranks (a b : entry) : Prop := ranks a b ∧ ¬ ranks b a.

(** The record of [e] that is answered for its name: no source that outranks [e] lists the name. *)
Definition winner (c : Composite) (ask : Source → result string (list Pkg)) (e : entry) (p : Pkg) : Prop :=
  e ∈ entries c ∧ (∃ pkgs, ask (backend e) = Ok pkgs ∧ p ∈ pkgs) ∧
  ∀ e' pkgs, e' ∈ entries c → outranks e' e → ask (backend e') = Ok pkgs → Name p ∉ map Name pkgs.

(** [uniq_by] keeps the first item of each key. *)
Lemma uniq_by_first {A} (key : A → string) seen l a :
  a ∈ uniq_by_aux key seen l → ∃ l1 l2, l = l1 ++ a :: l2 ∧ key a ∉ map key l1.
Proof.
  revert seen; induction l as [|b l IH]; intros seen; cbn [uniq_by_aux]; [by rewrite elem_of_nil |].
  assert (∀ seen', key b ∈ seen' → a ∈ uniq_by_aux key seen' l → ∃ l1 l2, b :: l = l1 ++ a :: l2 ∧ key a ∉ map key l1) as Hlater.
  { intros seen' Hb Ha; destruct (IH _ Ha) as (l1 & l2 & -> & Hn); exists (b :: l1), l2; split; [done |].
    apply elem_of_uniq_by_aux in Ha as [_ Ha]; cbn; rewrite elem_of_cons; intros [Heq | ?]; [congruence | done]. }
  case_decide as Hb; [by apply Hlater |].
  rewrite elem_of_cons; intros [-> | Ha]; [exists [], l; split; [done | apply not_elem_of_nil] | eapply Hlater; [| done]; set_solver].
Qed.

Lemma concat_split {A B} (f : A → list B) l l1 x l2 :
  concat (map f l) = l1 ++ x :: l2 → ∃ k1 a k2, l = k1 ++ a :: k2 ∧ x ∈ f a ∧ ∀ y, y ∈ concat (map f k1) → y ∈ l1.
Proof.
  revert l1; induction l as [|a l IH]; intros l1; cbn [map concat]; [by destruct l1 |].
  intros Heq; apply app_eq_inv in Heq as [(k & Hf & Hk) | (k & -> & Hk)].
  - destruct k as [|y k]; cbn in Hk.
    + destruct (IH [] (eq_sym Hk)) as (k1 & a' & k2 & -> & Hx & Hb).
      rewrite app_nil_r in Hf; exists (a :: k1), a', k2; split_and!; [done | done |].
      intros y; cbn; rewrite elem_of_app; intros [Hy | Hy]; [by rewrite <- Hf | by apply Hb, elem_of_nil in Hy].
    + injection Hk as <- ->; exists [], a, l; split_and!; [done | rewrite Hf; apply elem_of_app; right; by left |].
      by intros y Hy; apply elem_of_nil in Hy.
  - destruct (IH k Hk) as (k1 & a' & k2 & -> & Hx & Hb); exists (a :: k1), a', k2; split_and!; [done | done |].
    intros y; cbn; rewrite !elem_of_app; intros [Hy | Hy]; [by left | right; by apply Hb].
Qed.

Section served.
Context (quote : string → string).

Lemma gateUnique_winner c ask q :
  built c → q ∈ gateUnique quote c (collect c ask) →
  ∃ e p, winner c ask e p ∧ keep quote c e p = Some q.
Proof.
  intros Hc%built_sorted ([e p] & Hu & Hk)%list_elem_of_omap; exists e, p; split; [| done].
  destruct (uniq_by_first _ _ _ _ Hu) as (l1 & l2 & Hl & Hn); cbn [snd] in Hn.
  destruct (concat_split _ _ _ _ _ Hl) as (k1 & e0 & k2 & He & Hin & Hbefore).
  destruct (ask (backend e0)) as [pkgs |] eqn:Hask; [| by apply elem_of_nil in Hin].
  apply list_elem_of_fmap in Hin as (p0 & [= <- <-] & Hp).
  split_and!; [rewrite He; apply elem_of_app; right; by left | by exists pkgs |].
  intros e' pkgs' He' Hout Hask' Hname.
  rewrite He in Hc, He'; apply elem_of_app in He' as [He' | He'].
  - apply Hn, list_elem_of_fmap; apply list_elem_of_fmap in Hname as (p' & Hp' & Hin').
    exists (e', p'); split; [done |]; apply Hbefore, elem_of_concat_map.
    exists e'; split; [done |]; rewrite Hask'; apply list_elem_of_fmap; by exists p'.
  - destruct Hout as [Hr Hnr]; apply Hnr.
    apply elem_of_cons in He' as [-> | He']; [done |].
    apply StronglySorted_app in Hc as (_ & _ & Hc); apply StronglySorted_inv in Hc as [_ Hc].
    rewrite Forall_forall in Hc; by apply Hc.
Qed.

(** ** What a client is given *)
Context (decode_body : string → option (string * list string)) {U : Unicode}.

(** The questions a request makes the sources answer. *)
Definition asks (r : http_request) (ask : Source → result string (list Pkg)) : Prop :=
  let q := parseRPC decode_body r in
  ask = (λ b, s_Info b (dedupeNonEmpty (q_args q))) ∨
  (∃ by_, ask = λ b, s_Search b by_ (first_nonempty (q_args q))) ∨
  ask = s_All.

(** The upstream is asked only for the names kayo's own sources did not answer; what a search
    of it adds has no name of theirs. *)
Definition upstream_gave (c : Composite) (u : option Upstream) (r : http_request) (p : Pkg) : Prop :=
  let q := parseRPC decode_body r in
  ∃ v pkgs, u = Some v ∧ p ∈ pkgs ∧
    ((let names := dedupeNonEmpty (q_args q) in
      let missing := filter (λ n, n ∉ map Name (Info quote c names)) names in
      missing ≠ [] ∧ u_Info v missing = Ok pkgs) ∨
     (∃ by_, let arg := first_nonempty (q_args q) in
      u_Search v by_ arg = Ok pkgs ∧ Name p ∉ map Name (Search quote c by_ arg))).

(** A record of the source that wins its name, trusted as one of that very source; or one the
    upstream gave, trusted as one of the AUR. *)
Definition vouched (c : Composite) (s : Store) (u : option Upstream) (r : http_request) (p : Pkg) : Prop :=
  (∃ ask e, asks r ask ∧ winner c ask e p ∧
     decision (EvaluateResolved (Some s) (source e) (PackageBase p) (Maintainer p) (delegatedVerified e)) = Trusted) ∨
  (upstream_gave c u r p ∧ decision (Evaluate s "aur" (PackageBase p) (Maintainer p)) = Trusted).

Lemma composite_vouched c s u r ask q :
  built c → store c = Some s → mode c = "enforce" → asks r ask → q ∈ gateUnique quote c (collect c ask) → vouched c s u r q.
Proof using.
  intros Hb Hs Hm Hask (e & p & Hw & Hk)%gateUnique_winner; [| done].
  unfold keep in Hk; rewrite Hs, Hm in Hk; apply gate_enforce in Hk as [-> Ht]; left; by exists ask, e.
Qed.

Lemma gateAll_trusted s pkgs q :
  q ∈ gateAll quote (Some s) "enforce" pkgs → q ∈ pkgs ∧ decision (Evaluate s "aur" (PackageBase q) (Maintainer q)) = Trusted.
Proof using. by intros (p & Hin & [-> Ht]%gate_enforce)%list_elem_of_omap. Qed.

Lemma upstream_Info_vouched c s u r up q :
  let names := dedupeNonEmpty (q_args (parseRPC decode_body r)) in
  store c = Some s → mode c = "enforce" →
  from_upstream (surface quote c u) (filter (λ n, n ∉ map Name (Info quote c names)) names) up → q ∈ up → vouched c s u r q.
Proof using.
  intros names Hs Hm [-> | (v' & Hv & Hne & Hi)] Hq; [by apply elem_of_nil in Hq |].
  cbn in Hv; rewrite Hs, Hm in Hv; apply fmap_Some in Hv as (v & -> & ->); cbn in Hi.
  apply fmap_Ok in Hi as (pkgs & Hi & <-); apply gateAll_trusted in Hq as [Hin Ht].
  right; split; [| done]; exists v, pkgs; split_and!; [done | done |]; by left.
Qed.

Lemma upstream_Search_vouched c s u r by_ v' up q :
  let arg := first_nonempty (q_args (parseRPC decode_body r)) in
  store c = Some s → mode c = "enforce" →
  s_upstream (surface quote c u) = Some v' → u_Search v' by_ arg = Ok up →
  q ∈ up → Name q ∉ map Name (Search quote c by_ arg) → vouched c s u r q.
Proof using.
  intros arg Hs Hm Hv Hi Hq Hn.
  cbn in Hv; rewrite Hs, Hm in Hv; apply fmap_Some in Hv as (v & -> & ->); cbn in Hi.
  apply fmap_Ok in Hi as (pkgs & Hi & <-); apply gateAll_trusted in Hq as [Hin Ht].
  right; split; [| done]; exists v, pkgs; split_and!; [done | done |]; right; by exists by_.
Qed.

(** C28. In enforce mode kayo gives a client no record that is not trusted: every record in an
    answer, and every record of its own sources in a bulk dump, is the one of the highest-ranked
    source that lists the name, trusted as a record of that very source, by a review of that source
    that still names the same maintainer, by a vouched adoption, by the whitelist, as an overlay or
    by a catalog that verifies now; or it was given by the upstream, which is asked only for what
    kayo's sources do not list, and is trusted as a record of the AUR.  The elements of the
    upstream's own bulk dump pass through as they are: the code does not gate them. *)
Theorem kayo_serves_trusted c s u r :
  built c → store c = Some s → mode c = "enforce" →
  match ServeHTTP decode_body (surface quote c u) r with
  | Results _ _ pkgs _ => ∀ p, p ∈ pkgs → vouched c s u r p
  | MetaDump local _ _ => ∀ p, p ∈ local → vouched c s u r p
  | _ => True
  end.
Proof using.
  intros Hb Hs Hm; pose proof (ServeHTTP_ok decode_body (surface quote c u) r) as Hok.
  destruct (ServeHTTP _ _ _) as [| | | cb typ pkgs info | | | | | | local up ext |]; try done.
  - destruct info; destruct Hok as [_ Hok]; intros p Hp.
    + destruct Hok as (up & -> & Hup); apply elem_of_app in Hp as [Hp | Hp].
      * eapply (composite_vouched _ _ _ _ (λ b, s_Info b _)); [done.. | by left | exact Hp].
      * by eapply upstream_Info_vouched.
    + destruct Hok as (by_ & _ & [-> | (u' & up & Hu & Hi & _ & Hin)]); [| destruct (Hin p Hp) as [Hl | [Hl Hn]]].
      * eapply (composite_vouched _ _ _ _ (λ b, s_Search b by_ _)); [done.. | right; left; by exists by_ | exact Hp].
      * eapply (composite_vouched _ _ _ _ (λ b, s_Search b by_ _)); [done.. | right; left; by exists by_ | exact Hl].
      * by eapply upstream_Search_vouched.
  - destruct Hok as [[= <-] _]; intros p Hp.
    eapply (composite_vouched _ _ _ _ s_All); [done.. | by right; right | exact Hp].
Qed.
End served.

(** ** Served records and the check of the hook agree *)

(** What a source promises the composite: records only for the names asked. *)
Class Managed (b : Source) : Prop := managed_names names pkgs : s_Info b names = Ok pkgs → ∀ p, p ∈ pkgs → Name p ∈ names.

Lemma Index_Managed `{RangeOrder, Unicode} i :
  (∀ n p, Index.byName i !! n = Some p → Name p = n) → Managed (Index.as_source i).
Proof.
  intros Hi names pkgs [= <-] p (n & Hn & Hp)%list_elem_of_omap; by rewrite (Hi n p Hp).
Qed.

Lemma uniq_by_aux_same {A} (key : A → string) seen l k :
  Forall (λ a, key a = k) l → uniq_by_aux key seen l = if decide (k ∈ seen) then [] else take 1 l.
Proof.
  intros Hl; revert seen; induction Hl as [|a l Ha Hl IH]; intros seen; cbn [uniq_by_aux take]; [by case_decide |].
  rewrite Ha, !IH, (decide_True (P := k ∈ {[k]} ∪ seen)) by set_solver; by destruct (decide (k ∈ seen)).
Qed.

Lemma list_find_head (p : Pkg) pkgs n : Forall (λ p, Name p = n) (p :: pkgs) → list_find (λ p, Name p = n) (p :: pkgs) = Some (0, p).
Proof. intros [Hp _]%Forall_cons; cbn; by rewrite decide_True. Qed.

(** C30. The record a client of kayo gets for a name is the one the pacman hook resolves, let
    through exactly when the hook trusts it: the merged, deduplicated and gated answer is the
    first record of the first source that lists the name, put through the gate of that source. *)
Theorem Info_Resolve quote c name :
  Forall (λ e, Managed (backend e)) (entries c) →
  Info quote c [name] =
    match Resolve c name with
    | Some (p, src, dv) => option_list (gate quote (store c) (mode c) src dv p)
    | None => []
    end.
Proof.
  intros Hm; unfold Info, gateUnique, Resolve, collect, uniq_by.
  assert (Forall (λ item : entry * Pkg, Name item.2 = name)
    (concat (map (λ e, match s_Info (backend e) [name] with Ok pkgs => map (pair e) pkgs | Err _ => [] end) (entries c)))) as Hall.
  { apply Forall_forall; intros [e p] (e' & He & Hin)%elem_of_concat_map.
    rewrite Forall_forall in Hm; specialize (Hm e' He).
    destruct (s_Info (backend e') [name]) as [pkgs |] eqn:Hi; [| by apply elem_of_nil in Hin].
    apply list_elem_of_fmap in Hin as (p' & [= <- <-] & Hp).
    by apply (managed_names [name] pkgs Hi), list_elem_of_singleton in Hp. }
  rewrite (uniq_by_aux_same _ _ _ name Hall), decide_False by set_solver; clear Hm.
  induction (entries c) as [|e l IH]; [done |]; cbn [map concat resolve_in] in *.
  destruct (s_Info (backend e) [name]) as [[|p pkgs] |] eqn:Hi; [by apply IH | | by apply IH].
  apply Forall_app in Hall as [Hall _]; rewrite Forall_map in Hall; cbn in Hall.
  rewrite list_find_head by done; cbn; unfold keep; by destruct (gate _ _ _ _ _ _).
Qed.

(** ** The check of a transaction *)
Section verify.
Context (has_git : string → bool) (HeadCommit : string → result string string).
Context (s : Store) (resolve : string → option (Pkg * string * bool)) (root : string).
Notation "'clone_of'" := (check_clone has_git HeadCommit).

(** No readable clone of the helper is at a commit other than the approved one. *)
Definition clean (base : string) : Prop :=
  ∀ ap r, approval s base = Some ap → ap_Commit ap ≠ "" → clone_of root base (ap_Commit ap) = Ok r → Drifted r = false.

(** The target is trusted, and there is nothing else to build it from. *)
Definition passes (t : verifyTarget) : Prop :=
  decision (EvaluateResolved (Some s) (t_source t) (PackageBase (t_pkg t)) (Maintainer (t_pkg t)) (t_delegated t)) = Trusted ∧
  clean (PackageBase (t_pkg t)).

Lemma check_drift_clean v : Drifted (v_Clone v) = false →
  Drifted (v_Clone (check_drift has_git HeadCommit s root v)) = false → clean (v_Pkgbase v).
Proof using.
  unfold check_drift, clean; intros Hv Hd ap r Hap Hc Hr; rewrite Hap, decide_False, Hr in Hd by done; exact Hd.
Qed.

Lemma check_drift_verdict v : v_Verdict (check_drift has_git HeadCommit s root v) = v_Verdict v.
Proof using. unfold check_drift; by repeat case_match. Qed.

Lemma lookup_found names n :
  foldl (lookup_managed resolve) ∅ names !! n =
  if decide (n ∈ names) then (λ '(pkg, src, dv), mkTarget pkg src dv) <$> resolve n else None.
Proof using.
  assert (∀ m, foldl (lookup_managed resolve) m names !! n =
    if decide (n ∈ names) then match resolve n with Some (pkg, src, dv) => Some (mkTarget pkg src dv) | None => m !! n end else m !! n) as H.
  { induction names as [|k names IH]; intros m; cbn [foldl]; [by rewrite decide_False by apply not_elem_of_nil |].
    rewrite IH; unfold lookup_managed; destruct (decide (n = k)) as [-> | Hne].
    - rewrite (decide_True (P := k ∈ k :: names)) by by left.
      destruct (resolve k) as [[[pkg src] dv] |] eqn:Hr; case_decide; try done; by rewrite lookup_insert_eq.
    - assert (match resolve k with Some (pkg, src, dv) => <[k := mkTarget pkg src dv]> m | None => m end !! n = m !! n) as ->.
      { destruct (resolve k) as [[[pkg src] dv] |]; [by rewrite lookup_insert_ne | done]. }
      destruct (decide (n ∈ names)) as [Hn | Hn].
      + by rewrite decide_True by by right.
      + rewrite decide_False; [done |]; by intros [? | ?]%elem_of_cons. }
  rewrite H; case_decide; [| done]; by destruct (resolve n) as [[[pkg src] dv] |].
Qed.

Lemma lookup_add_upstream packages found n :
  (∀ p, p ∈ packages → Name p ≠ n) → foldl add_upstream found packages !! n = found !! n.
Proof using.
  revert found; induction packages as [|p packages IH]; intros found Hn; [done |]; cbn [foldl].
  rewrite IH by (intros p' Hp'; apply Hn; by right).
  unfold add_upstream; rewrite lookup_insert_ne; [done |]; intros Heq; by apply (Hn p); [left |].
Qed.

Lemma lookup_add_upstream_some packages found n :
  (∃ p, p ∈ packages ∧ Name p = n) →
  ∃ p, p ∈ packages ∧ Name p = n ∧ foldl add_upstream found packages !! n = Some (mkTarget p "aur" false).
Proof using.
  revert found; induction packages as [|p packages IH]; intros found (p' & Hp' & Hn); [by apply elem_of_nil in Hp' |].
  cbn [foldl]; destruct (decide (Exists (λ p, Name p = n) packages)) as [Hex | Hex].
  - apply Exists_exists in Hex as (q & Hq & Hqn).
    destruct (IH (add_upstream found p)) as (p2 & ? & ? & ?); [by exists q |]; exists p2; split_and!; [by right | done | done].
  - apply elem_of_cons in Hp' as [-> | Hp']; [| destruct Hex; apply Exists_exists; by exists p'].
    exists p; split_and!; [by left | done |].
    rewrite lookup_add_upstream.
    + unfold add_upstream; by rewrite Hn, lookup_insert_eq.
    + intros q Hq Hqn; apply Hex, Exists_exists; by exists q.
Qed.

Lemma passed_all found names t n :
  existsb (λ v, untrusted v || Drifted (v_Clone v)) (map (check_drift has_git HeadCommit s root) (evaluateTrust s names found)) = false →
  n ∈ names → found !! n = Some t → passes t.
Proof using.
  intros He Hn Ht.
  set (v := mkVerification n (t_source t) (PackageBase (t_pkg t))
    (EvaluateResolved (Some s) (t_source t) (PackageBase (t_pkg t)) (Maintainer (t_pkg t)) (t_delegated t)) no_result).
  assert (v ∈ evaluateTrust s names found) as Hv.
  { apply list_elem_of_omap; exists n; split; [done |]; unfold evaluate_one; by rewrite Ht. }
  assert (untrusted (check_drift has_git HeadCommit s root v) || Drifted (v_Clone (check_drift has_git HeadCommit s root v)) = false) as Hc.
  { apply not_true_iff_false; intros Htrue; rewrite <- not_true_iff_false in He; apply He, existsb_exists.
    exists (check_drift has_git HeadCommit s root v); split; [by apply in_map, list_elem_of_In | done]. }
  apply orb_false_iff in Hc as [Hu Hd]; unfold untrusted in Hu; rewrite bool_decide_eq_false, check_drift_verdict in Hu.
  split; [by apply dec_stable | by apply (check_drift_clean v)].
Qed.

(** C29. When the hook lets a transaction through in enforce mode, every name a source resolves
    is the record that source gives, trusted there and with no clone at another commit than the
    approved one; and every other name is of a repository, or unknown to the AUR too, or its
    record of the AUR is trusted and clean as well.  A lookup that fails blocks the
    transaction.  The upstream is taken to answer only the names it is asked for. *)
Theorem verify_enforced (lookup : list string → result string (list Pkg)) sync strict enforceMode names results :
  (∀ ns pkgs p, lookup ns = Ok pkgs → p ∈ pkgs → Name p ∈ ns) →
  strict || bool_decide (enforceMode = "enforce") = true →
  verify has_git HeadCommit s resolve (Some lookup) sync root strict enforceMode names = (results, None) →
  ∀ n, n ∈ names →
    match resolve n with
    | Some (pkg, src, dv) => passes (mkTarget pkg src dv)
    | None =>
        (∃ synced, sync = Ok synced ∧ n ∈ synced) ∨
        ∃ pkgs, lookup (foreign_names resolve sync names) = Ok pkgs ∧
          ((∀ p, p ∈ pkgs → Name p ≠ n) ∨ ∃ p, p ∈ pkgs ∧ Name p = n ∧ passes (mkTarget p "aur" false))
    end.
Proof using.
  intros Hlookup He Hv n Hn; unfold verify in Hv.
  rewrite decide_False in Hv by (intros ->; by apply elem_of_nil in Hn).
  rewrite He in Hv; destruct (find_targets _ _ _ _ _) as [found | e] eqn:Hf; [| done].
  destruct (existsb _ _) eqn:Hex; [done |]; clear Hv.
  assert (∀ ns, ns = foreign_names resolve sync names → ∀ k, k ∈ ns → resolve k = None) as Hforeign.
  { intros ns -> k; unfold foreign_names; destruct sync; rewrite ?list_elem_of_filter; tauto. }
  unfold find_targets in Hf; set (found0 := foldl (lookup_managed resolve) ∅ names) in Hf.
  assert (∀ t, found0 !! n = Some t → resolve n ≠ None → found !! n = Some t) as Hkeep.
  { intros t Ht Hr; destruct (foreign_names resolve sync names) as [|f fs] eqn:Hfs; [by simplify_eq |].
    destruct (lookup (f :: fs)) as [pkgs |] eqn:Hl; [| done]; injection Hf as <-.
    rewrite lookup_add_upstream; [done |]; intros p Hp Hpn.
    apply Hr, (Hforeign (f :: fs) eq_refl); rewrite <- Hpn; by apply (Hlookup _ _ _ Hl). }
  assert (found0 !! n = (λ '(pkg, src, dv), mkTarget pkg src dv) <$> resolve n) as H0
    by (unfold found0; by rewrite lookup_found, decide_True).
  destruct (resolve n) as [[[pkg src] dv] |] eqn:Hr.
  - eapply passed_all; [done | done |]; by apply Hkeep; [rewrite H0 |].
  - assert (n ∈ foreign_names resolve sync names ∨ ∃ synced, sync = Ok synced ∧ n ∈ synced) as [Hfn | Hs]; [| | by left].
    { unfold foreign_names; destruct sync as [synced | e].
      - destruct (decide (n ∈ synced)); [right; by exists synced | left]; rewrite !list_elem_of_filter; auto.
      - left; rewrite list_elem_of_filter; auto. }
    right; destruct (foreign_names resolve sync names) as [|f fs] eqn:Hfs; [by apply elem_of_nil in Hfn |].
    destruct (lookup (f :: fs)) as [pkgs |] eqn:Hl; [| done]; injection Hf as <-.
    exists pkgs; split; [done |].
    destruct (decide (Exists (λ p, Name p = n) pkgs)) as [Hin | Hin].
    + apply Exists_exists in Hin; destruct (lookup_add_upstream_some pkgs found0 n Hin) as (p & Hp & Hpn & Hlk).
      right; exists p; split_and!; [done | done |]; by eapply passed_all.
    + left; intros p Hp Hpn; apply Hin, Exists_exists; by exists p.
Qed.
End verify.
