(* ===== verification/KayoServe.v ===== *)
(** * Pinned repositories and reviews of kayo (kayo/gitserve, service/review.go, update.go)

    A served repository is the commit its HEAD points at.  Every file operation and every call of
    git may fail, and the states a reader can meet while a pin is replaced are kept.  Resolving
    a target, the audit and JSON are parameters. *)

From S2P Require Import Prelude GoStrings Aurweb KayoTrust.

(** ** [gitserve.go] *)

(** The served root: HEAD by pkgbase; and a previous pin left behind in the staging directory. *)
Record served := mkServed { pins : gmap string string; retained : list (string * string) }.

(** The error of each operation of [Materialize], if it fails. *)
Record faults := mkFaults {
  f_cancelled : option string; f_mkdir : option string; f_temp : option string; f_clone : option string;
  f_setref : option string; f_sethead : option string; f_info : option string; f_cancelled_late : option string;
  f_retain : option string; f_publish : option string; f_rollback : option string;
}.

Inductive pin_error :=
| ErrNoRoot
| ErrInvalidBase (pkgbase : string)
| ErrNoCommit
| ErrPrepare (err : string)
| ErrRetain (err : string)
| ErrPublish (err : string)
| ErrRetained (err rollback : string).

Definition repoPath (root pkgbase : string) : result pin_error string :=
  if decide (root = "") then Err ErrNoRoot
  else if negb (valid_pkgbase pkgbase) then Err (ErrInvalidBase pkgbase)
  else Ok (path_join [root; pkgbase +:+ ".git"]).

(** The first failure of the steps that build the replacement in the staging directory. *)
Definition prepare (f : faults) : option string :=
  head (omap id [f_cancelled f; f_mkdir f; f_temp f; f_clone f; f_setref f; f_sethead f; f_info f; f_cancelled_late f]).

(** The states of the root on the way, and the last one with the error. *)
Definition Materialize (f : faults) (root pkgbase commit : string) (s : served) : list served * served * option pin_error :=
  match repoPath root pkgbase with
  | Err e => ([], s, Some e)
  | Ok _ =>
      if decide (commit = "") then ([], s, Some ErrNoCommit)
      else
        match prepare f with
        | Some e => ([], s, Some (ErrPrepare e))
        | None =>
            match f_retain f with
            | Some e => ([], s, Some (ErrRetain e))
            | None =>
                let away := mkServed (delete pkgbase (pins s)) (retained s) in
                match f_publish f, pins s !! pkgbase with
                | None, _ => ([away], mkServed (<[pkgbase := commit]> (pins s)) (retained s), None)
                | Some e, None => ([away], away, Some (ErrPublish e))
                | Some e, Some previous =>
                    match f_rollback f with
                    | None => ([away], s, Some (ErrPublish e))
                    | Some e2 => ([away], mkServed (pins away) ((pkgbase, previous) :: retained s), Some (ErrRetained e e2))
                    end
                end
            end
        end
  end.

Definition Remove (root pkgbase : string) (s : served) : served * option pin_error :=
  match repoPath root pkgbase with
  | Err e => (s, Some e)
  | Ok _ => (mkServed (delete pkgbase (pins s)) (retained s), None)
  end.

Section serve.
Context {R : RangeOrder}.

(** The faults each pkgbase meets are given by its name. *)
Definition materialize_pin (fault : string → faults) (root : string) (pin : string → option string)
    (acc : served * nat * list pin_error) (pkgbase : string) : served * nat * list pin_error :=
  let '(s, n, errs) := acc in
  match pin pkgbase with
  | None => acc
  | Some commit =>
      if decide (commit = "") then acc
      else match Materialize (fault pkgbase) root pkgbase commit s with
           | (_, s', Some e) => (s', n, errs ++ [e])
           | (_, s', None) => (s', S n, errs)
           end
  end.

Definition MaterializePins (fault : string → faults) (root : string) (sources : gmap string string) (pin : string → option string) (s : served) :
    served * nat * list pin_error :=
  foldl (materialize_pin fault root pin) (s, 0, []) (range_keys (dom sources)).
End serve.

(** [Handler]: a clone of a pinned repository, or what the AUR interface answers. *)
Inductive git_reply := Pinned_files (pkgbase commit : string) | Fallback (r : reply).

Definition Handler_ServeHTTP (s : served) (fallback : http_request → reply) (r : http_request) : git_reply :=
  let base := PkgbaseFromGitPath (rq_Path r) in
  if decide (base = "") then Fallback (fallback r)
  else match pins s !! base with
       | Some commit => Pinned_files base commit
       | None => Fallback (fallback r)
       end.

(** ** [audit/scan.go] *)
Inductive Severity := SevInfo | SevLow | SevMedium | SevHigh.

Definition sev_rank (s : Severity) : nat := match s with SevInfo => 0 | SevLow => 1 | SevMedium => 2 | SevHigh => 3 end.
Definition sev_text (s : Severity) : string :=
  match s with SevHigh => "high" | SevMedium => "medium" | SevLow => "low" | SevInfo => "info" end.

Record Finding := mkFinding { Code : string; severity : Severity; Title : string; Detail : string }.

Definition Max (report : list Finding) : Severity :=
  foldl (λ highest f, if (sev_rank highest <? sev_rank (severity f))%nat then severity f else highest) SevInfo report.

Definition high (report : list Finding) : bool := (sev_rank SevHigh <=? sev_rank (Max report))%nat.

(** ** [service/resolve.go], [review.go], [update.go] *)
Record Resolved := mkResolved { r_Dir : string; r_Source : string; r_Pkgbase : string; r_Maintainer : string; r_Commit : string }.

Inductive review_error :=
| ErrResolve (err : string)
| ErrScan (err : string)
| ErrOpenStore (err : string)
| ErrNotTracked (pkgbase : string)
| ErrHigh
| ErrRefused
| ErrNoGit
| ErrPin (err : pin_error)
| ErrSave (err : string).

Definition RequirePinnedCommit (r : Resolved) : result review_error unit :=
  if decide (r_Commit r = "") then Err ErrNoGit else Ok tt.

(** The trust store on disk and the served root. *)
Record kayo := mkKayo { disk : Store; root_ : served }.

(** What a review calls: the resolved checkout (for an approval of a local directory, the
    checkout of a fixed commit), the audit of a directory, the faults of [Materialize], and the
    error of saving the store, with whether the file was replaced all the same. *)
Record review_env := mkEnv {
  resolve_target : bool → result string Resolved;
  scan : string → result string (list Finding);
  open_err : option string;
  pin_faults : faults;
  save_err : option (string * bool);
  served_root : string;
  env_now : Z;
}.

Definition Save (e : review_env) (s : Store) (k : kayo) : kayo * option review_error :=
  match save_err e with
  | None => (mkKayo s (root_ k), None)
  | Some (err, written) => (if written : bool then mkKayo s (root_ k) else k, Some (ErrSave err))
  end.

Definition approval_of (r : Resolved) (report : list Finding) : Approval :=
  mkApproval (r_Pkgbase r) (r_Source r) (r_Maintainer r) (r_Commit r) (sev_text (Max report)) 0.

Definition approved_store (now : Z) (r : Resolved) (report : list Finding) (note : string) (s : Store) : Store :=
  TrustMaintainer now (r_Source r) (r_Maintainer r) note (Approve now (approval_of r report) s).

(** Pinning and approving the reviewed commit, which both commands end with. *)
Definition approve_reviewed (e : review_env) (r : Resolved) (report : list Finding) (note : string) (s : Store) (k : kayo) :
    kayo * option review_error :=
  match RequirePinnedCommit r with
  | Err err => (k, Some err)
  | Ok _ =>
      match Materialize (pin_faults e) (served_root e) (r_Pkgbase r) (r_Commit r) (root_ k) with
      | (_, root', Some err) => (mkKayo (disk k) root', Some (ErrPin err))
      | (_, root', None) => Save e (approved_store (env_now e) r report note s) (mkKayo (disk k) root')
      end
  end.

Definition Review (e : review_env) (target : string) (approve force : bool) (k : kayo) : kayo * option review_error :=
  match resolve_target e approve with
  | Err err => (k, Some (ErrResolve err))
  | Ok r =>
      match scan e (r_Dir r) with
      | Err err => (k, Some (ErrScan err))
      | Ok report =>
          match open_err e with
          | Some err => (k, Some (ErrOpenStore err))
          | None =>
              if negb approve then (k, if high report then Some ErrHigh else None)
              else if high report && negb force then (k, Some ErrRefused)
              else approve_reviewed e r report ("via " +:+ target) (disk k) k
          end
      end
  end.

Definition Update (e : review_env) (target : string) (approve force : bool) (k : kayo) : kayo * option review_error :=
  match resolve_target e approve with
  | Err err => (k, Some (ErrResolve err))
  | Ok r =>
      match open_err e with
      | Some err => (k, Some (ErrOpenStore err))
      | None =>
          match approval (disk k) (r_Pkgbase r) with
          | None => (k, Some (ErrNotTracked (r_Pkgbase r)))
          | Some _ =>
              match scan e (r_Dir r) with
              | Err err => (k, Some (ErrScan err))
              | Ok report =>
                  if negb approve then (k, None)
                  else if high report && negb force then (k, Some ErrRefused)
                  else approve_reviewed e r report ("via update " +:+ target) (disk k) k
              end
          end
      end
  end.

(** ** Replacing a pin *)
Lemma Materialize_spec f root pkgbase commit s :
  let '(trace, s', err) := Materialize f root pkgbase commit s in
  (err = None → valid_pkgbase pkgbase = true ∧ commit ≠ "" ∧ pins s' = <[pkgbase := commit]> (pins s)) ∧
  (err ≠ None → s' = s ∨ pins s' = pins s ∧ retained s' = retained s ∨
     ∃ previous, pins s !! pkgbase = Some previous ∧ s' = mkServed (delete pkgbase (pins s)) ((pkgbase, previous) :: retained s)) ∧
  ∀ t other, t ∈ trace ++ [s'] → other ≠ pkgbase → pins t !! other = pins s !! other.
Proof.
  assert (∀ s' other, s' ∈ [s] → other ≠ pkgbase → pins s' !! other = pins s !! other) as Hsame.
  { by intros s' other ->%list_elem_of_singleton. }
  unfold Materialize, repoPath.
  destruct (decide (root = "")); [split_and!; auto; done |].
  destruct (valid_pkgbase pkgbase) eqn:Hv; [cbn [negb] | split_and!; auto; done].
  destruct (decide (commit = "")) as [| Hc]; [split_and!; auto; done |].
  destruct (prepare f); [split_and!; auto; done |].
  destruct (f_retain f); [split_and!; auto; done |].
  destruct (f_publish f) as [e |]; [destruct (pins s !! pkgbase) as [previous |] eqn:Hp; [destruct (f_rollback f) |] |];
    (split_and!; [try done | try done |
      intros t other Ht Ho; cbn in Ht; rewrite !elem_of_cons, elem_of_nil in Ht; destruct Ht as [-> | [-> | []]]; cbn;
      by rewrite ?lookup_delete_ne, ?lookup_insert_ne by done]).
  - intros _; right; right; by exists previous.
  - intros _; by left.
  - intros _; right; left; cbn; by rewrite delete_id.
Qed.

(** A reader between the two renames, or one after a crash there, meets no pin: its clone is
    redirected to wherever the AUR interface sends it. *)
Example gap_between_renames fallback :
  let ok := mkFaults None None None None None None None None None None None in
  let s := mkServed {["yay" := "c1"]} [] in
  let r := mkRequest "GET" "/yay.git/info/refs" "" ∅ "" "" "" "client" in
  let '(trace, s', err) := Materialize ok "/srv" "yay" "c2" s in
  err = None ∧ Handler_ServeHTTP s fallback r = Pinned_files "yay" "c1" ∧ Handler_ServeHTTP s' fallback r = Pinned_files "yay" "c2" ∧
  map (λ t, Handler_ServeHTTP t fallback r) trace = [Fallback (fallback r)].
Proof. split_and!; vm_compute; reflexivity. Qed.

Lemma Max_high report : high report = true ↔ ∃ f, f ∈ report ∧ severity f = SevHigh.
Proof.
  unfold high, Max.
  assert (∀ acc, (sev_rank SevHigh <=? sev_rank (foldl (λ highest f, if (sev_rank highest <? sev_rank (severity f))%nat then severity f else highest) acc report))%nat = true
    ↔ acc = SevHigh ∨ ∃ f, f ∈ report ∧ severity f = SevHigh) as H.
  { induction report as [|f report IH]; intros acc; cbn [foldl].
    - split; [intros Ha; left; by destruct acc | intros [-> | (f & Hf & _)]; [done | by apply elem_of_nil in Hf]].
    - rewrite IH; split.
      + intros [Ha | (f' & Hf & Hs)]; [| right; exists f'; split; [by right | done]].
        destruct (sev_rank acc <? sev_rank (severity f))%nat; [right; exists f; split; [by left | done] | by left].
      + intros [-> | (f' & [-> | Hf]%elem_of_cons & Hs)]; [left; by destruct (severity f) | left | right; by exists f'].
        rewrite Hs; by destruct acc. }
  rewrite H; naive_solver.
Qed.

Lemma approval_approved_store now r report note s base :
  approval (approved_store now r report note s) base =
    if decide (base = r_Pkgbase r) then Some (mkApproval (r_Pkgbase r) (r_Source r) (r_Maintainer r) (r_Commit r) (sev_text (Max report)) now)
    else approval s base.
Proof.
  unfold approved_store, TrustMaintainer, approval.
  repeat case_decide; subst; cbn; rewrite ?lookup_insert_eq, ?lookup_insert_ne by done; done.
Qed.

Lemma approve_reviewed_spec e r report note k :
  let '(k', err) := approve_reviewed e r report note (disk k) k in
  match err with
  | None =>
      r_Commit r ≠ "" ∧ disk k' = approved_store (env_now e) r report note (disk k) ∧
      pins (root_ k') = <[r_Pkgbase r := r_Commit r]> (pins (root_ k))
  | Some _ => disk k' = disk k ∨ disk k' = approved_store (env_now e) r report note (disk k) ∧ pins (root_ k') !! r_Pkgbase r = Some (r_Commit r)
  end.
Proof.
  unfold approve_reviewed, RequirePinnedCommit.
  destruct (decide (r_Commit r = "")) as [| Hc]; [by left |].
  pose proof (Materialize_spec (pin_faults e) (served_root e) (r_Pkgbase r) (r_Commit r) (root_ k)) as Hm.
  destruct (Materialize _ _ _ _ _) as [[trace root'] [err |]]; [by left |].
  destruct Hm as [Hm _]; destruct (Hm eq_refl) as (_ & _ & Hpins).
  unfold Save; destruct (save_err e) as [[err written] |]; [| done].
  destruct written; [right; split; [done |]; cbn; by rewrite Hpins, lookup_insert_eq | by left].
Qed.

(** C31. A review that approves a target audited the directory it pins: the audit found nothing
    of high severity unless the approval was forced, the commit is known, the trust store holds
    the source, the maintainer and the commit that were reviewed, and clones of the package get
    exactly that commit.  A review that fails leaves the store as it was, or, when only the
    report of a save that took effect failed, approved at the commit that is served. *)
Theorem Review_pins e target force k k' err :
  Review e target true force k = (k', err) →
  match err with
  | None =>
      ∃ r report, resolve_target e true = Ok r ∧ scan e (r_Dir r) = Ok report ∧
        ((∃ f, f ∈ report ∧ severity f = SevHigh) → force = true) ∧ r_Commit r ≠ "" ∧
        (∃ ap, approval (disk k') (r_Pkgbase r) = Some ap ∧ ap_Source ap = r_Source r ∧ ap_Maintainer ap = r_Maintainer r ∧ ap_Commit ap = r_Commit r) ∧
        (∀ base, base ≠ r_Pkgbase r → approval (disk k') base = approval (disk k) base) ∧
        ∀ fallback q, PkgbaseFromGitPath (rq_Path q) = r_Pkgbase r → r_Pkgbase r ≠ "" →
          Handler_ServeHTTP (root_ k') fallback q = Pinned_files (r_Pkgbase r) (r_Commit r)
  | Some _ =>
      disk k' = disk k ∨
      ∃ r ap, resolve_target e true = Ok r ∧ approval (disk k') (r_Pkgbase r) = Some ap ∧ ap_Commit ap = r_Commit r ∧
        pins (root_ k') !! r_Pkgbase r = Some (r_Commit r)
  end.
Proof.
  unfold Review; destruct (resolve_target e true) as [r |] eqn:Hr; [| intros [= <- <-]; by left].
  destruct (scan e (r_Dir r)) as [report |] eqn:Hs; [| intros [= <- <-]; by left].
  destruct (open_err e); [intros [= <- <-]; by left |]; cbn [negb].
  destruct (high report && negb force) eqn:Hh; [intros [= <- <-]; by left |].
  intros Ha; pose proof (approve_reviewed_spec e r report ("via " +:+ target) k) as Hspec.
  rewrite Ha in Hspec; destruct err as [err |].
  - destruct Hspec as [Hd | [Hd Hp]]; [by left | right].
    exists r; eexists; rewrite Hd, approval_approved_store, decide_True by done; done.
  - destruct Hspec as (Hc & Hd & Hp); exists r, report; split_and!; try done.
    + intros Hf; apply Max_high in Hf; rewrite Hf in Hh; by destruct force.
    + eexists; rewrite Hd, approval_approved_store, decide_True by done; done.
    + intros base Hb; by rewrite Hd, approval_approved_store, decide_False.
    + intros fallback q Hq Hne; unfold Handler_ServeHTTP; rewrite Hq, decide_False by done.
      by rewrite Hp, lookup_insert_eq.
Qed.

Definition example_env : review_env :=
  mkEnv (λ _, Ok (mkResolved "/tmp/yay" "aur" "yay" "jguer" "c1")) (λ _, Ok [mkFinding "SRC-HTTP" SevLow "" ""]) None
    (mkFaults None None None None None None None None None None None) None "/srv" 7.

Lemma Review_pins_witness :
  let k := mkKayo empty_store (mkServed ∅ []) in
  let k' := (Review example_env "yay" true false k).1 in
  ∃ ap, approval (disk k') "yay" = Some ap ∧ ap_Commit ap = "c1".
Proof.
  intros k k'.
  destruct (Review_pins example_env "yay" false k k' None) as (r & report & Hr & _ & _ & _ & (ap & Hap & _ & _ & Hc) & _);
    [vm_compute; reflexivity |].
  injection Hr as <-; exists ap; split; [exact Hap | exact Hc].
Defined.
