(* ===== verification/KayoResolve.v ===== *)
(** * Targets of kayo's audits and reviews (kayo/service/resolve.go)

    How a directory, a URL or the name of a package becomes a checkout with its provenance, and
    that a review makes exactly that provenance trusted.  Git, the file system, the .SRCINFO of a
    checkout and the AUR are parameters. *)

From S2P Require Import Prelude GoStrings Aurweb KayoTrust KayoTrustSpec KayoServe.

Record CloneOptions := mkClone { c_URL : string; c_Ref : string; c_Strict : bool }.

(** What the resolution asks of the machine. *)
Record machine := mkMachine {
  is_dir : string → bool;
  CloneTemp : CloneOptions → result string string;
  HeadCommit : string → result string string;
  IsClean : string → result string bool;
  srcinfo_base : string → option string;
  aur_info : string → result string (list Pkg);
}.

(** The configured sources: none, or the composite with the checkouts of its overlays, if there
    are any; [BuildComposite] may fail. *)
Record config := mkConfig {
  composite : option (result string (Composite * option (gmap string string)));
  AURGitBase : string;
}.

Section resolve.
Context (m : machine) (cfg : config).

Definition readPkgbase (dir fallback : string) : string :=
  match srcinfo_base m dir with Some b => if decide (b = "") then path_base fallback else b | None => path_base fallback end.

Definition aurMeta (name pkgbase : string) : string * string :=
  match aur_info m name with
  | Ok (p :: _) => (Maintainer p, if decide (PackageBase p = "") then pkgbase else PackageBase p)
  | _ => ("", pkgbase)
  end.

Definition from_aur (name : string) : CloneOptions * Resolved :=
  (mkClone (AURGitBase cfg +:+ "/" +:+ name +:+ ".git") "" false, mkResolved "" "aur" "" "" "").

Definition resolvePackageSource (name : string) : result string (CloneOptions * Resolved) :=
  match composite cfg with
  | None => Ok (from_aur name)
  | Some (Err e) => Err e
  | Some (Ok (c, overlays)) =>
      match KayoTrust.Resolve c name with
      | None => Ok (from_aur name)
      | Some (pkg, src, _) =>
          let resolved := mkResolved "" src (PackageBase pkg) (Maintainer pkg) "" in
          match (if decide (src = "overlay") then overlays else None) with
          | Some dirs =>
              let dir := default "" (dirs !! PackageBase pkg) in
              match HeadCommit m dir with
              | Err e => Err ("resolve overlay checkout for " +:+ name +:+ ": " +:+ e)
              | Ok commit => Ok (mkClone dir commit false, resolved)
              end
          | None =>
              match SourceURLFor c src (PackageBase pkg) with
              | Err e => Err ("resolve checkout for " +:+ name +:+ ": " +:+ e)
              | Ok None => Err (name +:+ " from " +:+ src +:+ " has no source repository")
              | Ok (Some url) =>
                  if decide (url = "") then Err (name +:+ " from " +:+ src +:+ " has no source repository")
                  else Ok (mkClone url "" true, resolved)
              end
          end
      end
  end.

(** A target that is no directory, no URL and no name of a repository is the name of a package. *)
Definition is_name (target : string) : bool := negb (contains target "://") && negb (has_suffix target ".git").

Definition checkout (target ref : string) : result string Resolved :=
  if is_dir m target then Ok (mkResolved target "local" "" "" "")
  else
    '(clone, r) ← (if is_name target then
                     '(clone, r) ← resolvePackageSource target;
                     mret (mkClone (c_URL clone) (if decide (ref = "") then c_Ref clone else ref) (c_Strict clone), r)
                   else mret (mkClone target ref false, mkResolved "" target "" "" ""));
    dir ← CloneTemp m clone;
    mret (mkResolved dir (r_Source r) (r_Pkgbase r) (r_Maintainer r) "").

Definition Resolve (target ref : string) : result string Resolved :=
  r ← checkout target ref;
  let commit := match HeadCommit m (r_Dir r) with Ok c => c | Err _ => "" end in
  let base := if decide (r_Pkgbase r = "") then readPkgbase (r_Dir r) target else r_Pkgbase r in
  let '(maintainer, base) := if decide (r_Source r = "aur") then aurMeta target base else (r_Maintainer r, base) in
  mret (mkResolved (r_Dir r) (r_Source r) base maintainer commit).

(** The approval of a local repository reviews a clone of a fixed commit. *)
Definition resolveForReview (target ref : string) (approve : bool) : result string Resolved :=
  r ← Resolve target ref;
  if negb approve || negb (bool_decide (r_Source r = "local")) || negb (bool_decide (r_Dir r = target)) || bool_decide (r_Commit r = "")
  then mret r
  else
    _ ← (if decide (ref = "") then
           clean ← map_err (λ e, "check local approval target: " +:+ e) (IsClean m (r_Dir r));
           if clean : bool then mret tt else Err "local repository has uncommitted changes; commit them or select --ref before approval"
         else mret tt);
    dir ← map_err (λ e, "snapshot local approval target: " +:+ e) (CloneTemp m (mkClone (r_Dir r) (if decide (ref = "") then r_Commit r else ref) false));
    commit ← map_err (λ e, "resolve local approval commit: " +:+ e) (HeadCommit m dir);
    mret (mkResolved dir (r_Source r) (readPkgbase dir target) (r_Maintainer r) commit).

(** ** Provenance *)

(** A named package that a source gives is resolved with the provenance of that source's record. *)
Lemma resolveForReview_managed name ref c overlays pkg src dv r :
  is_dir m name = false → is_name name = true → composite cfg = Some (Ok (c, overlays)) →
  KayoTrust.Resolve c name = Some (pkg, src, dv) → PackageBase pkg ≠ "" → src ≠ "aur" → src ≠ "local" →
  resolveForReview name ref true = Ok r →
  r_Source r = src ∧ r_Pkgbase r = PackageBase pkg ∧ r_Maintainer r = Maintainer pkg.
Proof.
  intros Hdir Hname Hcfg Hres Hbase Haur Hlocal; unfold resolveForReview; intros Hr.
  apply bind_Ok in Hr as (r0 & Hr0 & Hr).
  assert (r_Source r0 = src ∧ r_Pkgbase r0 = PackageBase pkg ∧ r_Maintainer r0 = Maintainer pkg) as (Hs & Hb & Hm).
  { unfold Resolve in Hr0; apply bind_Ok in Hr0 as (r1 & Hr1 & Hr0).
    assert (r_Source r1 = src ∧ r_Pkgbase r1 = PackageBase pkg ∧ r_Maintainer r1 = Maintainer pkg) as (Hs & Hb & Hm).
    { unfold checkout in Hr1; rewrite Hdir, Hname in Hr1.
      apply bind_Ok in Hr1 as ([clone r2] & Hr2 & Hr1); apply bind_Ok in Hr2 as ([clone' r3] & Hr3 & [= _ <-]).
      apply bind_Ok in Hr1 as (dir & _ & [= <-]); cbn.
      unfold resolvePackageSource in Hr3; rewrite Hcfg, Hres in Hr3.
      repeat (case_match; try done; simplify_eq/=); done. }
    rewrite Hs, Hb, !decide_False in Hr0 by done; by injection Hr0 as <-. }
  rewrite Hs, (bool_decide_eq_false_2 (src = "local")) in Hr by done; by injection Hr as <-.
Qed.

(** After a review that approves a package by its name, the trust store trusts the record the
    sources give for that name, which is the one the daemon serves and the pacman hook checks:
    the approval holds the source, the base and the maintainer of that record. *)
Theorem approved_then_trusted e name ref force c overlays pkg src dv k k' :
  resolve_target e true = resolveForReview name ref true →
  is_dir m name = false → is_name name = true → composite cfg = Some (Ok (c, overlays)) →
  KayoTrust.Resolve c name = Some (pkg, src, dv) → PackageBase pkg ≠ "" → src ≠ "aur" → src ≠ "local" →
  Review e name true force k = (k', None) →
  decision (EvaluateResolved (Some (disk k')) src (PackageBase pkg) (Maintainer pkg) dv) = Trusted.
Proof.
  intros He Hdir Hname Hcfg Hres Hbase Haur Hlocal Hrev.
  unfold Review in Hrev; rewrite He in Hrev.
  destruct (resolveForReview name ref true) as [r |] eqn:Hr; [| done].
  destruct (resolveForReview_managed name ref c overlays pkg src dv r) as (Hs & Hb & Hm); try done.
  destruct (scan e (r_Dir r)) as [report |]; [| done]; destruct (open_err e); [done |]; cbn [negb] in Hrev.
  destruct (high report && negb force); [done |].
  pose proof (approve_reviewed_spec e r report ("via " +:+ name) k) as Hspec; rewrite Hrev in Hspec.
  destruct Hspec as (_ & Hd & _).
  apply EvaluateResolved_trusted; right; right; right.
  rewrite Hd, approval_approved_store, Hb, decide_True by done.
  eexists; split_and!; [reflexivity | done | by left].
Qed.
End resolve.
