(* ===== verification/KayoExamples.v ===== *)
(** * Runs of kayo's gate on concrete sources

    Two ayato sources and an overlay; a package approved from one, one of a delegated source, and
    a split package whose base another source lists too. *)

From S2P Require Import Prelude GoStrings Aurweb KayoTrust KayoIndex KayoTrustSpec KayoServe KayoResolve.

#[local] Instance order : RangeOrder := elements_order.

(** ASCII texts only. *)
#[local] Instance unicode : Unicode := {| ToLower s := s; EqualFold a b := bool_decide (a = b); rune_count := String.length |}.

Definition pkg (name base maintainer : string) : Pkg :=
  mkPkg 1 name 1 base "1-1" "" "" 0 0 0 maintainer "" 0 0 "" [] [] [] [] [] [] [] [] [] [] [].

Definition index (pkgs : list Pkg) (sources : list (string * string)) : Index.snapshot :=
  Index.Replace (list_to_map (map (λ p, (Name p, p)) pkgs)) (list_to_map sources).

Definition yay : Pkg := pkg "yay" "yay" "jguer".
Definition split : Pkg := pkg "split" "base" "someone".

(** [mirror] ranks above [vendor] and lists the base of [split] for another package. *)
Definition mirror : Index.snapshot := index [yay; pkg "base-tools" "base" "someone"] [("base", "https://mirror/base.git"); ("yay", "https://mirror/yay.git")].
Definition vendor : Index.snapshot := index [split] [("base", "https://vendor/base.git")].

Definition example_store : Store :=
  Approve 1 (mkApproval "yay" "mirror" "jguer" "c1" "" 0) empty_store.

Definition example : Composite :=
  AddDelegated (Index.as_source vendor) TierAyato 1 "vendor" true
    (Add (Index.as_source mirror) TierAyato 5 "mirror" (SetGate example_store "enforce" New)).

Definition info_request (name : string) : http_request :=
  mkRequest "GET" ("/rpc/v5/info/" +:+ name) "" ∅ "" "" "" "client".

Lemma example_built : built example.
Proof. repeat constructor. Qed.

Lemma kayo_serves_trusted_witness :
  ServeHTTP (λ _, None) (surface (λ s, s) example None) (info_request "yay") = Results "" "multiinfo" [yay] true ∧
  ∀ p, p ∈ [yay] → vouched (λ s, s) (λ _, None) example example_store None (info_request "yay") p.
Proof.
  assert (ServeHTTP (λ _, None) (surface (λ s, s) example None) (info_request "yay") = Results "" "multiinfo" [yay] true) as Hr
    by (vm_compute; reflexivity).
  split; [exact Hr |].
  pose proof (kayo_serves_trusted (λ s, s) (λ _, None) example example_store None (info_request "yay")
    example_built eq_refl eq_refl) as H.
  rewrite Hr in H; exact H.
Defined.

(** A package of [mirror] that was not reviewed is not given. *)
Example unreviewed_not_served :
  ServeHTTP (λ _, None) (surface (λ s, s) example None) (info_request "base-tools") = Results "" "multiinfo" [] true.
Proof. vm_compute; reflexivity. Qed.

Lemma example_managed : Forall (λ e, Managed (backend e)) (entries example).
Proof.
  assert (entries example = [mkEntry (Index.as_source mirror) TierAyato 5 "mirror" false None;
    mkEntry (Index.as_source vendor) TierAyato 1 "vendor" true (Some true)]) as -> by reflexivity.
  repeat constructor; apply Index_Managed; cbn [Index.byName index Index.Replace mirror vendor map list_to_map foldr]; intros n p;
    rewrite ?lookup_insert_Some, ?lookup_empty; naive_solver.
Qed.

Lemma Info_Resolve_witness : KayoTrust.Info (λ s, s) example ["split"] = [split].
Proof.
  etransitivity; [apply (Info_Resolve (λ s, s) example "split" example_managed) |]; vm_compute; reflexivity.
Defined.

(** [split] is given because [vendor]'s catalog vouches for it, but its clone is redirected to
    [mirror], whose packages of this base are not trusted. *)
Example clone_of_another_source :
  KayoTrust.Resolve example "split" = Some (split, "vendor", true) ∧
  ServeHTTP (λ _, None) (surface (λ s, s) example None) (mkRequest "GET" "/base.git/info/refs" "" ∅ "" "" "" "client")
    = Redirect "https://mirror/base.git/info/refs" ∧
  SourceURLFor example "vendor" "base" = Ok (Some "https://vendor/base.git").
Proof. split_and!; vm_compute; reflexivity. Qed.

Lemma verify_enforced_witness :
  verify (λ _, true) (λ _, Ok "c1") example_store (KayoTrust.Resolve example) (Some (λ _, Ok [])) (Ok ∅) "/cache" true "" ["yay"; "split"]
    = ([mkVerification "yay" "mirror" "yay" (mkVerdict Trusted []) (mkResult "/cache/yay" true "c1" "c1" true);
        mkVerification "split" "vendor" "base" (mkVerdict Trusted []) no_result], None) ∧
  passes (λ _, true) (λ _, Ok "c1") example_store "/cache" (mkTarget yay "mirror" false).
Proof.
  assert (verify (λ _, true) (λ _, Ok "c1") example_store (KayoTrust.Resolve example) (Some (λ _, Ok [])) (Ok ∅) "/cache" true "" ["yay"; "split"]
    = ([mkVerification "yay" "mirror" "yay" (mkVerdict Trusted []) (mkResult "/cache/yay" true "c1" "c1" true);
        mkVerification "split" "vendor" "base" (mkVerdict Trusted []) no_result], None)) as Hv by (vm_compute; reflexivity).
  split; [exact Hv |].
  refine (verify_enforced (λ _, true) (λ _, Ok "c1") example_store (KayoTrust.Resolve example) "/cache" (λ _, Ok []) (Ok ∅) true ""
    ["yay"; "split"] _ _ eq_refl Hv "yay" _).
  - intros ns pkgs p [= <-] Hp; by apply elem_of_nil in Hp.
  - by left.
Defined.

(** The package that was not given before is reviewed and approved by its name. *)
Definition example_machine : machine :=
  mkMachine (λ _, false) (λ _, Ok "/tmp/review") (λ _, Ok "c9") (λ _, Ok true) (λ _, None) (λ _, Ok []).

Definition example_config : config := mkConfig (Some (Ok (example, None))) "https://aur.archlinux.org".

Definition example_review : review_env :=
  mkEnv (resolveForReview example_machine example_config "base-tools" "") (λ _, Ok []) None
    (mkFaults None None None None None None None None None None None) None "/srv" 7.

Lemma approved_then_trusted_witness :
  let k := mkKayo example_store (mkServed ∅ []) in
  let k' := (Review example_review "base-tools" true false k).1 in
  decision (Evaluate (disk k) "mirror" "base" "someone") = NeedsReview ∧
  decision (EvaluateResolved (Some (disk k')) "mirror" "base" "someone" false) = Trusted.
Proof.
  intros k k'; split; [vm_compute; reflexivity |].
  refine (approved_then_trusted example_machine example_config example_review "base-tools" "" false example None
    (pkg "base-tools" "base" "someone") "mirror" false k k' _ _ _ _ _ _ _ _ _);
    first [reflexivity | vm_compute; reflexivity | discriminate].
Defined.
