(* ===== verification/KayoSync.v ===== *)
(** * Signed catalogs: ayato signs, kayo synchronises (kayo/ayatosrc, ayato/service/aur, ayato/protocol)

    The signer and its cached envelope, the verifier, the pin store with the rollback watermark,
    the synchronisation of a source, and the runs of one kayo process after another against a
    network that answers anything.  Ed25519, base64, hashes and JSON are parameters, saving the
    pin store may fail before or after its effect.  Times are nanoseconds since Go's zero time,
    which is [0]. *)

From S2P Require Import Prelude GoStrings Aurweb KayoTrust KayoIndex.

(** ** [ayato/protocol/catalog.go] *)
Record Catalog := mkCatalog { Packages : list Pkg; Sources : gmap string string }.
Record SignedPayload := mkPayload { p_KeyID : string; IssuedAt : Z; ExpiresAt : Z; p_Catalog : Catalog }.
Record CatalogEnvelope := mkEnvelope { Payload : string; Alg : string; e_KeyID : string; Signature : string }.

Definition IsZero (t : Z) : bool := bool_decide (t = 0)%Z.

(** [time.Time.Sub] saturates at the range of a duration. *)
Definition Sub (a b : Z) : Z := Z.max min_int64 (Z.min max_int64 (a - b)).

Definition leeway : Z := 60 * 1000000000.

Inductive sync_error :=
| ErrFetch (err : string)
| ErrDecode
| ErrPayload
| ErrNoKey
| ErrPubkey (err : string)
| ErrKey
| ErrSavePin (err : string)
| ErrUnsigned
| ErrSignature
| ErrNoIssuedAt
| ErrFuture
| ErrExpired
| ErrTooOld
| ErrRollback
| ErrWatermark (err : string).

Section crypto.
(** [base64.StdEncoding], Ed25519 and the handle of a key. *)
Context (b64_decode : string → option string) (b64_encode : string → string).
Context (ed_verify : string → string → string → bool) (ed_sign : string → string → string) (ed_public : string → string).
Context (KeyID : string → string).
(** JSON of payloads, of envelopes, and of a bare catalog. *)
Context (encode_payload : SignedPayload → string) (decode_payload : string → option SignedPayload).
Context (encode_envelope : CatalogEnvelope → string) (decode_envelope : string → option CatalogEnvelope).
Context (decode_catalog : string → option Catalog).

(** ** [ayato/service/aur]: [sign.go] *)
Record CatalogSigner := mkSigner { signer_priv : string; signer_ttl : Z }.

Definition signer_pub (s : CatalogSigner) : string := ed_public (signer_priv s).

Definition Sign (s : CatalogSigner) (now : Z) (cat : Catalog) : CatalogEnvelope :=
  let p := mkPayload (KeyID (signer_pub s)) now (if (0 <? signer_ttl s)%Z then (now + signer_ttl s)%Z else 0%Z) cat in
  let payload := encode_payload p in
  mkEnvelope payload "ed25519" (KeyID (signer_pub s)) (b64_encode (ed_sign (signer_priv s) payload)).

(** *** [service.go]: the cached envelope, until its expiry. *)
Record Service := mkService { svc_signer : option CatalogSigner; cacheTTL : Z; cached : option (CatalogEnvelope * Z) }.

Definition cachedEnvelope (now : Z) (s : Service) : option CatalogEnvelope :=
  if (cacheTTL s <=? 0)%Z then None
  else match cached s with Some (env, exp) => if (now <? exp)%Z then Some env else None | None => None end.

Definition storeEnvelope (now : Z) (env : CatalogEnvelope) (s : Service) : Service :=
  if (cacheTTL s <=? 0)%Z then s else mkService (svc_signer s) (cacheTTL s) (Some (env, (now + cacheTTL s)%Z)).

Definition Envelope (now : Z) (catalog : result string Catalog) (s : Service) : result string CatalogEnvelope * Service :=
  match cachedEnvelope now s with
  | Some env => (Ok env, s)
  | None =>
      match catalog with
      | Err e => (Err e, s)
      | Ok cat =>
          let env := match svc_signer s with
                     | None => mkEnvelope (encode_payload (mkPayload "" now 0 cat)) "none" "" ""
                     | Some signer => Sign signer now cat
                     end in
          (Ok env, storeEnvelope now env s)
      end
  end.

(** ** [kayo/ayatosrc]: [verify.go] *)
Record Verifier := mkVerifier { v_pub : string; v_keyID : string; v_maxAge : Z }.

Definition NewVerifier (pubB64 : string) (maxAge : Z) : result sync_error Verifier :=
  match b64_decode pubB64 with
  | None => Err ErrKey
  | Some pub =>
      if decide (String.length pub ≠ 32) then Err ErrKey
      else if (maxAge <=? 0)%Z then Err ErrKey
      else Ok (mkVerifier pub (KeyID pub) maxAge)
  end.

Definition VerifyPayload (v : Verifier) (payload sigB64 : string) : result sync_error unit :=
  match b64_decode sigB64 with
  | None => Err ErrSignature
  | Some sig =>
      if decide (String.length sig ≠ 64) then Err ErrSignature
      else if ed_verify (v_pub v) payload sig then Ok tt else Err ErrSignature
  end.

Definition CheckFreshness (v : Verifier) (now issuedAt expiresAt lastIssued : Z) : result sync_error unit :=
  if IsZero issuedAt then Err ErrNoIssuedAt
  else if (now + leeway <? issuedAt)%Z then Err ErrFuture
  else if negb (IsZero expiresAt) && (expiresAt + leeway <? now)%Z then Err ErrExpired
  else if (0 <? v_maxAge v)%Z && (v_maxAge v + leeway <? Sub now issuedAt)%Z then Err ErrTooOld
  else if negb (IsZero lastIssued) && (issuedAt <=? lastIssued)%Z then Err ErrRollback
  else Ok tt.

(** ** [pinstore.go] *)
Record pin := mkPin { PubKey : string; pin_KeyID : string; FirstSeen : Z; LastSeen : Z; LastIssued : Z }.

Definition no_pin : pin := mkPin "" "" 0 0 0.

(** The pins in memory and the file. A save fails with an error, after replacing the file or not. *)
Record PinStore := mkPinStore { data : gmap string pin; file : gmap string pin }.

Definition save_outcome : Type := option (string * bool).

Definition saveOrRestore (o : save_outcome) (old : gmap string pin) (s : PinStore) : PinStore * result string unit :=
  match o with
  | None => (mkPinStore (data s) (data s), Ok tt)
  | Some (err, written) => (mkPinStore old (if written : bool then data s else file s), Err err)
  end.

Definition Put (o : save_outcome) (name : string) (p : pin) (s : PinStore) : PinStore * result string unit :=
  let old := default no_pin (data s !! name) in
  let p := if (LastIssued p <? LastIssued old)%Z
           then mkPin (PubKey p) (pin_KeyID p) (FirstSeen p) (LastSeen p) (LastIssued old) else p in
  saveOrRestore o (data s) (mkPinStore (<[name := p]> (data s)) (file s)).

Definition SetLastIssued (o : save_outcome) (now : Z) (name : string) (t : Z) (s : PinStore) : PinStore * result string unit :=
  let p := default no_pin (data s !! name) in
  if (t <=? LastIssued p)%Z then (s, Ok tt)
  else saveOrRestore o (data s)
         (mkPinStore (<[name := mkPin (PubKey p) (pin_KeyID p) (FirstSeen p) now t]> (data s)) (file s)).

(** ** [source.go], [source_sync.go] *)
Record Options := mkOptions {
  o_Name : string; o_PubKey : string; o_MaxAge : Z; o_Insecure : bool; o_TrustOnFirstUse : bool; o_HasPins : bool;
}.

Section source.
Context (o : Options) {R : RangeOrder}.

(** The served index and the verification bookkeeping; [verifier] is the configured pin. *)
Record SyncSource := mkSyncSource {
  index : Index.snapshot; verifier : option Verifier; lastIssued : Z; expiresAt : Z; lastVerified : bool;
}.

Definition NewSource (pins : gmap string pin) : result sync_error SyncSource :=
  let last := match (if o_HasPins o then pins !! o_Name o else None) with Some p => LastIssued p | None => 0%Z end in
  if decide (o_PubKey o = "") then Ok (mkSyncSource Index.New None last 0 false)
  else v ← NewVerifier (o_PubKey o) (o_MaxAge o); Ok (mkSyncSource Index.New (Some v) last 0 false).

(** What the network and the disk do during a synchronisation. *)
Record conditions := mkConditions {
  c_now : Z; c_body : result string string; c_pubkey : result string string; c_save_pin : save_outcome; c_save_mark : save_outcome;
}.

Definition resolveVerifier (c : conditions) (s : SyncSource) (ps : PinStore) : PinStore * result sync_error Verifier :=
  match verifier s with
  | Some v => (ps, Ok v)
  | None =>
      if negb (o_TrustOnFirstUse o) || negb (o_HasPins o) then (ps, Err ErrNoKey)
      else
        let known := default "" (PubKey <$> data ps !! o_Name o) in
        if decide (known ≠ "") then (ps, NewVerifier known (o_MaxAge o))
        else
          match c_pubkey c with
          | Err e => (ps, Err (ErrPubkey e))
          | Ok pub =>
              if decide (pub = "") then (ps, Err (ErrPubkey "could not read /pubkey"))
              else
              match NewVerifier pub (o_MaxAge o) with
              | Err e => (ps, Err e)
              | Ok v =>
                  match Put (c_save_pin c) (o_Name o) (mkPin pub (v_keyID v) (c_now c) (c_now c) 0) ps with
                  | (ps, Err e) => (ps, Err (ErrSavePin e))
                  | (ps, Ok _) => (ps, Ok v)
                  end
              end
          end
  end.

(** The checks of a signed envelope: its payload, if it may be served. *)
Definition accept (c : conditions) (v : Verifier) (watermark : Z) (env : CatalogEnvelope) : result sync_error SignedPayload :=
  if bool_decide (Payload env = "") || bool_decide (Alg env ≠ "ed25519") || bool_decide (Signature env = "") then Err ErrUnsigned
  else
    _ ← VerifyPayload v (Payload env) (Signature env);
    signed ← result_of_option ErrPayload (decode_payload (Payload env));
    _ ← CheckFreshness v (c_now c) (IssuedAt signed) (ExpiresAt signed) watermark;
    mret signed.

Definition index_of (cat : Catalog) : Index.snapshot :=
  Index.Replace (foldl (λ m p, <[Name p := p]> m) ∅ (Packages cat)) (Sources cat).

Definition swap (s : SyncSource) (signed : SignedPayload) (verified : bool) : SyncSource :=
  mkSyncSource (index_of (p_Catalog signed)) (verifier s)
    (if verified && (lastIssued s <? IssuedAt signed)%Z then IssuedAt signed else lastIssued s) (ExpiresAt signed) verified.

(** The source, the pin store, and the payload that was swapped in. *)
Definition Sync (c : conditions) (s : SyncSource) (ps : PinStore) : SyncSource * PinStore * result sync_error SignedPayload :=
  match c_body c with
  | Err e => (s, ps, Err (ErrFetch e))
  | Ok body =>
      match decode_envelope body with
      | None => (s, ps, Err ErrDecode)
      | Some env =>
          if o_Insecure o then
            match (if decide (Payload env = "") then mkPayload "" 0 0 <$> decode_catalog body else decode_payload (Payload env)) with
            | None => (s, ps, Err ErrPayload)
            | Some signed => (swap s signed false, ps, Ok signed)
            end
          else
            match resolveVerifier c s ps with
            | (ps, Err e) => (s, ps, Err e)
            | (ps, Ok v) =>
                match accept c v (lastIssued s) env with
                | Err e => (s, ps, Err e)
                | Ok signed =>
                    if o_HasPins o then
                      match SetLastIssued (c_save_mark c) (c_now c) (o_Name o) (IssuedAt signed) ps with
                      | (ps, Err e) => (s, ps, Err (ErrWatermark e))
                      | (ps, Ok _) => (swap s signed true, ps, Ok signed)
                      end
                    else (swap s signed true, ps, Ok signed)
                end
            end
      end
  end.

Definition Verified (now : Z) (s : SyncSource) : bool :=
  lastVerified s
  && negb (negb (IsZero (expiresAt s)) && (expiresAt s <? now)%Z)
  && negb ((0 <? o_MaxAge o)%Z && (o_MaxAge o <? Sub now (lastIssued s))%Z).

(** ** Runs

    One process at a time: it synchronises, its other sources write the pin store, and it may
    be replaced by a new one, which reads the file.  [accepted] is the history of the payloads
    swapped in, the latest first, each with the key it was verified under. *)
Record run_state := mkRun {
  clock : Z; src : SyncSource; pins : PinStore; accepted : list (string * SignedPayload);
}.

Definition key_of (c : conditions) (s : SyncSource) (ps : PinStore) : string :=
  match resolveVerifier c s ps with (_, Ok v) => v_pub v | (_, Err _) => "" end.

Inductive run_step : run_state → run_state → Prop :=
| run_sync r c s' ps' signed :
    (clock r ≤ c_now c)%Z → Sync c (src r) (pins r) = (s', ps', Ok signed) →
    run_step r (mkRun (c_now c) s' ps' ((key_of c (src r) (pins r), signed) :: accepted r))
| run_sync_fails r c s' ps' e :
    (clock r ≤ c_now c)%Z → Sync c (src r) (pins r) = (s', ps', Err e) →
    run_step r (mkRun (c_now c) s' ps' (accepted r))
| run_other_source r name p (out : save_outcome) :
    name ≠ o_Name o →
    run_step r (mkRun (clock r) (src r) (saveOrRestore out (data (pins r)) (mkPinStore (<[name := p]> (data (pins r))) (file (pins r)))).1 (accepted r))
| run_restart r s' :
    NewSource (file (pins r)) = Ok s' →
    run_step r (mkRun (clock r) s' (mkPinStore (file (pins r)) (file (pins r))) (accepted r)).

Definition run_init (t : Z) (s : SyncSource) : run_state := mkRun t s (mkPinStore ∅ ∅) [].
End source.
End crypto.
