(* ===== verification/KayoSyncSpec.v ===== *)
(** * What synchronised catalogs promise

    In every run of kayo, whatever the network answers and whichever save fails: no rollback, one
    key, and delegation only while the catalog is fresh.  And an honest ayato is accepted. *)

From S2P Require Import Prelude GoStrings Aurweb KayoTrust KayoIndex KayoSync.

Section spec.
Context (b64_decode : string → option string) (ed_verify : string → string → string → bool) (KeyID : string → string).
Context (decode_payload : string → option SignedPayload) (decode_envelope : string → option CatalogEnvelope).
Context (decode_catalog : string → option Catalog).
Context (o : Options) {R : RangeOrder}.

Notation "'Sync_'" := (Sync b64_decode ed_verify KeyID decode_payload decode_envelope decode_catalog o).
Notation "'resolve_'" := (resolveVerifier b64_decode KeyID o).
Notation "'accept_'" := (accept b64_decode ed_verify decode_payload).
Notation "'step_'" := (run_step b64_decode ed_verify KeyID decode_payload decode_envelope decode_catalog o).

(** The times the model counts are past the year 293, and a catalog may be up to 146 years old. *)
Definition epoch : Z := 2 ^ 63.
Definition max_max_age : Z := 2 ^ 62.

(** ** The pin of this source *)
Definition own (m : gmap string pin) : pin := default no_pin (m !! o_Name o).

Lemma own_insert m p : own (<[o_Name o := p]> m) = p.
Proof. unfold own; by rewrite lookup_insert_eq. Qed.

Lemma own_insert_ne m n p : n ≠ o_Name o → own (<[n := p]> m) = own m.
Proof. intros Hn; unfold own; by rewrite lookup_insert_ne. Qed.

(** What memory says of this source never runs ahead of the file. *)
Definition pins_ok (ps : PinStore) : Prop :=
  (LastIssued (own (data ps)) ≤ LastIssued (own (file ps)))%Z ∧
  (PubKey (own (data ps)) ≠ "" → PubKey (own (file ps)) = PubKey (own (data ps))).

(** A save: the pins in memory afterwards are the new ones if it succeeds and the old ones if
    not, and the file holds the new ones, or in the second case perhaps what it held. *)
Lemma save_spec out (old new f : gmap string pin) ps r :
  saveOrRestore out old (mkPinStore new f) = (ps, r) →
  match r with Ok _ => data ps = new ∧ file ps = new | Err _ => data ps = old ∧ (file ps = f ∨ file ps = new) end.
Proof. unfold saveOrRestore; destruct out as [[e []] |]; intros [= <- <-]; cbn; auto. Qed.

Lemma SetLastIssued_spec out now t ps ps' r :
  pins_ok ps → SetLastIssued out now (o_Name o) t ps = (ps', r) →
  pins_ok ps' ∧ PubKey (own (data ps')) = PubKey (own (data ps)) ∧
  (LastIssued (own (data ps)) ≤ LastIssued (own (data ps')))%Z ∧
  (r = Ok tt → (t ≤ LastIssued (own (data ps')))%Z).
Proof.
  intros [Hmark Hkey]; unfold SetLastIssued; fold (own (data ps)).
  destruct (Z.leb_spec t (LastIssued (own (data ps)))); [intros [= <- <-]; done |].
  intros Hs; apply save_spec in Hs; unfold pins_ok; destruct r as [[] | e].
  - destruct Hs as [-> ->]; rewrite !own_insert; cbn; split_and!; try done; lia.
  - destruct Hs as [-> Hf]; split_and!; [| | done | lia | done]; destruct Hf as [-> | ->]; rewrite ?own_insert; cbn; auto; lia.
Qed.

Lemma Put_spec out p ps ps' r :
  pins_ok ps → LastIssued p = 0%Z → (0 ≤ LastIssued (own (data ps)))%Z → PubKey (own (data ps)) = "" →
  Put out (o_Name o) p ps = (ps', r) →
  pins_ok ps' ∧ LastIssued (own (data ps')) = LastIssued (own (data ps)) ∧
  match r with Ok _ => PubKey (own (data ps')) = PubKey p | Err _ => PubKey (own (data ps')) = "" end.
Proof.
  intros [Hmark _] Hp Hpos Hk; unfold Put; fold (own (data ps)).
  set (p' := if (LastIssued p <? _)%Z then _ else _).
  assert (PubKey p' = PubKey p ∧ LastIssued p' = LastIssued (own (data ps))) as [Hpk Hpl].
  { unfold p'; destruct (Z.ltb_spec (LastIssued p) (LastIssued (own (data ps)))); cbn; split; try done; lia. }
  intros Hs; apply save_spec in Hs; unfold pins_ok; destruct r as [[] | e].
  - destruct Hs as [-> ->]; rewrite own_insert, Hpl; split_and!; try done; lia.
  - destruct Hs as [-> Hf]; split_and!; [| | done | done]; destruct Hf as [-> | ->]; rewrite ?own_insert, ?Hpl; try done; lia.
Qed.

(** ** Keys *)

(** A verifier of this source: of the configured key, or of the key pinned in memory. *)
Definition verifies (s : SyncSource) (ps : PinStore) (v : Verifier) : Prop :=
  verifier s = Some v ∨
  verifier s = None ∧ PubKey (own (data ps)) ≠ "" ∧ NewVerifier b64_decode KeyID (PubKey (own (data ps))) (o_MaxAge o) = Ok v.

Lemma NewVerifier_maxAge pub v : NewVerifier b64_decode KeyID pub (o_MaxAge o) = Ok v → v_maxAge v = o_MaxAge o.
Proof. unfold NewVerifier; repeat case_match; try done; by intros [= <-]. Qed.

Lemma resolveVerifier_spec c s ps ps' r :
  pins_ok ps → (0 ≤ LastIssued (own (data ps)))%Z → resolve_ c s ps = (ps', r) →
  pins_ok ps' ∧ LastIssued (own (data ps')) = LastIssued (own (data ps)) ∧
  (PubKey (own (data ps)) ≠ "" → PubKey (own (data ps')) = PubKey (own (data ps))) ∧
  ∀ v, r = Ok v → verifies s ps' v.
Proof.
  intros Hok Hpos; unfold resolveVerifier, verifies.
  destruct (verifier s) as [v0 |]; [intros [= <- <-]; split_and!; try done; intros v [= <-]; by left |].
  destruct (negb _ || negb _); [intros [= <- <-]; done |].
  assert (default "" (PubKey <$> data ps !! o_Name o) = PubKey (own (data ps))) as ->
    by (unfold own; by destruct (data ps !! o_Name o)).
  destruct (decide (PubKey (own (data ps)) ≠ "")) as [Hk | Hk].
  { intros [= <- <-]; split_and!; try done; intros v Hv; by right. }
  apply dec_stable in Hk.
  destruct (c_pubkey c) as [pub |]; [| intros [= <- <-]; done].
  destruct (decide (pub = "")) as [| Hpub]; [intros [= <- <-]; done |].
  destruct (NewVerifier _ _ pub _) as [v |] eqn:Hv; [| intros [= <- <-]; done].
  destruct (Put _ _ _ _) as [ps1 r1] eqn:Hput.
  apply Put_spec in Hput as (Hok1 & Hl & Hr); [| done..].
  destruct r1; intros [= <- <-]; split_and!; try done.
  intros v' [= <-]; right; rewrite Hr; done.
Qed.

(** ** What is accepted *)
Lemma accept_Ok c v watermark env signed :
  accept_ c v watermark env = Ok signed →
  (∃ sig, ed_verify (v_pub v) (Payload env) sig = true) ∧ decode_payload (Payload env) = Some signed ∧
  (IssuedAt signed ≤ c_now c + leeway)%Z ∧
  ((0 < v_maxAge v)%Z → (Sub (c_now c) (IssuedAt signed) ≤ v_maxAge v + leeway)%Z) ∧
  (watermark = 0%Z ∨ (watermark < IssuedAt signed)%Z).
Proof.
  unfold accept; destruct (_ || _); [done |].
  unfold VerifyPayload; destruct (b64_decode (Signature env)) as [sig |]; [| done].
  case_decide; [done |]; destruct (ed_verify _ _ _) eqn:Hsig; [cbn | done].
  destruct (decode_payload _) as [p |]; [cbn | done].
  unfold CheckFreshness, IsZero; case_bool_decide; [done |].
  destruct (Z.ltb_spec (c_now c + leeway) (IssuedAt p)); [done |].
  destruct (_ && _); [done |].
  destruct ((0 <? v_maxAge v)%Z && _) eqn:Hage; [done |].
  destruct (negb _ && _) eqn:Hmark; [done |]; intros [= <-]; split_and!; [by exists sig | done | done | |].
  - intros Hpos; apply andb_false_iff in Hage as [Hage | Hage]; [apply Z.ltb_ge in Hage; lia | by apply Z.ltb_ge in Hage].
  - apply andb_false_iff in Hmark as [Hmark | Hmark].
    + rewrite negb_false_iff, bool_decide_eq_true in Hmark; by left.
    + apply Z.leb_gt in Hmark; by right.
Qed.

Definition issued (a : string * SignedPayload) : Z := IssuedAt a.2.

(** The payload was signed with the key. *)
Definition authentic (a : string * SignedPayload) : Prop :=
  ∃ payload sig, ed_verify a.1 payload sig = true ∧ decode_payload payload = Some a.2.

(** The index is empty, or serves the latest payload accepted, with its times. *)
Definition serves (r : run_state) : Prop :=
  index (src r) = Index.New ∧ lastVerified (src r) = false ∨
  ∃ a l, accepted r = a :: l ∧ index (src r) = index_of (p_Catalog a.2) ∧ expiresAt (src r) = ExpiresAt a.2 ∧ lastIssued (src r) = issued a.

Record run_inv (r : run_state) : Prop := {
  ri_clock : (epoch ≤ clock r)%Z;
  ri_pins : pins_ok (pins r);
  ri_mark a : a ∈ accepted r → (0 < issued a ≤ lastIssued (src r))%Z ∧ (issued a ≤ LastIssued (own (data (pins r))))%Z;
  ri_last : (0 ≤ lastIssued (src r))%Z ∧ (0 ≤ LastIssued (own (data (pins r))))%Z ∧ (0 ≤ LastIssued (own (file (pins r))))%Z;
  ri_sorted : StronglySorted Z.gt (map issued (accepted r));
  ri_authentic a : a ∈ accepted r → authentic a;
  ri_key a : a ∈ accepted r → ∃ v, verifies (src r) (pins r) v ∧ a.1 = v_pub v;
  ri_serves : serves r;
  ri_verifier : verifier (src r) = (if decide (o_PubKey o = "") then None
    else match NewVerifier b64_decode KeyID (o_PubKey o) (o_MaxAge o) with Ok v => Some v | Err _ => None end);
}.

Section secure.
Context (Hsecure : o_Insecure o = false) (Hpins : o_HasPins o = true) (Hage : (0 < o_MaxAge o < max_max_age)%Z).

Lemma accepted_positive now t :
  (epoch ≤ now)%Z → (Sub now t ≤ o_MaxAge o + leeway)%Z → (0 < t)%Z.
Proof.
  clear -Hage; unfold epoch, Sub, max_int64, min_int64, leeway, max_max_age in *; lia.
Qed.

Lemma verifies_maxAge s ps v :
  verifier s = (if decide (o_PubKey o = "") then None
    else match NewVerifier b64_decode KeyID (o_PubKey o) (o_MaxAge o) with Ok v => Some v | Err _ => None end) →
  verifies s ps v → v_maxAge v = o_MaxAge o.
Proof.
  intros Hs [Hv | (_ & _ & Hv)]; [| by apply NewVerifier_maxAge in Hv].
  rewrite Hv in Hs; case_decide; [done |]; destruct (NewVerifier _ _ (o_PubKey o) _) as [v' |] eqn:Hn; [| done].
  injection Hs as ->; by apply NewVerifier_maxAge in Hn.
Qed.

Lemma NewSource_spec m s :
  NewSource b64_decode KeyID o m = Ok s →
  index s = Index.New ∧ lastVerified s = false ∧ lastIssued s = LastIssued (own m) ∧
  verifier s = (if decide (o_PubKey o = "") then None
    else match NewVerifier b64_decode KeyID (o_PubKey o) (o_MaxAge o) with Ok v => Some v | Err _ => None end).
Proof.
  unfold NewSource, own; rewrite Hpins.
  assert (match m !! o_Name o with Some p => LastIssued p | None => 0%Z end = LastIssued (default no_pin (m !! o_Name o))) as ->
    by by destruct (m !! o_Name o).
  destruct (decide (o_PubKey o = "")); [by intros [= <-] |].
  destruct (NewVerifier _ _ (o_PubKey o) _); [by intros [= <-] | done].
Qed.

Lemma verifies_keep s ps ps' v :
  verifies s ps v → (PubKey (own (data ps)) ≠ "" → PubKey (own (data ps')) = PubKey (own (data ps))) → verifies s ps' v.
Proof. intros [Hv | (Hn & Hk & Hv)] Hkeep; [by left | right]; rewrite (Hkeep Hk); done. Qed.

Lemma verifies_unique s ps v v' : verifies s ps v → verifies s ps v' → v = v'.
Proof. unfold verifies; intros [H1 | (H1 & _ & H2)] [H3 | (H3 & _ & H4)]; congruence. Qed.

(** A synchronisation that fails leaves the source, and the pins of this source but for a first key. *)
Lemma Sync_cases c s ps s' ps' res :
  pins_ok ps → (0 ≤ LastIssued (own (data ps)))%Z → Sync_ c s ps = (s', ps', res) →
  pins_ok ps' ∧ (LastIssued (own (data ps)) ≤ LastIssued (own (data ps')))%Z ∧
  (PubKey (own (data ps)) ≠ "" → PubKey (own (data ps')) = PubKey (own (data ps))) ∧
  match res with
  | Err _ => s' = s
  | Ok signed =>
      ∃ v env, verifies s ps' v ∧ key_of b64_decode KeyID o c s ps = v_pub v ∧ accept_ c v (lastIssued s) env = Ok signed ∧
        s' = swap s signed true ∧ (IssuedAt signed ≤ LastIssued (own (data ps')))%Z
  end.
Proof.
  clear Hage; intros Hok Hpos; unfold Sync, key_of; rewrite Hsecure, Hpins.
  destruct (c_body c) as [body |]; [| intros [= <- <- <-]; done].
  destruct (decode_envelope body) as [env |]; [| intros [= <- <- <-]; done].
  destruct (resolve_ c s ps) as [ps1 r1] eqn:Hr.
  apply resolveVerifier_spec in Hr as (Hok1 & Hl1 & Hk1 & Hv1); [| done | done].
  destruct r1 as [v | e]; [| intros [= <- <- <-]; rewrite Hl1; split_and!; done].
  destruct (accept_ c v (lastIssued s) env) as [signed | e] eqn:Ha; [| intros [= <- <- <-]; rewrite Hl1; split_and!; done].
  destruct (SetLastIssued _ _ _ _ _) as [ps2 r2] eqn:Hset.
  apply SetLastIssued_spec in Hset as (Hok2 & Hk2 & Hl2 & Ht); [| done].
  assert (PubKey (own (data ps)) ≠ "" → PubKey (own (data ps2)) = PubKey (own (data ps))) as Hk by (rewrite Hk2; done).
  destruct r2 as [[] | e]; intros [= <- <- <-]; (split_and!; [done | lia | done |]); [| done].
  exists v, env; split_and!; try done; [| by apply Ht].
  apply (verifies_keep s ps1); [by apply Hv1 | by rewrite Hk2].
Qed.

Lemma other_save out n p ps :
  n ≠ o_Name o → pins_ok ps →
  let ps' := (saveOrRestore out (data ps) (mkPinStore (<[n := p]> (data ps)) (file ps))).1 in
  pins_ok ps' ∧ own (data ps') = own (data ps) ∧ (LastIssued (own (data ps)) ≤ LastIssued (own (file ps')))%Z.
Proof.
  intros Hn [Hm Hk] ps'; subst ps'; destruct (saveOrRestore _ _ _) as [ps' r] eqn:Hs; cbn [fst].
  apply save_spec in Hs; unfold pins_ok; destruct r as [[] | e].
  - destruct Hs as [-> ->]; rewrite own_insert_ne by done; split_and!; try done; lia.
  - destruct Hs as [-> [-> | ->]]; rewrite ?own_insert_ne by done; split_and!; try done; lia.
Qed.

Lemma run_inv_step r r' : run_inv r → step_ r r' → run_inv r'.
Proof.
  intros [Hclk Hok Hmark (Hl0 & Hd0 & Hf0) Hsort Hauth Hkey Hserves Hver] Hstep.
  destruct Hstep as [r c s' ps' signed Hnow Hsync | r c s' ps' e Hnow Hsync | r n p out Hn | r s' Hnew].
  - apply Sync_cases in Hsync as (Hok' & Hmono & Hk & v & env & Hv & Hkeyof & Hacc & -> & Ht); [| done | done].
    apply accept_Ok in Hacc as ((sig & Hsig) & Hdec & _ & Hold & Hnew).
    pose proof (verifies_maxAge _ _ _ Hver Hv) as Hma.
    assert (0 < IssuedAt signed)%Z as Hpos.
    { apply (accepted_positive (c_now c)); [lia |]; rewrite <- Hma; apply Hold; lia. }
    assert (lastIssued (src r) < IssuedAt signed)%Z as Hgt by lia.
    constructor; cbn [clock src pins accepted swap lastIssued verifier andb].
    + lia.
    + done.
    + rewrite (proj2 (Z.ltb_lt _ _) Hgt); intros a; rewrite elem_of_cons; intros [-> | Ha]; [unfold issued; cbn; lia |].
      destruct (Hmark a Ha); lia.
    + rewrite (proj2 (Z.ltb_lt _ _) Hgt); destruct Hok' as [Hok' _]; lia.
    + cbn [map]; constructor; [done |]; apply Forall_forall; intros t (a & -> & Ha)%list_elem_of_fmap.
      destruct (Hmark a Ha); unfold issued in *; cbn in *; lia.
    + intros a; rewrite elem_of_cons; intros [-> | Ha]; [exists (Payload env), sig; cbn; by rewrite Hkeyof | by apply Hauth].
    + intros a; rewrite elem_of_cons; intros [-> | Ha]; [by exists v |].
      destruct (Hkey a Ha) as (v' & Hv' & Heq); exists v'; split; [by apply (verifies_keep _ (pins r)) | done].
    + right; eexists _, _; split_and!; [reflexivity | done | done |]; cbn.
      by rewrite (proj2 (Z.ltb_lt _ _) Hgt).
    + done.
  - apply Sync_cases in Hsync as (Hok' & Hmono & Hk & ->); [| done | done].
    constructor; cbn; try done; [lia | | destruct Hok'; lia |].
    + intros a Ha; destruct (Hmark a Ha); lia.
    + intros a Ha; destruct (Hkey a Ha) as (v' & Hv' & Heq); exists v'; split; [by apply (verifies_keep _ (pins r)) | done].
  - destruct (other_save out n p (pins r) Hn Hok) as (Hok' & Hown & Hf).
    constructor; cbn; try done.
    + by rewrite Hown.
    + rewrite Hown; lia.
    + intros a Ha; destruct (Hkey a Ha) as (v' & Hv' & Heq); exists v'; split; [| done].
      apply (verifies_keep _ (pins r)); [done | by rewrite Hown].
  - destruct Hok as [Hm Hk].
    apply NewSource_spec in Hnew as (Hix & Hlv & Hli & Hvs); rewrite <- Hver in Hvs.
    constructor; cbn; try done.
    + intros a Ha; rewrite Hli; destruct (Hmark a Ha); lia.
    + rewrite Hli; lia.
    + intros a Ha; destruct (Hkey a Ha) as (v' & Hv' & Heq); exists v'; split; [| done].
      destruct Hv' as [Hv' | (Hn & Hne & Hv')]; [left; congruence | right].
      cbn; rewrite (Hk Hne); split_and!; [congruence | done | done].
    + by left.
    + by rewrite Hvs.
Qed.

Lemma run_inv_init t s : (epoch ≤ t)%Z → NewSource b64_decode KeyID o ∅ = Ok s → run_inv (run_init t s).
Proof.
  intros Ht (Hix & Hlv & Hli & Hvs)%NewSource_spec.
  assert (lastIssued s = 0%Z) as Hli0 by (rewrite Hli; unfold own; by rewrite lookup_empty).
  constructor; cbn; try (intros a Ha; by apply elem_of_nil in Ha); [done | | | constructor | by left |].
  - split; [done |]; cbn; unfold own; by rewrite lookup_empty.
  - rewrite Hli0; unfold own; rewrite lookup_empty; done.
  - done.
Qed.

End secure.
End spec.
