(* ===== verification/KayoSyncExamples.v ===== *)
(** * An honest ayato, and runs of the synchronisation

    What ayato signs is accepted and vouches for its packages; the envelope it keeps serving from
    its cache is refused as a rollback the second time; and two processes that share the pin
    store undo each other's watermarks. *)

From S2P Require Import Prelude GoStrings Aurweb KayoTrust KayoIndex KayoSync KayoSyncSpec.

(** ** Signing and synchronising *)
Section honest.
Context (b64_decode : string → option string) (b64_encode : string → string).
Context (ed_verify : string → string → string → bool) (ed_sign : string → string → string) (ed_public : string → string).
Context (KeyID : string → string).
Context (encode_payload : SignedPayload → string) (decode_payload : string → option SignedPayload).
Context (encode_envelope : CatalogEnvelope → string) (decode_envelope : string → option CatalogEnvelope).
Context (decode_catalog : string → option Catalog) (o : Options) {R : RangeOrder}.
Context (Hb64 : ∀ x, x ≠ "" → b64_decode (b64_encode x) = Some x ∧ b64_encode x ≠ "").
Context (Hed : ∀ k m, ed_verify (ed_public k) m (ed_sign k m) = true ∧ String.length (ed_sign k m) = 64).

(** The payload ayato signs. *)
Definition payload_of (signer : CatalogSigner) (issued_at : Z) (cat : Catalog) : SignedPayload :=
  mkPayload (KeyID (signer_pub ed_public signer)) issued_at
    (if (0 <? signer_ttl signer)%Z then (issued_at + signer_ttl signer)%Z else 0%Z) cat.

Definition verifier_of (signer : CatalogSigner) : Verifier :=
  mkVerifier (signer_pub ed_public signer) (KeyID (signer_pub ed_public signer)) (o_MaxAge o).

(** An instant at which a catalog of the signer is neither expired nor too old, with a margin. *)
Definition fresh_at (signer : CatalogSigner) (issued_at now margin : Z) : Prop :=
  (now ≤ issued_at + o_MaxAge o + margin)%Z ∧ ((0 < signer_ttl signer)%Z → (now ≤ issued_at + signer_ttl signer + margin)%Z).

Lemma Sub_le a b m : (0 ≤ m)%Z → (a - b ≤ m)%Z → (Sub a b ≤ m)%Z.
Proof using. clear; unfold Sub, min_int64, max_int64; lia. Qed.

Lemma accept_signed signer issued_at cat c watermark :
  let signed := payload_of signer issued_at cat in
  encode_payload signed ≠ "" → decode_payload (encode_payload signed) = Some signed → (0 < o_MaxAge o)%Z →
  (0 < issued_at)%Z → (watermark < issued_at)%Z → (issued_at ≤ c_now c + leeway)%Z → fresh_at signer issued_at (c_now c) leeway →
  accept b64_decode ed_verify decode_payload c (verifier_of signer) watermark
    (Sign b64_encode ed_sign ed_public KeyID encode_payload signer issued_at cat) = Ok signed.
Proof using Hb64 Hed.
  intros signed Henc Hdec Hage Hpos Hnew Hfuture [Hold Hexp]; unfold accept, Sign.
  fold (payload_of signer issued_at cat); fold signed; cbn [Payload Alg Signature].
  destruct (Hed (signer_priv signer) (encode_payload signed)) as [Hv Hlen].
  destruct (Hb64 (ed_sign (signer_priv signer) (encode_payload signed))) as [Hdecsig Hne]; [by intros Hs; rewrite Hs in Hlen |].
  rewrite !bool_decide_eq_false_2 by (try done; intros Hn; by destruct Hn); cbn [orb].
  unfold VerifyPayload; rewrite Hdecsig, decide_False by (rewrite Hlen; intros Hn; by destruct Hn).
  cbn [v_pub verifier_of]; unfold signer_pub; rewrite Hv; cbn [mbind result_bind]; rewrite Hdec; cbn [result_of_option mbind result_bind].
  assert (CheckFreshness (verifier_of signer) (c_now c) (IssuedAt signed) (ExpiresAt signed) watermark = Ok tt) as ->; [| done].
  unfold CheckFreshness, IsZero; cbn [IssuedAt signed payload_of v_maxAge verifier_of].
  rewrite bool_decide_eq_false_2 by lia; rewrite (proj2 (Z.ltb_ge _ _)) by lia.
  assert (negb (bool_decide (ExpiresAt signed = 0%Z)) && (ExpiresAt signed + leeway <? c_now c)%Z = false) as ->.
  { cbn [ExpiresAt signed payload_of]; destruct (Z.ltb_spec 0 (signer_ttl signer)); [| done].
    apply andb_false_iff; right; apply Z.ltb_ge; lia. }
  assert ((o_MaxAge o + leeway <? Sub (c_now c) issued_at)%Z = false) as ->.
  { apply Z.ltb_ge, Sub_le; unfold leeway in *; lia. }
  rewrite andb_false_r, (proj2 (Z.leb_gt _ _)) by lia; by rewrite andb_false_r.
Qed.

(** A catalog that ayato signs is accepted by a kayo that pins its key, if their clocks agree
    to within the leeway, the catalog is fresh and newer than the last one, and the watermark
    is saved: kayo then serves exactly that catalog, which vouches for its packages until it
    expires or reaches the maximum age.  JSON is taken to give this payload and envelope back. *)
Theorem signed_catalog_accepted signer issued_at cat c s ps :
  let env := Sign b64_encode ed_sign ed_public KeyID encode_payload signer issued_at cat in
  let signed := payload_of signer issued_at cat in
  encode_payload signed ≠ "" → decode_payload (encode_payload signed) = Some signed →
  decode_envelope (encode_envelope env) = Some env → c_body c = Ok (encode_envelope env) → c_save_mark c = None →
  o_Insecure o = false → (0 < o_MaxAge o)%Z → verifier s = Some (verifier_of signer) →
  (0 < issued_at)%Z → (lastIssued s < issued_at)%Z → (issued_at ≤ c_now c + leeway)%Z → fresh_at signer issued_at (c_now c) leeway →
  ∃ s' ps', Sync b64_decode ed_verify KeyID decode_payload decode_envelope decode_catalog o c s ps = (s', ps', Ok signed) ∧
    index s' = index_of cat ∧ lastIssued s' = issued_at ∧
    ∀ now, fresh_at signer issued_at now 0 → Verified o now s' = true.
Proof using Hb64 Hed.
  intros env signed Henc Hdec Henv Hbody Hsave Hsecure Hage Hver Hpos Hnew Hfuture Hfresh.
  pose proof (accept_signed signer issued_at cat c (lastIssued s) Henc Hdec Hage Hpos Hnew Hfuture Hfresh) as Hacc.
  unfold Sync; rewrite Hbody, Henv, Hsecure; unfold resolveVerifier; rewrite Hver; unfold env; rewrite Hacc.
  assert (∃ ps', SetLastIssued (c_save_mark c) (c_now c) (o_Name o) (IssuedAt signed) ps = (ps', Ok tt)) as [ps' Hset].
  { unfold SetLastIssued; rewrite Hsave; case_match; by eexists. }
  assert (∀ now, fresh_at signer issued_at now 0 → Verified o now (swap s signed true) = true) as Hverified.
  { intros now [Hn1 Hn2]; unfold Verified, swap; cbn [lastVerified expiresAt lastIssued IssuedAt ExpiresAt signed payload_of andb].
    rewrite (proj2 (Z.ltb_lt _ _) Hnew).
    rewrite (proj2 (Z.ltb_ge (o_MaxAge o) (Sub now issued_at))) by (apply Sub_le; lia); rewrite andb_false_r, andb_true_r.
    destruct (Z.ltb_spec 0 (signer_ttl signer)); [| done].
    rewrite (proj2 (Z.ltb_ge (issued_at + signer_ttl signer) now)) by lia; by rewrite andb_false_r. }
  exists (swap s signed true); fold signed.
  destruct (o_HasPins o); [rewrite Hset; exists ps' | exists ps]; (split; [done | split; [done | split; [cbn; by rewrite (proj2 (Z.ltb_lt _ _) Hnew) | done]]]).
Qed.
End honest.

(** ** The same envelope again *)

(** A payload issued no later than the watermark is never swapped in. *)
Lemma resync_refused b64 ed dec c v watermark env signed :
  dec (Payload env) = Some signed → (0 < watermark)%Z → (IssuedAt signed ≤ watermark)%Z →
  ∃ e, accept b64 ed dec c v watermark env = Err e.
Proof.
  intros Hdec Hpos Hle; destruct (accept _ _ _ _ _ _ _) as [p |] eqn:Ha; [| by eexists].
  apply (accept_Ok b64 ed (λ x, x) dec (λ _, None) (λ _, None)) in Ha as (_ & Hdec' & _ & _ & [H0 | Hlt]); [lia | simplify_eq; lia].
Qed.

(** A toy signature scheme, and JSON that knows the envelopes of one ayato. *)
Definition toy_sig : string := str_take 64 (join "" (repeat "signature" 8)).
Definition toy_pub : string := str_take 32 (join "" (repeat "key" 11)).
Definition toy_verify (pub m sig : string) : bool := bool_decide (sig = toy_sig) && bool_decide (pub = toy_pub).

Definition day : Z := 24 * 3600 * 1000000000.
Definition start : Z := epoch + day.

#[local] Instance order : RangeOrder := elements_order.

Definition yay : Pkg := mkPkg 1 "yay" 1 "yay" "1-1" "" "" 0 0 0 "jguer" "" 0 0 "" [] [] [] [] [] [] [] [] [] [] [].
Definition catalog : Catalog := mkCatalog [yay] {["yay" := "https://ayato/yay.git"]}.
Definition signer : CatalogSigner := mkSigner "seed" (30 * day).
Definition service : Service := mkService (Some signer) day None.

Definition toy_encode (p : SignedPayload) : string := format_int (IssuedAt p).
Definition toy_decode (s : string) : option SignedPayload :=
  (λ t, mkPayload "id" (Z.of_N t) (Z.of_N t + 30 * day) catalog) <$> parse_digits s.
Definition toy_envelope (e : CatalogEnvelope) : string := Payload e.
Definition toy_decode_envelope (s : string) : option CatalogEnvelope := Some (mkEnvelope s "ed25519" "id" toy_sig).

Definition options : Options := mkOptions "ayato" toy_pub (2 * day) false false true.

Definition fetch (now : Z) (body : result string string) : conditions := mkConditions now body (Err "") None None.

Notation "'sync'" := (Sync Some toy_verify (λ _, "id") toy_decode toy_decode_envelope (λ _, None) options).
Notation "'envelope'" := (Envelope (λ x, x) (λ _ _, toy_sig) (λ _, toy_pub) (λ _, "id") toy_encode).

Definition fresh_source : SyncSource := mkSyncSource Index.New (Some (mkVerifier toy_pub "id" (2 * day))) 0 0 false.

Lemma signed_catalog_accepted_witness :
  ∃ s' ps', sync (fetch start (Ok (toy_encode (mkPayload "id" start (start + 30 * day) catalog)))) fresh_source (mkPinStore ∅ ∅)
    = (s', ps', Ok (mkPayload "id" start (start + 30 * day) catalog)) ∧
    index s' = index_of catalog ∧ lastIssued s' = start ∧
    ∀ now, fresh_at options signer start now 0 → Verified options now s' = true.
Proof.
  refine (signed_catalog_accepted Some (λ x, x) toy_verify (λ _ _, toy_sig) (λ _, toy_pub) (λ _, "id") toy_encode toy_decode
    toy_envelope toy_decode_envelope (λ _, None) options _ _ signer start catalog
    (fetch start (Ok (toy_encode (mkPayload "id" start (start + 30 * day) catalog)))) fresh_source (mkPinStore ∅ ∅)
    _ _ _ _ _ _ _ _ _ _ _ _).
  - intros x Hx; split; [reflexivity | exact Hx].
  - intros k m; split; vm_compute; reflexivity.
  - vm_compute; discriminate.
  - vm_compute; reflexivity.
  - vm_compute; reflexivity.
  - reflexivity.
  - reflexivity.
  - reflexivity.
  - vm_compute; reflexivity.
  - reflexivity.
  - vm_compute; reflexivity.
  - vm_compute; reflexivity.
  - vm_compute; discriminate.
  - split; [vm_compute; discriminate | intros _; vm_compute; discriminate].
Defined.

(** One ayato, asked twice within the lifetime of its cache, by a kayo that restarts in between,
    as each run of its commands does: the second kayo refuses the catalog as a rollback and
    serves nothing, though the catalog is neither old nor changed. *)
Example cached_envelope_refused :
  let '(r1, svc) := envelope start (Ok catalog) service in
  let '(r2, _) := envelope (start + day / 2)%Z (Ok catalog) svc in
  r1 = r2 ∧
  match r1 with
  | Err _ => False
  | Ok env =>
      let '(s1, ps1, ok1) := sync (fetch start (Ok (toy_envelope env))) fresh_source (mkPinStore ∅ ∅) in
      Index.names (index s1) = ["yay"] ∧
      match NewSource Some (λ _, "id") options (file ps1) with
      | Err _ => False
      | Ok s2 =>
          let '(s3, _, ok2) := sync (fetch (start + day / 2)%Z (Ok (toy_envelope env))) s2 (mkPinStore (file ps1) (file ps1)) in
          ok2 = Err ErrRollback ∧ Index.names (index s3) = []
      end
  end.
Proof. vm_compute; split_and!; reflexivity. Qed.

(** Two processes open the same file; the one saves a watermark, then the other saves the pin of
    another source from its own memory, and the watermark is back at zero. *)
Example watermark_lost :
  let first := mkPinStore ∅ ∅ in
  let '(first, _) := SetLastIssued None start "ayato" start first in
  let second := mkPinStore ∅ (file first) in
  let '(second, ok) := SetLastIssued None start "other" start second in
  LastIssued (default no_pin (file first !! "ayato")) = start ∧ ok = Ok tt ∧ file second !! "ayato" = None.
Proof. vm_compute; split_and!; reflexivity. Qed.

