(* ===== verification/Credentials.v ===== *)
(** * The credential store of the ayato client (ayato/client/auth/store)

    A registry file, a file of credential modes and the keyring of the system, which are written
    one after the other.  Every read and write may fail, a write before or after its effect,
    and the process may stop at any of them: a script of faults says which.  Operations run
    under a lock shared by all processes; a file that cannot be decoded is a failed read. *)

From S2P Require Import Prelude GoStrings.

(** ** State *)

(** [credential_state.go]: where the tokens of a server are read from. *)
Definition credentialSourceKeyring : string := "keyring".
Definition credentialSourceFile : string := "file".
Definition credentialSourceNone : string := "none".

Record credentialMode := mkMode { Access : string; Refresh : string }.

Definition no_credentials : credentialMode := mkMode credentialSourceNone credentialSourceNone.

Definition validCredentialSource (src : string) (allowFile : bool) : bool :=
  bool_decide (src = credentialSourceNone) || bool_decide (src = credentialSourceKeyring)
  || allowFile && bool_decide (src = credentialSourceFile).

Definition valid_mode (m : credentialMode) : bool := validCredentialSource (Access m) true && validCredentialSource (Refresh m) false.

(** [registry.go] *)
Record StoredEndpoint := mkEndpoint { Username : string; AccessToken : string }.
Record Registry := mkRegistry { Default : string; Endpoints : gmap string StoredEndpoint }.

Definition NewRegistry : Registry := mkRegistry "" ∅.
Definition no_endpoint : StoredEndpoint := mkEndpoint "" "".

(** The registry file, the modes file and the keyring. *)
Record data := mkData { db : Registry; modes : gmap string credentialMode; ring : gmap string string }.

(** ** Programs with faults *)
Inductive fault := Fine | FailBefore | FailAfter | StopBefore | StopAfter.

Inductive outcome (A : Type) := Ret (a : A) | Fail (e : string) | Stopped.
Arguments Ret {A} a.
Arguments Fail {A} e.
Arguments Stopped {A}.

Definition M (A : Type) : Type := data * list fault → outcome A * (data * list fault).

#[export] Instance M_ret : MRet M := λ A a w, (Ret a, w).
#[export] Instance M_bind : MBind M := λ A B f m w,
  match m w with (Ret a, w) => f a w | (Fail e, w) => (Fail e, w) | (Stopped, w) => (Stopped, w) end.

Definition fail {A} (e : string) : M A := λ w, (Fail e, w).

Definition next (sc : list fault) : fault * list fault := match sc with f :: sc => (f, sc) | [] => (Fine, []) end.

Definition read_op {A} (e : string) (f : data → A) : M A := λ '(d, sc),
  match next sc with
  | (Fine, sc) => (Ret (f d), (d, sc))
  | (FailBefore, sc) | (FailAfter, sc) => (Fail e, (d, sc))
  | (StopBefore, sc) | (StopAfter, sc) => (Stopped, (d, sc))
  end.

Definition write_op (e : string) (g : data → data) : M unit := λ '(d, sc),
  match next sc with
  | (Fine, sc) => (Ret tt, (g d, sc))
  | (FailBefore, sc) => (Fail e, (d, sc))
  | (FailAfter, sc) => (Fail e, (g d, sc))
  | (StopBefore, sc) => (Stopped, (d, sc))
  | (StopAfter, sc) => (Stopped, (g d, sc))
  end.

(** The error of a call as a value. *)
Definition attempt (m : M unit) : M (option string) := λ w,
  match m w with (Ret _, w) => (Ret None, w) | (Fail e, w) => (Ret (Some e), w) | (Stopped, w) => (Stopped, w) end.

(** ** [keyring.go] *)
Definition refresh_key (server : string) : string := server +:+ String "000" "refresh".

Definition ring_set (key token : string) : M unit :=
  write_op "set in OS keyring" (λ d, mkData (db d) (modes d) (<[key := token]> (ring d))).
Definition ring_delete (key : string) : M unit :=
  write_op "remove from OS keyring" (λ d, mkData (db d) (modes d) (delete key (ring d))).
Definition ring_get (key : string) : M (option string) := read_op "read from OS keyring" (λ d, ring d !! key).

Definition forgetAccessToken (server : string) : M unit := ring_delete server.
Definition forgetRefreshToken (server : string) : M unit := ring_delete (refresh_key server).

Definition forgetKeyringTokensBestEffort (server : string) : M unit :=
  _ ← attempt (forgetAccessToken server); _ ← attempt (forgetRefreshToken server); mret tt.

(** A keyring that does not take the access token leaves it to the registry. *)
Definition storeAccessToken (server token : string) : M bool :=
  if decide (token = "") then _ ← forgetAccessToken server; mret false
  else err ← attempt (ring_set server token); mret (match err with None => true | Some _ => false end).

Definition storeRefreshToken (server token : string) : M bool :=
  if decide (token = "") then _ ← forgetRefreshToken server; mret false
  else _ ← ring_set (refresh_key server) token; mret true.

(** ** [credential_state.go] *)
Definition loadCredentialMode (server : string) : M (option credentialMode) :=
  state ← read_op "read credential state" modes;
  match state !! server with
  | None => mret None
  | Some m => if valid_mode m then mret (Some m) else fail ("invalid credential mode for " +:+ server)
  end.

Definition saveCredentialMode (server : string) (m : credentialMode) : M unit :=
  if bool_decide (server = "") || negb (valid_mode m) then fail "invalid credential mode"
  else
    _ ← read_op "read credential state" (λ _, tt);
    write_op "save credential state" (λ d, mkData (db d) (<[server := m]> (modes d)) (ring d)).

Definition withCredentialMutation {A} (operation : M A) : M A := _ ← read_op "lock credential mutation" (λ _, tt); operation.

(** An empty token is no token: [WrapErr] of no error is none. *)
Definition loadAccessTokenFromKeyring (server : string) : M string := token ← ring_get server; mret (default "" token).

Definition loadAccessToken (server fileFallback : string) : M string :=
  mode ← loadCredentialMode server;
  match mode with
  | Some m =>
      if decide (Access m = credentialSourceNone) then mret ""
      else if decide (Access m = credentialSourceFile) then mret fileFallback
      else loadAccessTokenFromKeyring server
  | None => if decide (fileFallback = "") then loadAccessTokenFromKeyring server else mret fileFallback
  end.

Definition loadRefreshToken (server : string) : M string :=
  mode ← loadCredentialMode server;
  if bool_decide (Refresh <$> mode = Some credentialSourceNone) then mret ""
  else token ← ring_get (refresh_key server); mret (default "" token).

(** ** [store.go] *)
Definition readDB : M Registry := read_op "read server database" db.
Definition saveDB (r : Registry) : M unit := write_op "save server database" (λ d, mkData r (modes d) (ring d)).

Record Endpoint := mkResolved { e_URL : string; e_Username : string; e_AccessToken : string }.

(** A token that cannot be loaded is refused: the endpoint has none. *)
Definition Resolve (name : string) : M Endpoint :=
  r ← readDB;
  let name := if decide (name = "") then Default r else name in
  if decide (name = "") then fail "no server specified and no default server is set"
  else
    match Endpoints r !! name with
    | None => fail "server not found"
    | Some e =>
        λ w, match loadAccessToken name (AccessToken e) w with
             | (Ret t, w) => (Ret (mkResolved name (Username e) t), w)
             | (Fail _, w) => (Ret (mkResolved name (Username e) ""), w)
             | (Stopped, w) => (Stopped, w)
             end
    end.

Definition ListEndpoints : M (list (string * string * bool)) :=
  r ← readDB;
  mret (map (λ name, (name, default "" (Username <$> Endpoints r !! name), bool_decide (Default r = name)))
    (sort_strings (elements (dom (Endpoints r))))).

Definition Names (prefix : string) : M (list string) := λ w,
  match ListEndpoints w with
  | (Ret l, w) => (Ret (filter (λ name, String.prefix prefix name = true) (map (λ '(url, _, _), url) l)), w)
  | (Fail _, w) => (Ret [], w)
  | (Stopped, w) => (Stopped, w)
  end.

Definition with_username (username : string) (e : StoredEndpoint) : StoredEndpoint :=
  if decide (username = "") then e else mkEndpoint username (AccessToken e).

Definition set_endpoint (server : string) (e : StoredEndpoint) (r : Registry) : Registry :=
  mkRegistry (Default r) (<[server := e]> (Endpoints r)).

Definition endpoint (r : Registry) (server : string) : StoredEndpoint := default no_endpoint (Endpoints r !! server).

Definition SaveEndpoint (server username : string) : M unit :=
  withCredentialMutation (r ← readDB; saveDB (set_endpoint server (with_username username (endpoint r server)) r)).

(** The tokens are written while the mode says that there are none. *)
Definition store_access (server username access : string) (r : Registry) : M string :=
  stored ← storeAccessToken server access;
  let e := with_username username (endpoint r server) in
  _ ← saveDB (set_endpoint server (mkEndpoint (Username e) (if stored : bool then "" else access)) r);
  mret (if stored : bool then credentialSourceKeyring else credentialSourceFile).

Definition saveStaticToken (server username access : string) : M unit :=
  r ← readDB;
  if decide (access = "") then
    _ ← saveCredentialMode server no_credentials;
    _ ← saveDB (set_endpoint server (mkEndpoint (Username (with_username username (endpoint r server))) "") r);
    forgetKeyringTokensBestEffort server
  else
    _ ← saveCredentialMode server no_credentials;
    src ← store_access server username access r;
    _ ← saveCredentialMode server (mkMode src credentialSourceNone);
    _ ← attempt (forgetRefreshToken server);
    if decide (src = credentialSourceFile) then _ ← attempt (forgetAccessToken server); mret tt else mret tt.

Definition SaveStaticToken (server username access : string) : M unit := withCredentialMutation (saveStaticToken server username access).

Definition saveTokens (server username access refresh : string) : M unit :=
  r ← readDB;
  _ ← saveCredentialMode server no_credentials;
  refreshStored ← storeRefreshToken server refresh;
  if negb refreshStored then mret tt (* [WrapErr] of no error is none *)
  else
    src ← store_access server username access r;
    saveCredentialMode server (mkMode src credentialSourceKeyring).

Definition SaveTokens (server username access refresh : string) : M unit :=
  if decide (access = "" ∨ refresh = "") then fail "OAuth token pair must contain both access and refresh tokens"
  else withCredentialMutation (saveTokens server username access refresh).

Definition clearCredentials (r : Registry) (server : string) (clearUsername : bool) : M unit :=
  match Endpoints r !! server with
  | None => fail "server not found"
  | Some e =>
      _ ← saveCredentialMode server no_credentials;
      _ ← saveDB (set_endpoint server (mkEndpoint (if clearUsername then "" else Username e) "") r);
      forgetKeyringTokensBestEffort server
  end.

Definition ClearCredentials (server : string) (clearUsername : bool) : M unit :=
  withCredentialMutation (r ← readDB; clearCredentials r server clearUsername).

Definition RemoveEndpoint (server : string) : M unit :=
  withCredentialMutation
    (r ← readDB;
     _ ← saveCredentialMode server no_credentials;
     _ ← saveDB (mkRegistry (if decide (Default r = server) then "" else Default r) (delete server (Endpoints r)));
     forgetKeyringTokensBestEffort server).

Definition SetDefault (server : string) : M unit :=
  withCredentialMutation
    (r ← readDB;
     match Endpoints r !! server with
     | None => fail "server not found"
     | Some _ => saveDB (mkRegistry server (Endpoints r))
     end).

(** *** Snapshots *)
Record CredentialSnapshot := mkSnapshot { s_Server : string; s_Username : string; s_Access : string; s_Refresh : string; revision : string }.

Section snapshots.
Context (sha256 : string → string).

Definition revision_of (server access refresh : string) : string :=
  sha256 (server +:+ String "000" access +:+ String "000" refresh).

Definition credentialSnapshot (r : Registry) (server : string) : M CredentialSnapshot :=
  match Endpoints r !! server with
  | None => fail "server not found"
  | Some e =>
      access ← loadAccessToken server (AccessToken e);
      refresh ← loadRefreshToken server;
      mret (mkSnapshot server (Username e) access refresh (revision_of server access refresh))
  end.

Definition SnapshotCredentials (server : string) : M CredentialSnapshot :=
  withCredentialMutation (r ← readDB; credentialSnapshot r server).

(** The refresh token is written back, so that the keyring is known to take the next one. *)
Definition snapshotCredentialsForRefresh (server : string) : M CredentialSnapshot :=
  withCredentialMutation
    (r ← readDB;
     snapshot ← credentialSnapshot r server;
     if decide (s_Refresh snapshot = "") then mret snapshot
     else
       stored ← storeRefreshToken server (s_Refresh snapshot);
       if stored : bool then mret snapshot else fail "refresh token keyring is unavailable").

Definition SaveTokensIfCurrent (expected : CredentialSnapshot) (username access refresh : string) : M (CredentialSnapshot * bool) :=
  withCredentialMutation
    (r ← readDB;
     current ← credentialSnapshot r (s_Server expected);
     if decide (revision current ≠ revision expected) then mret (current, false)
     else
       _ ← saveTokens (s_Server expected) username access refresh;
       r ← readDB;
       current ← credentialSnapshot r (s_Server expected);
       mret (current, true)).

Definition ClearCredentialsIfCurrent (expected : CredentialSnapshot) (clearUsername : bool) : M bool :=
  withCredentialMutation
    (r ← readDB;
     current ← credentialSnapshot r (s_Server expected);
     if decide (revision current ≠ revision expected) then mret false
     else _ ← clearCredentials r (s_Server expected) clearUsername; mret true).

(** ** [token_source.go] *)
Record TokenSource := mkSource { ts_server : string; ts_username : string; ts_access : string }.
Record TokenPair := mkPair { Login : string; AccessToken_ : string; RefreshToken : string }.

Definition NewTokenSource (e : Endpoint) : TokenSource := mkSource (e_URL e) (e_Username e) (e_AccessToken e).

(** What other processes do to the store while this one holds no mutation lock. *)
Definition others_run (others : data → data) : M unit := λ '(d, sc), (Ret tt, (others d, sc)).

(** [RefreshIfCurrent], under the lock of the source and the refresh lock of its server.  The
    answer of the server to the refresh token is a parameter; while it is asked, other
    processes may log in, refresh or remove the server. *)
Definition RefreshIfCurrent (others : data → data) (answer : string → result string TokenPair) (s : TokenSource) (staleAccess : string) : M TokenSource :=
  if decide (ts_access s ≠ staleAccess) then mret s
  else
    _ ← read_op "acquire refresh lock" (λ _, tt);
    snapshot ← snapshotCredentialsForRefresh (ts_server s);
    if decide (s_Access snapshot ≠ staleAccess) then mret (mkSource (ts_server s) (s_Username snapshot) (s_Access snapshot))
    else if decide (s_Refresh snapshot = "") then fail "no refresh token is stored"
    else
      _ ← others_run others;
      match answer (s_Refresh snapshot) with
      | Err e => fail e
      | Ok tokens =>
          let username := if decide (Login tokens = "") then ts_username s else Login tokens in
          '(current, saved) ← SaveTokensIfCurrent snapshot username (AccessToken_ tokens) (RefreshToken tokens);
          if saved : bool then mret (mkSource (ts_server s) username (AccessToken_ tokens))
          else mret (mkSource (ts_server s) (s_Username current) (s_Access current))
      end.
End snapshots.

(** ** What the store can be read as *)

(** The tokens of a server without a fault: those its mode selects. *)
Definition access_of (d : data) (server : string) : option string :=
  let file := AccessToken (endpoint (db d) server) in
  let ring_token := Some (default "" (ring d !! server)) in
  match modes d !! server with
  | None => if decide (file = "") then ring_token else Some file
  | Some m =>
      if negb (valid_mode m) then None
      else if decide (Access m = credentialSourceNone) then Some ""
      else if decide (Access m = credentialSourceFile) then Some file
      else ring_token
  end.

Definition refresh_of (d : data) (server : string) : option string :=
  let ring_token := Some (default "" (ring d !! refresh_key server)) in
  match modes d !! server with
  | None => ring_token
  | Some m =>
      if negb (valid_mode m) then None
      else if decide (Refresh m = credentialSourceNone) then Some "" else ring_token
  end.

Definition credentials (d : data) (server : string) : option (string * string) :=
  a ← access_of d server; r ← refresh_of d server; Some (a, r).

(** ** A logic for programs with faults: what holds when they return, and what whenever they
    fail or stop, for every script *)
Definition wp {A} (m : M A) (R : A → data → Prop) (S : data → Prop) (d : data) : Prop :=
  ∀ sc, let '(o, (d', _)) := m (d, sc) in match o with Ret a => R a d' | _ => S d' end.

Lemma wpf_ret {A} (a : A) R S d : R a d → wp (mret a) R S d.
Proof. by intros H sc. Qed.

Lemma wpf_fail {A} e (R : A → data → Prop) (S : data → Prop) d : S d → wp (fail e) R S d.
Proof. by intros H sc. Qed.

Lemma wpf_bind {A B} (m : M A) (f : A → M B) R S d : wp m (λ a, wp (f a) R S) S d → wp (m ≫= f) R S d.
Proof.
  intros H sc; specialize (H sc); unfold mbind, M_bind; destruct (m (d, sc)) as [[a | e |] [d' sc']]; [apply H | done | done].
Qed.

Lemma wpf_read {A} e (f : data → A) (R : A → data → Prop) (S : data → Prop) d : R (f d) d → S d → wp (read_op e f) R S d.
Proof. intros HR HS sc; unfold read_op; destruct (next sc) as [[] sc']; done. Qed.

Lemma wpf_write e g (R : unit → data → Prop) (S : data → Prop) d : R tt (g d) → S d → S (g d) → wp (write_op e g) R S d.
Proof. intros HR HS HS' sc; unfold write_op; destruct (next sc) as [[] sc']; done. Qed.

(** A call whose error is a value: what holds after it must hold however it ended. *)
Lemma wpf_attempt m (R : option string → data → Prop) (S : data → Prop) (Q : data → Prop) d :
  wp m (λ _ d', R None d') (λ d', Q d') d → (∀ d' e, Q d' → R (Some e) d') → (∀ d', Q d' → S d') → wp (attempt m) R S d.
Proof.
  intros H HQ HS sc; specialize (H sc); unfold attempt; destruct (m (d, sc)) as [[a | e |] [d' sc']]; auto.
Qed.

Lemma wpf_mono {A} (m : M A) (R R' : A → data → Prop) (S S' : data → Prop) d :
  wp m R S d → (∀ a d', R a d' → R' a d') → (∀ d', S d' → S' d') → wp m R' S' d.
Proof. intros H HR HS sc; specialize (H sc); destruct (m (d, sc)) as [[a | e |] [d' sc']]; auto. Qed.
