(* ===== verification/CredentialsSpec.v ===== *)
(** * What the credential store leaves behind

    Every operation disables the tokens of its server before it writes new ones and enables them
    with its last write.  So whatever fails, and wherever the process stops, the server has its
    old tokens, none, or the new ones; and a refresh replaces only the pair it read. *)

From S2P Require Import Prelude GoStrings Credentials.

(** ** Keys of the keyring *)
Fixpoint has_nul (s : string) : bool :=
  match s with "" => false | String c s => bool_decide (c = "000"%char) || has_nul s end.

Lemma has_nul_refresh_key s : has_nul (refresh_key s) = true.
Proof. unfold refresh_key; induction s as [|c s IH]; cbn; [done |]; by rewrite IH, orb_true_r. Qed.

Lemma refresh_key_ne s : refresh_key s ≠ s.
Proof. intros H; apply (f_equal String.length) in H; unfold refresh_key in H; rewrite length_str_app in H; cbn in H; lia. Qed.

Lemma refresh_key_inj s s' : refresh_key s = refresh_key s' → s = s'.
Proof.
  unfold refresh_key; revert s'; induction s as [|c s IH]; intros [|c' s']; cbn; [done | | | intros [= -> H]; f_equal; by apply IH].
  - intros [= <- H]; apply (f_equal String.length) in H; rewrite length_str_app in H; cbn in H; lia.
  - intros [= -> H]; apply (f_equal String.length) in H; rewrite length_str_app in H; cbn in H; lia.
Qed.

(** ** States that differ only in one server *)
Record untouched (server : string) (d d' : data) : Prop := mkUntouched {
  un_modes : ∀ s, s ≠ server → modes d' !! s = modes d !! s;
  un_db : ∀ s, s ≠ server → Endpoints (db d') !! s = Endpoints (db d) !! s;
  un_ring : ∀ k, k ≠ server → k ≠ refresh_key server → ring d' !! k = ring d !! k
}.

Lemma untouched_refl server d : untouched server d d.
Proof. by split. Qed.

(** The tokens of another server are those they were; its name is a URL, which has no NUL. *)
Lemma untouched_credentials server d d' other :
  untouched server d d' → other ≠ server → has_nul other = false → has_nul server = false →
  credentials d' other = credentials d other.
Proof.
  intros [Hm Hd Hr] Hne Ho Hs; pose proof (has_nul_refresh_key other) as Hk; pose proof (has_nul_refresh_key server) as Hk'.
  unfold credentials, access_of, refresh_of, endpoint; rewrite Hm, Hd by done.
  rewrite (Hr other) by (done || congruence).
  rewrite (Hr (refresh_key other)) by (first [congruence | by intros ?%refresh_key_inj]); done.
Qed.

(** ** Reading *)
Lemma credentials_none d server : modes d !! server = Some no_credentials → credentials d server = Some ("", "").
Proof. intros H; unfold credentials, access_of, refresh_of; by rewrite H. Qed.

(** The access token is where [src] says. *)
Definition placed (d : data) (server src access : string) : Prop :=
  src = credentialSourceKeyring ∧ ring d !! server = Some access ∨
  src = credentialSourceFile ∧ AccessToken (endpoint (db d) server) = access.

Lemma placed_valid d server src access : placed d server src access → validCredentialSource src true = true.
Proof. by intros [[-> _] | [-> _]]. Qed.

Lemma credentials_placed d server src rsrc access refresh :
  modes d !! server = Some (mkMode src rsrc) → placed d server src access →
  (rsrc = credentialSourceNone ∧ refresh = "" ∨ rsrc = credentialSourceKeyring ∧ ring d !! refresh_key server = Some refresh) →
  credentials d server = Some (access, refresh).
Proof.
  intros Hm Hp Hr; unfold credentials, access_of, refresh_of; rewrite Hm.
  destruct Hp as [[-> Ha] | [-> Ha]], Hr as [[-> ->] | [-> Hr]]; cbn; rewrite ?Ha, ?Hr; done.
Qed.

Lemma access_of_read server d (R : string → data → Prop) (S : data → Prop) :
  (∀ a, access_of d server = Some a → R a d) → S d → wp (loadAccessToken server (AccessToken (endpoint (db d) server))) R S d.
Proof.
  intros HR HS; unfold access_of in HR.
  apply wpf_bind, wpf_bind, wpf_read; [| done].
  assert (wp (loadAccessTokenFromKeyring server) (λ a d', a = default "" (ring d !! server) ∧ d' = d) S d) as Hring.
  { apply wpf_bind, wpf_read; [by apply wpf_ret | done]. }
  destruct (modes d !! server) as [m|]; [destruct (valid_mode m); cbn in HR |].
  - apply wpf_ret; repeat case_decide; [apply wpf_ret | apply wpf_ret |]; auto.
    eapply wpf_mono; [exact Hring | |]; [by intros a d' [-> ->]; apply HR | done].
  - by apply wpf_fail.
  - apply wpf_ret; case_decide; [| by apply wpf_ret, HR].
    eapply wpf_mono; [exact Hring | |]; [by intros a d' [-> ->]; apply HR | done].
Qed.

Lemma refresh_of_read server d (R : string → data → Prop) (S : data → Prop) :
  (∀ r, refresh_of d server = Some r → R r d) → S d → wp (loadRefreshToken server) R S d.
Proof.
  intros HR HS; unfold refresh_of in HR.
  apply wpf_bind, wpf_bind, wpf_read; [| done].
  assert (wp (token ← ring_get (refresh_key server); mret (default "" token)) (λ a d', a = default "" (ring d !! refresh_key server) ∧ d' = d) S d) as Hring.
  { apply wpf_bind, wpf_read; [by apply wpf_ret | done]. }
  destruct (modes d !! server) as [m|]; [destruct (valid_mode m); cbn in HR |].
  - apply wpf_ret; cbn; destruct (decide (Refresh m = credentialSourceNone)) as [Hn | Hn].
    + rewrite bool_decide_true by (by rewrite Hn); by apply wpf_ret, HR.
    + rewrite bool_decide_false by congruence; eapply wpf_mono; [exact Hring | |]; [by intros a d' [-> ->]; apply HR | done].
  - by apply wpf_fail.
  - apply wpf_ret; cbn; eapply wpf_mono; [exact Hring | |]; [by intros a d' [-> ->]; apply HR | done].
Qed.

(** What a snapshot reads is what the store says. *)
Lemma credentialSnapshot_read sha256 r server d (R : CredentialSnapshot → data → Prop) (S : data → Prop) :
  r = db d →
  (∀ u a f, credentials d server = Some (a, f) → is_Some (Endpoints r !! server) → R (mkSnapshot server u a f (revision_of sha256 server a f)) d) →
  S d → wp (credentialSnapshot sha256 r server) R S d.
Proof.
  intros -> HR HS; unfold credentialSnapshot; destruct (Endpoints (db d) !! server) as [e|] eqn:He; [| by apply wpf_fail].
  replace (AccessToken e) with (AccessToken (endpoint (db d) server)) by (unfold endpoint; by rewrite He).
  apply wpf_bind, access_of_read; [intros a Ha | done]; apply wpf_bind, refresh_of_read; [intros f Hf | done].
  apply wpf_ret, HR; [| done]; unfold credentials; by rewrite Ha, Hf.
Qed.

(** ** Writing while the tokens are disabled *)
Section writing.
Context (server : string) (d0 : data).

Definition dark (d : data) : Prop := modes d !! server = Some no_credentials ∧ untouched server d0 d.

Lemma dark_credentials d : dark d → credentials d server = Some ("", "").
Proof. intros [H _]; by apply credentials_none. Qed.

Lemma dark_ring d k f : dark d → k = server ∨ k = refresh_key server → (∀ k', k' ≠ k → f (ring d) !! k' = ring d !! k') →
  dark (mkData (db d) (modes d) (f (ring d))).
Proof.
  intros [Hm [Hms Hd Hr]] Hk Hf; split; [done |]; split; cbn; [done | done |].
  intros k' H1 H2; rewrite Hf by (destruct Hk; congruence); by apply Hr.
Qed.

Lemma dark_db d r : dark d → (∀ s, s ≠ server → Endpoints r !! s = Endpoints (db d0) !! s) → dark (mkData r (modes d) (ring d)).
Proof. intros [Hm [Hms Hd Hr]] H; by split. Qed.

Lemma untouched_mode d m : untouched server d0 d → untouched server d0 (mkData (db d) (<[server := m]> (modes d)) (ring d)).
Proof. intros [Hm Hd Hr]; split; cbn; [| done | done]; intros s Hs; rewrite lookup_insert_ne by done; by apply Hm. Qed.

Lemma wpf_mode m d (R : unit → data → Prop) (S : data → Prop) :
  S d → (server ≠ "" → valid_mode m = true → let d' := mkData (db d) (<[server := m]> (modes d)) (ring d) in R tt d' ∧ S d') →
  wp (saveCredentialMode server m) R S d.
Proof.
  intros HS H; unfold saveCredentialMode; destruct (bool_decide (server = "")) eqn:He; cbn; [by apply wpf_fail |].
  apply bool_decide_eq_false in He; destruct (valid_mode m) eqn:Hv; cbn; [| by apply wpf_fail].
  destruct (H He eq_refl) as [H1 H2]; apply wpf_bind, wpf_read; [by apply wpf_write | done].
Qed.

Lemma wpf_dark d (R : unit → data → Prop) (S : data → Prop) :
  untouched server d0 d → S d →
  (∀ d', dark d' → db d' = db d → ring d' = ring d → R tt d' ∧ S d') → wp (saveCredentialMode server no_credentials) R S d.
Proof.
  intros Hu HS H; apply wpf_mode; [done |]; intros _ _ d'; apply H; [| done | done].
  split; [apply lookup_insert_eq | by apply untouched_mode].
Qed.

Lemma wpf_ring_set d key token (R : unit → data → Prop) (S : data → Prop) :
  dark d → key = server ∨ key = refresh_key server →
  (∀ d', dark d' → db d' = db d → ring d' = <[key := token]> (ring d) → R tt d' ∧ S d') → S d → wp (ring_set key token) R S d.
Proof.
  intros Hd Hk H HS; unfold ring_set.
  assert (dark (mkData (db d) (modes d) (<[key := token]> (ring d)))) as Hd'.
  { eapply (dark_ring d key (λ r, <[key := token]> r)); [done | done |]; intros k' Hne; by rewrite lookup_insert_ne. }
  destruct (H _ Hd' eq_refl eq_refl); by apply wpf_write.
Qed.

Lemma wpf_ring_delete d key (R : unit → data → Prop) (S : data → Prop) :
  dark d → key = server ∨ key = refresh_key server →
  (∀ d', dark d' → db d' = db d → ring d' = delete key (ring d) → R tt d' ∧ S d') → S d → wp (ring_delete key) R S d.
Proof.
  intros Hd Hk H HS; unfold ring_delete.
  assert (dark (mkData (db d) (modes d) (delete key (ring d)))) as Hd'.
  { eapply (dark_ring d key (λ r, delete key r)); [done | done |]; intros k' Hne; by rewrite lookup_delete_ne. }
  destruct (H _ Hd' eq_refl eq_refl); by apply wpf_write.
Qed.

Lemma wpf_saveDB d e (R : unit → data → Prop) (S : data → Prop) :
  dark d → db d = db d0 →
  (∀ d', dark d' → endpoint (db d') server = e → ring d' = ring d → R tt d' ∧ S d') → S d → wp (saveDB (set_endpoint server e (db d0))) R S d.
Proof.
  intros Hd Hdb H HS; unfold saveDB.
  assert (dark (mkData (set_endpoint server e (db d0)) (modes d) (ring d))) as Hd'.
  { apply dark_db; [done |]; intros s Hs; cbn; by rewrite lookup_insert_ne. }
  edestruct (H _ Hd') as [H1 H2]; [| | by apply wpf_write]; [unfold endpoint; cbn; by rewrite lookup_insert_eq | done].
Qed.
End writing.

(** ** The steps of an operation *)
Section steps.
Context (server : string) (d0 : data).

Lemma wpf_forget d (R : unit → data → Prop) (S : data → Prop) :
  dark server d0 d → (∀ d', dark server d0 d' → db d' = db d → R tt d' ∧ S d') → wp (forgetKeyringTokensBestEffort server) R S d.
Proof.
  intros Hd H; set (Q := λ d', dark server d0 d' ∧ db d' = db d).
  assert (∀ d1, Q d1 → wp (_ ← attempt (forgetRefreshToken server); mret tt) R S d1) as Hlast.
  { intros d1 [H1 Hdb1]; apply wpf_bind, wpf_attempt with (Q := Q); [| intros d2 _ []; by apply wpf_ret, H | by intros d2 []; apply H].
    eapply wpf_ring_delete; [exact H1 | by right | | done].
    intros d2 H2 Hdb2 _; split; [apply wpf_ret, H; [done | congruence] | split; [done | congruence]]. }
  apply wpf_bind, wpf_attempt with (Q := Q); [| intros d1 _ H1; by apply Hlast | by intros d1 []; apply H].
  eapply wpf_ring_delete; [exact Hd | by left | | done]; intros d1 H1 Hdb1 _; split; [by apply Hlast | done].
Qed.

(** The access token goes to the keyring, or to the registry when the keyring does not take it. *)
Lemma wpf_storeAccessToken d token (S : data → Prop) :
  dark server d0 d → (∀ d', dark server d0 d' → S d') →
  wp (storeAccessToken server token) (λ stored d', dark server d0 d' ∧ db d' = db d ∧
    ring d' !! refresh_key server = ring d !! refresh_key server ∧ ((stored : bool) = true → ring d' !! server = Some token)) S d.
Proof.
  intros Hd HS; pose proof (refresh_key_ne server) as Hne; unfold storeAccessToken; case_decide as Ht.
  - apply wpf_bind; eapply wpf_ring_delete; [exact Hd | by left | | by apply HS].
    intros d1 H1 Hdb Hr; split; [| by apply HS]; apply wpf_ret; split_and!; try done; by rewrite Hr, lookup_delete_ne.
  - apply wpf_bind, wpf_attempt with (Q := λ d', dark server d0 d' ∧ db d' = db d ∧ ring d' !! refresh_key server = ring d !! refresh_key server).
    + eapply wpf_ring_set; [exact Hd | by left | | by split_and!].
      intros d1 H1 Hdb Hr; assert (ring d1 !! refresh_key server = ring d !! refresh_key server) as Hf by by rewrite Hr, lookup_insert_ne.
      split; [apply wpf_ret | done]; split_and!; try done; intros _; by rewrite Hr, lookup_insert_eq.
    + intros d1 e (? & ? & ?); apply wpf_ret; by split_and!.
    + intros d1 (? & _); by apply HS.
Qed.

Lemma wpf_store_access d username access (R : string → data → Prop) (S : data → Prop) :
  dark server d0 d → db d = db d0 → (∀ d', dark server d0 d' → S d') →
  (∀ src d', dark server d0 d' → placed d' server src access → ring d' !! refresh_key server = ring d !! refresh_key server → R src d') →
  wp (store_access server username access (db d0)) R S d.
Proof.
  intros Hd Hdb HS HR; apply wpf_bind; eapply wpf_mono; [by apply wpf_storeAccessToken | | done].
  intros stored d1 (H1 & Hdb1 & Hr1 & Hs1); cbn; apply wpf_bind, (wpf_saveDB server d0); [done | congruence | | by apply HS].
  intros d2 H2 He Hr2; split; [| by apply HS]; apply wpf_ret, HR; [done | | congruence].
  destruct stored; [left | right]; split; [done | rewrite Hr2; by apply Hs1 | done | by rewrite He].
Qed.
End steps.

(** ** The operations *)
Definition old_none_or (d : data) (server : string) (new : string * string) (d' : data) : Prop :=
  untouched server d d' ∧
  (credentials d' server = credentials d server ∨ credentials d' server = Some ("", "") ∨ credentials d' server = Some new).

Lemma old_refl d server new : old_none_or d server new d.
Proof. split; [apply untouched_refl | by left]. Qed.

Lemma old_dark d server new d' : dark server d d' → old_none_or d server new d'.
Proof. intros H; split; [apply H | right; left; by eapply dark_credentials]. Qed.

Lemma old_new d server new d' : untouched server d d' → credentials d' server = Some new → old_none_or d server new d'.
Proof. intros; split; [done | by right; right]. Qed.

Create HintDb creds.
#[local] Hint Resolve old_refl old_dark untouched_refl : creds.

(** Reading the registry and disabling the tokens, with which each operation starts. *)
Lemma wpf_start d server new (f : Registry → M unit) (R : unit → data → Prop) :
  (∀ d', dark server d d' → db d' = db d → ring d' = ring d → wp (f (db d)) R (old_none_or d server new) d') →
  wp (r ← readDB; saveCredentialMode server no_credentials;; f r) R (old_none_or d server new) d.
Proof.
  intros H; apply wpf_bind, wpf_read; [| auto with creds].
  apply wpf_bind; eapply (wpf_dark server d); [auto with creds.. |].
  intros d' Hd Hdb Hr; split; [by apply H | auto with creds].
Qed.

(** The pair a successful save leaves: without a refresh token there are no credentials. *)
Definition kept (access refresh : string) : string * string := if decide (refresh = "") then ("", "") else (access, refresh).

Lemma saveTokens_spec d server username access refresh :
  wp (saveTokens server username access refresh)
     (λ _ d', old_none_or d server (access, refresh) d' ∧ credentials d' server = Some (kept access refresh))
     (old_none_or d server (access, refresh)) d.
Proof.
  unfold saveTokens; apply wpf_start; intros d1 H1 Hdb1 Hr1.
  apply wpf_bind; unfold storeRefreshToken; case_decide as He.
  - apply wpf_bind; eapply wpf_ring_delete; [exact H1 | by right | | auto with creds].
    intros d2 H2 _ _; split; [| auto with creds]; apply wpf_ret, wpf_ret; split; [auto with creds |].
    unfold kept; rewrite decide_True by done; by eapply dark_credentials.
  - apply wpf_bind; eapply wpf_ring_set; [exact H1 | by right | | auto with creds].
    intros d2 H2 Hdb2 Hr2; split; [| auto with creds]; apply wpf_ret; cbn.
    apply wpf_bind; eapply (wpf_store_access server d); [done | congruence | auto with creds |].
    intros src d3 H3 Hp3 Hr3.
    apply wpf_mode; [auto with creds |]; intros _ Hv d4.
    assert (credentials d4 server = Some (access, refresh)) as Hc.
    { eapply credentials_placed; [apply lookup_insert_eq | exact Hp3 | right; split; [done |]]. 
      cbn; by rewrite Hr3, Hr2, lookup_insert_eq. }
    assert (old_none_or d server (access, refresh) d4) by (apply old_new; [apply untouched_mode, H3 | done]).
    unfold kept; by rewrite decide_False.
Qed.

(** With the static token enabled, what is left of a refresh token, and of an access token that
    moved to the file, is removed. *)
Definition static (server : string) (d : data) (src access : string) (d' : data) : Prop :=
  modes d' !! server = Some (mkMode src credentialSourceNone) ∧ placed d' server src access ∧ untouched server d d'.

Lemma static_new d server src access d' : static server d src access d' → credentials d' server = Some (access, "").
Proof. intros (Hm & Hp & _); eapply credentials_placed; [done | done | by left]. Qed.

Lemma static_old d server src access d' : static server d src access d' → old_none_or d server (access, "") d'.
Proof. intros H; apply old_new; [apply H | by eapply static_new]. Qed.

Lemma wpf_static_delete d server src access key d' (R : option string → data → Prop) (S : data → Prop) :
  key = refresh_key server ∨ key = server ∧ src = credentialSourceFile → static server d src access d' →
  (∀ e d'', static server d src access d'' → R e d'') → (∀ d'', static server d src access d'' → S d'') →
  wp (attempt (ring_delete key)) R S d'.
Proof.
  intros Hk Hst HR HS; apply wpf_attempt with (Q := static server d src access); [| auto | auto].
  assert (static server d src access (mkData (db d') (modes d') (delete key (ring d')))) as Hd.
  { pose proof (refresh_key_ne server) as Hne; destruct Hst as (Hm & Hp & [Hms Hd Hr]); split_and!; [done | |].
    - destruct Hp as [[-> Hp] | [-> Hp]]; [left | by right].
      split; [done |]; destruct Hk as [-> | [_ [=]]]; cbn; by rewrite lookup_delete_ne.
    - split; cbn; [done | done |]; intros k H1 H2; rewrite lookup_delete_ne by naive_solver; by apply Hr. }
  apply wpf_write; auto.
Qed.

Lemma saveStaticToken_spec d server username access :
  wp (saveStaticToken server username access)
     (λ _ d', old_none_or d server (access, "") d' ∧ credentials d' server = Some (access, ""))
     (old_none_or d server (access, "")) d.
Proof.
  unfold saveStaticToken; destruct (decide (access = "")) as [-> | Hne]; apply wpf_start; intros d1 H1 Hdb1 Hr1.
  - apply wpf_bind, (wpf_saveDB server d); [done | done | | auto with creds].
    intros d2 H2 _ _; split; [| auto with creds]; apply (wpf_forget server d); [done |].
    intros d3 H3 _; split; [split |]; [auto with creds | by eapply dark_credentials | auto with creds].
  - apply wpf_bind; eapply (wpf_store_access server d); [done | done | auto with creds |].
    intros src d2 H2 Hp2 _; apply wpf_bind, wpf_mode; [auto with creds |]; intros _ Hv d3.
    assert (static server d src access d3) as Hst by (split_and!; [apply lookup_insert_eq | done | apply untouched_mode, H2]).
    split; [| by eapply static_old].
    assert (∀ d', static server d src access d' → old_none_or d server (access, "") d' ∧ credentials d' server = Some (access, "")) as Hend.
    { intros d' H'; split; [by eapply static_old | by eapply static_new]. }
    apply wpf_bind, (wpf_static_delete d server src access); [by left | done | | by intros ? []%Hend].
    intros _ d4 H4; case_decide; [| by apply wpf_ret, Hend].
    apply wpf_bind, (wpf_static_delete d server src access); [by right | done | | by intros ? []%Hend].
    intros _ d5 H5; by apply wpf_ret, Hend.
Qed.

Lemma clearCredentials_spec d server clearUsername :
  wp (clearCredentials (db d) server clearUsername) (λ _ d', dark server d d') (old_none_or d server ("", "")) d.
Proof.
  unfold clearCredentials; destruct (Endpoints (db d) !! server) as [e|]; [| apply wpf_fail; auto with creds].
  apply wpf_bind, (wpf_dark server d); [auto with creds.. |]; intros d1 H1 Hdb1 _; split; [| auto with creds].
  apply wpf_bind, (wpf_saveDB server d); [done | done | | auto with creds].
  intros d2 H2 _ _; split; [| auto with creds]; apply (wpf_forget server d); [done |]; intros d3 H3 _; auto with creds.
Qed.

Lemma RemoveEndpoint_spec d server :
  wp (RemoveEndpoint server) (λ _ d', dark server d d' ∧ Endpoints (db d') !! server = None) (old_none_or d server ("", "")) d.
Proof.
  apply wpf_bind, wpf_read; [| auto with creds]; apply wpf_start; intros d1 H1 Hdb1 _.
  set (r := mkRegistry _ _).
  assert (dark server d (mkData r (modes d1) (ring d1))) as H2.
  { apply dark_db; [done |]; intros s Hs; cbn; by rewrite lookup_delete_ne. }
  assert (Endpoints r !! server = None) as Hr by apply lookup_delete_eq.
  apply wpf_bind, wpf_write; [| auto with creds..].
  apply (wpf_forget server d); [done |]; intros d3 H3 Hdb3; split; [split; [done | by rewrite Hdb3] | auto with creds].
Qed.

(** ** A store of tokens as one value *)

(** What replaces the tokens of a server, and by which pair. *)
Inductive operation :=
| OpSaveTokens (username access refresh : string)
| OpSaveStaticToken (username access : string)
| OpClearCredentials (clearUsername : bool)
| OpRemoveEndpoint.

Definition run_operation (op : operation) (server : string) : M unit :=
  match op with
  | OpSaveTokens username access refresh => SaveTokens server username access refresh
  | OpSaveStaticToken username access => SaveStaticToken server username access
  | OpClearCredentials clearUsername => ClearCredentials server clearUsername
  | OpRemoveEndpoint => RemoveEndpoint server
  end.

Definition written (op : operation) : string * string :=
  match op with
  | OpSaveTokens _ access refresh => (access, refresh)
  | OpSaveStaticToken _ access => (access, "")
  | OpClearCredentials _ | OpRemoveEndpoint => ("", "")
  end.

Lemma operation_spec op server d :
  wp (run_operation op server) (λ _ d', old_none_or d server (written op) d' ∧ credentials d' server = Some (written op))
    (old_none_or d server (written op)) d.
Proof.
  destruct op as [u a f | u a | b |]; cbn [run_operation written].
  - unfold SaveTokens; case_decide as Hne; [apply wpf_fail; auto with creds |].
    apply wpf_bind, wpf_read; [| auto with creds].
    eapply wpf_mono; [apply saveTokens_spec | | done]; intros _ d' [? Hc]; split; [done |]; unfold kept in Hc; rewrite decide_False in Hc by tauto; exact Hc.
  - apply wpf_bind, wpf_read; [apply saveStaticToken_spec | auto with creds].
  - apply wpf_bind, wpf_read; [| auto with creds]; apply wpf_bind, wpf_read; [| auto with creds].
    eapply wpf_mono; [apply clearCredentials_spec | | done]; cbn beta; intros _ d' H; split; [auto with creds | by eapply dark_credentials].
  - eapply wpf_mono; [apply RemoveEndpoint_spec | | done]; intros _ d' [H _]; split; [auto with creds | by eapply dark_credentials].
Qed.

(** C33. For every script of faults, failed writes that took effect and crashes included, an
    operation on the tokens of a server leaves it with its old tokens, with none, or with the new
    pair, never with a mixture of two; when it reports success the new pair is what is read
    from then on; and it leaves the tokens of every other server as they were. *)
Theorem credentials_atomic op server d script :
  let '(o, (d', _)) := run_operation op server (d, script) in
  (credentials d' server = credentials d server ∨ credentials d' server = Some ("", "") ∨ credentials d' server = Some (written op)) ∧
  (o = Ret tt → credentials d' server = Some (written op)) ∧
  ∀ other, other ≠ server → has_nul other = false → has_nul server = false → credentials d' other = credentials d other.
Proof.
  pose proof (operation_spec op server d script) as H; destruct (run_operation op server (d, script)) as [o [d' sc]].
  assert (old_none_or d server (written op) d' ∧ (o = Ret tt → credentials d' server = Some (written op))) as [[Hu Hc] Hs].
  { destruct o as [[] | |]; [by destruct H; split | by split; [exact H |] | by split; [exact H |]]. }
  split_and!; [done | done |]; intros other H1 H2 H3; by eapply untouched_credentials.
Qed.

(** ** Refreshing *)

Lemma credentials_inv d server a f : credentials d server = Some (a, f) → access_of d server = Some a ∧ refresh_of d server = Some f.
Proof. unfold credentials; destruct (access_of d server); cbn; [| done]; destruct (refresh_of d server); cbn; [| done]; by intros [= -> ->]. Qed.

Lemma refresh_in_ring d server f : refresh_of d server = Some f → f ≠ "" → ring d !! refresh_key server = Some f.
Proof.
  unfold refresh_of; intros H Hne.
  assert (Some (default "" (ring d !! refresh_key server)) = Some f) as [= <-].
  { destruct (modes d !! server) as [m|]; [| done]; destruct (valid_mode m); cbn in H; [| done]; case_decide; [| done].
    by injection H as <-. }
  by destruct (ring d !! refresh_key server).
Qed.

Section refreshing.
Context (sha256 : string → string).

(** The pair the store holds has revision [rev]. *)
Definition current (d : data) (server rev : string) : Prop :=
  ∃ access refresh, credentials d server = Some (access, refresh) ∧ revision_of sha256 server access refresh = rev.

Lemma wpf_others others (R : unit → data → Prop) (S : data → Prop) d : R tt (others d) → wp (others_run others) R S d.
Proof. by intros H sc. Qed.

(** Writing the refresh token back changes nothing. *)
Lemma snapshotForRefresh_spec server d :
  wp (snapshotCredentialsForRefresh sha256 server)
    (λ snap d', d' = d ∧ s_Server snap = server ∧ credentials d server = Some (s_Access snap, s_Refresh snap) ∧
      revision snap = revision_of sha256 server (s_Access snap) (s_Refresh snap))
    (λ d', d' = d) d.
Proof.
  unfold snapshotCredentialsForRefresh; apply wpf_bind, wpf_read; [| done]; apply wpf_bind, wpf_read; [| done].
  apply wpf_bind, credentialSnapshot_read; [done | | done]; intros u a f Hc _; cbn.
  case_decide as Hf; [by apply wpf_ret |].
  apply wpf_bind; unfold storeRefreshToken; rewrite decide_False by done.
  assert (mkData (db d) (modes d) (<[refresh_key server := f]> (ring d)) = d) as Hd.
  { apply credentials_inv in Hc as [_ Hr]; rewrite insert_id by (by apply refresh_in_ring); by destruct d. }
  apply wpf_bind, wpf_write; rewrite ?Hd; [| done..]; by apply wpf_ret, wpf_ret.
Qed.

Lemma SaveTokensIfCurrent_spec expected username access refresh d :
  let server := s_Server expected in
  wp (SaveTokensIfCurrent sha256 expected username access refresh)
    (λ '(cur, saved) d', if saved : bool
       then current d server (revision expected) ∧ old_none_or d server (access, refresh) d' ∧ credentials d' server = Some (kept access refresh)
       else d' = d ∧ credentials d server = Some (s_Access cur, s_Refresh cur))
    (λ d', d' = d ∨ current d server (revision expected) ∧ old_none_or d server (access, refresh) d') d.
Proof.
  intros server; unfold SaveTokensIfCurrent; apply wpf_bind, wpf_read; [| by left]; apply wpf_bind, wpf_read; [| by left].
  apply wpf_bind, credentialSnapshot_read; [done | | by left]; intros u a f Hc _; cbn [revision].
  destruct (decide _) as [Hrev | Hrev]; [by apply wpf_ret |].
  assert (current d server (revision expected)) as Hcur by (exists a, f; split; [done | by destruct (decide (revision_of sha256 server a f = revision expected))]).
  apply wpf_bind; eapply wpf_mono; [apply saveTokens_spec | | by right]; cbn beta; intros _ d1 [Hold Hnew].
  apply wpf_bind, wpf_read; [| by right]; apply wpf_bind, credentialSnapshot_read; [done | | by right].
  intros u' a' f' _ _; by apply wpf_ret.
Qed.

(** C34. A refresh, with other processes free to change the store while the server is asked, for
    every answer and every script of faults: unless the pair in the store still has the revision
    of the one whose refresh token was spent, the store is left exactly as the others made it;
    if it has, the server's tokens are that pair, none, or the answer's; and when the refresh
    reports success the access token it continues with is the one that is stored, except that
    after an answer without a refresh token, which the code does not refuse, there are no
    credentials in the store. *)
Theorem refresh_current others answer (s : TokenSource) (staleAccess : string) d script :
  let server := ts_server s in
  let '(o, (d', _)) := RefreshIfCurrent sha256 others answer s staleAccess (d, script) in
  (d' = d ∨ d' = others d ∨
   ∃ token pair, credentials d server = Some (staleAccess, token) ∧ answer token = Ok pair ∧
     current (others d) server (revision_of sha256 server staleAccess token) ∧
     old_none_or (others d) server (AccessToken_ pair, RefreshToken pair) d') ∧
  ∀ s', o = Ret s' → s' = s ∧ ts_access s ≠ staleAccess ∨ (∃ token, credentials d' server = Some (ts_access s', token)) ∨
    ∃ token pair, answer token = Ok pair ∧ RefreshToken pair = "" ∧ ts_access s' = AccessToken_ pair ∧ credentials d' server = Some ("", "").
Proof.
  intros server.
  set (left_by := λ d' : data, d' = d ∨ d' = others d ∨ ∃ token pair, credentials d server = Some (staleAccess, token) ∧ answer token = Ok pair ∧
     current (others d) server (revision_of sha256 server staleAccess token) ∧ old_none_or (others d) server (AccessToken_ pair, RefreshToken pair) d').
  set (held := λ (s' : TokenSource) (d' : data), s' = s ∧ ts_access s ≠ staleAccess ∨ (∃ token, credentials d' server = Some (ts_access s', token)) ∨
    ∃ token pair, answer token = Ok pair ∧ RefreshToken pair = "" ∧ ts_access s' = AccessToken_ pair ∧ credentials d' server = Some ("", "")).
  assert (wp (RefreshIfCurrent sha256 others answer s staleAccess) (λ s' d', left_by d' ∧ held s' d') left_by d) as Hwp.
  2: { specialize (Hwp script); destruct (RefreshIfCurrent _ _ _ _ _ _) as [[s1 | e |] [d' sc]];
       [destruct Hwp as [Hl Hh]; split; [exact Hl | by intros s' [= <-]] | by split | by split]. }
  unfold RefreshIfCurrent; case_decide as Hs; [apply wpf_ret; split; left; done |].
  apply wpf_bind, wpf_read; [| by left]; apply wpf_bind; eapply wpf_mono; [apply snapshotForRefresh_spec | | by left].
  cbn beta; intros snap d1 (-> & Hsrv & Hc & Hrev).
  case_decide as Ha; [apply wpf_ret; split; [by left | right; left; cbn; by eauto] |].
  destruct (decide (s_Refresh snap = "")); [apply wpf_fail; by left |].
  apply wpf_bind, wpf_others.
  destruct (answer (s_Refresh snap)) as [pair | e] eqn:Hp; [| apply wpf_fail; right; by left].
  assert (∀ d', current (others d) (s_Server snap) (revision snap) → old_none_or (others d) (s_Server snap) (AccessToken_ pair, RefreshToken pair) d' → left_by d') as Hl.
  { rewrite Hsrv, Hrev, Ha; intros d' H1 H2; right; right; exists (s_Refresh snap), pair; by rewrite <- Ha at 1. }
  apply wpf_bind; eapply wpf_mono; [apply SaveTokensIfCurrent_spec | |]; cbn beta.
  - intros [cur []] d2; [intros (H1 & H2 & H3) | intros [-> H]]; apply wpf_ret; (split; [eauto |]); right.
    + rewrite Hsrv in H3; unfold kept in H3; destruct (decide (RefreshToken pair = "")).
      * right; by exists (s_Refresh snap), pair.
      * left; by exists (RefreshToken pair).
    + by left.
    + left; exists (s_Refresh cur); by rewrite Hsrv in H.
  - intros d2 [-> | [H1 H2]]; [right; by left | by apply Hl].
Qed.
End refreshing.

(** ** Runs on a concrete store *)
Module CredentialsExamples.
Definition repo : string := "https://repo.example".
Definition other : string := "https://other.example".

Definition store : data :=
  mkData (mkRegistry repo {[ repo := mkEndpoint "alice" ""; other := mkEndpoint "bob" "static" ]})
    {[ repo := mkMode credentialSourceKeyring credentialSourceKeyring ]}
    {[ repo := "access-1"; refresh_key repo := "refresh-1" ]}.

Definition answer (token : string) : result string TokenPair :=
  if decide (token = "refresh-1") then Ok (mkPair "alice" "access-2" "refresh-2") else Err "invalid refresh token".

Definition source : TokenSource := mkSource repo "alice" "access-1".

Lemma credentials_atomic_witness :
  let '(o, (d', _)) := run_operation (OpSaveTokens "alice" "access-2" "refresh-2") repo (store, []) in
  o = Ret tt ∧ credentials d' repo = Some ("access-2", "refresh-2") ∧ credentials d' other = Some ("static", "").
Proof.
  pose proof (credentials_atomic (OpSaveTokens "alice" "access-2" "refresh-2") repo store []) as H.
  assert ((run_operation (OpSaveTokens "alice" "access-2" "refresh-2") repo (store, [])).1 = Ret tt) as Ho by (vm_compute; reflexivity).
  assert (credentials store other = Some ("static", "")) as Hc by (vm_compute; reflexivity).
  destruct (run_operation _ _ _) as [o [d' sc]]; cbn in Ho; destruct H as (_ & Hs & Hother).
  split; [exact Ho |]; split; [exact (Hs Ho) |].
  rewrite <- Hc; apply Hother; [done | reflexivity | reflexivity].
Defined.

Lemma refresh_current_witness :
  let '(o, (d', _)) := RefreshIfCurrent id id answer source "access-1" (store, []) in
  o = Ret (mkSource repo "alice" "access-2") ∧ ∃ token, credentials d' repo = Some ("access-2", token).
Proof.
  pose proof (refresh_current id id answer source "access-1" store []) as H.
  assert ((RefreshIfCurrent id id answer source "access-1" (store, [])).1 = Ret (mkSource repo "alice" "access-2")) as Ho by (vm_compute; reflexivity).
  cbn zeta in H; destruct (RefreshIfCurrent _ _ _ _ _ _) as [o [d' sc]]; cbn in Ho; destruct H as [_ Hs].
  split; [exact Ho |]; destruct (Hs _ Ho) as [[_ Hne] | [Hc | (token & pair & Ha & Hr & _)]]; [by destruct (Hne eq_refl) | exact Hc |].
  exfalso; unfold answer in Ha; revert Ha; case_decide; [by intros [= <-] | done].
Defined.

(** A login that another process makes while the server is asked is kept. *)
Example login_kept :
  let others d := (SaveTokens repo "alice" "access-9" "refresh-9" (d, [])).2.1 in
  let '(o, (d', _)) := RefreshIfCurrent id others answer source "access-1" (store, []) in
  o = Ret (mkSource repo "alice" "access-9") ∧ credentials d' repo = Some ("access-9", "refresh-9").
Proof. by split; vm_compute. Qed.

(** A keyring that stores the refresh token but reports an error: the tokens are gone, not mixed. *)
Example keyring_lost :
  let '(o, (d', _)) := SaveTokens repo "alice" "access-2" "refresh-2" (store, [Fine; Fine; Fine; Fine; FailAfter]) in
  o = Fail "set in OS keyring" ∧ credentials d' repo = Some ("", "").
Proof. by split; vm_compute. Qed.

(** An answer without a refresh token: the refresh reports success and goes on with its access
    token, but what is stored is that there are no credentials. *)
Example refresh_without_token :
  let answer _ := Ok (mkPair "alice" "access-2" "") in
  let '(o, (d', _)) := RefreshIfCurrent id id answer source "access-1" (store, []) in
  o = Ret (mkSource repo "alice" "access-2") ∧ credentials d' repo = Some ("", "").
Proof. by split; vm_compute. Qed.
End CredentialsExamples.
