(* ===== verification/HttpClient.v ===== *)
(** * The HTTP client of the services (internal/http/client, miko/client, ayato/client)

    URLs and their escaping, redirects as [net/http] follows them, requests with their
    credentials, retries, and the refresh of a session.  A server answers anything; parsing a
    URL, JSON, IP addresses and Unicode folding are parameters. *)

From S2P Require Import Prelude GoStrings.

(** ** URLs ([net/url]) *)
Record URL := mkURL { Scheme : string; User : option string; Hostname : string; Port : string; Path : string; RawPath : string; RawQuery : string; Fragment : string }.

Definition hex_digit (n : N) : ascii := ascii_of_N (if (n <? 10)%N then 48 + n else 55 + n)%N.

Definition unhex (c : ascii) : option N :=
  let n := byte c in
  (if (48 <=? n) && (n <=? 57) then Some (n - 48)
   else if (65 <=? n) && (n <=? 70) then Some (n - 55)
   else if (97 <=? n) && (n <=? 102) then Some (n - 87) else None)%N.

Definition is_alnum (c : ascii) : bool :=
  let n := byte c in (((48 <=? n) && (n <=? 57)) || ((65 <=? n) && (n <=? 90)) || ((97 <=? n) && (n <=? 122)))%N.

(** Whether a byte of a path, or of one of its segments, is escaped. *)
Definition should_escape (segment : bool) (c : ascii) : bool :=
  if is_alnum c || occurs c "-_.~" then false
  else if occurs c "$&+,/:;=?@" then (if segment then occurs c "/;,?" else occurs c "?")
  else true.

Fixpoint escape (segment : bool) (s : string) : string :=
  match s with
  | "" => ""
  | String c s =>
      if should_escape segment c then String "%" (String (hex_digit (byte c / 16)) (String (hex_digit (byte c mod 16)) (escape segment s)))
      else String c (escape segment s)
  end.

Fixpoint unescape (s : string) : option string :=
  match s with
  | "" => Some ""
  | String "%" (String a (String b s)) =>
      match unhex a, unhex b with
      | Some x, Some y => String (ascii_of_N (x * 16 + y)) <$> unescape s
      | _, _ => None
      end
  | String "%" _ => None
  | String c s => String c <$> unescape s
  end.

Definition PathEscape : string → string := escape true.
Definition PathUnescape : string → option string := unescape.

Definition valid_encoded : string → bool := all_bytes (λ c, occurs c "!$&'()*+,;=:@[]%" || negb (should_escape false c)).

Definition EscapedPath (u : URL) : string :=
  if bool_decide (RawPath u ≠ "") && valid_encoded (RawPath u) && bool_decide (unescape (RawPath u) = Some (Path u)) then RawPath u
  else if decide (Path u = "*") then "*" else escape false (Path u).

(** [EndpointURL]. *)
Definition EndpointURL (base : URL) (segments : list string) : URL :=
  let rawPath := trim_right_byte "/" (EscapedPath base) +:+ foldr (λ s rest, "/" +:+ PathEscape s +:+ rest) "" segments in
  mkURL (Scheme base) (User base) (Hostname base) (Port base) (default rawPath (PathUnescape rawPath)) rawPath (RawQuery base) (Fragment base).

Inductive http_error :=
| ErrBaseURL (why : string)
| ErrInsecure
| ErrNoKey (name : string)
| ErrOtherOrigin
| ErrCredential (err : string)
| ErrCreate (op : string) (err : http_error)
| ErrSend (op err : string)
| ErrContext (err : string)
| ErrAccessTokenExpired (op : string)
| ResponseError (status : Z) (message reason : string)
| ErrDecode (op : string)
| ErrTooLarge (op : string) (maxBytes : Z)
| ErrRead (op err : string)
| ErrRefresh (err : string)
| ErrUnreachable.

Section urls.
Context (EqualFold : string → string → bool) (Parse : string → result string URL) (is_loopback : string → bool).

(** [ParseBaseURL]. *)
Definition ParseBaseURL (raw : string) : result http_error URL :=
  match Parse (trim_space raw) with
  | Err e => Err (ErrBaseURL e)
  | Ok u =>
      if bool_decide (Scheme u ≠ "http" ∧ Scheme u ≠ "https") || bool_decide (Hostname u = "" ∧ Port u = "") then Err (ErrBaseURL "not absolute")
      else if bool_decide (User u ≠ None) || bool_decide (RawQuery u ≠ "") || bool_decide (Fragment u ≠ "") then Err (ErrBaseURL "userinfo, query, or fragment")
      else Ok (mkURL (Scheme u) (User u) (Hostname u) (Port u) (trim_right_byte "/" (Path u)) (trim_right_byte "/" (RawPath u)) (RawQuery u) (Fragment u))
  end.

Definition secureUserEndpoint (u : URL) : bool := EqualFold (Scheme u) "https" || EqualFold (Hostname u) "localhost" || is_loopback (Hostname u).

Definition effectivePort (u : URL) : string :=
  if decide (Port u ≠ "") then Port u else if EqualFold (Scheme u) "https" then "443" else "80".

Definition sameOrigin (a b : URL) : bool :=
  EqualFold (Scheme a) (Scheme b) && EqualFold (Hostname a) (Hostname b) && bool_decide (effectivePort a = effectivePort b).
End urls.

(** ** Requests and answers *)
Notation "'Header'" := (gmap string string) (only parsing).
Record Request := mkRequest { Method : string; URL_ : URL; Headers : Header; Body : option string; replayable : bool }.
Record Response := mkResponse { StatusCode : Z; RespHeaders : Header; Location : option (result string URL); RespBody : result string string; ContentLength : Z }.

Definition get_header (h : Header) (name : string) : string := default "" (h !! name).
Definition set_header (name value : string) (r : Request) : Request := mkRequest (Method r) (URL_ r) (<[name := value]> (Headers r)) (Body r) (replayable r).

Definition secret_headers : list string := ["Authorization"; "Cookie"; "X-API-Key"; "X-Log-Token"].
Definition hasCredential (h : Header) : bool := existsb (λ name, bool_decide (get_header h name ≠ "")) secret_headers.
Definition stripCredentials (h : Header) : Header := foldl (λ h name, delete name h) h secret_headers.

Inductive RetryPolicy := NoRetry | RetryReplaySafe.
Inductive credential := noCredential | bearerCredential (source : bool) | apiKeyCredential (key : string).
Record Transport := mkTransport { base : URL; credential_of : credential; readAttempts : nat }.

(** What [http.Client] makes of a redirect: [redirectBehavior]; a body that was dropped stays so. *)
Definition drops_body (status : Z) : bool := bool_decide (status = 301 ∨ status = 302 ∨ status = 303)%Z.
Definition shouldRedirect (first : Request) (status : Z) : bool :=
  drops_body status
  || bool_decide (status = 307 ∨ status = 308)%Z && negb (bool_decide (Body first ≠ None) && negb (replayable first)).
Definition redirect_request (first prev : Request) (status : Z) (to : URL) : Request :=
  let get := if bool_decide (Method prev = "GET" ∨ Method prev = "HEAD") then Method prev else "GET" in
  if drops_body status then mkRequest get to (Headers first) None true else mkRequest (Method prev) to (Headers first) (Body prev) true.

(** *** Construction *)
Section construction.
Context (EqualFold : string → string → bool) (Parse : string → result string URL) (is_loopback : string → bool).

Definition newTransport (rawBase : string) (auth : credential) (attempts : Z) : result http_error Transport :=
  base ← ParseBaseURL Parse rawBase;
  mret (mkTransport base auth (Z.to_nat (Z.max 1 attempts))).

Definition NewPublicTransport (rawBase : string) : Z → result http_error Transport := newTransport rawBase noCredential.

Definition NewBearerRequester (rawBase : string) (source : bool) (attempts : Z) : result http_error Transport :=
  t ← newTransport rawBase (bearerCredential source) attempts;
  if secureUserEndpoint EqualFold is_loopback (base t) then mret t else Err ErrInsecure.

Definition NewAPIKeyRequester (rawBase apiKey name : string) (attempts : Z) : result http_error Transport :=
  if decide (apiKey = "") then Err (ErrNoKey name) else newTransport rawBase (apiKeyCredential apiKey) attempts.
End construction.

(** ** The network and the session of a client *)
Section client.
Context {Session : Type}.
Record world := mkWorld { sent : list Request; waits : list Z; session : Session }.
Definition M (A : Type) : Type := world → A * world.
#[local] Instance M_ret : MRet M := λ A a w, (a, w).
#[local] Instance M_bind : MBind M := λ A B f m w, let '(a, w) := m w in f a w.

Context (EqualFold : string → string → bool).
(** The answer to the last of the requests sent so far; the error of the context then; and
    whether the wait after it is cut short. *)
Context (net : list Request → result string Response) (ctx_err wait_err : list Request → option string).
(** The token of the session, its refresh, and what JSON decodes an error body to. *)
Context (Token : Session → result string string) (RefreshIfCurrent : string → Session → result string unit * Session).
Context (decode_error : string → string * string * string) (StatusText : Z → string).

Definition send (r : Request) : M (result string Response) := λ w,
  let w := mkWorld (sent w ++ [r]) (waits w) (session w) in (net (sent w), w).

(** [secureRedirectClient]: the check that [http.Client] makes before it follows a redirect. *)
Inductive redirect_check := Follow (r : Request) | UseLastResponse | Refuse (err : string).

Definition CheckRedirect (r first : Request) (via : nat) : redirect_check :=
  let r := mkRequest (Method r) (URL_ r) (stripCredentials (Headers r)) (Body r) (replayable r) in
  if hasCredential (Headers first) then UseLastResponse
  else if 10 <=? via then Refuse "stopped after 10 redirects" else Follow r.

(** [http.Client.Do], with [via] requests made before this one; its check refuses the tenth. *)
Fixpoint do_from (fuel via : nat) (first r : Request) : M (result string Response) :=
  resp ← send r;
  match resp with
  | Err e => mret (Err e)
  | Ok resp =>
      match (if shouldRedirect first (StatusCode resp) then Location resp else None) with
      | None => mret (Ok resp)
      | Some (Err e) => mret (Err e)
      | Some (Ok to) =>
          match CheckRedirect (redirect_request first r (StatusCode resp) to) first (S via), fuel with
          | UseLastResponse, _ => mret (Ok resp)
          | Refuse e, _ => mret (Err e)
          | Follow r', S fuel => do_from fuel (S via) first r'
          | Follow _, 0 => mret (Err "out of fuel")
          end
      end
  end.

Definition Do (r : Request) : M (result string Response) := do_from 9 0 r r.

Definition apply_credential (c : credential) (s : Session) (r : Request) : result http_error Request :=
  match c with
  | noCredential | bearerCredential false => Ok r
  | bearerCredential true =>
      match Token s with
      | Err e => Err (ErrCredential e)
      | Ok token => Ok (if decide (token = "") then r else set_header "Authorization" ("Bearer " +:+ token) r)
      end
  | apiKeyCredential key => Ok (if decide (key = "") then r else set_header "X-API-Key" key r)
  end.

Definition NewRequest (t : Transport) (method : string) (target : URL) (body : option string) (canReplay authenticated : bool) : M (result http_error Request) := λ w,
  let r := mkRequest method target ∅ body canReplay in
  ((if authenticated then if negb (sameOrigin EqualFold target (base t)) then Err ErrOtherOrigin else apply_credential (credential_of t) (session w) r else Ok r), w).

Definition retryableStatus (status : Z) : bool := bool_decide (status = 429 ∨ status = 0)%Z || (500 <=? status)%Z && bool_decide (status ≠ 501)%Z.

Definition retryDelay (attempt : nat) : M (option string) := λ w,
  (wait_err (sent w), mkWorld (sent w) (waits w ++ [100 * 2 ^ Z.of_nat (Nat.min attempt 3)]%Z) (session w)).

Definition ctx_Err : M (option string) := λ w, (ctx_err (sent w), w).

Definition read_body (limit : Z) (resp : Response) : string :=
  match RespBody resp with Ok b => str_take (Z.to_nat limit) b | Err _ => "" end.

Definition ReadResponseError (resp : Response) (op : string) : http_error :=
  if bool_decide (StatusCode resp = 401)%Z && bool_decide (get_header (RespHeaders resp) "X-Access-Token-Expired" = "1") then ErrAccessTokenExpired op
  else
    let body := read_body 4096 resp in
    let '(error, message, reason) := decode_error body in
    let message := if decide (trim_space error ≠ "") then trim_space error
      else if decide (trim_space message ≠ "") then trim_space message
      else if decide (trim_space body ≠ "") then trim_space body else StatusText (StatusCode resp) in
    ResponseError (StatusCode resp) message (trim_space reason).

(** The attempts of [DoJSON] and [ReadBytes], of which [remaining] are left. *)
Section attempts.
Context {A : Type} (want : Z) (op : string) (prepare : M (result http_error Request)) (send_error : string → http_error) (receive : Response → result http_error A).

Fixpoint attempt_from (remaining attempt : nat) : M (result http_error A) :=
  match remaining with
  | 0 => mret (Err ErrUnreachable)
  | S remaining =>
      let again := interrupted ← retryDelay attempt;
        match interrupted with Some e => mret (Err (ErrContext e)) | None => attempt_from remaining (S attempt) end in
      request ← prepare;
      match request with
      | Err e => mret (Err (ErrCreate op e))
      | Ok request =>
          resp ← Do request;
          match resp with
          | Err e =>
              cancelled ← ctx_Err;
              if bool_decide (remaining ≠ 0) && bool_decide (cancelled = None) then again else mret (Err (send_error e))
          | Ok resp =>
              if decide (StatusCode resp = want) then mret (receive resp)
              else if bool_decide (remaining ≠ 0) && retryableStatus (StatusCode resp) then again
              else mret (Err (ReadResponseError resp op))
          end
      end
  end.
End attempts.

Definition DoJSON {A} (t : Transport) (policy : RetryPolicy) (method : string) (target : URL) (authenticated : bool) (body : option string)
    (decode : string → option A) (want : Z) (op : string) : M (result http_error A) :=
  let prepare := request ← NewRequest t method target body true authenticated;
    mret (if decide (body = None) then request else set_header "Content-Type" "application/json" <$> request) in
  let receive resp := match RespBody resp with
    | Ok b => match decode b with Some a => Ok a | None => Err (ErrDecode op) end
    | Err _ => Err (ErrDecode op) end in
  attempt_from want op prepare (ErrSend op) receive (match policy with NoRetry => 1 | RetryReplaySafe => readAttempts t end) 0.

Definition ReadBytes (t : Transport) (target : URL) (maxBytes : Z) (op accept : string) : M (result http_error string) :=
  let prepare := request ← NewRequest t "GET" target None true false;
    mret (if decide (accept = "") then request else set_header "Accept" accept <$> request) in
  let receive resp :=
    if (maxBytes <? ContentLength resp)%Z then Err (ErrTooLarge op maxBytes)
    else match RespBody resp with
         | Err e => Err (ErrRead op e)
         | Ok b => if (maxBytes <? len b)%Z then Err (ErrTooLarge op maxBytes) else Ok b
         end in
  attempt_from 200 op prepare (ErrSend op) receive (readAttempts t) 0.

Definition Get (t : Transport) (target : URL) (authenticated : bool) : M (result http_error Response) :=
  request ← NewRequest t "GET" target None true authenticated;
  match request with
  | Err e => mret (Err e)
  | Ok r => resp ← Do r; mret (match resp with Ok r => Ok r | Err e => Err (ErrSend "" e) end)
  end.

(** [requester.go]: a session that can be refreshed is refreshed once, when its token expired. *)
Definition expired {A} (r : result http_error A) : bool := match r with Err (ErrAccessTokenExpired _) => true | _ => false end.

Definition Execute {A} (canRefresh : bool) (operation : M (result http_error A)) : M (result http_error A) := λ w,
  match (if canRefresh then Token (session w) else Ok "") with
  | Err e => (Err (ErrCredential e), w)
  | Ok stale =>
      let '(r, w) := operation w in
      if negb (expired r) || negb canRefresh then (r, w)
      else
        let '(refreshed, s) := RefreshIfCurrent stale (session w) in
        let w := mkWorld (sent w) (waits w) s in
        match refreshed with
        | Err e => (Err (ErrRefresh e), w)
        | Ok _ => operation w
        end
  end.
End client.
