(* ===== verification/HttpClientSpec.v ===== *)
(** * What the HTTP client promises

    Escaped segments stay segments; a credential is sent to the origin it belongs to and nowhere
    else, whatever redirects a server answers; what is tried again, and how often. *)

From S2P Require Import Prelude GoStrings HttpClient.

(** ** Escaping *)
Lemma unhex_byte c :
  unhex (hex_digit (byte c / 16)) = Some (byte c / 16)%N ∧ unhex (hex_digit (byte c mod 16)) = Some (byte c mod 16)%N ∧
  ascii_of_N (byte c / 16 * 16 + byte c mod 16) = c.
Proof. by destruct c as [[] [] [] [] [] [] [] []]; vm_compute. Qed.

Lemma unescape_other c s : should_escape true c = false ∨ should_escape false c = false → unescape (String c s) = String c <$> unescape s.
Proof. destruct c as [[] [] [] [] [] [] [] []]; try done; by intros []. Qed.

Lemma escape_byte seg c s : unescape (escape seg (String c "") +:+ s) = String c <$> unescape s.
Proof.
  cbn [escape]; destruct (should_escape seg c) eqn:He; [| destruct seg; cbn [String.append]; by rewrite unescape_other by auto].
  destruct (unhex_byte c) as (H1 & H2 & H3).
  change (unescape (String "%" (String (hex_digit (byte c / 16)) (String (hex_digit (byte c mod 16)) s))) = String c <$> unescape s).
  cbn [unescape]; by rewrite H1, H2, H3.
Qed.

Lemma escape_app seg s t : escape seg (s +:+ t) = escape seg s +:+ escape seg t.
Proof. induction s as [|c s IH]; cbn; [done |]; rewrite IH; by destruct (should_escape seg c). Qed.

Lemma unescape_app_escape seg s t : unescape (escape seg s +:+ t) = (String.append s) <$> unescape t.
Proof.
  induction s as [|c s IH]; [cbn; by destruct (unescape t) |].
  change (String c s) with (String c "" +:+ s) at 1; rewrite escape_app, <- str_app_assoc, escape_byte, IH; by destruct (unescape t).
Qed.

Lemma unescape_escape seg s : unescape (escape seg s) = Some s.
Proof. pose proof (unescape_app_escape seg s "") as H; rewrite str_app_nil_r in H; rewrite H; cbn; by rewrite str_app_nil_r. Qed.

Lemma escape_slash s : occurs "/" (PathEscape s) = false.
Proof.
  induction s as [|c s IH]; [done |]; cbn; unfold PathEscape in IH.
  destruct c as [[] [] [] [] [] [] [] []]; cbn; exact IH.
Qed.

(** The segments of a path below the base, as a server decodes them. *)
Definition path_segments (u : URL) (base : URL) : option (list string) :=
  rest ← strip_prefix (trim_right_byte "/" (EscapedPath base) +:+ "/") (RawPath u);
  mapM unescape (split_char "/" rest).

Lemma endpoint_segments b segments : segments ≠ [] → path_segments (EndpointURL b segments) b = Some segments.
Proof.
  intros Hne; unfold path_segments, EndpointURL; cbn [RawPath].
  assert (foldr (λ s rest, "/" +:+ PathEscape s +:+ rest) "" segments = "/" +:+ join "/" (map PathEscape segments)) as ->.
  { clear b; induction segments as [|s l IH]; [done |]; cbn [foldr map]; destruct l as [|s' l]; [cbn; by rewrite str_app_nil_r |].
    rewrite IH by done; done. }
  rewrite str_app_assoc; cbn.
  replace (strip_prefix _ _) with (Some (join "/" (map PathEscape segments))) by (symmetry; by apply strip_prefix_Some).
  cbn; rewrite split_join.
  - change (map PathEscape segments) with (PathEscape <$> segments); apply mapM_fmap_Some; intros s; apply unescape_escape.
  - by destruct segments.
  - apply Forall_fmap, Forall_true; intros s; apply escape_slash.
Qed.

(** ** Where credentials go *)
Lemma strip_get name h : name ∈ secret_headers → stripCredentials h !! name = None.
Proof.
  unfold stripCredentials, secret_headers; cbn; rewrite !elem_of_cons, elem_of_nil; intros [-> | [-> | [-> | [-> | []]]]].
  all: repeat first [by rewrite lookup_delete_eq | rewrite lookup_delete_ne by done].
Qed.

Lemma strip_no_credential h : hasCredential (stripCredentials h) = false.
Proof.
  unfold hasCredential; apply not_true_iff_false; intros Hx; apply existsb_exists in Hx as (name & Hin & Hne).
  apply bool_decide_eq_true in Hne; apply Hne; unfold get_header; by rewrite strip_get by by apply list_elem_of_In.
Qed.

Lemma hasCredential_set name value r : name ∉ secret_headers → hasCredential (Headers (set_header name value r)) = hasCredential (Headers r).
Proof.
  intros Hn; unfold hasCredential, get_header; cbn -[secret_headers]; unfold secret_headers in *; cbn.
  by rewrite !lookup_insert_ne by set_solver.
Qed.

Lemma content_type_free : "Content-Type" ∉ secret_headers.
Proof. set_solver. Qed.

Lemma accept_free : "Accept" ∉ secret_headers.
Proof. set_solver. Qed.

Lemma retryableStatus_true status : retryableStatus status = true → (status = 429 ∨ status = 0 ∨ 500 ≤ status ∧ status ≠ 501)%Z.
Proof.
  unfold retryableStatus; intros [[H | H]%bool_decide_eq_true | [H1%Z.leb_le H2%bool_decide_eq_true]%andb_true_iff]%orb_true_iff; auto.
Qed.

Section spec.
Context {Session : Type} (EqualFold : string → string → bool).
Context (net : list Request → result string Response) (ctx_err wait_err : list Request → option string).
Context (Token : Session → result string string) (RefreshIfCurrent : string → Session → result string unit * Session).
Context (decode_error : string → string * string * string) (StatusText : Z → string).
#[local] Existing Instance M_ret.
#[local] Existing Instance M_bind.

Notation "'Do'" := (Do (Session := Session) net).
Notation "'attempts'" := (attempt_from net ctx_err wait_err decode_error StatusText).
Notation "'DoJSON'" := (DoJSON EqualFold net ctx_err wait_err Token decode_error StatusText).
Notation "'ReadBytes'" := (ReadBytes EqualFold net ctx_err wait_err Token decode_error StatusText).
Notation "'Get'" := (Get EqualFold net Token).
Notation "'Execute'" := (Execute Token RefreshIfCurrent).

(** What a program sends satisfies [P]. *)
Definition sends (P : Request → Prop) {A} (m : M (Session := Session) A) : Prop :=
  ∀ w, ∃ l, sent (m w).2 = sent w ++ l ∧ Forall P l.

Lemma sends_silent P {A} (m : M (Session := Session) A) : (∀ w, sent (m w).2 = sent w) → sends P m.
Proof. intros H w; exists []; by rewrite H, app_nil_r. Qed.

Lemma sends_bind P {A B} (m : M (Session := Session) A) (f : A → M (Session := Session) B) :
  sends P m → (∀ w, sends P (f (m w).1)) → sends P (m ≫= f).
Proof.
  intros Hm Hf w; destruct (Hm w) as (l1 & H1 & F1); unfold mbind, M_bind; specialize (Hf w); destruct (m w) as [a w1]; cbn in *.
  destruct (Hf w1) as (l2 & H2 & F2); exists (l1 ++ l2); rewrite H2, H1, app_assoc; split; [done | by apply Forall_app].
Qed.

Definition home (t : Transport) (r : Request) : Prop := hasCredential (Headers r) = true → sameOrigin EqualFold (URL_ r) (base t) = true.

(** A request with a credential is not redirected, one without gets none. *)
Lemma sends_do P fuel via first r :
  P r → (∀ r', hasCredential (Headers r') = false → P r') → sends P (do_from (Session := Session) net fuel via first r).
Proof.
  intros Hr Hfree; revert via r Hr; induction fuel as [|fuel IH]; intros via r Hr.
  all: apply sends_bind; [intros w; exists [r]; by split; [| constructor] |]; intros w.
  all: destruct (send net r w).1 as [resp | e]; [| by apply sends_silent].
  all: destruct (if shouldRedirect _ _ then _ else _) as [[to | e] |]; [| by apply sends_silent..].
  all: unfold CheckRedirect; destruct (hasCredential (Headers first)); [by apply sends_silent |].
  all: destruct (10 <=? S via); [by apply sends_silent |]; cbn -[do_from].
  1: by apply sends_silent.
  apply IH, Hfree, strip_no_credential.
Qed.

Lemma home_free t r : hasCredential (Headers r) = false → home t r.
Proof. by intros H ?; congruence. Qed.

Lemma sends_Do t r : home t r → sends (home t) (Do r).
Proof. intros H; apply sends_do; [done | apply home_free]. Qed.

Lemma NewRequest_home t method target body canReplay auth w r :
  (NewRequest EqualFold Token t method target body canReplay auth w).1 = Ok r → home t r ∧ (NewRequest EqualFold Token t method target body canReplay auth w).2 = w.
Proof.
  intros Hr; split; [| done]; unfold NewRequest in Hr; cbn in Hr; destruct auth; [| injection Hr as <-; by apply home_free].
  destruct (sameOrigin EqualFold target (base t)) eqn:Ho; cbn in Hr; [| done].
  assert (URL_ r = target) as Hu; [| intros _; by rewrite Hu].
  revert Hr; unfold apply_credential; destruct (credential_of t) as [| [] | key]; [by intros [= <-] | | by intros [= <-] |].
  - destruct (Token (session w)); [| done]; case_decide; by intros [= <-].
  - case_decide; by intros [= <-].
Qed.

(** The attempts at a request that [prepare] builds without sending. *)
Lemma sends_attempts P {A} want op prepare send_error (receive : Response → result http_error A) n attempt :
  (∀ w, sent (prepare w).2 = sent w) → (∀ w r, (prepare w).1 = Ok r → sends P (Do r)) →
  sends P (attempts want op prepare send_error receive n attempt).
Proof.
  intros Hp Hd; revert attempt; induction n as [|n IH]; intros attempt; [by apply sends_silent |]; cbn [attempt_from].
  assert (sends P (interrupted ← retryDelay wait_err attempt; match interrupted with Some e => mret (Err (ErrContext e))
    | None => attempts want op prepare send_error receive n (S attempt) end)) as Hagain.
  { apply sends_bind; [by apply sends_silent |]; intros w; destruct (retryDelay wait_err attempt w).1; [by apply sends_silent | apply IH]. }
  apply sends_bind; [by apply sends_silent |]; intros w; destruct (prepare w).1 as [r | e] eqn:Hr; [| by apply sends_silent].
  apply sends_bind; [by eapply Hd |]; intros w1; destruct (Do r w1).1 as [resp | e].
  - case_decide; [by apply sends_silent |]; destruct (_ && _); [done | by apply sends_silent].
  - apply sends_bind; [by apply sends_silent |]; intros w2; destruct (_ && _); [done | by apply sends_silent].
Qed.

Lemma sends_Execute P {A} canRefresh (m : M (Session := Session) (result http_error A)) : sends P m → sends P (Execute canRefresh m).
Proof.
  intros Hm w; unfold HttpClient.Execute; destruct (if canRefresh then _ else _); [| by exists []; rewrite app_nil_r].
  destruct (Hm w) as (l1 & H1 & F1); destruct (m w) as [r w1]; cbn in H1; destruct (_ || _); [by exists l1 |].
  destruct (RefreshIfCurrent _ (session w1)) as [[] s]; [| by exists l1].
  destruct (Hm (mkWorld (sent w1) (waits w1) s)) as (l2 & H2 & F2); exists (l1 ++ l2); cbn in H2.
  rewrite H2, H1, app_assoc; split; [done | by apply Forall_app].
Qed.

(** A prepared request is one of the transport, with a header that is no credential. *)
Lemma prepare_home t (m : M (Session := Session) (result http_error Request)) (f : result http_error Request → result http_error Request) name value :
  name ∉ secret_headers → (∀ q, f q = q ∨ f q = set_header name value <$> q) → (∀ w r, (m w).1 = Ok r → home t r ∧ (m w).2 = w) →
  ∀ w r, ((request ← m; mret (f request)) w).1 = Ok r → home t r.
Proof.
  intros Hn Hf Hm w r; specialize (Hm w); unfold mbind, M_bind; destruct (m w) as [q w1]; cbn in *.
  destruct (Hf q) as [-> | ->]; [intros ->; by apply Hm |].
  destruct q as [q |]; [| done]; intros [= <-]; destruct (Hm q eq_refl) as [Hh _].
  unfold home; by rewrite hasCredential_set.
Qed.

Lemma sends_DoJSON t {A} policy method target auth body (decode : string → option A) want op :
  sends (home t) (DoJSON t policy method target auth body decode want op).
Proof.
  apply sends_attempts; [done |]; intros w r Hr; apply sends_Do.
  eapply (prepare_home t _ _ "Content-Type" "application/json"); [| | apply NewRequest_home | exact Hr]; [apply content_type_free |].
  intros q; cbn; case_decide; auto.
Qed.

Lemma sends_ReadBytes t target maxBytes op accept : sends (home t) (ReadBytes t target maxBytes op accept).
Proof.
  apply sends_attempts; [done |]; intros w r Hr; apply sends_Do.
  eapply (prepare_home t _ _ "Accept" accept); [| | apply NewRequest_home | exact Hr]; [apply accept_free |].
  intros q; cbn; case_decide; auto.
Qed.

Lemma sends_Get t target auth : sends (home t) (Get t target auth).
Proof.
  apply sends_bind; [by apply sends_silent |]; intros w.
  destruct (NewRequest EqualFold Token t "GET" target None true auth w).1 as [r | e] eqn:Hr; [| by apply sends_silent].
  apply sends_bind; [by eapply sends_Do, NewRequest_home | by intros; apply sends_silent].
Qed.

(** C35. Whatever a server answers, redirects included, every request that is sent with a credential
    goes to the origin of the transport's base URL: a JSON call, a download and a
    plain GET, with their retries and after a refresh of the session. *)
Theorem credentials_stay_home t canRefresh {A} policy method target auth body (decode : string → option A) want op maxBytes accept :
  sends (home t) (Execute canRefresh (DoJSON t policy method target auth body decode want op)) ∧
  sends (home t) (Execute canRefresh (ReadBytes t target maxBytes op accept)) ∧
  sends (home t) (Execute canRefresh (Get t target auth)).
Proof. split_and!; apply sends_Execute; [apply sends_DoJSON | apply sends_ReadBytes | apply sends_Get]. Qed.

(** ** What is sent again *)

(** What [Do] makes of an answer it does not follow. *)
Definition taken (r : Request) (x : result string Response) : result string Response :=
  match x with
  | Ok resp => match (if shouldRedirect r (StatusCode resp) then Location resp else None) with Some (Err e) => Err e | _ => Ok resp end
  | Err e => Err e
  end.

Lemma taken_Ok r x resp : taken r x = Ok resp → x = Ok resp.
Proof. unfold taken; destruct x; [| done]; by repeat case_match. Qed.

Lemma Do_credential r w : hasCredential (Headers r) = true → Do r w = (taken r (net (sent w ++ [r])), (send net r w).2).
Proof.
  intros Hc; unfold HttpClient.Do, do_from, CheckRedirect, taken; unfold mbind, M_bind, send; cbn -[hasCredential Nat.leb]; rewrite Hc.
  destruct (net (sent w ++ [r])) as [resp | e]; [| done]; by destruct (if shouldRedirect _ _ then _ else _) as [[to | e] |].
Qed.

(** An answer after which the attempt may be made again: none, too many requests, or a failure of
    the server other than not to implement the request. *)
Definition transient (want : Z) (r : Request) (x : result string Response) : Prop :=
  match taken r x with
  | Err _ => True
  | Ok resp => let status := StatusCode resp in status ≠ want ∧ (status = 429 ∨ status = 0 ∨ 500 ≤ status ∧ status ≠ 501)%Z
  end.

(** The requests [l], sent after [before], with the result [r] they had. *)
Record attempted {A} (want : Z) (receive : Response → result http_error A) (op : string) (n : nat) (before l : list Request) (r : result http_error A) : Prop := mkAttempted {
  at_bound : length l ≤ n;
  at_retried : ∀ l1 x l2, l = l1 ++ x :: l2 → l2 ≠ [] → transient want x (net (before ++ l1 ++ [x]));
  at_ok : ∀ a, r = Ok a → l ≠ [] ∧ ∃ resp, net (before ++ l) = Ok resp ∧ StatusCode resp = want ∧ receive resp = Ok a;
  at_expired : expired r = true → (∀ resp, StatusCode resp = want → expired (receive resp) = false) →
    ∃ resp, net (before ++ l) = Ok resp ∧ StatusCode resp = 401%Z ∧ get_header (RespHeaders resp) "X-Access-Token-Expired" = "1"
}.

Lemma attempted_nil {A} want (receive : Response → result http_error A) op n before r :
  (∀ a, r ≠ Ok a) → expired r = false → attempted want receive op n before [] r.
Proof. intros Hr He; split; [cbn; lia | by intros [] | by intros a ->; destruct (Hr a) | congruence]. Qed.

Lemma attempted_last {A} want (receive : Response → result http_error A) op n before x r :
  n ≠ 0 → (∀ a, r = Ok a → ∃ resp, net (before ++ [x]) = Ok resp ∧ StatusCode resp = want ∧ receive resp = Ok a) →
  (expired r = true → (∀ resp, StatusCode resp = want → expired (receive resp) = false) →
    ∃ resp, net (before ++ [x]) = Ok resp ∧ StatusCode resp = 401%Z ∧ get_header (RespHeaders resp) "X-Access-Token-Expired" = "1") →
  attempted want receive op n before [x] r.
Proof. intros Hn Ho He; split; [cbn; lia | | by auto | done]; intros l1 y l2 Heq Hl2; destruct l1 as [|? [|]], l2; done. Qed.

Lemma attempted_cons {A} want (receive : Response → result http_error A) op n before x l r :
  transient want x (net (before ++ [x])) → attempted want receive op n (before ++ [x]) l r → attempted want receive op (S n) before (x :: l) r.
Proof.
  intros Ht [Hb Hr Ho He]; split; [cbn; lia | | |].
  - intros [|y l1] z l2 Heq Hl2; injection Heq as <- ->; [done |].
    specialize (Hr l1 z l2 eq_refl Hl2); by rewrite <- !app_assoc in Hr.
  - intros a Ha; split; [done |]; destruct (Ho a Ha) as (_ & resp & H1 & H2); rewrite <- app_assoc in H1; eauto.
  - intros Ha Hw; destruct (He Ha Hw) as (resp & H1 & H2); rewrite <- app_assoc in H1; eauto.
Qed.

Lemma attempts_spec {A} want op (prepare : M (Session := Session) _) send_error (receive : Response → result http_error A) s0 n attempt w :
  session w = s0 → (∀ e, expired (Err (A := A) (send_error e)) = false) →
  (∀ w : world (Session := Session), (prepare w).2 = w) → (∀ (w : world (Session := Session)) r, session w = s0 → (prepare w).1 = Ok r → hasCredential (Headers r) = true) →
  let '(r, w') := attempts want op prepare send_error receive n attempt w in
  session w' = s0 ∧ ∃ l, sent w' = sent w ++ l ∧ attempted want receive op n (sent w) l r.
Proof.
  intros Hw Hse Hp Hc; revert attempt w Hw; induction n as [|n IH]; intros attempt w Hw.
  { cbn; split; [done |]; exists []; rewrite app_nil_r; split; [done | by apply attempted_nil]. }
  cbn [attempt_from]; unfold mbind, M_bind; pose proof (Hp w) as Hpw; specialize (Hc w); destruct (prepare w) as [q w1]; cbn -[hasCredential] in Hpw, Hc; subst w1.
  destruct q as [r | e]; [| cbn; split; [done |]; exists []; rewrite app_nil_r; split; [done | by apply attempted_nil]].
  rewrite (Do_credential r w (Hc r Hw eq_refl)); set (x := net (sent w ++ [r])); cbn [send].
  set (w1 := mkWorld (sent w ++ [r]) (waits w) (session w)).
  assert (transient want r x → let '(r0, w') := (let '(interrupted, w2) := retryDelay wait_err attempt w1 in
      match interrupted with Some e => mret (Err (ErrContext e)) | None => attempts want op prepare send_error receive n (S attempt) end w2) in
    session w' = s0 ∧ ∃ l, sent w' = sent w ++ l ∧ attempted want receive op (S n) (sent w) l r0) as Hagain.
  { intros Ht; cbn -[attempt_from]; destruct (wait_err (sent w ++ [r])) as [e|].
    - split; [done |]; exists [r]; split; [done | by apply attempted_last].
    - set (w2 := mkWorld _ _ _); specialize (IH (S attempt) w2 Hw); destruct (attempts _ _ _ _ _ _ _ _) as [r0 w']; destruct IH as (Hs & l & Hl & Ha).
      split; [done |]; exists (r :: l); cbn in Hl; rewrite <- app_assoc in Hl; split; [done | by apply attempted_cons]. }
  destruct (taken r x) as [resp | e] eqn:Hx.
  - pose proof (taken_Ok _ _ _ Hx) as Hx'.
    case_decide as Hst.
    + split; [done |]; exists [r]; split; [done |]; apply attempted_last; [done | by eauto | by intros He Hn; rewrite Hn in He].
    + destruct (bool_decide (n ≠ 0) && retryableStatus (StatusCode resp)) eqn:Hr.
      * apply andb_true_iff in Hr as [_ Hr]; apply Hagain; unfold transient; rewrite Hx; split; [done | by apply retryableStatus_true].
      * split; [done |]; exists [r]; split; [done |]; apply attempted_last; [done | done |]; intros He _; exists resp.
        unfold ReadResponseError in He; cbn zeta in He; destruct (bool_decide (StatusCode resp = 401%Z) && _) eqn:H401; [| by destruct (decode_error _) as [[? ?] ?]].
        apply andb_true_iff in H401 as [H1%bool_decide_eq_true H2%bool_decide_eq_true]; done.
  - cbn [ctx_Err]; destruct (bool_decide (n ≠ 0) && _); [apply Hagain; unfold transient; by rewrite Hx |].
    split; [done |]; exists [r]; split; [done |]; apply attempted_last; [done | done | by rewrite Hse].
Qed.

(** The transport has a credential to send, in whatever state its session is. *)
Definition credentialed (t : Transport) : Prop :=
  match credential_of t with
  | noCredential | bearerCredential false => False
  | bearerCredential true => ∀ s token, Token s = Ok token → token ≠ ""
  | apiKeyCredential key => key ≠ ""
  end.

Lemma NewRequest_credential t method target body canReplay (w : world (Session := Session)) r :
  credentialed t → (NewRequest EqualFold Token t method target body canReplay true w).1 = Ok r → hasCredential (Headers r) = true.
Proof.
  unfold NewRequest, credentialed; cbn -[hasCredential]; intros Hc; destruct (negb _); [done |].
  unfold apply_credential; destruct (credential_of t) as [| [] | key]; [done | | done |].
  - destruct (Token (session w)) as [token|] eqn:Ht; [| done]; rewrite decide_False by (by eapply Hc); by intros [= <-].
  - rewrite decide_False by done; intros [= <-].
    unfold hasCredential, get_header; cbn; by rewrite !lookup_insert_ne, lookup_insert_eq, (bool_decide_true (key ≠ "")), !orb_true_r by done.
Qed.

Definition tries (t : Transport) (policy : RetryPolicy) : nat := match policy with NoRetry => 1 | RetryReplaySafe => readAttempts t end.

(** The server refused the token of a request as expired. *)
Definition refused_expired (x : result string Response) : Prop :=
  ∃ resp, x = Ok resp ∧ StatusCode resp = 401%Z ∧ get_header (RespHeaders resp) "X-Access-Token-Expired" = "1".

(** Every request of [l] but the last, sent after [before], had a transient answer. *)
Definition only_retries (want : Z) (before l : list Request) : Prop :=
  ∀ l1 x l2, l = l1 ++ x :: l2 → l2 ≠ [] → transient want x (net (before ++ l1 ++ [x])).

Definition answered {A} (decode : string → option A) (want : Z) (x : result string Response) (a : A) : Prop :=
  ∃ resp b, x = Ok resp ∧ StatusCode resp = want ∧ RespBody resp = Ok b ∧ decode b = Some a.

Lemma DoJSON_sends t policy method target body {A} (decode : string → option A) want op w :
  credentialed t →
  let '(r, w') := DoJSON t policy method target true body decode want op w in
  ∃ l, sent w' = sent w ++ l ∧ length l ≤ tries t policy ∧ only_retries want (sent w) l ∧
    (∀ a, r = Ok a → l ≠ [] ∧ answered decode want (net (sent w ++ l)) a) ∧ (expired r = true → refused_expired (net (sent w ++ l))).
Proof.
  intros Hc; unfold HttpClient.DoJSON; cbn zeta; set (prepare := mbind _ _); set (receive := λ resp, _).
  assert (∀ resp e, receive resp = Err e → e = ErrDecode op) as Hrec.
  { intros resp e; unfold receive; destruct (RespBody resp) as [b|]; [destruct (decode b) |]; congruence. }
  assert (∀ w r, session w = session w → (prepare w).1 = Ok r → hasCredential (Headers r) = true) as Hprep.
  { intros w0 r _; unfold prepare, mbind, M_bind.
    pose proof (NewRequest_credential t method target body true w0) as Hn; destruct (NewRequest _ _ _ _ _ _ _ _ w0) as [q w1]; cbn -[hasCredential] in *.
    case_decide; [intros ->; by apply Hn |]; destruct q as [q|]; [| done]; intros [= <-].
    rewrite hasCredential_set by apply content_type_free; by apply Hn. }
  pose proof (attempts_spec want op prepare (ErrSend op) receive (session w) (tries t policy) 0 w eq_refl) as H.
  unfold tries in *; destruct (attempts _ _ _ _ _ _ _ _) as [r w'].
  destruct H as (_ & l & Hl & [Hb Hr Ho He]); [done | done | intros ?? _; by apply Hprep |].
  exists l; split_and!; [done.. | |].
  - intros a Ha; destruct (Ho a Ha) as (Hne & resp & H1 & H2 & H3); split; [done |]; unfold receive in H3; destruct (RespBody resp) as [b|] eqn:Hbody; [| done].
    destruct (decode b) as [a'|] eqn:Hd; [| done]; injection H3 as ->; by exists resp, b.
  - intros Hx; apply He; [done |]; intros resp _; destruct (receive resp) as [|e] eqn:Hrr; [done |]; by rewrite (Hrec _ _ Hrr).
Qed.

(** An authenticated JSON call, a refresh of its session included, sends its request at most as
    often as its policy allows, once if it is not safe to replay, and goes on to another attempt
    only after an answer that was transient; it starts over, once, only when the session can be
    refreshed and the server refused the token as expired; and it reports success exactly with
    what the last answer, of the status wanted, decodes to. *)
Theorem json_call_sends t canRefresh policy method target body {A} (decode : string → option A) want op w :
  credentialed t →
  let '(r, w') := Execute canRefresh (DoJSON t policy method target true body decode want op) w in
  ∃ l1 l2, sent w' = sent w ++ l1 ++ l2 ∧
    length l1 ≤ tries t policy ∧ only_retries want (sent w) l1 ∧
    length l2 ≤ tries t policy ∧ only_retries want (sent w ++ l1) l2 ∧
    (l2 ≠ [] → canRefresh = true ∧ refused_expired (net (sent w ++ l1))) ∧
    ∀ a, r = Ok a → l1 ++ l2 ≠ [] ∧ answered decode want (net (sent w')) a.
Proof.
  intros Hc; unfold HttpClient.Execute; set (m := DoJSON t policy method target true body decode want op).
  assert (∀ before, only_retries want before []) as Hnil by (intros ? []; done).
  destruct (if canRefresh then _ else _); [| exists [], []; rewrite !app_nil_r; split_and!; cbn; [done | lia | done | lia | done..]].
  pose proof (DoJSON_sends t policy method target body decode want op w Hc) as H; fold m in H.
  destruct (m w) as [r w1]; destruct H as (l1 & Hl1 & Hb1 & Hr1 & Ho1 & He1).
  destruct (negb (expired r) || negb canRefresh) eqn:Hgo.
  { exists l1, []; rewrite Hl1, !app_nil_r; split_and!; cbn; [done.. | lia | done | done | done]. }
  apply orb_false_iff in Hgo as [Hexp%negb_false_iff Hcan%negb_false_iff].
  destruct (RefreshIfCurrent _ (session w1)) as [[] s].
  2: { exists l1, []; cbn; rewrite Hl1, !app_nil_r; split_and!; cbn; [done.. | lia | done | done | done]. }
  pose proof (DoJSON_sends t policy method target body decode want op (mkWorld (sent w1) (waits w1) s) Hc) as H; fold m in H.
  destruct (m _) as [r2 w2]; destruct H as (l2 & Hl2 & Hb2 & Hr2 & Ho2 & _); cbn in Hl2, Hr2, Ho2; exists l1, l2.
  rewrite Hl2, Hl1, <- app_assoc; rewrite Hl1, <- app_assoc in Ho2; rewrite Hl1 in Hr2; split_and!; try (by auto).
  intros x Hx; destruct (Ho2 x Hx) as [Hne ?]; split; [| done]; intros [_ ?]%app_eq_nil; done.
Qed.
End spec.
