(* ===== verification/HttpApi.v ===== *)
(** * Calls of the clients of ayato and miko (ayato/client, miko/client)

    The JSON calls as data, the downloads, the remote signer and the publication of package
    files: staged where the server can, a multipart request where it cannot.  The files of
    the host do not change meanwhile; JSON and multipart encodings are parameters. *)

From S2P Require Import Prelude GoStrings Artifact HttpClient.

(** ** JSON calls *)
Record Call := mkCall { c_policy : RetryPolicy; c_method : string; c_path : list string; c_auth : bool; c_want : Z; c_op : string }.

Definition api (segments : list string) : list string := ["api"; "unstable"] ++ segments.

(** miko/client/build.go *)
Definition SubmitBuild : Call := mkCall NoRetry "POST" (api ["build"]) true 202 "build submit".
Definition ListJobs : Call := mkCall RetryReplaySafe "GET" (api ["jobs"]) true 200 "list jobs".
Definition JobStatus (id : string) : Call := mkCall RetryReplaySafe "GET" (api ["jobs"; id]) true 200 "job status".
Definition CancelJob (id : string) : Call := mkCall NoRetry "DELETE" (api ["jobs"; id]) true 200 "cancel job".
Definition FetchStats : Call := mkCall RetryReplaySafe "GET" (api ["stats"]) true 200 "stats".
Definition ListArtifacts (id : string) : Call := mkCall RetryReplaySafe "GET" (api ["jobs"; id; "artifacts"]) true 200 "list artifacts".

(** ayato/client/ayato.go and publish.go *)
Definition ExchangeCLICode : Call := mkCall NoRetry "POST" (api ["auth"; "cli"; "exchange"]) false 200 "cli exchange".
Definition RefreshAccessToken : Call := mkCall NoRetry "POST" (api ["auth"; "refresh"]) false 200 "token refresh".
Definition ListAdmins : Call := mkCall RetryReplaySafe "GET" (api ["auth"; "admins"]) true 200 "list admins".
Definition AddAdmin : Call := mkCall NoRetry "POST" (api ["auth"; "admins"]) true 200 "add admin".
Definition RemoveAdmin (id : Z) : Call := mkCall NoRetry "DELETE" (api ["auth"; "admins"; format_int id]) true 200 "remove admin".
Definition RevokeCLIToken : Call := mkCall NoRetry "POST" (api ["auth"; "cli"; "revoke"]) true 200 "revoke token".
Definition RequestDeviceCode : Call := mkCall NoRetry "POST" (api ["auth"; "device"; "code"]) false 200 "device code".
Definition removePackage (repo arch name : string) : Call := mkCall NoRetry "DELETE" (api ["repos"; repo; arch; "packages"; name]) true 200 "remove package".
Definition removePackageAllArchitectures (repo name : string) : Call :=
  mkCall NoRetry "DELETE" (api ["repos"; repo; "packages"; name]) true 200 "remove package from all architectures".
(** ayato/client/upload.go *)
Definition presign_call (repo : string) : Call := mkCall NoRetry "POST" (api ["repos"; repo; "packages"; "presign"]) true 200 "presign package upload".

Definition maxSignatureBytes : Z := 16 * 2 ^ 20.

(** ** Files and grants of an upload *)
Record stagedUploadGrant := mkGrant { ID : string; URLs : gmap string string }.

Inductive upload_error :=
| ErrArtifact (file : string)
| ErrNoPackages
| ErrUnmatched (file : string)
| ErrNoSignature (file : string)
| ErrFile (path : string)
| ErrNoURL (name : string)
| ErrPresignedURL (url : string)
| ErrHttp (e : http_error).

Section api.
Context {Session : Type} (EqualFold : string → string → bool).
Context (net : list Request → result string Response) (ctx_err wait_err : list Request → option string).
Context (Token : Session → result string string) (RefreshIfCurrent : string → Session → result string unit * Session).
Context (decode_error : string → string * string * string) (StatusText : Z → string).
#[local] Existing Instance M_ret.
#[local] Existing Instance M_bind.

Notation "'W'" := (world (Session := Session)).
Notation "'Prog'" := (M (Session := Session)).
Notation "'Do'" := (Do (Session := Session) net).
Notation "'Execute'" := (Execute Token RefreshIfCurrent).

Definition call {A} (t : Transport) (canRefresh : bool) (c : Call) (body : option string) (decode : string → option A) : Prog (result http_error A) :=
  let json := DoJSON EqualFold net ctx_err wait_err Token decode_error StatusText t (c_policy c) (c_method c) (EndpointURL (base t) (c_path c)) (c_auth c) body decode (c_want c) (c_op c) in
  if c_auth c then Execute canRefresh json else json.

(** A request that is not retried; [accept] reads its response. *)
Definition single {A} (t : Transport) (method : string) (target : URL) (body : option string) (canReplay auth : bool) (header : option (string * string)) (op : string)
    (ok : Z → bool) (accept : Response → result http_error A) : Prog (result http_error A) :=
  request ← NewRequest EqualFold Token t method target body canReplay auth;
  match request with
  | Err e => mret (Err (ErrCreate op e))
  | Ok r =>
      resp ← Do (match header with Some (name, value) => set_header name value r | None => r end);
      mret (match resp with
            | Err e => Err (ErrSend op e)
            | Ok resp => if ok (StatusCode resp) then accept resp else Err (ReadResponseError decode_error StatusText resp op)
            end)
  end.

Definition is_200 (status : Z) : bool := bool_decide (status = 200)%Z.
Definition body_of (op : string) (resp : Response) : result http_error string :=
  match RespBody resp with Ok b => Ok b | Err e => Err (ErrRead op e) end.

Definition DownloadArtifact (t : Transport) (canRefresh : bool) (id name : string) : Prog (result http_error string) :=
  Execute canRefresh (single t "GET" (EndpointURL (base t) (api ["jobs"; id; "artifacts"; name])) None true true None "download artifact" is_200 (body_of "write artifact")).

Definition DownloadPackage (t : Transport) (repo arch name : string) : Prog (result http_error string) :=
  single t "GET" (EndpointURL (base t) ["repo"; repo; arch; name]) None true false None ("download " +:+ name) is_200 (body_of ("write " +:+ name)).

Definition RegisterSigner (decode : string → option string) (t : Transport) (canRefresh : bool) (armoredPublicKey : string) : Prog (result http_error string) :=
  Execute canRefresh (single t "POST" (EndpointURL (base t) (api ["auth"; "signers"])) (Some armoredPublicKey) true true (Some ("Content-Type", "application/pgp-keys"))
    "register signer" is_200 (λ resp, b ← body_of "register signer" resp; match decode b with Some f => Ok f | None => Err (ErrDecode "register signer") end)).

Definition SignFile (t : Transport) (package : string) : Prog (result http_error string) :=
  single t "POST" (EndpointURL (base t) (api ["sign"])) (Some package) false true (Some ("Content-Type", "application/octet-stream")) "remote signer" is_200
    (λ resp, if (maxSignatureBytes <? ContentLength resp)%Z then Err (ErrTooLarge "remote signer" maxSignatureBytes)
      else b ← body_of "remote signer" resp;
        if (maxSignatureBytes <? len b)%Z then Err (ErrTooLarge "remote signer" maxSignatureBytes)
        else if decide (b = "") then Err (ErrRead "remote signer" "empty signature") else Ok b).

(** ** Publishing package files (upload.go) *)

(** The regular files of the host; what parses an URL; and the encodings. *)
Context (files : gmap string string) (Parse : string → result string URL).
Context (encode_presign : list (string * Z) → string) (decode_grant : string → option stagedUploadGrant).
Context (encode_commit : string → string → option string → string) (encode_multipart : list (string * string * string) → string).

Definition fileExists (path : string) : bool := bool_decide (is_Some (files !! path)).

Definition stagedProtocolUnavailable (e : http_error) : bool :=
  match e with ResponseError status _ _ => bool_decide (status = 501 ∨ status = 404)%Z | _ => false end.

Definition putStagedFile (t : Transport) (rawURL path : string) : Prog (result upload_error unit) :=
  match Parse rawURL, files !! path with
  | Err _, _ => mret (Err (ErrPresignedURL rawURL))
  | Ok _, None => mret (Err (ErrFile path))
  | Ok target, Some content =>
      r ← single t "PUT" target (Some content) false false (Some ("Content-Type", "application/octet-stream")) ("put staged file " +:+ path_base path)
        (λ status, (200 <=? status)%Z && (status <? 300)%Z) (λ _, Ok tt);
      mret (match r with Ok _ => Ok tt | Err e => Err (ErrHttp e) end)
  end.

Definition commitStagedUpload (t : Transport) (repo id package : string) (signature : option string) : Prog (result http_error unit) :=
  single t "POST" (EndpointURL (base t) (api ["repos"; repo; "packages"; "commit"])) (Some (encode_commit id package signature)) true true
    (Some ("Content-Type", "application/json")) "commit staged upload" is_200 (λ _, Ok tt).

(** A package and, if there is one, its signature. *)
Definition parts (pkg : string) : list (string * string) :=
  (path_base pkg, pkg) :: (if fileExists (pkg +:+ ".sig") then [(path_base (pkg +:+ ".sig"), pkg +:+ ".sig")] else []).

Fixpoint put_all (t : Transport) (grant : stagedUploadGrant) (l : list (string * string)) : Prog (result upload_error unit) :=
  match l with
  | [] => mret (Ok tt)
  | (name, path) :: l =>
      match URLs grant !! name with
      | None => mret (Err (ErrNoURL name))
      | Some rawURL =>
          r ← putStagedFile t rawURL path;
          match r with Ok _ => put_all t grant l | Err e => mret (Err e) end
      end
  end.

(** Whether the server cannot stage, so that the caller falls back. *)
Definition uploadStagedPackage (t : Transport) (canRefresh : bool) (repo pkg : string) : Prog (result upload_error bool) :=
  match mapM (λ '(name, path), c ← files !! path; Some (name, len c)) (parts pkg) with
  | None => mret (Err (ErrFile pkg))
  | Some sizes =>
      grant ← call t canRefresh (presign_call repo) (Some (encode_presign sizes)) decode_grant;
      match grant with
      | Err e => mret (if stagedProtocolUnavailable e then Ok true else Err (ErrHttp e))
      | Ok grant =>
          put ← put_all t grant (parts pkg);
          match put with
          | Err e => mret (Err e)
          | Ok _ =>
              r ← Execute canRefresh (commitStagedUpload t repo (ID grant) (path_base pkg) (fst <$> parts pkg !! 1));
              mret (match r with Ok _ => Ok false | Err e => Err (ErrHttp e) end)
          end
      end
  end.

(** The body is written while it is sent; a file that cannot be read breaks it off. *)
Definition uploadMultipart (t : Transport) (repo pkg : string) : Prog (result http_error unit) :=
  match files !! pkg with
  | None => mret (Err (ErrSend "upload packages" ("open " +:+ pkg)))
  | Some content =>
      let fields := ("package", path_base pkg, content) :: match files !! (pkg +:+ ".sig") with Some s => [("signature", path_base (pkg +:+ ".sig"), s)] | None => [] end in
      single t "POST" (EndpointURL (base t) (api ["repos"; repo; "packages"])) (Some (encode_multipart fields)) false true
        (Some ("Content-Type", "multipart/form-data")) "upload packages" is_200 (λ _, Ok tt)
  end.

Fixpoint upload_each (t : Transport) (canRefresh : bool) (repo : string) (stagedUnavailable : bool) (packages : list string) : Prog (result upload_error unit) :=
  match packages with
  | [] => mret (Ok tt)
  | pkg :: packages =>
      staged ← (if stagedUnavailable then mret (Ok true) else uploadStagedPackage t canRefresh repo pkg);
      match staged with
      | Err e => mret (Err e)
      | Ok false => upload_each t canRefresh repo false packages
      | Ok true =>
          r ← Execute canRefresh (uploadMultipart t repo pkg);
          match r with Err e => mret (Err (ErrHttp e)) | Ok _ => upload_each t canRefresh repo true packages end
      end
  end.

(** The packages of a list of files, every signature of which belongs to one of them. *)
Definition packages_of (l : list string) : result upload_error (list string) :=
  foldM (λ packages file, match ParseArtifact (path_base file) with
    | Err _ => Err (ErrArtifact file)
    | Ok a => Ok (if signature a then packages else packages ++ [file]) end) [] l.

Definition check_signatures (packages l : list string) : result upload_error unit :=
  foldM (λ _ file, match ParseArtifact (path_base file) with
    | Err _ => Err (ErrArtifact file)
    | Ok a =>
        if negb (signature a) then Ok tt
        else if bool_decide (clean (path_join [path_dir file; archiveFilename a]) ∈ map clean packages)
        then if fileExists file then Ok tt else Err (ErrNoSignature file)
        else Err (ErrUnmatched file) end) tt l.

Definition uploadPackageFiles (t : Transport) (canRefresh : bool) (repo : string) (l : list string) : Prog (result upload_error unit) :=
  match packages_of l with
  | Err e => mret (Err e)
  | Ok [] => mret (Err ErrNoPackages)
  | Ok packages =>
      match check_signatures packages l with
      | Err e => mret (Err e)
      | Ok _ => upload_each t canRefresh repo false packages
      end
  end.
End api.

(** The calls that are sent again after a failure. *)
Definition calls (repo arch name id : string) (n : Z) : list Call :=
  [SubmitBuild; ListJobs; JobStatus id; CancelJob id; FetchStats; ListArtifacts id; ExchangeCLICode; RefreshAccessToken; ListAdmins; AddAdmin; RemoveAdmin n;
   RevokeCLIToken; RequestDeviceCode; removePackage repo arch name; removePackageAllArchitectures repo name; presign_call repo].

Lemma replayed_calls_read repo arch name id n c : c ∈ calls repo arch name id n → c_policy c = RetryReplaySafe → c_method c = "GET".
Proof. unfold calls; rewrite !elem_of_cons, elem_of_nil; intros H Hp; by destruct_or! H; subst c. Qed.
