(* ===== verification/HttpApiSpec.v ===== *)
(** * What publishing package files promises

    No credential leaves the origin of the server, presigned URLs included, and success means that
    the server accepted every package, in the order given, with its signature. *)

From S2P Require Import Prelude GoStrings Artifact HttpClient HttpClientSpec HttpApi.

Section spec.
Context {Session : Type} (EqualFold : string → string → bool).
Context (net : list Request → result string Response) (ctx_err wait_err : list Request → option string).
Context (Token : Session → result string string) (RefreshIfCurrent : string → Session → result string unit * Session).
Context (decode_error : string → string * string * string) (StatusText : Z → string).
Context (files : gmap string string) (Parse : string → result string URL).
Context (encode_presign : list (string * Z) → string) (decode_grant : string → option stagedUploadGrant).
Context (encode_commit : string → string → option string → string) (encode_multipart : list (string * string * string) → string).
#[local] Existing Instance M_ret.
#[local] Existing Instance M_bind.

Notation "'W'" := (world (Session := Session)).
Notation "'Prog'" := (M (Session := Session)).
Notation "'Execute'" := (Execute Token RefreshIfCurrent).
Notation "'single'" := (single EqualFold net Token decode_error StatusText).
Notation "'call'" := (call EqualFold net ctx_err wait_err Token RefreshIfCurrent decode_error StatusText).
Notation "'put_all'" := (put_all EqualFold net Token decode_error StatusText files Parse).
Notation "'commit'" := (commitStagedUpload EqualFold net Token decode_error StatusText encode_commit).
Notation "'staged'" := (uploadStagedPackage EqualFold net ctx_err wait_err Token RefreshIfCurrent decode_error StatusText files Parse encode_presign decode_grant encode_commit).
Notation "'multipart'" := (uploadMultipart EqualFold net Token decode_error StatusText files encode_multipart).
Notation "'upload_each'" := (upload_each EqualFold net ctx_err wait_err Token RefreshIfCurrent decode_error StatusText files Parse encode_presign decode_grant encode_commit encode_multipart).
Notation "'upload'" := (uploadPackageFiles EqualFold net ctx_err wait_err Token RefreshIfCurrent decode_error StatusText files Parse encode_presign decode_grant encode_commit encode_multipart).
Notation "'home'" := (home EqualFold).

(** ** Credentials *)
Lemma sends_single t {A} method target body canReplay auth header op ok (accept : Response → result http_error A) :
  (∀ name value, header = Some (name, value) → name ∉ secret_headers) →
  sends (home t) (single t method target body canReplay auth header op ok accept).
Proof.
  intros Hh; apply sends_bind; [by apply sends_silent |]; intros w.
  destruct (NewRequest EqualFold Token t method target body canReplay auth w).1 as [r | e] eqn:Hr; [| by apply sends_silent].
  apply NewRequest_home in Hr as [Hr _]; apply sends_bind; [apply sends_Do | by intros; apply sends_silent].
  destruct header as [[name value]|]; [| done]; unfold HttpClientSpec.home; rewrite (hasCredential_set name value r (Hh _ _ eq_refl)); exact Hr.
Qed.

Lemma sends_call t {A} canRefresh c body (decode : string → option A) : sends (home t) (call t canRefresh c body decode).
Proof. unfold HttpApi.call; destruct (c_auth c); [apply sends_Execute |]; apply sends_DoJSON. Qed.

Lemma sends_put_all t grant l : sends (home t) (put_all t grant l).
Proof.
  induction l as [|[name path] l IH]; [by apply sends_silent |]; cbn [HttpApi.put_all]; destruct (URLs grant !! name) as [url|]; [| by apply sends_silent].
  apply sends_bind; [| intros w; destruct (putStagedFile _ _ _ _ _ _ _ _ _ _ w).1; [done | by apply sends_silent]].
  unfold putStagedFile; destruct (Parse url); [| by apply sends_silent]; destruct (files !! path); [| by apply sends_silent].
  apply sends_bind; [apply sends_single; intros ?? [= <- <-]; apply content_type_free | by intros; apply sends_silent].
Qed.

Lemma sends_staged t canRefresh repo pkg : sends (home t) (staged t canRefresh repo pkg).
Proof.
  unfold uploadStagedPackage; destruct (mapM _ _); [| by apply sends_silent].
  apply sends_bind; [apply sends_call |]; intros w; destruct (call _ _ _ _ _ w).1 as [grant | e]; [| by apply sends_silent].
  apply sends_bind; [apply sends_put_all |]; intros w1; destruct (put_all _ _ _ w1).1; [| by apply sends_silent].
  apply sends_bind; [apply sends_Execute, sends_single; intros ?? [= <- <-]; apply content_type_free | by intros; apply sends_silent].
Qed.

Lemma sends_multipart t repo pkg : sends (home t) (multipart t repo pkg).
Proof.
  unfold uploadMultipart; destruct (files !! pkg); [| by apply sends_silent].
  apply sends_single; intros ?? [= <- <-]; apply content_type_free.
Qed.

Lemma sends_each t canRefresh repo b packages : sends (home t) (upload_each t canRefresh repo b packages).
Proof.
  revert b; induction packages as [|pkg packages IH]; intros b; [by apply sends_silent |]; cbn [HttpApi.upload_each].
  apply sends_bind; [destruct b; [by apply sends_silent | apply sends_staged] |].
  intros w; set (x := fst _); destruct x as [[] |]; [| apply IH | by apply sends_silent].
  apply sends_bind; [apply sends_Execute, sends_multipart |]; intros w1; destruct (Execute _ _ w1).1; [apply IH | by apply sends_silent].
Qed.

(** ** Publication *)

(** A request as the code makes it, whatever its headers. *)
Definition request_for (method : string) (target : URL) (body : string) (r : Request) : Prop :=
  Method r = method ∧ URL_ r = target ∧ Body r = Some body.

(** [Do] answers the request [r], sent after [s], with [resp], after it has followed redirects with
    the requests [l]. *)
Definition exchange (s : list Request) (r : Request) (l : list Request) (resp : Response) : Prop :=
  ∃ w w' : W, sent w = s ∧ Do net r w = (Ok resp, w') ∧ sent w' = s ++ r :: l.

(** The requests sent so far, and those after each file of [l] was put, where the grant says and with
    its contents, and the answer was a success. *)
Inductive puts (grant : stagedUploadGrant) : list Request → list (string * string) → list Request → Prop :=
| puts_nil s : puts grant s [] s
| puts_cons s name path l rawURL target content put redirects resp s' :
    URLs grant !! name = Some rawURL → Parse rawURL = Ok target → files !! path = Some content →
    request_for "PUT" target content put → exchange s put redirects resp → (200 ≤ StatusCode resp < 300)%Z →
    puts grant (s ++ put :: redirects) l s' → puts grant s ((name, path) :: l) s'.

(** The server answered the last of the requests [l] with 200, sent after [s], all of them alike. *)
Definition accepts (P : Request → Prop) (s l : list Request) : Prop :=
  l ≠ [] ∧ Forall P l ∧ ∃ resp, net (s ++ l) = Ok resp ∧ StatusCode resp = 200%Z.

(** A staged publication of [pkg]: the server is asked for a grant until it gives one, every file is put
    under it, and the commit of that grant is accepted. *)
Definition published_staged (t : Transport) (repo pkg : string) (s s' : list Request) : Prop :=
  ∃ sizes asked grant s2 commits,
    mapM (λ '(name, path), c ← files !! path; Some (name, len c)) (parts files pkg) = Some sizes ∧
    asked ≠ [] ∧ Forall (request_for "POST" (EndpointURL (base t) (api ["repos"; repo; "packages"; "presign"])) (encode_presign sizes)) asked ∧
    answered decode_grant 200 (net (s ++ asked)) grant ∧
    puts grant (s ++ asked) (parts files pkg) s2 ∧
    accepts (request_for "POST" (EndpointURL (base t) (api ["repos"; repo; "packages"; "commit"]))
      (encode_commit (ID grant) (path_base pkg) (fst <$> parts files pkg !! 1))) s2 commits ∧
    s' = s2 ++ commits.

(** A publication of [pkg] in one request, with its signature when there is one. *)
Definition published_multipart (t : Transport) (repo pkg : string) (s s' : list Request) : Prop :=
  ∃ content commits, files !! pkg = Some content ∧
    accepts (request_for "POST" (EndpointURL (base t) (api ["repos"; repo; "packages"]))
      (encode_multipart (("package", path_base pkg, content) ::
         match files !! (pkg +:+ ".sig") with Some s => [("signature", path_base (pkg +:+ ".sig"), s)] | None => [] end))) s commits ∧
    s' = s ++ commits.

(** From the requests sent so far to those after: each package in turn, staged, or in one request after
    what was tried of staging it. *)
Inductive accepted (t : Transport) (repo : string) : list Request → list string → list Request → Prop :=
| accepted_nil s : accepted t repo s [] s
| accepted_staged s pkg s1 packages s' :
    published_staged t repo pkg s s1 → accepted t repo s1 packages s' → accepted t repo s (pkg :: packages) s'
| accepted_multipart s pkg tried s1 packages s' :
    published_multipart t repo pkg (s ++ tried) s1 → accepted t repo s1 packages s' → accepted t repo s (pkg :: packages) s'.

Lemma do_first fuel via first r (w : W) : ∃ l, sent (do_from net fuel via first r w).2 = sent w ++ r :: l.
Proof.
  assert (∃ f, (∀ x, sends (λ _, True) (f x)) ∧ do_from (Session := Session) net fuel via first r = (send net r ≫= f)) as (f & Hf & ->).
  { destruct fuel; (eexists; split; [| reflexivity]); intros x; cbn beta.
    all: repeat case_match; first [by apply sends_silent | apply sends_do; auto]. }
  unfold mbind, M_bind; cbn [send]; set (w1 := mkWorld _ _ _); destruct (Hf (net (sent w1)) w1) as (l & Hl & _).
  exists l; by rewrite Hl; cbn; rewrite <- app_assoc.
Qed.

(** A request that was answered as wanted was sent; with a credential it is the only one. *)
Lemma single_Ok t {A} method target body canReplay auth header op ok (accept : Response → result http_error A) (w : W) a w' :
  single t method target (Some body) canReplay auth header op ok accept w = (Ok a, w') →
  ∃ r l resp, sent w' = sent w ++ r :: l ∧ request_for method target body r ∧ exchange (sent w) r l resp ∧ ok (StatusCode resp) = true ∧
    (auth = true → credentialed Token t → (∀ name value, header = Some (name, value) → name ∉ secret_headers) →
     l = [] ∧ net (sent w') = Ok resp).
Proof.
  unfold HttpApi.single, mbind at 1, M_bind at 1.
  pose proof (NewRequest_credential EqualFold Token t method target (Some body) canReplay w) as Hc.
  destruct (NewRequest EqualFold Token t method target (Some body) canReplay auth w) as [q w1] eqn:Hn.
  assert (w1 = w) as -> by (unfold NewRequest in Hn; congruence).
  destruct q as [r | e]; [| done]; set (r' := match header with Some _ => _ | None => r end).
  assert (request_for method target body r') as Hfor.
  { assert (request_for method target body r) as Hr.
    { unfold NewRequest in Hn; injection Hn as Hn; destruct auth; [| by injection Hn as <-].
      destruct (negb _); [done |]; unfold apply_credential in Hn; repeat case_match; simplify_eq; done. }
    unfold r'; by destruct header as [[]|]. }
  unfold mbind, M_bind; destruct (Do net r' w) as [x w2] eqn:Hd; cbn; intros [= Hx ->].
  destruct x as [resp |]; [| done]; destruct (ok (StatusCode resp)) eqn:Hok; [| done].
  destruct (do_first 9 0 r' r' w) as (l & Hl); pose proof Hd as Hd'; unfold Do in Hd'; rewrite Hd' in Hl; cbn in Hl.
  exists r', l, resp; split_and!; [done | done | by exists w, w' | done |]; intros -> Hcred Hh.
  assert (hasCredential (Headers r') = true) as Hsec.
  { unfold r'; destruct header as [[name value]|]; [rewrite (hasCredential_set name value r (Hh _ _ eq_refl)) |].
    all: apply Hc; [done | by rewrite Hn]. }
  pose proof (Do_credential net r' w Hsec) as Hdc; rewrite Hd in Hdc; injection Hdc as Ht ->.
  cbn in Hl; apply app_inv_head in Hl as [= <-]; split; [done |]; cbn; by eapply taken_Ok.
Qed.

(** An authenticated request with a credential is sent as it is, and nothing else. *)
Lemma sends_credentialed t {A} method target body canReplay header op ok (accept : Response → result http_error A) :
  credentialed Token t → (∀ name value, header = Some (name, value) → name ∉ secret_headers) →
  sends (request_for method target body) (single t method target (Some body) canReplay true header op ok accept).
Proof.
  intros Hc Hh; apply sends_bind; [by apply sends_silent |]; intros w.
  pose proof (NewRequest_credential EqualFold Token t method target (Some body) canReplay w) as Hcred.
  destruct (NewRequest _ _ _ _ _ _ _ _ w).1 as [r | e] eqn:Hr; [| by apply sends_silent].
  set (r' := match header with Some _ => _ | None => r end); apply sends_bind; [| by intros; apply sends_silent].
  assert (hasCredential (Headers r') = true) as Hsec.
  { unfold r'; destruct header as [[name value]|]; [rewrite (hasCredential_set name value r (Hh _ _ eq_refl)) |]; by apply Hcred. }
  intros w1; rewrite (Do_credential net r' w1 Hsec); exists [r']; split; [done |]; constructor; [| constructor].
  assert (request_for method target body r) as Hfor; [| unfold r'; by destruct header as [[]|]].
  unfold NewRequest in Hr; cbn in Hr; destruct (negb _); [done |]; unfold apply_credential in Hr; repeat case_match; simplify_eq; done.
Qed.

Lemma sends_call_credentialed t {A} canRefresh c body (decode : string → option A) :
  credentialed Token t → c_auth c = true → sends (request_for (c_method c) (EndpointURL (base t) (c_path c)) body) (call t canRefresh c (Some body) decode).
Proof.
  intros Hc Ha; unfold HttpApi.call; rewrite Ha; apply sends_Execute, sends_attempts; [done |]; intros w r Hr.
  unfold mbind, M_bind in Hr; pose proof (NewRequest_credential EqualFold Token t (c_method c) (EndpointURL (base t) (c_path c)) (Some body) true w) as Hcred.
  destruct (NewRequest _ _ _ _ _ _ _ _ w) as [[q |] w1] eqn:Hq; cbn -[hasCredential] in Hr, Hcred; [| done]; injection Hr as <-.
  intros w2; rewrite Do_credential; [| rewrite hasCredential_set; [by apply Hcred | apply content_type_free]].
  eexists [_]; split; [done |]; constructor; [| constructor].
  unfold NewRequest in Hq; injection Hq as Hq _; destruct (negb _); [done |]; unfold apply_credential in Hq; repeat case_match; simplify_eq; done.
Qed.

Lemma Execute_Ok P {A} canRefresh (m : Prog (result http_error A)) (w : W) a (w' : W) :
  sends P m → Execute canRefresh m w = (Ok a, w') → ∃ (w0 : W) l, m w0 = (Ok a, w') ∧ sent w0 = sent w ++ l ∧ Forall P l.
Proof.
  intros Hm; unfold HttpClient.Execute; destruct (if canRefresh then _ else _); [| done].
  destruct (Hm w) as (l & Hl & HP); destruct (m w) as [r w1] eqn:H1; cbn in Hl.
  destruct (_ || _); [intros [= -> ->]; exists w, []; rewrite app_nil_r; by split_and!; [| | constructor] |].
  destruct (RefreshIfCurrent _ _) as [[] s]; [| done]; intros H; by exists (mkWorld (sent w1) (waits w1) s), l.
Qed.

Lemma header_free (value name v : string) : Some ("Content-Type", value) = Some (name, v) → name ∉ secret_headers.
Proof. intros [= <- _]; apply content_type_free. Qed.

(** What an authenticated request that may be sent again after a refresh comes to. *)
Lemma Execute_single_Ok t {A} canRefresh target body canReplay value op (accept : Response → result http_error A) (w w' : W) a :
  credentialed Token t →
  Execute canRefresh (single t "POST" target (Some body) canReplay true (Some ("Content-Type", value)) op is_200 accept) w = (Ok a, w') →
  ∃ l, sent w' = sent w ++ l ∧ accepts (request_for "POST" target body) (sent w) l.
Proof.
  intros Hc (w0 & l & Hm & Hw0 & HP)%(Execute_Ok (request_for "POST" target body)); [| by apply sends_credentialed, header_free].
  apply single_Ok in Hm as (r & l1 & resp & Hs & Hr & _ & Hok%bool_decide_eq_true & Hlast).
  destruct (Hlast eq_refl Hc (header_free _)) as [-> Hn]; exists (l ++ [r]); rewrite Hs, Hw0, <- app_assoc in *; split; [done |].
  split_and!; [by intros [_ ?]%app_eq_nil | apply Forall_app; split; [done | by constructor] | by exists resp].
Qed.

Lemma multipart_Ok t canRefresh repo pkg (w w' : W) :
  credentialed Token t → Execute canRefresh (multipart t repo pkg) w = (Ok tt, w') → published_multipart t repo pkg (sent w) (sent w').
Proof.
  intros Hc Hx; unfold published_multipart; unfold uploadMultipart in Hx; destruct (files !! pkg) as [content|] eqn:Hf.
  - apply Execute_single_Ok in Hx as (l & Hs & Hl); [| done]; by exists content, l.
  - exfalso; apply (Execute_Ok (λ _, True)) in Hx as (w0 & l & Hm & _); [done | by apply sends_silent].
Qed.

Lemma put_all_Ok t grant l (w w' : W) : put_all t grant l w = (Ok tt, w') → puts grant (sent w) l (sent w').
Proof.
  revert w; induction l as [|[name path] l IH]; intros w; cbn [HttpApi.put_all]; [intros [= <-]; constructor |].
  destruct (URLs grant !! name) as [url|] eqn:Hurl; [| done]; unfold mbind at 1, M_bind at 1; set (m := putStagedFile _ _ _ _ _ _ _ _ _ _).
  destruct (m w) as [[[] |] w1] eqn:H1; [| done]; intros H2; specialize (IH _ H2).
  unfold m, putStagedFile in H1; destruct (Parse url) as [target |] eqn:Hp; [| done]; destruct (files !! path) as [content|] eqn:Hf; [| done].
  unfold mbind, M_bind in H1; match type of H1 with context [match ?x with pair _ _ => _ end] => destruct x as [[a |] w2] eqn:H3 end; [| done].
  injection H1 as <-; apply single_Ok in H3 as (r & l1 & resp & Hs & Hr & He & Hok & _).
  rewrite Hs in IH; eapply puts_cons; [done.. | lia | done].
Qed.

Lemma staged_Ok t canRefresh repo pkg (w w' : W) :
  credentialed Token t → staged t canRefresh repo pkg w = (Ok false, w') → published_staged t repo pkg (sent w) (sent w').
Proof.
  intros Hc; unfold uploadStagedPackage; destruct (mapM _ _) as [sizes|] eqn:Hsizes; [| done]; unfold mbind at 1, M_bind at 1.
  match goal with |- context [HttpApi.call _ _ _ _ _ _ _ _ ?t ?b ?c ?body ?d] =>
    destruct (sends_call_credentialed t b c (encode_presign sizes) d Hc eq_refl w) as (asked & Hasked & HP);
    pose proof (json_call_sends EqualFold net ctx_err wait_err Token RefreshIfCurrent decode_error StatusText t b (c_policy c) (c_method c)
      (EndpointURL (base t) (c_path c)) body d (c_want c) (c_op c) w Hc) as Hj end.
  change (Execute canRefresh _ w) with (call t canRefresh (presign_call repo) (Some (encode_presign sizes)) decode_grant w) in Hj.
  destruct (call _ _ _ _ _ w) as [[grant | e] w1]; [| by destruct (stagedProtocolUnavailable e)].
  cbn [snd] in Hasked; destruct Hj as (l1 & l2 & Hl & _ & _ & _ & _ & _ & Hans); destruct (Hans _ eq_refl) as [Hne Hans'].
  assert (asked = l1 ++ l2) as -> by (rewrite Hl in Hasked; by apply app_inv_head in Hasked).
  unfold mbind at 1, M_bind at 1.
  destruct (put_all _ _ _ w1) as [[[] |] w2] eqn:Hput; [| done]; apply put_all_Ok in Hput.
  unfold mbind, M_bind; set (m := commit _ _ _ _ _); destruct (Execute canRefresh m w2) as [[[] |] w3] eqn:Hx; [| done]; intros [= <-].
  apply Execute_single_Ok in Hx as (commits & Hs & Hcommit); [| done].
  rewrite Hasked in *; exists sizes, (l1 ++ l2), grant, (sent w2), commits; by split_and!.
Qed.

Lemma each_Ok t canRefresh repo b packages (w w' : W) :
  credentialed Token t → upload_each t canRefresh repo b packages w = (Ok tt, w') → accepted t repo (sent w) packages (sent w').
Proof.
  intros Hc; revert b w; induction packages as [|pkg packages IH]; intros b w; cbn [HttpApi.upload_each]; [intros [= <-]; constructor |].
  unfold mbind at 1, M_bind at 1; set (m := if b then _ else _); destruct (m w) as [r w1] eqn:Hm.
  assert (∃ l, sent w1 = sent w ++ l) as (l & Hl).
  { destruct b; [injection Hm as _ <-; exists []; by rewrite app_nil_r |].
    destruct (sends_staged t canRefresh repo pkg w) as (l & Hl & _); fold m in Hl; rewrite Hm in Hl; by exists l. }
  destruct r as [[] | e]; [| | done]; unfold mbind, M_bind.
  - destruct (Execute _ _ w1) as [[[] |] w2] eqn:Hx; [| done]; intros H2.
    apply multipart_Ok in Hx; [| done]; rewrite Hl in Hx; eapply accepted_multipart; [done | by eapply IH].
  - intros H2; destruct b; [done |]; eapply accepted_staged; [by eapply staged_Ok | by eapply IH].
Qed.

(** C36. Publishing files sends no credential to another origin than the server's, the presigned
    URLs of a staging server included; and for a client that has a credential, when it reports
    success, every package of the list has, in order, been published by the server: under a grant it
    gave for the package, each of whose files was put at the URL of the grant and answered with a
    success, and whose commit, of that grant, it accepted; or by one accepted request with the package
    and its signature. *)
Theorem upload_publishes t canRefresh repo l (w : W) :
  let '(r, w') := upload t canRefresh repo l w in
  (∃ k, sent w' = sent w ++ k ∧ Forall (home t) k) ∧
  (credentialed Token t → r = Ok tt → ∃ packages, packages_of l = Ok packages ∧ packages ≠ [] ∧ accepted t repo (sent w) packages (sent w')).
Proof.
  assert (∀ e, let '(r, w') := (mret (Err e) : Prog (result upload_error unit)) w in
    (∃ k, sent w' = sent w ++ k ∧ Forall (home t) k) ∧
    (credentialed Token t → r = Ok tt → ∃ packages, packages_of l = Ok packages ∧ packages ≠ [] ∧ accepted t repo (sent w) packages (sent w'))) as Herr.
  { intros e; split; [exists []; by rewrite app_nil_r | done]. }
  unfold uploadPackageFiles; destruct (packages_of l) as [[|pkg packages] |]; [apply Herr | | apply Herr].
  destruct (check_signatures _ _ _); [| apply Herr].
  pose proof (sends_each t canRefresh repo false (pkg :: packages) w) as Hs.
  destruct (upload_each t canRefresh repo false (pkg :: packages) w) as [r w'] eqn:Hu; split; [done |].
  intros Hc ->; exists (pkg :: packages); split_and!; [done | done | by eapply each_Ok].
Qed.
End spec.
