(* ===== verification/HttpExamples.v ===== *)
(** * Runs of the HTTP client against concrete servers

    A server that stages package files, a session whose token has expired, and a redirect to
    another host. *)

From S2P Require Import Prelude GoStrings Artifact HttpClient HttpClientSpec HttpApi HttpApiSpec.

#[local] Existing Instance M_ret.
#[local] Existing Instance M_bind.

Definition fold (a b : string) : bool := bool_decide (a = b).
Definition server : URL := mkURL "https" None "repo.example" "" "" "" "" "".
Definition storage : URL := mkURL "https" None "storage.example" "" "/a" "/a" "" "".
Definition evil : URL := mkURL "https" None "evil.example" "" "/" "/" "" "".

Definition answer (status : Z) (headers : gmap string string) (to : option URL) (body : string) : result string Response :=
  Ok (mkResponse status headers (Ok <$> to) (Ok body) (len body)).

Definition no_error (reqs : list Request) : option string := None.
Definition token (s : string) : result string string := if decide (s = "") then Err "no token" else Ok s.
Definition refreshed (stale s : string) : result string unit * string := (Ok tt, "new").
Definition no_envelope (body : string) : string * string * string := ("", "", "").
Definition status_text (status : Z) : string := "status".
Definition publisher : Transport := mkTransport server (apiKeyCredential "key") 3.
Definition user : Transport := mkTransport server (bearerCredential true) 3.
Definition start (s : string) : world (Session := string) := mkWorld [] [] s.

(** ** A session whose token has expired *)
Definition session_net (reqs : list Request) : result string Response :=
  match last reqs with
  | Some r => if decide (get_header (Headers r) "Authorization" = "Bearer new") then answer 202 ∅ None "job" else answer 401 {["X-Access-Token-Expired" := "1"]} None ""
  | None => Err ""
  end.

Lemma user_credentialed : credentialed token user.
Proof. intros s t; unfold token; case_decide; [done | by intros [= <-]]. Qed.

Lemma publisher_credentialed : credentialed token publisher.
Proof. done. Qed.

Definition submit : M (Session := string) (result http_error string) :=
  Execute token refreshed true (DoJSON fold session_net no_error no_error token no_envelope status_text
    user NoRetry "POST" (EndpointURL server (api ["build"])) true None Some 202 "build submit").

Lemma json_call_sends_witness :
  (submit (start "old")).1 = Ok "job" ∧ length (sent (submit (start "old")).2) ≤ 2 ∧ answered Some 202 (session_net (sent (submit (start "old")).2)) "job".
Proof.
  pose proof (json_call_sends fold session_net no_error no_error token refreshed no_envelope status_text
    user true NoRetry "POST" (EndpointURL server (api ["build"])) None Some 202 "build submit" (start "old") user_credentialed) as H.
  fold submit in H; assert ((submit (start "old")).1 = Ok "job") as Hr by (vm_compute; reflexivity).
  destruct (submit (start "old")) as [r w']; cbn in Hr; destruct H as (l1 & l2 & Hs & H1 & _ & H2 & _ & _ & Ha).
  split; [exact Hr |]; split; [| exact (proj2 (Ha _ Hr))].
  cbn; rewrite Hs; cbn in H1, H2 |- *; rewrite length_app; lia.
Defined.

(** ** A server that stages files *)
Definition host_files : gmap string string :=
  {[ "/out/a-1-1-any.pkg.tar.zst" := "package a"; "/out/a-1-1-any.pkg.tar.zst.sig" := "signature a"; "/out/b-2-1-any.pkg.tar.zst" := "package b" ]}.

Definition parse_url (raw : string) : result string URL := Ok (mkURL "https" None "storage.example" "" raw raw "" "").
Definition encode_presign (l : list (string * Z)) : string := join "," (map fst l).
Definition decode_grant (body : string) : option stagedUploadGrant :=
  Some (mkGrant "id" {[ "a-1-1-any.pkg.tar.zst" := "/1"; "a-1-1-any.pkg.tar.zst.sig" := "/2"; "b-2-1-any.pkg.tar.zst" := "/3" ]}).
Definition encode_commit (id pkg : string) (sig : option string) : string := id +:+ ":" +:+ pkg +:+ ":" +:+ default "" sig.
Definition encode_multipart (l : list (string * string * string)) : string := join "," (map snd l).

Definition staging_net (reqs : list Request) : result string Response := answer 200 ∅ None "".

(** A server that predates staging. *)
Definition old_net (reqs : list Request) : result string Response :=
  match last reqs with
  | Some r => if has_suffix (Path (URL_ r)) "presign" then answer 404 ∅ None "" else answer 200 ∅ None ""
  | None => Err ""
  end.

Definition upload_to (net : list Request → result string Response) : M (Session := string) (result upload_error unit) :=
  uploadPackageFiles fold net no_error no_error token refreshed no_envelope status_text host_files parse_url
    encode_presign decode_grant encode_commit encode_multipart publisher false "extra"
    ["/out/a-1-1-any.pkg.tar.zst"; "/out/a-1-1-any.pkg.tar.zst.sig"; "/out/b-2-1-any.pkg.tar.zst"].

Lemma upload_publishes_witness :
  (upload_to staging_net (start "")).1 = Ok tt ∧
  ∃ packages, packages ≠ [] ∧
    accepted (Session := string) staging_net host_files parse_url encode_presign decode_grant encode_commit encode_multipart publisher "extra" [] packages (sent (upload_to staging_net (start "")).2).
Proof.
  pose proof (upload_publishes fold staging_net no_error no_error token refreshed no_envelope status_text host_files parse_url
    encode_presign decode_grant encode_commit encode_multipart publisher false "extra"
    ["/out/a-1-1-any.pkg.tar.zst"; "/out/a-1-1-any.pkg.tar.zst.sig"; "/out/b-2-1-any.pkg.tar.zst"] (start "")) as H.
  fold (upload_to staging_net) in H; assert ((upload_to staging_net (start "")).1 = Ok tt) as Hr by (vm_compute; reflexivity).
  destruct (upload_to staging_net (start "")) as [r w']; cbn in Hr; destruct H as [_ H].
  split; [exact Hr |]; destruct (H publisher_credentialed Hr) as (packages & _ & Hne & Hacc).
  exists packages; split; [exact Hne | exact Hacc].
Defined.

(** What is sent: presign, a PUT for each file, commit; and with an old server one try, then multipart. *)
Example staged_requests :
  map (λ r, (Method r, Path (URL_ r))) (sent (upload_to staging_net (start "")).2) =
  [("POST", "/api/unstable/repos/extra/packages/presign"); ("PUT", "/1"); ("PUT", "/2"); ("POST", "/api/unstable/repos/extra/packages/commit");
   ("POST", "/api/unstable/repos/extra/packages/presign"); ("PUT", "/3"); ("POST", "/api/unstable/repos/extra/packages/commit")].
Proof. vm_compute; reflexivity. Qed.

Example multipart_requests :
  (upload_to old_net (start "")).1 = Ok tt ∧
  map (λ r, (Method r, Path (URL_ r))) (sent (upload_to old_net (start "")).2) =
  [("POST", "/api/unstable/repos/extra/packages/presign"); ("POST", "/api/unstable/repos/extra/packages"); ("POST", "/api/unstable/repos/extra/packages")].
Proof. split; vm_compute; reflexivity. Qed.

(** A redirect to another host: an authenticated request is not followed there, a public one is,
    without a credential. *)
Definition redirecting_net (reqs : list Request) : result string Response :=
  match last reqs with
  | Some r => if decide (Hostname (URL_ r) = "evil.example") then answer 200 ∅ None "" else answer 302 ∅ (Some evil) ""
  | None => Err ""
  end.

Example redirect_not_followed :
  map (λ r, Hostname (URL_ r)) (sent (Get fold redirecting_net token publisher (EndpointURL server ["repo"]) true (start "")).2) = ["repo.example"] ∧
  map (λ r, (Hostname (URL_ r), hasCredential (Headers r))) (sent (Get fold redirecting_net token publisher (EndpointURL server ["repo"]) false (start "")).2)
    = [("repo.example", false); ("evil.example", false)].
Proof. split; vm_compute; reflexivity. Qed.

(** A segment with a slash stays one segment. *)
Example endpoint_escaped : RawPath (EndpointURL server (api ["jobs"; "../../x y"])) = "/api/unstable/jobs/..%2F..%2Fx%20y".
Proof. vm_compute; reflexivity. Qed.
