(* ===== verification/MikoBuild.v ===== *)
(** * The build of a job with its AUR dependencies (miko/service: build.go, source.go,
      aur_source.go, aur_dependencies.go, trustgate.go, upload.go; miko/domain/trust.go)

    What a job does between the queue and its artifacts, as a program that appends to a log of
    events; whatever answers an event (the AUR, git, the build backend, the signer, ayato,
    the file system) may answer anything, and differently each time. *)

From S2P Require Import Upload.
From S2P Require Import Prelude GoStrings Constraint Srcinfo Aurweb Resolver JobRequest.

(** ** The trust policy (miko/domain/trust.go) *)
Record AURTrustPolicySpec := mkPolicySpec { TrustedMaintainers : list string; TrustedPkgbases : list string; AllowUntrusted : bool }.

Inductive AURTrustDecision := AURTrustBlocked | AURTrustByPkgbase | AURTrustByMaintainer | AURTrustUntrusted.
#[export] Instance AURTrustDecision_eq_dec : EqDecision AURTrustDecision.
Proof. solve_decision. Defined.

Record AURTrustPolicy := mkPolicy { trustedMaintainers : gset string; trustedPkgbases : gset string; allowUntrusted : bool }.

Section policy.
Context {U : Unicode}.

Definition normalizeMaintainer (maintainer : string) : string := ToLower (trim_space maintainer).

Definition NewAURTrustPolicy (spec : AURTrustPolicySpec) : AURTrustPolicy :=
  mkPolicy (list_to_set (filter (λ m, m ≠ "") (map normalizeMaintainer (TrustedMaintainers spec))))
    (list_to_set (filter (λ p, p ≠ "") (TrustedPkgbases spec))) (AllowUntrusted spec).

Definition Decide (p : AURTrustPolicy) (pkgbase maintainer : string) : AURTrustDecision :=
  if decide (pkgbase ∈ trustedPkgbases p) then AURTrustByPkgbase
  else if decide (normalizeMaintainer maintainer ≠ "" ∧ normalizeMaintainer maintainer ∈ trustedMaintainers p) then AURTrustByMaintainer
  else if allowUntrusted p then AURTrustUntrusted else AURTrustBlocked.
End policy.

(** ** Dependencies of a source (aur_source.go, [srcinfoBuildDeps]) *)
Definition fromAUR (p : Pkg) : Package :=
  mkPackage (Name p) (PackageBase p) (pkg_Version p) (pkg_Provides p) (pkg_Depends p ++ pkg_MakeDepends p ++ pkg_CheckDepends p).

(** The AUR as the resolver sees it. *)
Definition NewAURSource (info : list string → result string (list Pkg)) (search : string → string → result string (list Pkg)) : AURSource := {|
  Resolver.Info names := map fromAUR <$> info names;
  ProvidedBy name :=
    ps ← search "provides" name;
    match ps with
    | [] => Ok None
    | p :: _ =>
        infos ← info [Name p];
        Ok (Some (fromAUR (match infos with i :: _ => i | [] => p end)))
    end
|}.

Definition srcinfoBuildDeps {R : RangeOrder} (si : SRCINFO) (arch : string) (runCheck : option bool) : list string :=
  let packages := SplitPackages si in
  uniq (filter (λ v, v ≠ "")
    (ForArch (MakeDepends (srcinfo_base si)) arch
     ++ (if bool_decide (runCheck = Some false) then [] else ForArch (CheckDepends (srcinfo_base si)) arch)
     ++ (if decide (packages = []) then ForArch (SrcinfoPackage.Depends (srcinfo_pkg si)) arch else [])
     ++ concat (map (λ p, ForArch (SrcinfoPackage.Depends p) arch) packages))).

(** ** The log of a job *)

(** A source directory: its files. *)
Notation "'tree'" := (gmap string string) (only parsing).

Record Spec := mkSpec {
  SrcDir : tree; b_Arch : string; b_InstallPkgs : list string; b_IgnoreArch : bool; b_RunCheck : option bool; b_RunVerify : option bool;
  b_SkipChecksums : bool; b_SkipPGPCheck : bool
}.

Inductive event :=
| TempDir
| WriteSource (files : tree)
| Clone (url ref subdir : string)
| LookupMaintainer (dep : Package)
| Build (dep : option Package) (spec : Spec)
| Stat (path : string)
| Sign (path : string)
| Publish (repo : string) (batch : list (string * string)).

(** What each kind of event is answered, from the log that ends with it. *)
Class Answers := {
  tempdir : list event → result string unit;
  write_source : list event → result string unit;
  clone : list event → result string tree;
  lookup : list event → result string (list Pkg);
  build : list event → result string (list string);
  stat : list event → result string Z;
  sign : list event → result string string;
  publish : list event → result string unit;
}.

Definition Prog (A : Type) : Type := list event → result string A * list event.
#[export] Instance Prog_ret : MRet Prog := λ A a h, (Ok a, h).
#[export] Instance Prog_bind : MBind Prog := λ A B f m h, match m h with (Ok a, h) => f a h | (Err e, h) => (Err e, h) end.

Definition fail {A} (e : string) : Prog A := λ h, (Err e, h).
Definition lift {A} (r : result string A) : Prog A := λ h, (r, h).
Definition emit {A} (e : event) (answer : list event → result string A) : Prog A := λ h, (answer (h ++ [e]), h ++ [e]).

Fixpoint for_each {A} (f : A → Prog unit) (l : list A) : Prog unit :=
  match l with [] => mret tt | a :: l => _ ← f a; for_each f l end.

(** The settings of the service and the collaborators that are configured. *)
Record service := mkService {
  ResolveAURDependencies : bool; max_package_size : Z; aurTrust : AURTrustPolicy; GitBase : string;
  has_aur : bool; has_uploader : bool; has_signer : bool; has_backend : bool
}.

Section build.
Context {R : RangeOrder} {U : Unicode} {E : Answers}.
Context (s : service) (vercmp : string → string → Z) {repo : RepoChecker} {aur : AURSource}.
(** The depth of the search of the resolver, the parser of a .SRCINFO, and what resolves the
    configuration of a build ([builder.Resolve] and the factory of backends). *)
Context (depth : nat) (ParseSrcinfo : string → result string SRCINFO) (resolve_config : BuildRequest → result string unit).

(** ** trustgate.go *)
Definition depMaintainer (dep : Package) : Prog string :=
  infos ← emit (LookupMaintainer dep) lookup;
  mret (match list_find (λ p, Name p = p_Name dep ∨ PackageBase p = p_PackageBase dep) infos with Some (_, p) => Maintainer p | None => "" end).

Definition checkDepTrust (dep : Package) : Prog unit :=
  maintainer ← depMaintainer dep;
  match Decide (aurTrust s) (p_PackageBase dep) maintainer with
  | AURTrustBlocked => fail ("AUR dependency " +:+ p_PackageBase dep +:+ " is not trusted")
  | _ => mret tt
  end.

(** ** source.go *)

(** The extra files of a request that are written, by their names. *)
Definition safe_name (name : string) : bool :=
  negb (occurs "/" name) && negb (bool_decide (path_base name ∈ ["."; ".."; ""])).

Definition materializePkgbuild (req : BuildRequest) : Prog tree :=
  let files := foldl (λ t '(name, contents), if safe_name name then <[path_base name := contents]> t else t)
    {["PKGBUILD" := rq_Pkgbuild req]} (range_map (rq_Files req)) in
  _ ← emit (WriteSource files) write_source; mret files.

(** A subdirectory that leaves the clone is refused. *)
Definition safe_subdir (subdir : string) : bool :=
  let c := clean subdir in negb (bool_decide (c = "..") || has_prefix c "../" || is_abs c).

Definition materializeGit (source : GitSource) : Prog tree :=
  if decide (git_URL source = "") then fail "git source has no URL"
  else if bool_decide (git_Subdir source ≠ "") && negb (safe_subdir (git_Subdir source)) then fail "invalid subdir"
  else emit (Clone (git_URL source) (git_Ref source) (git_Subdir source)) clone.

Definition materialize (req : BuildRequest) : Prog tree :=
  t ← (match rq_Git req with
       | Some source => materializeGit source
       | None => if decide (rq_Pkgbuild req ≠ "") then materializePkgbuild req else fail "no build source given"
       end);
  if decide (is_Some (t !! "PKGBUILD")) then mret t else fail "PKGBUILD not found in source".

(** ** upload.go *)
Definition check_size (path : string) : Prog unit :=
  size ← emit (Stat path) stat;
  if Exceeds size (max_package_size s) then fail ("package " +:+ path +:+ " exceeds max_size") else mret tt.

Fixpoint sign_all (packages : list string) : Prog (list (string * string)) :=
  match packages with
  | [] => mret []
  | path :: packages =>
      sig ← (if has_signer s then emit (Sign path) sign else mret "");
      batch ← sign_all packages; mret ((path, sig) :: batch)
  end.

Definition signAndUpload (repository : string) (packages : list string) : Prog unit :=
  if negb (has_uploader s) then fail "Ayato publisher is not configured"
  else
    _ ← for_each check_size packages;
    batch ← sign_all packages;
    emit (Publish repository batch) publish.

(** ** aur_dependencies.go *)
Definition spec_of (req : BuildRequest) (src : tree) (install : list string) : Spec :=
  mkSpec src (rq_Arch req) install (rq_IgnoreArch req) (rq_RunCheck req) (rq_RunVerify req) (rq_SkipChecksums req) (rq_SkipPGPCheck req).

Definition dep_url (dep : Package) : string := trim_right_byte "/" (GitBase s) +:+ "/" +:+ p_PackageBase dep +:+ ".git".

Definition buildAndPublishDep (req : BuildRequest) (dep : Package) : Prog unit :=
  _ ← emit TempDir tempdir;
  src ← materializeGit (mkGit (dep_url dep) "" "");
  _ ← emit TempDir tempdir;
  packages ← emit (Build (Some dep) (spec_of req src [])) build;
  signAndUpload (rq_Repo req) packages.

Definition depend_message (e : depend_error) : string := "failed to resolve AUR dependencies".

(** A source without a .SRCINFO that can be read is built without its AUR dependencies. *)
Definition resolveAndBuildDeps (req : BuildRequest) (src : tree) : Prog unit :=
  if negb (ResolveAURDependencies s) then mret tt
  else if negb (has_aur s) then fail "AUR dependency resolver is not configured"
  else
    match src !! ".SRCINFO" with
    | None => mret tt
    | Some data =>
        match ParseSrcinfo data with
        | Err _ => mret tt
        | Ok si =>
            let rootDeps := srcinfoBuildDeps si (rq_Arch req) (rq_RunCheck req) in
            if decide (rootDeps = []) then mret tt
            else
              order ← lift (map_err depend_message (Resolve vercmp depth rootDeps));
              if decide (length order = 0) then mret tt
              else
                _ ← for_each checkDepTrust order;
                for_each (buildAndPublishDep req) order
        end
    end.

(** ** build.go *)
Definition runBuild (req : BuildRequest) : Prog (list string) :=
  if negb (has_backend s) then fail "build backend factory is not configured"
  else
    _ ← emit TempDir tempdir;
    src ← materialize req;
    _ ← emit TempDir tempdir;
    _ ← lift (resolve_config req);
    _ ← resolveAndBuildDeps req src;
    emit (Build None (spec_of req src (rq_InstallPkgs req))) build.
End build.
