(* ===== verification/MikoBuildSpec.v ===== *)
(** * What the build of a job promises

    No AUR dependency is built before the policy has let every one of them pass, and every
    dependency is published before what needs it is built. *)

From S2P Require Import Upload.
From S2P Require Import Prelude GoStrings Constraint Srcinfo Aurweb Resolver JobRequest MikoBuild.

(** ** The policy and the sources *)

(** [Decide], as the policy is meant: an orphan is never trusted by its maintainer. *)
Lemma Decide_blocked {U : Unicode} p pkgbase maintainer :
  Decide p pkgbase maintainer ≠ AURTrustBlocked ↔
  pkgbase ∈ trustedPkgbases p ∨ (normalizeMaintainer maintainer ≠ "" ∧ normalizeMaintainer maintainer ∈ trustedMaintainers p) ∨ allowUntrusted p = true.
Proof.
  unfold Decide; case_decide; [by split; auto |]; case_decide; [by split; auto |].
  destruct (allowUntrusted p); split; [by auto | done | done | naive_solver].
Qed.

(** A file of a request is written beside the PKGBUILD, never elsewhere. *)
Lemma materializePkgbuild_names {R : RangeOrder} {E : Answers} req h t h' :
  materializePkgbuild req h = (Ok t, h') → ∀ name, is_Some (t !! name) → occurs "/" name = false ∧ name ∉ ["."; ".."; ""].
Proof.
  unfold materializePkgbuild; set (files := foldl _ _ _).
  assert (∀ l (t0 : tree), (∀ name, is_Some (t0 !! name) → occurs "/" name = false ∧ name ∉ ["."; ".."; ""]) →
    ∀ name, is_Some (foldl (λ t '(name, contents), if safe_name name then <[path_base name := contents]> t else t) t0 l !! name) →
      occurs "/" name = false ∧ name ∉ ["."; ".."; ""]) as Hfold.
  { induction l as [|[n c] l IH]; intros t0 H0; cbn; [exact H0 |]; apply IH; destruct (safe_name n) eqn:Hs; [| exact H0].
    unfold safe_name in Hs; apply andb_true_iff in Hs as [Hs1%negb_true_iff Hs2%negb_true_iff%bool_decide_eq_false].
    intros name; rewrite lookup_insert_is_Some'; intros [<- | ?]; [| by apply H0].
    destruct (path_base_occurs n) as [Hb | Hb]; [| done].
    exfalso; destruct (decide (n = "")) as [-> | Hn]; [apply Hs2; change (path_base "") with "."; set_solver |].
    rewrite path_base_id in Hb by done; subst n; done. }
  unfold mbind, Prog_bind, emit; cbn; destruct (write_source _) as [u |]; [| done]; intros [= <- _].
  apply Hfold; intros name [c Hl]; apply lookup_singleton_Some in Hl as [<- _]; split; [reflexivity | set_solver].
Qed.

(** ** Logs *)
Section spec.
Context {R : RangeOrder} {U : Unicode} {E : Answers}.
Context (s : service) (vercmp : string → string → Z) {repo : RepoChecker} {aur : AURSource}.
Context (depth : nat) (ParseSrcinfo : string → result string SRCINFO) (resolve_config : BuildRequest → result string unit).
Context (req : BuildRequest).

(** The policy let [d] pass, by what the AUR said of its maintainer, in the log [l] after [h]. *)
Definition gated (h l : list event) (d : Package) : Prop :=
  ∃ k1 k2 infos, l = k1 ++ LookupMaintainer d :: k2 ∧ lookup (h ++ k1 ++ [LookupMaintainer d]) = Ok infos ∧
    Decide (aurTrust s) (p_PackageBase d)
      (match list_find (λ p, Name p = p_Name d ∨ PackageBase p = p_PackageBase d) infos with Some (_, p) => Maintainer p | None => "" end) ≠ AURTrustBlocked.

(** What the build of [d] made was published. *)
Definition published (h l : list event) (d : Package) : Prop :=
  ∃ k1 spec k2 batch k3 packages, l = k1 ++ Build (Some d) spec :: k2 ++ Publish (rq_Repo req) batch :: k3 ∧
    build (h ++ k1 ++ [Build (Some d) spec]) = Ok packages ∧ batch.*1 = packages ∧
    publish (h ++ (k1 ++ Build (Some d) spec :: k2) ++ [Publish (rq_Repo req) batch]) = Ok tt.

Lemma gated_app h l l' d : gated h l d → gated h (l ++ l') d.
Proof. intros (k1 & k2 & i & -> & H); exists k1, (k2 ++ l'), i; split; [by rewrite <- app_assoc | done]. Qed.

Lemma gated_shift h k l d : gated (h ++ k) l d → gated h (k ++ l) d.
Proof. intros (k1 & k2 & i & -> & H1 & H2); exists (k ++ k1), k2, i; rewrite <- !app_assoc in *; done. Qed.

Lemma published_app h l l' d : published h l d → published h (l ++ l') d.
Proof.
  intros (k1 & sp & k2 & b & k3 & p & -> & H); exists k1, sp, k2, b, (k3 ++ l'), p; split; [| done].
  by rewrite <- !app_assoc; cbn; rewrite <- app_assoc.
Qed.

Lemma published_shift h k l d : published (h ++ k) l d → published h (k ++ l) d.
Proof.
  intros (k1 & sp & k2 & b & k3 & p & -> & H1 & H2 & H3); exists (k ++ k1), sp, k2, b, k3, p; rewrite <- !app_assoc in *; done.
Qed.

(** What a program adds to the log, with its result. *)
Definition adds {A} (m : Prog A) (h : list event) (Q : list event → result string A → Prop) : Prop :=
  ∃ k, (m h).2 = h ++ k ∧ Q k (m h).1.

Lemma adds_bind {A B} (m : Prog A) (f : A → Prog B) h Q (P : list event → result string A → Prop) :
  adds m h P → (∀ k e, P k (Err e) → Q k (Err e)) →
  (∀ k a, P k (Ok a) → adds (f a) (h ++ k) (λ k' r, Q (k ++ k') r)) → adds (m ≫= f) h Q.
Proof.
  intros (k & Hk & HP) He Hf; unfold adds, mbind, Prog_bind; destruct (m h) as [[a | e] h1]; cbn in *; subst h1.
  - destruct (Hf k a HP) as (k' & Hk' & HQ); exists (k ++ k'); by rewrite Hk', app_assoc.
  - exists k; auto.
Qed.

Lemma adds_emit {A} e (answer : list event → result string A) h (Q : list event → result string A → Prop) :
  Q [e] (answer (h ++ [e])) → adds (emit e answer) h Q.
Proof. by exists [e]. Qed.

Lemma adds_pure {A} (m : Prog A) h (Q : list event → result string A → Prop) : (m h).2 = h → Q [] (m h).1 → adds m h Q.
Proof. intros H HQ; exists []; by rewrite app_nil_r. Qed.

Lemma adds_mono {A} (m : Prog A) h (P Q : list event → result string A → Prop) : adds m h P → (∀ k r, P k r → Q k r) → adds m h Q.
Proof. intros (k & Hk & HP) H; exists k; auto. Qed.

(** No build in the log. *)
Definition no_build (k : list event) : Prop := ∀ d spec, Build d spec ∉ k.

Lemma no_build_nil : no_build [].
Proof. intros ??; apply not_elem_of_nil. Qed.

Lemma no_build_app k k' : no_build k → no_build k' → no_build (k ++ k').
Proof. intros H H' d spec [?|?]%elem_of_app; [by eapply H | by eapply H']. Qed.

Lemma no_build_one e : (∀ d spec, e ≠ Build d spec) → no_build [e].
Proof. intros H d spec Hin%list_elem_of_singleton; by eapply H. Qed.

Lemma adds_for_each {A} (f : A → Prog unit) l h (P : list event → Prop) :
  P [] → (∀ k k', P k → P k' → P (k ++ k')) → (∀ a h, adds (f a) h (λ k _, P k)) → adds (for_each f l) h (λ k _, P k).
Proof.
  intros H0 Happ Hf; revert h; induction l as [|a l IH]; intros h; cbn [for_each]; [by apply adds_pure |].
  eapply adds_bind; [apply Hf | done |]; intros k u Hk; eapply adds_mono; [apply IH | auto].
Qed.

(** ** The gate *)
Lemma gate_one dep h : adds (checkDepTrust s dep) h (λ k r, no_build k ∧ (r = Ok tt → gated h k dep)).
Proof.
  apply adds_bind with (P := λ k r, k = [LookupMaintainer dep] ∧ ∀ m, r = Ok m → ∃ infos, lookup (h ++ k) = Ok infos ∧
    m = match list_find (λ p, Name p = p_Name dep ∨ PackageBase p = p_PackageBase dep) infos with Some (_, p) => Maintainer p | None => "" end).
  - unfold depMaintainer; apply adds_bind with (P := λ k r, k = [LookupMaintainer dep] ∧ r = lookup (h ++ k)).
    + by apply adds_emit.
    + intros k e [-> He]; split; [done | by intros m]. 
    + intros k infos [-> Hi]; apply adds_pure; [done |]; rewrite app_nil_r; split; [done |]; intros m [= <-]; by exists infos.
  - intros k e [-> _]; split; [by apply no_build_one | done].
  - intros k m [-> Hm]; destruct (Hm m eq_refl) as (infos & Hl & ->).
    apply adds_pure; [by destruct (Decide _ _ _) |]; rewrite app_nil_r; split; [by apply no_build_one |].
    intros Hr; exists [], [], infos; split; [done |]; split; [done |]; intros Hb; rewrite Hb in Hr; done.
Qed.

Lemma gate_all order h : adds (for_each (checkDepTrust s) order) h (λ k r, no_build k ∧ (r = Ok tt → ∀ d, d ∈ order → gated h k d)).
Proof.
  revert h; induction order as [|dep order IH]; intros h; cbn [for_each].
  { apply adds_pure; [done |]; split; [apply no_build_nil |]; by intros _ d ?%elem_of_nil. }
  eapply adds_bind; [apply gate_one | intros k e [? _]; by split |]; intros k [] [Hk Hg].
  eapply adds_mono; [apply IH |]; intros k' r [Hk' Hg']; split; [by apply no_build_app |].
  intros Hr d [-> | Hd]%elem_of_cons; [by apply gated_app, Hg | by apply gated_shift, Hg'].
Qed.

(** ** Building and publishing one dependency *)
Lemma sign_all_adds packages h : adds (sign_all s packages) h (λ k r, no_build k ∧ ∀ b, r = Ok b → b.*1 = packages).
Proof.
  revert h; induction packages as [|path packages IH]; intros h; cbn [sign_all].
  { apply adds_pure; [done |]; split; [apply no_build_nil | by intros b [= <-]]. }
  eapply adds_bind with (P := λ k _, no_build k).
  - destruct (has_signer s); [apply adds_emit; by apply no_build_one | apply adds_pure; [done | apply no_build_nil]].
  - by intros k e ?.
  - intros k sig Hk; eapply adds_bind; [apply IH | intros k' e [? _]; by split; [apply no_build_app |] |].
    intros k' b [Hk' Hb]; apply adds_pure; [done |]; rewrite app_nil_r; split; [by apply no_build_app |].
    intros b' [= <-]; cbn; f_equal; by apply Hb.
Qed.

Lemma signAndUpload_adds repository packages h :
  adds (signAndUpload s repository packages) h (λ k r, no_build k ∧ (r = Ok tt → ∃ k0 batch, k = k0 ++ [Publish repository batch] ∧ batch.*1 = packages ∧
    publish (h ++ k0 ++ [Publish repository batch]) = Ok tt)).
Proof.
  unfold signAndUpload; destruct (negb _); [apply adds_pure; [done |]; split; [apply no_build_nil | done] |].
  eapply adds_bind; [apply (adds_for_each (check_size s) packages h no_build no_build_nil no_build_app) | by intros k e ? |].
  - intros path h0; eapply adds_bind with (P := λ k _, no_build k); [apply adds_emit; by apply no_build_one | done |].
    intros k size Hk; apply adds_pure; [by destruct (Exceeds _ _) | by rewrite app_nil_r].
  - intros k [] Hk; eapply adds_bind; [apply sign_all_adds | intros k' e [? _]; by split; [apply no_build_app |] |].
    intros k' b [Hk' Hb]; apply adds_emit; split; [do 2 (apply no_build_app; [done |]); by apply no_build_one |].
    intros Hr; exists (k ++ k'), b; rewrite <- !app_assoc in *; split_and!; [done | by apply Hb | done].
Qed.

Lemma materializeGit_adds source h : adds (materializeGit source) h (λ k _, no_build k).
Proof.
  unfold materializeGit; case_decide; [apply adds_pure; [done | apply no_build_nil] |].
  destruct (_ && _); [apply adds_pure; [done | apply no_build_nil] |]; apply adds_emit; by apply no_build_one.
Qed.

Lemma build_dep_adds dep h :
  adds (buildAndPublishDep s req dep) h (λ k r, (∀ d spec, Build d spec ∈ k → d = Some dep) ∧ (r = Ok tt → published h k dep)).
Proof.
  assert (∀ k, no_build k → ∀ d spec, Build d spec ∈ k → d = Some dep) as Hno by (intros k Hk d spec Hin; by destruct (Hk d spec)).
  eapply adds_bind with (P := λ k _, no_build k); [apply adds_emit; by apply no_build_one | intros k e Hk; split; [by apply Hno | done] |]; intros k1 _ Hk1.
  eapply adds_bind; [apply materializeGit_adds | intros k e Hk; split; [by apply Hno, no_build_app | done] |]; intros k2 src Hk2.
  eapply adds_bind with (P := λ k _, no_build k); [apply adds_emit; by apply no_build_one | intros k e Hk; split; [apply Hno; by repeat apply no_build_app | done] |]; intros k3 _ Hk3.
  set (sp := spec_of req src []); set (kb := k1 ++ k2 ++ k3).
  assert (no_build kb) as Hkb by (by repeat apply no_build_app).
  apply adds_bind with (P := λ k r, k = [Build (Some dep) sp] ∧ r = build (h ++ kb ++ k)).
  - apply adds_emit; unfold kb; by rewrite <- !app_assoc.
  - intros k e [-> _]; split; [| done]; intros d spec; rewrite !app_assoc, <- (app_assoc k1); fold kb; intros [Hin | Hin]%elem_of_app; [by eapply Hno |].
    apply list_elem_of_singleton in Hin; congruence.
  - intros k packages [-> Hb]; eapply adds_mono; [apply signAndUpload_adds |]; cbn beta; intros k r [Hk Hr].
    rewrite !app_assoc, <- (app_assoc k1); fold kb; split.
    + intros d spec [[Hin | Hin]%elem_of_app | Hin]%elem_of_app; [exact (Hno _ Hkb _ _ Hin) | | exact (Hno _ Hk _ _ Hin)].
      apply list_elem_of_singleton in Hin; congruence.
    + intros ->; destruct (Hr eq_refl) as (k0 & batch & -> & Hbatch & Hp); exists kb, sp, k0, batch, [], packages.
      split_and!; [by rewrite <- !app_assoc | done | done |]; rewrite <- Hp; f_equal; unfold kb; by rewrite <- !app_assoc.
Qed.

(** ** All of them *)
Lemma app_split {A} (k k' l1 l2 : list A) x : k ++ k' = l1 ++ x :: l2 →
  (∃ k2, k = l1 ++ x :: k2) ∨ ∃ l1', l1 = k ++ l1' ∧ k' = l1' ++ x :: l2.
Proof.
  intros Heq; apply app_eq_inv in Heq as [(m & -> & Hm) | (m & -> & Hm)]; [| right; by exists m].
  destruct m as [|y m]; cbn in Hm; [right; exists []; rewrite app_nil_r; rewrite app_nil_r; by split |].
  injection Hm as <- ->; left; by exists m.
Qed.

Definition builds_in_order (h : list event) (order : list Package) (k : list event) : Prop :=
  ∀ l1 d spec l2, k = l1 ++ Build d spec :: l2 → ∃ dep o1 o2, d = Some dep ∧ order = o1 ++ dep :: o2 ∧ ∀ x, x ∈ o1 → published h l1 x.

Lemma build_all order h : adds (for_each (buildAndPublishDep s req) order) h (λ k r, builds_in_order h order k ∧ (r = Ok tt → ∀ d, d ∈ order → published h k d)).
Proof.
  revert h; induction order as [|dep order IH]; intros h; cbn [for_each].
  { apply adds_pure; [done |]; split; [by intros [] | by intros _ d ?%elem_of_nil]. }
  assert (∀ k, (∀ d spec, Build d spec ∈ k → d = Some dep) → builds_in_order h (dep :: order) k) as Hone.
  { intros k Hk l1 d spec l2 ->; exists dep, [], order; split_and!; [apply (Hk d spec); set_solver | done | by intros x ?%elem_of_nil]. }
  eapply adds_bind; [apply build_dep_adds | intros k e [Hk _]; split; [by apply Hone | done] |]; intros k [] [Hk Hp]; specialize (Hp eq_refl).
  eapply adds_mono; [apply IH |]; intros k' r [Hin Hall]; split.
  - intros l1 d spec l2 Heq; apply app_split in Heq as [(k2 & ->) | (l1' & -> & Hk')]; [by eapply Hone |].
    destruct (Hin _ _ _ _ Hk') as (x & o1 & o2 & -> & -> & Hpub); exists x, (dep :: o1), o2; split_and!; [done | done |].
    intros y [-> | Hy]%elem_of_cons; [by apply published_app | by apply published_shift, Hpub].
  - intros Hr d [-> | Hd]%elem_of_cons; [by apply published_app | by apply published_shift, Hall].
Qed.

(** ** The dependencies of a source *)

(** What a missing dependency resolves to has been published, under its base. *)
Definition supplied (h l : list event) (deps : list string) : Prop :=
  ∀ d, needs vercmp deps d → ∃ d', p_PackageBase d' = p_PackageBase d ∧ published h l d'.

(** Of a log: every dependency that is built was let pass before the first of them, and what it
    needs in turn is published before it. *)
Definition deps_sound (h k : list event) : Prop :=
  ∀ l1 d spec l2, k = l1 ++ Build (Some d) spec :: l2 →
    (∀ d' spec', Build (Some d') spec' ∈ k → gated h l1 d') ∧ supplied h l1 (p_Deps d).

Definition root_deps (src : gmap string string) : option (list string) :=
  data ← src !! ".SRCINFO"; match ParseSrcinfo data with Ok si => Some (srcinfoBuildDeps si (rq_Arch req) (rq_RunCheck req)) | Err _ => None end.

Lemma deps_sound_no_build h k : no_build k → deps_sound h k.
Proof. intros H l1 d spec l2 ->; exfalso; eapply H; apply elem_of_app; right; left. Qed.

Lemma resolveAndBuildDeps_adds src h :
  adds (resolveAndBuildDeps s vercmp depth ParseSrcinfo req src) h (λ k r, deps_sound h k ∧ (∀ spec, Build None spec ∉ k) ∧
    (r = Ok tt → ResolveAURDependencies s = true → ∀ roots, root_deps src = Some roots → roots ≠ [] → supplied h k roots)).
Proof.
  assert (∀ r : result string unit, (r = Ok tt → ResolveAURDependencies s = true → ∀ roots, root_deps src = Some roots → roots ≠ [] → supplied h [] roots) →
    deps_sound h [] ∧ (∀ spec, Build None spec ∉ []) ∧ (r = Ok tt → ResolveAURDependencies s = true → ∀ roots, root_deps src = Some roots → roots ≠ [] → supplied h [] roots)) as Hempty.
  { intros r Hr; split_and!; [by apply deps_sound_no_build, no_build_nil | intros ?; apply not_elem_of_nil | exact Hr]. }
  unfold resolveAndBuildDeps, root_deps in *.
  destruct (ResolveAURDependencies s); cbn [negb]; [| by apply adds_pure, Hempty].
  destruct (has_aur s); cbn [negb]; [| by apply adds_pure, Hempty].
  destruct (src !! ".SRCINFO") as [data|]; cbn in *; [| by apply adds_pure, Hempty].
  destruct (ParseSrcinfo data) as [si|]; [| by apply adds_pure, Hempty].
  set (roots := srcinfoBuildDeps si _ _) in *.
  destruct (decide (roots = [])) as [Hnil | Hroots]; [apply adds_pure, Hempty; [done |]; intros _ _ ? [= <-]; done |].
  apply adds_bind with (P := λ k r, k = [] ∧ r = map_err depend_message (Resolve vercmp depth roots)); [by apply adds_pure | intros k e [-> _]; by apply Hempty |].
  intros k order [-> Ho]; rewrite app_nil_r.
  destruct (Resolve vercmp depth roots) as [order' |] eqn:HR; [| done]; injection Ho as ->.
  destruct (Resolve_Ok _ _ _ _ HR) as (Hnd & Hneed & _ & Hdeps).
  assert (∀ d (l : list Package), p_PackageBase d ∈ bases l → ∃ d', p_PackageBase d' = p_PackageBase d ∧ d' ∈ l) as Hbase.
  { intros d l Hin; apply list_elem_of_fmap in Hin as (d' & ? & ?); by exists d'. }
  destruct (decide (length order' = 0)) as [Hl | Hl].
  { apply nil_length_inv in Hl as ->; apply adds_pure, Hempty; [done |]; intros _ _ ? [= <-] _ d Hd%Hneed; by apply elem_of_nil in Hd. }
  eapply adds_bind; [apply gate_all | intros k e [Hk _]; cbn |].
  { split_and!; [by apply deps_sound_no_build | intros spec; by apply Hk | done]. }
  intros kg [] [Hkg Hgate]; specialize (Hgate eq_refl); eapply adds_mono; [apply build_all |]; intros kb r [Hin Hall]; cbn.
  split_and!.
  - intros l1 d spec l2 Heq; apply app_split in Heq as [(k2 & ->) | (l1' & -> & Hkb)].
    { exfalso; eapply Hkg; apply elem_of_app; right; left. }
    destruct (Hin _ _ _ _ Hkb) as (x & o1 & o2 & [= <-] & Horder & Hpub); split.
    + intros d' spec' [Hd | Hd]%elem_of_app; [by destruct (Hkg (Some d') spec') |].
      apply list_elem_of_split in Hd as (m1 & m2 & ->); destruct (Hin _ _ _ _ eq_refl) as (x & p1 & p2 & [= <-] & Ho' & _).
      apply gated_app, Hgate; rewrite Ho'; set_solver.
    + intros d' Hd'; destruct (Hbase d' o1) as (x & Hx & Hxo); [by eapply Hdeps |]; exists x; split; [done | by apply published_shift, Hpub].
  - intros spec [Hd | Hd]%elem_of_app; [by apply (Hkg None spec) |].
    apply list_elem_of_split in Hd as (m1 & m2 & ->); by destruct (Hin _ _ _ _ eq_refl) as (x & p1 & p2 & [=] & _).
  - intros Hr _ roots' [= <-] _ d Hd; destruct (Hbase d order') as (x & Hx & Hxo); [by apply Hneed |].
    exists x; split; [done | by apply published_shift, Hall].
Qed.

Lemma materialize_adds h : adds (materialize req) h (λ k _, no_build k).
Proof.
  eapply adds_bind with (P := λ k _, no_build k); [| done |].
  - destruct (rq_Git req); [apply materializeGit_adds |]; case_decide; [| apply adds_pure; [done | apply no_build_nil]].
    unfold materializePkgbuild; eapply adds_bind with (P := λ k _, no_build k); [apply adds_emit; by apply no_build_one | done |].
    intros k u Hk; apply adds_pure; [done | by rewrite app_nil_r].
  - intros k t Hk; apply adds_pure; [by case_decide | by rewrite app_nil_r].
Qed.

Lemma deps_sound_shift h k0 k : no_build k0 → deps_sound (h ++ k0) k → deps_sound h (k0 ++ k).
Proof.
  intros H0 Hk l1 d spec l2 Heq; apply app_split in Heq as [(k2 & ->) | (l1' & -> & Heq)].
  { exfalso; eapply H0; apply elem_of_app; right; left. }
  destruct (Hk _ _ _ _ Heq) as [Hg Hs]; split.
  - intros d' spec' [Hd | Hd]%elem_of_app; [by destruct (H0 (Some d') spec') | by eapply gated_shift, Hg].
  - intros d' (x & Hx & Hp)%Hs; exists x; split; [done | by apply published_shift].
Qed.

Lemma deps_sound_snoc h k spec : deps_sound h k → deps_sound h (k ++ [Build None spec]).
Proof.
  intros Hk l1 d sp l2 Heq; apply app_split in Heq as [(k2 & ->) | (l1' & _ & Heq)].
  - destruct (Hk _ _ _ _ eq_refl) as [Hg Hs]; split; [| done]; intros d' sp' [Hd | Hd]%elem_of_app; [by eapply Hg |].
    by apply list_elem_of_singleton in Hd.
  - destruct l1' as [|? []]; done.
Qed.

Lemma runBuild_sound h :
  adds (runBuild s vercmp depth ParseSrcinfo resolve_config req) h (λ k _, deps_sound h k ∧
    ∀ l1 spec l2, k = l1 ++ Build None spec :: l2 → ResolveAURDependencies s = true →
      ∀ roots, root_deps (SrcDir spec) = Some roots → roots ≠ [] → supplied h l1 roots).
Proof.
  set (Q := λ (k : list event) (r : result string (list string)), deps_sound h k ∧ ∀ l1 spec l2, k = l1 ++ Build None spec :: l2 → ResolveAURDependencies s = true →
      ∀ roots, root_deps (SrcDir spec) = Some roots → roots ≠ [] → supplied h l1 roots).
  assert (∀ k r, no_build k → Q k r) as Hno.
  { intros k r Hk; split; [by apply deps_sound_no_build |]; intros l1 spec l2 ->; exfalso; eapply Hk; apply elem_of_app; right; left. }
  unfold runBuild; destruct (negb _); [by apply adds_pure, Hno, no_build_nil |].
  eapply adds_bind with (P := λ k _, no_build k); [apply adds_emit; by apply no_build_one | by intros; apply Hno |]; intros k1 _ Hk1.
  eapply adds_bind; [apply materialize_adds | by intros; apply Hno, no_build_app |]; intros k2 src Hk2.
  eapply adds_bind with (P := λ k _, no_build k); [apply adds_emit; by apply no_build_one | by intros; apply Hno; repeat apply no_build_app |]; intros k3 _ Hk3.
  eapply adds_bind with (P := λ k _, k = []); [by apply adds_pure | by intros k e ->; rewrite app_nil_r; apply Hno; repeat apply no_build_app |]; intros k4 _ ->.
  rewrite app_nil_r, <- !app_assoc; set (k0 := k1 ++ k2 ++ k3); assert (no_build k0) as Hk0 by (by repeat apply no_build_app).
  eapply adds_bind; [apply resolveAndBuildDeps_adds | |].
  - intros k e (Hs & Hn & _); rewrite !app_assoc, app_nil_r, <- (app_assoc k1); fold k0; split; [by apply deps_sound_shift |].
    intros l1 spec l2 Heq; exfalso; apply app_split in Heq as [(m & Heq) | (m & -> & Heq)]; [apply (Hk0 None spec); rewrite Heq; set_solver | apply (Hn spec); rewrite Heq; set_solver].
  - intros k [] (Hs & Hn & Hroots); specialize (Hroots eq_refl).
    apply adds_emit; rewrite !app_assoc, app_nil_r, <- (app_assoc k1); fold k0; split; [by apply deps_sound_snoc, deps_sound_shift |].
    intros l1 spec l2 Heq Hres roots Hrd Hne.
    apply app_split in Heq as [(m & Heq) | (m & -> & Heq)].
    { exfalso; apply app_split in Heq as [(m' & Heq) | (m' & -> & Heq)]; [apply (Hk0 None spec); rewrite Heq; set_solver | apply (Hn spec); rewrite Heq; set_solver]. }
    destruct m as [|? []]; [| done | done]; injection Heq as <- <-; rewrite app_nil_r; cbn in Hrd.
    intros d (x & Hx & Hp)%(Hroots Hres roots Hrd Hne); exists x; split; [done | by apply published_shift].
Qed.

(** ** Nothing is built or published before the gate *)

(** An event of the dependencies that builds or publishes. *)
Definition work (e : event) : bool := match e with Build (Some _) _ | Publish _ _ => true | _ => false end.
Definition quiet (k : list event) : Prop := Forall (λ e, work e = false) k.

Lemma adds_and {A} (m : Prog A) h P Q : adds m h P → adds m h Q → adds m h (λ k r, P k r ∧ Q k r).
Proof. intros (k & Hk & HP) (k' & Hk' & HQ); exists k; rewrite Hk in Hk'; apply app_inv_head in Hk' as <-; auto. Qed.

Lemma adds_quiet_emit {A} e (answer : list event → result string A) h : work e = false → adds (emit e answer) h (λ k r, quiet k ∧ r = answer (h ++ [e])).
Proof. intros H; apply adds_emit; split; [by repeat constructor | done]. Qed.

(** Every dependency the resolver names for the source was let pass, in the log [l] after [h],
    and a dependency that [e] builds is one of them. *)
Definition vetted (src : gmap string string) (h l : list event) (e : event) : Prop :=
  ∃ roots order, root_deps src = Some roots ∧ Resolve vercmp depth roots = Ok order ∧ (∀ d, d ∈ order → gated h l d) ∧
    ∀ d spec, e = Build (Some d) spec → d ∈ order.
Definition all_vetted (src : gmap string string) (h k : list event) : Prop := ∀ l1 e l2, k = l1 ++ e :: l2 → work e = true → vetted src h l1 e.

Lemma quiet_vetted src h k : quiet k → all_vetted src h k.
Proof. intros Hk l1 e l2 -> He; apply Forall_app in Hk as [_ [Hk _]%Forall_cons]; congruence. Qed.

Lemma quiet_then_vetted src h k k' : quiet k → all_vetted src (h ++ k) k' → all_vetted src h (k ++ k').
Proof.
  intros Hk Hk' l1 e l2 Heq He; apply app_split in Heq as [(m & Heq) | (l1' & -> & Heq)].
  - exact (quiet_vetted src h k Hk _ _ _ Heq He).
  - destruct (Hk' _ _ _ Heq He) as (roots & o & ? & ? & Hg & ?); exists roots, o; split_and!; try done.
    intros d Hd; by apply gated_shift, Hg.
Qed.

Lemma quiet_gate order h : adds (for_each (checkDepTrust s) order) h (λ k _, quiet k).
Proof.
  apply adds_for_each; [constructor | by intros; apply Forall_app |]; intros dep h0.
  unfold checkDepTrust, depMaintainer; eapply adds_bind with (P := λ k _, quiet k); [| done |].
  - eapply adds_bind; [by apply adds_quiet_emit | by intros k e [? _] |]; intros k infos [Hk _]; apply adds_pure; [done |]; by rewrite app_nil_r.
  - intros k m Hk; apply adds_pure; [by destruct (Decide _ _ _) |]; by rewrite app_nil_r.
Qed.

Lemma quiet_materializeGit source h : adds (materializeGit source) h (λ k _, quiet k).
Proof.
  unfold materializeGit; case_decide; [apply adds_pure; [done | constructor] |].
  destruct (_ && _); [apply adds_pure; [done | constructor] |]; apply adds_emit; by repeat constructor.
Qed.

Lemma quiet_materialize h : adds (materialize req) h (λ k r, quiet k ∧ r = (materialize req h).1).
Proof.
  apply adds_and; [| by destruct (materialize_adds h) as (k & Hk & _); exists k].
  eapply adds_bind with (P := λ k _, quiet k); [| done |].
  - destruct (rq_Git req); [apply quiet_materializeGit |]; case_decide; [| apply adds_pure; [done | constructor]].
    unfold materializePkgbuild; eapply adds_bind with (P := λ k _, quiet k); [apply adds_emit; by repeat constructor | done |].
    intros k u Hk; apply adds_pure; [done | by rewrite app_nil_r].
  - intros k t Hk; apply adds_pure; [by case_decide | by rewrite app_nil_r].
Qed.

Lemma resolve_vetted src h : adds (resolveAndBuildDeps s vercmp depth ParseSrcinfo req src) h (λ k _, all_vetted src h k).
Proof.
  assert (∀ m : Prog unit, (m h).2 = h → adds m h (λ k _, all_vetted src h k)) as H0.
  { intros m Hm; apply adds_pure; [done |]; apply quiet_vetted; constructor. }
  unfold resolveAndBuildDeps; destruct (negb _); [by apply H0 |]; destruct (negb _); [by apply H0 |].
  destruct (src !! ".SRCINFO") as [data|] eqn:Hsrc; [| by apply H0]; destruct (ParseSrcinfo data) as [si|] eqn:Hsi; [| by apply H0].
  cbv zeta; case_decide; [by apply H0 |].
  eapply adds_bind with (P := λ k r, k = [] ∧ r = map_err depend_message (Resolve vercmp depth (srcinfoBuildDeps si (rq_Arch req) (rq_RunCheck req))));
    [by apply adds_pure | intros k e [-> _]; by apply quiet_vetted; constructor |]; intros k order [-> Ho]; rewrite app_nil_r; cbn [app].
  destruct (Resolve _ _ _) as [order' |] eqn:HR; [| done]; injection Ho as ->; case_decide; [by apply H0 |].
  eapply adds_bind; [apply (adds_and _ _ _ _ (gate_all order' h) (quiet_gate order' h)) | intros k e [_ Hk]; by apply quiet_vetted |].
  intros kg [] [[_ Hgate] Hkg]; specialize (Hgate eq_refl); eapply adds_mono; [apply build_all |]; intros kb r [Hin _].
  intros l1 e l2 Heq He; apply app_split in Heq as [(m & Heq) | (l1' & -> & Heq)]; [exact (quiet_vetted src h kg Hkg _ _ _ Heq He) |].
  exists (srcinfoBuildDeps si (rq_Arch req) (rq_RunCheck req)), order'; split_and!; [unfold root_deps; by rewrite Hsrc; cbn; rewrite Hsi | done | |].
  - intros d Hd; by apply gated_app, Hgate.
  - intros d spec ->; destruct (Hin _ _ _ _ Heq) as (x & o1 & o2 & [= <-] & -> & _); set_solver.
Qed.

(** In the log of a job: the source is what the job fetched. *)
Lemma runBuild_vetted h :
  adds (runBuild s vercmp depth ParseSrcinfo resolve_config req) h (λ k _, ∀ l1 e l2, k = l1 ++ e :: l2 → work e = true →
    ∃ src, (materialize req (h ++ [TempDir])).1 = Ok src ∧ vetted src h l1 e).
Proof.
  set (Q := λ k (_ : result string (list string)), ∀ l1 e l2, k = l1 ++ e :: l2 → work e = true → ∃ src, (materialize req (h ++ [TempDir])).1 = Ok src ∧ vetted src h l1 e).
  assert (∀ k r, quiet k → Q k r) as Hq by (intros k r Hk l1 e l2 -> He; apply Forall_app in Hk as [_ [Hk _]%Forall_cons]; congruence).
  unfold runBuild; destruct (negb _); [by apply adds_pure, Hq; constructor |].
  eapply adds_bind with (P := λ k _, k = [TempDir]); [by apply adds_emit | intros k e ->; apply Hq; by repeat constructor |]; intros k1 _ ->.
  eapply adds_bind; [apply quiet_materialize | intros k e [? _]; apply Hq; constructor; [done | done] |]; intros k2 src [Hk2 Hsrc].
  eapply adds_bind; [by apply adds_quiet_emit | intros k e [? _]; apply Hq; constructor; [done |]; by apply Forall_app |]; intros k3 _ [Hk3 _].
  eapply adds_bind with (P := λ k _, k = []); [by apply adds_pure | intros k e ->; apply Hq; constructor; [done |]; rewrite app_nil_r; by apply Forall_app |].
  intros k4 _ ->; rewrite app_nil_r; cbn [app].
  set (k0 := [TempDir] ++ k2 ++ k3); assert (quiet k0) as Hk0 by (constructor; [done | by apply Forall_app]).
  assert (∀ k (r : result string (list string)), all_vetted src h (k0 ++ k) → Q ([TempDir] ++ k2 ++ k3 ++ k) r) as Hdone.
  { intros k r Hk l1 e l2 Heq He; exists src; split; [done |]; eapply Hk; [| exact He]; rewrite <- Heq; unfold k0; by rewrite <- !app_assoc. }
  eapply adds_bind; [apply resolve_vetted | intros k e Hk; apply Hdone, quiet_then_vetted; [done |]; unfold k0; by rewrite !app_assoc in * |].
  intros k [] Hk; apply adds_emit, Hdone; rewrite app_assoc; intros l1 e l2 Heq He; apply app_split in Heq as [(m & Heq) | (l1' & _ & Heq)].
  - eapply (quiet_then_vetted src h k0 k); [done | unfold k0; by rewrite !app_assoc in * | exact Heq | done].
  - destruct l1' as [|? []]; [| done | done]; injection Heq as <- _; done.
Qed.

(** C37. In the log of a job, whatever the AUR, git, the builders, the signer and ayato answer to each
    request: nothing is built of the AUR, and nothing published, before the AUR has named, for
    every dependency that the resolver gives for the source the job fetched, a maintainer the
    policy lets pass, so that one dependency that is blocked stops the job before anything is
    published; only those dependencies are built, and what one needs from the AUR was built and
    published before it; and so was, before the package of the job is built, what the .SRCINFO of
    its source needs. *)
Theorem build_deps_sound h :
  let '(_, h') := runBuild s vercmp depth ParseSrcinfo resolve_config req h in
  ∃ k, h' = h ++ k ∧
    (∀ l1 e l2, k = l1 ++ e :: l2 → work e = true → ∃ src, (materialize req (h ++ [TempDir])).1 = Ok src ∧ vetted src h l1 e) ∧
    deps_sound h k ∧
    ∀ l1 spec l2, k = l1 ++ Build None spec :: l2 → ResolveAURDependencies s = true →
      ∀ roots, root_deps (SrcDir spec) = Some roots → roots ≠ [] → supplied h l1 roots.
Proof.
  destruct (adds_and _ _ _ _ (runBuild_vetted h) (runBuild_sound h)) as (k & Hk & H1 & H2 & H3).
  destruct (runBuild _ _ _ _ _ _ h) as [r h']; by exists k.
Qed.
End spec.

(** ** Builds on concrete inputs *)

#[local] Instance order : RangeOrder := elements_order.
#[local] Instance unicode : Unicode := {| ToLower s := s; EqualFold a b := bool_decide (a = b); rune_count := String.length |}.

Definition record (name maintainer : string) (deps : list string) : Pkg :=
  mkPkg 1 name 1 name "1-1" "" "" 0 0 0 maintainer "" 0 0 "" deps [] [] [] [] [] [] [] [] [] [].

(** [lib] needs [base]; everything else is in the repositories. *)
Definition aur_records : list Pkg := [record "lib" "alice" ["base"]; record "base" "bob" ["glibc"]].
Definition aur_info (names : list string) : result string (list Pkg) := Ok (filter (λ p, Name p ∈ names) aur_records).
#[local] Instance the_aur : AURSource := NewAURSource aur_info (λ _ _, Ok []).
#[local] Instance host : RepoChecker := {| Unsatisfied deps := Ok (filter (λ d, d ∈ ["lib"; "base"]) deps) |}.

Definition built_by (h : list event) : result string (list string) :=
  match last h with Some (Build (Some d) _) => Ok [p_Name d +:+ ".pkg"] | _ => Ok ["app.pkg"] end.
Definition looked_up (h : list event) : result string (list Pkg) :=
  match last h with Some (LookupMaintainer d) => aur_info [p_Name d] | _ => Ok [] end.

#[local] Instance answers : Answers := {|
  tempdir _ := Ok tt; write_source _ := Ok tt; clone _ := Ok {["PKGBUILD" := "pkgname=app"; ".SRCINFO" := "srcinfo"]};
  lookup := looked_up; build := built_by; stat _ := Ok 1%Z; sign _ := Ok "sig"; publish _ := Ok tt |}.

(** The .SRCINFO of the source: a makedepends on [lib]. *)
Definition base_info : SrcinfoBase :=
  mkBase "app" "1" "1" "" None None None None None None None None None None None (Some {["" := ["lib"]]}) None.
Definition no_package : SrcinfoPackage.SrcinfoPackage :=
  SrcinfoPackage.mk "app" "" None "" None None None None None None None None None "" "" 0%Z.
Definition parse (data : string) : result string SRCINFO := Ok (mkSRCINFO base_info no_package [no_package]).

Definition request : BuildRequest := mkRequest "extra" "x86_64" "" (Some (mkGit "https://git.example/app" "" "")) "" ∅ [] "" 0 false None None false false "user".
Definition trusting (maintainers : list string) : service :=
  mkService true 0 (NewAURTrustPolicy (mkPolicySpec maintainers [] false)) "https://aur.archlinux.org" true true true true.

Definition job (maintainers : list string) : result string (list string) * list event :=
  runBuild (trusting maintainers) (λ _ _, 0%Z) 10 parse (λ _, Ok tt) request [].

Definition kind (e : event) : string :=
  match e with
  | LookupMaintainer d => "lookup " +:+ p_Name d
  | Build (Some d) _ => "build " +:+ p_Name d
  | Build None _ => "build the package"
  | Publish _ batch => "publish " +:+ join "," (map fst batch)
  | _ => ""
  end.

Example trusted_job :
  (job ["alice"; "bob"]).1 = Ok ["app.pkg"] ∧
  filter (λ s, s ≠ "") (map kind (job ["alice"; "bob"]).2) =
    ["lookup base"; "lookup lib"; "build base"; "publish base.pkg"; "build lib"; "publish lib.pkg"; "build the package"].
Proof. split; vm_compute; reflexivity. Qed.

(** One maintainer that is not trusted, of a dependency of a dependency, stops the job before any build. *)
Example untrusted_job :
  (job ["alice"]).1 = Err "AUR dependency base is not trusted" ∧ filter (λ s, s ≠ "") (map kind (job ["alice"]).2) = ["lookup base"].
Proof. split; vm_compute; reflexivity. Qed.

Lemma build_deps_sound_witness :
  let k := (job ["alice"; "bob"]).2 in
  deps_sound (trusting ["alice"; "bob"]) (λ _ _, 0%Z) request [] k ∧
  ∃ l1 spec, k = l1 ++ [Build None spec] ∧ supplied (λ _ _, 0%Z) request [] l1 ["lib"].
Proof.
  pose proof (build_deps_sound (trusting ["alice"; "bob"]) (λ _ _, 0%Z) 10 parse (λ _, Ok tt) request []) as H.
  fold (job ["alice"; "bob"]) in H.
  set (source := {["PKGBUILD" := "pkgname=app"; ".SRCINFO" := "srcinfo"]} : gmap string string).
  set (last_build := spec_of request source []).
  assert ((job ["alice"; "bob"]).2 = take 19 (job ["alice"; "bob"]).2 ++ [Build None last_build]) as Hlast by (vm_compute; reflexivity).
  assert (root_deps parse request (SrcDir last_build) = Some ["lib"]) as Hroots by (vm_compute; reflexivity).
  destruct (job ["alice"; "bob"]) as [r h]; cbn in Hlast |- *; destruct H as (k & Hk & _ & Hs & Ht); cbn in Hk; subst h.
  split; [exact Hs |]; exists (take 19 k), last_build; split; [exact Hlast |].
  exact (Ht _ _ _ Hlast eq_refl _ Hroots ltac:(done)).
Defined.
