(* ===== verification/BuildConfig.v ===== *)
(** * The configuration of a build (internal/pacman/builder)

    config.go, microarch.go: what an operator and a project configure, and how the two are
    resolved.  internal/buildenv: the text that is written for pacman, makepkg and the shell.
    devtools/chroot_config.go: the commands of a chroot.  Strings are bytes; where
    the code ranges over runes they are decoded ([runes]). *)

From S2P Require Import Catalog.
From S2P Require Import JobRequest.
From S2P Require Import Prelude GoStrings Paths.

(** ** What the code uses of Go's library *)

(** The runes of a string, as [range] and [strings.IndexFunc] decode them: a byte that begins
    no valid sequence is one rune, U+FFFD. *)
Definition within (lo hi : N) (c : ascii) : bool := (lo <=? byte c)%N && (byte c <=? hi)%N.
Definition continuation (c : ascii) : bool := within 128 191 c.
Definition rune_error : N := 65533.

Definition is_rune2 (a b : ascii) : bool := within 194 223 a && continuation b.
Definition is_rune3 (a b c : ascii) : bool :=
  continuation c
  && ((byte a =? 224)%N && within 160 191 b || (byte a =? 237)%N && within 128 159 b
      || (within 225 236 a || within 238 239 a) && continuation b).
Definition is_rune4 (a b c d : ascii) : bool :=
  continuation c && continuation d
  && ((byte a =? 240)%N && within 144 191 b || (byte a =? 244)%N && within 128 143 b
      || within 241 243 a && continuation b).

Definition low6 (c : ascii) : N := N.land (byte c) 63.
Definition rune2 (a b : ascii) : N := N.lor (N.shiftl (N.land (byte a) 31) 6) (low6 b).
Definition rune3 (a b c : ascii) : N :=
  N.lor (N.lor (N.shiftl (N.land (byte a) 15) 12) (N.shiftl (low6 b) 6)) (low6 c).
Definition rune4 (a b c d : ascii) : N :=
  N.lor (N.lor (N.lor (N.shiftl (N.land (byte a) 7) 18) (N.shiftl (low6 b) 12)) (N.shiftl (low6 c) 6)) (low6 d).

Fixpoint runes (s : string) : list N :=
  match s with
  | "" => []
  | String a s1 =>
      if (byte a <? 128)%N then byte a :: runes s1 else
      match s1 with
      | "" => [rune_error]
      | String b s2 =>
          if is_rune2 a b then rune2 a b :: runes s2 else
          match s2 with
          | "" => rune_error :: runes s1
          | String c s3 =>
              if is_rune3 a b c then rune3 a b c :: runes s3 else
              match s3 with
              | "" => rune_error :: runes s1
              | String d s4 => if is_rune4 a b c d then rune4 a b c d :: runes s4 else rune_error :: runes s1
              end
          end
      end
  end.

(** [unicode.IsControl]: the control characters of Latin-1, there are no others. *)
Definition IsControl (r : N) : bool := (r <? 32)%N || (127 <=? r)%N && (r <? 160)%N.

(** The tables of Unicode beyond ASCII, the texts of durations, which are read with
    floating-point arithmetic, and [fmt.Sprintf] of an operator's template. *)
Class GoLib := {
  letter_or_digit : N → bool;
  ParseDuration : string → option Z;
  duration_String : Z → string;
  Sprintf : string → string → string;
}.

Definition ascii_letter_or_digit (r : N) : bool :=
  (48 <=? r)%N && (r <=? 57)%N || (65 <=? r)%N && (r <=? 90)%N || (97 <=? r)%N && (r <=? 122)%N.

(** [unicode.IsLetter(r) || unicode.IsDigit(r)]. *)
Definition IsLetterOrDigit `{GoLib} (r : N) : bool :=
  if (r <? 128)%N then ascii_letter_or_digit r else letter_or_digit r.

(** [strings.Fields]: the runs of bytes between white space. *)
Fixpoint fields_from (cur : string) (s : string) : list string :=
  let flush := if decide (cur = "") then [] else [cur] in
  match s with
  | "" => flush
  | String a s1 =>
      if Ascii.is_space a then flush ++ fields_from "" s1 else
      match s1 with
      | "" => fields_from (cur +:+ String a "") s1
      | String b s2 =>
          if is_space2 a b then flush ++ fields_from "" s2 else
          match s2 with
          | "" => fields_from (cur +:+ String a "") s1
          | String c s3 =>
              if is_space3 a b c then flush ++ fields_from "" s3
              else fields_from (cur +:+ String a "") s1
          end
      end
  end.
Definition Fields (s : string) : list string := fields_from "" s.

(** ** What is configured (config.go) *)
Definition Kind : Type := string.
Definition KindChroot : Kind := "chroot".
Definition KindContainer : Kind := "container".
Definition KindBwrap : Kind := "bwrap".

Definition DefaultDockerImage : string := "archlinux:latest".
(** Thirty minutes, in nanoseconds. *)
Definition DefaultDockerTimeout : Z := 30 * 60 * 10 ^ 9.

Record PacmanRepository := mkPacmanRepository { Name : string; Server : string; SigLevel : string; Arches : list string }.
#[export] Instance PacmanRepository_eq_dec : EqDecision PacmanRepository.
Proof. solve_decision. Defined.

Definition enabledFor (arch : string) (r : PacmanRepository) : bool :=
  bool_decide (Arches r = [] ∨ arch ∈ Arches r).

Record ArchConfig := mkArchConfig { arch_Timeout : string }.

Record MakepkgConfig := mkMakepkgConfig {
  Packager : string; Microarch : string; CFlagsAppend : string; Options : list string; CompressZst : string
}.
#[export] Instance MakepkgConfig_eq_dec : EqDecision MakepkgConfig.
Proof. solve_decision. Defined.

Definition IsZero (c : MakepkgConfig) : bool :=
  bool_decide (Packager c = "" ∧ Microarch c = "" ∧ CFlagsAppend c = "" ∧ Options c = [] ∧ CompressZst c = "").

Record ProjectConfig := mkProjectConfig {
  p_Repos : list PacmanRepository; p_Makepkg : MakepkgConfig; p_Arches : gmap string ArchConfig;
  p_Image : string; p_ArchBuild : string; p_Timeout : string
}.

Record DockerConfig := mkDockerConfig { Image : string; Host : string; d_PacmanCacheDir : string; CcacheDir : string }.
#[export] Instance eta_DockerConfig : Eta DockerConfig := λ c, mkDockerConfig c.(Image) c.(Host) c.(d_PacmanCacheDir) c.(CcacheDir).
Record BwrapConfig := mkBwrapConfig { Rootfs : string; b_PacmanCacheDir : string }.
Record DevtoolsConfig := mkDevtoolsConfig { ArchBuild : string; ArchBuildTemplate : string }.
#[export] Instance eta_DevtoolsConfig : Eta DevtoolsConfig := λ c, mkDevtoolsConfig c.(ArchBuild) c.(ArchBuildTemplate).

Record HostConfig := mkHostConfig {
  h_Backend : Kind; h_Timeout : Z; h_Repositories : list PacmanRepository;
  h_Docker : DockerConfig; h_Bwrap : BwrapConfig; h_Devtools : DevtoolsConfig
}.

Record hostConfigJSON := mkHostConfigJSON {
  js_Backend : Kind; js_Timeout : string; js_Repositories : list PacmanRepository;
  js_Docker : DockerConfig; js_Bwrap : BwrapConfig; js_Devtools : DevtoolsConfig
}.

Record BuildOverrides := mkBuildOverrides {
  o_Timeout : Z; o_Repositories : list PacmanRepository; o_Makepkg : MakepkgConfig; DockerImage : string
}.

Record ResolvedConfig := mkResolvedConfig {
  Backend : Kind; Timeout : Z; Repositories : list PacmanRepository; Makepkg : MakepkgConfig;
  Docker : DockerConfig; Bwrap : BwrapConfig; Devtools : DevtoolsConfig
}.

Inductive config_error :=
| ErrRepositoryName (i : nat)
| ErrRepositoryServer (name : string)
| ErrInvalidName (i : nat) (name : string)
| ErrServerControl (name : string)
| ErrSigLevelControl (name : string)
| ErrDuplicateName (name : string)
| ErrUnknownBackend (kind : string)
| ErrBuilderTimeout
| ErrBuildTimeout
| ErrDuration (field value : string)
| ErrBuilderRepositories (e : config_error)
| ErrBuildRepositories (e : config_error)
| ErrBuildRepos (e : config_error)
| ErrRootfs
| ErrMicroarch (tier : string)
| ErrMicroarchTarget (tier arch : string)
| ErrArchNotBuilt (arch : string) (arches : list string)
| ErrResolvedImage
| ErrResolvedTimeout
| ErrResolvedChroot
| ErrNoDevtools (path : string)
| ErrRead (path : string).

Definition ValidKind (kind : Kind) : bool :=
  bool_decide (kind = KindChroot ∨ kind = KindContainer ∨ kind = KindBwrap).

Section config.
Context `{GoLib}.

(** ** Repositories *)
Definition name_rune (r : N) : bool := IsLetterOrDigit r || (bool_decide (r ∈ map byte ["."; "_"; "@"; "+"; "-"]%char)).

Definition validRepositoryName (name : string) : bool := forallb name_rune (runes name) && negb (bool_decide (name = "")).

Definition has_control (s : string) : bool := existsb IsControl (runes s).

(** One repository, at its index, among the names seen before it. *)
Definition check_repository (i : nat) (seen : gset string) (repo : PacmanRepository) : result config_error (gset string) :=
  if decide (Name repo = "") then Err (ErrRepositoryName i) else
  if decide (Server repo = "") then Err (ErrRepositoryServer (Name repo)) else
  if negb (validRepositoryName (Name repo)) then Err (ErrInvalidName i (Name repo)) else
  if has_control (Server repo) then Err (ErrServerControl (Name repo)) else
  if has_control (SigLevel repo) then Err (ErrSigLevelControl (Name repo)) else
  if decide (Name repo ∈ seen) then Err (ErrDuplicateName (Name repo)) else Ok ({[Name repo]} ∪ seen).

Fixpoint validate_from (i : nat) (seen : gset string) (repos : list PacmanRepository) : result config_error unit :=
  match repos with
  | [] => Ok tt
  | repo :: repos => seen ← check_repository i seen repo; validate_from (S i) seen repos
  end.

Definition ValidateRepositories (repos : list PacmanRepository) : result config_error unit := validate_from 0 ∅ repos.

(** ** The project's overrides *)

(** [slices.Sort] of the keys, which come in any order. *)
Definition ArchNames {R : RangeOrder} (c : ProjectConfig) : list string := sort_strings (map fst (range_map (p_Arches c))).

Definition reposFor (c : ProjectConfig) (arch : string) : list PacmanRepository :=
  filter (λ r, enabledFor arch r = true) (p_Repos c).

Definition parse_timeout (spec : string) : result config_error Z :=
  if decide (spec = "") then Ok 0%Z else result_of_option (ErrDuration "build.timeout" spec) (ParseDuration spec).

Definition Overrides {R : RangeOrder} (c : ProjectConfig) (arch : string) : result config_error BuildOverrides :=
  let archConfig := p_Arches c !! arch in
  if decide (p_Arches c ≠ ∅ ∧ archConfig = None) then Err (ErrArchNotBuilt arch (ArchNames c)) else
  _ ← map_err ErrBuildRepos (ValidateRepositories (p_Repos c));
  let archTimeout := from_option arch_Timeout "" archConfig in
  timeout ← parse_timeout (if decide (archTimeout = "") then p_Timeout c else archTimeout);
  mret (mkBuildOverrides timeout (reposFor c arch) (p_Makepkg c) (p_Image c)).

(** ** Resolution *)
Definition HostConfig_Validate (host : HostConfig) : result config_error unit :=
  if decide (h_Backend host ≠ "" ∧ ValidKind (h_Backend host) = false) then Err (ErrUnknownBackend (h_Backend host)) else
  if decide (h_Timeout host < 0)%Z then Err ErrBuilderTimeout else
  _ ← map_err ErrBuilderRepositories (ValidateRepositories (h_Repositories host));
  if decide (h_Backend host = KindBwrap ∧ Rootfs (h_Bwrap host) = "") then Err ErrRootfs else Ok tt.

Definition check_backend (config : ResolvedConfig) : result config_error unit :=
  if decide (Backend config = KindContainer) then
    if decide (Image (Docker config) = "") then Err ErrResolvedImage
    else if decide (Timeout config = 0%Z) then Err ErrResolvedTimeout else Ok tt
  else if decide (Backend config = KindBwrap) then
    if decide (Rootfs (Bwrap config) = "") then Err ErrRootfs else Ok tt
  else if decide (Backend config = KindChroot) then
    if decide (Repositories config = [] ∧ IsZero (Makepkg config) = true ∧ ArchBuild (Devtools config) = "")
    then Err ErrResolvedChroot else Ok tt
  else Ok tt.

Definition Validate (config : ResolvedConfig) : result config_error unit :=
  if negb (ValidKind (Backend config)) then Err (ErrUnknownBackend (Backend config)) else
  if decide (Timeout config < 0)%Z then Err ErrBuildTimeout else
  _ ← map_err ErrBuildRepositories (ValidateRepositories (Repositories config));
  if negb (ValidMicroarch (Microarch (Makepkg config))) then Err (ErrMicroarch (Microarch (Makepkg config))) else
  check_backend config.

Definition formatArchBuild (template arch : string) : string :=
  if contains template "%s" then Sprintf template arch else template.

Definition resolve_backend (host : HostConfig) : Kind := if decide (h_Backend host = "") then KindChroot else h_Backend host.

Definition resolve_timeout (host : HostConfig) (overrides : BuildOverrides) : Z :=
  let timeout := if decide (0 < o_Timeout overrides)%Z then o_Timeout overrides else h_Timeout host in
  if decide (timeout = 0%Z ∧ resolve_backend host = KindContainer) then DefaultDockerTimeout else timeout.

Definition resolve_image (host : HostConfig) (overrides : BuildOverrides) (arch : string) : string :=
  let image := if decide (DockerImage overrides = "") then Image (h_Docker host) else DockerImage overrides in
  let image := ReplaceAll image "$arch" arch in
  if decide (image = "" ∧ resolve_backend host = KindContainer) then DefaultDockerImage else image.

Definition resolve_archbuild (host : HostConfig) (arch : string) : string :=
  let d := h_Devtools host in
  if decide (ArchBuild d = "" ∧ ArchBuildTemplate d ≠ "") then formatArchBuild (ArchBuildTemplate d) arch else ArchBuild d.

(** The configuration [Resolve] puts together, before it is validated. *)
Definition resolved (host : HostConfig) (overrides : BuildOverrides) (arch : string) : ResolvedConfig :=
  mkResolvedConfig (resolve_backend host) (resolve_timeout host overrides) (h_Repositories host ++ o_Repositories overrides)
    (o_Makepkg overrides) ((h_Docker host) <| Image := resolve_image host overrides arch |>) (h_Bwrap host)
    ((h_Devtools host) <| ArchBuild := resolve_archbuild host arch |>).

Definition Resolve (host : HostConfig) (overrides : BuildOverrides) (arch : string) : result config_error ResolvedConfig :=
  _ ← HostConfig_Validate host;
  let backend := resolve_backend host in
  let tier := Microarch (o_Makepkg overrides) in
  if negb (ValidKind backend) then Err (ErrUnknownBackend backend) else
  if decide (o_Timeout overrides < 0)%Z then Err ErrBuildTimeout else
  if negb (ValidMicroarch tier) then Err (ErrMicroarch tier) else
  if decide (tier ≠ "" ∧ arch ≠ "x86_64") then Err (ErrMicroarchTarget tier arch) else
  _ ← map_err ErrBuildRepositories (ValidateRepositories (h_Repositories host ++ o_Repositories overrides));
  let r := resolved host overrides arch in
  _ ← Validate r;
  mret r.

(** ** JSON: a timeout is written with its unit *)
Definition MarshalJSON (host : HostConfig) : hostConfigJSON :=
  mkHostConfigJSON (h_Backend host) (if decide (h_Timeout host = 0%Z) then "" else duration_String (h_Timeout host))
    (h_Repositories host) (h_Docker host) (h_Bwrap host) (h_Devtools host).

Definition UnmarshalJSON (decoded : hostConfigJSON) : result config_error HostConfig :=
  timeout ← (if decide (js_Timeout decoded = "") then Ok 0%Z
             else result_of_option (ErrDuration "builder.timeout" (js_Timeout decoded)) (ParseDuration (js_Timeout decoded)));
  mret (mkHostConfig (js_Backend decoded) timeout (js_Repositories decoded) (js_Docker decoded) (js_Bwrap decoded) (js_Devtools decoded)).

(** ** microarch.go *)
Definition MicroarchMarch (tier : string) : result config_error string :=
  if decide (tier = "") then Ok "" else
  result_of_option (ErrMicroarch tier) (snd <$> (snd <$> list_find (λ p, p.1 = tier) microarchLevels)).

(** ** internal/buildenv *)
Definition Quote (s : string) : string := "'" +:+ ReplaceAll s "'" "'\''" +:+ "'".

Definition nl : string := String newline "".

Definition sig_level (r : PacmanRepository) : string :=
  if decide (SigLevel r = "") then "Optional TrustAll" else SigLevel r.

(** The section of one repository. *)
Definition stanza (r : PacmanRepository) : string :=
  nl +:+ "[" +:+ Name r +:+ "]" +:+ nl +:+ "SigLevel = " +:+ sig_level r +:+ nl +:+ "Server = " +:+ Server r +:+ nl.

Definition concat_strings (l : list string) : string := join "" l.

Definition PacmanRepoStanzas (repos : list PacmanRepository) : result config_error string :=
  _ ← ValidateRepositories repos;
  mret (concat_strings (map stanza repos)).

Definition SubstituteBuildPlaceholders (script reposScript installScript : string) : string :=
  let script := ReplaceAll script (nl +:+ "__EXTRA_REPOS__" +:+ nl) (nl +:+ reposScript +:+ nl) in
  ReplaceAll script (nl +:+ "__INSTALL__" +:+ nl) (nl +:+ installScript +:+ nl).

Definition heredoc_end : string := "KAMISATO_EXTRA_REPO_EOF".

Definition repos_header : string := "cat > /run/kamisato-extra-repos.conf <<'KAMISATO_EXTRA_REPO_EOF'" +:+ nl.

(** The double quote, which the script of [awk] holds. *)
Definition dq : string := String "034" "".

Definition repos_awk : string :=
  join nl ["awk 'FNR == NR { extra[++n] = $0; next }";
           "  !done && /^\[/ && $0 != " +:+ dq +:+ "[options]" +:+ dq +:+ " { for (i = 1; i <= n; i++) print extra[i]; print "
             +:+ dq +:+ dq +:+ "; done = 1 }";
           "  { print }";
           "  END { if (!done) for (i = 1; i <= n; i++) print extra[i] }' \";
           "  /run/kamisato-extra-repos.conf /etc/pacman.conf > /run/kamisato-pacman.conf";
           "mv /run/kamisato-pacman.conf /etc/pacman.conf"].

Definition ExtraReposScript (repos : list PacmanRepository) : result config_error string :=
  stanzas ← PacmanRepoStanzas repos;
  if decide (trim_space stanzas = "") then Ok ""
  else Ok (repos_header +:+ stanzas +:+ heredoc_end +:+ nl +:+ repos_awk).

Definition microarchOverride (tier : string) : result config_error string :=
  if decide (tier = "") then Ok "" else
  march ← MicroarchMarch tier;
  mret ("CFLAGS+=" +:+ dq +:+ " -march=" +:+ march +:+ dq +:+ nl +:+ "CXXFLAGS+=" +:+ dq +:+ " -march=" +:+ march +:+ dq +:+ nl
        +:+ "RUSTFLAGS+=" +:+ dq +:+ " -Ctarget-cpu=" +:+ march +:+ dq +:+ nl).

Definition MakepkgOverrideLines (s : MakepkgConfig) : result config_error string :=
  let packager := if decide (Packager s = "") then "" else "PACKAGER=" +:+ Quote (Packager s) +:+ nl in
  march ← microarchOverride (Microarch s);
  let cflags := if decide (CFlagsAppend s = "") then ""
                else "CFLAGS+=" +:+ Quote (" " +:+ CFlagsAppend s) +:+ nl +:+ "CXXFLAGS+=" +:+ Quote (" " +:+ CFlagsAppend s) +:+ nl in
  let options := if decide (Options s = []) then "" else "OPTIONS+=(" +:+ join " " (map Quote (Options s)) +:+ ")" +:+ nl in
  let zst := if decide (CompressZst s = "") then "" else "COMPRESSZST=(" +:+ join " " (map Quote (Fields (CompressZst s))) +:+ ")" +:+ nl in
  mret (packager +:+ march +:+ cflags +:+ options +:+ zst).

End config.

(** ** devtools/chroot_config.go *)
Definition devtoolsDataDir : string := "/usr/share/devtools".

Definition repoFromArchBuild (archBuild : string) : string :=
  let tag := trim_suffix (path_base archBuild) "-build" in
  match cut_last "-" tag with Some (a, _) => a | None => tag end.

Definition mkarchrootArgs (arch pacConf mkConf chrootRoot : string) : list string :=
  ["setarch"; arch; "mkarchroot"; "-C"; pacConf; "-M"; mkConf; chrootRoot; "base-devel"].

Definition makechrootpkgArgs (chrootDir : string) (installPkgs : list string) : list string :=
  ["makechrootpkg"; "-c"; "-r"; chrootDir] ++ concat (map (λ pkg, ["-I"; pkg]) installPkgs)
  ++ ["--"; "--syncdeps"; "--noconfirm"; "--log"; "--holdver"].
