(* ===== verification/BuildConfigSpec.v ===== *)
(** * What the configuration of a build guarantees

    A project file cannot reach what belongs to the operator; and what is written for pacman
    has the lines of the repositories and no others.  For the shell, a reader of the part of
    its grammar that the code writes: words of bare, single and double quoted text, and lines
    that assign a word or an array to a variable or append to it; it reads nothing else, so an
    expansion, an operator or a NUL byte is no text.  It reads what is written for makepkg as
    exactly the assignments configured, whatever bytes they hold. *)

From S2P Require Import Artifact.
From S2P Require Import Catalog.
From S2P Require Import JobRequest.
From S2P Require Import Prelude GoStrings Paths.
From S2P Require Import BuildConfig.

(** ** Runes *)
Lemma within_le lo hi c : within lo hi c = true → (lo <= byte c)%N.
Proof. unfold within. rewrite andb_true_iff, !N.leb_le. tauto. Qed.

Lemma continuation_high c : continuation c = true → (128 <= byte c)%N.
Proof. apply within_le. Qed.

Lemma rune2_high a b : is_rune2 a b = true → (128 <= byte b)%N.
Proof. unfold is_rune2. rewrite andb_true_iff. intros [_ H]. by apply continuation_high. Qed.

Lemma rune3_high a b c : is_rune3 a b c = true → (128 <= byte b)%N ∧ (128 <= byte c)%N.
Proof.
  unfold is_rune3. rewrite !andb_true_iff, !orb_true_iff, !andb_true_iff.
  intros [Hc Hb]. split; [|by apply continuation_high].
  destruct Hb as [[[_ H]|[_ H]]|[_ H]]; apply within_le in H; lia.
Qed.

Lemma rune4_high a b c d : is_rune4 a b c d = true → (128 <= byte b)%N ∧ (128 <= byte c)%N ∧ (128 <= byte d)%N.
Proof.
  unfold is_rune4. rewrite !andb_true_iff, !orb_true_iff, !andb_true_iff.
  intros [[Hc Hd] Hb]. split_and!; [|by apply continuation_high..].
  destruct Hb as [[[_ H]|[_ H]]|[_ H]]; apply within_le in H; lia.
Qed.

(** An ASCII byte of a string is one of its runes. *)
Lemma ascii_runes c s : (byte c < 128)%N → occurs c s = true → byte c ∈ runes s.
Proof.
  intros Hc. induction s as [s IH] using string_length_ind. intros Ho.
  assert (skip : ∀ a t, (128 <= byte a)%N → occurs c (String a t) = true → occurs c t = true).
  { intros a t Ha. simpl. case_bool_decide; [subst; lia|done]. }
  assert (go : ∀ r t, String.length t < String.length s → occurs c t = true → byte c ∈ r :: runes t).
  { intros r t Hl Ht. apply elem_of_cons. right. by apply IH. }
  destruct s as [|a s1]; [done|]. simpl runes. destruct (N.ltb_spec (byte a) 128) as [Ha|Ha].
  - simpl in Ho. case_bool_decide; [subst; set_solver|]. apply go; [simpl; lia|done].
  - pose proof (skip _ _ Ha Ho) as H1. destruct s1 as [|b s2]; [done|].
    destruct (is_rune2 a b) eqn:E2.
    { apply go; [simpl; lia|]. apply rune2_high in E2. by apply skip in H1. }
    destruct s2 as [|c2 s3]; [apply go; [simpl; lia|done]|].
    destruct (is_rune3 a b c2) eqn:E3.
    { apply go; [simpl; lia|]. apply rune3_high in E3 as [? ?]. apply skip in H1; [|done]. by apply skip in H1. }
    destruct s3 as [|d s4]; [apply go; [simpl; lia|done]|].
    destruct (is_rune4 a b c2 d) eqn:E4; [|apply go; [simpl; lia|done]].
    apply go; [simpl; lia|]. apply rune4_high in E4 as (? & ? & ?).
    apply skip in H1; [|done]. apply skip in H1; [|done]. by apply skip in H1.
Qed.

Lemma has_control_false c s : (byte c < 32)%N → has_control s = false → occurs c s = false.
Proof.
  intros Hc Hs. destruct (occurs c s) eqn:E; [|done]. exfalso.
  apply ascii_runes in E; [|lia]. unfold has_control in Hs. rewrite <-not_true_iff_false in Hs.
  apply Hs, existsb_exists. exists (byte c). split; [by apply list_elem_of_In|].
  unfold IsControl. apply N.ltb_lt in Hc. by rewrite Hc.
Qed.

(** ** Repositories *)
Section repositories.
Context `{GoLib}.

Record valid_repository (r : PacmanRepository) : Prop := {
  named : Name r ≠ "";
  served : Server r ≠ "";
  well_named : validRepositoryName (Name r) = true;
  server_printable : has_control (Server r) = false;
  siglevel_printable : has_control (SigLevel r) = false;
}.

Lemma check_repository_Ok i seen r seen' :
  check_repository i seen r = Ok seen' ↔ valid_repository r ∧ (Name r ∉ seen) ∧ seen' = ({[Name r]} : gset string) ∪ seen.
Proof.
  unfold check_repository. split.
  - intros Hc. repeat case_decide; try done; repeat (case_match; [done|]); repeat case_decide; try done;
      simplify_eq. repeat match goal with H : negb _ = false |- _ => apply negb_false_iff in H end. by split_and!.
  - intros ([Hn Hs Hw Hc Hl] & Hi & ->). rewrite (decide_False (P := Name r = "")), (decide_False (P := Server r = "")) by done.
    rewrite Hw, Hc, Hl. simpl. by rewrite decide_False.
Qed.

Lemma validate_from_Ok i seen repos :
  validate_from i seen repos = Ok tt ↔ Forall valid_repository repos ∧ NoDup (map Name repos) ∧ Forall (λ r, Name r ∉ seen) repos.
Proof.
  revert i seen. induction repos as [|r repos IH]; intros i seen.
  - split; [|done]. intros _. split_and!; constructor.
  - cbn [validate_from map]. rewrite bind_Ok. setoid_rewrite check_repository_Ok. setoid_rewrite IH.
    rewrite !Forall_cons, NoDup_cons. split.
    + intros (? & (Hr & Hs & ->) & Hv & Hn & Hs'). split_and!; try done.
      * rewrite Forall_forall in Hs'. intros Hin. apply list_elem_of_fmap in Hin as (r' & Hn' & Hin).
        specialize (Hs' r' Hin). set_solver.
      * eapply Forall_impl; [exact Hs'|]. intros r' Hin. set_solver.
    + intros ([Hr Hv] & [Hn Hn'] & Hs & Hs'). exists ({[Name r]} ∪ seen). split_and!; try done.
      rewrite Forall_forall in Hs' |- *. intros r' Hin. specialize (Hs' r' Hin).
      rewrite not_elem_of_union, not_elem_of_singleton. split; [|done].
      intros E. apply Hn. rewrite <-E. by apply list_elem_of_fmap_2.
Qed.

Lemma ValidateRepositories_spec repos :
  ValidateRepositories repos = Ok tt ↔ Forall valid_repository repos ∧ NoDup (map Name repos).
Proof.
  unfold ValidateRepositories. rewrite validate_from_Ok, (Forall_forall (λ r, Name r ∉ ∅)). set_solver.
Qed.
End repositories.

(** ** Resolution *)
Section resolve.
Context `{GoLib}.

Lemma map_err_Ok {E1 E2 A} (f : E1 → E2) (m : result E1 A) a : map_err f m = Ok a ↔ m = Ok a.
Proof. destruct m; naive_solver. Qed.

(** A resolution succeeds exactly when the host's settings, the overrides and the result pass
    every check, with the configuration they make. *)
Lemma Resolve_accepts host o arch c :
  Resolve host o arch = Ok c ↔
    HostConfig_Validate host = Ok tt ∧ (0 <= o_Timeout o)%Z
    ∧ (Microarch (o_Makepkg o) = "" ∨ arch = "x86_64") ∧ Validate (resolved host o arch) = Ok tt ∧ c = resolved host o arch.
Proof.
  unfold Resolve. rewrite bind_Ok. split.
  - intros ([] & Hh & Hr). cbv zeta in Hr. case_match; [done|]. case_decide; [done|]. case_match; [done|].
    case_decide as Hd; [done|].
    apply bind_Ok in Hr as ([] & _ & Hr). apply bind_Ok in Hr as ([] & Hv & [= <-]). split_and!; try done; [lia|].
    destruct (decide (Microarch (o_Makepkg o) = "")); [by left|right]. apply dec_stable. tauto.
  - intros (Hh & Ht & Hm & Hv & ->). exists tt. split; [done|]. cbv zeta.
    pose proof Hv as Hv'. unfold Validate in Hv. cbn [Backend resolved Makepkg Repositories] in Hv.
    destruct (ValidKind (resolve_backend host)) eqn:Ek; [|done]. simpl in Hv |- *.
    rewrite decide_False by lia. case_decide; [done|]. apply bind_Ok in Hv as ([] & Hrs & Hv). rewrite Hrs. simpl.
    destruct (ValidMicroarch (Microarch (o_Makepkg o))); [|done]. simpl in *.
    rewrite decide_False by tauto. by rewrite Hv'.
Qed.

Lemma Validate_checks c :
  Validate c = Ok tt → ValidKind (Backend c) = true ∧ (0 <= Timeout c)%Z
    ∧ Forall valid_repository (Repositories c) ∧ NoDup (map Name (Repositories c))
    ∧ ValidMicroarch (Microarch (Makepkg c)) = true ∧ check_backend c = Ok tt.
Proof.
  unfold Validate. intros Hv. destruct (ValidKind _) eqn:Ek; [|done]. simpl in Hv. case_decide; [done|].
  apply bind_Ok in Hv as ([] & Hrs & Hv). apply map_err_Ok, ValidateRepositories_spec in Hrs as [? ?].
  destruct (ValidMicroarch _) eqn:Em; [|done]. simpl in Hv. split_and!; [done|lia|done..].
Qed.

Lemma check_backend_container c :
  check_backend c = Ok tt → Backend c = KindContainer → Image (Docker c) ≠ "" ∧ Timeout c ≠ 0%Z.
Proof. unfold check_backend. intros Hc Hb. rewrite decide_True in Hc by done. by repeat case_decide. Qed.

(** What a project can reach.  Whatever a project file says, a resolved configuration has
    the backend, the Docker endpoint, the caches, the root file system and the wrapper of the
    operator; the operator's repositories come first and unchanged, followed by the project's
    repositories for the target architecture, none under the name of another; the tier of the
    processor is one the target has; and the configuration passes the checks of the backend it
    is for: a container has an image and a bounded time. *)
Theorem Resolve_confined {R : RangeOrder} host project o arch c
    (Ho : Overrides project arch = Ok o) (Hr : Resolve host o arch = Ok c) :
  Backend c = resolve_backend host ∧ Bwrap c = h_Bwrap host
  ∧ (Host (Docker c), d_PacmanCacheDir (Docker c), CcacheDir (Docker c))
    = (Host (h_Docker host), d_PacmanCacheDir (h_Docker host), CcacheDir (h_Docker host))
  ∧ ArchBuild (Devtools c) = resolve_archbuild host arch
  ∧ Repositories c = h_Repositories host ++ reposFor project arch
  ∧ Forall valid_repository (Repositories c) ∧ NoDup (map Name (Repositories c))
  ∧ Makepkg c = p_Makepkg project
  ∧ (Microarch (p_Makepkg project) = "" ∨ arch = "x86_64" ∧ Microarch (p_Makepkg project) ∈ microarchLevels.*1)
  ∧ (p_Arches project = ∅ ∨ is_Some (p_Arches project !! arch))
  ∧ Validate c = Ok tt ∧ (0 <= Timeout c)%Z
  ∧ (Backend c = KindContainer → Image (Docker c) ≠ "" ∧ (0 < Timeout c)%Z).
Proof.
  apply Resolve_accepts in Hr as (_ & _ & Hm & Hv & ->).
  pose proof (Validate_checks _ Hv) as (Hk & Ht & Hf & Hn & Hma & Hb).
  assert (Hlive : Backend (resolved host o arch) = KindContainer →
    Image (Docker (resolved host o arch)) ≠ "" ∧ (0 < Timeout (resolved host o arch))%Z).
  { intros Hc. destruct (check_backend_container _ Hb Hc). split; [done|lia]. }
  unfold Overrides in Ho. case_decide as Ha; [done|]. simplify_result.
  unfold ValidMicroarch in Hma. rewrite bool_decide_eq_true in Hma. cbn [Makepkg resolved o_Makepkg] in *.
  split_and!; try done.
  - destruct Hma as [->|Hma]; [by left|]. destruct Hm as [->| ->]; [by left|by right].
  - destruct (decide (p_Arches project = ∅)) as [->|Hne]; [by left|right].
    destruct (p_Arches project !! arch) eqn:E; [by eexists|]. exfalso. by apply Ha.
Qed.

(** The timeout of a run: the project's for the architecture, else the project's, else the
    operator's, and half an hour for a container that none bounds. *)
Lemma Overrides_timeout {R : RangeOrder} project arch o :
  Overrides project arch = Ok o →
  let own := from_option arch_Timeout "" (p_Arches project !! arch) in
  parse_timeout (if decide (own = "") then p_Timeout project else own) = Ok (o_Timeout o).
Proof. unfold Overrides. intros Ho. case_decide; [done|]. by simplify_result. Qed.

(** Every repository is checked, those of other architectures too. *)
Lemma Overrides_checks_all {R : RangeOrder} project arch o :
  Overrides project arch = Ok o → Forall valid_repository (p_Repos project) ∧ NoDup (map Name (p_Repos project)).
Proof.
  unfold Overrides. intros Ho. case_decide; [done|]. simplify_result. destruct x.
  apply map_err_Ok in H1. by apply ValidateRepositories_spec.
Qed.

(** The names of the architectures do not depend on the order of the map. *)
Lemma ArchNames_order (R1 R2 : RangeOrder) project : @ArchNames R1 project = @ArchNames R2 project.
Proof.
  unfold ArchNames. apply sort_strings_Proper.
  assert (keys : ∀ R : RangeOrder, map fst (range_map (p_Arches project)) ≡ₚ elements (dom (p_Arches project))).
  { intros R. unfold range_map. rewrite <-(range_keys_perm (dom (p_Arches project))).
    assert (sub : ∀ l, l ⊆ range_keys (dom (p_Arches project)) →
      map fst (omap (λ k, (k,.) <$> p_Arches project !! k) l) = l).
    { induction l as [|k l IH]; intros Hl; [done|]. simpl.
      assert (k ∈ dom (p_Arches project)) as [x Hx]%elem_of_dom.
      { rewrite <-(elem_of_elements (C := gset string)), <-range_keys_perm. set_solver. }
      rewrite Hx. simpl. f_equal. apply IH. set_solver. }
    by rewrite sub. }
  by rewrite (keys R1), (keys R2).
Qed.

(** A host configuration survives its JSON, when the library reads the durations it writes. *)
Lemma Unmarshal_Marshal host :
  (∀ d, ParseDuration (duration_String d) = Some d) → (∀ d, duration_String d ≠ "") →
  UnmarshalJSON (MarshalJSON host) = Ok host.
Proof.
  intros Hp Hn. destruct host as [b t r d w v]. unfold UnmarshalJSON, MarshalJSON. cbn.
  destruct (decide (t = 0%Z)) as [->|Ht]; [done|]. rewrite decide_False by apply Hn. by rewrite Hp.
Qed.
End resolve.

(** ** The text written for pacman *)
Definition stanza_lines (r : PacmanRepository) : list string :=
  [""; "[" +:+ Name r +:+ "]"; "SigLevel = " +:+ sig_level r; "Server = " +:+ Server r].

Definition awk_lines : list string := split_char newline repos_awk.

Section stanzas.
Context `{GoLib}.

Lemma name_no_control r : (r < 32)%N → name_rune r = false.
Proof.
  intros Hr. unfold name_rune, IsLetterOrDigit. rewrite (proj2 (N.ltb_lt r 128)) by lia.
  unfold ascii_letter_or_digit. rewrite !(proj2 (N.leb_gt _ r)) by lia. simpl.
  apply bool_decide_eq_false_2. cbn. rewrite !elem_of_cons, elem_of_nil. lia.
Qed.

Lemma valid_name_no_control c name : (byte c < 32)%N → validRepositoryName name = true → occurs c name = false.
Proof.
  intros Hc Hn. destruct (occurs c name) eqn:E; [|done]. exfalso. apply ascii_runes in E; [|lia].
  unfold validRepositoryName in Hn. apply andb_true_iff in Hn as [Hn _]. rewrite forallb_forall in Hn.
  specialize (Hn (byte c)). rewrite name_no_control in Hn by done. discriminate Hn. by apply list_elem_of_In.
Qed.

Lemma stanza_unlines r : stanza r = unlines (stanza_lines r).
Proof. unfold stanza, stanza_lines, unlines, nl. simpl. by rewrite <-!str_app_assoc. Qed.

Lemma stanzas_unlines repos : concat_strings (map stanza repos) = unlines (concat (map stanza_lines repos)).
Proof.
  unfold concat_strings. induction repos as [|r repos IH]; [done|].
  cbn [map concat]. rewrite unlines_app, <-IH, <-stanza_unlines.
  destruct repos; simpl; by rewrite ?str_app_nil_r.
Qed.

(** The lines of a valid repository hold no line break, and none ends the here-document. *)
Lemma stanza_lines_plain r :
  valid_repository r → Forall (λ l, occurs newline l = false ∧ l ≠ heredoc_end) (stanza_lines r).
Proof.
  intros [Hn Hs Hw Hc Hl]. assert (Hnl : (byte newline < 32)%N) by done.
  pose proof (has_control_false _ _ Hnl Hc) as Hc'. pose proof (has_control_false _ _ Hnl Hl) as Hl'.
  pose proof (valid_name_no_control _ _ Hnl Hw) as Hn'.
  unfold stanza_lines, sig_level. repeat constructor; try done; rewrite ?occurs_app, ?Hc', ?Hn'; try done.
  by case_decide; rewrite ?Hl'.
Qed.

Lemma PacmanRepoStanzas_Ok repos text :
  PacmanRepoStanzas repos = Ok text → Forall valid_repository repos ∧ NoDup (map Name repos)
    ∧ text = unlines (concat (map stanza_lines repos)).
Proof.
  unfold PacmanRepoStanzas. intros Hp. apply bind_Ok in Hp as ([] & Hv & [= <-]).
  apply ValidateRepositories_spec in Hv as [? ?]. by rewrite stanzas_unlines.
Qed.

Lemma stanzas_plain repos :
  Forall valid_repository repos → Forall (λ l, occurs newline l = false ∧ l ≠ heredoc_end) (concat (map stanza_lines repos)).
Proof. induction 1; [constructor|]. cbn [map concat]. apply Forall_app_2; [by apply stanza_lines_plain|done]. Qed.

Lemma split_unlines_app ls t :
  Forall (λ l, occurs newline l = false) ls → split_char newline (unlines ls +:+ t) = ls ++ split_char newline t.
Proof.
  induction 1 as [|l ls Hl Hf IH]; [done|]. unfold unlines in *. simpl. rewrite <-str_app_assoc, str_app_cons.
  rewrite split_char_app by done. by rewrite IH.
Qed.

(** A text with a line that opens a section is not blank. *)
Lemma trim_section t : trim_space (String newline (String "[" t)) ≠ "".
Proof.
  unfold trim_space. change (trim_left (String newline (String "[" t))) with (trim_left (String "[" t)).
  assert (Hs : starts_space (String "[" t) = false) by (destruct t as [|b [|c t]]; done).
  rewrite trim_left_id by done. intros Ht. destruct (trim_right_suffix (String "[" t)) as (q & Hq & Ha).
  rewrite Ht in Hq. simpl in Hq. subst q. by destruct t as [|b [|c t]].
Qed.

(** Whatever an accepted repository holds, the script that is run in the build
    environment has exactly these lines: the header of the here-document, four lines for each
    repository in order (its section, level and server), the end of the here-document, which
    is none of them, and the command that puts them in front of the distribution's sections. *)
Theorem ExtraReposScript_lines repos script (Hr : repos ≠ []) (Hs : ExtraReposScript repos = Ok script) :
  split_char newline script
    = trim_suffix repos_header nl :: concat (map stanza_lines repos) ++ heredoc_end :: awk_lines
  ∧ (heredoc_end ∉ concat (map stanza_lines repos))
  ∧ Forall valid_repository repos ∧ NoDup (map Name repos).
Proof.
  unfold ExtraReposScript in Hs. apply bind_Ok in Hs as (text & Ht & Hs).
  apply PacmanRepoStanzas_Ok in Ht as (Hv & Hn & ->). pose proof (stanzas_plain _ Hv) as Hp.
  destruct repos as [|r repos]; [done|]. rewrite decide_False in Hs
    by (cbn [map concat stanza_lines app]; unfold unlines; cbn [foldr]; apply trim_section).
  apply (inj Ok) in Hs as <-. split_and!; [|intros Hi; rewrite Forall_forall in Hp; by apply Hp in Hi as [_ Hi]|done..].
  assert (E : ∀ ls, repos_header +:+ unlines ls +:+ heredoc_end +:+ nl +:+ repos_awk
    = unlines (trim_suffix repos_header nl :: ls ++ [heredoc_end]) +:+ repos_awk).
  { intros ls. set (hl := trim_suffix repos_header nl). change repos_header with (hl +:+ nl). rewrite app_comm_cons, unlines_app.
    change (unlines (?a :: ls)) with (a +:+ (nl +:+ unlines ls)). change (unlines [heredoc_end]) with (heredoc_end +:+ nl).
    generalize hl nl heredoc_end (unlines ls) repos_awk. intros. by rewrite <-!str_app_assoc. }
  rewrite E, split_unlines_app; [cbn [app]; rewrite <-app_assoc; reflexivity|].
  constructor; [done|]. apply Forall_app_2; [|by repeat constructor]. eapply Forall_impl; [exact Hp|]. by intros l [? _].
Qed.
End stanzas.

(** ** What the shell reads of the text written for it *)

(** ** The reader *)
Inductive quoting := Bare | Single | Double.

Definition single_quote : ascii := "'".
Definition double_quote : ascii := "034".
Definition backslash : ascii := "\".
Definition nul : ascii := "000".

(** The bytes a bare word is made of, and those that end it. *)
Definition bare_byte (c : ascii) : bool := alphanumeric c || occurs c "_-./:+,@%".
Definition ends_word (c : ascii) : bool := bool_decide (c = " "%char) || bool_decide (c = newline) || bool_decide (c = ")"%char).

Definition cons_byte (c : ascii) (r : option (string * string)) : option (string * string) :=
  (λ '(w, rest), (String c w, rest)) <$> r.

(** A word and what follows it. *)
Fixpoint sh_word (q : quoting) (s : string) : option (string * string) :=
  match s with
  | "" => match q with Bare => Some ("", "") | _ => None end
  | String c s' =>
      match q with
      | Bare =>
          if decide (c = single_quote) then sh_word Single s'
          else if decide (c = double_quote) then sh_word Double s'
          else if decide (c = backslash) then
            match s' with
            | String d s'' => if decide (d = newline ∨ d = nul) then None else cons_byte d (sh_word Bare s'')
            | "" => None
            end
          else if ends_word c then Some ("", s)
          else if bare_byte c then cons_byte c (sh_word Bare s') else None
      | Single =>
          if decide (c = single_quote) then sh_word Bare s'
          else if decide (c = nul) then None else cons_byte c (sh_word Single s')
      | Double =>
          if decide (c = double_quote) then sh_word Bare s'
          else if bare_byte c || ends_word c || bool_decide (c = "="%char) then cons_byte c (sh_word Double s') else None
      end
  end.

(** The words up to the closing parenthesis, one blank between two. *)
Fixpoint sh_words (fuel : nat) (s : string) : option (list string * string) :=
  match fuel with
  | O => None
  | S fuel =>
      match sh_word Bare s with
      | Some (w, String c rest) =>
          if decide (c = ")"%char) then Some ([w], rest)
          else if decide (c = " "%char) then (λ '(ws, rest), (w :: ws, rest)) <$> sh_words fuel rest else None
      | _ => None
      end
  end.

Definition sh_array (s : string) : option (list string * string) :=
  match s with
  | String c rest => if decide (c = ")"%char) then Some ([], rest) else sh_words (String.length s) s
  | "" => None
  end.

Inductive sh_value := Scalar (w : string) | Array (ws : list string).
Record assignment := assign { variable : string; append : bool; value : sh_value }.

(** The name of a variable and what follows it. *)
Fixpoint sh_name (s : string) : string * string :=
  match s with
  | String c s' => if alphanumeric c then let '(n, rest) := sh_name s' in (String c n, rest) else ("", s)
  | "" => ("", "")
  end.

Definition sh_value_of (s : string) : option (sh_value * string) :=
  match strip_prefix "(" s with
  | Some s => (λ '(ws, rest), (Array ws, rest)) <$> sh_array s
  | None => (λ '(w, rest), (Scalar w, rest)) <$> sh_word Bare s
  end.

(** One line. *)
Definition sh_assignment (s : string) : option (assignment * string) :=
  let '(n, rest) := sh_name s in
  let '(app, body) :=
    match strip_prefix "+=" rest with Some b => (true, Some b) | None => (false, strip_prefix "=" rest) end in
  match body with
  | Some b =>
      match sh_value_of b with
      | Some (v, rest) => (λ rest, (assign n app v, rest)) <$> strip_prefix nl rest
      | None => None
      end
  | None => None
  end.

Fixpoint sh_lines (fuel : nat) (s : string) : option (list assignment) :=
  match fuel with
  | O => None
  | S fuel =>
      if decide (s = "") then Some [] else
      match sh_assignment s with
      | Some (a, rest) => (a ::.) <$> sh_lines fuel rest
      | None => None
      end
  end.
Definition sh_script (s : string) : option (list assignment) := sh_lines (S (String.length s)) s.

(** ** Quoting *)

(** [Quote] without its outer quotes, byte by byte. *)
Fixpoint quoted (s : string) : string :=
  match s with
  | "" => ""
  | String c s => if decide (c = single_quote) then "'\''" +:+ quoted s else String c (quoted s)
  end.

Lemma replace_all_quoted n s : String.length s ≤ n → replace_all_fuel n s "'" "'\''" = quoted s.
Proof.
  revert s. induction n as [|n IH]; intros s Hn; [by destruct s; [|simpl in Hn; lia]|].
  cbn [replace_all_fuel]. destruct (cut "'" s) as [[a b]|] eqn:Ec.
  - apply cut_char_Some in Ec as [-> Ha]. rewrite IH by (rewrite length_str_app in Hn; simpl in Hn; lia). clear Hn.
    induction a as [|c a IHa]; [done|]. simpl in Ha. apply orb_false_iff in Ha as [Hc%bool_decide_eq_false Ha].
    simpl. rewrite decide_False by (intros ->; done). by rewrite <-IHa.
  - apply cut_char_None in Ec. clear IH Hn. induction s as [|c s IHs]; [done|]. simpl in Ec.
    apply orb_false_iff in Ec as [Hc%bool_decide_eq_false Ec]. simpl.
    rewrite decide_False by (intros ->; done). by rewrite <-IHs.
Qed.

Lemma Quote_quoted s : Quote s = String single_quote (quoted s +:+ "'").
Proof. unfold Quote, ReplaceAll. by rewrite replace_all_quoted. Qed.

Definition no_nul (s : string) : bool := negb (occurs nul s).

(** What follows a word that is complete. *)
Definition word_ends (s : string) : bool := match s with "" => true | String c _ => ends_word c end.

Lemma sh_word_end s : word_ends s = true → sh_word Bare s = Some ("", s).
Proof.
  destruct s as [|c s]; [done|]. simpl. intros Hc.
  rewrite !decide_False by (intros ->; done). by rewrite Hc.
Qed.

Lemma sh_word_quoted s rest :
  no_nul s = true → word_ends rest = true → sh_word Single (quoted s +:+ String single_quote rest) = Some (s, rest).
Proof.
  unfold no_nul. rewrite negb_true_iff. intros Hs Hr. induction s as [|c s IH].
  - simpl. by apply sh_word_end.
  - simpl in Hs. apply orb_false_iff in Hs as [Hc%bool_decide_eq_false Hs]. simpl. case_decide as Hq.
    + subst c. change (("'\''" +:+ quoted s) +:+ ?t) with (String "'" (String "\" (String "'" (String "'" (quoted s +:+ t))))).
      cbn. rewrite IH by done. done.
    + cbn. rewrite decide_False by done. rewrite decide_False by done. by rewrite IH.
Qed.

(** A quoted text is read as one word, the text. *)
Lemma sh_word_Quote s rest :
  no_nul s = true → word_ends rest = true → sh_word Bare (Quote s +:+ rest) = Some (s, rest).
Proof.
  intros Hs Hr. rewrite Quote_quoted. cbn. rewrite <-str_app_assoc. by apply sh_word_quoted.
Qed.

Lemma sh_words_Quote l rest fuel :
  l ≠ [] → Forall (λ s, no_nul s = true) l → length l ≤ fuel →
  sh_words fuel (join " " (map Quote l) +:+ String ")" rest) = Some (l, rest).
Proof.
  intros Hn Hl. revert fuel. induction Hl as [|s l Hs Hl IH]; intros fuel Hf; [done|].
  destruct fuel as [|fuel]; [simpl in Hf; lia|]. cbn [sh_words map]. destruct l as [|s' l].
  - change (join " " (Quote s :: map Quote [])) with (Quote s). by rewrite sh_word_Quote.
  - change (join " " (Quote s :: map Quote (s' :: l))) with (Quote s +:+ " " +:+ join " " (map Quote (s' :: l))).
    rewrite <-!str_app_assoc, sh_word_Quote by done. change (" " +:+ ?t) with (String " " t). cbv iota beta.
    rewrite decide_False, decide_True by done. rewrite IH; [done..|simpl in *; lia].
Qed.

Lemma length_join_Quote l : length l ≤ String.length (join " " (map Quote l)).
Proof.
  induction l as [|s l IH]; [done|]. destruct l as [|s' l]; [change (join " " (map Quote [s])) with (Quote s); rewrite Quote_quoted; simpl; lia|].
  change (join " " (map Quote (s :: s' :: l))) with (Quote s +:+ " " +:+ join " " (map Quote (s' :: l))).
  rewrite !length_str_app. cbn [length] in *. simpl (String.length " "). lia.
Qed.

Lemma sh_array_Quote l rest :
  Forall (λ s, no_nul s = true) l → sh_array (join " " (map Quote l) +:+ String ")" rest) = Some (l, rest).
Proof.
  intros Hl. destruct l as [|s l]; [done|].
  rewrite <-(sh_words_Quote (s :: l) rest (String.length (join " " (map Quote (s :: l)) +:+ String ")" rest))); [|done..|].
  - assert (∃ t, join " " (map Quote (s :: l)) +:+ String ")" rest = String single_quote t) as [t ->]; [|done].
    destruct l; cbn [map join]; rewrite Quote_quoted; by eexists.
  - rewrite length_str_app. pose proof (length_join_Quote (s :: l)). lia.
Qed.

(** ** Scripts as blocks of lines *)

(** A text is read as [l], whatever fuel covers the lines. *)
Definition reads (s : string) (l : list assignment) : Prop :=
  length l ≤ String.length s ∧ ∀ fuel, length l < fuel → sh_lines fuel s = Some l.

Definition block (b : string) (l : list assignment) : Prop := ∀ rest k, reads rest k → reads (b +:+ rest) (l ++ k).

Lemma reads_nil : reads "" [].
Proof. split; [done|]. by intros [|fuel]; [lia|]. Qed.

Lemma block_nil : block "" [].
Proof. by intros rest k. Qed.

Lemma block_app b1 b2 l1 l2 : block b1 l1 → block b2 l2 → block (b1 +:+ b2) (l1 ++ l2).
Proof. intros H1 H2 rest k Hk. rewrite <-str_app_assoc, <-app_assoc. by apply H1, H2. Qed.

Lemma block_line b a : b ≠ "" → (∀ rest, sh_assignment (b +:+ rest) = Some (a, rest)) → block b [a].
Proof.
  intros Hb Ha rest k [Hlen Hk]. split.
  - rewrite length_str_app. destruct b; [done|]. simpl in *. lia.
  - intros [|fuel] Hf; [lia|]. cbn [sh_lines]. rewrite decide_False by (by destruct b). rewrite Ha.
    rewrite Hk by (simpl in Hf; lia). done.
Qed.

Lemma block_if {P : Prop} `{Decision P} b l : block b l → block (if decide P then "" else b) (if decide P then [] else l).
Proof. intros Hb. case_decide; [apply block_nil|done]. Qed.

Lemma block_script b l : block b l → sh_script b = Some l.
Proof.
  intros Hb. destruct (Hb "" [] reads_nil) as [Hlen Hr]. rewrite str_app_nil_r, app_nil_r in *.
  apply Hr. lia.
Qed.

(** The name of a variable, before the sign. *)
Lemma sh_name_app n c rest : all_bytes alphanumeric n = true → alphanumeric c = false → sh_name (n +:+ String c rest) = (n, String c rest).
Proof.
  intros Hn Hc. induction n as [|d n IH]; simpl in *; [by rewrite Hc|].
  apply andb_true_iff in Hn as [-> Hn]. by rewrite IH.
Qed.

Definition sign (append : bool) : string := if append then "+=" else "=".

(** The text of a block, associated and joined in another way. *)
Ltac block_eq H :=
  match type of H with
  | block ?b _ => replace (_ +:+ _) with b; [exact H|cbv [nl dq sign]; simpl; by rewrite <-?str_app_assoc]
  end.

Lemma sh_assignment_app n (a : bool) v body rest :
  all_bytes alphanumeric n = true → sh_value_of (body +:+ nl +:+ rest) = Some (v, nl +:+ rest) →
  sh_assignment ((n +:+ sign a +:+ body +:+ nl) +:+ rest) = Some (assign n a v, rest).
Proof.
  intros Hn Hv. unfold sh_assignment. rewrite <-!str_app_assoc. set (t := body +:+ nl +:+ rest) in *. clearbody t.
  assert (E1 : strip_prefix "+=" (String "+" (String "=" t)) = Some t) by done.
  assert (E2 : strip_prefix "+=" (String "=" t) = None) by done.
  assert (E3 : strip_prefix "=" (String "=" t) = Some t) by done.
  assert (E4 : strip_prefix nl (nl +:+ rest) = Some rest) by done.
  destruct a; cbn [sign]; [change ("+=" +:+ t) with (String "+" (String "=" t))|change ("=" +:+ t) with (String "=" t)];
    rewrite sh_name_app by done; rewrite ?E1, ?E2, ?E3, Hv, E4; done.
Qed.

Lemma block_scalar n a s :
  all_bytes alphanumeric n = true → no_nul s = true → block (n +:+ sign a +:+ Quote s +:+ nl) [assign n a (Scalar s)].
Proof.
  intros Hn Hs. apply block_line; [by destruct n, a|]. intros rest. apply sh_assignment_app; [done|].
  unfold sh_value_of. assert (E : strip_prefix "(" (Quote s +:+ nl +:+ rest) = None) by (by rewrite Quote_quoted).
  rewrite E. by rewrite sh_word_Quote.
Qed.

Lemma block_array n a l :
  all_bytes alphanumeric n = true → Forall (λ s, no_nul s = true) l →
  block (n +:+ sign a +:+ ("(" +:+ join " " (map Quote l) +:+ ")") +:+ nl) [assign n a (Array l)].
Proof.
  intros Hn Hl. apply block_line; [by destruct n, a|]. intros rest. apply sh_assignment_app; [done|].
  unfold sh_value_of. cbn [String.append strip_prefix]. rewrite decide_True by done. rewrite <-!str_app_assoc.
  change (")" +:+ nl +:+ rest) with (String ")" (nl +:+ rest)). by rewrite sh_array_Quote.
Qed.

Definition double_byte (c : ascii) : bool := bare_byte c || ends_word c || bool_decide (c = "="%char).

Lemma sh_word_double w rest :
  all_bytes double_byte w = true → word_ends rest = true → sh_word Double (w +:+ String double_quote rest) = Some (w, rest).
Proof.
  intros Hw Hr. induction w as [|c w IH].
  - simpl. by apply sh_word_end.
  - simpl in Hw. apply andb_true_iff in Hw as [Hc Hw]. cbn. rewrite decide_False by (intros ->; done).
    unfold double_byte in Hc. rewrite Hc. by rewrite IH.
Qed.

Lemma block_double n a w :
  all_bytes alphanumeric n = true → all_bytes double_byte w = true →
  block (n +:+ sign a +:+ (dq +:+ w +:+ dq) +:+ nl) [assign n a (Scalar w)].
Proof.
  intros Hn Hw. apply block_line; [by destruct n, a|]. intros rest. apply sh_assignment_app; [done|].
  unfold sh_value_of. rewrite <-!str_app_assoc.
  change (dq +:+ w +:+ dq +:+ nl +:+ rest) with (String double_quote (w +:+ String double_quote (nl +:+ rest))).
  assert (E1 : ∀ t, strip_prefix "(" (String double_quote t) = None) by done.
  assert (E2 : ∀ t, sh_word Bare (String double_quote t) = sh_word Double t) by done.
  by rewrite E1, E2, sh_word_double.
Qed.

(** ** makepkg's overrides *)

(** What a configuration assigns; [march] is the level of its tier. *)
Definition assignments (c : MakepkgConfig) (march : string) : list assignment :=
  (if decide (Packager c = "") then [] else [assign "PACKAGER" false (Scalar (Packager c))])
  ++ (if decide (Microarch c = "") then [] else
        [assign "CFLAGS" true (Scalar (" -march=" +:+ march)); assign "CXXFLAGS" true (Scalar (" -march=" +:+ march));
         assign "RUSTFLAGS" true (Scalar (" -Ctarget-cpu=" +:+ march))])
  ++ (if decide (CFlagsAppend c = "") then [] else
        [assign "CFLAGS" true (Scalar (" " +:+ CFlagsAppend c)); assign "CXXFLAGS" true (Scalar (" " +:+ CFlagsAppend c))])
  ++ (if decide (Options c = []) then [] else [assign "OPTIONS" true (Array (Options c))])
  ++ (if decide (CompressZst c = "") then [] else [assign "COMPRESSZST" false (Array (Fields (CompressZst c)))]).

(** No text of the configuration holds a NUL byte, which no file of the shell can. *)
Definition nul_free (c : MakepkgConfig) : bool :=
  no_nul (Packager c) && no_nul (CFlagsAppend c) && forallb no_nul (Options c) && no_nul (CompressZst c).

Lemma fields_occurs c cur s :
  occurs c cur = false → occurs c s = false → Forall (λ f, occurs c f = false) (fields_from cur s).
Proof.
  revert cur. induction s as [s IH] using string_length_ind. intros cur Hcur Hs.
  assert (flush : ∀ l, Forall (λ f, occurs c f = false) l →
    Forall (λ f, occurs c f = false) ((if decide (cur = "") then [] else [cur]) ++ l)).
  { intros l Hl. case_decide; [done|]. by constructor. }
  assert (more : ∀ a t, occurs c (String a t) = false → occurs c t = false ∧ occurs c (cur +:+ String a "") = false).
  { intros a t. simpl. rewrite occurs_app. simpl. rewrite orb_false_iff. intros [-> ->]. by rewrite Hcur. }
  destruct s as [|a s1]; [by specialize (flush [] ltac:(constructor)); rewrite app_nil_r in flush|].
  pose proof (more _ _ Hs) as [H1 Hca]. simpl fields_from.
  destruct (Ascii.is_space a); [apply flush, IH; simpl; [lia|done..]|].
  destruct s1 as [|b s2]; [apply IH; simpl; [lia|done..]|].
  pose proof (more _ _ H1) as [H2 _]. destruct (is_space2 a b); [apply flush, IH; simpl; [lia|done..]|].
  destruct s2 as [|d s3]; [apply IH; simpl; [lia|done..]|].
  pose proof (more _ _ H2) as [H3 _]. destruct (is_space3 a b d); [apply flush, IH; simpl; [lia|done..]|].
  apply IH; simpl; [lia|done..].
Qed.

Section overrides.
Context `{GoLib}.

Lemma MicroarchMarch_level tier march :
  MicroarchMarch tier = Ok march → tier ≠ "" → (tier, march) ∈ microarchLevels.
Proof.
  unfold MicroarchMarch. intros Hm Ht. rewrite decide_False in Hm by done.
  destruct (list_find _ _) as [[i [t m]]|] eqn:E; simpl in Hm; [|done].
  apply list_find_Some in E as (Hi & Hp & _). simpl in Hp. simplify_eq. by apply list_elem_of_lookup_2 in Hi.
Qed.

Lemma block_microarch tier march text :
  MicroarchMarch tier = Ok march → microarchOverride tier = Ok text → block text
    (if decide (tier = "") then [] else
        [assign "CFLAGS" true (Scalar (" -march=" +:+ march)); assign "CXXFLAGS" true (Scalar (" -march=" +:+ march));
         assign "RUSTFLAGS" true (Scalar (" -Ctarget-cpu=" +:+ march))]).
Proof.
  unfold microarchOverride. intros Hm Ht. case_decide as Hn; [apply (inj Ok) in Ht as <-; apply block_nil|].
  rewrite Hm in Ht. apply (inj Ok) in Ht as <-. apply MicroarchMarch_level in Hm; [|done].
  assert (Hd : all_bytes double_byte march = true).
  { unfold microarchLevels in Hm. rewrite !elem_of_cons in Hm. destruct Hm as [|[|[|Hm]]]; simplify_eq; try done. by inv Hm. }
  pose proof (block_app _ _ _ _ (block_double "CFLAGS" true (" -march=" +:+ march) eq_refl Hd)
    (block_app _ _ _ _ (block_double "CXXFLAGS" true (" -march=" +:+ march) eq_refl Hd)
      (block_double "RUSTFLAGS" true (" -Ctarget-cpu=" +:+ march) eq_refl Hd))) as Hb.
  by block_eq Hb.
Qed.

(** C40. Whatever texts a project configures for makepkg, the shell reads what is written for it
    as exactly the assignments configured and nothing else: no text ends its quotes, starts a
    command or is expanded.  A tier of the processor is written when it is known, and only
    then is anything written. *)
Theorem override_read c text (Hn : nul_free c = true) (Ht : MakepkgOverrideLines c = Ok text) :
  ∃ march, MicroarchMarch (Microarch c) = Ok march ∧ sh_script text = Some (assignments c march).
Proof.
  unfold nul_free in Hn. rewrite !andb_true_iff, forallb_forall in Hn. destruct Hn as (((Hp & Hc) & Ho) & Hz).
  assert (Ho' : Forall (λ s, no_nul s = true) (Options c)) by (apply Forall_forall; intros s Hs; by apply Ho, list_elem_of_In).
  assert (Hz' : Forall (λ s, no_nul s = true) (Fields (CompressZst c))).
  { unfold no_nul in *. apply negb_true_iff in Hz. eapply Forall_impl; [by apply fields_occurs|]. simpl. by intros ? ->. }
  unfold MakepkgOverrideLines in Ht. apply bind_Ok in Ht as (m & Hm & Ht). apply (inj Ok) in Ht as <-.
  assert (∃ march, MicroarchMarch (Microarch c) = Ok march) as [march Hma].
  { unfold microarchOverride in Hm. case_decide as Hd; [rewrite Hd; by eexists|]. by apply bind_Ok in Hm as (march & ? & _); eexists. }
  exists march. split; [done|]. apply block_script. unfold assignments.
  apply block_app; [|apply block_app; [by apply block_microarch|apply block_app; [|apply block_app]]]; apply block_if.
  - by apply (block_scalar "PACKAGER" false).
  - assert (Hc' : no_nul (" " +:+ CFlagsAppend c) = true) by done.
    pose proof (block_app _ _ _ _ (block_scalar "CFLAGS" true _ eq_refl Hc') (block_scalar "CXXFLAGS" true _ eq_refl Hc')) as Hb.
    by block_eq Hb.
  - pose proof (block_array "OPTIONS" true _ eq_refl Ho') as Hb. by block_eq Hb.
  - pose proof (block_array "COMPRESSZST" false _ eq_refl Hz') as Hb. by block_eq Hb.
Qed.
End overrides.
