(* ===== verification/BuildBackends.v ===== *)
(** * The build backends (internal/pacman/builder: artifact, docker, bwrap, devtools, factory)

    A build is a program over a log of calls to the file system, to the Docker daemon and to
    the commands it runs; whatever is called may answer anything, and differently each time.
    The scripts that run inside a container or a sandbox are arbitrary texts. *)

From S2P Require Import Catalog.
From S2P Require Import JobRequest.
From S2P Require Import Prelude GoStrings Paths.
From S2P Require Import Artifact.
From S2P Require Import BuildConfig.

(** ** Programs *)

(** A failed build: the package itself does not build ([ErrBuildFailed]), or something else
    failed, in the words of the code. *)
Inductive build_error := ErrBuildFailed (message : string) | Failed (message : string) | Invalid (e : config_error).

Record os_FileInfo := mk_os_FileInfo { file_id : Z; Size : Z; ModTime : Z; regular : bool; is_dir : bool }.
#[export] Instance os_FileInfo_eq_dec : EqDecision os_FileInfo.
Proof. solve_decision. Defined.

(** How a command ends: whether the context was done by then, and whether the error of a
    command that failed is its exit status. *)
Inductive ran := Ran | NotRan (ctx_done exit_status : bool).

(** What waiting for a container delivers first. *)
Inductive waited := WaitDone | WaitError (failed : bool) | WaitStatus (code : Z).

Record Mount := mkMount { Source : string; MountTarget : string; ReadOnly : bool }.
Record Platform := mkPlatform { OS : string; Architecture : string; Variant : string }.
Record ContainerConfig := mkContainerConfig {
  c_Image : string; Cmd : list string; Env : list string; WorkingDir : string; User : string; Mounts : list Mount; c_Platform : Platform
}.

Inductive fs_error := FsNotExist | FsFailed.

(** The calls, by what they answer. *)
Inductive op : Type → Type :=
| ReadDir (dir : string) : op (result fs_error (list (string * bool)))
| Info (dir name : string) : op (result fs_error os_FileInfo)
| Stat (path : string) : op (result fs_error os_FileInfo)
| Lstat (path : string) : op (result fs_error os_FileInfo)
| ReadFile (path : string) : op (result fs_error string)
| MkdirAll (path : string) : op (result fs_error unit)
| Mkdir (path : string) : op (result fs_error unit)
| MkdirTemp (dir pattern : string) : op (result fs_error string)
| Chmod (path : string) : op (result fs_error unit)
| RemoveAll (path : string) : op (result fs_error unit)
| CreateTemp (dir pattern : string) : op (result fs_error string)
| WriteString (path content : string) : op (result fs_error unit)
| CloseFile (path : string) : op (result fs_error unit)
| Remove (path : string) : op (result fs_error unit)
| SafeRemove (path : string) : op (result fs_error unit)
| Rename (src dst : string) : op (result fs_error unit)
| SyncDirectory (dir : string) : op (result fs_error unit)
| CopyFile (src dst : string) : op (result fs_error unit)
| LookPath (name : string) : op (result fs_error unit)
| Getenv (name : string) : op string
| Run (dir : string) (args : list string) : op ran
| NewClient (host : string) : op (result fs_error unit)
| CloseClient : op unit
| ImagePull (ref platform : string) : op (result fs_error unit)
| DrainPull : op (result fs_error unit)
| ImageInspect (ref : string) : op (result fs_error (list string))
| ContainerCreate (config : ContainerConfig) : op (result fs_error string)
| ContainerStart (id : string) : op (result fs_error unit)
| ContainerLogs (id : string) : op (result fs_error unit)
| ContainerWait (id : string) : op waited
| ContainerStop (id : string) : op (result fs_error unit)
| ContainerRemove (id : string) : op (result fs_error unit)
| PinImage (pinned digest : string) : op unit.

Inductive event :=
| Ev {T : Type} (o : op T) (r : T).

Class World := answer : ∀ T, list event → op T → T.

Definition Prog (A : Type) : Type := list event → result build_error A * list event.
#[export] Instance Prog_ret : MRet Prog := λ A a h, (Ok a, h).
#[export] Instance Prog_bind : MBind Prog := λ A B f m h, match m h with (Ok a, h) => f a h | (Err e, h) => (Err e, h) end.

Definition fail {A} (e : build_error) : Prog A := λ h, (Err e, h).
Definition lift {A} (r : result build_error A) : Prog A := λ h, (r, h).

(** [defer f()]: [f] is called when the body has ended, however it ended. *)
Definition defer {A B} (cleanup : Prog B) (body : Prog A) : Prog A := λ h, let '(r, h) := body h in (r, (cleanup h).2).

Fixpoint map_prog {A B} (f : A → Prog B) (l : list A) : Prog (list B) :=
  match l with [] => mret [] | a :: l => b ← f a; bs ← map_prog f l; mret (b :: bs) end.
Fixpoint for_each {A} (f : A → Prog unit) (l : list A) : Prog unit :=
  match l with [] => mret tt | a :: l => _ ← f a; for_each f l end.

Section backends.
Context {G : GoLib} {W : World} (cwd : option string) (buildScript bwrapDepsScript : string).

(** A call whose answer is a value. *)
Definition ask {T} (o : op T) : Prog T := λ h, let r := answer T h o in (Ok r, h ++ [Ev o r]).

(** A call that fails the build with a message, and one whose error is ignored. *)
Definition try {A} (message : string) (o : op (result fs_error A)) : Prog A :=
  r ← ask o; match r with Ok a => mret a | Err _ => fail (Failed message) end.
Definition ignore {A} (o : op (result fs_error A)) : Prog unit := _ ← ask o; mret tt.

Definition abs (message p : string) : Prog string := lift (result_of_option (Failed message) (filepath_Abs cwd p)).

(** ** internal/artifact *)
Definition Baseline : Type := gmap string os_FileInfo.

Definition add_baseline (dir : string) (set : Baseline) (entry : string * bool) : Prog Baseline :=
  let '(name, isdir) := entry in
  if negb isdir && IsArchive name then
    info ← try "failed to stat existing package" (Info dir name);
    if regular info then mret (<[name := info]> set) else fail (Failed "existing package is not a regular file")
  else mret set.

Fixpoint fold_prog {A S} (f : S → A → Prog S) (s : S) (l : list A) : Prog S :=
  match l with [] => mret s | a :: l => s ← f s a; fold_prog f s l end.

Definition Snapshot (dir : string) : Prog Baseline :=
  r ← ask (ReadDir dir);
  match r with
  | Ok entries => fold_prog (add_baseline dir) ∅ entries
  | Err FsNotExist => mret ∅
  | Err FsFailed => fail (Failed "failed to snapshot package dir")
  end.

(** A package file that is the one of the baseline. *)
Definition unchanged (baseline : Baseline) (name : string) (info : os_FileInfo) : bool :=
  match baseline !! name with
  | Some previous => bool_decide (file_id previous = file_id info ∧ Size previous = Size info ∧ ModTime previous = ModTime info)
  | None => false
  end.

Definition collect_one (dir : string) (baseline : Baseline) (packages : list string) (entry : string * bool) : Prog (list string) :=
  let '(name, isdir) := entry in
  if isdir || negb (IsArchive name) then mret packages else
  info ← try "failed to stat package" (Info dir name);
  if negb (regular info) then fail (Failed "package is not a regular file") else
  if unchanged baseline name info then mret packages else
  p ← abs "failed to resolve package path" (path_join [dir; name]);
  mret (packages ++ [p]).

Definition Collect (dir : string) (baseline : Baseline) : Prog (list string) :=
  entries ← try "failed to read package dir" (ReadDir dir);
  fold_prog (collect_one dir baseline) [] entries.

(** A rename, and a durable copy when the file cannot be renamed.  [safefile.Replace] writes
    the copy ([CopyFile], with the opening of the source); [safefile.Remove] ends the move. *)
Definition moveFile (src dst : string) : Prog unit :=
  r ← ask (Rename src dst);
  match r with
  | Ok _ =>
      s1 ← ask (SyncDirectory (path_dir dst));
      if decide (path_dir src = path_dir dst) then
        (if is_ok s1 then mret tt else fail (Failed "failed to move"))
      else
        s2 ← ask (SyncDirectory (path_dir src));
        if is_ok s1 && is_ok s2 then mret tt else fail (Failed "failed to move")
  | Err _ =>
      _ ← try "failed to move" (CopyFile src dst);
      try "failed to move" (SafeRemove src)
  end.

(** One package, with its signature when it has one. *)
Definition move_package (absOut path : string) : Prog string :=
  let signature := path +:+ ".sig" in
  r ← ask (Lstat signature);
  signed ← match r with
           | Ok info => if regular info then mret true else fail (Failed "package signature is not a regular file")
           | Err FsNotExist => mret false
           | Err FsFailed => fail (Failed "failed to inspect package signature")
           end;
  let dst := path_join [absOut; path_base path] in
  _ ← moveFile path dst;
  _ ← (if signed : bool then moveFile signature (dst +:+ ".sig") else mret tt);
  mret dst.

Definition MoveToDir (built : list string) (srcDir outDir : string) : Prog (list string) :=
  let outDir := if decide (outDir = "") then srcDir else outDir in
  absSrc ← abs "failed to resolve src dir" srcDir;
  absOut ← abs "failed to resolve out dir" outDir;
  if decide (absOut = absSrc) then mret built else
  _ ← try "failed to create output directory" (MkdirAll absOut);
  map_prog (move_package absOut) built.

Definition CollectToDir (dir : string) (baseline : Baseline) (outDir : string) : Prog (list string) :=
  built ← Collect dir baseline;
  if decide (built = []) then fail (ErrBuildFailed "no package files (*.pkg.tar.*) were produced")
  else MoveToDir built dir outDir.

(** ** errors.go *)
Definition BuildError (r : ran) (message : string) : Prog unit :=
  match r with
  | Ran => mret tt
  | NotRan true _ => fail (Failed message)
  | NotRan false false => fail (Failed message)
  | NotRan false true => fail (ErrBuildFailed message)
  end.

(** ** buildenv: staged configuration files *)
Definition makepkgOverrideConf : string := "source /etc/makepkg.conf" +:+ nl.

(** The path of the staged file; it is removed again when it cannot be written. *)
Definition StageOverrideConfIn (dir : string) (mk : MakepkgConfig) : Prog string :=
  overrides ← lift (map_err Invalid (MakepkgOverrideLines mk));
  f ← try "failed to stage makepkg override" (CreateTemp dir "makepkg-override-*.conf");
  w ← ask (WriteString f (makepkgOverrideConf +:+ overrides));
  match w with
  | Err _ => _ ← ignore (CloseFile f); _ ← ignore (Remove f); fail (Failed "failed to write makepkg override")
  | Ok _ =>
      c ← ask (CloseFile f);
      match c with
      | Err _ => _ ← ignore (Remove f); fail (Failed "failed to write makepkg override")
      | Ok _ => mret f
      end
  end.

Definition optional_flag (on : bool) (flag : string) : list string := if on then [flag] else [].

(** [Spec] (backend.go). *)
Record Spec := mkSpec {
  SrcDir : string; OutDir : string; Arch : string; PacmanConf : string; LocalRepositoryDirs : list string;
  InstallPkgs : list string; InstallNames : list string; IgnoreArch : bool;
  RunCheck : option bool; RunVerify : option bool; SkipChecksums : bool; SkipPGPCheck : bool
}.

Definition MakepkgArgs (s : Spec) : list string :=
  optional_flag (IgnoreArch s) "--ignorearch"
  ++ match RunCheck s with Some true => ["--check"] | Some false => ["--nocheck"] | None => [] end
  ++ optional_flag (bool_decide (RunVerify s = Some false)) "--noverify"
  ++ optional_flag (SkipChecksums s) "--skipchecksums" ++ optional_flag (SkipPGPCheck s) "--skippgpcheck".

(** ** docker: platforms, images and mounts *)
Definition archToPlatform (arch : string) : result build_error Platform :=
  if decide (arch = "x86_64") then Ok (mkPlatform "linux" "amd64" "")
  else if decide (arch = "aarch64") then Ok (mkPlatform "linux" "arm64" "")
  else if decide (arch = "armv7h") then Ok (mkPlatform "linux" "arm" "v7")
  else if decide (arch = "i486" ∨ arch = "i686" ∨ arch = "pentium4") then Ok (mkPlatform "linux" "386" "")
  else Err (Failed "failed to resolve platform").

Definition archToCHOST (arch : string) : string :=
  if decide (arch = "pentium4") then "i686-pc-linux-gnu" else arch +:+ "-pc-linux-gnu".

Definition platformString (p : Platform) : string :=
  OS p +:+ "/" +:+ Architecture p +:+ (if decide (Variant p = "") then "" else "/" +:+ Variant p).

Definition before_at (s : string) : string := match cut "@" s with Some (a, _) => a | None => s end.

(** Without its digest and its tag: a colon after the last slash. *)
Definition imageRepository (reference : string) : string :=
  let repository := before_at reference in
  match cut_last ":" repository with
  | Some (a, b) => if occurs "/" b then repository else a
  | None => repository
  end.

Definition digest_of (repository digest : string) : bool :=
  match cut "@" digest with Some (name, _) => bool_decide (imageRepository name = repository) | None => false end.

Definition matchingRepoDigest (imageRef : string) (repoDigests : list string) : string :=
  let digests := sort_strings repoDigests in
  match list_find (λ d, digest_of (imageRepository imageRef) d = true) digests with
  | Some (_, d) => d
  | None => match digests with [d] => d | _ => "" end
  end.

Definition pathContains (parent child : string) : bool :=
  match filepath_Rel parent child with
  | Some relative => bool_decide (relative ≠ "..") && negb (has_prefix relative "../")
  | None => false
  end.
Definition pathsOverlap (left right : string) : bool := pathContains left right || pathContains right left.

Definition reserved_paths : list string := ["/build"; "/etc"; "/var/cache/pacman/pkg"].

(** Shorter paths first, and paths of one length in order. *)
Definition path_le (a b : string) : Prop :=
  String.length a < String.length b ∨ String.length a = String.length b ∧ String.le a b.
#[export] Instance path_le_dec : RelDecision path_le.
Proof. intros a b. unfold path_le. apply _. Defined.

(** The paths that none selected before contains. *)
Definition select_path (selected : list string) (candidate : string) : list string :=
  if existsb (λ parent, pathContains parent candidate) selected then selected else selected ++ [candidate].
Definition select_paths (paths : list string) : list string := foldl select_path [] (merge_sort path_le paths).

Definition local_repository (directory : string) : Prog string :=
  let message := "failed to prepare local repository mounts" in
  absolute ← abs message directory;
  info ← try message (Stat absolute);
  if negb (is_dir info) then fail (Failed message) else
  if existsb (pathsOverlap absolute) reserved_paths then fail (Failed message) else mret absolute.

Definition localRepositoryMounts (directories : list string) : Prog (list Mount) :=
  paths ← map_prog local_repository directories;
  mret (map (λ d, mkMount d d true) (select_paths paths)).

Definition cache_mount (hostDir target : string) : Prog (list Mount) :=
  if decide (hostDir = "") then mret [] else
  p ← abs "failed to resolve cache dir" hostDir;
  _ ← try "failed to create cache dir" (MkdirAll p);
  mret [mkMount p target false].

Definition valid_install_name (name : string) : bool :=
  negb (bool_decide (name = "")) && negb (has_prefix name "-")
  && all_bytes (λ c, negb (bool_decide (c ∈ [" "; "009"; "013"; "010"]%char))) name.

Definition installNamesCommand (packages : list string) : result build_error string :=
  if decide (packages = []) then Ok "" else
  if forallb valid_install_name packages
  then Ok ("pacman -S --needed --noconfirm -- " +:+ join " " (map Quote packages) +:+ nl)
  else Err (Failed "invalid install package name").

Definition pacmanConfigScript (path : string) : string :=
  if decide (path = "") then "" else "install -m 0644 /build/staging/pacman.conf /etc/pacman.conf".

(** ** docker: the backend *)
Record docker := mkDocker {
  image : string; timeout : Z; d_host : string; pacmanCacheDir : string; ccacheDir : string;
  extraRepos : list PacmanRepository; d_makepkg : MakepkgConfig
}.

Definition docker_New (config : ResolvedConfig) : docker :=
  mkDocker (if decide (Image (Docker config) = "") then DefaultDockerImage else Image (Docker config))
    (if decide (Timeout config <= 0)%Z then DefaultDockerTimeout else Timeout config)
    (Host (Docker config)) (d_PacmanCacheDir (Docker config)) (CcacheDir (Docker config)) (Repositories config) (Makepkg config).

Definition cacheMounts (b : docker) : Prog (list Mount) :=
  m1 ← cache_mount (pacmanCacheDir b) "/var/cache/pacman/pkg";
  m2 ← cache_mount (ccacheDir b) "/build/ccache";
  mret (m1 ++ m2).

(** The image a backend is pinned to: the first one recorded in its log. *)
Definition pin_of (e : event) : option string :=
  match e with @Ev T o r => match o with PinImage pinned _ => Some pinned | _ => None end end.
Definition pinnedImage (h : list event) : option string := head (omap pin_of h).

Definition currentImageReference (b : docker) : Prog string := λ h, (Ok (default (image b) (pinnedImage h)), h).

Definition pin_image (pinned digest : string) : Prog unit :=
  λ h, if decide (pinnedImage h = None) then ask (PinImage pinned digest) h else (Ok tt, h).

Definition recordImageDigest (imageRef : string) : Prog unit :=
  inspected ← ask (ImageInspect imageRef);
  match inspected with
  | Err _ => mret tt
  | Ok repoDigests =>
      let pinned := matchingRepoDigest imageRef repoDigests in
      let pinned := if decide (pinned = "" ∧ contains imageRef "@" = true) then imageRef else pinned in
      match cut "@" pinned with
      | None => mret tt
      | Some (_, digest) => pin_image pinned digest
      end
  end.

(** The image, pulled, under the reference it is pinned to. *)
Definition pull_image (b : docker) (platform : Platform) : Prog string :=
  imageRef ← currentImageReference b;
  _ ← try "failed to pull image" (ImagePull imageRef (platformString platform));
  _ ← try "failed to pull image" DrainPull;
  _ ← recordImageDigest imageRef;
  currentImageReference b.

(** The packages to install, mounted under their index, and their paths in the container. *)
Fixpoint install_mounts (i : nat) (pkgs : list string) : Prog (list (Mount * string)) :=
  match pkgs with
  | [] => mret []
  | pkg :: pkgs =>
      absPkg ← abs "failed to resolve install package path" pkg;
      let target := "/build/install/" +:+ format_int (Z.of_nat i) +:+ "/" +:+ path_base pkg in
      rest ← install_mounts (S i) pkgs;
      mret ((mkMount absPkg target true, Quote target) :: rest)
  end.

Definition install_command (names : string) (targets : list string) : string :=
  names +:+ (if decide (targets = []) then "" else "pacman -U --asdeps --noconfirm -- " +:+ join " " targets).

Definition docker_script (b : docker) (spec : Spec) (installCommand : string) : result build_error string :=
  reposScript ← map_err Invalid (ExtraReposScript (if decide (PacmanConf spec = "") then extraRepos b else []));
  let script := SubstituteBuildPlaceholders buildScript reposScript installCommand in
  let script := ReplaceAll script "__MAKEPKG_ARGS__" (join " " (MakepkgArgs spec)) in
  mret (ReplaceAll script "__PACMAN_CONFIG__" (pacmanConfigScript (PacmanConf spec))).

(** The mounts every container has: the source and the staged configuration, which are
    read-only, and the directory of the output. *)
Definition base_mounts (absSrc stagingOut overridePath : string) : list Mount :=
  [mkMount absSrc "/build/src" true; mkMount stagingOut "/build/out" false;
   mkMount overridePath "/build/staging/makepkg.override.conf" true].

Definition config_mount (path : string) : Prog (list Mount) :=
  if decide (path = "") then mret [] else
  absConfig ← abs "failed to resolve pacman config" path;
  mret [mkMount absConfig "/build/staging/pacman.conf" true].

Definition target_env (arch : string) : list string := ["TARGET_CARCH=" +:+ arch; "TARGET_CHOST=" +:+ archToCHOST arch].

(** What the select on the container comes to. *)
Definition docker_wait (id : string) : Prog unit :=
  w ← ask (ContainerWait id);
  match w with
  | WaitDone => fail (Failed "build cancelled or timed out")
  | WaitError true => fail (Failed "error waiting for container")
  | WaitError false => mret tt
  | WaitStatus code => if decide (code = 0%Z) then mret tt else fail (ErrBuildFailed "exit code")
  end.

Definition stop_container (id : string) : Prog unit := _ ← ignore (ContainerStop id); ignore (ContainerRemove id).

(** The container from its creation to its end; it is removed however that goes. *)
Definition run_container (config : ContainerConfig) (stagingOut absOut : string) : Prog (list string) :=
  id ← try "failed to create container" (ContainerCreate config);
  defer (stop_container id)
    (_ ← try "failed to start container" (ContainerStart id);
     _ ← ignore (ContainerLogs id);
     _ ← docker_wait id;
     CollectToDir stagingOut ∅ absOut).

(** What the build does with the staged configuration. *)
Definition docker_run (b : docker) (spec : Spec) (platform : Platform) (imageRef script absSrc absOut stagingOut : string)
    (installMounts : list Mount) (overridePath : string) : Prog (list string) :=
  configMounts ← config_mount (PacmanConf spec);
  repositoryMounts ← localRepositoryMounts (LocalRepositoryDirs spec);
  caches ← cacheMounts b;
  run_container
    (mkContainerConfig imageRef ["sh"; "-c"; script] (target_env (Arch spec)) "/build" "root"
       (base_mounts absSrc stagingOut overridePath ++ configMounts ++ installMounts ++ repositoryMounts ++ caches) platform)
    stagingOut absOut.

Definition docker_stage (b : docker) (spec : Spec) (platform : Platform) (absSrc absOut stagingOut : string) : Prog (list string) :=
  imageRef ← pull_image b platform;
  installs ← install_mounts 0 (InstallPkgs spec);
  names ← lift (installNamesCommand (InstallNames spec));
  script ← lift (docker_script b spec (install_command names (map snd installs)));
  overridePath ← StageOverrideConfIn (path_dir absOut) (d_makepkg b);
  defer (ignore (Remove overridePath))
    (docker_run b spec platform imageRef script absSrc absOut stagingOut (map fst installs) overridePath).

Definition docker_Build (b : docker) (spec : Spec) : Prog (list string) :=
  if decide (SrcDir spec = "") then fail (Failed "container backend requires Spec.SrcDir") else
  platform ← lift (archToPlatform (Arch spec));
  absSrc ← abs "failed to resolve src dir" (SrcDir spec);
  absOut ← abs "failed to resolve out dir" (if decide (OutDir spec = "") then SrcDir spec else OutDir spec);
  _ ← try "failed to create out dir" (MkdirAll absOut);
  stagingOut ← try "failed to create build output staging dir" (MkdirTemp (path_dir absOut) ".kamisato-docker-out-*");
  defer (ignore (RemoveAll stagingOut))
    (_ ← try "failed to prepare build output staging dir" (Chmod stagingOut);
     _ ← try "failed to create docker client" (NewClient (d_host b));
     defer (ask CloseClient) (docker_stage b spec platform absSrc absOut stagingOut)).

(** ** docker: the .SRCINFO of a source *)
Definition metadataScript : string :=
  unlines ["set -eu"; "__PACMAN_CONFIG__"; "pacman -Sy --noconfirm --needed base-devel";
    "useradd -m builduser 2>/dev/null || true";
    "cp /build/staging/makepkg.override.conf /build/makepkg.override.conf";
    "printf 'CARCH=" +:+ dq +:+ "%s" +:+ dq +:+ "\nCHOST=" +:+ dq +:+ "%s" +:+ dq +:+ "\n' " +:+ dq +:+ "$TARGET_CARCH" +:+ dq
      +:+ " " +:+ dq +:+ "$TARGET_CHOST" +:+ dq +:+ " >> /build/makepkg.override.conf";
    "cp -r /build/src /build/work"; "chown -R builduser:builduser /build/work /build/makepkg.override.conf";
    "chmod 0777 /build/out";
    "runuser -u builduser -- sh -c 'cd /build/work && makepkg --config /build/makepkg.override.conf --printsrcinfo > /build/out/.SRCINFO'"].

Definition metadata_wait (id : string) : Prog unit :=
  w ← ask (ContainerWait id);
  match w with
  | WaitDone => fail (Failed "metadata generation cancelled or timed out")
  | WaitError true => fail (Failed "error waiting for metadata container")
  | WaitError false => mret tt
  | WaitStatus code =>
      if decide (code = 0%Z) then mret tt
      else _ ← ignore (ContainerLogs id); fail (Failed "metadata generation failed with exit code")
  end.

Definition metadata_container (config : ContainerConfig) (stagingOut : string) : Prog string :=
  id ← try "failed to create metadata container" (ContainerCreate config);
  defer (ignore (ContainerRemove id))
    (_ ← try "failed to start metadata container" (ContainerStart id);
     _ ← metadata_wait id;
     data ← try "failed to read generated .SRCINFO" (ReadFile (path_join [stagingOut; ".SRCINFO"]));
     if decide (trim_space data = "") then fail (Failed "generated .SRCINFO is empty") else mret data).

Definition metadata_stage (b : docker) (spec : Spec) (platform : Platform) (absSrc sharedParent stagingOut : string) : Prog string :=
  imageRef ← pull_image b platform;
  overridePath ← StageOverrideConfIn sharedParent (d_makepkg b);
  defer (ignore (Remove overridePath))
    (configMounts ← config_mount (PacmanConf spec);
     repositoryMounts ← localRepositoryMounts (LocalRepositoryDirs spec);
     metadata_container
       (mkContainerConfig imageRef ["sh"; "-c"; ReplaceAll metadataScript "__PACMAN_CONFIG__" (pacmanConfigScript (PacmanConf spec))]
          (target_env (Arch spec)) "" "root"
          (base_mounts absSrc stagingOut overridePath ++ configMounts ++ repositoryMounts) platform)
       stagingOut).

Definition GenerateSRCINFO (b : docker) (spec : Spec) : Prog string :=
  if decide (SrcDir spec = "") then fail (Failed "container metadata generation requires Spec.SrcDir") else
  platform ← lift (archToPlatform (Arch spec));
  absSrc ← abs "failed to resolve src dir" (SrcDir spec);
  let sharedParent := path_dir absSrc in
  stagingOut ← try "failed to create metadata output dir" (MkdirTemp sharedParent ".kamisato-srcinfo-out-*");
  defer (ignore (RemoveAll stagingOut))
    (_ ← try "failed to prepare metadata output dir" (Chmod stagingOut);
     _ ← try "failed to create docker client" (NewClient (d_host b));
     defer (ask CloseClient) (metadata_stage b spec platform absSrc sharedParent stagingOut)).

(** ** devtools *)
Definition read_conf (path : string) : Prog (option string) :=
  r ← ask (ReadFile path);
  match r with Ok data => mret (Some data) | Err FsNotExist => mret None | Err FsFailed => fail (Invalid (ErrRead path)) end.

(** The files of devtools that a chroot is configured from, each read once. *)
Definition renderChrootPacmanConf (repoName : string) (repos : list PacmanRepository) : Prog string :=
  let dir := path_join [devtoolsDataDir; "pacman.conf.d"] in
  let base := path_join [dir; repoName +:+ ".conf"] in
  own ← read_conf base;
  data ← match own with
         | Some data => mret data
         | None =>
             fallback ← read_conf (path_join [dir; "extra.conf"]);
             match fallback with Some data => mret data | None => fail (Invalid (ErrNoDevtools base)) end
         end;
  stanzas ← lift (map_err Invalid (PacmanRepoStanzas repos));
  mret (data +:+ stanzas).

Definition renderChrootMakepkgConf (arch : string) (mk : MakepkgConfig) : Prog string :=
  let base := path_join [devtoolsDataDir; "makepkg.conf.d"; arch +:+ ".conf"] in
  own ← read_conf base;
  match own with
  | None => fail (Invalid (ErrNoDevtools base))
  | Some data =>
      overrides ← lift (map_err Invalid (MakepkgOverrideLines mk));
      mret ((if decide (overrides ≠ "" ∧ has_suffix data nl = false) then data +:+ nl else data) +:+ overrides)
  end.

Definition writeTempConf (pattern content : string) : Prog string :=
  name ← try "failed to create temp config" (CreateTemp "" pattern);
  let abandon := _ ← ignore (Remove name); fail (Failed "failed to write temp config") in
  w ← ask (WriteString name content);
  match w with
  | Err _ => _ ← ignore (CloseFile name); abandon
  | Ok _ =>
      c ← ask (CloseFile name);
      if negb (is_ok c) then abandon else
      m ← ask (Chmod name);
      if negb (is_ok m) then abandon else mret name
  end.

Definition base_makepkg_args : list string := ["--syncdeps"; "--noconfirm"; "--log"; "--holdver"].

Definition wrapper_args (spec : Spec) (archBuild : string) : list string :=
  [archBuild; "--"; "-c"] ++ concat (map (λ pkg, ["-I"; pkg]) (InstallPkgs spec)) ++ "--" :: base_makepkg_args ++ MakepkgArgs spec.

Definition runChrootBuild (spec : Spec) (archBuild : string) : Prog unit :=
  r ← ask (Run (SrcDir spec) (wrapper_args spec archBuild));
  BuildError r "devtools wrapper build failed".

Definition chroot_build (spec : Spec) (arch pacTmp mkTmp chrootDir : string) : Prog unit :=
  create ← ask (Run (SrcDir spec) (mkarchrootArgs arch pacTmp mkTmp (path_join [chrootDir; "root"])));
  match create with
  | NotRan _ _ => fail (Failed "failed to create chroot")
  | Ran =>
      r ← ask (Run (SrcDir spec) (makechrootpkgArgs chrootDir (InstallPkgs spec) ++ MakepkgArgs spec));
      BuildError r "makechrootpkg build failed"
  end.

Definition runChrootBuildGenerated (spec : Spec) (config : ResolvedConfig) : Prog unit :=
  let arch := if decide (Arch spec = "") then "x86_64" else Arch spec in
  let repoName := if decide (ArchBuild (Devtools config) = "") then "extra" else repoFromArchBuild (ArchBuild (Devtools config)) in
  pacConf ← renderChrootPacmanConf repoName (Repositories config);
  mkConf ← renderChrootMakepkgConf arch (Makepkg config);
  pacTmp ← writeTempConf "kamisato-pacman-*.conf" pacConf;
  defer (ignore (Remove pacTmp))
    (mkTmp ← writeTempConf "kamisato-makepkg-*.conf" mkConf;
     defer (ignore (Remove mkTmp))
       (chrootDir ← try "failed to create chroot dir" (MkdirTemp "" "kamisato-chroot-");
        defer (ignore (RemoveAll chrootDir)) (chroot_build spec arch pacTmp mkTmp chrootDir))).

(** A configuration of the build's own, instead of a wrapper of devtools. *)
Definition uses_generated (config : ResolvedConfig) : bool :=
  negb (bool_decide (Repositories config = [])) || negb (IsZero (Makepkg config)).

Definition devtools_Build (config : ResolvedConfig) (spec : Spec) : Prog (list string) :=
  if decide (SrcDir spec = "") then fail (Failed "chroot backend requires Spec.SrcDir") else
  let useGenerated := uses_generated config in
  if negb useGenerated && bool_decide (ArchBuild (Devtools config) = "") then fail (Failed "chroot backend requires a devtools wrapper") else
  baseline ← Snapshot (SrcDir spec);
  _ ← (if useGenerated then runChrootBuildGenerated spec config else runChrootBuild spec (ArchBuild (Devtools config)));
  CollectToDir (SrcDir spec) baseline (OutDir spec).

(** ** bwrap *)
Definition bwrapBuildScript : string := unlines ["set -e"; "cd /build"; "makepkg --noconfirm --log --holdver"].
Definition bwrapBuildScriptOverride : string :=
  unlines ["set -e"; "cd /build"; "makepkg --config /build/makepkg.override.conf --noconfirm --log --holdver"].
Definition bwrapBuildUID : string := "1000".

Record bwrap := mkBwrap {
  rootfs : string; w_timeout : Z; w_extraRepos : list PacmanRepository; cacheDir : string; w_makepkg : MakepkgConfig
}.
Definition bwrap_New (config : ResolvedConfig) : bwrap :=
  mkBwrap (Rootfs (Bwrap config)) (Timeout config) (Repositories config) (b_PacmanCacheDir (Bwrap config)) (Makepkg config).

Definition prepareCacheDir (dir : string) : Prog string :=
  if decide (dir = "") then mret "" else
  p ← abs "failed to resolve bwrap cache dir" dir;
  _ ← try "failed to create bwrap cache dir" (MkdirAll p);
  mret p.

Definition inContainer : Prog bool :=
  env ← ask (Stat "/.dockerenv");
  if is_ok env then mret true else
  v ← ask (Getenv "container");
  if decide (v ≠ "") then mret true else
  cgroup ← ask (ReadFile "/proc/1/cgroup");
  mret (match cgroup with
        | Ok data => existsb (contains data) ["docker"; "containerd"; "/lxc/"; "kubepods"]
        | Err _ => false
        end).

(** The binds of the packages to install, and their quoted paths. *)
Definition bwrap_binds (installPkgs : list string) : list (string * string) :=
  imap (λ i p, (p, "/build/install/" +:+ format_int (Z.of_nat i) +:+ "-" +:+ path_base p)) installPkgs.

Definition bwrapInstall (installPkgs : list string) (extraRepos : list PacmanRepository) : result build_error (string * list (string * string)) :=
  let binds := bwrap_binds installPkgs in
  let installCommand := install_command "" (map (λ b, Quote b.2) binds) in
  reposScript ← map_err Invalid (ExtraReposScript extraRepos);
  mret (SubstituteBuildPlaceholders bwrapDepsScript reposScript installCommand, binds).

Definition bwrapArgs (resolv : bool) (lowers : list string) (upper work srcAbs cacheDir uid script : string) (installBinds : list (string * string)) : list string :=
  ["--unshare-user"; "--unshare-ipc"; "--unshare-pid"; "--unshare-uts"; "--unshare-cgroup"; "--uid"; uid; "--gid"; uid;
   "--die-with-parent"; "--new-session"]
  ++ concat (map (λ l, ["--overlay-src"; l]) lowers)
  ++ ["--overlay"; upper; work; "/"; "--proc"; "/proc"; "--dev"; "/dev"; "--tmpfs"; "/tmp"; "--bind"; srcAbs; "/build";
      "--chdir"; "/build"; "--setenv"; "HOME"; "/build"]
  ++ (if decide (cacheDir = "") then [] else ["--bind"; cacheDir; "/var/cache/pacman/pkg"])
  ++ (if resolv : bool then ["--ro-bind"; "/etc/resolv.conf"; "/etc/resolv.conf"] else [])
  ++ concat (map (λ b, ["--ro-bind"; b.1; b.2]) installBinds) ++ ["bash"; "-c"; script].

(** One phase: the arguments are put together, and bwrap is run with them. *)
Definition runBwrap (lowers : list string) (upper work srcAbs cacheDir uid script : string) (installBinds : list (string * string)) : Prog ran :=
  resolv ← ask (Stat "/etc/resolv.conf");
  ask (Run "" ("bwrap" :: bwrapArgs (is_ok resolv) lowers upper work srcAbs cacheDir uid script installBinds)).

Definition build_script (override : bool) (args : list string) : string :=
  let script := if override then bwrapBuildScriptOverride else bwrapBuildScript in
  if decide (args = []) then script else trim_suffix script nl +:+ " " +:+ join " " args +:+ nl.

Definition bwrap_phase2 (b : bwrap) (spec : Spec) (srcAbs cache scratch : string) (buildBinds : list (string * string)) : Prog unit :=
  r ← runBwrap [rootfs b; path_join [scratch; "deps-upper"]] (path_join [scratch; "build-upper"]) (path_join [scratch; "work2"])
        srcAbs cache bwrapBuildUID (build_script (bool_decide (buildBinds ≠ [])) (MakepkgArgs spec)) buildBinds;
  BuildError r "bwrap build phase failed".

(** The second phase and the collection of what it built, under the staged configuration when
    there is one. *)
Definition bwrap_build (b : bwrap) (spec : Spec) (srcAbs cache scratch : string) (baseline : Baseline) : Prog (list string) :=
  let finish binds := _ ← bwrap_phase2 b spec srcAbs cache scratch binds; CollectToDir srcAbs baseline (OutDir spec) in
  if IsZero (w_makepkg b) then finish [] else
  overridePath ← StageOverrideConfIn "" (w_makepkg b);
  defer (ignore (Remove overridePath)) (finish [(overridePath, "/build/makepkg.override.conf")]).

Definition bwrap_phases (b : bwrap) (spec : Spec) (srcAbs cache scratch : string) : Prog (list string) :=
  _ ← for_each (λ d, try "failed to create overlay dir" (Mkdir (path_join [scratch; d]))) ["deps-upper"; "work1"; "build-upper"; "work2"];
  baseline ← Snapshot srcAbs;
  '(depsScript, installBinds) ← lift (bwrapInstall (InstallPkgs spec) (w_extraRepos b));
  p1 ← runBwrap [rootfs b] (path_join [scratch; "deps-upper"]) (path_join [scratch; "work1"]) srcAbs cache "0" depsScript installBinds;
  match p1 with
  | NotRan _ _ => fail (Failed "bwrap dependency phase failed")
  | Ran => bwrap_build b spec srcAbs cache scratch baseline
  end.

Definition bwrap_Build (b : bwrap) (spec : Spec) : Prog (list string) :=
  if decide (SrcDir spec = "") then fail (Failed "bwrap backend requires Spec.SrcDir") else
  if decide (rootfs b = "") then fail (Failed "bwrap backend requires a pristine Arch rootfs") else
  fi ← try "bwrap rootfs is not accessible" (Stat (rootfs b));
  if negb (is_dir fi) then fail (Failed "bwrap rootfs is not a directory") else
  nested ← inContainer;
  if nested : bool then fail (Failed "bwrap backend is host-only and refuses to run inside a container") else
  _ ← try "bwrap backend requires the 'bubblewrap' package" (LookPath "bwrap");
  srcAbs ← abs "failed to resolve src dir" (SrcDir spec);
  cache ← prepareCacheDir (cacheDir b);
  scratch ← try "failed to create overlay scratch dir" (MkdirTemp (path_dir (rootfs b)) "bwrap-build-");
  defer (ignore (RemoveAll scratch)) (bwrap_phases b spec srcAbs cache scratch).

(** ** factory *)
Definition factory_Build (config : ResolvedConfig) (spec : Spec) : Prog (list string) :=
  _ ← lift (map_err Invalid (Validate config));
  if decide (Backend config = KindChroot) then devtools_Build config spec
  else if decide (Backend config = KindContainer) then docker_Build (docker_New config) spec
  else if decide (Backend config = KindBwrap) then bwrap_Build (bwrap_New config) spec
  else fail (Invalid (ErrUnknownBackend (Backend config))).
End backends.
