(* ===== verification/BuildBackendsSpec.v ===== *)
(** * What the build backends guarantee

    Every temporary file, directory, client and container of a build is disposed of, innermost
    first, on every path; a build succeeds only with packages a command built without failing;
    and a container reaches only what it is meant to, with a selection of the local
    repositories to mount. *)

From S2P Require Import Catalog.
From S2P Require Import JobRequest.
From S2P Require Import Prelude GoStrings Paths.
From S2P Require Import Artifact.
From S2P Require Import BuildConfig.
From S2P Require Import BuildBackends.

(** ** What a build holds *)
Inductive resource := RPath (path : string) | RContainer (id : string) | RClient.
#[export] Instance resource_eq_dec : EqDecision resource.
Proof. solve_decision. Defined.

Definition opens (e : event) : option resource :=
  match e with
  | @Ev T o r =>
      match o in op T return T → option resource with
      | MkdirTemp _ _ => λ r, match r with Ok p => Some (RPath p) | Err _ => None end
      | CreateTemp _ _ => λ r, match r with Ok p => Some (RPath p) | Err _ => None end
      | NewClient _ => λ r, match r with Ok _ => Some RClient | Err _ => None end
      | ContainerCreate _ => λ r, match r with Ok id => Some (RContainer id) | Err _ => None end
      | _ => λ _, None
      end r
  end.

(** The calls that dispose of something, whether they succeed or not. *)
Definition closes (e : event) : option resource :=
  match e with
  | @Ev T o _ =>
      match o with
      | RemoveAll p | Remove p => Some (RPath p)
      | CloseClient => Some RClient
      | ContainerRemove id => Some (RContainer id)
      | _ => None
      end
  end.

(** What is held after an event: disposing of anything but the last thing acquired is no
    bookkeeping at all. *)
Definition hold (st : option (list resource)) (e : event) : option (list resource) :=
  match st with
  | None => None
  | Some st =>
      match opens e with
      | Some r => Some (r :: st)
      | None =>
          match closes e with
          | Some r => match st with r' :: st' => if decide (r = r') then Some st' else None | [] => None end
          | None => Some st
          end
      end
  end.
Definition held (st : list resource) (new : list event) : option (list resource) := foldl hold (Some st) new.

Lemma held_app st new1 new2 st1 : held st new1 = Some st1 → held st (new1 ++ new2) = held st1 new2.
Proof. unfold held. rewrite foldl_app. by intros ->. Qed.

(** [m] is started holding [pre] over what its caller holds; when it fails it holds nothing of
    its own, and when it succeeds what [post] says. *)
Definition keeps {A} (pre : list resource) (m : Prog A) (post : A → list resource) : Prop :=
  ∀ h st, ∃ new, (m h).2 = h ++ new
    ∧ held (pre ++ st) new = Some (match (m h).1 with Ok a => post a ++ st | Err _ => st end).
Definition tidy {A} (m : Prog A) : Prop := keeps [] m (λ _, []).

(** [c] disposes of [r], and of nothing else. *)
Definition drops {A} (c : Prog A) (r : resource) : Prop :=
  ∀ h st, ∃ new, (c h).2 = h ++ new ∧ held (r :: st) new = Some st.

Definition neutral {T} (o : op T) : Prop := ∀ r, opens (Ev o r) = None ∧ closes (Ev o r) = None.

Section keeps.
Context {G : GoLib} {W : World}.

Lemma keeps_ret {A} (a : A) post : keeps (post a) (mret a) post.
Proof. intros h st. exists []. by rewrite app_nil_r. Qed.

Lemma keeps_fail {A} e post : keeps [] (fail e : Prog A) post.
Proof. intros h st. exists []. by rewrite app_nil_r. Qed.

Lemma tidy_ret {A} (a : A) : tidy (mret a).
Proof. apply (keeps_ret a (λ _, [])). Qed.

Lemma tidy_lift {A} (r : result build_error A) : tidy (lift r).
Proof. intros h st. exists []. rewrite app_nil_r. by destruct r. Qed.

Lemma keeps_bind {A B} pre mid (m : Prog A) (f : A → Prog B) post :
  keeps pre m mid → (∀ a, keeps (mid a) (f a) post) → keeps pre (m ≫= f) post.
Proof.
  intros Hm Hf h st. destruct (Hm h st) as (new1 & E1 & H1). unfold mbind, Prog_bind.
  destruct (m h) as [[a|e] h1]; simpl in *; subst h1; [|by exists new1].
  destruct (Hf a (h ++ new1) st) as (new2 & E2 & H2). exists (new1 ++ new2).
  rewrite E2, app_assoc. split; [done|]. by rewrite (held_app _ _ _ _ H1).
Qed.

Lemma tidy_bind {A B} (m : Prog A) (f : A → Prog B) : tidy m → (∀ a, tidy (f a)) → tidy (m ≫= f).
Proof. apply keeps_bind. Qed.

Lemma keeps_defer {A B} (c : Prog B) (body : Prog A) r : drops c r → tidy body → keeps [r] (defer c body) (λ _, []).
Proof.
  intros Hc Hb h st. destruct (Hb h (r :: st)) as (new1 & E1 & H1). unfold defer.
  destruct (body h) as [x h1]; simpl in *. subst h1. destruct (Hc (h ++ new1) st) as (new2 & E2 & H2).
  exists (new1 ++ new2). rewrite E2, app_assoc. split; [done|].
  assert (H1' : held (r :: st) new1 = Some (r :: st)) by (rewrite H1; by destruct x).
  rewrite (held_app _ _ _ _ H1'), H2. by destruct x.
Qed.

Lemma keeps_ask {T} (o : op T) pre : neutral o → keeps pre (ask o) (λ _, pre).
Proof.
  intros Hn h st. eexists. split; [done|]. simpl. destruct (Hn (answer T h o)) as [H1 H2].
  unfold held. cbn [foldl]. unfold hold. by rewrite H1, H2.
Qed.

Lemma tidy_ask {T} (o : op T) : neutral o → tidy (ask o).
Proof. intros Hn. by apply keeps_ask. Qed.

Lemma tidy_try {A} message (o : op (result fs_error A)) : neutral o → tidy (try message o).
Proof. intros Hn. apply tidy_bind; [by apply tidy_ask|]. intros [a|e]; [apply tidy_ret|apply keeps_fail]. Qed.

Lemma keeps_ignore {A} (o : op (result fs_error A)) pre : neutral o → keeps pre (ignore o) (λ _, pre).
Proof. intros Hn. apply (keeps_bind _ (λ _, pre)); [by apply keeps_ask|]. intros a. apply (keeps_ret tt (λ _, pre)). Qed.

(** A call that acquires something, or fails. *)
Lemma keeps_try {A} message (o : op (result fs_error A)) (R : A → resource) :
  (∀ a, opens (Ev o (Ok a)) = Some (R a)) → (∀ e, opens (Ev o (Err e)) = None) → (∀ r, closes (Ev o r) = None) →
  keeps [] (try message o) (λ a, [R a]).
Proof.
  intros Ho He Hc h st. unfold try, ask, mbind, Prog_bind. destruct (answer _ h o) as [a|e] eqn:E; eexists; simpl;
    (split; [done|]); unfold held; cbn [foldl]; unfold hold; by rewrite ?Ho, ?He, ?Hc.
Qed.

Lemma drops_ignore {A} (o : op (result fs_error A)) r :
  (∀ x, opens (Ev o x) = None ∧ closes (Ev o x) = Some r) → drops (ignore o) r.
Proof.
  intros Hx h st. eexists. split; [done|]. unfold held. cbn [foldl]. unfold hold.
  destruct (Hx (answer _ h o)) as [-> ->]. by rewrite decide_True.
Qed.

Lemma tidy_map {A B} (f : A → Prog B) l : (∀ a, tidy (f a)) → tidy (map_prog f l).
Proof.
  intros Hf. induction l as [|a l IH]; [apply tidy_ret|]. apply tidy_bind; [done|]. intros b.
  apply tidy_bind; [done|]. intros bs. apply tidy_ret.
Qed.

Lemma tidy_for_each {A} (f : A → Prog unit) l : (∀ a, tidy (f a)) → tidy (for_each f l).
Proof. intros Hf. induction l as [|a l IH]; [apply tidy_ret|]. by apply tidy_bind. Qed.

Lemma tidy_fold {A S} (f : S → A → Prog S) s l : (∀ s a, tidy (f s a)) → tidy (fold_prog f s l).
Proof. intros Hf. revert s. induction l as [|a l IH]; intros s; [apply tidy_ret|]. by apply tidy_bind. Qed.
End keeps.

Create HintDb tidy.
#[export] Hint Extern 0 (neutral _) => (intros ?; split; reflexivity) : tidy.
#[export] Hint Resolve tidy_ret tidy_lift keeps_fail tidy_ask tidy_try keeps_ignore : tidy.
#[export] Hint Resolve tidy_map tidy_for_each tidy_fold : tidy.

(** A program without resources of its own is tidy piece by piece. *)
Ltac solve_tidy :=
  repeat first
    [ progress intros
    | solve [eauto with tidy]
    | apply tidy_bind
    | apply tidy_map | apply tidy_fold | apply tidy_for_each
    | case_match
    | case_decide ].

Ltac tidy_steps := repeat (apply tidy_bind; [solve [solve_tidy]|intros]).

(** ** Every backend disposes of what it acquires *)
Section backends.
Context {G : GoLib} {W : World} (cwd : option string) (buildScript bwrapDepsScript : string).

Lemma tidy_abs message p : tidy (abs cwd message p).
Proof. apply tidy_lift. Qed.
Hint Resolve tidy_abs : tidy.

Lemma tidy_Snapshot dir : tidy (Snapshot dir).
Proof. unfold Snapshot, add_baseline. solve_tidy. Qed.

Lemma tidy_moveFile src dst : tidy (moveFile src dst).
Proof. unfold moveFile. solve_tidy. Qed.
Hint Resolve tidy_Snapshot tidy_moveFile : tidy.

Lemma tidy_CollectToDir dir baseline out : tidy (CollectToDir cwd dir baseline out).
Proof. unfold CollectToDir, Collect, collect_one, MoveToDir, move_package. solve_tidy. Qed.

Lemma tidy_BuildError r message : tidy (BuildError r message).
Proof. unfold BuildError. solve_tidy. Qed.
Hint Resolve tidy_CollectToDir tidy_BuildError : tidy.

(** A temporary file that is given up when it cannot be written. *)
Lemma keeps_abandon {A} f message (post : A → list resource) :
  keeps [RPath f] (_ ← ignore (Remove f); fail (Failed message) : Prog A) post.
Proof.
  intros h st. destruct (drops_ignore (Remove f) (RPath f) ltac:(done) h st) as (new & E & H).
  exists new. unfold mbind, Prog_bind. destruct (ignore (Remove f) h) as [[?|?] ?] eqn:Ei; [by simpl in *; subst|done].
Qed.

Lemma keeps_write_failed {A B} (o : op (result fs_error B)) f message (post : A → list resource) :
  neutral o → keeps [RPath f] (_ ← ignore o; _ ← ignore (Remove f); fail (Failed message) : Prog A) post.
Proof.
  intros Hn. apply (keeps_bind _ (λ _, [RPath f])); [by apply keeps_ignore|]. intros _. apply keeps_abandon.
Qed.

Lemma keeps_StageOverrideConfIn dir mk : keeps [] (StageOverrideConfIn dir mk) (λ f, [RPath f]).
Proof.
  unfold StageOverrideConfIn. apply (keeps_bind _ (λ _, [])); [apply tidy_lift|]. intros overrides.
  apply (keeps_bind _ (λ f, [RPath f])); [by apply keeps_try|]. intros f.
  apply (keeps_bind _ (λ _, [RPath f])); [apply keeps_ask; auto with tidy|]. intros [|]; [|apply keeps_write_failed; auto with tidy].
  apply (keeps_bind _ (λ _, [RPath f])); [apply keeps_ask; auto with tidy|].
  intros [|]; [apply (keeps_ret f (λ f, [RPath f]))|apply keeps_abandon].
Qed.

Lemma keeps_writeTempConf pattern content : keeps [] (writeTempConf pattern content) (λ f, [RPath f]).
Proof.
  unfold writeTempConf. apply (keeps_bind _ (λ f, [RPath f])); [by apply keeps_try|]. intros f.
  apply (keeps_bind _ (λ _, [RPath f])); [apply keeps_ask; auto with tidy|]. intros [|]; [|apply keeps_write_failed; auto with tidy].
  apply (keeps_bind _ (λ _, [RPath f])); [apply keeps_ask; auto with tidy|]. intros c. case_match; [apply keeps_abandon|].
  apply (keeps_bind _ (λ _, [RPath f])); [apply keeps_ask; auto with tidy|]. intros m. case_match; [apply keeps_abandon|].
  apply (keeps_ret f (λ f, [RPath f])).
Qed.

(** Something acquired, used and disposed of. *)
Lemma tidy_bracket {A B C} (acquire : Prog A) (R : A → resource) (c : A → Prog B) (body : A → Prog C) :
  keeps [] acquire (λ a, [R a]) → (∀ a, drops (c a) (R a)) → (∀ a, tidy (body a)) →
  tidy (a ← acquire; defer (c a) (body a)).
Proof. intros Ha Hc Hb. eapply keeps_bind; [exact Ha|]. intros a. by apply keeps_defer. Qed.

Lemma drops_Remove p : drops (ignore (Remove p)) (RPath p).
Proof. by apply drops_ignore. Qed.
Lemma drops_RemoveAll p : drops (ignore (RemoveAll p)) (RPath p).
Proof. by apply drops_ignore. Qed.
Lemma drops_ContainerRemove id : drops (ignore (ContainerRemove id)) (RContainer id).
Proof. by apply drops_ignore. Qed.
Lemma drops_stop_container id : drops (stop_container id) (RContainer id).
Proof.
  intros h st. exists [Ev (ContainerStop id) (answer _ h (ContainerStop id));
    Ev (ContainerRemove id) (answer _ (h ++ [Ev (ContainerStop id) (answer _ h (ContainerStop id))]) (ContainerRemove id))].
  unfold stop_container, ignore, ask, mbind, Prog_bind. simpl. split; [by rewrite <-app_assoc|].
  unfold held. cbn. by rewrite decide_True.
Qed.
Lemma drops_CloseClient : drops (ask CloseClient) RClient.
Proof. intros h st. eexists. split; [done|]. done. Qed.

Lemma keeps_MkdirTemp message dir pattern : keeps [] (try message (MkdirTemp dir pattern)) (λ p, [RPath p]).
Proof. by apply keeps_try. Qed.
Lemma keeps_ContainerCreate message config : keeps [] (try message (ContainerCreate config)) (λ id, [RContainer id]).
Proof. by apply keeps_try. Qed.
Lemma keeps_NewClient message host : keeps [] (try message (NewClient host)) (λ _, [RClient]).
Proof. apply (keeps_try _ _ (λ _, RClient)); by intros. Qed.

Lemma tidy_pull_image b platform : tidy (pull_image b platform).
Proof.
  assert (Hc : tidy (currentImageReference b)) by (intros h st; exists []; by rewrite app_nil_r).
  assert (Hp : ∀ pinned digest, tidy (pin_image pinned digest)).
  { intros pinned digest h st. unfold pin_image. case_decide; [by eexists|]. exists []. by rewrite app_nil_r. }
  unfold pull_image, recordImageDigest. solve_tidy.
Qed.

Lemma tidy_install_mounts i pkgs : tidy (install_mounts cwd i pkgs).
Proof. revert i. induction pkgs as [|pkg pkgs IH]; intros i; simpl; solve_tidy. Qed.

Lemma tidy_mounts dirs : tidy (localRepositoryMounts cwd dirs).
Proof. unfold localRepositoryMounts, local_repository. solve_tidy. Qed.

Lemma tidy_caches b : tidy (cacheMounts cwd b).
Proof. unfold cacheMounts, cache_mount. solve_tidy. Qed.

Lemma tidy_config_mount p : tidy (config_mount cwd p).
Proof. unfold config_mount. solve_tidy. Qed.
Hint Resolve tidy_pull_image tidy_install_mounts tidy_mounts tidy_caches tidy_config_mount : tidy.

Lemma tidy_run_container config staging out : tidy (run_container cwd config staging out).
Proof.
  apply tidy_bracket with (R := RContainer); [apply keeps_ContainerCreate|apply drops_stop_container|].
  intros id. unfold docker_wait. solve_tidy.
Qed.
Hint Resolve tidy_run_container : tidy.

Lemma tidy_docker_Build b spec : tidy (docker_Build cwd buildScript b spec).
Proof.
  unfold docker_Build. case_decide; [apply keeps_fail|]. tidy_steps.
  apply tidy_bracket with (R := RPath); [apply keeps_MkdirTemp|apply drops_RemoveAll|]. intros staging.
  apply tidy_bind; [solve_tidy|intros _].
  apply tidy_bracket with (R := λ _, RClient); [apply keeps_NewClient|intros; apply drops_CloseClient|]. intros _.
  unfold docker_stage. tidy_steps.
  apply tidy_bracket with (R := RPath); [apply keeps_StageOverrideConfIn|apply drops_Remove|]. intros p.
  unfold docker_run. solve_tidy.
Qed.

Lemma tidy_GenerateSRCINFO b spec : tidy (GenerateSRCINFO cwd b spec).
Proof.
  unfold GenerateSRCINFO. case_decide; [apply keeps_fail|]. tidy_steps.
  apply tidy_bracket with (R := RPath); [apply keeps_MkdirTemp|apply drops_RemoveAll|]. intros staging.
  apply tidy_bind; [solve_tidy|intros _].
  apply tidy_bracket with (R := λ _, RClient); [apply keeps_NewClient|intros; apply drops_CloseClient|]. intros _.
  unfold metadata_stage. apply tidy_bind; [solve_tidy|intros].
  apply tidy_bracket with (R := RPath); [apply keeps_StageOverrideConfIn|apply drops_Remove|]. intros p.
  tidy_steps.
  apply tidy_bracket with (R := RContainer); [apply keeps_ContainerCreate|apply drops_ContainerRemove|].
  intros id. unfold metadata_wait. solve_tidy.
Qed.

Lemma tidy_devtools_Build config spec : tidy (devtools_Build cwd config spec).
Proof.
  unfold devtools_Build. case_decide; [apply keeps_fail|]. cbv zeta. case_match; [apply keeps_fail|].
  apply tidy_bind; [solve_tidy|]. intros baseline. apply tidy_bind; [|solve_tidy].
  case_match; [|unfold runChrootBuild; solve_tidy].
  unfold runChrootBuildGenerated, renderChrootPacmanConf, renderChrootMakepkgConf, read_conf. cbv zeta.
  apply tidy_bind; [solve_tidy|intros]. apply tidy_bind; [solve_tidy|intros].
  apply tidy_bracket with (R := RPath); [apply keeps_writeTempConf|apply drops_Remove|]. intros p1.
  apply tidy_bracket with (R := RPath); [apply keeps_writeTempConf|apply drops_Remove|]. intros p2.
  apply tidy_bracket with (R := RPath); [apply keeps_MkdirTemp|apply drops_RemoveAll|]. intros p3.
  unfold chroot_build. solve_tidy.
Qed.

Lemma tidy_bwrap_Build b spec : tidy (bwrap_Build cwd bwrapDepsScript b spec).
Proof.
  unfold bwrap_Build, inContainer, prepareCacheDir. case_decide; [apply keeps_fail|]. case_decide; [apply keeps_fail|].
  apply tidy_bind; [solve_tidy|]. intros fi. case_match; [apply keeps_fail|].
  apply tidy_bind; [solve_tidy|]. intros nested. case_match; [apply keeps_fail|].
  tidy_steps.
  apply tidy_bracket with (R := RPath); [apply keeps_MkdirTemp|apply drops_RemoveAll|]. intros scratch.
  unfold bwrap_phases. tidy_steps. case_match. subst.
  apply tidy_bind; [unfold runBwrap; solve_tidy|]. intros p1. case_match; [|apply keeps_fail].
  unfold bwrap_build, bwrap_phase2, runBwrap. cbv zeta. case_match; [solve_tidy|].
  apply tidy_bracket with (R := RPath); [apply keeps_StageOverrideConfIn|apply drops_Remove|]. intros p. solve_tidy.
Qed.

(** Nothing is left behind.  Whatever the file system, the Docker daemon and the commands
    answer, and wherever a build fails, each temporary directory and file, the client and the
    container it acquired is disposed of before the build returns, the last one acquired
    first; a .SRCINFO that is generated in a container likewise. *)
Theorem build_disposes config spec h :
  (∃ new, (factory_Build cwd buildScript bwrapDepsScript config spec h).2 = h ++ new ∧ held [] new = Some [])
  ∧ ∃ new, (GenerateSRCINFO cwd (docker_New config) spec h).2 = h ++ new ∧ held [] new = Some [].
Proof.
  split.
  - assert (Ht : tidy (factory_Build cwd buildScript bwrapDepsScript config spec)).
    { unfold factory_Build. apply tidy_bind; [apply tidy_lift|]. intros _.
      repeat case_decide; [apply tidy_devtools_Build|apply tidy_docker_Build|apply tidy_bwrap_Build|apply keeps_fail]. }
    destruct (Ht h []) as (new & E & H). exists new. split; [done|]. rewrite app_nil_r in H. rewrite H. by case_match.
  - destruct (tidy_GenerateSRCINFO (docker_New config) spec h []) as (new & E & H). exists new. split; [done|].
    rewrite app_nil_r in H. rewrite H. by case_match.
Qed.
End backends.

(** ** What a build comes to *)

(** [m] adds events to the log, and they and its result are as [post] says. *)
Definition triple {A} (m : Prog A) (post : list event → result build_error A → Prop) : Prop :=
  ∀ h, ∃ new, (m h).2 = h ++ new ∧ post new (m h).1.

Section triple.
Context {G : GoLib} {W : World}.

Lemma triple_ret {A} (a : A) (post : list event → result build_error A → Prop) : post [] (Ok a) → triple (mret a) post.
Proof. intros Hp h. exists []. by rewrite app_nil_r. Qed.

Lemma triple_fail {A} e (post : list event → result build_error A → Prop) : post [] (Err e) → triple (fail e) post.
Proof. intros Hp h. exists []. by rewrite app_nil_r. Qed.

Lemma triple_lift {A} (r : result build_error A) (post : list event → result build_error A → Prop) : post [] r → triple (lift r) post.
Proof. intros Hp h. exists []. by rewrite app_nil_r. Qed.

Lemma triple_ask {T} (o : op T) (post : list event → result build_error T → Prop) :
  (∀ r, post [Ev o r] (Ok r)) → triple (ask o) post.
Proof. intros Hp h. by eexists. Qed.

Lemma triple_bind {A B} (m : Prog A) (f : A → Prog B) (mid : list event → result build_error A → Prop)
    (post : list event → result build_error B → Prop) :
  triple m mid → (∀ new a, mid new (Ok a) → triple (f a) (λ new', post (new ++ new'))) →
  (∀ new e, mid new (Err e) → post new (Err e)) → triple (m ≫= f) post.
Proof.
  intros Hm Hf He h. destruct (Hm h) as (new & E & Hr). unfold mbind, Prog_bind.
  destruct (m h) as [[a|e] h1]; simpl in *; subst h1; [|exists new; auto].
  destruct (Hf new a Hr (h ++ new)) as (new' & E' & Hr'). exists (new ++ new'). by rewrite E', app_assoc.
Qed.

Lemma triple_impl {A} (m : Prog A) (mid post : list event → result build_error A → Prop) :
  triple m mid → (∀ new r, mid new r → post new r) → triple m post.
Proof. intros Hm Hi h. destruct (Hm h) as (new & E & Hr). exists new. auto. Qed.

(** What is deferred only adds to the log. *)
Lemma triple_defer {A B} (c : Prog B) (body : Prog A) (post : list event → result build_error A → Prop) :
  triple c (λ _ _, True) → triple body post → (∀ new new' r, post new r → post (new ++ new') r) → triple (defer c body) post.
Proof.
  intros Hc Hb Hm h. destruct (Hb h) as (new & E & Hr). unfold defer. destruct (body h) as [r h1]; simpl in *. subst h1.
  destruct (Hc (h ++ new)) as (new' & E' & _). exists (new ++ new'). rewrite E', app_assoc. auto.
Qed.

(** Which calls are the build command itself is [is_build]. *)
Context (is_build : ∀ T, op T → Prop).

(** The build command that ended well, and one that failed by its exit status. *)
Definition succeeded (e : event) : Prop :=
  match e with
  | @Ev T o r => is_build T o ∧
      match o in op T return T → Prop with
      | Run _ _ => λ r, r = Ran
      | ContainerWait _ => λ w, w = WaitStatus 0 ∨ w = WaitError false
      | _ => λ _, False
      end r
  end.
Definition exited (e : event) : Prop :=
  match e with
  | @Ev T o r => is_build T o ∧
      match o in op T return T → Prop with
      | Run _ _ => λ r, r = NotRan false true
      | ContainerWait _ => λ w, ∃ code, w = WaitStatus code ∧ code ≠ 0%Z
      | _ => λ _, False
      end r
  end.

Definition no_packages : string := "no package files (*.pkg.tar.*) were produced".

Definition blameless {A} (r : result build_error A) : Prop := ∀ message, r ≠ Err (ErrBuildFailed message).
Definition plain_prog {A} (m : Prog A) : Prop := triple m (λ _, blameless).

(** A step that runs the build command to its end. *)
Definition runs {A} (new : list event) (r : result build_error A) : Prop :=
  match r with Ok _ => Exists succeeded new | Err (ErrBuildFailed _) => Exists exited new | Err _ => True end.

Definition collects (new : list event) (r : result build_error (list string)) : Prop :=
  match r with Ok packages => packages ≠ [] | Err (ErrBuildFailed message) => message = no_packages | Err _ => True end.

Definition built (new : list event) (r : result build_error (list string)) : Prop :=
  match r with
  | Ok packages => packages ≠ [] ∧ Exists succeeded new
  | Err (ErrBuildFailed message) => Exists exited new ∨ message = no_packages ∧ Exists succeeded new
  | Err _ => True
  end.

Lemma runs_more {A} new new' (r : result build_error A) : runs new' r → runs (new ++ new') r.
Proof. destruct r as [|[]]; simpl; rewrite ?Exists_app; auto. Qed.

Lemma built_more new new' r : built new' r → built (new ++ new') r.
Proof. destruct r as [|[]]; simpl; rewrite ?Exists_app; tauto. Qed.

Lemma built_then new new' r : built new r → built (new ++ new') r.
Proof. destruct r as [|[]]; simpl; rewrite ?Exists_app; tauto. Qed.

Lemma runs_then {A} new new' (r : result build_error A) : runs new r → runs (new ++ new') r.
Proof. destruct r as [|[]]; simpl; rewrite ?Exists_app; auto. Qed.

Lemma blameless_err {A B} e : blameless (Err e : result build_error A) → blameless (Err e : result build_error B).
Proof. intros He message. specialize (He message). congruence. Qed.

Lemma plain_bind {A B} (m : Prog A) (f : A → Prog B) : plain_prog m → (∀ a, plain_prog (f a)) → plain_prog (m ≫= f).
Proof.
  intros Hm Hf. eapply triple_bind; [exact Hm| |].
  - intros new a _. apply Hf.
  - intros new e. apply blameless_err.
Qed.

Lemma plain_then_runs {A B} (m : Prog A) (f : A → Prog B) : plain_prog m → (∀ a, triple (f a) runs) → triple (m ≫= f) runs.
Proof.
  intros Hm Hf. eapply triple_bind; [exact Hm| |].
  - intros new a _. eapply triple_impl; [apply Hf|]. intros. by apply runs_more.
  - intros new e He. destruct e; [by destruct (He message)|done..].
Qed.

Lemma plain_then_built {A} (m : Prog A) (f : A → Prog (list string)) : plain_prog m → (∀ a, triple (f a) built) → triple (m ≫= f) built.
Proof.
  intros Hm Hf. eapply triple_bind; [exact Hm| |].
  - intros new a _. eapply triple_impl; [apply Hf|]. intros. by apply built_more.
  - intros new e He. destruct e; [by destruct (He message)|done..].
Qed.

Lemma runs_then_collects {A} (m : Prog A) (f : A → Prog (list string)) : triple m runs → (∀ a, triple (f a) collects) → triple (m ≫= f) built.
Proof.
  intros Hm Hf. eapply triple_bind; [exact Hm| |].
  - intros new a Hr. eapply triple_impl; [apply Hf|]. intros new' [p|[]] Hc; simpl in *; rewrite ?Exists_app; auto.
  - intros new e Hr. destruct e; simpl in *; auto.
Qed.

Lemma defer_built {B} (c : Prog B) (body : Prog (list string)) : triple c (λ _ _, True) → triple body built → triple (defer c body) built.
Proof. intros Hc Hb. apply triple_defer; [done..|]. intros. by apply built_then. Qed.

Lemma defer_runs {A B} (c : Prog B) (body : Prog A) : triple c (λ _ _, True) → triple body runs → triple (defer c body) runs.
Proof. intros Hc Hb. apply triple_defer; [done..|]. intros. by apply runs_then. Qed.

Lemma plain_ret {A} (a : A) : plain_prog (mret a).
Proof. by apply triple_ret. Qed.
Lemma plain_ask {T} (o : op T) : plain_prog (ask o).
Proof. by apply triple_ask. Qed.
Lemma plain_Failed {A} message : plain_prog (fail (Failed message) : Prog A).
Proof. by apply triple_fail. Qed.
Lemma plain_Invalid {A} e : plain_prog (fail (Invalid e) : Prog A).
Proof. by apply triple_fail. Qed.
Lemma plain_lift {A} (r : result build_error A) : blameless r → plain_prog (lift r).
Proof. intros Hr. by apply (triple_lift r (λ _, blameless)). Qed.
Lemma plain_Invalids {A} (r : result config_error A) : plain_prog (lift (map_err Invalid r)).
Proof. apply plain_lift. by destruct r. Qed.
End triple.

Create HintDb blame.
#[export] Hint Resolve plain_ret plain_ask plain_Failed plain_Invalid plain_Invalids : blame.

Ltac solve_plain :=
  repeat first
    [ progress intros
    | solve [eauto with blame]
    | apply plain_bind
    | case_match
    | case_decide ].
Ltac plain_steps lem := repeat (apply lem; [solve [solve_plain]|intros]).

Section outcome.
Context {G : GoLib} {W : World} (cwd : option string) (buildScript bwrapDepsScript : string).

Lemma plain_try {A} message (o : op (result fs_error A)) : plain_prog (try message o).
Proof. unfold try. solve_plain. Qed.
Lemma plain_ignore {A} (o : op (result fs_error A)) : plain_prog (ignore o).
Proof. unfold ignore. solve_plain. Qed.
Lemma plain_abs message p : plain_prog (abs cwd message p).
Proof. apply plain_lift. by destruct (filepath_Abs cwd p). Qed.
Hint Resolve plain_try plain_ignore plain_abs : blame.

Lemma bind_ret {A B} (a : A) (f : A → Prog B) : (mret a ≫= f) = f a.
Proof. done. Qed.

Lemma plain_any {A} (m : Prog A) : plain_prog m → triple m (λ _ _, True).
Proof. intros Hm. by eapply triple_impl. Qed.

Lemma plain_map {A B} (f : A → Prog B) l : (∀ a, plain_prog (f a)) → plain_prog (map_prog f l).
Proof. intros Hf. induction l as [|a l IH]; simpl; solve_plain. Qed.
Lemma plain_fold {A S} (f : S → A → Prog S) s l : (∀ s a, plain_prog (f s a)) → plain_prog (fold_prog f s l).
Proof. intros Hf. revert s. induction l as [|a l IH]; intros s; simpl; solve_plain. Qed.
Lemma plain_for_each {A} (f : A → Prog unit) l : (∀ a, plain_prog (f a)) → plain_prog (for_each f l).
Proof. intros Hf. induction l as [|a l IH]; simpl; solve_plain. Qed.

Lemma plain_Snapshot dir : plain_prog (Snapshot dir).
Proof. unfold Snapshot, add_baseline. apply plain_bind; [auto with blame|]. intros [|[]]; [apply plain_fold|..]; solve_plain. Qed.
Lemma plain_moveFile src dst : plain_prog (moveFile src dst).
Proof. unfold moveFile. solve_plain. Qed.
Hint Resolve plain_Snapshot plain_moveFile : blame.

Lemma map_prog_length {A B} (f : A → Prog B) l : (∀ a, plain_prog (f a)) →
  triple (map_prog f l) (λ _ r, blameless r ∧ ∀ bs, r = Ok bs → length bs = length l).
Proof.
  intros Hf. induction l as [|a l IH]; simpl; [apply triple_ret; split; [done|by intros ? [= <-]]|].
  eapply triple_bind; [apply Hf| |intros ? e He; split; [exact (blameless_err e He)|done]].
  intros ? b ?. eapply triple_bind; [apply IH| |intros ? e [He _]; split; [exact (blameless_err e He)|done]].
  intros ? bs [_ Hb]. apply triple_ret. split; [done|]. intros ? [= <-]. simpl. by rewrite (Hb bs).
Qed.

Lemma CollectToDir_collects dir baseline out : triple (CollectToDir cwd dir baseline out) collects.
Proof.
  unfold CollectToDir. assert (Hc : plain_prog (Collect cwd dir baseline)).
  { unfold Collect, collect_one. apply plain_bind; [auto with blame|]. intros. apply plain_fold. solve_plain. }
  eapply triple_bind; [exact Hc| |intros new e He; destruct e; [by destruct (He message)|done..]].
  intros ? packages ?. case_decide as Hp; [by apply triple_fail|]. unfold MoveToDir. cbv zeta.
  apply (triple_impl _ collects); [|intros ? r Hr; exact Hr].
  assert (Hb : ∀ B (m : Prog B) f, plain_prog m → (∀ a, triple (f a) collects) → triple (m ≫= f) collects).
  { intros B m f Hm Hf. eapply triple_bind; [exact Hm|intros; apply Hf|intros ? e He; destruct e; [by destruct (He message)|done..]]. }
  apply Hb; [apply plain_abs|]. intros src. apply Hb; [apply plain_abs|]. intros o.
  case_decide; [by apply triple_ret|]. apply Hb; [apply plain_try|]. intros _.
  eapply triple_impl; [apply map_prog_length; unfold move_package; solve_plain|].
  intros ? [bs|[]] [Hr Hl]; simpl; [|by destruct (Hr message)|done..].
  intros ->. specialize (Hl [] eq_refl). by destruct packages.
Qed.

(** A result that blames nobody, of a step that must run a command or build something. *)
Lemma built_fail (is_build : ∀ T, op T → Prop) e :
  blameless (Err e : result build_error (list string)) → triple (fail e : Prog (list string)) (built is_build).
Proof. intros He. apply triple_fail. destruct e; [by destruct (He message)|done..]. Qed.

Lemma runs_BuildError (is_build : ∀ T, op T → Prop) dir args message :
  is_build _ (Run dir args) → triple (r ← ask (Run dir args); BuildError r message) (runs is_build).
Proof.
  intros Hb h. unfold ask, mbind, Prog_bind. destruct (answer ran h (Run dir args)) as [|[] []]; eexists; (split; [done|]); simpl;
    try done; by apply Exists_cons; left.
Qed.

Lemma runs_docker_wait (is_build : ∀ T, op T → Prop) id : is_build _ (ContainerWait id) → triple (docker_wait id) (runs is_build).
Proof.
  intros Hb h. unfold docker_wait, ask, mbind, Prog_bind. destruct (answer waited h (ContainerWait id)) as [|[]|code] eqn:E.
  4: destruct (decide (code = 0%Z)) as [->|].
  all: eexists; (split; [done|]); simpl; try done; apply Exists_cons; left; simpl; split; eauto.
Qed.

(** The command that builds the package: the makechrootpkg of a chroot of the build's own, or the
    wrapper of devtools; and bwrap run for the second phase, over what the first installed. *)
Definition chroot_command (config : ResolvedConfig) (spec : Spec) (args : list string) : Prop :=
  if uses_generated config
  then ∃ chrootDir, args = makechrootpkgArgs chrootDir (InstallPkgs spec) ++ MakepkgArgs spec
  else args = wrapper_args spec (ArchBuild (Devtools config)).
Definition bwrap_command (b : bwrap) (spec : Spec) (args : list string) : Prop :=
  ∃ resolv scratch srcAbs cache binds, filepath_Abs cwd (SrcDir spec) = Some srcAbs
    ∧ args = "bwrap" :: bwrapArgs resolv [rootfs b; path_join [scratch; "deps-upper"]] (path_join [scratch; "build-upper"])
        (path_join [scratch; "work2"]) srcAbs cache bwrapBuildUID (build_script (bool_decide (binds ≠ [])) (MakepkgArgs spec)) binds.

(** The build command of a configured backend: of a container, its end. *)
Definition build_command (config : ResolvedConfig) (spec : Spec) (T : Type) (o : op T) : Prop :=
  match o with
  | ContainerWait _ => Backend config = KindContainer
  | Run dir args =>
      Backend config = KindChroot ∧ dir = SrcDir spec ∧ chroot_command config spec args
      ∨ Backend config = KindBwrap ∧ bwrap_command (bwrap_New config) spec args
  | _ => False
  end.

Lemma plain_pull_image b platform : plain_prog (pull_image b platform).
Proof.
  assert (Hc : plain_prog (currentImageReference b)) by (intros h; exists []; by rewrite app_nil_r).
  assert (Hp : ∀ pinned digest, plain_prog (pin_image pinned digest)).
  { intros pinned digest h. unfold pin_image. case_decide; [by eexists|]. exists []. by rewrite app_nil_r. }
  unfold pull_image, recordImageDigest. solve_plain.
Qed.

Lemma plain_install_mounts i pkgs : plain_prog (install_mounts cwd i pkgs).
Proof. revert i. induction pkgs as [|pkg pkgs IH]; intros i; simpl; solve_plain. Qed.

Lemma plain_mounts dirs : plain_prog (localRepositoryMounts cwd dirs).
Proof. unfold localRepositoryMounts. apply plain_bind; [apply plain_map; unfold local_repository; solve_plain|solve_plain]. Qed.

Lemma plain_caches b : plain_prog (cacheMounts cwd b).
Proof. unfold cacheMounts, cache_mount. solve_plain. Qed.

Lemma plain_config_mount p : plain_prog (config_mount cwd p).
Proof. unfold config_mount. solve_plain. Qed.

Lemma plain_StageOverrideConfIn dir mk : plain_prog (StageOverrideConfIn dir mk).
Proof. unfold StageOverrideConfIn. solve_plain. Qed.

Lemma plain_writeTempConf pattern content : plain_prog (writeTempConf pattern content).
Proof. unfold writeTempConf. cbv zeta. solve_plain. Qed.

Lemma plain_script b spec cmd : plain_prog (lift (docker_script buildScript b spec cmd)).
Proof. apply plain_lift. unfold docker_script. by destruct (ExtraReposScript _). Qed.

Lemma plain_names names : plain_prog (lift (installNamesCommand names)).
Proof. apply plain_lift. unfold installNamesCommand. by repeat case_match. Qed.

Lemma plain_platform arch : plain_prog (lift (archToPlatform arch)).
Proof. apply plain_lift. unfold archToPlatform. by repeat case_decide. Qed.
Hint Resolve plain_pull_image plain_install_mounts plain_mounts plain_caches plain_config_mount : blame.
Hint Resolve plain_StageOverrideConfIn plain_writeTempConf plain_script plain_names plain_platform : blame.

Section backend.
Context (config : ResolvedConfig) (spec : Spec).
Abbreviation built := (built (build_command config spec)).
Abbreviation runs := (runs (build_command config spec)).

Lemma built_docker b : Backend config = KindContainer → triple (docker_Build cwd buildScript b spec) built.
Proof.
  intros Hk. unfold docker_Build. case_decide; [by apply built_fail|]. plain_steps (@plain_then_built).
  apply defer_built; [apply plain_any; auto with blame|]. plain_steps (@plain_then_built).
  apply defer_built; [apply plain_any; auto with blame|]. unfold docker_stage. plain_steps (@plain_then_built).
  apply defer_built; [apply plain_any; auto with blame|]. unfold docker_run, run_container. plain_steps (@plain_then_built).
  apply defer_built; [apply plain_any; unfold stop_container; solve_plain|]. plain_steps (@plain_then_built).
  apply runs_then_collects; [by apply runs_docker_wait|]. intros _. apply CollectToDir_collects.
Qed.

Lemma runs_chroot_build arch p1 p2 dir :
  Backend config = KindChroot → uses_generated config = true → triple (chroot_build spec arch p1 p2 dir) runs.
Proof.
  intros Hk Hg. unfold chroot_build. apply plain_then_runs; [apply plain_ask|]. intros [|]; [|by apply triple_fail].
  apply runs_BuildError. left. split_and!; [done..|]. unfold chroot_command. rewrite Hg. by eexists.
Qed.

Lemma built_devtools : Backend config = KindChroot → triple (devtools_Build cwd config spec) built.
Proof.
  intros Hk. unfold devtools_Build. case_decide; [by apply built_fail|]. case_match; [by apply built_fail|].
  plain_steps (@plain_then_built). apply runs_then_collects; [|intros _; apply CollectToDir_collects].
  case_match eqn:Hg; [|apply runs_BuildError; left; split_and!; [done..|]; unfold chroot_command; by rewrite Hg].
  unfold runChrootBuildGenerated, renderChrootPacmanConf, renderChrootMakepkgConf, read_conf. cbv zeta.
  plain_steps (@plain_then_runs). apply defer_runs; [apply plain_any; auto with blame|].
  plain_steps (@plain_then_runs). apply defer_runs; [apply plain_any; auto with blame|].
  plain_steps (@plain_then_runs). apply defer_runs; [apply plain_any; auto with blame|]. by apply runs_chroot_build.
Qed.

Lemma runs_phase2 src cache scratch binds :
  Backend config = KindBwrap → filepath_Abs cwd (SrcDir spec) = Some src →
  triple (bwrap_phase2 (bwrap_New config) spec src cache scratch binds) runs.
Proof.
  intros Hk Hs. unfold bwrap_phase2, runBwrap. intros h. unfold mbind at 1, Prog_bind at 1.
  destruct (plain_then_runs (build_command config spec) (ask (Stat "/etc/resolv.conf"))
    (λ resolv, r ← ask (Run "" ("bwrap" :: bwrapArgs (is_ok resolv) [rootfs (bwrap_New config); path_join [scratch; "deps-upper"]]
      (path_join [scratch; "build-upper"]) (path_join [scratch; "work2"]) src cache bwrapBuildUID
      (build_script (bool_decide (binds ≠ [])) (MakepkgArgs spec)) binds)); BuildError r "bwrap build phase failed")
    (plain_ask _) (λ resolv, runs_BuildError (build_command config spec) _ _ _ ltac:(right; split; [exact Hk|]; repeat eexists; exact Hs)) h) as (new & E & Hr).
  by exists new.
Qed.

Lemma built_bwrap : Backend config = KindBwrap → triple (bwrap_Build cwd bwrapDepsScript (bwrap_New config) spec) built.
Proof.
  intros Hk. unfold bwrap_Build, inContainer, prepareCacheDir. case_decide; [by apply built_fail|]. case_decide; [by apply built_fail|].
  apply plain_then_built; [solve_plain|]. intros fi. case_match; [by apply built_fail|].
  apply plain_then_built; [solve_plain|]. intros nested. case_match; [by apply built_fail|].
  apply plain_then_built; [solve_plain|]. intros _.
  unfold abs. destruct (filepath_Abs cwd (SrcDir spec)) as [src|] eqn:Hs; [|by apply built_fail].
  change (lift (result_of_option (Failed "failed to resolve src dir") (Some src))) with (mret src : Prog string).
  rewrite bind_ret. plain_steps (@plain_then_built). apply defer_built; [apply plain_any; auto with blame|].
  unfold bwrap_phases. apply plain_then_built; [apply plain_for_each; solve_plain|]. intros _.
  apply plain_then_built; [auto with blame|]. intros baseline.
  apply plain_then_built; [apply plain_lift; unfold bwrapInstall; cbv zeta; by destruct (ExtraReposScript _)|]. intros [script binds].
  apply plain_then_built; [unfold runBwrap; solve_plain|]. intros [|]; [|by apply built_fail].
  assert (Hf : ∀ cache scratch bs, triple (_ ← bwrap_phase2 (bwrap_New config) spec src cache scratch bs; CollectToDir cwd src baseline (OutDir spec)) built).
  { intros. apply runs_then_collects; [by apply runs_phase2|]. intros _. apply CollectToDir_collects. }
  unfold bwrap_build. cbv zeta. case_match; [apply Hf|]. plain_steps (@plain_then_built).
  apply defer_built; [apply plain_any; auto with blame|apply Hf].
Qed.

End backend.

(** C39. What the result of a build means, on every backend and whatever it is answered: success
    comes with packages, and after the build command of that backend ended well (the end of
    the container, makechrootpkg or the wrapper of devtools, bwrap's second phase); and a package is
    blamed for a failure ([ErrBuildFailed], which callers do not retry) only if that very command
    exited with a status while the build was not cancelled, or ended well and left no package. *)
Theorem build_outcome config spec h :
  let '(r, h') := factory_Build cwd buildScript bwrapDepsScript config spec h in
  ∃ new, h' = h ++ new ∧ built (build_command config spec) new r.
Proof.
  assert (Hb : triple (factory_Build cwd buildScript bwrapDepsScript config spec) (built (build_command config spec))).
  { unfold factory_Build. apply plain_then_built; [auto with blame|]. intros _.
    repeat case_decide; [by apply built_devtools|by apply built_docker|by apply built_bwrap|by apply built_fail]. }
  specialize (Hb h). by destruct (factory_Build _ _ _ _ _ h).
Qed.
End outcome.

(** ** What a build container reaches *)

(** ** Paths and what they contain *)
Definition abs_clean (p : string) : Prop := ∃ cs, p = abs_path cs ∧ Forall (λ c, plain c = true) cs.

Lemma pathContains_spec bs ts :
  Forall (λ c, plain c = true) bs → Forall (λ c, plain c = true) ts →
  pathContains (abs_path bs) (abs_path ts) = true ↔ bs `prefix_of` ts.
Proof.
  intros Hb Ht. unfold pathContains. destruct (filepath_Rel_inside bs ts Hb Ht) as (rel & -> & Hr).
  rewrite andb_true_iff, bool_decide_eq_true, negb_true_iff. split.
  - intros [H1 H2]. apply dec_stable. intros Hn. apply Hr in Hn as [?|?]; congruence.
  - intros Hp. split; [intros E; apply (proj1 Hr); auto|]. apply not_true_is_false. intros E. apply (proj1 Hr); auto.
Qed.

Lemma pathContains_refl p : abs_clean p → pathContains p p = true.
Proof. intros (cs & -> & Hc). by apply pathContains_spec. Qed.

Lemma length_abs_path_app bs rest :
  Forall (λ c, plain c = true) rest → rest ≠ [] → String.length (abs_path bs) < String.length (abs_path (bs ++ rest)).
Proof.
  intros Hr Hn. unfold abs_path. rewrite !length_str_app. assert (0 < String.length (join "/" rest)).
  { destruct rest as [|c rest]; [done|]. apply Forall_cons in Hr as [Hc _]. apply plain_occurs in Hc as (_ & Hc & _).
    destruct c; [done|]. destruct rest; simpl; lia. }
  destruct bs as [|b bs]; [simpl; lia|]. rewrite join_app by done. rewrite !length_str_app. simpl. lia.
Qed.

(** A path inside another is longer, or the same. *)
Lemma pathContains_length p q :
  abs_clean p → abs_clean q → pathContains p q = true → String.length p < String.length q ∨ p = q.
Proof.
  intros (bs & -> & Hb) (ts & -> & Ht) [rest ->]%pathContains_spec; [|done..].
  destruct (decide (rest = [])) as [->|Hn]; [right; by rewrite app_nil_r|left].
  apply length_abs_path_app; [|done]. by apply Forall_app in Ht as [_ Ht].
Qed.

(** ** The selection *)
#[export] Instance path_le_trans : Transitive path_le.
Proof.
  intros a b c [?|[? ?]] [?|[? ?]]; unfold path_le; [left; lia..|]. right. split; [lia|]. by eapply (transitivity (R := String.le)).
Qed.
#[export] Instance path_le_total : Total path_le.
Proof.
  intros a b. unfold path_le. destruct (lt_eq_lt_dec (String.length a) (String.length b)) as [[?|?]|?]; [by left; left| |by right; left].
  destruct (total String.le a b); [left|right]; right; auto.
Qed.

(** What has been selected of the paths looked at so far. *)
Record selection (seen selected : list string) : Prop := {
  sel_sub : selected ⊆ seen;
  sel_cover : ∀ p, p ∈ seen → ∃ s, s ∈ selected ∧ pathContains s p = true;
  sel_apart : ∀ i j s t, selected !! i = Some s → selected !! j = Some t → pathContains s t = true → i = j;
}.

Lemma select_path_spec seen selected c :
  Forall abs_clean seen → abs_clean c → Forall (λ p, path_le p c) seen → selection seen selected →
  selection (seen ++ [c]) (select_path selected c).
Proof.
  intros Hs Hc Hle [Hsub Hcov Hap]. rewrite Forall_forall in Hs, Hle. unfold select_path. case_match eqn:E.
  - apply existsb_exists in E as (s & Hin & Hcs). apply list_elem_of_In in Hin. split; [set_solver| |done].
    intros p [Hp| ->%list_elem_of_singleton]%elem_of_app; [by apply Hcov|by exists s].
  - assert (Hn : ∀ s, s ∈ selected → pathContains s c = false).
    { intros s Hin. apply not_true_is_false. intros Hcs. rewrite <-not_true_iff_false in E. apply E, existsb_exists.
      exists s. by rewrite <-list_elem_of_In. }
    split; [set_solver| |].
    + intros p [Hp| ->%list_elem_of_singleton]%elem_of_app; [destruct (Hcov p Hp) as (s & ? & ?); exists s; set_solver|].
      exists c. split; [set_solver|]. by apply pathContains_refl.
    + assert (Hback : ∀ s, s ∈ selected → pathContains c s = false).
      { intros s Hin. apply not_true_is_false. intros Hcs.
        destruct (pathContains_length c s Hc) as [Hl| ->]; [by apply Hs, Hsub|done| |].
        - destruct (Hle s) as [?|[? ?]]; [by apply Hsub|lia..].
        - rewrite Hn in Hcs by done. done. }
      intros i j s t Hi Hj Hst. apply lookup_app_Some in Hi as [Hi|[Hi1 Hi2]]; apply lookup_app_Some in Hj as [Hj|[Hj1 Hj2]].
      * by eapply Hap.
      * apply list_lookup_singleton_Some in Hj2 as [Hj2 <-]. rewrite Hn in Hst; [done|]. by eapply list_elem_of_lookup_2.
      * apply list_lookup_singleton_Some in Hi2 as [Hi2 <-]. rewrite Hback in Hst; [done|]. by eapply list_elem_of_lookup_2.
      * apply list_lookup_singleton_Some in Hi2 as [? _]. apply list_lookup_singleton_Some in Hj2 as [? _]. lia.
Qed.

Lemma select_paths_from seen selected l :
  Forall abs_clean (seen ++ l) → StronglySorted path_le (seen ++ l) → selection seen selected →
  selection (seen ++ l) (foldl select_path selected l).
Proof.
  revert seen selected. induction l as [|c l IH]; intros seen selected Ha Hs Hsel; [by rewrite app_nil_r|].
  simpl. rewrite cons_middle, app_assoc in *. apply IH; [done..|]. rewrite <-app_assoc in Ha, Hs.
  apply Forall_app in Ha as [Ha Hc]. apply Forall_cons in Hc as [Hc _].
  apply select_path_spec; [done..| |done]. apply Forall_forall. intros p Hp.
  eapply (StronglySorted_app path_le) in Hs as (Hs & _ & _). by apply Hs; [|set_solver].
Qed.

(** The directories mounted contain every local repository, are repositories themselves, and
    none lies in another or occurs twice. *)
Lemma select_paths_spec paths : Forall abs_clean paths → selection paths (select_paths paths).
Proof.
  intros Ha. pose proof (merge_sort_Permutation path_le paths) as Hp.
  destruct (select_paths_from [] [] (merge_sort path_le paths)) as [Hsub Hcov Hap].
  - simpl. by rewrite Hp.
  - simpl. apply StronglySorted_merge_sort; apply _.
  - split; [done|set_solver|done].
  - simpl in *. split; [intros x Hx; rewrite <-Hp; by apply Hsub|intros p Hin; apply Hcov; by rewrite Hp|done].
Qed.

(** ** The mounts of a container *)
Definition creates (Q : ContainerConfig → Prop) (e : event) : Prop :=
  match e with @Ev T o _ => match o with ContainerCreate config => Q config | _ => True end end.

Definition reaches (dirs : list string) (cwd : option string) (ms : list Mount) : Prop :=
  ∀ d, d ∈ dirs → ∃ p s, filepath_Abs cwd d = Some p ∧ mkMount s s true ∈ ms ∧ pathContains s p = true.

Section mounts.
Context {G : GoLib} {W : World} (cwd : option string) (buildScript : string).
Context (Hcwd : ∀ wd, cwd = Some wd → is_abs wd = true).

Context (dk : docker) (spec : Spec) (staging override : string).

(** A package to install is mounted under its index. *)
Definition install_at (i : nat) (pkg : string) (m : Mount) : Prop :=
  ReadOnly m = true ∧ filepath_Abs cwd pkg = Some (Source m) ∧
  MountTarget m = "/build/install/" +:+ format_int (Z.of_nat i) +:+ "/" +:+ path_base pkg.
Definition install_mount (m : Mount) : Prop := ∃ i pkg, InstallPkgs spec !! i = Some pkg ∧ install_at i pkg m.

(** A local repository that was asked for, at its own path, which overlaps none of the
    container's own. *)
Definition repository_mount (m : Mount) : Prop :=
  Source m = MountTarget m ∧ (∃ d, d ∈ LocalRepositoryDirs spec ∧ filepath_Abs cwd d = Some (Source m)) ∧
  Forall (λ r, pathsOverlap (Source m) r = false) reserved_paths.

(** The directory [dir] of the host, if one is configured, at a fixed place. *)
Definition mounts_at (dir target : string) (m : Mount) : Prop :=
  dir ≠ "" ∧ filepath_Abs cwd dir = Some (Source m) ∧ MountTarget m = target.

(** What each mount shows, and where.  Only the staging directory and the operator's caches can
    be written. *)
Definition mount_ok (m : Mount) : Prop :=
  if ReadOnly m then
    mounts_at (SrcDir spec) "/build/src" m
    ∨ Source m = override ∧ MountTarget m = "/build/staging/makepkg.override.conf"
    ∨ mounts_at (PacmanConf spec) "/build/staging/pacman.conf" m
    ∨ install_mount m ∨ repository_mount m
  else
    Source m = staging ∧ MountTarget m = "/build/out"
    ∨ mounts_at (pacmanCacheDir dk) "/var/cache/pacman/pkg" m ∨ mounts_at (ccacheDir dk) "/build/ccache" m.

Definition quietly {A} (P : A → Prop) (new : list event) (r : result build_error A) : Prop :=
  Forall (creates (λ _, False)) new ∧ ∀ a, r = Ok a → P a.
(** Every container [m] creates is as [Q] says of it and of what [m] did. *)
Definition only (Q : list event → ContainerConfig → Prop) {A} (new : list event) (r : result build_error A) : Prop :=
  Forall (creates (Q new)) new.
Definition stable (Q : list event → ContainerConfig → Prop) : Prop := ∀ new new' l c, Q l c → Q (new ++ l ++ new') c.

Lemma creates_none Q new : Forall (creates (λ _, False)) new → Forall (creates Q) new.
Proof. intros Hn. eapply Forall_impl; [exact Hn|]. intros [T o r] He. by destruct o. Qed.

Lemma quiet_bind {A B} (m : Prog A) (f : A → Prog B) P P' :
  triple m (quietly P) → (∀ a, P a → triple (f a) (quietly P')) → triple (m ≫= f) (quietly P').
Proof.
  intros Hm Hf. eapply triple_bind; [exact Hm| |by intros ? e [? _]].
  intros new a [Hn Hp]. eapply triple_impl; [by apply Hf, Hp|]. intros new' r [? ?]. split; [by apply Forall_app|done].
Qed.

Lemma stable_const (Q : ContainerConfig → Prop) : stable (λ _, Q).
Proof. by intros ?????. Qed.

Lemma only_prefix Q new l : stable Q → Forall (creates (Q l)) l → Forall (creates (Q (new ++ l))) l.
Proof.
  intros HQ Hl. eapply Forall_impl; [exact Hl|]. intros [T o r] He. destruct o; try done.
  rewrite <-(app_nil_r l). by apply HQ.
Qed.

Lemma quiet_then_only {A B} (m : Prog A) (f : A → Prog B) P Q :
  stable Q → triple m (quietly P) → (∀ a, P a → triple (f a) (only Q)) → triple (m ≫= f) (only Q).
Proof.
  intros HQ Hm Hf. eapply triple_bind; [exact Hm| |intros ? e [? _]; by apply creates_none].
  intros new a [Hn Hp]. eapply triple_impl; [by apply Hf, Hp|]. intros new' r Hn'. apply Forall_app. split; [by apply creates_none|].
  by apply only_prefix.
Qed.

(** A step whose answer [Q] may use: the call that made it is in the log. *)
Definition answers {A} (o : op (result fs_error A)) (new : list event) (r : result build_error A) : Prop :=
  Forall (creates (λ _, False)) new ∧ ∀ a, r = Ok a → Ev o (Ok a) ∈ new.
Definition after {A} (o : op (result fs_error A)) (Q : A → list event → ContainerConfig → Prop) (l : list event) (c : ContainerConfig) : Prop :=
  ∃ a, Ev o (Ok a) ∈ l ∧ Q a l c.

Lemma after_stable {A} (o : op (result fs_error A)) Q : (∀ a, stable (Q a)) → stable (after o Q).
Proof.
  intros HQ new new' l c (a & Ha & Hc). exists a. split; [apply elem_of_app; right; apply elem_of_app; by left|by apply HQ].
Qed.

Lemma answers_then_only {A B} (o : op (result fs_error A)) (m : Prog A) (f : A → Prog B) Q :
  (∀ a, stable (Q a)) → triple m (answers o) → (∀ a, triple (f a) (only (Q a))) → triple (m ≫= f) (only (after o Q)).
Proof.
  intros HQ Hm Hf. eapply triple_bind; [exact Hm| |intros ? e [? _]; by apply creates_none].
  intros new a [Hn Ha]. specialize (Ha a eq_refl). eapply triple_impl; [apply Hf|]. intros new' r Hn'. apply Forall_app.
  split; [by apply creates_none|]. eapply Forall_impl; [exact Hn'|]. intros [T o' r'] He. destruct o'; try done.
  exists a. split; [apply elem_of_app; by left|]. rewrite <-(app_nil_r new'). by apply HQ.
Qed.

Lemma answers_try {A} message (o : op (result fs_error A)) :
  (∀ r, creates (λ _, False) (Ev o r)) → triple (try message o) (answers o).
Proof.
  intros Ho h. unfold try, ask, mbind, Prog_bind. destruct (answer _ h o) as [a|e]; eexists; (split; [done|]);
    (split; [by repeat constructor|]); [|done]. intros a' [= <-]. by left.
Qed.

Lemma quiet_ret {A} (a : A) (P : A → Prop) : P a → triple (mret a) (quietly P).
Proof. intros Hp. apply triple_ret. split; [constructor|by intros ? [= <-]]. Qed.
Lemma quiet_fail {A} e (P : A → Prop) : triple (fail e) (quietly P).
Proof. apply triple_fail. by split; [constructor|]. Qed.
Lemma quiet_lift {A} (r : result build_error A) : triple (lift r) (quietly (λ a, r = Ok a)).
Proof. apply triple_lift. by split; [constructor|]. Qed.
Lemma quiet_ask {T} (o : op T) : (∀ r, creates (λ _, False) (Ev o r)) → triple (ask o) (quietly (λ _, True)).
Proof. intros Ho. apply triple_ask. intros r. by repeat constructor. Qed.
Lemma quiet_true {A} (m : Prog A) P : triple m (quietly P) → triple m (quietly (λ _, True)).
Proof. intros Hm. eapply triple_impl; [exact Hm|]. by intros new r [? _]. Qed.
Lemma quiet_try {A} message (o : op (result fs_error A)) :
  (∀ r, creates (λ _, False) (Ev o r)) → triple (try message o) (quietly (λ _, True)).
Proof. intros Ho. eapply quiet_bind; [by apply quiet_ask|]. intros [a|e] _; [by apply quiet_ret|apply quiet_fail]. Qed.
Lemma quiet_only {A} (m : Prog A) P Q : triple m (quietly P) → triple m (only Q).
Proof. intros Hm. eapply triple_impl; [exact Hm|]. intros new r [? _]. by apply creates_none. Qed.
Lemma only_defer {A B} (c : Prog B) (body : Prog A) Q :
  stable Q → triple c (quietly (λ _, True)) → triple body (only Q) → triple (defer c body) (only Q).
Proof.
  intros HQ Hc Hb h. destruct (Hb h) as (new & E & Hr). unfold defer. destruct (body h) as [r h1]; simpl in *. subst h1.
  destruct (Hc (h ++ new)) as (new' & E' & Hr' & _). exists (new ++ new'). rewrite E', app_assoc. split; [done|].
  apply Forall_app. split; [|by apply creates_none]. eapply Forall_impl; [exact Hr|]. intros [T o r'] He. destruct o; try done.
  by apply (HQ [] new').
Qed.

Lemma quiet_abs message p : triple (abs cwd message p) (quietly (λ a, filepath_Abs cwd p = Some a ∧ abs_clean a)).
Proof.
  unfold abs. eapply triple_impl; [apply quiet_lift|]. intros new r [Hn Hr]. split; [done|]. intros a Ha.
  specialize (Hr a Ha). destruct (filepath_Abs cwd p) eqn:E; simpl in Hr; simplify_eq. split; [done|].
  by apply (filepath_Abs_spec cwd Hcwd) in E.
Qed.

(** A step of no account here: it creates no container. *)
Ltac quiet :=
  repeat first
    [ progress intros
    | done
    | apply quiet_ret; done
    | apply quiet_fail
    | eapply quiet_true; apply quiet_lift
    | apply quiet_ask; done
    | apply quiet_try; done
    | eapply quiet_true; apply quiet_abs
    | eapply quiet_bind with (P := λ _, True)
    | case_match
    | case_decide ].

Lemma quiet_map {A B} (f : A → Prog B) (P : A → B → Prop) l :
  (∀ a, triple (f a) (quietly (P a))) → triple (map_prog f l) (quietly (λ bs, Forall2 P l bs)).
Proof.
  intros Hf. induction l as [|a l IH]; [by apply quiet_ret|]. simpl. eapply quiet_bind; [apply Hf|]. intros b Hb.
  eapply quiet_bind; [exact IH|]. intros bs Hbs. apply quiet_ret. by constructor.
Qed.

Definition repository_at (d p : string) : Prop :=
  filepath_Abs cwd d = Some p ∧ abs_clean p ∧ Forall (λ r, pathsOverlap p r = false) reserved_paths.

Lemma quiet_local_repository d : triple (local_repository cwd d) (quietly (repository_at d)).
Proof.
  unfold local_repository. eapply quiet_bind; [apply quiet_abs|]. intros p [Hp Ha].
  eapply quiet_bind; [by apply quiet_try|]. intros info _. case_match; [apply quiet_fail|].
  destruct (existsb (pathsOverlap p) reserved_paths) eqn:E; [apply quiet_fail|]. apply quiet_ret. split_and!; [done..|].
  apply Forall_forall. intros r Hr. apply not_true_is_false. intros Ho. rewrite <-not_true_iff_false in E. apply E, existsb_exists.
  exists r. by rewrite <-list_elem_of_In.
Qed.

Lemma quiet_repositories :
  triple (localRepositoryMounts cwd (LocalRepositoryDirs spec)) (quietly (λ ms, Forall mount_ok ms ∧ reaches (LocalRepositoryDirs spec) cwd ms)).
Proof.
  unfold localRepositoryMounts. eapply quiet_bind; [apply quiet_map, quiet_local_repository|].
  intros paths Hps. apply quiet_ret.
  assert (Hc : Forall abs_clean paths) by (apply Forall_forall; intros p Hp; apply list_elem_of_lookup in Hp as [i Hi];
    destruct (Forall2_lookup_r _ _ _ _ _ Hps Hi) as (d & _ & (_ & ? & _)); done).
  destruct (select_paths_spec paths Hc) as [Hsub Hcov _]. split.
  - apply Forall_map, Forall_forall. intros s Hs. apply Hsub in Hs. apply list_elem_of_lookup in Hs as [i Hi].
    destruct (Forall2_lookup_r _ _ _ _ _ Hps Hi) as (d & Hd & (Ha & _ & Ho)). unfold mount_ok. simpl. do 4 right.
    split_and!; [done| |done]. exists d. split; [by eapply list_elem_of_lookup_2|done].
  - intros d Hd. apply list_elem_of_lookup in Hd as [i Hi]. destruct (Forall2_lookup_l _ _ _ _ _ Hps Hi) as (p & Hp & (Ha & _)).
    destruct (Hcov p) as (s & Hs & Hsp); [by eapply list_elem_of_lookup_2|]. exists p, s. split_and!; [done| |done].
    by apply (list_elem_of_fmap_2 (λ d, mkMount d d true)).
Qed.

Lemma quiet_cache dir target : triple (cache_mount cwd dir target) (quietly (Forall (λ m, ReadOnly m = false ∧ mounts_at dir target m))).
Proof.
  unfold cache_mount. case_decide; [by apply quiet_ret|]. eapply quiet_bind; [apply quiet_abs|]. intros p [Hp _].
  eapply quiet_bind; [by apply quiet_try|]. intros _ _. apply quiet_ret. repeat constructor; done.
Qed.

Lemma quiet_caches : triple (cacheMounts cwd dk) (quietly (Forall mount_ok)).
Proof.
  unfold cacheMounts. eapply quiet_bind; [apply quiet_cache|]. intros m1 H1.
  eapply quiet_bind; [apply quiet_cache|]. intros m2 H2. apply quiet_ret. unfold mount_ok. apply Forall_app. split.
  - eapply Forall_impl; [exact H1|]. intros m [-> ?]. auto.
  - eapply Forall_impl; [exact H2|]. intros m [-> ?]. auto.
Qed.

Lemma quiet_config : triple (config_mount cwd (PacmanConf spec)) (quietly (λ ms, Forall mount_ok ms ∧
  (PacmanConf spec ≠ "" → Exists (mounts_at (PacmanConf spec) "/build/staging/pacman.conf") ms))).
Proof.
  unfold config_mount. case_decide; [by apply quiet_ret|]. eapply quiet_bind; [apply quiet_abs|]. intros q [Hq _].
  apply quiet_ret. assert (mounts_at (PacmanConf spec) "/build/staging/pacman.conf" (mkMount q "/build/staging/pacman.conf" true)) as Hm by done.
  split; [constructor; [right; right; by left|constructor]|]. intros _. by apply Exists_cons; left.
Qed.

Lemma quiet_installs_from i pkgs : (∀ k, pkgs !! k = InstallPkgs spec !! (i + k)) →
  triple (install_mounts cwd i pkgs) (quietly (λ ms, Forall install_mount (map fst ms)
    ∧ ∀ k pkg, pkgs !! k = Some pkg → Exists (install_at (i + k) pkg) (map fst ms))).
Proof.
  revert i. induction pkgs as [|pkg pkgs IH]; intros i Hi; simpl; [by apply quiet_ret|].
  eapply quiet_bind; [apply quiet_abs|]. intros p [Hp _]. eapply quiet_bind; [apply IH|].
  { intros k. specialize (Hi (S k)). simpl in Hi. by rewrite Hi, Nat.add_succ_r. }
  intros ms [Hms Hl]. apply quiet_ret. simpl.
  set (m := mkMount p _ true). assert (install_at i pkg m) as Hm by done. split.
  - constructor; [|done]. exists i, pkg. split; [|done]. specialize (Hi 0). by rewrite Nat.add_0_r in Hi.
  - intros [|k] q; simpl; [intros [= <-]; rewrite Nat.add_0_r; by apply Exists_cons; left|].
    intros Hq. apply Exists_cons. right. rewrite Nat.add_succ_r. by apply Hl.
Qed.

Lemma answers_StageOverride dir mk : triple (StageOverrideConfIn dir mk) (answers (CreateTemp dir "makepkg-override-*.conf")).
Proof.
  unfold StageOverrideConfIn. eapply triple_bind; [apply quiet_lift| |by intros ? e [? _]]. intros new overrides [Hn _].
  eapply triple_bind; [by apply answers_try| |intros ? e [? _]; split; [by apply Forall_app|done]]. intros new1 f [Hn1 Hf]. specialize (Hf f eq_refl).
  eapply (triple_impl _ (quietly (eq f))).
  - eapply quiet_bind with (P := λ _, True); [quiet|]. intros [|] _; [|unfold ignore; eapply quiet_bind with (P := λ _, True); quiet].
    eapply quiet_bind with (P := λ _, True); [quiet|]. intros [|] _; [by apply quiet_ret|unfold ignore; eapply quiet_bind with (P := λ _, True); quiet].
  - intros new2 r [Hn2 Hr]. split; [by repeat (apply Forall_app; split)|]. intros a <-%Hr. set_solver.
Qed.

Lemma quiet_pull platform : triple (pull_image dk platform) (quietly (λ _, True)).
Proof.
  assert (Hc : triple (currentImageReference dk) (quietly (λ _, True))).
  { intros h. exists []. rewrite app_nil_r. split; [done|]. by split; [constructor|]. }
  assert (Hp : ∀ pinned digest, triple (pin_image pinned digest) (quietly (λ _, True))).
  { intros pinned digest h. unfold pin_image. case_decide; [by apply quiet_ask|].
    exists []. rewrite app_nil_r. split; [done|]. by split; [constructor|]. }
  unfold pull_image, recordImageDigest.
  eapply quiet_bind; [exact Hc|intros]. eapply quiet_bind; [by apply quiet_try|intros]. eapply quiet_bind; [by apply quiet_try|intros].
  eapply quiet_bind with (P := λ _, True); [|intros; exact Hc].
  eapply quiet_bind; [by apply quiet_ask|]. intros [ds|e] _; [|by apply quiet_ret]. cbv zeta.
  destruct (cut "@" _) as [[? ?]|]; [apply Hp|by apply quiet_ret].
Qed.

Lemma quiet_Collect dir baseline : triple (Collect cwd dir baseline) (quietly (λ _, True)).
Proof.
  unfold Collect. eapply quiet_bind; [by apply quiet_try|]. intros entries _. generalize (@nil string).
  induction entries as [|e entries IH]; intros s; simpl; [by apply quiet_ret|].
  eapply quiet_bind with (P := λ _, True); [unfold collect_one; quiet|]. intros. apply IH.
Qed.

Lemma quiet_MoveToDir built src out : triple (MoveToDir cwd built src out) (quietly (λ _, True)).
Proof.
  unfold MoveToDir. cbv zeta. eapply quiet_bind; [eapply quiet_true, quiet_abs|intros]. eapply quiet_bind; [eapply quiet_true, quiet_abs|intros].
  case_decide; [by apply quiet_ret|]. eapply quiet_bind; [by apply quiet_try|intros].
  eapply quiet_true, (quiet_map _ (λ _ _, True)). intros p. unfold move_package, moveFile. quiet.
Qed.

(** What a container is given. *)
Definition confined (c : ContainerConfig) : Prop :=
  Forall mount_ok (Mounts c) ∧ reaches (LocalRepositoryDirs spec) cwd (Mounts c)
  ∧ (∃ src, filepath_Abs cwd (SrcDir spec) = Some src ∧ base_mounts src staging override ⊆ Mounts c)
  ∧ (PacmanConf spec ≠ "" → Exists (mounts_at (PacmanConf spec) "/build/staging/pacman.conf") (Mounts c))
  ∧ (∀ i pkg, InstallPkgs spec !! i = Some pkg → Exists (install_at i pkg) (Mounts c))
  ∧ archToPlatform (Arch spec) = Ok (c_Platform c) ∧ Env c = target_env (Arch spec).

Lemma only_run_container (Q : ContainerConfig → Prop) config out :
  Q config → triple (run_container cwd config staging out) (only (λ _, Q)).
Proof.
  intros HQ. unfold run_container. eapply triple_bind with (mid := only (λ _, Q)).
  - unfold try. eapply triple_bind with (mid := only (λ _, Q)); [apply triple_ask; intros r; constructor; [exact HQ|constructor]| |by intros].
    intros new [id|e] Hn; [apply triple_ret|apply triple_fail]; unfold only in *; by rewrite app_nil_r.
  - intros new id Hn. apply (triple_impl _ (only (λ _, Q))); [|intros; by apply Forall_app].
    apply only_defer; [apply stable_const|unfold stop_container, ignore; quiet|].
    apply quiet_only with (P := λ _, True). eapply quiet_bind; [by apply quiet_try|intros].
    eapply quiet_bind with (P := λ _, True); [unfold ignore; quiet|intros].
    eapply quiet_bind with (P := λ _, True); [unfold docker_wait; quiet|intros].
    unfold CollectToDir. eapply quiet_bind; [apply quiet_Collect|intros]. case_decide; [apply quiet_fail|apply quiet_MoveToDir].
  - by intros.
Qed.

Lemma only_docker_run platform imageRef script src out installs :
  archToPlatform (Arch spec) = Ok platform → SrcDir spec ≠ "" → filepath_Abs cwd (SrcDir spec) = Some src →
  Forall install_mount installs → (∀ i pkg, InstallPkgs spec !! i = Some pkg → Exists (install_at i pkg) installs) →
  triple (docker_run cwd dk spec platform imageRef script src out staging installs override) (only (λ _, confined)).
Proof.
  intros Hplatform Hne Hsrc Hi Hall. unfold docker_run.
  eapply quiet_then_only; [apply stable_const|apply quiet_config|]. intros configs [Hc Hconf].
  eapply quiet_then_only; [apply stable_const|apply quiet_repositories|]. intros repos [Hr Hreach].
  eapply quiet_then_only; [apply stable_const|apply quiet_caches|]. intros caches Hca. apply only_run_container.
  unfold confined. cbn [Mounts c_Platform Env]. split_and!; [|intros d Hd| | |intros i pkg Hp|done..].
  - assert (Hi' : Forall mount_ok installs).
    { eapply Forall_impl; [exact Hi|]. intros m Hm. unfold mount_ok. assert (ReadOnly m = true) as -> by (by destruct Hm as (? & ? & ? & ? & ?)). auto. }
    repeat (apply Forall_app; split); try done. unfold base_mounts, mount_ok.
    repeat (apply Forall_cons; split); simpl; [by left|by left|right; by left|constructor].
  - destruct (Hreach d Hd) as (q & s & ? & ? & ?). exists q, s. split_and!; [done|set_solver|done].
  - exists src. split; [done|]. set_solver.
  - intros Hp. apply Exists_app. right. apply Exists_app. left. auto.
  - do 2 (apply Exists_app; right). apply Exists_app. left. auto.
Qed.
End mounts.

Section confinement.
Context {G : GoLib} {W : World} (cwd : option string) (buildScript : string).
Context (Hcwd : ∀ wd, cwd = Some wd → is_abs wd = true).
Context (b : docker) (spec : Spec).

(** The directory the packages end up in, and what a build makes next to it. *)
Definition out_dir : string := if decide (OutDir spec = "") then SrcDir spec else OutDir spec.
Definition makes_override (out staging : string) : list event → ContainerConfig → Prop :=
  after (CreateTemp (path_dir out) "makepkg-override-*.conf") (λ override _, confined cwd b spec staging override).
Definition makes_staging (out : string) : list event → ContainerConfig → Prop :=
  after (MkdirTemp (path_dir out) ".kamisato-docker-out-*") (makes_override out).

Lemma stable_override out staging : stable (makes_override out staging).
Proof. apply after_stable. intros. apply stable_const. Qed.
Lemma stable_staging out : stable (makes_staging out).
Proof. apply after_stable. intros. apply stable_override. Qed.
Hint Resolve stable_override stable_staging : core.

Lemma only_docker_stage platform src out staging :
  archToPlatform (Arch spec) = Ok platform → SrcDir spec ≠ "" → filepath_Abs cwd (SrcDir spec) = Some src →
  triple (docker_stage cwd buildScript b spec platform src out staging) (only (makes_override out staging)).
Proof.
  intros Hplatform Hne Hsrc. unfold docker_stage.
  eapply quiet_then_only; [auto|apply quiet_pull|]. intros image _.
  eapply quiet_then_only; [auto|by apply (quiet_installs_from cwd Hcwd spec 0)|]. intros installs [Hi Hall].
  eapply quiet_then_only; [auto|apply quiet_lift|]. intros names _. eapply quiet_then_only; [auto|apply quiet_lift|]. intros script _.
  apply answers_then_only; [intros; apply stable_const|by apply (answers_StageOverride cwd)|]. intros override.
  apply only_defer; [apply stable_const|unfold ignore; eapply quiet_bind with (P := λ _, True); [by apply quiet_ask|intros; by apply quiet_ret]|].
  by apply only_docker_run.
Qed.

(** C38. What a build container reaches.  Whatever a build is asked for and answered, every
    container it creates can write only the staging directory that this build made next to the
    output and collects from, and the operator's two caches; all else is read-only: at fixed places the
    source, the makepkg configuration this build staged, the pacman configuration it is given and
    the packages it is to install, each from the path the request names; and at its own path a
    local repository of the request, which lies neither in nor above a directory of the
    container's own.  The source, the staging directory, the configurations and the packages are
    all there, and every local repository that is asked for is reached. *)
Theorem container_confined h :
  ∃ new, (docker_Build cwd buildScript b spec h).2 = h ++ new ∧
    ∀ config r, Ev (ContainerCreate config) r ∈ new →
      ∃ out staging override, filepath_Abs cwd out_dir = Some out
        ∧ Ev (MkdirTemp (path_dir out) ".kamisato-docker-out-*") (Ok staging) ∈ new
        ∧ Ev (CreateTemp (path_dir out) "makepkg-override-*.conf") (Ok override) ∈ new
        ∧ confined cwd b spec staging override config.
Proof.
  assert (Hb : triple (docker_Build cwd buildScript b spec)
    (only (λ new c, ∃ out, filepath_Abs cwd out_dir = Some out ∧ makes_staging out new c))).
  { assert (Hs : stable (λ new c, ∃ out, filepath_Abs cwd out_dir = Some out ∧ makes_staging out new c)).
    { intros new new' l c (out & Ho & Hc). exists out. split; [done|]. by apply stable_staging. }
    unfold docker_Build. case_decide; [by apply triple_fail; constructor|].
    eapply quiet_then_only; [done|apply quiet_lift|]. intros platform Hplatform.
    eapply quiet_then_only; [done|by apply quiet_abs|]. intros src [Hsrc _].
    eapply quiet_then_only; [done|by apply quiet_abs|]. intros out [Hout _].
    eapply (triple_impl _ (only (makes_staging out))).
    2: { intros new r Hn. eapply Forall_impl; [exact Hn|]. intros [T o r'] He. destruct o; try done. by exists out. }
    eapply quiet_then_only; [auto|by apply quiet_try|]. intros _ _.
    apply answers_then_only; [auto|by apply answers_try|]. intros staging.
    apply only_defer; [auto|unfold ignore; eapply quiet_bind with (P := λ _, True); [by apply quiet_ask|intros; by apply quiet_ret]|].
    eapply quiet_then_only; [auto|by apply quiet_try|]. intros _ _. eapply quiet_then_only; [auto|by apply quiet_try|]. intros _ _.
    apply only_defer; [auto|by apply quiet_ask|]. by apply only_docker_stage. }
  destruct (Hb h) as (new & E & Hn). exists new. split; [done|]. intros config r Hin.
  unfold only in Hn. rewrite Forall_forall in Hn. destruct (Hn _ Hin) as (out & Hout & staging & Hst & override & Hov & Hc).
  by exists out, staging, override.
Qed.
End confinement.
