(* ===== verification/BuildExamples.v ===== *)
(** * Builds on concrete inputs

    The theorems of [BuildConfigSpec] and [BuildBackendsSpec] at concrete
    configurations, runs of a container build, and a project repository that is no
    repository. *)

From S2P Require Import Catalog.
From S2P Require Import JobRequest.
From S2P Require Import Prelude GoStrings Paths.
From S2P Require Import Artifact.
From S2P Require Import BuildConfig.
From S2P Require Import BuildConfigSpec.
From S2P Require Import BuildBackends.
From S2P Require Import BuildBackendsSpec.

(** No letters beyond ASCII, two durations, and a template with one verb. *)
#[local] Instance go_lib : GoLib := {|
  letter_or_digit _ := false;
  ParseDuration s := if decide (s = "1h") then Some (3600 * 10 ^ 9)%Z else if decide (s = "30m") then Some (1800 * 10 ^ 9)%Z else None;
  duration_String _ := "1h";
  Sprintf template arch := ReplaceAll template "%s" arch;
|}.
#[local] Existing Instance elements_order.

Definition host : HostConfig :=
  mkHostConfig KindContainer (1800 * 10 ^ 9) [mkPacmanRepository "host" "https://host/$arch" "Required" []]
    (mkDockerConfig "host/$arch:latest" "unix:///run/docker.sock" "/cache/pacman" "/cache/ccache")
    (mkBwrapConfig "/rootfs" "") (mkDevtoolsConfig "" "extra-%s-build").

Definition makepkg : MakepkgConfig :=
  mkMakepkgConfig "J'Doe $(id) <j@example.org>" "x86_64_v3" "-O3" ["!strip"; "lto"] "zstd -c  -T0 -".

Definition project : ProjectConfig :=
  mkProjectConfig
    [mkPacmanRepository "project" "https://project/$repo/$arch" "" []; mkPacmanRepository "old" "https://old" "" ["i486"]]
    makepkg {["x86_64" := mkArchConfig "1h"]} "project/$arch:latest" "" "30m".

Definition overrides : BuildOverrides :=
  match Overrides project "x86_64" with Ok o => o | Err _ => mkBuildOverrides 0 [] makepkg "" end.

Lemma Resolve_confined_witness :
  Overrides project "x86_64" = Ok overrides ∧ ∃ c, Resolve host overrides "x86_64" = Ok c
    ∧ Repositories c = h_Repositories host ++ reposFor project "x86_64" ∧ Timeout c = (3600 * 10 ^ 9)%Z.
Proof.
  assert (Ho : Overrides project "x86_64" = Ok overrides) by (vm_compute; reflexivity).
  split; [exact Ho|]. exists (resolved host overrides "x86_64").
  assert (Hr : Resolve host overrides "x86_64" = Ok (resolved host overrides "x86_64")) by (vm_compute; reflexivity).
  destruct (Resolve_confined host project overrides "x86_64" _ Ho Hr) as (_ & _ & _ & _ & Hrepos & _).
  split; [exact Hr|]. split; [exact Hrepos|vm_compute; reflexivity].
Defined.

(** The project can name neither an architecture it does not build nor the backend. *)
Example overrides_unknown_arch : Overrides project "aarch64" = Err (ErrArchNotBuilt "aarch64" ["x86_64"]).
Proof. vm_compute. reflexivity. Qed.

(** A repository under the name of one of the operator's is refused, and so is one that would
    add lines to a configuration. *)
Example shadowing_refused :
  Resolve host (mkBuildOverrides 0 [mkPacmanRepository "host" "https://evil" "Never" []] (mkMakepkgConfig "" "" "" [] "") "") "x86_64"
  = Err (ErrBuildRepositories (ErrDuplicateName "host")).
Proof. vm_compute. reflexivity. Qed.

Example injection_refused :
  ValidateRepositories [mkPacmanRepository "r" ("https://r" +:+ nl +:+ heredoc_end) "" []] = Err (ErrServerControl "r").
Proof. vm_compute. reflexivity. Qed.

Lemma ExtraReposScript_lines_witness :
  ∃ script, ExtraReposScript (reposFor project "x86_64") = Ok script
    ∧ split_char newline script = trim_suffix repos_header nl
        :: ["" ; "[project]"; "SigLevel = Optional TrustAll"; "Server = https://project/$repo/$arch"] ++ heredoc_end :: awk_lines.
Proof.
  assert (Hs : ∃ script, ExtraReposScript (reposFor project "x86_64") = Ok script) by (eexists; vm_compute; reflexivity).
  destruct Hs as [script Hs]. exists script. split; [exact Hs|].
  assert (Hn : reposFor project "x86_64" ≠ []) by (vm_compute; discriminate).
  destruct (ExtraReposScript_lines _ _ Hn Hs) as [E _]. rewrite E.
  assert (El : concat (map stanza_lines (reposFor project "x86_64"))
    = [""; "[project]"; "SigLevel = Optional TrustAll"; "Server = https://project/$repo/$arch"]) by (vm_compute; reflexivity).
  rewrite El. reflexivity.
Defined.

(** A project repository may be called [options], which is no repository to pacman but the
    section of its global settings: the level of every repository that names none is the
    project's. *)
Example options_section :
  ∃ text, PacmanRepoStanzas [mkPacmanRepository "options" "https://x" "Never" []] = Ok text
    ∧ split_char newline text = [""; "[options]"; "SigLevel = Never"; "Server = https://x"; ""].
Proof. eexists. split; vm_compute; reflexivity. Qed.

Lemma override_read_witness :
  ∃ text, MakepkgOverrideLines makepkg = Ok text ∧ sh_script text = Some
    [assign "PACKAGER" false (Scalar "J'Doe $(id) <j@example.org>");
     assign "CFLAGS" true (Scalar " -march=x86-64-v3"); assign "CXXFLAGS" true (Scalar " -march=x86-64-v3");
     assign "RUSTFLAGS" true (Scalar " -Ctarget-cpu=x86-64-v3");
     assign "CFLAGS" true (Scalar " -O3"); assign "CXXFLAGS" true (Scalar " -O3");
     assign "OPTIONS" true (Array ["!strip"; "lto"]); assign "COMPRESSZST" false (Array ["zstd"; "-c"; "-T0"; "-"])].
Proof.
  assert (Ht : ∃ text, MakepkgOverrideLines makepkg = Ok text) by (eexists; vm_compute; reflexivity).
  destruct Ht as [text Ht]. exists text. split; [exact Ht|].
  assert (Hn : nul_free makepkg = true) by (vm_compute; reflexivity).
  destruct (override_read makepkg text Hn Ht) as (march & Hm & E). rewrite E. vm_compute in Hm. injection Hm as <-.
  vm_compute. reflexivity.
Defined.

(** ** A container build *)

(** A file system, a daemon and commands that do what they are asked; the container exits with
    [code] and leaves [files]. *)
Definition docker_world (code : Z) (files : list (string * bool)) : World := λ T h o,
  match o in op T return T with
  | ReadDir _ => Ok files
  | Info _ _ | Stat _ => Ok (mk_os_FileInfo 1 10 0 true true)
  | Lstat _ => Err FsNotExist
  | ReadFile _ => Ok "pkgbase = x"
  | MkdirAll _ | Mkdir _ | Chmod _ | RemoveAll _ | WriteString _ _ | CloseFile _ | Remove _ | SafeRemove _ | Rename _ _
  | SyncDirectory _ | CopyFile _ _ | LookPath _ | NewClient _ | ImagePull _ _ | DrainPull | ContainerStart _ | ContainerLogs _
  | ContainerStop _ | ContainerRemove _ => Ok tt
  | MkdirTemp _ _ => Ok "/out/staging"
  | CreateTemp _ _ => Ok "/out/override.conf"
  | Getenv _ => ""
  | Run _ _ => Ran
  | CloseClient | PinImage _ _ => tt
  | ImageInspect _ => Ok ["project/x86_64@sha256:abc"; "other@sha256:def"]
  | ContainerCreate _ => Ok "c1"
  | ContainerWait _ => WaitStatus code
  end.

Definition spec_example : Spec :=
  mkSpec "/src/pkg" "/out/repo" "x86_64" "" ["/srv/repos"; "/srv/repos/core"; "/srv/extra"] ["/dep/dep.pkg.tar.zst"] ["git"]
    false (Some false) None false false.

Definition build_example (code : Z) (files : list (string * bool)) : result build_error (list string) * list event :=
  docker_Build (W := docker_world code files) (Some "/") "x" (docker_New (resolved host overrides "x86_64")) spec_example [].

Example build_ok :
  (build_example 0 [("pkg-1-1-x86_64.pkg.tar.zst", false); ("log", false)]).1 = Ok ["/out/repo/pkg-1-1-x86_64.pkg.tar.zst"].
Proof. vm_compute. reflexivity. Qed.
Example build_exit : (build_example 2 []).1 = Err (ErrBuildFailed "exit code").
Proof. vm_compute. reflexivity. Qed.
Example build_empty : (build_example 0 [("log", false)]).1 = Err (ErrBuildFailed no_packages).
Proof. vm_compute. reflexivity. Qed.

(** The container runs the image by the digest that was pulled, and the nested repository is
    reached through the one that holds it. *)
Definition created (e : event) : option ContainerConfig :=
  match e with @Ev T o _ => match o with ContainerCreate config => Some config | _ => None end end.
Example build_container :
  map (λ c, (c_Image c, map MountTarget (Mounts c))) (omap created (build_example 0 []).2)
  = [("project/x86_64@sha256:abc",
      ["/build/src"; "/build/out"; "/build/staging/makepkg.override.conf"; "/build/install/0/dep.pkg.tar.zst";
       "/srv/extra"; "/srv/repos"; "/var/cache/pacman/pkg"; "/build/ccache"])].
Proof. vm_compute. reflexivity. Qed.

Lemma container_confined_witness :
  length (omap created (build_example 0 []).2) = 1 ∧
  ∀ config r, Ev (ContainerCreate config) r ∈ (build_example 0 []).2 →
    ∃ staging override, confined (Some "/") (docker_New (resolved host overrides "x86_64")) spec_example staging override config.
Proof.
  assert (Hwd : ∀ wd, Some "/" = Some wd → is_abs wd = true) by (by intros wd [= <-]).
  split; [vm_compute; reflexivity|]. intros config r Hin.
  destruct (container_confined (W := docker_world 0 []) (Some "/") "x" Hwd (docker_New (resolved host overrides "x86_64")) spec_example [])
    as (new & E & Hn).
  unfold build_example in Hin. rewrite E in Hin. destruct (Hn config r Hin) as (out & staging & override & _ & _ & _ & Hc).
  by exists staging, override.
Defined.
